(* ===== verification/_CoqProject ===== *)
-Q . S2P
Prelude.v
Bytes.v
RustStr.v
Frame.v
Domain.v
Text.v
Json.v
Projection.v
Mapper.v
MapperProps.v
LocalStore.v
StoreProps.v
Prog.v
Proto.v
FilePolicy.v
Grants.v
Upload.v
FilesProps.v
UploadProps.v
FilesDemo.v
Concurrent.v
Queue.v
Gateway.v
Ipc.v
IpcProps.v
ProtoMapping.v
ProtoMappingProps.v
Capabilities.v
Adapter.v
Catalog.v
AdapterProps.v
AdapterSafety.v
CommandProps.v
CommandTraces.v
Commands.v
Power.v
PowerProps.v
Observer.v
Runtime.v
RuntimeProps.v
Requests.v
Git.v
RequestProps.v
Messages.v
Buffer.v
BufferProps.v
Stream.v
StreamProps.v
Hub.v
HubProps.v
HubDelivery.v
HubDemo.v
Transfers.v
RangeProps.v
TransfersProps.v
TransfersDemo.v
Pending.v
PendingProps.v
Observe.v
Zcode.v
ZcodeProps.v
ZcodeDemo.v
Helper.v
RelayBase.v
Auth.v
AuthProps.v
Pairing.v
PairingProps.v
BridgeConfig.v
PairClient.v
Transport.v
RelayStore.v
Notify.v
RelayOps.v
RelayCommands.v
RelayCommandProps.v
RelaySessions.v
RelayStoreProps.v
RelayDemo.v
Sockets.v
