(* ===== verification/Prelude.v ===== *)
(** * Agent Console: verification of the Bridge and the Relay

    Agent Console lets a browser watch and steer coding agents that run on a user's machines.
    The Bridge ([src/apps/bridge]) runs next to the agents.  It follows Codex Desktop over a local
    socket, answers the permission hooks of ZCode, keeps a small SQLite store and talks to the
    Relay.  The Relay ([src/apps/relay]) runs on a server; it accepts Bridges and browsers over
    WebSockets, routes protocol messages ([src/crates/protocol], [src/proto]) between them, and
    keeps for each subscribed stream a window of recent frames so that a browser that reconnects
    misses nothing.

    ** The parts and their files

    Shared: [Prelude] (results, machine integers, sorting, the order of paged lists and their pages
    put together, ordered maps, tactics), [Bytes] and [RustStr] (byte strings, UTF-8, the methods
    of [str] the sources call), [Json] (the interface of [serde_json::Value]), [Prog] (a handler as
    a tree of atomic operations, pools of such programs, and budgets for what they may do).

    Bridge, following Codex:
    - [Frame]: [adapter/codex/ipc/frame.rs] and the read loop of [ipc/client.rs].
    - [Domain], [Text]: the data of [domain/], and the splitting of output at characters.
    - [Projection]: [adapter/codex/projection.rs], from the native state tree to the domain, and
      the interpreter of Immer patches.
    - [Mapper], [MapperProps]: [adapter/codex/mapper.rs], from successive trees to domain events.
    - [Ipc], [IpcProps]: [ipc/messages.rs] and [ipc/client.rs], requests, dispatch and the loops of
      one connection.
    - [Capabilities]: [capabilities/], from version and probe results to a [CapabilitySet].
    - [Adapter], [AdapterProps], [AdapterSafety]: [adapter/codex/mod.rs] as programs over the
      sessions and the connections of [Ipc].
    - [Catalog]: [adapter/codex/catalog.rs], the databases of Codex as tables with the columns they
      happen to have, and the pages read from them.

    Bridge, commands:
    - [LocalStore], [StoreProps]: the query methods of [local_store/] over tables.
    - [Concurrent]: the atomic operations of the handlers; alone ([run]) and interleaved ([step]).
    - [Queue], [Gateway]: [commands/queue.rs] and [commands/gateway.rs] as such programs.
    - [CommandProps], [CommandTraces]: their properties and concrete schedules.
    - [Commands]: [commands/settings.rs], [attention.rs] and [background.rs], commands checked
      against a snapshot before they are submitted, and [commands/upload_lifecycle.rs].
    - [Power], [PowerProps]: [power/mod.rs] and [commands/power.rs].
    - [ProtoMapping], [ProtoMappingProps]: [runtime/proto_mapping.rs], between the domain and the
      protocol messages.

    Bridge, towards the Relay:
    - [Observer]: [runtime/observe.rs], when a session is looked at again.
    - [Runtime], [RuntimeProps]: the outgoing streams of [runtime/mod.rs], its caches, and the
      handlers that subscribe, resynchronise, pump events and observe.
    - [Requests], [RequestProps]: the queries, the commands and the dispatch of [runtime/mod.rs].
    - [Git]: [git/mod.rs], the commands that are run, and what is made of their output.
    - [Transport]: [transport/], the task that connects, serves and reconnects, and [codec.rs].
    - [BridgeConfig], [PairClient]: the constants and addresses of [config/mod.rs], and the client of
      [pairing.rs] that asks the Relay for a credential.

    Bridge, ZCode:
    - [Pending], [PendingProps]: [zcode/pending.rs] and the data of [zcode/contract.rs].
    - [Observe]: [zcode/observe.rs], and the cards and summaries of [zcode/link.rs].
    - [Zcode], [ZcodeProps], [ZcodeDemo]: the socket task of [zcode/server.rs] and the command
      path of [zcode/link.rs] and [runtime/mod.rs].
    - [Helper]: the other end of that socket, [zcode/helper.rs] and [zcode/mcp.rs], with the parsing
      of [zcode/contract.rs].

    Files and transfers.  A browser's bytes and a Bridge's bytes meet in the Relay; the parts are
    joined by [Proto.pb.TransferOffer], [TransferReady] and [TransferResult].
    - [Proto]: the messages and enums of [src/proto] as [prost] generates them.
    - [FilePolicy], [Grants], [FilesProps]: [files/policy.rs] and [files/grant.rs]; operations on
      handles are programs over an arbitrary file system that changes under them.
    - [Upload], [UploadProps], [FilesDemo]: [files/upload.rs], [files/transfer.rs] and the
      handlers of an offer in [runtime/transfers.rs].
    - [Transfers], [TransfersProps], [TransfersDemo]: the Relay's [transfers/mod.rs], its one-shot
      channels and locks (which a panic poisons) included.
    - [RangeProps]: a range from the browser's header through the offer to the file.

    Relay:
    - [Messages]: the messages it routes, the size check of [codec.rs], the trigger matrix of
      [push/mod.rs].
    - [Buffer], [BufferProps]: [realtime/buffer.rs], the replay window and the send queue.
    - [Stream], [StreamProps]: one stream of [realtime/mod.rs] ([DStream]).
    - [Hub], [HubProps], [HubDelivery], [HubDemo]: the hub of [realtime/mod.rs], one
      function per critical section, and the transition system they make up.
    - [RelayBase]: [state.rs], addresses and trusted networks, the limiter, the names of the codes.
    - [Auth], [AuthProps]: [auth/], who a browser is, and the round over the sessions of browsers.
    - [Pairing], [PairingProps]: [devices/pairing.rs] and [devices/mod.rs] over the tables of
      challenges and devices; the SQL statements are functions on the tables.
    - [RelayStore], [RelayStoreProps]: [sessions/store.rs], the tables of session summaries and of
      receipts, the cursors of their lists, and what the session API gives to whom.
    - [RelayOps], [RelayCommands], [RelayCommandProps]: the database side of [realtime/mod.rs], from the
      command of a browser to the answer of the Bridge, with the ends of connections and of the
      Relay; the handlers are programs over the hub and the database.
    - [Notify]: the other half of [push/mod.rs], what is sent for a trigger, and the handlers of
      subscriptions and settings.
    - [RelaySessions], [RelayDemo]: the routes of [sessions/mod.rs] as such programs, and examples.
    - [Sockets]: [auth/browser_ws.rs] and [devices/bridge_ws.rs], the connection of a browser and of
      a Bridge from its first message to its removal, with the task that writes to it, and what is
      done with a message of a browser.

    A struct is a Record and an enum an Inductive with the source's names, in a Module of its own
    where field names would clash; a method is a function of the state that returns its result
    and the new state.  [Foo::bar] of the source reads [Foo.bar] or [bar] here.

    ** What is shown

    - Nothing is dispatched twice, or without its guards, under any interleaving of handlers,
      watchers and shutdown ([CommandProps], [CommandTraces]); every submission answers once itself (a
      shutdown in between may answer it again), and receipts end with one terminal state; the store records a receipt once ([StoreProps]).
    - A browser that replays the mapper's events holds exactly the native output; the mapper
      never reaches its only [expect] with nothing in it ([MapperProps]).  Immer patches write what
      they say where they say and nowhere else, up to the first error; answers are parsed back ([Projection]).
    - The frame decoder does not depend on how the bytes arrive, returns what the texts of the encoder
      parse to, up to the first that is no object, and never buffers more than a frame ([Frame]); text is split between characters ([Text]).
    - A request over IPC ends with the answer to its own number, or with one of the four errors, and
      leaves no entry behind ([IpcProps]); a command writes to Codex at most one request, that of its payload,
      to the owner just found, through an operation the capabilities open and while the turn is still the
      expected one; no program of the adapter panics or breaks the sessions, and an attach round opens only
      writes that were probed ([AdapterProps], [AdapterSafety], [Capabilities]).
    - What is announced to a browser is what the gate of its commands accepts; events and snapshots
      survive the way through the protocol ([ProtoMappingProps]).
    - The envelopes of each epoch of a stream are numbered without gap whatever handlers overlap, and a
      subscription gets its snapshot and then every event, in order ([RuntimeProps]); every command is
      answered once, a session of ZCode never reaches Codex, and the pages of an output put together
      are the output ([RequestProps]).
    - Checked commands forward only what a snapshot offers ([Commands]); updates of the power
      assertion that do not overlap hold at most one process, and none when none is wanted ([PowerProps]).
    - A ZCode request is decided at most once and in time, its helper is answered exactly once and
      never allowed by accident, its registration is always settled, and a browser is told
      "completed" only after the helper's acknowledgement ([PendingProps], [ZcodeProps]).
    - The hub's registries stay consistent in every reachable state ([HubProps]); a subscriber is
      sent every event in order or is closed, never left with a silent hole ([HubDelivery]); what
      a reconnecting browser is replayed is complete or announced as a reset ([StreamProps]);
      merging is lossless and the limits hold after every insertion ([BufferProps]).
    - A file is served only through a live handle of its device and session, from the file the
      handle was issued for, inside its root, unchanged, and within its limits ([FilesProps],
      [UploadProps]); every offer is answered and gives its slot back; an upload never exceeds
      its limit on either side, and at most two transfers run per owner and device in every
      reachable state; a transfer is decided once, and only by who is authorised
      ([TransfersProps]); both parsers of ranges agree on what the browser asked ([RangeProps]).
    - Whatever handlers of the Relay overlap, every device comes from one request, approved in the name of
      its owner before it expired - which the recorded past of the tables shows -, and its credential was handed out once, to who knew the secret of the request
      ([PairingProps]); the Bridge that waits for it comes to an end ([PairClient]); a round over the
      sessions closes the connections of invalid and expired sessions and no others ([AuthProps]).
    - A command reaches a Bridge at most once per receipt, whatever handlers run beside it, only after
      every check on its connection, its user and its target, and its browser is told at most one
      result ([RelayCommandProps]); the session API shows a user their own rows and asks only their
      own Bridges, its pages together are the whole list, and a summary changes one row
      ([RelayStoreProps]).
    - Between two attempts to connect there is a pause of at least the backoff, and a connection
      starts with the hello and carries the queue in order ([Transport]); the pages of the list of
      sessions, and of a history whose items have different ordinals, show every row once
      ([Catalog]).
    - The hook helper prints only the decision of the Bridge and ends with 0; the MCP server answers
      each call at most once, with its own answer, and acknowledges what it wrote ([Helper]).
    - Git is only asked to read, inside an authorised root; its status is read back, and a diff is
      marked exactly when it was cut ([Git]).
    - A notification is only sent as its user allows, and not twice within the window ([Notify]).
    - A connection of the Relay is removed whichever of its tasks ends first, and everything a Bridge
      sends goes through the handlers of the hub in order; a browser follows only a session of its own
      user on a device that is online; a writer of a closed queue sends the direct messages left and
      the close, and then nothing ([Sockets]).
    The [Demo] files hold witnesses, and schedules or inputs on which the code does something its
    comments rule out.

    ** Modelling choices

    - Code outside [src/] is a parameter: [serde_json], [chrono], [prost], [uuid], SHA-256 and
      [infer] are type classes, with the laws that are used as fields of a class of laws.  SQLite
      appears through the faults it reports; Codex Desktop, sockets and timers through the
      answers of the operations that wait for them, which are arbitrary.
    - Interleaving: between two operations of a handler any other task may run.  Where a property
      is about one task, the others do whatever the type of the shared state allows.
    - Instants and timestamps are integers; clock readings are arguments or answers.  Identifiers
      the code draws at random are arguments.  A [HashMap] iterates in the order of [map_to_list].
    - Sequence counters of streams ([u64], one step per frame) do not wrap in the model; lengths,
      sizes, ports and parsed integers are bounded as in the code.
    - Message ids, protocol versions and timestamps of envelopes are written and never read; they
      are left out.  Logging is left out.

    Fuel is used where recursion is not structural, and each use comes with enough: the length of
    the buffer for the splitting of output (each chunk takes a byte), [MAX_ATTEMPTS] for retries,
    the number of frames or held events for eviction (each round drops one), the length of the
    text for trimming and UTF-8 validation, the limit of a line for reading it (a read takes a
    byte).  The loops that serve for ever ([Transport], [Helper.serve]) are run for any number of
    rounds; what is shown holds of every run.

    ** Not modelled

    Of the Bridge: the keychain, the search for sockets and executables, the environment and its
    default directories, the double of Codex for tests ([fake_owner.rs]) and [main.rs].  Of the Relay: the JSON of the session
    API, the audit list, the Web Push service and
    [main.rs].  These are I/O, glue or renderings around the parts above. *)

From stdpp Require Export base list strings gmap sets pretty sorting.
From Stdlib Require Export ZArith Lia Bool.
From Stdlib Require Export Strings.Byte.

Declare Scope rust_scope.
Delimit Scope rust_scope with rust.

(** ** Fallible code: Rust's [Result] *)

Inductive res (E A : Type) : Type :=
| Ok (a : A)
| Err (e : E).
Arguments Ok {E A} _.
Arguments Err {E A} _.

Definition res_bind {E A B} (r : res E A) (k : A -> res E B) : res E B :=
  match r with
  | Ok a => k a
  | Err e => Err e
  end.

Definition map_err {E F A} (f : E -> F) (r : res E A) : res F A :=
  match r with
  | Ok a => Ok a
  | Err e => Err (f e)
  end.

(** [Option::ok_or]. *)
Definition ok_or {E A} (e : E) (o : option A) : res E A :=
  match o with
  | Some a => Ok a
  | None => Err e
  end.

Definition res_is_ok {E A} (r : res E A) : bool :=
  match r with
  | Ok _ => true
  | Err _ => false
  end.

(** [Result::ok]. *)
Definition res_ok {E A} (r : res E A) : option A :=
  match r with
  | Ok a => Some a
  | Err _ => None
  end.

(** [iter().filter_map(f)]. *)
Definition filter_map {A B} (f : A -> option B) (l : list A) : list B := omap f l.

(** [Vec::dedup]: consecutive equal elements become one. *)
Fixpoint vec_dedup {A} `{EqDecision A} (l : list A) : list A :=
  match l with
  | [] => []
  | x :: l =>
      match l with
      | y :: _ => if bool_decide (x = y) then vec_dedup l else x :: vec_dedup l
      | [] => [x]
      end
  end.

Notation "'let?' x := r 'in' k" := (res_bind r (fun x => k))
  (at level 10, x pattern, r at level 100, k at level 200) : rust_scope.
#[global] Open Scope rust_scope.

Lemma res_bind_ok {E A B} (r : res E A) (k : A -> res E B) (b : B) :
  res_bind r k = Ok b <-> exists a, r = Ok a /\ k a = Ok b.
Proof. destruct r; simpl; split; naive_solver. Qed.

Lemma res_bind_err {E A B} (r : res E A) (k : A -> res E B) (e : E) :
  res_bind r k = Err e <-> r = Err e \/ exists a, r = Ok a /\ k a = Err e.
Proof. destruct r; simpl; split; naive_solver. Qed.

Lemma ok_or_ok {E A} (e : E) (o : option A) (a : A) :
  ok_or e o = Ok a <-> o = Some a.
Proof. destruct o; naive_solver. Qed.

#[global] Instance res_eq_dec {E A} `{EqDecision E, EqDecision A} : EqDecision (res E A).
Proof. solve_decision. Defined.

#[global] Instance byte_eq_dec : EqDecision byte := Byte.byte_eq_dec.

(** ** Machine integers *)

#[global] Open Scope string_scope.
#[global] Open Scope list_scope.
#[global] Open Scope Z_scope.

Definition u32_max : Z := 2 ^ 32 - 1.
Definition u64_max : Z := 2 ^ 64 - 1.
Definition i64_max : Z := 2 ^ 63 - 1.

Definition is_u32 (z : Z) : Prop := 0 <= z <= u32_max.
Definition is_u64 (z : Z) : Prop := 0 <= z <= u64_max.

(** [x as u32], [x as u64], [x as i64] on an integer: reduction modulo the width. *)
Definition as_u32 (z : Z) : Z := z mod 2 ^ 32.
Definition as_u64 (z : Z) : Z := z mod 2 ^ 64.
Definition as_i64 (z : Z) : Z := (z + 2 ^ 63) mod 2 ^ 64 - 2 ^ 63.

(** [usize::saturating_sub], [u64::saturating_sub]. *)
Definition sat_sub (a b : Z) : Z := Z.max 0 (a - b).

(** Length of a [Vec], [VecDeque] or slice, as a [usize]. *)
Definition zlen {A} (l : list A) : Z := Z.of_nat (length l).

Lemma zlen_nonneg {A} (l : list A) : 0 <= zlen l.
Proof. unfold zlen; lia. Qed.

Lemma zlen_nil {A} : zlen (@nil A) = 0.
Proof. done. Qed.

Lemma zlen_cons {A} (x : A) (l : list A) : zlen (x :: l) = zlen l + 1.
Proof. unfold zlen; simpl; lia. Qed.

Lemma zlen_app {A} (l k : list A) : zlen (l ++ k) = zlen l + zlen k.
Proof. unfold zlen; rewrite length_app; lia. Qed.

Lemma zlen_zero {A} (l : list A) : zlen l = 0 <-> l = [].
Proof. destruct l; unfold zlen; simpl; split; intros; try done; lia. Qed.

Lemma zlen_map {A B} (f : A -> B) (l : list A) : zlen (map f l) = zlen l.
Proof. unfold zlen; by rewrite length_map. Qed.

Create HintDb rust.
Create Rewrite HintDb rust.
#[export] Hint Rewrite @zlen_nil @zlen_cons @zlen_app @zlen_map : rust.
#[export] Hint Resolve zlen_nonneg : rust.

Lemma as_i64_u64 (z : Z) : is_u64 z -> as_u64 (as_i64 z) = z.
Proof.
  unfold is_u64, as_u64, as_i64, u64_max; intros Hz.
  rewrite Zminus_mod_idemp_l.
  replace (z + 2 ^ 63 - 2 ^ 63) with z by lia. apply Z.mod_small. lia.
Qed.

(** ** Sums over lists *)

Definition sum_by {A} (f : A -> Z) (l : list A) : Z := foldr (fun x acc => f x + acc) 0 l.

Lemma sum_by_app {A} (f : A -> Z) (l k : list A) : sum_by f (l ++ k) = sum_by f l + sum_by f k.
Proof. induction l as [|x l IH]; simpl; [done|]. unfold sum_by in *; simpl; lia. Qed.

Lemma sum_by_nonneg {A} (f : A -> Z) (l : list A) :
  Forall (fun x => 0 <= f x) l -> 0 <= sum_by f l.
Proof. induction 1 as [|x l Hx _ IH]; simpl; [done|]. unfold sum_by in *; simpl; lia. Qed.

Lemma sum_by_cons {A} (f : A -> Z) (x : A) (l : list A) : sum_by f (x :: l) = f x + sum_by f l.
Proof. done. Qed.

#[export] Hint Rewrite @sum_by_app @sum_by_cons : rust.

(** ** [sort_by_key]: the stable sort of the standard library *)

Fixpoint insert_by_key {A} (key : A -> Z) (x : A) (l : list A) : list A :=
  match l with
  | [] => [x]
  | y :: l' => if key x <=? key y then x :: l else y :: insert_by_key key x l'
  end.

Definition sort_by_key {A} (key : A -> Z) (l : list A) : list A := foldr (insert_by_key key) [] l.

Lemma insert_by_key_perm {A} (key : A -> Z) (x : A) (l : list A) :
  insert_by_key key x l ≡ₚ x :: l.
Proof. induction l as [|y l IH]; simpl; [done|]. case_match; [done|]. rewrite IH. by constructor. Qed.

Lemma sort_by_key_perm {A} (key : A -> Z) (l : list A) : sort_by_key key l ≡ₚ l.
Proof. induction l as [|x l IH]; simpl; [done|]. by rewrite insert_by_key_perm, IH. Qed.

Lemma insert_by_key_sorted {A} (key : A -> Z) (x : A) (l : list A) :
  Sorted (fun a b => key a <= key b) l -> Sorted (fun a b => key a <= key b) (insert_by_key key x l).
Proof.
  induction 1 as [|y l Hl IH Hd]; simpl; [by repeat constructor|].
  destruct (Z.leb_spec (key x) (key y)); [repeat constructor; done|].
  constructor; [done|]. destruct Hd; simpl; [constructor; lia|].
  case_match; constructor; lia.
Qed.

Lemma sort_by_key_sorted {A} (key : A -> Z) (l : list A) :
  Sorted (fun a b => key a <= key b) (sort_by_key key l).
Proof. induction l as [|x l IH]; simpl; [constructor|]. by apply insert_by_key_sorted. Qed.

(** Elements with the same key keep their order. *)
Lemma insert_by_key_filter {A} (key : A -> Z) (k : Z) (x : A) (l : list A) :
  filter (fun y => key y = k) (insert_by_key key x l) = filter (fun y => key y = k) (x :: l).
Proof.
  induction l as [|y l IH]; simpl; [done|].
  destruct (Z.leb_spec (key x) (key y)); [done|].
  rewrite !filter_cons, IH, filter_cons. repeat case_decide; try done. lia.
Qed.

Lemma sort_by_key_stable {A} (key : A -> Z) (k : Z) (l : list A) :
  filter (fun y => key y = k) (sort_by_key key l) = filter (fun y => key y = k) l.
Proof.
  induction l as [|x l IH]; [done|]. change (sort_by_key key (x :: l)) with (insert_by_key key x (sort_by_key key l)).
  rewrite insert_by_key_filter, !filter_cons, IH. done.
Qed.

(** ** Tactics *)

(** Decompose successful and failing monadic code found in the hypotheses. *)
Ltac res_inv :=
  repeat match goal with
  | H : res_bind _ _ = Ok _ |- _ => apply res_bind_ok in H as (? & ? & H)
  | H : ok_or _ _ = Ok _ |- _ => apply ok_or_ok in H
  | H : Ok _ = Ok _ |- _ => injection H as H; subst
  | H : Err _ = Err _ |- _ => injection H as H; subst
  | H : Ok _ = Err _ |- _ => discriminate H
  | H : Err _ = Ok _ |- _ => discriminate H
  end.

(** Boolean tests of the code turned into propositions. *)
Ltac bool_to_prop :=
  repeat match goal with
  | H : (_ && _)%bool = true |- _ => apply andb_true_iff in H as [? ?]
  | H : (_ || _)%bool = false |- _ => apply orb_false_iff in H as [? ?]
  | H : negb _ = true |- _ => apply negb_true_iff in H
  | H : negb _ = false |- _ => apply negb_false_iff in H
  | H : (_ =? _)%Z = true |- _ => apply Z.eqb_eq in H
  | H : (_ =? _)%Z = false |- _ => apply Z.eqb_neq in H
  | H : (_ <? _)%Z = true |- _ => apply Z.ltb_lt in H
  | H : (_ <? _)%Z = false |- _ => apply Z.ltb_ge in H
  | H : (_ <=? _)%Z = true |- _ => apply Z.leb_le in H
  | H : (_ <=? _)%Z = false |- _ => apply Z.leb_gt in H
  | H : (_ >? _)%Z = true |- _ => apply Z.gtb_lt in H
  | H : (_ >? _)%Z = false |- _ => rewrite Z.gtb_ltb in H; apply Z.ltb_ge in H
  | H : bool_decide _ = true |- _ => apply bool_decide_eq_true in H
  | H : bool_decide _ = false |- _ => apply bool_decide_eq_false in H
  end.

(** Split every [match] of the goal or hypotheses and discharge what is contradictory. *)
Ltac split_matches :=
  repeat (case_match; simplify_eq/=; res_inv; try done).

(** ** [BTreeMap<String, V>]: a [gmap] iterated in the byte order of its keys, the order of [Ord] on [str] *)

Section BTree.
Context {V : Type}.

Definition entry_le (a b : string * V) : Prop := String.le a.1 b.1.

#[global] Instance entry_le_dec : RelDecision entry_le.
Proof. intros a b. unfold entry_le. apply _. Defined.

(** [m.iter()]: the entries in key order. *)
Definition bt_iter (m : gmap string V) : list (string * V) := merge_sort entry_le (map_to_list m).

(** [m.keys()], [m.values()]. *)
Definition bt_keys (m : gmap string V) : list string := map fst (bt_iter m).
Definition bt_values (m : gmap string V) : list V := map snd (bt_iter m).

(** [m.entry(key).or_insert(value)]: keeps what is there. *)
Definition bt_or_insert (key : string) (value : V) (m : gmap string V) : gmap string V :=
  match m !! key with
  | Some _ => m
  | None => <[key := value]> m
  end.

Definition bt_contains_key (key : string) (m : gmap string V) : bool :=
  match m !! key with Some _ => true | None => false end.

Lemma bt_iter_elem (m : gmap string V) (k : string) (v : V) :
  (k, v) ∈ bt_iter m <-> m !! k = Some v.
Proof. unfold bt_iter. by rewrite merge_sort_Permutation, elem_of_map_to_list. Qed.

Lemma bt_iter_length (m : gmap string V) : length (bt_iter m) = size m.
Proof. unfold bt_iter. by rewrite merge_sort_Permutation, length_map_to_list. Qed.

Lemma bt_iter_NoDup_keys (m : gmap string V) : NoDup (bt_keys m).
Proof.
  unfold bt_keys, bt_iter. change (map fst) with (fmap (M := list) (@fst string V)).
  rewrite merge_sort_Permutation. apply NoDup_fst_map_to_list.
Qed.

Lemma bt_keys_elem (m : gmap string V) (k : string) : k ∈ bt_keys m <-> is_Some (m !! k).
Proof.
  unfold bt_keys. change (map fst) with (fmap (M := list) (@fst string V)).
  rewrite list_elem_of_fmap. split.
  - intros ([k' v] & -> & H). apply bt_iter_elem in H. by exists v.
  - intros [v H]. exists (k, v). by rewrite bt_iter_elem.
Qed.

#[local] Instance entry_le_trans : Transitive entry_le.
Proof. intros a b c. unfold entry_le. apply transitivity. Qed.

#[local] Instance entry_le_total : Total entry_le.
Proof. intros a b. unfold entry_le. apply (total String.le). Qed.

(** Iteration visits the keys in increasing order. *)
Lemma bt_iter_sorted (m : gmap string V) : StronglySorted entry_le (bt_iter m).
Proof. apply (StronglySorted_merge_sort entry_le); apply _. Qed.

End BTree.

(** ** Keyset pages

    The rows after a key, one more than the page so that it is known whether there are more; the key of the last
    row of a page leads to the next.  [follow_all]: while the rows do not change, following the keys gives every row once, in order. *)

(** [if rows.len() > n { rows.pop(); next = rows.last() }]. *)
Definition cut_page {A : Type} (n : nat) (rows : list A) : list A * option A :=
  if (n <? length rows)%nat then (take (length rows - 1) rows, last (take (length rows - 1) rows)) else (rows, None).

(** The rows a query returns: those that come after the key, [n] and one more. *)
Definition rows_after {A K : Type} (lt : K -> K -> bool) (key : A -> K) (n : nat) (before : option K) (rows : list A) : list A :=
  take (S n) (filter (fun r => match before with None => true | Some k => lt (key r) k end = true) rows).

Lemma cut_page_incl {A : Type} (n : nat) (rows page : list A) (more : option A) : cut_page n rows = (page, more) -> page ⊆ rows.
Proof. unfold cut_page. case_match; intros E; injection E as <- _; [apply subseteq_take|done]. Qed.

Lemma cut_page_elem {A : Type} (n : nat) (rows page : list A) (r : A) : cut_page n rows = (page, Some r) -> r ∈ rows.
Proof.
  unfold cut_page. case_match; [|done]. intros E. injection E as _ E. apply last_Some_elem_of in E. by apply (subseteq_take (length rows - 1) rows).
Qed.

Lemma rows_after_elem {A K : Type} (lt : K -> K -> bool) (key : A -> K) (n : nat) (before : option K) (rows : list A) (r : A) :
  r ∈ rows_after lt key n before rows -> r ∈ rows.
Proof. intros E. unfold rows_after in E. apply (subseteq_take (S n)) in E. by apply list_elem_of_filter in E as [_ E]. Qed.

Section Follow.
Context {A K : Type} (lt : K -> K -> bool) (key : A -> K).
Hypothesis lt_irrefl : forall a, lt a a = false.
Hypothesis lt_asym : forall a b, lt a b = true -> lt b a = false.

Definition descending (rows : list A) : Prop := StronglySorted (fun a b => lt (key b) (key a) = true) rows.

(** What a client does: ask for the page of a key until there is no next one. *)
Fixpoint follow (fuel n : nat) (before : option K) (rows : list A) : option (list A) :=
  match fuel with
  | O => None
  | S fuel =>
      match cut_page n (rows_after lt key n before rows) with
      | (page, None) => Some page
      | (page, Some r) => rest ← follow fuel n (Some (key r)) rows; Some (page ++ rest)
      end
  end.

Lemma after_key (front : list A) (x : A) (rest : list A) :
  descending (front ++ x :: rest) -> filter (fun r => lt (key r) (key x) = true) (front ++ x :: rest) = rest.
Proof.
  intros S. rewrite filter_app, filter_cons, lt_irrefl, decide_False by done. replace (filter _ front) with (@nil A).
  - simpl. induction front as [|y front IH]; simpl in S; inversion S as [|? ? S' F]; subst; [|by apply IH].
    clear S S'. induction F as [|z rest E _ IH]; [done|]. rewrite filter_cons, E, decide_True by done. by rewrite IH.
  - symmetry. induction front as [|y front IH]; [done|]. simpl in S. inversion S as [|? ? S' F]; subst.
    rewrite filter_cons. apply Forall_app in F as [_ F]. inversion F as [|? ? E _]; subst. apply lt_asym in E. rewrite E, decide_False by done. by apply IH.
Qed.

Lemma cut_short (n : nat) (l : list A) : (length l <= n)%nat -> cut_page n (take (S n) l) = (l, None).
Proof. intros L. rewrite take_ge by lia. unfold cut_page. by rewrite (proj2 (Nat.ltb_ge _ _)). Qed.

Lemma cut_long (n : nat) (l : list A) : (n < length l)%nat -> cut_page n (take (S n) l) = (take n l, last (take n l)).
Proof.
  intros L. unfold cut_page. rewrite length_take, Nat.min_l by lia. rewrite (proj2 (Nat.ltb_lt _ _)) by lia.
  rewrite take_take. replace (Nat.min (S n - 1) (S n)) with n by lia. done.
Qed.

Lemma follow_rest (fuel n : nat) (before : option K) (rows rest : list A) :
  (1 <= n)%nat -> (length rest < fuel)%nat -> descending rows ->
  (exists front, rows = front ++ rest) ->
  filter (fun r => match before with None => true | Some k => lt (key r) k end = true) rows = rest ->
  follow fuel n before rows = Some rest.
Proof.
  intros N. revert before rest. induction fuel as [|fuel IH]; intros before rest F S [front E] Fl; [lia|]. cbn [follow]. unfold rows_after. rewrite Fl.
  destruct (Nat.le_gt_cases (length rest) n) as [L|L]; [by rewrite cut_short|]. rewrite cut_long by done.
  destruct (last (take n rest)) as [x|] eqn:Lx.
  - apply last_Some in Lx as [page Lx].
    assert (R : rows = (front ++ page) ++ x :: drop n rest).
    { rewrite E, <- (take_drop n rest) at 1. rewrite Lx. by rewrite <- !app_assoc. }
    rewrite (IH (Some (key x)) (drop n rest)).
    + simpl. by rewrite take_drop.
    + rewrite length_drop. lia.
    + done.
    + exists ((front ++ page) ++ [x]). by rewrite <- app_assoc.
    + rewrite R. apply after_key. by rewrite <- R.
  - apply last_None in Lx. apply (f_equal length) in Lx. rewrite length_take in Lx. simpl in Lx. lia.
Qed.

(** Following the keys from the start gives all rows. *)
Lemma follow_all (fuel n : nat) (rows : list A) :
  (1 <= n)%nat -> (length rows < fuel)%nat -> descending rows -> follow fuel n None rows = Some rows.
Proof.
  intros N F S. apply follow_rest; [done..|by exists []|]. clear. induction rows as [|r rows IH]; [done|]. rewrite filter_cons, decide_True by done. by rewrite IH.
Qed.
End Follow.

Lemma string_ltb_leb (a b : string) : String.ltb a b = negb (String.leb b a).
Proof. unfold String.ltb, String.leb. rewrite String.compare_antisym. by destruct (String.compare b a). Qed.

(** The order of rows [(number, text)] in SQL. *)
Definition pair_lt (a b : Z * string) : bool := (a.1 <? b.1) || ((a.1 =? b.1) && String.ltb a.2 b.2).

Definition pair_le (a b : Z * string) : Prop := a.1 < b.1 \/ a.1 = b.1 /\ String.le a.2 b.2.

Lemma pair_lt_false (a b : Z * string) : pair_lt a b = false <-> pair_le b a.
Proof.
  unfold pair_lt, pair_le, String.le. rewrite string_ltb_leb.
  destruct (Z.ltb_spec a.1 b.1), (Z.eqb_spec a.1 b.1), (String.leb b.2 a.2); simpl; intuition (try done; try lia).
Qed.

#[global] Instance pair_le_order : PreOrder pair_le.
Proof.
  split; [intros a; right; by split|]. intros a b c [L|[E L]] [M|[F M]]; [left; lia..|]. right. split; [congruence|]. by etrans.
Qed.

#[global] Instance pair_le_total : Total pair_le.
Proof. intros a b. unfold pair_le. destruct (Z.lt_total a.1 b.1) as [?|[E|?]]; [auto| |auto]. destruct (total String.le a.2 b.2); auto. Qed.

#[global] Instance pair_le_anti : AntiSymm (=) pair_le.
Proof. intros [a i] [b j] [L|[E L]] [M|[F M]]; simpl in *; try lia. subst. f_equal. by apply (anti_symm String.le). Qed.

Lemma pair_lt_irrefl (a : Z * string) : pair_lt a a = false.
Proof. by apply pair_lt_false. Qed.

Lemma pair_lt_asym (a b : Z * string) : pair_lt a b = true -> pair_lt b a = false.
Proof. intros L. apply pair_lt_false. destruct (total pair_le a b) as [M|M]; [done|]. apply pair_lt_false in M. by rewrite M in L. Qed.

(** Sorting by distinct keys. *)
Section ByKey.
Context {A K : Type} (lt : K -> K -> bool) (key : A -> K).
Hypothesis le_trans : forall a b c, lt a b = false -> lt b c = false -> lt a c = false.
Hypothesis le_total : forall a b, lt a b = false \/ lt b a = false.
Hypothesis le_anti : forall a b, lt a b = false -> lt b a = false -> a = b.

Definition not_before (a b : A) : Prop := lt (key a) (key b) = false.
#[global] Instance not_before_dec (a b : A) : Decision (not_before a b).
Proof. unfold not_before. apply _. Defined.

Lemma descending_sort (l : list A) : NoDup (key <$> l) -> descending lt key (merge_sort not_before l).
Proof.
  intros N. assert (Ht : Transitive not_before) by (intros a b c; apply le_trans). assert (Ho : Total not_before) by (intros a b; apply le_total).
  rewrite <- (merge_sort_Permutation not_before l) in N. pose proof (StronglySorted_merge_sort not_before l) as S. revert N.
  induction S as [|a l' S IH F]; intros N; [constructor|]. cbn in N. apply NoDup_cons in N as [Na N]. constructor; [by apply IH|].
  apply Forall_forall. intros b B. rewrite Forall_forall in F. specialize (F b B). unfold not_before in F.
  destruct (lt (key b) (key a)) eqn:L; [done|]. exfalso. apply Na. rewrite (le_anti _ _ F L). apply list_elem_of_fmap. by exists b.
Qed.
End ByKey.
