(* ===== verification/Bytes.v ===== *)
(** * Bytes and UTF-8

    Byte strings as [list byte], little-endian 32-bit prefixes
    ([u32::from_le_bytes], [BufMut::put_u32_le]) and the validity test of
    [std::str::from_utf8], with the lemmas the frame codec and the output
    chunker share. *)

From S2P Require Import Prelude.

Definition bz (b : byte) : Z := Z.of_N (Byte.to_N b).

Lemma bz_range (b : byte) : 0 <= bz b < 256.
Proof. unfold bz. pose proof (Byte.to_N_bounded b). lia. Qed.

(** [z as u8]. *)
Definition byte_of_Z (z : Z) : byte := default x00 (Byte.of_N (Z.to_N (z mod 256))).

Lemma bz_byte_of_Z (z : Z) : bz (byte_of_Z z) = z mod 256.
Proof.
  unfold byte_of_Z, bz. pose proof (Z.mod_pos_bound z 256 ltac:(lia)).
  destruct (Byte.of_N (Z.to_N (z mod 256))) as [b|] eqn:Hb; simpl.
  - apply Byte.to_of_N in Hb. rewrite Hb. lia.
  - apply Byte.of_N_None_iff in Hb. lia.
Qed.

(** ** Little-endian 32-bit integers *)

(** [u32::from_le_bytes]. *)
Definition le_u32 (b0 b1 b2 b3 : byte) : Z :=
  bz b0 + 2 ^ 8 * bz b1 + 2 ^ 16 * bz b2 + 2 ^ 24 * bz b3.

(** The four bytes [put_u32_le] appends. *)
Definition put_u32_le (z : Z) : list byte :=
  [byte_of_Z z; byte_of_Z (z / 2 ^ 8); byte_of_Z (z / 2 ^ 16); byte_of_Z (z / 2 ^ 24)].

#[global] Arguments le_u32 : simpl never.
#[global] Arguments put_u32_le : simpl never.

Lemma le_u32_range (b0 b1 b2 b3 : byte) : is_u32 (le_u32 b0 b1 b2 b3).
Proof.
  pose proof (bz_range b0); pose proof (bz_range b1).
  pose proof (bz_range b2); pose proof (bz_range b3).
  unfold is_u32, le_u32, u32_max. lia.
Qed.

Lemma put_u32_le_roundtrip (z : Z) :
  is_u32 z ->
  exists b0 b1 b2 b3, put_u32_le z = [b0; b1; b2; b3] /\ le_u32 b0 b1 b2 b3 = z.
Proof.
  intros Hz. exists (byte_of_Z z), (byte_of_Z (z / 2 ^ 8)), (byte_of_Z (z / 2 ^ 16)), (byte_of_Z (z / 2 ^ 24)).
  split; [reflexivity|].
  unfold le_u32. rewrite !bz_byte_of_Z. unfold is_u32, u32_max in Hz.
  assert (z / 2 ^ 16 = z / 256 / 256) as -> by (rewrite Z.div_div by lia; f_equal; lia).
  assert (z / 2 ^ 24 = z / 256 / 256 / 256) as -> by (rewrite !Z.div_div by lia; f_equal; lia).
  change (2 ^ 8) with 256.
  pose proof (Z.div_mod z 256 ltac:(lia)).
  pose proof (Z.div_mod (z / 256) 256 ltac:(lia)).
  pose proof (Z.div_mod (z / 256 / 256) 256 ltac:(lia)).
  assert (0 <= z / 256 / 256 / 256) by (repeat apply Z.div_pos; lia).
  assert (z / 256 / 256 / 256 < 256) by (repeat (apply Z.div_lt_upper_bound; [lia|]); lia).
  rewrite (Z.mod_small (z / 256 / 256 / 256)) by lia. lia.
Qed.

(** ** UTF-8 *)

Definition in_range (lo hi : Z) (b : byte) : bool := (lo <=? bz b) && (bz b <=? hi).

(** A continuation byte: [b & 0xC0 == 0x80]. *)
Definition utf8_cont (b : byte) : bool := Z.land (bz b) 0xC0 =? 0x80.

(** The width a leading byte announces. *)
Definition utf8_width (b0 : byte) : option nat :=
  if in_range 0 127 b0 then Some 1%nat
  else if in_range 194 223 b0 then Some 2%nat
  else if in_range 224 239 b0 then Some 3%nat
  else if in_range 240 244 b0 then Some 4%nat
  else None.

(** The range of the second byte: no overlong forms, no surrogates, nothing past U+10FFFF. *)
Definition utf8_second (b0 b1 : byte) : bool :=
  let lo := if bz b0 =? 224 then 160 else if bz b0 =? 240 then 144 else 128 in
  let hi := if bz b0 =? 237 then 159 else if bz b0 =? 244 then 143 else 191 in
  in_range lo hi b1.

(** [t] starts with [n] continuation bytes. *)
Definition utf8_conts (n : nat) (t : list byte) : bool :=
  (n <=? length t)%nat && forallb utf8_cont (take n t).

(** The width of the well-formed character a byte string starts with. *)
Definition utf8_first (l : list byte) : option nat :=
  match l with
  | [] => None
  | b0 :: t =>
      match utf8_width b0 with
      | None => None
      | Some w =>
          match w, t with
          | S (S n), b1 :: t1 => if utf8_second b0 b1 && utf8_conts n t1 then Some w else None
          | S (S n), [] => None
          | _, _ => Some w
          end
      end
  end.

(** [std::str::from_utf8(l).is_ok()]; every character consumes at least one byte, so
    [length l] is enough fuel. *)
Fixpoint utf8_valid_fuel (fuel : nat) (l : list byte) : bool :=
  match l, fuel with
  | [], _ => true
  | _, O => false
  | _, S fuel =>
      match utf8_first l with
      | Some w => utf8_valid_fuel fuel (drop w l)
      | None => false
      end
  end.

Definition utf8_valid (l : list byte) : bool := utf8_valid_fuel (length l) l.

(** The same set of strings, inductively: concatenations of well-formed characters. *)
Inductive Utf8 : list byte -> Prop :=
| Utf8_nil : Utf8 []
| Utf8_char c l : utf8_first c = Some (length c) -> Utf8 l -> Utf8 (c ++ l).

Lemma utf8_width_bounds (b : byte) (w : nat) : utf8_width b = Some w -> (1 <= w <= 4)%nat.
Proof. unfold utf8_width. intros; repeat case_match; simplify_eq; lia. Qed.

(** A well-formed character: its lead byte, second byte and continuation bytes. *)
Lemma utf8_first_inv (l : list byte) (w : nat) :
  utf8_first l = Some w ->
  exists b0 t, l = b0 :: t /\ utf8_width b0 = Some w /\
    (w = 1%nat \/ exists b1 t1, t = b1 :: t1 /\ (2 <= w)%nat /\
       utf8_second b0 b1 = true /\ utf8_conts (w - 2) t1 = true).
Proof.
  destruct l as [|b0 t]; [done|]. simpl. intros H.
  destruct (utf8_width b0) as [w'|] eqn:Hw; [|done].
  pose proof (utf8_width_bounds _ _ Hw).
  exists b0, t. split; [done|].
  destruct w' as [|[|n]]; [lia|simplify_eq; auto|].
  destruct t as [|b1 t1]; [done|].
  destruct (utf8_second b0 b1 && utf8_conts n t1) eqn:Hc; simplify_eq.
  split; [done|]. right. exists b1, t1. bool_to_prop.
  replace (S (S n) - 2)%nat with n by lia. repeat split; (done || lia).
Qed.

Lemma utf8_first_intro (b0 b1 : byte) (t1 : list byte) (w : nat) :
  utf8_width b0 = Some w -> (2 <= w)%nat -> utf8_second b0 b1 = true ->
  utf8_conts (w - 2) t1 = true -> utf8_first (b0 :: b1 :: t1) = Some w.
Proof.
  intros Hw Hle H1 H2. simpl. rewrite Hw. destruct w as [|[|n]]; try lia.
  replace (S (S n) - 2)%nat with n in H2 by lia. by rewrite H1, H2.
Qed.

Lemma utf8_conts_length (n : nat) (t : list byte) : utf8_conts n t = true -> (n <= length t)%nat.
Proof. unfold utf8_conts. intros H. bool_to_prop. by apply Nat.leb_le. Qed.

Lemma utf8_first_bounds (l : list byte) (w : nat) :
  utf8_first l = Some w -> (1 <= w <= length l)%nat.
Proof.
  intros (b0 & t & -> & Hw & [->|(b1 & t1 & -> & ? & _ & Hc)])%utf8_first_inv; simpl; [lia|].
  apply utf8_conts_length in Hc. lia.
Qed.

(** The width depends only on the character itself. *)
Lemma utf8_first_take (l r : list byte) (w : nat) :
  utf8_first l = Some w -> utf8_first (take w l ++ r) = Some w.
Proof.
  intros (b0 & t & -> & Hw & [->|(b1 & t1 & -> & ? & H1 & Hc)])%utf8_first_inv.
  - simpl. by rewrite Hw.
  - destruct w as [|[|n]]; try lia. simpl take. simpl app.
    apply utf8_first_intro; [done|lia|done|]. replace (S (S n) - 2)%nat with n in * by lia.
    pose proof (utf8_conts_length _ _ Hc). unfold utf8_conts in *.
    apply andb_true_iff in Hc as [_ Hc]. rewrite length_app, length_take_le by lia.
    rewrite take_app_le, take_take, Nat.min_id by (rewrite length_take_le; lia).
    rewrite Hc, andb_true_r. apply Nat.leb_le. lia.
Qed.

Lemma utf8_cont_in_range (b : byte) : utf8_cont b = in_range 128 191 b.
Proof. by destruct b. Qed.

Lemma in_range_iff (lo hi : Z) (b : byte) : in_range lo hi b = true <-> lo <= bz b <= hi.
Proof. unfold in_range. rewrite andb_true_iff, !Z.leb_le. done. Qed.

Lemma utf8_second_cont (b0 b1 : byte) : utf8_second b0 b1 = true -> utf8_cont b1 = true.
Proof.
  rewrite utf8_cont_in_range. unfold utf8_second. rewrite !in_range_iff.
  repeat case_match; lia.
Qed.

Lemma utf8_width_not_cont (b : byte) (w : nat) : utf8_width b = Some w -> utf8_cont b = false.
Proof.
  rewrite utf8_cont_in_range. intros H. apply not_true_iff_false. rewrite in_range_iff.
  unfold utf8_width in H. repeat case_match; simplify_eq;
    repeat match goal with E : in_range _ _ _ = true |- _ => apply in_range_iff in E end; lia.
Qed.

Lemma utf8_first_char (l : list byte) (w : nat) :
  utf8_first l = Some w -> utf8_first (take w l) = Some (length (take w l)).
Proof.
  intros H. pose proof (utf8_first_bounds _ _ H).
  rewrite length_take_le by lia. rewrite <- (app_nil_r (take w l)).
  by apply utf8_first_take.
Qed.

Lemma utf8_first_app (c r : list byte) :
  utf8_first c = Some (length c) -> utf8_first (c ++ r) = Some (length c).
Proof. intros H. rewrite <- (firstn_all c) at 1. by apply utf8_first_take. Qed.

Lemma utf8_valid_fuel_Utf8 (fuel : nat) (l : list byte) :
  utf8_valid_fuel fuel l = true -> Utf8 l.
Proof.
  revert l; induction fuel as [|fuel IH]; intros [|b l] H; try constructor; try done.
  simpl in H. change (match utf8_first (b :: l) with
    | Some w => utf8_valid_fuel fuel (drop w (b :: l)) | None => false end = true) in H.
  destruct (utf8_first (b :: l)) as [w|] eqn:Hw; [|done].
  rewrite <- (take_drop w (b :: l)). constructor; [by apply utf8_first_char|by apply IH].
Qed.

Lemma Utf8_valid_fuel (fuel : nat) (l : list byte) :
  Utf8 l -> (length l <= fuel)%nat -> utf8_valid_fuel fuel l = true.
Proof.
  intros Hl. revert fuel. induction Hl as [|c l Hc _ IH]; intros fuel Hf; [by destruct fuel|].
  pose proof (utf8_first_bounds _ _ Hc). rewrite length_app in Hf.
  destruct c as [|b c]; [simpl in *; lia|]. destruct fuel as [|fuel]; [simpl in *; lia|].
  change (match utf8_first ((b :: c) ++ l) with
    | Some w => utf8_valid_fuel fuel (drop w ((b :: c) ++ l)) | None => false end = true).
  rewrite (utf8_first_app _ l Hc), drop_app_length. apply IH. simpl in *; lia.
Qed.

Lemma utf8_valid_iff (l : list byte) : utf8_valid l = true <-> Utf8 l.
Proof.
  unfold utf8_valid; split; [apply utf8_valid_fuel_Utf8|].
  intros H; by apply Utf8_valid_fuel.
Qed.

Lemma Utf8_app (l k : list byte) : Utf8 l -> Utf8 k -> Utf8 (l ++ k).
Proof. induction 1 as [|c l Hc _ IH]; intros Hk; [done|]. rewrite <- app_assoc. constructor; auto. Qed.

(** Decoding is deterministic: a valid prefix of a valid string leaves a valid rest. *)
Lemma Utf8_char_inv (c k : list byte) : utf8_first c = Some (length c) -> Utf8 (c ++ k) -> Utf8 k.
Proof.
  intros Hc Hu. pose proof (utf8_first_bounds _ _ Hc). pose proof (utf8_first_app c k Hc) as Hf.
  inversion Hu as [He|c' l' Hc' Hl' He].
  - by destruct c; simplify_eq/=; try lia.
  - rewrite <- He, (utf8_first_app c' l' Hc') in Hf. simplify_eq.
    by apply app_inj_1 in He as [_ <-].
Qed.

Lemma Utf8_app_inv_r (l d : list byte) : Utf8 l -> Utf8 (l ++ d) -> Utf8 d.
Proof.
  induction 1 as [|c l Hc _ IH]; [done|]. rewrite <- app_assoc.
  intros Hu. by apply IH, (Utf8_char_inv c).
Qed.
