(* ===== verification/RustStr.v ===== *)
(** * Rust's [str] operations the sources use

    Strings are byte strings ([string] of the Standard Library holds one [ascii] per byte), so
    [len] is the byte length and slicing is by byte.  Everything here is the standard library of
    Rust: prefixes and suffixes, splitting, [trim] (Unicode [White_Space], in UTF-8), [parse] for
    unsigned integers, [join]. *)

From S2P Require Import Prelude.

Definition byte_char (z : Z) : Ascii.ascii := Ascii.ascii_of_N (Z.to_N z).

Definition slash : Ascii.ascii := byte_char 47.
Definition colon : Ascii.ascii := byte_char 58.

Fixpoint str_of_bytes (l : list Z) : string :=
  match l with
  | [] => EmptyString
  | b :: l => String (byte_char b) (str_of_bytes l)
  end.

Definition str_rev (s : string) : string := String.rev s.

(** [str::strip_prefix] with a string pattern. *)
Fixpoint strip_prefix (p s : string) : option string :=
  match p, s with
  | EmptyString, _ => Some s
  | String a p, String b s => if Ascii.eqb a b then strip_prefix p s else None
  | String _ _, EmptyString => None
  end.

Definition starts_with (s p : string) : bool :=
  match strip_prefix p s with Some _ => true | None => false end.

Definition strip_suffix (p s : string) : option string :=
  str_rev <$> strip_prefix (str_rev p) (str_rev s).

(** [s.contains(c)]. *)
Fixpoint contains_char (c : Ascii.ascii) (s : string) : bool :=
  match s with
  | EmptyString => false
  | String a s => Ascii.eqb a c || contains_char c s
  end.

(** [s.contains(p)] for a string pattern. *)
Fixpoint contains_str (p s : string) : bool :=
  starts_with s p || match s with EmptyString => false | String _ s => contains_str p s end.

(** [s.split_once(c)]: around the first occurrence. *)
Fixpoint split_once (c : Ascii.ascii) (s : string) : option (string * string) :=
  match s with
  | EmptyString => None
  | String a s =>
      if Ascii.eqb a c then Some (EmptyString, s)
      else match split_once c s with
           | Some (l, r) => Some (String a l, r)
           | None => None
           end
  end.

(** [s.rsplit(c).next().unwrap()]: what follows the last occurrence. *)
Definition rsplit_next (c : Ascii.ascii) (s : string) : string :=
  match split_once c (str_rev s) with
  | Some (l, _) => str_rev l
  | None => s
  end.

Fixpoint trim_start_matches (c : Ascii.ascii) (s : string) : string :=
  match s with
  | EmptyString => EmptyString
  | String a s' => if Ascii.eqb a c then trim_start_matches c s' else s
  end.

Definition trim_end_matches (c : Ascii.ascii) (s : string) : string :=
  str_rev (trim_start_matches c (str_rev s)).

(** The UTF-8 encodings of the characters with the [White_Space] property. *)
Definition white_space : list string :=
  map str_of_bytes
    ([[9]; [10]; [11]; [12]; [13]; [32]; [0xC2; 0x85]; [0xC2; 0xA0]; [0xE1; 0x9A; 0x80]] ++
     map (fun k => [0xE2; 0x80; 0x80 + Z.of_nat k]) (seq 0 11) ++
     [[0xE2; 0x80; 0xA8]; [0xE2; 0x80; 0xA9]; [0xE2; 0x80; 0xAF]; [0xE2; 0x81; 0x9F];
      [0xE3; 0x80; 0x80]]).

Fixpoint strip_one (ps : list string) (s : string) : option string :=
  match ps with
  | [] => None
  | p :: ps => match strip_prefix p s with Some r => Some r | None => strip_one ps s end
  end.

(** Each pattern is at least one byte long, so the length of the string is enough fuel. *)
Fixpoint strip_all (fuel : nat) (ps : list string) (s : string) : string :=
  match fuel with
  | O => s
  | S fuel => match strip_one ps s with Some r => strip_all fuel ps r | None => s end
  end.

Definition trim_start (s : string) : string := strip_all (String.length s) white_space s.
Definition trim_end (s : string) : string :=
  str_rev (strip_all (String.length s) (map str_rev white_space) (str_rev s)).
Definition trim (s : string) : string := trim_end (trim_start s).

(** ** [parse::<u64>()] and [parse::<usize>()] *)

Definition digit_of (c : Ascii.ascii) : option Z :=
  let n := Z.of_N (Ascii.N_of_ascii c) in
  if (48 <=? n) && (n <=? 57) then Some (n - 48) else None.

Fixpoint parse_digits (acc : Z) (s : string) : option Z :=
  match s with
  | EmptyString => Some acc
  | String c s =>
      match digit_of c with
      | None => None
      | Some d =>
          let acc := acc * 10 + d in
          if acc <=? u64_max then parse_digits acc s else None
      end
  end.

(** One leading [+] is accepted, an empty digit string is not. *)
Definition parse_u64 (s : string) : option Z :=
  let digits := match strip_prefix "+" s with Some r => r | None => s end in
  match digits with
  | EmptyString => None
  | _ => parse_digits 0 digits
  end.

(** [usize] is 64 bits wide on the targets of the program. *)
Definition parse_usize (s : string) : option Z := parse_u64 s.

(** [list.join(sep)]. *)
Fixpoint join (sep : string) (l : list string) : string :=
  match l with
  | [] => EmptyString
  | [s] => s
  | s :: l => s +:+ sep +:+ join sep l
  end.

(** ** Facts *)

Lemma parse_digits_range (acc : Z) (s : string) (n : Z) :
  is_u64 acc -> parse_digits acc s = Some n -> is_u64 n.
Proof.
  revert acc. induction s as [|c s IH]; simpl; intros acc Hacc H; [by simplify_eq|].
  unfold digit_of in H. repeat case_match; simplify_eq. bool_to_prop.
  eapply IH; [|done]. unfold is_u64 in *. lia.
Qed.

Lemma parse_u64_range (s : string) (n : Z) : parse_u64 s = Some n -> is_u64 n.
Proof.
  unfold parse_u64. intros H. destruct (match strip_prefix "+" s with Some r => r | None => s end); [done|].
  eapply parse_digits_range; [|done]. unfold is_u64, u64_max. lia.
Qed.

Lemma strip_prefix_app (p s : string) : strip_prefix p (p +:+ s) = Some s.
Proof. induction p as [|a p IH]; simpl; [done|]. by rewrite Ascii.eqb_refl. Qed.

Lemma strip_prefix_Some (p s r : string) : strip_prefix p s = Some r -> s = p +:+ r.
Proof.
  revert s; induction p as [|a p IH]; intros [|b s]; simpl; intros H; simplify_eq; try done.
  destruct (Ascii.eqb_spec a b); [|done]. subst. by rewrite (IH s).
Qed.

Lemma split_once_Some (c : Ascii.ascii) (s l r : string) :
  split_once c s = Some (l, r) -> s = l +:+ String c r /\ contains_char c l = false.
Proof.
  revert l r; induction s as [|a s IH]; simpl; intros l r H; [done|].
  destruct (Ascii.eqb_spec a c) as [->|Hne]; [by simplify_eq|].
  destruct (split_once c s) as [[l' r']|]; [|done]. simplify_eq.
  destruct (IH _ _ eq_refl) as [-> Hc]. split; [done|]. simpl.
  by rewrite (proj2 (Ascii.eqb_neq a c) Hne), Hc.
Qed.

(** A tail taken after the last separator holds no separator. *)
Lemma split_once_left (c : Ascii.ascii) (s l r : string) :
  split_once c s = Some (l, r) -> contains_char c l = false.
Proof. intros H. by apply split_once_Some in H as [_ ?]. Qed.

Lemma split_once_None (c : Ascii.ascii) (s : string) :
  split_once c s = None -> contains_char c s = false.
Proof.
  induction s as [|a s IH]; simpl; [done|].
  destruct (Ascii.eqb_spec a c) as [->|Hne]; [done|]. simpl.
  destruct (split_once c s) as [[? ?]|]; [done|]. auto.
Qed.

Lemma contains_char_app (c : Ascii.ascii) (s t : string) :
  contains_char c (s +:+ t) = contains_char c s || contains_char c t.
Proof. induction s as [|a s IH]; simpl; [done|]. by rewrite IH, orb_assoc. Qed.

(** ** Printing and parsing of numbers *)

Lemma digit_of_pretty (n : N) : (n < 10)%N -> digit_of (pretty_N_char n) = Some (Z.of_N n).
Proof.
  intros Hn. assert (Hc : n ∈ [0; 1; 2; 3; 4; 5; 6; 7; 8; 9]%N) by (rewrite !elem_of_cons; lia).
  rewrite !elem_of_cons, elem_of_nil in Hc. naive_solver.
Qed.

Lemma parse_digits_pretty (n : N) (s : string) :
  Z.of_N n <= u64_max -> parse_digits 0 (pretty_N_go n s) = parse_digits (Z.of_N n) s.
Proof.
  revert s. induction (N.lt_wf_0 n) as [n _ IH]. intros s Hn.
  destruct (decide (n = 0)%N) as [->|Hnz]; [by rewrite pretty_N_go_0|].
  rewrite pretty_N_go_step by lia.
  pose proof (N.div_mod n 10 ltac:(lia)) as Hdm. pose proof (N.mod_lt n 10 ltac:(lia)) as Hlt.
  assert (Hsmall : (n `div` 10 < n)%N) by (apply N.div_lt; lia).
  rewrite IH by lia. simpl. rewrite digit_of_pretty by done.
  replace (Z.of_N (n `div` 10) * 10 + Z.of_N (n `mod` 10)) with (Z.of_N n) by lia.
  by rewrite (proj2 (Z.leb_le _ _) Hn).
Qed.

(** [format!("{n}").parse::<u64>()] gives [n] back. *)
Lemma parse_u64_pretty (n : N) : Z.of_N n <= u64_max -> parse_u64 (pretty n) = Some (Z.of_N n).
Proof.
  intros Hn. assert (Hp : parse_digits 0 (pretty n) = Some (Z.of_N n)).
  { unfold pretty, pretty_N. case_decide as H0; [by subst|]. by rewrite parse_digits_pretty. }
  unfold parse_u64. destruct (strip_prefix "+" (pretty n)) as [r|] eqn:Hs.
  - apply strip_prefix_Some in Hs. by rewrite Hs in Hp.
  - destruct (pretty n) as [|a s] eqn:Hd; [|exact Hp]. unfold pretty, pretty_N in Hd.
    case_decide; [done|]. simpl in Hp. simplify_eq. lia.
Qed.

(** ** Strings whose characters all satisfy a test *)

Fixpoint str_all (f : Ascii.ascii -> bool) (s : string) : bool :=
  match s with
  | EmptyString => true
  | String c s => f c && str_all f s
  end.

(** [char::is_ascii_graphic]. *)
Definition ascii_graphic (c : Ascii.ascii) : bool :=
  let n := Z.of_N (Ascii.N_of_ascii c) in (33 <=? n) && (n <=? 126).

Definition ascii_digit (c : Ascii.ascii) : bool :=
  match digit_of c with Some _ => true | None => false end.

Lemma str_app_assoc (s t u : string) : s +:+ (t +:+ u) = (s +:+ t) +:+ u.
Proof. induction s as [|c s IH]; [done|]. change (String c (s +:+ (t +:+ u)) = String c ((s +:+ t) +:+ u)). by rewrite IH. Qed.

Lemma str_app_nil_r (s : string) : s +:+ "" = s.
Proof. induction s as [|c s IH]; [done|]. change (String c (s +:+ "") = String c s). by rewrite IH. Qed.

Lemma str_all_app (f : Ascii.ascii -> bool) (s t : string) : str_all f (s +:+ t) = str_all f s && str_all f t.
Proof. induction s as [|c s IH]; simpl; [done|]. by rewrite IH, andb_assoc. Qed.

Lemma str_all_rev_app (f : Ascii.ascii -> bool) (s t : string) :
  str_all f (String.rev_app s t) = str_all f s && str_all f t.
Proof.
  revert t. induction s as [|c s IH]; simpl; intros t; [done|]. rewrite IH. simpl.
  by destruct (f c), (str_all f s), (str_all f t).
Qed.

Lemma str_all_rev (f : Ascii.ascii -> bool) (s : string) : str_all f (str_rev s) = str_all f s.
Proof. unfold str_rev, String.rev. rewrite str_all_rev_app. simpl. by rewrite andb_true_r. Qed.

Lemma str_all_impl (f g : Ascii.ascii -> bool) (s : string) :
  (forall c, f c = true -> g c = true) -> str_all f s = true -> str_all g s = true.
Proof.
  intros Hfg. induction s as [|c s IH]; simpl; [done|]. intros [? ?]%andb_true_iff.
  rewrite Hfg, IH; done.
Qed.

Lemma contains_char_all (f : Ascii.ascii -> bool) (c : Ascii.ascii) (s : string) :
  str_all f s = true -> f c = false -> contains_char c s = false.
Proof.
  intros Hs Hc. induction s as [|a s IH]; simpl in *; [done|]. apply andb_true_iff in Hs as [Ha Hs].
  destruct (Ascii.eqb_spec a c) as [->|_]; [congruence|]. by apply IH.
Qed.

(** [trim] keeps a string that has no white space. *)
Lemma strip_one_graphic (ps : list string) (s : string) :
  Forall (fun p => match p with String a _ => ascii_graphic a = false | EmptyString => False end) ps ->
  str_all ascii_graphic s = true -> strip_one ps s = None.
Proof.
  intros Hps Hs. induction Hps as [|[|a p] ps Ha _ IH]; simpl; [done|done|].
  destruct s as [|c s]; simpl; [exact IH|]. simpl in Hs. apply andb_true_iff in Hs as [Hc _].
  destruct (Ascii.eqb_spec a c) as [->|_]; [congruence|exact IH].
Qed.

Lemma strip_all_graphic (n : nat) (ps : list string) (s : string) :
  Forall (fun p => match p with String a _ => ascii_graphic a = false | EmptyString => False end) ps ->
  str_all ascii_graphic s = true -> strip_all n ps s = s.
Proof. intros Hps Hs. destruct n; simpl; [done|]. by rewrite strip_one_graphic. Qed.

Lemma rev_app_spec (s t u : string) : String.rev_app (String.rev_app s t) u = String.rev_app t (s +:+ u).
Proof. revert t u. induction s as [|c s IH]; simpl; intros t u; [done|]. by rewrite IH. Qed.

Lemma str_rev_involutive (s : string) : str_rev (str_rev s) = s.
Proof.
  unfold str_rev, String.rev. rewrite rev_app_spec. cbn.
  induction s as [|c s IH]; [done|]. change (String c (s +:+ "") = String c s). by rewrite IH.
Qed.

Lemma str_rev_app_rev (s t : string) : str_rev (str_rev s +:+ t) = str_rev t +:+ s.
Proof.
  unfold str_rev, String.rev.
  assert (H : forall a b c, String.rev_app (a +:+ b) c = String.rev_app b (String.rev_app a c)).
  { intros a. induction a as [|x a IH]; intros b c; [done|]. exact (IH b (String x c)). }
  rewrite H, rev_app_spec. cbn [String.rev_app].
  assert (H2 : forall a b, String.rev_app a b = String.rev_app a "" +:+ b).
  { intros a. induction a as [|x a IH]; intros b; [done|]. cbn [String.rev_app]. rewrite IH, (IH (String x "")).
    by rewrite <- str_app_assoc. }
  rewrite H2. f_equal. apply str_app_nil_r.
Qed.

Lemma trim_graphic (s : string) : str_all ascii_graphic s = true -> trim s = s.
Proof.
  intros Hs. unfold trim, trim_start, trim_end. rewrite (strip_all_graphic _ white_space s); [|by repeat constructor|done].
  rewrite strip_all_graphic; [apply str_rev_involutive|by repeat constructor|by rewrite str_all_rev].
Qed.

(** Decimal numerals. *)
Lemma pretty_N_digits (n : N) : str_all ascii_digit (pretty n) = true.
Proof.
  unfold pretty, pretty_N. case_decide; [done|].
  assert (Hgo : forall n s, str_all ascii_digit s = true -> str_all ascii_digit (pretty_N_go n s) = true); [|by apply Hgo].
  clear. intros n. induction (N.lt_wf_0 n) as [n _ IH]. intros s Hs.
  destruct (decide (n = 0)%N) as [->|Hnz]; [by rewrite pretty_N_go_0|].
  rewrite pretty_N_go_step by lia. apply IH; [apply N.div_lt; lia|]. simpl. rewrite Hs, andb_true_r.
  unfold ascii_digit. rewrite digit_of_pretty; [done|]. apply N.mod_lt. lia.
Qed.

Lemma pretty_Z_N (z : Z) : 0 <= z -> pretty z = pretty (Z.to_N z).
Proof. destruct z; [done|done|lia]. Qed.

Lemma pretty_Z_digits (z : Z) : 0 <= z -> str_all ascii_digit (pretty z) = true.
Proof. intros Hz. rewrite pretty_Z_N by done. apply pretty_N_digits. Qed.

Lemma parse_u64_pretty_Z (z : Z) : is_u64 z -> parse_u64 (pretty z) = Some z.
Proof. unfold is_u64. intros Hz. rewrite pretty_Z_N by lia. rewrite parse_u64_pretty by lia. f_equal. lia. Qed.

Lemma pretty_Z_nonempty (z : Z) : is_u64 z -> pretty z <> "".
Proof. intros Hz He. apply parse_u64_pretty_Z in Hz. by rewrite He in Hz. Qed.

Lemma digit_graphic (c : Ascii.ascii) : ascii_digit c = true -> ascii_graphic c = true.
Proof. unfold ascii_digit, digit_of, ascii_graphic. case_match eqn:E; [|done]. case_match; simplify_eq. intros _. bool_to_prop. apply andb_true_iff; split; apply Z.leb_le; lia. Qed.

Lemma trim_digits (z : Z) : 0 <= z -> trim (pretty z) = pretty z.
Proof.
  intros Hz. apply trim_graphic. eapply str_all_impl; [exact digit_graphic|]. by apply pretty_Z_digits.
Qed.

Lemma split_once_here (c : Ascii.ascii) (l r : string) :
  contains_char c l = false -> split_once c (l +:+ String c r) = Some (l, r).
Proof.
  induction l as [|a l IH]; simpl; [by rewrite Ascii.eqb_refl|].
  destruct (Ascii.eqb a c); [done|]. intros Hl. by rewrite (IH Hl).
Qed.
