(* ===== verification/Frame.v ===== *)
(** * The Codex IPC frame codec and read loop

    Models [apps/bridge/src/adapter/codex/ipc/frame.rs] ([FrameDecoder], [encode_frame]) and
    the frame pump of [ipc/client.rs] ([reader_loop], up to the wake-up of the waiting
    requests).  [serde_json] is a parameter: its text parser, serializer and [is_object].
    The socket is the list of the results its reads return; [dispatch] is the handler of a
    decoded message, over a state of its own. *)

From S2P Require Import Prelude Bytes.

(** [serde_json::from_str] and [serde_json::to_string] on [serde_json::Value]. *)
Class SerdeJsonText (value : Type) := {
  from_str : list byte -> option value;
  to_string : value -> res string (list byte);
  is_object : value -> bool;
}.

Definition PROTOCOL_MAX_FRAME_BYTES : Z := 256 * 1024 * 1024.
Definition DEFAULT_MAX_FRAME_BYTES : Z := 64 * 1024 * 1024.

Inductive FrameError :=
| TooLarge (announced limit : Z)
| ZeroLength
| InvalidUtf8
| NotAnObject
| Encode (msg : string)
| Io (msg : string).

Inductive FrameEncodeError :=
| EncTooLarge (announced limit : Z)
| Serialize (msg : string).

(** [impl From<FrameEncodeError> for FrameError]. *)
Definition FrameError_from (e : FrameEncodeError) : FrameError :=
  match e with
  | EncTooLarge announced limit => TooLarge announced limit
  | Serialize msg => Encode msg
  end.

(** The [Display] texts of the [#[error]] attributes. *)
Definition FrameError_display (e : FrameError) : string :=
  match e with
  | TooLarge announced limit =>
      "frame length " +:+ pretty announced +:+ " bytes exceeds limit " +:+ pretty limit +:+ " bytes"
  | ZeroLength => "frame length 0 is invalid"
  | InvalidUtf8 => "frame payload is not valid UTF-8"
  | NotAnObject => "frame payload is not a JSON object"
  | Encode msg => "failed to encode frame: " +:+ msg
  | Io msg => "io error while reading frame: " +:+ msg
  end.

Record FrameDecoder := mkDecoder {
  max_frame_bytes : Z;
  buf : list byte;
  current_len : option Z;
}.

(** [FrameDecoder::new]; [None] is the [assert!] failing. *)
Definition decoder_new (max : Z) : option FrameDecoder :=
  if 8 <=? max then Some (mkDecoder max [] None) else None.

Definition check_limit (d : FrameDecoder) (announced : Z) : res FrameError unit :=
  if announced =? 0 then Err ZeroLength
  else if announced >? max_frame_bytes d then Err (TooLarge announced (max_frame_bytes d))
  else Ok tt.

(** [u32::from_le_bytes([self.buf[0], .., self.buf[3]])] and what [advance(4)] leaves. *)
Definition read_prefix (b : list byte) : option (Z * list byte) :=
  match b with
  | b0 :: b1 :: b2 :: b3 :: rest => Some (le_u32 b0 b1 b2 b3, rest)
  | _ => None
  end.

Definition push (d : FrameDecoder) (chunk : list byte) : FrameDecoder * res FrameError unit :=
  let d' := mkDecoder (max_frame_bytes d) (buf d ++ chunk) (current_len d) in
  (d', match current_len d' with
       | Some len => check_limit d' len
       | None =>
           match read_prefix (buf d') with
           | Some (announced, _) => check_limit d' announced
           | None => Ok tt
           end
       end).

Definition pending_bytes (d : FrameDecoder) : Z := zlen (buf d).

Section Codec.
Context {value : Type} `{SerdeJsonText value}.

(** The part of [next_frame] after the length is known. *)
Definition take_payload (d : FrameDecoder) (len : Z) : FrameDecoder * res FrameError (option value) :=
  let need := Z.to_nat len in
  if (length (buf d) <? need)%nat then (mkDecoder (max_frame_bytes d) (buf d) (Some len), Ok None)
  else
    let payload := take need (buf d) in
    let d' := mkDecoder (max_frame_bytes d) (drop need (buf d)) None in
    (d', if utf8_valid payload then
           match from_str payload with
           | None => Err NotAnObject
           | Some v => if is_object v then Ok (Some v) else Err NotAnObject
           end
         else Err InvalidUtf8).

(** [next_frame]: the [loop] of the source returns in its first iteration. *)
Definition next_frame (d : FrameDecoder) : FrameDecoder * res FrameError (option value) :=
  match current_len d with
  | Some len => take_payload d len
  | None =>
      match read_prefix (buf d) with
      | None => (d, Ok None)
      | Some (announced, rest) =>
          match check_limit d announced with
          | Err e => (d, Err e)
          | Ok _ => take_payload (mkDecoder (max_frame_bytes d) rest (Some announced)) announced
          end
      end
  end.

Definition encode_frame (v : value) (max : Z) : res FrameEncodeError (list byte) :=
  let? payload := map_err Serialize (to_string v) in
  if (zlen payload =? 0) || (zlen payload >? max) then
    Err (EncTooLarge (as_u32 (zlen payload)) max)
  else Ok (put_u32_le (zlen payload) ++ payload).

Context {W : Type} (dispatch : W -> value -> W * res string unit).

Inductive pump_end :=
| Drained                    (* the inner loop met [Ok(None)] *)
| Broke (reason : string)    (* [break 'read Err(reason)] *)
| OutOfFuel.

(** The inner [loop] of [reader_loop]: every decoded frame goes to [dispatch]. *)
Fixpoint pump (fuel : nat) (w : W) (d : FrameDecoder) : W * FrameDecoder * pump_end :=
  match fuel with
  | O => (w, d, OutOfFuel)
  | S fuel =>
      match next_frame d with
      | (d', Ok (Some v)) =>
          match dispatch w v with
          | (w', Err e) => (w', d', Broke e)
          | (w', Ok _) => pump fuel w' d'
          end
      | (d', Ok None) => (w, d', Drained)
      | (d', Err e) => (w, d', Broke (FrameError_display e))
      end
  end.

(** A frame takes at least one byte of payload, so the buffer length bounds the frames. *)
Definition pump_fuel (d : FrameDecoder) : nat := S (length (buf d)).

(** [reader_loop] over the results of the socket reads; [None] when it still waits. *)
Fixpoint reader_loop (reads : list (res string (list byte))) (w : W) (d : FrameDecoder)
  : W * option string :=
  match reads with
  | [] => (w, None)
  | Err e :: _ => (w, Some e)
  | Ok [] :: _ => (w, Some "peer closed connection")
  | Ok chunk :: reads =>
      match push d chunk with
      | (_, Err e) => (w, Some (FrameError_display e))
      | (d', Ok _) =>
          match pump (pump_fuel d') w d' with
          | (w', d'', Drained) => reader_loop reads w' d''
          | (w', _, Broke reason) => (w', Some reason)
          | (w', _, OutOfFuel) => (w', None)
          end
      end
  end.
End Codec.

#[global] Arguments pump : simpl never.
#[global] Arguments pump_fuel : simpl never.

(** ** Decoding depends on the byte stream only *)

(** The decoder after [c] more bytes were appended to its buffer. *)
Definition more (d : FrameDecoder) (c : list byte) : FrameDecoder :=
  mkDecoder (max_frame_bytes d) (buf d ++ c) (current_len d).

(** A length already taken off the stream passed [check_limit]. *)
Definition wf (d : FrameDecoder) : Prop :=
  match current_len d with
  | Some len => 0 < len <= max_frame_bytes d
  | None => True
  end.

Lemma more_more (d : FrameDecoder) (c1 c2 : list byte) : more (more d c1) c2 = more d (c1 ++ c2).
Proof. unfold more; simpl. by rewrite app_assoc. Qed.

Lemma more_nil (d : FrameDecoder) : more d [] = d.
Proof. destruct d. unfold more; simpl. by rewrite app_nil_r. Qed.

Lemma check_limit_ok (d : FrameDecoder) (n : Z) :
  check_limit d n = Ok tt <-> n <> 0 /\ n <= max_frame_bytes d.
Proof. unfold check_limit. repeat case_match; bool_to_prop; split; intros; try done; lia. Qed.

Lemma read_prefix_app (b c : list byte) (n : Z) (rest : list byte) :
  read_prefix b = Some (n, rest) -> read_prefix (b ++ c) = Some (n, rest ++ c).
Proof. destruct b as [|b0 [|b1 [|b2 [|b3 b]]]]; simpl; naive_solver. Qed.

Lemma read_prefix_length (b : list byte) (n : Z) (rest : list byte) :
  read_prefix b = Some (n, rest) -> is_u32 n /\ length b = (4 + length rest)%nat.
Proof.
  destruct b as [|b0 [|b1 [|b2 [|b3 b]]]]; simpl; intros; simplify_eq.
  split; [apply le_u32_range|done].
Qed.

Lemma read_prefix_none (b : list byte) : read_prefix b = None <-> (length b < 4)%nat.
Proof. destruct b as [|b0 [|b1 [|b2 [|b3 b]]]]; simpl; split; intros; try done; lia. Qed.

Section Decoding.
Context {value : Type} `{SerdeJsonText value}.
Implicit Types (d : FrameDecoder) (c : list byte) (v : value).

Lemma take_payload_app d c (len : Z) :
  (Z.to_nat len <= length (buf d))%nat ->
  take_payload (more d c) len =
    (more (fst (take_payload d len)) c, snd (take_payload d len)).
Proof.
  intros Hlen. unfold take_payload, more; simpl. rewrite length_app.
  destruct (Nat.ltb_spec (length (buf d)) (Z.to_nat len)); [lia|].
  destruct (Nat.ltb_spec (length (buf d) + length c) (Z.to_nat len)); [lia|].
  simpl. rewrite take_app_le, drop_app_le by lia. done.
Qed.

Lemma take_payload_none d (len : Z) d' :
  take_payload d len = (d', Ok None) ->
  (length (buf d) < Z.to_nat len)%nat /\ d' = mkDecoder (max_frame_bytes d) (buf d) (Some len).
Proof.
  unfold take_payload. intros Ht.
  destruct (Nat.ltb_spec (length (buf d)) (Z.to_nat len)); [by simplify_eq|].
  repeat case_match; simplify_eq.
Qed.

Lemma take_payload_length d (len : Z) d' r :
  take_payload d len = (d', r) -> r <> Ok None ->
  (Z.to_nat len <= length (buf d))%nat /\ length (buf d) = (Z.to_nat len + length (buf d'))%nat /\
  max_frame_bytes d' = max_frame_bytes d /\ current_len d' = None.
Proof.
  unfold take_payload. intros Ht Hr.
  destruct (Nat.ltb_spec (length (buf d)) (Z.to_nat len)); simplify_eq/=.
  rewrite length_drop. repeat split; lia.
Qed.

(** A complete frame, or an error, is the same whatever follows it on the stream. *)
Lemma next_frame_app d c d' r :
  next_frame d = (d', r) -> r <> Ok None -> next_frame (more d c) = (more d' c, r).
Proof.
  unfold next_frame. intros Hn Hr. simpl. destruct (current_len d) as [len|] eqn:Hc.
  - rewrite take_payload_app; [by rewrite Hn|].
    by destruct (take_payload_length _ _ _ _ Hn Hr).
  - destruct (read_prefix (buf d)) as [[n rest]|] eqn:Hp; [|by simplify_eq].
    rewrite (read_prefix_app _ _ _ _ Hp).
    change (check_limit (more d c) n) with (check_limit d n).
    destruct (check_limit d n) as [[]|e]; [|by simplify_eq].
    change (mkDecoder _ (rest ++ c) _) with (more (mkDecoder (max_frame_bytes d) rest (Some n)) c).
    rewrite take_payload_app; [by rewrite Hn|].
    by destruct (take_payload_length _ _ _ _ Hn Hr).
Qed.

(** Taking the length prefix off early does not change what comes next. *)
Lemma next_frame_more_none d c d' :
  next_frame d = (d', Ok None) -> next_frame (more d c) = next_frame (more d' c).
Proof.
  unfold next_frame. intros Hn. simpl. destruct (current_len d) as [len|] eqn:Hc.
  - apply take_payload_none in Hn as [_ ->]. simpl. unfold more; simpl. by rewrite Hc.
  - destruct (read_prefix (buf d)) as [[n rest]|] eqn:Hp; [|by simplify_eq; rewrite Hc].
    rewrite (read_prefix_app _ _ _ _ Hp).
    change (check_limit (more d c) n) with (check_limit d n).
    destruct (check_limit d n) as [[]|e] eqn:Hl; [|by simplify_eq].
    apply take_payload_none in Hn as [_ ->]. done.
Qed.

Lemma next_frame_none d d' :
  wf d -> next_frame d = (d', Ok None) ->
  wf d' /\ next_frame d' = (d', Ok None) /\ max_frame_bytes d' = max_frame_bytes d /\
  pending_bytes d' < Z.max 4 (max_frame_bytes d) /\ (length (buf d') <= length (buf d))%nat.
Proof.
  intros Hwf Hn. pose proof (next_frame_more_none d [] d' Hn) as Hidem.
  rewrite !more_nil, Hn in Hidem. symmetry in Hidem.
  assert (wf d' /\ max_frame_bytes d' = max_frame_bytes d /\
          pending_bytes d' < Z.max 4 (max_frame_bytes d) /\
          (length (buf d') <= length (buf d))%nat); [|tauto].
  clear Hidem. unfold next_frame in Hn. unfold wf, pending_bytes, zlen in *.
  destruct (current_len d) as [len|] eqn:Hc.
  - apply take_payload_none in Hn as [? ->]; simpl. lia.
  - destruct (read_prefix (buf d)) as [[n rest]|] eqn:Hp.
    + destruct (check_limit d n) as [[]|e] eqn:Hl; [|by simplify_eq].
      apply take_payload_none in Hn as [? ->]; simpl in *.
      apply check_limit_ok in Hl.
      apply read_prefix_length in Hp as [Hn32 ?]. unfold is_u32 in Hn32. lia.
    + apply read_prefix_none in Hp. simplify_eq. rewrite Hc. lia.
Qed.

Lemma next_frame_some d d' r :
  wf d -> next_frame d = (d', r) -> r <> Ok None ->
  wf d' /\ max_frame_bytes d' = max_frame_bytes d /\
  (forall v, r = Ok (Some v) -> (length (buf d') < length (buf d))%nat).
Proof.
  unfold next_frame, wf. intros Hwf Hn Hr.
  destruct (current_len d) as [len|] eqn:Hc.
  - destruct (take_payload_length _ _ _ _ Hn Hr) as (? & ? & ? & ->).
    repeat split; [done|]. intros; lia.
  - destruct (read_prefix (buf d)) as [[n rest]|] eqn:Hp; [|by simplify_eq].
    apply read_prefix_length in Hp as [_ Hlen].
    destruct (check_limit d n) as [[]|e] eqn:Hl; [|simplify_eq; by rewrite Hc].
    destruct (take_payload_length _ _ _ _ Hn Hr) as (? & ? & ? & ->); simpl in *.
    repeat split; [done|]. intros; lia.
Qed.

(** [push] reports an error exactly when the next [next_frame] would report it first. *)
Lemma push_spec d c :
  wf d ->
  fst (push d c) = more d c /\
  match snd (push d c) with
  | Ok _ => True
  | Err e => next_frame (more d c) = (more d c, Err e)
  end.
Proof.
  intros Hwf. split; [done|]. unfold push, next_frame. fold (more d c). simpl.
  unfold wf in Hwf. destruct (current_len d) as [len|] eqn:Hc.
  - assert (check_limit d len = Ok tt) as Hok by (apply check_limit_ok; lia).
    change (check_limit _ len) with (check_limit d len). by rewrite Hok.
  - destruct (read_prefix (buf d ++ c)) as [[n rest]|]; [|done].
    change (check_limit (mkDecoder (max_frame_bytes d) (buf d ++ c) None) n) with (check_limit d n).
    change (check_limit (more d c) n) with (check_limit d n).
    by destruct (check_limit d n).
Qed.

Context {W : Type} (dispatch : W -> value -> W * res string unit).

Lemma pump_step fuel w d :
  pump dispatch (S fuel) w d =
  match next_frame d with
  | (d', Ok (Some v)) =>
      match dispatch w v with
      | (w', Err e) => (w', d', Broke e)
      | (w', Ok _) => pump dispatch fuel w' d'
      end
  | (d', Ok None) => (w, d', Drained)
  | (d', Err e) => (w, d', Broke (FrameError_display e))
  end.
Proof. done. Qed.

(** The fuel of [pump_fuel] is enough, and more fuel changes nothing. *)
Lemma pump_enough fuel1 fuel2 w d :
  wf d -> (length (buf d) < fuel1)%nat -> (length (buf d) < fuel2)%nat ->
  pump dispatch fuel1 w d = pump dispatch fuel2 w d /\
  (pump dispatch fuel1 w d).2 <> OutOfFuel.
Proof.
  revert fuel2 w d. induction fuel1 as [|fuel1 IH]; intros fuel2 w d Hwf H1 H2; [lia|].
  destruct fuel2 as [|fuel2]; [lia|]. rewrite !pump_step.
  destruct (next_frame d) as [d' [[v|]|e]] eqn:Hn; [|done|done].
  destruct (dispatch w v) as [w' [u|e]]; [|done].
  destruct (next_frame_some d d' (Ok (Some v)) Hwf Hn ltac:(done)) as (? & ? & Hlen).
  specialize (Hlen v eq_refl). apply IH; [done|lia|lia].
Qed.

(** What [pump] does on the bytes it has is what it does first on a longer stream. *)
Lemma pump_more fuel fuel' w d c w' d' r :
  wf d -> pump dispatch fuel w d = (w', d', r) ->
  (length (buf d ++ c) < fuel')%nat ->
  match r with
  | Drained => wf d' /\ next_frame d' = (d', Ok None) /\ max_frame_bytes d' = max_frame_bytes d /\
               pump dispatch fuel' w (more d c) = pump dispatch (pump_fuel (more d' c)) w' (more d' c)
  | Broke reason => pump dispatch fuel' w (more d c) = (w', more d' c, Broke reason)
  | OutOfFuel => True
  end.
Proof.
  revert fuel' w d. induction fuel as [|fuel IH]; intros fuel' w d Hwf Hp Hf.
  { by injection Hp as <- <- <-. }
  destruct fuel' as [|fuel']; [lia|]. rewrite pump_step in Hp |- *.
  destruct (next_frame d) as [d1 [[v|]|e]] eqn:Hn.
  - rewrite (next_frame_app _ c _ _ Hn) by done.
    destruct (next_frame_some _ _ _ Hwf Hn ltac:(done)) as (Hwf1 & Hmax & Hlen).
    specialize (Hlen v eq_refl). rewrite length_app in Hf.
    destruct (dispatch w v) as [w1 [u|e]]; [|by simplify_eq].
    rewrite <- Hmax. apply (IH fuel'); [done|done|rewrite length_app; lia].
  - simplify_eq. destruct (next_frame_none _ _ Hwf Hn) as (Hwf1 & Hn1 & Hmax & _ & Hle).
    repeat split; try done. rewrite (next_frame_more_none _ c _ Hn).
    rewrite <- pump_step. rewrite length_app in Hf.
    apply pump_enough; [done| |unfold pump_fuel; lia]. simpl. rewrite length_app. lia.
  - simplify_eq. by rewrite (next_frame_app _ c _ _ Hn).
Qed.

(** What the read loop reports about the outcome of a pump. *)
Definition pump_report (r : W * FrameDecoder * pump_end) : W * option string :=
  match r with
  | (w, _, Broke reason) => (w, Some reason)
  | (w, _, _) => (w, None)
  end.

(** From a drained decoder the read loop decodes the concatenation of what it reads. *)
Lemma reader_loop_stream (chunks : list (list byte)) w d :
  wf d -> next_frame d = (d, Ok None) -> Forall (fun c => c <> []) chunks ->
  reader_loop dispatch (map Ok chunks) w d =
    pump_report (pump dispatch (pump_fuel (more d (concat chunks))) w (more d (concat chunks))).
Proof.
  intros Hwf Hn Hne. revert w d Hwf Hn.
  induction Hne as [|c chunks Hc _ IH]; intros w d Hwf Hn; simpl.
  - rewrite more_nil. unfold pump_fuel. by rewrite pump_step, Hn.
  - destruct c as [|b c]; [done|]. set (cs := b :: c) in *.
    change (match push d cs with
      | (_, Err e) => (w, Some (FrameError_display e))
      | (d', Ok _) => match pump dispatch (pump_fuel d') w d' with
          | (w', d'', Drained) => reader_loop dispatch (map Ok chunks) w' d''
          | (w', _, Broke reason) => (w', Some reason)
          | (w', _, OutOfFuel) => (w', None) end end = 
      pump_report (pump dispatch (pump_fuel (more d (cs ++ concat chunks))) w (more d (cs ++ concat chunks)))).
    destruct (push_spec d cs Hwf) as [Hpush Herr].
    destruct (push d cs) as [d1 [[]|e]]; simpl in Hpush, Herr; subst d1; rewrite <- more_more.
    + destruct (pump dispatch (pump_fuel (more d cs)) w (more d cs)) as [[w' d'] r] eqn:Hp.
      assert (Hwf1 : wf (more d cs)) by done.
      pose proof (pump_more _ (pump_fuel (more (more d cs) (concat chunks))) _ _
        (concat chunks) _ _ _ Hwf1 Hp ltac:(unfold pump_fuel; simpl; lia)) as Hm.
      destruct r as [|reason|].
      * destruct Hm as (Hwf' & Hn' & _ & ->). by apply IH.
      * by rewrite Hm.
      * destruct (pump_enough (pump_fuel (more d cs)) (pump_fuel (more d cs)) w (more d cs) Hwf1
          ltac:(unfold pump_fuel; lia) ltac:(unfold pump_fuel; lia)) as [_ Hno].
        by rewrite Hp in Hno.
    + unfold pump_fuel. rewrite pump_step.
      by rewrite (next_frame_app _ (concat chunks) _ _ Herr).
Qed.

(** A frame of [encode_frame]: the length of its payload, which is a serialized text, and the payload. *)
Definition frame_of (max : Z) (t f : list byte) : Prop := f = put_u32_le (zlen t) ++ t /\ 0 < zlen t <= max /\ utf8_valid t = true.

Lemma encode_frame_of (max : Z) v f :
  (forall t, to_string v = Ok t -> utf8_valid t = true) -> encode_frame v max = Ok f -> exists t, to_string v = Ok t /\ frame_of max t f.
Proof.
  unfold encode_frame. intros U He. destruct (to_string v) as [t|m] eqn:Ht; [|done]. cbn [map_err res_bind] in He.
  destruct ((zlen t =? 0) || (zlen t >? max)) eqn:Hlim; [done|]. exists t. split; [done|].
  bool_to_prop. pose proof (zlen_nonneg t). split_and!; [congruence|lia|lia|by apply U].
Qed.

(** The value a payload is read as. *)
Definition parsed (t : list byte) : option value := match from_str t with Some v => if is_object v then Some v else None | None => None end.

Lemma next_frame_encoded (max : Z) (t f rest : list byte) :
  max <= u32_max -> frame_of max t f ->
  next_frame (mkDecoder max (f ++ rest) None) =
    (mkDecoder max rest None, match parsed t with Some v => Ok (Some v) | None => Err NotAnObject end).
Proof.
  intros Hmax (-> & Hlen & Hutf).
  destruct (put_u32_le_roundtrip (zlen t)) as (b0 & b1 & b2 & b3 & Hput & Hle).
  { unfold is_u32; lia. }
  rewrite Hput. unfold next_frame; simpl. rewrite Hle.
  unfold check_limit; simpl.
  destruct (Z.eqb_spec (zlen t) 0); [lia|].
  destruct (Z.gtb_spec (zlen t) max); [lia|].
  unfold take_payload; simpl. unfold zlen. rewrite Nat2Z.id, length_app.
  destruct (Nat.ltb_spec (length t + length rest) (length t)); [lia|].
  rewrite take_app_length, drop_app_length, Hutf. unfold parsed. destruct (from_str t) as [v|]; [|done]. by destruct (is_object v).
Qed.
End Decoding.

(** The dispatcher that only records what was decoded. *)
Definition log_dispatch {value} (l : list value) (v : value) : list value * res string unit :=
  (l ++ [v], Ok tt).

Section RoundTrip.
Context {value : Type} `{SerdeJsonText value}.

(** What a reader takes from payloads: the objects they parse to; it stops at the first that is no object. *)
Fixpoint understood (ts : list (list byte)) : list value * option string :=
  match ts with
  | [] => ([], None)
  | t :: ts =>
      match parsed t with
      | Some v => let '(vs, stopped) := understood ts in (v :: vs, stopped)
      | None => ([], Some "frame payload is not a JSON object")
      end
  end.

Lemma pump_encoded (max : Z) (ts frames : list (list byte)) (acc : list value) fuel :
  max <= u32_max -> Forall2 (frame_of max) ts frames -> (length (concat frames) < fuel)%nat ->
  pump_report (pump log_dispatch fuel acc (mkDecoder max (concat frames) None)) = (acc ++ (understood ts).1, (understood ts).2).
Proof.
  intros Hmax Hf. revert acc fuel.
  induction Hf as [|t f ts frames Hv _ IH]; intros acc [|fuel] Hfuel; simpl in Hfuel; try lia.
  - rewrite pump_step. by rewrite app_nil_r.
  - rewrite pump_step. simpl concat. rewrite (next_frame_encoded max t f (concat frames)) by done. cbn [understood].
    destruct (parsed t) as [v|]; [|by rewrite app_nil_r]. cbn [log_dispatch]. rewrite IH.
    + destruct (understood ts) as [vs stopped]. by rewrite <- app_assoc.
    + rewrite length_app in Hfuel. destruct Hv as (-> & Hlen & _). rewrite length_app in Hfuel. unfold zlen in Hlen. lia.
Qed.

Lemma understood_faithful (vs : list value) (ts : list (list byte)) :
  Forall2 (fun v t => to_string v = Ok t) vs ts ->
  Forall (fun v => is_object v = true /\ forall t, to_string v = Ok t -> from_str t = Some v) vs -> understood ts = (vs, None).
Proof.
  induction 1 as [|v t vs ts Ht _ IH]; [done|]. intros [[Ho Hp] F]%Forall_cons. cbn [understood]. unfold parsed. by rewrite (Hp _ Ht), Ho, (IH F).
Qed.

(** How the socket splits the bytes does not matter: two runs of the read loop over
    non-empty reads with the same concatenation decode the same messages, hand them to the
    same handlers in the same order and stop for the same reason. *)
Theorem reader_chunking (W : Type) (dispatch : W -> value -> W * res string unit)
    (max : Z) (d : FrameDecoder) (w : W) (chunks1 chunks2 : list (list byte)) :
  decoder_new max = Some d ->
  Forall (fun c => c <> []) chunks1 -> Forall (fun c => c <> []) chunks2 ->
  concat chunks1 = concat chunks2 ->
  reader_loop dispatch (map Ok chunks1) w d = reader_loop dispatch (map Ok chunks2) w d.
Proof.
  unfold decoder_new. intros Hd H1 H2 Heq. case_match; simplify_eq.
  rewrite !reader_loop_stream by done. by rewrite Heq.
Qed.

(** C39.  Frames survive the stream.  Frames that [encode_frame] writes and that arrive in arbitrary non-empty pieces are
    read back as exactly the values their payload texts parse to, in order, up to the first payload that does not parse to a JSON object, where the
    reader stops with [NotAnObject]; without such a payload it goes on waiting.  In particular values that are JSON objects and that their text
    parses back to are received exactly as they were written.  (The serializer is assumed to write UTF-8, which the type of its result says.) *)
Theorem frame_roundtrip (max : Z) (d : FrameDecoder) (vs : list value)
    (frames chunks : list (list byte)) :
  (forall v t, to_string v = Ok t -> utf8_valid t = true) ->
  decoder_new max = Some d -> max <= u32_max ->
  Forall2 (fun v f => encode_frame v max = Ok f) vs frames ->
  Forall (fun c => c <> []) chunks -> concat chunks = concat frames ->
  exists texts, Forall2 (fun v t => to_string v = Ok t) vs texts /\
    reader_loop log_dispatch (map Ok chunks) [] d = understood texts /\
    (Forall (fun v => is_object v = true /\ forall t, to_string v = Ok t -> from_str t = Some v) vs ->
     reader_loop log_dispatch (map Ok chunks) [] d = (vs, None)).
Proof.
  unfold decoder_new. intros U Hd Hmax Hf Hne Heq. case_match; simplify_eq.
  assert (T : exists texts, Forall2 (fun v t => to_string v = Ok t) vs texts /\ Forall2 (frame_of max) texts frames).
  { clear -U Hf. induction Hf as [|v f vs frames He _ (texts & A & B)]; [by exists []|].
    destruct (encode_frame_of max v f (U v) He) as (t & ? & ?). exists (t :: texts). by split; constructor. }
  destruct T as (texts & A & B). exists texts. split; [done|].
  assert (R : reader_loop log_dispatch (map Ok chunks) [] (mkDecoder max [] None) = understood texts).
  { rewrite reader_loop_stream, Heq by done. unfold more; simpl. rewrite (pump_encoded max texts frames) by (done || (unfold pump_fuel; simpl; lia)). by destruct (understood texts). }
  split; [done|]. intros F. rewrite R. by apply understood_faithful.
Qed.

(** Bounded memory: after the pump stopped for want of bytes, the decoder holds fewer
    bytes than [max_frame_bytes], however much was pushed. *)
Theorem decoder_bounded (W : Type) (dispatch : W -> value -> W * res string unit)
    (max : Z) (d0 d d' : FrameDecoder) (w w' : W) (fuel : nat) :
  decoder_new max = Some d0 -> wf d -> max_frame_bytes d = max ->
  pump dispatch fuel w d = (w', d', Drained) ->
  pending_bytes d' < max /\ wf d'.
Proof.
  unfold decoder_new. intros Hd Hwf Hmax Hp. case_match; simplify_eq. bool_to_prop.
  pose proof (pump_more dispatch fuel (pump_fuel (more d [])) w d [] _ _ _ Hwf Hp) as Hm.
  destruct Hm as (Hwf' & Hn' & Hmax' & _); [unfold pump_fuel; simpl; lia|].
  destruct (next_frame_none _ _ Hwf' Hn') as (_ & _ & _ & Hlt & _).
  split; [lia|done].
Qed.
End RoundTrip.

(** ** Witnesses

    A serializer over raw payload texts: every text is its own value, and an object when it opens a brace. *)
Module Demo.
Definition text : Type := list byte.
#[export] Instance demo_json : SerdeJsonText text := {
  from_str := fun t => Some t;
  to_string := fun v => if utf8_valid v then Ok v else Err "not UTF-8";
  is_object := fun v => bool_decide (head v = Some x7b);
}.

Definition empty_object : text := String.list_byte_of_string "{}".
(** The number 1: no object. *)
Definition one : text := String.list_byte_of_string "1".
Definition stream : list byte := put_u32_le 2 ++ empty_object ++ put_u32_le 2 ++ empty_object.
Definition bytewise : list (list byte) := map (fun b => [b]) stream.
End Demo.
Import Demo.

Lemma reader_chunking_witness :
  reader_loop log_dispatch (map Ok [stream]) [] (mkDecoder 64 [] None) =
  reader_loop log_dispatch (map Ok bytewise) [] (mkDecoder 64 [] None).
Proof.
  apply (reader_chunking (list text) log_dispatch 64 (mkDecoder 64 [] None) []
           [stream] bytewise).
  - reflexivity.
  - repeat constructor; discriminate.
  - repeat constructor; discriminate.
  - reflexivity.
Defined.

Lemma frame_roundtrip_witness :
  reader_loop log_dispatch (map Ok bytewise) [] (mkDecoder 64 [] None) = ([empty_object; empty_object], None) /\
  reader_loop log_dispatch (map Ok [put_u32_le 2 ++ empty_object ++ put_u32_le 1 ++ one ++ put_u32_le 2 ++ empty_object]) [] (mkDecoder 64 [] None) =
    ([empty_object], Some "frame payload is not a JSON object").
Proof.
  assert (U : forall v t : text, to_string v = Ok t -> utf8_valid t = true).
  { intros v t. unfold to_string, demo_json. destruct (utf8_valid v) eqn:E; [|done]. congruence. }
  split.
  - destruct (frame_roundtrip 64 (mkDecoder 64 [] None) [empty_object; empty_object]
               [put_u32_le 2 ++ empty_object; put_u32_le 2 ++ empty_object] bytewise) as (texts & _ & _ & F).
    + exact U.
    + reflexivity.
    + unfold u32_max; lia.
    + by repeat constructor.
    + repeat constructor; discriminate.
    + reflexivity.
    + apply F. repeat constructor; intros t [= <-]; reflexivity.
  - destruct (frame_roundtrip 64 (mkDecoder 64 [] None) [empty_object; one; empty_object]
               [put_u32_le 2 ++ empty_object; put_u32_le 1 ++ one; put_u32_le 2 ++ empty_object]
               [put_u32_le 2 ++ empty_object ++ put_u32_le 1 ++ one ++ put_u32_le 2 ++ empty_object]) as (texts & T & R & _).
    + exact U.
    + reflexivity.
    + unfold u32_max; lia.
    + by repeat constructor.
    + repeat constructor; discriminate.
    + reflexivity.
    + rewrite R. inversion T as [|? t1 ? ts1 T1 T']; subst. inversion T' as [|? t2 ? ts2 T2 T'']; subst.
      injection T1 as <-. injection T2 as <-. reflexivity.
Defined.

Lemma decoder_bounded_witness :
  exists d', pending_bytes d' < 64 /\ wf d'.
Proof.
  exists (mkDecoder 64 [x00; x00] None).
  apply (decoder_bounded (value := text) (list text) log_dispatch 64 (mkDecoder 64 [] None)
           (mkDecoder 64 (stream ++ [x00; x00]) None) _ [] [empty_object; empty_object] 16).
  - reflexivity.
  - exact I.
  - reflexivity.
  - reflexivity.
Defined.
