(* ===== verification/Domain.v ===== *)
(** * The Bridge domain model

    The data of [apps/bridge/src/domain/]: one Module per enum or struct, with the type [t], the
    source's constructors or field names, and decidable equality, so that [Foo::Bar] and
    [x.field] of the source read [Foo.Bar] and [x.(Foo.field)] here.  Timestamps
    ([DateTime<Utc>]) are milliseconds in [Z]; UUIDs are their canonical strings. *)

From S2P Require Import Prelude.

Definition DateTime : Type := Z.
Definition Uuid : Type := string.

(** ** Errors ([domain/error.rs]) *)

(** Stable error codes. *)
Module StableErrorCode.
Inductive t := AuthRequired
| AuthExpired
| CsrfInvalid
| WsTicketInvalid
| WsTicketExpired
| WsTicketConsumed
| DeviceOffline
| DeviceRevoked
| CodexUnavailable
| CodexVersionUnverified
| ControlReadOnly
| CapabilityUnsupported
| SessionNotFound
| StaleTurn
| DuplicateRequestMismatch
| OutcomeUnknown
| ResyncRequired
| QueueAlreadyExists
| QueuePaused
| QuestionExpired
| ApprovalExpired
| SettingCombinationUnsupported
| FileHandleInvalid
| FileOutsideScope
| FileChanged
| FileTypeNotPreviewable
| TransferExpired
| TransferTooLarge
| TransferRangeInvalid
| DiffTooLarge
| RateLimited
| InternalError.
#[global] Instance eq_dec : EqDecision t.
Proof. solve_decision. Defined.

Definition as_str (c : t) : string :=
  match c with
  | AuthRequired => "AUTH_REQUIRED"
  | AuthExpired => "AUTH_EXPIRED"
  | CsrfInvalid => "CSRF_INVALID"
  | WsTicketInvalid => "WS_TICKET_INVALID"
  | WsTicketExpired => "WS_TICKET_EXPIRED"
  | WsTicketConsumed => "WS_TICKET_CONSUMED"
  | DeviceOffline => "DEVICE_OFFLINE"
  | DeviceRevoked => "DEVICE_REVOKED"
  | CodexUnavailable => "CODEX_UNAVAILABLE"
  | CodexVersionUnverified => "CODEX_VERSION_UNVERIFIED"
  | ControlReadOnly => "CONTROL_READ_ONLY"
  | CapabilityUnsupported => "CAPABILITY_UNSUPPORTED"
  | SessionNotFound => "SESSION_NOT_FOUND"
  | StaleTurn => "STALE_TURN"
  | DuplicateRequestMismatch => "DUPLICATE_REQUEST_MISMATCH"
  | OutcomeUnknown => "OUTCOME_UNKNOWN"
  | ResyncRequired => "RESYNC_REQUIRED"
  | QueueAlreadyExists => "QUEUE_ALREADY_EXISTS"
  | QueuePaused => "QUEUE_PAUSED"
  | QuestionExpired => "QUESTION_EXPIRED"
  | ApprovalExpired => "APPROVAL_EXPIRED"
  | SettingCombinationUnsupported => "SETTING_COMBINATION_UNSUPPORTED"
  | FileHandleInvalid => "FILE_HANDLE_INVALID"
  | FileOutsideScope => "FILE_OUTSIDE_SCOPE"
  | FileChanged => "FILE_CHANGED"
  | FileTypeNotPreviewable => "FILE_TYPE_NOT_PREVIEWABLE"
  | TransferExpired => "TRANSFER_EXPIRED"
  | TransferTooLarge => "TRANSFER_TOO_LARGE"
  | TransferRangeInvalid => "TRANSFER_RANGE_INVALID"
  | DiffTooLarge => "DIFF_TOO_LARGE"
  | RateLimited => "RATE_LIMITED"
  | InternalError => "INTERNAL_ERROR"
  end.
End StableErrorCode.

(** [BridgeError]. *)
Module BridgeError.
Record t := mk {
  code : StableErrorCode.t;
  message : string;
}.
#[global] Instance eq_dec : EqDecision t.
Proof. solve_decision. Defined.
End BridgeError.

(** ** Text ([domain/text.rs]; the chunker is in [Text.v]) *)

(** User-visible text; [Debug] redacts it. *)
Module OutputText.
Record t := mk {
  text : string;
}.
#[global] Instance eq_dec : EqDecision t.
Proof. solve_decision. Defined.

Definition default : t := mk "".
Definition len (x : t) : Z := Z.of_nat (String.length (text x)).
Definition is_empty (x : t) : bool := bool_decide (text x = "").
End OutputText.

(** Output bytes. *)
Module OutputBytes.
Record t := mk {
  bytes : list byte;
}.
#[global] Instance eq_dec : EqDecision t.
Proof. solve_decision. Defined.

Definition from_text (s : string) : t := mk (String.list_byte_of_string s).
Definition len (x : t) : Z := zlen (bytes x).
Definition is_empty (x : t) : bool := bool_decide (bytes x = []).
End OutputBytes.

(** ** States ([domain/states.rs]) *)

(** [DeviceConnection]. *)
Module DeviceConnection.
Inductive t := Connecting | Online | Degraded | Offline.
#[global] Instance eq_dec : EqDecision t.
Proof. solve_decision. Defined.
End DeviceConnection.

(** [ControlMode]. *)
Module ControlMode.
Inductive t := FullControl | LimitedControl | ReadOnly | Unavailable.
#[global] Instance eq_dec : EqDecision t.
Proof. solve_decision. Defined.
End ControlMode.

(** [CompatibilityState]. *)
Module CompatibilityState.
Inductive t := Verified | Degraded | Unsupported.
#[global] Instance eq_dec : EqDecision t.
Proof. solve_decision. Defined.
End CompatibilityState.

(** [ActiveTurnPhase]. *)
Module ActiveTurnPhase.
Inductive t := Idle | Running | Finishing.
#[global] Instance eq_dec : EqDecision t.
Proof. solve_decision. Defined.
End ActiveTurnPhase.

(** [PendingAttentionKind]. *)
Module PendingAttentionKind.
Inductive t := UserQuestion | RiskApproval.
#[global] Instance eq_dec : EqDecision t.
Proof. solve_decision. Defined.
End PendingAttentionKind.

(** [QueueState]. *)
Module QueueState.
Inductive t := Empty | Queued | Paused.
#[global] Instance eq_dec : EqDecision t.
Proof. solve_decision. Defined.
End QueueState.

(** [LastTurnOutcome]. *)
Module LastTurnOutcome.
Inductive t := Completed | Failed | Interrupted | Unknown.
#[global] Instance eq_dec : EqDecision t.
Proof. solve_decision. Defined.
End LastTurnOutcome.

(** [BackgroundCommandState]. *)
Module BackgroundCommandState.
Inductive t := Running | Completed | Failed | Stopped | Unknown.
#[global] Instance eq_dec : EqDecision t.
Proof. solve_decision. Defined.
End BackgroundCommandState.

(** [PlanStepStatus]. *)
Module PlanStepStatus.
Inductive t := Pending | InProgress | Completed.
#[global] Instance eq_dec : EqDecision t.
Proof. solve_decision. Defined.
End PlanStepStatus.

(** [OutputChannel]. *)
Module OutputChannel.
Inductive t := Stdout | Stderr | Combined.
#[global] Instance eq_dec : EqDecision t.
Proof. solve_decision. Defined.
End OutputChannel.

(** ** Identifiers ([domain/ids.rs]) *)

(** [AgentKind]. *)
Module AgentKind.
Inductive t := CodexDesktop | ZcodeDesktop.
#[global] Instance eq_dec : EqDecision t.
Proof. solve_decision. Defined.

Definition kind_name (k : t) : string :=
  match k with
  | CodexDesktop => "codex-desktop"
  | ZcodeDesktop => "zcode-desktop"
  end.

Definition proto_value (k : t) : Z :=
  match k with
  | CodexDesktop => 1
  | ZcodeDesktop => 2
  end.

Definition from_proto_value (value : Z) : option t :=
  if value =? 1 then Some CodexDesktop
  else if value =? 2 then Some ZcodeDesktop
  else None.
End AgentKind.

(** The native session key. *)
Module SessionKey.
Record t := mk {
  device_id : string;
  agent_kind : AgentKind.t;
  native_session_id : string;
  relay_session_uuid : option Uuid;
}.
#[global] Instance eq_dec : EqDecision t.
Proof. solve_decision. Defined.

Definition codex (device_id native_session_id : string) : t :=
  mk device_id AgentKind.CodexDesktop native_session_id None.
Definition zcode (device_id native_session_id : string) : t :=
  mk device_id AgentKind.ZcodeDesktop native_session_id None.
End SessionKey.

(** [TurnId]; the field [synthetic] is [synthetic_] here, next to the constructor function. *)
Module TurnId.
Record t := mk {
  id : string;
  synthetic_ : bool;
}.
#[global] Instance eq_dec : EqDecision t.
Proof. solve_decision. Defined.

Definition native (id : string) : t := mk id false.
Definition synthetic (id : string) : t := mk id true.

(** [Display]. *)
Definition display (x : t) : string :=
  if synthetic_ x then id x +:+ "~synthetic" else id x.
End TurnId.

(** [ItemId]; the field [synthetic] is [synthetic_] here, next to the constructor function. *)
Module ItemId.
Record t := mk {
  id : string;
  synthetic_ : bool;
}.
#[global] Instance eq_dec : EqDecision t.
Proof. solve_decision. Defined.

Definition native (id : string) : t := mk id false.
Definition synthetic (id : string) : t := mk id true.

(** [Display]. *)
Definition display (x : t) : string :=
  if synthetic_ x then id x +:+ "~synthetic" else id x.
End ItemId.

(** ** Items ([domain/items.rs]) *)

(** [PlanStep]. *)
Module PlanStep.
Record t := mk {
  step_id : string;
  title : OutputText.t;
  status : PlanStepStatus.t;
}.
#[global] Instance eq_dec : EqDecision t.
Proof. solve_decision. Defined.
End PlanStep.

(** [Plan]. *)
Module Plan.
Record t := mk {
  steps : list PlanStep.t;
}.
#[global] Instance eq_dec : EqDecision t.
Proof. solve_decision. Defined.

Definition default : t := mk [].
Definition is_empty (p : t) : bool := bool_decide (steps p = []).
End Plan.

(** [FileChangeKind]. *)
Module FileChangeKind.
Inductive t := Added | Modified | Deleted | Renamed | Unknown.
#[global] Instance eq_dec : EqDecision t.
Proof. solve_decision. Defined.
End FileChangeKind.

(** [FileChange]. *)
Module FileChange.
Record t := mk {
  path : string;
  change : FileChangeKind.t;
}.
#[global] Instance eq_dec : EqDecision t.
Proof. solve_decision. Defined.
End FileChange.

(** [CommandStatusState]. *)
Module CommandStatusState.
Inductive t := Running | Completed | Failed | Interrupted | Unknown.
#[global] Instance eq_dec : EqDecision t.
Proof. solve_decision. Defined.
End CommandStatusState.

(** The visible content kinds. *)
Module ItemContent.
Inductive t :=
| UserMessage (text : OutputText.t)
| AssistantMessage (text : OutputText.t) (final_message : bool)
| ReasoningSummary (text : OutputText.t)
| Plan (plan : Plan.t)
| ToolCall (tool_call_id name : string) (status : PlanStepStatus.t) (summary : option OutputText.t)
    (duration_ms : Z)
| CommandStatus (command_id : string) (state : CommandStatusState.t) (display : option OutputText.t)
    (exit_code : option Z) (duration_ms : Z)
| FileChange (changes : list FileChange.t)
| SubAgentStatus (subagent_turn : option TurnId.t) (label : string) (phase : ActiveTurnPhase.t)
    (outcome : option LastTurnOutcome.t)
| Question (question_id : string) (title : OutputText.t)
| Approval (approval_id : string) (requested_action : OutputText.t)
| TokenUsage (input_tokens output_tokens : Z) (context_used_tokens context_window_tokens : option Z)
| Opaque (native_type : string).
#[global] Instance eq_dec : EqDecision t.
Proof. solve_decision. Defined.
End ItemContent.

(** [Item]. *)
Module Item.
Record t := mk {
  item_id : ItemId.t;
  turn : option TurnId.t;
  revision : Z;
  created_at : option DateTime;
  content : ItemContent.t;
}.
#[global] Instance eq_dec : EqDecision t.
Proof. solve_decision. Defined.
End Item.

(** [HistoryEntry]. *)
Module HistoryEntry.
Record t := mk {
  turn : TurnId.t;
  item : Item.t;
}.
#[global] Instance eq_dec : EqDecision t.
Proof. solve_decision. Defined.
End HistoryEntry.

(** [HistoryPage]. *)
Module HistoryPage.
Record t := mk {
  entries : list HistoryEntry.t;
  next_cursor : option string;
  has_more : bool;
}.
#[global] Instance eq_dec : EqDecision t.
Proof. solve_decision. Defined.
End HistoryPage.

(** ** Pending attention ([domain/attention.rs]) *)

(** [QuestionOption]. *)
Module QuestionOption.
Record t := mk {
  option_id : string;
  label : OutputText.t;
}.
#[global] Instance eq_dec : EqDecision t.
Proof. solve_decision. Defined.
End QuestionOption.

(** [PendingQuestion]. *)
Module PendingQuestion.
Record t := mk {
  question_id : string;
  title : OutputText.t;
  description : OutputText.t;
  options : list QuestionOption.t;
  allow_multiple : bool;
  allow_free_text : bool;
  turn : option TurnId.t;
  created_at : option DateTime;
  valid : bool;
}.
#[global] Instance eq_dec : EqDecision t.
Proof. solve_decision. Defined.
End PendingQuestion.

(** [ApprovalDecision]. *)
Module ApprovalDecision.
Record t := mk {
  decision_id : string;
  label : OutputText.t;
}.
#[global] Instance eq_dec : EqDecision t.
Proof. solve_decision. Defined.
End ApprovalDecision.

(** [PendingApproval]. *)
Module PendingApproval.
Record t := mk {
  approval_id : string;
  risk_description : OutputText.t;
  requested_action : OutputText.t;
  decisions : list ApprovalDecision.t;
  scope : option OutputText.t;
  turn : option TurnId.t;
  created_at : option DateTime;
  valid : bool;
}.
#[global] Instance eq_dec : EqDecision t.
Proof. solve_decision. Defined.
End PendingApproval.

(** [PendingAttention]. *)
Module PendingAttention.
Inductive t :=
| Question (q : PendingQuestion.t)
| Approval (a : PendingApproval.t).
#[global] Instance eq_dec : EqDecision t.
Proof. solve_decision. Defined.

Definition kind (x : t) : PendingAttentionKind.t :=
  match x with
  | Question _ => PendingAttentionKind.UserQuestion
  | Approval _ => PendingAttentionKind.RiskApproval
  end.

Definition native_id (x : t) : string :=
  match x with
  | Question q => PendingQuestion.question_id q
  | Approval a => PendingApproval.approval_id a
  end.

Definition turn (x : t) : option TurnId.t :=
  match x with
  | Question q => PendingQuestion.turn q
  | Approval a => PendingApproval.turn a
  end.

Definition is_valid (x : t) : bool :=
  match x with
  | Question q => PendingQuestion.valid q
  | Approval a => PendingApproval.valid a
  end.
End PendingAttention.

(** ** Capabilities ([domain/capability.rs]) *)

(** [Operation]. *)
Module Operation.
Inductive t :=
| CreateSession
| StartTurn
| QueueNextTurn
| SteerTurn
| InterruptTurn
| AnswerQuestion
| SubmitApproval
| UpdateSettings
| RenameSession
| ArchiveSession
| UnarchiveSession
| ForkSession
| StopBackgroundCommand
| StopAllBackgroundCommands.
#[global] Instance eq_dec : EqDecision t.
Proof. solve_decision. Defined.
End Operation.

(** [SettingKind]. *)
Module SettingKind.
Inductive t := Model | ReasoningEffort | ServiceTier | PermissionMode | CollaborationMode.
#[global] Instance eq_dec : EqDecision t.
Proof. solve_decision. Defined.

Definition native_key (k : t) : string :=
  match k with
  | Model => "model"
  | ReasoningEffort => "effort"
  | ServiceTier => "serviceTier"
  | PermissionMode => "approvalPolicy"
  | CollaborationMode => "collaborationMode"
  end.
End SettingKind.

(** [SettingValue]. *)
Module SettingValue.
Record t := mk {
  value : string;
  label : OutputText.t;
}.
#[global] Instance eq_dec : EqDecision t.
Proof. solve_decision. Defined.
End SettingValue.

(** [SettingOption]. *)
Module SettingOption.
Record t := mk {
  option_id : string;
  kind : SettingKind.t;
  label : OutputText.t;
  current_value : option string;
  available_values : list SettingValue.t;
  mutable : bool;
}.
#[global] Instance eq_dec : EqDecision t.
Proof. solve_decision. Defined.
End SettingOption.

(** [SettingUpdate]. *)
Module SettingUpdate.
Record t := mk {
  kind : SettingKind.t;
  value : string;
}.
#[global] Instance eq_dec : EqDecision t.
Proof. solve_decision. Defined.
End SettingUpdate.

(** [TransferLimits]. *)
Module TransferLimits.
Record t := mk {
  text_inline_max_bytes : Z;
  image_inline_max_bytes : Z;
  pdf_range_max_bytes : Z;
  download_max_bytes : Z;
  upload_max_bytes : Z;
  max_concurrent_per_browser : Z;
  max_concurrent_per_device : Z;
  previewable_mime_prefixes : list string;
}.
#[global] Instance eq_dec : EqDecision t.
Proof. solve_decision. Defined.

Definition MIB : Z := 1024 * 1024.

Definition default : t :=
  mk (2 * MIB) (25 * MIB) (100 * MIB) (512 * MIB) (20 * MIB) 2 2
    ["text/"; "application/json"; "application/xml"; "application/x-yaml"; "image/png";
     "image/jpeg"; "image/webp"; "image/gif"; "application/pdf"].
End TransferLimits.

(** [CapabilitySet]. *)
Module CapabilitySet.
Record t := mk {
  control_mode : ControlMode.t;
  compatibility_state : CompatibilityState.t;
  codex_version : option string;
  supported_operations : list Operation.t;
  settings : list SettingOption.t;
  transfer_limits : TransferLimits.t;
}.
#[global] Instance eq_dec : EqDecision t.
Proof. solve_decision. Defined.

Definition read_only_degraded (codex_version : option string) : t :=
  mk ControlMode.ReadOnly CompatibilityState.Degraded codex_version [] [] TransferLimits.default.

Definition unavailable : t :=
  mk ControlMode.Unavailable CompatibilityState.Unsupported None [] [] TransferLimits.default.

Definition supports (c : t) (op : Operation.t) : bool :=
  bool_decide (op ∈ supported_operations c).
End CapabilitySet.

(** ** Summaries and snapshots ([domain/summary.rs]) *)

(** [CurrentTurn]. *)
Module CurrentTurn.
Record t := mk {
  turn : TurnId.t;
  phase : ActiveTurnPhase.t;
  started_at : option DateTime;
}.
#[global] Instance eq_dec : EqDecision t.
Proof. solve_decision. Defined.
End CurrentTurn.

(** [SessionSummary]. *)
Module SessionSummary.
Record t := mk {
  session_key : SessionKey.t;
  title : option OutputText.t;
  agent_kind : AgentKind.t;
  project_display_name : option string;
  current_branch : option string;
  updated_at : option DateTime;
  device_connection : DeviceConnection.t;
  device_last_seen_at : option DateTime;
  degraded_reason : option string;
  control_mode : ControlMode.t;
  compatibility_state : CompatibilityState.t;
  active_turn_phase : ActiveTurnPhase.t;
  pending_attention_count : Z;
  pending_attention_kinds : list PendingAttentionKind.t;
  queue_state : QueueState.t;
  last_turn_outcome : LastTurnOutcome.t;
  pinned : bool;
  muted : bool;
  archived : bool;
}.
#[global] Instance eq_dec : EqDecision t.
Proof. solve_decision. Defined.
End SessionSummary.

(** [RunningCommand]. *)
Module RunningCommand.
Record t := mk {
  command_id : string;
  item_id : option ItemId.t;
  started_at : option DateTime;
}.
#[global] Instance eq_dec : EqDecision t.
Proof. solve_decision. Defined.
End RunningCommand.

(** [BackgroundCommand]. *)
Module BackgroundCommand.
Record t := mk {
  command_id : option string;
  item_id : option ItemId.t;
  state : BackgroundCommandState.t;
  display : option OutputText.t;
  started_at : option DateTime;
  finished_at : option DateTime;
}.
#[global] Instance eq_dec : EqDecision t.
Proof. solve_decision. Defined.
End BackgroundCommand.

(** [QueueStatus]. *)
Module QueueStatus.
Record t := mk {
  state : QueueState.t;
  after_turn_id : option TurnId.t;
  accepted_runtime_revision : option Z;
}.
#[global] Instance eq_dec : EqDecision t.
Proof. solve_decision. Defined.

Definition default : t := mk QueueState.Empty None None.
End QueueStatus.

(** [OutputCursor]. *)
Module OutputCursor.
Record t := mk {
  item_id : ItemId.t;
  revision : Z;
  byte_length : Z;
  is_final : bool;
  channel : OutputChannel.t;
  final_unavailable : bool;
}.
#[global] Instance eq_dec : EqDecision t.
Proof. solve_decision. Defined.
End OutputCursor.

(** [RuntimeSnapshot]. *)
Module RuntimeSnapshot.
Record t := mk {
  session_key : SessionKey.t;
  runtime_revision : Z;
  current_turn : option CurrentTurn.t;
  plan : Plan.t;
  pending_questions : list PendingQuestion.t;
  pending_approvals : list PendingApproval.t;
  running_commands : list RunningCommand.t;
  background_commands : list BackgroundCommand.t;
  background_command_count : Z;
  queue : QueueStatus.t;
  capabilities : CapabilitySet.t;
  recent_output_cursors : list OutputCursor.t;
}.
#[global] Instance eq_dec : EqDecision t.
Proof. solve_decision. Defined.
End RuntimeSnapshot.

(** ** Commands ([domain/commands.rs]) *)

(** [CommandPayload]. *)
Module CommandPayload.
Inductive t :=
| StartTurn (input : OutputText.t)
| Steer (input : OutputText.t)
| Interrupt
| AnswerQuestion (question_id : string) (option_ids : list string) (free_text : option OutputText.t)
| SubmitApproval (approval_id decision_id : string)
| UpdateSettings (values : list SettingUpdate.t)
| QueueNextTurn (input : OutputText.t) (replace : bool)
| CancelQueue
| PauseQueue
| StopBackgroundCommand (command_id : string)
| StopAllBackgroundCommands.
#[global] Instance eq_dec : EqDecision t.
Proof. solve_decision. Defined.
End CommandPayload.

(** [CommandRequest]. *)
Module CommandRequest.
Record t := mk {
  request_id : Uuid;
  operation : Operation.t;
  session_key : SessionKey.t;
  expected_turn_id : option TurnId.t;
  expected_runtime_revision : option Z;
  payload_digest : option string;
  payload : CommandPayload.t;
}.
#[global] Instance eq_dec : EqDecision t.
Proof. solve_decision. Defined.

(** [permits_revision_drift]: an interrupt whose target turn is still the current one. *)
Definition permits_revision_drift (r : t) (current_turn : option TurnId.t) : bool :=
  match payload r with
  | CommandPayload.Interrupt =>
      match expected_turn_id r, current_turn with
      | Some expected, Some current => bool_decide (expected = current)
      | _, _ => false
      end
  | _ => false
  end.
End CommandRequest.

(** [ReceiptState]. *)
Module ReceiptState.
Inductive t :=
| DispatchedToCodex
| Completed
| Rejected (code : StableErrorCode.t) (message : string)
| OutcomeUnknown.
#[global] Instance eq_dec : EqDecision t.
Proof. solve_decision. Defined.
End ReceiptState.

(** [CommandReceipt]; the field [at] is [at_]. *)
Module CommandReceipt.
Record t := mk {
  request_id : Uuid;
  state : ReceiptState.t;
  at_ : option DateTime;
}.
#[global] Instance eq_dec : EqDecision t.
Proof. solve_decision. Defined.
End CommandReceipt.

(** [QueuedTurn]. *)
Module QueuedTurn.
Record t := mk {
  request_id : Uuid;
  input : OutputText.t;
  after_turn_id : TurnId.t;
  accepted_runtime_revision : Z;
  state : QueueState.t;
  accepted_at : option DateTime;
}.
#[global] Instance eq_dec : EqDecision t.
Proof. solve_decision. Defined.
End QueuedTurn.

(** ** Events ([domain/events.rs]) *)

(** [DomainEvent]. *)
Module DomainEvent.
Inductive t :=
| TurnLifecycle (turn : TurnId.t) (phase : ActiveTurnPhase.t) (outcome : option LastTurnOutcome.t)
    (finished_at : option DateTime)
| ItemUpsert (item : Item.t)
| OutputAppend (item_id : ItemId.t) (expected_offset : Z) (bytes : OutputBytes.t)
    (channel : OutputChannel.t)
| OutputReplace (item_id : ItemId.t) (revision : Z) (bytes : OutputBytes.t)
    (channel : OutputChannel.t)
| OutputFinal (item_id : ItemId.t) (revision byte_length : Z) (channel : OutputChannel.t)
    (final_unavailable : bool)
| SessionSummaryChanged (summary : SessionSummary.t)
| PendingAttentionAdded (attention : PendingAttention.t)
| PendingAttentionRemoved (kind : PendingAttentionKind.t) (native_id : string)
    (turn : option TurnId.t)
| QueueStateChanged (queue : QueueStatus.t)
| BackgroundCommandChanged (command : BackgroundCommand.t)
| CapabilityChanged (capabilities : CapabilitySet.t).
#[global] Instance eq_dec : EqDecision t.
Proof. solve_decision. Defined.
End DomainEvent.
