(* ===== verification/Text.v ===== *)
(** * UTF-8 safe chunking of output ([apps/bridge/src/domain/text.rs])

    [is_char_boundary] and [OutputBytes::split_utf8_safe], and what the output mapper relies
    on: the two halves are the input, the head fits, both halves of valid UTF-8 are valid
    UTF-8, and on valid UTF-8 with at least four bytes of room the split always succeeds. *)

From S2P Require Import Prelude Bytes Domain.

(** [index == 0 || index >= bytes.len() || bytes[index] & 0xC0 != 0b1000_0000]. *)
Definition is_char_boundary (bytes : list byte) (index : nat) : bool :=
  match index with
  | O => true
  | _ =>
      match bytes !! index with
      | None => true
      | Some b => negb (utf8_cont b)
      end
  end.

(** [while cut > 0 && !is_char_boundary(&self.0, cut) { cut -= 1; }] *)
Fixpoint back_to_boundary (bytes : list byte) (cut : nat) : nat :=
  match cut with
  | O => O
  | S cut' => if is_char_boundary bytes cut then cut else back_to_boundary bytes cut'
  end.

Definition split_utf8_safe (x : OutputBytes.t) (max : Z) : option (OutputBytes.t * OutputBytes.t) :=
  let bytes := x.(OutputBytes.bytes) in
  if OutputBytes.is_empty x || (max =? 0) then None
  else
    let cut := back_to_boundary bytes (Z.to_nat (Z.min max (zlen bytes))) in
    match cut with
    | O => None
    | _ => Some (OutputBytes.mk (take cut bytes), OutputBytes.mk (drop cut bytes))
    end.

Lemma back_to_boundary_le (l : list byte) (n : nat) : (back_to_boundary l n <= n)%nat.
Proof. induction n as [|n IH]; simpl; [done|]. case_match; lia. Qed.

Lemma back_to_boundary_is (l : list byte) (n : nat) :
  is_char_boundary l (back_to_boundary l n) = true.
Proof.
  induction n as [|n IH]; [done|]. cbn [back_to_boundary].
  destruct (is_char_boundary l (S n)) eqn:E; [exact E|exact IH].
Qed.

(** It stops at the last boundary not after [n]. *)
Lemma back_to_boundary_last (l : list byte) (n k : nat) :
  (k <= n)%nat -> is_char_boundary l k = true -> (k <= back_to_boundary l n)%nat.
Proof.
  intros Hk Hb. induction n as [|n IH]; [lia|]. cbn [back_to_boundary].
  destruct (is_char_boundary l (S n)) eqn:E; [lia|].
  destruct (decide (k = S n)) as [->|]; [congruence|]. apply IH; lia.
Qed.

(** Inside a well-formed character every byte but the first is a continuation byte. *)
Lemma utf8_char_tail (c : list byte) (k : nat) (b : byte) :
  utf8_first c = Some (length c) -> c !! S k = Some b -> utf8_cont b = true.
Proof.
  intros (b0 & t & -> & Hw & [Hw1|(b1 & t1 & -> & ? & H1 & Hc)])%utf8_first_inv Hk.
  - simpl in *. destruct t; simplify_eq/=; lia.
  - destruct k as [|k]; simpl in *; [simplify_eq; by eapply utf8_second_cont|].
    unfold utf8_conts in Hc. bool_to_prop. rewrite forallb_forall in *.
    rewrite ?Nat.sub_0_r, firstn_all in *. apply list_elem_of_lookup_2 in Hk. apply list_elem_of_In in Hk. auto.
Qed.

(** Cutting valid UTF-8 at a character boundary leaves valid UTF-8 on both sides. *)
Lemma Utf8_split_boundary (l : list byte) (n : nat) :
  Utf8 l -> is_char_boundary l n = true -> Utf8 (take n l) /\ Utf8 (drop n l).
Proof.
  intros Hl. revert n. induction Hl as [|c l Hc Hl IH]; intros n Hb.
  - rewrite take_nil, drop_nil. split; constructor.
  - pose proof (utf8_first_bounds _ _ Hc) as Hlen.
    destruct (decide (n < length c)%nat) as [Hn|Hn].
    + destruct n as [|n]; [split; [constructor|by constructor]|].
      exfalso. unfold is_char_boundary in Hb.
      destruct (lookup_lt_is_Some_2 c (S n) Hn) as [b Hbl].
      rewrite lookup_app_l, Hbl in Hb by done.
      by rewrite (utf8_char_tail _ _ _ Hc Hbl) in Hb.
    + rewrite take_app_ge, drop_app_ge by lia.
      assert (is_char_boundary l (n - length c) = true) as Hb'.
      { unfold is_char_boundary in *. destruct (n - length c)%nat eqn:E; [done|].
        destruct n as [|n]; [lia|]. rewrite lookup_app_r in Hb by lia. by rewrite E in Hb. }
      destruct (IH _ Hb') as [? ?]. split; [|done]. by constructor.
Qed.

(** Among any four consecutive positions of valid UTF-8 one is a boundary. *)
Lemma Utf8_first_boundary (l : list byte) :
  Utf8 l -> l <> [] -> exists k, (1 <= k <= 4)%nat /\ (k <= length l)%nat /\ is_char_boundary l k = true.
Proof.
  intros Hl Hne. destruct Hl as [|c l Hc Hl]; [done|].
  pose proof (utf8_first_bounds _ _ Hc) as Hlen. exists (length c). rewrite length_app.
  repeat split; try lia.
  - destruct (utf8_first_inv _ _ Hc) as (b0 & t & _ & Hw & _).
    apply utf8_width_bounds in Hw. lia.
  - unfold is_char_boundary. destruct (length c) eqn:E; [done|]. rewrite <- E.
    rewrite lookup_app_r, Nat.sub_diag by lia. destruct Hl as [|c' l Hc' _]; [done|].
    destruct c' as [|b c']; [pose proof (utf8_first_bounds _ _ Hc'); simpl in *; lia|]. simpl.
    destruct (utf8_first_inv _ _ Hc') as (b0 & t & Heq & Hw & _). simplify_eq.
    by rewrite (utf8_width_not_cont _ _ Hw).
Qed.

Lemma split_sound (x head rest : OutputBytes.t) (max : Z) :
  0 <= max ->
  split_utf8_safe x max = Some (head, rest) ->
  OutputBytes.bytes head ++ OutputBytes.bytes rest = OutputBytes.bytes x /\
  0 < OutputBytes.len head <= max /\
  (utf8_valid (OutputBytes.bytes x) = true ->
   utf8_valid (OutputBytes.bytes head) = true /\ utf8_valid (OutputBytes.bytes rest) = true).
Proof.
  destruct x as [l]. unfold split_utf8_safe, OutputBytes.len; simpl. intros Hmax H.
  case_match; [done|]. set (n := Z.to_nat (Z.min max (zlen l))) in *.
  pose proof (back_to_boundary_le l n). pose proof (back_to_boundary_is l n) as Hb.
  destruct (back_to_boundary l n) as [|k] eqn:Hk; [done|]. simplify_eq/=.
  pose proof (zlen_nonneg l).
  assert (S k <= length l)%nat by (unfold zlen in *; lia).
  split; [|split].
  - apply (take_drop (S k) l).
  - change (0 < zlen (take (S k) l) <= max). unfold zlen. rewrite length_take_le by lia.
    unfold zlen in *; lia.
  - rewrite !utf8_valid_iff. intros Hu. apply (Utf8_split_boundary l (S k) Hu Hb).
Qed.

Lemma split_progress (x : OutputBytes.t) (max : Z) :
  4 <= max -> OutputBytes.bytes x <> [] -> utf8_valid (OutputBytes.bytes x) = true ->
  exists head rest, split_utf8_safe x max = Some (head, rest) /\
    (length (OutputBytes.bytes rest) < length (OutputBytes.bytes x))%nat.
Proof.
  destruct x as [l]; simpl. intros Hmax Hne Hu. rewrite utf8_valid_iff in Hu.
  unfold split_utf8_safe, OutputBytes.is_empty; simpl.
  rewrite bool_decide_eq_false_2 by done. destruct (Z.eqb_spec max 0) as [|Hm0]; [lia|]. simpl.
  set (n := Z.to_nat (Z.min max (zlen l))).
  destruct (Utf8_first_boundary l Hu Hne) as (k & Hk & Hkl & Hb).
  assert (k <= n)%nat by (unfold n, zlen; lia).
  pose proof (back_to_boundary_last l n k ltac:(done) Hb).
  destruct (back_to_boundary l n) as [|m] eqn:Hm; [lia|].
  do 2 eexists. split; [done|]. simpl. rewrite length_drop. lia.
Qed.

(** Both at once, the form the flush loop needs. *)
Lemma split_valid (l : list byte) (max : Z) :
  4 <= max -> l <> [] -> Utf8 l ->
  exists h r, split_utf8_safe (OutputBytes.mk l) max = Some (OutputBytes.mk h, OutputBytes.mk r) /\
    l = h ++ r /\ 0 < zlen h <= max /\ Utf8 h /\ Utf8 r.
Proof.
  intros Hm Hl Hu. apply utf8_valid_iff in Hu.
  destruct (split_progress (OutputBytes.mk l) max Hm Hl Hu) as ([h] & [r] & Hs & _).
  destruct (split_sound _ _ _ max ltac:(lia) Hs) as (Happ & Hlen & Hv).
  exists h, r. rewrite <- !utf8_valid_iff. simpl in *. split_and!; try apply Hv; auto; apply Hlen.
Qed.

(** [split_utf8_safe] loses nothing and respects the limit: whenever it returns
    [(head, rest)], [head ++ rest] is the input, [head] is not empty and at most [max] bytes
    long, and if the input is valid UTF-8 then so are both parts. *)
Theorem split_utf8_safe_sound (x head rest : OutputBytes.t) (max : Z) :
  0 <= max ->
  split_utf8_safe x max = Some (head, rest) ->
  OutputBytes.bytes head ++ OutputBytes.bytes rest = OutputBytes.bytes x /\
  0 < OutputBytes.len head <= max /\
  (utf8_valid (OutputBytes.bytes x) = true ->
   utf8_valid (OutputBytes.bytes head) = true /\ utf8_valid (OutputBytes.bytes rest) = true).
Proof. apply split_sound. Qed.

(** On valid, non-empty UTF-8 and a limit of at least four bytes [split_utf8_safe] always
    returns a split, so the flush loop that [expect]s one cannot panic and terminates. *)
Theorem split_utf8_safe_progress (x : OutputBytes.t) (max : Z) :
  4 <= max -> OutputBytes.bytes x <> [] -> utf8_valid (OutputBytes.bytes x) = true ->
  exists head rest, split_utf8_safe x max = Some (head, rest) /\
    (length (OutputBytes.bytes rest) < length (OutputBytes.bytes x))%nat.
Proof. apply split_progress. Qed.

Lemma split_utf8_safe_sound_witness :
  let x := OutputBytes.from_text "café" in
  exists head rest, split_utf8_safe x 4 = Some (head, rest) /\
    OutputBytes.bytes head ++ OutputBytes.bytes rest = OutputBytes.bytes x /\
    0 < OutputBytes.len head <= 4 /\
    (utf8_valid (OutputBytes.bytes x) = true ->
     utf8_valid (OutputBytes.bytes head) = true /\ utf8_valid (OutputBytes.bytes rest) = true).
Proof.
  simpl. do 2 eexists. split; [reflexivity|].
  apply (split_utf8_safe_sound (OutputBytes.from_text "café") _ _ 4); [lia|reflexivity].
Defined.

Lemma split_utf8_safe_progress_witness :
  exists head rest, split_utf8_safe (OutputBytes.from_text "中文") 4 = Some (head, rest) /\
    (length (OutputBytes.bytes rest) < length (OutputBytes.bytes (OutputBytes.from_text "中文")))%nat.
Proof.
  apply split_utf8_safe_progress; [lia|discriminate|reflexivity].
Defined.
