(* ===== verification/Json.v ===== *)
(** * The [serde_json::Value] interface

    [serde_json] is not part of the repository, so the development is parametric in it: a type
    of values with the documented constructors ([view]/[build]) and the documented conversions
    of its number type.  [Map<String, Value>] is the default [BTreeMap].  The accessors of
    [Value] the sources call are derived from the view.  [SerdeJsonLaws] says that building a
    value and looking at it gives back what was built; [Demo] is the obvious instance, used by
    the witnesses. *)

From S2P Require Import Prelude RustStr.

Inductive json_view (V N : Type) : Type :=
| JNull
| JBool (b : bool)
| JNumber (n : N)
| JString (s : string)
| JArray (l : list V)
| JObject (m : gmap string V).
Arguments JNull {V N}.
Arguments JBool {V N} _.
Arguments JNumber {V N} _.
Arguments JString {V N} _.
Arguments JArray {V N} _.
Arguments JObject {V N} _.

Class SerdeJson (V : Type) := {
  number : Type;
  number_as_u64 : number -> option Z;
  number_as_i64 : number -> option Z;
  view : V -> json_view V number;
  build : json_view V number -> V;
}.

Class SerdeJsonLaws (V : Type) `{SerdeJson V} := {
  view_build (x : json_view V number) : view (build x) = x;
  build_view (v : V) : build (view v) = v;
  number_u64_range (n : number) (z : Z) : number_as_u64 n = Some z -> is_u64 z;
}.

Section Accessors.
Context {V : Type} `{SerdeJson V}.

Definition as_str (v : V) : option string :=
  match view v with JString s => Some s | _ => None end.
Definition as_bool (v : V) : option bool :=
  match view v with JBool b => Some b | _ => None end.
Definition as_u64 (v : V) : option Z :=
  match view v with JNumber n => number_as_u64 n | _ => None end.
Definition as_i64 (v : V) : option Z :=
  match view v with JNumber n => number_as_i64 n | _ => None end.
Definition as_array (v : V) : option (list V) :=
  match view v with JArray l => Some l | _ => None end.
Definition as_object (v : V) : option (gmap string V) :=
  match view v with JObject m => Some m | _ => None end.

(** [value.get("key")]. *)
Definition get (key : string) (v : V) : option V :=
  match view v with JObject m => m !! key | _ => None end.

(** [value.get(index)] for an array index. *)
Definition get_index (i : Z) (v : V) : option V :=
  match view v with JArray l => l !! Z.to_nat i | _ => None end.

Definition json_null : V := build JNull.
Definition json_string (s : string) : V := build (JString s).
Definition json_array (l : list V) : V := build (JArray l).
Definition json_object (l : list (string * V)) : V := build (JObject (list_to_map l)).

(** The recurring chains [v.get(k).and_then(Value::as_str)] and the like. *)
Definition get_str (key : string) (v : V) : option string := get key v ≫= as_str.
Definition get_u64 (key : string) (v : V) : option Z := get key v ≫= as_u64.
Definition get_i64 (key : string) (v : V) : option Z := get key v ≫= as_i64.
Definition get_bool (key : string) (v : V) : option bool := get key v ≫= as_bool.
Definition get_array (key : string) (v : V) : option (list V) := get key v ≫= as_array.

(** [v.get(k1).or_else(|| v.get(k2))]. *)
Definition get_or (k1 k2 : string) (v : V) : option V :=
  match get k1 v with Some x => Some x | None => get k2 v end.

(** [v.pointer("/a/b/c")] for object keys without escapes. *)
Definition pointer (path : list string) (v : V) : option V :=
  foldl (fun acc key => acc ≫= get key) (Some v) path.
End Accessors.

(** [unwrap_or_default] on strings. *)
Definition str_or_default (o : option string) : string := default "" o.

Section Laws.
Context {V : Type} `{SerdeJsonLaws V}.

Lemma get_build_object (key : string) (m : gmap string V) :
  get key (build (JObject m)) = m !! key.
Proof. unfold get. by rewrite view_build. Qed.

Lemma as_array_build (l : list V) : as_array (build (JArray l)) = Some l.
Proof. unfold as_array. by rewrite view_build. Qed.

Lemma as_object_build (m : gmap string V) : as_object (build (JObject m)) = Some m.
Proof. unfold as_object. by rewrite view_build. Qed.

Lemma as_str_build (s : string) : as_str (build (JString s)) = Some s.
Proof. unfold as_str. by rewrite view_build. Qed.

Lemma as_object_Some (v : V) (m : gmap string V) : as_object v = Some m <-> v = build (JObject m).
Proof.
  unfold as_object. split.
  - intros Hv. rewrite <- (build_view v). repeat case_match; by simplify_eq.
  - intros ->. by rewrite view_build.
Qed.

Lemma as_array_Some (v : V) (l : list V) : as_array v = Some l <-> v = build (JArray l).
Proof.
  unfold as_array. split.
  - intros Hv. rewrite <- (build_view v). repeat case_match; by simplify_eq.
  - intros ->. by rewrite view_build.
Qed.
End Laws.

#[export] Hint Rewrite @view_build @get_build_object @as_array_build @as_object_build @as_str_build
  using typeclasses eauto : rust.

(** ** An instance: JSON trees with integer numbers *)
Module Demo.
#[warnings="-register-all"]
Inductive json : Type :=
| Null
| Bool (b : bool)
| Num (z : Z)
| Str (s : string)
| Arr (l : list json)
| Obj (m : gmap string json).

Definition num_u64 (z : Z) : option Z := if (0 <=? z) && (z <=? u64_max) then Some z else None.
Definition num_i64 (z : Z) : option Z := if (- i64_max - 1 <=? z) && (z <=? i64_max) then Some z else None.

Definition json_view_of (j : json) : json_view json Z :=
  match j with
  | Null => JNull
  | Bool b => JBool b
  | Num z => JNumber z
  | Str s => JString s
  | Arr l => JArray l
  | Obj m => JObject m
  end.

Definition json_build (x : json_view json Z) : json :=
  match x with
  | JNull => Null
  | JBool b => Bool b
  | JNumber z => Num z
  | JString s => Str s
  | JArray l => Arr l
  | JObject m => Obj m
  end.

#[global] Instance json_serde : SerdeJson json := {
  number := Z;
  number_as_u64 := num_u64;
  number_as_i64 := num_i64;
  view := json_view_of;
  build := json_build;
}.

#[global] Instance json_serde_laws : SerdeJsonLaws json.
Proof.
  split.
  - by intros [].
  - by intros [].
  - intros n z. simpl. unfold num_u64, is_u64. intros H. case_match; simplify_eq.
    by bool_to_prop.
Qed.

Definition obj (l : list (string * json)) : json := Obj (list_to_map l).
End Demo.
