(* ===== verification/Projection.v ===== *)
(** * Projection of the native state tree ([apps/bridge/src/adapter/codex/projection.rs])

    From a [serde_json::Value] to the domain model: status tables, item parsing, turn, question,
    approval and setting extraction, and the application of Immer patches.  The JSON library is
    the parameter of [Json.v]; [chrono]'s [Utc.timestamp_millis_opt(ms).single()] is the
    parameter [timestamp_millis]. *)

From S2P Require Import Prelude RustStr Domain Json.

(** [chrono::Utc.timestamp_millis_opt(ms).single()]. *)
Class Chrono := { timestamp_millis : Z -> option DateTime }.

Definition KNOWN_STATE_KEYS : list string :=
  ["id"; "title"; "cwd"; "hostId"; "resumeState"; "threadRuntimeStatus"; "threadSource";
   "source"; "ephemeral"; "hasUnreadTurn"; "latestModel"; "latestReasoningEffort";
   "latestCollaborationMode"; "latestTokenUsageInfo"; "gitInfo"; "currentPermissions"; "turns";
   "turnHistory"; "turnsPagination"; "createdAt"; "updatedAt"; "recencyAt";
   "agentNickname"; "forkedFromId"; "generatedTitle"; "historyMode"; "latestThreadSettings";
   "mode"; "modelProvider"; "previousTurnModel"; "projectlessOutputDirectory"; "requests";
   "rolloutPath"; "sessionId"; "shellEnvironmentPolicy"; "sideConversation"; "threadStartKind";
   "workspaceBrowserRoot"; "workspaceKind";
   "pendingQuestions"; "pendingApprovals"; "queuedFollowUps";
   "paginatedHistory"; "parentThreadId"; "threadGoal"; "threadGoalResumeConfirmation";
   "unreadMessageCount"].

(** ** Status tables *)

Definition map_phase (native_status : option string) : ActiveTurnPhase.t :=
  match native_status with
  | None => ActiveTurnPhase.Idle
  | Some s =>
      if bool_decide (s = "idle") then ActiveTurnPhase.Idle
      else if bool_decide (s = "active") || bool_decide (s = "inProgress") then ActiveTurnPhase.Running
      else if bool_decide (s = "finishing") then ActiveTurnPhase.Finishing
      else ActiveTurnPhase.Idle
  end.

Definition map_turn_outcome (native_status : option string) : option LastTurnOutcome.t :=
  match native_status with
  | None => None
  | Some s =>
      if bool_decide (s = "completed") then Some LastTurnOutcome.Completed
      else if bool_decide (s = "failed") then Some LastTurnOutcome.Failed
      else if bool_decide (s = "interrupted") then Some LastTurnOutcome.Interrupted
      else None
  end.

Definition map_command_status (native_status : option string) : CommandStatusState.t :=
  match native_status with
  | None => CommandStatusState.Unknown
  | Some s =>
      if bool_decide (s = "inProgress") || bool_decide (s = "running") then CommandStatusState.Running
      else if bool_decide (s = "completed") then CommandStatusState.Completed
      else if bool_decide (s = "failed") then CommandStatusState.Failed
      else if bool_decide (s = "interrupted") || bool_decide (s = "userStopped") || bool_decide (s = "stopped")
      then CommandStatusState.Interrupted
      else CommandStatusState.Unknown
  end.

Definition command_state_to_background (state : CommandStatusState.t) : BackgroundCommandState.t :=
  match state with
  | CommandStatusState.Running => BackgroundCommandState.Running
  | CommandStatusState.Completed => BackgroundCommandState.Completed
  | CommandStatusState.Failed => BackgroundCommandState.Failed
  | CommandStatusState.Interrupted => BackgroundCommandState.Stopped
  | CommandStatusState.Unknown => BackgroundCommandState.Unknown
  end.

Definition command_status_is_terminal (state : CommandStatusState.t) : bool :=
  match state with
  | CommandStatusState.Running | CommandStatusState.Unknown => false
  | _ => true
  end.

Definition tool_status (native : option string) : PlanStepStatus.t :=
  match native with
  | None => PlanStepStatus.Pending
  | Some s =>
      if bool_decide (s = "inProgress") || bool_decide (s = "running") then PlanStepStatus.InProgress
      else if bool_decide (s = "completed") then PlanStepStatus.Completed
      else PlanStepStatus.Pending
  end.

Definition ms_to_datetime `{Chrono} (ms : Z) : option DateTime :=
  if ms <=? 0 then None else timestamp_millis ms.

(** The display name of a project: the last path segment. *)
Definition project_display_from_cwd (cwd : string) : option string :=
  let trimmed := trim_end_matches slash cwd in
  if bool_decide (trimmed = "") then None else Some (rsplit_next slash trimmed).

(** One sub-question of a [requests[]] entry, and the entry. *)
Module RequestQuestion.
Record t := mk {
  question_id : string;
  header : string;
  question : string;
  allow_free_text : bool;
  option_labels : list string;
}.
End RequestQuestion.

Module RequestsQuestion.
Record t := mk {
  request_id : string;
  turn : option TurnId.t;
  questions : list RequestQuestion.t;
}.
End RequestsQuestion.

Module SessionFacts.
Record t := mk {
  native_id : option string;
  title : option string;
  project_display : option string;
  git_branch : option string;
  runtime_status : option string;
  latest_model : option string;
  latest_reasoning_effort : option string;
  collaboration_mode : option string;
  approval_policy : option string;
  service_tier : option string;
}.

Definition default : t := mk None None None None None None None None None None.
End SessionFacts.

Section Projection.
Context {V : Type} `{SerdeJson V} `{Chrono}.

(** Top-level keys that are not known, each counted once per state. *)
Definition count_unknown_keys (state : V) : gmap string Z :=
  match as_object state with
  | None => ∅
  | Some m =>
      foldl (fun counts key =>
        if bool_decide (key ∈ KNOWN_STATE_KEYS) then counts
        else <[key := default 0 (counts !! key) + 1]> counts) ∅ (bt_keys m)
  end.

(** ** Items *)

Definition text_from (value : option V) : OutputText.t :=
  match value with
  | None => OutputText.default
  | Some v =>
      match view v with
      | JString s => OutputText.mk s
      | JObject m => default OutputText.default (OutputText.mk <$> (m !! "text" ≫= as_str))
      | JArray parts =>
          OutputText.mk
            (foldl (fun joined part =>
               match get_str "text" part with Some text => joined +:+ text | None => joined end)
               "" parts)
      | _ => OutputText.default
      end
  end.

Definition native_item_id (json : V) (native_type : string) : ItemId.t :=
  match get_str "id" json with
  | Some id => if bool_decide (id = "") then ItemId.synthetic (native_type +:+ ":unnamed")
               else ItemId.native id
  | None => ItemId.synthetic (native_type +:+ ":unnamed")
  end.

Definition file_change_kind (o : option string) : FileChangeKind.t :=
  match o with
  | None => FileChangeKind.Unknown
  | Some s =>
      if bool_decide (s ∈ ["added"; "add"; "created"]) then FileChangeKind.Added
      else if bool_decide (s ∈ ["modified"; "edited"; "updated"]) then FileChangeKind.Modified
      else if bool_decide (s ∈ ["deleted"; "removed"]) then FileChangeKind.Deleted
      else if bool_decide (s ∈ ["renamed"; "moved"]) then FileChangeKind.Renamed
      else FileChangeKind.Unknown
  end.

Definition parse_file_changes (value : option V) : list FileChange.t :=
  match value ≫= as_array with
  | None => []
  | Some l =>
      filter_map (fun entry =>
        path ← get_or "path" "file" entry ≫= as_str;
        let kind :=
          (match get "kind" entry with
           | Some x => Some x
           | None => match get "changeType" entry with Some x => Some x | None => get "type" entry end
           end) ≫= as_str in
        Some (FileChange.mk path (file_change_kind kind))) l
  end.

Definition plan_step_status (o : option string) : PlanStepStatus.t :=
  match o with
  | None => PlanStepStatus.Pending
  | Some s =>
      if bool_decide (s ∈ ["inProgress"; "in-progress"; "running"]) then PlanStepStatus.InProgress
      else if bool_decide (s ∈ ["completed"; "done"]) then PlanStepStatus.Completed
      else PlanStepStatus.Pending
  end.

Definition parse_plan (value : option V) : Plan.t :=
  match value ≫= as_array with
  | None => Plan.default
  | Some l =>
      Plan.mk (map (fun step =>
        let title := default "" (get_or "title" "step" step ≫= as_str) in
        PlanStep.mk
          (default ("plan-step:" +:+ title) (get_or "id" "stepId" step ≫= as_str))
          (OutputText.mk title)
          (plan_step_status (get_str "status" step))) l)
  end.

Definition parse_item_content (native_type : string) (json : V) : ItemContent.t :=
  let among (names : list string) := bool_decide (native_type ∈ names) in
  if among ["userMessage"] then ItemContent.UserMessage (text_from (get "content" json))
  else if among ["agentMessage"] then
    ItemContent.AssistantMessage (text_from (get "text" json))
      (default true ((fun p => bool_decide (p = "final_answer")) <$> get_str "phase" json))
  else if among ["reasoning"] then ItemContent.ReasoningSummary (text_from (get "summary" json))
  else if among ["commandExecution"; "command"; "localShellCall"] then
    ItemContent.CommandStatus
      (str_or_default (get_str "id" json))
      (map_command_status (get_str "status" json))
      (OutputText.mk <$> get_str "command" json)
      (get_i64 "exitCode" json)
      (default 0 (get_u64 "durationMs" json))
  else if among ["fileChange"] then ItemContent.FileChange (parse_file_changes (get "changes" json))
  else if among ["subAgentActivity"] then
    let status := get_str "status" json in
    ItemContent.SubAgentStatus
      (TurnId.native <$> get_str "agentThreadId" json)
      (default "subagent" (get_str "kind" json))
      (map_phase status)
      (map_turn_outcome status)
  else if among ["mcpToolCall"; "collabAgentToolCall"; "dynamicToolCall"; "webSearch"] then
    let name :=
      if among ["mcpToolCall"] then
        default "?" (get_str "server" json) +:+ "/" +:+ default "?" (get_str "tool" json)
      else native_type in
    ItemContent.ToolCall
      (str_or_default (get_str "id" json)) name
      (tool_status (get_str "status" json)) None
      (default 0 (get_u64 "durationMs" json))
  else if among ["plan"; "updatePlan"] then ItemContent.Plan (parse_plan (get "steps" json))
  else if among ["question"] then
    ItemContent.Question (str_or_default (get_or "id" "questionId" json ≫= as_str))
      (text_from (get "title" json))
  else if among ["approval"] then
    ItemContent.Approval (str_or_default (get_or "id" "approvalId" json ≫= as_str))
      (text_from (get_or "requestedAction" "action" json))
  else if among ["tokenUsage"; "tokenCount"] then
    ItemContent.TokenUsage
      (default 0 (get_u64 "inputTokens" json))
      (default 0 (get_u64 "outputTokens" json))
      (get_u64 "contextUsedTokens" json)
      (get_u64 "modelContextWindow" json)
  else ItemContent.Opaque native_type.

Definition parse_item (native_type : string) (json : V) (turn : option TurnId.t)
    (created_ms : option Z) : Item.t :=
  Item.mk (native_item_id json native_type) turn
    (default 0 (get_u64 "revision" json))
    (created_ms ≫= ms_to_datetime)
    (parse_item_content native_type json).

Definition command_output (json : V) : option string := get_str "aggregatedOutput" json.

(** ** Session facts and turns *)

Definition extract_facts (state : V) : SessionFacts.t :=
  SessionFacts.mk
    (get_str "id" state)
    (get_str "title" state)
    (get_str "cwd" state ≫= project_display_from_cwd)
    ((get "gitInfo" state ≫= get "branch") ≫= as_str)
    ((get "threadRuntimeStatus" state ≫= get "type") ≫= as_str)
    (get_str "latestModel" state)
    (get_str "latestReasoningEffort" state)
    ((get "latestCollaborationMode" state ≫= get "mode") ≫= as_str)
    ((get "currentPermissions" state ≫= get "approvalPolicy") ≫= as_str)
    (((get "latestCollaborationMode" state ≫= get "settings") ≫= get "serviceTier") ≫= as_str).

(** The turns of the paginated history, by start time. *)
Definition history_turns (state : V) : list V :=
  let entities :=
    match pointer ["turnHistory"; "history"; "entitiesByKey"] state ≫= as_object with
    | None => []
    | Some m => filter (fun entity => is_Some (get "turnId" entity)) (bt_values m)
    end in
  sort_by_key (fun turn => default 0 (get_u64 "turnStartedAtMs" turn)) entities.

Definition extract_turns (state : V) : list V :=
  match get_array "turns" state with
  | Some (t :: ts) => t :: ts
  | _ => history_turns state
  end.

Definition turn_id_of (turn : V) (index : nat) : TurnId.t :=
  match get_str "turnId" turn with
  | Some id => if bool_decide (id = "") then TurnId.synthetic ("turn:" +:+ pretty index)
               else TurnId.native id
  | None => TurnId.synthetic ("turn:" +:+ pretty index)
  end.

Definition turn_status_of (turn : V) : option string := get_str "status" turn.

Definition turn_items_of (turn : V) : list V := default [] (get_array "items" turn).

(** ** Questions *)

Definition extract_requests_questions_detail (state : V) : list RequestsQuestion.t :=
  match get_array "requests" state with
  | None => []
  | Some requests =>
      filter_map (fun request =>
        if negb (bool_decide (get_str "method" request = Some "item/tool/requestUserInput")) then None
        else if bool_decide (get_bool "completed" request = Some true) then None
        else
          params ← get "params" request;
          let questions :=
            default [] (map (fun q =>
              RequestQuestion.mk
                (str_or_default (get_str "id" q))
                (str_or_default (get_str "header" q))
                (str_or_default (get_str "question" q))
                (default false (get_bool "isOther" q))
                (default [] (filter_map (get_str "label") <$> get_array "options" q)))
              <$> get_array "questions" params) in
          match questions with
          | [] => None
          | _ => Some (RequestsQuestion.mk
                   (str_or_default (get_str "id" request))
                   (TurnId.native <$> get_str "turnId" params)
                   questions)
          end) requests
  end.

Definition extract_requests_questions (state : V) : list PendingQuestion.t :=
  map (fun request =>
    let first := head (RequestsQuestion.questions request) in
    PendingQuestion.mk
      (RequestsQuestion.request_id request)
      (OutputText.mk (default "" (RequestQuestion.header <$> first)))
      (OutputText.mk (join " / " (map RequestQuestion.question (RequestsQuestion.questions request))))
      (default [] ((fun q => map (fun label => QuestionOption.mk label (OutputText.mk label))
                       (RequestQuestion.option_labels q)) <$> first))
      false
      (default false (RequestQuestion.allow_free_text <$> first))
      (RequestsQuestion.turn request)
      None
      true) (extract_requests_questions_detail state).

Definition parse_question (q : V) : PendingQuestion.t :=
  PendingQuestion.mk
    (str_or_default (get_or "id" "questionId" q ≫= as_str))
    (text_from (get "title" q))
    (text_from (get "description" q))
    (default [] (filter_map (fun o =>
       id ← get_str "id" o; Some (QuestionOption.mk id (text_from (get "label" o))))
       <$> get_array "options" q))
    (default false (get_bool "allowMultiple" q))
    (default false (get_bool "allowFreeText" q))
    (TurnId.native <$> get_str "turnId" q)
    (get_i64 "createdAtMs" q ≫= ms_to_datetime)
    (default true (get_bool "valid" q)).

Definition extract_questions (state : V) : list PendingQuestion.t :=
  match map parse_question <$> get_array "pendingQuestions" state with
  | Some (q :: qs) => q :: qs
  | _ => extract_requests_questions state
  end.

(** The values of one answer: the chosen labels, then the free text. *)
Definition answer_entries (answered_labels : list string) (free_text : option string) : list V :=
  map json_string answered_labels ++ match free_text with Some t => [json_string t] | None => [] end.

Definition build_request_answer_response (request : RequestsQuestion.t)
    (answered_labels : list string) (free_text : option string) : res string V :=
  match RequestsQuestion.questions request with
  | [question] =>
      let entries := answer_entries answered_labels free_text in
      Ok (json_object [("answers", json_object
            [(RequestQuestion.question_id question, json_object [("answers", json_array entries)])])])
  | qs =>
      Err ("native request " +:+ RequestsQuestion.request_id request +:+ " carries " +:+
           pretty (length qs) +:+ " questions; a single remote answer card cannot answer all of " +:+
           "them completely, handle it in Codex Desktop")
  end.

(** ** Approvals *)

Definition APPROVAL_METHODS : list string :=
  ["item/commandExecution/requestApproval"; "item/fileChange/requestApproval"].

Definition extract_requests_approvals (state : V) : list PendingApproval.t :=
  match get_array "requests" state with
  | None => []
  | Some requests =>
      filter_map (fun request =>
        method ← get_str "method" request;
        if negb (bool_decide (method ∈ APPROVAL_METHODS)) then None
        else if bool_decide (get_bool "completed" request = Some true) then None
        else
          let params := default json_null (get "params" request) in
          Some (PendingApproval.mk
            (str_or_default (get_str "id" request))
            (OutputText.mk "")
            (text_from (get_or "command" "action" params))
            [] None
            (TurnId.native <$> get_str "turnId" params)
            None true)) requests
  end.

Definition parse_approval (a : V) : PendingApproval.t :=
  PendingApproval.mk
    (str_or_default (get_or "id" "approvalId" a ≫= as_str))
    (text_from (get "riskDescription" a))
    (text_from (get_or "requestedAction" "action" a))
    (default [] (filter_map (fun d =>
       id ← get_str "id" d; Some (ApprovalDecision.mk id (text_from (get "label" d))))
       <$> get_array "decisions" a))
    (OutputText.mk <$> get_str "scope" a)
    (TurnId.native <$> get_str "turnId" a)
    (get_i64 "createdAtMs" a ≫= ms_to_datetime)
    (default true (get_bool "valid" a)).

Definition extract_approvals (state : V) : list PendingApproval.t :=
  match map parse_approval <$> get_array "pendingApprovals" state with
  | Some (a :: l) => a :: l
  | _ => extract_requests_approvals state
  end.

(** ** Settings *)

(** All entries must be strings, otherwise the list is dropped. *)
Definition effort_available_values (state : V) : list SettingValue.t :=
  match ((get "latestCollaborationMode" state ≫= get "settings") ≫= get "effortAvailableValues") ≫= as_array with
  | None => []
  | Some l =>
      default [] (mapM (M := option)
        (fun entry => (fun text => SettingValue.mk text (OutputText.mk text)) <$> as_str entry) l)
  end.

Definition collaboration_setting (state : V) (key : string) : option string :=
  ((get "latestCollaborationMode" state ≫= get "settings") ≫= get key) ≫= as_str.

(** The closure [push] of [extract_settings]: only settings with a current value. *)
Definition push_setting (option_id : string) (kind : SettingKind.t) (current : option string)
    (available : list SettingValue.t) (mutable : bool) : list SettingOption.t :=
  match current with
  | Some current =>
      [SettingOption.mk option_id kind (OutputText.mk option_id) (Some current) available mutable]
  | None => []
  end.

Definition extract_settings (state : V) (phase : ActiveTurnPhase.t) : list SettingOption.t :=
  let facts := extract_facts state in
  let model :=
    match SessionFacts.latest_model facts with
    | Some m => Some m
    | None => collaboration_setting state "model"
    end in
  push_setting "model" SettingKind.Model model [] false ++
  push_setting "effort" SettingKind.ReasoningEffort (SessionFacts.latest_reasoning_effort facts)
    (effort_available_values state) (bool_decide (phase = ActiveTurnPhase.Idle)) ++
  push_setting "serviceTier" SettingKind.ServiceTier (SessionFacts.service_tier facts) [] false ++
  push_setting "approvalPolicy" SettingKind.PermissionMode (SessionFacts.approval_policy facts) [] false ++
  push_setting "collaborationMode" SettingKind.CollaborationMode (SessionFacts.collaboration_mode facts)
    [] false.

(** ** Immer patches *)

Inductive PatchError :=
| NotAnObject
| UnsupportedOp (op : string)
| InvalidPath (index : Z).

(** A mutable reference into the tree: the value it points to and the tree with the value
    replaced. *)
Definition slot : Type := V * (V -> V).

Definition index_mut (node : V) (idx : Z) : option slot :=
  match view node with
  | JArray l =>
      match l !! Z.to_nat idx with
      | Some c => Some (c, fun c' => build (JArray (<[Z.to_nat idx := c']> l)))
      | None => None
      end
  | _ => None
  end.

Definition descend_mut (node segment : V) : option slot :=
  match as_str segment with
  | Some key =>
      match view node with
      | JObject m =>
          match m !! key with
          | Some c => Some (c, fun c' => build (JObject (<[key := c']> m)))
          | None => None
          end
      | _ => match parse_usize key with Some idx => index_mut node idx | None => None end
      end
  | None => match as_u64 segment with Some idx => index_mut node idx | None => None end
  end.

(** [list.insert(at, value)]. *)
Definition list_insert_at {A} (at_ : nat) (x : A) (l : list A) : list A := take at_ l ++ x :: drop at_ l.

(** The [None] branch of [add]/[replace]: insert into the container. *)
Definition insert_missing (cursor last value : V) (err : PatchError) : res PatchError V :=
  match view cursor with
  | JObject m =>
      match as_str last with
      | Some key => Ok (build (JObject (<[key := value]> m)))
      | None => Err err
      end
  | JArray l =>
      let idx := match as_u64 last with
                 | Some i => Some i
                 | None => as_str last ≫= parse_u64
                 end in
      match idx with
      | Some idx => Ok (build (JArray (list_insert_at (Nat.min (Z.to_nat idx) (length l)) value l)))
      | None => Err err
      end
  | _ => Err err
  end.

(** Removal; a missing target is a success without effect. *)
Definition remove_at (cursor last : V) : V :=
  match view cursor with
  | JObject m =>
      match as_str last with
      | Some key => build (JObject (delete key m))
      | None => cursor
      end
  | JArray l =>
      match as_u64 last with
      | Some idx =>
          if (Z.to_nat idx <? length l)%nat then build (JArray (delete (Z.to_nat idx) l)) else cursor
      | None => cursor
      end
  | _ => cursor
  end.

(** The walk to the parent of the addressed position, [leaf] applied there. *)
Fixpoint at_cursor (i : Z) (node : V) (segments : list V) (leaf : V -> res PatchError V)
    : res PatchError V :=
  match segments with
  | [] => leaf node
  | segment :: segments =>
      match descend_mut node segment with
      | None => Err (InvalidPath i)
      | Some (child, put) => let? child' := at_cursor (i + 1) child segments leaf in Ok (put child')
      end
  end.

Definition apply_leaf (op : string) (obj : gmap string V) (path_len : Z) (last cursor : V)
    : res PatchError V :=
  if bool_decide (op = "add") || bool_decide (op = "replace") then
    let value := default json_null (obj !! "value") in
    match descend_mut cursor last with
    | Some (_, put) => Ok (put value)
    | None => insert_missing cursor last value (InvalidPath (path_len - 1))
    end
  else if bool_decide (op = "remove") then Ok (remove_at cursor last)
  else Err (UnsupportedOp op).

Definition apply_one (state patch : V) : res PatchError V :=
  let? obj := ok_or NotAnObject (as_object patch) in
  let? op := ok_or (UnsupportedOp "<missing>") (obj !! "op" ≫= as_str) in
  let? path := ok_or (InvalidPath 0) (obj !! "path" ≫= as_array) in
  match last path with
  | None => Err (InvalidPath 0)
  | Some lst => at_cursor 0 state (removelast path) (apply_leaf op obj (zlen path) lst)
  end.

(** In place, patch after patch: on an error the earlier patches stay applied. *)
Fixpoint apply_immer_patches (state : V) (patches : list V) : V * res PatchError unit :=
  match patches with
  | [] => (state, Ok tt)
  | patch :: patches =>
      match apply_one state patch with
      | Ok state' => apply_immer_patches state' patches
      | Err e => (state, Err e)
      end
  end.

End Projection.

(** ** Reading a path of the state tree *)
Section Paths.
Context {V : Type} `{SerdeJsonLaws V}.

Definition descend (node segment : V) : option V := fst <$> descend_mut node segment.

Fixpoint read_path (node : V) (segments : list V) : option V :=
  match segments with
  | [] => Some node
  | segment :: segments =>
      match descend node segment with
      | Some child => read_path child segments
      | None => None
      end
  end.

Lemma read_path_app (node : V) (p q : list V) :
  read_path node (p ++ q) = read_path node p ≫= (fun c => read_path c q).
Proof. revert node. induction p as [|s p IH]; intros node; simpl; [done|]. by destruct (descend node s). Qed.

Lemma descend_put (node segment child child' : V) (put : V -> V) :
  descend_mut node segment = Some (child, put) -> descend (put child') segment = Some child'.
Proof.
  unfold descend, descend_mut, index_mut. intros Hd.
  repeat (case_match; simplify_eq/=);
    rewrite ?view_build in *; simplify_eq/=;
    rewrite ?lookup_insert_eq in *; simplify_eq/=; auto;
    match goal with
    | Hl : ?l !! ?i = Some _, Hn : <[?i := _]> ?l !! ?i = _ |- _ =>
        rewrite list_lookup_insert_eq in Hn by (by eapply lookup_lt_Some); by simplify_eq
    end.
Qed.

Lemma descend_object (node segment : V) (m : gmap string V) (k : string) :
  view node = JObject m -> as_str segment = Some k ->
  descend_mut node segment =
    (fun c => (c, fun c' => build (JObject (<[k := c']> m)))) <$> m !! k.
Proof. intros Hn Hs. unfold descend_mut. rewrite Hs, Hn. by destruct (m !! k). Qed.

Lemma descend_object_build (m : gmap string V) (segment : V) (k : string) :
  as_str segment = Some k -> descend (build (JObject m)) segment = m !! k.
Proof.
  intros Hs. unfold descend. rewrite (descend_object _ _ m k); [|by rewrite view_build|done].
  by destruct (m !! k).
Qed.

Lemma descend_object_view (node segment : V) (m : gmap string V) (k : string) :
  view node = JObject m -> as_str segment = Some k -> descend node segment = m !! k.
Proof. intros Hn. rewrite <- (build_view node), Hn. apply descend_object_build. Qed.

(** The walk reaches the parent, applies the leaf there and puts the result back. *)
Lemma at_cursor_inv (segments : list V) (i : Z) (node node' : V) (leaf : V -> res (PatchError) V) :
  at_cursor i node segments leaf = Ok node' ->
  exists cur cur', read_path node segments = Some cur /\ leaf cur = Ok cur' /\
                   read_path node' segments = Some cur'.
Proof.
  revert i node node'. induction segments as [|s segments IH]; intros i node node'; simpl.
  - eauto.
  - destruct (descend_mut node s) as [[c put]|] eqn:Hd; [|done].
    rewrite res_bind_ok. intros (c' & Hc & [= <-]).
    destruct (IH _ _ _ Hc) as (cur & cur' & ? & ? & ?).
    assert (Hdc : descend node s = Some c) by (unfold descend; by rewrite Hd).
    rewrite Hdc, (descend_put _ _ _ c' _ Hd). eauto.
Qed.

(** A leaf on an object touches one key. *)
Lemma apply_leaf_object (op : string) (obj m : gmap string V) (n : Z) (last cur cur' : V) (k : string) :
  view cur = JObject m -> as_str last = Some k ->
  apply_leaf op obj n last cur = Ok cur' ->
  exists m', cur' = build (JObject m') /\ forall k', k' <> k -> m' !! k' = m !! k'.
Proof.
  intros Hc Hk. unfold apply_leaf. rewrite (descend_object _ _ _ _ Hc Hk).
  unfold insert_missing, remove_at. rewrite Hc, Hk.
  intros Hl. repeat (case_match; simplify_eq/=).
  all: try (destruct (m !! k) eqn:Hmk; simplify_eq/=).
  all: try (eexists; split; [reflexivity|]; intros k' Hk'; by rewrite lookup_insert_ne by done).
  all: eexists; split; [reflexivity|]; intros k' Hk'; by rewrite lookup_delete_ne by done.
Qed.

Lemma at_cursor_locality (c : list V) : forall (segs : list V) (i n : Z) (node node' nd : V)
    (op : string) (obj m : gmap string V) (last s s' : V) (r r' : list V) (k k' : string),
  segs ++ [last] = c ++ s :: r ->
  at_cursor i node segs (apply_leaf op obj n last) = Ok node' ->
  read_path node c = Some nd -> view nd = JObject m ->
  as_str s = Some k -> as_str s' = Some k' -> k' <> k ->
  read_path node' (c ++ s' :: r') = read_path node (c ++ s' :: r').
Proof.
  induction c as [|s0 c IH]; intros segs i n node node' nd op obj m last s s' r r' k k' Hp Ha Hr Hm Hs Hs' Hk;
    destruct segs as [|s1 segs]; simpl in *; simplify_eq.
  - destruct (apply_leaf_object _ _ _ _ _ _ _ _ Hm Hs Ha) as (m' & -> & Hm').
    by rewrite (descend_object_build _ _ _ Hs'), (descend_object_view _ _ _ _ Hm Hs'), (Hm' _ Hk).
  - rewrite (descend_object _ _ _ _ Hm Hs) in Ha. destruct (m !! k) as [x|]; simpl in Ha; [|done].
    apply res_bind_ok in Ha as (c' & _ & [= <-]).
    rewrite (descend_object_build _ _ _ Hs'), (descend_object_view _ _ _ _ Hm Hs').
    by rewrite lookup_insert_ne by done.
  - by destruct c.
  - unfold descend in *. destruct (descend_mut node s0) as [[x put]|] eqn:Hd; simpl in *; [|done].
    apply res_bind_ok in Ha as (c' & Hc & [= <-]).
    pose proof (descend_put _ _ _ c' _ Hd) as Hput. unfold descend in Hput. rewrite Hput.
    by eapply IH.
Qed.

Lemma apply_one_inv (state patch state' : V) :
  apply_one state patch = Ok state' ->
  exists obj op path0 lst,
    as_object patch = Some obj /\ obj !! "op" ≫= as_str = Some op /\
    obj !! "path" ≫= as_array = Some (path0 ++ [lst]) /\
    at_cursor 0 state path0 (apply_leaf op obj (zlen (path0 ++ [lst])) lst) = Ok state'.
Proof.
  unfold apply_one, ok_or. intros Ha.
  destruct (as_object patch) as [obj|]; simpl in Ha; [|done].
  destruct (obj !! "op" ≫= as_str) as [op|] eqn:Ho; simpl in Ha; [|done].
  destruct (obj !! "path" ≫= as_array) as [path|] eqn:Hp; simpl in Ha; [|done].
  destruct path as [|x path _] using rev_ind; [done|].
  rewrite last_snoc in Ha.
  replace (removelast (path ++ [x])) with path in Ha by (symmetry; apply removelast_last).
  naive_solver.
Qed.

End Paths.

(** ** Properties of the patches *)
Section PatchProperties.
Context {V : Type} `{SerdeJsonLaws V}.

Lemma apply_leaf_write (op : string) (obj : gmap string V) (n : Z) (lst cur cur' : V) :
  op = "add" \/ op = "replace" ->
  apply_leaf op obj n lst cur = Ok cur' ->
  descend cur' lst = Some (default json_null (obj !! "value")) \/
  exists l, view cur = JArray l /\ descend cur lst = None /\
            cur' = build (JArray (l ++ [default json_null (obj !! "value")])).
Proof.
  intros Hop. unfold apply_leaf.
  replace (bool_decide (op = "add") || bool_decide (op = "replace")) with true
    by (destruct Hop as [-> | ->]; reflexivity).
  destruct (descend_mut cur lst) as [[c put]|] eqn:Hd.
  - intros [= <-]. left. by eapply descend_put.
  - unfold insert_missing. intros Hl.
    destruct (view cur) as [| | | |l|m] eqn:Hc; try discriminate.
    + right. exists l. split_and!; [done|by unfold descend; rewrite Hd|].
      destruct (match as_u64 lst with Some i => Some i | None => as_str lst ≫= parse_u64 end)
        as [i|] eqn:Hidx; [|done]. simplify_eq. unfold list_insert_at.
      enough (length l <= Z.to_nat i)%nat by (rewrite Nat.min_r by done; by rewrite take_ge, drop_ge by lia).
      apply lookup_ge_None. revert Hd Hidx.
      unfold descend_mut, index_mut, as_u64, as_str, parse_usize. rewrite Hc.
      destruct (view lst); simpl; intros; repeat (case_match; simplify_eq/=); congruence.
    + left. repeat case_match; simplify_eq. rewrite (descend_object_build _ _ _ ltac:(eassumption)).
      by rewrite lookup_insert_eq.
Qed.

(** Writing patches are read back: when an [add] or [replace] succeeds, its path afterwards
    holds the patch's value ([null] when the patch carries none), unless the addressed array
    position was out of range, in which case the value was appended; no element is ever
    shifted.  The parent exists before and after. *)
Theorem patch_write_read (state patch state' lst : V) (obj : gmap string V) (op : string) (path0 : list V) :
  as_object patch = Some obj -> obj !! "op" ≫= as_str = Some op -> op = "add" \/ op = "replace" ->
  obj !! "path" ≫= as_array = Some (path0 ++ [lst]) ->
  apply_one state patch = Ok state' ->
  read_path state' (path0 ++ [lst]) = Some (default json_null (obj !! "value")) \/
  exists parent l, read_path state path0 = Some parent /\ view parent = JArray l /\
    descend parent lst = None /\
    read_path state' path0 = Some (build (JArray (l ++ [default json_null (obj !! "value")]))).
Proof.
  intros Hobj Hop Hw Hpath Ha.
  destruct (apply_one_inv _ _ _ Ha) as (obj' & op' & path' & lst' & Ho' & Hop' & Hp' & Hc).
  simplify_eq. assert (path' = path0 /\ lst' = lst) as [-> ->] by (apply app_inj_tail; congruence).
  destruct (at_cursor_inv _ _ _ _ _ Hc) as (cur & cur' & Hr & Hl & Hr').
  destruct (apply_leaf_write _ _ _ _ _ _ Hw Hl) as [Hd | (l & Hv & Hd & ->)].
  - left. rewrite read_path_app, Hr'. simpl. by rewrite Hd.
  - right. eauto 10.
Qed.

(** Patches are local: where the patch's path and another path part at two different keys
    of an object, what the other path reads is unchanged by a successful patch. *)
Theorem patch_locality (state patch state' nd s s' : V) (obj m : gmap string V)
    (c r r' : list V) (k k' : string) :
  as_object patch = Some obj -> obj !! "path" ≫= as_array = Some (c ++ s :: r) ->
  read_path state c = Some nd -> view nd = JObject m ->
  as_str s = Some k -> as_str s' = Some k' -> k' <> k ->
  apply_one state patch = Ok state' ->
  read_path state' (c ++ s' :: r') = read_path state (c ++ s' :: r').
Proof.
  intros Hobj Hpath Hr Hm Hs Hs' Hk Ha.
  destruct (apply_one_inv _ _ _ Ha) as (obj' & op' & path' & lst' & Ho' & Hop' & Hp' & Hc).
  simplify_eq. eapply at_cursor_locality; eauto.
Qed.

Lemma apply_immer_patches_app (ps qs : list V) (state : V) :
  apply_immer_patches state (ps ++ qs) =
  match apply_immer_patches state ps with
  | (state', Ok _) => apply_immer_patches state' qs
  | r => r
  end.
Proof.
  revert state. induction ps as [|p ps IH]; intros state; simpl; [done|].
  destruct (apply_one state p); auto.
Qed.

(** A batch stops at its first failing patch: the tree then holds exactly the effect of
    the patches before it, and the error is the one that patch gives on that tree. *)
Lemma patches_stop_at_first_error (ps : list V) (state state' : V) (e : PatchError) :
  apply_immer_patches state ps = (state', Err e) <->
  exists done_ p rest, ps = done_ ++ p :: rest /\
    apply_immer_patches state done_ = (state', Ok tt) /\ apply_one state' p = Err e.
Proof.
  split.
  - revert state. induction ps as [|p ps IH]; intros state; simpl; [by intros [=]|].
    destruct (apply_one state p) as [st'|e'] eqn:Hp.
    + intros Hr. destruct (IH _ Hr) as (d & q & r & -> & Hd & Hq).
      exists (p :: d), q, r. simpl. by rewrite Hp.
    + intros [= <- <-]. exists [], p, ps. done.
  - intros (d & p & r & -> & Hd & Hp). rewrite apply_immer_patches_app, Hd. simpl. by rewrite Hp.
Qed.
End PatchProperties.

(** ** What a patch says

    The effect of a patch on the tree, and its error when it has none, stated on the trees alone. *)
Section PatchMeaning.
Context {V : Type} `{SerdeJson V}.

(** A segment as an array position: a number, or a string that is one. *)
Definition index_says (segment : V) (i : Z) : Prop :=
  (as_str segment = None /\ as_u64 segment = Some i) \/ exists key, as_str segment = Some key /\ parse_u64 key = Some i.

(** The child of a node that a segment names. *)
Inductive child_at (node segment : V) : V -> Prop :=
| child_key m key child : view node = JObject m -> as_str segment = Some key -> m !! key = Some child -> child_at node segment child
| child_element l i child : view node = JArray l -> index_says segment i -> l !! Z.to_nat i = Some child -> child_at node segment child.

Inductive reached : V -> list V -> V -> Prop :=
| reached_here node : reached node [] node
| reached_below node segment child path target : child_at node segment child -> reached child path target -> reached node (segment :: path) target.

(** [replaced node path new node']: the tree [node'] is [node] with [new] in the place [path] leads to, and nothing else changed. *)
Inductive replaced : V -> list V -> V -> V -> Prop :=
| replaced_here node new : replaced node [] new new
| replaced_key node m key segment child child' path new :
    view node = JObject m -> as_str segment = Some key -> m !! key = Some child -> replaced child path new child' ->
    replaced node (segment :: path) new (build (JObject (<[key := child']> m)))
| replaced_element node l i segment child child' path new :
    view node = JArray l -> index_says segment i -> l !! Z.to_nat i = Some child -> replaced child path new child' ->
    replaced node (segment :: path) new (build (JArray (<[Z.to_nat i := child']> l))).

(** The container a patch addresses, before and after.  An array position that exists is overwritten, also by [add]; one that does not
    exist is appended; a position that is removed as a string, or that is not there, leaves the container as it is. *)
Inductive written (value last parent : V) : V -> Prop :=
| written_key m key : view parent = JObject m -> as_str last = Some key -> written value last parent (build (JObject (<[key := value]> m)))
| written_element l i :
    view parent = JArray l -> index_says last i -> (Z.to_nat i < length l)%nat -> written value last parent (build (JArray (<[Z.to_nat i := value]> l)))
| written_appended l i : view parent = JArray l -> index_says last i -> (length l <= Z.to_nat i)%nat -> written value last parent (build (JArray (l ++ [value]))).

Inductive removed (last parent : V) : V -> Prop :=
| removed_key m key : view parent = JObject m -> as_str last = Some key -> removed last parent (build (JObject (delete key m)))
| removed_element l i :
    view parent = JArray l -> as_u64 last = Some i -> (Z.to_nat i < length l)%nat -> removed last parent (build (JArray (delete (Z.to_nat i) l)))
| removed_nothing :
    (forall m key, view parent = JObject m -> as_str last <> Some key) ->
    (forall l i, view parent = JArray l -> as_u64 last = Some i -> (length l <= Z.to_nat i)%nat) -> removed last parent parent.

Inductive patch_says (state patch : V) : res PatchError V -> Prop :=
| says_not_an_object : as_object patch = None -> patch_says state patch (Err NotAnObject)
| says_no_op obj : as_object patch = Some obj -> obj !! "op" ≫= as_str = None -> patch_says state patch (Err (UnsupportedOp "<missing>"))
| says_no_path obj op :
    as_object patch = Some obj -> obj !! "op" ≫= as_str = Some op -> obj !! "path" ≫= as_array = None \/ obj !! "path" ≫= as_array = Some [] ->
    patch_says state patch (Err (InvalidPath 0))
| says_lost obj op before segment after last node :
    as_object patch = Some obj -> obj !! "op" ≫= as_str = Some op -> obj !! "path" ≫= as_array = Some (before ++ segment :: after ++ [last]) ->
    reached state before node -> (forall child, ~ child_at node segment child) -> patch_says state patch (Err (InvalidPath (zlen before)))
| says_unsupported obj op path last parent :
    as_object patch = Some obj -> obj !! "op" ≫= as_str = Some op -> obj !! "path" ≫= as_array = Some (path ++ [last]) -> reached state path parent ->
    op <> "add" -> op <> "replace" -> op <> "remove" -> patch_says state patch (Err (UnsupportedOp op))
| says_unwritable obj op path last parent :
    as_object patch = Some obj -> obj !! "op" ≫= as_str = Some op -> obj !! "path" ≫= as_array = Some (path ++ [last]) -> reached state path parent ->
    op = "add" \/ op = "replace" -> (forall m key, view parent = JObject m -> as_str last <> Some key) -> (forall l i, view parent = JArray l -> ~ index_says last i) ->
    patch_says state patch (Err (InvalidPath (zlen path)))
| says_write obj op path last parent parent' state' :
    as_object patch = Some obj -> obj !! "op" ≫= as_str = Some op -> obj !! "path" ≫= as_array = Some (path ++ [last]) -> reached state path parent ->
    op = "add" \/ op = "replace" -> written (default json_null (obj !! "value")) last parent parent' -> replaced state path parent' state' ->
    patch_says state patch (Ok state')
| says_remove obj path last parent parent' state' :
    as_object patch = Some obj -> obj !! "op" ≫= as_str = Some "remove" -> obj !! "path" ≫= as_array = Some (path ++ [last]) -> reached state path parent ->
    removed last parent parent' -> replaced state path parent' state' -> patch_says state patch (Ok state').

(** A batch: patch after patch, up to the first error. *)
Inductive batch_says : V -> list V -> V -> res PatchError unit -> Prop :=
| batch_done state : batch_says state [] state (Ok tt)
| batch_next state patch state1 patches state2 r : patch_says state patch (Ok state1) -> batch_says state1 patches state2 r -> batch_says state (patch :: patches) state2 r
| batch_stopped state patch patches e : patch_says state patch (Err e) -> batch_says state (patch :: patches) state (Err e).

Lemma index_of_string (segment : V) (key : string) (i : Z) : as_str segment = Some key -> index_says segment i -> parse_u64 key = Some i.
Proof. intros S [[? _]|(key' & ? & ?)]; congruence. Qed.

Lemma descend_mut_says (node segment : V) :
  match descend_mut node segment with
  | Some (child, put) => child_at node segment child /\
      (forall path new child', replaced child path new child' -> replaced node (segment :: path) new (put child')) /\
      forall value, written value segment node (put value)
  | None => forall child, ~ child_at node segment child
  end.
Proof.
  assert (Ix : forall i, index_says segment i -> (forall j, index_says segment j -> j = i) -> (forall m key, view node = JObject m -> as_str segment = Some key -> False) ->
    match index_mut node i with
    | Some (child, put) => child_at node segment child /\
        (forall path new child', replaced child path new child' -> replaced node (segment :: path) new (put child')) /\ forall value, written value segment node (put value)
    | None => forall child, ~ child_at node segment child
    end).
  { intros i I U NK. unfold index_mut. destruct (view node) as [| | | |l|m] eqn:N; try (intros child C; inversion C; congruence).
    - destruct (l !! Z.to_nat i) as [c|] eqn:L.
      + split_and!; [by eapply child_element|intros; by eapply replaced_element|]. intros value. eapply written_element; [done..|]. by eapply lookup_lt_Some.
      + intros child C. inversion C as [|? j ? N' J L']; [congruence|]. rewrite N in N'. injection N' as <-. apply U in J as ->. congruence.
    - intros child C. inversion C; [by eapply NK|congruence]. }
  assert (No : (forall m, view node <> JObject m) -> (forall i, ~ index_says segment i) -> forall child, ~ child_at node segment child).
  { intros N I child C. inversion C; [by eapply N|by eapply I]. }
  unfold descend_mut, parse_usize. destruct (as_str segment) as [key|] eqn:S.
  - destruct (view node) as [| | | | |m] eqn:N.
    6:{ destruct (m !! key) as [c|] eqn:L.
        - split_and!; [by eapply child_key|intros; by eapply replaced_key|]. intros value. by eapply written_key.
        - intros child C. inversion C; congruence. }
    all: destruct (parse_u64 key) as [i|] eqn:Pk; [apply Ix; [right; eauto|intros j J; pose proof (index_of_string _ _ _ S J); congruence|congruence]|].
    all: apply No; [congruence|intros i I; pose proof (index_of_string _ _ _ S I); congruence].
  - destruct (as_u64 segment) as [i|] eqn:U.
    + apply Ix; [by left|intros j [[_ J]|(? & ? & _)]; congruence|congruence].
    + intros child C. inversion C as [|? ? ? ? [[? ?]|(? & ? & ?)]]; congruence.
Qed.

Lemma at_cursor_says (segments : list V) (i : Z) (node : V) (leaf : V -> res PatchError V) :
  match at_cursor i node segments leaf with
  | Ok node' => exists parent parent', reached node segments parent /\ leaf parent = Ok parent' /\ replaced node segments parent' node'
  | Err e =>
      (exists before segment after mid, segments = before ++ segment :: after /\ reached node before mid /\
        (forall child, ~ child_at mid segment child) /\ e = InvalidPath (i + zlen before)) \/
      exists parent, reached node segments parent /\ leaf parent = Err e
  end.
Proof.
  revert i node. induction segments as [|s segments IH]; intros i node; cbn [at_cursor].
  { destruct (leaf node) as [node'|e] eqn:L; [|right; exists node; split; [constructor|done]]. exists node, node'. split_and!; [constructor|done|constructor]. }
  pose proof (descend_mut_says node s) as D. destruct (descend_mut node s) as [[child put]|].
  - destruct D as (C & R & _). specialize (IH (i + 1) child). destruct (at_cursor (i + 1) child segments leaf) as [child'|e]; cbn [res_bind].
    + destruct IH as (parent & parent' & Re & L & Rp). exists parent, parent'. split_and!; [by eapply reached_below|done|by apply R].
    + destruct IH as [(before & s' & after & mid & -> & Re & N & ->)|(parent & Re & L)].
      * left. exists (s :: before), s', after, mid. split_and!; [done|by eapply reached_below|done|]. f_equal. unfold zlen. simpl. lia.
      * right. exists parent. split; [by eapply reached_below|done].
  - left. exists [], s, segments, node. split_and!; [done|constructor|done|]. f_equal. unfold zlen. simpl. lia.
Qed.

Lemma insert_missing_says (cursor last value : V) (err : PatchError) :
  (forall child, ~ child_at cursor last child) ->
  match insert_missing cursor last value err with
  | Ok cursor' => written value last cursor cursor'
  | Err e => e = err /\ (forall m key, view cursor = JObject m -> as_str last <> Some key) /\ forall l i, view cursor = JArray l -> ~ index_says last i
  end.
Proof.
  intros N. unfold insert_missing. destruct (view cursor) as [| | | |l|m] eqn:Vc; try (split; [done|split; congruence]).
  - assert (W : forall i, index_says last i -> written value last cursor (build (JArray (list_insert_at (Nat.min (Z.to_nat i) (length l)) value l)))).
    { intros i I. assert (Le : (length l <= Z.to_nat i)%nat).
      { apply lookup_ge_None. destruct (l !! Z.to_nat i) as [c|] eqn:L; [|done]. by destruct (N c (child_element _ _ _ _ _ Vc I L)). }
      rewrite Nat.min_r by done. unfold list_insert_at. rewrite take_ge, drop_ge by done. by eapply written_appended. }
    destruct (as_u64 last) as [i|] eqn:U.
    + apply W. left. split; [|done]. unfold as_u64, as_str in *. by destruct (view last).
    + destruct (as_str last) as [key|] eqn:S; cbn [mbind option_bind].
      * destruct (parse_u64 key) as [i|] eqn:Pk; [apply W; right; eauto|]. split; [done|]. split; [congruence|]. intros l' i [= <-] I. pose proof (index_of_string _ _ _ S I). congruence.
      * split; [done|]. split; [congruence|]. intros l' i _ [[_ ?]|(? & ? & _)]; congruence.
  - destruct (as_str last) as [key|] eqn:S; [by eapply written_key|]. split; [done|]. split; congruence.
Qed.

Lemma remove_at_says (cursor last : V) : removed last cursor (remove_at cursor last).
Proof.
  unfold remove_at. destruct (view cursor) as [| | | |l|m] eqn:Vc; try (apply removed_nothing; congruence).
  - destruct (as_u64 last) as [i|] eqn:U; [|apply removed_nothing; [congruence|]; intros; congruence].
    destruct (Nat.ltb_spec (Z.to_nat i) (length l)); [by eapply removed_element|]. apply removed_nothing; [congruence|]. intros l' j E1 E2. rewrite Vc in E1. injection E1 as <-. rewrite U in E2. injection E2 as <-. done.
  - destruct (as_str last) as [key|] eqn:S; [by eapply removed_key|]. apply removed_nothing; congruence.
Qed.

Lemma apply_leaf_says (op : string) (obj : gmap string V) (n : Z) (last parent : V) :
  match apply_leaf op obj n last parent with
  | Ok parent' =>
      (op = "add" \/ op = "replace") /\ written (default json_null (obj !! "value")) last parent parent' \/ op = "remove" /\ removed last parent parent'
  | Err e =>
      op <> "add" /\ op <> "replace" /\ op <> "remove" /\ e = UnsupportedOp op \/
      (op = "add" \/ op = "replace") /\ e = InvalidPath (n - 1) /\
      (forall m key, view parent = JObject m -> as_str last <> Some key) /\ forall l i, view parent = JArray l -> ~ index_says last i
  end.
Proof.
  unfold apply_leaf. destruct (bool_decide (op = "add") || bool_decide (op = "replace")) eqn:W.
  - apply orb_true_iff in W. rewrite !bool_decide_eq_true in W. cbv zeta.
    pose proof (descend_mut_says parent last) as D. destruct (descend_mut parent last) as [[child put]|].
    + left. split; [done|]. by apply D.
    + pose proof (insert_missing_says _ _ (default json_null (obj !! "value")) (InvalidPath (n - 1)) D) as X. destruct (insert_missing _ _ _ _); [by left|]. right. naive_solver.
  - apply orb_false_iff in W. rewrite !bool_decide_eq_false in W. case_bool_decide as Rm; [|left; naive_solver]. right. split; [done|apply remove_at_says].
Qed.

Lemma apply_one_says (state patch : V) : patch_says state patch (apply_one state patch).
Proof.
  unfold apply_one, ok_or. destruct (as_object patch) as [obj|] eqn:Ho; cbn [res_bind]; [|by apply says_not_an_object].
  destruct (obj !! "op" ≫= as_str) as [op|] eqn:Op; cbn [res_bind]; [|by eapply says_no_op].
  destruct (obj !! "path" ≫= as_array) as [path|] eqn:Hp; cbn [res_bind]; [|eapply says_no_path; eauto].
  destruct path as [|lst path _] using rev_ind; [eapply says_no_path; eauto|]. rewrite last_snoc.
  replace (removelast (path ++ [lst])) with path by (symmetry; apply removelast_last).
  pose proof (at_cursor_says path 0 state (apply_leaf op obj (zlen (path ++ [lst])) lst)) as A. destruct (at_cursor _ _ _ _) as [state'|e].
  - destruct A as (parent & parent' & Re & L & Rp). pose proof (apply_leaf_says op obj (zlen (path ++ [lst])) lst parent) as S. rewrite L in S.
    destruct S as [[W S]|[-> S]]; [by eapply says_write|by eapply says_remove].
  - destruct A as [(before & s & after & mid & -> & Re & N & ->)|(parent & Re & L)].
    + rewrite <- app_assoc in Hp. simpl in Hp. eapply says_lost; eauto.
    + pose proof (apply_leaf_says op obj (zlen (path ++ [lst])) lst parent) as S. rewrite L in S. destruct S as [(? & ? & ? & ->)|(W & -> & K & I)].
      * by eapply says_unsupported.
      * replace (zlen (path ++ [lst]) - 1) with (zlen path) by (unfold zlen; rewrite length_app; simpl; lia). by eapply says_unwritable.
Qed.

(** C40. A batch of Immer patches does what the patches say, one after the other, up to the first that cannot be applied.  A patch needs an object with a known operation and a
    non-empty path; the path without its last segment is walked through the tree, by keys in objects and by positions (numbers or decimal strings) in arrays, and an error names the place where the walk stops.
    In the container it leads to, [add] and [replace] set the key, overwrite the existing position or append at any other, with the value of the patch (null without one);
    [remove] deletes the key or the position, and is no error when there is nothing to delete.  The new tree is the old one with this container
    replaced, and nothing else.  After an error the tree holds the effects of the earlier patches. *)
Theorem patches_do_what_they_say (state : V) (patches : list V) :
  batch_says state patches (apply_immer_patches state patches).1 (apply_immer_patches state patches).2.
Proof.
  revert state. induction patches as [|p patches IH]; intros state; cbn [apply_immer_patches]; [constructor|].
  pose proof (apply_one_says state p) as S. destruct (apply_one state p) as [state1|e]; [by eapply batch_next|by apply batch_stopped].
Qed.
End PatchMeaning.

(** ** Turns, questions and settings *)
Section Facts.
Context {V : Type} `{SerdeJsonLaws V} `{Chrono}.

Definition turn_started (turn : V) : Z := default 0 (get_u64 "turnStartedAtMs" turn).

(** The turns shown are the state's own [turns] whenever that array has entries; otherwise
    they are the paginated history's entities that carry a turn id, each exactly once, ordered
    by their start time. *)
Theorem extract_turns_spec (state : V) :
  (forall t ts, get_array "turns" state = Some (t :: ts) -> extract_turns state = t :: ts) /\
  (get_array "turns" state = None \/ get_array "turns" state = Some [] ->
   Sorted (fun a b => turn_started a <= turn_started b) (extract_turns state) /\
   forall m, pointer ["turnHistory"; "history"; "entitiesByKey"] state ≫= as_object = Some m ->
     extract_turns state ≡ₚ filter (fun e => is_Some (get "turnId" e)) (map snd (map_to_list m))).
Proof.
  unfold extract_turns. split; [by intros t ts ->|]. intros Hno.
  replace (match get_array "turns" state with Some (t :: ts) => t :: ts | _ => history_turns state end)
    with (history_turns state) by (by destruct Hno as [-> | ->]).
  unfold history_turns. split; [apply sort_by_key_sorted|].
  intros m Hm. rewrite sort_by_key_perm, Hm. unfold bt_values, bt_iter.
  apply filter_Permutation. change (map snd) with (fmap (M := list) (@snd string V)).
  by rewrite merge_sort_Permutation.
Qed.

(** A remote answer is only built for a native request with exactly one question, and then
    it carries, under that question's id, the chosen labels in order followed by the free text
    when there is one, and nothing else; any other request is refused. *)
Theorem build_request_answer_response_spec (request : RequestsQuestion.t)
    (labels : list string) (free_text : option string) :
  match build_request_answer_response request labels free_text with
  | Ok v =>
      exists q, RequestsQuestion.questions request = [q] /\
        (fun m => map fst (map_to_list m)) <$> as_object v = Some ["answers"] /\
        (fun m => map fst (map_to_list m)) <$> (get "answers" v ≫= as_object) =
          Some [RequestQuestion.question_id q] /\
        mapM as_str <$> (pointer ["answers"; RequestQuestion.question_id q; "answers"] v ≫= as_array) =
          Some (Some (labels ++ match free_text with Some t => [t] | None => [] end))
  | Err _ => length (RequestsQuestion.questions request) <> 1%nat
  end.
Proof.
  unfold build_request_answer_response.
  destruct (RequestsQuestion.questions request) as [|q [|q' qs]]; simpl; try lia.
  exists q. unfold json_object, json_array, answer_entries, pointer, get. simpl.
  repeat (autorewrite with rust; simpl; rewrite ?lookup_insert_eq; simpl).
  rewrite !insert_empty, !map_to_list_singleton. split_and!; try done.
  f_equal. apply mapM_Some.
  apply Forall2_app.
  - induction labels; simpl; constructor; auto. unfold json_string. by rewrite as_str_build.
  - destruct free_text; repeat constructor. unfold json_string. by rewrite as_str_build.
Qed.

End Facts.

Section Settings.
Context {V : Type} `{SerdeJson V} `{Chrono}.

(** Settings are advertised honestly: an option is listed only with a current value, no
    option is listed twice, only the reasoning effort is ever mutable and only between turns,
    and only the effort has a list of choices. *)
Theorem extract_settings_spec (state : V) (phase : ActiveTurnPhase.t) :
  NoDup (map SettingOption.option_id (extract_settings state phase)) /\
  Forall (fun o =>
    is_Some (SettingOption.current_value o) /\
    (SettingOption.mutable o = true ->
       SettingOption.kind o = SettingKind.ReasoningEffort /\ phase = ActiveTurnPhase.Idle) /\
    (SettingOption.available_values o <> [] -> SettingOption.kind o = SettingKind.ReasoningEffort))
    (extract_settings state phase).
Proof.
  unfold extract_settings, push_setting.
  repeat match goal with |- context [match ?x with Some _ => _ | None => _ end] => destruct x end.
  all: simpl; split; [repeat (constructor; [set_solver|]); constructor|].
  all: repeat constructor; simpl; eauto; try done; intros; simpl in *; bool_to_prop; auto.
Qed.

End Settings.

(** ** Concrete inputs *)
Module ProjectionDemo.
Import Demo.

Definition a_patch (op : string) (path : list json) (value : json) : json :=
  obj [("op", Str op); ("path", Arr path); ("value", value)].

Definition a_state : json :=
  obj [("title", Str "old"); ("turns", Arr [obj [("turnId", Str "t1")]])].

Definition a_title_patch : json := a_patch "replace" [Str "title"] (Str "new").

Definition a_title_obj : gmap string json :=
  list_to_map [("op", Str "replace"); ("path", Arr [Str "title"]); ("value", Str "new")].

Definition a_title_patched : json :=
  match apply_one a_state a_title_patch with Ok s => s | Err _ => Null end.
End ProjectionDemo.

Lemma patch_write_read_witness :
  apply_one ProjectionDemo.a_state ProjectionDemo.a_title_patch = Ok ProjectionDemo.a_title_patched /\
  (read_path ProjectionDemo.a_title_patched ([] ++ [Demo.Str "title"]) = Some (default json_null (ProjectionDemo.a_title_obj !! "value")) \/
   exists parent l, read_path ProjectionDemo.a_state [] = Some parent /\ view parent = JArray l /\
     descend parent (Demo.Str "title") = None /\
     read_path ProjectionDemo.a_title_patched [] = Some (build (JArray (l ++ [default json_null (ProjectionDemo.a_title_obj !! "value")])))).
Proof.
  split; [vm_compute; reflexivity|].
  eapply (patch_write_read ProjectionDemo.a_state ProjectionDemo.a_title_patch
    ProjectionDemo.a_title_patched (Demo.Str "title") ProjectionDemo.a_title_obj "replace" []);
    [reflexivity|vm_compute; reflexivity|by right|vm_compute; reflexivity|vm_compute; reflexivity].
Defined.

Lemma patch_locality_witness :
  read_path ProjectionDemo.a_title_patched [Demo.Str "turns"; Demo.Num 0; Demo.Str "turnId"] =
  Some (Demo.Str "t1").
Proof.
  etransitivity;
    [eapply (patch_locality ProjectionDemo.a_state ProjectionDemo.a_title_patch
       ProjectionDemo.a_title_patched _ (Demo.Str "title") (Demo.Str "turns") _ _ [] []
       [Demo.Num 0; Demo.Str "turnId"] "title" "turns"); [reflexivity|vm_compute; reflexivity..|done|]
    |]; vm_compute; reflexivity.
Defined.

Lemma build_request_answer_response_spec_witness :
  let q := RequestQuestion.mk "q1" "h" "Which?" true ["yes"; "no"] in
  let request := RequestsQuestion.mk "r1" None [q] in
  match build_request_answer_response (V := Demo.json) request ["yes"] (Some "and more") with
  | Ok v =>
      exists q, RequestsQuestion.questions request = [q] /\
        (fun m => map fst (map_to_list m)) <$> as_object v = Some ["answers"] /\
        (fun m => map fst (map_to_list m)) <$> (get "answers" v ≫= as_object) =
          Some [RequestQuestion.question_id q] /\
        mapM as_str <$> (pointer ["answers"; RequestQuestion.question_id q; "answers"] v ≫= as_array) =
          Some (Some (["yes"] ++ ["and more"]))
  | Err _ => length (RequestsQuestion.questions request) <> 1%nat
  end.
Proof.
  intros q request.
  exact (build_request_answer_response_spec (V := Demo.json) request ["yes"] (Some "and more")).
Defined.
