(* ===== verification/Mapper.v ===== *)
(** * The session mapper ([adapter/codex/mapper.rs])

    Per followed session: the last state tree, a track per item, the output buffers waiting to
    be merged, the pending attentions and the last summary.  [apply_snapshot] compares a new
    tree with the tracks and returns the domain events, [apply_patches] patches the previous
    tree and goes through the same comparison, [flush_due_outputs] empties the buffers that are
    due.  The only panic of the code, the [expect] in [take_pending_output], is the [None] of
    the option monad the functions are written in; the instant at which the buffer of an item
    is created is read from a clock passed to the call. *)

From S2P Require Import Prelude Bytes RustStr Domain Text Json Projection.

Module OutputMergePolicy.
Record t := mk {
  max_delay : Z;  (* milliseconds *)
  max_bytes : Z;
}.
Definition default : t := mk 75 (64 * 1024).
End OutputMergePolicy.

Module ItemTrack.
Record t := mk {
  seq : Z;
  native_type : string;
  status : option string;
  content_len : Z;
  output : list byte;
  output_present : bool;
  final_emitted : bool;
}.
Definition with_final_emitted (x : bool) (m : t) : t :=
  mk (seq m) (native_type m) (status m) (content_len m) (output m) (output_present m) x.
End ItemTrack.

Module PendingOutput.
Record t := mk {
  expected_offset : Z;
  buffer : list byte;
  queued_at : Z;
}.
End PendingOutput.

Module SessionMapper.
Section SessionMapper.
Context {V : Type}.

Record t := mk {
  session_key : SessionKey.t;
  merge_policy : OutputMergePolicy.t;
  revision : option Z;
  state : option V;
  facts : SessionFacts.t;
  capabilities : CapabilitySet.t;
  device_connection : DeviceConnection.t;
  queue : QueueStatus.t;
  items : gmap string ItemTrack.t;
  attentions : gmap string PendingAttentionKind.t;
  pending_outputs : gmap string PendingOutput.t;
  last_summary : option SessionSummary.t;
  current_turn : option TurnId.t;
  phase : ActiveTurnPhase.t;
  last_outcome : option LastTurnOutcome.t;
  next_seq : Z;
  unknown_keys : gmap string Z;
}.

Definition with_session_key (x : SessionKey.t) (m : t) : t :=
  mk x (merge_policy m) (revision m) (state m) (facts m) (capabilities m) (device_connection m)
    (queue m) (items m) (attentions m) (pending_outputs m) (last_summary m) (current_turn m)
    (phase m) (last_outcome m) (next_seq m) (unknown_keys m).
Definition with_merge_policy (x : OutputMergePolicy.t) (m : t) : t :=
  mk (session_key m) x (revision m) (state m) (facts m) (capabilities m) (device_connection m)
    (queue m) (items m) (attentions m) (pending_outputs m) (last_summary m) (current_turn m)
    (phase m) (last_outcome m) (next_seq m) (unknown_keys m).
Definition with_revision (x : option Z) (m : t) : t :=
  mk (session_key m) (merge_policy m) x (state m) (facts m) (capabilities m) (device_connection m)
    (queue m) (items m) (attentions m) (pending_outputs m) (last_summary m) (current_turn m)
    (phase m) (last_outcome m) (next_seq m) (unknown_keys m).
Definition with_state (x : option V) (m : t) : t :=
  mk (session_key m) (merge_policy m) (revision m) x (facts m) (capabilities m) (device_connection
    m) (queue m) (items m) (attentions m) (pending_outputs m) (last_summary m) (current_turn m)
    (phase m) (last_outcome m) (next_seq m) (unknown_keys m).
Definition with_facts (x : SessionFacts.t) (m : t) : t :=
  mk (session_key m) (merge_policy m) (revision m) (state m) x (capabilities m) (device_connection
    m) (queue m) (items m) (attentions m) (pending_outputs m) (last_summary m) (current_turn m)
    (phase m) (last_outcome m) (next_seq m) (unknown_keys m).
Definition with_capabilities (x : CapabilitySet.t) (m : t) : t :=
  mk (session_key m) (merge_policy m) (revision m) (state m) (facts m) x (device_connection m)
    (queue m) (items m) (attentions m) (pending_outputs m) (last_summary m) (current_turn m)
    (phase m) (last_outcome m) (next_seq m) (unknown_keys m).
Definition with_device_connection (x : DeviceConnection.t) (m : t) : t :=
  mk (session_key m) (merge_policy m) (revision m) (state m) (facts m) (capabilities m) x (queue
    m) (items m) (attentions m) (pending_outputs m) (last_summary m) (current_turn m) (phase m)
    (last_outcome m) (next_seq m) (unknown_keys m).
Definition with_queue (x : QueueStatus.t) (m : t) : t :=
  mk (session_key m) (merge_policy m) (revision m) (state m) (facts m) (capabilities m)
    (device_connection m) x (items m) (attentions m) (pending_outputs m) (last_summary m)
    (current_turn m) (phase m) (last_outcome m) (next_seq m) (unknown_keys m).
Definition with_items (x : gmap string ItemTrack.t) (m : t) : t :=
  mk (session_key m) (merge_policy m) (revision m) (state m) (facts m) (capabilities m)
    (device_connection m) (queue m) x (attentions m) (pending_outputs m) (last_summary m)
    (current_turn m) (phase m) (last_outcome m) (next_seq m) (unknown_keys m).
Definition with_attentions (x : gmap string PendingAttentionKind.t) (m : t) : t :=
  mk (session_key m) (merge_policy m) (revision m) (state m) (facts m) (capabilities m)
    (device_connection m) (queue m) (items m) x (pending_outputs m) (last_summary m) (current_turn
    m) (phase m) (last_outcome m) (next_seq m) (unknown_keys m).
Definition with_pending_outputs (x : gmap string PendingOutput.t) (m : t) : t :=
  mk (session_key m) (merge_policy m) (revision m) (state m) (facts m) (capabilities m)
    (device_connection m) (queue m) (items m) (attentions m) x (last_summary m) (current_turn m)
    (phase m) (last_outcome m) (next_seq m) (unknown_keys m).
Definition with_last_summary (x : option SessionSummary.t) (m : t) : t :=
  mk (session_key m) (merge_policy m) (revision m) (state m) (facts m) (capabilities m)
    (device_connection m) (queue m) (items m) (attentions m) (pending_outputs m) x (current_turn
    m) (phase m) (last_outcome m) (next_seq m) (unknown_keys m).
Definition with_current_turn (x : option TurnId.t) (m : t) : t :=
  mk (session_key m) (merge_policy m) (revision m) (state m) (facts m) (capabilities m)
    (device_connection m) (queue m) (items m) (attentions m) (pending_outputs m) (last_summary m)
    x (phase m) (last_outcome m) (next_seq m) (unknown_keys m).
Definition with_phase (x : ActiveTurnPhase.t) (m : t) : t :=
  mk (session_key m) (merge_policy m) (revision m) (state m) (facts m) (capabilities m)
    (device_connection m) (queue m) (items m) (attentions m) (pending_outputs m) (last_summary m)
    (current_turn m) x (last_outcome m) (next_seq m) (unknown_keys m).
Definition with_last_outcome (x : option LastTurnOutcome.t) (m : t) : t :=
  mk (session_key m) (merge_policy m) (revision m) (state m) (facts m) (capabilities m)
    (device_connection m) (queue m) (items m) (attentions m) (pending_outputs m) (last_summary m)
    (current_turn m) (phase m) x (next_seq m) (unknown_keys m).
Definition with_next_seq (x : Z) (m : t) : t :=
  mk (session_key m) (merge_policy m) (revision m) (state m) (facts m) (capabilities m)
    (device_connection m) (queue m) (items m) (attentions m) (pending_outputs m) (last_summary m)
    (current_turn m) (phase m) (last_outcome m) x (unknown_keys m).
Definition with_unknown_keys (x : gmap string Z) (m : t) : t :=
  mk (session_key m) (merge_policy m) (revision m) (state m) (facts m) (capabilities m)
    (device_connection m) (queue m) (items m) (attentions m) (pending_outputs m) (last_summary m)
    (current_turn m) (phase m) (last_outcome m) (next_seq m) x.

Definition new (session_key : SessionKey.t) : t :=
  mk session_key OutputMergePolicy.default None None SessionFacts.default
    (CapabilitySet.read_only_degraded None) DeviceConnection.Online QueueStatus.default
    ∅ ∅ ∅ None None ActiveTurnPhase.Idle None 0 ∅.
End SessionMapper.
Arguments t V : clear implicits.
End SessionMapper.


Inductive PatchOutcome :=
| Applied (events : list DomainEvent.t)
| ResyncNeeded.

Section Mapper.
Context {V : Type} `{SerdeJson V} `{Chrono}.
Notation SM := (SessionMapper.t V).

(** ** Free functions *)

Definition item_type_of (item_value : V) : string :=
  default "unknown" (get_or "type" "item_type" item_value ≫= as_str).

Definition is_output_item (native_type : string) : bool :=
  bool_decide (native_type ∈ ["commandExecution"; "command"]).

Definition status_is_terminal (status : option string) : bool :=
  match status with
  | Some s => command_status_is_terminal (map_command_status (Some s))
  | None => false
  end.

Definition track_key (item_id : ItemId.t) : string := ItemId.id item_id.

Definition key_to_item_id (key : string) : ItemId.t :=
  match strip_suffix ":unnamed" key with
  | Some base => ItemId.synthetic base
  | None => ItemId.native key
  end.

Definition content_signature (content : ItemContent.t) : Z :=
  match content with
  | ItemContent.UserMessage text => OutputText.len text
  | ItemContent.AssistantMessage text _ => OutputText.len text
  | ItemContent.ReasoningSummary text => OutputText.len text
  | ItemContent.Plan plan => zlen (Plan.steps plan)
  | ItemContent.ToolCall _ _ _ _ duration_ms => duration_ms
  | ItemContent.CommandStatus _ _ _ _ duration_ms => duration_ms
  | ItemContent.FileChange changes => zlen changes
  | ItemContent.TokenUsage input_tokens _ _ _ => input_tokens
  | _ => 0
  end.

Definition collect_turns (state : V) : list (TurnId.t * V) :=
  imap (fun i turn => (turn_id_of turn i, turn)) (extract_turns state).

(** The items of all turns, in order, each with its turn. *)
Definition all_items (state : V) : list (TurnId.t * V) :=
  flat_map (fun '(turn_id, turn) => map (pair turn_id) (turn_items_of turn)) (collect_turns state).

Definition find_item (state : V) (key : string) : option Item.t :=
  (fun '(turn_id, item_value) => parse_item (item_type_of item_value) item_value (Some turn_id) None) <$>
  find (fun '(_, item_value) => bool_decide (get_str "id" item_value = Some key)) (all_items state).

(** ** Output buffers *)

Definition pending_output_bytes (m : SM) : Z :=
  sum_by (fun p => zlen (PendingOutput.buffer p)) (bt_values (SessionMapper.pending_outputs m)).

(** The [while] loop of [take_pending_output]; every round removes at least one byte, so the
    length of the buffer is fuel enough.  [None]: the [expect] fails. *)
Fixpoint output_chunks (fuel : nat) (max_bytes : Z) (item_id : ItemId.t) (offset : Z)
    (rest : OutputBytes.t) : option (list DomainEvent.t) :=
  if OutputBytes.is_empty rest then Some []
  else match fuel with
       | O => None
       | S fuel =>
           match split_utf8_safe rest max_bytes with
           | None => None
           | Some (chunk, tail) =>
               events ← output_chunks fuel max_bytes item_id (offset + OutputBytes.len chunk) tail;
               Some (DomainEvent.OutputAppend item_id offset chunk OutputChannel.Combined :: events)
           end
       end.

Definition take_pending_output (m : SM) (key : string) : option (SM * list DomainEvent.t) :=
  match SessionMapper.pending_outputs m !! key with
  | None => Some (m, [])
  | Some pending =>
      let m := SessionMapper.with_pending_outputs (delete key (SessionMapper.pending_outputs m)) m in
      let buffer := PendingOutput.buffer pending in
      events ← output_chunks (length buffer) (OutputMergePolicy.max_bytes (SessionMapper.merge_policy m))
                 (key_to_item_id key) (PendingOutput.expected_offset pending) (OutputBytes.mk buffer);
      Some (m, events)
  end.

Definition maybe_flush_full (m : SM) (key : string) : option (SM * list DomainEvent.t) :=
  let full :=
    match SessionMapper.pending_outputs m !! key with
    | Some p => OutputMergePolicy.max_bytes (SessionMapper.merge_policy m) <=? zlen (PendingOutput.buffer p)
    | None => false
    end in
  if full then take_pending_output m key else Some (m, []).

(** Several flushes, the events in order. *)
Fixpoint take_pending_outputs (m : SM) (keys : list string) : option (SM * list DomainEvent.t) :=
  match keys with
  | [] => Some (m, [])
  | key :: keys =>
      r ← take_pending_output m key;
      r' ← take_pending_outputs r.1 keys;
      Some (r'.1, r.2 ++ r'.2)
  end.

(** [now.duration_since(queued_at)] saturates at zero. *)
Definition flush_due_outputs (m : SM) (now : Z) : option (SM * list DomainEvent.t) :=
  take_pending_outputs m
    (map fst (filter (fun '(_, p) =>
       OutputMergePolicy.max_delay (SessionMapper.merge_policy m)
         <= Z.max 0 (now - PendingOutput.queued_at p))
       (bt_iter (SessionMapper.pending_outputs m)))).

Definition build_track (native_type : string) (item_value : V) (item : Item.t) (seq : Z) : ItemTrack.t :=
  let is_output := match Item.content item with ItemContent.CommandStatus _ _ _ _ _ => true | _ => false end in
  ItemTrack.mk seq native_type
    (get_str "status" item_value)
    (content_signature (Item.content item))
    (if is_output then default [] (String.list_byte_of_string <$> command_output item_value) else [])
    (is_output && match command_output item_value with Some _ => true | None => false end)
    false.

Definition output_events_for_new_snapshot_item (key : string) (new_track : ItemTrack.t)
    : list DomainEvent.t :=
  if negb (is_output_item (ItemTrack.native_type new_track)) then []
  else
    let item_id := key_to_item_id key in
    (if bool_decide (ItemTrack.output new_track = []) then []
     else [DomainEvent.OutputReplace item_id 0 (OutputBytes.mk (ItemTrack.output new_track))
             OutputChannel.Combined]) ++
    (if status_is_terminal (ItemTrack.status new_track) && negb (ItemTrack.final_emitted new_track)
     then [DomainEvent.OutputFinal item_id 0 (zlen (ItemTrack.output new_track))
             OutputChannel.Combined (negb (ItemTrack.output_present new_track))]
     else []).

(** [slice.starts_with], returning what follows. *)
Fixpoint bytes_strip_prefix (p l : list byte) : option (list byte) :=
  match p, l with
  | [], _ => Some l
  | a :: p, b :: l => if bool_decide (a = b) then bytes_strip_prefix p l else None
  | _ :: _, [] => None
  end.

(** The first half of [output_delta_events]: the difference is buffered, or the whole output is
    sent again when it is not an extension. *)
Definition output_change_events (now : Z) (m : SM) (key : string) (old_track new_track : ItemTrack.t)
    : option (SM * list DomainEvent.t) :=
  let old := ItemTrack.output old_track in
  let new := ItemTrack.output new_track in
  if bool_decide (length new = length old) then Some (m, [])
  else
    match bytes_strip_prefix old new with
    | Some delta =>
        let entry :=
          default (PendingOutput.mk (zlen old) [] now) (SessionMapper.pending_outputs m !! key) in
        let entry := PendingOutput.mk (PendingOutput.expected_offset entry)
                       (PendingOutput.buffer entry ++ delta) (PendingOutput.queued_at entry) in
        maybe_flush_full
          (SessionMapper.with_pending_outputs (<[key := entry]> (SessionMapper.pending_outputs m)) m) key
    | None =>
        Some (SessionMapper.with_pending_outputs (delete key (SessionMapper.pending_outputs m)) m,
              [DomainEvent.OutputReplace (key_to_item_id key) 0 (OutputBytes.mk new) OutputChannel.Combined])
    end.

Definition output_delta_events (now : Z) (m : SM) (key : string) (old_track new_track : ItemTrack.t)
    : option (SM * ItemTrack.t * list DomainEvent.t) :=
  if negb (is_output_item (ItemTrack.native_type new_track)) then Some (m, new_track, [])
  else
    r ← output_change_events now m key old_track new_track;
    if status_is_terminal (ItemTrack.status new_track) &&
       negb (status_is_terminal (ItemTrack.status old_track)) &&
       negb (ItemTrack.final_emitted new_track)
    then
      r' ← take_pending_output r.1 key;
      Some (r'.1, ItemTrack.with_final_emitted true new_track,
            r.2 ++ r'.2 ++
            [DomainEvent.OutputFinal (key_to_item_id key) 0 (zlen (ItemTrack.output new_track))
               OutputChannel.Combined (negb (ItemTrack.output_present new_track))])
    else Some (r.1, new_track, r.2).

(** ** Attentions and the summary *)

(** The attentions of a state: questions first, an approval of the same id replaces one. *)
Definition attention_kinds (state : V) : gmap string PendingAttentionKind.t :=
  let questions :=
    foldl (fun next q => <[PendingQuestion.question_id q := PendingAttentionKind.UserQuestion]> next)
      ∅ (extract_questions state) in
  foldl (fun next a => <[PendingApproval.approval_id a := PendingAttentionKind.RiskApproval]> next)
    questions (extract_approvals state).

Definition find_attention (state : V) (id : string) (kind : PendingAttentionKind.t)
    : option PendingAttention.t :=
  match kind with
  | PendingAttentionKind.UserQuestion =>
      PendingAttention.Question <$>
      find (fun q => bool_decide (PendingQuestion.question_id q = id)) (extract_questions state)
  | PendingAttentionKind.RiskApproval =>
      PendingAttention.Approval <$>
      find (fun a => bool_decide (PendingApproval.approval_id a = id)) (extract_approvals state)
  end.

Definition diff_attentions (m : SM) (state : V) : SM * list DomainEvent.t :=
  let current := SessionMapper.attentions m in
  let next := attention_kinds state in
  let removed :=
    map (fun '(id, kind) => DomainEvent.PendingAttentionRemoved kind id None)
      (filter (fun '(id, _) => next !! id = None) (bt_iter current)) in
  let added :=
    filter_map (fun '(id, kind) =>
      if bt_contains_key id current then None
      else DomainEvent.PendingAttentionAdded <$> find_attention state id kind) (bt_iter next) in
  (SessionMapper.with_attentions next m, removed ++ added).

(** The order of the derived [Ord]. *)
Definition attention_kind_index (k : PendingAttentionKind.t) : Z :=
  match k with
  | PendingAttentionKind.UserQuestion => 0
  | PendingAttentionKind.RiskApproval => 1
  end.

Definition session_summary (m : SM) : SessionSummary.t :=
  let kinds := vec_dedup (sort_by_key attention_kind_index (bt_values (SessionMapper.attentions m))) in
  let facts := SessionMapper.facts m in
  SessionSummary.mk
    (SessionMapper.session_key m)
    (OutputText.mk <$> SessionFacts.title facts)
    (SessionKey.agent_kind (SessionMapper.session_key m))
    (SessionFacts.project_display facts)
    (SessionFacts.git_branch facts)
    None
    (SessionMapper.device_connection m)
    None None
    (CapabilitySet.control_mode (SessionMapper.capabilities m))
    (CapabilitySet.compatibility_state (SessionMapper.capabilities m))
    (SessionMapper.phase m)
    (as_u32 (Z.of_nat (size (SessionMapper.attentions m))))
    kinds
    (QueueStatus.state (SessionMapper.queue m))
    (default LastTurnOutcome.Unknown (SessionMapper.last_outcome m))
    false false false.

(** ** Applying a snapshot *)

(** The tracks of the new tree; the first of two items with the same key wins, and only a key
    that was not there yet takes a sequence number. *)
Definition add_track (acc : Z * gmap string ItemTrack.t) (entry : TurnId.t * V)
    : Z * gmap string ItemTrack.t :=
  let '(next_seq, new_items) := acc in
  let '(turn_id, item_value) := entry in
  let native_type := item_type_of item_value in
  let item := parse_item native_type item_value (Some turn_id) None in
  let key := track_key (Item.item_id item) in
  match new_items !! key with
  | Some _ => (next_seq, new_items)
  | None => (next_seq + 1, <[key := build_track native_type item_value item next_seq]> new_items)
  end.

Definition new_tracks (next_seq : Z) (state : V) : Z * gmap string ItemTrack.t :=
  foldl add_track (next_seq, ∅) (all_items state).

Definition upsert_event (state : V) (key : string) : list DomainEvent.t :=
  match find_item state key with
  | Some item => [DomainEvent.ItemUpsert item]
  | None => []
  end.

(** One round of the loop over the new tracks. *)
Definition apply_track (clock : string -> Z) (first : bool) (state : V) (m : SM)
    (key : string) (new_track : ItemTrack.t) : option (SM * list DomainEvent.t) :=
  match SessionMapper.items m !! key with
  | None =>
      let m := SessionMapper.with_items (<[key := new_track]> (SessionMapper.items m)) m in
      Some (m,
        if first then []
        else match find_item state key with
             | Some item => DomainEvent.ItemUpsert item :: output_events_for_new_snapshot_item key new_track
             | None => []
             end)
  | Some old_track =>
      let changed :=
        negb (bool_decide (ItemTrack.status old_track = ItemTrack.status new_track)) ||
        negb (ItemTrack.content_len old_track =? ItemTrack.content_len new_track) ||
        negb (bool_decide (length (ItemTrack.output old_track) = length (ItemTrack.output new_track))) in
      r ← output_delta_events (clock key) m key old_track new_track;
      let '(m, new_track, events) := r in
      Some (SessionMapper.with_items (<[key := new_track]> (SessionMapper.items m)) m,
            events ++ if changed then upsert_event state key else [])
  end.

Fixpoint apply_tracks (clock : string -> Z) (first : bool) (state : V) (m : SM)
    (tracks : list (string * ItemTrack.t)) : option (SM * list DomainEvent.t) :=
  match tracks with
  | [] => Some (m, [])
  | (key, track) :: tracks =>
      r ← apply_track clock first state m key track;
      r' ← apply_tracks clock first state r.1 tracks;
      Some (r'.1, r.2 ++ r'.2)
  end.

(** Tracks whose key is no item's [id] any more are dropped. *)
Definition retain_tracks (state : V) (m : SM) : SM :=
  SessionMapper.with_items
    (filter (fun '(key, _) => existsb (fun '(_, it) => bool_decide (get_str "id" it = Some key)) (all_items state) = true)
       (SessionMapper.items m)) m.

Definition running_turn (state : V) : option TurnId.t :=
  fst <$> find (fun '(_, t) => bool_decide (turn_status_of t = Some "inProgress")) (collect_turns state).

Definition last_terminal (state : V) : option (TurnId.t * LastTurnOutcome.t) :=
  head (filter_map (fun '(turn_id, t) => pair turn_id <$> map_turn_outcome (turn_status_of t))
          (rev (collect_turns state))).

Definition phase_of (facts : SessionFacts.t) (state : V) : ActiveTurnPhase.t :=
  match running_turn state with
  | Some _ => ActiveTurnPhase.Running
  | None =>
      if bool_decide (SessionFacts.runtime_status facts = Some "finishing") then ActiveTurnPhase.Finishing
      else match last_terminal state with
           | Some _ => ActiveTurnPhase.Idle
           | None => map_phase (SessionFacts.runtime_status facts)
           end
  end.

(** The turn part: phase, current turn and last outcome. *)
Definition update_turn (state : V) (m : SM) : SM * list DomainEvent.t :=
  let new_phase := phase_of (SessionMapper.facts m) state in
  let new_current_turn := running_turn state in
  let terminal := last_terminal state in
  let phase_changed :=
    negb (bool_decide (SessionMapper.phase m = new_phase)) ||
    negb (bool_decide (SessionMapper.current_turn m = new_current_turn)) in
  let idle := bool_decide (new_phase = ActiveTurnPhase.Idle) in
  let turn :=
    match new_current_turn with
    | Some turn => turn
    | None => default (TurnId.synthetic "unknown") (fst <$> terminal)
    end in
  let outcome :=
    if idle then match terminal with Some (_, o) => Some o | None => SessionMapper.last_outcome m end
    else SessionMapper.last_outcome m in
  (SessionMapper.with_last_outcome outcome
     (SessionMapper.with_current_turn new_current_turn (SessionMapper.with_phase new_phase m)),
   if phase_changed
   then [DomainEvent.TurnLifecycle turn new_phase (if idle then snd <$> terminal else None) None]
   else []).

Definition update_summary (m : SM) : SM * list DomainEvent.t :=
  let summary := session_summary m in
  if bool_decide (SessionMapper.last_summary m = Some summary) then (m, [])
  else (SessionMapper.with_last_summary (Some summary) m, [DomainEvent.SessionSummaryChanged summary]).

Definition apply_snapshot (clock : string -> Z) (m : SM) (revision : Z) (state : V)
    : option (SM * list DomainEvent.t) :=
  let first := match SessionMapper.state m with None => true | Some _ => false end in
  let m := SessionMapper.with_revision (Some revision) m in
  let m := SessionMapper.with_state (Some state) m in
  let m := SessionMapper.with_unknown_keys (count_unknown_keys state) m in
  let m := SessionMapper.with_facts (extract_facts state) m in
  let '(next_seq, new_items) := new_tracks (SessionMapper.next_seq m) state in
  let m := SessionMapper.with_next_seq next_seq m in
  r ← apply_tracks clock first state m (bt_iter new_items);
  let '(m, item_events) := r in
  let m := retain_tracks state m in
  let '(m, turn_events) := update_turn state m in
  let '(m, attention_events) := diff_attentions m state in
  let '(m, summary_events) := update_summary m in
  Some (m, item_events ++ turn_events ++ attention_events ++ summary_events).

Definition apply_patches (clock : string -> Z) (m : SM) (base_revision revision : Z) (patches : list V)
    : option (SM * PatchOutcome) :=
  if negb (bool_decide (SessionMapper.revision m = Some base_revision)) || (revision <=? base_revision)
  then Some (m, ResyncNeeded)
  else
    match SessionMapper.state m with
    | None => Some (m, ResyncNeeded)
    | Some previous_state =>
        match apply_immer_patches previous_state patches with
        | (_, Err _) => Some (m, ResyncNeeded)
        | (patched, Ok _) =>
            r ← apply_snapshot clock m revision patched;
            Some (r.1, Applied r.2)
        end
    end.

(** ** Reads *)

Definition set_queue (m : SM) (queue : QueueStatus.t) : SM * option DomainEvent.t :=
  if bool_decide (SessionMapper.queue m = queue) then (m, None)
  else (SessionMapper.with_queue queue m, Some (DomainEvent.QueueStateChanged queue)).

Definition set_capabilities (m : SM) (capabilities : CapabilitySet.t) : SM :=
  SessionMapper.with_capabilities capabilities m.

Definition set_device_connection (m : SM) (connection : DeviceConnection.t) : SM :=
  SessionMapper.with_device_connection connection m.

Definition has_snapshot (m : SM) : bool :=
  match SessionMapper.state m with Some _ => true | None => false end.

Definition cwd (m : SM) : option string := SessionMapper.state m ≫= get_str "cwd".

(** The message a steer restores: the working directory and its context. *)
Definition steer_restore_message (m : SM) : option V :=
  state ← SessionMapper.state m;
  cwd ← get_str "cwd" state;
  let context :=
    ("workspaceRoots", json_array [json_string cwd]) ::
    match get "latestCollaborationMode" state with
    | Some mode => [("collaborationMode", mode)]
    | None => []
    end in
  Some (json_object [("cwd", json_string cwd); ("context", json_object context)]).

Definition output_page (m : SM) (item_id : ItemId.t) (offset limit : Z)
    : option (list byte * Z * bool) :=
  track ← SessionMapper.items m !! track_key item_id;
  if negb (is_output_item (ItemTrack.native_type track)) || negb (ItemTrack.output_present track)
  then None
  else
    let output := ItemTrack.output track in
    let start := Z.min offset (zlen output) in
    let stop := Z.min (Z.min u64_max (start + limit)) (zlen output) in
    Some (take (Z.to_nat (stop - start)) (drop (Z.to_nat start) output), zlen output,
          status_is_terminal (ItemTrack.status track)).

Definition pending_request_questions (m : SM) : list RequestsQuestion.t :=
  match SessionMapper.state m with
  | Some state => extract_requests_questions_detail state
  | None => []
  end.

(** The command items of the tree, each with the id and status of its turn. *)
Definition command_items (state : V) : list (TurnId.t * bool * V) :=
  flat_map (fun '(turn_id, turn) =>
    let turn_running := bool_decide (turn_status_of turn = Some "inProgress") in
    map (fun it => (turn_id, turn_running, it))
      (filter (fun it => item_type_of it = "commandExecution") (turn_items_of turn)))
    (collect_turns state).

Definition derive_commands (state : V) : list RunningCommand.t * list BackgroundCommand.t :=
  let running :=
    filter_map (fun '(turn_id, turn_running, item_value) =>
      let item := parse_item "commandExecution" item_value (Some turn_id) None in
      match turn_running, map_command_status (get_str "status" item_value) with
      | true, CommandStatusState.Running =>
          (fun id => RunningCommand.mk id (Some (Item.item_id item)) None) <$> get_str "id" item_value
      | _, _ => None
      end) (command_items state) in
  let backgrounds :=
    filter_map (fun '(turn_id, turn_running, item_value) =>
      let item := parse_item "commandExecution" item_value (Some turn_id) None in
      let cmd_state := map_command_status (get_str "status" item_value) in
      match turn_running, cmd_state with
      | false, CommandStatusState.Running =>
          Some (BackgroundCommand.mk (get_str "id" item_value) (Some (Item.item_id item))
                  (command_state_to_background cmd_state)
                  (OutputText.mk <$> get_str "command" item_value) None None)
      | _, _ => None
      end) (command_items state) in
  (running, backgrounds).

Definition latest_plan (state : V) : Plan.t :=
  match find (fun '(_, it) => bool_decide (item_type_of it ∈ ["plan"; "updatePlan"])) (all_items state) with
  | Some (_, it) => parse_plan (get "steps" it)
  | None => Plan.default
  end.

Definition recent_output_cursors (m : SM) : list OutputCursor.t :=
  let tracks :=
    filter (fun '(_, t) => ItemTrack.output t <> [] \/ ItemTrack.output_present t = true)
      (bt_iter (SessionMapper.items m)) in
  map (fun '(key, t) =>
    OutputCursor.mk (key_to_item_id key)
      (default 0 (SessionMapper.revision m))
      (zlen (ItemTrack.output t))
      (ItemTrack.final_emitted t || status_is_terminal (ItemTrack.status t))
      OutputChannel.Combined
      (negb (ItemTrack.output_present t)))
    (take 20 (rev (sort_by_key (fun '(_, t) => ItemTrack.seq t) tracks))).

Definition runtime_snapshot (m : SM) : option RuntimeSnapshot.t :=
  state ← SessionMapper.state m;
  let '(running, backgrounds) := derive_commands state in
  let caps := SessionMapper.capabilities m in
  Some (RuntimeSnapshot.mk
    (SessionMapper.session_key m)
    (default 0 (SessionMapper.revision m))
    ((fun turn => CurrentTurn.mk turn (SessionMapper.phase m) None) <$> SessionMapper.current_turn m)
    (latest_plan state)
    (extract_questions state)
    (extract_approvals state)
    running backgrounds
    (as_u32 (zlen backgrounds))
    (SessionMapper.queue m)
    (CapabilitySet.mk (CapabilitySet.control_mode caps) (CapabilitySet.compatibility_state caps)
       (CapabilitySet.codex_version caps) (CapabilitySet.supported_operations caps)
       (extract_settings state (SessionMapper.phase m)) (CapabilitySet.transfer_limits caps))
    (recent_output_cursors m)).

End Mapper.
