(* ===== verification/MapperProps.v ===== *)
(** * Properties of the session mapper

    A client rebuilds an item's output by replaying the events of the item ([replay]): appends
    at the announced offset, replacements.  [synced] relates the mapper's buffer of an item, the
    bytes the client holds and the output of the item's track: what the client holds followed by
    the buffer is the output.  Every operation on the buffers keeps the relation, never fails and
    ends with the client holding everything once the command is over. *)

From S2P Require Import Prelude Bytes RustStr Domain Text Json Projection Mapper.

(** ** The client's side *)

(** [None]: the announced offset is not what the client holds. *)
Definition client_step (held : list byte) (event : DomainEvent.t) : option (list byte) :=
  match event with
  | DomainEvent.OutputAppend _ offset bytes _ =>
      if offset =? zlen held then Some (held ++ OutputBytes.bytes bytes) else None
  | DomainEvent.OutputReplace _ _ bytes _ => Some (OutputBytes.bytes bytes)
  | _ => Some held
  end.

Fixpoint replay (held : list byte) (events : list DomainEvent.t) : option (list byte) :=
  match events with
  | [] => Some held
  | event :: events =>
      match client_step held event with
      | Some held => replay held events
      | None => None
      end
  end.

Lemma replay_app (held : list byte) (es fs : list DomainEvent.t) :
  replay held (es ++ fs) = replay held es ≫= (fun held => replay held fs).
Proof. revert held; induction es as [|e es IH]; intros held; simpl; [done|]. by destruct (client_step held e). Qed.

(** An append of the item's own, not empty, within the limit and in one piece UTF-8. *)
Definition good_append (item_id : ItemId.t) (max_bytes : Z) (event : DomainEvent.t) : Prop :=
  exists offset bytes, event = DomainEvent.OutputAppend item_id offset bytes OutputChannel.Combined /\
    0 < OutputBytes.len bytes <= max_bytes /\ utf8_valid (OutputBytes.bytes bytes) = true.

Lemma output_chunks_spec (fuel : nat) (max_bytes : Z) (item_id : ItemId.t) (held l : list byte) :
  4 <= max_bytes -> Utf8 l -> (length l <= fuel)%nat ->
  exists events, output_chunks fuel max_bytes item_id (zlen held) (OutputBytes.mk l) = Some events /\
    Forall (good_append item_id max_bytes) events /\ replay held events = Some (held ++ l).
Proof.
  intros Hmax. revert held l. induction fuel as [|fuel IH]; intros held l Hu Hf.
  - destruct l; [|simpl in Hf; lia]. exists []. simpl. rewrite app_nil_r. auto.
  - destruct (decide (l = [])) as [->|Hne].
    { exists []. simpl. rewrite app_nil_r. auto. }
    destruct (split_valid l max_bytes Hmax Hne Hu) as (h & r & Hs & -> & Hh & Huh & Hur).
    destruct (IH (held ++ h) r Hur) as (events & He & Hg & Hr).
    { rewrite length_app in Hf. unfold zlen in Hh. lia. }
    exists (DomainEvent.OutputAppend item_id (zlen held) (OutputBytes.mk h) OutputChannel.Combined :: events).
    cbn [output_chunks]. unfold OutputBytes.is_empty at 1. simpl. rewrite bool_decide_eq_false_2 by done.
    rewrite Hs. unfold OutputBytes.len; simpl. rewrite <- zlen_app, He. split_and!; [done| |].
    + constructor; [|done]. exists (zlen held), (OutputBytes.mk h).
      rewrite utf8_valid_iff. unfold OutputBytes.len. simpl. auto.
    + rewrite Z.eqb_refl, Hr. by rewrite <- app_assoc.
Qed.

Section MapperProps.
Context {V : Type} `{SerdeJson V} `{Chrono}.
Notation SM := (SessionMapper.t V).

Definition max_bytes (m : SM) : Z := OutputMergePolicy.max_bytes (SessionMapper.merge_policy m).

(** The buffer of [key], what a client [held], and the output. *)
Definition synced (m : SM) (key : string) (held output : list byte) : Prop :=
  match SessionMapper.pending_outputs m !! key with
  | None => held = output
  | Some p => PendingOutput.expected_offset p = zlen held /\ output = held ++ PendingOutput.buffer p /\
              Utf8 (PendingOutput.buffer p)
  end.

(** Everything but the buffers is as it was, and so are the buffers of the other items. *)
Definition only_buffer (key : string) (m m' : SM) : Prop :=
  exists buffers, m' = SessionMapper.with_pending_outputs buffers m /\
    forall k, k <> key -> buffers !! k = SessionMapper.pending_outputs m !! k.

Lemma only_buffer_refl (key : string) (m : SM) : only_buffer key m m.
Proof. exists (SessionMapper.pending_outputs m). by destruct m. Qed.

Lemma only_buffer_trans (key : string) (m1 m2 m3 : SM) :
  only_buffer key m1 m2 -> only_buffer key m2 m3 -> only_buffer key m1 m3.
Proof.
  intros (b & -> & Hb) (b' & -> & Hb'). exists b'. split; [by destruct m1|].
  intros k Hk. rewrite (Hb' k Hk). simpl. auto.
Qed.

Lemma only_buffer_max (key : string) (m m' : SM) : only_buffer key m m' -> max_bytes m' = max_bytes m.
Proof. by intros (b & -> & _). Qed.

Lemma take_pending_output_spec (m : SM) (key : string) (held output : list byte) :
  4 <= max_bytes m -> synced m key held output ->
  exists m' events, take_pending_output m key = Some (m', events) /\ only_buffer key m m' /\
    Forall (good_append (key_to_item_id key) (max_bytes m)) events /\
    replay held events = Some output /\ SessionMapper.pending_outputs m' !! key = None.
Proof.
  intros Hmax Hs. unfold synced in Hs. unfold take_pending_output.
  destruct (SessionMapper.pending_outputs m !! key) as [p|] eqn:Hp.
  - destruct Hs as (Ho & -> & Hu).
    destruct (output_chunks_spec (length (PendingOutput.buffer p)) (max_bytes m) (key_to_item_id key)
                held (PendingOutput.buffer p) Hmax Hu ltac:(done)) as (events & He & Hg & Hr).
    rewrite Ho. unfold max_bytes in He. simpl. rewrite He. simpl. do 2 eexists. split; [done|].
    split_and!; [|done|done|by simpl; rewrite lookup_delete_eq].
    eexists. split; [done|]. intros k Hk. by rewrite lookup_delete_ne.
  - subst. exists m, []. split_and!; auto using only_buffer_refl.
Qed.

Lemma maybe_flush_full_spec (m : SM) (key : string) (held output : list byte) :
  4 <= max_bytes m -> synced m key held output ->
  exists m' events held', maybe_flush_full m key = Some (m', events) /\ only_buffer key m m' /\
    Forall (good_append (key_to_item_id key) (max_bytes m)) events /\
    replay held events = Some held' /\ synced m' key held' output.
Proof.
  intros Hmax Hs. unfold maybe_flush_full.
  match goal with |- context [if ?b then _ else _] => destruct b end.
  - destruct (take_pending_output_spec m key held output Hmax Hs) as (m' & es & -> & Ho & Hg & Hr & Hn).
    exists m', es, output. split_and!; auto. unfold synced. by rewrite Hn.
  - exists m, [], held. split_and!; auto using only_buffer_refl.
Qed.

Lemma bytes_strip_prefix_Some (p l d : list byte) : bytes_strip_prefix p l = Some d -> l = p ++ d.
Proof.
  revert l; induction p as [|a p IH]; intros l; simpl; [by intros [=]|].
  destruct l as [|b l]; [done|]. case_bool_decide; [|done]. subst. intros Hd. by rewrite (IH _ Hd).
Qed.

Lemma output_change_events_spec (now : Z) (m : SM) (key : string) (old_track new_track : ItemTrack.t)
    (held : list byte) :
  let old := ItemTrack.output old_track in
  let new := ItemTrack.output new_track in
  4 <= max_bytes m -> synced m key held old -> Utf8 old -> Utf8 new ->
  (length new = length old -> new = old) ->
  exists m' events held', output_change_events now m key old_track new_track = Some (m', events) /\
    only_buffer key m m' /\ replay held events = Some held' /\ synced m' key held' new.
Proof.
  intros old new Hmax Hs Hu Hu' Heq. unfold output_change_events. fold old new.
  case_bool_decide as Hlen.
  { exists m, [], held. rewrite (Heq Hlen). split_and!; auto using only_buffer_refl. }
  destruct (bytes_strip_prefix old new) as [d|] eqn:Hd.
  - apply bytes_strip_prefix_Some in Hd. rewrite Hd in *.
    set (entry := PendingOutput.mk _ _ _).
    set (m1 := SessionMapper.with_pending_outputs _ m).
    assert (Hs1 : synced m1 key held (old ++ d)).
    { unfold synced, m1, entry. simpl. rewrite lookup_insert_eq. simpl.
      pose proof (Utf8_app_inv_r old d Hu Hu') as Hud. unfold synced in Hs.
      destruct (SessionMapper.pending_outputs m !! key) as [p|]; simpl.
      - destruct Hs as (Ho & -> & Hup). split_and!; [done|by rewrite app_assoc|by apply Utf8_app].
      - subst held. done. }
    assert (Ho1 : only_buffer key m m1).
    { eexists. split; [done|]. intros k Hk. by rewrite lookup_insert_ne. }
    destruct (maybe_flush_full_spec m1 key held _ Hmax Hs1) as (m' & es & h & He & Ho & _ & Hr & Hs').
    exists m', es, h. split_and!; auto. by eapply only_buffer_trans.
  - do 3 eexists. split; [done|]. split_and!.
    + eexists. split; [done|]. intros k Hk. by rewrite lookup_delete_ne.
    + done.
    + unfold synced. simpl. by rewrite lookup_delete_eq.
Qed.

Definition is_terminal_change (old_track new_track : ItemTrack.t) : bool :=
  status_is_terminal (ItemTrack.status new_track) &&
  negb (status_is_terminal (ItemTrack.status old_track)) && negb (ItemTrack.final_emitted new_track).

(** C24. The output protocol: when an output item's new track follows an old one the client is in
    step with, and an output of the same length is the same output, the difference is always
    delivered or buffered without failing.  Replaying the events never meets a wrong offset, the
    client and the buffer together hold exactly the new output, other items' buffers are
    untouched, and when the command ends in this step the client holds all of it and is told so
    by exactly the last event. *)
Theorem output_delta_refines (now : Z) (m : SM) (key : string) (old_track new_track : ItemTrack.t)
    (held : list byte) :
  let old := ItemTrack.output old_track in
  let new := ItemTrack.output new_track in
  is_output_item (ItemTrack.native_type new_track) = true ->
  4 <= max_bytes m -> synced m key held old -> utf8_valid old = true -> utf8_valid new = true ->
  (length new = length old -> new = old) ->
  exists m' track events held',
    output_delta_events now m key old_track new_track = Some (m', track, events) /\
    only_buffer key m m' /\ replay held events = Some held' /\ synced m' key held' new /\
    ItemTrack.output track = new /\
    if is_terminal_change old_track new_track
    then held' = new /\ SessionMapper.pending_outputs m' !! key = None /\
         last events = Some (DomainEvent.OutputFinal (key_to_item_id key) 0 (zlen new)
                               OutputChannel.Combined (negb (ItemTrack.output_present new_track)))
    else track = new_track.
Proof.
  intros old new Hout Hmax Hs Hu Hu' Heq. rewrite utf8_valid_iff in Hu, Hu'.
  unfold output_delta_events. rewrite Hout. simpl. fold (is_terminal_change old_track new_track).
  destruct (output_change_events_spec now m key old_track new_track held Hmax Hs Hu Hu' Heq)
    as (m1 & es & h & -> & Ho & Hr & Hs1). simpl.
  destruct (is_terminal_change old_track new_track).
  - rewrite <- (only_buffer_max _ _ _ Ho) in Hmax.
    destruct (take_pending_output_spec m1 key h _ Hmax Hs1) as (m2 & es2 & -> & Ho2 & _ & Hr2 & Hn).
    simpl. do 4 eexists. split; [done|]. split_and!; try done.
    + by eapply only_buffer_trans.
    + rewrite replay_app, Hr. simpl. rewrite replay_app, Hr2. done.
    + unfold synced. by rewrite Hn.
    + by rewrite app_assoc, last_snoc.
  - do 4 eexists. split; [done|]. split_and!; done.
Qed.

(** ** No call fails *)

(** What keeps the [expect] of the flush loop from failing: every buffer and every tracked
    output is UTF-8 and the limit has room for a character. *)
Record buffers_valid (m : SM) : Prop := {
  bv_pending : map_Forall (fun _ p => 0 <= PendingOutput.expected_offset p /\ Utf8 (PendingOutput.buffer p))
                 (SessionMapper.pending_outputs m);
  bv_items : map_Forall (fun _ t => Utf8 (ItemTrack.output t)) (SessionMapper.items m);
  bv_max : 4 <= max_bytes m;
}.

(** The outputs of a tree are strings of the program, hence UTF-8. *)
Definition outputs_valid (state : V) : Prop :=
  Forall (fun '(_, it) => match command_output it with
                          | Some o => utf8_valid (String.list_byte_of_string o) = true
                          | None => True
                          end) (all_items state).

(** What goes out: appends are not empty, within the limit, in whole characters. *)
Definition event_ok (limit : Z) (event : DomainEvent.t) : Prop :=
  match event with
  | DomainEvent.OutputAppend _ _ bytes _ =>
      0 < OutputBytes.len bytes <= limit /\ utf8_valid (OutputBytes.bytes bytes) = true
  | DomainEvent.OutputReplace _ _ bytes _ => utf8_valid (OutputBytes.bytes bytes) = true
  | _ => True
  end.

(** Results of the mapper's calls: they return, in a valid state, with sound events. *)
Definition returns (m : SM) (r : option (SM * list DomainEvent.t)) : Prop :=
  exists m' events, r = Some (m', events) /\ buffers_valid m' /\ max_bytes m' = max_bytes m /\
    Forall (event_ok (max_bytes m)) events.

Lemma returns_nil (m : SM) : buffers_valid m -> returns m (Some (m, [])).
Proof. intros Hm. exists m, []. auto. Qed.

Lemma buffers_valid_with_pending (m : SM) (b : gmap string PendingOutput.t) :
  buffers_valid m ->
  map_Forall (fun _ p => 0 <= PendingOutput.expected_offset p /\ Utf8 (PendingOutput.buffer p)) b ->
  buffers_valid (SessionMapper.with_pending_outputs b m).
Proof. intros [? ? ?] Hb. by split. Qed.

Lemma good_append_ok (item_id : ItemId.t) (limit : Z) (events : list DomainEvent.t) :
  Forall (good_append item_id limit) events -> Forall (event_ok limit) events.
Proof. intros Hg. eapply Forall_impl; [exact Hg|]. by intros e (o & b & -> & ? & ?). Qed.

Lemma take_pending_output_returns (m : SM) (key : string) :
  buffers_valid m -> returns m (take_pending_output m key).
Proof.
  intros Hm. destruct (SessionMapper.pending_outputs m !! key) as [p|] eqn:Hp.
  - destruct (bv_pending m Hm key p Hp) as [Ho Hu].
    set (held := replicate (Z.to_nat (PendingOutput.expected_offset p)) x00).
    assert (synced m key held (held ++ PendingOutput.buffer p)) as Hs.
    { unfold synced. rewrite Hp. split_and!; [|done|done]. unfold held, zlen. rewrite length_replicate. lia. }
    destruct (take_pending_output_spec m key held _ (bv_max m Hm) Hs) as (m' & es & He & _ & Hg & _).
    rewrite He. exists m', es. split_and!; [done| | |by eapply good_append_ok];
      unfold take_pending_output in He; rewrite Hp in He;
      destruct (output_chunks _ _ _ _ _); simplify_eq/=; [|done].
    apply buffers_valid_with_pending; [done|]. apply map_Forall_delete, Hm.
  - unfold take_pending_output. rewrite Hp. by apply returns_nil.
Qed.

Lemma returns_app (m : SM) (r : option (SM * list DomainEvent.t))
    (k : SM -> option (SM * list DomainEvent.t)) :
  returns m r -> (forall m', buffers_valid m' -> returns m' (k m')) ->
  returns m (r ≫= fun x => k x.1 ≫= fun y => Some (y.1, x.2 ++ y.2)).
Proof.
  intros (m1 & es & -> & H1 & Hm1 & He) Hk. simpl.
  destruct (Hk m1 H1) as (m2 & es2 & -> & H2 & Hm2 & He2). simpl.
  exists m2, (es ++ es2). split_and!; [done|done|congruence|].
  apply Forall_app. rewrite <- Hm1 at 2. by split.
Qed.

Lemma take_pending_outputs_returns (keys : list string) (m : SM) :
  buffers_valid m -> returns m (take_pending_outputs m keys).
Proof.
  revert m. induction keys as [|k keys IH]; intros m Hm; [by apply returns_nil|].
  apply (returns_app m _ (fun m => take_pending_outputs m keys)); auto using take_pending_output_returns.
Qed.

Lemma output_change_events_returns (now : Z) (m : SM) (key : string) (old_track new_track : ItemTrack.t) :
  buffers_valid m -> Utf8 (ItemTrack.output old_track) -> Utf8 (ItemTrack.output new_track) ->
  returns m (output_change_events now m key old_track new_track).
Proof.
  intros Hm Hu Hu'. unfold output_change_events. case_bool_decide; [by apply returns_nil|].
  destruct (bytes_strip_prefix _ _) as [d|] eqn:Hd.
  - apply bytes_strip_prefix_Some in Hd. rewrite Hd in Hu'.
    match goal with |- returns _ (maybe_flush_full ?m1 _) => assert (Hm1 : buffers_valid m1); [|set (m2 := m1) in *] end.
    { apply buffers_valid_with_pending; [done|]. apply map_Forall_insert_2; [|apply Hm]. simpl.
      destruct (SessionMapper.pending_outputs m !! key) as [p|] eqn:Hp; simpl.
      - destruct (bv_pending m Hm key p Hp) as [Ho Hup]. split; [done|]. apply Utf8_app; [done|].
        by apply (Utf8_app_inv_r (ItemTrack.output old_track)).
      - split; [apply zlen_nonneg|]. by apply (Utf8_app_inv_r (ItemTrack.output old_track)). }
    change (returns m2 (maybe_flush_full m2 key)). unfold maybe_flush_full.
    match goal with |- context [if ?b then _ else _] => destruct b end;
      auto using take_pending_output_returns, returns_nil.
  - do 2 eexists. split; [done|]. split_and!; [|done|].
    + apply buffers_valid_with_pending; [done|]. apply map_Forall_delete, Hm.
    + constructor; [|done]. simpl. by rewrite utf8_valid_iff.
Qed.

Lemma buffers_valid_with_items (m : SM) (items : gmap string ItemTrack.t) :
  buffers_valid m -> map_Forall (fun _ t => Utf8 (ItemTrack.output t)) items ->
  buffers_valid (SessionMapper.with_items items m).
Proof. intros [? ? ?] Hb. by split. Qed.

Lemma upsert_event_ok (state : V) (key : string) (limit : Z) :
  Forall (event_ok limit) (upsert_event state key).
Proof. unfold upsert_event. case_match; repeat constructor. Qed.

Lemma apply_track_returns (clock : string -> Z) (first : bool) (state : V) (m : SM) (key : string)
    (track : ItemTrack.t) :
  buffers_valid m -> Utf8 (ItemTrack.output track) ->
  returns m (apply_track clock first state m key track).
Proof.
  intros Hm Hu. unfold apply_track.
  destruct (SessionMapper.items m !! key) as [old|] eqn:Hold.
  - pose proof (bv_items m Hm key old Hold) as Hu0. simpl in Hu0.
    unfold output_delta_events.
    destruct (is_output_item (ItemTrack.native_type track)); simpl.
    + destruct (output_change_events_returns (clock key) m key old track Hm Hu0 Hu)
        as (m1 & es & -> & H1 & Hm1 & He). simpl.
      match goal with |- context [if ?b then (take_pending_output _ _ ≫= _) else _] => destruct b end; simpl.
      * destruct (take_pending_output_returns m1 key H1) as (m2 & es2 & -> & H2 & Hm2 & He2). simpl.
        do 2 eexists. split; [done|]. split_and!; [|simpl; unfold max_bytes in *; simpl; congruence|].
        -- apply buffers_valid_with_items; [done|]. by apply map_Forall_insert_2; [|apply H2].
        -- rewrite !Forall_app. rewrite Hm1 in He2. split_and!; auto; [by repeat constructor|].
           case_match; [apply upsert_event_ok|constructor].
      * do 2 eexists. split; [done|]. split_and!; [|done|].
        -- apply buffers_valid_with_items; [done|]. by apply map_Forall_insert_2; [|apply H1].
        -- rewrite !Forall_app. split_and!; auto. case_match; [apply upsert_event_ok|constructor].
    + do 2 eexists. split; [done|]. split_and!; [|done|].
      * apply buffers_valid_with_items; [done|]. by apply map_Forall_insert_2; [|apply Hm].
      * case_match; [apply upsert_event_ok|constructor].
  - do 2 eexists. split; [done|]. split_and!; [|done|].
    + apply buffers_valid_with_items; [done|]. by apply map_Forall_insert_2; [|apply Hm].
    + repeat case_match; try done. constructor; [done|].
      unfold output_events_for_new_snapshot_item. repeat case_match; try done;
        repeat constructor; simpl; by rewrite utf8_valid_iff.
Qed.

Lemma apply_tracks_returns (clock : string -> Z) (first : bool) (state : V)
    (tracks : list (string * ItemTrack.t)) (m : SM) :
  buffers_valid m -> Forall (fun kt => Utf8 (ItemTrack.output kt.2)) tracks ->
  returns m (apply_tracks clock first state m tracks).
Proof.
  revert m. induction tracks as [|[key track] tracks IH]; intros m Hm Ht; [by apply returns_nil|].
  apply Forall_cons in Ht as [Hu Ht].
  apply (returns_app m _ (fun m => apply_tracks clock first state m tracks)); auto using apply_track_returns.
Qed.

Lemma new_tracks_valid (next_seq : Z) (state : V) :
  outputs_valid state -> map_Forall (fun _ t => Utf8 (ItemTrack.output t)) (new_tracks next_seq state).2.
Proof.
  unfold outputs_valid, new_tracks. generalize (all_items state). intros items.
  assert (He : map_Forall (fun _ t => Utf8 (ItemTrack.output t)) (next_seq, ∅ : gmap string ItemTrack.t).2)
    by apply map_Forall_empty.
  revert He. generalize (next_seq, ∅ : gmap string ItemTrack.t).
  induction items as [|[tid it] items IH]; intros acc Hacc Hi; simpl; [done|].
  apply Forall_cons in Hi as [Hit Hi]. apply IH; [|done]. destruct acc as [n tracks]. simpl in *.
  destruct (tracks !! _); [done|]. apply map_Forall_insert_2; [|done]. simpl.
  repeat case_match; simplify_eq/=; try constructor. by rewrite <- utf8_valid_iff.
Qed.

Lemma filter_items_valid (P : string * ItemTrack.t -> Prop) `{!forall x, Decision (P x)}
    (items : gmap string ItemTrack.t) :
  map_Forall (fun _ t => Utf8 (ItemTrack.output t)) items ->
  map_Forall (fun _ t => Utf8 (ItemTrack.output t)) (filter P items).
Proof. intros Hm k t Hk. apply map_lookup_filter_Some in Hk as [Hk _]. by eapply Hm. Qed.

Lemma update_turn_keeps (state : V) (m : SM) :
  buffers_valid m ->
  buffers_valid (update_turn state m).1 /\ max_bytes (update_turn state m).1 = max_bytes m /\
  Forall (event_ok (max_bytes m)) (update_turn state m).2.
Proof.
  intros [? ? ?]. unfold update_turn. simpl. split_and!; [by split|done|].
  case_match; repeat constructor.
Qed.

Lemma diff_attentions_keeps (state : V) (m : SM) :
  buffers_valid m ->
  buffers_valid (diff_attentions m state).1 /\ max_bytes (diff_attentions m state).1 = max_bytes m /\
  Forall (event_ok (max_bytes m)) (diff_attentions m state).2.
Proof.
  intros [? ? ?]. unfold diff_attentions. simpl. split_and!; [by split|done|].
  apply Forall_app. split.
  - apply Forall_forall. intros e ([id kind] & -> & _)%list_elem_of_fmap. done.
  - apply Forall_forall. unfold filter_map. intros e ([id kind] & _ & He)%list_elem_of_omap.
    case_match; [done|]. by destruct (find_attention state id kind); simplify_eq/=.
Qed.

Lemma update_summary_keeps (m : SM) :
  buffers_valid m ->
  buffers_valid (update_summary m).1 /\ max_bytes (update_summary m).1 = max_bytes m /\
  Forall (event_ok (max_bytes m)) (update_summary m).2.
Proof.
  intros [? ? ?]. unfold update_summary. case_bool_decide; simpl; split_and!; try done; try (by split).
  by repeat constructor.
Qed.

(** What a snapshot records besides the tracks. *)
Lemma apply_snapshot_returns (clock : string -> Z) (m : SM) (revision : Z) (state : V) :
  buffers_valid m -> outputs_valid state -> returns m (apply_snapshot clock m revision state).
Proof.
  intros Hm Hst. unfold apply_snapshot. cbv zeta.
  match goal with |- context [new_tracks ?n state] =>
    pose proof (new_tracks_valid n state Hst) as Hnew;
    destruct (new_tracks n state) as [next tracks]
  end. simpl in Hnew.
  match goal with |- context [apply_tracks clock ?f state ?m0 ?l] =>
    assert (buffers_valid m0) as H0m by (destruct Hm; by split);
    destruct (apply_tracks_returns clock f state l m0 H0m) as (m1 & es & Ht & H1 & Hm1 & He)
  end.
  { apply Forall_forall. intros [k t] Hk%bt_iter_elem. simpl. by eapply Hnew. }
  rewrite Ht. cbn [mbind option_bind]. cbv beta iota zeta. unfold max_bytes in Hm1, He; simpl in Hm1, He; fold (max_bytes m) in Hm1, He; fold (max_bytes m1) in Hm1.
  assert (H2 : buffers_valid (retain_tracks state m1)).
  { apply buffers_valid_with_items; [done|]. apply filter_items_valid, H1. }
  destruct (update_turn_keeps state _ H2) as (H3 & Hm3 & He3).
  destruct (update_turn state (retain_tracks state m1)) as [m3 es3]. simpl in H3, Hm3, He3.
  destruct (diff_attentions_keeps state m3 H3) as (H4 & Hm4 & He4).
  destruct (diff_attentions m3 state) as [m4 es4]. simpl in H4, Hm4, He4.
  destruct (update_summary_keeps m4 H4) as (H5 & Hm5 & He5).
  destruct (update_summary m4) as [m5 es5]. simpl in H5, Hm5, He5.
  change (max_bytes (retain_tracks state m1)) with (max_bytes m1) in *.
  assert (E3 : max_bytes m3 = max_bytes m) by congruence.
  assert (E4 : max_bytes m4 = max_bytes m) by congruence.
  assert (E5 : max_bytes m5 = max_bytes m) by congruence.
  rewrite Hm1 in He3. rewrite E3 in He4. rewrite E4 in He5.
  exists m5, (es ++ es3 ++ es4 ++ es5). rewrite !Forall_app. split_and!; auto.
Qed.

Lemma apply_tracks_keeps (clock : string -> Z) (first : bool) (state : V)
    (tracks : list (string * ItemTrack.t)) (m m' : SM) (events : list DomainEvent.t) :
  apply_tracks clock first state m tracks = Some (m', events) ->
  SessionMapper.revision m' = SessionMapper.revision m /\ SessionMapper.state m' = SessionMapper.state m.
Proof.
  revert m events. induction tracks as [|[key track] tracks IH]; intros m events; simpl; [by intros [= <- <-]|].
  destruct (apply_track clock first state m key track) as [[m1 es]|] eqn:H1; simpl; [|done].
  destruct (apply_tracks clock first state m1 tracks) as [[m2 es2]|] eqn:H2; simpl; [|done].
  intros [= <- <-]. destruct (IH _ _ H2) as [-> ->].
  unfold apply_track, output_delta_events, output_change_events, maybe_flush_full,
    take_pending_output in H1.
  repeat (case_match; simplify_option_eq; simplify_eq/=; try done).
Qed.

(** What a snapshot records. *)
Lemma apply_snapshot_records (clock : string -> Z) (m m' : SM) (revision : Z) (state : V)
    (events : list DomainEvent.t) :
  apply_snapshot clock m revision state = Some (m', events) ->
  SessionMapper.revision m' = Some revision /\ SessionMapper.state m' = Some state.
Proof.
  unfold apply_snapshot. destruct (new_tracks _ _) as [n tracks].
  destruct (apply_tracks _ _ _ _ _) as [[m1 es]|] eqn:Ht; cbn [mbind option_bind]; [|done].
  apply apply_tracks_keeps in Ht. unfold update_turn, diff_attentions, update_summary.
  case_bool_decide; intros [= <- <-]; exact Ht.
Qed.

Lemma find_attention_Some (state : V) (id : string) (kind : PendingAttentionKind.t) :
  attention_kinds state !! id = Some kind ->
  exists a, find_attention state id kind = Some a /\ PendingAttention.native_id a = id /\
            PendingAttention.kind a = kind.
Proof.
  unfold attention_kinds.
  assert (Hins : forall (A : Type) (f : A -> string) (k : PendingAttentionKind.t) (l : list A)
      (m0 : gmap string PendingAttentionKind.t),
    foldl (fun next q => <[f q := k]> next) m0 l !! id = Some kind ->
    (exists q, find (fun q => bool_decide (f q = id)) l = Some q /\ f q = id /\ kind = k) \/
    m0 !! id = Some kind).
  { intros A f k l. induction l as [|q l IH]; intros m0; simpl; [by right|].
    intros Hl. case_bool_decide as Hq.
    - left. exists q. split_and!; try done. destruct (IH _ Hl) as [(q' & _ & _ & ?)|Hi]; [done|].
      rewrite Hq, lookup_insert_eq in Hi. by simplify_eq.
    - destruct (IH _ Hl) as [?|Hi]; [by left|]. rewrite lookup_insert_ne in Hi by done. by right. }
  intros [(a & Hf & Hid & ->)|Hq]%Hins.
  - exists (PendingAttention.Approval a). simpl. by rewrite Hf.
  - apply Hins in Hq as [(q & Hf & Hid & ->)|Hq]; [|done].
    exists (PendingAttention.Question q). simpl. by rewrite Hf.
Qed.

Lemma new_buffers_valid (key : SessionKey.t) : buffers_valid (SessionMapper.new (V := V) key).
Proof. split; [apply map_Forall_empty|apply map_Forall_empty|]. unfold max_bytes. simpl. lia. Qed.

Lemma apply_patches_returns (clock : string -> Z) (m : SM) (base revision : Z) (patches : list V) :
  buffers_valid m ->
  (forall state, SessionMapper.state m = Some state -> outputs_valid (apply_immer_patches state patches).1) ->
  exists m' outcome, apply_patches clock m base revision patches = Some (m', outcome) /\ buffers_valid m' /\
    match outcome with
    | ResyncNeeded => m' = m
    | Applied events => Forall (event_ok (max_bytes m)) events
    end.
Proof.
  intros Hm Hst. unfold apply_patches. case_match; [by exists m, ResyncNeeded|].
  destruct (SessionMapper.state m) as [st|]; [|by exists m, ResyncNeeded].
  specialize (Hst st eq_refl). destruct (apply_immer_patches st patches) as [patched [[]|e]]; [|by exists m, ResyncNeeded].
  destruct (apply_snapshot_returns clock m revision patched Hm Hst) as (m' & es & -> & ? & _ & ?).
  simpl. by exists m', (Applied es).
Qed.

Lemma take_pending_outputs_state (keys : list string) (m m' : SM) (events : list DomainEvent.t) :
  take_pending_outputs m keys = Some (m', events) -> SessionMapper.state m' = SessionMapper.state m.
Proof.
  revert m m' events. induction keys as [|key keys IH]; intros m m' events; simpl; [by intros [= <- <-]|].
  destruct (take_pending_output m key) as [[m1 e1]|] eqn:T; simpl; [|done].
  destruct (take_pending_outputs m1 keys) as [[m2 e2]|] eqn:T2; simpl; [|done]. intros [= <- <-]. rewrite (IH _ _ _ T2).
  unfold take_pending_output in T. destruct (SessionMapper.pending_outputs m !! key); [|by injection T as <- _].
  cbv zeta in T. destruct (output_chunks _ _ _ _ _); [|done]. by injection T as <- _.
Qed.

(** No call panics: a new mapper is valid, and from a valid mapper every call returns a valid
    mapper again - a snapshot, a batch of patches (the outputs of the tree being UTF-8), a flush -
    and whatever it sends is sound: appends carry between one byte and the configured limit, and
    never cut a UTF-8 character. *)
Theorem mapper_never_panics (key : SessionKey.t) (m : SM) :
  buffers_valid (SessionMapper.new (V := V) key) /\
  (buffers_valid m ->
    (forall now, returns m (flush_due_outputs m now)) /\
    (forall clock revision state, outputs_valid state -> returns m (apply_snapshot clock m revision state)) /\
    (forall clock base revision patches,
       (forall state, SessionMapper.state m = Some state -> outputs_valid (apply_immer_patches state patches).1) ->
       exists m' outcome, apply_patches clock m base revision patches = Some (m', outcome) /\
         buffers_valid m' /\
         match outcome with
         | ResyncNeeded => m' = m
         | Applied events => Forall (event_ok (max_bytes m)) events
         end)).
Proof.
  split; [apply new_buffers_valid|]. intros Hm. split_and!.
  - intros now. by apply take_pending_outputs_returns.
  - intros clock revision state. by apply apply_snapshot_returns.
  - intros clock base revision patches. by apply apply_patches_returns.
Qed.

(** ** Patches, attentions, pages *)

(** The revision protocol.  Patches are applied exactly when they were made for the revision
    the mapper is at, lead to a newer one, and all of them succeed; the mapper is then at the new
    revision with the patched tree, having sent what a snapshot of that tree sends.  In every
    other case - a gap, a repeated or older revision, no snapshot yet, a failing patch - a
    resynchronisation is asked for and the whole mapper is as before, half-applied patches
    included. *)
Theorem apply_patches_spec (clock : string -> Z) (m m' : SM) (base revision : Z) (patches : list V)
    (outcome : PatchOutcome) :
  apply_patches clock m base revision patches = Some (m', outcome) ->
  match outcome with
  | ResyncNeeded =>
      m' = m /\
      (SessionMapper.revision m <> Some base \/ revision <= base \/ SessionMapper.state m = None \/
       exists state e, SessionMapper.state m = Some state /\ (apply_immer_patches state patches).2 = Err e)
  | Applied events =>
      SessionMapper.revision m = Some base /\ base < revision /\
      exists state patched, SessionMapper.state m = Some state /\
        apply_immer_patches state patches = (patched, Ok tt) /\
        apply_snapshot clock m revision patched = Some (m', events) /\
        SessionMapper.revision m' = Some revision /\ SessionMapper.state m' = Some patched
  end.
Proof.
  unfold apply_patches. case_bool_decide as Hr; simpl.
  2: { intros [= <- <-]. auto. }
  destruct (Z.leb_spec revision base); [intros [= <- <-]; auto|].
  destruct (SessionMapper.state m) as [st|] eqn:Hst; [|intros [= <- <-]; auto].
  destruct (apply_immer_patches st patches) as [patched [[]|e]] eqn:Hp.
  - destruct (apply_snapshot clock m revision patched) as [[m1 es]|] eqn:Hs; simpl; [|done].
    intros [= <- <-]. destruct (apply_snapshot_records _ _ _ _ _ _ Hs). eauto 10.
  - intros [= <- <-]. split; [done|]. do 3 right. exists st, e. by rewrite Hp.
Qed.

(** Attention events are exact: after a diff the mapper holds the attentions of the new tree;
    a removal is sent for exactly the ids that are gone, with the kind they had, and an addition
    for exactly the ids that are new, carrying the full attention of that id and kind.  Nothing
    is sent for an id that stays. *)
Theorem diff_attentions_spec (m : SM) (state : V) :
  let '(m', events) := diff_attentions m state in
  SessionMapper.attentions m' = attention_kinds state /\
  (forall kind id turn, DomainEvent.PendingAttentionRemoved kind id turn ∈ events <->
     turn = None /\ SessionMapper.attentions m !! id = Some kind /\ attention_kinds state !! id = None) /\
  (forall id, SessionMapper.attentions m !! id = None -> is_Some (attention_kinds state !! id) ->
     exists a, DomainEvent.PendingAttentionAdded a ∈ events /\ PendingAttention.native_id a = id) /\
  (forall a, DomainEvent.PendingAttentionAdded a ∈ events ->
     SessionMapper.attentions m !! PendingAttention.native_id a = None /\
     attention_kinds state !! PendingAttention.native_id a = Some (PendingAttention.kind a)).
Proof.
  unfold diff_attentions. split_and!; [done| | |].
  - intros kind id turn. rewrite elem_of_app. split.
    + intros [Hr | Ha].
      * apply list_elem_of_fmap in Hr as ([id' kind'] & ? & [Hn Hb]%list_elem_of_filter). simplify_eq.
        by rewrite bt_iter_elem in Hb.
      * apply list_elem_of_omap in Ha as ([id' kind'] & _ & Ha). case_match; [done|].
        by destruct (find_attention state id' kind').
    + intros (-> & Hm & Hn). left. apply list_elem_of_fmap. exists (id, kind). split; [done|].
      apply list_elem_of_filter. by rewrite bt_iter_elem.
  - intros id Hm [kind Hk]. destruct (find_attention_Some state id kind Hk) as (a & Ha & Hid & _).
    exists a. split; [|done]. apply elem_of_app. right. apply list_elem_of_omap. exists (id, kind).
    rewrite bt_iter_elem. split; [done|]. unfold bt_contains_key. by rewrite Hm, Ha.
  - intros a [Hr | Ha]%elem_of_app.
    + apply list_elem_of_fmap in Hr as ([id' kind'] & ? & _). done.
    + apply list_elem_of_omap in Ha as ([id kind] & Hb & Ha). rewrite bt_iter_elem in Hb.
      unfold bt_contains_key in Ha. destruct (SessionMapper.attentions m !! id) eqn:Hm; [done|].
      destruct (find_attention_Some state id kind Hb) as (a' & Hf & <- & <-).
      rewrite Hf in Ha. by simplify_eq/=.
Qed.

(** Output pages are slices: a page holds the bytes of the tracked output from the offset on,
    at most [limit] of them and none beyond the end, with the total length; a page and the page
    that follows it join to the page of both sizes, so paging reads the output exactly once. *)
Theorem output_page_spec (m : SM) (item_id : ItemId.t) (offset limit limit2 : Z)
    (page : list byte) (total : Z) (final : bool) :
  0 <= offset -> 0 <= limit -> 0 <= limit2 -> offset + limit + limit2 <= u64_max ->
  output_page m item_id offset limit = Some (page, total, final) ->
  exists track, SessionMapper.items m !! ItemId.id item_id = Some track /\
    total = zlen (ItemTrack.output track) /\
    page = take (Z.to_nat limit) (drop (Z.to_nat offset) (ItemTrack.output track)) /\
    zlen page = Z.max 0 (Z.min limit (total - offset)) /\
    exists page2, output_page m item_id (offset + limit) limit2 = Some (page2, total, final) /\
      output_page m item_id offset (limit + limit2) = Some (page ++ page2, total, final).
Proof.
  intros Ho Hl Hl2 Hmax. unfold output_page, track_key.
  destruct (SessionMapper.items m !! ItemId.id item_id) as [track|]; [|done]. simpl.
  destruct (negb _ || negb _); [done|]. intros [= <- <- <-]. exists track.
  set (out := ItemTrack.output track) in *.
  assert (Hpage : forall o l, 0 <= o -> 0 <= l -> o + l <= u64_max ->
    take (Z.to_nat (Z.min (Z.min u64_max (Z.min o (zlen out) + l)) (zlen out) - Z.min o (zlen out)))
      (drop (Z.to_nat (Z.min o (zlen out))) out) = take (Z.to_nat l) (drop (Z.to_nat o) out)).
  { intros o l H1 H2 H3. unfold zlen.
    destruct (Z.le_gt_cases (Z.of_nat (length out)) o) as [Hle|Hgt].
    - rewrite !drop_ge by lia. by rewrite !take_nil.
    - rewrite (Z.min_l o) by lia. destruct (Z.le_gt_cases (o + l) (Z.of_nat (length out))).
      + f_equal. lia.
      + rewrite !take_ge; [done|rewrite length_drop; lia..]. }
  rewrite (Hpage offset limit) by lia. split_and!; [done..| |].
  - unfold zlen. rewrite length_take, length_drop. lia.
  - eexists. split; [done|]. rewrite (Hpage (offset + limit) limit2), (Hpage offset (limit + limit2)) by lia.
    do 2 f_equal. f_equal. rewrite Z2Nat.inj_add, Z2Nat.inj_add by lia.
    rewrite <- take_take_drop. f_equal. rewrite drop_drop. by do 2 f_equal; try lia.
Qed.

End MapperProps.

(** ** Concrete inputs *)
Module MapperDemo.
Import Demo.

#[global] Instance chrono : Chrono := {| timestamp_millis := fun ms => Some ms |}.

Definition clock (key : string) : Z := 1000.

(** A thread with one turn and one command with that output and status. *)
Definition command (id output status : string) : json :=
  obj [("id", Str id); ("type", Str "commandExecution"); ("status", Str status);
       ("aggregatedOutput", Str output)].

Definition thread (items : list json) : json :=
  obj [("turns", Arr [obj [("turnId", Str "t1"); ("status", Str "inProgress"); ("items", Arr items)]])].

Definition start : SessionMapper.t json := SessionMapper.new (SessionKey.codex "dev" "s1").

(** The mapper and the events after a list of snapshots, the revisions being 1, 2, ... *)
Fixpoint run (m : SessionMapper.t json) (revision : Z) (states : list json)
    : option (SessionMapper.t json * list DomainEvent.t) :=
  match states with
  | [] => Some (m, [])
  | state :: states =>
      r ← apply_snapshot clock m revision state;
      r' ← run r.1 (revision + 1) states;
      Some (r'.1, r.2 ++ r'.2)
  end.

Definition after (states : list json) : SessionMapper.t json :=
  match run start 1 states with Some (m, _) => m | None => start end.

Definition track (output status : string) : ItemTrack.t :=
  ItemTrack.mk 0 "commandExecution" (Some status) 0 (String.list_byte_of_string output) true false.

(** What a client holds for the item [id] after the events. *)
Definition of_item (id : string) (e : DomainEvent.t) : bool :=
  match e with
  | DomainEvent.OutputAppend i _ _ _ => bool_decide (i = ItemId.native id)
  | DomainEvent.OutputReplace i _ _ _ => bool_decide (i = ItemId.native id)
  | _ => false
  end.
End MapperDemo.

Lemma output_delta_refines_witness :
  let m := MapperDemo.after [MapperDemo.thread [MapperDemo.command "c1" "ab" "inProgress"]] in
  let old := MapperDemo.track "ab" "inProgress" in
  let new := MapperDemo.track "abcd" "completed" in
  exists m' track events held',
    output_delta_events 1000 m "c1" old new = Some (m', track, events) /\
    only_buffer "c1" m m' /\ replay (ItemTrack.output old) events = Some held' /\
    synced m' "c1" held' (ItemTrack.output new) /\
    ItemTrack.output track = ItemTrack.output new /\
    if is_terminal_change old new
    then held' = ItemTrack.output new /\ SessionMapper.pending_outputs m' !! "c1" = None /\
         last events = Some (DomainEvent.OutputFinal (key_to_item_id "c1") 0 (zlen (ItemTrack.output new))
                               OutputChannel.Combined (negb (ItemTrack.output_present new)))
    else track = new.
Proof.
  intros m old new.
  apply (output_delta_refines 1000 m "c1" old new (ItemTrack.output old));
    [reflexivity|vm_compute; discriminate|vm_compute; reflexivity|reflexivity|reflexivity|discriminate].
Defined.

Lemma apply_patches_spec_witness :
  let m := MapperDemo.after [MapperDemo.thread []] in
  exists m' outcome, apply_patches MapperDemo.clock m 1 2 [ProjectionDemo.a_title_patch] = Some (m', outcome) /\
  match outcome with
  | ResyncNeeded =>
      m' = m /\
      (SessionMapper.revision m <> Some 1 \/ 2 <= 1 \/ SessionMapper.state m = None \/
       exists state e, SessionMapper.state m = Some state /\
         (apply_immer_patches state [ProjectionDemo.a_title_patch]).2 = Err e)
  | Applied events =>
      SessionMapper.revision m = Some 1 /\ 1 < 2 /\
      exists state patched, SessionMapper.state m = Some state /\
        apply_immer_patches state [ProjectionDemo.a_title_patch] = (patched, Ok tt) /\
        apply_snapshot MapperDemo.clock m 2 patched = Some (m', events) /\
        SessionMapper.revision m' = Some 2 /\ SessionMapper.state m' = Some patched
  end.
Proof.
  intros m.
  destruct (apply_patches MapperDemo.clock m 1 2 [ProjectionDemo.a_title_patch]) as [[m' outcome]|] eqn:Ha.
  - exists m', outcome. split; [reflexivity|].
    exact (apply_patches_spec MapperDemo.clock m m' 1 2 [ProjectionDemo.a_title_patch] outcome Ha).
  - exfalso. vm_compute in Ha. discriminate.
Defined.

Lemma output_page_spec_witness :
  let m := MapperDemo.after [MapperDemo.thread [MapperDemo.command "c1" "abcdef" "completed"]] in
  let page := String.list_byte_of_string "bcd" in
  exists track, SessionMapper.items m !! "c1" = Some track /\
    6 = zlen (ItemTrack.output track) /\
    page = take (Z.to_nat 3) (drop (Z.to_nat 1) (ItemTrack.output track)) /\
    zlen page = Z.max 0 (Z.min 3 (6 - 1)) /\
    exists page2, output_page m (ItemId.native "c1") (1 + 3) 2 = Some (page2, 6, true) /\
      output_page m (ItemId.native "c1") 1 (3 + 2) = Some (page ++ page2, 6, true).
Proof.
  intros m page.
  apply (output_page_spec m (ItemId.native "c1") 1 3 2 page 6 true);
    [lia|lia|lia|unfold u64_max; lia|vm_compute; reflexivity].
Defined.

(** The buffer of an item that disappears is not dropped: when the item comes back with another
    output, the client gets the new output and then, from the flush, bytes of the old one. *)
Lemma stale_buffer_after_removal :
  exists m events m' flushed held,
    MapperDemo.run MapperDemo.start 1
      [MapperDemo.thread [MapperDemo.command "c1" "ab" "inProgress"];
       MapperDemo.thread [MapperDemo.command "c1" "abcd" "inProgress"];
       MapperDemo.thread [];
       MapperDemo.thread [MapperDemo.command "c1" "xy" "inProgress"]] = Some (m, events) /\
    flush_due_outputs m 2000 = Some (m', flushed) /\
    replay (String.list_byte_of_string "ab") (filter (fun e => MapperDemo.of_item "c1" e = true) (events ++ flushed))
      = Some held /\
    held = String.list_byte_of_string "xycd" /\
    ItemTrack.output <$> SessionMapper.items m' !! "c1" = Some (String.list_byte_of_string "xy").
Proof. do 5 eexists. split_and!; vm_compute; reflexivity. Qed.

(** An output replaced by another of the same length is not sent at all. *)
Lemma same_length_rewrite_not_sent :
  exists m events m' flushed,
    MapperDemo.run (MapperDemo.after [MapperDemo.thread [MapperDemo.command "c1" "ab" "inProgress"]]) 2
      [MapperDemo.thread [MapperDemo.command "c1" "xy" "inProgress"]] = Some (m, events) /\
    flush_due_outputs m 2000 = Some (m', flushed) /\
    filter (fun e => MapperDemo.of_item "c1" e = true) (events ++ flushed) = [] /\
    ItemTrack.output <$> SessionMapper.items m' !! "c1" = Some (String.list_byte_of_string "xy").
Proof. do 4 eexists. split_and!; vm_compute; reflexivity. Qed.

(** The plan of a snapshot is the first of the thread, not the last. *)
Lemma latest_plan_is_first :
  let plan id title := Demo.obj [("id", Demo.Str id); ("type", Demo.Str "plan");
                         ("steps", Demo.Arr [Demo.obj [("title", Demo.Str title)]])] in
  map PlanStep.title (Plan.steps (latest_plan (MapperDemo.thread [plan "p1" "old"; plan "p2" "new"])))
  = [OutputText.mk "old"].
Proof. vm_compute. reflexivity. Qed.
