(* ===== verification/LocalStore.v ===== *)
(** * The Bridge's local store ([local_store/])

    The tables of [migrations/0001_init.sql] as finite maps on their primary keys, and one
    function per query method.  SQLite is not part of the repository: a call takes the [fault]
    the database reports for its statements ([None]: none).  A statement is atomic and a
    transaction that does not commit leaves nothing, so a failing call changes no table.  The
    methods that run a transaction with a read and a write take the fault of each part.  The
    clock reading of [now_rfc3339] is an argument. *)

From S2P Require Import Prelude RustStr Domain.

Module SessionKeyRef.
Record t := mk {
  device_id : string;
  agent_kind : Z;
  native_session_id : string;
}.
#[global] Instance eq_dec : EqDecision t.
Proof. solve_decision. Defined.
#[global] Instance countable : Countable t.
Proof.
  refine (inj_countable' (fun x => (device_id x, agent_kind x, native_session_id x))
            (fun '(d, a, n) => mk d a n) _).
  by intros [].
Defined.
End SessionKeyRef.

Module BindingStatus.
Inductive t := Unbound | Pairing | Paired.

Definition as_str (s : t) : string :=
  match s with
  | Unbound => "UNBOUND"
  | Pairing => "PAIRING"
  | Paired => "PAIRED"
  end.

Definition parse (s : string) : t :=
  if bool_decide (s = "PAIRING") then Pairing
  else if bool_decide (s = "PAIRED") then Paired
  else Unbound.
End BindingStatus.

Module Binding.
Record t := mk {
  relay_url : string;
  device_id : string;
  status : string;  (* the column; [get_binding] parses it *)
}.
End Binding.

Module AuthorizedWorkspace.
Record t := mk {
  root_path : string;
  display_name : string;
  authorized_at : string;
}.
End AuthorizedWorkspace.

Module RequestReceipt.
Record t := mk {
  request_id : string;
  session : SessionKeyRef.t;
  operation : string;
  status : string;
  payload_digest : string;
  created_at : string;
  updated_at : string;
}.
End RequestReceipt.

Inductive ReceiptUpsertOutcome := Inserted | Existing.

(** The store's queue status, distinct from the domain's. *)
Module StoreQueueStatus.
Inductive t := Queued | Paused | Empty.
#[global] Instance eq_dec : EqDecision t.
Proof. solve_decision. Defined.

Definition as_str (s : t) : string :=
  match s with
  | Queued => "QUEUED"
  | Paused => "PAUSED"
  | Empty => "EMPTY"
  end.

Definition parse (s : string) : t :=
  if bool_decide (s = "PAUSED") then Paused
  else if bool_decide (s = "EMPTY") then Empty
  else Queued.
End StoreQueueStatus.

(** A row of [next_turn_queue]; its status column always holds one of the three texts (the
    table's CHECK), so the parsed value stands for it. *)
Module NextTurnEntry.
Record t := mk {
  session : SessionKeyRef.t;
  prompt : string;
  after_turn_id : string;
  runtime_revision : Z;
  status : StoreQueueStatus.t;
  created_at : string;
  updated_at : string;
}.
End NextTurnEntry.

Module CapabilityCacheEntry.
Record t := mk {
  probe_json : string;
  schema_version : Z;
  updated_at : string;
}.
End CapabilityCacheEntry.

Module UploadCleanup.
Record t := mk {
  id : Z;
  directory : string;
  reason : string;
  cleaned_at : string;
}.
End UploadCleanup.

(** [StoreError]; of an [sqlx::Error] only its text is ever used. *)
Module StoreError.
Inductive t :=
| Sqlx (text : string)
| Io (text : string)
| Migration (text : string)
| DuplicateRequestMismatch (request_id : string)
| QueueAlreadyExists.

Definition display (e : t) : string :=
  match e with
  | Sqlx s => "sqlite: " +:+ s
  | Io s => "io: " +:+ s
  | Migration s => "migration: " +:+ s
  | DuplicateRequestMismatch r => "duplicate request mismatch: " +:+ r
  | QueueAlreadyExists => "queue already exists for session"
  end.
End StoreError.

Module Db.
Record t := mk {
  binding : Binding.t;
  authorized_workspaces : list AuthorizedWorkspace.t;
  request_receipts : gmap string RequestReceipt.t;
  next_turn_queue : gmap SessionKeyRef.t NextTurnEntry.t;
  capability_cache : option CapabilityCacheEntry.t;
  cursors : gmap string string;
  privacy_settings : gmap string Z;
  upload_cleanup_log : list UploadCleanup.t;
  upload_cleanup_seq : Z;
}.

Definition with_binding (x : Binding.t) (m : t) : t :=
  mk x (authorized_workspaces m) (request_receipts m) (next_turn_queue m) (capability_cache m)
    (cursors m) (privacy_settings m) (upload_cleanup_log m) (upload_cleanup_seq m).
Definition with_authorized_workspaces (x : list AuthorizedWorkspace.t) (m : t) : t :=
  mk (binding m) x (request_receipts m) (next_turn_queue m) (capability_cache m) (cursors m)
    (privacy_settings m) (upload_cleanup_log m) (upload_cleanup_seq m).
Definition with_request_receipts (x : gmap string RequestReceipt.t) (m : t) : t :=
  mk (binding m) (authorized_workspaces m) x (next_turn_queue m) (capability_cache m) (cursors m)
    (privacy_settings m) (upload_cleanup_log m) (upload_cleanup_seq m).
Definition with_next_turn_queue (x : gmap SessionKeyRef.t NextTurnEntry.t) (m : t) : t :=
  mk (binding m) (authorized_workspaces m) (request_receipts m) x (capability_cache m) (cursors m)
    (privacy_settings m) (upload_cleanup_log m) (upload_cleanup_seq m).
Definition with_capability_cache (x : option CapabilityCacheEntry.t) (m : t) : t :=
  mk (binding m) (authorized_workspaces m) (request_receipts m) (next_turn_queue m) x (cursors m)
    (privacy_settings m) (upload_cleanup_log m) (upload_cleanup_seq m).
Definition with_cursors (x : gmap string string) (m : t) : t :=
  mk (binding m) (authorized_workspaces m) (request_receipts m) (next_turn_queue m)
    (capability_cache m) x (privacy_settings m) (upload_cleanup_log m) (upload_cleanup_seq m).
Definition with_privacy_settings (x : gmap string Z) (m : t) : t :=
  mk (binding m) (authorized_workspaces m) (request_receipts m) (next_turn_queue m)
    (capability_cache m) (cursors m) x (upload_cleanup_log m) (upload_cleanup_seq m).
Definition with_upload_cleanup_log (x : list UploadCleanup.t) (m : t) : t :=
  mk (binding m) (authorized_workspaces m) (request_receipts m) (next_turn_queue m)
    (capability_cache m) (cursors m) (privacy_settings m) x (upload_cleanup_seq m).
Definition with_upload_cleanup_seq (x : Z) (m : t) : t :=
  mk (binding m) (authorized_workspaces m) (request_receipts m) (next_turn_queue m)
    (capability_cache m) (cursors m) (privacy_settings m) (upload_cleanup_log m) x.

(** After the migration. *)
Definition initial : t := mk (Binding.mk "" "" "UNBOUND") [] ∅ ∅ None ∅ ∅ [] 0.
End Db.

Notation Fault := (option string).
Notation "'store!' A" := (res StoreError.t A * Db.t)%type (at level 10, A at next level) : rust_scope.

(** A call whose statements fail: nothing changes. *)
Definition sqlx {A} (fault : Fault) (db : Db.t) (k : store! A) : store! A :=
  match fault with
  | Some text => (Err (StoreError.Sqlx text), db)
  | None => k
  end.

Definition get_binding (fault : Fault) (db : Db.t) : store! (string * string * BindingStatus.t) :=
  sqlx fault db
    (Ok (Binding.relay_url (Db.binding db), Binding.device_id (Db.binding db),
         BindingStatus.parse (Binding.status (Db.binding db))), db).

Definition set_binding (fault : Fault) (db : Db.t) (relay_url device_id : string)
    (status : BindingStatus.t) : store! unit :=
  sqlx fault db
    (Ok tt, Db.with_binding (Binding.mk relay_url device_id (BindingStatus.as_str status)) db).

(** The relay's address stays. *)
Definition clear_binding (fault : Fault) (db : Db.t) : store! unit :=
  sqlx fault db
    (Ok tt, Db.with_binding (Binding.mk (Binding.relay_url (Db.binding db)) "" "UNBOUND") db).

(** [INSERT ... ON CONFLICT(root_path) DO UPDATE]. *)
Definition authorize_workspace (fault : Fault) (now : string) (db : Db.t) (root display_name : string)
    : store! unit :=
  let row := AuthorizedWorkspace.mk root display_name now in
  let rows := Db.authorized_workspaces db in
  sqlx fault db
    (Ok tt,
     Db.with_authorized_workspaces
       (if existsb (fun r => bool_decide (AuthorizedWorkspace.root_path r = root)) rows
        then map (fun r => if bool_decide (AuthorizedWorkspace.root_path r = root) then row else r) rows
        else rows ++ [row]) db).

#[global] Instance workspace_le_dec :
  RelDecision (fun a b => String.le (AuthorizedWorkspace.authorized_at a) (AuthorizedWorkspace.authorized_at b)).
Proof. intros a b. apply _. Defined.

Definition list_workspaces (fault : Fault) (db : Db.t) : store! (list AuthorizedWorkspace.t) :=
  sqlx fault db
    (Ok (merge_sort (fun a b => String.le (AuthorizedWorkspace.authorized_at a) (AuthorizedWorkspace.authorized_at b))
           (Db.authorized_workspaces db)), db).

Definition revoke_workspace (fault : Fault) (db : Db.t) (root : string) : store! bool :=
  let rows := Db.authorized_workspaces db in
  sqlx fault db
    (Ok (existsb (fun r => bool_decide (AuthorizedWorkspace.root_path r = root)) rows),
     Db.with_authorized_workspaces
       (filter (fun r => AuthorizedWorkspace.root_path r <> root) rows) db).

(** ** Receipts *)

Definition record_receipt (read write : Fault) (db : Db.t) (receipt : RequestReceipt.t)
    : store! ReceiptUpsertOutcome :=
  let id := RequestReceipt.request_id receipt in
  sqlx read db
    match Db.request_receipts db !! id with
    | Some existing =>
        if bool_decide (RequestReceipt.payload_digest existing = RequestReceipt.payload_digest receipt)
        then (Ok Existing, db)
        else (Err (StoreError.DuplicateRequestMismatch id), db)
    | None =>
        sqlx write db
          (Ok Inserted, Db.with_request_receipts (<[id := receipt]> (Db.request_receipts db)) db)
    end.

Definition update_receipt_status (fault : Fault) (now : string) (db : Db.t) (request_id status : string)
    : store! bool :=
  sqlx fault db
    match Db.request_receipts db !! request_id with
    | Some r =>
        let r := RequestReceipt.mk (RequestReceipt.request_id r) (RequestReceipt.session r)
                   (RequestReceipt.operation r) status (RequestReceipt.payload_digest r)
                   (RequestReceipt.created_at r) now in
        (Ok true, Db.with_request_receipts (<[request_id := r]> (Db.request_receipts db)) db)
    | None => (Ok false, db)
    end.

(** The column [updated_at] is not read: the field repeats [created_at]. *)
Definition get_receipt (fault : Fault) (db : Db.t) (request_id : string) : store! (option RequestReceipt.t) :=
  sqlx fault db
    (Ok ((fun r => RequestReceipt.mk (RequestReceipt.request_id r) (RequestReceipt.session r)
                     (RequestReceipt.operation r) (RequestReceipt.status r)
                     (RequestReceipt.payload_digest r) (RequestReceipt.created_at r)
                     (RequestReceipt.created_at r))
           <$> Db.request_receipts db !! request_id), db).

(** ** The queue *)

Definition set_next_turn (read write : Fault) (now : string) (db : Db.t) (entry : NextTurnEntry.t)
    (replace : bool) : store! unit :=
  let session := NextTurnEntry.session entry in
  sqlx read db
    match Db.next_turn_queue db !! session with
    | Some existing =>
        if negb replace then (Err StoreError.QueueAlreadyExists, db)
        else
          let row := NextTurnEntry.mk session (NextTurnEntry.prompt entry)
                       (NextTurnEntry.after_turn_id entry) (NextTurnEntry.runtime_revision entry)
                       (NextTurnEntry.status entry) (NextTurnEntry.created_at existing) now in
          sqlx write db
            (Ok tt, Db.with_next_turn_queue (<[session := row]> (Db.next_turn_queue db)) db)
    | None =>
        sqlx write db
          (Ok tt, Db.with_next_turn_queue (<[session := entry]> (Db.next_turn_queue db)) db)
    end.

Definition get_next_turn (fault : Fault) (db : Db.t) (session : SessionKeyRef.t)
    : store! (option NextTurnEntry.t) :=
  sqlx fault db
    (Ok ((fun e => NextTurnEntry.mk session (NextTurnEntry.prompt e) (NextTurnEntry.after_turn_id e)
                     (NextTurnEntry.runtime_revision e)
                     (StoreQueueStatus.parse (StoreQueueStatus.as_str (NextTurnEntry.status e)))
                     (NextTurnEntry.created_at e) (NextTurnEntry.created_at e))
           <$> Db.next_turn_queue db !! session), db).

Definition clear_next_turn (fault : Fault) (db : Db.t) (session : SessionKeyRef.t) : store! bool :=
  sqlx fault db
    (Ok (match Db.next_turn_queue db !! session with Some _ => true | None => false end),
     Db.with_next_turn_queue (delete session (Db.next_turn_queue db)) db).

(** ** Capability cache, cursors, privacy, cleanups *)

Definition put_capability (fault : Fault) (now : string) (db : Db.t) (probe_json : string)
    (schema_version : Z) : store! unit :=
  sqlx fault db
    (Ok tt, Db.with_capability_cache (Some (CapabilityCacheEntry.mk probe_json schema_version now)) db).

Definition get_capability (fault : Fault) (db : Db.t) : store! (option CapabilityCacheEntry.t) :=
  sqlx fault db (Ok (Db.capability_cache db), db).

Definition put_cursor (fault : Fault) (db : Db.t) (key value : string) : store! unit :=
  sqlx fault db (Ok tt, Db.with_cursors (<[key := value]> (Db.cursors db)) db).

Definition get_cursor (fault : Fault) (db : Db.t) (key : string) : store! (option string) :=
  sqlx fault db (Ok (Db.cursors db !! key), db).

Definition set_privacy (fault : Fault) (db : Db.t) (key : string) (enabled : bool) : store! unit :=
  sqlx fault db
    (Ok tt, Db.with_privacy_settings (<[key := if enabled then 1 else 0]> (Db.privacy_settings db)) db).

Definition get_privacy (fault : Fault) (db : Db.t) (key : string) : store! (option bool) :=
  sqlx fault db (Ok ((fun v => negb (v =? 0)) <$> Db.privacy_settings db !! key), db).

(** [id] is AUTOINCREMENT. *)
Definition record_upload_cleanup (fault : Fault) (now : string) (db : Db.t) (directory reason : string)
    : store! unit :=
  let id := Db.upload_cleanup_seq db + 1 in
  sqlx fault db
    (Ok tt,
     Db.with_upload_cleanup_seq id
       (Db.with_upload_cleanup_log
          (Db.upload_cleanup_log db ++ [UploadCleanup.mk id directory reason now]) db)).

Definition list_upload_cleanups (fault : Fault) (db : Db.t) : store! (list UploadCleanup.t) :=
  sqlx fault db
    (Ok (sort_by_key UploadCleanup.id (Db.upload_cleanup_log db)), db).

