(* ===== verification/StoreProps.v ===== *)
(** * Properties of the local store

    A call of the store as data ([Call]) and any sequence of calls, each with its own faults: what
    the tables promise to the gateway and the queue. *)

From S2P Require Import Prelude RustStr Domain LocalStore.

Module StoreCall.
Inductive t :=
| SetBinding (relay_url device_id : string) (status : BindingStatus.t)
| ClearBinding
| AuthorizeWorkspace (root display_name : string)
| RevokeWorkspace (root : string)
| Record_ (receipt : RequestReceipt.t)
| UpdateStatus (request_id status : string)
| SetNext (entry : NextTurnEntry.t) (replace : bool)
| ClearNext (session : SessionKeyRef.t)
| PutCapability (probe_json : string) (schema_version : Z)
| PutCursor_ (key value : string)
| SetPrivacy (key : string) (enabled : bool)
| RecordCleanup (directory reason : string).

(** The database after a call. *)
Definition apply (read write : Fault) (now : string) (db : Db.t) (c : t) : Db.t :=
  match c with
  | SetBinding u d s => (set_binding write db u d s).2
  | ClearBinding => (clear_binding write db).2
  | AuthorizeWorkspace r d => (authorize_workspace write now db r d).2
  | RevokeWorkspace r => (revoke_workspace write db r).2
  | Record_ r => (record_receipt read write db r).2
  | UpdateStatus i s => (update_receipt_status write now db i s).2
  | SetNext e r => (set_next_turn read write now db e r).2
  | ClearNext s => (clear_next_turn write db s).2
  | PutCapability p v => (put_capability write now db p v).2
  | PutCursor_ k v => (put_cursor write db k v).2
  | SetPrivacy k e => (set_privacy write db k e).2
  | RecordCleanup d r => (record_upload_cleanup write now db d r).2
  end.
End StoreCall.

(** A history: calls with the faults and the clock reading each met. *)
Definition history : Type := list (Fault * Fault * string * StoreCall.t).

Definition replay_calls (db : Db.t) (calls : history) : Db.t :=
  foldl (fun db '(rf, wf, now, c) => StoreCall.apply rf wf now db c) db calls.

(** A row keeps its identity: the request, its session, operation, digest and creation. *)
Definition same_identity (a b : RequestReceipt.t) : Prop :=
  RequestReceipt.request_id a = RequestReceipt.request_id b /\
  RequestReceipt.session a = RequestReceipt.session b /\
  RequestReceipt.operation a = RequestReceipt.operation b /\
  RequestReceipt.payload_digest a = RequestReceipt.payload_digest b /\
  RequestReceipt.created_at a = RequestReceipt.created_at b.

#[global] Instance same_identity_preorder : PreOrder same_identity.
Proof. split; [by intros a|]. unfold same_identity. intros a b c. intuition congruence. Qed.

Lemma sqlx_snd {A} (P : Db.t -> Prop) (fault : Fault) (db : Db.t) (k : store! A) :
  P db -> P k.2 -> P (sqlx fault db k).2.
Proof. by destruct fault. Qed.

Lemma apply_keeps_receipt (rf wf : Fault) (now : string) (db : Db.t) (c : StoreCall.t) (id : string)
    (row : RequestReceipt.t) :
  Db.request_receipts db !! id = Some row ->
  exists row', Db.request_receipts (StoreCall.apply rf wf now db c) !! id = Some row' /\ same_identity row row'.
Proof.
  intros Hrow.
  assert (Hsame : exists row', Db.request_receipts db !! id = Some row' /\ same_identity row row') by (exists row; split; [done|reflexivity]).
  destruct c; simpl;
    unfold set_binding, clear_binding, authorize_workspace, revoke_workspace, set_next_turn, clear_next_turn,
      put_capability, put_cursor, set_privacy, record_upload_cleanup, record_receipt, update_receipt_status;
    repeat (apply sqlx_snd || case_match); simpl; try exact Hsame; try done.
  - rewrite lookup_insert_ne; [exact Hsame|congruence].
  - destruct (decide (request_id = id)) as [->|]; [|by rewrite lookup_insert_ne].
    rewrite lookup_insert_eq. eexists. split; [done|]. simplify_eq. done.
Qed.

Lemma replay_keeps_receipt (calls : history) (db : Db.t) (id : string) (row : RequestReceipt.t) :
  Db.request_receipts db !! id = Some row ->
  exists row', Db.request_receipts (replay_calls db calls) !! id = Some row' /\ same_identity row row'.
Proof.
  revert db row. induction calls as [|[[[rf wf] now] c] calls IH]; intros db row Hrow; simpl.
  - exists row. split; [done|reflexivity].
  - destruct (apply_keeps_receipt rf wf now db c id row Hrow) as (row1 & Hrow1 & H1).
    destruct (IH _ _ Hrow1) as (row2 & Hrow2 & H2). exists row2. split; [done|]. by etransitivity.
Qed.

(** Idempotency is for ever.  Once a request's receipt is stored, after any sequence of store
    calls with any faults the row is still there with the same session, operation, digest and
    creation time; recording the id again inserts nothing and changes nothing: with the same
    digest it reports the existing row, with another digest it is refused as a mismatch, and a
    failing database is reported. *)
Theorem receipt_recorded_once (db db1 : Db.t) (receipt again : RequestReceipt.t) (calls : history)
    (rf wf : Fault) :
  record_receipt None None db receipt = (Ok Inserted, db1) ->
  RequestReceipt.request_id again = RequestReceipt.request_id receipt ->
  let db2 := replay_calls db1 calls in
  (exists row, Db.request_receipts db2 !! RequestReceipt.request_id receipt = Some row /\ same_identity receipt row) /\
  record_receipt rf wf db2 again =
    (match rf with
     | Some text => Err (StoreError.Sqlx text)
     | None => if bool_decide (RequestReceipt.payload_digest again = RequestReceipt.payload_digest receipt)
               then Ok Existing
               else Err (StoreError.DuplicateRequestMismatch (RequestReceipt.request_id receipt))
     end, db2).
Proof.
  intros Hrec Hid db2. unfold record_receipt in Hrec. simpl in Hrec.
  destruct (Db.request_receipts db !! RequestReceipt.request_id receipt); [by case_bool_decide|].
  simplify_eq. fold (replay_calls).
  destruct (replay_keeps_receipt calls
    (Db.with_request_receipts (<[RequestReceipt.request_id receipt := receipt]> (Db.request_receipts db)) db)
    (RequestReceipt.request_id receipt) receipt) as (row & Hrow & Hsame).
  { simpl. apply lookup_insert_eq. }
  fold db2 in Hrow. split; [eauto|]. unfold record_receipt. rewrite Hid, Hrow. destruct rf; [done|]. simpl.
  destruct Hsame as (_ & _ & _ & Hd & _). rewrite <- Hd.
  case_bool_decide as H1; case_bool_decide as H2; congruence.
Qed.

(** The queue table: a successful write is what is read back - prompt, turn, revision and
    status; a session has at most one entry, so a write without [replace] on an occupied session
    is refused and changes nothing, and a replacement keeps the time the entry was created; other
    sessions' entries are untouched; after a clear nothing is read. *)
Theorem next_turn_roundtrip (db db' : Db.t) (entry : NextTurnEntry.t) (replace : bool) (rf wf : Fault)
    (now : string) (r : res StoreError.t unit) :
  set_next_turn rf wf now db entry replace = (r, db') ->
  let session := NextTurnEntry.session entry in
  match r with
  | Ok _ =>
      exists read, get_next_turn None db' session = (Ok (Some read), db') /\
        NextTurnEntry.session read = session /\
        NextTurnEntry.prompt read = NextTurnEntry.prompt entry /\
        NextTurnEntry.after_turn_id read = NextTurnEntry.after_turn_id entry /\
        NextTurnEntry.runtime_revision read = NextTurnEntry.runtime_revision entry /\
        NextTurnEntry.status read = NextTurnEntry.status entry /\
        NextTurnEntry.created_at read =
          default (NextTurnEntry.created_at entry) (NextTurnEntry.created_at <$> Db.next_turn_queue db !! session) /\
        (forall other, other <> session -> Db.next_turn_queue db' !! other = Db.next_turn_queue db !! other) /\
        get_next_turn None (clear_next_turn None db' session).2 session = (Ok None, (clear_next_turn None db' session).2)
  | Err e =>
      db' = db /\
      ((e = StoreError.QueueAlreadyExists /\ replace = false /\ is_Some (Db.next_turn_queue db !! session)) \/
       exists text, e = StoreError.Sqlx text /\ (rf = Some text \/ wf = Some text))
  end.
Proof.
  intros Hset session. unfold set_next_turn, sqlx in Hset. fold session in Hset.
  assert (Hparse : forall s, StoreQueueStatus.parse (StoreQueueStatus.as_str s) = s) by (by intros []).
  destruct rf as [text|]; [simplify_eq; split; [done|]; right; eauto|].
  destruct (Db.next_turn_queue db !! session) as [old|] eqn:Hold; [destruct replace|]; simpl in Hset;
    [destruct wf as [text|]|..]; try (simplify_eq; split; [done|]; eauto; fail).
  2: destruct wf as [text|]; [simplify_eq; split; [done|]; right; eauto|].
  all: simplify_eq; unfold get_next_turn, clear_next_turn, sqlx; simpl;
    rewrite lookup_insert_eq; simpl; rewrite lookup_delete_eq; eexists; split; [reflexivity|];
    simpl; rewrite Hparse; split_and!; try done;
    intros other Hne; by rewrite lookup_insert_ne.
Qed.

(** ** Concrete inputs *)
Definition demo_receipt (digest : string) : RequestReceipt.t :=
  RequestReceipt.mk "r1" (SessionKeyRef.mk "d" 1 "s") "StartTurn" "ACCEPTED_BY_BRIDGE" digest "t0" "t0".

Lemma receipt_recorded_once_witness :
  let db1 := (record_receipt None None Db.initial (demo_receipt "a")).2 in
  let calls := [(None, None, "t1", StoreCall.UpdateStatus "r1" "COMPLETED");
                (None, Some "disk I/O error", "t2", StoreCall.ClearBinding)] in
  let db2 := replay_calls db1 calls in
  (exists row, Db.request_receipts db2 !! "r1" = Some row /\ same_identity (demo_receipt "a") row) /\
  record_receipt None None db2 (demo_receipt "b") = (Err (StoreError.DuplicateRequestMismatch "r1"), db2).
Proof.
  intros db1 calls db2.
  exact (receipt_recorded_once Db.initial db1 (demo_receipt "a") (demo_receipt "b") calls None None eq_refl eq_refl).
Defined.

Definition demo_entry : NextTurnEntry.t :=
  NextTurnEntry.mk (SessionKeyRef.mk "d" 1 "s") "prompt" "t1" 3 StoreQueueStatus.Queued "c" "c".

Lemma next_turn_roundtrip_witness :
  let db' := (set_next_turn None None "n" Db.initial demo_entry false).2 in
  set_next_turn None None "n" Db.initial demo_entry false = (Ok tt, db') /\
  exists read, get_next_turn None db' (NextTurnEntry.session demo_entry) = (Ok (Some read), db') /\
    NextTurnEntry.prompt read = "prompt".
Proof.
  intros db'. split; [reflexivity|].
  destruct (next_turn_roundtrip Db.initial db' demo_entry false None None "n" (Ok tt) eq_refl)
    as (read & Hread & _ & Hprompt & _).
  exists read. split; [exact Hread|exact Hprompt].
Defined.
