(* ===== verification/Prog.v ===== *)
(** * Programs of atomic operations

    An asynchronous handler is a tree of operations, each with a continuation for its answer.
    [op A] is the type of the operations that answer with an [A]; a component gives its own.
    At the end: pools of programs that interleave, and budgets for the operations a program may do. *)

From S2P Require Import Prelude.

Inductive prog (op : Type -> Type) (A : Type) : Type :=
| Ret (a : A)
| Act {B : Type} (o : op B) (k : B -> prog op A).
Arguments Ret {op A} _.
Arguments Act {op A B} _ _.

Fixpoint prog_bind {op : Type -> Type} {A C : Type} (p : prog op A) (f : A -> prog op C) : prog op C :=
  match p with
  | Ret a => f a
  | Act o k => Act o (fun b => prog_bind (k b) f)
  end.

Definition act {op : Type -> Type} {B : Type} (o : op B) : prog op B := Act o Ret.

Notation "'do' x <- p ; q" := (prog_bind p (fun x => q))
  (at level 20, x pattern, p at level 100, q at level 200, right associativity) : rust_scope.
Notation "'perform' p ; q" := (prog_bind p (fun _ => q))
  (at level 20, p at level 100, q at level 200, right associativity) : rust_scope.

(** [?] in a function that returns a [Result]. *)
Definition try {op : Type -> Type} {E A B} (p : prog op (res E A)) (k : A -> prog op (res E B)) : prog op (res E B) :=
  do r <- p;
  match r with
  | Ok a => k a
  | Err e => Ret (Err e)
  end.

Notation "'try?' x <- p ; q" := (try p (fun x => q))
  (at level 20, x pattern, p at level 100, q at level 200, right associativity) : rust_scope.

Definition lift {op : Type -> Type} {E A} (r : res E A) : prog op (res E A) := Ret r.

(** ** Running a program among other tasks

    [env]: what the other tasks of the process may do to the state between two operations.
    [step o s b s']: the operation [o] run in [s] answers [b] and leaves [s']; [None] means that it
    panicked, which ends the task.  [texec p s t a s']: alone on its task, [p] run from [s] with
    the observable operations [t] ends in [s'] with [a] ([None]: it panicked). *)
Section Exec.
Context {op : Type -> Type} {S O : Type}.
Variable env : S -> S -> Prop.
Variable step : forall B, op B -> S -> option B -> S -> Prop.
Variable obs : forall B, op B -> B -> list O.

Fixpoint texec {A : Type} (p : prog op A) (s : S) (t : list O) (a : option A) (s' : S) : Prop :=
  match p with
  | Ret x => t = [] /\ a = Some x /\ s' = s
  | @Act _ _ B o k =>
      exists s1 b s2, rtc env s s1 /\ step B o s1 b s2 /\
        match b with
        | None => t = [] /\ a = None /\ s' = s2
        | Some b => exists t', texec (k b) s2 t' a s' /\ t = obs B o b ++ t'
        end
  end.

Lemma texec_bind {A C} (p : prog op A) (f : A -> prog op C) (s : S) (t : list O) (c : option C) (s' : S) :
  texec (prog_bind p f) s t c s' ->
  (texec p s t None s' /\ c = None) \/
  exists t1 a s1 t2, texec p s t1 (Some a) s1 /\ texec (f a) s1 t2 c s' /\ t = t1 ++ t2.
Proof.
  revert s t. induction p as [a|B o k IH]; intros s t; simpl.
  - intros He. right. exists [], a, s, t. done.
  - intros (s1 & [b|] & s2 & Henv & Hst & He).
    + destruct He as (t' & He & ->). destruct (IH _ _ _ He) as [[Hn ->]|(t1 & a & s3 & t2 & H1 & H2 & ->)].
      * left. split; [|done]. exists s1, (Some b), s2. eauto.
      * right. exists (obs B o b ++ t1), a, s3, t2. split_and!; [|done|by rewrite app_assoc].
        exists s1, (Some b), s2. eauto 10.
    + destruct He as (-> & -> & ->). left. split; [|done]. exists s1, None, s2. eauto.
Qed.

Lemma texec_bind_intro {A C} (p : prog op A) (f : A -> prog op C) (s s1 s' : S) (t1 t2 : list O) (a : A) (c : option C) :
  texec p s t1 (Some a) s1 -> texec (f a) s1 t2 c s' -> texec (prog_bind p f) s (t1 ++ t2) c s'.
Proof.
  revert s t1. induction p as [x|B o k IH]; intros s t1; simpl.
  - by intros (-> & [= ->] & ->) X.
  - intros (s2 & [b|] & s3 & Henv & Hst & He) X; [|by destruct He as (_ & ? & _)].
    destruct He as (t' & He & ->). exists s2, (Some b), s3. split_and!; [done..|]. exists (t' ++ t2). split; [by eapply IH|]. by rewrite app_assoc.
Qed.

Lemma texec_act {B} (o : op B) (s : S) (t : list O) (b : option B) (s' : S) :
  texec (act o) s t b s' ->
  exists s1, rtc env s s1 /\ step B o s1 b s' /\ t = match b with Some b => obs B o b | None => [] end.
Proof.
  intros (s1 & [b'|] & s2 & Henv & Hst & He).
  - destruct He as (t' & (-> & -> & ->) & ->). exists s1. rewrite app_nil_r. done.
  - destruct He as (-> & -> & ->). exists s1. done.
Qed.

Lemma texec_try {E A C} (p : prog op (res E A)) (f : A -> prog op (res E C)) (s : S) (t : list O)
    (c : option (res E C)) (s' : S) :
  texec (try p f) s t c s' ->
  (texec p s t None s' /\ c = None) \/
  (exists e, texec p s t (Some (Err e)) s' /\ c = Some (Err e)) \/
  exists t1 a s1 t2, texec p s t1 (Some (Ok a)) s1 /\ texec (f a) s1 t2 c s' /\ t = t1 ++ t2.
Proof.
  unfold try. intros [?|(t1 & [a|e] & s1 & t2 & H1 & H2 & ->)]%texec_bind; [by left|right; right; eauto 10|].
  destruct H2 as (-> & -> & ->). right. left. exists e. by rewrite app_nil_r.
Qed.

End Exec.

(** Take a run of a composed program apart. *)
Ltac texec_inv :=
  repeat match goal with
  | H : texec _ _ _ (prog_bind _ _) _ _ _ _ |- _ =>
      apply texec_bind in H as [[H ?]|(? & ? & ? & ? & ? & H & ?)]; simplify_eq
  | H : texec _ _ _ (try _ _) _ _ _ _ |- _ =>
      apply texec_try in H as [[H ?]|[(? & H & ?)|(? & ? & ? & ? & ? & H & ?)]]; simplify_eq
  | H : texec _ _ _ (lift _) _ _ _ _ |- _ => destruct H as (-> & ? & ->); simplify_eq
  | H : texec _ _ _ (Ret _) _ _ _ _ |- _ => destruct H as (-> & ? & ->); simplify_eq
  | H : texec _ _ _ (act _) _ _ _ _ |- _ => apply texec_act in H as (? & ? & H & ?); simplify_eq
  end.

(** A program of one component inside a program of another. *)
Fixpoint prog_map {op op' : Type -> Type} {A : Type} (f : forall B, op B -> op' B) (p : prog op A) : prog op' A :=
  match p with
  | Ret a => Ret a
  | @Act _ _ B o k => Act (f B o) (fun b => prog_map f (k b))
  end.

Lemma texec_map_bind {op op' S O} (f : forall B, op B -> op' B) (env : S -> S -> Prop)
    (step : forall B, op' B -> S -> option B -> S -> Prop) (obs : forall B, op' B -> B -> list O) {A C : Type}
    (p : prog op A) (k : A -> prog op C) (s s' : S) (t : list O) (c : option C) :
  texec env step obs (prog_bind (prog_map f p) (fun a => prog_map f (k a))) s t c s' ->
  texec env step obs (prog_map f (prog_bind p k)) s t c s'.
Proof.
  revert s t. induction p as [x|B o q IH]; intros s t; simpl; [done|]. intros (s1 & b & s2 & R & St & X). exists s1, b, s2.
  split_and!; [done..|]. destruct b as [b|]; [|done]. destruct X as (t' & X & ->). exists t'. split; [by apply IH|done].
Qed.

(** A run of the embedded program, seen by the larger state, is a run of its own on the part [proj]
    of it, when the environment and the embedded operations of the larger state project. *)
Lemma texec_map {op op' S S' O O'} (f : forall B, op B -> op' B) (proj : S' -> option S) (g : O -> O')
    (env : S -> S -> Prop) (step : forall B, op B -> S -> option B -> S -> Prop) (obs : forall B, op B -> B -> list O)
    (env' : S' -> S' -> Prop) (step' : forall B, op' B -> S' -> option B -> S' -> Prop) (obs' : forall B, op' B -> B -> list O')
    {A} (p : prog op A) (w w' : S') (s : S) (t : list O') (a : option A) :
  (forall w w' s, env' w w' -> proj w = Some s -> exists s', proj w' = Some s' /\ rtc env s s') ->
  (forall B (o : op B) w b w' s, step' B (f B o) w b w' -> proj w = Some s -> exists s', proj w' = Some s' /\ step B o s b s') ->
  (forall B (o : op B) b, obs' B (f B o) b = map g (obs B o b)) ->
  texec env' step' obs' (prog_map f p) w t a w' -> proj w = Some s ->
  exists s' t', proj w' = Some s' /\ texec env step obs p s t' a s' /\ t = map g t'.
Proof.
  intros He Hs Ho. assert (Hr : forall w w', rtc env' w w' -> forall s, proj w = Some s -> exists s', proj w' = Some s' /\ rtc env s s').
  { induction 1 as [|x y z E _ IH]; intros s0 P; [by eexists|].
    destruct (He _ _ _ E P) as (s1 & P1 & R1). destruct (IH _ P1) as (s2 & P2 & R2). exists s2. split; [done|]. by etrans. }
  revert w s t. induction p as [x|B o k IH]; intros w s t; simpl.
  - intros (-> & -> & ->) P. by exists s, [].
  - intros (w1 & b & w2 & R & St & X) P. destruct (Hr _ _ R _ P) as (s1 & P1 & R1). destruct (Hs _ _ _ _ _ _ St P1) as (s2 & P2 & St2).
    destruct b as [b|].
    + destruct X as (t1 & X & ->). destruct (IH b _ _ _ X P2) as (s' & t' & P' & X' & ->).
      exists s', (obs B o b ++ t'). split_and!; [done| |by rewrite map_app, Ho].
      exists s1, (Some b), s2. split_and!; eauto.
    + destruct X as (-> & -> & ->). exists s2, []. split_and!; [done| |done]. exists s1, None, s2. by split_and!.
Qed.

(** ** The operations a program may perform *)

Fixpoint prog_all {op : Type -> Type} {A : Type} (P : forall B, op B -> Prop) (p : prog op A) : Prop :=
  match p with
  | Ret _ => True
  | @Act _ _ B o k => P B o /\ forall b, prog_all P (k b)
  end.

Lemma prog_all_map {op op' : Type -> Type} (f : forall B, op B -> op' B) (P : forall B, op' B -> Prop) {A : Type} (p : prog op A) :
  (forall B o, P B (f B o)) -> prog_all P (prog_map f p).
Proof. intros Hf. induction p as [a|B o k IH]; simpl; [done|]. split; [apply Hf|]. intros b. apply IH. Qed.

Section All.
Context {op : Type -> Type} (P : forall B, op B -> Prop).

Lemma prog_all_ret {A} (a : A) : prog_all P (Ret a).
Proof. exact I. Qed.

Lemma prog_all_act {B} (o : op B) : P B o -> prog_all P (act o).
Proof. done. Qed.

Lemma prog_all_bind {A C} (p : prog op A) (f : A -> prog op C) :
  prog_all P p -> (forall a, prog_all P (f a)) -> prog_all P (prog_bind p f).
Proof. intros Hp Hf. induction p as [a|B o k IH]; simpl in *; [apply Hf|]. destruct Hp as [? Hk]. auto. Qed.

Lemma prog_all_try {E A C} (p : prog op (res E A)) (f : A -> prog op (res E C)) :
  prog_all P p -> (forall a, prog_all P (f a)) -> prog_all P (try p f).
Proof. intros Hp Hf. apply prog_all_bind; [done|]. intros [a|e]; [apply Hf|done]. Qed.

Lemma texec_all {S O} (env : S -> S -> Prop) (step : forall B, op B -> S -> option B -> S -> Prop)
    (obs : forall B, op B -> B -> list O) (Q : O -> Prop) {A} (p : prog op A) (s s' : S) (t : list O) (a : option A) :
  (forall B (o : op B) b, P B o -> Forall Q (obs B o b)) ->
  prog_all P p -> texec env step obs p s t a s' -> Forall Q t.
Proof.
  intros Hobs. revert s t. induction p as [x|B o k IH]; intros s t Hp; simpl in *; [by intros (-> & _)|].
  destruct Hp as [Ho Hk]. intros (s1 & [b|] & s2 & _ & _ & He); [|by destruct He as (-> & _)].
  destruct He as (t' & He & ->). apply Forall_app. split; [by apply Hobs|by eapply IH].
Qed.

(** What the allowed operations and the other tasks do not destroy survives a program. *)
Lemma texec_stable_all {S O} (env : S -> S -> Prop) (step : forall B, op B -> S -> option B -> S -> Prop)
    (obs : forall B, op B -> B -> list O) (I : S -> Prop) {A} (p : prog op A) (s s' : S) (t : list O) (a : option A) :
  (forall s s', env s s' -> I s -> I s') ->
  (forall B (o : op B) s b s', P B o -> step B o s b s' -> I s -> I s') ->
  prog_all P p -> texec env step obs p s t a s' -> I s -> I s'.
Proof.
  intros Henv Hstep. assert (Hrtc : forall s s', rtc env s s' -> I s -> I s') by (induction 1; eauto).
  revert s t. induction p as [x|B o k IH]; intros s t; simpl; [intros _ (_ & _ & ->); done|].
  intros [Ho Hk] (s1 & [b|] & s2 & H1 & H2 & H3) Hi.
  - destruct H3 as (t' & H3 & _). eauto.
  - destruct H3 as (_ & _ & ->). eauto.
Qed.
End All.

Create HintDb prog_all.
#[export] Hint Resolve prog_all_ret prog_all_act : prog_all.

(** Go through the text of a program. *)
Ltac prog_all_tac :=
  repeat match goal with
  | |- prog_all _ (try _ _) => apply prog_all_try; [|intros ?]
  | |- prog_all _ (prog_bind _ _) => apply prog_all_bind; [|intros ?]
  | |- prog_all _ (lift _) => exact I
  | |- prog_all _ (Ret _) => exact I
  | |- prog_all _ (act _) => apply prog_all_act
  | |- prog_all _ (match ?x with _ => _ end) => destruct x
  | |- prog_all _ (let (_, _) := ?x in _) => destruct x
  end; try done.

(** ** Pools of programs, and what a program may spend

    The tasks of a process as a list of programs: in every step one of them performs its next operation, a new
    task starts, or something else changes the state.  A budget: each operation costs and earns rights to do
    something; tasks that start without rights and never overspend keep the whole pool within the rights the state gives. *)

Section Pool.
Context {op : Type -> Type} {S : Type}.
Variable env : S -> S -> Prop.
Variable step : forall B, op B -> S -> option B -> S -> Prop.
Variable task : prog op unit -> Prop.

Inductive pool_step : list (prog op unit) * S -> list (prog op unit) * S -> Prop :=
| pool_act (l1 l2 : list (prog op unit)) (B : Type) (o : op B) (k : B -> prog op unit) (s s' : S) (b : B) :
    step B o s (Some b) s' -> pool_step (l1 ++ Act o k :: l2, s) (l1 ++ k b :: l2, s')
| pool_panic (l1 l2 : list (prog op unit)) (B : Type) (o : op B) (k : B -> prog op unit) (s s' : S) :
    step B o s None s' -> pool_step (l1 ++ Act o k :: l2, s) (l1 ++ l2, s')
| pool_spawn (l : list (prog op unit)) (p : prog op unit) (s : S) : task p -> pool_step (l, s) (p :: l, s)
| pool_env (l : list (prog op unit)) (s s' : S) : env s s' -> pool_step (l, s) (l, s').

(** ** Budgets *)

Variable allowed : forall B, op B -> Prop.
Variable cost : forall B, op B -> Z.
Variable gain : forall B, op B -> B -> Z.

Fixpoint budget {A : Type} (n : Z) (p : prog op A) (Q : A -> Z -> Prop) : Prop :=
  match p with
  | Ret a => Q a n
  | @Act _ _ B o k => allowed B o /\ cost B o <= n /\ forall b, budget (n - cost B o + gain B o b) (k b) Q
  end.

Lemma budget_mono {A : Type} (n : Z) (p : prog op A) (Q R : A -> Z -> Prop) :
  (forall a m, Q a m -> R a m) -> budget n p Q -> budget n p R.
Proof. intros QR. revert n. induction p as [a|B o k IH]; simpl; intros n; [apply QR|naive_solver]. Qed.

Lemma budget_bind {A C : Type} (n : Z) (p : prog op A) (f : A -> prog op C) (Q : C -> Z -> Prop) :
  budget n p (fun a m => budget m (f a) Q) -> budget n (prog_bind p f) Q.
Proof. revert n. induction p as [a|B o k IH]; simpl; intros n; [done|]. intros (? & ? & K). split_and!; auto. Qed.

Lemma budget_act {B C : Type} (n : Z) (o : op B) (f : B -> prog op C) (Q : C -> Z -> Prop) :
  allowed B o -> cost B o <= n -> (forall b, budget (n - cost B o + gain B o b) (f b) Q) -> budget n (prog_bind (act o) f) Q.
Proof. done. Qed.

(** Programs whose operations neither cost nor earn. *)
Definition free (B : Type) (o : op B) : Prop := allowed B o /\ cost B o = 0 /\ forall b, gain B o b = 0.

Lemma budget_free {A : Type} (n : Z) (p : prog op A) : 0 <= n -> prog_all free p -> budget n p (fun _ m => m = n).
Proof.
  revert n. induction p as [a|B o k IH]; simpl; intros n N; [done|]. intros [(Al & C & G) K]. split_and!; [done|lia|]. intros b.
  rewrite C, G. replace (n - 0 + 0) with n by lia. by apply IH.
Qed.

Lemma budget_quiet {A : Type} (n : Z) (p : prog op A) : 0 <= n -> prog_all free p -> budget n p (fun _ m => 0 <= m).
Proof. intros N F. eapply budget_mono; [|by apply budget_free]. simpl. lia. Qed.

(** The rights the state gives. *)
Variable potential : S -> Z.
Hypothesis env_potential : forall s s', env s s' -> potential s <= potential s'.
Hypothesis step_potential : forall B (o : op B) s b s', allowed B o -> step B o s (Some b) s' -> potential s + gain B o b <= potential s' + cost B o.
Hypothesis panic_potential : forall B (o : op B) s s', allowed B o -> step B o s None s' -> potential s <= potential s' + cost B o.
Hypothesis task_budget : forall p, task p -> budget 0 p (fun _ m => 0 <= m).

Definition within (c : list (prog op unit) * S) : Prop :=
  exists ns, Forall2 (fun p n => 0 <= n /\ budget n p (fun _ m => 0 <= m)) c.1 ns /\ sum_by id ns <= potential c.2.

Lemma pool_step_within (c c' : list (prog op unit) * S) :
  (forall B (o : op B) b, 0 <= gain B o b) -> pool_step c c' -> within c -> within c'.
Proof.
  intros G St (ns & F & L). destruct St as [l1 l2 B o k s s' b St|l1 l2 B o k s s' St|l p s T|l s s' E]; simpl in *.
  - apply Forall2_app_inv_l in F as (n1 & n2 & F1 & F2 & ->). inversion F2 as [|? n ? n2' Bd F3]; subst. destruct Bd as [N Bd]. cbn [budget] in Bd. destruct Bd as (Al & C & K).
    exists (n1 ++ (n - cost B o + gain B o b) :: n2'). split.
    + apply Forall2_app; [done|]. constructor; [|done]. split; [specialize (G B o b); lia|apply K].
    + pose proof (step_potential B o s b s' Al St). rewrite sum_by_app, sum_by_cons in L. rewrite sum_by_app, sum_by_cons. unfold id in *. cbn [snd]. lia.
  - apply Forall2_app_inv_l in F as (n1 & n2 & F1 & F2 & ->). inversion F2 as [|? n ? n2' Bd F3]; subst. destruct Bd as [N Bd]. cbn [budget] in Bd. destruct Bd as (Al & C & K).
    exists (n1 ++ n2'). split; [by apply Forall2_app|]. pose proof (panic_potential B o s s' Al St).
    rewrite sum_by_app, sum_by_cons in L. rewrite sum_by_app. unfold id in *. cbn [snd]. lia.
  - exists (0 :: ns). split; [|done]. constructor; [|done]. split; [done|by apply task_budget].
  - exists ns. split; [done|]. pose proof (env_potential s s' E). cbn [snd]. lia.
Qed.

(** The rights never run out. *)
Lemma pool_within (c c' : list (prog op unit) * S) :
  (forall B (o : op B) b, 0 <= gain B o b) -> rtc pool_step c c' -> within c -> 0 <= potential c'.2.
Proof.
  intros G R W. assert (W' : within c') by (induction R; eauto using pool_step_within). destruct W' as (ns & F & L).
  etrans; [|exact L]. clear L. induction F as [|p n ps ns [N _] _ IH]; [done|]. rewrite sum_by_cons. unfold id at 1. lia.
Qed.
End Pool.

(** ** One task among others, operation by operation *)

Section Sequence.
Context {op : Type -> Type} {S O : Type}.
Variable env : S -> S -> Prop.
Variable step : forall B, op B -> S -> option B -> S -> Prop.
Variable obs : forall B, op B -> B -> list O.

(** The first operation of a run, and the rest; only the other tasks run before it. *)
Lemma texec_first {B C : Type} (o : op B) (k : B -> prog op C) (s s' : S) (t : list O) (c : C) :
  texec env step obs (prog_bind (act o) k) s t (Some c) s' ->
  exists s1 b s2 t', rtc env s s1 /\ step B o s1 (Some b) s2 /\ texec env step obs (k b) s2 t' (Some c) s' /\ t = obs B o b ++ t'.
Proof.
  intros (s1 & [b|] & s2 & E & X & R); [|by destruct R as (_ & ? & _)]. destruct R as (t' & R & ->). by exists s1, b, s2, t'.
Qed.

(** A program whose operations leave the state as it is: only the other tasks change it. *)
Lemma texec_reads {A : Type} (p : prog op A) (s s' : S) (t : list O) (a : option A) :
  prog_all (fun B o => forall s b s', step B o s b s' -> s' = s) p -> texec env step obs p s t a s' -> rtc env s s'.
Proof.
  revert s t. induction p as [x|B o k IH]; intros s t; simpl; [by intros _ (_ & _ & ->)|].
  intros [Ro Rk] (s1 & [b|] & s2 & E & X & R); apply Ro in X as ->; (etrans; [exact E|]).
  - destruct R as (t' & R & _). by eapply IH.
  - by destruct R as (_ & _ & ->).
Qed.
End Sequence.
