(* ===== verification/Proto.v ===== *)
(** * The messages of the protocol ([src/proto/agent_console/v1/])

    The messages as [prost] generates them for the Bridge and the Relay: one Module per message
    or enum.  An enum field of a message is an [i32] ([Z] here) next to the type of its variants,
    with the conversions [as_i32] ([x as i32]) and [try_from] ([i32::try_into]); a field that is
    a message is an [option]; a [oneof] is an option of an inductive type of the message's
    Module.  The envelope is in [Messages]. *)

From S2P Require Import Prelude.

Module pb.

Module AgentKind.
Inductive t := Unspecified | CodexDesktop | ZcodeDesktop.
#[global] Instance eq_dec : EqDecision t.
Proof. solve_decision. Defined.

Definition as_i32 (x : t) : Z :=
  match x with
  | Unspecified => 0
  | CodexDesktop => 1
  | ZcodeDesktop => 2
  end.

Definition all : list t := [Unspecified; CodexDesktop; ZcodeDesktop].

Definition try_from (z : Z) : option t := list_find (fun x => as_i32 x = z) all ≫= (fun p => Some p.2).
End AgentKind.

Module DeviceConnection.
Inductive t := Unspecified | ConnectionConnecting | ConnectionOnline | ConnectionDegraded | ConnectionOffline.
#[global] Instance eq_dec : EqDecision t.
Proof. solve_decision. Defined.

Definition as_i32 (x : t) : Z :=
  match x with
  | Unspecified => 0
  | ConnectionConnecting => 1
  | ConnectionOnline => 2
  | ConnectionDegraded => 3
  | ConnectionOffline => 4
  end.

Definition all : list t := [Unspecified; ConnectionConnecting; ConnectionOnline; ConnectionDegraded; ConnectionOffline].

Definition try_from (z : Z) : option t := list_find (fun x => as_i32 x = z) all ≫= (fun p => Some p.2).
End DeviceConnection.

Module ControlMode.
Inductive t := Unspecified | FullControl | LimitedControl | ReadOnly | Unavailable.
#[global] Instance eq_dec : EqDecision t.
Proof. solve_decision. Defined.

Definition as_i32 (x : t) : Z :=
  match x with
  | Unspecified => 0
  | FullControl => 1
  | LimitedControl => 2
  | ReadOnly => 3
  | Unavailable => 4
  end.

Definition all : list t := [Unspecified; FullControl; LimitedControl; ReadOnly; Unavailable].

Definition try_from (z : Z) : option t := list_find (fun x => as_i32 x = z) all ≫= (fun p => Some p.2).
End ControlMode.

Module CompatibilityState.
Inductive t := Unspecified | CompatibilityVerified | CompatibilityDegraded | CompatibilityUnsupported.
#[global] Instance eq_dec : EqDecision t.
Proof. solve_decision. Defined.

Definition as_i32 (x : t) : Z :=
  match x with
  | Unspecified => 0
  | CompatibilityVerified => 1
  | CompatibilityDegraded => 2
  | CompatibilityUnsupported => 3
  end.

Definition all : list t := [Unspecified; CompatibilityVerified; CompatibilityDegraded; CompatibilityUnsupported].

Definition try_from (z : Z) : option t := list_find (fun x => as_i32 x = z) all ≫= (fun p => Some p.2).
End CompatibilityState.

Module ActiveTurnPhase.
Inductive t := Unspecified | TurnPhaseIdle | TurnPhaseRunning | TurnPhaseFinishing.
#[global] Instance eq_dec : EqDecision t.
Proof. solve_decision. Defined.

Definition as_i32 (x : t) : Z :=
  match x with
  | Unspecified => 0
  | TurnPhaseIdle => 1
  | TurnPhaseRunning => 2
  | TurnPhaseFinishing => 3
  end.

Definition all : list t := [Unspecified; TurnPhaseIdle; TurnPhaseRunning; TurnPhaseFinishing].

Definition try_from (z : Z) : option t := list_find (fun x => as_i32 x = z) all ≫= (fun p => Some p.2).
End ActiveTurnPhase.

Module PendingAttentionKind.
Inductive t := Unspecified | AttentionUserQuestion | AttentionRiskApproval.
#[global] Instance eq_dec : EqDecision t.
Proof. solve_decision. Defined.

Definition as_i32 (x : t) : Z :=
  match x with
  | Unspecified => 0
  | AttentionUserQuestion => 1
  | AttentionRiskApproval => 2
  end.

Definition all : list t := [Unspecified; AttentionUserQuestion; AttentionRiskApproval].

Definition try_from (z : Z) : option t := list_find (fun x => as_i32 x = z) all ≫= (fun p => Some p.2).
End PendingAttentionKind.

Module QueueState.
Inductive t := Unspecified | Empty | Queued | Paused.
#[global] Instance eq_dec : EqDecision t.
Proof. solve_decision. Defined.

Definition as_i32 (x : t) : Z :=
  match x with
  | Unspecified => 0
  | Empty => 1
  | Queued => 2
  | Paused => 3
  end.

Definition all : list t := [Unspecified; Empty; Queued; Paused].

Definition try_from (z : Z) : option t := list_find (fun x => as_i32 x = z) all ≫= (fun p => Some p.2).
End QueueState.

Module LastTurnOutcome.
Inductive t := Unspecified | TurnOutcomeCompleted | TurnOutcomeFailed | TurnOutcomeInterrupted | TurnOutcomeUnknown.
#[global] Instance eq_dec : EqDecision t.
Proof. solve_decision. Defined.

Definition as_i32 (x : t) : Z :=
  match x with
  | Unspecified => 0
  | TurnOutcomeCompleted => 1
  | TurnOutcomeFailed => 2
  | TurnOutcomeInterrupted => 3
  | TurnOutcomeUnknown => 4
  end.

Definition all : list t := [Unspecified; TurnOutcomeCompleted; TurnOutcomeFailed; TurnOutcomeInterrupted; TurnOutcomeUnknown].

Definition try_from (z : Z) : option t := list_find (fun x => as_i32 x = z) all ≫= (fun p => Some p.2).
End LastTurnOutcome.

Module BackgroundCommandState.
Inductive t := Unspecified | BackgroundCmdRunning | BackgroundCmdCompleted | BackgroundCmdFailed | BackgroundCmdStopped | BackgroundCmdUnknown.
#[global] Instance eq_dec : EqDecision t.
Proof. solve_decision. Defined.

Definition as_i32 (x : t) : Z :=
  match x with
  | Unspecified => 0
  | BackgroundCmdRunning => 1
  | BackgroundCmdCompleted => 2
  | BackgroundCmdFailed => 3
  | BackgroundCmdStopped => 4
  | BackgroundCmdUnknown => 5
  end.

Definition all : list t := [Unspecified; BackgroundCmdRunning; BackgroundCmdCompleted; BackgroundCmdFailed; BackgroundCmdStopped; BackgroundCmdUnknown].

Definition try_from (z : Z) : option t := list_find (fun x => as_i32 x = z) all ≫= (fun p => Some p.2).
End BackgroundCommandState.

Module OutputChannel.
Inductive t := Unspecified | Stdout | Stderr | Combined.
#[global] Instance eq_dec : EqDecision t.
Proof. solve_decision. Defined.

Definition as_i32 (x : t) : Z :=
  match x with
  | Unspecified => 0
  | Stdout => 1
  | Stderr => 2
  | Combined => 3
  end.

Definition all : list t := [Unspecified; Stdout; Stderr; Combined].

Definition try_from (z : Z) : option t := list_find (fun x => as_i32 x = z) all ≫= (fun p => Some p.2).
End OutputChannel.

Module StableErrorCode.
Inductive t := Unspecified | AuthRequired | AuthExpired | CsrfInvalid | WsTicketInvalid | WsTicketExpired | WsTicketConsumed | DeviceOffline | DeviceRevoked | CodexUnavailable | CodexVersionUnverified | ControlReadOnly | CapabilityUnsupported | SessionNotFound | StaleTurn | DuplicateRequestMismatch | OutcomeUnknown | ResyncRequired | QueueAlreadyExists | QueuePaused | QuestionExpired | ApprovalExpired | SettingCombinationUnsupported | FileHandleInvalid | FileOutsideScope | FileChanged | FileTypeNotPreviewable | TransferExpired | TransferTooLarge | TransferRangeInvalid | DiffTooLarge | RateLimited | InternalError.
#[global] Instance eq_dec : EqDecision t.
Proof. solve_decision. Defined.

Definition as_i32 (x : t) : Z :=
  match x with
  | Unspecified => 0
  | AuthRequired => 1
  | AuthExpired => 2
  | CsrfInvalid => 3
  | WsTicketInvalid => 4
  | WsTicketExpired => 5
  | WsTicketConsumed => 6
  | DeviceOffline => 7
  | DeviceRevoked => 8
  | CodexUnavailable => 9
  | CodexVersionUnverified => 10
  | ControlReadOnly => 11
  | CapabilityUnsupported => 12
  | SessionNotFound => 13
  | StaleTurn => 14
  | DuplicateRequestMismatch => 15
  | OutcomeUnknown => 16
  | ResyncRequired => 17
  | QueueAlreadyExists => 18
  | QueuePaused => 19
  | QuestionExpired => 20
  | ApprovalExpired => 21
  | SettingCombinationUnsupported => 22
  | FileHandleInvalid => 23
  | FileOutsideScope => 24
  | FileChanged => 25
  | FileTypeNotPreviewable => 26
  | TransferExpired => 27
  | TransferTooLarge => 28
  | TransferRangeInvalid => 29
  | DiffTooLarge => 30
  | RateLimited => 31
  | InternalError => 32
  end.

Definition all : list t := [Unspecified; AuthRequired; AuthExpired; CsrfInvalid; WsTicketInvalid; WsTicketExpired; WsTicketConsumed; DeviceOffline; DeviceRevoked; CodexUnavailable; CodexVersionUnverified; ControlReadOnly; CapabilityUnsupported; SessionNotFound; StaleTurn; DuplicateRequestMismatch; OutcomeUnknown; ResyncRequired; QueueAlreadyExists; QueuePaused; QuestionExpired; ApprovalExpired; SettingCombinationUnsupported; FileHandleInvalid; FileOutsideScope; FileChanged; FileTypeNotPreviewable; TransferExpired; TransferTooLarge; TransferRangeInvalid; DiffTooLarge; RateLimited; InternalError].

Definition try_from (z : Z) : option t := list_find (fun x => as_i32 x = z) all ≫= (fun p => Some p.2).
End StableErrorCode.

Module Operation.
Inductive t := Unspecified | CreateTask | StartTurn | QueueSet | QueueReplace | QueueCancel | Steer | Interrupt | AnswerQuestion | AnswerApproval | UpdateSettings | RenameTask | ArchiveTask | UnarchiveTask | ForkTask | StopBackgroundCommand | StopAllBackgroundCommands.
#[global] Instance eq_dec : EqDecision t.
Proof. solve_decision. Defined.

Definition as_i32 (x : t) : Z :=
  match x with
  | Unspecified => 0
  | CreateTask => 1
  | StartTurn => 2
  | QueueSet => 3
  | QueueReplace => 4
  | QueueCancel => 5
  | Steer => 6
  | Interrupt => 7
  | AnswerQuestion => 8
  | AnswerApproval => 9
  | UpdateSettings => 10
  | RenameTask => 11
  | ArchiveTask => 12
  | UnarchiveTask => 13
  | ForkTask => 14
  | StopBackgroundCommand => 15
  | StopAllBackgroundCommands => 16
  end.

Definition all : list t := [Unspecified; CreateTask; StartTurn; QueueSet; QueueReplace; QueueCancel; Steer; Interrupt; AnswerQuestion; AnswerApproval; UpdateSettings; RenameTask; ArchiveTask; UnarchiveTask; ForkTask; StopBackgroundCommand; StopAllBackgroundCommands].

Definition try_from (z : Z) : option t := list_find (fun x => as_i32 x = z) all ≫= (fun p => Some p.2).
End Operation.

Module CommandReceiptStatus.
Inductive t := Unspecified | ReceiptReceived | ReceiptAcceptedByBridge | ReceiptDispatchedToCodex | ReceiptCompleted | ReceiptRejected | ReceiptOutcomeUnknown.
#[global] Instance eq_dec : EqDecision t.
Proof. solve_decision. Defined.

Definition as_i32 (x : t) : Z :=
  match x with
  | Unspecified => 0
  | ReceiptReceived => 1
  | ReceiptAcceptedByBridge => 2
  | ReceiptDispatchedToCodex => 3
  | ReceiptCompleted => 4
  | ReceiptRejected => 5
  | ReceiptOutcomeUnknown => 6
  end.

Definition all : list t := [Unspecified; ReceiptReceived; ReceiptAcceptedByBridge; ReceiptDispatchedToCodex; ReceiptCompleted; ReceiptRejected; ReceiptOutcomeUnknown].

Definition try_from (z : Z) : option t := list_find (fun x => as_i32 x = z) all ≫= (fun p => Some p.2).
End CommandReceiptStatus.

Module PlanStepStatus.
Inductive t := Unspecified | PlanStepPending | PlanStepInProgress | PlanStepCompleted.
#[global] Instance eq_dec : EqDecision t.
Proof. solve_decision. Defined.

Definition as_i32 (x : t) : Z :=
  match x with
  | Unspecified => 0
  | PlanStepPending => 1
  | PlanStepInProgress => 2
  | PlanStepCompleted => 3
  end.

Definition all : list t := [Unspecified; PlanStepPending; PlanStepInProgress; PlanStepCompleted].

Definition try_from (z : Z) : option t := list_find (fun x => as_i32 x = z) all ≫= (fun p => Some p.2).
End PlanStepStatus.

Module SettingKind.
Inductive t := Unspecified | Model | ReasoningEffort | ServiceTier | PermissionMode | CollaborationMode.
#[global] Instance eq_dec : EqDecision t.
Proof. solve_decision. Defined.

Definition as_i32 (x : t) : Z :=
  match x with
  | Unspecified => 0
  | Model => 1
  | ReasoningEffort => 2
  | ServiceTier => 3
  | PermissionMode => 4
  | CollaborationMode => 5
  end.

Definition all : list t := [Unspecified; Model; ReasoningEffort; ServiceTier; PermissionMode; CollaborationMode].

Definition try_from (z : Z) : option t := list_find (fun x => as_i32 x = z) all ≫= (fun p => Some p.2).
End SettingKind.

Module FileChangeKind.
Inductive t := Unspecified | FileChangeAdded | FileChangeModified | FileChangeDeleted | FileChangeRenamed.
#[global] Instance eq_dec : EqDecision t.
Proof. solve_decision. Defined.

Definition as_i32 (x : t) : Z :=
  match x with
  | Unspecified => 0
  | FileChangeAdded => 1
  | FileChangeModified => 2
  | FileChangeDeleted => 3
  | FileChangeRenamed => 4
  end.

Definition all : list t := [Unspecified; FileChangeAdded; FileChangeModified; FileChangeDeleted; FileChangeRenamed].

Definition try_from (z : Z) : option t := list_find (fun x => as_i32 x = z) all ≫= (fun p => Some p.2).
End FileChangeKind.

Module TransferDirection.
Inductive t := Unspecified | Upload | Download.
#[global] Instance eq_dec : EqDecision t.
Proof. solve_decision. Defined.

Definition as_i32 (x : t) : Z :=
  match x with
  | Unspecified => 0
  | Upload => 1
  | Download => 2
  end.

Definition all : list t := [Unspecified; Upload; Download].

Definition try_from (z : Z) : option t := list_find (fun x => as_i32 x = z) all ≫= (fun p => Some p.2).
End TransferDirection.

Module TransferOutcome.
Inductive t := Unspecified | Completed | Cancelled | Failed.
#[global] Instance eq_dec : EqDecision t.
Proof. solve_decision. Defined.

Definition as_i32 (x : t) : Z :=
  match x with
  | Unspecified => 0
  | Completed => 1
  | Cancelled => 2
  | Failed => 3
  end.

Definition all : list t := [Unspecified; Completed; Cancelled; Failed].

Definition try_from (z : Z) : option t := list_find (fun x => as_i32 x = z) all ≫= (fun p => Some p.2).
End TransferOutcome.

(** [prost_types::Timestamp]. *)
Module Timestamp.
Record t := mk {
  seconds : Z;
  nanos : Z;
}.
#[global] Instance eq_dec : EqDecision t.
Proof. solve_decision. Defined.
End Timestamp.

Module SessionKey.
Record t := mk {
  device_id : string;
  agent_kind : Z;
  native_session_id : string;
  relay_session_uuid : string;
}.
#[global] Instance eq_dec : EqDecision t.
Proof. solve_decision. Defined.
End SessionKey.

Module TurnId.
Record t := mk {
  id : string;
  synthetic : bool;
}.
#[global] Instance eq_dec : EqDecision t.
Proof. solve_decision. Defined.
End TurnId.

Module ItemId.
Record t := mk {
  id : string;
  synthetic : bool;
}.
#[global] Instance eq_dec : EqDecision t.
Proof. solve_decision. Defined.
End ItemId.

Module ProviderExtension.
Record t := mk {
  type_url : string;
  version : string;
  payload : list byte;
}.
#[global] Instance eq_dec : EqDecision t.
Proof. solve_decision. Defined.
End ProviderExtension.

Module DevicePresence.
Record t := mk {
  device_id : string;
  connection : Z;
  last_seen_at : option Timestamp.t;
  degraded_reason : string;
}.
#[global] Instance eq_dec : EqDecision t.
Proof. solve_decision. Defined.
End DevicePresence.

Module TransferLimits.
Record t := mk {
  text_inline_max_bytes : Z;
  image_inline_max_bytes : Z;
  pdf_range_max_bytes : Z;
  download_max_bytes : Z;
  upload_max_bytes : Z;
  max_concurrent_per_browser : Z;
  max_concurrent_per_device : Z;
  previewable_mime_prefixes : list string;
}.
#[global] Instance eq_dec : EqDecision t.
Proof. solve_decision. Defined.
End TransferLimits.

Module SettingUpdate.
Record t := mk {
  option_id : string;
  value : string;
}.
#[global] Instance eq_dec : EqDecision t.
Proof. solve_decision. Defined.
End SettingUpdate.

Module CreateTaskPayload.
Record t := mk {
  workspace_display_name : string;
  workspace_root_ref : string;
  initial_settings : list SettingUpdate.t;
}.
#[global] Instance eq_dec : EqDecision t.
Proof. solve_decision. Defined.
End CreateTaskPayload.

Module StartTurnPayload.
Record t := mk {
  prompt : string;
}.
#[global] Instance eq_dec : EqDecision t.
Proof. solve_decision. Defined.
End StartTurnPayload.

Module QueueSetPayload.
Record t := mk {
  prompt : string;
  after_turn_id : option TurnId.t;
  runtime_revision : Z;
}.
#[global] Instance eq_dec : EqDecision t.
Proof. solve_decision. Defined.
End QueueSetPayload.

Module QueueReplacePayload.
Record t := mk {
  prompt : string;
  after_turn_id : option TurnId.t;
  runtime_revision : Z;
}.
#[global] Instance eq_dec : EqDecision t.
Proof. solve_decision. Defined.
End QueueReplacePayload.

Module QueueCancelPayload.
Inductive t := mk.
#[global] Instance eq_dec : EqDecision t.
Proof. solve_decision. Defined.
End QueueCancelPayload.

Module SteerPayload.
Record t := mk {
  prompt : string;
  expected_turn : option TurnId.t;
}.
#[global] Instance eq_dec : EqDecision t.
Proof. solve_decision. Defined.
End SteerPayload.

Module InterruptPayload.
Record t := mk {
  expected_turn : option TurnId.t;
}.
#[global] Instance eq_dec : EqDecision t.
Proof. solve_decision. Defined.
End InterruptPayload.

Module AnswerQuestionPayload.
Record t := mk {
  question_id : string;
  option_ids : list string;
  free_text : string;
}.
#[global] Instance eq_dec : EqDecision t.
Proof. solve_decision. Defined.
End AnswerQuestionPayload.

Module AnswerApprovalPayload.
Record t := mk {
  approval_id : string;
  decision_id : string;
}.
#[global] Instance eq_dec : EqDecision t.
Proof. solve_decision. Defined.
End AnswerApprovalPayload.

Module UpdateSettingsPayload.
Record t := mk {
  updates : list SettingUpdate.t;
}.
#[global] Instance eq_dec : EqDecision t.
Proof. solve_decision. Defined.
End UpdateSettingsPayload.

Module RenameTaskPayload.
Record t := mk {
  new_title : string;
}.
#[global] Instance eq_dec : EqDecision t.
Proof. solve_decision. Defined.
End RenameTaskPayload.

Module ForkTaskPayload.
Record t := mk {
  new_title : string;
}.
#[global] Instance eq_dec : EqDecision t.
Proof. solve_decision. Defined.
End ForkTaskPayload.

Module ArchiveTaskPayload.
Inductive t := mk.
#[global] Instance eq_dec : EqDecision t.
Proof. solve_decision. Defined.
End ArchiveTaskPayload.

Module UnarchiveTaskPayload.
Inductive t := mk.
#[global] Instance eq_dec : EqDecision t.
Proof. solve_decision. Defined.
End UnarchiveTaskPayload.

Module StopBackgroundCommandPayload.
Record t := mk {
  command_id : string;
}.
#[global] Instance eq_dec : EqDecision t.
Proof. solve_decision. Defined.
End StopBackgroundCommandPayload.

Module StopAllBackgroundCommandsPayload.
Inductive t := mk.
#[global] Instance eq_dec : EqDecision t.
Proof. solve_decision. Defined.
End StopAllBackgroundCommandsPayload.

Module CommandRequest.
Inductive Payload :=
| CreateTask (x : CreateTaskPayload.t)
| StartTurn (x : StartTurnPayload.t)
| QueueSet (x : QueueSetPayload.t)
| QueueReplace (x : QueueReplacePayload.t)
| QueueCancel (x : QueueCancelPayload.t)
| Steer (x : SteerPayload.t)
| Interrupt (x : InterruptPayload.t)
| AnswerQuestion (x : AnswerQuestionPayload.t)
| AnswerApproval (x : AnswerApprovalPayload.t)
| UpdateSettings (x : UpdateSettingsPayload.t)
| RenameTask (x : RenameTaskPayload.t)
| ArchiveTask (x : ArchiveTaskPayload.t)
| UnarchiveTask (x : UnarchiveTaskPayload.t)
| ForkTask (x : ForkTaskPayload.t)
| StopBackgroundCommand (x : StopBackgroundCommandPayload.t)
| StopAllBackgroundCommands (x : StopAllBackgroundCommandsPayload.t).
#[global] Instance payload_eq_dec : EqDecision Payload.
Proof. solve_decision. Defined.
Record t := mk {
  request_id : string;
  operation : Z;
  session_key : option SessionKey.t;
  expected_turn_id : option TurnId.t;
  expected_runtime_revision : option Z;
  payload_digest : string;
  payload : option Payload;
}.
#[global] Instance eq_dec : EqDecision t.
Proof. solve_decision. Defined.
End CommandRequest.

Module CommandAccepted.
Record t := mk {
  request_id : string;
  status : Z;
  accepted_at : option Timestamp.t;
}.
#[global] Instance eq_dec : EqDecision t.
Proof. solve_decision. Defined.
End CommandAccepted.

Module CommandResult.
Record t := mk {
  request_id : string;
  status : Z;
  error_code : Z;
  details : gmap string string;
  duration_ms : option Z;
}.
#[global] Instance eq_dec : EqDecision t.
Proof. solve_decision. Defined.
End CommandResult.

Module SessionSummary.
Record t := mk {
  session_key : option SessionKey.t;
  title : string;
  agent_kind : Z;
  project_display_name : string;
  current_branch : string;
  updated_at : option Timestamp.t;
  device_connection : Z;
  device_last_seen_at : option Timestamp.t;
  degraded_reason : string;
  control_mode : Z;
  compatibility_state : Z;
  active_turn_phase : Z;
  pending_attention_count : Z;
  pending_attention_kinds : list Z;
  queue_state : Z;
  last_turn_outcome : Z;
  pinned : bool;
  muted : bool;
  archived : bool;
}.
#[global] Instance eq_dec : EqDecision t.
Proof. solve_decision. Defined.
End SessionSummary.

Module SessionSummaryBatch.
Record t := mk {
  summaries : list SessionSummary.t;
  snapshot : bool;
}.
#[global] Instance eq_dec : EqDecision t.
Proof. solve_decision. Defined.
End SessionSummaryBatch.

Module CurrentTurn.
Record t := mk {
  turn : option TurnId.t;
  phase : Z;
  started_at : option Timestamp.t;
}.
#[global] Instance eq_dec : EqDecision t.
Proof. solve_decision. Defined.
End CurrentTurn.

Module PlanStep.
Record t := mk {
  step_id : string;
  title : string;
  status : Z;
}.
#[global] Instance eq_dec : EqDecision t.
Proof. solve_decision. Defined.
End PlanStep.

Module Plan.
Record t := mk {
  steps : list PlanStep.t;
}.
#[global] Instance eq_dec : EqDecision t.
Proof. solve_decision. Defined.
End Plan.

Module QuestionOption.
Record t := mk {
  option_id : string;
  label : string;
}.
#[global] Instance eq_dec : EqDecision t.
Proof. solve_decision. Defined.
End QuestionOption.

Module PendingAttentionQuestion.
Record t := mk {
  question_id : string;
  title : string;
  description : string;
  options : list QuestionOption.t;
  allow_multiple : bool;
  allow_free_text : bool;
  turn : option TurnId.t;
  created_at : option Timestamp.t;
  valid : bool;
}.
#[global] Instance eq_dec : EqDecision t.
Proof. solve_decision. Defined.
End PendingAttentionQuestion.

Module ApprovalDecision.
Record t := mk {
  decision_id : string;
  label : string;
}.
#[global] Instance eq_dec : EqDecision t.
Proof. solve_decision. Defined.
End ApprovalDecision.

Module PendingAttentionApproval.
Record t := mk {
  approval_id : string;
  risk_description : string;
  requested_action : string;
  decisions : list ApprovalDecision.t;
  scope : string;
  turn : option TurnId.t;
  created_at : option Timestamp.t;
  valid : bool;
}.
#[global] Instance eq_dec : EqDecision t.
Proof. solve_decision. Defined.
End PendingAttentionApproval.

Module SettingValue.
Record t := mk {
  value : string;
  label : string;
}.
#[global] Instance eq_dec : EqDecision t.
Proof. solve_decision. Defined.
End SettingValue.

Module SettingOption.
Record t := mk {
  option_id : string;
  kind : Z;
  label : string;
  current_value : string;
  available_values : list SettingValue.t;
  mutable : bool;
}.
#[global] Instance eq_dec : EqDecision t.
Proof. solve_decision. Defined.
End SettingOption.

Module RunningCommand.
Record t := mk {
  command_id : string;
  item_id : option ItemId.t;
  started_at : option Timestamp.t;
}.
#[global] Instance eq_dec : EqDecision t.
Proof. solve_decision. Defined.
End RunningCommand.

Module BackgroundCommand.
Record t := mk {
  command_id : string;
  item_id : option ItemId.t;
  state : Z;
  started_at : option Timestamp.t;
  finished_at : option Timestamp.t;
}.
#[global] Instance eq_dec : EqDecision t.
Proof. solve_decision. Defined.
End BackgroundCommand.

Module QueueStatus.
Record t := mk {
  state : Z;
  after_turn_id : option TurnId.t;
  accepted_runtime_revision : Z;
}.
#[global] Instance eq_dec : EqDecision t.
Proof. solve_decision. Defined.
End QueueStatus.

Module OutputCursor.
Record t := mk {
  item_id : option ItemId.t;
  revision : Z;
  byte_length : Z;
  is_final : bool;
  channel : Z;
}.
#[global] Instance eq_dec : EqDecision t.
Proof. solve_decision. Defined.
End OutputCursor.

Module CapabilitySnapshot.
Record t := mk {
  control_mode : Z;
  compatibility_state : Z;
  codex_version : string;
  supported_operations : list Z;
  settings : list SettingOption.t;
  transfer_limits : option TransferLimits.t;
}.
#[global] Instance eq_dec : EqDecision t.
Proof. solve_decision. Defined.
End CapabilitySnapshot.

Module RuntimeSnapshot.
Record t := mk {
  runtime_revision : Z;
  current_turn : option CurrentTurn.t;
  plan : option Plan.t;
  pending_questions : list PendingAttentionQuestion.t;
  pending_approvals : list PendingAttentionApproval.t;
  running_commands : list RunningCommand.t;
  background_commands : list BackgroundCommand.t;
  background_command_count : Z;
  queue : option QueueStatus.t;
  capabilities : option CapabilitySnapshot.t;
  recent_output_cursors : list OutputCursor.t;
}.
#[global] Instance eq_dec : EqDecision t.
Proof. solve_decision. Defined.
End RuntimeSnapshot.

Module UserMessage.
Record t := mk {
  text : string;
}.
#[global] Instance eq_dec : EqDecision t.
Proof. solve_decision. Defined.
End UserMessage.

Module AssistantMessage.
Record t := mk {
  text : string;
  final : bool;
}.
#[global] Instance eq_dec : EqDecision t.
Proof. solve_decision. Defined.
End AssistantMessage.

Module ReasoningSummary.
Record t := mk {
  text : string;
}.
#[global] Instance eq_dec : EqDecision t.
Proof. solve_decision. Defined.
End ReasoningSummary.

Module ToolCall.
Record t := mk {
  tool_call_id : string;
  name : string;
  status : Z;
  summary : string;
  duration_ms : Z;
}.
#[global] Instance eq_dec : EqDecision t.
Proof. solve_decision. Defined.
End ToolCall.

Module CommandStatusItem.
Record t := mk {
  command_id : string;
  state : Z;
  started_at : option Timestamp.t;
  finished_at : option Timestamp.t;
  duration_ms : Z;
}.
#[global] Instance eq_dec : EqDecision t.
Proof. solve_decision. Defined.
End CommandStatusItem.

Module FileChange.
Record t := mk {
  path : string;
  kind : Z;
  new_path : string;
  inline_diff : list byte;
  diff_truncated : bool;
}.
#[global] Instance eq_dec : EqDecision t.
Proof. solve_decision. Defined.
End FileChange.

Module FileChangeSet.
Record t := mk {
  files : list FileChange.t;
}.
#[global] Instance eq_dec : EqDecision t.
Proof. solve_decision. Defined.
End FileChangeSet.

Module SubAgentStatus.
Record t := mk {
  subagent_turn : option TurnId.t;
  parent_turn : option TurnId.t;
  label : string;
  phase : Z;
  outcome : Z;
}.
#[global] Instance eq_dec : EqDecision t.
Proof. solve_decision. Defined.
End SubAgentStatus.

Module TokenUsage.
Record t := mk {
  input_tokens : Z;
  output_tokens : Z;
  context_used_tokens : Z;
  context_window_tokens : Z;
}.
#[global] Instance eq_dec : EqDecision t.
Proof. solve_decision. Defined.
End TokenUsage.

Module Item.
Inductive Content :=
| UserMessage (x : UserMessage.t)
| AssistantMessage (x : AssistantMessage.t)
| ReasoningSummary (x : ReasoningSummary.t)
| Plan (x : Plan.t)
| ToolCall (x : ToolCall.t)
| CommandStatus (x : CommandStatusItem.t)
| FileChange (x : FileChangeSet.t)
| SubagentStatus (x : SubAgentStatus.t)
| Question (x : PendingAttentionQuestion.t)
| Approval (x : PendingAttentionApproval.t)
| TokenUsage (x : TokenUsage.t).
#[global] Instance content_eq_dec : EqDecision Content.
Proof. solve_decision. Defined.
Record t := mk {
  item_id : option ItemId.t;
  turn : option TurnId.t;
  revision : Z;
  created_at : option Timestamp.t;
  content : option Content;
}.
#[global] Instance eq_dec : EqDecision t.
Proof. solve_decision. Defined.
End Item.

Module HistoryEntry.
Record t := mk {
  turn : option TurnId.t;
  item : option Item.t;
}.
#[global] Instance eq_dec : EqDecision t.
Proof. solve_decision. Defined.
End HistoryEntry.

Module HistoryPage.
Record t := mk {
  entries : list HistoryEntry.t;
  next_cursor : string;
  has_more : bool;
}.
#[global] Instance eq_dec : EqDecision t.
Proof. solve_decision. Defined.
End HistoryPage.

Module CommandOutputPage.
Record t := mk {
  item_id : option ItemId.t;
  next_cursor : string;
  bytes : list byte;
  is_final : bool;
  channel : Z;
}.
#[global] Instance eq_dec : EqDecision t.
Proof. solve_decision. Defined.
End CommandOutputPage.

Module RuntimeSnapshotQuery.
Inductive t := mk.
#[global] Instance eq_dec : EqDecision t.
Proof. solve_decision. Defined.
End RuntimeSnapshotQuery.

Module HistoryPageQuery.
Record t := mk {
  cursor : string;
  page_size : Z;
}.
#[global] Instance eq_dec : EqDecision t.
Proof. solve_decision. Defined.
End HistoryPageQuery.

Module CommandOutputPageQuery.
Record t := mk {
  item_id : option ItemId.t;
  cursor : string;
  page_size : Z;
}.
#[global] Instance eq_dec : EqDecision t.
Proof. solve_decision. Defined.
End CommandOutputPageQuery.

Module GitSummaryQuery.
Inductive t := mk.
#[global] Instance eq_dec : EqDecision t.
Proof. solve_decision. Defined.
End GitSummaryQuery.

Module GitFileDiffQuery.
Record t := mk {
  relative_path : string;
  staged : bool;
}.
#[global] Instance eq_dec : EqDecision t.
Proof. solve_decision. Defined.
End GitFileDiffQuery.

Module FileMetadataQuery.
Record t := mk {
  file_handle : string;
}.
#[global] Instance eq_dec : EqDecision t.
Proof. solve_decision. Defined.
End FileMetadataQuery.

Module QueryRequest.
Inductive Query :=
| RuntimeSnapshot (x : RuntimeSnapshotQuery.t)
| HistoryPage (x : HistoryPageQuery.t)
| CommandOutputPage (x : CommandOutputPageQuery.t)
| GitSummary (x : GitSummaryQuery.t)
| GitFileDiff (x : GitFileDiffQuery.t)
| FileMetadata (x : FileMetadataQuery.t).
#[global] Instance query_eq_dec : EqDecision Query.
Proof. solve_decision. Defined.
Record t := mk {
  session_key : option SessionKey.t;
  query : option Query;
}.
#[global] Instance eq_dec : EqDecision t.
Proof. solve_decision. Defined.
End QueryRequest.

Module GitStatusEntry.
Record t := mk {
  relative_path : string;
  status : string;
  staged : bool;
}.
#[global] Instance eq_dec : EqDecision t.
Proof. solve_decision. Defined.
End GitStatusEntry.

Module GitSummaryData.
Record t := mk {
  branch : string;
  detached_head : bool;
  head_short : string;
  head_full : string;
  root_display_name : string;
  entries : list GitStatusEntry.t;
  insertions : Z;
  deletions : Z;
  binary_files : list string;
}.
#[global] Instance eq_dec : EqDecision t.
Proof. solve_decision. Defined.
End GitSummaryData.

Module GitFileDiffData.
Record t := mk {
  relative_path : string;
  staged : bool;
  patch_text : string;
  truncated : bool;
  total_bytes : Z;
  binary : bool;
}.
#[global] Instance eq_dec : EqDecision t.
Proof. solve_decision. Defined.
End GitFileDiffData.

Module FileMetadataData.
Record t := mk {
  display_name : string;
  mime_type : string;
  size_bytes : Z;
  preview_kind : string;
  not_previewable_reason : string;
  file_handle : string;
}.
#[global] Instance eq_dec : EqDecision t.
Proof. solve_decision. Defined.
End FileMetadataData.

Module QueryResponse.
Inductive Result :=
| RuntimeSnapshot (x : RuntimeSnapshot.t)
| HistoryPage (x : HistoryPage.t)
| CommandOutputPage (x : CommandOutputPage.t)
| GitSummary (x : GitSummaryData.t)
| GitFileDiff (x : GitFileDiffData.t)
| FileMetadata (x : FileMetadataData.t).
#[global] Instance result_eq_dec : EqDecision Result.
Proof. solve_decision. Defined.
Record t := mk {
  request_id : string;
  result : option Result;
  error_code : Z;
}.
#[global] Instance eq_dec : EqDecision t.
Proof. solve_decision. Defined.
End QueryResponse.

Module OutputAppend.
Record t := mk {
  item_id : option ItemId.t;
  expected_offset : Z;
  bytes : list byte;
  channel : Z;
}.
#[global] Instance eq_dec : EqDecision t.
Proof. solve_decision. Defined.
End OutputAppend.

Module OutputReplace.
Inductive Content :=
| Bytes (x : list byte)
| PageCursor (x : string).
#[global] Instance content_eq_dec : EqDecision Content.
Proof. solve_decision. Defined.
Record t := mk {
  item_id : option ItemId.t;
  revision : Z;
  content : option Content;
  channel : Z;
}.
#[global] Instance eq_dec : EqDecision t.
Proof. solve_decision. Defined.
End OutputReplace.

Module OutputFinal.
Record t := mk {
  item_id : option ItemId.t;
  revision : Z;
  byte_length : Z;
  channel : Z;
}.
#[global] Instance eq_dec : EqDecision t.
Proof. solve_decision. Defined.
End OutputFinal.

Module TurnLifecycle.
Record t := mk {
  turn : option TurnId.t;
  phase : Z;
  outcome : Z;
  finished_at : option Timestamp.t;
}.
#[global] Instance eq_dec : EqDecision t.
Proof. solve_decision. Defined.
End TurnLifecycle.

Module ItemUpsert.
Record t := mk {
  item : option Item.t;
}.
#[global] Instance eq_dec : EqDecision t.
Proof. solve_decision. Defined.
End ItemUpsert.

Module PendingAttentionAdded.
Inductive Attention :=
| Question (x : PendingAttentionQuestion.t)
| Approval (x : PendingAttentionApproval.t).
#[global] Instance attention_eq_dec : EqDecision Attention.
Proof. solve_decision. Defined.
Record t := mk {
  attention : option Attention;
}.
#[global] Instance eq_dec : EqDecision t.
Proof. solve_decision. Defined.
End PendingAttentionAdded.

Module PendingAttentionRemoved.
Record t := mk {
  kind : Z;
  native_id : string;
  turn : option TurnId.t;
}.
#[global] Instance eq_dec : EqDecision t.
Proof. solve_decision. Defined.
End PendingAttentionRemoved.

Module QueueStateChanged.
Record t := mk {
  queue : option QueueStatus.t;
}.
#[global] Instance eq_dec : EqDecision t.
Proof. solve_decision. Defined.
End QueueStateChanged.

Module BackgroundCommandChanged.
Record t := mk {
  command : option BackgroundCommand.t;
}.
#[global] Instance eq_dec : EqDecision t.
Proof. solve_decision. Defined.
End BackgroundCommandChanged.

Module DevicePresenceChanged.
Record t := mk {
  presence : option DevicePresence.t;
}.
#[global] Instance eq_dec : EqDecision t.
Proof. solve_decision. Defined.
End DevicePresenceChanged.

Module CapabilityChanged.
Record t := mk {
  capabilities : option CapabilitySnapshot.t;
}.
#[global] Instance eq_dec : EqDecision t.
Proof. solve_decision. Defined.
End CapabilityChanged.

Module DomainEvent.
Inductive Event :=
| TurnLifecycle (x : TurnLifecycle.t)
| ItemUpsert (x : ItemUpsert.t)
| OutputAppend (x : OutputAppend.t)
| OutputReplace (x : OutputReplace.t)
| OutputFinal (x : OutputFinal.t)
| SessionSummaryChanged (x : SessionSummary.t)
| PendingAttentionAdded (x : PendingAttentionAdded.t)
| PendingAttentionRemoved (x : PendingAttentionRemoved.t)
| QueueStateChanged (x : QueueStateChanged.t)
| BackgroundCommandChanged (x : BackgroundCommandChanged.t)
| DevicePresenceChanged (x : DevicePresenceChanged.t)
| CapabilityChanged (x : CapabilityChanged.t).
#[global] Instance event_eq_dec : EqDecision Event.
Proof. solve_decision. Defined.
Record t := mk {
  emitted_at : option Timestamp.t;
  event : option Event;
}.
#[global] Instance eq_dec : EqDecision t.
Proof. solve_decision. Defined.
End DomainEvent.

Module EventBatch.
Record t := mk {
  stream_id : string;
  events : list DomainEvent.t;
}.
#[global] Instance eq_dec : EqDecision t.
Proof. solve_decision. Defined.
End EventBatch.

Module TransferOffer.
Record t := mk {
  transfer_id : string;
  direction : Z;
  session_key : option SessionKey.t;
  file_name : string;
  mime_type : string;
  size_bytes : Z;
  file_handle : string;
  range_start : Z;
  range_end_inclusive : option Z;
  expires_at : option Timestamp.t;
}.
#[global] Instance eq_dec : EqDecision t.
Proof. solve_decision. Defined.
End TransferOffer.

Module TransferReady.
Record t := mk {
  transfer_id : string;
  ready : bool;
  rejection_code : Z;
}.
#[global] Instance eq_dec : EqDecision t.
Proof. solve_decision. Defined.
End TransferReady.

Module TransferResult.
Record t := mk {
  transfer_id : string;
  outcome : Z;
  error_code : Z;
  upload_file_handle : string;
}.
#[global] Instance eq_dec : EqDecision t.
Proof. solve_decision. Defined.
End TransferResult.

End pb.
