(* ===== verification/FilePolicy.v ===== *)
(** * What a file may be shown or downloaded as ([files/mod.rs], [files/policy.rs])

    The errors of the file plane and their stable codes, the limits, the classification of a
    file by its first bytes, the size checks, and the single [Range] of a request.  The
    recognition of file types by magic numbers is the crate [infer], a parameter. *)

From S2P Require Import Prelude Bytes RustStr.

Notation kib := 1024.
Notation mib := (1024 * 1024).

Definition MAX_TEXT_PREVIEW_BYTES : Z := 2 * mib.
Definition MAX_IMAGE_PREVIEW_BYTES : Z := 25 * mib.
Definition MAX_PDF_PREVIEW_BYTES : Z := 100 * mib.
Definition MAX_DOWNLOAD_BYTES : Z := 512 * mib.
Definition MAX_UPLOAD_BYTES : Z := 20 * mib.
Definition SNIFF_PREFIX_BYTES : Z := 8 * kib.
Definition TRANSFER_CHUNK_BYTES : Z := 64 * kib.
Definition CACHE_CONTROL : string := "private, no-store".

Module PreviewLimits.
Record t := mk {
  text_preview_bytes : Z;
  image_preview_bytes : Z;
  pdf_preview_bytes : Z;
  download_bytes : Z;
  upload_bytes : Z;
}.
End PreviewLimits.

Definition preview_limits : PreviewLimits.t :=
  PreviewLimits.mk MAX_TEXT_PREVIEW_BYTES MAX_IMAGE_PREVIEW_BYTES MAX_PDF_PREVIEW_BYTES
    MAX_DOWNLOAD_BYTES MAX_UPLOAD_BYTES.

(** ** Errors *)

Module NotPreviewableReason.
Inductive t :=
| TypeUnsupported
| SizeLimit (size limit : Z).
#[global] Instance eq_dec : EqDecision t.
Proof. solve_decision. Defined.
End NotPreviewableReason.

(** The payload of [Io] is only displayed. *)
Module FilesError.
Inductive t :=
| HandleInvalid (reason : string)
| OutsideScope
| Changed
| NotPreviewable (reason : NotPreviewableReason.t)
| TransferExpired
| TooLarge
| RangeInvalid
| Io
| TooManyTransfers
| Internal (reason : string).
#[global] Instance eq_dec : EqDecision t.
Proof. solve_decision. Defined.

Definition stable_code (e : t) : string :=
  match e with
  | HandleInvalid _ => "FILE_HANDLE_INVALID"
  | OutsideScope => "FILE_OUTSIDE_SCOPE"
  | Changed => "FILE_CHANGED"
  | NotPreviewable _ => "FILE_TYPE_NOT_PREVIEWABLE"
  | TransferExpired => "TRANSFER_EXPIRED"
  | TooLarge => "TRANSFER_TOO_LARGE"
  | RangeInvalid => "TRANSFER_RANGE_INVALID"
  | TooManyTransfers => "RATE_LIMITED"
  | Io | Internal _ => "INTERNAL_ERROR"
  end.
End FilesError.

(** ** Classification *)

Module Classification.
Inductive t :=
| InlineText
| InlineImage (mime : string)
| InlinePdf
| Attachment (mime : string).
#[global] Instance eq_dec : EqDecision t.
Proof. solve_decision. Defined.

Definition content_type (c : t) : string :=
  match c with
  | InlineText => "text/plain; charset=utf-8"
  | InlineImage m | Attachment m => m
  | InlinePdf => "application/pdf"
  end.

Definition is_inline (c : t) : bool :=
  match c with Attachment _ => false | _ => true end.

Definition preview_limit (c : t) : option Z :=
  match c with
  | InlineText => Some MAX_TEXT_PREVIEW_BYTES
  | InlineImage _ => Some MAX_IMAGE_PREVIEW_BYTES
  | InlinePdf => Some MAX_PDF_PREVIEW_BYTES
  | Attachment _ => None
  end.
End Classification.

(** [infer::get(bytes).map(|t| t.mime_type())]. *)
Class Infer := infer_get : list byte -> option string.

Definition classify `{Infer} (prefix : list byte) : Classification.t :=
  match infer_get prefix with
  | Some mime =>
      if starts_with mime "text/" || bool_decide (mime = "image/svg+xml") then Classification.InlineText
      else if bool_decide (mime = "image/png") || bool_decide (mime = "image/jpeg")
              || bool_decide (mime = "image/webp") || bool_decide (mime = "image/gif")
      then Classification.InlineImage mime
      else if bool_decide (mime = "application/pdf") then Classification.InlinePdf
      else Classification.Attachment mime
  | None =>
      if utf8_valid prefix then Classification.InlineText
      else Classification.Attachment "application/octet-stream"
  end.

Definition check_preview (classification : Classification.t) (size : Z) :
    res NotPreviewableReason.t unit :=
  match Classification.preview_limit classification with
  | None => Err NotPreviewableReason.TypeUnsupported
  | Some limit => if limit <? size then Err (NotPreviewableReason.SizeLimit size limit) else Ok tt
  end.

Definition check_download (size : Z) : res FilesError.t unit :=
  if MAX_DOWNLOAD_BYTES <? size then Err FilesError.TooLarge else Ok tt.

(** ** [Range] *)

Module HttpRange.
Record t := mk {
  start : Z;
  end_inclusive : Z;
}.
#[global] Instance eq_dec : EqDecision t.
Proof. solve_decision. Defined.

(** The subtractions are of [u64]; [end_inclusive >= start] in every range the code makes. *)
Definition len (r : t) : Z := end_inclusive r - start r + 1.

Definition content_range_value (r : t) (total : Z) : string :=
  "bytes " +:+ pretty (start r) +:+ "-" +:+ pretty (end_inclusive r) +:+ "/" +:+ pretty total.
End HttpRange.

Definition comma : Ascii.ascii := byte_char 44.
Definition dash : Ascii.ascii := byte_char 45.

Definition parse_single_range (header : string) (total : Z) : res FilesError.t HttpRange.t :=
  let? spec := ok_or FilesError.RangeInvalid (strip_prefix "bytes=" (trim header)) in
  if contains_char comma spec then Err FilesError.RangeInvalid
  else
    let spec := trim spec in
    let? (start_s, end_s) := ok_or FilesError.RangeInvalid (split_once dash spec) in
    if bool_decide (start_s = "") then
      let? n := ok_or FilesError.RangeInvalid (parse_u64 (trim end_s)) in
      if (n =? 0) || (total =? 0) then Err FilesError.RangeInvalid
      else Ok (HttpRange.mk (sat_sub total n) (total - 1))
    else
      let? start := ok_or FilesError.RangeInvalid (parse_u64 (trim start_s)) in
      if total <=? start then Err FilesError.RangeInvalid
      else
        let? e :=
          (if bool_decide (end_s = "") then Ok (total - 1)
           else
             let? e := ok_or FilesError.RangeInvalid (parse_u64 (trim end_s)) in
             if e <? start then Err FilesError.RangeInvalid else Ok (Z.min e (total - 1))) in
        Ok (HttpRange.mk start e).

(** ** The range a Bridge is asked for ([runtime/transfers.rs])

    [start] and [end_inclusive] as they arrive in the offer; the sum wraps at 64 bits (in a build
    that checks overflow it panics). *)
Definition range_header_of (start : Z) (end_inclusive : option Z) (total : Z) : option string :=
  match end_inclusive with
  | None => if start =? 0 then None else Some ("bytes=" +:+ pretty start +:+ "-")
  | Some e =>
      if (start =? 0) && (total <=? as_u64 (e + 1)) then None
      else Some ("bytes=" +:+ pretty start +:+ "-" +:+ pretty e)
  end.

(** What [open_slice] makes of the header: the offset, the number of bytes and the range. *)
Definition slice_of (range_header : option string) (total : Z) :
    res FilesError.t (Z * Z * option HttpRange.t) :=
  match range_header with
  | Some h =>
      let? r := parse_single_range h total in
      Ok (HttpRange.start r, HttpRange.len r, Some r)
  | None => Ok (0, total, None)
  end.
