(* ===== verification/Grants.v ===== *)
(** * Handles of files ([files/grant.rs], [open_slice] of [files/policy.rs])

    A handle binds a device, a session, an authorised root, a path below it, the allowed actions
    and what identified the file when the handle was issued.  Reading through a handle resolves
    the path again and compares the opened file with what was recorded.

    The file system is the environment: every call is an operation with an arbitrary answer, so
    that files, directories and links may change between two calls.  The two maps of the manager
    are changed by critical sections ([lookup_valid], [insert_grant], ...), which read the clock
    of the process.  Paths are byte strings with the components of [std::path] on Unix. *)

From S2P Require Import Prelude Bytes RustStr Prog FilePolicy.

(** ** Paths ([std::path], Unix) *)

Module Component.
Inductive t :=
| RootDir
| CurDir
| ParentDir
| Normal (name : string).
#[global] Instance eq_dec : EqDecision t.
Proof. solve_decision. Defined.
End Component.

(** The pieces between separators. *)
Fixpoint split_slash (s : string) : list string :=
  match s with
  | EmptyString => [""]
  | String c s =>
      if Ascii.eqb c slash then "" :: split_slash s
      else match split_slash s with
           | [] => [String c ""]
           | p :: ps => String c p :: ps
           end
  end.

Definition path_is_absolute (p : string) : bool := starts_with p "/".

Definition component_of (p : string) : option Component.t :=
  if bool_decide (p = "") || bool_decide (p = ".") then None
  else if bool_decide (p = "..") then Some Component.ParentDir
  else Some (Component.Normal p).

(** [Path::components]: repeated separators and inner [.] disappear. *)
Definition path_components (p : string) : list Component.t :=
  if path_is_absolute p then Component.RootDir :: omap component_of (split_slash p)
  else match split_slash p with
       | "." :: ps => Component.CurDir :: omap component_of ps
       | ps => omap component_of ps
       end.

Definition ends_with_slash (p : string) : bool :=
  match strip_suffix "/" p with Some _ => true | None => false end.

(** [Path::join]. *)
Definition path_join (base p : string) : string :=
  if path_is_absolute p then p
  else if bool_decide (base = "") || ends_with_slash base then base +:+ p
  else base +:+ "/" +:+ p.

Fixpoint list_starts_with {A} `{EqDecision A} (l prefix : list A) : bool :=
  match prefix, l with
  | [], _ => true
  | y :: prefix, x :: l => bool_decide (x = y) && list_starts_with l prefix
  | _ :: _, [] => false
  end.

(** [Path::starts_with]. *)
Definition path_starts_with (p base : string) : bool :=
  list_starts_with (path_components p) (path_components base).

(** ** Data *)

Definition DEFAULT_GRANT_TTL : Z := 600 * 1000.
Definition MAX_GRANT_TTL : Z := 3600 * 1000.
Definition MAX_ACTIVE_TRANSFERS_PER_DEVICE : Z := 2.

Module GrantAction.
Inductive t := Preview | Download | Upload.
#[global] Instance eq_dec : EqDecision t.
Proof. solve_decision. Defined.
End GrantAction.

(** A [u8] of flags. *)
Module GrantActions.
Definition t : Type := Z.
Definition PREVIEW : t := 1.
Definition DOWNLOAD : t := Z.shiftl 1 1.
Definition UPLOAD : t := Z.shiftl 1 2.
Definition all : t := 7.

Definition allows (x : t) (a : GrantAction.t) : bool :=
  let bit := match a with
             | GrantAction.Preview => PREVIEW
             | GrantAction.Download => DOWNLOAD
             | GrantAction.Upload => UPLOAD
             end in
  negb (Z.land x bit =? 0).

Definition bitor (x y : t) : t := Z.lor x y.
End GrantActions.

Module GrantSource.
Inductive t :=
| SessionUpload
| SessionReference (evidence : string)
| UserOpened.
End GrantSource.

Module GrantSourceKind.
Inductive t := Upload | SessionReference | UserOpened.
End GrantSourceKind.

Module FileIdentity.
Record t := mk {
  dev : Z;
  ino : Z;
}.
#[global] Instance eq_dec : EqDecision t.
Proof. solve_decision. Defined.
End FileIdentity.

(** What [fstat] and [stat] report, as far as the code looks. *)
Module Metadata.
Record t := mk {
  dev : Z;
  ino : Z;
  len : Z;
  mtime : Z;
  mtime_nsec : Z;
  is_file : bool;
}.
End Metadata.

Definition identity_of (md : Metadata.t) : FileIdentity.t :=
  FileIdentity.mk (Metadata.dev md) (Metadata.ino md).
Definition mtime_ns_of (md : Metadata.t) : Z := Metadata.mtime md * 1000000000 + Metadata.mtime_nsec md.

Module FileHandle.
Record t := mk {
  token : string;
  device_id : string;
  session : string;
  root : string;
  relative_path : string;
  actions : GrantActions.t;
  source_kind : GrantSourceKind.t;
  identity : FileIdentity.t;
  size : Z;
  mtime_ns : Z;
  expires_at : Z;
}.
End FileHandle.

(** An open file descriptor. *)
Definition Fd : Type := nat.

Module VerifiedFile.
Record t := mk {
  file : Fd;
  size : Z;
  mtime_ns : Z;
  identity : FileIdentity.t;
  handle : FileHandle.t;
}.
End VerifiedFile.

Module GrantEntry.
Record t := mk {
  handle : FileHandle.t;
  deadline : Z;
}.
End GrantEntry.

(** The two maps behind the mutexes of [FileGrantManager], the clock of the process, and the
    grants ever inserted, newest first, with the instant of insertion (a history that no code
    reads). *)
Module Grants.
Record t := mk {
  grants : gmap string GrantEntry.t;
  transfers : gmap string Z;
  clock : Z;
  issued : list (Z * GrantEntry.t);
}.

Definition with_grants (x : gmap string GrantEntry.t) (w : t) : t := mk x (transfers w) (clock w) (issued w).
Definition with_transfers (x : gmap string Z) (w : t) : t := mk (grants w) x (clock w) (issued w).
Definition init : t := mk ∅ ∅ 0 [].
End Grants.

Import Grants (grants, transfers, clock, issued).

(** ** The critical sections *)

Definition insert_grant (handle : FileHandle.t) (ttl : Z) (w : Grants.t) : Grants.t :=
  let e := GrantEntry.mk handle (clock w + ttl) in
  Grants.mk (<[FileHandle.token handle := e]> (grants w)) (transfers w) (clock w) ((clock w, e) :: issued w).

Definition lookup_valid (device_id session token : string) (action : GrantAction.t) (w : Grants.t) :
    res FilesError.t FileHandle.t * Grants.t :=
  match grants w !! token with
  | None => (Err (FilesError.HandleInvalid "unknown token"), w)
  | Some entry =>
      if GrantEntry.deadline entry <=? clock w then
        (Err FilesError.TransferExpired, Grants.with_grants (delete token (grants w)) w)
      else
        let h := GrantEntry.handle entry in
        if negb (bool_decide (FileHandle.device_id h = device_id))
           || negb (bool_decide (FileHandle.session h = session))
        then (Err (FilesError.HandleInvalid "binding mismatch"), w)
        else if negb (GrantActions.allows (FileHandle.actions h) action)
        then (Err (FilesError.HandleInvalid "action not allowed"), w)
        else (Ok h, w)
  end.

Definition revoke (token : string) (w : Grants.t) : bool * Grants.t :=
  (bool_decide (is_Some (grants w !! token)), Grants.with_grants (delete token (grants w)) w).

Definition sweep_expired (w : Grants.t) : Z * Grants.t :=
  let kept := filter (fun x : string * GrantEntry.t => clock w < GrantEntry.deadline x.2) (grants w) in
  (Z.of_nat (size (grants w)) - Z.of_nat (size kept), Grants.with_grants kept w).

(** A slot is a guard; [drop_transfer_slot] is its [Drop]. *)
Definition acquire_transfer_slot (device_id : string) (w : Grants.t) : res FilesError.t unit * Grants.t :=
  let count := default 0 (transfers w !! device_id) in
  if MAX_ACTIVE_TRANSFERS_PER_DEVICE <=? count then
    (Err FilesError.TooManyTransfers, Grants.with_transfers (<[device_id := count]> (transfers w)) w)
  else (Ok tt, Grants.with_transfers (<[device_id := count + 1]> (transfers w)) w).

Definition drop_transfer_slot (device_id : string) (w : Grants.t) : Grants.t :=
  match transfers w !! device_id with
  | None => w
  | Some count =>
      let count := as_u64 (count - 1) in
      Grants.with_transfers
        (if count =? 0 then delete device_id (transfers w) else <[device_id := count]> (transfers w)) w
  end.

(** ** Operations of the file plane *)

Inductive fop : Type -> Type :=
| Canonicalize (path : string) : fop (option string)
| IsDir (path : string) : fop bool
| StatPath (path : string) : fop (option Metadata.t)
| OpenFile (path : string) : fop (option Fd)
| StatFd (file : Fd) : fop (option Metadata.t)
| ReadExact (file : Fd) (n : Z) : fop (option (list byte))
| SeekTo (file : Fd) (pos : Z) : fop bool
| SystemNow : fop Z
| NewToken : fop string
| InsertGrant (handle : FileHandle.t) (ttl : Z) : fop unit
| LookupValid (device_id session token : string) (action : GrantAction.t) : fop (res FilesError.t FileHandle.t)
| Revoke (token : string) : fop bool
| SweepExpired : fop Z
| AcquireTransferSlot (device_id : string) : fop (res FilesError.t unit)
| DropTransferSlot (device_id : string) : fop unit
| CreateDirAll (path : string) : fop bool
| CreateDir (path : string) : fop bool
| SetPermissions (path : string) (mode : Z) : fop bool
| CreateFile (path : string) : fop (option Fd)
| SetFilePermissions (file : Fd) (mode : Z) : fop bool
| NewTempName (tag : string) : fop string
| WriteAll (file : Fd) (data : list byte) : fop bool
| SyncAll (file : Fd) : fop bool
| RemoveFile (path : string) : fop unit
| RemoveDir (path : string) : fop unit
| RemoveDirAll (path : string) : fop unit.

Notation fprog := (prog fop).

(** A call that may fail with an I/O error, as a [Result]. *)
Definition io {A} (o : option A) : res FilesError.t A := ok_or FilesError.Io o.
Definition io_unit (ok : bool) : res FilesError.t unit := if ok then Ok tt else Err FilesError.Io.

(** ** Issuing *)

(** The loop of [normalize_relative]. *)
Fixpoint normal_parts (cs : list Component.t) : res FilesError.t (list string) :=
  match cs with
  | [] => Ok []
  | Component.Normal s :: cs => let? ps := normal_parts cs in Ok (s :: ps)
  | _ :: _ => Err (FilesError.HandleInvalid "path traversal rejected")
  end.

Definition normalize_relative (rel : string) : res FilesError.t string :=
  if bool_decide (rel = "") || path_is_absolute rel then
    Err (FilesError.HandleInvalid "relative path required")
  else
    let? ps := normal_parts (path_components rel) in
    match ps with
    | [] => Err (FilesError.HandleInvalid "relative path required")
    | _ => Ok (join "/" ps)
    end.

Definition source_kind_of (source : GrantSource.t) : res FilesError.t GrantSourceKind.t :=
  match source with
  | GrantSource.SessionUpload => Ok GrantSourceKind.Upload
  | GrantSource.SessionReference evidence =>
      if bool_decide (trim evidence = "")
      then Err (FilesError.Internal "session reference requires evidence")
      else Ok GrantSourceKind.SessionReference
  | GrantSource.UserOpened => Ok GrantSourceKind.UserOpened
  end.

Definition issue (device_id session root relative_path : string) (actions : GrantActions.t)
    (source : GrantSource.t) (ttl : Z) : fprog (res FilesError.t FileHandle.t) :=
  if bool_decide (device_id = "") || bool_decide (session = "") then
    Ret (Err (FilesError.Internal "device/session required"))
  else if actions =? 0 then Ret (Err (FilesError.Internal "at least one action required"))
  else
    try? source_kind <- lift (source_kind_of source);
    let ttl := Z.min ttl MAX_GRANT_TTL in
    do root_c <- act (Canonicalize root);
    try? root_c <- lift (ok_or (FilesError.HandleInvalid "root missing") root_c);
    do dir <- act (IsDir root_c);
    if negb dir then Ret (Err (FilesError.HandleInvalid "root not a directory"))
    else
      try? rel <- lift (normalize_relative relative_path);
      do target_c <- act (Canonicalize (path_join root_c rel));
      try? target_c <- lift (ok_or (FilesError.HandleInvalid "target missing") target_c);
      if negb (path_starts_with target_c root_c) then Ret (Err FilesError.OutsideScope)
      else
        do meta <- act (StatPath target_c);
        try? meta <- lift (io meta);
        if negb (Metadata.is_file meta)
        then Ret (Err (FilesError.HandleInvalid "target is not a regular file"))
        else
          do token <- act NewToken;
          do now <- act SystemNow;
          let handle :=
            FileHandle.mk token device_id session root_c rel actions source_kind
              (identity_of meta) (Metadata.len meta) (mtime_ns_of meta) (now + ttl) in
          perform act (InsertGrant handle ttl);
          Ret (Ok handle).

(** ** Reading *)

Definition resolve_for_read (device_id session token : string) (action : GrantAction.t) :
    fprog (res FilesError.t VerifiedFile.t) :=
  try? handle <- act (LookupValid device_id session token action);
  do root_c <- act (Canonicalize (FileHandle.root handle));
  try? root_c <- lift (ok_or (FilesError.HandleInvalid "root missing") root_c);
  do target_c <- act (Canonicalize (path_join root_c (FileHandle.relative_path handle)));
  try? target_c <- lift (ok_or (FilesError.HandleInvalid "target missing") target_c);
  if negb (path_starts_with target_c root_c) then Ret (Err FilesError.OutsideScope)
  else
    do file <- act (OpenFile target_c);
    try? file <- lift (io file);
    do fd_meta <- act (StatFd file);
    try? fd_meta <- lift (io fd_meta);
    if negb (bool_decide (identity_of fd_meta = FileHandle.identity handle))
       || negb (Metadata.len fd_meta =? FileHandle.size handle)
       || negb (mtime_ns_of fd_meta =? FileHandle.mtime_ns handle)
    then Ret (Err FilesError.Changed)
    else
      Ret (Ok (VerifiedFile.mk file (FileHandle.size handle) (FileHandle.mtime_ns handle)
                 (FileHandle.identity handle) handle)).

Module TransferMode.
Inductive t := Preview | Download.
#[global] Instance eq_dec : EqDecision t.
Proof. solve_decision. Defined.
End TransferMode.

(** The body: at most [body_len] bytes of [body] from [offset]. *)
Module FileSlice.
Record t := mk {
  content_type : string;
  inline : bool;
  body : Fd;
  offset : Z;
  body_len : Z;
  content_range : option HttpRange.t;
  total_len : Z;
}.

Definition content_range_value (s : t) : option string :=
  (fun r => HttpRange.content_range_value r (total_len s)) <$> content_range s.
End FileSlice.

Definition open_slice `{Infer} (verified : VerifiedFile.t) (mode : TransferMode.t) (range_header : option string) :
    fprog (res FilesError.t FileSlice.t) :=
  let total := VerifiedFile.size verified in
  try? _ <- lift (check_download total);
  let file := VerifiedFile.file verified in
  let want := Z.min SNIFF_PREFIX_BYTES total in
  do prefix <- act (ReadExact file want);
  try? prefix <- lift (io prefix);
  do rewound <- act (SeekTo file 0);
  try? _ <- lift (io_unit rewound);
  let classification := classify prefix in
  try? _ <- lift (if bool_decide (mode = TransferMode.Preview)
                  then map_err FilesError.NotPreviewable (check_preview classification total)
                  else Ok tt);
  try? (offset, body_len, content_range) <- lift (slice_of range_header total);
  do sought <- (if 0 <? offset then act (SeekTo file offset) else Ret true);
  try? _ <- lift (io_unit sought);
  Ret (Ok (FileSlice.mk (Classification.content_type classification) (Classification.is_inline classification)
             file offset body_len content_range total)).

(** ** Running *)

(** The critical sections change the two maps; every other answer is the environment's. *)
Definition fstep (B : Type) (o : fop B) (w : Grants.t) : option B -> Grants.t -> Prop :=
  match o in fop B return option B -> Grants.t -> Prop with
  | InsertGrant handle ttl => fun b w' => b = Some tt /\ w' = insert_grant handle ttl w
  | LookupValid device_id session token action => fun b w' =>
      b = Some (lookup_valid device_id session token action w).1 /\
      w' = (lookup_valid device_id session token action w).2
  | Revoke token => fun b w' => b = Some (revoke token w).1 /\ w' = (revoke token w).2
  | SweepExpired => fun b w' => b = Some (sweep_expired w).1 /\ w' = (sweep_expired w).2
  | AcquireTransferSlot device_id => fun b w' =>
      b = Some (acquire_transfer_slot device_id w).1 /\ w' = (acquire_transfer_slot device_id w).2
  | DropTransferSlot device_id => fun b w' => b = Some tt /\ w' = drop_transfer_slot device_id w
  | _ => fun b w' => b <> None /\ w' = w
  end.

(** What [issue] hands to the registry. *)
Definition well_issued (handle : FileHandle.t) (ttl : Z) : Prop :=
  ttl <= MAX_GRANT_TTL /\ FileHandle.device_id handle <> "" /\ FileHandle.session handle <> "" /\
  FileHandle.actions handle <> 0 /\
  exists rel, normalize_relative rel = Ok (FileHandle.relative_path handle).

(** What the other tasks do: time passes, and they run the critical sections. *)
Inductive fenv : Grants.t -> Grants.t -> Prop :=
| env_time (w : Grants.t) (now : Z) : clock w <= now -> fenv w (Grants.mk (grants w) (transfers w) now (issued w))
| env_insert (w : Grants.t) (handle : FileHandle.t) (ttl : Z) :
    well_issued handle ttl -> fenv w (insert_grant handle ttl w)
| env_lookup (w : Grants.t) (device_id session token : string) (action : GrantAction.t) :
    fenv w (lookup_valid device_id session token action w).2
| env_revoke (w : Grants.t) (token : string) : fenv w (revoke token w).2
| env_sweep (w : Grants.t) : fenv w (sweep_expired w).2
| env_acquire (w : Grants.t) (device_id : string) : fenv w (acquire_transfer_slot device_id w).2
| env_drop (w : Grants.t) (device_id : string) : fenv w (drop_transfer_slot device_id w).

(** Every operation with its answer. *)
Inductive FObs :=
| Did {B : Type} (o : fop B) (b : B).

Definition fobs (B : Type) (o : fop B) (b : B) : list FObs := [Did o b].

Notation fexec := (texec fenv fstep fobs).

(** A file system at rest, on which a program runs alone to its result: calls that write succeed,
    and what they write is there. *)
Module FileSystem.
Record t := mk {
  canonicalize : string -> option string;
  is_dir : string -> bool;
  stat : string -> option Metadata.t;
  open : string -> option Fd;
  fstat : Fd -> option Metadata.t;
  content : Fd -> list byte;
  system_now : Z;
  token : string;
}.
End FileSystem.

Definition fs_answer (fs : FileSystem.t) (B : Type) (o : fop B) (w : Grants.t) : option (B * Grants.t) :=
  match o in fop B return option (B * Grants.t) with
  | Canonicalize p => Some (FileSystem.canonicalize fs p, w)
  | IsDir p => Some (FileSystem.is_dir fs p, w)
  | StatPath p => Some (FileSystem.stat fs p, w)
  | OpenFile p => Some (FileSystem.open fs p, w)
  | StatFd fd => Some (FileSystem.fstat fs fd, w)
  | ReadExact fd n =>
      let bytes := FileSystem.content fs fd in
      Some (if n <=? zlen bytes then Some (take (Z.to_nat n) bytes) else None, w)
  | SeekTo _ _ => Some (true, w)
  | SystemNow => Some (FileSystem.system_now fs, w)
  | NewToken => Some (FileSystem.token fs, w)
  | InsertGrant handle ttl => Some (tt, insert_grant handle ttl w)
  | LookupValid device_id session token action => Some (lookup_valid device_id session token action w)
  | Revoke token => Some (revoke token w)
  | SweepExpired => Some (sweep_expired w)
  | AcquireTransferSlot device_id => Some (acquire_transfer_slot device_id w)
  | DropTransferSlot device_id => Some (tt, drop_transfer_slot device_id w)
  | NewTempName tag => Some (tag +:+ "-temp", w)
  | CreateFile p => Some (FileSystem.open fs p, w)
  | CreateDirAll _ | CreateDir _ | SetPermissions _ _ | SetFilePermissions _ _ | WriteAll _ _ | SyncAll _ => Some (true, w)
  | RemoveFile _ | RemoveDir _ | RemoveDirAll _ => Some (tt, w)
  end.

Fixpoint run_on (fs : FileSystem.t) {A : Type} (p : fprog A) (w : Grants.t) : option (A * Grants.t) :=
  match p with
  | Ret a => Some (a, w)
  | @Act _ _ B o k =>
      match fs_answer fs B o w with
      | Some (b, w) => run_on fs (k b) w
      | None => None
      end
  end.
