(* ===== verification/Upload.v ===== *)
(** * Transfers of the Bridge ([files/upload.rs], [files/transfer.rs], [runtime/transfers.rs])

    The sink of an upload with its private directory, the two outgoing connections to the Relay,
    and the handlers of an offer.  The HTTP client is the environment: [RequestProducer] and
    [RequestConsumer] answer with what became of the request - for the consumer with all that its
    response stream will yield, which the code reads chunk by chunk.  The guard of a slot and the
    sink are dropped where Rust drops them.  [tokio::spawn] ends a handler here; the task it
    starts is the rest of the program. *)

From S2P Require Import Prelude Bytes RustStr Prog Domain Proto FilePolicy Grants.

Definition UPLOAD_DIR_NAME : string := "uploads".
Definition DEFAULT_UPLOAD_TTL : Z := 3600 * 1000.

(** ** The sink *)

Module UploadSink.
Record t := mk {
  dir : string;
  path : string;
  file : option Fd;
  prefix : list byte;
  size : Z;
  max_bytes : Z;
  finished : bool;
}.

Definition with_prefix (x : list byte) (s : t) : t := mk (dir s) (path s) (file s) x (size s) (max_bytes s) (finished s).
Definition with_size (x : Z) (s : t) : t := mk (dir s) (path s) (file s) (prefix s) x (max_bytes s) (finished s).
Definition with_file (x : option Fd) (s : t) : t := mk (dir s) (path s) x (prefix s) (size s) (max_bytes s) (finished s).
Definition with_finished (x : bool) (s : t) : t := mk (dir s) (path s) (file s) (prefix s) (size s) (max_bytes s) x.
End UploadSink.

Module UploadOutcome.
Record t := mk {
  handle : FileHandle.t;
  size : Z;
  mime : option string;
  cleanup_dir : string;
  cleanup_expires_at : Z;
}.
End UploadOutcome.

Definition sink_create (upload_root : string) (max_bytes : Z) : fprog (res FilesError.t UploadSink.t) :=
  if MAX_UPLOAD_BYTES <? max_bytes then
    Ret (Err (FilesError.Internal "upload limit above first-version cap"))
  else
    do made <- act (CreateDirAll upload_root);
    try? _ <- lift (io_unit made);
    do private <- act (SetPermissions upload_root (7 * 64));
    try? _ <- lift (io_unit private);
    do name <- act (NewTempName "u");
    let dir := path_join upload_root name in
    do made <- act (CreateDir dir);
    try? _ <- lift (io_unit made);
    do private <- act (SetPermissions dir (7 * 64));
    try? _ <- lift (io_unit private);
    let path := path_join dir "payload" in
    do file <- act (CreateFile path);
    try? file <- lift (io file);
    do private <- act (SetFilePermissions file (6 * 64));
    try? _ <- lift (io_unit private);
    Ret (Ok (UploadSink.mk dir path (Some file) [] 0 max_bytes false)).

Definition sniffed_mime `{Infer} (s : UploadSink.t) : option string := infer_get (UploadSink.prefix s).

(** The prefix kept for sniffing. *)
Definition keep_prefix (s : UploadSink.t) (data : list byte) : UploadSink.t :=
  if zlen (UploadSink.prefix s) <? SNIFF_PREFIX_BYTES then
    let n := Z.min (SNIFF_PREFIX_BYTES - zlen (UploadSink.prefix s)) (zlen data) in
    UploadSink.with_prefix (UploadSink.prefix s ++ take (Z.to_nat n) data) s
  else s.

Definition write_chunk (s : UploadSink.t) (data : list byte) : fprog (res FilesError.t unit * UploadSink.t) :=
  if UploadSink.finished s then Ret (Err (FilesError.Internal "upload sink already finished"), s)
  else if UploadSink.max_bytes s <? UploadSink.size s + zlen data then Ret (Err FilesError.TooLarge, s)
  else
    let s := keep_prefix s data in
    match UploadSink.file s with
    | None => Ret (Err (FilesError.Internal "sink closed"), s)
    | Some file =>
        do written <- act (WriteAll file data);
        if (written : bool) then Ret (Ok tt, UploadSink.with_size (UploadSink.size s + zlen data) s)
        else Ret (Err FilesError.Io, s)
    end.

(** [Drop]. *)
Definition drop_sink (s : UploadSink.t) : fprog unit :=
  if UploadSink.finished s then Ret tt
  else
    perform act (RemoveFile (UploadSink.path s));
    act (RemoveDir (UploadSink.dir s)).

(** [finish] consumes the sink: it is dropped at every return. *)
Definition sink_finish `{Infer} (s : UploadSink.t) (device_id session : string) (ttl : Z) :
    fprog (res FilesError.t UploadOutcome.t) :=
  match UploadSink.file s with
  | None => perform drop_sink s; Ret (Err (FilesError.Internal "sink closed"))
  | Some file =>
      let s := UploadSink.with_file None s in
      do synced <- act (SyncAll file);
      if negb (synced : bool) then perform drop_sink s; Ret (Err FilesError.Io)
      else
        let s := UploadSink.with_finished true s in
        do issued <- issue device_id session (UploadSink.dir s) "payload" GrantActions.all
                       GrantSource.SessionUpload ttl;
        match issued with
        | Err e => perform drop_sink s; Ret (Err e)
        | Ok handle =>
            do now <- act SystemNow;
            perform drop_sink s;
            Ret (Ok (UploadOutcome.mk handle (UploadSink.size s) (sniffed_mime s) (UploadSink.dir s) (now + ttl)))
        end
  end.

Definition sink_abort (s : UploadSink.t) : fprog unit := act (RemoveDirAll (UploadSink.dir s)).

(** ** The connections to the Relay ([files/transfer.rs]) *)

Module TimeoutPhase.
Inductive t := Rendezvous | FirstByte | IdleRead.
#[global] Instance eq_dec : EqDecision t.
Proof. solve_decision. Defined.
End TimeoutPhase.

Module TransferError.
Inductive t :=
| Cancelled
| Rejected (status : Z)
| Timeout (phase : TimeoutPhase.t)
| Http
| Files (e : FilesError.t).

Definition stable_code (e : t) : string :=
  match e with
  | Cancelled => "INTERNAL_ERROR"
  | Timeout _ => "TRANSFER_EXPIRED"
  | Rejected _ => "INTERNAL_ERROR"
  | Http => "INTERNAL_ERROR"
  | Files e => FilesError.stable_code e
  end.
End TransferError.

(** How the wait for the head of a response ended; [A]: what comes with the response. *)
Inductive Rendezvous (A : Type) :=
| RvCancelled
| RvTimeout
| RvHttpError
| RvResponse (status : Z) (rest : A).
Arguments RvCancelled {A}.
Arguments RvTimeout {A}.
Arguments RvHttpError {A}.
Arguments RvResponse {A} _ _.

(** What the body of a response yields: chunks, then an end. *)
Inductive StreamEnd := StreamEof | StreamCancelled | StreamTimeout | StreamError.

Definition is_success (status : Z) : bool := (200 <=? status) && (status <? 300).

(** The atomic operations of the handlers. *)
Inductive rop : Type -> Type :=
| OnFiles {A : Type} (o : fop A) : rop A
| SendTransferReady (transfer_id : string) (ready : bool) (rejection : option StableErrorCode.t) : rop unit
| SendTransferResult (transfer_id : string) (outcome : pb.TransferOutcome.t) (error : option StableErrorCode.t)
    (upload_file_handle : option string) : rop unit
| HasRelayUrls : rop bool
| RegisterTransfer (transfer_id : string) : rop unit
| RemoveTransfer (transfer_id : string) : rop unit
| StoreUploadHandle (transfer_id token : string) : rop unit
| BuildClient (headers : list (string * string)) : rop bool
| RequestProducer (transfer_id : string) (slice : FileSlice.t) : rop (Rendezvous Z)
| RequestConsumer (transfer_id : string) : rop (Rendezvous (list (list byte) * StreamEnd)).

Notation rprog := (prog rop).

Definition on_files {A} (p : fprog A) : rprog A := prog_map (@OnFiles) p.

(** [produce]: the status and the number of bytes sent. *)
Definition produce (transfer_id : string) (slice : FileSlice.t) : rprog (res TransferError.t (Z * Z)) :=
  do r <- act (RequestProducer transfer_id slice);
  Ret match r with
      | RvCancelled => Err TransferError.Cancelled
      | RvTimeout => Err (TransferError.Timeout TimeoutPhase.Rendezvous)
      | RvHttpError => Err TransferError.Http
      | RvResponse status sent => if is_success status then Ok (status, sent) else Err (TransferError.Rejected status)
      end.

(** The loop of [consume]. *)
Fixpoint consume_chunks (first : bool) (chunks : list (list byte)) (stop : StreamEnd) (s : UploadSink.t) :
    fprog (res TransferError.t unit * UploadSink.t) :=
  match chunks with
  | [] =>
      Ret (match stop with
           | StreamEof => Ok tt
           | StreamCancelled => Err TransferError.Cancelled
           | StreamTimeout => Err (TransferError.Timeout (if first then TimeoutPhase.FirstByte else TimeoutPhase.IdleRead))
           | StreamError => Err TransferError.Http
           end, s)
  | chunk :: chunks =>
      do written <- write_chunk s chunk;
      let (r, s) := written in
      match r with
      | Ok _ => consume_chunks false chunks stop s
      | Err e => Ret (Err (TransferError.Files e), s)
      end
  end.

Definition consume (transfer_id : string) (s : UploadSink.t) : rprog (res TransferError.t unit * UploadSink.t) :=
  do r <- act (RequestConsumer transfer_id);
  match r with
  | RvCancelled => Ret (Err TransferError.Cancelled, s)
  | RvTimeout => Ret (Err (TransferError.Timeout TimeoutPhase.Rendezvous), s)
  | RvHttpError => Ret (Err TransferError.Http, s)
  | RvResponse status (chunks, stop) =>
      if is_success status then on_files (consume_chunks true chunks stop s)
      else Ret (Err (TransferError.Rejected status), s)
  end.

(** ** The handlers of an offer ([runtime/transfers.rs]) *)

Definition stable_code (code : string) : StableErrorCode.t :=
  if bool_decide (code = "FILE_HANDLE_INVALID") then StableErrorCode.FileHandleInvalid
  else if bool_decide (code = "FILE_OUTSIDE_SCOPE") then StableErrorCode.FileOutsideScope
  else if bool_decide (code = "FILE_CHANGED") then StableErrorCode.FileChanged
  else if bool_decide (code = "FILE_TYPE_NOT_PREVIEWABLE") then StableErrorCode.FileTypeNotPreviewable
  else if bool_decide (code = "TRANSFER_EXPIRED") then StableErrorCode.TransferExpired
  else if bool_decide (code = "TRANSFER_TOO_LARGE") then StableErrorCode.TransferTooLarge
  else if bool_decide (code = "TRANSFER_RANGE_INVALID") then StableErrorCode.TransferRangeInvalid
  else if bool_decide (code = "RATE_LIMITED") then StableErrorCode.RateLimited
  else StableErrorCode.InternalError.

Definition files_code (e : FilesError.t) : StableErrorCode.t := stable_code (FilesError.stable_code e).
Definition transfer_code (e : TransferError.t) : StableErrorCode.t := stable_code (TransferError.stable_code e).

Definition download_meta_headers (slice : FileSlice.t) : list (string * string) :=
  [("x-transfer-content-type", FileSlice.content_type slice);
   ("x-transfer-disposition", if FileSlice.inline slice then "inline" else "attachment");
   ("x-transfer-total-length", pretty (FileSlice.total_len slice))] ++
  match FileSlice.content_range slice with
  | Some range => [("x-transfer-content-range", HttpRange.content_range_value range (FileSlice.total_len slice))]
  | None => []
  end.

(** The session of an offer; [session_key_from_proto] fails exactly on an unknown agent. *)
Definition offer_session (offer : pb.TransferOffer.t) : option string :=
  match pb.TransferOffer.session_key offer with
  | None => None
  | Some key =>
      match AgentKind.from_proto_value (pb.SessionKey.agent_kind key) with
      | None => None
      | Some _ => Some (pb.SessionKey.native_session_id key)
      end
  end.

(** Refuse an offer. *)
Definition refuse_offer (transfer_id : string) (code : StableErrorCode.t) : rprog unit :=
  act (SendTransferReady transfer_id false (Some code)).

(** [resolve_for_read] with [Preview], else with [Download]. *)
Definition resolve_either (device session token : string) :
    fprog (res FilesError.t (VerifiedFile.t * TransferMode.t)) :=
  do preview <- resolve_for_read device session token GrantAction.Preview;
  match preview with
  | Ok verified => Ret (Ok (verified, TransferMode.Preview))
  | Err _ =>
      do download <- resolve_for_read device session token GrantAction.Download;
      Ret match download with
          | Ok verified => Ok (verified, TransferMode.Download)
          | Err e => Err e
          end
  end.

Section Handlers.
Context `{Infer}.
Variable device : string.

Definition drop_slot : rprog unit := act (OnFiles (DropTransferSlot device)).

(** The task [handle_download] spawns. *)
Definition download_task (transfer_id : string) (slice : FileSlice.t) : rprog unit :=
  do outcome <- produce transfer_id slice;
  perform
    match outcome with
    | Ok _ => act (SendTransferResult transfer_id pb.TransferOutcome.Completed None None)
    | Err TransferError.Cancelled => act (SendTransferResult transfer_id pb.TransferOutcome.Cancelled None None)
    | Err err => act (SendTransferResult transfer_id pb.TransferOutcome.Failed (Some (transfer_code err)) None)
    end;
  perform act (RemoveTransfer transfer_id);
  drop_slot.

Definition handle_download (offer : pb.TransferOffer.t) : rprog unit :=
  let id := pb.TransferOffer.transfer_id offer in
  match offer_session offer with
  | None => refuse_offer id StableErrorCode.FileHandleInvalid
  | Some session =>
      do slot <- act (OnFiles (AcquireTransferSlot device));
      match slot with
      | Err err => refuse_offer id (files_code err)
      | Ok _ =>
          do verified <- on_files (resolve_either device session (pb.TransferOffer.file_handle offer));
          match verified with
          | Err err => perform refuse_offer id (files_code err); drop_slot
          | Ok (verified, mode) =>
              let range_header :=
                range_header_of (pb.TransferOffer.range_start offer) (pb.TransferOffer.range_end_inclusive offer)
                  (VerifiedFile.size verified) in
              do slice <- on_files (open_slice verified mode range_header);
              match slice with
              | Err err => perform refuse_offer id (files_code err); drop_slot
              | Ok slice =>
                  perform act (SendTransferReady id true None);
                  do urls <- act HasRelayUrls;
                  if negb (urls : bool) then
                    perform act (SendTransferResult id pb.TransferOutcome.Failed (Some StableErrorCode.CodexUnavailable) None);
                    drop_slot
                  else
                    perform act (RegisterTransfer id);
                    do client <- act (BuildClient (download_meta_headers slice));
                    if negb (client : bool) then
                      perform act (SendTransferResult id pb.TransferOutcome.Failed (Some StableErrorCode.InternalError) None);
                      perform act (RemoveTransfer id);
                      drop_slot
                    else download_task id slice
              end
          end
      end
  end.

(** The task [handle_upload] spawns. *)
Definition upload_task (transfer_id session : string) (sink : UploadSink.t) : rprog unit :=
  do consumed <- consume transfer_id sink;
  let (r, sink) := consumed in
  perform
    match r with
    | Ok _ =>
        do finished <- on_files (sink_finish sink device session DEFAULT_GRANT_TTL);
        match finished with
        | Ok outcome =>
            let token := FileHandle.token (UploadOutcome.handle outcome) in
            perform act (StoreUploadHandle transfer_id token);
            act (SendTransferResult transfer_id pb.TransferOutcome.Completed None (Some token))
        | Err err =>
            act (SendTransferResult transfer_id pb.TransferOutcome.Failed (Some (files_code err)) None)
        end
    | Err TransferError.Cancelled =>
        perform on_files (sink_abort sink);
        act (SendTransferResult transfer_id pb.TransferOutcome.Cancelled None None)
    | Err err =>
        perform on_files (sink_abort sink);
        act (SendTransferResult transfer_id pb.TransferOutcome.Failed (Some (transfer_code err)) None)
    end;
  perform act (RemoveTransfer transfer_id);
  drop_slot.

Definition handle_upload (upload_root : string) (offer : pb.TransferOffer.t) : rprog unit :=
  let id := pb.TransferOffer.transfer_id offer in
  match offer_session offer with
  | None => refuse_offer id StableErrorCode.FileHandleInvalid
  | Some session =>
      do slot <- act (OnFiles (AcquireTransferSlot device));
      match slot with
      | Err err => refuse_offer id (files_code err)
      | Ok _ =>
          do sink <- on_files (sink_create upload_root MAX_UPLOAD_BYTES);
          match sink with
          | Err err => perform refuse_offer id (files_code err); drop_slot
          | Ok sink =>
              perform act (SendTransferReady id true None);
              do urls <- act HasRelayUrls;
              if negb (urls : bool) then
                perform on_files (sink_abort sink);
                perform act (SendTransferResult id pb.TransferOutcome.Failed (Some StableErrorCode.CodexUnavailable) None);
                drop_slot
              else
                perform act (RegisterTransfer id);
                upload_task id session sink
          end
      end
  end.

Definition handle_transfer_offer (upload_root : string) (offer : pb.TransferOffer.t) : rprog unit :=
  match pb.TransferDirection.try_from (pb.TransferOffer.direction offer) with
  | Some pb.TransferDirection.Download => handle_download offer
  | Some pb.TransferDirection.Upload => handle_upload upload_root offer
  | _ => refuse_offer (pb.TransferOffer.transfer_id offer) StableErrorCode.InternalError
  end.
End Handlers.

(** ** Cleaning up uploads *)

(** A directory entry as [read_dir] and its metadata give it. *)
Module DirEntry.
Record t := mk {
  name : string;
  is_dir : bool;
  modified : Z;
}.
End DirEntry.

(** The two sweeps: [sweep_expired_uploads], which counts, and [FsUploadCleaner::sweep_expired],
    which names what it removed; [None] in the list is an I/O error of that entry, and
    [removes] tells whether [remove_dir_all] succeeds. *)
Fixpoint sweep_expired_uploads (removes : string -> bool) (older_than : Z) (entries : list (option DirEntry.t)) :
    option (list string) :=
  match entries with
  | [] => Some []
  | None :: _ => None
  | Some e :: entries =>
      if negb (DirEntry.is_dir e) || (older_than <=? DirEntry.modified e)
      then sweep_expired_uploads removes older_than entries
      else if removes (DirEntry.name e)
      then (fun l => DirEntry.name e :: l) <$> sweep_expired_uploads removes older_than entries
      else None
  end.

Definition backslash : Ascii.ascii := byte_char 92.

(** The directory [FsUploadCleaner::remove_upload_dir] removes, if it accepts the name. *)
Definition remove_upload_dir_target (root directory : string) : option string :=
  if bool_decide (directory = "") || contains_char slash directory || contains_char backslash directory
     || contains_str ".." directory
  then None
  else Some (path_join root directory).

(** ** Running *)

Definition rstep (B : Type) (o : rop B) (w : Grants.t) : option B -> Grants.t -> Prop :=
  match o in rop B return option B -> Grants.t -> Prop with
  | @OnFiles A o => fstep A o w
  | _ => fun b w' => b <> None /\ w' = w
  end.

Inductive RObs :=
| DidR {B : Type} (o : rop B) (b : B).

Definition robs (B : Type) (o : rop B) (b : B) : list RObs := [DidR o b].

Notation rexec := (texec fenv rstep robs).
