(* ===== verification/FilesProps.v ===== *)
(** * Properties of the file plane of the Bridge *)

From S2P Require Import Prelude Bytes RustStr Prog FilePolicy Grants.

Import Grants (grants, transfers, clock, issued).

(** ** Ranges *)

Definition range_in (total : Z) (r : HttpRange.t) : Prop :=
  0 <= HttpRange.start r <= HttpRange.end_inclusive r /\ HttpRange.end_inclusive r < total.

(** A range that [parse_single_range] accepts for a file of [total] bytes is not empty and
    lies inside the file, whatever the header is; so the [u64] subtractions of its length do not
    wrap, the length is between 1 and [total], and an empty file has no range. *)
Theorem parse_single_range_bounds (header : string) (total : Z) (r : HttpRange.t) :
  is_u64 total -> parse_single_range header total = Ok r ->
  0 <= HttpRange.start r <= HttpRange.end_inclusive r /\ HttpRange.end_inclusive r < total /\
  1 <= HttpRange.len r <= total.
Proof.
  intros Ht H. enough (range_in total r) by (unfold range_in, HttpRange.len in *; lia).
  unfold parse_single_range in H. res_inv. case_match; [done|]. res_inv.
  match goal with p : string * string |- _ => destruct p as [start_s end_s] end. res_inv. case_bool_decide.
  - res_inv. case_match eqn:E; res_inv. bool_to_prop. 
    match goal with Hp : parse_u64 _ = Some _ |- _ => apply parse_u64_range in Hp end.
    unfold range_in, sat_sub, is_u64 in *. simpl. lia.
  - res_inv. case_match eqn:E; res_inv. bool_to_prop.
    match goal with Hp : parse_u64 _ = Some _ |- _ => apply parse_u64_range in Hp end.
    unfold range_in, is_u64 in *. simpl. case_bool_decide; res_inv; [lia|].
    case_match eqn:E2; res_inv. bool_to_prop. lia.
Qed.

Lemma parse_single_range_bounds_witness :
  parse_single_range "bytes= 7-" 10 = Ok (HttpRange.mk 7 9) /\ 7 <= 9 /\ 9 < 10 /\ 1 <= 3 <= 10.
Proof.
  split; [vm_compute; reflexivity|].
  destruct (parse_single_range_bounds "bytes= 7-" 10 (HttpRange.mk 7 9)) as (? & ? & ?);
    [vm_compute; split; discriminate|vm_compute; reflexivity|].
  simpl in *. unfold HttpRange.len in *; simpl in *. lia.
Defined.

(** The header a Bridge makes of a coordinated range, parsed back. *)
Lemma parse_range_header (start total : Z) (end_s : string) :
  is_u64 start -> str_all ascii_digit end_s = true ->
  parse_single_range ("bytes=" +:+ pretty start +:+ "-" +:+ end_s) total =
  (if total <=? start then Err FilesError.RangeInvalid
   else
     let? e :=
       (if bool_decide (end_s = "") then Ok (total - 1)
        else
          let? e := ok_or FilesError.RangeInvalid (parse_u64 end_s) in
          if e <? start then Err FilesError.RangeInvalid else Ok (Z.min e (total - 1))) in
     Ok (HttpRange.mk start e)).
Proof.
  intros Hs He. assert (Hs0 : 0 <= start) by (unfold is_u64 in Hs; lia).
  pose proof (pretty_Z_digits start Hs0) as Hd.
  assert (Hg : forall s, str_all ascii_digit s = true -> str_all ascii_graphic s = true)
    by (intros s; apply str_all_impl; exact digit_graphic).
  assert (Hspec : str_all ascii_graphic (pretty start +:+ "-" +:+ end_s) = true)
    by (rewrite !str_all_app, (Hg _ Hd), (Hg _ He); done).
  unfold parse_single_range. rewrite trim_graphic by (rewrite str_all_app, Hspec; done).
  rewrite strip_prefix_app. cbn [ok_or res_bind].
  rewrite !contains_char_app, (contains_char_all ascii_digit comma (pretty start)), (contains_char_all ascii_digit comma end_s) by done.
  cbn [contains_char orb Ascii.eqb]. change (Ascii.eqb _ _) with false. cbn [orb].
  rewrite trim_graphic by done. change ("-" +:+ end_s) with (String dash end_s).
  rewrite split_once_here by by apply (contains_char_all ascii_digit). cbn [ok_or res_bind].
  rewrite bool_decide_eq_false_2 by by apply pretty_Z_nonempty.
  rewrite trim_digits, parse_u64_pretty_Z by done. cbn [ok_or res_bind].
  rewrite (trim_graphic end_s) by by apply Hg. done.
Qed.

(** Compare two slices, case by case on the tests of sizes. *)
Ltac solve_range :=
  repeat (case_match; bool_to_prop); cbn; unfold HttpRange.len; cbn;
  try done; try lia; f_equal; f_equal; lia.

Lemma parse_range_closed (start e total : Z) :
  is_u64 start -> is_u64 e -> start <= e ->
  parse_single_range ("bytes=" +:+ pretty start +:+ "-" +:+ pretty e) total =
  (if total <=? start then Err FilesError.RangeInvalid else Ok (HttpRange.mk start (Z.min e (total - 1)))).
Proof.
  intros Hs He Hle. rewrite parse_range_header; [|done|apply pretty_Z_digits; unfold is_u64 in He; lia].
  rewrite bool_decide_eq_false_2 by by apply pretty_Z_nonempty. rewrite parse_u64_pretty_Z by done.
  cbn [ok_or res_bind]. rewrite (proj2 (Z.ltb_ge e start)) by done. done.
Qed.

Lemma parse_range_open (start total : Z) :
  is_u64 start ->
  parse_single_range ("bytes=" +:+ pretty start +:+ "-") total =
  (if total <=? start then Err FilesError.RangeInvalid else Ok (HttpRange.mk start (total - 1))).
Proof. intros Hs. exact (parse_range_header start total "" Hs eq_refl). Qed.

(** What the Relay coordinates is what the Bridge reads: for a file of [total] bytes and a
    range from [start] to an optional [end], the offset and the number of bytes that the header
    made by [range_header_of] selects are those of the intersection of the range with the file;
    a range that starts at or behind the end of the file is refused, never answered with the
    whole file.  (The sum in [range_header_of] wraps for the largest end; nothing changes.) *)
Theorem range_header_selects (start total : Z) (end_inclusive : option Z) :
  is_u64 start -> is_u64 total -> (forall e, end_inclusive = Some e -> is_u64 e /\ start <= e) ->
  res_bind (slice_of (range_header_of start end_inclusive total) total) (fun x => Ok x.1) =
  if (total <=? start) && negb (start =? 0) then Err FilesError.RangeInvalid
  else if total =? 0 then Ok (0, 0)
  else Ok (start, Z.min (default (total - 1) end_inclusive) (total - 1) - start + 1).
Proof.
  intros Hs Ht He. pose proof Hs as Hs'. pose proof Ht as Ht'. unfold is_u64, u64_max in Hs', Ht'.
  unfold range_header_of. destruct end_inclusive as [e|]; cbn [default].
  - destruct (He e eq_refl) as [He1 He2]. pose proof He1 as He1'. unfold is_u64, u64_max in He1'.
    pose proof (Z.mod_le (e + 1) (2 ^ 64) ltac:(lia) ltac:(lia)) as Hw. fold (as_u64 (e + 1)) in Hw.
    pose proof (Z.mod_pos_bound (e + 1) (2 ^ 64) ltac:(lia)) as Hw'. fold (as_u64 (e + 1)) in Hw'.
    destruct (Z.eqb_spec start 0) as [->|Hne], (Z.leb_spec total (as_u64 (e + 1)));
      cbn [andb negb slice_of]; rewrite ?andb_false_r, ?andb_true_r; try (rewrite parse_range_closed by done);
      solve_range.
  - destruct (Z.eqb_spec start 0) as [->|Hne]; cbn [andb negb slice_of]; rewrite ?andb_false_r, ?andb_true_r;
      try (rewrite parse_range_open by done); solve_range.
Qed.

Lemma range_header_selects_witness :
  range_header_of 5 (Some 100) 20 = Some "bytes=5-100" /\
  res_bind (slice_of (range_header_of 5 (Some 100) 20) 20) (fun x => Ok x.1) = Ok (5, 15).
Proof.
  split; [vm_compute; reflexivity|].
  rewrite (range_header_selects 5 20 (Some 100)); [vm_compute; reflexivity| | |].
  - vm_compute; split; discriminate.
  - vm_compute; split; discriminate.
  - intros e He. injection He as <-. vm_compute. repeat split; discriminate.
Defined.

(** ** Classification *)

(** Nothing is answered inline, to be rendered by a browser, but plain text, four image
    formats and PDF, whatever the recognition of file types says: HTML, SVG and every other
    active type are served as source text or as an attachment.  What is previewable is exactly
    what is inline, within the limit of its kind. *)
Theorem inline_types_are_passive `{Infer} (prefix : list byte) (size : Z) :
  (Classification.is_inline (classify prefix) = true ->
   Classification.content_type (classify prefix) ∈
     ["text/plain; charset=utf-8"; "image/png"; "image/jpeg"; "image/webp"; "image/gif"; "application/pdf"]) /\
  (check_preview (classify prefix) size = Ok tt <->
   Classification.is_inline (classify prefix) = true /\
   size <= default 0 (Classification.preview_limit (classify prefix))).
Proof.
  split.
  - unfold classify. repeat case_match; simpl; intros; bool_to_prop; try done; rewrite !elem_of_cons; try tauto.
    repeat match goal with
    | Ho : (_ || _)%bool = true |- _ => apply orb_true_iff in Ho as [Ho|Ho]
    | Ho : bool_decide _ = true |- _ => apply bool_decide_eq_true in Ho
    end; tauto.
  - unfold check_preview. destruct (classify prefix); simpl; try (split; [done|naive_solver]);
      case_match; bool_to_prop; split; intros; try done; lia.
Qed.

(** ** The registry of grants *)

Definition grants_ok (w : Grants.t) : Prop :=
  (forall t0 e, (t0, e) ∈ issued w ->
     t0 <= clock w /\ GrantEntry.deadline e <= t0 + MAX_GRANT_TTL /\
     exists ttl, well_issued (GrantEntry.handle e) ttl) /\
  (forall tok e, grants w !! tok = Some e ->
     FileHandle.token (GrantEntry.handle e) = tok /\ exists t0, (t0, e) ∈ issued w).

Lemma lookup_valid_cases (d s tok : string) (a : GrantAction.t) (w : Grants.t) :
  (lookup_valid d s tok a w).2 = w \/ (lookup_valid d s tok a w).2 = Grants.with_grants (delete tok (grants w)) w.
Proof. unfold lookup_valid. repeat case_match; auto. Qed.

Lemma acquire_cases (d : string) (w : Grants.t) :
  exists x, (acquire_transfer_slot d w).2 = Grants.with_transfers x w.
Proof. unfold acquire_transfer_slot. case_match; eauto. Qed.

Lemma drop_cases (d : string) (w : Grants.t) : exists x, drop_transfer_slot d w = Grants.with_transfers x w.
Proof. unfold drop_transfer_slot. case_match; [eauto|]. exists (transfers w). by destruct w. Qed.

(** Removing entries keeps the registry well formed. *)
Lemma grants_ok_subset (w : Grants.t) (m : gmap string GrantEntry.t) :
  m ⊆ grants w -> grants_ok w -> grants_ok (Grants.with_grants m w).
Proof. intros Hm [H1 H2]. split; [exact H1|]. intros tok e He. apply H2. eapply lookup_weaken; [exact He|done]. Qed.

Lemma insert_grant_ok (h : FileHandle.t) (ttl : Z) (w : Grants.t) :
  well_issued h ttl -> grants_ok w -> grants_ok (insert_grant h ttl w).
Proof.
  intros Hw [H1 H2]. split; simpl.
  - intros t0 e [He|He]%elem_of_cons; [|by apply H1]. simplify_eq. simpl. split_and!; [done| |by eexists].
    destruct Hw. lia.
  - intros tok e [[<- <-]|[_ He]]%lookup_insert_Some; simpl.
    + split; [done|]. eexists. by left.
    + destruct (H2 tok e He) as (? & t0 & ?). split; [done|]. exists t0. by right.
Qed.

Lemma fenv_ok (w w' : Grants.t) : fenv w w' -> grants_ok w -> grants_ok w'.
Proof.
  destruct 1 as [w now Hle|w h ttl Hw|w d s tok a|w tok|w|w d|w d]; intros Hok.
  - destruct Hok as [H1 H2]. split; [|exact H2]. intros t0 e He. destruct (H1 t0 e He) as (? & ? & ?). simpl. split_and!; [lia|done|done].
  - by apply insert_grant_ok.
  - destruct (lookup_valid_cases d s tok a w) as [->| ->]; [done|]. apply grants_ok_subset; [apply delete_subseteq|done].
  - apply grants_ok_subset; [apply delete_subseteq|done].
  - apply grants_ok_subset; [apply map_filter_subseteq|done].
  - by destruct (acquire_cases d w) as [x ->].
  - by destruct (drop_cases d w) as [x ->].
Qed.

Lemma fenv_mono (w w' : Grants.t) : fenv w w' -> clock w <= clock w' /\ issued w ⊆ issued w'.
Proof.
  destruct 1 as [w now Hle|w h ttl Hw|w d s tok a|w tok|w|w d|w d]; simpl; try (split; [lia|done]).
  - split; [lia|]. by apply list_subseteq_cons.
  - destruct (lookup_valid_cases d s tok a w) as [->| ->]; simpl; split; (lia || done).
  - destruct (acquire_cases d w) as [x ->]; simpl; split; (lia || done).
  - destruct (drop_cases d w) as [x ->]; simpl; split; (lia || done).
Qed.

Lemma fenv_rtc_mono (w w' : Grants.t) : rtc fenv w w' -> clock w <= clock w' /\ issued w ⊆ issued w'.
Proof.
  induction 1 as [|w1 w2 w3 H12 _ [IH1 IH2]]; [split; [lia|done]|]. apply fenv_mono in H12 as [? ?].
  split; [lia|]. by transitivity (issued w2).
Qed.

Lemma fenv_rtc_ok (w w' : Grants.t) : rtc fenv w w' -> grants_ok w -> grants_ok w'.
Proof. induction 1; eauto using fenv_ok. Qed.

Lemma grants_ok_init : grants_ok Grants.init.
Proof. split; simpl; [intros t0 e He; by apply elem_of_nil in He|done]. Qed.

(** The answers of a run: what an operation of the file system leaves alone, and the chain of the
    states of the registry. *)
Ltac env_steps :=
  repeat match goal with
  | H : fstep _ _ _ _ _ |- _ => simpl in H; destruct H as [? ?]; simplify_eq
  end.

Ltac texec_if H :=
  match type of H with
  | texec _ _ _ (if ?b then _ else _) _ _ _ _ => destruct b eqn:?
  end.

(** Follow a run to its successful end, and collect what its tests and steps say. *)
Ltac texec_go H :=
  repeat first [progress texec_inv | texec_if H]; unfold io in *; env_steps;
  repeat match goal with
  | E : Ok _ = ok_or _ _ |- _ => symmetry in E; apply ok_or_ok in E; subst
  | E : (_ || _)%bool = false |- _ => apply orb_false_iff in E as [? ?]
  end; bool_to_prop; try subst.

Ltac env_mono :=
  repeat match goal with H : rtc fenv _ _ |- _ => apply fenv_rtc_mono in H as [? ?] end.

Lemma lookup_valid_ok (d s tok : string) (a : GrantAction.t) (w : Grants.t) (h : FileHandle.t) :
  (lookup_valid d s tok a w).1 = Ok h ->
  (lookup_valid d s tok a w).2 = w /\
  FileHandle.device_id h = d /\ FileHandle.session h = s /\ GrantActions.allows (FileHandle.actions h) a = true /\
  exists e, grants w !! tok = Some e /\ GrantEntry.handle e = h /\ clock w < GrantEntry.deadline e.
Proof.
  unfold lookup_valid. repeat case_match; simpl; intros Hr; simplify_eq.
  repeat match goal with Ho : (_ || _)%bool = false |- _ => apply orb_false_iff in Ho as [? ?] end.
  bool_to_prop. split_and!; [done..|]. eexists. split_and!; [reflexivity|done|lia].
Qed.

(** What a successful read through a handle says, [t] being its operations. *)
Definition read_verified (d s tok : string) (a : GrantAction.t) (w w' : Grants.t) (t : list FObs)
    (vf : VerifiedFile.t) : Prop :=
  let h := VerifiedFile.handle vf in
  (FileHandle.token h = tok /\ FileHandle.device_id h = d /\ FileHandle.session h = s /\
   GrantActions.allows (FileHandle.actions h) a = true) /\
  (exists t0 now e, (t0, e) ∈ issued w' /\ GrantEntry.handle e = h /\ clock w <= now <= clock w' /\
     t0 <= now < GrantEntry.deadline e /\ GrantEntry.deadline e <= t0 + MAX_GRANT_TTL) /\
  (exists root target md,
     t = [Did (LookupValid d s tok a) (Ok h); Did (Canonicalize (FileHandle.root h)) (Some root);
          Did (Canonicalize (path_join root (FileHandle.relative_path h))) (Some target);
          Did (OpenFile target) (Some (VerifiedFile.file vf));
          Did (StatFd (VerifiedFile.file vf)) (Some md)] /\
     path_starts_with target root = true /\
     identity_of md = FileHandle.identity h /\ Metadata.len md = FileHandle.size h /\
     mtime_ns_of md = FileHandle.mtime_ns h).

Lemma resolve_for_read_ok (d s tok : string) (a : GrantAction.t) (w0 w' : Grants.t) (t : list FObs)
    (vf : VerifiedFile.t) :
  grants_ok w0 -> fexec (resolve_for_read d s tok a) w0 t (Some (Ok vf)) w' -> read_verified d s tok a w0 w' t vf.
Proof.
  intros Hok He. unfold resolve_for_read in He.
  texec_go He. match goal with E : Ok _ = (lookup_valid _ _ _ _ _).1 |- _ => symmetry in E;
    apply lookup_valid_ok in E as (Hw & <- & <- & Ha & e & Hg & <- & Hd) end.
  rewrite Hw in *. 
  match goal with H : grants ?x !! _ = Some e, H' : rtc fenv w0 ?x |- _ =>
    destruct (fenv_rtc_ok _ _ H' Hok) as [Hi Hk]; destruct (Hk _ _ H) as (<- & t0 & Ht0); destruct (Hi _ _ Ht0) as (? & ? & _) end.
  env_mono. unfold read_verified. simpl. split_and!; [done..| |].
  - exists t0. eexists _, e. split_and!; try done; try lia. set_solver.
  - eexists _, _, _. split_and!; [reflexivity|done..].
Qed.

(** Whatever happens to the file system and to the registry while it runs, a read through a
    handle succeeds only if the caller's device and session own the handle and it allows the
    action; the handle was issued at most an hour ago and is not past its deadline when it is
    looked up; the path of the handle, resolved again, lies under the resolved root; and the
    descriptor returned is that of a file with the recorded identity, size and modification
    time. *)
Theorem resolve_for_read_safe (d s tok : string) (a : GrantAction.t) (w0 w' : Grants.t) (t : list FObs)
    (vf : VerifiedFile.t) :
  rtc fenv Grants.init w0 ->
  fexec (resolve_for_read d s tok a) w0 t (Some (Ok vf)) w' ->
  read_verified d s tok a w0 w' t vf.
Proof. intros Hr He. by eapply resolve_for_read_ok; [exact (fenv_rtc_ok _ _ Hr grants_ok_init)|]. Qed.

(** ** Paths *)

Definition no_slash (p : string) : Prop := contains_char slash p = false.

Lemma split_slash_pieces (s : string) : Forall no_slash (split_slash s) /\ split_slash s <> [].
Proof.
  induction s as [|c s [IH1 IH2]]; simpl; [by repeat constructor|].
  destruct (Ascii.eqb c slash) eqn:Hc; [by repeat constructor|].
  destruct (split_slash s) as [|p ps]; [done|]. inversion_clear IH1. split; [|done]. constructor; [|done].
  unfold no_slash in *. simpl. by rewrite Hc.
Qed.

Lemma split_slash_one (p : string) : no_slash p -> split_slash p = [p].
Proof.
  unfold no_slash. induction p as [|c p IH]; simpl; [done|]. intros [-> Hp]%orb_false_iff. by rewrite IH.
Qed.

Lemma split_slash_app (p s : string) : no_slash p -> split_slash (p +:+ "/" +:+ s) = p :: split_slash s.
Proof.
  unfold no_slash. intros Hp. induction p as [|c p IH]; [done|]. simpl in Hp. apply orb_false_iff in Hp as [Hc Hp].
  change (split_slash (String c (p +:+ "/" +:+ s)) = String c p :: split_slash s). simpl. rewrite Hc.
  change (match split_slash (p +:+ "/" +:+ s) with [] => [String c ""] | q :: ps => String c q :: ps end
          = String c p :: split_slash s). by rewrite IH.
Qed.

Lemma split_slash_join (ps : list string) : Forall no_slash ps -> ps <> [] -> split_slash (join "/" ps) = ps.
Proof.
  induction 1 as [|p ps Hp Hps IH]; intros Hne; [done|]. destruct ps as [|q ps]; [by apply split_slash_one|].
  change (join "/" (p :: q :: ps)) with (p +:+ "/" +:+ join "/" (q :: ps)).
  rewrite split_slash_app by done. by rewrite IH.
Qed.

Definition normal_name (p : string) : Prop := component_of p = Some (Component.Normal p).

Lemma component_of_normal (p n : string) : component_of p = Some (Component.Normal n) -> p = n.
Proof. unfold component_of. repeat case_match; intros; by simplify_eq. Qed.

Lemma omap_component_normal (ps names : list string) :
  Forall no_slash ps -> omap component_of ps = map Component.Normal names ->
  Forall no_slash names /\ Forall normal_name names.
Proof.
  intros Hps. revert names. induction Hps as [|p ps Hp _ IH]; intros names; simpl.
  - destruct names; [by repeat constructor|done].
  - destruct (component_of p) as [c|] eqn:Hc; [|apply IH]. destruct names as [|n names]; simpl; [done|].
    intros Hm. injection Hm as -> Hm. pose proof (component_of_normal _ _ Hc). subst p.
    destruct (IH _ Hm). by repeat constructor.
Qed.

Lemma omap_normal (names : list string) :
  Forall normal_name names -> omap component_of names = map Component.Normal names.
Proof.
  induction 1 as [|n l Hn _ IH]; [done|]. cbn [omap list_omap]. rewrite Hn. cbn [map]. f_equal. exact IH.
Qed.

Lemma components_of_normals (names : list string) :
  Forall no_slash names -> Forall normal_name names -> names <> [] ->
  path_components (join "/" names) = map Component.Normal names /\ path_is_absolute (join "/" names) = false /\
  join "/" names <> "".
Proof.
  intros Hs Hn Hne. pose proof (split_slash_join names Hs Hne) as Hsplit.
  destruct names as [|n names]; [done|]. inversion_clear Hn as [|? ? Hn1 Hn2]. inversion_clear Hs as [|? ? Hs1 _].
  assert (Hom : omap component_of (n :: names) = map Component.Normal (n :: names)).
  { apply omap_normal. by constructor. }
  destruct n as [|c n]; [done|]. assert (Hc : Ascii.eqb c slash = false) by (unfold no_slash in Hs1; simpl in Hs1; by apply orb_false_iff in Hs1 as [? _]).
  assert (Hhd : exists r, join "/" (String c n :: names) = String c r) by (destruct names; simpl; eauto).
  destruct Hhd as [r Hr]. rewrite Hr in *. unfold path_components.
  assert (Habs : path_is_absolute (String c r) = false).
  { unfold path_is_absolute, starts_with. cbn [strip_prefix]. fold slash.
    change (Ascii.Ascii true true true true false true false false) with slash. rewrite Ascii.eqb_sym, Hc. done. }
  rewrite Habs, Hsplit. split_and!; [|done|done].
  destruct (decide (String c n = ".")) as [He|He]; [by rewrite He in Hn1|].
  destruct c as [[] [] [] [] [] [] [] []]; try exact Hom. destruct n; [done|exact Hom].
Qed.

Lemma normal_parts_ok (cs : list Component.t) (ps : list string) :
  normal_parts cs = Ok ps <-> cs = map Component.Normal ps.
Proof.
  revert ps. induction cs as [|c cs IH]; intros ps; simpl; [destruct ps; naive_solver|].
  destruct c; try (split; [done|destruct ps; done]). rewrite res_bind_ok. split.
  - intros (qs & Hq & Hr). apply IH in Hq. simplify_eq. done.
  - destruct ps as [|p ps]; [done|]. simpl. intros Hm. injection Hm as -> Hm. exists ps. by rewrite IH.
Qed.

(** A normalised relative path is a chain of plain names: it has no root, no [.] and no [..]. *)
Lemma normalize_relative_ok (rel r : string) :
  normalize_relative rel = Ok r ->
  exists names, names <> [] /\ Forall no_slash names /\ Forall normal_name names /\ r = join "/" names /\
    path_components rel = map Component.Normal names.
Proof.
  unfold normalize_relative. case_match eqn:Hb; [done|]. intros H.
  apply res_bind_ok in H as (names & Hn & H). apply normal_parts_ok in Hn.
  apply orb_false_iff in Hb as [_ Habs]. destruct names as [|n names]; [done|]. simplify_eq.
  unfold path_components in Hn. rewrite Habs in Hn. pose proof (split_slash_pieces rel) as [Hs _].
  assert (Hom : omap component_of (split_slash rel) = map Component.Normal (n :: names)).
  { repeat case_match; simplify_eq; try done. }
  destruct (omap_component_normal _ _ Hs Hom). exists (n :: names). split_and!; try done.
  unfold path_components. by rewrite Habs.
Qed.

Lemma normalize_relative_normal (names : list string) :
  names <> [] -> Forall no_slash names -> Forall normal_name names ->
  normalize_relative (join "/" names) = Ok (join "/" names).
Proof.
  intros Hne Hs Hn. destruct (components_of_normals names Hs Hn Hne) as (Hc & Habs & He).
  unfold normalize_relative. rewrite Habs, bool_decide_eq_false_2, Hc by done. cbn [orb].
  rewrite (proj2 (normal_parts_ok _ names) eq_refl). cbn [res_bind]. by destruct names.
Qed.

Lemma split_slash_app_r (b : string) (s : string) :
  split_slash (b +:+ "/" +:+ s) = split_slash b ++ split_slash s.
Proof.
  induction b as [|c b IH]; [done|].
  change (split_slash (String c b +:+ "/" +:+ s)) with (split_slash (String c (b +:+ "/" +:+ s))).
  cbn [split_slash]. rewrite IH. destruct (Ascii.eqb c slash); [done|].
  destruct (split_slash_pieces b) as [_ Hb]. by destruct (split_slash b).
Qed.

Lemma strip_suffix_Some (p s r : string) : strip_suffix p s = Some r -> s = r +:+ p.
Proof.
  unfold strip_suffix. destruct (strip_prefix (str_rev p) (str_rev s)) as [x|] eqn:Hx; [|done].
  intros H. simpl in H. injection H as <-. apply strip_prefix_Some in Hx.
  rewrite <- (str_rev_involutive s), Hx. apply str_rev_app_rev.
Qed.

Lemma starts_with_app (p s t : string) : starts_with s p = true -> starts_with (s +:+ t) p = true.
Proof.
  unfold starts_with. destruct (strip_prefix p s) as [r|] eqn:Hr; [|done]. intros _.
  apply strip_prefix_Some in Hr as ->. by rewrite <- str_app_assoc, strip_prefix_app.
Qed.

Lemma list_starts_with_app {A} `{EqDecision A} (l k : list A) : list_starts_with (l ++ k) l = true.
Proof. induction l as [|x l IH]; simpl; [by destruct k|]. by rewrite bool_decide_eq_true_2. Qed.

(** A relative path accepted for a handle cannot leave its root by its own text: it is kept as
    a non-empty chain of plain names, normalising it again changes nothing, and joined to an
    absolute root its components are those of the root followed by the names. *)
Theorem normalize_relative_confines (rel r root : string) :
  normalize_relative rel = Ok r -> path_is_absolute root = true ->
  normalize_relative r = Ok r /\
  path_starts_with (path_join root r) root = true /\
  exists names, names <> [] /\ path_components rel = map Component.Normal names /\
    path_components (path_join root r) = path_components root ++ map Component.Normal names.
Proof.
  intros Hr Hroot. apply normalize_relative_ok in Hr as (names & Hne & Hs & Hn & -> & Hrel).
  destruct (components_of_normals names Hs Hn Hne) as (Hc & Habs & _).
  split; [by apply normalize_relative_normal|].
  enough (Hj : path_components (path_join root (join "/" names)) = path_components root ++ map Component.Normal names).
  { split; [unfold path_starts_with; rewrite Hj; apply list_starts_with_app|]. by exists names. }
  assert (Hom : omap component_of (split_slash (join "/" names)) = map Component.Normal names).
  { rewrite split_slash_join by done. by apply omap_normal. }
  assert (Happ : forall b, omap component_of (split_slash (b +:+ "/" +:+ join "/" names))
                           = omap component_of (split_slash b) ++ map Component.Normal names)
    by (intros b; by rewrite split_slash_app_r, omap_app, Hom).
  unfold path_join. rewrite Habs. destruct (bool_decide (root = "")) eqn:He; [bool_to_prop; by subst|]. cbn [orb].
  unfold path_components, path_is_absolute in *. destruct (ends_with_slash root) eqn:Hend.
  - unfold ends_with_slash in Hend. destruct (strip_suffix "/" root) as [b|] eqn:Hb; [|done].
    apply strip_suffix_Some in Hb as ->. rewrite starts_with_app, Hroot by done. cbn [app]. f_equal.
    rewrite <- str_app_assoc, Happ. f_equal. change (b +:+ "/") with (b +:+ "/" +:+ "").
    rewrite split_slash_app_r, omap_app. simpl. by rewrite app_nil_r.
  - rewrite starts_with_app, Hroot by done. cbn [app]. f_equal. apply Happ.
Qed.

Lemma normalize_relative_confines_witness :
  normalize_relative "a//b/./c" = Ok "a/b/c" /\
  path_components (path_join "/srv/" "a/b/c") =
    [Component.RootDir; Component.Normal "srv"; Component.Normal "a"; Component.Normal "b"; Component.Normal "c"].
Proof.
  split; [vm_compute; reflexivity|].
  destruct (normalize_relative_confines "a//b/./c" "a/b/c" "/srv/") as (_ & _ & names & _ & Hrel & ->);
    [vm_compute; reflexivity|vm_compute; reflexivity|]. rewrite <- Hrel. vm_compute. reflexivity.
Defined.

(** ** Issuing *)

(** What a handle records, whatever the file system answers while it is issued: the root it
    names was resolved and is a directory; the target, resolved below that root, lies under it and
    is a regular file; identity, size and time are those of that file; the registry receives
    exactly this handle, for an hour at most.  A call that fails adds nothing to the registry. *)
Theorem issue_records (d s root rel : string) (actions : GrantActions.t) (source : GrantSource.t) (ttl : Z)
    (w w' : Grants.t) (t : list FObs) (r : res FilesError.t FileHandle.t) :
  fexec (issue d s root rel actions source ttl) w t (Some r) w' ->
  match r with
  | Ok h =>
      (FileHandle.device_id h = d /\ FileHandle.session h = s /\ FileHandle.actions h = actions) /\
      well_issued h (Z.min ttl MAX_GRANT_TTL) /\
      exists target md token now,
        t = [Did (Canonicalize root) (Some (FileHandle.root h)); Did (IsDir (FileHandle.root h)) true;
             Did (Canonicalize (path_join (FileHandle.root h) (FileHandle.relative_path h))) (Some target);
             Did (StatPath target) (Some md); Did NewToken token; Did SystemNow now;
             Did (InsertGrant h (Z.min ttl MAX_GRANT_TTL)) tt] /\
        path_starts_with target (FileHandle.root h) = true /\ Metadata.is_file md = true /\
        FileHandle.token h = token /\ FileHandle.identity h = identity_of md /\
        FileHandle.size h = Metadata.len md /\ FileHandle.mtime_ns h = mtime_ns_of md
  | Err _ => forall h ttl, Did (InsertGrant h ttl) tt ∉ t
  end.
Proof.
  unfold issue. intros He. destruct r as [h|e].
  - texec_go He. simpl. split_and!; try done.
    + unfold well_issued. simpl. split_and!; try done; [lia|]. by exists rel.
    + eexists _, _, _, _. split_and!; [reflexivity|done..].
  - texec_go He; intros h ttl' Hin; simpl in Hin; repeat (apply elem_of_cons in Hin as [Hin|Hin]; [done|]);
      by apply elem_of_nil in Hin.
Qed.

(** ** Running on a file system *)

Lemma fs_answer_step (fs : FileSystem.t) (B : Type) (o : fop B) (w w' : Grants.t) (b : B) :
  fs_answer fs B o w = Some (b, w') -> fstep B o w (Some b) w'.
Proof.
  destruct o; simpl; intros H; try done; injection H as H; try (subst; done);
    try (destruct H; subst; done); rewrite H; done.
Qed.

Fixpoint trace_on (fs : FileSystem.t) {A : Type} (p : fprog A) (w : Grants.t) : list FObs :=
  match p with
  | Ret _ => []
  | @Act _ _ B o k =>
      match fs_answer fs B o w with
      | Some (b, w) => Did o b :: trace_on fs (k b) w
      | None => []
      end
  end.

(** A run on a file system is one of the runs among other tasks. *)
Lemma run_on_exec (fs : FileSystem.t) {A} (p : fprog A) (w w' : Grants.t) (a : A) :
  run_on fs p w = Some (a, w') -> fexec p w (trace_on fs p w) (Some a) w'.
Proof.
  revert w. induction p as [x|B o k IH]; intros w; simpl; [intros; by simplify_eq|].
  destruct (fs_answer fs B o w) as [[b w1]|] eqn:Ho; [|done]. intros Hr.
  exists w, (Some b), w1. split_and!; [done|by eapply fs_answer_step|]. eexists. split; [by apply IH|done].
Qed.

(** What the system promises of a file system at rest: a resolved path resolves to itself, and an
    opened regular file is the one [stat] sees. *)
Definition fs_coherent (fs : FileSystem.t) : Prop :=
  (forall p q, FileSystem.canonicalize fs p = Some q -> FileSystem.canonicalize fs q = Some q) /\
  (forall p md, FileSystem.stat fs p = Some md -> Metadata.is_file md = true ->
     exists fd, FileSystem.open fs p = Some fd /\ FileSystem.fstat fs fd = Some md).

Lemma lookup_valid_live (d s tok : string) (a : GrantAction.t) (w : Grants.t) (e : GrantEntry.t) :
  grants w !! tok = Some e -> clock w < GrantEntry.deadline e ->
  FileHandle.device_id (GrantEntry.handle e) = d -> FileHandle.session (GrantEntry.handle e) = s ->
  GrantActions.allows (FileHandle.actions (GrantEntry.handle e)) a = true ->
  lookup_valid d s tok a w = (Ok (GrantEntry.handle e), w).
Proof.
  intros Hg Hd <- <- Ha. unfold lookup_valid. rewrite Hg, (proj2 (Z.leb_gt _ _)) by done.
  by rewrite !bool_decide_eq_true_2, Ha by done.
Qed.

Lemma resolve_on (fs : FileSystem.t) (d s tok : string) (a : GrantAction.t) (w : Grants.t) (h : FileHandle.t)
    (root target : string) (fd : Fd) (md : Metadata.t) :
  lookup_valid d s tok a w = (Ok h, w) ->
  FileSystem.canonicalize fs (FileHandle.root h) = Some root ->
  FileSystem.canonicalize fs (path_join root (FileHandle.relative_path h)) = Some target ->
  path_starts_with target root = true -> FileSystem.open fs target = Some fd -> FileSystem.fstat fs fd = Some md ->
  identity_of md = FileHandle.identity h -> Metadata.len md = FileHandle.size h -> mtime_ns_of md = FileHandle.mtime_ns h ->
  run_on fs (resolve_for_read d s tok a) w =
    Some (Ok (VerifiedFile.mk fd (FileHandle.size h) (FileHandle.mtime_ns h) (FileHandle.identity h) h), w).
Proof.
  intros Hl Hr Ht Hin Ho Hs Hi Hn Hm. unfold resolve_for_read, try, lift, io. simpl. rewrite Hl. simpl.
  rewrite Hr. simpl. rewrite Ht. simpl. rewrite Hin. simpl. rewrite Ho. simpl. rewrite Hs. simpl.
  by rewrite bool_decide_eq_true_2, (proj2 (Z.eqb_eq _ _) Hn), (proj2 (Z.eqb_eq _ _) Hm) by done.
Qed.

(** A handle works: on a file system at rest, what [issue] returned can be read with each of
    the actions it was given, by the device and session it was given to, until it expires, whatever
    else happened to the registry as long as the handle is in it. *)
Theorem issue_then_resolve (fs : FileSystem.t) (d s root rel : string) (actions : GrantActions.t)
    (source : GrantSource.t) (ttl : Z) (a : GrantAction.t) (w w1 w2 : Grants.t) (h : FileHandle.t) :
  fs_coherent fs ->
  run_on fs (issue d s root rel actions source ttl) w = Some (Ok h, w1) ->
  GrantActions.allows actions a = true ->
  grants w2 !! FileHandle.token h = grants w1 !! FileHandle.token h ->
  clock w2 < clock w + Z.min ttl MAX_GRANT_TTL ->
  exists fd, run_on fs (resolve_for_read d s (FileHandle.token h) a) w2 =
    Some (Ok (VerifiedFile.mk fd (FileHandle.size h) (FileHandle.mtime_ns h) (FileHandle.identity h) h), w2).
Proof.
  intros [Hcan Hopen] Hissue Ha Hkept Hlive. unfold issue, try, lift, io in Hissue.
  repeat (simpl in Hissue; match type of Hissue with context [match ?x with _ => _ end] => destruct x eqn:? end; simplify_eq).
  simpl in Hissue. simplify_eq. bool_to_prop. cbn in Hkept. rewrite lookup_insert_eq in Hkept.
  repeat match goal with E : ok_or _ _ = Ok _ |- _ => apply ok_or_ok in E end.
  match goal with E : FileSystem.stat fs _ = Some _ |- _ => destruct (Hopen _ _ E) as (fd & Hfd & Hstat); [done|] end.
  exists fd. eapply resolve_on; [by apply (lookup_valid_live _ _ _ _ _ _ Hkept)|by eapply Hcan|done..].
Qed.

(** ** Transfer slots *)

(** The counters with the guards that are alive: only a holder drops a guard, once. *)
Inductive slot_step : Grants.t * list string -> Grants.t * list string -> Prop :=
| slot_acquired (w w' : Grants.t) (held : list string) (d : string) :
    acquire_transfer_slot d w = (Ok tt, w') -> slot_step (w, held) (w', d :: held)
| slot_refused (w w' : Grants.t) (held : list string) (d : string) (e : FilesError.t) :
    acquire_transfer_slot d w = (Err e, w') -> slot_step (w, held) (w', held)
| slot_dropped (w : Grants.t) (held1 held2 : list string) (d : string) :
    slot_step (w, held1 ++ d :: held2) (drop_transfer_slot d w, held1 ++ held2)
| slot_other (w w' : Grants.t) (held : list string) :
    transfers w' = transfers w -> slot_step (w, held) (w', held).

Definition holds (d : string) (held : list string) : Z := zlen (filter (fun x => x = d) held).

Lemma holds_cons (d x : string) (l : list string) : holds d (x :: l) = holds d l + (if decide (x = d) then 1 else 0).
Proof. unfold holds. rewrite filter_cons. case_decide; autorewrite with rust; lia. Qed.

Lemma holds_app (d : string) (l k : list string) : holds d (l ++ k) = holds d l + holds d k.
Proof. unfold holds. rewrite filter_app. by autorewrite with rust. Qed.

Definition slots_ok (x : Grants.t * list string) : Prop :=
  forall d, default 0 (transfers x.1 !! d) = holds d x.2 /\ holds d x.2 <= MAX_ACTIVE_TRANSFERS_PER_DEVICE.

Lemma slot_step_ok (x y : Grants.t * list string) : slot_step x y -> slots_ok x -> slots_ok y.
Proof.
  intros Hst Hok d'. specialize (Hok d') as Hd'. destruct Hst as [w w' held d Ha|w w' held d e Ha|w h1 h2 d|w w' held Ht]; simpl in *.
  - pose proof (Hok d) as [Hd _]. unfold acquire_transfer_slot in Ha. case_match eqn:Hm; simplify_eq. bool_to_prop. simpl in *.
    rewrite holds_cons. destruct (decide (d = d')) as [->|Hne]; [rewrite lookup_insert_eq; simpl; lia|].
    rewrite lookup_insert_ne by done. lia.
  - unfold acquire_transfer_slot in Ha. case_match eqn:Hm; simplify_eq. simpl.
    destruct (decide (d = d')) as [->|Hne]; [by rewrite lookup_insert_eq|]. by rewrite lookup_insert_ne.
  - pose proof (Hok d) as [Hd Hmax]. simpl in Hd, Hmax. rewrite holds_app, holds_cons in Hd, Hmax, Hd'. rewrite holds_app.
    rewrite decide_True in Hd, Hmax by done.
    assert (0 <= holds d h1) by apply zlen_nonneg. assert (0 <= holds d h2) by apply zlen_nonneg.
    unfold MAX_ACTIVE_TRANSFERS_PER_DEVICE in *. unfold drop_transfer_slot. destruct (transfers w !! d) as [n|] eqn:Hn; simpl in Hd; [|lia].
    assert (Hw : as_u64 (n - 1) = n - 1) by (apply Z.mod_small; lia). rewrite Hw.
    destruct (decide (d = d')) as [->|Hne].
    + case_match; bool_to_prop; simpl; [rewrite lookup_delete_eq|rewrite lookup_insert_eq]; simpl; lia.
    + case_match; simpl; [rewrite lookup_delete_ne by done|rewrite lookup_insert_ne by done]; lia.
  - by rewrite Ht.
Qed.

(** The counter of a device is the number of its transfers that are running, at every moment
    and for every order of starts and ends: at most two, so that a third is refused; and dropping
    a guard never takes the counter below zero. *)
Theorem slots_bounded (w : Grants.t) (held : list string) (d : string) :
  rtc slot_step (Grants.init, []) (w, held) ->
  default 0 (transfers w !! d) = holds d held /\ holds d held <= 2 /\
  ((acquire_transfer_slot d w).1 = Ok tt <-> holds d held < 2) /\
  (d ∈ held -> exists n, transfers w !! d = Some n /\ 1 <= n).
Proof.
  intros Hr. assert (Hok : slots_ok (w, held)).
  { assert (Hgen : forall x y, rtc slot_step x y -> slots_ok x -> slots_ok y) by (induction 1; eauto using slot_step_ok).
    eapply Hgen; [exact Hr|]. intros d'. done. }
  destruct (Hok d) as [Hd Hmax]. simpl in *. unfold MAX_ACTIVE_TRANSFERS_PER_DEVICE in *. split_and!; [done|lia| |].
  - unfold acquire_transfer_slot, MAX_ACTIVE_TRANSFERS_PER_DEVICE. rewrite Hd.
    destruct (Z.leb_spec 2 (holds d held)); simpl; split; intros; (done || lia).
  - intros (l1 & l2 & ->)%list_elem_of_split. rewrite holds_app, holds_cons, decide_True in Hd by done.
    assert (0 <= holds d l1) by apply zlen_nonneg. assert (0 <= holds d l2) by apply zlen_nonneg.
    destruct (transfers w !! d) as [n|]; simpl in Hd; [|lia]. exists n. split; [done|lia].
Qed.

Lemma slots_bounded_witness :
  exists w, rtc slot_step (Grants.init, []) (w, ["d"; "d"]) /\
    default 0 (transfers w !! "d") = 2 /\ (acquire_transfer_slot "d" w).1 <> Ok tt.
Proof.
  exists (acquire_transfer_slot "d" (acquire_transfer_slot "d" Grants.init).2).2.
  assert (Hr : rtc slot_step (Grants.init, []) ((acquire_transfer_slot "d" (acquire_transfer_slot "d" Grants.init).2).2, ["d"; "d"])).
  { eapply rtc_l; [apply slot_acquired; reflexivity|]. apply rtc_once, slot_acquired. reflexivity. }
  split; [exact Hr|]. destruct (slots_bounded _ _ "d" Hr) as (-> & _ & Hacq & _). split; [reflexivity|].
  intros H. apply Hacq in H. vm_compute in H. discriminate.
Defined.

(** ** Programs that only read *)

Definition not_insert (B : Type) (o : fop B) : Prop :=
  match o with InsertGrant _ _ => False | _ => True end.

Lemma fstep_ok (B : Type) (o : fop B) (w : Grants.t) (b : option B) (w' : Grants.t) :
  not_insert B o -> fstep B o w b w' -> grants_ok w -> grants_ok w'.
Proof.
  destruct o; simpl; intros Ho [_ Hw]; try done; subst; try done; apply fenv_ok; constructor.
Qed.

Lemma reading_ok {A} (p : fprog A) (w w' : Grants.t) (t : list FObs) (a : option A) :
  prog_all not_insert p -> fexec p w t a w' -> grants_ok w -> grants_ok w'.
Proof. intros Hp He. eapply texec_stable_all; [exact fenv_ok|exact fstep_ok|exact Hp|exact He]. Qed.

Lemma slice_of_bounds (h : option string) (total offset body_len : Z) (r : option HttpRange.t) :
  is_u64 total -> slice_of h total = Ok (offset, body_len, r) -> 0 <= offset /\ 0 <= body_len /\ offset + body_len <= total.
Proof.
  unfold slice_of. intros Ht Hs. destruct h as [h|]; res_inv; simplify_eq.
  - apply parse_single_range_bounds in H; [|done]. unfold HttpRange.len in *. lia.
  - unfold is_u64 in Ht. lia.
Qed.

(** What an open slice is, [t] being the operations that made it. *)
Definition slice_verified `{Infer} (v : VerifiedFile.t) (mode : TransferMode.t) (range_header : option string)
    (t : list FObs) (sl : FileSlice.t) : Prop :=
  let total := VerifiedFile.size v in
  FileSlice.body sl = VerifiedFile.file v /\ FileSlice.total_len sl = total /\ total <= MAX_DOWNLOAD_BYTES /\
  slice_of range_header total = Ok (FileSlice.offset sl, FileSlice.body_len sl, FileSlice.content_range sl) /\
  (0 < FileSlice.offset sl -> Did (SeekTo (FileSlice.body sl) (FileSlice.offset sl)) true ∈ t) /\
  exists prefix,
    Did (ReadExact (FileSlice.body sl) (Z.min SNIFF_PREFIX_BYTES total)) (Some prefix) ∈ t /\
    FileSlice.content_type sl = Classification.content_type (classify prefix) /\
    FileSlice.inline sl = Classification.is_inline (classify prefix) /\
    (mode = TransferMode.Preview -> check_preview (classify prefix) total = Ok tt).

Lemma open_slice_ok `{Infer} (v : VerifiedFile.t) (mode : TransferMode.t) (h : option string) (w w' : Grants.t)
    (t : list FObs) (sl : FileSlice.t) :
  fexec (open_slice v mode h) w t (Some (Ok sl)) w' -> slice_verified v mode h t sl.
Proof.
  unfold open_slice. intros He. texec_go He.
  match goal with p : Z * Z * option HttpRange.t |- _ => destruct p as [[offset body_len] r] end.
  texec_inv. unfold slice_verified.
  assert (Hsize : VerifiedFile.size v <= MAX_DOWNLOAD_BYTES).
  { match goal with E : Ok _ = check_download _ |- _ => unfold check_download in E; destruct (MAX_DOWNLOAD_BYTES <? _) eqn:? in E end; [done|]. bool_to_prop; lia. }
  match goal with E : texec _ _ _ (if _ then _ else _) _ _ _ _ |- _ => rename E into Hseek end.
  destruct (0 <? offset) eqn:Hoff; texec_inv; env_steps; bool_to_prop; simpl; split_and!; try done; try lia.
  - intros _. repeat match goal with E : Ok _ = io_unit ?b |- _ => destruct b; simpl in E; [clear E|done] end.
    rewrite !elem_of_cons. tauto.
  - eexists. split_and!; [left|done|done|]. intros ->. case_bool_decide; [|done]. by destruct (check_preview _ _) as [[]|].
  - eexists. split_and!; [left|done|done|]. intros ->. case_bool_decide; [|done]. by destruct (check_preview _ _) as [[]|].
Qed.
