(* ===== verification/UploadProps.v ===== *)
(** * Properties of the transfers of the Bridge *)

From S2P Require Import Prelude Bytes RustStr Prog Domain Proto FilePolicy Grants FilesProps Upload.

Import Grants (grants, transfers, clock, issued).

(** ** Programs over files inside a handler *)

Definition lift_obs (x : FObs) : RObs := match x with Did o b => DidR (OnFiles o) b end.

Lemma on_files_exec {A} (p : fprog A) (w w' : Grants.t) (t : list RObs) (a : option A) :
  rexec (on_files p) w t a w' -> exists t', fexec p w t' a w' /\ t = map lift_obs t'.
Proof.
  revert w t. induction p as [x|B o k IH]; intros w t; simpl.
  - intros (-> & -> & ->). by exists [].
  - intros (w1 & [b|] & w2 & Henv & Hst & He); simpl in Hst.
    + destruct He as (t1 & He & ->). destruct (IH _ _ _ He) as (t' & He' & ->).
      exists (Did o b :: t'). split; [|done]. exists w1, (Some b), w2. split_and!; [done..|]. by exists t'.
    + destruct He as (-> & -> & ->). exists []. split; [|done]. exists w1, None, w2. done.
Qed.

Definition files_of (t : list RObs) : list FObs :=
  omap (fun x => match x with
                 | @DidR _ (OnFiles o) b => Some (Did o b)
                 | _ => None
                 end) t.

Lemma files_of_lift (t : list FObs) : files_of (map lift_obs t) = t.
Proof. induction t as [|[B o b] t IH]; [done|]. unfold files_of in *. cbn. by rewrite IH. Qed.

Lemma files_of_app (t k : list RObs) : files_of (t ++ k) = files_of t ++ files_of k.
Proof. apply omap_app. Qed.

(** ** The sink *)

(** The bytes that reached the file. *)
Definition wrote (x : FObs) : list byte :=
  match x with
  | @Did _ (WriteAll _ data) b => if b then data else []
  | _ => []
  end.

Definition written_of (t : list FObs) : list byte := concat (map wrote t).

Lemma written_app (t k : list FObs) : written_of (t ++ k) = written_of t ++ written_of k.
Proof. unfold written_of. by rewrite map_app, concat_app. Qed.

(** A sink whose file holds [out]. *)
Definition sink_ok (s : UploadSink.t) (out : list byte) : Prop :=
  UploadSink.finished s = false /\ UploadSink.size s = zlen out /\ UploadSink.size s <= UploadSink.max_bytes s /\
  UploadSink.prefix s = take (Z.to_nat SNIFF_PREFIX_BYTES) out.

Lemma take_grow {A} (n : nat) (out data : list A) :
  take n (out ++ data) =
  if Z.of_nat (length (take n out)) <? Z.of_nat n
  then take n out ++ take (Z.to_nat (Z.min (Z.of_nat n - zlen (take n out)) (zlen data))) data
  else take n out.
Proof.
  unfold zlen. rewrite length_take, take_app.
  destruct (Z.ltb_spec (Z.of_nat (n `min` length out)) (Z.of_nat n)) as [Hlt|Hge].
  - f_equal. destruct (Z.min_spec (Z.of_nat n - Z.of_nat (n `min` length out)) (Z.of_nat (length data))) as [[? ->]|[? ->]].
    + f_equal. lia.
    + rewrite !take_ge; [done|lia|lia].
  - replace (n - length out)%nat with O by lia. by rewrite app_nil_r.
Qed.

Lemma keep_prefix_ok (s : UploadSink.t) (out data : list byte) :
  UploadSink.prefix s = take (Z.to_nat SNIFF_PREFIX_BYTES) out ->
  UploadSink.prefix (keep_prefix s data) = take (Z.to_nat SNIFF_PREFIX_BYTES) (out ++ data).
Proof.
  intros Hp. assert (Hn : SNIFF_PREFIX_BYTES = Z.of_nat (Z.to_nat SNIFF_PREFIX_BYTES)) by (rewrite Z2Nat.id; [done|vm_compute; discriminate]).
  rewrite take_grow, <- Hp, <- Hn. unfold keep_prefix. fold (zlen (UploadSink.prefix s)). by case_match.
Qed.

Lemma keep_prefix_rest (s : UploadSink.t) (data : list byte) :
  UploadSink.finished (keep_prefix s data) = UploadSink.finished s /\ UploadSink.size (keep_prefix s data) = UploadSink.size s /\
  UploadSink.max_bytes (keep_prefix s data) = UploadSink.max_bytes s /\ UploadSink.file (keep_prefix s data) = UploadSink.file s /\
  UploadSink.dir (keep_prefix s data) = UploadSink.dir s.
Proof. unfold keep_prefix. by case_match. Qed.

(** One chunk: written whole within the limit, or not at all. *)
Lemma write_chunk_spec (s s' : UploadSink.t) (out data : list byte) (w w' : Grants.t) (t : list FObs) (r : res FilesError.t unit) :
  sink_ok s out -> fexec (write_chunk s data) w t (Some (r, s')) w' ->
  UploadSink.max_bytes s' = UploadSink.max_bytes s /\ UploadSink.file s' = UploadSink.file s /\ UploadSink.dir s' = UploadSink.dir s /\
  match r with
  | Ok _ => written_of t = data /\ sink_ok s' (out ++ data)
  | Err e => written_of t = [] /\ UploadSink.size s' = UploadSink.size s /\ UploadSink.finished s' = false /\
             (e = FilesError.TooLarge -> UploadSink.max_bytes s < zlen (out ++ data))
  end.
Proof.
  intros (Hf & Hs & Hm & Hp) He. unfold write_chunk in He. rewrite Hf in He.
  destruct (keep_prefix_rest s data) as (Hf' & Hs' & Hm' & Hfi & Hd). pose proof (keep_prefix_ok _ _ data Hp) as Hp'.
  destruct (Z.ltb_spec (UploadSink.max_bytes s) (UploadSink.size s + zlen data)).
  - texec_inv. split_and!; try done. autorewrite with rust. lia.
  - rewrite Hfi in He. destruct (UploadSink.file s) as [file|] eqn:Hfile; [|texec_inv; rewrite Hs', Hm', Hfi, Hd, Hf'; done].
    texec_inv. simpl in H0. destruct H0 as [_ ->]. destruct x0; texec_inv; simpl.
    + unfold sink_ok; simpl. rewrite Hs', Hm', Hf', Hp', Hfi. split_and!; try done; unfold written_of; simpl; rewrite ?app_nil_r; try done; autorewrite with rust; lia.
    + rewrite Hs', Hm', Hf', Hfi. done.
Qed.

(** The body of an upload reaches the file whole chunk by whole chunk, in order and without a
    gap, and never beyond the limit of the sink; the count and the prefix kept for recognising the
    type are those of the bytes written; the copy succeeds only when the stream ended and every
    chunk is in the file, and it is refused as too large only if the chunks exceed the limit. *)
Theorem consume_chunks_bounded (first : bool) (chunks : list (list byte)) (stop : StreamEnd) (s s' : UploadSink.t)
    (out : list byte) (w w' : Grants.t) (t : list FObs) (r : res TransferError.t unit) :
  sink_ok s out -> fexec (consume_chunks first chunks stop s) w t (Some (r, s')) w' ->
  (exists copied, copied `prefix_of` chunks /\ written_of t = concat copied) /\
  UploadSink.size s' = zlen (out ++ written_of t) /\ UploadSink.size s' <= UploadSink.max_bytes s /\
  (r = Ok tt -> stop = StreamEof /\ written_of t = concat chunks /\ sink_ok s' (out ++ concat chunks)) /\
  (r = Err (TransferError.Files FilesError.TooLarge) -> UploadSink.max_bytes s < zlen (out ++ concat chunks)).
Proof.
  revert first s out w t. induction chunks as [|chunk chunks IH]; intros first s out w t Hok He; simpl in He.
  - destruct He as (-> & He & ->). simplify_eq. pose proof Hok as (_ & Hs & Hm & _). unfold written_of; simpl. rewrite !app_nil_r. split_and!; try done.
    + exists []. split; [apply prefix_nil|done].
    + intros. destruct stop; simplify_eq; done.
    + intros. destruct stop; done.
  - texec_inv. match goal with H : fexec (write_chunk _ _) _ _ (Some ?p) _ |- _ => destruct p as [rc s1] end.
    match goal with H : fexec (write_chunk _ _) _ _ _ _ |- _ => pose proof (write_chunk_spec _ _ _ _ _ _ _ _ Hok H) as (Hm & _ & _ & Hc) end.
    rewrite written_app. simpl in He. destruct rc as [[]|e].
    + destruct Hc as [-> Hok1]. destruct (IH _ _ _ _ _ Hok1 He) as ((l & Hl & Hw) & Hs & Hle & Hr1 & Hr2).
      rewrite Hm in *. rewrite <- app_assoc in *. split_and!; try done; try (rewrite app_assoc; done).
      * exists (chunk :: l). split; [by apply prefix_cons|]. simpl. by rewrite Hw.
      * intros Hr. destruct (Hr1 Hr) as (? & -> & ?). done.
    + destruct Hc as (-> & Hs & Hf & Hbig). texec_inv. pose proof Hok as (_ & Hs0 & Hm0 & _). simpl. rewrite app_nil_r.
      split_and!; try done; try lia.
      * exists []. split; [apply prefix_nil|done].
      * intros Hr. simplify_eq. specialize (Hbig eq_refl). rewrite !zlen_app in *. pose proof (zlen_nonneg (concat chunks)). lia.
Qed.

(** ** The handlers of an offer *)

(** What the Relay is told. *)
Inductive Answer :=
| Ready (id : string) (ready : bool) (rejection : option StableErrorCode.t)
| Result (id : string) (outcome : pb.TransferOutcome.t) (error : option StableErrorCode.t) (handle : option string).

Definition answers (t : list RObs) : list Answer :=
  omap (fun x => match x with
                 | @DidR _ (SendTransferReady id ready rejection) _ => Some (Ready id ready rejection)
                 | @DidR _ (SendTransferResult id outcome error handle) _ => Some (Result id outcome error handle)
                 | _ => None
                 end) t.

(** The guards a task takes and drops. *)
Definition slot_delta (x : FObs) : Z :=
  match x with
  | @Did _ (AcquireTransferSlot _) b => match b with Ok _ => 1 | Err _ => 0 end
  | @Did _ (DropTransferSlot _) _ => -1
  | _ => 0
  end.

Definition slots_kept (t : list RObs) : Z := sum_by slot_delta (files_of t).

Definition not_slot (B : Type) (o : fop B) : Prop :=
  match o with AcquireTransferSlot _ | DropTransferSlot _ => False | _ => True end.

Lemma answers_app (t k : list RObs) : answers (t ++ k) = answers t ++ answers k.
Proof. apply omap_app. Qed.

Lemma answers_lift (t : list FObs) : answers (map lift_obs t) = [].
Proof. induction t as [|[B o b] t IH]; [done|]. exact IH. Qed.

Lemma slots_app (t k : list RObs) : slots_kept (t ++ k) = slots_kept t + slots_kept k.
Proof. unfold slots_kept. by rewrite files_of_app, sum_by_app. Qed.

Lemma slots_quiet {A} (p : fprog A) (w w' : Grants.t) (t : list FObs) (a : option A) :
  prog_all not_slot p -> fexec p w t a w' -> slots_kept (map lift_obs t) = 0.
Proof.
  intros Hp He. assert (Hq : Forall (fun x => slot_delta x = 0) t).
  { eapply texec_all; [|exact Hp|exact He]. intros B o b Ho. constructor; [|done]. by destruct o. }
  unfold slots_kept. rewrite files_of_lift. clear He. induction Hq as [|x t Hx _ IH]; [done|].
  by rewrite sum_by_cons, Hx, IH.
Qed.

Lemma resolve_quiet (d s tok : string) (a : GrantAction.t) : prog_all not_slot (resolve_for_read d s tok a).
Proof. unfold resolve_for_read. prog_all_tac. Qed.

Lemma issue_quiet (d s root rel : string) (actions : GrantActions.t) (source : GrantSource.t) (ttl : Z) :
  prog_all not_slot (issue d s root rel actions source ttl).
Proof. unfold issue. prog_all_tac. Qed.

Lemma open_quiet `{Infer} (v : VerifiedFile.t) (mode : TransferMode.t) (h : option string) :
  prog_all not_slot (open_slice v mode h).
Proof. unfold open_slice. prog_all_tac. Qed.

Lemma create_quiet (root : string) (n : Z) : prog_all not_slot (sink_create root n).
Proof. unfold sink_create. prog_all_tac. Qed.

Lemma drop_sink_quiet (s : UploadSink.t) : prog_all not_slot (drop_sink s).
Proof. unfold drop_sink. prog_all_tac. Qed.

Lemma chunks_quiet (first : bool) (chunks : list (list byte)) (stop : StreamEnd) (s : UploadSink.t) :
  prog_all not_slot (consume_chunks first chunks stop s).
Proof.
  revert first s. induction chunks as [|chunk chunks IH]; intros first s; simpl; [done|].
  apply prog_all_bind; [unfold write_chunk; prog_all_tac|]. intros [[[]|e] s1]; [apply IH|done].
Qed.

#[local] Hint Resolve resolve_quiet issue_quiet open_quiet create_quiet drop_sink_quiet chunks_quiet : prog_all.

Lemma finish_quiet `{Infer} (s : UploadSink.t) (d session : string) (ttl : Z) : prog_all not_slot (sink_finish s d session ttl).
Proof. unfold sink_finish. prog_all_tac; auto with prog_all. Qed.

Lemma either_quiet (d session token : string) : prog_all not_slot (resolve_either d session token).
Proof. unfold resolve_either. prog_all_tac; auto with prog_all. Qed.

#[local] Hint Resolve finish_quiet either_quiet : prog_all.

(** Replace a program over files by its trace, which holds no answer and no guard. *)
Ltac files_inv :=
  repeat match goal with
  | H : rexec (on_files _) _ _ _ _ |- _ => apply on_files_exec in H as (? & ? & ->)
  end.

(** A whole answer to an offer: refused, or accepted and then reported once. *)
Definition answered (id : string) (l : list Answer) : Prop :=
  (exists code, l = [Ready id false (Some code)]) \/
  (exists outcome error handle, l = [Ready id true None; Result id outcome error handle]).

Lemma lifted (t : list FObs) : answers (map lift_obs t) = [] .
Proof. apply answers_lift. Qed.

Ltac handler_go :=
  repeat first
    [ progress texec_inv
    | match goal with
      | H : texec _ _ _ (match ?x with _ => _ end) _ _ _ _ |- _ => destruct x eqn:?
      | H : texec _ _ _ (let (_, _) := ?x in _) _ _ _ _ |- _ => destruct x eqn:?
      end
    | progress files_inv ].

Section Handlers.
Context `{Infer}.
Variable device : string.

Lemma download_task_spec (id : string) (slice : FileSlice.t) (w w' : Grants.t) (t : list RObs) :
  rexec (download_task device id slice) w t (Some tt) w' ->
  (exists outcome error handle, answers t = [Result id outcome error handle]) /\ slots_kept t = -1.
Proof.
  unfold download_task, produce, drop_slot. intros He. handler_go; cbn; eauto 10.
Qed.

Ltac quiet :=
  rewrite ?answers_app, ?answers_lift, ?slots_app;
  repeat match goal with
  | Hf : fexec ?p _ ?t _ _ |- context [slots_kept (map lift_obs ?t)] =>
      rewrite (slots_quiet p _ _ t _ ltac:(auto with prog_all) Hf)
  end; cbn.

Lemma upload_task_spec (id session : string) (sink : UploadSink.t) (w w' : Grants.t) (t : list RObs) :
  rexec (upload_task device id session sink) w t (Some tt) w' ->
  (exists outcome error handle, answers t = [Result id outcome error handle]) /\ slots_kept t = -1.
Proof.
  unfold upload_task, consume, drop_slot, sink_abort. intros He. handler_go; quiet; eauto 10.
Qed.

(** Every offer of the Relay is answered: a task that runs to its end has sent either one
    refusal with its code, or one acceptance followed by exactly one result; and it has released
    every transfer slot it took, on every path of the two handlers, whatever the file system, the
    connection and the other tasks do. *)
Theorem offer_answered (upload_root : string) (offer : pb.TransferOffer.t) (w w' : Grants.t) (t : list RObs) :
  rexec (handle_transfer_offer device upload_root offer) w t (Some tt) w' ->
  answered (pb.TransferOffer.transfer_id offer) (answers t) /\ slots_kept t = 0.
Proof.
  unfold answered, handle_transfer_offer, handle_download, handle_upload, refuse_offer, drop_slot, sink_abort. cbn zeta. intros He.
  handler_go;
    try match goal with
    | Hd : rexec (download_task _ _ _) _ _ _ _ |- _ => apply download_task_spec in Hd as [(? & ? & ? & Ha) Hs]
    | Hd : rexec (upload_task _ _ _ _) _ _ _ _ |- _ => apply upload_task_spec in Hd as [(? & ? & ? & Ha) Hs]
    end; quiet; rewrite ?Ha, ?Hs; cbn; eauto 10.
Qed.
End Handlers.

(** ** What a download serves *)

Lemma resolve_reads (d s tok : string) (a : GrantAction.t) : prog_all not_insert (resolve_for_read d s tok a).
Proof. unfold resolve_for_read. prog_all_tac. Qed.

Definition action_of (mode : TransferMode.t) : GrantAction.t :=
  match mode with TransferMode.Preview => GrantAction.Preview | TransferMode.Download => GrantAction.Download end.

Lemma resolve_either_ok (d s tok : string) (w w' : Grants.t) (t : list FObs) (v : VerifiedFile.t) (mode : TransferMode.t) :
  grants_ok w -> fexec (resolve_either d s tok) w t (Some (Ok (v, mode))) w' ->
  exists w1 t1 t2, t = t1 ++ t2 /\ grants_ok w1 /\ read_verified d s tok (action_of mode) w1 w' t2 v.
Proof.
  unfold resolve_either. intros Hok He. texec_inv.
  match goal with H : fexec (resolve_for_read _ _ _ GrantAction.Preview) _ _ (Some ?r) _ |- _ =>
    pose proof (reading_ok _ _ _ _ _ (resolve_reads _ _ _ _) H Hok); rename H into H1; destruct r as [v1|e] end; texec_inv.
  - eexists _, [], _. split_and!; [rewrite app_nil_r; done|exact Hok|]. by apply resolve_for_read_ok.
  - match goal with r : res _ VerifiedFile.t |- _ => destruct r; simplify_eq end.
    eexists _, _, _. split_and!; [rewrite app_nil_r; reflexivity|eassumption|]. by apply resolve_for_read_ok.
Qed.

Definition served (x : RObs) : list (string * FileSlice.t) :=
  match x with
  | @DidR _ (RequestProducer id slice) _ => [(id, slice)]
  | _ => []
  end.

Lemma served_lift (t : list FObs) : concat (map served (map lift_obs t)) = [].
Proof. induction t as [|[B o b] t IH]; [done|]. exact IH. Qed.

Lemma download_facts `{Infer} (device session token : string) (w w1 w2 w3 w4 : Grants.t) (v : VerifiedFile.t)
    (mode : TransferMode.t) (h : option string) (sl : FileSlice.t) (t0 t2 : list FObs) (u : unit) :
  rtc fenv Grants.init w -> rtc fenv w w1 ->
  rstep _ (OnFiles (AcquireTransferSlot device)) w1 (Some (Ok u)) w2 ->
  fexec (resolve_either device session token) w2 t0 (Some (Ok (v, mode))) w3 ->
  fexec (open_slice v mode h) w3 t2 (Some (Ok sl)) w4 ->
  exists w' t1, t1 ⊆ t0 /\ read_verified device session token (action_of mode) w' w3 t1 v /\
    slice_verified v mode h t2 sl /\
    (is_u64 (VerifiedFile.size v) ->
     0 <= FileSlice.offset sl /\ 0 <= FileSlice.body_len sl /\
     FileSlice.offset sl + FileSlice.body_len sl <= VerifiedFile.size v).
Proof.
  intros Hr H1 H2 H3 H4. assert (Hok : grants_ok w2).
  { apply (fstep_ok _ (AcquireTransferSlot device) w1 (Some (Ok u)) w2 I H2). eapply fenv_rtc_ok; [|exact grants_ok_init]. by etrans. }
  destruct (resolve_either_ok _ _ _ _ _ _ _ _ Hok H3) as (w' & ta & tb & -> & _ & Hv).
  pose proof (open_slice_ok _ _ _ _ _ _ _ H4) as Hs. exists w', tb. split_and!; [set_solver|done|done|].
  intros Hu. destruct Hs as (_ & _ & _ & Hsl & _). by apply slice_of_bounds in Hsl.
Qed.

(** C36. What is sent to the Relay for a download: at most one slice, of the descriptor that was
    verified for the handle of the offer (see [read_verified]: the handle is the caller's, live, and
    the file is the one it was issued for), positioned and cut exactly as the offer's range asks,
    inside the file, within the download limit and, when it is opened as a preview, within the limit
    of its type; the declared type is the one recognised in the first bytes of that descriptor. *)
Theorem download_serves_verified `{Infer} (device : string) (offer : pb.TransferOffer.t) (w w' : Grants.t) (t : list RObs)
    (id : string) (sl : FileSlice.t) :
  rtc fenv Grants.init w -> rexec (handle_download device offer) w t (Some tt) w' ->
  (id, sl) ∈ concat (map served t) ->
  concat (map served t) = [(id, sl)] /\ id = pb.TransferOffer.transfer_id offer /\
  exists session v mode w1 w2 t1 t2,
    offer_session offer = Some session /\
    t1 ⊆ files_of t /\ t2 ⊆ files_of t /\
    read_verified device session (pb.TransferOffer.file_handle offer) (action_of mode) w1 w2 t1 v /\
    slice_verified v mode
      (range_header_of (pb.TransferOffer.range_start offer) (pb.TransferOffer.range_end_inclusive offer)
         (VerifiedFile.size v)) t2 sl /\
    (is_u64 (VerifiedFile.size v) ->
     0 <= FileSlice.offset sl /\ 0 <= FileSlice.body_len sl /\
     FileSlice.offset sl + FileSlice.body_len sl <= VerifiedFile.size v).
Proof.
  intros Hr He Hin. unfold handle_download, download_task, produce, refuse_offer, drop_slot in He. cbn zeta in He.
  handler_go; rewrite ?map_app, ?concat_app, ?served_lift in *; cbn in Hin; try (by apply elem_of_nil in Hin);
    apply list_elem_of_singleton in Hin; simplify_eq; (split; [done|split; [done|]]);
    match goal with
    | Ha : rtc fenv w ?w1, Hb : rstep _ (OnFiles (AcquireTransferSlot _)) ?w1 _ _,
      Hf : fexec (resolve_either _ _ _) _ ?t0 _ _, Ho : fexec (open_slice _ _ _) _ ?t2 _ _ |- _ =>
        destruct (download_facts _ _ _ _ _ _ _ _ _ _ _ _ _ _ _ Hr Ha Hb Hf Ho)
          as (w0 & t1 & Ht1 & Hv & Hs & Hin);
        eexists _, _, _, w0, _, t1, t2; split_and!; [reflexivity| | |exact Hv|exact Hs|exact Hin];
        rewrite !files_of_app, !files_of_lift; set_solver
    end.
Qed.
