(* ===== verification/FilesDemo.v ===== *)
(** * Concrete transfers

    A file system with one upload and one large text file, a Relay that answers, and the handlers
    run on them: witnesses of the properties, and two runs on which the code does not do what its
    comments say. *)

From S2P Require Import Prelude Bytes RustStr Prog Domain Proto FilePolicy Grants FilesProps Upload UploadProps.

Import Grants (grants, transfers, clock, issued).

(** ** The stage *)

#[local] Instance demo_infer : Infer := fun bytes => match bytes with x25 :: x50 :: _ => Some "application/pdf" | _ => None end.

(** [/data] holds the upload of 5 bytes and a text that is declared to be 3 MiB long. *)
Definition demo_md (ino len : Z) : Metadata.t := Metadata.mk 1 ino len 1700000000 5 true.

Definition demo_fs : FileSystem.t :=
  FileSystem.mk
    (fun p => if bool_decide (p ∈ ["/data"; "/data/u-temp"; "/data/u-temp/payload"; "/data/big.log"; "/data/note.txt"])
              then Some p else None)
    (fun p => bool_decide (p ∈ ["/data"; "/data/u-temp"]))
    (fun p => if bool_decide (p = "/data/u-temp/payload") then Some (demo_md 7 5)
              else if bool_decide (p = "/data/note.txt") then Some (demo_md 8 5)
              else if bool_decide (p = "/data/big.log") then Some (demo_md 9 (3 * mib)) else None)
    (fun p => if bool_decide (p = "/data/u-temp/payload") then Some 7%nat
              else if bool_decide (p = "/data/note.txt") then Some 8%nat
              else if bool_decide (p = "/data/big.log") then Some 9%nat else None)
    (fun fd => match fd with 7%nat => Some (demo_md 7 5) | 8%nat => Some (demo_md 8 5) | 9%nat => Some (demo_md 9 (3 * mib)) | _ => None end)
    (fun fd => match fd with 9%nat => replicate (Z.to_nat SNIFF_PREFIX_BYTES) x61 | _ => [x68; x65; x6c; x6c; x6f] end)
    1000000 "token".

(** The Relay takes what is sent and sends the five bytes of the upload in two chunks. *)
Definition net_answer (B : Type) (o : rop B) (w : Grants.t) : option (B * Grants.t) :=
  match o in rop B return option (B * Grants.t) with
  | @OnFiles A o => fs_answer demo_fs A o w
  | SendTransferReady _ _ _ => Some (tt, w)
  | SendTransferResult _ _ _ _ => Some (tt, w)
  | HasRelayUrls => Some (true, w)
  | RegisterTransfer _ => Some (tt, w)
  | RemoveTransfer _ => Some (tt, w)
  | StoreUploadHandle _ _ => Some (tt, w)
  | BuildClient _ => Some (true, w)
  | RequestProducer _ slice => Some (RvResponse 202 (FileSlice.body_len slice), w)
  | RequestConsumer _ => Some (RvResponse 200 ([[x68; x65]; [x6c; x6c; x6f]], StreamEof), w)
  end.

Fixpoint run_net {A : Type} (p : rprog A) (w : Grants.t) : option (A * Grants.t) :=
  match p with
  | Ret a => Some (a, w)
  | @Act _ _ B o k => match net_answer B o w with Some (b, w) => run_net (k b) w | None => None end
  end.

Fixpoint trace_net {A : Type} (p : rprog A) (w : Grants.t) : list RObs :=
  match p with
  | Ret _ => []
  | @Act _ _ B o k =>
      match net_answer B o w with
      | Some (b, w) => DidR o b :: trace_net (k b) w
      | None => []
      end
  end.

Lemma run_net_exec {A} (p : rprog A) (w w' : Grants.t) (a : A) :
  run_net p w = Some (a, w') -> rexec p w (trace_net p w) (Some a) w'.
Proof.
  revert w. induction p as [x|B o k IH]; intros w; simpl; [intros; by simplify_eq|].
  destruct (net_answer B o w) as [[b w1]|] eqn:Ho; [|done]. intros Hr.
  exists w, (Some b), w1. split_and!; [done| |eexists; split; [by apply IH|done]].
  destruct o; simpl in Ho; simplify_eq; try done. by apply fs_answer_step in Ho.
Qed.

Definition demo_key : pb.SessionKey.t := pb.SessionKey.mk "dev" 1 "session" "".

Definition demo_offer (direction : pb.TransferDirection.t) (handle : string) (start : Z) : pb.TransferOffer.t :=
  pb.TransferOffer.mk "t1" (pb.TransferDirection.as_i32 direction) (Some demo_key) "f" "" 5 handle start None None.

Definition demo_issue (rel : string) : fprog (res FilesError.t FileHandle.t) :=
  issue "dev" "session" "/data" rel GrantActions.all GrantSource.UserOpened DEFAULT_GRANT_TTL.

(** The registry after a handle for a file of [/data] was issued. *)
Definition demo_world (rel : string) : Grants.t :=
  match run_on demo_fs (demo_issue rel) Grants.init with Some (_, w) => w | None => Grants.init end.

Definition demo_handle (rel : string) (ino size : Z) : FileHandle.t :=
  FileHandle.mk "token" "dev" "session" "/data" rel GrantActions.all GrantSourceKind.UserOpened
    (FileIdentity.mk 1 ino) size 1700000000000000005 (1000000 + DEFAULT_GRANT_TTL).

Lemma demo_reachable (rel : string) (ino size : Z) :
  run_on demo_fs (demo_issue rel) Grants.init = Some (Ok (demo_handle rel ino size), insert_grant (demo_handle rel ino size) DEFAULT_GRANT_TTL Grants.init) ->
  normalize_relative rel = Ok rel -> rtc fenv Grants.init (demo_world rel).
Proof.
  intros Hr Hn. unfold demo_world. rewrite Hr. apply rtc_once, env_insert.
  unfold well_issued. simpl. split_and!; try done. by exists rel.
Qed.

(** ** Witnesses *)

Lemma resolve_for_read_safe_witness :
  read_verified "dev" "session" "token" GrantAction.Download (demo_world "note.txt") (demo_world "note.txt")
    (trace_on demo_fs (resolve_for_read "dev" "session" "token" GrantAction.Download) (demo_world "note.txt"))
    (VerifiedFile.mk 8%nat 5 1700000000000000005 (FileIdentity.mk 1 8) (demo_handle "note.txt" 8 5)).
Proof.
  apply resolve_for_read_safe.
  - apply (demo_reachable "note.txt" 8 5); vm_compute; reflexivity.
  - apply run_on_exec. vm_compute. reflexivity.
Defined.

Lemma issue_records_witness :
  exists t, fexec (demo_issue "note.txt") Grants.init t (Some (Ok (demo_handle "note.txt" 8 5))) (demo_world "note.txt") /\
    Did (InsertGrant (demo_handle "note.txt" 8 5) DEFAULT_GRANT_TTL) tt ∈ t.
Proof.
  exists (trace_on demo_fs (demo_issue "note.txt") Grants.init).
  assert (He : fexec (demo_issue "note.txt") Grants.init (trace_on demo_fs (demo_issue "note.txt") Grants.init)
                 (Some (Ok (demo_handle "note.txt" 8 5))) (demo_world "note.txt"))
    by (apply run_on_exec; vm_compute; reflexivity).
  split; [exact He|].
  destruct (issue_records "dev" "session" "/data" "note.txt" GrantActions.all GrantSource.UserOpened DEFAULT_GRANT_TTL
              Grants.init (demo_world "note.txt") _ _ He) as (_ & _ & target & md & token & now & -> & _).
  rewrite !elem_of_cons. change (Z.min DEFAULT_GRANT_TTL MAX_GRANT_TTL) with DEFAULT_GRANT_TTL. tauto.
Defined.

Lemma demo_coherent : fs_coherent demo_fs.
Proof.
  split; simpl.
  - intros p q. case_bool_decide as H; [|done]. intros [= <-]. by rewrite bool_decide_eq_true_2.
  - intros p md. repeat case_bool_decide; try done; intros [= <-] _; eauto.
Qed.

Lemma issue_then_resolve_witness :
  exists fd, run_on demo_fs (resolve_for_read "dev" "session" "token" GrantAction.Upload)
      (Grants.mk (grants (demo_world "note.txt")) ∅ 599999 []) =
    Some (Ok (VerifiedFile.mk fd 5 1700000000000000005 (FileIdentity.mk 1 8) (demo_handle "note.txt" 8 5)),
      Grants.mk (grants (demo_world "note.txt")) ∅ 599999 []).
Proof.
  apply (issue_then_resolve demo_fs "dev" "session" "/data" "note.txt" GrantActions.all GrantSource.UserOpened
           DEFAULT_GRANT_TTL GrantAction.Upload Grants.init (demo_world "note.txt") _ (demo_handle "note.txt" 8 5)).
  - exact demo_coherent.
  - vm_compute. reflexivity.
  - vm_compute. reflexivity.
  - vm_compute. reflexivity.
  - vm_compute. reflexivity.
Defined.

Definition demo_sink : UploadSink.t := UploadSink.mk "/data/u-temp" "/data/u-temp/payload" (Some 7%nat) [] 0 4 false.

(** Three bytes fit, the next two do not. *)
Lemma consume_chunks_bounded_witness :
  exists t s', fexec (consume_chunks true [[x68; x65; x6c]; [x6c; x6f]] StreamEof demo_sink) Grants.init t
      (Some (Err (TransferError.Files FilesError.TooLarge), s')) Grants.init /\
    UploadSink.size s' = 3 /\ UploadSink.max_bytes demo_sink < 5.
Proof.
  set (p := consume_chunks true [[x68; x65; x6c]; [x6c; x6f]] StreamEof demo_sink).
  set (s' := UploadSink.mk "/data/u-temp" "/data/u-temp/payload" (Some 7%nat) [x68; x65; x6c] 3 4 false).
  assert (He : fexec p Grants.init (trace_on demo_fs p Grants.init) (Some (Err (TransferError.Files FilesError.TooLarge), s')) Grants.init)
    by (apply run_on_exec; vm_compute; reflexivity).
  assert (Hok : sink_ok demo_sink []) by (split_and!; vm_compute; done).
  exists (trace_on demo_fs p Grants.init), s'. split; [exact He|].
  destruct (consume_chunks_bounded _ _ _ _ _ _ _ _ _ _ Hok He) as (_ & _ & _ & _ & Hbig).
  split; [reflexivity|]. exact (Hbig eq_refl).
Defined.

Lemma offer_answered_witness :
  exists t w', rexec (handle_transfer_offer "dev" "/data" (demo_offer pb.TransferDirection.Upload "" 0)) Grants.init t (Some tt) w' /\
    answers t = [Ready "t1" true None; Result "t1" pb.TransferOutcome.Completed None (Some "token")] /\
    slots_kept t = 0.
Proof.
  set (p := handle_transfer_offer "dev" "/data" (demo_offer pb.TransferDirection.Upload "" 0)).
  assert (He : exists w', rexec p Grants.init (trace_net p Grants.init) (Some tt) w').
  { destruct (run_net p Grants.init) as [[[] w']|] eqn:Hr; [exists w'; by apply run_net_exec|vm_compute in Hr; discriminate]. }
  destruct He as [w' He]. exists (trace_net p Grants.init), w'. split; [exact He|].
  destruct (offer_answered "dev" "/data" (demo_offer pb.TransferDirection.Upload "" 0) Grants.init w' _ He) as [_ Hs].
  split; [vm_compute; reflexivity|exact Hs].
Defined.

Lemma download_serves_verified_witness :
  exists sl, ("t1", sl) ∈ concat (map served (trace_net (handle_download "dev" (demo_offer pb.TransferDirection.Download "token" 2)) (demo_world "note.txt"))) /\
    FileSlice.offset sl = 2 /\ FileSlice.body_len sl = 3 /\ FileSlice.total_len sl <= MAX_DOWNLOAD_BYTES.
Proof.
  set (p := handle_download "dev" (demo_offer pb.TransferDirection.Download "token" 2)).
  exists (FileSlice.mk "text/plain; charset=utf-8" true 8%nat 2 3 (Some (HttpRange.mk 2 4)) 5).
  assert (Hin : ("t1", FileSlice.mk "text/plain; charset=utf-8" true 8%nat 2 3 (Some (HttpRange.mk 2 4)) 5)
                  ∈ concat (map served (trace_net p (demo_world "note.txt")))) by (vm_compute; left).
  assert (Hr : rtc fenv Grants.init (demo_world "note.txt")) by (apply (demo_reachable "note.txt" 8 5); vm_compute; reflexivity).
  assert (He : exists w', rexec p (demo_world "note.txt") (trace_net p (demo_world "note.txt")) (Some tt) w').
  { destruct (run_net p (demo_world "note.txt")) as [[[] w']|] eqn:Hn; [exists w'; by apply run_net_exec|vm_compute in Hn; discriminate]. }
  destruct He as [w' He].
  destruct (download_serves_verified "dev" (demo_offer pb.TransferDirection.Download "token" 2) _ _ _ _ _ Hr He Hin)
    as (_ & _ & session & v & mode & w1 & w2 & t1 & t2 & _ & _ & _ & _ & (_ & Ht & Hm & _) & _).
  split; [exact Hin|]. split; [reflexivity|]. split; [reflexivity|]. rewrite Ht. exact Hm.
Defined.

(** ** Where the comments promise more *)

(** A text of 3 MiB is above the preview limit and far below the download limit, and its handle
    allows downloads.  The offer of a download does not say so, the handler verifies the handle as
    a preview first, and refuses. *)
Theorem large_text_is_not_downloadable :
  answers (trace_net (handle_download "dev" (demo_offer pb.TransferDirection.Download "token" 0)) (demo_world "big.log")) =
    [Ready "t1" false (Some StableErrorCode.FileTypeNotPreviewable)] /\
  check_download (3 * mib) = Ok tt /\ GrantActions.allows GrantActions.all GrantAction.Download = true.
Proof. split_and!; vm_compute; reflexivity. Qed.

(** The upload is complete but its directory cannot be resolved: no handle is issued, and the
    payload stays behind, for the sink counts as finished. *)
Definition lost_fs : FileSystem.t :=
  FileSystem.mk (fun _ => None) (FileSystem.is_dir demo_fs) (FileSystem.stat demo_fs) (FileSystem.open demo_fs)
    (FileSystem.fstat demo_fs) (FileSystem.content demo_fs) 1000000 "token".

Theorem failed_issue_keeps_payload :
  exists t w, fexec (sink_finish demo_sink "dev" "session" DEFAULT_GRANT_TTL) Grants.init t
      (Some (Err (FilesError.HandleInvalid "root missing"))) w /\
    forall x, x ∈ t -> match x with
                       | @Did _ (RemoveFile _) _ | @Did _ (RemoveDir _) _ | @Did _ (RemoveDirAll _) _ => False
                       | _ => True
                       end.
Proof.
  set (p := sink_finish demo_sink "dev" "session" DEFAULT_GRANT_TTL).
  exists (trace_on lost_fs p Grants.init), Grants.init. split; [apply run_on_exec; vm_compute; reflexivity|].
  apply Forall_forall. repeat constructor.
Qed.
