(* ===== verification/Concurrent.v ===== *)
(** * Concurrent command handlers

    The handlers of [commands/] are asynchronous: between two awaits any other task of the
    process may run.  A handler is therefore a program [prog]: a tree of atomic operations [op] -
    one store call, one critical section of a mutex, one call to the adapter, one message sent -
    with a continuation for each answer.  The same program has two readings:

    - [run] executes it alone against a [World], every answer of the environment coming from an
      oracle and other tasks interfering arbitrarily between two operations;
    - [step] interleaves the operations of a pool of programs over one [World].

    The Codex adapter enters as the answers of three operations (the snapshot, the execution of a
    command, the subscription); a receiver of a channel is the list of messages it will yield
    before it closes. *)

From S2P Require Import Prelude Prog RustStr Domain LocalStore.

(** [AdapterError] ([adapter/codex/mod.rs]). *)
Module AdapterError.
Inductive t :=
| Ipc (text : string)
| Catalog (text : string)
| Stable (code : StableErrorCode.t) (message : string).

Definition code (e : t) : StableErrorCode.t :=
  match e with
  | Stable code _ => code
  | Ipc _ | Catalog _ => StableErrorCode.CodexUnavailable
  end.

Definition display (e : t) : string :=
  match e with
  | Ipc s => "ipc: " +:+ s
  | Catalog s => "catalog: " +:+ s
  | Stable code message => StableErrorCode.as_str code +:+ ": " +:+ message
  end.
End AdapterError.

(** What [tokio::spawn] starts: the forwarding of a command's receipts, the watcher of a
    session. *)
Inductive Task :=
| Forward (request_id : Uuid) (receipts : list CommandReceipt.t)
| Watch (key : SessionKey.t) (events : list DomainEvent.t).

Module World.
Record t := mk {
  db : Db.t;
  watchers : gset string;
  auto_send_inflight : gset string;
  closed : bool;
  inflight : gset Uuid;
  sent : list (Uuid * CommandReceipt.t);
  tasks : list Task;
  dispatched : list CommandRequest.t;
  auto_dispatched : list CommandRequest.t;
}.

Definition with_db (x : Db.t) (m : t) : t :=
  mk x (watchers m) (auto_send_inflight m) (closed m) (inflight m) (sent m) (tasks m) (dispatched
    m) (auto_dispatched m).
Definition with_watchers (x : gset string) (m : t) : t :=
  mk (db m) x (auto_send_inflight m) (closed m) (inflight m) (sent m) (tasks m) (dispatched m)
    (auto_dispatched m).
Definition with_auto_send_inflight (x : gset string) (m : t) : t :=
  mk (db m) (watchers m) x (closed m) (inflight m) (sent m) (tasks m) (dispatched m)
    (auto_dispatched m).
Definition with_closed (x : bool) (m : t) : t :=
  mk (db m) (watchers m) (auto_send_inflight m) x (inflight m) (sent m) (tasks m) (dispatched m)
    (auto_dispatched m).
Definition with_inflight (x : gset Uuid) (m : t) : t :=
  mk (db m) (watchers m) (auto_send_inflight m) (closed m) x (sent m) (tasks m) (dispatched m)
    (auto_dispatched m).
Definition with_sent (x : list (Uuid * CommandReceipt.t)) (m : t) : t :=
  mk (db m) (watchers m) (auto_send_inflight m) (closed m) (inflight m) x (tasks m) (dispatched m)
    (auto_dispatched m).
Definition with_tasks (x : list Task) (m : t) : t :=
  mk (db m) (watchers m) (auto_send_inflight m) (closed m) (inflight m) (sent m) x (dispatched m)
    (auto_dispatched m).
Definition with_dispatched (x : list CommandRequest.t) (m : t) : t :=
  mk (db m) (watchers m) (auto_send_inflight m) (closed m) (inflight m) (sent m) (tasks m) x
    (auto_dispatched m).
Definition with_auto_dispatched (x : list CommandRequest.t) (m : t) : t :=
  mk (db m) (watchers m) (auto_send_inflight m) (closed m) (inflight m) (sent m) (tasks m)
    (dispatched m) x.

Definition initial (db : Db.t) : t := mk db ∅ ∅ false ∅ [] [] [] [].
End World.

(** The atomic operations, each with the type of its answer. *)
Inductive op : Type -> Type :=
| GetNextTurn (session : SessionKeyRef.t) : op (res StoreError.t (option NextTurnEntry.t))
| SetNextTurn (entry : NextTurnEntry.t) (replace : bool) : op (res StoreError.t unit)
| ClearNextTurn (session : SessionKeyRef.t) : op (res StoreError.t bool)
| RecordReceipt (row : RequestReceipt.t) : op (res StoreError.t ReceiptUpsertOutcome)
| GetReceipt (request_id : string) : op (res StoreError.t (option RequestReceipt.t))
| UpdateReceiptStatus (request_id status : string) : op (res StoreError.t bool)
| PutCursor (key value : string) : op (res StoreError.t unit)
| GetCursor (key : string) : op (res StoreError.t (option string))
| NowRfc3339 : op string
| UtcNow : op DateTime
| NewUuid : op Uuid
| Sleep (ms : Z) : op unit
| Capabilities : op CapabilitySet.t
| RuntimeSnapshotOf (key : SessionKey.t) : op (res AdapterError.t RuntimeSnapshot.t)
| Execute (key : SessionKey.t) (request : CommandRequest.t)
    : op (res AdapterError.t (list CommandReceipt.t))
| AutoExecute (key : SessionKey.t) (request : CommandRequest.t)
    : op (res AdapterError.t (list CommandReceipt.t))
| Subscribe (key : SessionKey.t) : op (option (list DomainEvent.t))
| LoadClosed : op bool
| StoreClosed : op unit
| InflightInsert (request_id : Uuid) : op unit
| InflightRemove (request_id : Uuid) : op unit
| InflightDrain : op (list Uuid)
| Send (request_id : Uuid) (receipt : CommandReceipt.t) : op unit
| WatcherContains (native : string) : op bool
| WatcherInsert (native : string) : op unit
| WatcherRemove (native : string) : op unit
| AutoSendInsert (native : string) : op unit
| AutoSendRemove (native : string) : op bool
| Spawn (task : Task) : op unit.

Notation prog := (Prog.prog op).

(** What the environment answers to the next operation. *)
Module Env.
Record t := mk {
  read_fault : Fault;
  write_fault : Fault;
  now : string;
  utc_now : DateTime;
  uuid : Uuid;
  capabilities : CapabilitySet.t;
  snapshot : SessionKey.t -> res AdapterError.t RuntimeSnapshot.t;
  executed : CommandRequest.t -> res AdapterError.t (list CommandReceipt.t);
  subscribed : option (list DomainEvent.t);
}.
End Env.

Definition on_db {A} (w : World.t) (r : store! A) : res StoreError.t A * World.t :=
  (r.1, World.with_db r.2 w).

(** One atomic operation. *)
Definition exec {B : Type} (e : Env.t) (w : World.t) (o : op B) : B * World.t :=
  let rf := Env.read_fault e in
  let wf := Env.write_fault e in
  match o in op B return B * World.t with
  | GetNextTurn session => on_db w (get_next_turn rf (World.db w) session)
  | SetNextTurn entry replace => on_db w (set_next_turn rf wf (Env.now e) (World.db w) entry replace)
  | ClearNextTurn session => on_db w (clear_next_turn wf (World.db w) session)
  | RecordReceipt row => on_db w (record_receipt rf wf (World.db w) row)
  | GetReceipt request_id => on_db w (get_receipt rf (World.db w) request_id)
  | UpdateReceiptStatus request_id status =>
      on_db w (update_receipt_status wf (Env.now e) (World.db w) request_id status)
  | PutCursor key value => on_db w (put_cursor wf (World.db w) key value)
  | GetCursor key => on_db w (get_cursor rf (World.db w) key)
  | NowRfc3339 => (Env.now e, w)
  | UtcNow => (Env.utc_now e, w)
  | NewUuid => (Env.uuid e, w)
  | Sleep _ => (tt, w)
  | Capabilities => (Env.capabilities e, w)
  | RuntimeSnapshotOf key => (Env.snapshot e key, w)
  | Execute _ request =>
      (Env.executed e request, World.with_dispatched (World.dispatched w ++ [request]) w)
  | AutoExecute _ request =>
      (Env.executed e request, World.with_auto_dispatched (World.auto_dispatched w ++ [request]) w)
  | Subscribe _ => (Env.subscribed e, w)
  | LoadClosed => (World.closed w, w)
  | StoreClosed => (tt, World.with_closed true w)
  | InflightInsert id => (tt, World.with_inflight ({[id]} ∪ World.inflight w) w)
  | InflightRemove id => (tt, World.with_inflight (World.inflight w ∖ {[id]}) w)
  | InflightDrain => (elements (World.inflight w), World.with_inflight ∅ w)
  | Send id receipt => (tt, World.with_sent (World.sent w ++ [(id, receipt)]) w)
  | WatcherContains native => (bool_decide (native ∈ World.watchers w), w)
  | WatcherInsert native => (tt, World.with_watchers ({[native]} ∪ World.watchers w) w)
  | WatcherRemove native => (tt, World.with_watchers (World.watchers w ∖ {[native]}) w)
  | AutoSendInsert native =>
      (tt, World.with_auto_send_inflight ({[native]} ∪ World.auto_send_inflight w) w)
  | AutoSendRemove native =>
      (bool_decide (native ∈ World.auto_send_inflight w),
       World.with_auto_send_inflight (World.auto_send_inflight w ∖ {[native]}) w)
  | Spawn task => (tt, World.with_tasks (World.tasks w ++ [task]) w)
  end.

(** What an observer of one handler sees. *)
Inductive Obs :=
| SawClosed (closed : bool)
| SawCapabilities (caps : CapabilitySet.t)
| SawRecorded (row : RequestReceipt.t) (r : res StoreError.t ReceiptUpsertOutcome)
| SawSnapshot (key : SessionKey.t) (r : res AdapterError.t RuntimeSnapshot.t)
| SawExecute (key : SessionKey.t) (request : CommandRequest.t)
| SawAutoExecute (key : SessionKey.t) (request : CommandRequest.t)
    (r : res AdapterError.t (list CommandReceipt.t))
| SawQueue (session : SessionKeyRef.t) (r : res StoreError.t (option NextTurnEntry.t))
| SawSetQueue (entry : NextTurnEntry.t) (replace : bool) (r : res StoreError.t unit)
| SawClear (session : SessionKeyRef.t) (r : res StoreError.t bool)
| SawStatus (request_id status : string)
| SawSend (request_id : Uuid) (receipt : CommandReceipt.t)
| SawSpawn (task : Task)
| SawRemoved (request_id : Uuid)
| SawOther.

Definition obs {B : Type} (o : op B) : B -> Obs :=
  match o in op B return B -> Obs with
  | LoadClosed => SawClosed
  | Capabilities => SawCapabilities
  | RecordReceipt row => SawRecorded row
  | RuntimeSnapshotOf key => SawSnapshot key
  | Execute key request => fun _ => SawExecute key request
  | AutoExecute key request => SawAutoExecute key request
  | GetNextTurn session => SawQueue session
  | SetNextTurn entry replace => SawSetQueue entry replace
  | ClearNextTurn session => SawClear session
  | UpdateReceiptStatus id status => fun _ => SawStatus id status
  | Send id receipt => fun _ => SawSend id receipt
  | Spawn task => fun _ => SawSpawn task
  | InflightRemove id => fun _ => SawRemoved id
  | _ => fun _ => SawOther
  end.

(** An oracle: at every operation, what the other tasks do before it and what the environment
    answers. *)
Definition Oracle : Type := nat -> (World.t -> World.t) * Env.t.

Fixpoint run {A : Type} (h : Oracle) (n : nat) (w : World.t) (p : prog A) : A * World.t * list Obs :=
  match p with
  | Ret a => (a, w, [])
  | Act o k =>
      let '(b, w) := exec (h n).2 ((h n).1 w) o in
      let '(a, w, tr) := run h (S n) w (k b) in
      (a, w, obs o b :: tr)
  end.

