(* ===== verification/Queue.v ===== *)
(** * The next-turn queue ([commands/queue.rs])

    [QueueManager]'s methods as programs over the atomic operations: at most one queued turn per
    session, sent when the current turn completes, paused when something else happens. *)

From S2P Require Import Prelude Prog RustStr Domain LocalStore Concurrent.

(** What the code takes from serde, SHA-256, chrono and uuid. *)
Class Conversions := {
  canonical_payload_digest : CommandPayload.t -> string;
  operation_name : Operation.t -> string;
  parse_datetime : string -> option DateTime;
  parse_uuid : string -> option Uuid;
}.

Definition uuid_nil : Uuid := "00000000-0000-0000-0000-000000000000".

Definition IDLE_AFTER_TURN : string := "idle".

Definition store_error_code (err : StoreError.t) : StableErrorCode.t :=
  match err with
  | StoreError.DuplicateRequestMismatch _ => StableErrorCode.DuplicateRequestMismatch
  | StoreError.QueueAlreadyExists => StableErrorCode.QueueAlreadyExists
  | _ => StableErrorCode.InternalError
  end.

Definition session_ref (key : SessionKey.t) : SessionKeyRef.t :=
  SessionKeyRef.mk (SessionKey.device_id key) (AgentKind.proto_value (SessionKey.agent_kind key))
    (SessionKey.native_session_id key).

Definition store_err (err : StoreError.t) : BridgeError.t :=
  BridgeError.mk (store_error_code err) (StoreError.display err).

Definition adapter_message (err : AdapterError.t) : string :=
  match err with
  | AdapterError.Stable _ message => message
  | other => AdapterError.display other
  end.

Definition receipt_status_str (state : ReceiptState.t) : string :=
  match state with
  | ReceiptState.DispatchedToCodex => "DISPATCHED_TO_CODEX"
  | ReceiptState.Completed => "COMPLETED"
  | ReceiptState.Rejected _ _ => "REJECTED"
  | ReceiptState.OutcomeUnknown => "OUTCOME_UNKNOWN"
  end.

Definition store_state_to_domain (status : StoreQueueStatus.t) : QueueState.t :=
  match status with
  | StoreQueueStatus.Queued => QueueState.Queued
  | StoreQueueStatus.Paused => QueueState.Paused
  | StoreQueueStatus.Empty => QueueState.Empty
  end.

Definition turn_id_of_str (raw : string) : TurnId.t :=
  if bool_decide (raw = IDLE_AFTER_TURN) then TurnId.synthetic IDLE_AFTER_TURN else TurnId.native raw.

Definition MAX_ATTEMPTS : nat := 10.

(** The loop of [retry_busy]; [attempt] counts the failures.  [fuel] is never exhausted when it
    starts at [MAX_ATTEMPTS]: the loop leaves at the tenth failure at the latest. *)
Fixpoint retry_busy_loop {A : Type} (fuel attempt : nat) (o : op (res StoreError.t A))
    : prog (res StoreError.t A) :=
  do r <- act o;
  match r with
  | Ok value => Ret (Ok value)
  | Err err =>
      let busy := match err with StoreError.Sqlx text => contains_str "database is locked" text | _ => false end in
      let attempt := S attempt in
      if negb busy || (MAX_ATTEMPTS <=? attempt)%nat then Ret (Err err)
      else match fuel with
           | O => Ret (Err err)
           | S fuel => perform act (Sleep (10 * Z.of_nat attempt)); retry_busy_loop fuel attempt o
           end
  end.

Definition retry_busy {A : Type} (o : op (res StoreError.t A)) : prog (res StoreError.t A) :=
  retry_busy_loop MAX_ATTEMPTS 0 o.

(** [?] on a store result, in a method that returns a [BridgeError]. *)
Definition try_store {A B : Type} (r : res StoreError.t A) (k : A -> prog (res BridgeError.t B))
    : prog (res BridgeError.t B) :=
  match r with
  | Ok a => k a
  | Err err => Ret (Err (store_err err))
  end.

Definition entry_with_status (entry : NextTurnEntry.t) (status : StoreQueueStatus.t) (updated_at : string)
    : NextTurnEntry.t :=
  NextTurnEntry.mk (NextTurnEntry.session entry) (NextTurnEntry.prompt entry)
    (NextTurnEntry.after_turn_id entry) (NextTurnEntry.runtime_revision entry) status
    (NextTurnEntry.created_at entry) updated_at.

Section Queue.
Context `{Conversions}.

Definition entry_from_snapshot (key : SessionKey.t) (snapshot : RuntimeSnapshot.t) (prompt : string)
    : prog NextTurnEntry.t :=
  do now <- act NowRfc3339;
  Ret (NextTurnEntry.mk (session_ref key) prompt
         (default IDLE_AFTER_TURN
            ((fun t => TurnId.id (CurrentTurn.turn t)) <$> RuntimeSnapshot.current_turn snapshot))
         (as_i64 (RuntimeSnapshot.runtime_revision snapshot))
         StoreQueueStatus.Queued now now).

Definition domain_turn (entry : NextTurnEntry.t) (request_id : Uuid) (input : OutputText.t)
    : QueuedTurn.t :=
  QueuedTurn.mk request_id input (turn_id_of_str (NextTurnEntry.after_turn_id entry))
    (as_u64 (NextTurnEntry.runtime_revision entry))
    (store_state_to_domain (NextTurnEntry.status entry))
    (parse_datetime (NextTurnEntry.updated_at entry)).

Definition cursor_name (key : SessionKey.t) : string :=
  "queue-request:" +:+ SessionKey.native_session_id key.

Definition remember_request_id (key : SessionKey.t) (request_id : Uuid) : prog unit :=
  perform act (PutCursor (cursor_name key) request_id); Ret tt.

Definition stored_request_id (key : SessionKey.t) : prog Uuid :=
  do r <- act (GetCursor (cursor_name key));
  Ret (default uuid_nil (match r with Ok (Some v) => parse_uuid v | _ => None end)).

(** [self.snapshot(key)]. *)
Definition queue_snapshot (key : SessionKey.t) : prog (res BridgeError.t RuntimeSnapshot.t) :=
  do r <- act (RuntimeSnapshotOf key);
  Ret (map_err (fun err => BridgeError.mk (AdapterError.code err) (adapter_message err)) r).

Definition ensure_watcher (key : SessionKey.t) : prog unit :=
  let native := SessionKey.native_session_id key in
  do there <- act (WatcherContains native);
  if there : bool then Ret tt
  else
    perform act (WatcherInsert native);
    do events <- act (Subscribe key);
    match events with
    | None => act (WatcherRemove native)
    | Some events => act (Spawn (Watch key events))
    end.

Definition mark_paused (session : SessionKeyRef.t) : prog unit :=
  do r <- act (GetNextTurn session);
  match r with
  | Ok (Some entry) =>
      if negb (bool_decide (NextTurnEntry.status entry = StoreQueueStatus.Queued)) then Ret tt
      else
        do now <- act NowRfc3339;
        perform retry_busy (SetNextTurn (entry_with_status entry StoreQueueStatus.Paused now) true);
        Ret tt
  | _ => Ret tt
  end.

(** The [while let Some(receipt) = receipts.recv()] loop: was the turn completed? *)
Fixpoint receive_until_terminal (request_id : Uuid) (receipts : list CommandReceipt.t) : prog bool :=
  match receipts with
  | [] => Ret false
  | receipt :: receipts =>
      perform act (UpdateReceiptStatus request_id (receipt_status_str (CommandReceipt.state receipt)));
      match CommandReceipt.state receipt with
      | ReceiptState.DispatchedToCodex => receive_until_terminal request_id receipts
      | ReceiptState.Completed => Ret true
      | ReceiptState.Rejected _ _ | ReceiptState.OutcomeUnknown => Ret false
      end
  end.

Definition auto_send_request (key : SessionKey.t) (request_id : Uuid) (prompt : string)
    : CommandRequest.t :=
  let payload := CommandPayload.StartTurn (OutputText.mk prompt) in
  CommandRequest.mk request_id Operation.StartTurn key None None
    (Some (canonical_payload_digest payload)) payload.

Definition maybe_auto_send (key : SessionKey.t) : prog unit :=
  let session := session_ref key in
  let native := SessionKey.native_session_id key in
  do r <- act (GetNextTurn session);
  match r with
  | Ok (Some entry) =>
      if negb (bool_decide (NextTurnEntry.status entry = StoreQueueStatus.Queued)) then Ret tt
      else
        do s <- act (RuntimeSnapshotOf key);
        match s with
        | Err _ => mark_paused session
        | Ok snapshot =>
            match RuntimeSnapshot.current_turn snapshot with
            | Some _ => Ret tt
            | None =>
                if negb (bool_decide (RuntimeSnapshot.pending_questions snapshot = [])) ||
                   negb (bool_decide (RuntimeSnapshot.pending_approvals snapshot = []))
                then Ret tt
                else
                  do request_id <- act NewUuid;
                  perform act (AutoSendInsert native);
                  do executed <- act (AutoExecute key (auto_send_request key request_id (NextTurnEntry.prompt entry)));
                  perform
                    match executed with
                    | Ok receipts =>
                        do sent <- receive_until_terminal request_id receipts;
                        if sent : bool
                        then perform retry_busy (ClearNextTurn session); Ret tt
                        else mark_paused session
                    | Err err =>
                        perform act (UpdateReceiptStatus request_id
                          (if bool_decide (AdapterError.code err = StableErrorCode.OutcomeUnknown)
                           then "OUTCOME_UNKNOWN" else "REJECTED"));
                        mark_paused session
                    end;
                  perform act (AutoSendRemove native);
                  Ret tt
            end
        end
  | _ => Ret tt
  end.

Definition on_event (key : SessionKey.t) (event : DomainEvent.t) : prog unit :=
  let native := SessionKey.native_session_id key in
  match event with
  | DomainEvent.TurnLifecycle _ ActiveTurnPhase.Idle (Some LastTurnOutcome.Completed) _ =>
      perform act (AutoSendRemove native); maybe_auto_send key
  | DomainEvent.TurnLifecycle _ ActiveTurnPhase.Idle
      (Some (LastTurnOutcome.Failed | LastTurnOutcome.Interrupted)) _ =>
      perform act (AutoSendRemove native); mark_paused (session_ref key)
  | DomainEvent.TurnLifecycle turn (ActiveTurnPhase.Running | ActiveTurnPhase.Finishing) _ _ =>
      do ours <- act (AutoSendRemove native);
      if ours : bool then Ret tt
      else
        do r <- act (GetNextTurn (session_ref key));
        match r with
        | Ok (Some entry) =>
            if bool_decide (NextTurnEntry.status entry = StoreQueueStatus.Queued) &&
               negb (bool_decide (NextTurnEntry.after_turn_id entry = TurnId.id turn))
            then mark_paused (session_ref key)
            else Ret tt
        | _ => Ret tt
        end
  | _ => Ret tt
  end.

(** The task of a watcher: the events of the subscription one after the other. *)
Fixpoint watch (key : SessionKey.t) (events : list DomainEvent.t) : prog unit :=
  match events with
  | [] => act (WatcherRemove (SessionKey.native_session_id key))
  | event :: events => perform on_event key event; watch key events
  end.

(** ** The methods *)

Definition queue_set (key : SessionKey.t) (input : OutputText.t) (replace : bool) (request_id : Uuid)
    (snapshot : RuntimeSnapshot.t) : prog (res BridgeError.t QueuedTurn.t) :=
  do r <- act (GetNextTurn (session_ref key));
  try_store r (fun existing =>
    match existing, replace with
    | Some existing, false =>
        Ret (Err match NextTurnEntry.status existing with
                 | StoreQueueStatus.Paused =>
                     BridgeError.mk StableErrorCode.QueuePaused
                       "queue entry is paused; resume or replace explicitly"
                 | _ =>
                     BridgeError.mk StableErrorCode.QueueAlreadyExists
                       "session already has a queued next turn"
                 end)
    | _, _ =>
        do entry <- entry_from_snapshot key snapshot (OutputText.text input);
        do r <- retry_busy (SetNextTurn entry replace);
        try_store r (fun _ =>
          perform remember_request_id key request_id;
          perform ensure_watcher key;
          Ret (Ok (domain_turn entry request_id input)))
    end).

Definition queue_replace (key : SessionKey.t) (input : OutputText.t) (request_id : Uuid)
    : prog (res BridgeError.t QueuedTurn.t) :=
  do s <- queue_snapshot key;
  match s with
  | Ok snapshot => queue_set key input true request_id snapshot
  | Err err => Ret (Err err)
  end.

Definition queue_get (key : SessionKey.t) : prog (res BridgeError.t (option QueuedTurn.t)) :=
  do r <- act (GetNextTurn (session_ref key));
  try_store r (fun entry =>
    match entry with
    | None => Ret (Ok None)
    | Some entry =>
        do request_id <- stored_request_id key;
        Ret (Ok (Some (domain_turn entry request_id (OutputText.mk (NextTurnEntry.prompt entry)))))
    end).

Definition queue_status (key : SessionKey.t) : prog (res BridgeError.t QueueStatus.t) :=
  do r <- act (GetNextTurn (session_ref key));
  try_store r (fun entry =>
    match entry with
    | None => Ret (Ok QueueStatus.default)
    | Some entry =>
        Ret (Ok (QueueStatus.mk (store_state_to_domain (NextTurnEntry.status entry))
                   (Some (turn_id_of_str (NextTurnEntry.after_turn_id entry)))
                   (Some (as_u64 (NextTurnEntry.runtime_revision entry)))))
    end).

Definition queue_cancel (key : SessionKey.t) : prog (res BridgeError.t bool) :=
  do r <- retry_busy (ClearNextTurn (session_ref key));
  Ret (map_err store_err r).

Definition queue_pause (key : SessionKey.t) : prog (res BridgeError.t bool) :=
  do r <- act (GetNextTurn (session_ref key));
  try_store r (fun entry =>
    match entry with
    | None => Ret (Ok false)
    | Some entry =>
        if bool_decide (NextTurnEntry.status entry = StoreQueueStatus.Paused) then Ret (Ok false)
        else
          do now <- act NowRfc3339;
          do r <- retry_busy (SetNextTurn (entry_with_status entry StoreQueueStatus.Paused now) true);
          try_store r (fun _ => Ret (Ok true))
    end).

Definition queue_resume (key : SessionKey.t) : prog (res BridgeError.t (option QueuedTurn.t)) :=
  do r <- act (GetNextTurn (session_ref key));
  try_store r (fun entry =>
    match entry with
    | None => Ret (Ok None)
    | Some entry =>
        do s <- queue_snapshot key;
        match s with
        | Err err => Ret (Err err)
        | Ok snapshot =>
            do rebound <- entry_from_snapshot key snapshot (NextTurnEntry.prompt entry);
            do now <- act NowRfc3339;
            let entry :=
              NextTurnEntry.mk (NextTurnEntry.session entry) (NextTurnEntry.prompt entry)
                (NextTurnEntry.after_turn_id rebound) (NextTurnEntry.runtime_revision rebound)
                StoreQueueStatus.Queued (NextTurnEntry.created_at entry) now in
            do r <- retry_busy (SetNextTurn entry true);
            try_store r (fun _ =>
              perform ensure_watcher key;
              do request_id <- stored_request_id key;
              let queued := domain_turn entry request_id (OutputText.mk (NextTurnEntry.prompt entry)) in
              perform maybe_auto_send key;
              Ret (Ok (Some queued)))
        end
    end).

End Queue.
