(* ===== verification/Gateway.v ===== *)
(** * The command gateway ([commands/gateway.rs])

    [submit], the forwarding of receipts and [graceful_shutdown] as programs over the atomic
    operations, and the pool in which they run interleaved. *)

From S2P Require Import Prelude Prog RustStr Domain LocalStore Concurrent Queue.

Module StoredReceiptState.
Inductive t := Received | AcceptedByBridge | DispatchedToCodex | Completed | Rejected | OutcomeUnknown.
End StoredReceiptState.

Definition stored_state_from_status (status : string) : StoredReceiptState.t :=
  if bool_decide (status = "RECEIVED") then StoredReceiptState.Received
  else if bool_decide (status = "DISPATCHED_TO_CODEX") then StoredReceiptState.DispatchedToCodex
  else if bool_decide (status = "COMPLETED") then StoredReceiptState.Completed
  else if bool_decide (status = "REJECTED") then StoredReceiptState.Rejected
  else if bool_decide (status = "OUTCOME_UNKNOWN") then StoredReceiptState.OutcomeUnknown
  else StoredReceiptState.AcceptedByBridge.

(** [receipts] names the request whose receipts the returned receiver carries. *)
Module Submission.
Inductive t :=
| Accepted (accepted_at : DateTime) (receipts : Uuid)
| Replayed (request_id : Uuid) (state : StoredReceiptState.t).

Definition is_accepted (s : t) : bool :=
  match s with Accepted _ _ => true | Replayed _ _ => false end.
End Submission.

Definition is_terminal (state : ReceiptState.t) : bool :=
  match state with
  | ReceiptState.Completed | ReceiptState.Rejected _ _ | ReceiptState.OutcomeUnknown => true
  | ReceiptState.DispatchedToCodex => false
  end.

Section Gateway.
Context `{Conversions}.

Definition accepted (request_id : Uuid) : prog (res BridgeError.t Submission.t) :=
  do now <- act UtcNow;
  Ret (Ok (Submission.Accepted now request_id)).

(** Persist the state, tell the caller, drop the inflight entry. *)
Definition finalize_receipt (request_id : Uuid) (state : ReceiptState.t) : prog unit :=
  perform act (UpdateReceiptStatus request_id (receipt_status_str state));
  do now <- act UtcNow;
  perform act (Send request_id (CommandReceipt.mk request_id state (Some now)));
  act (InflightRemove request_id).

Definition finalize_rejected (request_id : Uuid) (code : StableErrorCode.t) (message : string)
    : prog unit :=
  finalize_receipt request_id (ReceiptState.Rejected code message).

Definition finalize_local {T : Type} (request_id : Uuid) (result : res BridgeError.t T) : prog unit :=
  finalize_receipt request_id
    match result with
    | Ok _ => ReceiptState.Completed
    | Err err => ReceiptState.Rejected (BridgeError.code err) (BridgeError.message err)
    end.

(** The task [spawn_forward] spawns: the receipts one after the other up to the first terminal
    one; [OUTCOME_UNKNOWN] when the stream ends without one. *)
Fixpoint forward_receipts (request_id : Uuid) (receipts : list CommandReceipt.t) : prog bool :=
  match receipts with
  | [] => Ret false
  | receipt :: receipts =>
      let state := CommandReceipt.state receipt in
      perform act (UpdateReceiptStatus request_id (receipt_status_str state));
      perform act (Send request_id receipt);
      if is_terminal state then Ret true else forward_receipts request_id receipts
  end.

Definition forward (request_id : Uuid) (receipts : list CommandReceipt.t) : prog unit :=
  do terminal <- forward_receipts request_id receipts;
  perform
    (if terminal : bool then Ret tt
     else
       perform act (UpdateReceiptStatus request_id "OUTCOME_UNKNOWN");
       do now <- act UtcNow;
       act (Send request_id (CommandReceipt.mk request_id ReceiptState.OutcomeUnknown (Some now))));
  act (InflightRemove request_id).

(** Steps 0 and 1: the agent kind and the capability gate. *)
Definition gate (req : CommandRequest.t) (k : prog (res BridgeError.t Submission.t))
    : prog (res BridgeError.t Submission.t) :=
  let zcode_write :=
    bool_decide (SessionKey.agent_kind (CommandRequest.session_key req) = AgentKind.ZcodeDesktop) &&
    match CommandRequest.payload req with
    | CommandPayload.AnswerQuestion _ _ _ | CommandPayload.SubmitApproval _ _ => false
    | _ => true
    end in
  if zcode_write
  then Ret (Err (BridgeError.mk StableErrorCode.CapabilityUnsupported
                   "operation not supported for zcode hook sessions"))
  else if bool_decide (CommandRequest.operation req = Operation.QueueNextTurn) then k
  else
    do caps <- act Capabilities;
    if CapabilitySet.supports caps (CommandRequest.operation req) then k
    else if bool_decide (CapabilitySet.control_mode caps = ControlMode.ReadOnly)
    then Ret (Err (BridgeError.mk StableErrorCode.ControlReadOnly
                     "desktop capability probe did not enable this write"))
    else Ret (Err (BridgeError.mk StableErrorCode.CapabilityUnsupported
                     "operation not supported by current desktop version")).

(** Step 2: the idempotency row. *)
Definition receipt_row (req : CommandRequest.t) (now : string) : RequestReceipt.t :=
  RequestReceipt.mk (CommandRequest.request_id req) (session_ref (CommandRequest.session_key req))
    (operation_name (CommandRequest.operation req)) "ACCEPTED_BY_BRIDGE"
    (canonical_payload_digest (CommandRequest.payload req)) now now.

Definition replayed (request_id : Uuid) : prog (res BridgeError.t Submission.t) :=
  do r <- act (GetReceipt request_id);
  Ret (Ok (Submission.Replayed request_id
    match r with
    | Ok (Some row) => stored_state_from_status (RequestReceipt.status row)
    | _ => StoredReceiptState.AcceptedByBridge
    end)).

(** Step 3: is a snapshot needed, and does it match the request's expectations?  The reason of
    the refusal otherwise. *)
Definition needs_snapshot (req : CommandRequest.t) : bool :=
  match CommandRequest.expected_turn_id req, CommandRequest.expected_runtime_revision req,
        CommandRequest.payload req with
  | Some _, _, _ | _, Some _, _ | _, _, CommandPayload.QueueNextTurn _ _ => true
  | _, _, _ => false
  end.

Lemma queue_needs_snapshot (req : CommandRequest.t) (input : OutputText.t) (replace : bool) :
  CommandRequest.payload req = CommandPayload.QueueNextTurn input replace -> needs_snapshot req = true.
Proof. unfold needs_snapshot. intros ->. by repeat case_match. Qed.

Definition stale (req : CommandRequest.t) (snapshot : RuntimeSnapshot.t) : option string :=
  let current_turn := CurrentTurn.turn <$> RuntimeSnapshot.current_turn snapshot in
  let revision := RuntimeSnapshot.runtime_revision snapshot in
  match CommandRequest.expected_runtime_revision req with
  | Some expected =>
      if negb (expected =? revision) && negb (CommandRequest.permits_revision_drift req current_turn)
      then Some ("runtime revision moved " +:+ pretty expected +:+ " -> " +:+ pretty revision)
      else match CommandRequest.expected_turn_id req with
           | Some turn => if bool_decide (current_turn = Some turn) then None
                          else Some "target turn is no longer current"
           | None => None
           end
  | None =>
      match CommandRequest.expected_turn_id req with
      | Some turn => if bool_decide (current_turn = Some turn) then None
                     else Some "target turn is no longer current"
      | None => None
      end
  end.

Definition adapter_failure (err : AdapterError.t) : ReceiptState.t :=
  if bool_decide (AdapterError.code err = StableErrorCode.OutcomeUnknown)
  then ReceiptState.OutcomeUnknown
  else ReceiptState.Rejected (AdapterError.code err) (adapter_message err).

(** Steps 4 and 5: the queue's own payloads, everything else to the executor. *)
Definition dispatch (req : CommandRequest.t) (validated : option RuntimeSnapshot.t)
    : prog (res BridgeError.t Submission.t) :=
  let key := CommandRequest.session_key req in
  let request_id := CommandRequest.request_id req in
  match CommandRequest.payload req with
  | CommandPayload.QueueNextTurn input replace =>
      match validated with
      | Some snapshot =>
          do result <- queue_set key input replace request_id snapshot;
          perform finalize_local request_id result;
          accepted request_id
      | None =>
          (* the [expect]; [validate_and_dispatch] never gets here, see [queue_needs_snapshot] *)
          Ret (Err (BridgeError.mk StableErrorCode.InternalError
                      "QueueNextTurn implies validated snapshot"))
      end
  | CommandPayload.CancelQueue =>
      do result <- queue_cancel key;
      perform finalize_local request_id result;
      accepted request_id
  | CommandPayload.PauseQueue =>
      do result <- queue_pause key;
      perform finalize_local request_id result;
      accepted request_id
  | other =>
      let request :=
        CommandRequest.mk request_id (CommandRequest.operation req) key
          (CommandRequest.expected_turn_id req) (CommandRequest.expected_runtime_revision req)
          (Some (canonical_payload_digest other)) other in
      do r <- act (Execute key request);
      match r with
      | Ok receipts =>
          perform act (Spawn (Forward request_id receipts));
          accepted request_id
      | Err err =>
          perform finalize_receipt request_id (adapter_failure err);
          accepted request_id
      end
  end.

Definition validate_and_dispatch (req : CommandRequest.t) : prog (res BridgeError.t Submission.t) :=
  let request_id := CommandRequest.request_id req in
  if needs_snapshot req then
    do s <- act (RuntimeSnapshotOf (CommandRequest.session_key req));
    match s with
    | Err err =>
        perform finalize_rejected request_id (AdapterError.code err) (AdapterError.display err);
        accepted request_id
    | Ok snapshot =>
        match stale req snapshot with
        | Some message =>
            perform finalize_rejected request_id StableErrorCode.StaleTurn message;
            accepted request_id
        | None => dispatch req (Some snapshot)
        end
    end
  else dispatch req None.

Definition submit (req : CommandRequest.t) : prog (res BridgeError.t Submission.t) :=
  let request_id := CommandRequest.request_id req in
  do closed <- act LoadClosed;
  if closed : bool
  then Ret (Err (BridgeError.mk StableErrorCode.DeviceOffline
                   "bridge is shutting down; not accepting new commands"))
  else
    gate req
      (do now <- act NowRfc3339;
       do r <- act (RecordReceipt (receipt_row req now));
       match r with
       | Ok Inserted =>
           perform act (InflightInsert request_id);
           validate_and_dispatch req
       | Ok Existing => replayed request_id
       | Err err => Ret (Err (store_err err))
       end).

(** One drained request after the other is given its terminal state. *)
Fixpoint finalize_drained (pending : list Uuid) : prog unit :=
  match pending with
  | [] => Ret tt
  | request_id :: pending =>
      do now <- act UtcNow;
      perform act (UpdateReceiptStatus request_id "OUTCOME_UNKNOWN");
      perform act (Send request_id (CommandReceipt.mk request_id ReceiptState.OutcomeUnknown (Some now)));
      finalize_drained pending
  end.

Definition graceful_shutdown : prog (list Uuid) :=
  perform act StoreClosed;
  do pending <- act InflightDrain;
  perform finalize_drained pending;
  Ret pending.

(** ** The process: handlers interleaved *)

Definition task_prog (task : Task) : prog unit :=
  match task with
  | Forward request_id receipts => forward request_id receipts
  | Watch key events => watch key events
  end.

Definition ignore {A : Type} (p : prog A) : prog unit := perform p; Ret tt.

(** What may be called at any time. *)
Inductive Call :=
| CallSubmit (req : CommandRequest.t)
| CallResume (key : SessionKey.t)
| CallReplace (key : SessionKey.t) (input : OutputText.t) (request_id : Uuid)
| CallShutdown.

Definition call_prog (c : Call) : prog unit :=
  match c with
  | CallSubmit req => ignore (submit req)
  | CallResume key => ignore (queue_resume key)
  | CallReplace key input request_id => ignore (queue_replace key input request_id)
  | CallShutdown => ignore graceful_shutdown
  end.

(** A scheduling decision: a call arrives, a spawned task is started, the program at a position
    does its next operation. *)
Inductive Choice :=
| Arrive (c : Call)
| Start
| Advance (i : nat) (e : Env.t).

Definition Config : Type := World.t * list (prog unit).

Definition step (cfg : Config) (c : Choice) : Config :=
  let '(w, pool) := cfg in
  match c with
  | Arrive c => (w, pool ++ [call_prog c])
  | Start =>
      match World.tasks w with
      | [] => cfg
      | task :: tasks => (World.with_tasks tasks w, pool ++ [task_prog task])
      end
  | Advance i e =>
      match pool !! i with
      | Some (Act o k) => let '(b, w) := exec e w o in (w, <[i := k b]> pool)
      | _ => cfg
      end
  end.

Definition steps (cfg : Config) (choices : list Choice) : Config := foldl step cfg choices.

End Gateway.
