(* ===== verification/Ipc.v ===== *)
(** * The IPC client of Codex Desktop ([adapter/codex/ipc/client.rs], [ipc/messages.rs])

    Requests are correlated with responses by their id: a request registers the sender of a oneshot
    channel under a fresh id, the read loop of [Frame] hands a response to the sender with its id.
    [Conn] is what the tasks of a connection share; [dispatch], [teardown] and [writer_step] are what
    the read and write tasks do to it, [request] is a program over it that runs among them. *)

From S2P Require Import Prelude Prog RustStr Json Frame.

(** ** Methods and versions *)

Module method.
Definition INITIALIZE : string := "initialize".
Definition THREAD_OWNER_DISCOVERY : string := "thread-owner-discovery".
Definition THREAD_FOLLOWER_START_TURN : string := "thread-follower-start-turn".
Definition THREAD_FOLLOWER_LOAD_COMPLETE_HISTORY : string := "thread-follower-load-complete-history".
Definition THREAD_FOLLOWER_COMPACT_THREAD : string := "thread-follower-compact-thread".
Definition THREAD_FOLLOWER_STEER_TURN : string := "thread-follower-steer-turn".
Definition THREAD_FOLLOWER_INTERRUPT_TURN : string := "thread-follower-interrupt-turn".
Definition THREAD_FOLLOWER_UPDATE_THREAD_SETTINGS : string := "thread-follower-update-thread-settings".
Definition THREAD_FOLLOWER_EDIT_LAST_USER_TURN : string := "thread-follower-edit-last-user-turn".
Definition THREAD_FOLLOWER_COMMAND_APPROVAL_DECISION : string := "thread-follower-command-approval-decision".
Definition THREAD_FOLLOWER_FILE_APPROVAL_DECISION : string := "thread-follower-file-approval-decision".
Definition THREAD_FOLLOWER_PERMISSIONS_REQUEST_APPROVAL_RESPONSE : string :=
  "thread-follower-permissions-request-approval-response".
Definition THREAD_FOLLOWER_SUBMIT_USER_INPUT : string := "thread-follower-submit-user-input".
Definition THREAD_FOLLOWER_SUBMIT_MCP_SERVER_ELICITATION_RESPONSE : string :=
  "thread-follower-submit-mcp-server-elicitation-response".
Definition THREAD_FOLLOWER_SET_QUEUED_FOLLOW_UPS_STATE : string := "thread-follower-set-queued-follow-ups-state".
Definition THREAD_STREAM_STATE_CHANGED : string := "thread-stream-state-changed".
Definition THREAD_STREAM_FOLLOWING_CHANGED : string := "thread-stream-following-changed".
Definition THREAD_STREAM_FOLLOWING_STATUS_REQUESTED : string := "thread-stream-following-status-requested".
Definition THREAD_READ_STATE_CHANGED : string := "thread-read-state-changed".
Definition THREAD_ARCHIVED : string := "thread-archived".
Definition THREAD_UNARCHIVED : string := "thread-unarchived".
Definition THREAD_QUEUED_FOLLOWUPS_CHANGED : string := "thread-queued-followups-changed".
Definition CLIENT_STATUS_CHANGED : string := "client-status-changed".
End method.

Definition table_version (m : string) : Z :=
  if bool_decide (m = method.THREAD_STREAM_STATE_CHANGED) then 11
  else if bool_decide (m ∈ [method.THREAD_STREAM_FOLLOWING_CHANGED; method.THREAD_STREAM_FOLLOWING_STATUS_REQUESTED;
    method.THREAD_OWNER_DISCOVERY; method.THREAD_FOLLOWER_LOAD_COMPLETE_HISTORY; method.THREAD_FOLLOWER_COMPACT_THREAD;
    method.THREAD_FOLLOWER_STEER_TURN; method.THREAD_FOLLOWER_UPDATE_THREAD_SETTINGS;
    method.THREAD_FOLLOWER_COMMAND_APPROVAL_DECISION; method.THREAD_FOLLOWER_FILE_APPROVAL_DECISION;
    method.THREAD_FOLLOWER_PERMISSIONS_REQUEST_APPROVAL_RESPONSE; method.THREAD_FOLLOWER_SUBMIT_USER_INPUT;
    method.THREAD_FOLLOWER_SUBMIT_MCP_SERVER_ELICITATION_RESPONSE; method.THREAD_FOLLOWER_SET_QUEUED_FOLLOW_UPS_STATE;
    method.THREAD_UNARCHIVED]) then 1
  else if bool_decide (m ∈ [method.THREAD_READ_STATE_CHANGED; method.THREAD_ARCHIVED; method.THREAD_QUEUED_FOLLOWUPS_CHANGED]) then 2
  else if bool_decide (m = method.THREAD_FOLLOWER_START_TURN) then 2
  else if bool_decide (m = method.THREAD_FOLLOWER_INTERRUPT_TURN) then 4
  else if bool_decide (m = method.THREAD_FOLLOWER_EDIT_LAST_USER_TURN) then 2
  else 0.

Definition is_follower_method (m : string) : bool := starts_with m "thread-follower-".

Definition broadcast_version (m : string) : Z := table_version m.

(** ** Frames *)

Module ResultType.
Inductive t := Success | Error.
#[global] Instance eq_dec : EqDecision t.
Proof. solve_decision. Defined.
End ResultType.

Module RequestFrame.
Record t {V : Type} := mk {
  request_id : string;
  source_client_id : option string;
  version : Z;
  method : string;
  params : V;
  target_client_id : option string;
  host_id : option string;
  timeout_ms : option Z;
}.
Arguments t : clear implicits.
End RequestFrame.

Module ResponseFrame.
Record t {V : Type} := mk {
  request_id : string;
  result_type : ResultType.t;
  method : option string;
  handled_by_client_id : option string;
  result : option V;
  error : option string;
}.
Arguments t : clear implicits.
End ResponseFrame.

Module BroadcastFrame.
Record t {V : Type} := mk {
  method : string;
  source_client_id : option string;
  target_client_ids : option (list string);
  params : V;
  version : Z;
}.
Arguments t : clear implicits.
End BroadcastFrame.

Module ClientDiscoveryRequestFrame.
Record t {V : Type} := mk {
  request_id : string;
  request : RequestFrame.t V;
}.
Arguments t : clear implicits.
End ClientDiscoveryRequestFrame.

(** The answer is its only field, [can_handle]. *)
Module ClientDiscoveryResponseFrame.
Record t := mk {
  request_id : string;
  can_handle : bool;
}.
End ClientDiscoveryResponseFrame.

Module IncomingMessage.
Inductive t {V : Type} :=
| Request (frame : RequestFrame.t V)
| Response (frame : ResponseFrame.t V)
| Broadcast (frame : BroadcastFrame.t V)
| ClientDiscoveryRequest (frame : ClientDiscoveryRequestFrame.t V)
| ClientDiscoveryResponse (frame : ClientDiscoveryResponseFrame.t)
| Unknown (value : V).
Arguments t : clear implicits.
End IncomingMessage.

Module OutgoingMessage.
Inductive t {V : Type} :=
| Request (frame : RequestFrame.t V)
| Response (frame : ResponseFrame.t V)
| Broadcast (frame : BroadcastFrame.t V)
| ClientDiscoveryResponse (frame : ClientDiscoveryResponseFrame.t).
Arguments t : clear implicits.
End OutgoingMessage.

Module StreamChange.
Inductive t {V : Type} :=
| Snapshot (revision : Z) (conversation_state : V)
| Patches (base_revision revision : Z) (patches : list V).
Arguments t : clear implicits.
End StreamChange.

Module StreamStateChangedParams.
Record t {V : Type} := mk {
  conversation_id : string;
  host_id : string;
  target_client_ids : option (list string);
  change : StreamChange.t V;
}.
Arguments t : clear implicits.
End StreamStateChangedParams.

Module FollowingChangedParams.
Record t := mk {
  conversation_id : string;
  host_id : string;
  following : bool;
}.
End FollowingChangedParams.

Module InputBlock.
Record t {V : Type} := mk {
  kind : string;
  text_ : string;
  text_elements : list V;
}.
Arguments t : clear implicits.
Definition text {V : Type} (text : string) : t V := mk V "text" text [].
End InputBlock.

Module TurnStartRequest.
Record t {V : Type} := mk {
  thread_id : string;
  input : list (InputBlock.t V);
  extra : gmap string V;
}.
Arguments t : clear implicits.
End TurnStartRequest.

Module TurnStart.
Record t {V : Type} := mk {
  request : TurnStartRequest.t V;
  context : option V;
}.
Arguments t : clear implicits.
End TurnStart.

Module StartTurnParams.
Record t {V : Type} := mk {
  conversation_id : string;
  turn_start : TurnStart.t V;
}.
Arguments t : clear implicits.
End StartTurnParams.

Module SteerTurnParams.
Record t {V : Type} := mk {
  conversation_id : string;
  input : list (InputBlock.t V);
  client_user_message_id : option string;
  service_tier : option V;
  attachments : option V;
  additional_context : option V;
  tool_output : option V;
  restore_message : option V;
}.
Arguments t : clear implicits.
End SteerTurnParams.

Module InterruptMode.
Inductive t := UserStop | System | DescendantCleanup.
#[global] Instance eq_dec : EqDecision t.
Proof. solve_decision. Defined.
End InterruptMode.

Module InterruptTurnParams.
Record t := mk {
  conversation_id : string;
  mode : InterruptMode.t;
  expected_turn_id : option string;
}.
End InterruptTurnParams.

(** What [derive(Serialize, Deserialize)] generates for the frames and parameters. *)
Class IpcSerde (V : Type) := {
  request_from : V -> option (RequestFrame.t V);
  response_from : V -> option (ResponseFrame.t V);
  broadcast_from : V -> option (BroadcastFrame.t V);
  discovery_request_from : V -> option (ClientDiscoveryRequestFrame.t V);
  discovery_response_from : V -> option ClientDiscoveryResponseFrame.t;
  stream_state_changed_from : V -> option (StreamStateChangedParams.t V);
  revision_from : V -> res string Z;
  start_turn_result_from : V -> res string (option V);
  steer_turn_result_from : V -> res string (option V);
  interrupt_turn_result_from : V -> res string (string * bool * option string);
  request_to : RequestFrame.t V -> gmap string V;
  response_to : ResponseFrame.t V -> gmap string V;
  broadcast_to : BroadcastFrame.t V -> gmap string V;
  discovery_response_to : ClientDiscoveryResponseFrame.t -> gmap string V;
}.

(** ** Errors, events, configuration *)

Module IpcError.
Inductive t :=
| Connect (text : string)
| NotConnected
| Handshake (text : string)
| RequestTimeout (method : string) (timeout_secs : Z)
| Peer (text : string)
| ConnectionLost (text : string)
| Frame (error : FrameError)
| QueueFull (capacity : Z).

Definition display (e : t) : string :=
  match e with
  | Connect s => "socket connect failed: " +:+ s
  | NotConnected => "not connected"
  | Handshake s => "handshake failed: " +:+ s
  | RequestTimeout method secs => "request timed out after " +:+ pretty secs +:+ "s (method: " +:+ method +:+ ")"
  | Peer s => "peer returned error: " +:+ s
  | ConnectionLost s => "connection lost: " +:+ s
  | Frame e => "frame protocol violated: " +:+ FrameError_display e
  | QueueFull capacity => "outbound queue full (capacity " +:+ pretty capacity +:+ ")"
  end.
End IpcError.

Module IpcEvent.
Inductive t {V : Type} :=
| StreamChanged (params : StreamStateChangedParams.t V)
| Broadcast (method : string) (source_client_id : option string) (params : V)
| UnknownBroadcast (method : option string).
Arguments t : clear implicits.
End IpcEvent.

Module ConnectionState.
Inductive t := Connected (client_id : string) | Disconnected (reason : string).
End ConnectionState.

(** In seconds.  Every [IpcClientConfig] is made by its [new], which sets [default_timeout] to this constant. *)
Definition DEFAULT_REQUEST_TIMEOUT : Z := 5.
Definition OWNER_DISCOVERY_TIMEOUT : Z := 12.
Definition DEFAULT_OUTBOUND_QUEUE : Z := 256.

(** ** [StreamSync] *)

Module StreamSync.
Record t := mk { revision : option Z }.
Definition default : t := mk None.
Definition invalidate (_ : t) : t := mk None.
End StreamSync.

Module StreamDecision.
Inductive t := TakeSnapshot | ApplyPatch (base_revision revision : Z) | Resync.
End StreamDecision.

(** ** The connection *)

(** [pending]: the ids whose senders are in the map; [answers]: what the senders delivered;
    [foreign]: ids that other calls drew, [used]: all that were drawn.  [outbound_open]: the write
    task lives; [events_open]: the receiver of the events does. *)
Module Conn.
Record t {V : Type} := mk {
  capacity : Z;
  pending : gset string;
  answers : gmap string (ResponseFrame.t V);
  outbound : list (OutgoingMessage.t V);
  outbound_open : bool;
  events : list (IpcEvent.t V);
  events_open : bool;
  state : ConnectionState.t;
  used : gset string;
  foreign : gset string;
}.
Arguments t : clear implicits.

Section With.
Context {V : Type}.
Definition with_pending (x : gset string) (c : t V) : t V :=
  mk V (capacity c) x (answers c) (outbound c) (outbound_open c) (events c) (events_open c) (state c) (used c) (foreign c).
Definition with_answers (x : gmap string (ResponseFrame.t V)) (c : t V) : t V :=
  mk V (capacity c) (pending c) x (outbound c) (outbound_open c) (events c) (events_open c) (state c) (used c) (foreign c).
Definition with_outbound (x : list (OutgoingMessage.t V)) (c : t V) : t V :=
  mk V (capacity c) (pending c) (answers c) x (outbound_open c) (events c) (events_open c) (state c) (used c) (foreign c).
Definition with_outbound_open (x : bool) (c : t V) : t V :=
  mk V (capacity c) (pending c) (answers c) (outbound c) x (events c) (events_open c) (state c) (used c) (foreign c).
Definition with_events (x : list (IpcEvent.t V)) (c : t V) : t V :=
  mk V (capacity c) (pending c) (answers c) (outbound c) (outbound_open c) x (events_open c) (state c) (used c) (foreign c).
Definition with_state (x : ConnectionState.t) (c : t V) : t V :=
  mk V (capacity c) (pending c) (answers c) (outbound c) (outbound_open c) (events c) (events_open c) x (used c) (foreign c).
Definition with_used (x : gset string) (c : t V) : t V :=
  mk V (capacity c) (pending c) (answers c) (outbound c) (outbound_open c) (events c) (events_open c) (state c) x (foreign c).
Definition with_foreign (x : gset string) (c : t V) : t V :=
  mk V (capacity c) (pending c) (answers c) (outbound c) (outbound_open c) (events c) (events_open c) (state c) (used c) x.

(** The sender under [id] is taken out of the map and sends; without one nothing happens. *)
Definition answer (id : string) (r : ResponseFrame.t V) (c : t V) : t V :=
  if bool_decide (id ∈ pending c)
  then with_answers (<[id := r]> (answers c)) (with_pending (pending c ∖ {[id]}) c)
  else c.
End With.
End Conn.

Module RequestOptions.
Record t := mk {
  target_client_id : option string;
  host_id : option string;
  timeout : option Z;
}.
Definition default : t := mk None None None.
End RequestOptions.

Section Ipc.
Context {V : Type} `{SerdeJson V} `{SerdeJsonText V} `{IpcSerde V}.

Definition request_version (m : string) (params : V) (host_id : option string) : Z :=
  let base := table_version m in
  if bool_decide (host_id <> None) && is_follower_method m then base + 1
  else if bool_decide (m = method.THREAD_FOLLOWER_INTERRUPT_TURN) then
    let has_expected_turn := match get "expectedTurnId" params with
                             | Some v => match view v with JNull => false | _ => true end
                             | None => false
                             end in
    if bool_decide (host_id = None) && negb has_expected_turn then 3 else base
  else base.

Definition parse (value : V) : IncomingMessage.t V :=
  let or_unknown {A : Type} (f : A -> IncomingMessage.t V) (o : option A) : IncomingMessage.t V :=
    match o with Some x => f x | None => IncomingMessage.Unknown value end in
  match get_str "type" value with
  | None => IncomingMessage.Unknown value
  | Some kind =>
      if bool_decide (kind = "request") then or_unknown IncomingMessage.Request (request_from value)
      else if bool_decide (kind = "response") then or_unknown IncomingMessage.Response (response_from value)
      else if bool_decide (kind = "broadcast") then or_unknown IncomingMessage.Broadcast (broadcast_from value)
      else if bool_decide (kind = "client-discovery-request")
      then or_unknown IncomingMessage.ClientDiscoveryRequest (discovery_request_from value)
      else if bool_decide (kind = "client-discovery-response")
      then or_unknown IncomingMessage.ClientDiscoveryResponse (discovery_response_from value)
      else IncomingMessage.Unknown value
  end.

Definition typed (kind : string) (fields : gmap string V) : V := build (JObject (<["type" := json_string kind]> fields)).

Definition to_value (m : OutgoingMessage.t V) : V :=
  match m with
  | OutgoingMessage.Request frame => typed "request" (request_to frame)
  | OutgoingMessage.Response frame => typed "response" (response_to frame)
  | OutgoingMessage.Broadcast frame => typed "broadcast" (broadcast_to frame)
  | OutgoingMessage.ClientDiscoveryResponse frame => typed "client-discovery-response" (discovery_response_to frame)
  end.

Definition observe (s : StreamSync.t) (change : StreamChange.t V) : StreamSync.t * StreamDecision.t :=
  match change with
  | StreamChange.Snapshot revision _ => (StreamSync.mk (Some revision), StreamDecision.TakeSnapshot)
  | StreamChange.Patches base_revision revision _ =>
      if bool_decide (StreamSync.revision s = Some base_revision) && (base_revision <? revision)
      then (StreamSync.mk (Some revision), StreamDecision.ApplyPatch base_revision revision)
      else (s, StreamDecision.Resync)
  end.

(** ** The tasks of a connection *)

Definition emit (event : IpcEvent.t V) (c : Conn.t V) : Conn.t V * res string unit :=
  if Conn.events_open c then (Conn.with_events (Conn.events c ++ [event]) c, Ok tt) else (c, Err "event channel closed").

Definition send_now (m : OutgoingMessage.t V) (c : Conn.t V) : Conn.t V * res string unit :=
  if Conn.outbound_open c then (Conn.with_outbound (Conn.outbound c ++ [m]) c, Ok tt) else (c, Err "outbound channel closed").

Definition dispatch (msg : IncomingMessage.t V) (c : Conn.t V) : Conn.t V * res string unit :=
  match msg with
  | IncomingMessage.Response resp => (Conn.answer (ResponseFrame.request_id resp) resp c, Ok tt)
  | IncomingMessage.Broadcast b =>
      emit (if bool_decide (BroadcastFrame.method b = method.THREAD_STREAM_STATE_CHANGED) then
              match stream_state_changed_from (BroadcastFrame.params b) with
              | Some params => IpcEvent.StreamChanged params
              | None => IpcEvent.UnknownBroadcast (Some (BroadcastFrame.method b))
              end
            else IpcEvent.Broadcast (BroadcastFrame.method b) (BroadcastFrame.source_client_id b) (BroadcastFrame.params b)) c
  | IncomingMessage.ClientDiscoveryRequest disc =>
      send_now (OutgoingMessage.ClientDiscoveryResponse
                  (ClientDiscoveryResponseFrame.mk (ClientDiscoveryRequestFrame.request_id disc) false)) c
  | IncomingMessage.Request req =>
      send_now (OutgoingMessage.Response
                  (ResponseFrame.mk V (RequestFrame.request_id req) ResultType.Error (Some (RequestFrame.method req)) None None
                     (Some "no-handler-for-request"))) c
  | IncomingMessage.ClientDiscoveryResponse _ => (c, Ok tt)
  | IncomingMessage.Unknown value => ((emit (IpcEvent.UnknownBroadcast (get_str "method" value)) c).1, Ok tt)
  end.

(** The end of the read loop: every waiting request is answered, the state says why. *)
Definition closed_response (reason : string) : ResponseFrame.t V :=
  ResponseFrame.mk V "" ResultType.Error None None None (Some ("connection-closed: " +:+ reason)).

Definition teardown (reason : string) (c : Conn.t V) : Conn.t V :=
  Conn.with_state (ConnectionState.Disconnected reason)
    (Conn.with_pending ∅
       (Conn.with_answers (gset_to_gmap (closed_response reason) (Conn.pending c) ∪ Conn.answers c) c)).

Definition FrameEncodeError_display (e : FrameEncodeError) : string :=
  match e with
  | EncTooLarge announced limit => "frame payload " +:+ pretty announced +:+ " bytes exceeds limit " +:+ pretty limit +:+ " bytes"
  | Serialize msg => "failed to serialize frame: " +:+ msg
  end.

(** One turn of the write loop; [written]: the socket took the bytes. *)
Definition writer_step (max_frame_bytes : Z) (written : bool) (c : Conn.t V) : Conn.t V :=
  if negb (Conn.outbound_open c) then c
  else
    match Conn.outbound c with
    | [] => c
    | msg :: rest =>
        let c := Conn.with_outbound rest c in
        match encode_frame (to_value msg) max_frame_bytes with
        | Err e =>
            match msg with
            | OutgoingMessage.Request frame =>
                Conn.answer (RequestFrame.request_id frame)
                  (ResponseFrame.mk V (RequestFrame.request_id frame) ResultType.Error (Some (RequestFrame.method frame)) None None
                     (Some (FrameEncodeError_display e))) c
            | _ => c
            end
        | Ok _ => if written then c else Conn.with_outbound_open false c
        end
    end.

(** ** Requests *)

Inductive Answer :=
| Answered (resp : ResponseFrame.t V)
| SenderDropped
| TimedOut.

Inductive iop : Type -> Type :=
| NewUuid : iop string
| Register (id : string) : iop bool
| SendOutbound (m : OutgoingMessage.t V) : iop bool
| RemovePending (id : string) : iop unit
| AwaitAnswer (id : string) (timeout : Z) : iop Answer.

Notation iprog := (Prog.prog iop).

(** [client_id], [capacity]: of the client and its configuration. *)
Definition request (client_id : string) (capacity : Z) (m : string) (params : V) (opts : RequestOptions.t) :
    iprog (res IpcError.t (ResponseFrame.t V)) :=
  do request_id <- act NewUuid;
  let version := request_version m params (RequestOptions.host_id opts) in
  do registered <- act (Register request_id);
  if negb registered then Ret (Err (IpcError.QueueFull capacity))
  else
    do sent <- act (SendOutbound (OutgoingMessage.Request
      (RequestFrame.mk V request_id (Some client_id) version m params (RequestOptions.target_client_id opts)
         (RequestOptions.host_id opts) ((fun d => d * 1000) <$> RequestOptions.timeout opts))));
    if negb sent then
      perform act (RemovePending request_id);
      Ret (Err IpcError.NotConnected)
    else
      let timeout_duration := default DEFAULT_REQUEST_TIMEOUT (RequestOptions.timeout opts) in
      do answer <- act (AwaitAnswer request_id timeout_duration);
      match answer with
      | Answered resp =>
          if bool_decide (ResponseFrame.result_type resp = ResultType.Error)
          then Ret (Err (IpcError.Peer (default "unknown error" (ResponseFrame.error resp))))
          else Ret (Ok resp)
      | SenderDropped => Ret (Err (IpcError.ConnectionLost "pending dropped"))
      | TimedOut =>
          perform act (RemovePending request_id);
          Ret (Err (IpcError.RequestTimeout m timeout_duration))
      end.

Definition broadcast (client_id m : string) (params : V) (target_client_ids : option (list string)) : iprog (res IpcError.t unit) :=
  do sent <- act (SendOutbound (OutgoingMessage.Broadcast
    (BroadcastFrame.mk V m (Some client_id) target_client_ids params (broadcast_version m))));
  Ret (if sent : bool then Ok tt else Err IpcError.NotConnected).

Definition discover_owner (client_id : string) (capacity : Z) (host_id conversation_id : string) :
    iprog (res IpcError.t (option string)) :=
  do r <- request client_id capacity method.THREAD_OWNER_DISCOVERY
    (json_object [("hostId", json_string host_id); ("conversationId", json_string conversation_id)])
    (RequestOptions.mk None None (Some OWNER_DISCOVERY_TIMEOUT));
  Ret match r with
      | Ok resp => Ok (ResponseFrame.handled_by_client_id resp)
      | Err (IpcError.Peer e) => if bool_decide (e = "no-client-found") then Ok None else Err (IpcError.Peer e)
      | Err e => Err e
      end.

Definition load_complete_history (client_id : string) (capacity : Z) (host_id conversation_id : string) : iprog (res IpcError.t Z) :=
  do r <- request client_id capacity method.THREAD_FOLLOWER_LOAD_COMPLETE_HISTORY
    (json_object [("conversationId", json_string conversation_id)]) (RequestOptions.mk None (Some host_id) (Some 65));
  Ret match r with
      | Ok resp =>
          map_err (fun e => IpcError.Peer ("bad load-complete-history result: " +:+ e))
            (revision_from (default json_null (ResponseFrame.result resp)))
      | Err e => Err e
      end.

(** ** The calls built on requests *)

(** [derive(Serialize)] of the parameters: camel case names, an absent option is left out. *)
Definition optional (key : string) (v : option V) : list (string * V) :=
  match v with Some v => [(key, v)] | None => [] end.

Definition following_changed_to (p : FollowingChangedParams.t) : V :=
  json_object [("conversationId", json_string (FollowingChangedParams.conversation_id p));
               ("hostId", json_string (FollowingChangedParams.host_id p));
               ("following", build (JBool (FollowingChangedParams.following p)))].

Definition input_block_to (b : InputBlock.t V) : V :=
  json_object [("type", json_string (InputBlock.kind b)); ("text", json_string (InputBlock.text_ b));
               ("text_elements", json_array (InputBlock.text_elements b))].

Definition turn_start_request_to (r : TurnStartRequest.t V) : V :=
  build (JObject (TurnStartRequest.extra r ∪
    list_to_map [("threadId", json_string (TurnStartRequest.thread_id r));
                 ("input", json_array (map input_block_to (TurnStartRequest.input r)))])).

Definition start_turn_to (p : StartTurnParams.t V) : V :=
  json_object [("conversationId", json_string (StartTurnParams.conversation_id p));
               ("turnStart", json_object
                 (("request", turn_start_request_to (TurnStart.request (StartTurnParams.turn_start p))) ::
                  optional "context" (TurnStart.context (StartTurnParams.turn_start p))))].

Definition steer_turn_to (p : SteerTurnParams.t V) : V :=
  json_object
    ([("conversationId", json_string (SteerTurnParams.conversation_id p));
      ("input", json_array (map input_block_to (SteerTurnParams.input p)))] ++
     optional "clientUserMessageId" (json_string <$> SteerTurnParams.client_user_message_id p) ++
     optional "serviceTier" (SteerTurnParams.service_tier p) ++
     optional "attachments" (SteerTurnParams.attachments p) ++
     optional "additionalContext" (SteerTurnParams.additional_context p) ++
     optional "toolOutput" (SteerTurnParams.tool_output p) ++
     optional "restoreMessage" (SteerTurnParams.restore_message p)).

Definition interrupt_mode_name (m : InterruptMode.t) : string :=
  match m with
  | InterruptMode.UserStop => "user-stop"
  | InterruptMode.System => "system"
  | InterruptMode.DescendantCleanup => "descendant-cleanup"
  end.

Definition interrupt_turn_to (p : InterruptTurnParams.t) : V :=
  json_object
    ([("conversationId", json_string (InterruptTurnParams.conversation_id p));
      ("mode", json_string (interrupt_mode_name (InterruptTurnParams.mode p)))] ++
     optional "expectedTurnId" (json_string <$> InterruptTurnParams.expected_turn_id p)).

Definition set_following (client_id : string) (params : FollowingChangedParams.t) (target_client_ids : option (list string)) :
    iprog (res IpcError.t unit) :=
  broadcast client_id method.THREAD_STREAM_FOLLOWING_CHANGED (following_changed_to params) target_client_ids.

(** The answer of a write, read by [from] ([serde_json::from_value]). *)
Definition write_result {T : Type} (what : string) (from : V -> res string T) (r : res IpcError.t (ResponseFrame.t V)) :
    res IpcError.t T :=
  let? resp := r in
  map_err (fun e => IpcError.Peer ("bad " +:+ what +:+ " result: " +:+ e)) (from (default json_null (ResponseFrame.result resp))).

Definition to_owner (owner_client_id : string) : RequestOptions.t :=
  RequestOptions.mk (Some owner_client_id) (Some "local") None.

Definition start_turn (client_id : string) (capacity : Z) (owner_client_id : string) (params : StartTurnParams.t V) :
    iprog (res IpcError.t (option V)) :=
  do r <- request client_id capacity method.THREAD_FOLLOWER_START_TURN (start_turn_to params) (to_owner owner_client_id);
  Ret (write_result "start-turn" start_turn_result_from r).

Definition steer_turn (client_id : string) (capacity : Z) (owner_client_id : string) (params : SteerTurnParams.t V) :
    iprog (res IpcError.t (option V)) :=
  do r <- request client_id capacity method.THREAD_FOLLOWER_STEER_TURN (steer_turn_to params) (to_owner owner_client_id);
  Ret (write_result "steer-turn" steer_turn_result_from r).

Definition interrupt_turn (client_id : string) (capacity : Z) (owner_client_id : string) (params : InterruptTurnParams.t) :
    iprog (res IpcError.t (string * bool * option string)) :=
  do r <- request client_id capacity method.THREAD_FOLLOWER_INTERRUPT_TURN (interrupt_turn_to params) (to_owner owner_client_id);
  Ret (write_result "interrupt-turn" interrupt_turn_result_from r).

Definition interrupt_params (conversation_id : string) (mode : InterruptMode.t) (expected_turn_id : option string) :
    InterruptTurnParams.t :=
  InterruptTurnParams.mk conversation_id mode expected_turn_id.
End Ipc.
