(* ===== verification/IpcProps.v ===== *)
(** * Requests among the tasks of a connection

    [istep] runs the operations of a request on the connection, [others] is what the read and write
    tasks and the other requests do in between.  A request is answered at most once, with what was
    sent for its id; its id leaves the map with it; and it is never told that its sender was
    dropped, because the read loop answers before it forgets. *)

From S2P Require Import Prelude Prog RustStr Json Frame Ipc.

Section Run.
Context {V : Type} `{SerdeJson V} `{SerdeJsonText V} `{IpcSerde V}.
Variable max_frame_bytes : Z.

Notation Conn := (Conn.t V).

(** What the other tasks may do: they draw, register and remove ids of their own. *)
Inductive others : Conn -> Conn -> Prop :=
| OthersDispatch c msg : others c (dispatch msg c).1
| OthersTeardown c reason : others c (teardown reason c)
| OthersWrite c written : others c (writer_step max_frame_bytes written c)
| OthersDraw c id : id ∉ Conn.used c ->
    others c (Conn.with_used ({[id]} ∪ Conn.used c) (Conn.with_foreign ({[id]} ∪ Conn.foreign c) c))
| OthersRegister c id : id ∈ Conn.foreign c -> Z.of_nat (size (Conn.pending c)) < Conn.capacity c ->
    others c (Conn.with_pending ({[id]} ∪ Conn.pending c) c)
| OthersRemove c id : id ∈ Conn.foreign c -> others c (Conn.with_pending (Conn.pending c ∖ {[id]}) c)
| OthersSend c m : Conn.outbound_open c = true -> others c (Conn.with_outbound (Conn.outbound c ++ [m]) c)
| OthersWriterGone c : others c (Conn.with_outbound_open false c)
| OthersEvents c : others c (Conn.with_events (tail (Conn.events c)) c).

Inductive istep : forall B, @iop V B -> Conn -> option B -> Conn -> Prop :=
| StepUuid c id : id ∉ Conn.used c -> istep _ NewUuid c (Some id) (Conn.with_used ({[id]} ∪ Conn.used c) c)
| StepRegister c id : Z.of_nat (size (Conn.pending c)) < Conn.capacity c ->
    istep _ (Register id) c (Some true) (Conn.with_pending ({[id]} ∪ Conn.pending c) c)
| StepFull c id : Conn.capacity c <= Z.of_nat (size (Conn.pending c)) -> istep _ (Register id) c (Some false) c
| StepSend c m : Conn.outbound_open c = true ->
    istep _ (SendOutbound m) c (Some true) (Conn.with_outbound (Conn.outbound c ++ [m]) c)
| StepClosed c m : Conn.outbound_open c = false -> istep _ (SendOutbound m) c (Some false) c
| StepRemove c id : istep _ (RemovePending id) c (Some tt) (Conn.with_pending (Conn.pending c ∖ {[id]}) c)
| StepAnswered c id timeout resp : Conn.answers c !! id = Some resp -> istep _ (AwaitAnswer id timeout) c (Some (Answered resp)) c
| StepDropped c id timeout : id ∉ Conn.pending c -> Conn.answers c !! id = None ->
    istep _ (AwaitAnswer id timeout) c (Some SenderDropped) c
| StepTimedOut c id timeout : Conn.answers c !! id = None -> istep _ (AwaitAnswer id timeout) c (Some TimedOut) c.

(** The frames a task puts into the queue. *)
Definition iobs (B : Type) (o : @iop V B) : B -> list (OutgoingMessage.t V) :=
  match o in iop B return B -> list (OutgoingMessage.t V) with
  | SendOutbound m => fun sent : bool => if sent then [m] else []
  | _ => fun _ => []
  end.

Notation iexec := (texec others istep iobs).

(** ** What holds of an id that this call drew *)

(** Everything in the connection was drawn; an answer answers its id or says that the connection
    closed; the map is bounded. *)
Record conn_ok (c : Conn) : Prop := {
  ok_pending : Conn.pending c ⊆ Conn.used c;
  ok_answers : dom (Conn.answers c) ⊆ Conn.used c;
  ok_foreign : Conn.foreign c ⊆ Conn.used c;
  ok_correlated (id : string) (r : ResponseFrame.t V) : Conn.answers c !! id = Some r ->
    ResponseFrame.request_id r = id \/ exists reason, r = closed_response reason;
  ok_bounded : Z.of_nat (size (Conn.pending c)) <= Conn.capacity c;
}.

Definition own (id : string) (c : Conn) : Prop := id ∈ Conn.used c /\ id ∉ Conn.foreign c.
Definition drawn (id : string) (c : Conn) : Prop := own id c /\ id ∉ Conn.pending c /\ Conn.answers c !! id = None.
Definition waiting (id : string) (c : Conn) : Prop :=
  own id c /\ (id ∈ Conn.pending c /\ Conn.answers c !! id = None \/ id ∉ Conn.pending c /\ is_Some (Conn.answers c !! id)).
Definition forgotten (id : string) (c : Conn) : Prop := own id c /\ id ∉ Conn.pending c.

Lemma answer_eq (id : string) (r : ResponseFrame.t V) (c : Conn) :
  id ∈ Conn.pending c ->
  Conn.answer id r c = Conn.with_answers (<[id := r]> (Conn.answers c)) (Conn.with_pending (Conn.pending c ∖ {[id]}) c).
Proof. intros I. unfold Conn.answer. by rewrite bool_decide_eq_true_2. Qed.

(** What the tasks do to the map comes down to three shapes. *)
Lemma others_cases (P : Conn -> Conn -> Prop) :
  (forall c c', Conn.pending c' = Conn.pending c -> Conn.answers c' = Conn.answers c -> Conn.used c ⊆ Conn.used c' ->
     Conn.foreign c' ∖ Conn.foreign c ⊆ Conn.used c' ∖ Conn.used c -> Conn.capacity c' = Conn.capacity c -> P c c') ->
  (forall c c' id r, id ∈ Conn.pending c -> ResponseFrame.request_id r = id -> Conn.pending c' = Conn.pending c ∖ {[id]} ->
     Conn.answers c' = <[id := r]> (Conn.answers c) -> Conn.used c' = Conn.used c -> Conn.foreign c' = Conn.foreign c ->
     Conn.capacity c' = Conn.capacity c -> P c c') ->
  (forall c reason, P c (teardown reason c)) ->
  (forall c id, id ∈ Conn.foreign c -> Z.of_nat (size (Conn.pending c)) < Conn.capacity c ->
     P c (Conn.with_pending ({[id]} ∪ Conn.pending c) c)) ->
  (forall c id, id ∈ Conn.foreign c -> P c (Conn.with_pending (Conn.pending c ∖ {[id]}) c)) ->
  forall c c', others c c' -> P c c'.
Proof.
  intros Same Answer Tear Reg Rem c c' O.
  assert (Eq : forall c c', Conn.pending c' = Conn.pending c -> Conn.answers c' = Conn.answers c -> Conn.used c' = Conn.used c ->
    Conn.foreign c' = Conn.foreign c -> Conn.capacity c' = Conn.capacity c -> P c c').
  { intros d d' E1 E2 E3 E4 E5. apply Same; try done; rewrite ?E3, ?E4; set_solver. }
  assert (A : forall id r c, ResponseFrame.request_id r = id -> P c (Conn.answer id r c)).
  { intros id r d E. unfold Conn.answer. case_bool_decide as I; [by eapply Answer|by apply Eq]. }
  assert (E : forall event c, P c (emit event c).1) by (intros event d; unfold emit; case_match; by apply Eq).
  assert (N : forall m c, P c (send_now m c).1) by (intros m d; unfold send_now; case_match; by apply Eq).
  destruct O as [c msg|c reason|c written|c id F|c id F B|c id F|c m O|c|c]; [| | | |by auto|by auto|by apply Eq|by apply Eq|by apply Eq].
  - destruct msg; simpl; auto; by apply Eq.
  - apply Tear.
  - unfold writer_step. destruct (Conn.outbound_open c); simpl; [|by apply Eq].
    destruct (Conn.outbound c) as [|msg rest]; [by apply Eq|].
    destruct (encode_frame _ _) as [f|e]; [case_match; by apply Eq|]. destruct msg as [frame| | |]; try by apply Eq.
    unfold Conn.answer. case_bool_decide as I; [|by apply Eq]. simpl in I. eapply (Answer _ _ _ (ResponseFrame.mk _ _ _ _ _ _ _)); [exact I|..]; done.
  - apply Same; simpl; try done; set_solver.
Qed.

Lemma size_pos (X : gset string) : 0 <= Z.of_nat (size X).
Proof. lia. Qed.

Lemma size_insert_le (X : gset string) (i : string) : Z.of_nat (size ({[i]} ∪ X)) <= Z.of_nat (size X) + 1.
Proof. rewrite size_union_alt, size_singleton. assert (size (X ∖ {[i]}) <= size X)%nat by (apply subseteq_size; set_solver). lia. Qed.

Lemma size_remove_le (X : gset string) (i : string) : (size (X ∖ {[i]}) <= size X)%nat.
Proof. apply subseteq_size. set_solver. Qed.

Lemma lookup_closed (X : gset string) (m : gmap string (ResponseFrame.t V)) (reason id : string) :
  (gset_to_gmap (closed_response reason) X ∪ m) !! id = if bool_decide (id ∈ X) then Some (closed_response reason) else m !! id.
Proof.
  rewrite lookup_union. case_bool_decide as I.
  - rewrite lookup_gset_to_gmap, option_guard_True by done. by destruct (m !! id).
  - rewrite lookup_gset_to_gmap, option_guard_False by done. by destruct (m !! id).
Qed.

Lemma others_ok (c c' : Conn) : others c c' -> conn_ok c -> conn_ok c'.
Proof.
  revert c c'. apply (others_cases (fun c c' => conn_ok c -> conn_ok c')); intros c.
  - intros c' E1 E2 U F E3 [K1 K2 K3 K4 K5]. split; rewrite ?E1, ?E2, ?E3; try done; [by etrans|by etrans|].
    clear -U F K3. intros i I. destruct (decide (i ∈ Conn.foreign c)); [by apply U, K3|].
    assert (i ∈ Conn.foreign c' ∖ Conn.foreign c) as G%F by (by apply elem_of_difference). by apply elem_of_difference in G as [].
  - intros c' id r I E E1 E2 U F E3 [K1 K2 K3 K4 K5]. split; rewrite ?E1, ?E2, ?U, ?F, ?E3; try done.
    + etrans; [|exact K1]. apply subseteq_difference_l. done.
    + rewrite dom_insert_L. apply union_subseteq. split; [|done]. by apply singleton_subseteq_l, K1.
    + intros i s. rewrite lookup_insert_Some. intros [[<- <-]|[_ L]]; [by left|by apply K4].
    + pose proof (size_remove_le (Conn.pending c) id). lia.
  - intros reason [K1 K2 K3 K4 K5]. split; simpl; try done.
    + rewrite dom_union_L, dom_gset_to_gmap. by apply union_subseteq.
    + intros i s. rewrite lookup_closed. case_bool_decide; [|by apply K4]. intros [= <-]. right. eauto.
    + pose proof (size_pos (Conn.pending c)). change (Z.of_nat (size (∅ : gset string)) <= Conn.capacity c). rewrite size_empty. lia.
  - intros id I B [K1 K2 K3 K4 K5]. split; simpl; try done.
    + apply union_subseteq. split; [|done]. by apply singleton_subseteq_l, K3.
    + pose proof (size_insert_le (Conn.pending c) id). lia.
  - intros id I [K1 K2 K3 K4 K5]. split; simpl; try done.
    + etrans; [|exact K1]. apply subseteq_difference_l. done.
    + pose proof (size_remove_le (Conn.pending c) id). lia.
Qed.

Lemma others_used (X : gset string) (c c' : Conn) : others c c' -> X ⊆ Conn.used c -> X ⊆ Conn.used c'.
Proof.
  revert c c'. apply (others_cases (fun c c' => X ⊆ Conn.used c -> X ⊆ Conn.used c')); try done.
  - intros c c' _ _ U _ _ K. by etrans.
  - intros c c' id r _ _ _ _ U _ _ K. by rewrite U.
Qed.

(** The id keeps what this call knows of it. *)
Lemma others_own (id : string) (c c' : Conn) : others c c' -> own id c -> own id c'.
Proof.
  unfold own. revert c c'. apply (others_cases (fun c c' => own id c -> own id c')); unfold own; intros c; try (simpl; done).
  - intros c' E1 E2 U F E3 [K1 K2]. set_solver.
  - intros c' i r I E E1 E2 U F E3 [K1 K2]. by rewrite U, F.
Qed.

Lemma others_drawn (id : string) (c c' : Conn) : others c c' -> drawn id c -> drawn id c'.
Proof.
  intros O [Ow D]. split; [by eapply others_own|]. revert c c' O Ow D.
  apply (others_cases (fun c c' => own id c -> id ∉ Conn.pending c /\ Conn.answers c !! id = None -> id ∉ Conn.pending c' /\ Conn.answers c' !! id = None)); intros c.
  - intros c' E1 E2 _ _ _ _. by rewrite E1, E2.
  - intros c' i r I E E1 E2 _ _ _ _ [K1 K2]. rewrite E1, E2. split; [set_solver|]. rewrite lookup_insert_ne; [done|by intros ->].
  - intros reason _ [K1 K2]. simpl. split; [set_solver|]. rewrite lookup_closed. by rewrite bool_decide_eq_false_2.
  - intros i I B [_ K0] [K1 K2]. simpl. split; [|done]. set_solver.
  - intros i I _ [K1 K2]. simpl. split; [|done]. set_solver.
Qed.

Lemma others_waiting (id : string) (c c' : Conn) : others c c' -> waiting id c -> waiting id c'.
Proof.
  intros O [Ow W]. split; [by eapply others_own|]. revert c c' O Ow W.
  pose (W (c : Conn) := id ∈ Conn.pending c /\ Conn.answers c !! id = None \/ id ∉ Conn.pending c /\ is_Some (Conn.answers c !! id)).
  apply (others_cases (fun c c' => own id c -> W c -> W c')); unfold W; intros c.
  - intros c' E1 E2 _ _ _ _. by rewrite E1, E2.
  - intros c' i r I E E1 E2 _ _ _ _ K. rewrite E1, E2. destruct (decide (i = id)) as [->|N].
    + right. rewrite lookup_insert_eq. split; [set_solver|by eexists].
    + rewrite lookup_insert_ne by done. destruct K as [[K1 K2]|[K1 K2]]; [left|right]; (split; [set_solver|done]).
  - intros reason _ K. simpl. right. split; [set_solver|]. rewrite lookup_closed. case_bool_decide; [by eexists|].
    by destruct K as [[]|[]].
  - intros i I B [_ K0] K. simpl. destruct K as [[K1 K2]|[K1 K2]]; [left|right]; (split; [set_solver|done]).
  - intros i I [_ K0] K. simpl. destruct K as [[K1 K2]|[K1 K2]]; [left|right]; (split; [set_solver|done]).
Qed.

Lemma others_forgotten (id : string) (c c' : Conn) : others c c' -> forgotten id c -> forgotten id c'.
Proof.
  intros O [Ow D]. split; [by eapply others_own|]. revert c c' O Ow D.
  apply (others_cases (fun c c' => own id c -> id ∉ Conn.pending c -> id ∉ Conn.pending c')); intros c; simpl.
  - intros c' E1 _ _ _ _ _. by rewrite E1.
  - intros c' i r I E E1 E2 _ _ _ _ K. rewrite E1. set_solver.
  - set_solver.
  - intros i I _ [_ K0]. set_solver.
  - set_solver.
Qed.

Lemma stable (P : Conn -> Prop) (c c' : Conn) :
  (forall c c', others c c' -> P c -> P c') -> rtc others c c' -> P c -> P c'.
Proof. intros St R. induction R; eauto. Qed.

(** ** The steps of a request *)

Lemma ok_draw (c : Conn) (id : string) :
  conn_ok c -> id ∉ Conn.used c -> conn_ok (Conn.with_used ({[id]} ∪ Conn.used c) c) /\ drawn id (Conn.with_used ({[id]} ∪ Conn.used c) c).
Proof.
  intros [K1 K2 K3 K4 K5] F. split; [split; simpl; try done; by apply union_subseteq_r'|].
  split_and!; simpl; [split; [|by intros ?%K3]|by intros ?%K1|]; simpl; [apply elem_of_union_l; by apply elem_of_singleton|].
  apply not_elem_of_dom. by intros ?%K2.
Qed.

Lemma ok_register (c : Conn) (id : string) :
  conn_ok c -> drawn id c -> Z.of_nat (size (Conn.pending c)) < Conn.capacity c ->
  conn_ok (Conn.with_pending ({[id]} ∪ Conn.pending c) c) /\ waiting id (Conn.with_pending ({[id]} ∪ Conn.pending c) c).
Proof.
  intros [K1 K2 K3 K4 K5] ([O1 O2] & N & A) B. split; [split; simpl; try done|].
  - apply union_subseteq. split; [by apply singleton_subseteq_l|done].
  - pose proof (size_insert_le (Conn.pending c) id). lia.
  - split; [done|left]. simpl. split; [|done]. apply elem_of_union_l. by apply elem_of_singleton.
Qed.

Lemma ok_remove (c : Conn) (id : string) :
  conn_ok c -> own id c ->
  conn_ok (Conn.with_pending (Conn.pending c ∖ {[id]}) c) /\ forgotten id (Conn.with_pending (Conn.pending c ∖ {[id]}) c).
Proof.
  intros [K1 K2 K3 K4 K5] O. split; [split; simpl; try done|].
  - etrans; [|exact K1]. apply subseteq_difference_l. done.
  - pose proof (size_remove_le (Conn.pending c) id). lia.
  - split; [done|]. simpl. apply not_elem_of_difference. right. by apply elem_of_singleton.
Qed.

Lemma ok_outbound (c : Conn) (x : list (OutgoingMessage.t V)) (id : string) :
  conn_ok c -> waiting id c -> conn_ok (Conn.with_outbound x c) /\ waiting id (Conn.with_outbound x c).
Proof. intros [K1 K2 K3 K4 K5] W. by split. Qed.

Lemma ok_rtc (P : string -> Conn -> Prop) (id : string) (c c' : Conn) :
  (forall id c c', others c c' -> P id c -> P id c') -> rtc others c c' -> conn_ok c /\ P id c -> conn_ok c' /\ P id c'.
Proof. intros St. apply (stable (fun c => conn_ok c /\ P id c)). intros d d' O [K1 K2]. split; [by eapply others_ok|by eapply St]. Qed.

(** The frame a request sends under the id it drew. *)
Definition request_frame (client_id id m : string) (params : V) (opts : RequestOptions.t) : OutgoingMessage.t V :=
  OutgoingMessage.Request (RequestFrame.mk V id (Some client_id) (request_version m params (RequestOptions.host_id opts)) m params
    (RequestOptions.target_client_id opts) (RequestOptions.host_id opts) ((fun d => d * 1000) <$> RequestOptions.timeout opts)).

(** What a caller may conclude from the result. *)
Definition outcome (client_id id m : string) (params : V) (opts : RequestOptions.t) (capacity : Z)
    (r : res IpcError.t (ResponseFrame.t V)) (sent : list (OutgoingMessage.t V)) : Prop :=
  match r with
  | Ok resp => ResponseFrame.request_id resp = id /\ ResponseFrame.result_type resp = ResultType.Success /\
      sent = [request_frame client_id id m params opts]
  | Err (IpcError.Peer _) => sent = [request_frame client_id id m params opts]
  | Err (IpcError.RequestTimeout m' secs) => m' = m /\ secs = default DEFAULT_REQUEST_TIMEOUT (RequestOptions.timeout opts) /\
      sent = [request_frame client_id id m params opts]
  | Err (IpcError.QueueFull n) => n = capacity /\ sent = []
  | Err IpcError.NotConnected => sent = []
  | _ => False
  end.

(** The rules of [istep], read by the operation. *)
Definition istep_by (B : Type) (o : @iop V B) (c : Conn) : option B -> Conn -> Prop :=
  match o in iop B return option B -> Conn -> Prop with
  | NewUuid => fun b c' => exists id, b = Some id /\ id ∉ Conn.used c /\ c' = Conn.with_used ({[id]} ∪ Conn.used c) c
  | Register id => fun b c' =>
      b = Some true /\ Z.of_nat (size (Conn.pending c)) < Conn.capacity c /\ c' = Conn.with_pending ({[id]} ∪ Conn.pending c) c \/
      b = Some false /\ c' = c
  | SendOutbound m => fun b c' => b = Some true /\ c' = Conn.with_outbound (Conn.outbound c ++ [m]) c \/ b = Some false /\ c' = c
  | RemovePending id => fun b c' => b = Some tt /\ c' = Conn.with_pending (Conn.pending c ∖ {[id]}) c
  | AwaitAnswer id _ => fun b c' => c' = c /\
      ((exists resp, b = Some (Answered resp) /\ Conn.answers c !! id = Some resp) \/
       b = Some SenderDropped /\ id ∉ Conn.pending c /\ Conn.answers c !! id = None \/
       b = Some TimedOut)
  end.

Lemma istep_inv (B : Type) (o : @iop V B) (c : Conn) (b : option B) (c' : Conn) : istep B o c b c' -> istep_by B o c b c'.
Proof. destruct 1; simpl; eauto 10. Qed.

(** From the answer on. *)
Lemma await_inv (client_id id m : string) (capacity : Z) (params : V) (opts : RequestOptions.t) (c c' : Conn)
    (t : list (OutgoingMessage.t V)) (r : res IpcError.t (ResponseFrame.t V)) :
  conn_ok c -> waiting id c ->
  iexec (do answer <- act (AwaitAnswer id (default DEFAULT_REQUEST_TIMEOUT (RequestOptions.timeout opts)));
         match answer with
         | Answered resp =>
             if bool_decide (ResponseFrame.result_type resp = ResultType.Error)
             then Ret (Err (IpcError.Peer (default "unknown error" (ResponseFrame.error resp))))
             else Ret (Ok resp)
         | SenderDropped => Ret (Err (IpcError.ConnectionLost "pending dropped"))
         | TimedOut =>
             perform act (RemovePending id);
             Ret (Err (IpcError.RequestTimeout m (default DEFAULT_REQUEST_TIMEOUT (RequestOptions.timeout opts))))
         end) c t (Some r) c' ->
  outcome client_id id m params opts capacity r (request_frame client_id id m params opts :: t) /\ id ∉ Conn.pending c' /\ conn_ok c'.
Proof.
  intros K W. cbn [texec act prog_bind]. intros (c1 & b & c2 & R1 & S1%istep_inv & X). simpl in S1.
  destruct (ok_rtc waiting id _ _ others_waiting R1 (conj K W)) as [K1 [O1 W1]].
  destruct S1 as (-> & [(resp & -> & A)|[(-> & N & A)| -> ]]).
  - assert (N : id ∉ Conn.pending c1) by (destruct W1 as [[_ ?]|[? _]]; congruence).
    destruct X as (t' & X & ->). case_bool_decide as E; destruct X as (-> & [= ->] & ->); simpl; [done|].
    split_and!; try done; [|by destruct (ResponseFrame.result_type resp)].
    by destruct (ok_correlated _ K1 _ _ A) as [|[reason ->]].
  - exfalso. destruct W1 as [[? _]|[_ [s Es]]]; [done|congruence].
  - destruct X as (t' & (c3 & b & c4 & R2 & S2%istep_inv & X) & ->). destruct S2 as [-> ->]. destruct X as (t2 & (-> & [= ->] & ->) & ->).
    destruct (ok_rtc own id _ _ others_own R2 (conj K1 O1)) as [K3 O3]. destruct (ok_remove _ _ K3 O3) as [K4 [_ N]]. by split_and!.
Qed.

Lemma request_inv (client_id m : string) (capacity : Z) (params : V) (opts : RequestOptions.t) (c c' : Conn)
    (t : list (OutgoingMessage.t V)) (r : res IpcError.t (ResponseFrame.t V)) :
  conn_ok c -> iexec (request client_id capacity m params opts) c t (Some r) c' ->
  exists id, id ∉ Conn.used c /\ outcome client_id id m params opts capacity r t /\ id ∉ Conn.pending c' /\ conn_ok c'.
Proof.
  intros K X. unfold request in X.
  destruct X as (c1 & b & c2 & R1 & S1%istep_inv & X). destruct S1 as (id & -> & F & ->). destruct X as (t1 & X & ->).
  exists id. split. { intros I. apply F. revert R1 I. intros R1 I. pose proof (stable _ _ _ (others_used {[id]}) R1). set_solver. }
  assert (K1 : conn_ok c1) by (by eapply (stable conn_ok _ _ others_ok)).
  destruct (ok_draw _ _ K1 F) as [K2 D2].
  destruct X as (c3 & b & c4 & R3 & S3%istep_inv & X). destruct (ok_rtc drawn id _ _ others_drawn R3 (conj K2 D2)) as [K3 D3].
  destruct S3 as [(-> & B & ->)|(-> & ->)]; destruct X as (t2 & X & ->); simpl in X |- *.
  2:{ destruct X as (-> & [= ->] & ->). destruct D3 as (_ & N & _). by split_and!. }
  destruct (ok_register _ _ K3 D3 B) as [K4 W4].
  destruct X as (c5 & b & c6 & R5 & S5%istep_inv & X). destruct (ok_rtc waiting id _ _ others_waiting R5 (conj K4 W4)) as [K5 W5].
  destruct S5 as [(-> & ->)|(-> & ->)]; destruct X as (t3 & X & ->); cbn [iobs app negb].
  - destruct (ok_outbound c5 (Conn.outbound c5 ++ [request_frame client_id id m params opts]) id K5 W5) as [K6 W6].
    by apply (await_inv client_id id m capacity params opts _ _ _ _ K6 W6).
  - destruct X as (c7 & b & c8 & R7 & S7%istep_inv & X). destruct S7 as [-> ->]. destruct X as (t4 & (-> & [= ->] & ->) & ->).
    destruct (ok_rtc own id _ _ others_own R7 (conj K5 (proj1 W5))) as [K8 O8]. destruct (ok_remove _ _ K8 O8) as [K9 [_ N]]. by split_and!.
Qed.

(** C14. A request draws an id of its own.  Whatever the tasks of the connection and the other calls do
    meanwhile, it returns the response that carries this id, or an error that says whether its frame
    went out; it is never told that its sender was dropped, and its id is no longer waited for when it
    returns. *)
Theorem request_outcome (client_id m : string) (capacity : Z) (params : V) (opts : RequestOptions.t) (c c' : Conn)
    (t : list (OutgoingMessage.t V)) (r : res IpcError.t (ResponseFrame.t V)) :
  conn_ok c -> iexec (request client_id capacity m params opts) c t (Some r) c' ->
  exists id, id ∉ Conn.used c /\ outcome client_id id m params opts capacity r t /\ id ∉ Conn.pending c' /\ conn_ok c'.
Proof. apply request_inv. Qed.

(** A connection that goes away while a written request waits is reported by the peer's error: the
    caller that looks for [ConnectionLost] never sees one. *)
Lemma lost_connection_is_peer (client_id id m reason : string) (capacity : Z) (params : V) (opts : RequestOptions.t) (c : Conn) :
  conn_ok c -> id ∉ Conn.used c -> Z.of_nat (size (Conn.pending c)) < Conn.capacity c -> Conn.outbound_open c = true ->
  exists c', iexec (request client_id capacity m params opts) c [request_frame client_id id m params opts]
    (Some (Err (IpcError.Peer ("connection-closed: " +:+ reason)))) c'.
Proof.
  intros K F B O. eexists. eexists _, _, _. split; [reflexivity|]. split; [by apply (StepUuid c id)|]. eexists. split; [|done].
  eexists _, _, _. split; [reflexivity|]. split; [by apply StepRegister|]. eexists. split; [|done].
  eexists _, _, _. split; [reflexivity|]. split; [by apply StepSend|]. eexists. split; [|done].
  eexists _, _, _. split; [apply rtc_once, (OthersTeardown _ reason)|]. split; [apply (StepAnswered _ _ _ (closed_response reason))|].
  - simpl. rewrite lookup_closed, bool_decide_eq_true_2; [done|]. apply elem_of_union_l. by apply elem_of_singleton.
  - eexists. split; [|done]. split_and!; reflexivity.
Qed.

(** ** [StreamSync] *)

(** The changes that [observe] lets through, as the revisions a reader of the stream goes through. *)
Fixpoint follow (s : StreamSync.t) (changes : list (StreamChange.t V)) : list StreamDecision.t :=
  match changes with
  | [] => []
  | change :: rest => let '(s, d) := observe s change in d :: follow s rest
  end.

(** Applied patches are chained: each starts at the revision the accepted change before it ended. *)
Fixpoint chained (at_ : option Z) (changes : list (StreamChange.t V)) (ds : list StreamDecision.t) : Prop :=
  match changes, ds with
  | [], [] => True
  | StreamChange.Snapshot revision _ :: changes, StreamDecision.TakeSnapshot :: ds => chained (Some revision) changes ds
  | StreamChange.Patches b r _ :: changes, StreamDecision.ApplyPatch base revision :: ds =>
      b = base /\ r = revision /\ at_ = Some base /\ base < revision /\ chained (Some revision) changes ds
  | StreamChange.Patches b r _ :: changes, StreamDecision.Resync :: ds => (at_ <> Some b \/ r <= b) /\ chained at_ changes ds
  | _, _ => False
  end.

Lemma follow_chained (changes : list (StreamChange.t V)) (s : StreamSync.t) : chained (StreamSync.revision s) changes (follow s changes).
Proof.
  revert s. induction changes as [|[revision st|b r ps] changes IH]; intros s; simpl; [done|apply (IH (StreamSync.mk _))|].
  case_bool_decide as E; simpl; [destruct (b <? r) eqn:L; simpl|]; [|split; [right; lia|apply IH]|split; [by left|apply IH]].
  split_and!; try done; [lia|apply (IH (StreamSync.mk _))].
Qed.
End Run.

(** ** A request that is answered *)

Module IpcDemo.
Import Json.Demo.

#[export] Instance text : SerdeJsonText json := {
  from_str _ := None;
  to_string _ := Ok [Byte.x7b; Byte.x7d];
  is_object v := match v with Obj _ => true | _ => false end;
}.

#[export] Instance serde : IpcSerde json := {
  request_from _ := None;
  response_from _ := None;
  broadcast_from _ := None;
  discovery_request_from _ := None;
  discovery_response_from _ := None;
  stream_state_changed_from _ := None;
  revision_from _ := Err "invalid type";
  start_turn_result_from v := Ok (get "result" v);
  steer_turn_result_from v := Ok (get "result" v);
  interrupt_turn_result_from _ := Err "missing field";
  request_to frame := {["requestId" := json_string (RequestFrame.request_id frame)]};
  response_to frame := {["requestId" := json_string (ResponseFrame.request_id frame)]};
  broadcast_to frame := {["method" := json_string (BroadcastFrame.method frame)]};
  discovery_response_to frame := {["requestId" := json_string (ClientDiscoveryResponseFrame.request_id frame)]};
}.

Definition idle : Conn.t json :=
  Conn.mk json 1 ∅ ∅ [] true [] true (ConnectionState.Connected "client") ∅ ∅.
Definition response : ResponseFrame.t json :=
  ResponseFrame.mk json "u1" ResultType.Success (Some "m") (Some "desktop") None None.
Definition sent : OutgoingMessage.t json := request_frame "client" "u1" "m" json_null RequestOptions.default.
Definition after_draw : Conn.t json := Conn.with_used ({["u1"]} ∪ Conn.used idle) idle.
Definition registered : Conn.t json := Conn.with_pending ({["u1"]} ∪ Conn.pending after_draw) after_draw.
Definition queued : Conn.t json := Conn.with_outbound (Conn.outbound registered ++ [sent]) registered.
Definition answered : Conn.t json := (dispatch (IncomingMessage.Response response) (writer_step 100 true queued)).1.

Lemma idle_ok : conn_ok idle.
Proof. split; simpl; try done; try set_solver. Qed.

Lemma request_run : texec (others 100) istep iobs (request "client" 1 "m" json_null RequestOptions.default) idle [sent] (Some (Ok response)) answered.
Proof.
  exists idle, (Some "u1"), after_draw. split; [reflexivity|]. split; [apply StepUuid; set_solver|]. exists [sent]. split; [|done].
  exists after_draw, (Some true), registered. split; [reflexivity|]. split; [apply StepRegister; vm_compute; done|]. exists [sent]. split; [|done].
  exists registered, (Some true), queued. split; [reflexivity|]. split; [by apply StepSend|]. exists []. split; [|done].
  exists answered, (Some (Answered response)), answered.
  split; [eapply rtc_l; [apply (OthersWrite 100 _ true)|apply rtc_once, OthersDispatch]|].
  split; [apply StepAnswered; vm_compute; done|]. exists []. split; [|done]. split_and!; vm_compute; done.
Qed.

Lemma request_outcome_witness :
  exists id, id ∉ Conn.used idle /\ outcome "client" id "m" json_null RequestOptions.default 1 (Ok response) [sent] /\
    id ∉ Conn.pending answered /\ conn_ok answered.
Proof. exact (request_outcome 100 "client" "m" 1 json_null RequestOptions.default idle answered [sent] (Ok response) idle_ok request_run). Defined.
End IpcDemo.
