(* ===== verification/ProtoMapping.v ===== *)
(** * Between the domain and the protocol ([runtime/proto_mapping.rs])

    The conversions of the Bridge, field by field: [to_proto] of what it sends, [from_proto] of what
    it receives.  An enum of a message is an [i32]: [as_i32] is the cast, and [enum_or] reads it back
    with the default of the field ([try_into().map(f).unwrap_or(d)]).  [now] is the clock at the
    call, for times that cannot be represented. *)

From S2P Require Import Prelude Domain Proto Gateway.

(** The crate [chrono]: [timestamp], [timestamp_subsec_nanos] and [from_timestamp] of
    [DateTime<Utc>]; the crate [uuid]: [Uuid::parse_str].  A UUID prints as its canonical string. *)
Class ProtoCrates := {
  dt_timestamp : DateTime -> Z;
  dt_subsec_nanos : DateTime -> Z;
  dt_from_timestamp : Z -> Z -> option DateTime;
  uuid_parse_str : string -> option Uuid;
}.

Class ProtoCratesLaws `{ProtoCrates} := {
  dt_roundtrip (d : DateTime) : dt_from_timestamp (dt_timestamp d) (dt_subsec_nanos d) = Some d;
  dt_nanos_range (d : DateTime) : 0 <= dt_subsec_nanos d;
  uuid_parse_empty : uuid_parse_str "" = None;
}.

Definition enum_or {E A : Type} (try_from : Z -> option E) (f : E -> A) (d : A) (z : Z) : A :=
  match try_from z with Some e => f e | None => d end.

(** [if s.is_empty() { None } else { Some(s) }], and the other way round. *)
Definition nonempty (s : string) : option string := if bool_decide (s = "") then None else Some s.
Definition or_empty (s : option string) : string := default "" s.
Definition nonempty_text (s : string) : option OutputText.t := OutputText.mk <$> nonempty s.
Definition text_or_empty (s : option OutputText.t) : string := or_empty (OutputText.text <$> s).
Definition nonzero (n : Z) : option Z := if n =? 0 then None else Some n.

(** ** Enums *)

Definition device_connection_to_proto (value : DeviceConnection.t) : pb.DeviceConnection.t :=
  match value with
  | DeviceConnection.Connecting => pb.DeviceConnection.ConnectionConnecting
  | DeviceConnection.Online => pb.DeviceConnection.ConnectionOnline
  | DeviceConnection.Degraded => pb.DeviceConnection.ConnectionDegraded
  | DeviceConnection.Offline => pb.DeviceConnection.ConnectionOffline
  end.

Definition device_connection_from_proto (value : pb.DeviceConnection.t) : DeviceConnection.t :=
  match value with
  | pb.DeviceConnection.ConnectionConnecting => DeviceConnection.Connecting
  | pb.DeviceConnection.ConnectionOnline => DeviceConnection.Online
  | pb.DeviceConnection.ConnectionDegraded => DeviceConnection.Degraded
  | pb.DeviceConnection.ConnectionOffline => DeviceConnection.Offline
  | _ => DeviceConnection.Offline
  end.

Definition control_mode_to_proto (value : ControlMode.t) : pb.ControlMode.t :=
  match value with
  | ControlMode.FullControl => pb.ControlMode.FullControl
  | ControlMode.LimitedControl => pb.ControlMode.LimitedControl
  | ControlMode.ReadOnly => pb.ControlMode.ReadOnly
  | ControlMode.Unavailable => pb.ControlMode.Unavailable
  end.

Definition control_mode_from_proto (value : pb.ControlMode.t) : ControlMode.t :=
  match value with
  | pb.ControlMode.FullControl => ControlMode.FullControl
  | pb.ControlMode.LimitedControl => ControlMode.LimitedControl
  | pb.ControlMode.ReadOnly => ControlMode.ReadOnly
  | pb.ControlMode.Unavailable => ControlMode.Unavailable
  | _ => ControlMode.Unavailable
  end.

Definition compatibility_state_to_proto (value : CompatibilityState.t) : pb.CompatibilityState.t :=
  match value with
  | CompatibilityState.Verified => pb.CompatibilityState.CompatibilityVerified
  | CompatibilityState.Degraded => pb.CompatibilityState.CompatibilityDegraded
  | CompatibilityState.Unsupported => pb.CompatibilityState.CompatibilityUnsupported
  end.

Definition compatibility_state_from_proto (value : pb.CompatibilityState.t) : CompatibilityState.t :=
  match value with
  | pb.CompatibilityState.CompatibilityVerified => CompatibilityState.Verified
  | pb.CompatibilityState.CompatibilityDegraded => CompatibilityState.Degraded
  | pb.CompatibilityState.CompatibilityUnsupported => CompatibilityState.Unsupported
  | _ => CompatibilityState.Degraded
  end.

Definition turn_phase_to_proto (value : ActiveTurnPhase.t) : pb.ActiveTurnPhase.t :=
  match value with
  | ActiveTurnPhase.Idle => pb.ActiveTurnPhase.TurnPhaseIdle
  | ActiveTurnPhase.Running => pb.ActiveTurnPhase.TurnPhaseRunning
  | ActiveTurnPhase.Finishing => pb.ActiveTurnPhase.TurnPhaseFinishing
  end.

Definition turn_phase_from_proto (value : pb.ActiveTurnPhase.t) : ActiveTurnPhase.t :=
  match value with
  | pb.ActiveTurnPhase.TurnPhaseIdle => ActiveTurnPhase.Idle
  | pb.ActiveTurnPhase.TurnPhaseRunning => ActiveTurnPhase.Running
  | pb.ActiveTurnPhase.TurnPhaseFinishing => ActiveTurnPhase.Finishing
  | _ => ActiveTurnPhase.Idle
  end.

Definition attention_kind_to_proto (value : PendingAttentionKind.t) : pb.PendingAttentionKind.t :=
  match value with
  | PendingAttentionKind.UserQuestion => pb.PendingAttentionKind.AttentionUserQuestion
  | PendingAttentionKind.RiskApproval => pb.PendingAttentionKind.AttentionRiskApproval
  end.

Definition attention_kind_from_proto (value : pb.PendingAttentionKind.t) : PendingAttentionKind.t :=
  match value with
  | pb.PendingAttentionKind.AttentionUserQuestion => PendingAttentionKind.UserQuestion
  | pb.PendingAttentionKind.AttentionRiskApproval => PendingAttentionKind.RiskApproval
  | _ => PendingAttentionKind.UserQuestion
  end.

Definition queue_state_to_proto (value : QueueState.t) : pb.QueueState.t :=
  match value with
  | QueueState.Empty => pb.QueueState.Empty
  | QueueState.Queued => pb.QueueState.Queued
  | QueueState.Paused => pb.QueueState.Paused
  end.

Definition queue_state_from_proto (value : pb.QueueState.t) : QueueState.t :=
  match value with
  | pb.QueueState.Empty => QueueState.Empty
  | pb.QueueState.Queued => QueueState.Queued
  | pb.QueueState.Paused => QueueState.Paused
  | _ => QueueState.Empty
  end.

Definition turn_outcome_to_proto (value : LastTurnOutcome.t) : pb.LastTurnOutcome.t :=
  match value with
  | LastTurnOutcome.Completed => pb.LastTurnOutcome.TurnOutcomeCompleted
  | LastTurnOutcome.Failed => pb.LastTurnOutcome.TurnOutcomeFailed
  | LastTurnOutcome.Interrupted => pb.LastTurnOutcome.TurnOutcomeInterrupted
  | LastTurnOutcome.Unknown => pb.LastTurnOutcome.TurnOutcomeUnknown
  end.

Definition turn_outcome_from_proto (value : pb.LastTurnOutcome.t) : LastTurnOutcome.t :=
  match value with
  | pb.LastTurnOutcome.TurnOutcomeCompleted => LastTurnOutcome.Completed
  | pb.LastTurnOutcome.TurnOutcomeFailed => LastTurnOutcome.Failed
  | pb.LastTurnOutcome.TurnOutcomeInterrupted => LastTurnOutcome.Interrupted
  | pb.LastTurnOutcome.TurnOutcomeUnknown => LastTurnOutcome.Unknown
  | _ => LastTurnOutcome.Unknown
  end.

Definition background_state_to_proto (value : BackgroundCommandState.t) : pb.BackgroundCommandState.t :=
  match value with
  | BackgroundCommandState.Running => pb.BackgroundCommandState.BackgroundCmdRunning
  | BackgroundCommandState.Completed => pb.BackgroundCommandState.BackgroundCmdCompleted
  | BackgroundCommandState.Failed => pb.BackgroundCommandState.BackgroundCmdFailed
  | BackgroundCommandState.Stopped => pb.BackgroundCommandState.BackgroundCmdStopped
  | BackgroundCommandState.Unknown => pb.BackgroundCommandState.BackgroundCmdUnknown
  end.

Definition background_state_from_proto (value : pb.BackgroundCommandState.t) : BackgroundCommandState.t :=
  match value with
  | pb.BackgroundCommandState.BackgroundCmdRunning => BackgroundCommandState.Running
  | pb.BackgroundCommandState.BackgroundCmdCompleted => BackgroundCommandState.Completed
  | pb.BackgroundCommandState.BackgroundCmdFailed => BackgroundCommandState.Failed
  | pb.BackgroundCommandState.BackgroundCmdStopped => BackgroundCommandState.Stopped
  | pb.BackgroundCommandState.BackgroundCmdUnknown => BackgroundCommandState.Unknown
  | _ => BackgroundCommandState.Unknown
  end.

Definition output_channel_to_proto (value : OutputChannel.t) : pb.OutputChannel.t :=
  match value with
  | OutputChannel.Stdout => pb.OutputChannel.Stdout
  | OutputChannel.Stderr => pb.OutputChannel.Stderr
  | OutputChannel.Combined => pb.OutputChannel.Combined
  end.

Definition output_channel_from_proto (value : pb.OutputChannel.t) : OutputChannel.t :=
  match value with
  | pb.OutputChannel.Stdout => OutputChannel.Stdout
  | pb.OutputChannel.Stderr => OutputChannel.Stderr
  | pb.OutputChannel.Combined => OutputChannel.Combined
  | _ => OutputChannel.Combined
  end.

Definition plan_step_status_to_proto (value : PlanStepStatus.t) : pb.PlanStepStatus.t :=
  match value with
  | PlanStepStatus.Pending => pb.PlanStepStatus.PlanStepPending
  | PlanStepStatus.InProgress => pb.PlanStepStatus.PlanStepInProgress
  | PlanStepStatus.Completed => pb.PlanStepStatus.PlanStepCompleted
  end.

Definition plan_step_status_from_proto (value : pb.PlanStepStatus.t) : PlanStepStatus.t :=
  match value with
  | pb.PlanStepStatus.PlanStepPending => PlanStepStatus.Pending
  | pb.PlanStepStatus.PlanStepInProgress => PlanStepStatus.InProgress
  | pb.PlanStepStatus.PlanStepCompleted => PlanStepStatus.Completed
  | _ => PlanStepStatus.Pending
  end.

Definition file_change_kind_to_proto (value : FileChangeKind.t) : pb.FileChangeKind.t :=
  match value with
  | FileChangeKind.Added => pb.FileChangeKind.FileChangeAdded
  | FileChangeKind.Modified => pb.FileChangeKind.FileChangeModified
  | FileChangeKind.Deleted => pb.FileChangeKind.FileChangeDeleted
  | FileChangeKind.Renamed => pb.FileChangeKind.FileChangeRenamed
  | FileChangeKind.Unknown => pb.FileChangeKind.Unspecified
  end.

Definition file_change_kind_from_proto (value : pb.FileChangeKind.t) : FileChangeKind.t :=
  match value with
  | pb.FileChangeKind.FileChangeAdded => FileChangeKind.Added
  | pb.FileChangeKind.FileChangeModified => FileChangeKind.Modified
  | pb.FileChangeKind.FileChangeDeleted => FileChangeKind.Deleted
  | pb.FileChangeKind.FileChangeRenamed => FileChangeKind.Renamed
  | _ => FileChangeKind.Unknown
  end.

Definition stable_error_to_proto (value : StableErrorCode.t) : pb.StableErrorCode.t :=
  match value with
  | StableErrorCode.AuthRequired => pb.StableErrorCode.AuthRequired
  | StableErrorCode.AuthExpired => pb.StableErrorCode.AuthExpired
  | StableErrorCode.CsrfInvalid => pb.StableErrorCode.CsrfInvalid
  | StableErrorCode.WsTicketInvalid => pb.StableErrorCode.WsTicketInvalid
  | StableErrorCode.WsTicketExpired => pb.StableErrorCode.WsTicketExpired
  | StableErrorCode.WsTicketConsumed => pb.StableErrorCode.WsTicketConsumed
  | StableErrorCode.DeviceOffline => pb.StableErrorCode.DeviceOffline
  | StableErrorCode.DeviceRevoked => pb.StableErrorCode.DeviceRevoked
  | StableErrorCode.CodexUnavailable => pb.StableErrorCode.CodexUnavailable
  | StableErrorCode.CodexVersionUnverified => pb.StableErrorCode.CodexVersionUnverified
  | StableErrorCode.ControlReadOnly => pb.StableErrorCode.ControlReadOnly
  | StableErrorCode.CapabilityUnsupported => pb.StableErrorCode.CapabilityUnsupported
  | StableErrorCode.SessionNotFound => pb.StableErrorCode.SessionNotFound
  | StableErrorCode.StaleTurn => pb.StableErrorCode.StaleTurn
  | StableErrorCode.DuplicateRequestMismatch => pb.StableErrorCode.DuplicateRequestMismatch
  | StableErrorCode.OutcomeUnknown => pb.StableErrorCode.OutcomeUnknown
  | StableErrorCode.ResyncRequired => pb.StableErrorCode.ResyncRequired
  | StableErrorCode.QueueAlreadyExists => pb.StableErrorCode.QueueAlreadyExists
  | StableErrorCode.QueuePaused => pb.StableErrorCode.QueuePaused
  | StableErrorCode.QuestionExpired => pb.StableErrorCode.QuestionExpired
  | StableErrorCode.ApprovalExpired => pb.StableErrorCode.ApprovalExpired
  | StableErrorCode.SettingCombinationUnsupported => pb.StableErrorCode.SettingCombinationUnsupported
  | StableErrorCode.FileHandleInvalid => pb.StableErrorCode.FileHandleInvalid
  | StableErrorCode.FileOutsideScope => pb.StableErrorCode.FileOutsideScope
  | StableErrorCode.FileChanged => pb.StableErrorCode.FileChanged
  | StableErrorCode.FileTypeNotPreviewable => pb.StableErrorCode.FileTypeNotPreviewable
  | StableErrorCode.TransferExpired => pb.StableErrorCode.TransferExpired
  | StableErrorCode.TransferTooLarge => pb.StableErrorCode.TransferTooLarge
  | StableErrorCode.TransferRangeInvalid => pb.StableErrorCode.TransferRangeInvalid
  | StableErrorCode.DiffTooLarge => pb.StableErrorCode.DiffTooLarge
  | StableErrorCode.RateLimited => pb.StableErrorCode.RateLimited
  | StableErrorCode.InternalError => pb.StableErrorCode.InternalError
  end.

Definition stable_error_from_proto (value : pb.StableErrorCode.t) : StableErrorCode.t :=
  match value with
  | pb.StableErrorCode.AuthRequired => StableErrorCode.AuthRequired
  | pb.StableErrorCode.AuthExpired => StableErrorCode.AuthExpired
  | pb.StableErrorCode.CsrfInvalid => StableErrorCode.CsrfInvalid
  | pb.StableErrorCode.WsTicketInvalid => StableErrorCode.WsTicketInvalid
  | pb.StableErrorCode.WsTicketExpired => StableErrorCode.WsTicketExpired
  | pb.StableErrorCode.WsTicketConsumed => StableErrorCode.WsTicketConsumed
  | pb.StableErrorCode.DeviceOffline => StableErrorCode.DeviceOffline
  | pb.StableErrorCode.DeviceRevoked => StableErrorCode.DeviceRevoked
  | pb.StableErrorCode.CodexUnavailable => StableErrorCode.CodexUnavailable
  | pb.StableErrorCode.CodexVersionUnverified => StableErrorCode.CodexVersionUnverified
  | pb.StableErrorCode.ControlReadOnly => StableErrorCode.ControlReadOnly
  | pb.StableErrorCode.CapabilityUnsupported => StableErrorCode.CapabilityUnsupported
  | pb.StableErrorCode.SessionNotFound => StableErrorCode.SessionNotFound
  | pb.StableErrorCode.StaleTurn => StableErrorCode.StaleTurn
  | pb.StableErrorCode.DuplicateRequestMismatch => StableErrorCode.DuplicateRequestMismatch
  | pb.StableErrorCode.OutcomeUnknown => StableErrorCode.OutcomeUnknown
  | pb.StableErrorCode.ResyncRequired => StableErrorCode.ResyncRequired
  | pb.StableErrorCode.QueueAlreadyExists => StableErrorCode.QueueAlreadyExists
  | pb.StableErrorCode.QueuePaused => StableErrorCode.QueuePaused
  | pb.StableErrorCode.QuestionExpired => StableErrorCode.QuestionExpired
  | pb.StableErrorCode.ApprovalExpired => StableErrorCode.ApprovalExpired
  | pb.StableErrorCode.SettingCombinationUnsupported => StableErrorCode.SettingCombinationUnsupported
  | pb.StableErrorCode.FileHandleInvalid => StableErrorCode.FileHandleInvalid
  | pb.StableErrorCode.FileOutsideScope => StableErrorCode.FileOutsideScope
  | pb.StableErrorCode.FileChanged => StableErrorCode.FileChanged
  | pb.StableErrorCode.FileTypeNotPreviewable => StableErrorCode.FileTypeNotPreviewable
  | pb.StableErrorCode.TransferExpired => StableErrorCode.TransferExpired
  | pb.StableErrorCode.TransferTooLarge => StableErrorCode.TransferTooLarge
  | pb.StableErrorCode.TransferRangeInvalid => StableErrorCode.TransferRangeInvalid
  | pb.StableErrorCode.DiffTooLarge => StableErrorCode.DiffTooLarge
  | pb.StableErrorCode.RateLimited => StableErrorCode.RateLimited
  | pb.StableErrorCode.InternalError => StableErrorCode.InternalError
  | _ => StableErrorCode.InternalError
  end.

Definition setting_kind_to_proto (value : SettingKind.t) : pb.SettingKind.t :=
  match value with
  | SettingKind.Model => pb.SettingKind.Model
  | SettingKind.ReasoningEffort => pb.SettingKind.ReasoningEffort
  | SettingKind.ServiceTier => pb.SettingKind.ServiceTier
  | SettingKind.PermissionMode => pb.SettingKind.PermissionMode
  | SettingKind.CollaborationMode => pb.SettingKind.CollaborationMode
  end.

Definition setting_kind_from_proto (value : pb.SettingKind.t) : option SettingKind.t :=
  match value with
  | pb.SettingKind.Model => Some SettingKind.Model
  | pb.SettingKind.ReasoningEffort => Some SettingKind.ReasoningEffort
  | pb.SettingKind.ServiceTier => Some SettingKind.ServiceTier
  | pb.SettingKind.PermissionMode => Some SettingKind.PermissionMode
  | pb.SettingKind.CollaborationMode => Some SettingKind.CollaborationMode
  | _ => None
  end.

Definition operation_to_proto (value : Operation.t) : pb.Operation.t :=
  match value with
  | Operation.CreateSession => pb.Operation.CreateTask
  | Operation.StartTurn => pb.Operation.StartTurn
  | Operation.QueueNextTurn => pb.Operation.QueueSet
  | Operation.SteerTurn => pb.Operation.Steer
  | Operation.InterruptTurn => pb.Operation.Interrupt
  | Operation.AnswerQuestion => pb.Operation.AnswerQuestion
  | Operation.SubmitApproval => pb.Operation.AnswerApproval
  | Operation.UpdateSettings => pb.Operation.UpdateSettings
  | Operation.RenameSession => pb.Operation.RenameTask
  | Operation.ArchiveSession => pb.Operation.ArchiveTask
  | Operation.UnarchiveSession => pb.Operation.UnarchiveTask
  | Operation.ForkSession => pb.Operation.ForkTask
  | Operation.StopBackgroundCommand => pb.Operation.StopBackgroundCommand
  | Operation.StopAllBackgroundCommands => pb.Operation.StopAllBackgroundCommands
  end.

(** ** Times and identifiers *)

Section Mapping.
Context `{ProtoCrates}.
Variable now : DateTime.

Definition timestamp_to_proto (value : DateTime) : pb.Timestamp.t :=
  pb.Timestamp.mk (dt_timestamp value) (dt_subsec_nanos value).

Definition timestamp_from_proto (value : pb.Timestamp.t) : DateTime :=
  default now (dt_from_timestamp (pb.Timestamp.seconds value) (Z.max (pb.Timestamp.nanos value) 0)).

Definition opt_timestamp_to_proto (value : option DateTime) : option pb.Timestamp.t := timestamp_to_proto <$> value.
Definition opt_timestamp_from_proto (value : option pb.Timestamp.t) : option DateTime := timestamp_from_proto <$> value.

Definition session_key_to_proto (key : SessionKey.t) : pb.SessionKey.t :=
  pb.SessionKey.mk (SessionKey.device_id key) (AgentKind.proto_value (SessionKey.agent_kind key))
    (SessionKey.native_session_id key) (or_empty (SessionKey.relay_session_uuid key)).

Definition session_key_from_proto (key : pb.SessionKey.t) : option SessionKey.t :=
  kind ← AgentKind.from_proto_value (pb.SessionKey.agent_kind key);
  Some (SessionKey.mk (pb.SessionKey.device_id key) kind (pb.SessionKey.native_session_id key)
          (uuid_parse_str (pb.SessionKey.relay_session_uuid key))).

Definition turn_id_to_proto (id : TurnId.t) : pb.TurnId.t := pb.TurnId.mk (TurnId.id id) (TurnId.synthetic_ id).
Definition turn_id_from_proto (id : pb.TurnId.t) : TurnId.t := TurnId.mk (pb.TurnId.id id) (pb.TurnId.synthetic id).
Definition opt_turn_id_to_proto (id : option TurnId.t) : option pb.TurnId.t := turn_id_to_proto <$> id.
Definition opt_turn_id_from_proto (id : option pb.TurnId.t) : option TurnId.t := turn_id_from_proto <$> id.
Definition item_id_to_proto (id : ItemId.t) : pb.ItemId.t := pb.ItemId.mk (ItemId.id id) (ItemId.synthetic_ id).
Definition item_id_from_proto (id : pb.ItemId.t) : ItemId.t := ItemId.mk (pb.ItemId.id id) (pb.ItemId.synthetic id).

(** ** Summaries and snapshots *)

Definition session_summary_to_proto (summary : SessionSummary.t) : pb.SessionSummary.t :=
  pb.SessionSummary.mk
    (Some (session_key_to_proto (SessionSummary.session_key summary)))
    (text_or_empty (SessionSummary.title summary))
    (AgentKind.proto_value (SessionKey.agent_kind (SessionSummary.session_key summary)))
    (or_empty (SessionSummary.project_display_name summary))
    (or_empty (SessionSummary.current_branch summary))
    (opt_timestamp_to_proto (SessionSummary.updated_at summary))
    (pb.DeviceConnection.as_i32 (device_connection_to_proto (SessionSummary.device_connection summary)))
    (opt_timestamp_to_proto (SessionSummary.device_last_seen_at summary))
    (or_empty (SessionSummary.degraded_reason summary))
    (pb.ControlMode.as_i32 (control_mode_to_proto (SessionSummary.control_mode summary)))
    (pb.CompatibilityState.as_i32 (compatibility_state_to_proto (SessionSummary.compatibility_state summary)))
    (pb.ActiveTurnPhase.as_i32 (turn_phase_to_proto (SessionSummary.active_turn_phase summary)))
    (SessionSummary.pending_attention_count summary)
    (map (fun k => pb.PendingAttentionKind.as_i32 (attention_kind_to_proto k)) (SessionSummary.pending_attention_kinds summary))
    (pb.QueueState.as_i32 (queue_state_to_proto (SessionSummary.queue_state summary)))
    (pb.LastTurnOutcome.as_i32 (turn_outcome_to_proto (SessionSummary.last_turn_outcome summary)))
    (SessionSummary.pinned summary) (SessionSummary.muted summary) (SessionSummary.archived summary).

Definition session_summary_from_proto (p : pb.SessionSummary.t) : option SessionSummary.t :=
  session_key ← pb.SessionSummary.session_key p ≫= session_key_from_proto;
  Some (SessionSummary.mk
    session_key
    (nonempty_text (pb.SessionSummary.title p))
    (SessionKey.agent_kind session_key)
    (nonempty (pb.SessionSummary.project_display_name p))
    (nonempty (pb.SessionSummary.current_branch p))
    (opt_timestamp_from_proto (pb.SessionSummary.updated_at p))
    (enum_or pb.DeviceConnection.try_from device_connection_from_proto DeviceConnection.Offline (pb.SessionSummary.device_connection p))
    (opt_timestamp_from_proto (pb.SessionSummary.device_last_seen_at p))
    (nonempty (pb.SessionSummary.degraded_reason p))
    (enum_or pb.ControlMode.try_from control_mode_from_proto ControlMode.Unavailable (pb.SessionSummary.control_mode p))
    (enum_or pb.CompatibilityState.try_from compatibility_state_from_proto CompatibilityState.Degraded (pb.SessionSummary.compatibility_state p))
    (enum_or pb.ActiveTurnPhase.try_from turn_phase_from_proto ActiveTurnPhase.Idle (pb.SessionSummary.active_turn_phase p))
    (pb.SessionSummary.pending_attention_count p)
    (omap (fun k => attention_kind_from_proto <$> pb.PendingAttentionKind.try_from k) (pb.SessionSummary.pending_attention_kinds p))
    (enum_or pb.QueueState.try_from queue_state_from_proto QueueState.Empty (pb.SessionSummary.queue_state p))
    (enum_or pb.LastTurnOutcome.try_from turn_outcome_from_proto LastTurnOutcome.Unknown (pb.SessionSummary.last_turn_outcome p))
    (pb.SessionSummary.pinned p) (pb.SessionSummary.muted p) (pb.SessionSummary.archived p)).

Definition queue_status_to_proto (queue : QueueStatus.t) : pb.QueueStatus.t :=
  pb.QueueStatus.mk (pb.QueueState.as_i32 (queue_state_to_proto (QueueStatus.state queue)))
    (opt_turn_id_to_proto (QueueStatus.after_turn_id queue)) (default 0 (QueueStatus.accepted_runtime_revision queue)).

Definition queue_status_from_proto (p : pb.QueueStatus.t) : QueueStatus.t :=
  QueueStatus.mk (enum_or pb.QueueState.try_from queue_state_from_proto QueueState.Empty (pb.QueueStatus.state p))
    (opt_turn_id_from_proto (pb.QueueStatus.after_turn_id p)) (nonzero (pb.QueueStatus.accepted_runtime_revision p)).

Definition output_cursor_to_proto (cursor : OutputCursor.t) : pb.OutputCursor.t :=
  pb.OutputCursor.mk (Some (item_id_to_proto (OutputCursor.item_id cursor))) (OutputCursor.revision cursor)
    (OutputCursor.byte_length cursor) (OutputCursor.is_final cursor)
    (pb.OutputChannel.as_i32 (output_channel_to_proto (OutputCursor.channel cursor))).

Definition output_cursor_from_proto (p : pb.OutputCursor.t) : OutputCursor.t :=
  OutputCursor.mk
    (match pb.OutputCursor.item_id p with Some id => item_id_from_proto id | None => ItemId.synthetic "" end)
    (pb.OutputCursor.revision p) (pb.OutputCursor.byte_length p) (pb.OutputCursor.is_final p)
    (enum_or pb.OutputChannel.try_from output_channel_from_proto OutputChannel.Combined (pb.OutputCursor.channel p)) false.

Definition current_turn_to_proto (turn : CurrentTurn.t) : pb.CurrentTurn.t :=
  pb.CurrentTurn.mk (Some (turn_id_to_proto (CurrentTurn.turn turn)))
    (pb.ActiveTurnPhase.as_i32 (turn_phase_to_proto (CurrentTurn.phase turn))) (opt_timestamp_to_proto (CurrentTurn.started_at turn)).

Definition current_turn_from_proto (p : pb.CurrentTurn.t) : CurrentTurn.t :=
  CurrentTurn.mk
    (match pb.CurrentTurn.turn p with Some id => turn_id_from_proto id | None => TurnId.synthetic "" end)
    (enum_or pb.ActiveTurnPhase.try_from turn_phase_from_proto ActiveTurnPhase.Idle (pb.CurrentTurn.phase p))
    (opt_timestamp_from_proto (pb.CurrentTurn.started_at p)).

Definition plan_to_proto (plan : Plan.t) : pb.Plan.t :=
  pb.Plan.mk (map (fun step => pb.PlanStep.mk (PlanStep.step_id step) (OutputText.text (PlanStep.title step))
                                 (pb.PlanStepStatus.as_i32 (plan_step_status_to_proto (PlanStep.status step)))) (Plan.steps plan)).

Definition plan_from_proto (p : pb.Plan.t) : Plan.t :=
  Plan.mk (map (fun step => PlanStep.mk (pb.PlanStep.step_id step) (OutputText.mk (pb.PlanStep.title step))
                              (enum_or pb.PlanStepStatus.try_from plan_step_status_from_proto PlanStepStatus.Pending (pb.PlanStep.status step)))
             (pb.Plan.steps p)).

Definition running_command_to_proto (cmd : RunningCommand.t) : pb.RunningCommand.t :=
  pb.RunningCommand.mk (RunningCommand.command_id cmd) (item_id_to_proto <$> RunningCommand.item_id cmd)
    (opt_timestamp_to_proto (RunningCommand.started_at cmd)).

Definition running_command_from_proto (p : pb.RunningCommand.t) : RunningCommand.t :=
  RunningCommand.mk (pb.RunningCommand.command_id p) (item_id_from_proto <$> pb.RunningCommand.item_id p)
    (opt_timestamp_from_proto (pb.RunningCommand.started_at p)).

Definition background_command_to_proto (cmd : BackgroundCommand.t) : pb.BackgroundCommand.t :=
  pb.BackgroundCommand.mk (or_empty (BackgroundCommand.command_id cmd)) (item_id_to_proto <$> BackgroundCommand.item_id cmd)
    (pb.BackgroundCommandState.as_i32 (background_state_to_proto (BackgroundCommand.state cmd)))
    (opt_timestamp_to_proto (BackgroundCommand.started_at cmd)) (opt_timestamp_to_proto (BackgroundCommand.finished_at cmd)).

Definition background_command_from_proto (p : pb.BackgroundCommand.t) : BackgroundCommand.t :=
  BackgroundCommand.mk (nonempty (pb.BackgroundCommand.command_id p)) (item_id_from_proto <$> pb.BackgroundCommand.item_id p)
    (enum_or pb.BackgroundCommandState.try_from background_state_from_proto BackgroundCommandState.Unknown (pb.BackgroundCommand.state p))
    None
    (opt_timestamp_from_proto (pb.BackgroundCommand.started_at p)) (opt_timestamp_from_proto (pb.BackgroundCommand.finished_at p)).

(** ** Capabilities, settings and attention *)

Definition transfer_limits_to_proto (limits : TransferLimits.t) : pb.TransferLimits.t :=
  pb.TransferLimits.mk
    (TransferLimits.text_inline_max_bytes limits) (TransferLimits.image_inline_max_bytes limits)
    (TransferLimits.pdf_range_max_bytes limits) (TransferLimits.download_max_bytes limits)
    (TransferLimits.upload_max_bytes limits) (TransferLimits.max_concurrent_per_browser limits)
    (TransferLimits.max_concurrent_per_device limits) (TransferLimits.previewable_mime_prefixes limits).

Definition transfer_limits_from_proto (p : pb.TransferLimits.t) : TransferLimits.t :=
  let defaults := TransferLimits.default in
  let or_default (v d : Z) := if v =? 0 then d else v in
  TransferLimits.mk
    (or_default (pb.TransferLimits.text_inline_max_bytes p) (TransferLimits.text_inline_max_bytes defaults))
    (or_default (pb.TransferLimits.image_inline_max_bytes p) (TransferLimits.image_inline_max_bytes defaults))
    (or_default (pb.TransferLimits.pdf_range_max_bytes p) (TransferLimits.pdf_range_max_bytes defaults))
    (or_default (pb.TransferLimits.download_max_bytes p) (TransferLimits.download_max_bytes defaults))
    (or_default (pb.TransferLimits.upload_max_bytes p) (TransferLimits.upload_max_bytes defaults))
    (or_default (pb.TransferLimits.max_concurrent_per_browser p) (TransferLimits.max_concurrent_per_browser defaults))
    (or_default (pb.TransferLimits.max_concurrent_per_device p) (TransferLimits.max_concurrent_per_device defaults))
    (match pb.TransferLimits.previewable_mime_prefixes p with
     | [] => TransferLimits.previewable_mime_prefixes defaults
     | prefixes => prefixes
     end).

Definition setting_option_to_proto (option : SettingOption.t) : pb.SettingOption.t :=
  pb.SettingOption.mk (SettingOption.option_id option)
    (pb.SettingKind.as_i32 (setting_kind_to_proto (SettingOption.kind option)))
    (OutputText.text (SettingOption.label option)) (or_empty (SettingOption.current_value option))
    (map (fun v => pb.SettingValue.mk (SettingValue.value v) (OutputText.text (SettingValue.label v)))
       (SettingOption.available_values option))
    (SettingOption.mutable option).

Definition setting_option_from_proto (p : pb.SettingOption.t) : option SettingOption.t :=
  kind ← setting_kind_from_proto (default pb.SettingKind.Unspecified (pb.SettingKind.try_from (pb.SettingOption.kind p)));
  Some (SettingOption.mk (pb.SettingOption.option_id p) kind (OutputText.mk (pb.SettingOption.label p))
          (nonempty (pb.SettingOption.current_value p))
          (map (fun v => SettingValue.mk (pb.SettingValue.value v) (OutputText.mk (pb.SettingValue.label v)))
             (pb.SettingOption.available_values p))
          (pb.SettingOption.mutable p)).

(** One queue capability of the domain is three operations of the protocol. *)
Definition announced (op : Operation.t) : list Z :=
  match op with
  | Operation.QueueNextTurn =>
      [pb.Operation.as_i32 pb.Operation.QueueSet; pb.Operation.as_i32 pb.Operation.QueueReplace;
       pb.Operation.as_i32 pb.Operation.QueueCancel]
  | other => [pb.Operation.as_i32 (operation_to_proto other)]
  end.

Definition capability_set_to_proto (caps : CapabilitySet.t) : pb.CapabilitySnapshot.t :=
  pb.CapabilitySnapshot.mk
    (pb.ControlMode.as_i32 (control_mode_to_proto (CapabilitySet.control_mode caps)))
    (pb.CompatibilityState.as_i32 (compatibility_state_to_proto (CapabilitySet.compatibility_state caps)))
    (or_empty (CapabilitySet.codex_version caps))
    (concat (map announced (CapabilitySet.supported_operations caps)))
    (map setting_option_to_proto (CapabilitySet.settings caps))
    (Some (transfer_limits_to_proto (CapabilitySet.transfer_limits caps))).

Definition capability_set_from_proto (p : pb.CapabilitySnapshot.t) : CapabilitySet.t :=
  CapabilitySet.mk
    (enum_or pb.ControlMode.try_from control_mode_from_proto ControlMode.Unavailable (pb.CapabilitySnapshot.control_mode p))
    (enum_or pb.CompatibilityState.try_from compatibility_state_from_proto CompatibilityState.Degraded
       (pb.CapabilitySnapshot.compatibility_state p))
    (nonempty (pb.CapabilitySnapshot.codex_version p))
    []
    (filter_map setting_option_from_proto (pb.CapabilitySnapshot.settings p))
    (match pb.CapabilitySnapshot.transfer_limits p with
     | Some limits => transfer_limits_from_proto limits
     | None => TransferLimits.default
     end).

Definition question_to_proto (q : PendingQuestion.t) : pb.PendingAttentionQuestion.t :=
  pb.PendingAttentionQuestion.mk (PendingQuestion.question_id q)
    (OutputText.text (PendingQuestion.title q)) (OutputText.text (PendingQuestion.description q))
    (map (fun o => pb.QuestionOption.mk (QuestionOption.option_id o) (OutputText.text (QuestionOption.label o)))
       (PendingQuestion.options q))
    (PendingQuestion.allow_multiple q) (PendingQuestion.allow_free_text q)
    (opt_turn_id_to_proto (PendingQuestion.turn q)) (opt_timestamp_to_proto (PendingQuestion.created_at q))
    (PendingQuestion.valid q).

Definition question_from_proto (p : pb.PendingAttentionQuestion.t) : PendingQuestion.t :=
  PendingQuestion.mk (pb.PendingAttentionQuestion.question_id p)
    (OutputText.mk (pb.PendingAttentionQuestion.title p)) (OutputText.mk (pb.PendingAttentionQuestion.description p))
    (map (fun o => QuestionOption.mk (pb.QuestionOption.option_id o) (OutputText.mk (pb.QuestionOption.label o)))
       (pb.PendingAttentionQuestion.options p))
    (pb.PendingAttentionQuestion.allow_multiple p) (pb.PendingAttentionQuestion.allow_free_text p)
    (opt_turn_id_from_proto (pb.PendingAttentionQuestion.turn p))
    (opt_timestamp_from_proto (pb.PendingAttentionQuestion.created_at p))
    (pb.PendingAttentionQuestion.valid p).

Definition approval_to_proto (a : PendingApproval.t) : pb.PendingAttentionApproval.t :=
  pb.PendingAttentionApproval.mk (PendingApproval.approval_id a)
    (OutputText.text (PendingApproval.risk_description a)) (OutputText.text (PendingApproval.requested_action a))
    (map (fun d => pb.ApprovalDecision.mk (ApprovalDecision.decision_id d) (OutputText.text (ApprovalDecision.label d)))
       (PendingApproval.decisions a))
    (text_or_empty (PendingApproval.scope a))
    (opt_turn_id_to_proto (PendingApproval.turn a)) (opt_timestamp_to_proto (PendingApproval.created_at a))
    (PendingApproval.valid a).

Definition approval_from_proto (p : pb.PendingAttentionApproval.t) : PendingApproval.t :=
  PendingApproval.mk (pb.PendingAttentionApproval.approval_id p)
    (OutputText.mk (pb.PendingAttentionApproval.risk_description p))
    (OutputText.mk (pb.PendingAttentionApproval.requested_action p))
    (map (fun d => ApprovalDecision.mk (pb.ApprovalDecision.decision_id d) (OutputText.mk (pb.ApprovalDecision.label d)))
       (pb.PendingAttentionApproval.decisions p))
    (nonempty_text (pb.PendingAttentionApproval.scope p))
    (opt_turn_id_from_proto (pb.PendingAttentionApproval.turn p))
    (opt_timestamp_from_proto (pb.PendingAttentionApproval.created_at p))
    (pb.PendingAttentionApproval.valid p).

Definition pending_attention_to_proto (attention : PendingAttention.t) : pb.PendingAttentionAdded.Attention :=
  match attention with
  | PendingAttention.Question q => pb.PendingAttentionAdded.Question (question_to_proto q)
  | PendingAttention.Approval a => pb.PendingAttentionAdded.Approval (approval_to_proto a)
  end.

(** ** Items and history *)

Definition opt_outcome_to_proto (outcome : option LastTurnOutcome.t) : Z :=
  pb.LastTurnOutcome.as_i32
    match outcome with
    | Some outcome => turn_outcome_to_proto outcome
    | None => pb.LastTurnOutcome.Unspecified
    end.

Definition opt_outcome_from_proto (outcome : Z) : option LastTurnOutcome.t :=
  match pb.LastTurnOutcome.try_from outcome with
  | Some v => if bool_decide (v = pb.LastTurnOutcome.Unspecified) then None else Some (turn_outcome_from_proto v)
  | None => None
  end.

(** The state of a command of the history, as a background command's. *)
Definition command_state (state : CommandStatusState.t) : BackgroundCommandState.t :=
  match state with
  | CommandStatusState.Running => BackgroundCommandState.Running
  | CommandStatusState.Completed => BackgroundCommandState.Completed
  | CommandStatusState.Failed => BackgroundCommandState.Failed
  | CommandStatusState.Interrupted | CommandStatusState.Unknown => BackgroundCommandState.Unknown
  end.

Definition content_to_proto (content : ItemContent.t) : option pb.Item.Content :=
  match content with
  | ItemContent.UserMessage text => Some (pb.Item.UserMessage (pb.UserMessage.mk (OutputText.text text)))
  | ItemContent.AssistantMessage text final_message =>
      Some (pb.Item.AssistantMessage (pb.AssistantMessage.mk (OutputText.text text) final_message))
  | ItemContent.ReasoningSummary text => Some (pb.Item.ReasoningSummary (pb.ReasoningSummary.mk (OutputText.text text)))
  | ItemContent.Plan plan => Some (pb.Item.Plan (plan_to_proto plan))
  | ItemContent.ToolCall tool_call_id name status summary duration_ms =>
      Some (pb.Item.ToolCall (pb.ToolCall.mk tool_call_id name
              (pb.PlanStepStatus.as_i32 (plan_step_status_to_proto status)) (text_or_empty summary) duration_ms))
  | ItemContent.CommandStatus command_id state _ _ duration_ms =>
      Some (pb.Item.CommandStatus (pb.CommandStatusItem.mk command_id
              (pb.BackgroundCommandState.as_i32 (background_state_to_proto (command_state state))) None None duration_ms))
  | ItemContent.FileChange changes =>
      Some (pb.Item.FileChange (pb.FileChangeSet.mk
              (map (fun change => pb.FileChange.mk (FileChange.path change)
                      (pb.FileChangeKind.as_i32 (file_change_kind_to_proto (FileChange.change change))) "" [] false) changes)))
  | ItemContent.SubAgentStatus subagent_turn label phase outcome =>
      Some (pb.Item.SubagentStatus (pb.SubAgentStatus.mk (opt_turn_id_to_proto subagent_turn) None label
              (pb.ActiveTurnPhase.as_i32 (turn_phase_to_proto phase)) (opt_outcome_to_proto outcome)))
  | ItemContent.Question question_id title =>
      Some (pb.Item.Question (pb.PendingAttentionQuestion.mk question_id (OutputText.text title) "" [] false false None None false))
  | ItemContent.Approval approval_id requested_action =>
      Some (pb.Item.Approval (pb.PendingAttentionApproval.mk approval_id "" (OutputText.text requested_action) [] "" None None false))
  | ItemContent.TokenUsage input_tokens output_tokens context_used_tokens context_window_tokens =>
      Some (pb.Item.TokenUsage (pb.TokenUsage.mk input_tokens output_tokens
              (default 0 context_used_tokens) (default 0 context_window_tokens)))
  | ItemContent.Opaque _ => None
  end.

Definition item_to_proto (item : Item.t) : option pb.Item.t :=
  content ← content_to_proto (Item.content item);
  Some (pb.Item.mk (Some (item_id_to_proto (Item.item_id item))) (opt_turn_id_to_proto (Item.turn item)) (Item.revision item)
          (opt_timestamp_to_proto (Item.created_at item)) (Some content)).

Definition content_from_proto (content : option pb.Item.Content) : ItemContent.t :=
  match content with
  | Some (pb.Item.UserMessage m) => ItemContent.UserMessage (OutputText.mk (pb.UserMessage.text m))
  | Some (pb.Item.AssistantMessage m) =>
      ItemContent.AssistantMessage (OutputText.mk (pb.AssistantMessage.text m)) (pb.AssistantMessage.final m)
  | Some (pb.Item.ReasoningSummary m) => ItemContent.ReasoningSummary (OutputText.mk (pb.ReasoningSummary.text m))
  | Some (pb.Item.Plan plan) => ItemContent.Plan (plan_from_proto plan)
  | Some (pb.Item.ToolCall t) =>
      ItemContent.ToolCall (pb.ToolCall.tool_call_id t) (pb.ToolCall.name t)
        (enum_or pb.PlanStepStatus.try_from plan_step_status_from_proto PlanStepStatus.Pending (pb.ToolCall.status t))
        (nonempty_text (pb.ToolCall.summary t)) (pb.ToolCall.duration_ms t)
  | Some (pb.Item.CommandStatus c) =>
      ItemContent.CommandStatus (pb.CommandStatusItem.command_id c) CommandStatusState.Unknown None None
        (pb.CommandStatusItem.duration_ms c)
  | Some (pb.Item.FileChange f) =>
      ItemContent.FileChange
        (map (fun change => FileChange.mk (pb.FileChange.path change)
                (enum_or pb.FileChangeKind.try_from file_change_kind_from_proto FileChangeKind.Unknown (pb.FileChange.kind change)))
           (pb.FileChangeSet.files f))
  | Some (pb.Item.SubagentStatus s) =>
      ItemContent.SubAgentStatus (opt_turn_id_from_proto (pb.SubAgentStatus.subagent_turn s)) (pb.SubAgentStatus.label s)
        (enum_or pb.ActiveTurnPhase.try_from turn_phase_from_proto ActiveTurnPhase.Idle (pb.SubAgentStatus.phase s))
        (opt_outcome_from_proto (pb.SubAgentStatus.outcome s))
  | Some (pb.Item.Question q) =>
      ItemContent.Question (pb.PendingAttentionQuestion.question_id q) (OutputText.mk (pb.PendingAttentionQuestion.title q))
  | Some (pb.Item.Approval a) =>
      ItemContent.Approval (pb.PendingAttentionApproval.approval_id a)
        (OutputText.mk (pb.PendingAttentionApproval.requested_action a))
  | Some (pb.Item.TokenUsage t) =>
      ItemContent.TokenUsage (pb.TokenUsage.input_tokens t) (pb.TokenUsage.output_tokens t)
        (nonzero (pb.TokenUsage.context_used_tokens t)) (nonzero (pb.TokenUsage.context_window_tokens t))
  | None => ItemContent.Opaque "proto-item-without-content"
  end.

Definition item_from_proto (p : pb.Item.t) : Item.t :=
  Item.mk
    (match pb.Item.item_id p with Some id => item_id_from_proto id | None => ItemId.synthetic "" end)
    (opt_turn_id_from_proto (pb.Item.turn p)) (pb.Item.revision p) (opt_timestamp_from_proto (pb.Item.created_at p))
    (content_from_proto (pb.Item.content p)).

Definition history_page_to_proto (page : HistoryPage.t) : pb.HistoryPage.t :=
  pb.HistoryPage.mk
    (filter_map (fun entry =>
       item ← item_to_proto (HistoryEntry.item entry);
       Some (pb.HistoryEntry.mk (Some (turn_id_to_proto (HistoryEntry.turn entry))) (Some item))) (HistoryPage.entries page))
    (or_empty (HistoryPage.next_cursor page)) (HistoryPage.has_more page).

(** [None]: the [expect] on an entry without an item panics. *)
Definition history_page_from_proto (p : pb.HistoryPage.t) : option HistoryPage.t :=
  entries ← mapM (fun entry =>
       item ← pb.HistoryEntry.item entry;
       Some (HistoryEntry.mk
               (match pb.HistoryEntry.turn entry with Some id => turn_id_from_proto id | None => TurnId.synthetic "" end)
               (item_from_proto item))) (pb.HistoryPage.entries p);
  Some (HistoryPage.mk entries (nonempty (pb.HistoryPage.next_cursor p)) (pb.HistoryPage.has_more p)).

(** ** Runtime snapshots *)

Definition runtime_snapshot_to_proto (snapshot : RuntimeSnapshot.t) : pb.RuntimeSnapshot.t :=
  pb.RuntimeSnapshot.mk
    (RuntimeSnapshot.runtime_revision snapshot)
    (current_turn_to_proto <$> RuntimeSnapshot.current_turn snapshot)
    (Some (plan_to_proto (RuntimeSnapshot.plan snapshot)))
    (map question_to_proto (RuntimeSnapshot.pending_questions snapshot))
    (map approval_to_proto (RuntimeSnapshot.pending_approvals snapshot))
    (map running_command_to_proto (RuntimeSnapshot.running_commands snapshot))
    (map background_command_to_proto (RuntimeSnapshot.background_commands snapshot))
    (RuntimeSnapshot.background_command_count snapshot)
    (Some (queue_status_to_proto (RuntimeSnapshot.queue snapshot)))
    (Some (capability_set_to_proto (RuntimeSnapshot.capabilities snapshot)))
    (map output_cursor_to_proto (RuntimeSnapshot.recent_output_cursors snapshot)).

Definition runtime_snapshot_from_proto (p : pb.RuntimeSnapshot.t) (session_key : SessionKey.t) : RuntimeSnapshot.t :=
  RuntimeSnapshot.mk session_key
    (pb.RuntimeSnapshot.runtime_revision p)
    (current_turn_from_proto <$> pb.RuntimeSnapshot.current_turn p)
    (match pb.RuntimeSnapshot.plan p with Some plan => plan_from_proto plan | None => Plan.default end)
    (map question_from_proto (pb.RuntimeSnapshot.pending_questions p))
    (map approval_from_proto (pb.RuntimeSnapshot.pending_approvals p))
    (map running_command_from_proto (pb.RuntimeSnapshot.running_commands p))
    (map background_command_from_proto (pb.RuntimeSnapshot.background_commands p))
    (pb.RuntimeSnapshot.background_command_count p)
    (match pb.RuntimeSnapshot.queue p with Some queue => queue_status_from_proto queue | None => QueueStatus.default end)
    (match pb.RuntimeSnapshot.capabilities p with
     | Some caps => capability_set_from_proto caps
     | None => CapabilitySet.read_only_degraded None
     end)
    (map output_cursor_from_proto (pb.RuntimeSnapshot.recent_output_cursors p)).

(** ** Events *)

Definition event_to_proto (event : DomainEvent.t) : option pb.DomainEvent.Event :=
  match event with
  | DomainEvent.TurnLifecycle turn phase outcome finished_at =>
      Some (pb.DomainEvent.TurnLifecycle (pb.TurnLifecycle.mk (Some (turn_id_to_proto turn))
              (pb.ActiveTurnPhase.as_i32 (turn_phase_to_proto phase)) (opt_outcome_to_proto outcome)
              (opt_timestamp_to_proto finished_at)))
  | DomainEvent.ItemUpsert item =>
      item ← item_to_proto item;
      Some (pb.DomainEvent.ItemUpsert (pb.ItemUpsert.mk (Some item)))
  | DomainEvent.OutputAppend item_id expected_offset bytes channel =>
      Some (pb.DomainEvent.OutputAppend (pb.OutputAppend.mk (Some (item_id_to_proto item_id)) expected_offset
              (OutputBytes.bytes bytes) (pb.OutputChannel.as_i32 (output_channel_to_proto channel))))
  | DomainEvent.OutputReplace item_id revision bytes channel =>
      Some (pb.DomainEvent.OutputReplace (pb.OutputReplace.mk (Some (item_id_to_proto item_id)) revision
              (Some (pb.OutputReplace.Bytes (OutputBytes.bytes bytes))) (pb.OutputChannel.as_i32 (output_channel_to_proto channel))))
  | DomainEvent.OutputFinal item_id revision byte_length channel _ =>
      Some (pb.DomainEvent.OutputFinal (pb.OutputFinal.mk (Some (item_id_to_proto item_id)) revision byte_length
              (pb.OutputChannel.as_i32 (output_channel_to_proto channel))))
  | DomainEvent.SessionSummaryChanged summary =>
      Some (pb.DomainEvent.SessionSummaryChanged (session_summary_to_proto summary))
  | DomainEvent.PendingAttentionAdded attention =>
      Some (pb.DomainEvent.PendingAttentionAdded (pb.PendingAttentionAdded.mk (Some (pending_attention_to_proto attention))))
  | DomainEvent.PendingAttentionRemoved kind native_id turn =>
      Some (pb.DomainEvent.PendingAttentionRemoved (pb.PendingAttentionRemoved.mk
              (pb.PendingAttentionKind.as_i32 (attention_kind_to_proto kind)) native_id (opt_turn_id_to_proto turn)))
  | DomainEvent.QueueStateChanged queue =>
      Some (pb.DomainEvent.QueueStateChanged (pb.QueueStateChanged.mk (Some (queue_status_to_proto queue))))
  | DomainEvent.BackgroundCommandChanged command =>
      Some (pb.DomainEvent.BackgroundCommandChanged (pb.BackgroundCommandChanged.mk (Some (background_command_to_proto command))))
  | DomainEvent.CapabilityChanged capabilities =>
      Some (pb.DomainEvent.CapabilityChanged (pb.CapabilityChanged.mk (Some (capability_set_to_proto capabilities))))
  end.

Definition domain_event_to_proto (event : DomainEvent.t) : option pb.DomainEvent.t :=
  event ← event_to_proto event;
  Some (pb.DomainEvent.mk (Some (timestamp_to_proto now)) (Some event)).

(** ** Commands *)

Definition unsupported {A : Type} (what : string) : res BridgeError.t A :=
  Err (BridgeError.mk StableErrorCode.CapabilityUnsupported
         (what +:+ " is not supported by current desktop version")).

(** The kind of an update is the one of the option with its id in the capability snapshot. *)
Fixpoint setting_updates (settings : list SettingOption.t) (updates : list pb.SettingUpdate.t)
    : res BridgeError.t (list SettingUpdate.t) :=
  match updates with
  | [] => Ok []
  | update :: updates =>
      let? found := ok_or (BridgeError.mk StableErrorCode.SettingCombinationUnsupported "unknown setting option")
        (list_find (fun option => SettingOption.option_id option = pb.SettingUpdate.option_id update) settings) in
      let? values := setting_updates settings updates in
      Ok (SettingUpdate.mk (SettingOption.kind found.2) (pb.SettingUpdate.value update) :: values)
  end.

Definition command_payload_from_proto (payload : option pb.CommandRequest.Payload) (caps : CapabilitySet.t)
    : res BridgeError.t CommandPayload.t :=
  match payload with
  | Some (pb.CommandRequest.StartTurn start) => Ok (CommandPayload.StartTurn (OutputText.mk (pb.StartTurnPayload.prompt start)))
  | Some (pb.CommandRequest.Steer steer) => Ok (CommandPayload.Steer (OutputText.mk (pb.SteerPayload.prompt steer)))
  | Some (pb.CommandRequest.Interrupt _) => Ok CommandPayload.Interrupt
  | Some (pb.CommandRequest.AnswerQuestion q) =>
      Ok (CommandPayload.AnswerQuestion (pb.AnswerQuestionPayload.question_id q) (pb.AnswerQuestionPayload.option_ids q)
            (nonempty_text (pb.AnswerQuestionPayload.free_text q)))
  | Some (pb.CommandRequest.AnswerApproval a) =>
      Ok (CommandPayload.SubmitApproval (pb.AnswerApprovalPayload.approval_id a) (pb.AnswerApprovalPayload.decision_id a))
  | Some (pb.CommandRequest.UpdateSettings settings) =>
      let? values := setting_updates (CapabilitySet.settings caps) (pb.UpdateSettingsPayload.updates settings) in
      Ok (CommandPayload.UpdateSettings values)
  | Some (pb.CommandRequest.QueueSet queue) =>
      Ok (CommandPayload.QueueNextTurn (OutputText.mk (pb.QueueSetPayload.prompt queue)) false)
  | Some (pb.CommandRequest.QueueReplace queue) =>
      Ok (CommandPayload.QueueNextTurn (OutputText.mk (pb.QueueReplacePayload.prompt queue)) true)
  | Some (pb.CommandRequest.QueueCancel _) => Ok CommandPayload.CancelQueue
  | Some (pb.CommandRequest.StopBackgroundCommand stop) =>
      Ok (CommandPayload.StopBackgroundCommand (pb.StopBackgroundCommandPayload.command_id stop))
  | Some (pb.CommandRequest.StopAllBackgroundCommands _) => Ok CommandPayload.StopAllBackgroundCommands
  | Some (pb.CommandRequest.CreateTask _) => unsupported "create task"
  | Some (pb.CommandRequest.RenameTask _) => unsupported "rename task"
  | Some (pb.CommandRequest.ArchiveTask _) => unsupported "archive task"
  | Some (pb.CommandRequest.UnarchiveTask _) => unsupported "unarchive task"
  | Some (pb.CommandRequest.ForkTask _) => unsupported "fork task"
  | None => Err (BridgeError.mk StableErrorCode.InternalError "command request without payload")
  end.

Definition command_operation_from_proto (operation : pb.Operation.t) : res BridgeError.t Operation.t :=
  match operation with
  | pb.Operation.QueueSet | pb.Operation.QueueReplace | pb.Operation.QueueCancel => Ok Operation.QueueNextTurn
  | pb.Operation.StartTurn => Ok Operation.StartTurn
  | pb.Operation.Steer => Ok Operation.SteerTurn
  | pb.Operation.Interrupt => Ok Operation.InterruptTurn
  | pb.Operation.AnswerQuestion => Ok Operation.AnswerQuestion
  | pb.Operation.AnswerApproval => Ok Operation.SubmitApproval
  | pb.Operation.UpdateSettings => Ok Operation.UpdateSettings
  | pb.Operation.StopBackgroundCommand => Ok Operation.StopBackgroundCommand
  | pb.Operation.StopAllBackgroundCommands => Ok Operation.StopAllBackgroundCommands
  | _ => unsupported "operation"
  end.

Definition command_request_from_proto (p : pb.CommandRequest.t) (caps : CapabilitySet.t)
    : res BridgeError.t CommandRequest.t :=
  let? request_id := ok_or (BridgeError.mk StableErrorCode.InternalError "command request_id is not a UUID")
    (uuid_parse_str (pb.CommandRequest.request_id p)) in
  let? operation := ok_or (BridgeError.mk StableErrorCode.CapabilityUnsupported "unknown operation")
    (pb.Operation.try_from (pb.CommandRequest.operation p)) in
  let? session_key := ok_or (BridgeError.mk StableErrorCode.CapabilityUnsupported
                               "command request has unknown or missing agent kind")
    (pb.CommandRequest.session_key p ≫= session_key_from_proto) in
  let? payload := command_payload_from_proto (pb.CommandRequest.payload p) caps in
  let? operation := command_operation_from_proto operation in
  Ok (CommandRequest.mk request_id operation session_key (opt_turn_id_from_proto (pb.CommandRequest.expected_turn_id p))
        (pb.CommandRequest.expected_runtime_revision p) None payload).
End Mapping.

Definition receipt_state_to_status (state : ReceiptState.t) : pb.CommandReceiptStatus.t * option pb.StableErrorCode.t :=
  match state with
  | ReceiptState.DispatchedToCodex => (pb.CommandReceiptStatus.ReceiptDispatchedToCodex, None)
  | ReceiptState.Completed => (pb.CommandReceiptStatus.ReceiptCompleted, None)
  | ReceiptState.Rejected code _ => (pb.CommandReceiptStatus.ReceiptRejected, Some (stable_error_to_proto code))
  | ReceiptState.OutcomeUnknown => (pb.CommandReceiptStatus.ReceiptOutcomeUnknown, None)
  end.

Definition stored_state_to_status (state : StoredReceiptState.t) : pb.CommandReceiptStatus.t :=
  match state with
  | StoredReceiptState.Received => pb.CommandReceiptStatus.ReceiptReceived
  | StoredReceiptState.AcceptedByBridge => pb.CommandReceiptStatus.ReceiptAcceptedByBridge
  | StoredReceiptState.DispatchedToCodex => pb.CommandReceiptStatus.ReceiptDispatchedToCodex
  | StoredReceiptState.Completed => pb.CommandReceiptStatus.ReceiptCompleted
  | StoredReceiptState.Rejected => pb.CommandReceiptStatus.ReceiptRejected
  | StoredReceiptState.OutcomeUnknown => pb.CommandReceiptStatus.ReceiptOutcomeUnknown
  end.
