(* ===== verification/ProtoMappingProps.v ===== *)
(** * The conversions agree ([runtime/proto_mapping.rs])

    What survives a trip through the protocol, stated as a function ([normal]) of the value that
    went in; the well-formedness of everything that is sent; the errors of a command; and the
    agreement of the announced operations with the capability gate of the gateway. *)

From S2P Require Import Prelude Prog Domain LocalStore Proto Concurrent Gateway ProtoMapping.

(** ** Enums *)

Ltac enum := intros []; reflexivity.

Lemma device_connection_trip x d :
  enum_or pb.DeviceConnection.try_from device_connection_from_proto d (pb.DeviceConnection.as_i32 (device_connection_to_proto x)) = x.
Proof. revert x. enum. Qed.
Lemma control_mode_trip x d :
  enum_or pb.ControlMode.try_from control_mode_from_proto d (pb.ControlMode.as_i32 (control_mode_to_proto x)) = x.
Proof. revert x. enum. Qed.
Lemma compatibility_state_trip x d :
  enum_or pb.CompatibilityState.try_from compatibility_state_from_proto d (pb.CompatibilityState.as_i32 (compatibility_state_to_proto x)) = x.
Proof. revert x. enum. Qed.
Lemma turn_phase_trip x d :
  enum_or pb.ActiveTurnPhase.try_from turn_phase_from_proto d (pb.ActiveTurnPhase.as_i32 (turn_phase_to_proto x)) = x.
Proof. revert x. enum. Qed.
Lemma queue_state_trip x d :
  enum_or pb.QueueState.try_from queue_state_from_proto d (pb.QueueState.as_i32 (queue_state_to_proto x)) = x.
Proof. revert x. enum. Qed.
Lemma turn_outcome_trip x d :
  enum_or pb.LastTurnOutcome.try_from turn_outcome_from_proto d (pb.LastTurnOutcome.as_i32 (turn_outcome_to_proto x)) = x.
Proof. revert x. enum. Qed.
Lemma background_state_trip x d :
  enum_or pb.BackgroundCommandState.try_from background_state_from_proto d
    (pb.BackgroundCommandState.as_i32 (background_state_to_proto x)) = x.
Proof. revert x. enum. Qed.
Lemma output_channel_trip x d :
  enum_or pb.OutputChannel.try_from output_channel_from_proto d (pb.OutputChannel.as_i32 (output_channel_to_proto x)) = x.
Proof. revert x. enum. Qed.
Lemma plan_step_status_trip x d :
  enum_or pb.PlanStepStatus.try_from plan_step_status_from_proto d (pb.PlanStepStatus.as_i32 (plan_step_status_to_proto x)) = x.
Proof. revert x. enum. Qed.
Lemma file_change_kind_trip x :
  enum_or pb.FileChangeKind.try_from file_change_kind_from_proto FileChangeKind.Unknown
    (pb.FileChangeKind.as_i32 (file_change_kind_to_proto x)) = x.
Proof. revert x. enum. Qed.
Lemma attention_kind_trip x :
  attention_kind_from_proto <$> pb.PendingAttentionKind.try_from (pb.PendingAttentionKind.as_i32 (attention_kind_to_proto x)) = Some x.
Proof. revert x. enum. Qed.
Lemma setting_kind_trip x :
  setting_kind_from_proto (default pb.SettingKind.Unspecified
    (pb.SettingKind.try_from (pb.SettingKind.as_i32 (setting_kind_to_proto x)))) = Some x.
Proof. revert x. enum. Qed.
Lemma opt_outcome_trip x : opt_outcome_from_proto (opt_outcome_to_proto x) = x.
Proof. by destruct x as [[]|]. Qed.
Lemma agent_kind_trip x : AgentKind.from_proto_value (AgentKind.proto_value x) = Some x.
Proof. revert x. enum. Qed.
Lemma operation_as_i32_inj (x y : pb.Operation.t) : pb.Operation.as_i32 x = pb.Operation.as_i32 y -> x = y.
Proof. by destruct x, y. Qed.
Lemma operation_try_from (x : pb.Operation.t) : pb.Operation.try_from (pb.Operation.as_i32 x) = Some x.
Proof. revert x. enum. Qed.

Create HintDb trip.
#[export] Hint Rewrite device_connection_trip control_mode_trip compatibility_state_trip turn_phase_trip queue_state_trip
  turn_outcome_trip background_state_trip output_channel_trip plan_step_status_trip file_change_kind_trip
  opt_outcome_trip : trip.

(** ** Fields that do not distinguish absent from empty *)

Definition trim (s : option string) : option string := nonempty (or_empty s).
Definition trim_text (s : option OutputText.t) : option OutputText.t := nonempty_text (text_or_empty s).
Definition trim_zero (z : option Z) : option Z := nonzero (default 0 z).

Lemma trim_spec s : trim s = if bool_decide (s = Some "") then None else s.
Proof.
  unfold trim, nonempty, or_empty. destruct s as [s|]; [|done]. simpl.
  repeat case_bool_decide; naive_solver.
Qed.

Lemma trim_text_spec s : trim_text s = if bool_decide (s = Some (OutputText.mk "")) then None else s.
Proof.
  unfold trim_text, nonempty_text, text_or_empty, nonempty, or_empty. destruct s as [[s]|]; [|done]. simpl.
  repeat case_bool_decide; naive_solver.
Qed.

Lemma map_map_id {A B} (f : A -> B) (g : B -> A) (l : list A) : (forall x, g (f x) = x) -> map g (map f l) = l.
Proof. intros E. rewrite map_map. rewrite <-(map_id l) at 2. by apply map_ext. Qed.

Lemma map_map_normal {A B} (f : A -> B) (g : B -> A) (n : A -> A) (l : list A) :
  (forall x, g (f x) = n x) -> map g (map f l) = map n l.
Proof. intros E. rewrite map_map. by apply map_ext. Qed.

Lemma omap_map_some {A B C} (f : A -> B) (g : B -> option C) (h : A -> C) (l : list A) :
  (forall x, g (f x) = Some (h x)) -> omap g (map f l) = map h l.
Proof. intros E. induction l as [|x l IH]; csimpl; [done|]. rewrite E. by f_equal. Qed.

Lemma mapM_omap {A B C} (f : B -> option C) (g : A -> option B) (h : A -> C) (P : A -> bool) (l : list A) :
  (forall x, match g x with Some y => P x = true /\ f y = Some (h x) | None => P x = false end) ->
  mapM f (omap g l) = Some (map h (List.filter P l)).
Proof.
  intros E. induction l as [|x l IH]; csimpl; [done|]. specialize (E x). destruct (g x) as [y|].
  - destruct E as [-> E]. transitivity (y ← f y; ks ← mapM f (omap g l); Some (y :: ks)); [done|]. by rewrite E, IH.
  - by rewrite E.
Qed.

Section Trips.
Context `{ProtoCratesLaws}.
Variable now : DateTime.

Lemma timestamp_trip (d : DateTime) : timestamp_from_proto now (timestamp_to_proto d) = d.
Proof.
  unfold timestamp_from_proto, timestamp_to_proto. simpl. rewrite Z.max_l by apply dt_nanos_range.
  by rewrite dt_roundtrip.
Qed.

Lemma opt_timestamp_trip (d : option DateTime) : opt_timestamp_from_proto now (opt_timestamp_to_proto d) = d.
Proof. destruct d; [|done]. unfold opt_timestamp_from_proto, opt_timestamp_to_proto. simpl. by rewrite timestamp_trip. Qed.

Lemma turn_id_trip (id : TurnId.t) : turn_id_from_proto (turn_id_to_proto id) = id.
Proof. by destruct id. Qed.
Lemma item_id_trip (id : ItemId.t) : item_id_from_proto (item_id_to_proto id) = id.
Proof. by destruct id. Qed.
Lemma opt_turn_id_trip (id : option TurnId.t) : opt_turn_id_from_proto (opt_turn_id_to_proto id) = id.
Proof. by destruct id as [[]|]. Qed.
Lemma opt_item_id_trip (id : option ItemId.t) : item_id_from_proto <$> (item_id_to_proto <$> id) = id.
Proof. by destruct id as [[]|]. Qed.
#[local] Arguments opt_timestamp_from_proto : simpl never.
#[local] Arguments opt_timestamp_to_proto : simpl never.
#[local] Hint Rewrite timestamp_trip opt_timestamp_trip turn_id_trip item_id_trip opt_turn_id_trip opt_item_id_trip : trip.
Ltac trip := simpl; autorewrite with trip; try done.

(** ** Keys and summaries *)

(** The relay UUID is one: it is read back as it prints. *)
Definition key_ok (key : SessionKey.t) : Prop :=
  forall u, SessionKey.relay_session_uuid key = Some u -> uuid_parse_str u = Some u.

Lemma session_key_trip (key : SessionKey.t) : key_ok key -> session_key_from_proto (session_key_to_proto key) = Some key.
Proof.
  intros K. unfold session_key_from_proto. simpl. rewrite agent_kind_trip. simpl. destruct key as [d k n [u|]]; simpl in *.
  - by rewrite (K u).
  - by rewrite uuid_parse_empty.
Qed.

Definition summary_normal (s : SessionSummary.t) : SessionSummary.t :=
  SessionSummary.mk (SessionSummary.session_key s) (trim_text (SessionSummary.title s))
    (SessionKey.agent_kind (SessionSummary.session_key s))
    (trim (SessionSummary.project_display_name s)) (trim (SessionSummary.current_branch s))
    (SessionSummary.updated_at s) (SessionSummary.device_connection s) (SessionSummary.device_last_seen_at s)
    (trim (SessionSummary.degraded_reason s)) (SessionSummary.control_mode s) (SessionSummary.compatibility_state s)
    (SessionSummary.active_turn_phase s) (SessionSummary.pending_attention_count s)
    (SessionSummary.pending_attention_kinds s) (SessionSummary.queue_state s) (SessionSummary.last_turn_outcome s)
    (SessionSummary.pinned s) (SessionSummary.muted s) (SessionSummary.archived s).

Lemma summary_roundtrip (s : SessionSummary.t) (OK : key_ok (SessionSummary.session_key s)) :
  session_summary_from_proto now (session_summary_to_proto s) = Some (summary_normal s).
Proof.
  unfold session_summary_from_proto, session_summary_to_proto, summary_normal. cbn -[session_key_to_proto session_key_from_proto].
  rewrite session_key_trip by done. cbn. trip. repeat f_equal.
  etrans; [apply (omap_map_some _ _ id), attention_kind_trip|apply map_id].
Qed.

(** ** Snapshots *)

Definition queue_normal (q : QueueStatus.t) : QueueStatus.t :=
  QueueStatus.mk (QueueStatus.state q) (QueueStatus.after_turn_id q) (trim_zero (QueueStatus.accepted_runtime_revision q)).

Lemma queue_trip q : queue_status_from_proto (queue_status_to_proto q) = queue_normal q.
Proof. unfold queue_status_from_proto, queue_normal. trip. Qed.

Definition cursor_normal (c : OutputCursor.t) : OutputCursor.t :=
  OutputCursor.mk (OutputCursor.item_id c) (OutputCursor.revision c) (OutputCursor.byte_length c) (OutputCursor.is_final c)
    (OutputCursor.channel c) false.

Lemma cursor_trip c : output_cursor_from_proto (output_cursor_to_proto c) = cursor_normal c.
Proof. unfold output_cursor_from_proto, cursor_normal. trip. Qed.

Lemma current_turn_trip t : current_turn_from_proto now (current_turn_to_proto t) = t.
Proof. unfold current_turn_from_proto. trip. by destruct t. Qed.

Lemma plan_trip p : plan_from_proto (plan_to_proto p) = p.
Proof.
  destruct p as [steps]. unfold plan_from_proto, plan_to_proto. simpl. f_equal. apply map_map_id. intros [i [t] s]. trip.
Qed.

Lemma running_command_trip c : running_command_from_proto now (running_command_to_proto c) = c.
Proof. unfold running_command_from_proto. trip. by destruct c. Qed.

Definition background_normal (c : BackgroundCommand.t) : BackgroundCommand.t :=
  BackgroundCommand.mk (trim (BackgroundCommand.command_id c)) (BackgroundCommand.item_id c) (BackgroundCommand.state c)
    None (BackgroundCommand.started_at c) (BackgroundCommand.finished_at c).

Lemma background_command_trip c : background_command_from_proto now (background_command_to_proto c) = background_normal c.
Proof. unfold background_command_from_proto, background_normal. trip. Qed.

Lemma question_trip q : question_from_proto now (question_to_proto q) = q.
Proof.
  destruct q as [i [t] [d] o m f u c v]. unfold question_from_proto. trip. f_equal.
  apply map_map_id. by intros [? []].
Qed.

Definition approval_normal (a : PendingApproval.t) : PendingApproval.t :=
  PendingApproval.mk (PendingApproval.approval_id a) (PendingApproval.risk_description a) (PendingApproval.requested_action a)
    (PendingApproval.decisions a) (trim_text (PendingApproval.scope a)) (PendingApproval.turn a) (PendingApproval.created_at a)
    (PendingApproval.valid a).

Lemma approval_trip a : approval_from_proto now (approval_to_proto a) = approval_normal a.
Proof.
  destruct a as [i [r] [q] d s u c v]. unfold approval_from_proto, approval_normal. trip. f_equal.
  apply map_map_id. by intros [? []].
Qed.

Definition setting_normal (o : SettingOption.t) : SettingOption.t :=
  SettingOption.mk (SettingOption.option_id o) (SettingOption.kind o) (SettingOption.label o)
    (trim (SettingOption.current_value o)) (SettingOption.available_values o) (SettingOption.mutable o).

Lemma setting_option_trip o : setting_option_from_proto (setting_option_to_proto o) = Some (setting_normal o).
Proof.
  destruct o as [i k [l] c v m]. unfold setting_option_from_proto. cbn -[pb.SettingKind.try_from]. rewrite setting_kind_trip.
  simpl. unfold setting_normal. simpl. do 2 f_equal. apply map_map_id. by intros [? []].
Qed.

(** Zero and an empty list of prefixes stand for the default. *)
Definition limits_normal (l : TransferLimits.t) : TransferLimits.t :=
  let unless_zero (value fallback : Z) := match value with 0 => fallback | _ => value end in
  TransferLimits.mk
    (unless_zero (TransferLimits.text_inline_max_bytes l) (TransferLimits.text_inline_max_bytes TransferLimits.default))
    (unless_zero (TransferLimits.image_inline_max_bytes l) (TransferLimits.image_inline_max_bytes TransferLimits.default))
    (unless_zero (TransferLimits.pdf_range_max_bytes l) (TransferLimits.pdf_range_max_bytes TransferLimits.default))
    (unless_zero (TransferLimits.download_max_bytes l) (TransferLimits.download_max_bytes TransferLimits.default))
    (unless_zero (TransferLimits.upload_max_bytes l) (TransferLimits.upload_max_bytes TransferLimits.default))
    (unless_zero (TransferLimits.max_concurrent_per_browser l) (TransferLimits.max_concurrent_per_browser TransferLimits.default))
    (unless_zero (TransferLimits.max_concurrent_per_device l) (TransferLimits.max_concurrent_per_device TransferLimits.default))
    (match TransferLimits.previewable_mime_prefixes l with
     | [] => TransferLimits.previewable_mime_prefixes TransferLimits.default
     | prefixes => prefixes
     end).

Lemma limits_trip (l : TransferLimits.t) : transfer_limits_from_proto (transfer_limits_to_proto l) = limits_normal l.
Proof.
  assert (Z0 : forall v d : Z, (if v =? 0 then d else v) = match v with 0 => d | _ => v end) by (by intros []).
  unfold transfer_limits_from_proto, limits_normal. cbn. by rewrite !Z0.
Qed.

Lemma limits_normal_id (l : TransferLimits.t) :
  Forall (fun v => v <> 0)
    [TransferLimits.text_inline_max_bytes l; TransferLimits.image_inline_max_bytes l; TransferLimits.pdf_range_max_bytes l;
     TransferLimits.download_max_bytes l; TransferLimits.upload_max_bytes l; TransferLimits.max_concurrent_per_browser l;
     TransferLimits.max_concurrent_per_device l] ->
  TransferLimits.previewable_mime_prefixes l <> [] -> limits_normal l = l.
Proof.
  intros F P. rewrite !Forall_cons in F. destruct F as (F1 & F2 & F3 & F4 & F5 & F6 & F7 & _).
  destruct l as [a b c d e f g [|m ms]]; [done|]. unfold limits_normal. simpl in *. by destruct a, b, c, d, e, f, g.
Qed.

Definition capability_normal (c : CapabilitySet.t) : CapabilitySet.t :=
  CapabilitySet.mk (CapabilitySet.control_mode c) (CapabilitySet.compatibility_state c) (trim (CapabilitySet.codex_version c)) []
    (map setting_normal (CapabilitySet.settings c)) (limits_normal (CapabilitySet.transfer_limits c)).

Lemma capability_set_trip c : capability_set_from_proto (capability_set_to_proto c) = capability_normal c.
Proof.
  unfold capability_set_from_proto, capability_normal. cbn -[transfer_limits_from_proto transfer_limits_to_proto]. trip. rewrite limits_trip. f_equal.
  apply omap_map_some, setting_option_trip.
Qed.

Definition snapshot_normal (s : RuntimeSnapshot.t) : RuntimeSnapshot.t :=
  RuntimeSnapshot.mk (RuntimeSnapshot.session_key s) (RuntimeSnapshot.runtime_revision s) (RuntimeSnapshot.current_turn s)
    (RuntimeSnapshot.plan s) (RuntimeSnapshot.pending_questions s) (map approval_normal (RuntimeSnapshot.pending_approvals s))
    (RuntimeSnapshot.running_commands s) (map background_normal (RuntimeSnapshot.background_commands s))
    (RuntimeSnapshot.background_command_count s) (queue_normal (RuntimeSnapshot.queue s))
    (capability_normal (RuntimeSnapshot.capabilities s)) (map cursor_normal (RuntimeSnapshot.recent_output_cursors s)).

(** C16. A runtime snapshot read back is the one sent, up to what the messages do not carry: the text of
    background commands and the mark that a final output is unavailable come back as absent, the operations of the
    capabilities as none, an empty string or zero as absent where the domain has an option (the command id of a background command, the
    scope of an approval, the accepted revision of the queue, the version, the current value of a setting), and a transfer limit of zero or an empty
    list of previewable types as the default one.  All else comes back exactly: revision, turn, plan, questions, running commands, and the other fields of the rest. *)
Theorem snapshot_roundtrip (s : RuntimeSnapshot.t) :
  runtime_snapshot_from_proto now (runtime_snapshot_to_proto s) (RuntimeSnapshot.session_key s) = snapshot_normal s.
Proof.
  unfold runtime_snapshot_from_proto, snapshot_normal. simpl.
  rewrite plan_trip, queue_trip, capability_set_trip, (map_map_id _ _ _ question_trip),
    (map_map_normal _ _ _ _ approval_trip), (map_map_id _ _ _ running_command_trip),
    (map_map_normal _ _ _ _ background_command_trip), (map_map_normal _ _ _ _ cursor_trip).
  f_equal. destruct (RuntimeSnapshot.current_turn s); simpl; [by rewrite current_turn_trip|done].
Qed.

(** ** Items and history *)

Definition content_normal (c : ItemContent.t) : ItemContent.t :=
  match c with
  | ItemContent.ToolCall tool_call_id name status summary duration_ms =>
      ItemContent.ToolCall tool_call_id name status (trim_text summary) duration_ms
  | ItemContent.CommandStatus command_id _ _ _ duration_ms =>
      ItemContent.CommandStatus command_id CommandStatusState.Unknown None None duration_ms
  | ItemContent.TokenUsage input output used window => ItemContent.TokenUsage input output (trim_zero used) (trim_zero window)
  | other => other
  end.

Definition opaque (c : ItemContent.t) : bool := match c with ItemContent.Opaque _ => true | _ => false end.

Definition item_normal (i : Item.t) : Item.t :=
  Item.mk (Item.item_id i) (Item.turn i) (Item.revision i) (Item.created_at i) (content_normal (Item.content i)).

Lemma content_trip (c : ItemContent.t) (p : pb.Item.Content) :
  content_to_proto c = Some p -> content_from_proto (Some p) = content_normal c.
Proof.
  destruct c; simpl; intros [= <-]; simpl; trip; rewrite ?plan_trip;
    try (by repeat match goal with x : OutputText.t |- _ => destruct x end).
  f_equal. apply map_map_id. intros []. trip.
Qed.

Lemma item_to_proto_cases (i : Item.t) :
  match item_to_proto i with
  | Some p => opaque (Item.content i) = false /\ item_from_proto now p = item_normal i
  | None => opaque (Item.content i) = true
  end.
Proof.
  unfold item_to_proto. destruct (content_to_proto (Item.content i)) as [p|] eqn:E.
  - simpl. split; [by destruct (Item.content i)|]. unfold item_from_proto, item_normal. cbn -[content_from_proto].
    rewrite (content_trip _ _ E). trip.
  - simpl. by destruct (Item.content i).
Qed.

Definition entry_normal (e : HistoryEntry.t) : HistoryEntry.t :=
  HistoryEntry.mk (HistoryEntry.turn e) (item_normal (HistoryEntry.item e)).

Definition expressible (e : HistoryEntry.t) : bool := negb (opaque (Item.content (HistoryEntry.item e))).

(** A page of history goes through whole and in order, except for its opaque items, and reading it
    back never fails for want of an item. *)
Theorem history_roundtrip (page : HistoryPage.t) :
  history_page_from_proto now (history_page_to_proto page)
  = Some (HistoryPage.mk (map entry_normal (List.filter expressible (HistoryPage.entries page)))
            (trim (HistoryPage.next_cursor page)) (HistoryPage.has_more page)).
Proof.
  destruct page as [entries cursor more]. unfold history_page_from_proto, history_page_to_proto, filter_map.
  cbn [pb.HistoryPage.entries HistoryPage.entries pb.HistoryPage.next_cursor HistoryPage.next_cursor].
  erewrite mapM_omap; [reflexivity|]. intros e. cbv beta. unfold expressible, entry_normal.
  pose proof (item_to_proto_cases (HistoryEntry.item e)) as C. destruct (item_to_proto _) as [p|]; simpl.
  - destruct C as [-> ->]. by rewrite turn_id_trip.
  - by rewrite C.
Qed.
End Trips.

(** ** What is on the wire

    The messages of [proto/agent_console/v1], field by field, with the numbers the files give to the variants of their enums. *)

Definition present {A : Type} (o : option A) : bool := match o with Some _ => true | None => false end.

Definition phase_number (p : ActiveTurnPhase.t) : Z :=
  match p with ActiveTurnPhase.Idle => 1 | ActiveTurnPhase.Running => 2 | ActiveTurnPhase.Finishing => 3 end.
(** 0, unspecified, when there is no outcome yet. *)
Definition outcome_number (o : option LastTurnOutcome.t) : Z :=
  match o with
  | None => 0
  | Some LastTurnOutcome.Completed => 1
  | Some LastTurnOutcome.Failed => 2
  | Some LastTurnOutcome.Interrupted => 3
  | Some LastTurnOutcome.Unknown => 4
  end.
Definition channel_number (c : OutputChannel.t) : Z :=
  match c with OutputChannel.Stdout => 1 | OutputChannel.Stderr => 2 | OutputChannel.Combined => 3 end.
Definition step_number (s : PlanStepStatus.t) : Z :=
  match s with PlanStepStatus.Pending => 1 | PlanStepStatus.InProgress => 2 | PlanStepStatus.Completed => 3 end.
Definition background_number (s : BackgroundCommandState.t) : Z :=
  match s with
  | BackgroundCommandState.Running => 1
  | BackgroundCommandState.Completed => 2
  | BackgroundCommandState.Failed => 3
  | BackgroundCommandState.Stopped => 4
  | BackgroundCommandState.Unknown => 5
  end.
(** The state of a command in the history; an interrupted one has no number of its own. *)
Definition command_number (s : CommandStatusState.t) : Z :=
  match s with
  | CommandStatusState.Running => 1
  | CommandStatusState.Completed => 2
  | CommandStatusState.Failed => 3
  | CommandStatusState.Interrupted | CommandStatusState.Unknown => 5
  end.
(** 0, unspecified, for an unknown change. *)
Definition change_number (k : FileChangeKind.t) : Z :=
  match k with
  | FileChangeKind.Unknown => 0
  | FileChangeKind.Added => 1
  | FileChangeKind.Modified => 2
  | FileChangeKind.Deleted => 3
  | FileChangeKind.Renamed => 4
  end.
Definition attention_number (k : PendingAttentionKind.t) : Z :=
  match k with PendingAttentionKind.UserQuestion => 1 | PendingAttentionKind.RiskApproval => 2 end.
Definition queue_number (s : QueueState.t) : Z := match s with QueueState.Empty => 1 | QueueState.Queued => 2 | QueueState.Paused => 3 end.
Definition connection_number (c : DeviceConnection.t) : Z :=
  match c with DeviceConnection.Connecting => 1 | DeviceConnection.Online => 2 | DeviceConnection.Degraded => 3 | DeviceConnection.Offline => 4 end.
Definition control_number (m : ControlMode.t) : Z :=
  match m with ControlMode.FullControl => 1 | ControlMode.LimitedControl => 2 | ControlMode.ReadOnly => 3 | ControlMode.Unavailable => 4 end.
Definition compatibility_number (s : CompatibilityState.t) : Z :=
  match s with CompatibilityState.Verified => 1 | CompatibilityState.Degraded => 2 | CompatibilityState.Unsupported => 3 end.
Definition agent_number (k : AgentKind.t) : Z := match k with AgentKind.CodexDesktop => 1 | AgentKind.ZcodeDesktop => 2 end.
Definition setting_number (k : SettingKind.t) : Z :=
  match k with
  | SettingKind.Model => 1
  | SettingKind.ReasoningEffort => 2
  | SettingKind.ServiceTier => 3
  | SettingKind.PermissionMode => 4
  | SettingKind.CollaborationMode => 5
  end.
(** Queueing is three operations of the protocol: set, replace and cancel. *)
Definition operation_numbers (o : Operation.t) : list Z :=
  match o with
  | Operation.CreateSession => [1]
  | Operation.StartTurn => [2]
  | Operation.QueueNextTurn => [3; 4; 5]
  | Operation.SteerTurn => [6]
  | Operation.InterruptTurn => [7]
  | Operation.AnswerQuestion => [8]
  | Operation.SubmitApproval => [9]
  | Operation.UpdateSettings => [10]
  | Operation.RenameSession => [11]
  | Operation.ArchiveSession => [12]
  | Operation.UnarchiveSession => [13]
  | Operation.ForkSession => [14]
  | Operation.StopBackgroundCommand => [15]
  | Operation.StopAllBackgroundCommands => [16]
  end.

(** A text that is not there is empty, a number that is not there is 0. *)
Definition text_says (s : option string) (w : string) : Prop := match s with Some s => w = s | None => w = "" end.
Definition number_says (n : option Z) (w : Z) : Prop := match n with Some n => w = n | None => w = 0 end.

Definition turn_says (i : TurnId.t) (w : option pb.TurnId.t) : Prop :=
  exists p, w = Some p /\ pb.TurnId.id p = TurnId.id i /\ pb.TurnId.synthetic p = TurnId.synthetic_ i.
Definition item_id_says (i : ItemId.t) (w : option pb.ItemId.t) : Prop :=
  exists p, w = Some p /\ pb.ItemId.id p = ItemId.id i /\ pb.ItemId.synthetic p = ItemId.synthetic_ i.
Definition opt_says {A B : Type} (says : A -> option B -> Prop) (x : option A) (w : option B) : Prop :=
  match x with Some x => says x w | None => w = None end.

Definition plan_says (p : Plan.t) (w : pb.Plan.t) : Prop :=
  Forall2 (fun s w => pb.PlanStep.step_id w = PlanStep.step_id s /\ pb.PlanStep.title w = OutputText.text (PlanStep.title s) /\
                      pb.PlanStep.status w = step_number (PlanStep.status s)) (Plan.steps p) (pb.Plan.steps w).

Definition option_says (o : SettingOption.t) (w : pb.SettingOption.t) : Prop :=
  pb.SettingOption.option_id w = SettingOption.option_id o /\ pb.SettingOption.kind w = setting_number (SettingOption.kind o) /\
  pb.SettingOption.label w = OutputText.text (SettingOption.label o) /\ text_says (SettingOption.current_value o) (pb.SettingOption.current_value w) /\
  Forall2 (fun v w => pb.SettingValue.value w = SettingValue.value v /\ pb.SettingValue.label w = OutputText.text (SettingValue.label v))
    (SettingOption.available_values o) (pb.SettingOption.available_values w) /\
  pb.SettingOption.mutable w = SettingOption.mutable o.

Definition limits_say (l : TransferLimits.t) (w : pb.TransferLimits.t) : Prop :=
  pb.TransferLimits.text_inline_max_bytes w = TransferLimits.text_inline_max_bytes l /\
  pb.TransferLimits.image_inline_max_bytes w = TransferLimits.image_inline_max_bytes l /\
  pb.TransferLimits.pdf_range_max_bytes w = TransferLimits.pdf_range_max_bytes l /\
  pb.TransferLimits.download_max_bytes w = TransferLimits.download_max_bytes l /\
  pb.TransferLimits.upload_max_bytes w = TransferLimits.upload_max_bytes l /\
  pb.TransferLimits.max_concurrent_per_browser w = TransferLimits.max_concurrent_per_browser l /\
  pb.TransferLimits.max_concurrent_per_device w = TransferLimits.max_concurrent_per_device l /\
  pb.TransferLimits.previewable_mime_prefixes w = TransferLimits.previewable_mime_prefixes l.

Definition capabilities_say (c : CapabilitySet.t) (w : pb.CapabilitySnapshot.t) : Prop :=
  pb.CapabilitySnapshot.control_mode w = control_number (CapabilitySet.control_mode c) /\
  pb.CapabilitySnapshot.compatibility_state w = compatibility_number (CapabilitySet.compatibility_state c) /\
  text_says (CapabilitySet.codex_version c) (pb.CapabilitySnapshot.codex_version w) /\
  pb.CapabilitySnapshot.supported_operations w = concat (map operation_numbers (CapabilitySet.supported_operations c)) /\
  Forall2 option_says (CapabilitySet.settings c) (pb.CapabilitySnapshot.settings w) /\
  exists l, pb.CapabilitySnapshot.transfer_limits w = Some l /\ limits_say (CapabilitySet.transfer_limits c) l.

Section Said.
Context `{ProtoCrates}.

Definition time_says (d : DateTime) (w : option pb.Timestamp.t) : Prop :=
  exists p, w = Some p /\ pb.Timestamp.seconds p = dt_timestamp d /\ pb.Timestamp.nanos p = dt_subsec_nanos d.

Definition summary_says (s : SessionSummary.t) (w : pb.SessionSummary.t) : Prop :=
  (exists k, pb.SessionSummary.session_key w = Some k /\ pb.SessionKey.device_id k = SessionKey.device_id (SessionSummary.session_key s) /\
     pb.SessionKey.agent_kind k = agent_number (SessionKey.agent_kind (SessionSummary.session_key s)) /\
     pb.SessionKey.native_session_id k = SessionKey.native_session_id (SessionSummary.session_key s) /\
     text_says (SessionKey.relay_session_uuid (SessionSummary.session_key s)) (pb.SessionKey.relay_session_uuid k)) /\
  text_says (OutputText.text <$> SessionSummary.title s) (pb.SessionSummary.title w) /\
  pb.SessionSummary.agent_kind w = agent_number (SessionKey.agent_kind (SessionSummary.session_key s)) /\
  text_says (SessionSummary.project_display_name s) (pb.SessionSummary.project_display_name w) /\
  text_says (SessionSummary.current_branch s) (pb.SessionSummary.current_branch w) /\
  opt_says time_says (SessionSummary.updated_at s) (pb.SessionSummary.updated_at w) /\
  pb.SessionSummary.device_connection w = connection_number (SessionSummary.device_connection s) /\
  opt_says time_says (SessionSummary.device_last_seen_at s) (pb.SessionSummary.device_last_seen_at w) /\
  text_says (SessionSummary.degraded_reason s) (pb.SessionSummary.degraded_reason w) /\
  pb.SessionSummary.control_mode w = control_number (SessionSummary.control_mode s) /\
  pb.SessionSummary.compatibility_state w = compatibility_number (SessionSummary.compatibility_state s) /\
  pb.SessionSummary.active_turn_phase w = phase_number (SessionSummary.active_turn_phase s) /\
  pb.SessionSummary.pending_attention_count w = SessionSummary.pending_attention_count s /\
  pb.SessionSummary.pending_attention_kinds w = map attention_number (SessionSummary.pending_attention_kinds s) /\
  pb.SessionSummary.queue_state w = queue_number (SessionSummary.queue_state s) /\
  pb.SessionSummary.last_turn_outcome w = outcome_number (Some (SessionSummary.last_turn_outcome s)) /\
  pb.SessionSummary.pinned w = SessionSummary.pinned s /\ pb.SessionSummary.muted w = SessionSummary.muted s /\
  pb.SessionSummary.archived w = SessionSummary.archived s.

Definition question_says (q : PendingQuestion.t) (w : pb.PendingAttentionQuestion.t) : Prop :=
  pb.PendingAttentionQuestion.question_id w = PendingQuestion.question_id q /\
  pb.PendingAttentionQuestion.title w = OutputText.text (PendingQuestion.title q) /\
  pb.PendingAttentionQuestion.description w = OutputText.text (PendingQuestion.description q) /\
  Forall2 (fun o w => pb.QuestionOption.option_id w = QuestionOption.option_id o /\ pb.QuestionOption.label w = OutputText.text (QuestionOption.label o))
    (PendingQuestion.options q) (pb.PendingAttentionQuestion.options w) /\
  pb.PendingAttentionQuestion.allow_multiple w = PendingQuestion.allow_multiple q /\
  pb.PendingAttentionQuestion.allow_free_text w = PendingQuestion.allow_free_text q /\
  opt_says turn_says (PendingQuestion.turn q) (pb.PendingAttentionQuestion.turn w) /\
  opt_says time_says (PendingQuestion.created_at q) (pb.PendingAttentionQuestion.created_at w) /\
  pb.PendingAttentionQuestion.valid w = PendingQuestion.valid q.

Definition approval_says (a : PendingApproval.t) (w : pb.PendingAttentionApproval.t) : Prop :=
  pb.PendingAttentionApproval.approval_id w = PendingApproval.approval_id a /\
  pb.PendingAttentionApproval.risk_description w = OutputText.text (PendingApproval.risk_description a) /\
  pb.PendingAttentionApproval.requested_action w = OutputText.text (PendingApproval.requested_action a) /\
  Forall2 (fun d w => pb.ApprovalDecision.decision_id w = ApprovalDecision.decision_id d /\ pb.ApprovalDecision.label w = OutputText.text (ApprovalDecision.label d))
    (PendingApproval.decisions a) (pb.PendingAttentionApproval.decisions w) /\
  text_says (OutputText.text <$> PendingApproval.scope a) (pb.PendingAttentionApproval.scope w) /\
  opt_says turn_says (PendingApproval.turn a) (pb.PendingAttentionApproval.turn w) /\
  opt_says time_says (PendingApproval.created_at a) (pb.PendingAttentionApproval.created_at w) /\
  pb.PendingAttentionApproval.valid w = PendingApproval.valid a.

Definition background_says (b : BackgroundCommand.t) (w : pb.BackgroundCommand.t) : Prop :=
  text_says (BackgroundCommand.command_id b) (pb.BackgroundCommand.command_id w) /\
  opt_says item_id_says (BackgroundCommand.item_id b) (pb.BackgroundCommand.item_id w) /\
  pb.BackgroundCommand.state w = background_number (BackgroundCommand.state b) /\
  opt_says time_says (BackgroundCommand.started_at b) (pb.BackgroundCommand.started_at w) /\
  opt_says time_says (BackgroundCommand.finished_at b) (pb.BackgroundCommand.finished_at w).

(** The content of an item; what it leaves out is empty. *)
Definition content_says (c : ItemContent.t) (w : pb.Item.Content) : Prop :=
  match c, w with
  | ItemContent.UserMessage text, pb.Item.UserMessage m => pb.UserMessage.text m = OutputText.text text
  | ItemContent.AssistantMessage text final, pb.Item.AssistantMessage m =>
      pb.AssistantMessage.text m = OutputText.text text /\ pb.AssistantMessage.final m = final
  | ItemContent.ReasoningSummary text, pb.Item.ReasoningSummary m => pb.ReasoningSummary.text m = OutputText.text text
  | ItemContent.Plan plan, pb.Item.Plan p => plan_says plan p
  | ItemContent.ToolCall id name status summary duration, pb.Item.ToolCall t =>
      pb.ToolCall.tool_call_id t = id /\ pb.ToolCall.name t = name /\ pb.ToolCall.status t = step_number status /\
      text_says (OutputText.text <$> summary) (pb.ToolCall.summary t) /\ pb.ToolCall.duration_ms t = duration
  | ItemContent.CommandStatus id state _ _ duration, pb.Item.CommandStatus s =>
      pb.CommandStatusItem.command_id s = id /\ pb.CommandStatusItem.state s = command_number state /\
      pb.CommandStatusItem.started_at s = None /\ pb.CommandStatusItem.finished_at s = None /\ pb.CommandStatusItem.duration_ms s = duration
  | ItemContent.FileChange changes, pb.Item.FileChange s =>
      Forall2 (fun c w => pb.FileChange.path w = FileChange.path c /\ pb.FileChange.kind w = change_number (FileChange.change c) /\
                          pb.FileChange.new_path w = "" /\ pb.FileChange.inline_diff w = [] /\ pb.FileChange.diff_truncated w = false)
        changes (pb.FileChangeSet.files s)
  | ItemContent.SubAgentStatus turn label phase outcome, pb.Item.SubagentStatus s =>
      opt_says turn_says turn (pb.SubAgentStatus.subagent_turn s) /\ pb.SubAgentStatus.parent_turn s = None /\ pb.SubAgentStatus.label s = label /\
      pb.SubAgentStatus.phase s = phase_number phase /\ pb.SubAgentStatus.outcome s = outcome_number outcome
  | ItemContent.Question id title, pb.Item.Question q =>
      q = pb.PendingAttentionQuestion.mk id (OutputText.text title) "" [] false false None None false
  | ItemContent.Approval id action, pb.Item.Approval a =>
      a = pb.PendingAttentionApproval.mk id "" (OutputText.text action) [] "" None None false
  | ItemContent.TokenUsage input output used window, pb.Item.TokenUsage u =>
      pb.TokenUsage.input_tokens u = input /\ pb.TokenUsage.output_tokens u = output /\
      number_says used (pb.TokenUsage.context_used_tokens u) /\ number_says window (pb.TokenUsage.context_window_tokens u)
  | _, _ => False
  end.

Definition item_says (i : Item.t) (w : pb.Item.t) : Prop :=
  item_id_says (Item.item_id i) (pb.Item.item_id w) /\ opt_says turn_says (Item.turn i) (pb.Item.turn w) /\
  pb.Item.revision w = Item.revision i /\ opt_says time_says (Item.created_at i) (pb.Item.created_at w) /\
  exists c, pb.Item.content w = Some c /\ content_says (Item.content i) c.

Definition event_says (e : DomainEvent.t) (w : pb.DomainEvent.Event) : Prop :=
  match e, w with
  | DomainEvent.TurnLifecycle turn phase outcome finished_at, pb.DomainEvent.TurnLifecycle l =>
      turn_says turn (pb.TurnLifecycle.turn l) /\ pb.TurnLifecycle.phase l = phase_number phase /\
      pb.TurnLifecycle.outcome l = outcome_number outcome /\ opt_says time_says finished_at (pb.TurnLifecycle.finished_at l)
  | DomainEvent.ItemUpsert item, pb.DomainEvent.ItemUpsert u => exists i, pb.ItemUpsert.item u = Some i /\ item_says item i
  | DomainEvent.OutputAppend id offset bytes channel, pb.DomainEvent.OutputAppend a =>
      item_id_says id (pb.OutputAppend.item_id a) /\ pb.OutputAppend.expected_offset a = offset /\
      pb.OutputAppend.bytes a = OutputBytes.bytes bytes /\ pb.OutputAppend.channel a = channel_number channel
  | DomainEvent.OutputReplace id revision bytes channel, pb.DomainEvent.OutputReplace r =>
      item_id_says id (pb.OutputReplace.item_id r) /\ pb.OutputReplace.revision r = revision /\
      pb.OutputReplace.content r = Some (pb.OutputReplace.Bytes (OutputBytes.bytes bytes)) /\ pb.OutputReplace.channel r = channel_number channel
  | DomainEvent.OutputFinal id revision byte_length channel _, pb.DomainEvent.OutputFinal f =>
      item_id_says id (pb.OutputFinal.item_id f) /\ pb.OutputFinal.revision f = revision /\
      pb.OutputFinal.byte_length f = byte_length /\ pb.OutputFinal.channel f = channel_number channel
  | DomainEvent.SessionSummaryChanged summary, pb.DomainEvent.SessionSummaryChanged s => summary_says summary s
  | DomainEvent.PendingAttentionAdded (PendingAttention.Question q), pb.DomainEvent.PendingAttentionAdded a =>
      exists w, pb.PendingAttentionAdded.attention a = Some (pb.PendingAttentionAdded.Question w) /\ question_says q w
  | DomainEvent.PendingAttentionAdded (PendingAttention.Approval x), pb.DomainEvent.PendingAttentionAdded a =>
      exists w, pb.PendingAttentionAdded.attention a = Some (pb.PendingAttentionAdded.Approval w) /\ approval_says x w
  | DomainEvent.PendingAttentionRemoved kind native_id turn, pb.DomainEvent.PendingAttentionRemoved r =>
      pb.PendingAttentionRemoved.kind r = attention_number kind /\ pb.PendingAttentionRemoved.native_id r = native_id /\
      opt_says turn_says turn (pb.PendingAttentionRemoved.turn r)
  | DomainEvent.QueueStateChanged queue, pb.DomainEvent.QueueStateChanged q =>
      exists w, pb.QueueStateChanged.queue q = Some w /\ pb.QueueStatus.state w = queue_number (QueueStatus.state queue) /\
        opt_says turn_says (QueueStatus.after_turn_id queue) (pb.QueueStatus.after_turn_id w) /\
        number_says (QueueStatus.accepted_runtime_revision queue) (pb.QueueStatus.accepted_runtime_revision w)
  | DomainEvent.BackgroundCommandChanged command, pb.DomainEvent.BackgroundCommandChanged b =>
      exists w, pb.BackgroundCommandChanged.command b = Some w /\ background_says command w
  | DomainEvent.CapabilityChanged capabilities, pb.DomainEvent.CapabilityChanged c =>
      exists w, pb.CapabilityChanged.capabilities c = Some w /\ capabilities_say capabilities w
  | _, _ => False
  end.
End Said.

Lemma Forall2_map_says {A B} (says : A -> B -> Prop) (f : A -> B) (l : list A) : (forall x, says x (f x)) -> Forall2 says l (map f l).
Proof. intros E. induction l as [|x l IH]; constructor; auto. Qed.

Lemma phase_said x : pb.ActiveTurnPhase.as_i32 (turn_phase_to_proto x) = phase_number x.
Proof. by destruct x. Qed.
Lemma outcome_said x : opt_outcome_to_proto x = outcome_number x.
Proof. by destruct x as [[]|]. Qed.
Lemma last_outcome_said x : pb.LastTurnOutcome.as_i32 (turn_outcome_to_proto x) = outcome_number (Some x).
Proof. by destruct x. Qed.
Lemma channel_said x : pb.OutputChannel.as_i32 (output_channel_to_proto x) = channel_number x.
Proof. by destruct x. Qed.
Lemma step_said x : pb.PlanStepStatus.as_i32 (plan_step_status_to_proto x) = step_number x.
Proof. by destruct x. Qed.
Lemma background_said x : pb.BackgroundCommandState.as_i32 (background_state_to_proto x) = background_number x.
Proof. by destruct x. Qed.
Lemma command_said x : pb.BackgroundCommandState.as_i32 (background_state_to_proto (command_state x)) = command_number x.
Proof. by destruct x. Qed.
Lemma change_said x : pb.FileChangeKind.as_i32 (file_change_kind_to_proto x) = change_number x.
Proof. by destruct x. Qed.
Lemma attention_said x : pb.PendingAttentionKind.as_i32 (attention_kind_to_proto x) = attention_number x.
Proof. by destruct x. Qed.
Lemma queue_said x : pb.QueueState.as_i32 (queue_state_to_proto x) = queue_number x.
Proof. by destruct x. Qed.
Lemma connection_said x : pb.DeviceConnection.as_i32 (device_connection_to_proto x) = connection_number x.
Proof. by destruct x. Qed.
Lemma control_said x : pb.ControlMode.as_i32 (control_mode_to_proto x) = control_number x.
Proof. by destruct x. Qed.
Lemma compatibility_said x : pb.CompatibilityState.as_i32 (compatibility_state_to_proto x) = compatibility_number x.
Proof. by destruct x. Qed.
Lemma agent_said x : AgentKind.proto_value x = agent_number x.
Proof. by destruct x. Qed.
Lemma setting_said x : pb.SettingKind.as_i32 (setting_kind_to_proto x) = setting_number x.
Proof. by destruct x. Qed.
Lemma operations_said l : concat (map announced l) = concat (map operation_numbers l).
Proof. f_equal. apply map_ext. by intros []. Qed.
Lemma attentions_said l : map (fun k => pb.PendingAttentionKind.as_i32 (attention_kind_to_proto k)) l = map attention_number l.
Proof. apply map_ext, attention_said. Qed.

Lemma text_said s : text_says s (or_empty s).
Proof. by destruct s. Qed.
Lemma output_text_said s : text_says (OutputText.text <$> s) (text_or_empty s).
Proof. by destruct s. Qed.
Lemma number_said n : number_says n (default 0 n).
Proof. by destruct n. Qed.
Lemma turn_said i : turn_says i (Some (turn_id_to_proto i)).
Proof. by eexists. Qed.
Lemma opt_turn_said i : opt_says turn_says i (opt_turn_id_to_proto i).
Proof. destruct i; [by eexists|done]. Qed.
Lemma item_id_said i : item_id_says i (Some (item_id_to_proto i)).
Proof. by eexists. Qed.
Lemma opt_item_id_said i : opt_says item_id_says i (item_id_to_proto <$> i).
Proof. destruct i; [by eexists|done]. Qed.

Create HintDb said.
#[export] Hint Resolve phase_said outcome_said last_outcome_said channel_said step_said background_said command_said change_said attention_said queue_said
  connection_said control_said compatibility_said agent_said setting_said operations_said attentions_said text_said output_text_said number_said
  turn_said opt_turn_said item_id_said opt_item_id_said : said.

#[local] Arguments opt_outcome_to_proto : simpl never.
#[local] Arguments opt_turn_id_to_proto : simpl never.
#[local] Arguments opt_timestamp_to_proto : simpl never.

Section Sent.
Context `{ProtoCrates}.
Variable now : DateTime.

Lemma opt_time_said d : opt_says time_says d (opt_timestamp_to_proto d).
Proof. destruct d; [by eexists|done]. Qed.
#[local] Hint Resolve opt_time_said : said.
Ltac said := simpl; split_and?; auto with said.

Lemma plan_said (p : Plan.t) : plan_says p (plan_to_proto p).
Proof. apply Forall2_map_says. intros s. said. Qed.

Lemma option_said (o : SettingOption.t) : option_says o (setting_option_to_proto o).
Proof. unfold option_says. said. apply Forall2_map_says. by intros v. Qed.

Lemma capabilities_said (c : CapabilitySet.t) : capabilities_say c (capability_set_to_proto c).
Proof. unfold capabilities_say. said; [apply Forall2_map_says, option_said|by eexists]. Qed.

Lemma summary_said (s : SessionSummary.t) : summary_says s (session_summary_to_proto s).
Proof. unfold summary_says. said. eexists. split; [reflexivity|]. said. Qed.

Lemma question_said (q : PendingQuestion.t) : question_says q (question_to_proto q).
Proof. unfold question_says. said. apply Forall2_map_says. by intros o. Qed.

Lemma approval_said (a : PendingApproval.t) : approval_says a (approval_to_proto a).
Proof. unfold approval_says. said. apply Forall2_map_says. by intros o. Qed.

Lemma background_command_said (b : BackgroundCommand.t) : background_says b (background_command_to_proto b).
Proof. unfold background_says. said. Qed.

Lemma content_said (c : ItemContent.t) (w : pb.Item.Content) : content_to_proto c = Some w -> content_says c w.
Proof.
  destruct c; cbn [content_to_proto]; intros [= <-]; cbn [content_says]; said; [apply plan_said|].
  apply Forall2_map_says. intros f. said.
Qed.

Lemma item_said (i : Item.t) (w : pb.Item.t) : item_to_proto i = Some w -> item_says i w.
Proof.
  unfold item_to_proto. destruct (content_to_proto _) as [c|] eqn:E; simpl; [|done]. intros [= <-]. unfold item_says. said.
  exists c. split; [done|]. by apply content_said.
Qed.


(** Only an opaque item stays behind: every other event is sent. *)
Theorem event_sent_unless_opaque (e : DomainEvent.t) :
  domain_event_to_proto now e = None <->
  exists item, e = DomainEvent.ItemUpsert item /\ exists native_type, Item.content item = ItemContent.Opaque native_type.
Proof.
  unfold domain_event_to_proto. split.
  - destruct e as [|item| | | | | | | | |]; simpl; try done. intros E. exists item. split; [done|].
    unfold item_to_proto in E. destruct (Item.content item); try done. by eexists.
  - intros (item & -> & t & E). simpl. unfold item_to_proto. by rewrite E.
Qed.

(** ** Commands *)

(** An operation a command may carry is announced exactly when the capability behind it is there. *)
Lemma announced_iff (ops : list Operation.t) (o : pb.Operation.t) (op : Operation.t) :
  command_operation_from_proto o = Ok op ->
  pb.Operation.as_i32 o ∈ concat (map announced ops) <-> op ∈ ops.
Proof.
  intros C. induction ops as [|x ops IH]; simpl; [split; intros []%not_elem_of_nil|].
  rewrite elem_of_app, IH, elem_of_cons. apply or_iff_compat_r.
  destruct o; simplify_eq/=; destruct x; simpl; rewrite ?elem_of_cons, ?elem_of_nil; intuition (congruence || lia || done).
Qed.

Definition queue_family (o : pb.Operation.t) : bool :=
  bool_decide (o ∈ [pb.Operation.QueueSet; pb.Operation.QueueReplace; pb.Operation.QueueCancel]).

Lemma accepted_operation (p : pb.CommandRequest.t) (caps : CapabilitySet.t) (r : CommandRequest.t) :
  command_request_from_proto p caps = Ok r ->
  exists o, pb.Operation.try_from (pb.CommandRequest.operation p) = Some o /\
    command_operation_from_proto o = Ok (CommandRequest.operation r).
Proof.
  unfold command_request_from_proto. intros E.
  apply res_bind_ok in E as (id & _ & E). apply res_bind_ok in E as (o & O & E). apply ok_or_ok in O.
  apply res_bind_ok in E as (k & _ & E). apply res_bind_ok in E as (pl & _ & E). apply res_bind_ok in E as (op & C & E).
  injection E as <-. by exists o.
Qed.

Lemma try_from_as_i32 (z : Z) (o : pb.Operation.t) : pb.Operation.try_from z = Some o -> z = pb.Operation.as_i32 o.
Proof.
  unfold pb.Operation.try_from. destruct (list_find _ _) as [[i x]|] eqn:E; simpl; [|done]. intros [= <-].
  by apply list_find_Some in E as (_ & -> & _).
Qed.

(** What the capabilities that are announced to the browser promise is what the gateway lets
    through: a command of a Codex session outside the queue family passes the gate when the number
    of its operation is among those the current capabilities announce, and is refused otherwise. *)
Theorem gate_matches_announcement (p : pb.CommandRequest.t) (caps0 : CapabilitySet.t) (r : CommandRequest.t)
    (k : prog (res BridgeError.t Submission.t))
    (Accepted : command_request_from_proto p caps0 = Ok r)
    (Codex : SessionKey.agent_kind (CommandRequest.session_key r) = AgentKind.CodexDesktop)
    (NotQueue : CommandRequest.operation r <> Operation.QueueNextTurn) :
  exists decide_, gate r k = Act Capabilities decide_ /\
    forall caps : CapabilitySet.t,
      if bool_decide (pb.CommandRequest.operation p ∈ pb.CapabilitySnapshot.supported_operations (capability_set_to_proto caps))
      then decide_ caps = k
      else exists err, decide_ caps = Ret (Err err) /\
             BridgeError.code err = if bool_decide (CapabilitySet.control_mode caps = ControlMode.ReadOnly)
                                    then StableErrorCode.ControlReadOnly else StableErrorCode.CapabilityUnsupported.
Proof.
  apply accepted_operation in Accepted as (o & O & C). apply try_from_as_i32 in O.
  unfold gate. rewrite Codex, (bool_decide_eq_false_2 (AgentKind.CodexDesktop = _)) by done. simpl.
  rewrite bool_decide_eq_false_2 by done. eexists. split; [reflexivity|]. intros caps. cbv beta.
  rewrite O. unfold capability_set_to_proto, CapabilitySet.supports. cbn [pb.CapabilitySnapshot.supported_operations].
  rewrite (bool_decide_ext _ _ (announced_iff (CapabilitySet.supported_operations caps) o _ C)).
  repeat case_bool_decide; try done; by eexists.
Qed.

(** A request of the queue family passes the gate whatever its payload is. *)
Lemma queue_operation_skips_gate (p : pb.CommandRequest.t) (caps : CapabilitySet.t) (r : CommandRequest.t) (o : pb.Operation.t)
    (k : prog (res BridgeError.t Submission.t)) :
  command_request_from_proto p caps = Ok r ->
  SessionKey.agent_kind (CommandRequest.session_key r) = AgentKind.CodexDesktop ->
  pb.Operation.try_from (pb.CommandRequest.operation p) = Some o -> queue_family o = true ->
  gate r k = k.
Proof.
  intros Ok' Codex O Q. apply accepted_operation in Ok' as (o' & O' & C). rewrite O in O'. injection O' as <-.
  assert (CommandRequest.operation r = Operation.QueueNextTurn) as E.
  { destruct o; try done; by injection C. }
  unfold gate. by rewrite Codex, E.
Qed.

(** ** Errors *)

(** The reason a request is refused, in the order of the checks; [None] when it is not. *)
Definition refusal (p : pb.CommandRequest.t) (caps : CapabilitySet.t) : option StableErrorCode.t :=
  match uuid_parse_str (pb.CommandRequest.request_id p) with
  | None => Some StableErrorCode.InternalError
  | Some _ =>
      match pb.Operation.try_from (pb.CommandRequest.operation p), pb.CommandRequest.session_key p ≫= session_key_from_proto with
      | None, _ | _, None => Some StableErrorCode.CapabilityUnsupported
      | Some o, Some _ =>
          match pb.CommandRequest.payload p with
          | None => Some StableErrorCode.InternalError
          | Some (pb.CommandRequest.CreateTask _ | pb.CommandRequest.RenameTask _ | pb.CommandRequest.ArchiveTask _
                 | pb.CommandRequest.UnarchiveTask _ | pb.CommandRequest.ForkTask _) => Some StableErrorCode.CapabilityUnsupported
          | Some (pb.CommandRequest.UpdateSettings s) =>
              if forallb (fun u => existsb (fun o => bool_decide (SettingOption.option_id o = pb.SettingUpdate.option_id u))
                                     (CapabilitySet.settings caps)) (pb.UpdateSettingsPayload.updates s)
              then if res_is_ok (command_operation_from_proto o) then None else Some StableErrorCode.CapabilityUnsupported
              else Some StableErrorCode.SettingCombinationUnsupported
          | Some _ => if res_is_ok (command_operation_from_proto o) then None else Some StableErrorCode.CapabilityUnsupported
          end
      end
  end.

Lemma list_find_existsb {A} (P : A -> Prop) `{forall x, Decision (P x)} (l : list A) :
  existsb (fun x => bool_decide (P x)) l = present (list_find P l).
Proof.
  induction l as [|x l IH]; simpl; [done|]. rewrite IH. case_bool_decide as B; simpl.
  - by rewrite decide_True.
  - rewrite decide_False by done. by destruct (list_find P l).
Qed.

Lemma setting_updates_spec (settings : list SettingOption.t) (updates : list pb.SettingUpdate.t) :
  match setting_updates settings updates with
  | Ok values =>
      forallb (fun u => existsb (fun o => bool_decide (SettingOption.option_id o = pb.SettingUpdate.option_id u)) settings) updates = true
      /\ Forall2 (fun u v => SettingUpdate.value v = pb.SettingUpdate.value u /\
           exists o, o ∈ settings /\ SettingOption.option_id o = pb.SettingUpdate.option_id u /\
             SettingOption.kind o = SettingUpdate.kind v) updates values
  | Err e =>
      forallb (fun u => existsb (fun o => bool_decide (SettingOption.option_id o = pb.SettingUpdate.option_id u)) settings) updates = false
      /\ BridgeError.code e = StableErrorCode.SettingCombinationUnsupported
  end.
Proof.
  induction updates as [|u updates IH]; simpl; [by split|].
  rewrite (list_find_existsb (fun o => SettingOption.option_id o = pb.SettingUpdate.option_id u)).
  destruct (list_find _ settings) as [[i o]|] eqn:F; simpl; [|done].
  destruct (setting_updates settings updates) as [values|e]; simpl; [|done].
  destruct IH as [IH1 IH2]. split; [done|]. constructor; [|done]. split; [done|].
  apply list_find_Some in F as (L & E & _). exists o. split; [by eapply list_elem_of_lookup_2|done].
Qed.

Lemma operation_error (o : pb.Operation.t) (e : BridgeError.t) :
  command_operation_from_proto o = Err e -> BridgeError.code e = StableErrorCode.CapabilityUnsupported.
Proof. by destruct o; intros [= <-]. Qed.

(** Every refusal of a command has the stable code of its first failing check, and a command that
    passes them all is accepted with its request id, session and expectations. *)
Theorem command_refusals (p : pb.CommandRequest.t) (caps : CapabilitySet.t) :
  match command_request_from_proto p caps with
  | Err e => refusal p caps = Some (BridgeError.code e)
  | Ok r => refusal p caps = None /\
      uuid_parse_str (pb.CommandRequest.request_id p) = Some (CommandRequest.request_id r) /\
      pb.CommandRequest.session_key p ≫= session_key_from_proto = Some (CommandRequest.session_key r) /\
      CommandRequest.expected_turn_id r = opt_turn_id_from_proto (pb.CommandRequest.expected_turn_id p) /\
      CommandRequest.expected_runtime_revision r = pb.CommandRequest.expected_runtime_revision p
  end.
Proof.
  unfold command_request_from_proto, refusal.
  destruct (uuid_parse_str _) as [id|]; simpl; [|done].
  destruct (pb.Operation.try_from _) as [o|]; simpl; [|done].
  destruct (pb.CommandRequest.session_key p ≫= session_key_from_proto) as [key|]; simpl; [|done].
  destruct (pb.CommandRequest.payload p) as [[]|]; simpl; try done;
    try (destruct (command_operation_from_proto o) eqn:C; simpl; [done|by rewrite (operation_error _ _ C)]).
  pose proof (setting_updates_spec (CapabilitySet.settings caps) (pb.UpdateSettingsPayload.updates x)) as S.
  destruct (setting_updates _ _) as [values|e]; simpl.
  - destruct S as [-> _]. destruct (command_operation_from_proto o) eqn:C; simpl; [done|by rewrite (operation_error _ _ C)].
  - by destruct S as [-> ->].
Qed.
End Sent.

(** ** On concrete values *)

(** Milliseconds as seconds and nanoseconds; a UUID in its canonical form. *)
#[local] Instance demo_crates : ProtoCrates := {
  dt_timestamp d := d / 1000;
  dt_subsec_nanos d := (d mod 1000) * 1000000;
  dt_from_timestamp s n := if n <? 1000000000 then Some (s * 1000 + n / 1000000) else None;
  uuid_parse_str s := if bool_decide (String.length s = 36%nat) then Some s else None;
}.

#[local] Instance demo_laws : ProtoCratesLaws.
Proof.
  split; simpl.
  - intros d. pose proof (Z.mod_pos_bound d 1000 ltac:(lia)). rewrite (proj2 (Z.ltb_lt _ _)) by lia.
    rewrite Z.div_mul by lia. f_equal. pose proof (Z.div_mod d 1000 ltac:(lia)). lia.
  - intros d. pose proof (Z.mod_pos_bound d 1000 ltac:(lia)). lia.
  - reflexivity.
Defined.

Definition demo_uuid : string := "67e55044-10b1-426f-9247-bb680e5fe0c8".
Definition demo_key : SessionKey.t := SessionKey.mk "mac" AgentKind.CodexDesktop "native-1" (Some demo_uuid).

Definition demo_caps : CapabilitySet.t :=
  CapabilitySet.mk ControlMode.FullControl CompatibilityState.Verified (Some "1.2.3")
    [Operation.StartTurn; Operation.QueueNextTurn; Operation.UpdateSettings]
    [SettingOption.mk "m" SettingKind.Model (OutputText.mk "Model") (Some "") [SettingValue.mk "x" (OutputText.mk "X")] true]
    TransferLimits.default.

Definition demo_snapshot : RuntimeSnapshot.t :=
  RuntimeSnapshot.mk demo_key 7 (Some (CurrentTurn.mk (TurnId.native "t1") ActiveTurnPhase.Running (Some 1700000000123)))
    (Plan.mk [PlanStep.mk "s" (OutputText.mk "step") PlanStepStatus.InProgress])
    [PendingQuestion.mk "q" (OutputText.mk "sure?") (OutputText.mk "") [QuestionOption.mk "y" (OutputText.mk "yes")] false true None (Some 5) true]
    [] [] [BackgroundCommand.mk (Some "c") None BackgroundCommandState.Running (Some (OutputText.mk "make")) None None] 1
    (QueueStatus.mk QueueState.Queued (Some (TurnId.native "t1")) (Some 0)) demo_caps
    [OutputCursor.mk (ItemId.native "i") 3 10 true OutputChannel.Stdout true].

Lemma snapshot_roundtrip_witness :
  runtime_snapshot_from_proto 0 (runtime_snapshot_to_proto demo_snapshot) demo_key = snapshot_normal demo_snapshot /\
  RuntimeSnapshot.current_turn (snapshot_normal demo_snapshot) = RuntimeSnapshot.current_turn demo_snapshot /\
  snapshot_normal demo_snapshot <> demo_snapshot.
Proof. split; [exact (snapshot_roundtrip 0 demo_snapshot)|split; [reflexivity|by vm_compute]]. Defined.

Definition demo_page : HistoryPage.t :=
  HistoryPage.mk
    [HistoryEntry.mk (TurnId.native "t1") (Item.mk (ItemId.native "i1") None 1 (Some 1234) (ItemContent.UserMessage (OutputText.mk "hi")));
     HistoryEntry.mk (TurnId.native "t1") (Item.mk (ItemId.native "i2") None 1 None (ItemContent.Opaque "x"));
     HistoryEntry.mk (TurnId.native "t1") (Item.mk (ItemId.native "i3") None 2 None (ItemContent.TokenUsage 1 2 (Some 0) (Some 9)))]
    (Some "next") true.

Lemma history_roundtrip_witness :
  (length (pb.HistoryPage.entries (history_page_to_proto demo_page)) = 2)%nat /\
  history_page_from_proto 0 (history_page_to_proto demo_page)
  = Some (HistoryPage.mk (map entry_normal (List.filter expressible (HistoryPage.entries demo_page))) (Some "next") true).
Proof. split; [reflexivity|exact (history_roundtrip 0 demo_page)]. Defined.


(** A request whose operation is [operation]. *)
Definition demo_request (operation : pb.Operation.t) (payload : pb.CommandRequest.Payload) : pb.CommandRequest.t :=
  pb.CommandRequest.mk demo_uuid (pb.Operation.as_i32 operation) (Some (session_key_to_proto demo_key)) None None "" (Some payload).

Definition demo_start : pb.CommandRequest.t :=
  demo_request pb.Operation.StartTurn (pb.CommandRequest.StartTurn (pb.StartTurnPayload.mk "go")).

Definition demo_started : CommandRequest.t :=
  CommandRequest.mk demo_uuid Operation.StartTurn demo_key None None None (CommandPayload.StartTurn (OutputText.mk "go")).

Lemma gate_matches_announcement_witness :
  exists decide_, gate demo_started (accepted demo_uuid) = Act Capabilities decide_ /\
    forall caps : CapabilitySet.t,
      if bool_decide (2 ∈ pb.CapabilitySnapshot.supported_operations (capability_set_to_proto caps))
      then decide_ caps = accepted demo_uuid
      else exists err, decide_ caps = Ret (Err err) /\
             BridgeError.code err = if bool_decide (CapabilitySet.control_mode caps = ControlMode.ReadOnly)
                                    then StableErrorCode.ControlReadOnly else StableErrorCode.CapabilityUnsupported.
Proof.
  apply (gate_matches_announcement demo_start demo_caps demo_started (accepted demo_uuid)); [reflexivity|reflexivity|discriminate].
Defined.

(** The capability gate asks about the operation, the executor runs the payload: an interrupt under
    the number of a queue operation is converted without an error and passes the gate without the
    capabilities being read, although they do not include interrupts. *)
Lemma interrupt_as_queue_skips_gate :
  command_request_from_proto (demo_request pb.Operation.QueueSet (pb.CommandRequest.Interrupt (pb.InterruptPayload.mk None))) demo_caps
  = Ok (CommandRequest.mk demo_uuid Operation.QueueNextTurn demo_key None None None CommandPayload.Interrupt) /\
  CapabilitySet.supports demo_caps Operation.InterruptTurn = false /\
  gate (CommandRequest.mk demo_uuid Operation.QueueNextTurn demo_key None None None CommandPayload.Interrupt) (accepted demo_uuid)
  = accepted demo_uuid.
Proof. repeat split. Qed.

(** Refusals in their order. *)
Lemma refusals_in_order :
  refusal (demo_request pb.Operation.Unspecified (pb.CommandRequest.UpdateSettings (pb.UpdateSettingsPayload.mk [pb.SettingUpdate.mk "z" "1"]))) demo_caps
  = Some StableErrorCode.SettingCombinationUnsupported /\
  refusal (demo_request pb.Operation.Unspecified (pb.CommandRequest.StartTurn (pb.StartTurnPayload.mk "go"))) demo_caps
  = Some StableErrorCode.CapabilityUnsupported /\
  refusal demo_start demo_caps = None.
Proof. repeat split. Qed.
