(* ===== verification/Capabilities.v ===== *)
(** * The capability probe ([capabilities/mod.rs], the versions of [adapter/codex/ipc/discovery.rs])

    Which writes are open is a function of the evidence: the version tables, the hand-shake, the
    confirmed owner and the probe of each method. *)

From S2P Require Import Prelude RustStr Domain.

(** ** Versions *)

Definition VERIFIED_VERSIONS : list string := ["0.153.0-alpha.5"; "0.153.1"; "0.153.4"].

Definition normalized_version (version : string) : string :=
  let v := trim version in
  match strip_prefix "codex-cli" v with
  | Some rest => trim_start rest
  | None => v
  end.

Definition version_is_verified (version : string) : bool :=
  bool_decide (normalized_version version ∈ VERIFIED_VERSIONS).

(** ** Probes *)

Module ProbeResult.
Inductive t := NotProbed | Passed | Failed.
#[global] Instance eq_dec : EqDecision t.
Proof. solve_decision. Defined.

Definition passed (r : t) : bool := bool_decide (r = Passed).
End ProbeResult.

Module WriteMethodProbes.
Record t := mk {
  start_turn : ProbeResult.t;
  steer_turn : ProbeResult.t;
  interrupt_turn : ProbeResult.t;
  answer_question : ProbeResult.t;
  update_settings : ProbeResult.t;
}.

Definition default : t :=
  mk ProbeResult.NotProbed ProbeResult.NotProbed ProbeResult.NotProbed ProbeResult.NotProbed ProbeResult.NotProbed.

Definition all_passed (p : t) : bool :=
  ProbeResult.passed (start_turn p) && ProbeResult.passed (steer_turn p) && ProbeResult.passed (interrupt_turn p) &&
  ProbeResult.passed (answer_question p) && ProbeResult.passed (update_settings p).

Definition any_passed (p : t) : bool :=
  existsb ProbeResult.passed [start_turn p; steer_turn p; interrupt_turn p; answer_question p; update_settings p].
End WriteMethodProbes.

Definition REAL_DESKTOP_VERIFIED_CORE_OPS : WriteMethodProbes.t :=
  WriteMethodProbes.mk ProbeResult.Passed ProbeResult.Passed ProbeResult.Passed ProbeResult.NotProbed ProbeResult.NotProbed.

Definition verified_write_probes (version_report : option string) : WriteMethodProbes.t :=
  match normalized_version <$> version_report with
  | Some v => if bool_decide (v = "0.153.1") || bool_decide (v = "0.153.4") then REAL_DESKTOP_VERIFIED_CORE_OPS
              else WriteMethodProbes.default
  | None => WriteMethodProbes.default
  end.

Module CapabilityProbeInput.
Record t := mk {
  version_report : option string;
  version_verified : bool;
  confirmed_incompatible : bool;
  ipc_handshake_ok : bool;
  owner_confirmed : bool;
  write_methods : WriteMethodProbes.t;
  catalog_sessions_listable : bool;
  catalog_history_readable : bool;
  snapshot_observed : bool;
  settings : list SettingOption.t;
}.
End CapabilityProbeInput.

(** [sort_by(option_id)], which is stable, and [dedup_by(option_id)], which keeps the first. *)
Fixpoint insert_option (x : SettingOption.t) (l : list SettingOption.t) : list SettingOption.t :=
  match l with
  | [] => [x]
  | y :: l' => if decide (String.le (SettingOption.option_id x) (SettingOption.option_id y)) then x :: l else y :: insert_option x l'
  end.

Definition sort_options (l : list SettingOption.t) : list SettingOption.t := foldr insert_option [] l.

Fixpoint dedup_options (last : option string) (l : list SettingOption.t) : list SettingOption.t :=
  match l with
  | [] => []
  | x :: l =>
      if bool_decide (last = Some (SettingOption.option_id x)) then dedup_options last l
      else x :: dedup_options (Some (SettingOption.option_id x)) l
  end.

Definition dedupe_settings (settings : list SettingOption.t) : list SettingOption.t :=
  dedup_options None (sort_options settings).

(** [if c { ops.push(..) }]. *)
Definition when (c : bool) (ops : list Operation.t) : list Operation.t := if c then ops else [].

Definition probe (input : CapabilityProbeInput.t) : CapabilitySet.t :=
  let compatibility_state :=
    if CapabilityProbeInput.confirmed_incompatible input then CompatibilityState.Unsupported
    else if CapabilityProbeInput.version_verified input then CompatibilityState.Verified
    else CompatibilityState.Degraded in
  let writes_open := CapabilityProbeInput.version_verified input && CapabilityProbeInput.ipc_handshake_ok input &&
                     CapabilityProbeInput.owner_confirmed input in
  let wm := CapabilityProbeInput.write_methods input in
  let supported_operations :=
    when (writes_open && ProbeResult.passed (WriteMethodProbes.start_turn wm)) [Operation.StartTurn; Operation.QueueNextTurn] ++
    when (writes_open && ProbeResult.passed (WriteMethodProbes.steer_turn wm)) [Operation.SteerTurn] ++
    when (writes_open && ProbeResult.passed (WriteMethodProbes.interrupt_turn wm)) [Operation.InterruptTurn] ++
    when (writes_open && ProbeResult.passed (WriteMethodProbes.answer_question wm)) [Operation.AnswerQuestion; Operation.SubmitApproval] ++
    when (writes_open && ProbeResult.passed (WriteMethodProbes.update_settings wm)) [Operation.UpdateSettings] in
  let any_local_source :=
    CapabilityProbeInput.ipc_handshake_ok input || CapabilityProbeInput.catalog_sessions_listable input ||
    CapabilityProbeInput.catalog_history_readable input in
  let control_mode :=
    if negb any_local_source then ControlMode.Unavailable
    else if writes_open && WriteMethodProbes.all_passed wm then ControlMode.FullControl
    else if writes_open && WriteMethodProbes.any_passed wm then ControlMode.LimitedControl
    else ControlMode.ReadOnly in
  CapabilitySet.mk control_mode compatibility_state (CapabilityProbeInput.version_report input) supported_operations
    (dedupe_settings (CapabilityProbeInput.settings input)) TransferLimits.default.

(** ** Properties *)

(** The probe behind each operation; the others have none. *)
Definition probe_of (op : Operation.t) (wm : WriteMethodProbes.t) : ProbeResult.t :=
  match op with
  | Operation.StartTurn | Operation.QueueNextTurn => WriteMethodProbes.start_turn wm
  | Operation.SteerTurn => WriteMethodProbes.steer_turn wm
  | Operation.InterruptTurn => WriteMethodProbes.interrupt_turn wm
  | Operation.AnswerQuestion | Operation.SubmitApproval => WriteMethodProbes.answer_question wm
  | Operation.UpdateSettings => WriteMethodProbes.update_settings wm
  | _ => ProbeResult.NotProbed
  end.

Definition writes_open (input : CapabilityProbeInput.t) : bool :=
  CapabilityProbeInput.version_verified input && CapabilityProbeInput.ipc_handshake_ok input &&
  CapabilityProbeInput.owner_confirmed input.

Lemma elem_of_when (c : bool) (ops : list Operation.t) (op : Operation.t) : op ∈ when c ops <-> c = true /\ op ∈ ops.
Proof. destruct c; simpl; [tauto|]. rewrite elem_of_nil. naive_solver. Qed.

Lemma passed_spec (r : ProbeResult.t) : ProbeResult.passed r = true <-> r = ProbeResult.Passed.
Proof. apply bool_decide_eq_true. Qed.

Lemma any_passed_spec (wm : WriteMethodProbes.t) :
  WriteMethodProbes.any_passed wm = true <-> exists op, probe_of op wm = ProbeResult.Passed.
Proof.
  unfold WriteMethodProbes.any_passed. rewrite existsb_exists. split.
  - intros (r & I & ->%passed_spec). simpl in I. destruct I as [<-|[<-|[<-|[<-|[<-|[]]]]]].
    + by exists Operation.StartTurn. + by exists Operation.SteerTurn. + by exists Operation.InterruptTurn.
    + by exists Operation.AnswerQuestion. + by exists Operation.UpdateSettings.
  - intros [op P]. exists ProbeResult.Passed. split; [|done]. destruct op; simpl in *; try discriminate; rewrite P; tauto.
Qed.

Definition all_probes : WriteMethodProbes.t :=
  WriteMethodProbes.mk ProbeResult.Passed ProbeResult.Passed ProbeResult.Passed ProbeResult.Passed ProbeResult.Passed.

Lemma all_passed_spec (wm : WriteMethodProbes.t) :
  WriteMethodProbes.all_passed wm = true <->
  forall op, probe_of op all_probes = ProbeResult.Passed -> probe_of op wm = ProbeResult.Passed.
Proof.
  unfold WriteMethodProbes.all_passed. rewrite !andb_true_iff, !passed_spec. split.
  - intros ((((A & B) & C) & D) & E) op P. by destruct op.
  - intros F. by rewrite (F Operation.StartTurn eq_refl : WriteMethodProbes.start_turn wm = _),
      (F Operation.SteerTurn eq_refl : WriteMethodProbes.steer_turn wm = _),
      (F Operation.InterruptTurn eq_refl : WriteMethodProbes.interrupt_turn wm = _),
      (F Operation.AnswerQuestion eq_refl : WriteMethodProbes.answer_question wm = _),
      (F Operation.UpdateSettings eq_refl : WriteMethodProbes.update_settings wm = _).
Qed.

Lemma all_any_passed (wm : WriteMethodProbes.t) : WriteMethodProbes.all_passed wm = true -> WriteMethodProbes.any_passed wm = true.
Proof. rewrite all_passed_spec, any_passed_spec. intros F. exists Operation.StartTurn. by apply F. Qed.

Lemma supported_nonempty (caps : CapabilitySet.t) :
  CapabilitySet.supported_operations caps <> [] <-> exists op, CapabilitySet.supports caps op = true.
Proof.
  unfold CapabilitySet.supports. setoid_rewrite bool_decide_eq_true. split.
  - destruct (CapabilitySet.supported_operations caps) as [|op ops]; [done|]. intros _. exists op. by left.
  - intros [op O] E. rewrite E in O. by apply not_elem_of_nil in O.
Qed.

Lemma probe_supports (input : CapabilityProbeInput.t) (op : Operation.t) :
  CapabilitySet.supports (probe input) op = true <->
  writes_open input = true /\ probe_of op (CapabilityProbeInput.write_methods input) = ProbeResult.Passed.
Proof.
  unfold CapabilitySet.supports. rewrite bool_decide_eq_true. unfold probe. cbn [CapabilitySet.supported_operations].
  fold (writes_open input). rewrite !elem_of_app, !elem_of_when, !andb_true_iff, !passed_spec, !elem_of_cons, !elem_of_nil.
  destruct op; simpl; intuition (congruence || done).
Qed.

Lemma ex_and {A} (P : Prop) (Q : A -> Prop) : (exists x, P /\ Q x) <-> P /\ exists x, Q x.
Proof. naive_solver. Qed.

(** An operation is announced exactly when the version is verified, the hand-shake and the owner are
    there, and the probe of its own method passed; creating, renaming, archiving and forking
    sessions and stopping background commands never are.  The control mode says the same: writes
    are announced exactly in full and limited control, all of them exactly in full control. *)
Theorem probe_opens_proven_writes (input : CapabilityProbeInput.t) :
  let caps := probe input in
  (forall op, CapabilitySet.supports caps op = true <->
     writes_open input = true /\ probe_of op (CapabilityProbeInput.write_methods input) = ProbeResult.Passed) /\
  (CapabilitySet.supported_operations caps <> [] <->
     CapabilitySet.control_mode caps = ControlMode.FullControl \/ CapabilitySet.control_mode caps = ControlMode.LimitedControl) /\
  (CapabilitySet.control_mode caps = ControlMode.FullControl <->
     forall op, probe_of op all_probes = ProbeResult.Passed -> CapabilitySet.supports caps op = true) /\
  (CapabilitySet.supported_operations caps <> [] -> CapabilityProbeInput.confirmed_incompatible input = false ->
     CapabilitySet.compatibility_state caps = CompatibilityState.Verified).
Proof.
  cbv zeta.
  pose proof (probe_supports input) as S.
  split; [exact S|].
  assert (M : CapabilitySet.control_mode (probe input) =
    if writes_open input && WriteMethodProbes.all_passed (CapabilityProbeInput.write_methods input) then ControlMode.FullControl
    else if writes_open input && WriteMethodProbes.any_passed (CapabilityProbeInput.write_methods input) then ControlMode.LimitedControl
    else if negb (CapabilityProbeInput.ipc_handshake_ok input || CapabilityProbeInput.catalog_sessions_listable input ||
                  CapabilityProbeInput.catalog_history_readable input) then ControlMode.Unavailable
    else ControlMode.ReadOnly).
  { unfold probe, writes_open. cbn [CapabilitySet.control_mode].
    by destruct (CapabilityProbeInput.version_verified input), (CapabilityProbeInput.ipc_handshake_ok input),
      (CapabilityProbeInput.owner_confirmed input), (CapabilityProbeInput.catalog_sessions_listable input),
      (CapabilityProbeInput.catalog_history_readable input). }
  set (wm := CapabilityProbeInput.write_methods input) in *.
  split; [|split].
  - rewrite M, supported_nonempty. setoid_rewrite S. rewrite ex_and, <-any_passed_spec.
    pose proof (all_any_passed wm). destruct (writes_open input), (WriteMethodProbes.all_passed wm), (WriteMethodProbes.any_passed wm); simpl;
      repeat case_match; intuition (discriminate || done).
  - rewrite M. setoid_rewrite S. pose proof (all_passed_spec wm) as A.
    destruct (writes_open input); simpl.
    + destruct (WriteMethodProbes.all_passed wm).
      * split; [|done]. intros _ op P. split; [done|]. by apply A.
      * split; [by repeat case_match|]. intros F. exfalso. enough (false = true) by done. apply A. intros op P. by apply F.
    + split; [by repeat case_match|]. intros F. by destruct (F Operation.StartTurn eq_refl).
  - intros N C. apply supported_nonempty in N as [op O]. apply S in O as [W _]. unfold probe. cbn [CapabilitySet.compatibility_state].
    rewrite C. apply andb_true_iff in W as [[-> _]%andb_true_iff _]. done.
Qed.

(** On a version of the matrix only turns are open; on every other one nothing is. *)
Lemma verified_matrix (report : option string) (op : Operation.t) :
  probe_of op (verified_write_probes report) = ProbeResult.Passed ->
  (normalized_version <$> report = Some "0.153.1" \/ normalized_version <$> report = Some "0.153.4") /\
  op ∈ [Operation.StartTurn; Operation.QueueNextTurn; Operation.SteerTurn; Operation.InterruptTurn].
Proof.
  unfold verified_write_probes. destruct (normalized_version <$> report) as [v|]; [|by destruct op].
  destruct (bool_decide (v = "0.153.1")) eqn:A; [|destruct (bool_decide (v = "0.153.4")) eqn:B]; simpl.
  - apply bool_decide_eq_true in A as ->. intros P. split; [by left|]. destruct op; try discriminate; rewrite !elem_of_cons; tauto.
  - apply bool_decide_eq_true in B as ->. intros P. split; [by right|]. destruct op; try discriminate; rewrite !elem_of_cons; tauto.
  - by destruct op.
Qed.

(** ** Settings *)

Definition find_option (id : string) (l : list SettingOption.t) : option SettingOption.t :=
  snd <$> list_find (fun o => SettingOption.option_id o = id) l.

Lemma find_option_cons (id : string) (x : SettingOption.t) (l : list SettingOption.t) :
  find_option id (x :: l) = if decide (SettingOption.option_id x = id) then Some x else find_option id l.
Proof. unfold find_option. simpl. destruct (decide _); [done|]. by destruct (list_find _ l) as [[]|]. Qed.

Lemma find_option_insert (id : string) (x : SettingOption.t) (l : list SettingOption.t) :
  find_option id (insert_option x l) = if decide (SettingOption.option_id x = id) then Some x else find_option id l.
Proof.
  induction l as [|y l IH]; simpl; [by rewrite find_option_cons|].
  destruct (decide (String.le _ _)) as [L|L]; [by rewrite find_option_cons|]. rewrite !find_option_cons, IH.
  destruct (decide (SettingOption.option_id y = id)) as [<-|]; [|done].
  destruct (decide (SettingOption.option_id x = _)) as [E|]; [|done]. by destruct L; rewrite E.
Qed.

Lemma find_option_sort (id : string) (l : list SettingOption.t) : find_option id (sort_options l) = find_option id l.
Proof. induction l as [|x l IH]; [done|]. simpl. by rewrite find_option_insert, find_option_cons, IH. Qed.

Definition id_le (a b : SettingOption.t) : Prop := String.le (SettingOption.option_id a) (SettingOption.option_id b).

Lemma insert_option_sorted (x : SettingOption.t) (l : list SettingOption.t) : StronglySorted id_le l -> StronglySorted id_le (insert_option x l).
Proof.
  induction l as [|y l IH]; intros S; simpl; [repeat constructor|].
  inversion S as [|? ? S' F]; subst. destruct (decide _) as [L|L].
  - constructor; [done|]. constructor; [done|]. eapply Forall_impl; [exact F|]. intros z Z. unfold id_le in *. by etrans.
  - assert (String.le (SettingOption.option_id y) (SettingOption.option_id x)) as L' by (by destruct (total String.le (SettingOption.option_id x) (SettingOption.option_id y))).
    constructor; [by apply IH|]. clear -L' F. induction l as [|z l IH]; simpl; [by repeat constructor|].
    inversion F; subst. destruct (decide _); repeat (constructor; [done|]); [done|]. by apply IH.
Qed.

Lemma sort_options_sorted (l : list SettingOption.t) : StronglySorted id_le (sort_options l).
Proof. induction l; simpl; [constructor|by apply insert_option_sorted]. Qed.

Lemma dedup_options_spec (l : list SettingOption.t) (last : option string) :
  StronglySorted id_le l -> (forall i, last = Some i -> Forall (fun o => String.le i (SettingOption.option_id o)) l) ->
  (forall id, last <> Some id -> find_option id (dedup_options last l) = find_option id l) /\
  Forall (fun o => last <> Some (SettingOption.option_id o)) (dedup_options last l) /\
  NoDup (map SettingOption.option_id (dedup_options last l)).
Proof.
  revert last. induction l as [|x l IH]; intros last S B; simpl; [by repeat constructor|].
  inversion S as [|? ? S' F]; subst. case_bool_decide as E.
  - subst last. destruct (IH (Some (SettingOption.option_id x)) S') as (A1 & A2 & A3); [by intros i [= <-]|].
    split; [|done]. intros id N. rewrite find_option_cons, decide_False by congruence. by apply A1.
  - destruct (IH (Some (SettingOption.option_id x)) S') as (A1 & A2 & A3); [by intros i [= <-]|]. split; [|split].
    + intros id N. rewrite !find_option_cons. destruct (decide _); [done|]. apply A1. congruence.
    + constructor; [done|]. apply Forall_forall. intros o O L.
      assert (SettingOption.option_id o <> SettingOption.option_id x) as N.
      { intros Q. rewrite Forall_forall in A2. apply (A2 o O). by rewrite Q. }
      pose proof (B _ L) as B'. inversion B' as [|? ? B1 B2]; subst.
      assert (o ∈ l) as O'.
      { clear -O. revert O. generalize (Some (SettingOption.option_id x)). clear x. induction l as [|y l IH]; intros last; simpl; [done|].
        case_bool_decide; rewrite ?elem_of_cons; [right; eauto|]. intros [->|O]; [by left|right; eauto]. }
      rewrite Forall_forall in F. specialize (F o O'). unfold id_le in F. apply N. by apply (anti_symm String.le).
    + simpl. constructor; [|done]. intros (o & Q & O)%list_elem_of_fmap. rewrite Forall_forall in A2. apply (A2 o O). by rewrite <-Q.
Qed.

(** Of several sources of one option the first counts, every option is there once. *)
Theorem dedupe_settings_spec (l : list SettingOption.t) :
  NoDup (map SettingOption.option_id (dedupe_settings l)) /\
  forall id, find_option id (dedupe_settings l) = find_option id l.
Proof.
  destruct (dedup_options_spec (sort_options l) None (sort_options_sorted l)) as (A1 & _ & A3); [done|].
  split; [exact A3|]. intros id. unfold dedupe_settings. by rewrite A1, find_option_sort.
Qed.

Example versions :
  version_is_verified "codex-cli 0.153.4" = true /\ version_is_verified " 0.153.0-alpha.5 " = true /\
  version_is_verified "codex-cli 0.154.0" = false /\
  CapabilitySet.supported_operations (probe (CapabilityProbeInput.mk (Some "codex-cli 0.153.4") true false true true
    (verified_write_probes (Some "codex-cli 0.153.4")) true true true []))
  = [Operation.StartTurn; Operation.QueueNextTurn; Operation.SteerTurn; Operation.InterruptTurn].
Proof. repeat split. Qed.
