(* ===== verification/Adapter.v ===== *)
(** * The Codex adapter ([adapter/codex/mod.rs])

    [World] is the state behind the adapter's handle together with the connections of its IPC clients.
    Every method is a program over it: one operation per lock, per call to the catalog, the clock or the
    version command, and, inside [Io], per operation of an IPC request ([Ipc]). *)

From S2P Require Import Prelude Prog RustStr Json Frame Domain Projection Mapper Concurrent Ipc Capabilities.

Definition LOCAL_HOST_ID : string := "local".
(** In milliseconds. *)
Definition SNAPSHOT_WAIT : Z := 5000.

Definition AdapterError_from (e : IpcError.t) : AdapterError.t := AdapterError.Ipc (IpcError.display e).

(** ** What the adapter takes from the catalog ([adapter/codex/catalog.rs]) *)

Module CatalogError.
Inductive t :=
| Unavailable (text : string)
| Timeout (timeout_ms : Z)
| Sql (text : string).

Definition display (e : t) : string :=
  match e with
  | Unavailable s => "catalog capability unavailable: " +:+ s
  | Timeout ms => "catalog query timed out after " +:+ pretty ms +:+ "ms"
  | Sql s => s
  end.
End CatalogError.

Module CatalogCapabilities.
Record t := mk {
  state_db : option string;
  history_db : option string;
  sessions_listable : bool;
  history_readable : bool;
  spawn_edges_readable : bool;
  project_names_readable : bool;
}.
End CatalogCapabilities.

Module CatalogThread.
Record t := mk {
  id : string;
  title : option string;
  project_display_name : option string;
  model : option string;
  reasoning_effort : option string;
  git_branch : option string;
  created_at : option DateTime;
  updated_at : option DateTime;
  archived : bool;
  agent_nickname : option string;
  agent_role : option string;
}.
End CatalogThread.

Module SessionListPage.
Record t := mk {
  threads : list CatalogThread.t;
  next_cursor : option string;
  has_more : bool;
}.
End SessionListPage.

(** The turns of a page are not read by the adapter. *)
Module CatalogHistoryPage.
Record t := mk {
  entries : list HistoryEntry.t;
  next_cursor : option string;
  has_more : bool;
}.
End CatalogHistoryPage.

(** ** Data *)

Module SessionPage.
Record t := mk {
  sessions : list SessionSummary.t;
  next_cursor : option string;
  has_more : bool;
}.
End SessionPage.

(** What the adapter keeps of its configuration. *)
Module CodexAdapterConfig.
Record t := mk {
  device_id : string;
  ipc_configured : bool;
  version_report : option string;
  version_binary : option string;
  write_method_probes : WriteMethodProbes.t;
  catalog : option CatalogCapabilities.t;
  static_sessions : list CatalogThread.t;
}.
End CodexAdapterConfig.

(** A watcher is the number of its channel. *)
Module SessionRuntime.
Record t {V : Type} := mk {
  key : SessionKey.t;
  mapper : SessionMapper.t V;
  watchers : list Z;
  following : bool;
}.
Arguments t : clear implicits.

Section With.
Context {V : Type}.
Definition new (key : SessionKey.t) : t V := mk V key (SessionMapper.new key) [] false.
Definition with_mapper (x : SessionMapper.t V) (r : t V) : t V := mk V (key r) x (watchers r) (following r).
Definition with_watchers (x : list Z) (r : t V) : t V := mk V (key r) (mapper r) x (following r).
Definition with_following (x : bool) (r : t V) : t V := mk V (key r) (mapper r) (watchers r) x.
End With.
End SessionRuntime.

(** [IpcClient]: the number of its connection, its id and the capacity of its queue. *)
Module IpcClient.
Record t := mk {
  connection : Z;
  client_id : string;
  capacity : Z;
}.
End IpcClient.

(** [now] is the monotonic clock, in milliseconds; [pump]: the client whose events the pump reads. *)
Module World.
Record t {V : Type} := mk {
  ipc : option IpcClient.t;
  caps : CapabilitySet.t;
  sessions : gmap string (SessionRuntime.t V);
  generation : Z;
  pump : option IpcClient.t;
  conns : gmap Z (Conn.t V);
  now : Z;
}.
Arguments t : clear implicits.

Section With.
Context {V : Type}.
Definition with_ipc (x : option IpcClient.t) (w : t V) : t V := mk V x (caps w) (sessions w) (generation w) (pump w) (conns w) (now w).
Definition with_caps (x : CapabilitySet.t) (w : t V) : t V := mk V (ipc w) x (sessions w) (generation w) (pump w) (conns w) (now w).
Definition with_sessions (x : gmap string (SessionRuntime.t V)) (w : t V) : t V :=
  mk V (ipc w) (caps w) x (generation w) (pump w) (conns w) (now w).
Definition with_generation (x : Z) (w : t V) : t V := mk V (ipc w) (caps w) (sessions w) x (pump w) (conns w) (now w).
Definition with_pump (x : option IpcClient.t) (w : t V) : t V := mk V (ipc w) (caps w) (sessions w) (generation w) x (conns w) (now w).
Definition with_conns (x : gmap Z (Conn.t V)) (w : t V) : t V := mk V (ipc w) (caps w) (sessions w) (generation w) (pump w) x (now w).
Definition with_now (x : Z) (w : t V) : t V := mk V (ipc w) (caps w) (sessions w) (generation w) (pump w) (conns w) x.
End With.
End World.

(** The background tasks the adapter starts. *)
Inductive Spawned :=
| SetFollowing (params : FollowingChangedParams.t)
| LoadHistory (conversation : string).

Section Adapter.
Context {V : Type} `{SerdeJson V} `{SerdeJsonText V} `{IpcSerde V} `{Chrono}.
Variable config : CodexAdapterConfig.t.

Notation Sessions := (gmap string (SessionRuntime.t V)).

(** [Locked f]: a critical section of the sessions; [None] is a panic inside.  [ReadSessions]: one that only reads, and
    answers with what it sees.  [IterLocked f] reads them in the order of the hash map. *)
Inductive aop : Type -> Type :=
| GetIpc : aop (option IpcClient.t)
| ReadCapabilities : aop CapabilitySet.t
| Locked {A : Type} (f : Sessions -> option (A * Sessions)) : aop A
| ReadSessions : aop Sessions
| IterLocked {A : Type} (f : list (string * SessionRuntime.t V) -> A) : aop A
| Io (cl : IpcClient.t) {B : Type} (o : @iop V B) : aop B
| SpawnTask (cl : IpcClient.t) (task : Spawned) : aop unit
| Deliver (watcher : Z) (event : DomainEvent.t) : aop unit
| Instant : aop Z
| InstantOf : aop (string -> Z)
| Utc_now : aop DateTime
| Pause (ms : Z) : aop unit
| CatalogList (cursor : option string) (limit : Z) (include_archived : bool) : aop (res CatalogError.t SessionListPage.t)
| CatalogHistory (session : string) (cursor : option string) (limit : Z) : aop (res CatalogError.t CatalogHistoryPage.t)
| Connect : aop (res IpcError.t IpcClient.t)
| IsConnected : aop bool
| NextGeneration : aop Z
| ProbeVersion (binary : string) : aop (res string string)
| AbortPump : aop unit
| SetIpc (cl : IpcClient.t) : aop unit
| SetCaps (caps : CapabilitySet.t) : aop unit
| SpawnPump (cl : IpcClient.t) : aop unit.

Notation aprog := (Prog.prog aop).

Definition locked {A : Type} (f : Sessions -> A * Sessions) : aprog A := act (Locked (fun s => Some (f s))).
Definition reading {A : Type} (f : Sessions -> A) : aprog A := do s <- act ReadSessions; Ret (f s).

(** A program of the IPC client [cl]. *)
Definition on_client (cl : IpcClient.t) {A : Type} (p : Prog.prog (@iop V) A) : aprog A := prog_map (fun B o => Io cl o) p.

Definition offline {A : Type} (message : string) : res AdapterError.t A :=
  Err (AdapterError.Stable StableErrorCode.CodexUnavailable message).

(** [self.inner.ipc.read().clone().ok_or_else(..)]. *)
Definition current_ipc : aprog (res AdapterError.t IpcClient.t) :=
  do ipc <- act GetIpc;
  Ret match ipc with Some cl => Ok cl | None => offline "ipc offline" end.

Definition runtime_or_new (key : SessionKey.t) (conversation : string) (s : Sessions) : SessionRuntime.t V :=
  default (SessionRuntime.new key) (s !! conversation).

Definition current_turn_id (r : SessionRuntime.t V) : option TurnId.t :=
  CurrentTurn.turn <$> (runtime_snapshot (SessionRuntime.mapper r) ≫= RuntimeSnapshot.current_turn).

(** ** Owner and following *)

Definition ensure_owner (conversation : string) : aprog (res AdapterError.t string) :=
  try? cl <- current_ipc;
  do r <- on_client cl (discover_owner (IpcClient.client_id cl) (IpcClient.capacity cl) LOCAL_HOST_ID conversation);
  Ret match r with
      | Err e => Err (AdapterError_from e)
      | Ok None => Err (AdapterError.Stable StableErrorCode.SessionNotFound "session has no desktop owner (not open)")
      | Ok (Some owner) => Ok owner
      end.

(** [ipc]: what was read under the lock; the answer says whether a broadcast is started. *)
Definition follow_locked (ipc : option IpcClient.t) (conversation : string) (s : Sessions) :
    res AdapterError.t (option IpcClient.t) * Sessions :=
  match ipc with
  | None => (offline "ipc offline; cannot follow session", s)
  | Some cl =>
      let runtime := runtime_or_new (SessionKey.codex (CodexAdapterConfig.device_id config) conversation) conversation s in
      if SessionRuntime.following runtime then (Ok None, <[conversation := runtime]> s)
      else (Ok (Some cl), <[conversation := SessionRuntime.with_following true runtime]> s)
  end.

Definition following_params (conversation : string) : FollowingChangedParams.t :=
  FollowingChangedParams.mk conversation LOCAL_HOST_ID true.

Definition spawn_following (conversation : string) (r : res AdapterError.t (option IpcClient.t)) : aprog (res AdapterError.t unit) :=
  match r with
  | Err e => Ret (Err e)
  | Ok None => Ret (Ok tt)
  | Ok (Some cl) => perform act (SpawnTask cl (SetFollowing (following_params conversation))); Ret (Ok tt)
  end.

(** ** Snapshots *)

(** The polling loops: [None] when the fuel does not suffice. *)
Fixpoint wait_snapshot (fuel : nat) (ready : RuntimeSnapshot.t -> bool) (message : string) (deadline : Z) (conversation : string) :
    aprog (option (res AdapterError.t RuntimeSnapshot.t)) :=
  match fuel with
  | O => Ret None
  | S fuel =>
      do snapshot <- reading (A := option RuntimeSnapshot.t) (fun s => s !! conversation ≫= fun r => runtime_snapshot (SessionRuntime.mapper r));
      match (match snapshot with Some x => if ready x then Some x else None | None => None end) with
      | Some x => Ret (Some (Ok x))
      | None =>
          do now <- act Instant;
          if deadline <=? now then Ret (Some (offline message))
          else perform act (Pause 20); wait_snapshot fuel ready message deadline conversation
      end
  end.

Definition WAIT_FUEL : nat := Z.to_nat (SNAPSHOT_WAIT / 20 + 1).

(** [p?] where the rest may run out of fuel. *)
Definition try_fuel {A B : Type} (p : aprog (res AdapterError.t A)) (k : A -> aprog (option (res AdapterError.t B))) :
    aprog (option (res AdapterError.t B)) :=
  do r <- p;
  match r with
  | Ok a => k a
  | Err e => Ret (Some (Err e))
  end.

Definition runtime_snapshot_of (key : SessionKey.t) : aprog (option (res AdapterError.t RuntimeSnapshot.t)) :=
  let runtime_key := SessionKey.native_session_id key in
  try_fuel (ensure_owner runtime_key) (fun _ =>
  do ipc <- act GetIpc;
  do found <- locked (fun s =>
    let runtime := runtime_or_new (SessionKey.codex (CodexAdapterConfig.device_id config) runtime_key) runtime_key s in
    let s := <[runtime_key := runtime]> s in
    match runtime_snapshot (SessionRuntime.mapper runtime) with
    | Some snapshot => (inl snapshot, s)
    | None => let '(r, s) := follow_locked ipc runtime_key s in (inr r, s)
    end);
  match found with
  | inl snapshot => Ret (Some (Ok snapshot))
  | inr r =>
      try_fuel (spawn_following runtime_key r) (fun _ =>
      do now <- act Instant;
      wait_snapshot WAIT_FUEL (fun _ => true) "no snapshot received before timeout" (now + SNAPSHOT_WAIT) runtime_key)
  end).

Definition refresh_snapshot (key : SessionKey.t) : aprog (option (res AdapterError.t RuntimeSnapshot.t)) :=
  let conversation := SessionKey.native_session_id key in
  try_fuel (ensure_owner conversation) (fun owner =>
  try_fuel current_ipc (fun cl =>
  perform locked (fun s => (tt, <[conversation := SessionRuntime.with_following true (runtime_or_new key conversation s)]> s));
  try_fuel (do r <- on_client cl (set_following (IpcClient.client_id cl) (following_params conversation) (Some [owner]));
            Ret (map_err AdapterError_from r)) (fun _ =>
  try_fuel (do r <- on_client cl (load_complete_history (IpcClient.client_id cl) (IpcClient.capacity cl) LOCAL_HOST_ID conversation);
            Ret (map_err AdapterError_from r)) (fun expected_revision =>
  do now <- act Instant;
  wait_snapshot WAIT_FUEL (fun x => expected_revision <=? RuntimeSnapshot.runtime_revision x)
    "authoritative snapshot not received before timeout" (now + SNAPSHOT_WAIT) conversation)))).

(** ** Subscriptions and reads *)

Definition send_all (watcher : Z) : list DomainEvent.t -> aprog unit :=
  fix go (events : list DomainEvent.t) :=
  match events with
  | [] => Ret tt
  | event :: events => perform act (Deliver watcher event); go events
  end.

Definition subscribe (key : SessionKey.t) (watcher : Z) : aprog (res AdapterError.t unit) :=
  let runtime_key := SessionKey.native_session_id key in
  do ipc <- act GetIpc;
  do found <- locked (fun s =>
    let runtime := runtime_or_new (SessionKey.codex (CodexAdapterConfig.device_id config) runtime_key) runtime_key s in
    let runtime := SessionRuntime.with_watchers (SessionRuntime.watchers runtime ++ [watcher]) runtime in
    let intro_events :=
      if has_snapshot (SessionRuntime.mapper runtime)
      then [DomainEvent.SessionSummaryChanged (session_summary (SessionRuntime.mapper runtime))]
      else [] in
    let '(r, s) := follow_locked ipc runtime_key (<[runtime_key := runtime]> s) in
    ((r, intro_events), s));
  try? _ <- spawn_following runtime_key found.1;
  perform send_all watcher found.2;
  Ret (Ok tt).

Definition session_cwd (key : SessionKey.t) : aprog (option string) :=
  reading (A := option string) (fun s => s !! SessionKey.native_session_id key ≫= fun r => cwd (SessionRuntime.mapper r)).

Definition output_page_of (key : SessionKey.t) (item_id : ItemId.t) (offset limit : Z) : aprog (option (list byte * Z * bool)) :=
  reading (A := option (list byte * Z * bool)) (fun s => s !! SessionKey.native_session_id key ≫= fun r => output_page (SessionRuntime.mapper r) item_id offset limit).

Definition summary_from_catalog (thread : CatalogThread.t) : aprog SessionSummary.t :=
  do caps <- act ReadCapabilities;
  do mapper_summary <- reading (A := option SessionSummary.t) (fun s => (fun r => session_summary (SessionRuntime.mapper r)) <$> s !! CatalogThread.id thread);
  do ipc <- act GetIpc;
  do now <- act Utc_now;
  Ret (SessionSummary.mk
    (SessionKey.codex (CodexAdapterConfig.device_id config) (CatalogThread.id thread))
    (OutputText.mk <$> CatalogThread.title thread)
    AgentKind.CodexDesktop
    (CatalogThread.project_display_name thread)
    (CatalogThread.git_branch thread)
    (CatalogThread.updated_at thread)
    (match ipc with Some _ => DeviceConnection.Online | None => DeviceConnection.Degraded end)
    (Some now) None
    (CapabilitySet.control_mode caps)
    (CapabilitySet.compatibility_state caps)
    (default ActiveTurnPhase.Idle (SessionSummary.active_turn_phase <$> mapper_summary))
    (default 0 (SessionSummary.pending_attention_count <$> mapper_summary))
    (default [] (SessionSummary.pending_attention_kinds <$> mapper_summary))
    (default QueueState.Empty (SessionSummary.queue_state <$> mapper_summary))
    (default LastTurnOutcome.Unknown (SessionSummary.last_turn_outcome <$> mapper_summary))
    false false (CatalogThread.archived thread)).

Fixpoint summaries_from_catalog (threads : list CatalogThread.t) : aprog (list SessionSummary.t) :=
  match threads with
  | [] => Ret []
  | thread :: threads =>
      do s <- summary_from_catalog thread;
      do rest <- summaries_from_catalog threads;
      Ret (s :: rest)
  end.

Definition native_id_of (s : SessionSummary.t) : string := SessionKey.native_session_id (SessionSummary.session_key s).

(** The sessions known at run time that the catalog does not list. *)
Definition add_known (summaries : list SessionSummary.t) (known : list (string * SessionRuntime.t V)) : list SessionSummary.t :=
  foldl (fun acc '(_, r) =>
    if existsb (fun s => bool_decide (native_id_of s = SessionKey.native_session_id (SessionRuntime.key r))) acc then acc
    else acc ++ [session_summary (SessionRuntime.mapper r)]) summaries known.

Definition list_sessions (cursor : option string) (limit : Z) (include_archived : bool) : aprog (res AdapterError.t SessionPage.t) :=
  try? page <-
    (match CodexAdapterConfig.catalog config with
     | Some _ =>
         do r <- act (CatalogList cursor limit include_archived);
         match r with
         | Ok page =>
             do summaries <- summaries_from_catalog (SessionListPage.threads page);
             Ret (Ok (SessionPage.mk summaries (SessionListPage.next_cursor page) (SessionListPage.has_more page)))
         | Err (CatalogError.Unavailable _) => Ret (Ok (SessionPage.mk [] None false))
         | Err (CatalogError.Timeout _) => Ret (Err (AdapterError.Stable StableErrorCode.RateLimited "catalog query timed out"))
         | Err err => Ret (Err (AdapterError.Catalog (CatalogError.display err)))
         end
     | None =>
         do summaries <- summaries_from_catalog
           (filter (fun thread => include_archived || negb (CatalogThread.archived thread))
              (CodexAdapterConfig.static_sessions config));
         Ret (Ok (SessionPage.mk summaries None false))
     end);
  do sessions <- act (IterLocked (add_known (SessionPage.sessions page)));
  Ret (Ok (SessionPage.mk sessions (SessionPage.next_cursor page) (SessionPage.has_more page))).

Definition history_page (key : SessionKey.t) (cursor : option string) (limit : Z) : aprog (res AdapterError.t HistoryPage.t) :=
  match CodexAdapterConfig.catalog config with
  | None => Ret (offline "no catalog source configured")
  | Some _ =>
      do r <- act (CatalogHistory (SessionKey.native_session_id key) cursor limit);
      Ret match r with
          | Ok page => Ok (HistoryPage.mk (CatalogHistoryPage.entries page) (CatalogHistoryPage.next_cursor page) (CatalogHistoryPage.has_more page))
          | Err (CatalogError.Unavailable _) =>
              Err (AdapterError.Stable StableErrorCode.CapabilityUnsupported "history reading disabled by schema probe")
          | Err (CatalogError.Timeout _) => Err (AdapterError.Stable StableErrorCode.RateLimited "catalog query timed out")
          | Err err => Err (AdapterError.Catalog (CatalogError.display err))
          end
  end.

(** ** Commands *)

Definition capability_gate (caps : CapabilitySet.t) (op : Operation.t) : res AdapterError.t unit :=
  if CapabilitySet.supports caps op then Ok tt
  else if bool_decide (CapabilitySet.control_mode caps = ControlMode.ReadOnly) then
    Err (AdapterError.Stable StableErrorCode.ControlReadOnly "desktop capability probe did not enable this write")
  else Err (AdapterError.Stable StableErrorCode.CapabilityUnsupported "operation not supported by current desktop version").

(** The check of the expected revision and turn, under the lock. *)
Definition expectations (request : CommandRequest.t) (runtime : SessionRuntime.t V) : res AdapterError.t unit :=
  let stale_turn (message : string) : res AdapterError.t unit := Err (AdapterError.Stable StableErrorCode.StaleTurn message) in
  let current_turn := current_turn_id runtime in
  let? _ :=
    match CommandRequest.expected_runtime_revision request, SessionMapper.revision (SessionRuntime.mapper runtime) with
    | Some expected, Some current =>
        if negb (expected =? current) && negb (CommandRequest.permits_revision_drift request current_turn)
        then stale_turn ("runtime revision moved " +:+ pretty expected +:+ " -> " +:+ pretty current)
        else Ok tt
    | _, _ => Ok tt
    end in
  match CommandRequest.expected_turn_id request, current_turn with
  | Some expected_turn, Some current_turn =>
      if bool_decide (TurnId.id expected_turn <> TurnId.id current_turn)
      then stale_turn "target turn is no longer current"
      else Ok tt
  | _, _ => Ok tt
  end.

Definition answer_response_for (request_questions : list RequestsQuestion.t) (question_id : string) (answered_labels : list string)
    (free_text : option string) : res AdapterError.t (string * V) :=
  match find (fun request => bool_decide (RequestsQuestion.request_id request = question_id)) request_questions with
  | Some request =>
      let? response := map_err (AdapterError.Stable StableErrorCode.CapabilityUnsupported)
                         (build_request_answer_response request answered_labels free_text) in
      Ok (RequestsQuestion.request_id request, response)
  | None =>
      Ok (question_id, json_object [("answers", json_object
        [(question_id, json_object [("answers", json_array (answer_entries answered_labels free_text))])])])
  end.

Definition generic_write (cl : IpcClient.t) (owner m : string) (params : V) : aprog (res IpcError.t (ResponseFrame.t V)) :=
  on_client cl (request (IpcClient.client_id cl) (IpcClient.capacity cl) m params
    (RequestOptions.mk (Some owner) (Some LOCAL_HOST_ID) None)).

Definition map_ipc_write_error (err : IpcError.t) : AdapterError.t :=
  match err with
  | IpcError.Peer msg =>
      if contains_str msg "NoActiveTurn" || contains_str msg "SteerTurnInactive" then AdapterError.Stable StableErrorCode.StaleTurn msg
      else if contains_str msg "no-client-found" then
        AdapterError.Stable StableErrorCode.SessionNotFound "owner disappeared before write"
      else if contains_str msg "request-version-mismatch" then
        AdapterError.Stable StableErrorCode.CodexVersionUnverified "desktop rejected method version"
      else AdapterError_from err
  | IpcError.ConnectionLost _ | IpcError.NotConnected =>
      AdapterError.Stable StableErrorCode.OutcomeUnknown "connection lost during write; outcome unknown"
  | other => AdapterError_from other
  end.

(** The settings as the members of an object; a later value of a kind replaces the earlier. *)
Definition thread_settings (values : list SettingUpdate.t) : V :=
  build (JObject (foldl (fun m v => <[SettingKind.native_key (SettingUpdate.kind v) := json_string (SettingUpdate.value v)]> m)
                    ∅ values)).

(** [receipt!]: [tx] is what the channel holds. *)
Definition receipt (request : CommandRequest.t) (state : ReceiptState.t) (tx : list CommandReceipt.t) : aprog (list CommandReceipt.t) :=
  do at_ <- act Utc_now;
  Ret (tx ++ [CommandReceipt.mk (CommandRequest.request_id request) state (Some at_)]).

(** From the first receipt on: the native write and the last receipt. *)
Definition forwarded {T : Type} (request : CommandRequest.t) (write : aprog (res IpcError.t T)) : aprog (res AdapterError.t (list CommandReceipt.t)) :=
  do tx <- receipt request ReceiptState.DispatchedToCodex [];
  do r <- write;
  match r with
  | Err e => Ret (Err (map_ipc_write_error e))
  | Ok _ => do tx <- receipt request ReceiptState.Completed tx; Ret (Ok tx)
  end.

Definition with_gate {T : Type} (caps : CapabilitySet.t) (op : Operation.t) (k : aprog (res AdapterError.t T)) : aprog (res AdapterError.t T) :=
  try? _ <- lift (capability_gate caps op); k.

Definition execute_payload (caps : CapabilitySet.t) (cl : IpcClient.t) (owner conversation : string) (request : CommandRequest.t) :
    aprog (res AdapterError.t (list CommandReceipt.t)) :=
  let client_id := IpcClient.client_id cl in
  let capacity := IpcClient.capacity cl in
  match CommandRequest.payload request with
  | CommandPayload.StartTurn input =>
      with_gate caps Operation.StartTurn (forwarded request (on_client cl (start_turn client_id capacity owner
        (StartTurnParams.mk V conversation
           (TurnStart.mk V (TurnStartRequest.mk V conversation [InputBlock.text (OutputText.text input)] ∅) None)))))
  | CommandPayload.Steer input =>
      with_gate caps Operation.SteerTurn (
        do message <- reading (A := option V) (fun s => s !! conversation ≫= fun r => steer_restore_message (SessionRuntime.mapper r));
        match message with
        | None => Ret (offline "steer requires current session context")
        | Some restore_message =>
            forwarded request (on_client cl (steer_turn client_id capacity owner
              (SteerTurnParams.mk V conversation [InputBlock.text (OutputText.text input)] None None None None None (Some restore_message))))
        end)
  | CommandPayload.Interrupt =>
      with_gate caps Operation.InterruptTurn (
        match CommandRequest.expected_turn_id request with
        | None => Ret (Err (AdapterError.Stable StableErrorCode.InternalError "interrupt requires expected_turn_id"))
        | Some expected_turn =>
            forwarded request (on_client cl (interrupt_turn client_id capacity owner
              (interrupt_params conversation InterruptMode.UserStop (Some (TurnId.id expected_turn)))))
        end)
  | CommandPayload.AnswerQuestion question_id option_ids free_text =>
      with_gate caps Operation.AnswerQuestion (
        do request_questions <- reading (fun s =>
          default [] ((fun r => pending_request_questions (SessionRuntime.mapper r)) <$> s !! conversation));
        try? answer <- lift (answer_response_for request_questions question_id option_ids (OutputText.text <$> free_text));
        forwarded request (generic_write cl owner method.THREAD_FOLLOWER_SUBMIT_USER_INPUT
          (json_object [("conversationId", json_string conversation); ("requestId", json_string answer.1); ("response", answer.2)])))
  | CommandPayload.SubmitApproval approval_id decision_id =>
      with_gate caps Operation.SubmitApproval (
        forwarded request (generic_write cl owner method.THREAD_FOLLOWER_COMMAND_APPROVAL_DECISION
          (json_object [("conversationId", json_string conversation); ("requestId", json_string approval_id);
                        ("decision", json_string decision_id)])))
  | CommandPayload.UpdateSettings values =>
      with_gate caps Operation.UpdateSettings (
        forwarded request (generic_write cl owner method.THREAD_FOLLOWER_UPDATE_THREAD_SETTINGS
          (json_object [("conversationId", json_string conversation); ("threadSettings", thread_settings values)])))
  | CommandPayload.QueueNextTurn _ _ | CommandPayload.CancelQueue | CommandPayload.PauseQueue
  | CommandPayload.StopBackgroundCommand _ | CommandPayload.StopAllBackgroundCommands =>
      do tx <- receipt request (ReceiptState.Rejected StableErrorCode.CapabilityUnsupported
        ("queue lifecycle is owned by the commands layer; " +:+ "background-command stop has no verified native method")) [];
      Ret (Ok tx)
  end.

Definition execute_command (key : SessionKey.t) (request : CommandRequest.t) : aprog (res AdapterError.t (list CommandReceipt.t)) :=
  do caps <- act ReadCapabilities;
  let conversation := SessionKey.native_session_id key in
  try? owner <- ensure_owner conversation;
  try? cl <- current_ipc;
  try? _ <- reading (fun s => match s !! conversation with Some r => expectations request r | None => Ok tt end);
  execute_payload caps cl owner conversation request.

(** ** The pump *)

Definition dispatch_to_watchers (watchers : list Z) (events : list DomainEvent.t) : aprog unit :=
  foldr (fun event k => perform (foldr (fun watcher k => perform act (Deliver watcher event); k) (Ret tt) watchers); k) (Ret tt) events.

(** A change of a registered session: what it emits, its watchers, and whether a snapshot is asked for. *)
Definition change_runtime (clock : string -> Z) (caps : CapabilitySet.t) (change : StreamChange.t V) (r : SessionRuntime.t V) :
    option ((list DomainEvent.t * list Z * bool) * SessionRuntime.t V) :=
  let m := set_capabilities (SessionRuntime.mapper r) caps in
  match change with
  | StreamChange.Snapshot revision state =>
      x ← apply_snapshot clock m revision state;
      Some ((x.2, SessionRuntime.watchers r, false), SessionRuntime.with_mapper x.1 r)
  | StreamChange.Patches base_revision revision patches =>
      x ← apply_patches clock m base_revision revision patches;
      match x.2 with
      | Applied events => Some ((events, SessionRuntime.watchers r, false), SessionRuntime.with_mapper x.1 r)
      | ResyncNeeded => Some (([], SessionRuntime.watchers r, true), SessionRuntime.with_mapper x.1 r)
      end
  end.

Definition stream_changed (clock : string -> Z) (caps : CapabilitySet.t) (params : StreamStateChangedParams.t V) (s : Sessions) :
    option (option (list DomainEvent.t * list Z * bool) * Sessions) :=
  let conversation := StreamStateChangedParams.conversation_id params in
  match s !! conversation with
  | None => Some (None, s)
  | Some r =>
      x ← change_runtime clock caps (StreamStateChangedParams.change params) r;
      Some (Some x.1, <[conversation := x.2]> s)
  end.

(** The sessions that are followed are announced on [cl]. *)
Fixpoint announce_following (cl : IpcClient.t) (conversations : list string) : aprog unit :=
  match conversations with
  | [] => Ret tt
  | conversation :: conversations =>
      perform on_client cl (set_following (IpcClient.client_id cl) (following_params conversation) None);
      announce_following cl conversations
  end.

Definition followed (known : list (string * SessionRuntime.t V)) : list string :=
  map fst (filter (fun '(_, r) => SessionRuntime.following r) known).

(** One event in [pump_loop]. *)
Definition pump_event (cl : IpcClient.t) (event : IpcEvent.t V) : aprog unit :=
  match event with
  | IpcEvent.StreamChanged params =>
      do caps <- act ReadCapabilities;
      do clock <- act InstantOf;
      do found <- act (Locked (stream_changed clock caps params));
      match found with
      | None => Ret tt
      | Some (events, watchers, resync) =>
          perform (if resync : bool then act (SpawnTask cl (LoadHistory (StreamStateChangedParams.conversation_id params))) else Ret tt);
          dispatch_to_watchers watchers events
      end
  | IpcEvent.Broadcast m _ _ =>
      if bool_decide (m = method.CLIENT_STATUS_CHANGED) || bool_decide (m = method.THREAD_STREAM_FOLLOWING_STATUS_REQUESTED) then
        do following <- act (IterLocked followed);
        announce_following cl following
      else Ret tt
  | IpcEvent.UnknownBroadcast _ => Ret tt
  end.

Definition flush_runtime (now : Z) (conversation : string) (s : Sessions) :
    option (option (list DomainEvent.t * list Z) * Sessions) :=
  match s !! conversation with
  | None => Some (None, s)
  | Some r =>
      x ← flush_due_outputs (SessionRuntime.mapper r) now;
      Some (Some (x.2, SessionRuntime.watchers r), <[conversation := SessionRuntime.with_mapper x.1 r]> s)
  end.

Fixpoint flush_each (conversations : list string) : aprog unit :=
  match conversations with
  | [] => Ret tt
  | conversation :: conversations =>
      do now <- act Instant;
      do found <- act (Locked (flush_runtime now conversation));
      perform (match found with Some (events, watchers) => dispatch_to_watchers watchers events | None => Ret tt end);
      flush_each conversations
  end.

(** One tick of the flush timer. *)
Definition flush_due_outputs_all : aprog unit :=
  do conversations <- act (IterLocked (map fst));
  flush_each conversations.

(** ** Attaching *)

(** Waits are in seconds. *)
Definition ATTACH_BACKOFF_STEPS : list Z := [1; 2; 5; 10].
Definition ATTACH_MAX_BACKOFF : Z := 30.
Definition ATTACH_CONNECTED_POLL : Z := 30.

Definition attach_backoff (failures : Z) : Z :=
  Z.min (default ATTACH_MAX_BACKOFF (ATTACH_BACKOFF_STEPS !! Z.to_nat (Z.max 0 (failures - 1)))) ATTACH_MAX_BACKOFF.

Definition capability_probe_input (version_report : option string) (write_methods : WriteMethodProbes.t) (ipc_connected : bool) :
    CapabilityProbeInput.t :=
  CapabilityProbeInput.mk version_report (default false (version_is_verified <$> version_report)) false ipc_connected ipc_connected
    write_methods
    (default false (CatalogCapabilities.sessions_listable <$> CodexAdapterConfig.catalog config))
    (default false (CatalogCapabilities.history_readable <$> CodexAdapterConfig.catalog config))
    ipc_connected [].

(** [connect]: the state of a new adapter; [ipc]: the client, when the first attempt succeeded. *)
Definition connected (ipc : option IpcClient.t) (conns : gmap Z (Conn.t V)) (now : Z) : World.t V :=
  World.mk V ipc
    (probe (capability_probe_input (CodexAdapterConfig.version_report config) (CodexAdapterConfig.write_method_probes config)
              (match ipc with Some _ => true | None => false end)))
    ∅ (match ipc with Some _ => 1 | None => 0 end) ipc conns now.

(** The version a new connection is trusted with, and the probes of its write methods. *)
Definition reassess_version : aprog (option string * WriteMethodProbes.t) :=
  match CodexAdapterConfig.version_binary config with
  | None => Ret (CodexAdapterConfig.version_report config, CodexAdapterConfig.write_method_probes config)
  | Some binary =>
      do r <- act (ProbeVersion binary);
      Ret match r with
          | Ok fresh =>
              let unchanged := match CodexAdapterConfig.version_report config with
                               | Some configured => bool_decide (normalized_version fresh = normalized_version configured)
                               | None => true
                               end in
              (Some fresh, if unchanged then CodexAdapterConfig.write_method_probes config else WriteMethodProbes.default)
          | Err _ => (None, WriteMethodProbes.default)
          end
  end.

Definition try_attach : aprog (res IpcError.t unit) :=
  if negb (CodexAdapterConfig.ipc_configured config) then Ret (Err IpcError.NotConnected)
  else
    try? cl <- act Connect;
    perform act NextGeneration;
    do version <- reassess_version;
    let capabilities := probe (capability_probe_input version.1 version.2 true) in
    perform act AbortPump;
    perform act (SetIpc cl);
    perform act (SetCaps capabilities);
    perform act (SpawnPump cl);
    do following <- act (IterLocked followed);
    perform announce_following cl following;
    Ret (Ok tt).

(** One round of [attach_supervisor] after its wait: the failures and the next wait. *)
Definition supervise (failures : Z) : aprog (Z * Z) :=
  do connected <- act IsConnected;
  if connected : bool then Ret (0, ATTACH_CONNECTED_POLL)
  else
    do r <- try_attach;
    Ret match r with
        | Ok _ => (0, ATTACH_CONNECTED_POLL)
        | Err _ => let failures := Z.min u32_max (failures + 1) in (failures, attach_backoff failures)
        end.
End Adapter.
