(* ===== verification/Catalog.v ===== *)
(** * The catalog of Codex sessions ([adapter/codex/catalog.rs])

    What is read of the two SQLite databases of Codex Desktop: which columns exist, the list of sessions, the history of
    one, and its child tasks.  A database is its tables and their columns; a statement reads it at once and fails when it
    names a column that is not there, runs out of time, or fails otherwise ([Fault]).  Columns have the types of the
    schema, and [projects] has no column [archived].  The order in which SQLite finds rows is [scan].  *)

From S2P Require Import Prelude RustStr Text Domain Json Projection Ipc Adapter.

Definition DEFAULT_QUERY_TIMEOUT : Z := 2000.
Definition DEFAULT_PAGE_SIZE : Z := 50.
Definition MAX_PAGE_SIZE : Z := 200.

Module CatalogConfig.
Record t := mk {
  codex_home : option string;
  query_timeout : Z;
  default_page_size : Z;
  max_page_size : Z;
}.
Definition default : t := mk None DEFAULT_QUERY_TIMEOUT DEFAULT_PAGE_SIZE MAX_PAGE_SIZE.
End CatalogConfig.

(** [domain::Turn]. *)
Module Turn.
Record t := mk {
  turn_id : TurnId.t;
  created_at : option DateTime;
  updated_at : option DateTime;
  phase : ActiveTurnPhase.t;
  outcome : option LastTurnOutcome.t;
}.
End Turn.

(** [CatalogHistoryPage] with its turns. *)
Module HistoryRead.
Record t := mk {
  page : CatalogHistoryPage.t;
  turns : list Turn.t;
}.
End HistoryRead.

(** ** The databases *)

Module ThreadRow.
Record t := mk {
  title : option string;
  cwd : option string;
  archived : option Z;
  git_branch : option string;
  model : option string;
  reasoning_effort : option string;
  agent_nickname : option string;
  agent_role : option string;
  created_at : option Z;
  updated_at : option Z;
  updated_at_ms : option Z;
  project_id : option string;
}.
End ThreadRow.

(** A table that does not exist has no columns.  An edge: parent, child, status. *)
Module StateDb.
Record t := mk {
  threads_cols : list string;
  threads : gmap string ThreadRow.t;
  projects_cols : list string;
  projects : gmap string (option string);
  edges_cols : list string;
  edges : list (string * string * string);
}.
End StateDb.

Module TurnRow.
Record t := mk {
  status : string;
  started_at : option Z;
  completed_at : option Z;
}.
End TurnRow.

Module ItemRow.
Record t := mk {
  turn_id : string;
  item_id : string;
  rollout_ordinal : Z;
  item_type : string;
  item_json : string;
  created_at_ms : option Z;
}.
End ItemRow.

(** Turns by thread and id; items with their thread. *)
Module HistoryDb.
Record t := mk {
  turns_cols : list string;
  turns : gmap (string * string) TurnRow.t;
  items_cols : list string;
  items : list (string * ItemRow.t);
}.
End HistoryDb.

Inductive Fault :=
| TimedOut
| Failing (text : string).

Module CodexCatalog.
Record t := mk {
  has_state : bool;
  has_history : bool;
  caps : CatalogCapabilities.t;
  threads_cols : list string;
  has_updated_at_ms : bool;
  timeout : Z;
  default_page_size : Z;
  max_page_size : Z;
}.
End CodexCatalog.

Definition has (cols : list string) (name : string) : bool := bool_decide (name ∈ cols).
Definition has_all (cols names : list string) : bool := forallb (has cols) names.

(** ** Opening *)

Definition parse_u32 (s : string) : option Z := n ← parse_u64 s; if n <=? u32_max then Some n else None.

Definition version_of (prefix suffix name : string) : option Z :=
  rest ← strip_prefix prefix name; number ← strip_suffix suffix rest; parse_u32 number.

(** The first of the files with the highest number. *)
Fixpoint best_version (prefix suffix : string) (best : option (Z * string)) (names : list string) : option (Z * string) :=
  match names with
  | [] => best
  | name :: names =>
      best_version prefix suffix
        match version_of prefix suffix name with
        | Some n => if match best with Some (b, _) => b <? n | None => true end then Some (n, name) else best
        | None => best
        end names
  end.

(** [listing]: the names in the directory, or [None] when it cannot be read. *)
Definition probe_versioned (listing : option (list string)) (prefix suffix : string) : option string :=
  names ← listing; snd <$> best_version prefix suffix None names.

Definition sessions_listable (d : StateDb.t) : bool := has_all (StateDb.threads_cols d) ["id"; "title"; "updated_at"].
Definition project_names_readable (d : StateDb.t) : bool := negb (bool_decide (StateDb.projects_cols d = [])) && has (StateDb.projects_cols d) "name".
Definition spawn_edges_readable (d : StateDb.t) : bool := has_all (StateDb.edges_cols d) ["parent_thread_id"; "child_thread_id"].
Definition history_readable (d : HistoryDb.t) : bool :=
  has_all (HistoryDb.turns_cols d) ["thread_id"; "turn_id"; "rollout_ordinal"; "status"] &&
  has_all (HistoryDb.items_cols d) ["thread_id"; "turn_id"; "item_id"; "rollout_ordinal"; "item_type"; "item_json"].

Definition of_db {D : Type} (f : D -> bool) (d : option D) : bool := match d with Some d => f d | None => false end.

(** The rest of [open], with the files found and what is in them. *)
Definition opened (config : CatalogConfig.t) (state_file history_file : option string) (state : option StateDb.t) (history : option HistoryDb.t) : CodexCatalog.t :=
  CodexCatalog.mk (bool_decide (is_Some state)) (bool_decide (is_Some history))
    (CatalogCapabilities.mk state_file history_file (of_db sessions_listable state) (of_db history_readable history)
       (of_db spawn_edges_readable state) (of_db project_names_readable state))
    (match state with Some d => StateDb.threads_cols d | None => [] end)
    (of_db (fun d => has (StateDb.threads_cols d) "updated_at_ms") state)
    (CatalogConfig.query_timeout config) (Z.max 1 (CatalogConfig.default_page_size config)) (Z.max 1 (CatalogConfig.max_page_size config)).

(** Open the file, if there is one. *)
Definition open_found {D : Type} (open_file : string -> res CatalogError.t D) (file : option string) : res CatalogError.t (option D) :=
  match file with
  | Some file => let? d := open_file file in Ok (Some d)
  | None => Ok None
  end.

(** [default_home]: [default_codex_home]; [listing] and the databases depend on the directory. *)
Definition open_catalog (default_home : option string) (listing : string -> option (list string))
    (open_state : string -> string -> res CatalogError.t StateDb.t) (open_history : string -> string -> res CatalogError.t HistoryDb.t)
    (config : CatalogConfig.t) : res CatalogError.t CodexCatalog.t :=
  let? home := match CatalogConfig.codex_home config with
               | Some home => Ok home
               | None => ok_or (CatalogError.Unavailable "codex home not found") default_home
               end in
  let state_file := probe_versioned (listing home) "state_" ".sqlite" in
  let history_file := probe_versioned (listing home) "thread_history_" ".sqlite" in
  let? state := open_found (open_state home) state_file in
  let? history := open_found (open_history home) history_file in
  Ok (opened config state_file history_file state history).

Definition clamp_page_size (c : CodexCatalog.t) (limit : Z) : Z :=
  if limit =? 0 then CodexCatalog.default_page_size c else Z.min limit (CodexCatalog.max_page_size c).

(** [run]: [None] for rows is a statement that names a missing column. *)
Definition run {A : Type} (c : CodexCatalog.t) (fault : option Fault) (rows : option A) : res CatalogError.t A :=
  if CodexCatalog.timeout c =? 0 then Err (CatalogError.Timeout 0)
  else match fault with
       | Some TimedOut => Err (CatalogError.Timeout (CodexCatalog.timeout c))
       | Some (Failing text) => Err (CatalogError.Sql text)
       | None => ok_or (CatalogError.Sql "no such column") rows
       end.

(** ** Cursors *)

Definition parse_i64 (s : string) : option Z :=
  match strip_prefix "-" s with
  | Some digits => if starts_with digits "+" then None else n ← parse_u64 digits; if n <=? i64_max + 1 then Some (- n) else None
  | None => n ← parse_u64 s; if n <=? i64_max then Some n else None
  end.

Definition parse_list_cursor (cursor : string) : option (Z * string) :=
  '(ms, id) ← split_once colon cursor; ms ← parse_i64 ms; Some (ms, id).

Definition parse_history_cursor (cursor : string) : option Z := rest ← strip_prefix "before:" cursor; parse_i64 rest.

(** ** Reading *)

Section Reading.
Context {V : Type} `{SerdeJson V} `{Chrono}.
(** [serde_json::from_str]. *)
Variable json_from_str : string -> option V.
Variable scan : forall A, list A -> list A.

Definition secs_to_datetime (secs : Z) : option DateTime := if secs <=? 0 then None else timestamp_millis (secs * 1000).

Definition OPTIONAL_COLUMNS : list string :=
  ["cwd"; "archived"; "git_branch"; "model"; "reasoning_effort"; "agent_nickname"; "agent_role"; "created_at"; "updated_at"].

Definition thread_select_cols (c : CodexCatalog.t) : list string := ["id"; "title"] ++ filter (fun x => has (CodexCatalog.threads_cols c) x = true) OPTIONAL_COLUMNS.

(** [COALESCE(t.updated_at_ms, t.updated_at * 1000)], or without the first when there is no such column. *)
Definition updated_ms (c : CodexCatalog.t) (r : ThreadRow.t) : option Z :=
  match (if CodexCatalog.has_updated_at_ms c then ThreadRow.updated_at_ms r else None) with
  | Some ms => Some ms
  | None => (fun s => s * 1000) <$> ThreadRow.updated_at r
  end.

(** The columns of [threads] and [projects] a statement over threads names. *)
Definition thread_columns (c : CodexCatalog.t) (archived_clause : bool) : list string :=
  thread_select_cols c ++ ["updated_at"] ++ (if CodexCatalog.has_updated_at_ms c then ["updated_at_ms"] else []) ++
  (if archived_clause then ["archived"] else []) ++ (if CatalogCapabilities.project_names_readable (CodexCatalog.caps c) then ["project_id"] else []).

Definition project_columns (c : CodexCatalog.t) : list string :=
  if CatalogCapabilities.project_names_readable (CodexCatalog.caps c) then ["id"; "name"] else [].

Definition resolves (c : CodexCatalog.t) (archived_clause : bool) (d : StateDb.t) : bool :=
  has_all (StateDb.threads_cols d) (thread_columns c archived_clause) && has_all (StateDb.projects_cols d) (project_columns c).

(** A value of a row, if its column was selected. *)
Definition selected {A : Type} (c : CodexCatalog.t) (name : string) (value : option A) : option A := if has (thread_select_cols c) name then value else None.

Definition project_name (c : CodexCatalog.t) (d : StateDb.t) (r : ThreadRow.t) : option string :=
  if CatalogCapabilities.project_names_readable (CodexCatalog.caps c) then id ← ThreadRow.project_id r; mjoin (StateDb.projects d !! id) else None.

(** A [CatalogThread] of a row. *)
Definition thread_of (c : CodexCatalog.t) (d : StateDb.t) (row : string * ThreadRow.t) : CatalogThread.t :=
  let '(id, r) := row in
  CatalogThread.mk id (ThreadRow.title r)
    (match project_name c d r with Some name => Some name | None => selected c "cwd" (ThreadRow.cwd r) ≫= project_display_from_cwd end)
    (selected c "model" (ThreadRow.model r)) (selected c "reasoning_effort" (ThreadRow.reasoning_effort r))
    (selected c "git_branch" (ThreadRow.git_branch r)) (selected c "created_at" (ThreadRow.created_at r) ≫= secs_to_datetime)
    (updated_ms c r ≫= ms_to_datetime) (negb (default 0 (selected c "archived" (ThreadRow.archived r)) =? 0))
    (selected c "agent_nickname" (ThreadRow.agent_nickname r)) (selected c "agent_role" (ThreadRow.agent_role r)).

(** [ORDER BY updated_ms DESC, t.id DESC]; [NULL] is less than any number. *)
Definition row_key (c : CodexCatalog.t) (row : string * ThreadRow.t) : option Z * string := (updated_ms c row.2, row.1).

Definition key_lt (a b : option Z * string) : bool :=
  match a.1, b.1 with
  | Some x, Some y => pair_lt (x, a.2) (y, b.2)
  | None, None => String.ltb a.2 b.2
  | None, Some _ => true
  | Some _, None => false
  end.

Definition listed (include_archived : bool) (row : string * ThreadRow.t) : bool := include_archived || bool_decide (ThreadRow.archived row.2 = Some 0).

Definition all_threads (c : CodexCatalog.t) (include_archived : bool) (d : StateDb.t) : list (string * ThreadRow.t) :=
  merge_sort (not_before key_lt (row_key c)) (filter (fun row => listed include_archived row = true) (map_to_list (StateDb.threads d))).

(** The cursor condition; a comparison with [NULL] is not true. *)
Definition before_cursor (c : CodexCatalog.t) (before : option (Z * string)) (row : string * ThreadRow.t) : bool :=
  match before with
  | None => true
  | Some k => match updated_ms c row.2 with Some ms => pair_lt (ms, row.1) k | None => false end
  end.

Definition list_statement (c : CodexCatalog.t) (include_archived : bool) (before : option (Z * string)) (limit : Z) (d : StateDb.t) : option (list (string * ThreadRow.t)) :=
  if resolves c (negb include_archived) d
  then Some (take (Z.to_nat (limit + 1)) (filter (fun row => before_cursor c before row = true) (all_threads c include_archived d)))
  else None.

Definition list_cursor (t : CatalogThread.t) : string := pretty (default 0 (CatalogThread.updated_at t)) +:+ ":" +:+ CatalogThread.id t.

Definition list_sessions (c : CodexCatalog.t) (fault : option Fault) (d : StateDb.t) (cursor : option string) (limit : Z) (include_archived : bool) :
    res CatalogError.t SessionListPage.t :=
  if negb (CodexCatalog.has_state c && CatalogCapabilities.sessions_listable (CodexCatalog.caps c))
  then Err (CatalogError.Unavailable "sessions listing disabled by schema probe")
  else
    let limit := clamp_page_size c limit in
    let? rows := run c fault (list_statement c include_archived (cursor ≫= parse_list_cursor) limit d) in
    let has_more := limit <? zlen rows in
    let threads := map (thread_of c d) (take (Z.to_nat limit) rows) in
    Ok (SessionListPage.mk threads (if has_more then list_cursor <$> last threads else None) has_more).

(** *** History *)

Definition turn_from_status (turn_id : string) (r : TurnRow.t) : Turn.t :=
  Turn.mk (TurnId.native turn_id) None
    (match TurnRow.completed_at r ≫= ms_to_datetime with Some t => Some t | None => TurnRow.started_at r ≫= ms_to_datetime end)
    (if bool_decide (TurnRow.status r = "inProgress") then ActiveTurnPhase.Running else ActiveTurnPhase.Idle)
    (map_turn_outcome (Some (TurnRow.status r))).

(** Items of the thread that have a turn, with it, the latest first. *)
Definition thread_items (thread_id : string) (d : HistoryDb.t) : list (ItemRow.t * TurnRow.t) :=
  omap (fun '(thread, i) => if bool_decide (thread = thread_id) then (i,.) <$> HistoryDb.turns d !! (thread, ItemRow.turn_id i) else None) (HistoryDb.items d).

Definition ordinal (row : ItemRow.t * TurnRow.t) : Z := ItemRow.rollout_ordinal row.1.

Definition all_items (thread_id : string) (d : HistoryDb.t) : list (ItemRow.t * TurnRow.t) :=
  merge_sort (not_before Z.ltb ordinal) (scan _ (thread_items thread_id d)).

Definition history_resolves (d : HistoryDb.t) : bool :=
  has_all (HistoryDb.items_cols d) ["thread_id"; "turn_id"; "item_id"; "item_type"; "item_json"; "created_at_ms"; "rollout_ordinal"] &&
  has_all (HistoryDb.turns_cols d) ["thread_id"; "turn_id"; "status"; "started_at"; "completed_at"; "duration_ms"].

Definition history_statement (thread_id : string) (before limit : Z) (d : HistoryDb.t) : option (list (ItemRow.t * TurnRow.t)) :=
  if history_resolves d then Some (take (Z.to_nat (limit + 1)) (filter (fun row => (ordinal row <? before) = true) (all_items thread_id d))) else None.

Definition item_content (r : ItemRow.t) : ItemContent.t :=
  let parsed := default json_null (json_from_str (ItemRow.item_json r)) in
  match view parsed with
  | JNull => ItemContent.Opaque (ItemRow.item_type r)
  | _ => parse_item_content (ItemRow.item_type r) parsed
  end.

Definition entry_of (row : ItemRow.t * TurnRow.t) : HistoryEntry.t :=
  let r := row.1 in
  HistoryEntry.mk (TurnId.native (ItemRow.turn_id r))
    (Item.mk (ItemId.native (ItemRow.item_id r)) (Some (TurnId.native (ItemRow.turn_id r))) 0 (ItemRow.created_at_ms r ≫= ms_to_datetime) (item_content r)).

Definition turns_of (rows : list (ItemRow.t * TurnRow.t)) : list Turn.t :=
  bt_values (fold_left (fun m row => bt_or_insert (ItemRow.turn_id row.1) (turn_from_status (ItemRow.turn_id row.1) row.2) m) rows ∅).

Definition history_cursor (row : ItemRow.t * TurnRow.t) : string := "before:" +:+ pretty (ordinal row).

Definition session_history (c : CodexCatalog.t) (fault : option Fault) (d : HistoryDb.t) (thread_id : string) (cursor : option string) (limit : Z) :
    res CatalogError.t HistoryRead.t :=
  if negb (CodexCatalog.has_history c && CatalogCapabilities.history_readable (CodexCatalog.caps c))
  then Err (CatalogError.Unavailable "history reading disabled by schema probe")
  else
    let limit := clamp_page_size c limit in
    let before := default i64_max (cursor ≫= parse_history_cursor) in
    let? rows := run c fault (history_statement thread_id before limit d) in
    let has_more := limit <? zlen rows in
    let page := take (Z.to_nat limit) rows in
    Ok (HistoryRead.mk (CatalogHistoryPage.mk (map entry_of page) (if has_more then history_cursor <$> last page else None) has_more) (turns_of page)).

(** *** Child tasks *)

Definition child_rows (c : CodexCatalog.t) (parent : string) (d : StateDb.t) : list (string * ThreadRow.t) :=
  omap (fun '(p, child, status) => if bool_decide (p = parent /\ status = "open") then (child,.) <$> StateDb.threads d !! child else None) (StateDb.edges d).

Definition updated_before (c : CodexCatalog.t) (a b : string * ThreadRow.t) : Prop :=
  match updated_ms c a.2, updated_ms c b.2 with
  | Some x, Some y => y <= x
  | None, Some _ => False
  | _, None => True
  end.
#[global] Instance updated_before_dec (c : CodexCatalog.t) (a b : string * ThreadRow.t) : Decision (updated_before c a b).
Proof. unfold updated_before. repeat case_match; apply _. Defined.

Definition child_statement (c : CodexCatalog.t) (parent : string) (d : StateDb.t) : option (list (string * ThreadRow.t)) :=
  if resolves c false d && has_all (StateDb.edges_cols d) ["parent_thread_id"; "child_thread_id"; "status"]
  then Some (take 200 (merge_sort (updated_before c) (scan _ (child_rows c parent d)))) else None.

Definition child_threads (c : CodexCatalog.t) (fault : option Fault) (d : StateDb.t) (parent : string) : res CatalogError.t (list CatalogThread.t) :=
  if negb (CodexCatalog.has_state c && CatalogCapabilities.spawn_edges_readable (CodexCatalog.caps c))
  then Err (CatalogError.Unavailable "spawn edges disabled by schema probe")
  else let? rows := run c fault (child_statement c parent d) in Ok (map (thread_of c d) rows).

(** *** Following the cursors *)

Fixpoint list_all (fuel : nat) (c : CodexCatalog.t) (d : StateDb.t) (cursor : option string) (limit : Z) (include_archived : bool) : option (list CatalogThread.t) :=
  match fuel with
  | O => None
  | S fuel =>
      match list_sessions c None d cursor limit include_archived with
      | Ok page =>
          match SessionListPage.next_cursor page with
          | None => Some (SessionListPage.threads page)
          | Some next => rest ← list_all fuel c d (Some next) limit include_archived; Some (SessionListPage.threads page ++ rest)
          end
      | Err _ => None
      end
  end.

Fixpoint history_all (fuel : nat) (c : CodexCatalog.t) (d : HistoryDb.t) (thread_id : string) (cursor : option string) (limit : Z) : option (list HistoryEntry.t) :=
  match fuel with
  | O => None
  | S fuel =>
      match session_history c None d thread_id cursor limit with
      | Ok read =>
          let page := HistoryRead.page read in
          match CatalogHistoryPage.next_cursor page with
          | None => Some (CatalogHistoryPage.entries page)
          | Some next => rest ← history_all fuel c d thread_id (Some next) limit; Some (CatalogHistoryPage.entries page ++ rest)
          end
      | Err _ => None
      end
  end.

(** Times as the cursor can carry them: after 1970 and within what [chrono] represents. *)
Definition times_ok (c : CodexCatalog.t) (d : StateDb.t) : Prop :=
  map_Forall (fun _ r => exists ms, updated_ms c r = Some ms /\ 0 < ms <= i64_max /\ timestamp_millis ms = Some ms) (StateDb.threads d).

End Reading.

(** ** Proofs *)

(** *** Cursors are read back *)

Lemma parse_i64_pretty (z : Z) : - (i64_max + 1) <= z <= i64_max -> parse_i64 (pretty z) = Some z.
Proof.
  intros R. unfold parse_i64. destruct (Z.leb_spec 0 z) as [P|P].
  - destruct (strip_prefix "-" (pretty z)) as [rest|] eqn:E.
    + apply strip_prefix_Some in E. pose proof (pretty_Z_digits z P) as D. rewrite E in D. vm_compute in D. discriminate D.
    + rewrite parse_u64_pretty_Z by (unfold is_u64, u64_max, i64_max in *; lia). cbn [mbind option_bind]. by rewrite (proj2 (Z.leb_le _ _)) by lia.
  - replace (pretty z) with ("-" +:+ pretty (- z)) by by destruct z.
    rewrite strip_prefix_app. replace (starts_with (pretty (- z)) "+") with false.
    + rewrite parse_u64_pretty_Z by (unfold is_u64, u64_max, i64_max in *; lia). cbn [mbind option_bind]. rewrite (proj2 (Z.leb_le _ _)) by lia. f_equal. lia.
    + pose proof (pretty_Z_digits (- z) ltac:(lia)) as D. destruct (pretty (- z)) as [|a s]; [done|]. simpl in D. apply andb_true_iff in D as [D _].
      unfold starts_with. simpl. destruct a as [[] [] [] [] [] [] [] []]; vm_compute in D; (discriminate D || reflexivity).
Qed.

Lemma pretty_Z_no_colon (z : Z) : contains_char colon (pretty z) = false.
Proof.
  destruct (Z.leb_spec 0 z) as [P|P]; [eapply contains_char_all; [by apply pretty_Z_digits|done]|].
  replace (pretty z) with ("-" +:+ pretty (- z)) by by destruct z. change (contains_char colon (pretty (- z)) = false). eapply contains_char_all; [apply pretty_Z_digits; lia|done].
Qed.

Lemma list_cursor_reads (ms : Z) (id : string) : - (i64_max + 1) <= ms <= i64_max -> parse_list_cursor (pretty ms +:+ ":" +:+ id) = Some (ms, id).
Proof.
  intros R. unfold parse_list_cursor. change (":" +:+ id) with (String colon id). rewrite split_once_here by apply pretty_Z_no_colon.
  cbn [mbind option_bind]. by rewrite parse_i64_pretty.
Qed.

Lemma history_cursor_reads (row : ItemRow.t * TurnRow.t) : - (i64_max + 1) <= ordinal row <= i64_max -> parse_history_cursor (history_cursor row) = Some (ordinal row).
Proof. intros R. unfold parse_history_cursor, history_cursor. rewrite strip_prefix_app. cbn [mbind option_bind]. by apply parse_i64_pretty. Qed.

Section Lists.
Context `{Chrono}.

(** *** The order of the rows *)

Definition key_le (a b : option Z * string) : Prop :=
  match a.1, b.1 with
  | Some x, Some y => pair_le (x, a.2) (y, b.2)
  | None, None => String.le a.2 b.2
  | None, Some _ => True
  | Some _, None => False
  end.

Lemma key_lt_false (a b : option Z * string) : key_lt a b = false <-> key_le b a.
Proof.
  destruct a as [[x|] i], b as [[y|] j]; unfold key_lt, key_le; simpl; [apply pair_lt_false|done|done|].
  unfold String.le. rewrite string_ltb_leb. by destruct (String.leb j i).
Qed.

Lemma key_order :
  (forall a b c, key_lt a b = false -> key_lt b c = false -> key_lt a c = false) /\ (forall a b, key_lt a b = false \/ key_lt b a = false) /\
  (forall a b, key_lt a b = false -> key_lt b a = false -> a = b).
Proof.
  split_and!; intros [[x|] i] [[y|] j]; [intros [[z|] k]..| | | | | | | |]; rewrite !key_lt_false; unfold key_le; simpl; try tauto; try done.
  all: try (intros X Y; by etrans). 
  - apply total, _.
  - destruct (total String.le j i); auto.
  - intros X Y. by pose proof (anti_symm pair_le _ _ X Y) as [= -> ->].
  - intros X Y. f_equal. by apply (anti_symm String.le).
Qed.

Lemma key_lt_irrefl (a : option Z * string) : key_lt a a = false.
Proof. destruct (proj1 (proj2 key_order) a a); done. Qed.

Lemma key_lt_asym (a b : option Z * string) : key_lt a b = true -> key_lt b a = false.
Proof. intros L. destruct (proj1 (proj2 key_order) a b) as [E|E]; [congruence|done]. Qed.

Lemma elem_of_all_threads (c : CodexCatalog.t) (include_archived : bool) (d : StateDb.t) (id : string) (r : ThreadRow.t) :
  (id, r) ∈ all_threads c include_archived d <-> StateDb.threads d !! id = Some r /\ listed include_archived (id, r) = true.
Proof. unfold all_threads. rewrite merge_sort_Permutation, list_elem_of_filter, elem_of_map_to_list. tauto. Qed.

Lemma NoDup_all_threads (c : CodexCatalog.t) (include_archived : bool) (d : StateDb.t) : NoDup (all_threads c include_archived d).*1.
Proof.
  unfold all_threads. rewrite merge_sort_Permutation. eapply sublist_NoDup; [apply (NoDup_fst_map_to_list (StateDb.threads d))|]. apply fmap_sublist, sublist_filter.
Qed.

Lemma descending_all_threads (c : CodexCatalog.t) (include_archived : bool) (d : StateDb.t) :
  descending key_lt (row_key c) (all_threads c include_archived d).
Proof.
  destruct key_order as (T & O & A). apply descending_sort; [done..|]. pose proof (NoDup_all_threads c include_archived d) as N.
  unfold all_threads in N. rewrite merge_sort_Permutation in N. clear -N. revert N. generalize (filter (fun row => listed include_archived row = true) (map_to_list (StateDb.threads d))).
  intros l. induction l as [|[id r] l IH]; simpl; intros N; [constructor|]. inversion N as [|? ? N1 N2]; subst. constructor; [|by apply IH].
  intros E. apply N1. apply list_elem_of_fmap in E as ([id' r'] & E & I). injection E as _ ->. apply list_elem_of_fmap. by exists (id', r').
Qed.

(** *** A page *)

Lemma cut_page_take {A} (n : nat) (rows page : list A) (more : option A) :
  (length rows <= S n)%nat -> cut_page n rows = (page, more) -> page = take n rows /\ more = if (n <? length rows)%nat then last page else None.
Proof.
  unfold cut_page. intros L. destruct (Nat.ltb_spec n (length rows)); intros [= <- <-]; [|by rewrite take_ge by lia].
  by replace (length rows - 1)%nat with n by lia.
Qed.

Lemma ltb_zlen {A} (limit : Z) (rows : list A) : 0 <= limit -> (limit <? zlen rows) = (Z.to_nat limit <? length rows)%nat.
Proof. intros L. unfold zlen. destruct (Z.ltb_spec limit (Z.of_nat (length rows))), (Nat.ltb_spec (Z.to_nat limit) (length rows)); done || lia. Qed.

Lemma clamp_positive (config : CatalogConfig.t) f1 f2 s h (limit : Z) : 0 <= limit -> 1 <= clamp_page_size (opened config f1 f2 s h) limit.
Proof. intros L. unfold clamp_page_size, opened. simpl. destruct (Z.eqb_spec limit 0); lia. Qed.

Lemma run_ok {A} (c : CodexCatalog.t) (rows : A) : CodexCatalog.timeout c <> 0 -> run c None (Some rows) = Ok rows.
Proof. intros T. unfold run. by rewrite (proj2 (Z.eqb_neq _ _)). Qed.

Lemma filter_ext_in {A} (f g : A -> bool) (l : list A) :
  (forall x, x ∈ l -> f x = g x) -> filter (fun x => f x = true) l = filter (fun x => g x = true) l.
Proof.
  induction l as [|x l IH]; intros E; [done|]. rewrite !filter_cons, IH by (intros; apply E; by constructor). by rewrite (E x) by constructor.
Qed.

(** The columns a statement may name although the probe does not ask for them. *)
Definition joinable (include_archived : bool) (d : StateDb.t) : Prop :=
  (include_archived = false -> has (StateDb.threads_cols d) "archived" = true) /\
  (project_names_readable d = true -> has (StateDb.threads_cols d) "project_id" = true /\ has (StateDb.projects_cols d) "id" = true).

Lemma has_all_app (cols l k : list string) : has_all cols (l ++ k) = has_all cols l && has_all cols k.
Proof. apply forallb_app. Qed.

Lemma opened_resolves (config : CatalogConfig.t) (f1 f2 : option string) (d : StateDb.t) (h : option HistoryDb.t) (include_archived : bool) :
  sessions_listable d = true -> joinable include_archived d -> resolves (opened config f1 f2 (Some d) h) (negb include_archived) d = true.
Proof.
  intros L [A P]. unfold resolves, thread_columns, thread_select_cols, project_columns, opened.
  cbn [CodexCatalog.threads_cols CodexCatalog.has_updated_at_ms CodexCatalog.caps CatalogCapabilities.project_names_readable of_db].
  unfold sessions_listable in L. change ["id"; "title"; "updated_at"] with (["id"; "title"] ++ ["updated_at"]) in L. rewrite has_all_app in L. apply andb_true_iff in L as [Li Lu].
  rewrite !has_all_app, Li, Lu.
  assert (O : has_all (StateDb.threads_cols d) (filter (fun x => has (StateDb.threads_cols d) x = true) OPTIONAL_COLUMNS) = true).
  { apply forallb_forall. intros x I. by apply list_elem_of_In, list_elem_of_filter in I as [I _]. }
  assert (M : has_all (StateDb.threads_cols d) (if has (StateDb.threads_cols d) "updated_at_ms" then ["updated_at_ms"] else []) = true).
  { destruct (has (StateDb.threads_cols d) "updated_at_ms") eqn:E; [|done]. unfold has_all. cbn [forallb]. by rewrite E. }
  assert (B : has_all (StateDb.threads_cols d) (if negb include_archived then ["archived"] else []) = true).
  { destruct include_archived; [done|]. unfold has_all. cbn [negb forallb]. by rewrite A. }
  rewrite O, M, B. destruct (project_names_readable d) eqn:R; [|done]. destruct (P eq_refl) as [P1 P2]. unfold has_all. cbn [forallb]. rewrite P1, P2.
  unfold project_names_readable in R. by apply andb_true_iff in R as [_ ->].
Qed.

Section ListAll.
Variable config : CatalogConfig.t.
Variable f1 f2 : option string.
Variable d : StateDb.t.
Variable h : option HistoryDb.t.
Variable limit : Z.
Variable include_archived : bool.
Let c := opened config f1 f2 (Some d) h.
Hypothesis timeout_positive : CatalogConfig.query_timeout config <> 0.
Hypothesis limit_u32 : 0 <= limit.
Hypothesis listable : sessions_listable d = true.
Hypothesis columns : joinable include_archived d.
Hypothesis times : times_ok c d.

Let n := Z.to_nat (clamp_page_size c limit).

Lemma row_time (id : string) (r : ThreadRow.t) : (id, r) ∈ all_threads c include_archived d -> exists ms, updated_ms c r = Some ms /\ 0 < ms <= i64_max /\ timestamp_millis ms = Some ms.
Proof. intros [I _]%elem_of_all_threads. exact (times _ _ I). Qed.

Lemma statement_rows (before : option (string * ThreadRow.t)) (k : option (Z * string)) :
  (match before with None => k = None | Some (id, r) => exists ms, updated_ms c r = Some ms /\ k = Some (ms, id) end) ->
  list_statement c include_archived k (clamp_page_size c limit) d = Some (rows_after key_lt (row_key c) n (row_key c <$> before) (all_threads c include_archived d)).
Proof.
  intros K. pose proof (clamp_positive config f1 f2 (Some d) h limit limit_u32) as L. fold c in L. unfold list_statement, c. rewrite opened_resolves by done. f_equal. unfold rows_after, n. fold c.
  replace (Z.to_nat (clamp_page_size c limit + 1)) with (S (Z.to_nat (clamp_page_size c limit))) by lia. f_equal. apply filter_ext_in. intros [id r] I. destruct (row_time _ _ I) as (ms & E & _).
  unfold before_cursor, row_key, key_lt. cbn [fst snd]. destruct before as [[id' r']|]; [|by subst k].
  destruct K as (ms' & E' & ->). cbn [fmap option_fmap option_map fst snd]. by rewrite E, E'.
Qed.

Lemma list_step (before : option (string * ThreadRow.t)) (cursor : option string) (page : list (string * ThreadRow.t)) (more : option (string * ThreadRow.t)) :
  cursor = list_cursor <$> (thread_of c d <$> before) -> (forall r, before = Some r -> r ∈ all_threads c include_archived d) ->
  cut_page n (rows_after key_lt (row_key c) n (row_key c <$> before) (all_threads c include_archived d)) = (page, more) ->
  list_sessions c None d cursor limit include_archived =
    Ok (SessionListPage.mk (map (thread_of c d) page) (list_cursor <$> (thread_of c d <$> more)) (bool_decide (is_Some more))).
Proof.
  intros Ec B C. pose proof (clamp_positive config f1 f2 (Some d) h limit limit_u32) as L. fold c in L. unfold list_sessions.
  replace (negb _) with false by (unfold c, opened; simpl; by rewrite listable).
  rewrite (statement_rows before); [|].
  - rewrite run_ok by done. cbn [res_bind]. rewrite ltb_zlen by lia. fold n. set (rows := rows_after _ _ _ _ _) in *.
    assert (Lr : (length rows <= S n)%nat) by (unfold rows, rows_after; rewrite length_take; lia).
    destruct (cut_page_take _ _ _ _ Lr C) as [-> ->]. destruct (n <? length rows)%nat eqn:E; [|done].
    apply Nat.ltb_lt in E. destruct (last (take n rows)) as [x|] eqn:Lx.
    + do 2 f_equal. rewrite fmap_last, Lx. done.
    + apply last_None in Lx. apply (f_equal length) in Lx. rewrite length_take in Lx. unfold n in *. simpl in Lx. lia.
  - subst cursor. destruct before as [[id r]|]; [|done]. destruct (row_time _ _ (B _ eq_refl)) as (ms & Em & Rm & Tm). exists ms. split; [done|].
    cbn [fmap option_fmap option_map mbind option_bind]. unfold list_cursor, thread_of. cbn [CatalogThread.updated_at CatalogThread.id]. rewrite Em. cbn [mbind option_bind].
    unfold ms_to_datetime. rewrite (proj2 (Z.leb_gt _ _)) by lia. rewrite Tm. cbn [default from_option]. apply list_cursor_reads. lia.
Qed.

Lemma list_follow (fuel : nat) (before : option (string * ThreadRow.t)) :
  (forall r, before = Some r -> r ∈ all_threads c include_archived d) ->
  list_all fuel c d (list_cursor <$> (thread_of c d <$> before)) limit include_archived =
    map (thread_of c d) <$> follow key_lt (row_key c) fuel n (row_key c <$> before) (all_threads c include_archived d).
Proof.
  revert before. induction fuel as [|fuel IH]; intros before B; [done|]. cbn [list_all follow]. destruct (cut_page n _) as [page more] eqn:C.
  rewrite (list_step before _ page more) by done. cbn [SessionListPage.next_cursor SessionListPage.threads]. destruct more as [r|]; [|done].
  specialize (IH (Some r)). cbn [fmap option_fmap option_map] in *. rewrite IH.
  - destruct (follow _ _ _ _ _ _); [|done]. simpl. by rewrite map_app.
  - intros r' [= <-]. by eapply rows_after_elem, cut_page_elem.
Qed.

End ListAll.

(** C22. The list of sessions is complete.  Take a database whose [threads] table has the columns the probe asks for to call sessions listable, and also the
    columns the statement names without a probe ([archived] when archived sessions are left out; [project_id] and the [id] of [projects] when
    project names are readable), whose times of update are milliseconds a cursor can carry, a query timeout that is not zero and statements that are
    answered in time.  Then, while the database does not change, asking for pages of any size (a non-negative number) and following the cursors gives, after finitely
    many pages and without an error, every session with the archive state asked for: each once, none else, the latest first.  (Without the [archived] column such a list
    fails: [list_without_archived_fails].) *)
Theorem catalog_lists_once (config : CatalogConfig.t) (f1 f2 : option string) (d : StateDb.t) (h : option HistoryDb.t) (limit : Z) (include_archived : bool) :
  CatalogConfig.query_timeout config <> 0 -> 0 <= limit -> sessions_listable d = true -> joinable include_archived d ->
  times_ok (opened config f1 f2 (Some d) h) d ->
  let c := opened config f1 f2 (Some d) h in
  exists rows, list_all (S (size (StateDb.threads d))) c d None limit include_archived = Some (map (thread_of c d) rows) /\
    NoDup rows.*1 /\ descending key_lt (row_key c) rows /\
    forall id r, (id, r) ∈ rows <-> StateDb.threads d !! id = Some r /\ listed include_archived (id, r) = true.
Proof.
  intros T L Li J Ok c. exists (all_threads c include_archived d). split_and!; [|apply NoDup_all_threads|apply descending_all_threads|apply elem_of_all_threads].
  rewrite (list_follow config f1 f2 d h limit include_archived T L Li J Ok _ None) by done. cbn [fmap option_fmap option_map].
  rewrite follow_all; [done|apply key_lt_irrefl|apply key_lt_asym| | |apply descending_all_threads].
  - pose proof (clamp_positive config f1 f2 (Some d) h limit L). lia.
  - unfold all_threads. rewrite merge_sort_Permutation. apply Nat.lt_succ_r. etrans; [apply length_filter|]. by rewrite length_map_to_list.
Qed.

End Lists.

Section Histories.
Context {V : Type} `{SerdeJson V} `{Chrono}.
Variable json_from_str : string -> option V.
Variable scan : forall A, list A -> list A.
Hypothesis scan_perm : forall A (l : list A), scan A l ≡ₚ l.
Notation all_items := (all_items scan).
Notation session_history := (session_history json_from_str scan).
Notation history_all := (history_all json_from_str scan).
Notation entry_of := (entry_of json_from_str).

(** *** History *)

Lemma all_items_perm (thread_id : string) (d : HistoryDb.t) : all_items thread_id d ≡ₚ thread_items thread_id d.
Proof. unfold all_items. by rewrite merge_sort_Permutation, scan_perm. Qed.

Lemma ltb_order :
  (forall a b c, (a <? b) = false -> (b <? c) = false -> (a <? c) = false) /\ (forall a b, (a <? b) = false \/ (b <? a) = false) /\
  (forall a b, (a <? b) = false -> (b <? a) = false -> a = b).
Proof. split_and!; intros; rewrite ?Z.ltb_ge in *; lia. Qed.

Lemma elem_of_thread_items (thread_id : string) (d : HistoryDb.t) (i : ItemRow.t) (r : TurnRow.t) :
  (i, r) ∈ thread_items thread_id d <-> (thread_id, i) ∈ HistoryDb.items d /\ HistoryDb.turns d !! (thread_id, ItemRow.turn_id i) = Some r.
Proof.
  unfold thread_items. rewrite list_elem_of_omap. split.
  - intros ([thread j] & I & E). case_bool_decide; [|done]. subst thread. destruct (HistoryDb.turns d !! _) eqn:T; [|done]. by injection E as -> ->.
  - intros [I T]. exists (thread_id, i). split; [done|]. by rewrite bool_decide_eq_true_2, T.
Qed.

Lemma descending_items (thread_id : string) (d : HistoryDb.t) : NoDup (ordinal <$> thread_items thread_id d) -> descending Z.ltb ordinal (all_items thread_id d).
Proof. intros N. destruct ltb_order as (T & O & A). apply descending_sort; [done..|]. by rewrite scan_perm. Qed.

Section HistoryAll.
Variable config : CatalogConfig.t.
Variable f1 f2 : option string.
Variable s : option StateDb.t.
Variable d : HistoryDb.t.
Variable thread_id : string.
Variable limit : Z.
Let c := opened config f1 f2 s (Some d).
Hypothesis timeout_positive : CatalogConfig.query_timeout config <> 0.
Hypothesis limit_u32 : 0 <= limit.
Hypothesis readable : history_readable d = true.
Hypothesis columns : history_resolves d = true.
Hypothesis ordinals : Forall (fun row => - (i64_max + 1) <= ordinal row < i64_max) (thread_items thread_id d).

Let n := Z.to_nat (clamp_page_size c limit).

Lemma item_ordinal (row : ItemRow.t * TurnRow.t) : row ∈ all_items thread_id d -> - (i64_max + 1) <= ordinal row < i64_max.
Proof. rewrite all_items_perm. rewrite Forall_forall in ordinals. apply ordinals. Qed.

Lemma history_step (before : option (ItemRow.t * TurnRow.t)) (page : list (ItemRow.t * TurnRow.t)) (more : option (ItemRow.t * TurnRow.t)) :
  (forall r, before = Some r -> r ∈ all_items thread_id d) ->
  cut_page n (rows_after Z.ltb ordinal n (ordinal <$> before) (all_items thread_id d)) = (page, more) ->
  exists has_more, session_history c None d thread_id (history_cursor <$> before) limit =
    Ok (HistoryRead.mk (CatalogHistoryPage.mk (map entry_of page) (history_cursor <$> more) has_more) (turns_of page)).
Proof.
  intros B C. pose proof (clamp_positive config f1 f2 s (Some d) limit limit_u32) as L. fold c in L. unfold session_history.
  replace (negb _) with false by (unfold c, opened; simpl; by rewrite readable). unfold history_statement. rewrite columns.
  assert (E : filter (fun row => (ordinal row <? default i64_max ((history_cursor <$> before) ≫= parse_history_cursor)) = true) (all_items thread_id d) =
    filter (fun r => match ordinal <$> before with None => true | Some k => ordinal r <? k end = true) (all_items thread_id d)).
  { apply filter_ext_in. intros row I. destruct before as [r|]; cbn [fmap option_fmap option_map mbind option_bind].
    - pose proof (item_ordinal _ (B _ eq_refl)). by rewrite history_cursor_reads by lia.
    - apply Z.ltb_lt. simpl. apply item_ordinal in I. lia. }
  rewrite E. rewrite run_ok by done. cbn [res_bind]. replace (Z.to_nat (clamp_page_size c limit + 1)) with (S n) by (unfold n; lia).
  rewrite ltb_zlen by lia. fold n. change (take (S n) _) with (rows_after Z.ltb ordinal n (ordinal <$> before) (all_items thread_id d)).
  set (rows := rows_after _ _ _ _ _) in *. assert (Lr : (length rows <= S n)%nat) by (unfold rows, rows_after; rewrite length_take; lia).
  destruct (cut_page_take _ _ _ _ Lr C) as [-> ->]. exists (n <? length rows)%nat. by destruct (n <? length rows)%nat.
Qed.

Lemma history_follow (fuel : nat) (before : option (ItemRow.t * TurnRow.t)) :
  (forall r, before = Some r -> r ∈ all_items thread_id d) ->
  history_all fuel c d thread_id (history_cursor <$> before) limit = map entry_of <$> follow Z.ltb ordinal fuel n (ordinal <$> before) (all_items thread_id d).
Proof.
  revert before. induction fuel as [|fuel IH]; intros before B; [done|]. cbn [history_all follow]. destruct (cut_page n _) as [page more] eqn:C.
  destruct (history_step before page more B C) as [has_more E]. rewrite E.
  cbn [HistoryRead.page CatalogHistoryPage.next_cursor CatalogHistoryPage.entries]. destruct more as [r|]; [|done].
  specialize (IH (Some r)). cbn [fmap option_fmap option_map] in *. rewrite IH.
  - destruct (follow _ _ _ _ _ _); [|done]. simpl. by rewrite map_app.
  - intros r' [= <-]. by eapply rows_after_elem, cut_page_elem.
Qed.
End HistoryAll.

(** The history of a session is complete when its items have different ordinals: pages of any size, followed through their cursors, give every item that
    belongs to a turn once, the latest first. *)
Theorem history_read_once (config : CatalogConfig.t) (f1 f2 : option string) (s : option StateDb.t) (d : HistoryDb.t) (thread_id : string) (limit : Z) :
  CatalogConfig.query_timeout config <> 0 -> 0 <= limit -> history_readable d = true -> history_resolves d = true ->
  Forall (fun row => - (i64_max + 1) <= ordinal row < i64_max) (thread_items thread_id d) -> NoDup (ordinal <$> thread_items thread_id d) ->
  exists rows, history_all (S (length (thread_items thread_id d))) (opened config f1 f2 s (Some d)) d thread_id None limit = Some (map entry_of rows) /\
    descending Z.ltb ordinal rows /\
    forall i r, (i, r) ∈ rows <-> (thread_id, i) ∈ HistoryDb.items d /\ HistoryDb.turns d !! (thread_id, ItemRow.turn_id i) = Some r.
Proof.
  intros T L R C O N. exists (all_items thread_id d). split_and!; [|by apply descending_items|intros i r; rewrite all_items_perm; apply elem_of_thread_items].
  rewrite (history_follow config f1 f2 s d thread_id limit T L R C O _ None) by done. cbn [fmap option_fmap option_map].
  rewrite follow_all; [done|apply Z.ltb_irrefl| | | |by apply descending_items].
  - intros a b. rewrite Z.ltb_lt, Z.ltb_ge. lia.
  - pose proof (clamp_positive config f1 f2 s (Some d) limit L). lia.
  - rewrite all_items_perm. lia.
Qed.

End Histories.

(** *** What is shown of a directory *)

Lemma contains_char_not (c : Ascii.ascii) (s : string) : contains_char c s = negb (str_all (fun a => negb (Ascii.eqb a c)) s).
Proof. induction s as [|a s IH]; [done|]. simpl. rewrite IH. by destruct (Ascii.eqb a c). Qed.

Lemma contains_char_rev (c : Ascii.ascii) (s : string) : contains_char c (str_rev s) = contains_char c s.
Proof. by rewrite !contains_char_not, str_all_rev. Qed.

(** A display name that comes from a working directory is one segment of it. *)
Lemma display_is_segment (cwd name : string) : project_display_from_cwd cwd = Some name -> contains_char slash name = false.
Proof.
  unfold project_display_from_cwd. case_bool_decide; [done|]. intros [= <-]. generalize (trim_end_matches slash cwd). intros x. unfold rsplit_next.
  destruct (split_once slash (str_rev x)) as [[l r]|] eqn:E.
  - apply split_once_Some in E as [_ N]. by rewrite contains_char_rev.
  - apply split_once_None in E. by rewrite contains_char_rev in E.
Qed.
Module CatalogDemo.
Import Json.Demo.
#[local] Instance chrono : Chrono := { timestamp_millis := Some }.
Definition scan : forall A, list A -> list A := fun _ l => l.
Notation no_json := (fun _ : string => @None json).

(** The tables of [fixture::create_catalog_fixture]. *)
Definition THREADS : list string :=
  ["id"; "created_at"; "updated_at"; "cwd"; "title"; "archived"; "git_branch"; "model"; "reasoning_effort"; "agent_nickname"; "agent_role"; "created_at_ms"; "updated_at_ms"; "project_id"].
Definition thread (title cwd : string) (ms archived : Z) (project : option string) : ThreadRow.t :=
  ThreadRow.mk (Some title) (Some cwd) (Some archived) (Some "fixture-branch") (Some "gpt-5.3-fixture") (Some "medium") None None (Some (ms / 1000)) (Some (ms / 1000)) (Some ms) project.
Definition state : StateDb.t :=
  StateDb.mk THREADS
    {["1" := thread "fixture-alpha" "/tmp/fixture-alpha" 9000 0 (Some "proj-1"); "2" := thread "fixture-archived" "/tmp/fixture-archived" 3000 1 None;
      "3" := thread "fixture-child" "/tmp/fixture-child" 5000 0 None]}
    ["id"; "name"; "metadata"; "position"; "created_at_ms"; "updated_at_ms"] {["proj-1" := Some "fixture-project"]}
    ["parent_thread_id"; "child_thread_id"; "status"] [("1", "3", "open")].

Definition item (turn id : string) (ordinal : Z) : string * ItemRow.t := ("1", ItemRow.mk turn id ordinal "agentMessage" "" (Some (1000 + ordinal))).
Definition history (items : list (string * ItemRow.t)) : HistoryDb.t :=
  HistoryDb.mk ["thread_id"; "turn_id"; "rollout_ordinal"; "status"; "error_json"; "started_at"; "completed_at"; "duration_ms"]
    {[("1", "turn-f1") := TurnRow.mk "completed" (Some 1000) (Some 2000); ("1", "turn-f2") := TurnRow.mk "inProgress" (Some 3000) None]}
    ["thread_id"; "turn_id"; "item_id"; "rollout_ordinal"; "created_at_ms"; "item_json"; "item_type"; "updated_at_ordinal"] items.
Definition first_turn := [item "turn-f1" "item-u1" 11; item "turn-f1" "item-r1" 12; item "turn-f1" "item-c1" 13; item "turn-f1" "item-a1" 14; item "turn-f1" "item-f1" 21;
  item "turn-f1" "item-s1" 22; item "turn-f1" "item-m1" 23; item "turn-f1" "item-x1" 24].
Definition catalog (h : HistoryDb.t) : CodexCatalog.t := opened CatalogConfig.default (Some "state_5.sqlite") (Some "thread_history_1.sqlite") (Some state) (Some h).

Lemma catalog_lists_once_witness :
  exists rows, list_all 4 (catalog (history first_turn)) state None 1 true = Some (map (thread_of (catalog (history first_turn)) state) rows) /\ NoDup rows.*1 /\
    descending key_lt (row_key (catalog (history first_turn))) rows /\ forall id r, (id, r) ∈ rows <-> StateDb.threads state !! id = Some r /\ listed true (id, r) = true.
Proof.
  apply (catalog_lists_once CatalogConfig.default (Some "state_5.sqlite") (Some "thread_history_1.sqlite") state (Some (history first_turn)) 1 true).
  - done.
  - done.
  - vm_compute. reflexivity.
  - split; [done|]. intros _. vm_compute. done.
  - intros id r E. unfold state in E. cbn [StateDb.threads] in E. rewrite !lookup_insert_Some, lookup_singleton_Some in E.
    destruct E as [[<- <-]|[_ [[<- <-]|[_ [<- <-]]]]]; (eexists; split; [vm_compute; reflexivity|split; [done|reflexivity]]).
Defined.

(** The names of the sessions, in pages of one. *)
Example pages_of_one :
  (map CatalogThread.project_display_name <$> list_all 4 (catalog (history first_turn)) state None 1 true) = Some [Some "fixture-project"; Some "fixture-child"; Some "fixture-archived"].
Proof. vm_compute. reflexivity. Qed.

Lemma history_read_once_witness :
  let d := history first_turn in
  exists rows, history_all no_json scan 9 (catalog d) d "1" None 3 = Some (map (entry_of no_json) rows) /\ descending Z.ltb ordinal rows /\
    forall i r, (i, r) ∈ rows <-> ("1", i) ∈ HistoryDb.items d /\ HistoryDb.turns d !! ("1", ItemRow.turn_id i) = Some r.
Proof.
  intros d. apply (history_read_once no_json scan (fun _ _ => reflexivity _) CatalogConfig.default (Some "state_5.sqlite") (Some "thread_history_1.sqlite") (Some state) d "1" 3).
  - done.
  - done.
  - vm_compute. reflexivity.
  - vm_compute. reflexivity.
  - apply (bool_decide_unpack _). vm_compute. exact I.
  - apply (bool_decide_unpack _). vm_compute. exact I.
Defined.

(** The second turn of the fixture has an item with the ordinal of [item-f1] of the first: in pages of four one of them is lost. *)
Lemma history_loses_ties :
  let d := history (first_turn ++ [item "turn-f2" "item-live-1" 21]) in
  (map (fun e => ItemId.id (Item.item_id (HistoryEntry.item e))) <$> history_all no_json scan 20 (catalog d) d "1" None 4) =
    Some ["item-x1"; "item-m1"; "item-s1"; "item-live-1"; "item-a1"; "item-c1"; "item-r1"; "item-u1"].
Proof. vm_compute. reflexivity. Qed.

(** [fixture::create_degraded_fixture]: the probe announces a history that no statement can read. *)
Definition degraded : HistoryDb.t :=
  HistoryDb.mk ["thread_id"; "turn_id"; "rollout_ordinal"; "status"] ∅ ["thread_id"; "turn_id"; "item_id"; "rollout_ordinal"; "item_json"; "item_type"] [].

Lemma degraded_history_fails :
  history_readable degraded = true /\
  session_history no_json scan (catalog degraded) None degraded "1" None 50 = Err (CatalogError.Sql "no such column").
Proof. vm_compute. done. Qed.

(** Without the column [archived] the list is announced, and the default list always fails. *)
Definition no_archived : StateDb.t := StateDb.mk ["id"; "title"; "updated_at"] ∅ [] ∅ [] [].

Lemma list_without_archived_fails :
  let c := opened CatalogConfig.default None None (Some no_archived) None in
  sessions_listable no_archived = true /\ list_sessions c None no_archived None 50 false = Err (CatalogError.Sql "no such column").
Proof. vm_compute. done. Qed.
End CatalogDemo.
