(* ===== verification/AdapterProps.v ===== *)
(** * The adapter among its connections

    [astep] runs the operations of the adapter's programs; [interferes] is what everything else - the other
    tasks of the adapter, the tasks of the connections, time - may do in between: it keeps the connections
    and what holds of them, the rest is arbitrary. *)

From S2P Require Import Prelude Prog RustStr Json Frame Domain Projection Mapper Concurrent Ipc IpcProps Capabilities Adapter.

Section Run.
Context {V : Type} `{SerdeJson V} `{SerdeJsonText V} `{IpcSerde V} `{Chrono}.
Variable max_frame_bytes : Z.
Variable config : CodexAdapterConfig.t.

Notation World := (World.t V).
Notation others := (others max_frame_bytes).
Notation iexec := (texec others istep iobs).

Record wf (w : World) : Prop := {
  wf_conns (n : Z) (c : Conn.t V) : World.conns w !! n = Some c -> conn_ok c;
  wf_ipc (cl : IpcClient.t) : World.ipc w = Some cl -> is_Some (World.conns w !! IpcClient.connection cl);
}.

Definition interferes (w w' : World) : Prop :=
  wf w' /\ World.now w <= World.now w' /\
  forall n c, World.conns w !! n = Some c -> exists c', World.conns w' !! n = Some c' /\ rtc others c c'.

Definition connection_of (cl : IpcClient.t) (w : World) : option (Conn.t V) := World.conns w !! IpcClient.connection cl.

Definition with_connection (cl : IpcClient.t) (c : Conn.t V) (w : World) : World :=
  World.with_conns (<[IpcClient.connection cl := c]> (World.conns w)) w.

Definition is_connected (w : World) : bool :=
  match World.ipc w ≫= fun cl => connection_of cl w with
  | Some c => match Conn.state c with ConnectionState.Connected _ => true | ConnectionState.Disconnected _ => false end
  | None => false
  end.

Definition astep (B : Type) (o : @aop V B) (w : World) : option B -> World -> Prop :=
  match o in aop B return option B -> World -> Prop with
  | GetIpc => fun b w' => b = Some (World.ipc w) /\ w' = w
  | ReadCapabilities => fun b w' => b = Some (World.caps w) /\ w' = w
  | @Locked _ A f => fun b w' =>
      match f (World.sessions w) with
      | Some (a, s) => b = Some a /\ w' = World.with_sessions s w
      | None => b = None /\ w' = w
      end
  | ReadSessions => fun b w' => b = Some (World.sessions w) /\ w' = w
  | @IterLocked _ A f => fun b w' => exists l, l ≡ₚ map_to_list (World.sessions w) /\ b = Some (f l) /\ w' = w
  | @Io _ cl C o => fun b w' => exists c c', connection_of cl w = Some c /\ istep C o c b c' /\ w' = with_connection cl c' w
  | SpawnTask _ _ | Deliver _ _ => fun b w' => b = Some tt /\ w' = w
  | Instant => fun b w' => b = Some (World.now w) /\ w' = w
  | InstantOf | Utc_now | CatalogList _ _ _ | CatalogHistory _ _ _ | ProbeVersion _ => fun b w' => is_Some b /\ w' = w
  | Pause ms => fun b w' => exists t, World.now w + ms <= t /\ b = Some tt /\ w' = World.with_now t w
  | Connect => fun b w' =>
      (exists e, b = Some (Err e) /\ w' = w) \/
      (exists cl c, b = Some (Ok cl) /\ connection_of cl w = None /\ conn_ok c /\ w' = with_connection cl c w)
  | IsConnected => fun b w' => b = Some (is_connected w) /\ w' = w
  | NextGeneration => fun b w' => b = Some (World.generation w + 1) /\ w' = World.with_generation (World.generation w + 1) w
  | AbortPump => fun b w' => b = Some tt /\ w' = World.with_pump None w
  | SetIpc cl => fun b w' => b = Some tt /\ w' = World.with_ipc (Some cl) w
  | SetCaps caps => fun b w' => b = Some tt /\ w' = World.with_caps caps w
  | SpawnPump cl => fun b w' => b = Some tt /\ w' = World.with_pump (Some cl) w
  end.

(** What an observer of a connection sees: the frames that enter the queue, and what the calls are answered. *)
Inductive ClientObs :=
| Out (m : OutgoingMessage.t V)
| In (id : string) (answer : @Answer V).

Definition cobs (B : Type) (o : @iop V B) : B -> list ClientObs :=
  match o in iop B return B -> list ClientObs with
  | SendOutbound m => fun sent : bool => if sent then [Out m] else []
  | AwaitAnswer id _ => fun answer => [In id answer]
  | _ => fun _ => []
  end.

(** What an observer of the adapter sees. *)
Inductive AObs :=
| SawIpc (ipc : option IpcClient.t)
| SawCaps (caps : CapabilitySet.t)
| SawSessions (s : gmap string (SessionRuntime.t V))
| Framed (cl : IpcClient.t) (m : OutgoingMessage.t V)
| Heard (cl : IpcClient.t) (id : string) (answer : @Answer V)
| Sent (watcher : Z) (event : DomainEvent.t)
| Started (cl : IpcClient.t) (task : Spawned)
| Probed (version : res string string)
| Announced (caps : CapabilitySet.t).

Definition on_wire (cl : IpcClient.t) (x : ClientObs) : AObs :=
  match x with
  | Out m => Framed cl m
  | In id answer => Heard cl id answer
  end.

Definition aobs (B : Type) (o : @aop V B) : B -> list AObs :=
  match o in aop B return B -> list AObs with
  | GetIpc => fun ipc => [SawIpc ipc]
  | ReadCapabilities => fun caps => [SawCaps caps]
  | ReadSessions => fun s => [SawSessions s]
  | Io cl o => fun b => map (on_wire cl) (cobs _ o b)
  | SpawnTask cl task => fun _ => [Started cl task]
  | Deliver watcher event => fun _ => [Sent watcher event]
  | ProbeVersion _ => fun r => [Probed r]
  | SetCaps caps => fun _ => [Announced caps]
  | _ => fun _ => []
  end.

Notation cexec := (texec others istep cobs).

(** The frames among them, as the requests of a connection are judged by them. *)
Definition frames (t : list ClientObs) : list (OutgoingMessage.t V) := omap (fun x => match x with Out m => Some m | In _ _ => None end) t.

Lemma cexec_iexec {A} (p : Prog.prog (@iop V) A) (c c' : Conn.t V) (t : list ClientObs) (a : option A) :
  cexec p c t a c' -> iexec p c (frames t) a c'.
Proof.
  revert c t. induction p as [x|B o k IH]; intros c t; simpl; [by intros (-> & -> & ->)|]. intros (c1 & b & c2 & R & S & X). exists c1, b, c2.
  split_and!; [done..|]. destruct b as [b|]; [|by destruct X as (-> & -> & ->)]. destruct X as (t' & X & ->). exists (frames t'). split; [by apply IH|].
  unfold frames. rewrite omap_app. f_equal. by destruct o; simpl; try done; destruct b.
Qed.

Notation aexec := (texec interferes astep aobs).

(** ** Programs of a client *)

Definition alive (cl : IpcClient.t) (w : World) : Prop := wf w /\ is_Some (connection_of cl w).

Lemma lookup_with_connection (cl : IpcClient.t) (c : Conn.t V) (w : World) : connection_of cl (with_connection cl c w) = Some c.
Proof. apply lookup_insert_eq. Qed.

(** All connections but that of [cl] are well formed. *)
Definition wf_apart (cl : IpcClient.t) (w : World) : Prop :=
  (forall n c, n <> IpcClient.connection cl -> World.conns w !! n = Some c -> conn_ok c) /\
  (forall cl', World.ipc w = Some cl' -> is_Some (World.conns w !! IpcClient.connection cl')).

Lemma wf_wf_apart (cl : IpcClient.t) (w : World) : wf w -> wf_apart cl w.
Proof. intros [W1 W2]. split; [intros n c _; apply W1|done]. Qed.

Lemma wf_apart_wf (cl : IpcClient.t) (c : Conn.t V) (w : World) : wf_apart cl w -> connection_of cl w = Some c -> conn_ok c -> wf w.
Proof.
  intros [W1 W2] L K. split; [|done]. intros n c' L'. destruct (decide (n = IpcClient.connection cl)) as [->|N]; [|by eapply W1].
  unfold connection_of in L. congruence.
Qed.

Lemma wf_apart_io (cl : IpcClient.t) (c : Conn.t V) (w : World) : wf_apart cl w -> wf_apart cl (with_connection cl c w).
Proof.
  intros [W1 W2]. split; simpl.
  - intros n c' N. rewrite lookup_insert_ne by done. by apply W1.
  - intros cl' L%W2. destruct (decide (IpcClient.connection cl' = IpcClient.connection cl)) as [->|N].
    + rewrite lookup_insert_eq. by eexists.
    + by rewrite lookup_insert_ne.
Qed.

Definition io_of (cl : IpcClient.t) (B : Type) (o : @aop V B) : Prop :=
  match o with Io cl' _ => cl' = cl | _ => False end.

(** A program of a client, run inside the adapter, is a run of the program on its connection. *)
Lemma client_run {A} (cl : IpcClient.t) (p : Prog.prog (@iop V) A) (Q : A -> list ClientObs -> Prop) (w w' : World) (t : list AObs) (a : A) :
  (forall c c' t a, conn_ok c -> cexec p c t (Some a) c' -> Q a t /\ conn_ok c') ->
  alive cl w -> aexec (on_client cl p) w t (Some a) w' -> alive cl w' /\ exists seen, t = map (on_wire cl) seen /\ Q a seen.
Proof.
  intros HQ [W [c L]] X.
  destruct (texec_map (fun B o => Io cl o) (connection_of cl) (on_wire cl) others istep cobs interferes astep aobs p w w' c t (Some a)) as (c' & sent & L' & X' & ->); try done.
  - intros x y s (_ & _ & E) Lx. exact (E _ _ Lx).
  - intros B o x b y s (c1 & c2 & L1 & S1 & ->) Lx. exists c2. rewrite lookup_with_connection. split; [done|]. by replace s with c1 by congruence.
  - destruct (HQ _ _ _ _ (wf_conns _ W _ _ L) X') as [Hq K']. split; [|by exists sent].
    split; [|by exists c']. apply (wf_apart_wf cl c'); [|done..].
    eapply (texec_stable_all (io_of cl) interferes astep aobs (wf_apart cl)); [| | |exact X|by apply wf_wf_apart].
    + intros x y (Wy & _) _. by apply wf_wf_apart.
    + intros B o x b y P S Wx. destruct o; try done. simpl in P. subst cl0. destruct S as (c1 & c2 & _ & _ & ->). by apply wf_apart_io.
    + by apply prog_all_map.
Qed.

(** ** What requests promise the adapter *)

(** What a call makes of the answer it waited for. *)
Definition answer_result (m : string) (opts : RequestOptions.t) (answer : @Answer V) : res IpcError.t (ResponseFrame.t V) :=
  match answer with
  | Answered resp =>
      match ResponseFrame.result_type resp with
      | ResultType.Success => Ok resp
      | ResultType.Error => Err (IpcError.Peer (default "unknown error" (ResponseFrame.error resp)))
      end
  | SenderDropped => Err (IpcError.ConnectionLost "pending dropped")
  | TimedOut => Err (IpcError.RequestTimeout m (default DEFAULT_REQUEST_TIMEOUT (RequestOptions.timeout opts)))
  end.

(** A call sends nothing and fails, or sends its one frame and returns what it is answered under the id of the frame. *)
Definition call_says (cl : IpcClient.t) (m : string) (params : V) (opts : RequestOptions.t)
    (r : res IpcError.t (ResponseFrame.t V)) (t : list ClientObs) : Prop :=
  (t = [] /\ (r = Err IpcError.NotConnected \/ exists n, r = Err (IpcError.QueueFull n))) \/
  exists id answer, t = [Out (request_frame (IpcClient.client_id cl) id m params opts); In id answer] /\ r = answer_result m opts answer /\
    answer <> SenderDropped.

Lemma request_shape (cl : IpcClient.t) (m : string) (params : V) (opts : RequestOptions.t) (capacity : Z) (c c' : Conn.t V)
    (t : list ClientObs) (r : res IpcError.t (ResponseFrame.t V)) :
  cexec (request (IpcClient.client_id cl) capacity m params opts) c t (Some r) c' ->
  (t = [] /\ (r = Err IpcError.NotConnected \/ exists n, r = Err (IpcError.QueueFull n))) \/
  exists id answer, t = [Out (request_frame (IpcClient.client_id cl) id m params opts); In id answer] /\ r = answer_result m opts answer.
Proof.
  unfold request. intros (c1 & b & c2 & _ & _ & X). destruct b as [id|]; [|by destruct X as (_ & ? & _)]. destruct X as (t1 & X & ->).
  destruct X as (c3 & b & c4 & _ & _ & X). destruct b as [[|]|]; [..|by destruct X as (_ & ? & _)]; destruct X as (t2 & X & ->); cbn [prog_bind negb] in X.
  2:{ destruct X as (-> & [= ->] & _). by left; eauto. }
  destruct X as (c5 & b & c6 & _ & _ & X). destruct b as [[|]|]; [..|by destruct X as (_ & ? & _)]; destruct X as (t3 & X & ->); cbn [prog_bind negb] in X.
  2:{ destruct X as (c7 & b & c8 & _ & _ & X). destruct b as [u|]; [|by destruct X as (_ & ? & _)]. destruct X as (t4 & (-> & [= ->] & _) & ->). by left; eauto. }
  right. destruct X as (c7 & b & c8 & _ & _ & X). destruct b as [answer|]; [|by destruct X as (_ & ? & _)]. destruct X as (t4 & X & ->). exists id, answer.
  destruct answer as [resp| |]; cbn [prog_bind answer_result] in X |- *.
  - case_bool_decide as E; destruct X as (-> & [= ->] & _); split; try done; by destruct (ResponseFrame.result_type resp).
  - by destruct X as (-> & [= ->] & _).
  - destruct X as (c9 & b & c10 & _ & _ & X). destruct b as [u|]; [|by destruct X as (_ & ? & _)]. by destruct X as (t5 & (-> & [= ->] & _) & ->).
Qed.

Lemma request_call (cl : IpcClient.t) (m : string) (params : V) (opts : RequestOptions.t) (capacity : Z) (c c' : Conn.t V)
    (t : list ClientObs) (r : res IpcError.t (ResponseFrame.t V)) :
  conn_ok c -> cexec (request (IpcClient.client_id cl) capacity m params opts) c t (Some r) c' ->
  call_says cl m params opts r t /\ conn_ok c'.
Proof.
  intros K X. destruct (request_inv _ _ _ _ _ _ _ _ _ _ K (cexec_iexec _ _ _ _ _ X)) as (id & _ & O & _ & K'). split; [|done].
  destruct (request_shape _ _ _ _ _ _ _ _ _ X) as [?|(i & answer & -> & ->)]; [by left|right]. exists i, answer. split_and!; [done..|]. by intros ->.
Qed.

(** A call whose answer is read by [f]. *)
Lemma mapped_call (cl : IpcClient.t) (m : string) (params : V) (opts : RequestOptions.t) (capacity : Z) {T : Type}
    (f : res IpcError.t (ResponseFrame.t V) -> T) (c c' : Conn.t V) (t : list ClientObs) (a : T) :
  conn_ok c -> cexec (do r <- request (IpcClient.client_id cl) capacity m params opts; Ret (f r)) c t (Some a) c' ->
  (exists r, a = f r /\ call_says cl m params opts r t) /\ conn_ok c'.
Proof.
  intros K X. apply texec_bind in X as [[_ ?]|(t1 & r & c1 & t2 & X & (-> & [= ->] & ->) & ->)]; [done|]. rewrite app_nil_r.
  destruct (request_call _ _ _ _ _ _ _ _ _ K X) as [C K']. split; [by exists r|done].
Qed.

(** ** Steps that concern neither the connections nor an observer *)

Definition quiet (B : Type) (o : @aop V B) : Prop :=
  match o with
  | Io _ _ | SetIpc _ | Connect | GetIpc | ReadCapabilities | ReadSessions | SpawnTask _ _ | Deliver _ _ | ProbeVersion _ | SetCaps _ => False
  | _ => True
  end.

Lemma rtc_wf (w w' : World) : rtc interferes w w' -> wf w -> wf w'.
Proof. induction 1 as [|x y z E _ IH]; [done|]. intros _. apply IH. by destruct E. Qed.

Lemma interferes_alive (cl : IpcClient.t) (w w' : World) : interferes w w' -> alive cl w -> alive cl w'.
Proof. intros (W & _ & E) [_ [c L]]. destruct (E _ _ L) as (c' & L' & _). split; [done|by exists c']. Qed.

Lemma rtc_alive (cl : IpcClient.t) (w w' : World) : rtc interferes w w' -> alive cl w -> alive cl w'.
Proof. induction 1 as [|x y z E _ IH]; [done|]. intros A. by eapply IH, interferes_alive. Qed.

Lemma quiet_step (B : Type) (o : @aop V B) (w w' : World) (b : option B) :
  quiet B o -> astep B o w b w' -> World.conns w' = World.conns w /\ World.ipc w' = World.ipc w.
Proof.
  destruct o; try done; simpl; intros _ S; try (destruct S as [_ ->]; done).
  - by destruct (f (World.sessions w)) as [[a s]|]; destruct S as [_ ->].
  - by destruct S as (l & _ & _ & ->).
  - by destruct S as (t & _ & _ & ->).
Qed.

Lemma quiet_wf (B : Type) (o : @aop V B) (w w' : World) (b : option B) : quiet B o -> astep B o w b w' -> wf w -> wf w'.
Proof. intros Q S [W1 W2]. destruct (quiet_step _ _ _ _ _ Q S) as [E1 E2]. split; rewrite ?E1, ?E2; done. Qed.

Lemma quiet_alive (cl : IpcClient.t) (B : Type) (o : @aop V B) (w w' : World) (b : option B) :
  quiet B o -> astep B o w b w' -> alive cl w -> alive cl w'.
Proof.
  intros Q S [W A]. split; [by eapply quiet_wf|]. destruct (quiet_step _ _ _ _ _ Q S) as [E _]. unfold connection_of. by rewrite E.
Qed.

Lemma quiet_run {A : Type} (p : Prog.prog aop A) (w w' : World) (t : list AObs) (a : option A) :
  prog_all quiet p -> aexec p w t a w' -> t = [] /\ (wf w -> wf w') /\ forall cl, alive cl w -> alive cl w'.
Proof.
  intros P X. split_and!.
  - apply (texec_all quiet interferes astep aobs (fun _ => False)) in X; [|by intros B o b; destruct o|done]. by destruct X.
  - eapply (texec_stable_all quiet interferes astep aobs wf); [by intros x y [W _]|intros; by eapply quiet_wf|done..].
  - intros cl. eapply (texec_stable_all quiet interferes astep aobs (alive cl)); [apply interferes_alive|intros; by eapply quiet_alive|done..].
Qed.

(** ** Owner and connection *)

Lemma current_ipc_run (w w' : World) (t : list AObs) (r : res AdapterError.t IpcClient.t) :
  wf w -> aexec current_ipc w t (Some r) w' ->
  wf w' /\ exists ipc, t = [SawIpc ipc] /\ match ipc with Some cl => r = Ok cl /\ alive cl w' | None => r = offline "ipc offline" end.
Proof.
  intros W (w1 & b & w2 & R & [-> ->] & X). destruct X as (t' & (-> & [= ->] & ->) & ->). pose proof (rtc_wf _ _ R W) as W'.
  split; [done|]. exists (World.ipc w1). split; [done|]. destruct (World.ipc w1) as [cl|] eqn:L; [|done]. split; [done|]. split; [done|]. by apply (wf_ipc _ W').
Qed.

Lemma reading_run {A : Type} (f : gmap string (SessionRuntime.t V) -> A) (w w' : World) (t : list AObs) (a : A) :
  wf w -> aexec (reading f) w t (Some a) w' ->
  wf w' /\ exists s, t = [SawSessions s] /\ a = f s /\ forall cl, alive cl w -> alive cl w'.
Proof.
  intros W (w1 & b & w2 & R & [-> ->] & X). destruct X as (t' & (-> & [= ->] & ->) & ->). split; [by eapply rtc_wf|].
  exists (World.sessions w1). split_and!; [done..|]. intros cl. by apply rtc_alive.
Qed.

(** The broadcast to find the owner of the conversation on [cl], and the owner it is answered. *)
Inductive looked_for_owner (cl : IpcClient.t) (conversation : string) : option string -> list AObs -> Prop :=
| owner_not_asked : looked_for_owner cl conversation None []
| owner_asked id answer :
    looked_for_owner cl conversation
      (match answer with
       | Answered resp => match ResponseFrame.result_type resp with ResultType.Success => ResponseFrame.handled_by_client_id resp | ResultType.Error => None end
       | _ => None
       end)
      [Framed cl (request_frame (IpcClient.client_id cl) id "thread-owner-discovery"
         (json_object [("hostId", json_string "local"); ("conversationId", json_string conversation)]) (RequestOptions.mk None None (Some 12)));
       Heard cl id answer].

Lemma ensure_owner_run (conversation : string) (w w' : World) (t : list AObs) (r : res AdapterError.t string) :
  wf w -> aexec (ensure_owner conversation) w t (Some r) w' ->
  wf w' /\ exists ipc t', t = SawIpc ipc :: t' /\
    match ipc with
    | None => t' = [] /\ r = offline "ipc offline"
    | Some cl => exists found, looked_for_owner cl conversation found t' /\ match found with Some owner => r = Ok owner | None => exists e, r = Err e end
    end.
Proof.
  intros W X. unfold ensure_owner in X.
  apply texec_try in X as [[X E]|[(e & X & E)|(t1 & cl & w1 & t2 & X1 & X2 & ->)]]; [done| |].
  { simplify_eq. apply current_ipc_run in X as (W' & ipc & -> & E); [|done]. split; [done|]. exists ipc, []. split; [done|]. destruct ipc; [by destruct E|]. split; [done|]. unfold offline in *. congruence. }
  apply current_ipc_run in X1 as (W1 & [ipc|] & -> & E); [|done..]. destruct E as [[= ->] A1].
  apply texec_bind in X2 as [[_ E]|(t3 & a & w2 & t4 & X2 & (-> & E & ->) & ->)]; [done|]. rewrite app_nil_r.
  apply (client_run ipc _ (fun a t => exists r, a = match r with
      | Ok resp => Ok (ResponseFrame.handled_by_client_id resp)
      | Err (IpcError.Peer e) => if bool_decide (e = "no-client-found") then Ok None else Err (IpcError.Peer e)
      | Err e => Err e
      end /\ call_says ipc method.THREAD_OWNER_DISCOVERY (json_object [("hostId", json_string LOCAL_HOST_ID); ("conversationId", json_string conversation)])
        (RequestOptions.mk None None (Some OWNER_DISCOVERY_TIMEOUT)) r t)) in X2 as ([W2 _] & seen & Et & r' & Ea & C); [|intros c c' sent b K Y; exact (mapped_call ipc _ _ _ _ _ _ _ _ _ K Y)|done].
  subst t3 a.   split; [done|]. exists (Some ipc), (map (on_wire ipc) seen). split; [done|]. injection E as ->.
  destruct C as [(-> & [->|[n ->]])|(id & answer & -> & -> & _)]; [exists None; split; [constructor|by eexists]..|].
  eexists. split; [apply (owner_asked _ _ id answer)|]. destruct answer as [resp| |]; cbn [answer_result]; [|by eexists..].
  destruct (ResponseFrame.result_type resp); [by destruct (ResponseFrame.handled_by_client_id resp); [|by eexists]|].
  case_bool_decide; by eexists.
Qed.

(** ** Commands *)

(** The operation that must be supported for a payload; the others write nothing. *)
Definition needs (p : CommandPayload.t) : option Operation.t :=
  match p with
  | CommandPayload.StartTurn _ => Some Operation.StartTurn
  | CommandPayload.Steer _ => Some Operation.SteerTurn
  | CommandPayload.Interrupt => Some Operation.InterruptTurn
  | CommandPayload.AnswerQuestion _ _ _ => Some Operation.AnswerQuestion
  | CommandPayload.SubmitApproval _ _ => Some Operation.SubmitApproval
  | CommandPayload.UpdateSettings _ => Some Operation.UpdateSettings
  | _ => None
  end.

Definition text_block (text : string) : V := json_object [("type", json_string "text"); ("text", json_string text); ("text_elements", json_array [])].

(** The questions that wait for an answer in the conversation, as the sessions [s] have them. *)
Definition open_questions (s : gmap string (SessionRuntime.t V)) (conversation : string) : list RequestsQuestion.t :=
  match s !! conversation with
  | Some rt => pending_request_questions (SessionRuntime.mapper rt)
  | None => []
  end.

(** What a command asks of Codex Desktop: the sessions it is read from, the method, the parameters, and which results of the method count. *)
Inductive native_request (conversation : string) (request : CommandRequest.t) : list AObs -> string -> V -> (V -> Prop) -> Prop :=
| asks_start input :
    CommandRequest.payload request = CommandPayload.StartTurn input ->
    native_request conversation request [] "thread-follower-start-turn"
      (json_object [("conversationId", json_string conversation);
                    ("turnStart", json_object [("request", json_object
                      [("threadId", json_string conversation); ("input", json_array [text_block (OutputText.text input)])])])])
      (fun result => exists x, start_turn_result_from result = Ok x)
| asks_steer input s rt message :
    CommandRequest.payload request = CommandPayload.Steer input ->
    s !! conversation = Some rt -> steer_restore_message (SessionRuntime.mapper rt) = Some message ->
    native_request conversation request [SawSessions s] "thread-follower-steer-turn"
      (json_object [("conversationId", json_string conversation); ("input", json_array [text_block (OutputText.text input)]); ("restoreMessage", message)])
      (fun result => exists x, steer_turn_result_from result = Ok x)
| asks_interrupt turn :
    CommandRequest.payload request = CommandPayload.Interrupt -> CommandRequest.expected_turn_id request = Some turn ->
    native_request conversation request [] "thread-follower-interrupt-turn"
      (json_object [("conversationId", json_string conversation); ("mode", json_string "user-stop"); ("expectedTurnId", json_string (TurnId.id turn))])
      (fun result => exists x, interrupt_turn_result_from result = Ok x)
| asks_answer question_id labels free_text s key :
    CommandRequest.payload request = CommandPayload.AnswerQuestion question_id labels free_text ->
    (* the question of the request that is open under this id, or this id itself *)
    match find (fun q => bool_decide (RequestsQuestion.request_id q = question_id)) (open_questions s conversation) with
    | Some q => exists question, RequestsQuestion.questions q = [question] /\ key = RequestQuestion.question_id question
    | None => key = question_id
    end ->
    native_request conversation request [SawSessions s] "thread-follower-submit-user-input"
      (json_object [("conversationId", json_string conversation); ("requestId", json_string question_id);
                    ("response", json_object [("answers", json_object [(key, json_object [("answers", json_array
                       (map json_string labels ++ match free_text with Some text => [json_string (OutputText.text text)] | None => [] end))])])])])
      (fun _ => True)
| asks_decision approval_id decision_id :
    CommandRequest.payload request = CommandPayload.SubmitApproval approval_id decision_id ->
    native_request conversation request [] "thread-follower-command-approval-decision"
      (json_object [("conversationId", json_string conversation); ("requestId", json_string approval_id); ("decision", json_string decision_id)])
      (fun _ => True)
| asks_settings values settings :
    CommandRequest.payload request = CommandPayload.UpdateSettings values ->
    (* the last value of each setting *)
    (forall k, settings !! k = json_string <$> last (map SettingUpdate.value (filter (fun v => SettingKind.native_key (SettingUpdate.kind v) = k) values))) ->
    native_request conversation request [] "thread-follower-update-thread-settings"
      (json_object [("conversationId", json_string conversation); ("threadSettings", build (JObject settings))])
      (fun _ => True).

(** The write of it to its owner: it counts when it is answered with a success whose result counts. *)
Inductive written (cl : IpcClient.t) (owner m : string) (params : V) (counts : V -> Prop) : Prop -> list AObs -> Prop :=
| not_sent : written cl owner m params counts False []
| sent_to_owner id answer :
    written cl owner m params counts
      (exists resp, answer = Answered resp /\ ResponseFrame.result_type resp = ResultType.Success /\ counts (default json_null (ResponseFrame.result resp)))
      [Framed cl (request_frame (IpcClient.client_id cl) id m params (RequestOptions.mk (Some owner) (Some "local") None)); Heard cl id answer].

(** What a command may do once it is in time. *)
Inductive payload_says (caps : CapabilitySet.t) (cl : IpcClient.t) (owner conversation : string) (request : CommandRequest.t) :
    list AObs -> res AdapterError.t (list CommandReceipt.t) -> Prop :=
| says_elsewhere message at_ :
    needs (CommandRequest.payload request) = None ->
    payload_says caps cl owner conversation request []
      (Ok [CommandReceipt.mk (CommandRequest.request_id request) (ReceiptState.Rejected StableErrorCode.CapabilityUnsupported message) at_])
| says_unsupported op e :
    needs (CommandRequest.payload request) = Some op -> CapabilitySet.supports caps op = false ->
    AdapterError.code e = StableErrorCode.ControlReadOnly \/ AdapterError.code e = StableErrorCode.CapabilityUnsupported ->
    payload_says caps cl owner conversation request [] (Err e)
| says_unasked op reads e :
    needs (CommandRequest.payload request) = Some op -> CapabilitySet.supports caps op = true ->
    (forall m params counts, ~ native_request conversation request reads m params counts) ->
    Forall (fun x => exists s, x = SawSessions s) reads ->
    payload_says caps cl owner conversation request reads (Err e)
| says_written op reads m params counts accepted t r :
    needs (CommandRequest.payload request) = Some op -> CapabilitySet.supports caps op = true ->
    native_request conversation request reads m params counts -> written cl owner m params counts accepted t ->
    match r with
    | Ok receipts => accepted /\ exists at1 at2, receipts =
        [CommandReceipt.mk (CommandRequest.request_id request) ReceiptState.DispatchedToCodex at1;
         CommandReceipt.mk (CommandRequest.request_id request) ReceiptState.Completed at2]
    | Err _ => ~ accepted
    end ->
    payload_says caps cl owner conversation request (reads ++ t) r.

(** The session is still as the command expects. *)
Definition in_time (request : CommandRequest.t) (rt : SessionRuntime.t V) : Prop :=
  (forall expected current, CommandRequest.expected_runtime_revision request = Some expected ->
     SessionMapper.revision (SessionRuntime.mapper rt) = Some current ->
     expected = current \/ CommandRequest.permits_revision_drift request (current_turn_id rt) = true) /\
  (forall expected current, CommandRequest.expected_turn_id request = Some expected -> current_turn_id rt = Some current ->
     TurnId.id expected = TurnId.id current).

(** What a command does: it reads the capabilities, looks for the owner, takes the client that is current then, and looks at the session. *)
Inductive command_says (conversation : string) (request : CommandRequest.t) : list AObs -> res AdapterError.t (list CommandReceipt.t) -> Prop :=
| says_offline caps e : command_says conversation request [SawCaps caps; SawIpc None] (Err e)
| says_no_owner caps cl t e :
    looked_for_owner cl conversation None t -> command_says conversation request (SawCaps caps :: SawIpc (Some cl) :: t) (Err e)
| says_client_gone caps cl t owner e :
    looked_for_owner cl conversation (Some owner) t -> command_says conversation request (SawCaps caps :: SawIpc (Some cl) :: t ++ [SawIpc None]) (Err e)
| says_stale caps cl t owner cl' s rt e :
    looked_for_owner cl conversation (Some owner) t -> s !! conversation = Some rt -> ~ in_time request rt ->
    AdapterError.code e = StableErrorCode.StaleTurn ->
    command_says conversation request (SawCaps caps :: SawIpc (Some cl) :: t ++ [SawIpc (Some cl'); SawSessions s]) (Err e)
| says_in_time caps cl t owner cl' s t' r :
    looked_for_owner cl conversation (Some owner) t -> (forall rt, s !! conversation = Some rt -> in_time request rt) ->
    payload_says caps cl' owner conversation request t' r ->
    command_says conversation request (SawCaps caps :: SawIpc (Some cl) :: t ++ SawIpc (Some cl') :: SawSessions s :: t') r.

Lemma receipt_run (request : CommandRequest.t) (state : ReceiptState.t) (tx receipts : list CommandReceipt.t) (cl : IpcClient.t)
    (w w' : World) (t : list AObs) :
  alive cl w -> aexec (receipt request state tx) w t (Some receipts) w' ->
  t = [] /\ alive cl w' /\ exists at_, receipts = tx ++ [CommandReceipt.mk (CommandRequest.request_id request) state at_].
Proof.
  intros A X. pose proof X as (-> & _ & A')%quiet_run; [|by repeat split]. split; [done|]. split; [by apply A'|].
  destruct X as (w1 & b & w2 & _ & [[at_ ->] ->] & X). destruct X as (t' & (_ & [= ->] & _) & _). by eexists.
Qed.

(** The result of the call on the wire decides. *)
Definition call_counts {T : Type} (cl : IpcClient.t) (m : string) (params : V) (owner : string) (counts : V -> Prop) (a : res IpcError.t T)
    (seen : list ClientObs) : Prop :=
  exists r, call_says cl m params (to_owner owner) r seen /\
    ((exists x, a = Ok x) <-> exists resp, r = Ok resp /\ counts (default json_null (ResponseFrame.result resp))).

Lemma call_written {T : Type} (cl : IpcClient.t) (m : string) (params : V) (owner : string) (counts : V -> Prop) (a : res IpcError.t T) (seen : list ClientObs) :
  call_counts cl m params owner counts a seen ->
  exists accepted, written cl owner m params counts accepted (map (on_wire cl) seen) /\ ((exists x, a = Ok x) <-> accepted).
Proof.
  intros (r & [(-> & E)|(id & answer & -> & -> & _)] & I).
  - exists False. split; [constructor|]. rewrite I. split; [|done]. intros (resp & -> & _). by destruct E as [?|[n ?]].
  - eexists. split; [apply (sent_to_owner cl owner m params counts id answer)|]. rewrite I. unfold answer_result. destruct answer as [resp| |].
    + split.
      * intros (x & E & C). destruct (ResponseFrame.result_type resp) eqn:R; [|done]. injection E as <-. by exists resp.
      * intros (x & [= <-] & -> & C). by exists resp.
    + by split; intros (? & ? & _).
    + by split; intros (? & ? & _).
Qed.

Lemma forwarded_run (request : CommandRequest.t) (cl : IpcClient.t) (m owner : string) (params : V) (counts : V -> Prop) {T : Type}
    (p : Prog.prog (@iop V) (res IpcError.t T)) (w w' : World) (t : list AObs) (r : res AdapterError.t (list CommandReceipt.t)) :
  (forall c c' seen a, conn_ok c -> cexec p c seen (Some a) c' -> call_counts cl m params owner counts a seen /\ conn_ok c') ->
  alive cl w -> aexec (forwarded request (on_client cl p)) w t (Some r) w' ->
  wf w' /\ exists accepted, written cl owner m params counts accepted t /\
    match r with
    | Ok receipts => accepted /\ exists at1 at2, receipts =
        [CommandReceipt.mk (CommandRequest.request_id request) ReceiptState.DispatchedToCodex at1;
         CommandReceipt.mk (CommandRequest.request_id request) ReceiptState.Completed at2]
    | Err _ => ~ accepted
    end.
Proof.
  intros P A X. unfold forwarded in X.
  apply texec_bind in X as [[_ E]|(t1 & tx & w1 & t2 & X1 & X & ->)]; [done|].
  apply (receipt_run _ _ _ _ cl) in X1 as (-> & A1 & at1 & ->); [|done].
  apply texec_bind in X as [[_ E]|(t3 & a & w2 & t4 & X2 & X & ->)]; [done|].
  apply (client_run cl p (call_counts cl m params owner counts)) in X2 as (A2 & seen & -> & C); [|done..].
  apply call_written in C as (accepted & Wr & I). destruct a as [x|e].
  - apply texec_bind in X as [[_ E]|(t5 & tx & w3 & t6 & X3 & (-> & [= ->] & ->) & ->)]; [done|].
    apply (receipt_run _ _ _ _ cl) in X3 as (-> & [W3 _] & at2 & ->); [|done]. split; [done|]. exists accepted. rewrite !app_nil_r. split; [done|].
    split; [apply I; by eexists|by exists at1, at2].
  - destruct X as (-> & [= ->] & ->). split; [by destruct A2|]. exists accepted. rewrite app_nil_r. split; [done|]. rewrite <- I. by intros [? ?].
Qed.

Lemma generic_counts (cl : IpcClient.t) (m owner : string) (params : V) (capacity : Z) (c c' : Conn.t V) (seen : list ClientObs)
    (a : res IpcError.t (ResponseFrame.t V)) :
  conn_ok c -> cexec (Ipc.request (IpcClient.client_id cl) capacity m params (to_owner owner)) c seen (Some a) c' ->
  call_counts cl m params owner (fun _ => True) a seen /\ conn_ok c'.
Proof. intros K X. destruct (request_call _ _ _ _ _ _ _ _ _ K X) as [C K']. split; [|done]. exists a. split; [done|]. split; [intros [x ->]; by exists x|intros (x & -> & _); by exists x]. Qed.

Lemma write_counts (cl : IpcClient.t) (m what owner : string) (params : V) (capacity : Z) {T : Type} (from : V -> res string T)
    (c c' : Conn.t V) (seen : list ClientObs) (a : res IpcError.t T) :
  conn_ok c ->
  cexec (do r <- Ipc.request (IpcClient.client_id cl) capacity m params (to_owner owner); Ret (write_result what from r)) c seen (Some a) c' ->
  call_counts cl m params owner (fun result => exists x, from result = Ok x) a seen /\ conn_ok c'.
Proof.
  intros K X. destruct (mapped_call _ _ _ _ _ _ _ _ _ _ K X) as [(r & -> & C) K']. split; [|done]. exists r. split; [done|].
  unfold write_result. destruct r as [resp|e]; simpl; [|by split; [intros [? ?]|intros (? & ? & _)]].
  split.
  - intros [x E]. exists resp. split; [done|]. destruct (from _) as [y|]; [by exists y|done].
  - intros (y & [= <-] & x & ->). by exists x.
Qed.

Lemma settings_lookup (values : list SettingUpdate.t) (m : gmap string V) (k : string) :
  foldl (fun m v => <[SettingKind.native_key (SettingUpdate.kind v) := json_string (SettingUpdate.value v)]> m) m values !! k =
  match last (map SettingUpdate.value (filter (fun v => SettingKind.native_key (SettingUpdate.kind v) = k) values)) with
  | Some x => Some (json_string x)
  | None => m !! k
  end.
Proof.
  revert m. induction values as [|v values IH]; intros m; [done|]. cbn [foldl]. rewrite IH, filter_cons.
  case_decide as E; [|by destruct (last _); [|rewrite lookup_insert_ne]].
  cbn [map]. rewrite last_cons. destruct (last _); [done|]. by rewrite <- E, lookup_insert_eq.
Qed.

(** The requests as the code builds them. *)
Lemma start_request (conversation : string) (request : CommandRequest.t) (input : OutputText.t) :
  CommandRequest.payload request = CommandPayload.StartTurn input ->
  native_request conversation request [] method.THREAD_FOLLOWER_START_TURN
    (start_turn_to (StartTurnParams.mk V conversation
       (TurnStart.mk V (TurnStartRequest.mk V conversation [InputBlock.text (OutputText.text input)] ∅) None)))
    (fun result => exists x, start_turn_result_from result = Ok x).
Proof.
  intros P. unfold start_turn_to, turn_start_request_to. cbn -[json_object json_array]. rewrite (left_id_L ∅ (∪)). by apply (asks_start _ _ input).
Qed.

Lemma not_askable (conversation question_id : string) (request : CommandRequest.t) (labels : list string) (free_text : option OutputText.t)
    (s : gmap string (SessionRuntime.t V)) (q : RequestsQuestion.t) :
  CommandRequest.payload request = CommandPayload.AnswerQuestion question_id labels free_text ->
  find (fun q => bool_decide (RequestsQuestion.request_id q = question_id)) (open_questions s conversation) = Some q ->
  ~ (exists question, RequestsQuestion.questions q = [question]) ->
  forall m params counts, ~ native_request conversation request [SawSessions s] m params counts.
Proof.
  intros P F N m params counts R. inversion R as [| | |id l ft s' key P' K Es| |]; try congruence. subst s'. rewrite P in P'. injection P' as <- <- <-.
  rewrite F in K. destruct K as (question & Q & _). by destruct N; eauto.
Qed.

Lemma answer_request (conversation question_id : string) (request : CommandRequest.t) (labels : list string) (free_text : option OutputText.t)
    (s : gmap string (SessionRuntime.t V)) :
  CommandRequest.payload request = CommandPayload.AnswerQuestion question_id labels free_text ->
  match answer_response_for (default [] ((fun r => pending_request_questions (SessionRuntime.mapper r)) <$> s !! conversation))
          question_id labels (OutputText.text <$> free_text) with
  | Ok answer => native_request conversation request [SawSessions s] method.THREAD_FOLLOWER_SUBMIT_USER_INPUT
      (json_object [("conversationId", json_string conversation); ("requestId", json_string answer.1); ("response", answer.2)]) (fun _ => True)
  | Err _ => forall m params counts, ~ native_request conversation request [SawSessions s] m params counts
  end.
Proof.
  intros P. replace (default [] _) with (open_questions s conversation) by (unfold open_questions; by destruct (s !! conversation)).
  unfold answer_response_for. destruct (find _ _) as [q|] eqn:F.
  - pose proof F as [_ Q]%find_some. apply bool_decide_eq_true in Q. unfold build_request_answer_response, answer_entries.
    destruct (RequestsQuestion.questions q) as [|question [|]] eqn:Qs; cbn [map_err res_bind].
    + apply (not_askable _ _ _ _ _ _ _ P F). rewrite Qs. by intros [? ?].
    + rewrite Q. eapply (asks_answer _ _ _ _ _ s (RequestQuestion.question_id question)) in P; [|rewrite F; by exists question].
      by destruct free_text.
    + apply (not_askable _ _ _ _ _ _ _ P F). rewrite Qs. by intros [? ?].
  - eapply (asks_answer _ _ _ _ _ s question_id) in P; [|by rewrite F]. unfold answer_entries. by destruct free_text.
Qed.

Lemma supports_gate (caps : CapabilitySet.t) (op : Operation.t) :
  match capability_gate caps op with
  | Ok _ => CapabilitySet.supports caps op = true
  | Err e => CapabilitySet.supports caps op = false /\ (AdapterError.code e = StableErrorCode.ControlReadOnly \/ AdapterError.code e = StableErrorCode.CapabilityUnsupported)
  end.
Proof. unfold capability_gate. destruct (CapabilitySet.supports caps op); [done|]. case_bool_decide; by auto. Qed.

Lemma with_gate_run (caps : CapabilitySet.t) (cl : IpcClient.t) (owner conversation : string) (request : CommandRequest.t) (op : Operation.t)
    (k : Prog.prog (@aop V) (res AdapterError.t (list CommandReceipt.t))) (w w' : World) (t : list AObs)
    (r : res AdapterError.t (list CommandReceipt.t)) :
  needs (CommandRequest.payload request) = Some op ->
  (forall t, CapabilitySet.supports caps op = true -> aexec k w t (Some r) w' -> wf w' /\ payload_says caps cl owner conversation request t r) ->
  wf w -> aexec (with_gate caps op k) w t (Some r) w' -> wf w' /\ payload_says caps cl owner conversation request t r.
Proof.
  intros N K W X. unfold with_gate in X. pose proof (supports_gate caps op) as G.
  apply texec_try in X as [[[_ X] E]|[(e & (-> & X & ->) & E)|(t1 & [] & w1 & t2 & (-> & X & ->) & Y & ->)]].
  - naive_solver.
  - injection X as X. injection E as ->. rewrite <- X in G. destruct G as [S C]. split; [done|]. by eapply says_unsupported.
  - injection X as X. rewrite <- X in G. by apply K.
Qed.

Lemma forwarded_says (caps : CapabilitySet.t) (cl : IpcClient.t) (owner conversation : string) (request : CommandRequest.t) (op : Operation.t)
    (reads : list AObs) (m : string) (params : V) (counts : V -> Prop) {T : Type} (p : Prog.prog (@iop V) (res IpcError.t T))
    (w w' : World) (t : list AObs) (r : res AdapterError.t (list CommandReceipt.t)) :
  needs (CommandRequest.payload request) = Some op -> CapabilitySet.supports caps op = true ->
  native_request conversation request reads m params counts ->
  (forall c c' seen a, conn_ok c -> cexec p c seen (Some a) c' -> call_counts cl m params owner counts a seen /\ conn_ok c') ->
  alive cl w -> aexec (forwarded request (on_client cl p)) w t (Some r) w' ->
  wf w' /\ payload_says caps cl owner conversation request (reads ++ t) r.
Proof.
  intros N S Nr P A X. apply (forwarded_run _ _ _ owner _ _ _ _ _ _ _ P A) in X as (W' & accepted & Wr & R). split; [done|]. by eapply says_written.
Qed.

Lemma execute_payload_run (caps : CapabilitySet.t) (cl : IpcClient.t) (owner conversation : string) (request : CommandRequest.t)
    (w w' : World) (t : list AObs) (r : res AdapterError.t (list CommandReceipt.t)) :
  alive cl w -> aexec (execute_payload caps cl owner conversation request) w t (Some r) w' ->
  wf w' /\ payload_says caps cl owner conversation request t r.
Proof.
  intros A X. unfold execute_payload in X. pose proof A as [W _].
  destruct (CommandRequest.payload request) as [input|input| |question_id option_ids free_text|approval_id decision_id|values| | | | |] eqn:Pl.
  7-11: apply texec_bind in X as [[_ E]|(t1 & tx & w1 & t2 & X1 & (-> & [= ->] & ->) & ->)]; [done|];
    apply (receipt_run _ _ _ _ cl) in X1 as (-> & [W1 _] & at_ & ->); [|done]; split; [done|]; apply says_elsewhere; by rewrite Pl.
  all: eapply with_gate_run; [by rewrite Pl| |exact W|exact X]; clear X t; intros t S X.
  - apply (forwarded_says _ _ owner conversation _ _ [] _ _ _ _ _ _ _ _ ltac:(by rewrite Pl) S (start_request _ _ _ Pl) (write_counts cl _ _ owner _ _ _) A X).
  - apply texec_bind in X as [[_ E]|(t1 & restore & w1 & t2 & X1 & X & ->)]; [done|].
    apply reading_run in X1 as (W1 & s & -> & -> & A1); [|done]. apply A1 in A. destruct (s !! conversation ≫= _) as [message|] eqn:M.
    + apply bind_Some in M as (rt & L & M).
      apply (forwarded_says _ _ owner conversation _ _ [SawSessions s] _ _ _ _ _ _ _ _ ltac:(by rewrite Pl) S (asks_steer _ _ _ _ _ _ Pl L M) (write_counts cl _ _ owner _ _ _) A X).
    + destruct X as (-> & [= ->] & ->). split; [done|]. eapply says_unasked; [by rewrite Pl|done| |repeat constructor; by eexists].
      intros m params counts Nr. inversion Nr as [|i s' rt m' P L Rm Es| | | |]; try congruence. subst s'. rewrite L in M. simpl in M. congruence.
  - destruct (CommandRequest.expected_turn_id request) as [turn|] eqn:Tn.
    + apply (forwarded_says _ _ owner conversation _ _ [] _ _ _ _ _ _ _ _ ltac:(by rewrite Pl) S (asks_interrupt _ _ _ Pl Tn) (write_counts cl _ _ owner _ _ _) A X).
    + destruct X as (-> & [= ->] & ->). split; [done|]. eapply says_unasked; [by rewrite Pl|done| |constructor].
      intros m params counts Nr. inversion Nr; congruence.
  - apply texec_bind in X as [[_ E]|(t1 & questions & w1 & t2 & X1 & X & ->)]; [done|].
    apply reading_run in X1 as (W1 & s & -> & -> & A1); [|done]. apply A1 in A. pose proof (answer_request conversation _ _ _ _ s Pl) as Q.
    apply texec_try in X as [[[_ X] E]|[(e & (-> & X & ->) & E)|(t3 & answer & w2 & t4 & (-> & X' & ->) & X & ->)]].
    + naive_solver.
    + injection X as X. injection E as ->. rewrite <- X in Q. split; [done|]. eapply says_unasked; [by rewrite Pl|done|exact Q|repeat constructor; by eexists].
    + injection X' as X'. rewrite <- X' in Q.
      apply (forwarded_says _ _ owner conversation _ _ [SawSessions s] _ _ _ _ _ _ _ _ ltac:(by rewrite Pl) S Q (generic_counts cl _ owner _ _) A X).
  - apply (forwarded_says _ _ owner conversation _ _ [] _ _ _ _ _ _ _ _ ltac:(by rewrite Pl) S (asks_decision _ _ _ _ Pl) (generic_counts cl _ owner _ _) A X).
  - refine (forwarded_says _ _ owner conversation _ _ [] _ _ _ _ _ _ _ _ ltac:(by rewrite Pl) S (asks_settings _ _ _ _ Pl _) (generic_counts cl _ owner _ _) A X).
    intros k. rewrite settings_lookup. by destruct (last _).
Qed.

Lemma expectations_in_time (request : CommandRequest.t) (rt : SessionRuntime.t V) :
  match expectations request rt with
  | Ok _ => in_time request rt
  | Err e => ~ in_time request rt /\ AdapterError.code e = StableErrorCode.StaleTurn
  end.
Proof.
  unfold expectations, in_time. cbv zeta.
  destruct (CommandRequest.expected_runtime_revision request) as [expected|], (SessionMapper.revision (SessionRuntime.mapper rt)) as [current|];
    try destruct (Z.eqb_spec expected current); try destruct (CommandRequest.permits_revision_drift _ _) eqn:D; cbn [negb andb res_bind];
    destruct (CommandRequest.expected_turn_id request), (current_turn_id rt); try case_bool_decide; naive_solver.
Qed.

(** The capabilities are read once, first; what is written afterwards is judged by them. *)
Lemma execute_command_run (key : SessionKey.t) (request : CommandRequest.t) (w w' : World) (t : list AObs)
    (r : res AdapterError.t (list CommandReceipt.t)) :
  wf w -> aexec (execute_command key request) w t (Some r) w' -> wf w' /\ command_says (SessionKey.native_session_id key) request t r.
Proof.
  intros W (w1 & b & w2 & R & [-> ->] & t0 & X & ->). apply (rtc_wf _ _ R) in W. clear R. cbn [aobs app].
  apply texec_try in X as [[X E]|[(e & X & E)|(t1 & owner & w2 & t2 & X1 & X & ->)]]; [done| |].
  { injection E as ->. destruct (ensure_owner_run _ _ _ _ _ W X) as (W' & [cl|] & t' & -> & D); (split; [done|]).
    - destruct D as ([owner|] & D & E); [done|]. by apply says_no_owner.
    - destruct D as [-> _]. apply says_offline. }
  destruct (ensure_owner_run _ _ _ _ _ W X1) as (W2 & [cl0|] & t' & -> & D); [|by destruct D]. destruct D as ([owner'|] & D & E); [|by destruct E]. injection E as <-.
  apply texec_try in X as [[X E]|[(e & X & E)|(t3 & cl & w3 & t4 & X1' & X & ->)]]; [done| |].
  { injection E as ->. destruct (current_ipc_run _ _ _ _ W2 X) as (W' & [cl|] & -> & E); [by destruct E|]. split; [done|]. by eapply says_client_gone. }
  destruct (current_ipc_run _ _ _ _ W2 X1') as (W3 & [cl'|] & -> & E); [|done]. destruct E as [[= ->] A3].
  apply texec_try in X as [[X E]|[(e & X & E)|(t5 & u & w4 & t6 & X2 & X & ->)]]; [done| |].
  - injection E as ->. destruct (reading_run _ _ _ _ _ W3 X) as (W' & s & -> & L & _). split; [done|]. destruct (s !! _) as [rt|] eqn:S; [|done].
    pose proof (expectations_in_time request rt) as I. rewrite <- L in I. destruct I. by eapply says_stale.
  - destruct (reading_run _ _ _ _ _ W3 X2) as (W4 & s & -> & L & A4). apply A4 in A3. apply execute_payload_run in X as [W' P]; [|done]. split; [done|].
    eapply says_in_time; [done| |exact P]. intros rt S. rewrite S in L. pose proof (expectations_in_time request rt) as I. by rewrite <- L in I.
Qed.


(** ** A request that succeeds *)

Lemma with_connection_twice (cl : IpcClient.t) (c1 c2 : Conn.t V) (w : World) :
  with_connection cl c2 (with_connection cl c1 w) = with_connection cl c2 w.
Proof. unfold with_connection, World.with_conns. simpl. by rewrite insert_insert_eq. Qed.

Lemma wf_with_connection (cl : IpcClient.t) (c : Conn.t V) (w : World) : wf w -> conn_ok c -> wf (with_connection cl c w).
Proof. intros W K. eapply wf_apart_wf; [by apply wf_apart_io, wf_wf_apart|apply lookup_with_connection|done]. Qed.

Lemma io_step (cl : IpcClient.t) (B : Type) (o : @iop V B) (c c' : Conn.t V) (b : option B) (w : World) :
  connection_of cl w = Some c -> istep B o c b c' -> astep B (Io cl o) w b (with_connection cl c' w).
Proof. intros L S. by exists c, c'. Qed.

Lemma request_succeeds (cl : IpcClient.t) (m id : string) (capacity : Z) (params : V) (opts : RequestOptions.t) (resp : ResponseFrame.t V)
    (c : Conn.t V) (w : World) :
  wf w -> connection_of cl w = Some c -> id ∉ Conn.used c -> Z.of_nat (size (Conn.pending c)) < Conn.capacity c ->
  Conn.outbound_open c = true -> ResponseFrame.request_id resp = id -> ResponseFrame.result_type resp = ResultType.Success ->
  exists c', aexec (on_client cl (Ipc.request (IpcClient.client_id cl) capacity m params opts)) w
      [Framed cl (request_frame (IpcClient.client_id cl) id m params opts); Heard cl id (Answered resp)] (Some (Ok resp)) (with_connection cl c' w) /\
    conn_ok c' /\ Conn.used c' = {[id]} ∪ Conn.used c /\ Conn.pending c' = Conn.pending c /\ Conn.capacity c' = Conn.capacity c /\
    Conn.outbound_open c' = true.
Proof.
  intros W L F B O E1 E2. pose proof (wf_conns _ W _ _ L) as K. destruct (ok_draw _ _ K F) as [K1 D1].
  set (c1 := Conn.with_used ({[id]} ∪ Conn.used c) c) in *. destruct (ok_register c1 id K1 D1 B) as [K2 W2].
  set (c2 := Conn.with_pending ({[id]} ∪ Conn.pending c1) c1) in *.
  destruct (ok_outbound c2 (Conn.outbound c2 ++ [request_frame (IpcClient.client_id cl) id m params opts]) id K2 W2) as [K3 _].
  set (c3 := Conn.with_outbound _ c2) in *. set (c4 := (dispatch (IncomingMessage.Response resp) c3).1).
  assert (O4 : others c3 c4) by apply OthersDispatch. pose proof (others_ok _ _ _ O4 K3) as K4.
  assert (A4 : c4 = Conn.with_answers (<[id := resp]> (Conn.answers c)) (Conn.with_pending (Conn.pending c3 ∖ {[id]}) c3)).
  { unfold c4. simpl. rewrite E1. apply (answer_eq id resp c3). simpl. by apply elem_of_union_l, elem_of_singleton. }
  exists c4. split; [|split; [done|]; rewrite A4; simpl; split_and!; [done| |done..]; apply set_eq; intros x; pose proof (ok_pending _ K id); set_solver].
  exists w, (Some id), (with_connection cl c1 w). split; [done|]. split; [apply (io_step _ _ _ c); [done|by constructor]|].
  exists [Framed cl (request_frame (IpcClient.client_id cl) id m params opts); Heard cl id (Answered resp)]. split; [|done].
  exists (with_connection cl c1 w), (Some true), (with_connection cl c2 w). split; [done|].
  split; [rewrite <- (with_connection_twice cl c1 c2); apply (io_step _ _ _ c1); [apply lookup_with_connection|by constructor]|].
  exists [Framed cl (request_frame (IpcClient.client_id cl) id m params opts); Heard cl id (Answered resp)]. split; [|done].
  exists (with_connection cl c2 w), (Some true), (with_connection cl c3 w). split; [done|].
  split; [rewrite <- (with_connection_twice cl c2 c3); apply (io_step _ _ _ c2); [apply lookup_with_connection|by constructor]|].
  exists [Heard cl id (Answered resp)]. split; [|done]. exists (with_connection cl c4 w), (Some (Answered resp)), (with_connection cl c4 w). split_and!.
  - apply rtc_once. split; [by apply wf_with_connection|]. split; [done|]. intros n c' L'. simpl in L'.
    destruct (decide (n = IpcClient.connection cl)) as [->|N].
    + exists c4. split; [apply lookup_insert_eq|]. rewrite lookup_insert_eq in L'. injection L' as <-. by apply rtc_once.
    + exists c'. split; [|done]. simpl. rewrite lookup_insert_ne by done. by rewrite lookup_insert_ne in L'.
  - rewrite <- (with_connection_twice cl c4 c4) at 2. apply (io_step _ _ _ c4); [apply lookup_with_connection|]. constructor.
    rewrite A4. apply lookup_insert_eq.
  - exists []. split; [|done]. simpl. case_bool_decide as Er; [congruence|by split_and!].
Qed.
End Run.

(** ** A turn that is started *)

Module AdapterDemo.
Import Json.Demo IpcProps.IpcDemo.

#[local] Instance chrono : Chrono := { timestamp_millis _ := None }.

Definition client : IpcClient.t := IpcClient.mk 0 "bridge" 4.
Definition all_writes : CapabilitySet.t :=
  probe (CapabilityProbeInput.mk (Some "0.153.4") true false true true REAL_DESKTOP_VERIFIED_CORE_OPS false false true []).
Definition conn : Conn.t json := Conn.mk json 4 ∅ ∅ [] true [] true (ConnectionState.Connected "bridge") ∅ ∅.
Definition world : World.t json := World.mk json (Some client) all_writes ∅ 1 (Some client) {[0 := conn]} 0.
Definition key : SessionKey.t := SessionKey.codex "dev" "s1".
Definition command : CommandRequest.t :=
  CommandRequest.mk "r1" Operation.StartTurn key None None None (CommandPayload.StartTurn (OutputText.mk "hello")).
Definition found : ResponseFrame.t json := ResponseFrame.mk json "u1" ResultType.Success None (Some "desktop") None None.
Definition started : ResponseFrame.t json := ResponseFrame.mk json "u2" ResultType.Success None (Some "desktop") None None.

Lemma conn_valid : conn_ok conn.
Proof. split; simpl; try done. Qed.

Lemma world_valid : wf world.
Proof.
  split.
  - intros n c L. unfold world in L. cbn [World.conns] in L. apply lookup_singleton_Some in L as [_ <-]. apply conn_valid.
  - intros cl [= <-]. by exists conn.
Qed.

Notation arun := (texec (interferes 100) astep aobs).

(** What the two requests of the run need of the connection and leave. *)
Definition fresh (id : string) (c : Conn.t json) : Prop :=
  id ∉ Conn.used c /\ Conn.pending c = ∅ /\ Conn.capacity c = 4 /\ Conn.outbound_open c = true /\ conn_ok c.

Lemma call_answered (id m : string) (params : json) (opts : RequestOptions.t) (resp : ResponseFrame.t json) {T : Type}
    (f : res IpcError.t (ResponseFrame.t json) -> T) (c : Conn.t json) (w : World.t json) :
  wf w -> connection_of client w = Some c -> fresh id c -> ResponseFrame.request_id resp = id ->
  ResponseFrame.result_type resp = ResultType.Success ->
  exists c', arun (on_client client (do r <- Ipc.request (IpcClient.client_id client) (IpcClient.capacity client) m params opts; Ret (f r))) w
      [Framed client (request_frame "bridge" id m params opts); Heard client id (Answered resp)] (Some (f (Ok resp))) (with_connection client c' w) /\
    (forall id', id' <> id -> id' ∉ Conn.used c -> fresh id' c') /\ wf (with_connection client c' w).
Proof.
  intros W L (F & P & C & O & K) E1 E2.
  destruct (request_succeeds 100 client m id (IpcClient.capacity client) params opts resp c w) as (c' & X & K' & U & P' & C' & O'); try done.
  { rewrite P, C. done. }
  exists c'. split; [|split].
  - apply texec_map_bind. rewrite <- (app_nil_r [_; _]). eapply texec_bind_intro; [exact X|]. by split_and!.
  - intros id' N F'. split_and!; [|congruence|congruence|done|done]. rewrite U. set_solver.
  - by apply wf_with_connection.
Qed.

Lemma start_turn_run : exists t receipts w',
  arun (execute_command key command) world t (Some (Ok receipts)) w' /\
  exists m id, Framed client m ∈ t /\ Heard client id (Answered started) ∈ t.
Proof.
  destruct (call_answered "u1" method.THREAD_OWNER_DISCOVERY
    (json_object [("hostId", json_string LOCAL_HOST_ID); ("conversationId", json_string "s1")])
    (RequestOptions.mk None None (Some OWNER_DISCOVERY_TIMEOUT)) found
    (fun r => match r with
              | Ok resp => Ok (ResponseFrame.handled_by_client_id resp)
              | Err (IpcError.Peer e) => if bool_decide (e = "no-client-found") then Ok None else Err (IpcError.Peer e)
              | Err e => Err e
              end) conn world) as (c1 & X1 & F1 & W1); [exact world_valid|done| |done|done|].
  { by split_and!. }
  destruct (call_answered "u2" method.THREAD_FOLLOWER_START_TURN
    (start_turn_to (StartTurnParams.mk json "s1" (TurnStart.mk json (TurnStartRequest.mk json "s1" [InputBlock.text "hello"] ∅) None)))
    (to_owner "desktop") started (write_result "start-turn" start_turn_result_from) c1 (with_connection client c1 world))
    as (c2 & X2 & _ & W2); [exact W1|apply lookup_with_connection|apply F1; [done|set_solver]|done|done|].
  eexists _, _, _. split.
  - unfold execute_command. eexists world, (Some all_writes), world. split; [done|]. split; [done|]. eexists. split; [|reflexivity].
    cbn [prog_bind]. eapply texec_bind_intro.
    + eexists world, _, world. split; [done|]. split; [split; reflexivity|]. eexists. split; [|reflexivity]. cbn [prog_bind].
      eapply texec_bind_intro; [exact X1|]. split_and!; reflexivity.
    + cbv beta iota. eapply texec_bind_intro.
      * eexists _, _, _. split; [done|]. split; [split; reflexivity|]. eexists. split; [|reflexivity]. split_and!; reflexivity.
      * cbv beta iota. eapply texec_bind_intro.
        -- eexists _, _, _. split; [done|]. split; [split; reflexivity|]. eexists. split; [|reflexivity]. split_and!; reflexivity.
        -- cbv beta iota. unfold execute_payload. cbn [CommandRequest.payload command]. unfold with_gate.
           eapply texec_bind_intro; [split_and!; reflexivity|]. cbv beta iota.
           eapply texec_bind_intro; [eexists _, (Some 7), _; split; [done|]; split; [split; [done|reflexivity]|]; eexists; split; [|reflexivity]; split_and!; reflexivity|].
           eapply texec_bind_intro; [exact X2|]. cbv beta iota.
           eapply texec_bind_intro; [eexists _, (Some 8), _; split; [done|]; split; [split; [done|reflexivity]|]; eexists; split; [|reflexivity]; split_and!; reflexivity|].
           split_and!; reflexivity.
  - cbn [aobs app map on_wire cobs]. eexists _, _. rewrite !elem_of_cons. naive_solver.
Qed.

End AdapterDemo.
