(* ===== verification/AdapterSafety.v ===== *)
(** * Waiting, attaching and the sections of the adapter

    The polling loops end within their fuel, a new connection opens only writes that are proven for the
    version found, and no critical section of any program panics or breaks what holds of the sessions. *)

From S2P Require Import Prelude Prog RustStr Json Frame Domain Projection Mapper MapperProps Concurrent Ipc IpcProps Capabilities Adapter AdapterProps.

Section Run.
Context {V : Type} `{SerdeJson V} `{SerdeJsonText V} `{IpcSerde V} `{Chrono}.
Variable max_frame_bytes : Z.
Variable config : CodexAdapterConfig.t.

Notation World := (World.t V).
Notation aexec := (texec (interferes max_frame_bytes) astep aobs).

(** ** Polling *)

Lemma rtc_now (w w' : World) : rtc (interferes max_frame_bytes) w w' -> World.now w <= World.now w'.
Proof. induction 1 as [|x y z (_ & E & _) _ IH]; lia. Qed.

Definition waited (ready : RuntimeSnapshot.t -> bool) (message : string) (deadline : Z) (now : Z)
    (r : res AdapterError.t RuntimeSnapshot.t) : Prop :=
  match r with
  | Ok x => ready x = true
  | Err e => e = AdapterError.Stable StableErrorCode.CodexUnavailable message /\ deadline <= now
  end.

Lemma wait_snapshot_run (fuel : nat) (ready : RuntimeSnapshot.t -> bool) (message : string) (deadline : Z) (conversation : string)
    (w w' : World) (t : list AObs) (a : option (res AdapterError.t RuntimeSnapshot.t)) :
  deadline - World.now w <= 20 * (Z.of_nat fuel - 1) -> (0 < fuel)%nat ->
  aexec (wait_snapshot fuel ready message deadline conversation) w t (Some a) w' ->
  exists r, a = Some r /\ waited ready message deadline (World.now w') r.
Proof.
  revert w t. induction fuel as [|fuel IH]; intros w t B F; [lia|]. intros (w1 & b & w2 & R1 & [-> ->] & t1 & X & ->).
  apply rtc_now in R1. cbn [prog_bind] in X. set (found := World.sessions _ !! _ ≫= _) in X. clearbody found.
  assert (D : (exists x, found = Some x /\ ready x = true) \/ (if found is Some x then if ready x then Some x else None else None) = None).
  { destruct found as [x|]; [|by right]. destruct (ready x) eqn:E; [left; by exists x|by right]. }
  destruct D as [(x & -> & E)|D].
  { rewrite E in X. destruct X as (-> & [= ->] & ->). by eexists. }
  rewrite D in X. destruct X as (w3 & b & w4 & R2 & [-> ->] & t2 & X & ->). apply rtc_now in R2. simpl in R2. cbn [prog_bind] in X.
  destruct (Z.leb_spec deadline (World.now w3)) as [L|L].
  { destruct X as (-> & [= ->] & ->). by eexists. }
  destruct X as (w5 & b & w6 & R3 & (now & N & -> & ->) & t3 & X & ->). apply rtc_now in R3.
  apply IH in X; [done|simpl; lia|]. destruct fuel; [|lia]. simpl in *. lia.
Qed.

Lemma wait_fuel_enough (ready : RuntimeSnapshot.t -> bool) (message conversation : string) (w w' : World) (t : list AObs)
    (a : option (res AdapterError.t RuntimeSnapshot.t)) :
  aexec (do now <- act Instant; wait_snapshot WAIT_FUEL ready message (now + SNAPSHOT_WAIT) conversation) w t (Some a) w' ->
  exists r, a = Some r /\ match r with Ok x => ready x = true | Err e => e = AdapterError.Stable StableErrorCode.CodexUnavailable message end.
Proof.
  intros (w1 & b & w2 & _ & [-> ->] & t1 & X & ->). apply wait_snapshot_run in X as (r & -> & R).
  - exists r. split; [done|]. unfold waited in R. by destruct r as [x|e]; [|destruct R].
  - change (Z.of_nat WAIT_FUEL) with 251. unfold SNAPSHOT_WAIT. lia.
  - change WAIT_FUEL with 251%nat. lia.
Qed.

Lemma try_fuel_run {A B : Type} (p : Prog.prog (@aop V) (res AdapterError.t A))
    (k : A -> Prog.prog (@aop V) (option (res AdapterError.t B))) (w w' : World) (t : list AObs) (a : option (res AdapterError.t B)) :
  aexec (try_fuel p k) w t (Some a) w' ->
  (exists e, a = Some (Err e)) \/
  exists t1 x w1 t2, aexec p w t1 (Some (Ok x)) w1 /\ aexec (k x) w1 t2 (Some a) w' /\ t = t1 ++ t2.
Proof.
  unfold try_fuel. intros [[_ E]|(t1 & [x|e] & w1 & t2 & X1 & X & ->)]%texec_bind; [done| |].
  - right. by exists t1, x, w1, t2.
  - left. destruct X as (_ & [= ->] & _). by exists e.
Qed.

(** The reads of a snapshot end.  A read that waits for the owner gives a snapshot or an error after at most
    251 rounds, and a refreshed snapshot is never older than the revision the owner answered with. *)
Theorem snapshot_reads_end (key : SessionKey.t) (w w' : World) (t : list AObs) (a : option (res AdapterError.t RuntimeSnapshot.t)) :
  (aexec (runtime_snapshot_of config key) w t (Some a) w' -> is_Some a) /\
  (aexec (refresh_snapshot key) w t (Some a) w' ->
   is_Some a /\
   forall x, a = Some (Ok x) -> exists cl w1 t1 w2 revision, revision <= RuntimeSnapshot.runtime_revision x /\
     aexec (do r <- on_client cl (load_complete_history (IpcClient.client_id cl) (IpcClient.capacity cl) LOCAL_HOST_ID
              (SessionKey.native_session_id key)); Ret (map_err AdapterError_from r)) w1 t1 (Some (Ok revision)) w2).
Proof.
  split.
  - intros [[e ->]|(t1 & owner & w1 & t2 & _ & X & _)]%try_fuel_run; [done|].
    destruct X as (w2 & b & w3 & _ & [-> ->] & t3 & X & ->). cbn [prog_bind] in X.
    apply texec_bind in X as [[_ E]|(t4 & found & w4 & t5 & _ & X & _)]; [done|].
    destruct found as [x|r]; [by destruct X as (_ & [= ->] & _)|].
    apply try_fuel_run in X as [[e ->]|(t6 & u & w5 & t7 & _ & X & _)]; [done|].
    by apply wait_fuel_enough in X as (r' & -> & _).
  - intros [[e ->]|(t1 & owner & w1 & t2 & _ & X & _)]%try_fuel_run; [done|].
    apply try_fuel_run in X as [[e ->]|(t3 & cl & w3 & t4 & _ & X & _)]; [done|].
    apply texec_bind in X as [[_ E]|(t5 & u & w5 & t6 & _ & X & _)]; [done|].
    apply try_fuel_run in X as [[e ->]|(t7 & u' & w7 & t8 & _ & X & _)]; [done|].
    apply try_fuel_run in X as [[e ->]|(t9 & revision & w9 & t10 & X1 & X & _)]; [done|].
    apply wait_fuel_enough in X as (r & -> & R). split; [done|]. intros x [= ->].
    exists cl, w7, t9, w9, revision. split; [lia|exact X1].
Qed.

(** ** Attaching *)

Lemma attach_backoff_bounds (failures : Z) : 1 <= attach_backoff failures <= ATTACH_MAX_BACKOFF.
Proof.
  unfold attach_backoff, ATTACH_BACKOFF_STEPS, ATTACH_MAX_BACKOFF. destruct (Z.to_nat _) as [|[|[|[|n]]]]; simpl; lia.
Qed.

Lemma attach_backoff_mono (m n : Z) : m <= n -> attach_backoff m <= attach_backoff n.
Proof.
  intros L. unfold attach_backoff, ATTACH_BACKOFF_STEPS, ATTACH_MAX_BACKOFF.
  assert (Z.to_nat (Z.max 0 (m - 1)) <= Z.to_nat (Z.max 0 (n - 1)))%nat as K by lia.
  destruct (Z.to_nat (Z.max 0 (m - 1))) as [|[|[|[|a]]]], (Z.to_nat (Z.max 0 (n - 1))) as [|[|[|[|b]]]]; simpl; lia.
Qed.

(** A version that the write methods may be trusted with, found as the configuration says. *)
Definition trusted (t : list (@AObs V)) (version : string) : Prop :=
  version_is_verified version = true /\
  match CodexAdapterConfig.version_binary config with
  | None => CodexAdapterConfig.version_report config = Some version
  | Some _ => Probed (Ok version) ∈ t /\
      forall configured, CodexAdapterConfig.version_report config = Some configured ->
        normalized_version version = normalized_version configured
  end.

Lemma reassess_run (w w' : World) (t : list AObs) (v : option string * WriteMethodProbes.t) :
  aexec (reassess_version config) w t (Some v) w' ->
  (forall x, t = [x] -> exists r, x = Probed r) /\ (length t <= 1)%nat /\
  forall op, writes_open (capability_probe_input config v.1 v.2 true) = true -> probe_of op v.2 = ProbeResult.Passed ->
    probe_of op (CodexAdapterConfig.write_method_probes config) = ProbeResult.Passed /\ exists version, trusted t version.
Proof.
  unfold reassess_version, trusted. destruct (CodexAdapterConfig.version_binary config) as [binary|].
  - intros (w1 & b & w2 & _ & [[r ->] ->] & t1 & (-> & [= ->] & ->) & ->). simpl. split; [intros x [= <-]; by exists r|]. split; [lia|].
    destruct r as [fresh|e]; simpl; [|by intros []]. intros op W P. unfold writes_open in W. simpl in W. rewrite !andb_true_r in W.
    destruct (CodexAdapterConfig.version_report config) as [configured|].
    + case_bool_decide as E; [|by destruct op]. split; [done|]. exists fresh. split; [done|]. split; [by left|]. by intros ? [= <-].
    + split; [done|]. exists fresh. split; [done|]. split; [by left|done].
  - intros (-> & [= ->] & ->). split; [done|]. split; [simpl; lia|]. simpl. intros op W P. split; [done|].
    unfold writes_open in W. simpl in W. rewrite !andb_true_r in W. destruct (CodexAdapterConfig.version_report config) as [version|]; [|done].
    by exists version.
Qed.

Definition no_caps (B : Type) (o : @aop V B) : Prop :=
  match o with SetCaps _ => False | _ => True end.

Lemma no_caps_run {A : Type} (p : Prog.prog (@aop V) A) (w w' : World) (t : list AObs) (a : option A) (caps : CapabilitySet.t) :
  prog_all no_caps p -> aexec p w t a w' -> Announced caps ∉ t.
Proof.
  intros P X. apply (texec_all no_caps _ _ _ (fun x => x <> Announced caps)) in X; [|clear|exact P].
  - intros I. rewrite Forall_forall in X. by apply (X _ I).
  - intros B o b. destruct o; simpl; try done; intros _; try (repeat constructor; done).
    apply Forall_forall. intros x (m & -> & _)%list_elem_of_fmap. by destruct m.
Qed.

Lemma announce_no_caps (cl : IpcClient.t) (l : list string) : prog_all no_caps (announce_following (V := V) cl l).
Proof. induction l as [|x l IH]; [done|]. split; [done|]. intros b. exact IH. Qed.

Lemma announced_elem (a b : CapabilitySet.t) : Announced a ∈ [Announced (V := V) b] -> a = b.
Proof. rewrite list_elem_of_singleton. by intros [= ->]. Qed.

(** A new connection opens only proven writes: whatever capabilities an attempt to attach announces, every
    operation in them passed its probe at start, and the version was verified - the configured one when no
    version command is given, else one this attempt found, the same as the configured.  An attempt that fails
    announces nothing; one that succeeds announces once. *)
Theorem attach_opens_proven_writes (w w' : World) (t : list AObs) (r : res IpcError.t unit) :
  aexec (try_attach config) w t (Some r) w' ->
  (forall caps op, Announced caps ∈ t -> CapabilitySet.supports caps op = true ->
     probe_of op (CodexAdapterConfig.write_method_probes config) = ProbeResult.Passed /\ exists version, trusted t version) /\
  match r with
  | Ok _ => exists caps, Announced caps ∈ t /\ forall caps', Announced caps' ∈ t -> caps' = caps
  | Err _ => forall caps, Announced caps ∉ t
  end.
Proof.
  intros X. unfold try_attach in X. destruct (CodexAdapterConfig.ipc_configured config); cbn [negb] in X.
  2:{ destruct X as (-> & [= ->] & ->). split; intros caps; [by intros op ?%elem_of_nil|by intros ?%elem_of_nil]. }
  destruct X as (w1 & b & w2 & _ & S & X). destruct S as [(e & -> & ->)|(cl & c & -> & _ & _ & ->)].
  { destruct X as (t1 & (-> & [= ->] & ->) & ->). split; intros caps; [by intros op ?%elem_of_nil|by intros ?%elem_of_nil]. }
  destruct X as (t1 & X & ->). cbn [prog_bind] in X.
  destruct X as (w3 & b & w4 & _ & [-> ->] & t2 & X & ->). cbn [prog_bind] in X.
  apply texec_bind in X as [[_ E]|(t3 & v & w5 & t4 & X1 & X & ->)]; [done|].
  apply reassess_run in X1 as (P1 & P2 & P3).
  destruct X as (w6 & b & w7 & _ & [-> ->] & t5 & X & ->). destruct X as (w8 & b & w9 & _ & [-> ->] & t6 & X & ->).
  destruct X as (w10 & b & w11 & _ & [-> ->] & t7 & X & ->). destruct X as (w12 & b & w13 & _ & [-> ->] & t8 & X & ->).
  destruct X as (w14 & b & w15 & _ & (l & _ & -> & ->) & t9 & X & ->). cbn [prog_bind] in X.
  apply texec_bind in X as [[_ E]|(t10 & u & w16 & t11 & X & (-> & [= ->] & ->) & ->)]; [done|].
  assert (A : forall caps, Announced caps ∈ t3 ++ [Announced (probe (capability_probe_input config v.1 v.2 true))] ++ t10 ->
    caps = probe (capability_probe_input config v.1 v.2 true)).
  { intros caps. rewrite !elem_of_app. intros [I|[I|I]].
    - destruct t3 as [|x [|y l']]; [by apply elem_of_nil in I| |simpl in P2; lia]. apply list_elem_of_singleton in I as <-. by destruct (P1 _ eq_refl).
    - by apply announced_elem.
    - exfalso. revert I. eapply no_caps_run; [|exact X]. apply announce_no_caps. }
  rewrite ?app_nil_r. split.
  - intros caps op I S. apply A in I as ->. apply probe_supports in S as [W P]. destruct (P3 op W P) as [Pr [version [T1 T2]]].
    split; [done|]. exists version. split; [done|]. destruct (CodexAdapterConfig.version_binary config); [|done].
    destruct T2 as [T2 T3]. split; [|done]. simpl. apply elem_of_app. by left.
  - eexists. split; [|exact A]. simpl. apply elem_of_app. right. by left.
Qed.

(** The capabilities of the adapter never carry a setting: they are probed without any. *)
Lemma no_settings_announced (version_report : option string) (probes : WriteMethodProbes.t) (connected : bool) :
  CapabilitySet.settings (probe (capability_probe_input config version_report probes connected)) = [].
Proof. done. Qed.

(** ** The critical sections *)

Definition session_valid (r : SessionRuntime.t V) : Prop :=
  buffers_valid (SessionRuntime.mapper r) /\
  forall state, SessionMapper.state (SessionRuntime.mapper r) = Some state -> outputs_valid state.

Definition sessions_valid (s : gmap string (SessionRuntime.t V)) : Prop := map_Forall (fun _ r => session_valid r) s.

(** A section returns, keeps the sessions valid and forgets none of them. *)
Definition section_safe (B : Type) (o : @aop V B) : Prop :=
  match o with
  | Locked f => forall s, sessions_valid s -> exists a s', f s = Some (a, s') /\ sessions_valid s' /\ dom s ⊆ dom s'
  | _ => True
  end.

Lemma new_valid (key : SessionKey.t) : session_valid (SessionRuntime.new key).
Proof. split; [apply new_buffers_valid|done]. Qed.

Lemma runtime_or_new_valid (key : SessionKey.t) (conversation : string) (s : gmap string (SessionRuntime.t V)) :
  sessions_valid s -> session_valid (runtime_or_new key conversation s).
Proof. intros S. unfold runtime_or_new. destruct (s !! conversation) as [r|] eqn:L; [by apply (S _ _ L)|apply new_valid]. Qed.

Lemma insert_valid (conversation : string) (r : SessionRuntime.t V) (s : gmap string (SessionRuntime.t V)) :
  session_valid r -> sessions_valid s -> sessions_valid (<[conversation := r]> s) /\ dom s ⊆ dom (<[conversation := r]> s).
Proof. intros R S. split; [by apply map_Forall_insert_2|]. rewrite dom_insert. apply union_subseteq_r. Qed.

Lemma reading_safe {A : Type} (f : gmap string (SessionRuntime.t V) -> A) : prog_all section_safe (reading f).
Proof. by split. Qed.

Lemma follow_valid (ipc : option IpcClient.t) (conversation : string) (s : gmap string (SessionRuntime.t V)) :
  sessions_valid s -> sessions_valid (follow_locked config ipc conversation s).2 /\ dom s ⊆ dom (follow_locked config ipc conversation s).2.
Proof.
  intros S. unfold follow_locked. destruct ipc as [cl|]; [|done].
  pose proof (runtime_or_new_valid (SessionKey.codex (CodexAdapterConfig.device_id config) conversation) conversation s S) as R.
  destruct (SessionRuntime.following _); simpl; by apply insert_valid.
Qed.

Lemma on_client_safe {A : Type} (cl : IpcClient.t) (p : Prog.prog (@iop V) A) : prog_all section_safe (on_client cl p).
Proof. by apply prog_all_map. Qed.

(** What a change of the stream may carry: strings of the program are UTF-8. *)
Definition change_valid (change : StreamChange.t V) : Prop :=
  match change with
  | StreamChange.Snapshot _ state => outputs_valid state
  | StreamChange.Patches _ _ patches => forall state, outputs_valid state -> outputs_valid (apply_immer_patches state patches).1
  end.

Definition event_valid (event : IpcEvent.t V) : Prop :=
  match event with
  | IpcEvent.StreamChanged params => change_valid (StreamStateChangedParams.change params)
  | _ => True
  end.

Lemma change_runtime_safe (clock : string -> Z) (caps : CapabilitySet.t) (change : StreamChange.t V) (r : SessionRuntime.t V) :
  change_valid change -> session_valid r -> exists a r', change_runtime clock caps change r = Some (a, r') /\ session_valid r'.
Proof.
  intros C [B S]. unfold change_runtime. set (m := set_capabilities (SessionRuntime.mapper r) caps).
  assert (Bm : buffers_valid m) by (destruct B as [B1 B2 B3]; by split). destruct change as [revision state|base revision patches].
  - destruct (apply_snapshot_returns clock m revision state Bm C) as (m' & es & E & Bm' & _). rewrite E. simpl.
    eexists _, _. split; [reflexivity|]. split; [done|]. simpl. apply apply_snapshot_records in E as [_ ->]. by intros ? [= <-].
  - destruct (apply_patches_returns clock m base revision patches Bm) as (m' & outcome & E & Bm' & O); [intros state L; apply C, S, L|].
    rewrite E. simpl. destruct outcome as [es|]; [|subst m'; eexists _, _; by split].
    eexists _, _. split; [reflexivity|]. split; [done|]. simpl. unfold apply_patches in E.
    destruct (negb _ || _); [by injection E|]. destruct (SessionMapper.state m) as [st|] eqn:L; [|by injection E].
    destruct (apply_immer_patches st patches) as [patched [[]|]] eqn:P; [|by injection E].
    destruct (apply_snapshot clock m revision patched) as [[m1 es1]|] eqn:Sn; simpl in E; [|done]. injection E as <- <-.
    apply apply_snapshot_records in Sn as [_ ->]. intros ? [= <-]. specialize (C st (S _ L)). by rewrite P in C.
Qed.

Lemma stream_changed_safe (clock : string -> Z) (caps : CapabilitySet.t) (params : StreamStateChangedParams.t V)
    (s : gmap string (SessionRuntime.t V)) :
  change_valid (StreamStateChangedParams.change params) -> sessions_valid s ->
  exists a s', stream_changed clock caps params s = Some (a, s') /\ sessions_valid s' /\ dom s ⊆ dom s'.
Proof.
  intros C S. unfold stream_changed. destruct (s !! _) as [r|] eqn:L; [|by exists None, s].
  destruct (change_runtime_safe clock caps _ r C (S _ _ L)) as (a & r' & -> & R). eexists _, _. split; [reflexivity|]. by apply insert_valid.
Qed.

Lemma flush_runtime_safe (now : Z) (conversation : string) (s : gmap string (SessionRuntime.t V)) :
  sessions_valid s -> exists a s', flush_runtime now conversation s = Some (a, s') /\ sessions_valid s' /\ dom s ⊆ dom s'.
Proof.
  intros S. unfold flush_runtime. destruct (s !! conversation) as [r|] eqn:L; [|by exists None, s]. destruct (S _ _ L) as [B St].
  destruct (take_pending_outputs_returns (map fst (filter (fun '(_, p) =>
    OutputMergePolicy.max_delay (SessionMapper.merge_policy (SessionRuntime.mapper r)) <= Z.max 0 (now - PendingOutput.queued_at p))
       (bt_iter (SessionMapper.pending_outputs (SessionRuntime.mapper r))))) _ B) as (m' & es & E & B' & _).
  unfold flush_due_outputs. rewrite E. simpl. eexists _, _. split; [reflexivity|]. apply insert_valid; [|done]. split; [done|].
  simpl. by rewrite (take_pending_outputs_state _ _ _ _ E).
Qed.

(** *** The programs *)

Ltac safe :=
  repeat match goal with
  | |- prog_all _ (Ret _) => exact I
  | |- prog_all _ (lift _) => exact I
  | |- prog_all _ (reading _) => apply reading_safe
  | |- prog_all _ (on_client _ _) => apply on_client_safe
  | |- prog_all _ (prog_bind _ _) => apply prog_all_bind; [|intros ?]
  | |- prog_all _ (try _ _) => apply prog_all_try; [|intros ?]
  | |- prog_all _ (act ?o) => lazymatch o with Locked _ => fail | _ => apply prog_all_act; exact I end
  | |- prog_all _ (match ?x with _ => _ end) => destruct x
  end.

Lemma ensure_owner_safe (conversation : string) : prog_all section_safe (ensure_owner (V := V) conversation).
Proof. unfold ensure_owner, current_ipc. safe. Qed.

Lemma current_ipc_safe : prog_all section_safe (current_ipc (V := V)).
Proof. unfold current_ipc. safe. Qed.

Lemma wait_safe (fuel : nat) (ready : RuntimeSnapshot.t -> bool) (message : string) (deadline : Z) (conversation : string) :
  prog_all section_safe (wait_snapshot fuel ready message deadline conversation).
Proof. induction fuel as [|fuel IH]; [done|]. cbn [wait_snapshot]. safe. apply IH. Qed.

Lemma deliver_safe (watchers : list Z) (events : list DomainEvent.t) : prog_all section_safe (dispatch_to_watchers (V := V) watchers events).
Proof.
  unfold dispatch_to_watchers. induction events as [|event events IH]; [done|]. simpl. apply prog_all_bind; [|done].
  clear IH. induction watchers as [|x l IH]; [done|]. by split.
Qed.

Lemma send_all_safe (watcher : Z) (events : list DomainEvent.t) : prog_all section_safe (send_all (V := V) watcher events).
Proof. induction events as [|event events IH]; [done|]. by split. Qed.

Lemma announce_safe (cl : IpcClient.t) (l : list string) : prog_all section_safe (announce_following (V := V) cl l).
Proof. induction l as [|x l IH]; [done|]. cbn [announce_following]. apply prog_all_bind; [apply on_client_safe|done]. Qed.

Lemma flush_each_safe (l : list string) : prog_all section_safe (flush_each (V := V) l).
Proof.
  induction l as [|x l IH]; [done|]. cbn [flush_each]. apply prog_all_bind; [safe|]. intros now. apply prog_all_bind.
  - apply prog_all_act. intros s. apply flush_runtime_safe.
  - intros [[events watchers]|]; (apply prog_all_bind; [|done]); [apply deliver_safe|done].
Qed.

Lemma pump_event_safe (cl : IpcClient.t) (event : IpcEvent.t V) : event_valid event -> prog_all section_safe (pump_event cl event).
Proof.
  intros E. unfold pump_event. destruct event as [params|m source params|m]; [|case_match; [|done]|done].
  - apply prog_all_bind; [safe|]. intros caps. apply prog_all_bind; [safe|]. intros clock. apply prog_all_bind.
    + apply prog_all_act. intros s. by apply stream_changed_safe.
    + intros [[[events watchers] resync]|]; [|done]. apply prog_all_bind; [safe|]. intros _. apply deliver_safe.
  - apply prog_all_bind; [safe|]. intros l. apply announce_safe.
Qed.

Lemma forwarded_safe (request : CommandRequest.t) {T : Type} (p : Prog.prog (@aop V) (res IpcError.t T)) :
  prog_all section_safe p -> prog_all section_safe (forwarded request p).
Proof. intros P. unfold forwarded, receipt. repeat (apply prog_all_bind; [safe; try exact P|intros ?]). safe. Qed.

Lemma execute_safe (key : SessionKey.t) (request : CommandRequest.t) : prog_all section_safe (execute_command (V := V) key request).
Proof.
  unfold execute_command. apply prog_all_bind; [safe|]. intros caps. apply prog_all_try; [apply ensure_owner_safe|]. intros owner.
  apply prog_all_try; [apply current_ipc_safe|]. intros cl. apply prog_all_try; [apply reading_safe|]. intros _. unfold execute_payload, with_gate, generic_write.
  destruct (CommandRequest.payload request); safe; try (apply forwarded_safe; apply on_client_safe); unfold receipt; safe.
Qed.

Lemma subscribe_safe (key : SessionKey.t) (watcher : Z) : prog_all section_safe (subscribe (V := V) config key watcher).
Proof.
  unfold subscribe. apply prog_all_bind; [safe|]. intros ipc. apply prog_all_bind.
  - split; [|done]. intros s S. cbv zeta.
    match goal with |- context [follow_locked config ipc ?k ?s1] => destruct (follow_valid ipc k s1) as [F1 F2] end.
    + apply insert_valid; [|done]. destruct (runtime_or_new_valid (SessionKey.codex (CodexAdapterConfig.device_id config) (SessionKey.native_session_id key))
        (SessionKey.native_session_id key) s S) as [R1 R2]. by split.
    + destruct (follow_locked _ _ _ _) as [r s2]. eexists _, _. split; [reflexivity|]. split; [done|].
      etrans; [|exact F2]. rewrite dom_insert. apply union_subseteq_r.
  - intros found. apply prog_all_try; [unfold spawn_following; safe|]. intros _. apply prog_all_bind; [apply send_all_safe|done].
Qed.

Lemma runtime_snapshot_safe (key : SessionKey.t) : prog_all section_safe (runtime_snapshot_of (V := V) config key).
Proof.
  unfold runtime_snapshot_of, try_fuel. cbv zeta. apply prog_all_bind; [apply ensure_owner_safe|]. intros [owner|]; [|done].
  apply prog_all_bind; [safe|]. intros ipc. apply prog_all_bind.
  - split; [|done]. intros s S. cbv zeta. set (rt := runtime_or_new _ _ s).
    destruct (insert_valid (SessionKey.native_session_id key) rt s) as [I1 I2]; [by apply runtime_or_new_valid|done|].
    destruct (runtime_snapshot _) as [x|]; [by eexists _, _|].
    destruct (follow_valid ipc (SessionKey.native_session_id key) _ I1) as [F1 F2]. destruct (follow_locked _ _ _ _) as [r s2].
    eexists _, _. split; [reflexivity|]. split; [done|]. by etrans.
  - intros [x|r]; [done|]. apply prog_all_bind; [unfold spawn_following; safe|]. intros [u|]; [|done].
    apply prog_all_bind; [safe|]. intros now. apply wait_safe.
Qed.

Lemma refresh_snapshot_safe (key : SessionKey.t) : prog_all section_safe (refresh_snapshot (V := V) key).
Proof.
  unfold refresh_snapshot, try_fuel. cbv zeta. apply prog_all_bind; [apply ensure_owner_safe|]. intros [owner|]; [|done].
  apply prog_all_bind; [apply current_ipc_safe|]. intros [cl|]; [|done]. apply prog_all_bind.
  - split; [|done]. intros s S. eexists _, _. split; [reflexivity|]. apply insert_valid; [|done].
    destruct (runtime_or_new_valid key (SessionKey.native_session_id key) s S) as [R1 R2]. by split.
  - intros _. apply prog_all_bind; [safe|]. intros [u|]; [|done]. apply prog_all_bind; [safe|]. intros [revision|]; [|done].
    apply prog_all_bind; [safe|]. intros now. apply wait_safe.
Qed.

Lemma attach_safe : prog_all section_safe (try_attach (V := V) config).
Proof.
  unfold try_attach, reassess_version. case_match; [done|]. apply prog_all_try; [safe|]. intros cl.
  repeat (apply prog_all_bind; [safe; apply announce_safe|intros ?]). done.
Qed.

Lemma catalog_safe (threads : list CatalogThread.t) : prog_all section_safe (summaries_from_catalog (V := V) config threads).
Proof.
  induction threads as [|thread threads IH]; [done|]. cbn [summaries_from_catalog]. apply prog_all_bind.
  - unfold summary_from_catalog. safe.
  - intros x. apply prog_all_bind; [exact IH|done].
Qed.

Lemma list_sessions_safe (cursor : option string) (limit : Z) (include_archived : bool) :
  prog_all section_safe (list_sessions (V := V) config cursor limit include_archived).
Proof.
  unfold list_sessions. apply prog_all_try; [|intros page; safe]. destruct (CodexAdapterConfig.catalog config).
  - apply prog_all_bind; [safe|]. intros [page|[]]; try done. apply prog_all_bind; [apply catalog_safe|done].
  - apply prog_all_bind; [apply catalog_safe|done].
Qed.

Lemma history_safe (key : SessionKey.t) (cursor : option string) (limit : Z) : prog_all section_safe (history_page (V := V) config key cursor limit).
Proof. unfold history_page. destruct (CodexAdapterConfig.catalog config); [|done]. safe. Qed.

Lemma flush_safe : prog_all section_safe (flush_due_outputs_all (V := V)).
Proof. unfold flush_due_outputs_all. apply prog_all_bind; [safe|]. intros l. apply flush_each_safe. Qed.

Lemma supervise_safe (failures : Z) : prog_all section_safe (supervise (V := V) config failures).
Proof. unfold supervise. apply prog_all_bind; [safe|]. intros [|]; [done|]. apply prog_all_bind; [apply attach_safe|done]. Qed.

(** Everything the tasks of the adapter and its callers run; the pump runs on events whose strings are UTF-8. *)
Inductive adapter_program : forall A : Type, Prog.prog (@aop V) A -> Prop :=
| RunsCommand key request : adapter_program _ (execute_command key request)
| RunsSubscribe key watcher : adapter_program _ (subscribe config key watcher)
| RunsSnapshot key : adapter_program _ (runtime_snapshot_of config key)
| RunsRefresh key : adapter_program _ (refresh_snapshot key)
| RunsCwd key : adapter_program _ (session_cwd key)
| RunsOutputPage key item_id offset limit : adapter_program _ (output_page_of key item_id offset limit)
| RunsList cursor limit include_archived : adapter_program _ (list_sessions config cursor limit include_archived)
| RunsHistory key cursor limit : adapter_program _ (history_page config key cursor limit)
| RunsPump cl event : event_valid event -> adapter_program _ (pump_event cl event)
| RunsFlush : adapter_program _ flush_due_outputs_all
| RunsAttach : adapter_program _ (try_attach config)
| RunsSupervise failures : adapter_program _ (supervise config failures).

Lemma adapter_program_safe (A : Type) (p : Prog.prog (@aop V) A) : adapter_program A p -> prog_all section_safe p.
Proof.
  destruct 1.
  - apply execute_safe.
  - apply subscribe_safe.
  - apply runtime_snapshot_safe.
  - apply refresh_snapshot_safe.
  - apply reading_safe.
  - apply reading_safe.
  - apply list_sessions_safe.
  - apply history_safe.
  - by apply pump_event_safe.
  - apply flush_safe.
  - apply attach_safe.
  - apply supervise_safe.
Qed.

(** [o] is an operation the program can come to. *)
Fixpoint comes_to {A B : Type} (o : @aop V B) (p : Prog.prog (@aop V) A) : Prop :=
  match p with
  | Ret _ => False
  | @Act _ _ C o' k => existT B o = existT C o' \/ exists c, comes_to o (k c)
  end.

Lemma comes_to_safe {A B : Type} (o : @aop V B) (p : Prog.prog (@aop V) A) : prog_all section_safe p -> comes_to o p -> section_safe B o.
Proof.
  induction p as [a|C o' k IH]; [done|]. intros [P K] [E|[c M]]; [|by eapply IH].
  change (section_safe (projT1 (existT B o)) (projT2 (existT B o))). by rewrite E.
Qed.

(** What happens between two operations: the connections do what they do, and the sessions are only touched by
    an operation of another of these programs. *)
Definition meanwhile (w w' : World) : Prop :=
  interferes max_frame_bytes w w' /\
  (World.sessions w' = World.sessions w \/
   exists A (p : Prog.prog (@aop V) A) B (o : @aop V B) w0 b, adapter_program A p /\ comes_to o p /\ astep B o w b w0 /\ World.sessions w' = World.sessions w0).

Definition kept (s s' : gmap string (SessionRuntime.t V)) : Prop := sessions_valid s' /\ dom s ⊆ dom s'.

Lemma section_step (B : Type) (o : @aop V B) (w w' : World) (b : option B) :
  section_safe B o -> astep B o w b w' -> sessions_valid (World.sessions w) -> is_Some b /\ kept (World.sessions w) (World.sessions w').
Proof.
  intros P S I. destruct o as [| |A f| |A f|cl C o|cl task|watcher event| | | |ms|cursor limit archived|session cursor limit| | | |binary| |cl|caps|cl]; simpl in S;
    try (destruct S as [-> ->]; split; [by eexists|done]).
  - destruct (P _ I) as (a & s' & E & V' & D). rewrite E in S. destruct S as [-> ->]. split; [by eexists|done].
  - destruct S as (l & _ & -> & ->). split; [by eexists|done].
  - destruct S as (c & c' & _ & S & ->). split; [destruct S; by eexists|done].
  - by destruct S as [? ->].
  - by destruct S as [? ->].
  - destruct S as (t & _ & -> & ->). split; [by eexists|done].
  - by destruct S as [? ->].
  - by destruct S as [? ->].
  - destruct S as [(e & -> & ->)|(cl & c & -> & _ & _ & ->)]; (split; [by eexists|done]).
  - by destruct S as [? ->].
Qed.

Lemma meanwhile_kept (w w' : World) : rtc meanwhile w w' -> sessions_valid (World.sessions w) -> kept (World.sessions w) (World.sessions w').
Proof.
  induction 1 as [w|w w1 w2 [_ M] _ IH]; intros I; [done|]. assert (K : kept (World.sessions w) (World.sessions w1)).
  { destruct M as [E|(A & p & B & o & w0 & b & P & M & S & E)]; [by rewrite E|]. rewrite E.
    eapply section_step; [|exact S|done]. by eapply comes_to_safe, M; apply adapter_program_safe. }
  destruct K as [K1 K2]. destruct (IH K1) as [K3 K4]. split; [done|]. by etrans.
Qed.

Lemma run_kept {A : Type} (p : Prog.prog (@aop V) A) (w w' : World) (t : list AObs) (a : option A) :
  prog_all section_safe p -> texec meanwhile astep aobs p w t a w' -> sessions_valid (World.sessions w) ->
  is_Some a /\ kept (World.sessions w) (World.sessions w').
Proof.
  revert w t. induction p as [x|B o k IH]; intros w t P X I; [destruct X as (_ & -> & ->); split; [by eexists|done]|].
  destruct P as [P K]. destruct X as (w1 & b & w2 & R & S & X). destruct (meanwhile_kept _ _ R I) as [V1 D1].
  destruct (section_step _ _ _ _ _ P S V1) as ([b' ->] & V2 & D2). destruct X as (t' & X & _). destruct (IH b' w2 t' (K b') X V2) as (Sa & V3 & D3).
  split; [done|]. split; [done|]. etrans; [exact D1|]. by etrans.
Qed.

(** C13. No program of the adapter panics, loses a session or breaks one.  Any of them - commands, subscriptions, the reads of snapshots,
    pages, histories and lists, the pump, the flush timer, attaching -, run from valid sessions while operations of the others come in between in any order and the
    connections do as they like, ends with an answer and with valid sessions under all the keys there were, and perhaps more; when
    the events of Codex Desktop carry UTF-8 outputs, as every string of the program does. *)
Theorem adapter_sections_safe {A : Type} (p : Prog.prog (@aop V) A) (w w' : World) (t : list AObs) (a : option A) :
  adapter_program A p -> texec meanwhile astep aobs p w t a w' -> sessions_valid (World.sessions w) ->
  is_Some a /\ sessions_valid (World.sessions w') /\ dom (World.sessions w) ⊆ dom (World.sessions w').
Proof. intros P%adapter_program_safe X I. by apply (run_kept p w w' t a). Qed.
End Run.

(** ** An attempt that attaches *)

Module AttachDemo.
Import Json.Demo IpcProps.IpcDemo AdapterDemo.

Definition config : CodexAdapterConfig.t :=
  CodexAdapterConfig.mk "dev" true (Some "0.153.4") (Some "codex") (verified_write_probes (Some "0.153.4")) None [].
Definition detached : World.t json := connected config None ∅ 0.
Definition open_caps : CapabilitySet.t :=
  probe (capability_probe_input config (Some "codex-cli 0.153.4") (verified_write_probes (Some "0.153.4")) true).

Lemma attached : exists w', texec (interferes 100) astep aobs (try_attach config) detached
  [Probed (Ok "codex-cli 0.153.4"); Announced open_caps] (Some (Ok tt)) w'.
Proof.
  eexists. unfold try_attach. cbn [CodexAdapterConfig.ipc_configured config negb].
  eexists detached, (Some (Ok client)), _. split; [done|]. split; [right; exists client, conn; split_and!; [done|done|apply conn_valid|reflexivity]|].
  eexists. split; [|reflexivity]. cbn [prog_bind].
  eexists _, _, _. split; [done|]. split; [split; reflexivity|]. eexists. split; [|reflexivity]. cbn [prog_bind].
  eexists _, (Some (Ok "codex-cli 0.153.4")), _. split; [done|]. split; [split; [done|reflexivity]|]. eexists. split; [|reflexivity].
  do 4 (eexists _, (Some tt), _; split; [done|]; split; [split; reflexivity|]; eexists; split; [|reflexivity]).
  eexists _, _, _. split; [done|]. split; [exists []; split_and!; [done|reflexivity|reflexivity]|]. eexists. split; [|reflexivity].
  cbn. by split_and!.
Qed.

(** A snapshot of the stream for a session that is known. *)
Definition snapshot_params : StreamStateChangedParams.t json :=
  StreamStateChangedParams.mk json "s1" LOCAL_HOST_ID None (StreamChange.Snapshot 1 (MapperDemo.thread [MapperDemo.command "c1" "ab" "inProgress"])).
Definition snapshot_event : IpcEvent.t json :=
  IpcEvent.StreamChanged snapshot_params.
Definition followed_world : World.t json := World.with_sessions {["s1" := SessionRuntime.new (SessionKey.codex "dev" "s1")]} detached.

Lemma snapshot_event_valid : event_valid snapshot_event.
Proof. vm_compute. repeat constructor. Qed.

Lemma followed_valid : sessions_valid (World.sessions followed_world).
Proof. apply map_Forall_singleton, new_valid. Qed.

Lemma snapshot_changes :
  match stream_changed MapperDemo.clock (World.caps followed_world)
    snapshot_params
    (World.sessions followed_world) with
  | Some (Some (events, watchers, resync), s) => watchers = [] /\ resync = false /\ SessionMapper.revision <$> (SessionRuntime.mapper <$> s !! "s1") = Some (Some 1)
  | _ => False
  end.
Proof. vm_compute. done. Qed.

Lemma nobody_watches (events : list DomainEvent.t) (w : World.t json) :
  texec (meanwhile 100 config) astep aobs (dispatch_to_watchers [] events) w [] (Some tt) w.
Proof. induction events as [|event events IH]; [done|]. exact IH. Qed.

Lemma snapshot_pumped : exists w' t, texec (meanwhile 100 config) astep aobs (pump_event client snapshot_event) followed_world t (Some tt) w' /\
  SessionMapper.revision <$> (SessionRuntime.mapper <$> World.sessions w' !! "s1") = Some (Some 1).
Proof.
  pose proof snapshot_changes as C. destruct (stream_changed _ _ _ _) as [[[[[events watchers] resync]|] s]|] eqn:E; [|done..]. destruct C as (-> & -> & R).
  eexists (World.with_sessions s followed_world), _. split; [|exact R]. unfold pump_event, snapshot_event.
  eexists followed_world, (Some (World.caps followed_world)), followed_world. split; [done|]. split; [done|]. eexists. split; [|reflexivity]. cbn [prog_bind].
  eexists followed_world, (Some MapperDemo.clock), followed_world. split; [done|]. split; [done|]. eexists. split; [|reflexivity]. cbn [prog_bind].
  eexists followed_world, (Some (Some (events, [], false))), (World.with_sessions s followed_world). split; [done|].
  split; [cbn [astep]; rewrite E; done|]. eexists. split; [|reflexivity]. cbn [prog_bind]. apply nobody_watches.
Qed.

Lemma adapter_sections_safe_witness : event_valid snapshot_event /\ sessions_valid (World.sessions followed_world) /\
  exists w', SessionMapper.revision <$> (SessionRuntime.mapper <$> World.sessions w' !! "s1") = Some (Some 1) /\ sessions_valid (World.sessions w').
Proof.
  split; [exact snapshot_event_valid|]. split; [exact followed_valid|]. destruct snapshot_pumped as (w' & t & X & R). exists w'. split; [exact R|].
  exact (proj1 (proj2 (adapter_sections_safe 100 config (pump_event client snapshot_event) followed_world w' t (Some tt)
    (RunsPump config client snapshot_event snapshot_event_valid) X followed_valid))).
Defined.

Lemma attach_opens_proven_writes_witness :
  (forall caps op, Announced caps ∈ [Probed (V := json) (Ok "codex-cli 0.153.4"); Announced open_caps] -> CapabilitySet.supports caps op = true ->
     probe_of op (CodexAdapterConfig.write_method_probes config) = ProbeResult.Passed /\
     exists version, trusted config [Probed (V := json) (Ok "codex-cli 0.153.4"); Announced open_caps] version) /\
  CapabilitySet.supports open_caps Operation.StartTurn = true.
Proof.
  split; [|by vm_compute]. destruct attached as [w' X]. exact (proj1 (attach_opens_proven_writes 100 config detached w' _ (Ok tt) X)).
Defined.
End AttachDemo.
