(* ===== verification/CommandProps.v ===== *)
(** * Properties of the command handlers

    Under every interleaving a request is handed to the executor at most once; alone and under
    any interference of the other tasks, nothing is dispatched without its guards, receipts end
    with one terminal state, the automatic paths of the queue only ever pause. *)

From S2P Require Import Prelude Prog RustStr Domain LocalStore Concurrent Queue Gateway.

(** ** A budget of dispatches

    [wp r n p Q]: a program that holds [n] rights to dispatch the request [r] spends one at each
    dispatch of [r] and earns one at each fresh receipt row of [r]; it never overspends, and ends
    with the rights [Q] allows. *)

Definition cost (r : Uuid) {B : Type} (o : op B) : nat :=
  match o with
  | Execute _ req => if bool_decide (CommandRequest.request_id req = r) then 1%nat else 0%nat
  | _ => 0%nat
  end.

Definition gain (r : Uuid) {B : Type} (o : op B) : B -> nat :=
  match o in op B return B -> nat with
  | RecordReceipt row => fun x =>
      match x with
      | Ok Inserted => if bool_decide (RequestReceipt.request_id row = r) then 1%nat else 0%nat
      | _ => 0%nat
      end
  | _ => fun _ => 0%nat
  end.

Fixpoint wp {A : Type} (r : Uuid) (n : nat) (p : prog A) (Q : A -> nat -> Prop) : Prop :=
  match p with
  | Ret a => Q a n
  | Act o k => (cost r o <= n)%nat /\ forall x, wp r (n - cost r o + gain r o x) (k x) Q
  end.

Lemma wp_mono {A} (r : Uuid) (p : prog A) (Q R : A -> nat -> Prop) (n : nat) :
  (forall a m, Q a m -> R a m) -> wp r n p Q -> wp r n p R.
Proof. intros HQ. revert n. induction p as [a|B o k IH]; simpl; intros n; [apply HQ|naive_solver]. Qed.

Lemma wp_bind {A C} (r : Uuid) (p : prog A) (f : A -> prog C) (Q : C -> nat -> Prop) (n : nat) :
  wp r n p (fun a m => wp r m (f a) Q) -> wp r n (prog_bind p f) Q.
Proof. revert n. induction p as [a|B o k IH]; simpl; intros n; [done|]. intros [? Hk]. split; auto. Qed.

(** Programs all of whose operations satisfy a predicate. *)
Fixpoint only {A : Type} (P : forall B : Type, op B -> bool) (p : prog A) : Prop :=
  match p with
  | Ret _ => True
  | Act o k => P _ o = true /\ forall x, only P (k x)
  end.

Lemma only_bind {A C} (P : forall B : Type, op B -> bool) (p : prog A) (f : A -> prog C) :
  only P p -> (forall a, only P (f a)) -> only P (prog_bind p f).
Proof. intros Hp Hf. induction p as [a|B o k IH]; simpl in *; [auto|]. naive_solver. Qed.

(** Programs that neither dispatch through the executor nor record a receipt. *)
Definition quiet_op (B : Type) (o : op B) : bool :=
  match o with
  | Execute _ _ | RecordReceipt _ => false
  | _ => true
  end.

Definition quiet {A} (p : prog A) : Prop := only quiet_op p.

Lemma quiet_op_budget {B} (o : op B) (r : Uuid) :
  quiet_op B o = true -> cost r o = 0%nat /\ forall x, gain r o x = 0%nat.
Proof. by destruct o. Qed.

Lemma quiet_wp {A} (p : prog A) (r : Uuid) (n : nat) : quiet p -> wp r n p (fun _ m => m = n).
Proof.
  unfold quiet. revert n. induction p as [a|B o k IH]; simpl; [done|]. intros n [Ho Hk].
  destruct (quiet_op_budget o r Ho) as [-> Hg]. split; [lia|]. intros x.
  rewrite Hg, Nat.sub_0_r, Nat.add_0_r. auto.
Qed.

Lemma quiet_Ret {A} (a : A) : quiet (Ret a).
Proof. done. Qed.

Lemma quiet_bind {A C} (p : prog A) (f : A -> prog C) :
  quiet p -> (forall a, quiet (f a)) -> quiet (prog_bind p f).
Proof. apply only_bind. Qed.

Lemma quiet_Act {B C} (o : op B) (k : B -> prog C) :
  quiet (act o) -> (forall b, quiet (k b)) -> quiet (Act o k).
Proof. apply (quiet_bind (act o) k). Qed.

Ltac quiet_step := by split.

(** Follows the structure of a program; [quiet] facts about its parts come from the hints. *)
Create HintDb quiet.
Ltac quiet :=
  repeat first
    [ progress auto with quiet nocore
    | apply quiet_Ret
    | quiet_step
    | apply quiet_bind; [|intros ?]
    | match goal with |- quiet (Act _ _) => apply quiet_Act; [|intros ?] end
    | match goal with
      | |- quiet (match ?x with _ => _ end) => destruct x
      | |- quiet (let _ := _ in _) => cbv zeta
      | |- quiet (try_store ?r _) => destruct r; unfold try_store
      end ].

Lemma quiet_retry_loop {A} (fuel attempt : nat) (o : op (res StoreError.t A)) :
  quiet (act o) -> quiet (retry_busy_loop fuel attempt o).
Proof.
  intros Ho. revert attempt. induction fuel as [|fuel IH]; intros attempt; cbn [retry_busy_loop]; quiet.
  all: apply IH.
Qed.

Lemma quiet_retry {A} (o : op (res StoreError.t A)) : quiet (act o) -> quiet (retry_busy o).
Proof. apply quiet_retry_loop. Qed.

Section Quiet.
Context `{Conversions}.

Lemma quiet_set_next (entry : NextTurnEntry.t) (replace : bool) : quiet (retry_busy (SetNextTurn entry replace)).
Proof. apply quiet_retry. quiet_step. Qed.

Lemma quiet_clear_next (session : SessionKeyRef.t) : quiet (retry_busy (ClearNextTurn session)).
Proof. apply quiet_retry. quiet_step. Qed.

#[local] Hint Resolve quiet_set_next quiet_clear_next : quiet.

Lemma quiet_mark_paused (session : SessionKeyRef.t) : quiet (mark_paused session).
Proof. unfold mark_paused. quiet. Qed.

Lemma quiet_ensure_watcher (key : SessionKey.t) : quiet (ensure_watcher key).
Proof. unfold ensure_watcher. quiet. Qed.

Lemma quiet_receive (id : Uuid) (receipts : list CommandReceipt.t) : quiet (receive_until_terminal id receipts).
Proof. induction receipts; cbn [receive_until_terminal]; quiet. Qed.

Lemma quiet_entry_from_snapshot (key : SessionKey.t) (s : RuntimeSnapshot.t) (prompt : string) :
  quiet (entry_from_snapshot key s prompt).
Proof. unfold entry_from_snapshot. quiet. Qed.

Lemma quiet_remember (key : SessionKey.t) (id : Uuid) : quiet (remember_request_id key id).
Proof. unfold remember_request_id. quiet. Qed.

Lemma quiet_stored (key : SessionKey.t) : quiet (stored_request_id key).
Proof. unfold stored_request_id. quiet. Qed.

Lemma quiet_queue_snapshot (key : SessionKey.t) : quiet (queue_snapshot key).
Proof. unfold queue_snapshot. quiet. Qed.

#[local] Hint Resolve quiet_mark_paused quiet_ensure_watcher quiet_receive quiet_entry_from_snapshot
  quiet_remember quiet_stored quiet_queue_snapshot : quiet.

Lemma quiet_maybe_auto_send (key : SessionKey.t) : quiet (maybe_auto_send key).
Proof. unfold maybe_auto_send. quiet. Qed.

#[local] Hint Resolve quiet_maybe_auto_send : quiet.

Lemma quiet_on_event (key : SessionKey.t) (event : DomainEvent.t) : quiet (on_event key event).
Proof. unfold on_event. destruct event; quiet. Qed.

#[local] Hint Resolve quiet_on_event : quiet.

Lemma quiet_watch (key : SessionKey.t) (events : list DomainEvent.t) : quiet (watch key events).
Proof. induction events; cbn [watch]; quiet. Qed.

Lemma quiet_queue_set (key : SessionKey.t) (input : OutputText.t) (replace : bool) (id : Uuid)
    (s : RuntimeSnapshot.t) : quiet (queue_set key input replace id s).
Proof. unfold queue_set. quiet. Qed.

#[local] Hint Resolve quiet_queue_set : quiet.

Lemma quiet_queue_replace (key : SessionKey.t) (input : OutputText.t) (id : Uuid) :
  quiet (queue_replace key input id).
Proof. unfold queue_replace. quiet. Qed.

Lemma quiet_queue_cancel (key : SessionKey.t) : quiet (queue_cancel key).
Proof. unfold queue_cancel. quiet. Qed.

Lemma quiet_queue_pause (key : SessionKey.t) : quiet (queue_pause key).
Proof. unfold queue_pause. quiet. Qed.

Lemma quiet_queue_resume (key : SessionKey.t) : quiet (queue_resume key).
Proof. unfold queue_resume. quiet. Qed.

Lemma quiet_finalize (id : Uuid) (state : ReceiptState.t) : quiet (finalize_receipt id state).
Proof. unfold finalize_receipt. quiet. Qed.

Lemma quiet_accepted (id : Uuid) : quiet (accepted id).
Proof. unfold accepted. quiet. Qed.

Lemma quiet_forward_receipts (id : Uuid) (receipts : list CommandReceipt.t) :
  quiet (forward_receipts id receipts).
Proof. induction receipts; cbn [forward_receipts]; quiet. Qed.

#[local] Hint Resolve quiet_forward_receipts : quiet.

Lemma quiet_forward (id : Uuid) (receipts : list CommandReceipt.t) : quiet (forward id receipts).
Proof. unfold forward. quiet. Qed.

Lemma quiet_finalize_drained (ids : list Uuid) : quiet (finalize_drained ids).
Proof. induction ids; cbn [finalize_drained]; quiet. Qed.

Lemma quiet_replayed (id : Uuid) : quiet (replayed id).
Proof. unfold replayed. quiet. Qed.
End Quiet.

#[export] Hint Resolve quiet_set_next quiet_clear_next quiet_mark_paused quiet_ensure_watcher quiet_receive
  quiet_entry_from_snapshot quiet_remember quiet_stored quiet_queue_snapshot quiet_maybe_auto_send
  quiet_on_event quiet_watch quiet_queue_set quiet_queue_replace quiet_queue_cancel quiet_queue_pause
  quiet_queue_resume quiet_finalize quiet_accepted quiet_forward_receipts quiet_forward
  quiet_finalize_drained quiet_replayed : quiet.

(** ** At most one dispatch, under every interleaving *)
Section AtMostOnce.
Context `{Conversions}.

Definition anything {A} : A -> nat -> Prop := fun _ _ => True.

Lemma quiet_anything {A} (p : prog A) (r : Uuid) (n : nat) : quiet p -> wp r n p anything.
Proof. intros Hp. eapply wp_mono; [|by apply quiet_wp]. done. Qed.

Definition right_of (r id : Uuid) : nat := if bool_decide (id = r) then 1%nat else 0%nat.

Lemma wp_dispatch (r : Uuid) (req : CommandRequest.t) (v : option RuntimeSnapshot.t) :
  wp r (right_of r (CommandRequest.request_id req)) (dispatch req v) anything.
Proof.
  unfold dispatch.
  assert (Hexec : forall request, CommandRequest.request_id request = CommandRequest.request_id req ->
    wp r (right_of r (CommandRequest.request_id req))
      (do x <- act (Execute (CommandRequest.session_key req) request);
       match x with
       | Ok receipts => perform act (Spawn (Forward (CommandRequest.request_id req) receipts));
                        accepted (CommandRequest.request_id req)
       | Err err => perform finalize_receipt (CommandRequest.request_id req) (adapter_failure err);
                    accepted (CommandRequest.request_id req)
       end) anything).
  { intros request Hid. cbn [prog_bind act wp]. split.
    - simpl. rewrite Hid. unfold right_of. done.
    - intros x. apply quiet_anything. quiet. }
  destruct (CommandRequest.payload req); try (by apply Hexec).
  - destruct v; apply quiet_anything; unfold finalize_local; quiet.
  - apply quiet_anything; unfold finalize_local; quiet.
  - apply quiet_anything; unfold finalize_local; quiet.
Qed.

Lemma wp_validate (r : Uuid) (req : CommandRequest.t) :
  wp r (right_of r (CommandRequest.request_id req)) (validate_and_dispatch req) anything.
Proof.
  unfold validate_and_dispatch. destruct (needs_snapshot req); [|apply wp_dispatch].
  cbn [prog_bind act wp]. split; [simpl; lia|]. intros x. simpl. rewrite Nat.sub_0_r, Nat.add_0_r.
  destruct x as [s|e].
  - destruct (stale req s); [|apply wp_dispatch].
    apply quiet_anything. unfold finalize_rejected. quiet.
  - apply quiet_anything. unfold finalize_rejected. quiet.
Qed.

Lemma wp_gate (r : Uuid) (n : nat) (req : CommandRequest.t) k :
  wp r n k anything -> wp r n (gate req k) anything.
Proof.
  intros Hk. unfold gate. cbv zeta. match goal with |- wp _ _ (if ?b then _ else _) _ => destruct b end; [done|].
  case_match; [done|].
  cbn [prog_bind act wp]. split; [simpl; lia|]. intros caps. simpl. rewrite Nat.sub_0_r, Nat.add_0_r.
  case_match; [done|]. case_match; done.
Qed.

Lemma wp_submit (r : Uuid) (req : CommandRequest.t) : wp r 0 (submit req) anything.
Proof.
  unfold submit. cbn [prog_bind act wp]. split; [simpl; lia|]. intros closed. simpl.
  destruct closed; [done|]. apply wp_gate. cbn [prog_bind act wp].
  split; [simpl; lia|]. intros now. split; [simpl; lia|]. intros x.
  destruct x as [[]|err]; cbn [wp].
  - split; [simpl; lia|]. intros x0. simpl. rewrite Nat.sub_0_r, Nat.add_0_r. apply wp_validate.
  - apply quiet_anything, quiet_replayed.
  - done.
Qed.

Lemma wp_ignore {A} (r : Uuid) (n : nat) (p : prog A) : wp r n p anything -> wp r n (ignore p) anything.
Proof. intros Hp. unfold ignore. apply wp_bind. eapply wp_mono; [|exact Hp]. done. Qed.

Lemma wp_call (r : Uuid) (c : Call) : wp r 0 (call_prog c) anything.
Proof.
  destruct c; apply wp_ignore.
  - apply wp_submit.
  - by apply quiet_anything, quiet_queue_resume.
  - by apply quiet_anything, quiet_queue_replace.
  - apply quiet_anything. unfold graceful_shutdown. quiet.
Qed.

Lemma wp_task (r : Uuid) (t : Task) : wp r 0 (task_prog t) anything.
Proof. destruct t; apply quiet_anything; [apply quiet_forward|apply quiet_watch]. Qed.

Definition count_id (r : Uuid) (l : list CommandRequest.t) : nat :=
  length (filter (fun req => CommandRequest.request_id req = r) l).

Definition has_row (r : Uuid) (w : World.t) : nat :=
  match Db.request_receipts (World.db w) !! r with Some _ => 1%nat | None => 0%nat end.

Lemma sqlx_keeps {A} (P : Db.t -> Prop) (fault : Fault) (db : Db.t) (k : store! A) :
  P db -> P k.2 -> P (sqlx fault db k).2.
Proof. by destruct fault. Qed.

(** An operation that records no receipt keeps every row. *)
Lemma has_row_update (r : Uuid) (w : World.t) (fault : Fault) (now id status : string) :
  has_row r (World.with_db (update_receipt_status fault now (World.db w) id status).2 w) = has_row r w.
Proof.
  unfold has_row, update_receipt_status. simpl. destruct fault; [done|]. simpl.
  destruct (Db.request_receipts (World.db w) !! id) eqn:Hid; simpl; [|done].
  destruct (decide (id = r)) as [->|]; [rewrite lookup_insert_eq|by rewrite lookup_insert_ne].
  unfold Uuid in *. by rewrite Hid.
Qed.

Lemma exec_budget {B : Type} (r : Uuid) (e : Env.t) (w w' : World.t) (o : op B) (b : B) :
  exec e w o = (b, w') ->
  count_id r (World.dispatched w') = (count_id r (World.dispatched w) + cost r o)%nat /\
  (gain r o b + has_row r w <= has_row r w')%nat.
Proof.
  destruct o; unfold exec, on_db; intros He; simplify_eq/=; try (split; [lia|unfold has_row; simpl; lia]);
    try (split; [lia|];
         unfold get_next_turn, set_next_turn, clear_next_turn, get_receipt, put_cursor, get_cursor,
           sqlx, has_row;
         repeat case_match; simplify_eq/=; lia).
  - split; [lia|]. unfold record_receipt, sqlx, has_row.
    destruct (Env.read_fault e); simpl; [lia|].
    destruct (Db.request_receipts (World.db w) !! RequestReceipt.request_id row) eqn:Hrow; simpl.
    + case_bool_decide; simpl; lia.
    + destruct (Env.write_fault e); simpl; [lia|]. case_bool_decide as Hr.
      * unfold Uuid in *. rewrite <- Hr, Hrow, lookup_insert_eq. lia.
      * by rewrite lookup_insert_ne.
  - split; [lia|]. by rewrite has_row_update.
  - split; [|unfold has_row; simpl; lia]. unfold count_id. rewrite filter_app, length_app.
    rewrite filter_cons, filter_nil. case_decide; case_bool_decide; simpl; try done; lia.
Qed.

(** Every program of the pool holds its rights; what is held and what was dispatched never
    exceeds the row. *)
Definition budget_inv (r : Uuid) (cfg : Config) : Prop :=
  exists rights, Forall2 (fun n p => wp r n p anything) rights cfg.2 /\
    (sum_list rights + count_id r (World.dispatched cfg.1) <= has_row r cfg.1)%nat.

Lemma sum_list_insert (l : list nat) (i n m : nat) :
  l !! i = Some n -> (sum_list (<[i := m]> l) + n = sum_list l + m)%nat.
Proof.
  revert i. induction l as [|x l IH]; intros [|i] Hi; simplify_eq/=; [lia|].
  specialize (IH _ Hi). lia.
Qed.

Lemma budget_step (r : Uuid) (cfg : Config) (c : Choice) : budget_inv r cfg -> budget_inv r (step cfg c).
Proof.
  destruct cfg as [w pool]. intros (rights & Hp & Hs). simpl in *. destruct c as [c| |i e]; simpl.
  - exists (rights ++ [0%nat]). simpl. rewrite sum_list_with_app. simpl. split; [|lia].
    apply Forall2_app; [done|]. repeat constructor. apply wp_call.
  - destruct (World.tasks w) as [|task tasks]; [by exists rights|].
    exists (rights ++ [0%nat]). simpl. rewrite sum_list_with_app. simpl. split; [|unfold has_row in *; simpl in *; lia].
    apply Forall2_app; [done|]. repeat constructor. apply wp_task.
  - destruct (pool !! i) as [[a|B o k]|] eqn:Hi; [by exists rights| |by exists rights].
    destruct (exec e w o) as [b w'] eqn:He.
    destruct (exec_budget r e w w' o b He) as [Hc Hg].
    destruct (Forall2_lookup_r _ _ _ _ _ Hp Hi) as (n & Hn & [Hcost Hk]).
    exists (<[i := (n - cost r o + gain r o b)%nat]> rights). simpl.
    pose proof (sum_list_insert rights i n (n - cost r o + gain r o b) Hn). split; [|lia].
    apply Forall2_insert; auto.
Qed.

(** C17. A request is dispatched at most once.  However submissions (repeated ones included),
    resumes, replacements, shutdowns, forwarders and watchers interleave, whatever the store,
    the adapter and the clock answer to each operation: starting from any database with nothing
    running, the executor has been handed a request id at most once, and only after its receipt
    row was stored. *)
Theorem dispatched_at_most_once (db : Db.t) (choices : list Choice) (r : Uuid) :
  let w := (steps (World.initial db, []) choices).1 in
  (count_id r (World.dispatched w) <= 1)%nat /\
  ((1 <= count_id r (World.dispatched w))%nat -> is_Some (Db.request_receipts (World.db w) !! r)).
Proof.
  intros w.
  assert (Hinv : budget_inv r (steps (World.initial db, []) choices)).
  { unfold steps. assert (H0 : budget_inv r (World.initial db, [])).
    { exists []. simpl. split; [by apply Forall2_nil|]. unfold count_id. simpl. lia. }
    revert H0. generalize (World.initial db, [] : list (prog unit)).
    induction choices as [|c choices IH]; intros cfg Hcfg; simpl; [done|]. by apply IH, budget_step. }
  destruct Hinv as (rights & _ & Hs). fold w in Hs. unfold has_row in Hs.
  destruct (Db.request_receipts (World.db w) !! r); split; intros; (eauto || lia).
Qed.
End AtMostOnce.
