(* ===== verification/CommandTraces.v ===== *)
(** * What a handler does, whatever the rest of the process does

    [tr p R]: whatever answers the operations of [p] get, the result and the list of what was
    observed on the way satisfy [R].  Since the answers are arbitrary, [R] holds of every [run]
    under every interference ([tr_sound]). *)

From S2P Require Import Prelude Prog RustStr Domain LocalStore Concurrent Queue Gateway CommandProps.

Fixpoint tr {A : Type} (p : prog A) (R : A -> list Obs -> Prop) : Prop :=
  match p with
  | Ret a => R a []
  | Act o k => forall x, tr (k x) (fun a t => R a (obs o x :: t))
  end.

Lemma tr_sound {A} (p : prog A) (R : A -> list Obs -> Prop) (h : Oracle) (n : nat) (w : World.t) :
  tr p R -> R (run h n w p).1.1 (run h n w p).2.
Proof.
  revert R n w. induction p as [a|B o k IH]; intros R n w Hp; simpl in *; [done|].
  destruct (exec (h n).2 ((h n).1 w) o) as [b w'].
  specialize (IH b _ (S n) w' (Hp b)). by destruct (run h (S n) w' (k b)) as [[a w''] t].
Qed.

Lemma tr_mono {A} (p : prog A) (R S : A -> list Obs -> Prop) :
  (forall a t, R a t -> S a t) -> tr p R -> tr p S.
Proof.
  revert R S. induction p as [a|B o k IH]; simpl; intros R S HRS; [auto|].
  intros Hk x. eapply IH; [|apply Hk]. simpl. auto.
Qed.

Lemma tr_bind {A C} (p : prog A) (f : A -> prog C) (R1 : A -> list Obs -> Prop) (R : C -> list Obs -> Prop) :
  tr p R1 -> (forall a t1, R1 a t1 -> tr (f a) (fun c t2 => R c (t1 ++ t2))) -> tr (prog_bind p f) R.
Proof.
  revert R1 R. induction p as [a|B o k IH]; simpl; intros R1 R Hp Hf.
  - apply (Hf a [] Hp).
  - intros x. eapply IH; [apply Hp|]. intros a t1 Ht. apply (Hf a (obs o x :: t1) Ht).
Qed.

(** Observations of a program all of whose operations satisfy [P]. *)
Definition from_op (P : forall B : Type, op B -> bool) (ob : Obs) : Prop :=
  exists B (o : op B) x, P B o = true /\ ob = obs o x.

Lemma only_tr {A} (P : forall B : Type, op B -> bool) (p : prog A) :
  only P p -> tr p (fun _ t => Forall (from_op P) t).
Proof.
  induction p as [a|B o k IH]; simpl; [constructor|]. intros [Ho Hk] x.
  eapply tr_mono; [|apply IH, Hk]. intros a t Ht. constructor; [by exists B, o, x|done].
Qed.

Lemma quiet_tr {A} (p : prog A) : quiet p -> tr p (fun _ t => forall key q, SawExecute key q ∉ t).
Proof.
  intros Hp. eapply tr_mono; [|by apply only_tr]. intros a t Ht key q Hin.
  rewrite Forall_forall in Ht. destruct (Ht _ Hin) as (B & o & x & Ho & He). by destruct o.
Qed.

Lemma quiet_no_execute {A} (p : prog A) (Q : SessionKey.t -> CommandRequest.t -> list Obs -> Prop) :
  quiet p -> tr p (fun _ t => forall key q, SawExecute key q ∈ t -> Q key q t).
Proof. intros Hp. eapply tr_mono; [|by apply quiet_tr]. intros a t Ht key q Hin. by destruct (Ht key q). Qed.

(** An observation of the list; an observation that is not one of the first ones. *)
Ltac seen := repeat first [assumption | apply list_elem_of_here | apply list_elem_of_further].
Ltac drop_seen H := repeat (apply elem_of_cons in H as [H|H]; [discriminate H|]); try (by apply not_elem_of_nil in H).

Section Guards.
Context `{Conversions}.

(** The request given to the executor is the caller's, with the digest filled in. *)
Definition same_request (req : CommandRequest.t) (key : SessionKey.t) (q : CommandRequest.t) : Prop :=
  key = CommandRequest.session_key req /\
  q = CommandRequest.mk (CommandRequest.request_id req) (CommandRequest.operation req) key
        (CommandRequest.expected_turn_id req) (CommandRequest.expected_runtime_revision req)
        (Some (canonical_payload_digest (CommandRequest.payload req))) (CommandRequest.payload req).

Lemma tr_dispatch (req : CommandRequest.t) (v : option RuntimeSnapshot.t) :
  tr (dispatch req v) (fun _ t => forall key q, SawExecute key q ∈ t -> same_request req key q).
Proof.
  unfold dispatch.
  assert (Hq : forall A (p : prog A), quiet p ->
    tr p (fun _ t => forall key q, SawExecute key q ∈ t -> same_request req key q)).
  { intros A p Hp. by apply quiet_no_execute with (Q := fun key q _ => same_request req key q). }
  destruct (CommandRequest.payload req) eqn:Hpay.
  all: try (apply Hq; unfold finalize_local; quiet; fail).
  all: cbn [prog_bind act tr]; intros x; eapply tr_mono; [|apply quiet_tr; destruct x; quiet].
  all: intros a t Ht key q [Hin|Hin]%elem_of_cons; [|by destruct (Ht key q)].
  all: cbn [obs] in Hin; simplify_eq; unfold same_request; by rewrite Hpay.
Qed.

(** The expectations of the request hold in the snapshot. *)
Definition expectations_met (req : CommandRequest.t) (s : RuntimeSnapshot.t) : Prop :=
  let current := CurrentTurn.turn <$> RuntimeSnapshot.current_turn s in
  (forall revision, CommandRequest.expected_runtime_revision req = Some revision ->
     revision = RuntimeSnapshot.runtime_revision s \/
     CommandRequest.permits_revision_drift req current = true) /\
  (forall turn, CommandRequest.expected_turn_id req = Some turn -> current = Some turn).

Lemma stale_None (req : CommandRequest.t) (s : RuntimeSnapshot.t) :
  stale req s = None -> expectations_met req s.
Proof.
  unfold stale, expectations_met. cbv zeta. intros Hs. split.
  - intros rev Hrev. rewrite Hrev in Hs.
    destruct (Z.eqb_spec rev (RuntimeSnapshot.runtime_revision s)); [by left|].
    destruct (CommandRequest.permits_revision_drift _ _); [by right|]. done.
  - intros turn Ht. rewrite Ht in Hs. repeat (case_match; try done).
    all: case_bool_decide; done.
Qed.

Definition snapshot_guard (req : CommandRequest.t) (t : list Obs) : Prop :=
  CommandRequest.expected_turn_id req <> None \/ CommandRequest.expected_runtime_revision req <> None ->
  exists s, SawSnapshot (CommandRequest.session_key req) (Ok s) ∈ t /\ expectations_met req s.

Lemma tr_validate (req : CommandRequest.t) :
  tr (validate_and_dispatch req)
    (fun _ t => forall key q, SawExecute key q ∈ t -> same_request req key q /\ snapshot_guard req t).
Proof.
  unfold validate_and_dispatch. destruct (needs_snapshot req) eqn:Hn.
  - cbn [prog_bind act tr]. intros x. destruct x as [s|err]; [destruct (stale req s) eqn:Hs|].
    1, 3: eapply tr_mono; [|apply quiet_tr; unfold finalize_rejected; quiet];
      intros a t Ht key q [?|Hin]%elem_of_cons; [done|by destruct (Ht key q)].
    eapply tr_mono; [|apply tr_dispatch]. intros a t Ht key q [?|Hin]%elem_of_cons; [done|].
    split; [auto|]. intros _. exists s. split; [apply elem_of_cons; by left|by apply stale_None].
  - eapply tr_mono; [|apply tr_dispatch]. intros a t Ht key q Hin. split; [auto|].
    unfold needs_snapshot in Hn. intros Hexp.
    destruct (CommandRequest.expected_turn_id req), (CommandRequest.expected_runtime_revision req); naive_solver.
Qed.

(** Everything that must have been observed before [q] is executed for [key]. *)
Record guarded (req : CommandRequest.t) (t : list Obs) (key : SessionKey.t) (q : CommandRequest.t) : Prop := {
  guard_request : same_request req key q;
  guard_open : SawClosed false ∈ t;
  guard_capability :
    CommandRequest.operation req = Operation.QueueNextTurn \/
    exists caps, SawCapabilities caps ∈ t /\
      CapabilitySet.supports caps (CommandRequest.operation req) = true;
  guard_receipt : exists now, SawRecorded (receipt_row req now) (Ok Inserted) ∈ t;
  guard_zcode :
    SessionKey.agent_kind (CommandRequest.session_key req) = AgentKind.ZcodeDesktop ->
    match CommandRequest.payload req with
    | CommandPayload.AnswerQuestion _ _ _ | CommandPayload.SubmitApproval _ _ => True
    | _ => False
    end;
  guard_snapshot : snapshot_guard req t;
}.

Lemma tr_submit (req : CommandRequest.t) :
  tr (submit req) (fun _ t => forall key q, SawExecute key q ∈ t -> guarded req t key q).
Proof.
  assert (Hmain : tr
    (do now <- act NowRfc3339;
     do r <- act (RecordReceipt (receipt_row req now));
     match r with
     | Ok Inserted => perform act (InflightInsert (CommandRequest.request_id req)); validate_and_dispatch req
     | Ok Existing => replayed (CommandRequest.request_id req)
     | Err err => Ret (Err (store_err err))
     end)
    (fun _ t => forall key q, SawExecute key q ∈ t -> same_request req key q /\
       (exists now, SawRecorded (receipt_row req now) (Ok Inserted) ∈ t) /\ snapshot_guard req t)).
  { cbn [prog_bind act tr]. intros now x. destruct x as [[]|err].
    - cbn [tr]. intros y. eapply tr_mono; [|apply tr_validate]. intros a t Ht key q Hin.
      cbn [obs] in *. drop_seen Hin. destruct (Ht key q Hin) as [? Hg]. split_and!; [done|exists now; seen|].
      intros Hexp. destruct (Hg Hexp) as (s & Hs & ?). exists s. split; [seen|done].
    - eapply tr_mono; [|apply quiet_tr, quiet_replayed]. intros a t Ht key q Hin. cbn [obs] in Hin.
      drop_seen Hin. by destruct (Ht key q).
    - cbn [tr obs]. intros key q Hin. drop_seen Hin. }
  unfold submit. cbn [prog_bind act tr]. intros closed.
  destruct closed; [cbn [tr obs]; intros key q Hin; drop_seen Hin|].
  unfold gate. cbv zeta.
  match goal with |- tr (if ?b then _ else _) _ => destruct b eqn:Hz end;
    [cbn [tr obs]; intros key q Hin; drop_seen Hin|].
  assert (Hzc : SessionKey.agent_kind (CommandRequest.session_key req) = AgentKind.ZcodeDesktop ->
   match CommandRequest.payload req with
   | CommandPayload.AnswerQuestion _ _ _ | CommandPayload.SubmitApproval _ _ => True
   | _ => False
   end).
  { intros Hk. rewrite bool_decide_eq_true_2 in Hz by done. by destruct (CommandRequest.payload req). }
  clear Hz. case_bool_decide as Hop.
  - eapply tr_mono; [|exact Hmain]. intros a t Ht key q Hin. cbn [obs] in *. drop_seen Hin.
    destruct (Ht key q Hin) as (? & [now ?] & Hg). split; [done|seen|by left|exists now; seen|done|].
    intros Hexp. destruct (Hg Hexp) as (s & ? & ?). exists s. split; [seen|done].
  - cbn [prog_bind act tr]. intros caps. destruct (CapabilitySet.supports caps _) eqn:Hsup.
    + eapply tr_mono; [|exact Hmain]. intros a t Ht key q Hin. cbn [obs] in *. drop_seen Hin.
      destruct (Ht key q Hin) as (? & [now ?] & Hg).
      split; [done|seen|right; exists caps; split; [seen|done]|exists now; seen|done|].
      intros Hexp. destruct (Hg Hexp) as (s & ? & ?). exists s. split; [seen|done].
    + case_bool_decide; cbn [tr obs]; intros key q Hin; drop_seen Hin.
Qed.

(** C18. Nothing reaches the executor unguarded.  In every run of [submit], whatever the other
    tasks and the environment do in between: if a command is executed, it is the caller's own
    request for the caller's session; the gateway was seen open; the operation was seen
    supported (or is the queue operation, which is exempt); a fresh receipt row was stored; a
    ZCode session only ever answers questions and approvals; and when the request names a turn
    or a revision, a snapshot was seen in which that turn is the current one and that revision is
    the current one (an interrupt of the still-current turn may drift). *)
Theorem dispatch_guarded (h : Oracle) (n : nat) (w : World.t) (req : CommandRequest.t)
    (key : SessionKey.t) (q : CommandRequest.t) :
  let t := (run h n w (submit req)).2 in
  SawExecute key q ∈ t -> guarded req t key q.
Proof. cbv zeta. revert key q. exact (tr_sound (submit req) _ h n w (tr_submit req)). Qed.
End Guards.

(** ** Receipts *)

Definition sends (t : list Obs) : list (Uuid * CommandReceipt.t) :=
  filter_map (fun ob => match ob with SawSend id receipt => Some (id, receipt) | _ => None end) t.

Definition statuses (t : list Obs) : list (string * string) :=
  filter_map (fun ob => match ob with SawStatus id status => Some (id, status) | _ => None end) t.

Lemma sends_app (t u : list Obs) : sends (t ++ u) = sends t ++ sends u.
Proof. apply omap_app. Qed.

Lemma statuses_app (t u : list Obs) : statuses (t ++ u) = statuses t ++ statuses u.
Proof. apply omap_app. Qed.

(** The receipts up to and including the first terminal one. *)
Fixpoint upto_terminal (receipts : list CommandReceipt.t) : list CommandReceipt.t :=
  match receipts with
  | [] => []
  | receipt :: receipts =>
      receipt :: if is_terminal (CommandReceipt.state receipt) then [] else upto_terminal receipts
  end.

Definition has_terminal (receipts : list CommandReceipt.t) : bool :=
  existsb (fun receipt => is_terminal (CommandReceipt.state receipt)) receipts.

Definition status_of (id : Uuid) (receipt : CommandReceipt.t) : string * string :=
  (id, receipt_status_str (CommandReceipt.state receipt)).

Lemma tr_forward_receipts (id : Uuid) (receipts : list CommandReceipt.t) :
  tr (forward_receipts id receipts) (fun terminal t =>
    terminal = has_terminal receipts /\
    sends t = map (pair id) (upto_terminal receipts) /\
    statuses t = map (status_of id) (upto_terminal receipts)).
Proof.
  induction receipts as [|receipt receipts IH]; [done|].
  cbn [forward_receipts prog_bind act tr]. intros x y.
  unfold has_terminal in *. cbn [existsb upto_terminal].
  destruct (is_terminal (CommandReceipt.state receipt)); [done|].
  eapply tr_mono; [|exact IH]. intros terminal t (-> & Hs & Hst).
  cbn [obs]. split_and!; [done| |]; unfold sends, statuses, filter_map in *; simpl; by f_equal.
Qed.

(** What a caller and the store see of a forwarded command. *)
Definition forward_outcome (id : Uuid) (receipts : list CommandReceipt.t) (t : list Obs) : Prop :=
  exists at_,
    let delivered :=
      upto_terminal receipts ++
      if has_terminal receipts then [] else [CommandReceipt.mk id ReceiptState.OutcomeUnknown (Some at_)] in
    sends t = map (pair id) delivered /\
    statuses t = map (status_of id) delivered /\
    last t = Some (SawRemoved id) /\
    (exists earlier final, delivered = earlier ++ [final] /\ is_terminal (CommandReceipt.state final) = true /\
       Forall (fun r => is_terminal (CommandReceipt.state r) = false) earlier).

(** A forwarded command ends with exactly one terminal receipt.  Whatever the executor's
    stream holds, the caller is sent its receipts in order up to and including the first terminal
    one and nothing after it; when the stream ends without one, the caller is sent
    OUTCOME_UNKNOWN.  The stored status follows the same sequence, and the inflight entry is
    removed last. *)
Lemma forward_outcome_run (h : Oracle) (n : nat) (w : World.t) (id : Uuid) (receipts : list CommandReceipt.t) :
  forward_outcome id receipts (run h n w (forward id receipts)).2.
Proof.
  assert (Hsplit : forall l, has_terminal l = true -> exists earlier final, upto_terminal l = earlier ++ [final] /\
      is_terminal (CommandReceipt.state final) = true /\
      Forall (fun r => is_terminal (CommandReceipt.state r) = false) earlier).
  { induction l as [|r l IH]; [done|]. unfold has_terminal in *. simpl.
    destruct (is_terminal (CommandReceipt.state r)) eqn:Hr; intros Hl; [by exists [], r|].
    destruct (IH Hl) as (e & f & -> & ? & ?). exists (r :: e), f. auto. }
  assert (Hnone : forall l, has_terminal l = false ->
      Forall (fun r => is_terminal (CommandReceipt.state r) = false) (upto_terminal l)).
  { induction l as [|r l IH]; [constructor|]. unfold has_terminal in *. simpl.
    destruct (is_terminal (CommandReceipt.state r)) eqn:Hr; intros Hl; [done|]. constructor; auto. }
  apply (tr_sound (forward id receipts) (fun _ t => forward_outcome id receipts t) h n w).
  unfold forward. eapply tr_bind; [apply tr_forward_receipts|].
  intros terminal t (-> & Hs & Hst). unfold forward_outcome. destruct (has_terminal receipts) eqn:Ht.
  - cbn [prog_bind act tr obs]. intros x. exists 0. rewrite sends_app, statuses_app, Hs, Hst, last_snoc, !app_nil_r.
    auto.
  - cbn [prog_bind act tr obs]. intros x now y z. exists now.
    rewrite sends_app, statuses_app, Hs, Hst, !map_app. split_and!; [done|done| |eauto 10].
    by rewrite last_app.
Qed.

(** ** The queue's automatic paths *)

(** Operations of a session's queue that can only pause it. *)
Definition pausing_op (B : Type) (o : op B) : bool :=
  match o with
  | SetNextTurn entry _ => bool_decide (NextTurnEntry.status entry = StoreQueueStatus.Paused)
  | Execute _ _ | RecordReceipt _ => false
  | _ => true
  end.

Ltac pausing :=
  repeat first
    [ assumption
    | match goal with
      | |- only _ (Ret _) => exact I
      | |- only _ (act _) => split; [first [reflexivity | by apply bool_decide_eq_true_2] | done]
      | |- only _ (prog_bind _ _) => apply only_bind; [|intros ?]
      | |- only _ (match ?x with _ => _ end) => destruct x
      end ].

Lemma only_retry {A} (P : forall B : Type, op B -> bool) (fuel attempt : nat) (o : op (res StoreError.t A)) :
  P _ o = true -> (forall ms, P _ (Sleep ms) = true) -> only P (retry_busy_loop fuel attempt o).
Proof.
  intros Ho Hs. revert attempt. induction fuel as [|fuel IH]; intros attempt; cbn [retry_busy_loop].
  all: split; [done|]; intros [v|err]; simpl; [done|]; case_match; try done.
Qed.

Section Automatic.
Context `{Conversions}.

Lemma pausing_mark_paused (session : SessionKeyRef.t) : only pausing_op (mark_paused session).
Proof.
  unfold mark_paused. pausing. apply only_retry; [|done]. by apply bool_decide_eq_true_2.
Qed.

Lemma pausing_receive (id : Uuid) (receipts : list CommandReceipt.t) :
  only pausing_op (receive_until_terminal id receipts).
Proof. induction receipts; cbn [receive_until_terminal]; pausing. Qed.

Lemma pausing_maybe_auto_send (key : SessionKey.t) : only pausing_op (maybe_auto_send key).
Proof.
  unfold maybe_auto_send. cbv zeta. pausing;
    auto using pausing_mark_paused, pausing_receive; by apply only_retry.
Qed.

Lemma pausing_watch (key : SessionKey.t) (events : list DomainEvent.t) : only pausing_op (watch key events).
Proof.
  induction events as [|event events IH]; cbn [watch]; pausing.
  unfold on_event. cbv zeta. destruct event; pausing; auto using pausing_mark_paused, pausing_maybe_auto_send.
Qed.

(** Only the user takes a queue out of the pause.  Whatever events a session's watcher
    receives and however its operations interleave with the rest, every queue entry it writes is
    PAUSED: the automatic paths never queue, requeue or rebind a turn, and never go through the
    executor or the receipt table of the gateway. *)
Theorem watcher_only_pauses (h : Oracle) (n : nat) (w : World.t) (key : SessionKey.t)
    (events : list DomainEvent.t) :
  let t := (run h n w (watch key events)).2 in
  (forall entry replace r, SawSetQueue entry replace r ∈ t ->
     NextTurnEntry.status entry = StoreQueueStatus.Paused) /\
  (forall key q, SawExecute key q ∉ t) /\ (forall row r, SawRecorded row r ∉ t).
Proof.
  intros t.
  assert (Ht : Forall (from_op pausing_op) t).
  { apply (tr_sound (watch key events) (fun _ t => Forall (from_op pausing_op) t) h n w).
    apply only_tr, pausing_watch. }
  rewrite Forall_forall in Ht. split_and!.
  - intros entry replace r Hin. destruct (Ht _ Hin) as (B & o & x & Ho & He).
    destruct o; simpl in *; simplify_eq. by apply bool_decide_eq_true in Ho.
  - intros k q Hin. destruct (Ht _ Hin) as (B & o & x & Ho & He). by destruct o.
  - intros row r Hin. destruct (Ht _ Hin) as (B & o & x & Ho & He). by destruct o.
Qed.

(** What the queue knew when it sent the queued turn by itself, and what became of the entry. *)
Record auto_send_justified (key : SessionKey.t) (t : list Obs) (k : SessionKey.t) (q : CommandRequest.t)
    (answer : res AdapterError.t (list CommandReceipt.t)) : Prop := {
  auto_send_entry : exists entry id,
    SawQueue (session_ref key) (Ok (Some entry)) ∈ t /\
    NextTurnEntry.status entry = StoreQueueStatus.Queued /\
    k = key /\ q = auto_send_request key id (NextTurnEntry.prompt entry);
  auto_send_idle : exists s,
    SawSnapshot key (Ok s) ∈ t /\ RuntimeSnapshot.current_turn s = None /\
    RuntimeSnapshot.pending_questions s = [] /\ RuntimeSnapshot.pending_approvals s = [];
  auto_send_cleared : forall session r, SawClear session r ∈ t ->
    exists receipts final, answer = Ok receipts /\ session = session_ref key /\
      last (upto_terminal receipts) = Some final /\ CommandReceipt.state final = ReceiptState.Completed;
}.

Definition clearing_op (B : Type) (o : op B) : bool :=
  match o with ClearNextTurn _ => false | AutoExecute _ _ => false | _ => true end.

Lemma no_clear_mark_paused (session : SessionKeyRef.t) : only clearing_op (mark_paused session).
Proof. unfold mark_paused. pausing. by apply only_retry. Qed.

Lemma no_clear_receive (id : Uuid) (receipts : list CommandReceipt.t) :
  only clearing_op (receive_until_terminal id receipts).
Proof. induction receipts; cbn [receive_until_terminal]; pausing. Qed.

Definition calm (t : list Obs) : Prop :=
  (forall k q r, SawAutoExecute k q r ∉ t) /\ forall session r, SawClear session r ∉ t.

Lemma only_calm {A} (p : prog A) : only clearing_op p -> tr p (fun _ t => calm t).
Proof.
  intros Hp. eapply tr_mono; [|by apply only_tr]. intros a t Ht. rewrite Forall_forall in Ht.
  split; intros; intros Hin; destruct (Ht _ Hin) as (B & o & x & Ho & He); by destruct o.
Qed.

Lemma receive_completed (id : Uuid) (receipts : list CommandReceipt.t) :
  tr (receive_until_terminal id receipts) (fun sent t => calm t /\
    (sent = true -> exists final, last (upto_terminal receipts) = Some final /\
                                  CommandReceipt.state final = ReceiptState.Completed)).
Proof.
  assert (Hres : tr (receive_until_terminal id receipts) (fun sent t =>
    sent = true -> exists final, last (upto_terminal receipts) = Some final /\
                                 CommandReceipt.state final = ReceiptState.Completed)).
  { induction receipts as [|r rs IH]; [done|]. cbn [receive_until_terminal prog_bind act tr upto_terminal].
    intros x. destruct (CommandReceipt.state r) eqn:Hr; simpl; try done; [|eauto].
    eapply tr_mono; [|exact IH]. intros sent t Ht Hs. destruct (Ht Hs) as (f & Hf & ?). exists f.
    split; [|done]. by destruct (upto_terminal rs). }
  pose proof (only_calm _ (no_clear_receive id receipts)) as Hc. revert Hres Hc.
  generalize (receive_until_terminal id receipts) as p. intros p. revert p.
  enough (Hboth : forall A (p : prog A) (R S : A -> list Obs -> Prop), tr p R -> tr p S ->
            tr p (fun a t => R a t /\ S a t)).
  { intros p Hr Hc. by apply (Hboth bool p (fun _ t => calm t)). }
  intros A p. induction p as [a|B o k IH]; simpl; intros R S HR HS; [done|].
  intros x. by apply (IH x (fun a t => R a (obs o x :: t)) (fun a t => S a (obs o x :: t))).
Qed.

(** After the command was handed over: no second one, and a clear only after completion. *)
Definition settled (key : SessionKey.t) (answer : res AdapterError.t (list CommandReceipt.t)) (t : list Obs) : Prop :=
  (forall k q r, SawAutoExecute k q r ∉ t) /\
  forall session r, SawClear session r ∈ t ->
    exists receipts final, answer = Ok receipts /\ session = session_ref key /\
      last (upto_terminal receipts) = Some final /\ CommandReceipt.state final = ReceiptState.Completed.

Lemma calm_settled (key : SessionKey.t) (answer : res AdapterError.t (list CommandReceipt.t)) (t : list Obs) :
  calm t -> settled key answer t.
Proof. intros [Ha Hc]. split; [done|]. intros session r Hin. by destruct (Hc session r). Qed.

Definition retry_clear_op (session : SessionKeyRef.t) (B : Type) (o : op B) : bool :=
  match o with ClearNextTurn s => bool_decide (s = session) | Sleep _ => true | _ => false end.

Lemma tr_settled (key : SessionKey.t) (id : Uuid) (answer : res AdapterError.t (list CommandReceipt.t)) :
  tr (match answer with
      | Ok receipts =>
          do sent <- receive_until_terminal id receipts;
          if sent : bool then perform retry_busy (ClearNextTurn (session_ref key)); Ret tt
          else mark_paused (session_ref key)
      | Err err =>
          perform act (UpdateReceiptStatus id
            (if bool_decide (AdapterError.code err = StableErrorCode.OutcomeUnknown)
             then "OUTCOME_UNKNOWN" else "REJECTED"));
          mark_paused (session_ref key)
      end) (fun _ t => settled key answer t).
Proof.
  destruct answer as [receipts|err].
  - eapply tr_bind; [apply receive_completed|]. intros sent t1 [Hcalm Hdone]. destruct sent.
    + destruct (Hdone eq_refl) as (final & Hl & Hf).
      assert (Hp : only (retry_clear_op (session_ref key)) (retry_busy (ClearNextTurn (session_ref key))))
        by (apply only_retry; [by apply bool_decide_eq_true_2|done]).
      eapply tr_bind; [apply only_tr, Hp|]. intros r t2 Ht2. simpl. rewrite app_nil_r.
      rewrite Forall_forall in Ht2. destruct Hcalm as [Ha Hc]. split.
      * intros k q r' [Hin|Hin]%elem_of_app; [by eapply Ha|].
        destruct (Ht2 _ Hin) as (B & o & x & Ho & He). by destruct o.
      * intros session r' [Hin|Hin]%elem_of_app; [by destruct (Hc session r')|].
        destruct (Ht2 _ Hin) as (B & o & x & Ho & He). destruct o; simpl in *; simplify_eq.
        apply bool_decide_eq_true in Ho. eauto 10.
    + eapply tr_mono; [|apply only_calm, no_clear_mark_paused]. intros [] t2 [Ha2 Hc2].
      apply calm_settled. destruct Hcalm as [Ha Hc].
      split; intros; intros [?|?]%elem_of_app; [by eapply Ha|by eapply Ha2|by eapply Hc|by eapply Hc2].
  - cbn [prog_bind act tr obs]. intros x. eapply tr_mono; [|apply only_calm, no_clear_mark_paused].
    intros [] t [Ha Hc]. apply calm_settled. split; intros; intros Hin; drop_seen Hin; [by eapply Ha|by eapply Hc].
Qed.

(** The queue sends on its own only when it may.  Whatever happens in between, a queued turn
    is sent automatically only with the prompt of an entry seen QUEUED and after a snapshot with
    no current turn, no open question and no open approval; the entry is cleared only when the
    answer's first terminal receipt is COMPLETED - never on a rejection, an unknown outcome, a
    closed stream or an adapter error. *)
Theorem auto_send_guarded (h : Oracle) (n : nat) (w : World.t) (key k : SessionKey.t) (q : CommandRequest.t)
    (answer : res AdapterError.t (list CommandReceipt.t)) :
  let t := (run h n w (maybe_auto_send key)).2 in
  SawAutoExecute k q answer ∈ t -> auto_send_justified key t k q answer.
Proof.
  revert k q answer.
  apply (tr_sound (maybe_auto_send key)
           (fun _ t => forall k q r, SawAutoExecute k q r ∈ t -> auto_send_justified key t k q r) h n w).
  assert (Hnone : forall A (p : prog A) pre, only clearing_op p -> (forall k q r, SawAutoExecute k q r ∉ pre) ->
    tr p (fun _ t => forall k q r, SawAutoExecute k q r ∈ pre ++ t -> auto_send_justified key (pre ++ t) k q r)).
  { intros A p pre Hp Hpre. eapply tr_mono; [|by apply only_calm]. intros a t [Ha _] k q r [Hin|Hin]%elem_of_app;
      exfalso; [by eapply Hpre|by eapply Ha]. }
  unfold maybe_auto_send. cbv zeta. cbn [prog_bind act tr obs]. intros r.
  destruct r as [[entry|]|err]; [|intros k q a Hin; drop_seen Hin..].
  case_bool_decide as Hst; simpl; [|intros k q a Hin; drop_seen Hin].
  intros s. destruct s as [s|err].
  2: { apply (Hnone _ _ [_; _]); [apply no_clear_mark_paused|]. intros k q a Hin. drop_seen Hin. }
  destruct (RuntimeSnapshot.current_turn s) as [turn|] eqn:Hturn; [intros k q a Hin; drop_seen Hin|].
  case_bool_decide as Hq; [|intros k q a Hin; drop_seen Hin].
  case_bool_decide as Happr; [|intros k q a Hin; drop_seen Hin]. cbn [negb orb prog_bind act tr obs].
  intros id u answer. eapply tr_bind; [apply tr_settled|]. intros v t1 [Hauto Hclear].
  cbn [prog_bind act tr obs]. intros b k q answer' Hin.
  apply elem_of_cons in Hin as [Hin|Hin]; [discriminate Hin|].
  apply elem_of_cons in Hin as [Hin|Hin]; [discriminate Hin|].
  apply elem_of_cons in Hin as [Hin|Hin]; [discriminate Hin|].
  apply elem_of_cons in Hin as [Hin|Hin]; [discriminate Hin|].
  apply elem_of_cons in Hin as [Hin|[Hin|Hin]%elem_of_app];
    [injection Hin as -> -> -> | by destruct (Hauto k q answer') | drop_seen Hin].
  split.
  - exists entry, id. split_and!; [seen|done|done|done].
  - exists s. split_and!; [seen|done..].
  - intros session r Hc. do 5 (apply elem_of_cons in Hc as [Hc|Hc]; [discriminate Hc|]).
    apply elem_of_app in Hc as [Hc|Hc]; [by eapply Hclear|drop_seen Hc].
Qed.
End Automatic.

(** ** Every submission is answered *)

(** How the caller of a request hears of it: a receipt sent at once, or a forwarder of the executor's receipts. *)
Inductive Delivery :=
| Sent (id : Uuid) (receipt : CommandReceipt.t)
| Forwarded (id : Uuid) (receipts : list CommandReceipt.t).

Definition deliveries (t : list Obs) : list Delivery :=
  filter_map (fun ob =>
    match ob with
    | SawSend id receipt => Some (Sent id receipt)
    | SawSpawn (Forward id receipts) => Some (Forwarded id receipts)
    | _ => None
    end) t.

Lemma deliveries_app (t u : list Obs) : deliveries (t ++ u) = deliveries t ++ deliveries u.
Proof. apply omap_app. Qed.

(** Operations that neither send a receipt nor start a forwarder nor dispatch nor record. *)
Definition mute_op (B : Type) (o : op B) : bool :=
  match o with
  | Send _ _ | Execute _ _ | RecordReceipt _ | Spawn (Forward _ _) => false
  | _ => true
  end.

Ltac mute :=
  repeat first
    [ assumption
    | match goal with
      | |- only _ (Ret _) => exact I
      | |- only _ (act _) => split; [reflexivity | done]
      | |- only _ (retry_busy _) => apply only_retry; done
      | |- only _ (prog_bind _ _) => apply only_bind; [|intros ?]
      | |- only _ (try_store ?r _) => destruct r; unfold try_store
      | |- only _ (match ?x with _ => _ end) => destruct x
      end ].

(** A trace without receipts, forwarders, dispatches or new rows. *)
Record mute_trace (t : list Obs) : Prop := {
  mute_deliveries : deliveries t = [];
  mute_execute : forall key q, SawExecute key q ∉ t;
  mute_recorded : forall row r, SawRecorded row r ∉ t;
}.

Lemma only_mute {A} (p : prog A) : only mute_op p -> tr p (fun _ t => mute_trace t).
Proof.
  intros Hp. eapply tr_mono; [|by apply only_tr]. intros a t Ht. split.
  - induction Ht as [|ob t (B & o & x & Ho & ->) _ IH]; [done|].
    unfold deliveries, filter_map in *. simpl. destruct o; try done. by destruct task.
  - intros key q Hin. rewrite Forall_forall in Ht. destruct (Ht _ Hin) as (B & o & x & Ho & He). by destruct o.
  - intros row r Hin. rewrite Forall_forall in Ht. destruct (Ht _ Hin) as (B & o & x & Ho & He). by destruct o.
Qed.

Section Answered.
Context `{Conversions}.

Lemma mute_queue_set (key : SessionKey.t) (input : OutputText.t) (replace : bool) (id : Uuid)
    (s : RuntimeSnapshot.t) : only mute_op (queue_set key input replace id s).
Proof. unfold queue_set, entry_from_snapshot, remember_request_id, ensure_watcher. mute. Qed.

Lemma mute_queue_cancel (key : SessionKey.t) : only mute_op (queue_cancel key).
Proof. unfold queue_cancel. mute. Qed.

Lemma mute_queue_pause (key : SessionKey.t) : only mute_op (queue_pause key).
Proof. unfold queue_pause. mute. Qed.

(** One terminal receipt of the request, sent, and the inflight entry gone. *)
Definition finalized (id : Uuid) (t : list Obs) : Prop :=
  exists receipt, deliveries t = [Sent id receipt] /\ CommandReceipt.request_id receipt = id /\
    is_terminal (CommandReceipt.state receipt) = true /\ SawRemoved id ∈ t.

(** One forwarder, of the executor's receipts, and no receipt sent yet. *)
Definition handed_on (id : Uuid) (t : list Obs) : Prop :=
  exists receipts key q, deliveries t = [Forwarded id receipts] /\ SawExecute key q ∈ t.

Definition accepted_outcome (id : Uuid) (r : res BridgeError.t Submission.t) (t : list Obs) : Prop :=
  exists at_, r = Ok (Submission.Accepted at_ id) /\ (finalized id t \/ handed_on id t).

Lemma delivered_app (id : Uuid) (t u : list Obs) : deliveries t = [] -> finalized id u \/ handed_on id u -> finalized id (t ++ u) \/ handed_on id (t ++ u).
Proof.
  intros Ht [(receipt & Hs & ? & ? & Hr)|(receipts & key & q & Hs & Hr)]; [left; exists receipt|right; exists receipts, key, q];
    rewrite deliveries_app, Ht, Hs; (split_and!; [done..|]); apply elem_of_app; by right.
Qed.

Lemma accepted_app (id : Uuid) (r : res BridgeError.t Submission.t) (t u : list Obs) :
  deliveries t = [] -> accepted_outcome id r u -> accepted_outcome id r (t ++ u).
Proof. intros Ht (at_ & -> & Hf). exists at_. split; [done|]. by apply delivered_app. Qed.

Lemma tr_finalize (id : Uuid) (state : ReceiptState.t) :
  is_terminal state = true ->
  tr (perform finalize_receipt id state; accepted id) (accepted_outcome id).
Proof.
  intros Hs. unfold finalize_receipt, accepted. cbn [prog_bind act tr obs]. intros x now y z at_.
  exists at_. split; [done|]. left. eexists. split_and!; [reflexivity|done|done|seen].
Qed.

Lemma tr_finalize_after {A} (p : prog A) (id : Uuid) (state : A -> ReceiptState.t) :
  only mute_op p -> (forall a, is_terminal (state a) = true) ->
  tr (do a <- p; perform finalize_receipt id (state a); accepted id) (accepted_outcome id).
Proof.
  intros Hp Hs. eapply tr_bind; [by apply only_mute|]. intros a t Ht. cbv beta in Ht.
  eapply tr_mono; [|apply tr_finalize, Hs]. intros r u Hu. by apply accepted_app; [apply Ht|].
Qed.

Lemma local_terminal {T} (r : res BridgeError.t T) :
  is_terminal match r with
              | Ok _ => ReceiptState.Completed
              | Err err => ReceiptState.Rejected (BridgeError.code err) (BridgeError.message err)
              end = true.
Proof. by destruct r. Qed.

Lemma tr_dispatch_accepted (req : CommandRequest.t) (v : option RuntimeSnapshot.t) :
  (forall input replace, CommandRequest.payload req = CommandPayload.QueueNextTurn input replace -> is_Some v) ->
  tr (dispatch req v) (accepted_outcome (CommandRequest.request_id req)).
Proof.
  intros Hv. unfold dispatch, finalize_local.
  destruct (CommandRequest.payload req).
  7: { destruct (Hv _ _ eq_refl) as [s ->]. apply tr_finalize_after; [apply mute_queue_set|apply @local_terminal]. }
  7: { apply tr_finalize_after; [apply mute_queue_cancel|apply @local_terminal]. }
  7: { apply tr_finalize_after; [apply mute_queue_pause|apply @local_terminal]. }
  all: cbn [prog_bind act tr obs]; intros [receipts|err];
    [cbn [accepted prog_bind act tr obs]; intros u at_; exists at_; split; [done|]; right; eexists _, _, _; split; [done|seen]|].
  all: eapply tr_mono; [|apply tr_finalize; unfold adapter_failure; by case_bool_decide].
  all: intros r t Ht; by apply (accepted_app _ _ [_]).
Qed.

Lemma tr_validate_accepted (req : CommandRequest.t) :
  tr (validate_and_dispatch req) (accepted_outcome (CommandRequest.request_id req)).
Proof.
  unfold validate_and_dispatch, finalize_rejected. destruct (needs_snapshot req) eqn:Hn.
  - cbn [prog_bind act tr obs]. intros [s|err]; [destruct (stale req s)|].
    all: eapply tr_mono; [intros r t Ho; apply (accepted_app _ _ [_]); [done|exact Ho]|].
    + by apply tr_finalize.
    + apply tr_dispatch_accepted. by intros.
    + by apply tr_finalize.
  - apply tr_dispatch_accepted. intros input replace Hp. rewrite (queue_needs_snapshot _ _ _ Hp) in Hn. done.
Qed.

(** What the caller of [submit] gets. *)
Definition answered (req : CommandRequest.t) (r : res BridgeError.t Submission.t) (t : list Obs) : Prop :=
  let id := CommandRequest.request_id req in
  match r with
  | Err _ => deliveries t = [] /\ (forall key q, SawExecute key q ∉ t) /\ (forall row, SawRecorded row (Ok Inserted) ∉ t)
  | Ok (Submission.Replayed id' _) =>
      id' = id /\ deliveries t = [] /\ (forall key q, SawExecute key q ∉ t) /\
      exists row, RequestReceipt.request_id row = id /\ SawRecorded row (Ok Existing) ∈ t
  | Ok (Submission.Accepted _ id') =>
      id' = id /\ (finalized id t \/ handed_on id t)
  end.

Lemma tr_submit_answered (req : CommandRequest.t) : tr (submit req) (answered req).
Proof.
  assert (Hcons : forall ob r t, deliveries [ob] = [] -> (forall row x, ob <> SawRecorded row x) ->
    (forall key q, ob <> SawExecute key q) -> answered req r t -> answered req r (ob :: t)).
  { intros ob r t Hob Hrec Hex. unfold answered.
    assert (Hs : deliveries (ob :: t) = deliveries t) by (change (ob :: t) with ([ob] ++ t); by rewrite deliveries_app, Hob).
    rewrite Hs. destruct r as [[at_ id|id st]|err].
    - intros [-> Hf]. split; [done|]. by apply (delivered_app _ [ob]).
    - intros (-> & ? & Hne & row & ? & ?). split_and!; [done|done| |].
      + intros key q [He|Hin]%elem_of_cons; [by eapply Hex|by eapply Hne].
      + exists row. split; [done|seen].
    - intros (? & Hne & Hnr). split_and!; [done| |].
      + intros key q [He|Hin]%elem_of_cons; [by eapply Hex|by eapply Hne].
      + intros row [He|Hin]%elem_of_cons; [by eapply Hrec|by eapply Hnr]. }
  assert (Herr : forall err, answered req (Err err) []).
  { intros err. split_and!; [done|intros ? ? Hin; drop_seen Hin|intros ? Hin; drop_seen Hin]. }
  unfold submit. cbn [prog_bind act tr obs]. intros closed.
  destruct closed; [by apply Hcons|]. eapply tr_mono; [intros r t Ha; apply Hcons; [done..|exact Ha]|].
  unfold gate. cbv zeta. match goal with |- tr (if ?b then _ else _) _ => destruct b end; [apply Herr|].
  assert (Hmain : tr
    (do now <- act NowRfc3339;
     do r <- act (RecordReceipt (receipt_row req now));
     match r with
     | Ok Inserted => perform act (InflightInsert (CommandRequest.request_id req)); validate_and_dispatch req
     | Ok Existing => replayed (CommandRequest.request_id req)
     | Err err => Ret (Err (store_err err))
     end) (answered req)).
  { cbn [prog_bind act tr obs]. intros now [[]|err].
    - cbn [tr obs]. intros u. eapply tr_mono; [|apply tr_validate_accepted].
      intros r t (at_ & -> & Hf). split; [done|]. by apply (delivered_app _ [_; _; _]).
    - unfold replayed. cbn [prog_bind act tr obs]. intros r. split_and!; [done|done|intros ? ? Hin; drop_seen Hin|].
      exists (receipt_row req now). split; [done|seen].
    - split_and!; [done|intros ? ? Hin; drop_seen Hin|intros ? Hin; drop_seen Hin]. }
  case_bool_decide; [exact Hmain|]. cbn [prog_bind act tr obs]. intros caps.
  destruct (CapabilitySet.supports caps _).
  - eapply tr_mono; [|exact Hmain]. intros r t Ha. by apply Hcons.
  - case_bool_decide; by apply Hcons.
Qed.

(** C19. What a submission itself answers.  An accepted command has, when [submit] returns, either been sent exactly one receipt, a
    terminal one, with its inflight entry removed, and no forwarder is started, or it went to the executor, has been sent no
    receipt and exactly one forwarder is started for it; that forwarder, whatever its stream holds, sends receipts of which the last and only
    the last is terminal.  A replay sends nothing, starts no forwarder, executes nothing and names the stored row; a refusal sends nothing,
    starts no forwarder, executes nothing and has stored no row.  In particular the [expect] on the queue's snapshot is never reached.  This counts what
    the submission and its forwarder send, under any interleaving; a shutdown that drains the command meanwhile sends its own OUTCOME_UNKNOWN besides. *)
Theorem submit_answered (h : Oracle) (n : nat) (w : World.t) (req : CommandRequest.t) :
  answered req (run h n w (submit req)).1.1 (run h n w (submit req)).2 /\
  forall receipts h' n' w', Forwarded (CommandRequest.request_id req) receipts ∈ deliveries (run h n w (submit req)).2 ->
    forward_outcome (CommandRequest.request_id req) receipts (run h' n' w' (forward (CommandRequest.request_id req) receipts)).2.
Proof.
  split; [apply (tr_sound (submit req) (answered req) h n w), tr_submit_answered|]. intros receipts h' n' w' _. apply forward_outcome_run.
Qed.
End Answered.

(** ** Shutdown *)
Section Shutdown.
Context `{Conversions}.

(** A program that looks at the flag first, and dispatches nothing when it is set. *)
Definition checks_closed (p : prog unit) : Prop :=
  match p with
  | Ret _ => False
  | Act o k =>
      match o in op B return (B -> prog unit) -> Prop with
      | LoadClosed => fun k => quiet (k true)
      | _ => fun _ => False
      end k
  end.

(** A submission that has not looked at the flag yet, or a program that dispatches nothing. *)
Definition harmless (p : prog unit) : Prop := quiet p \/ checks_closed p.

Lemma quiet_ignore {A} (p : prog A) : quiet p -> quiet (ignore p).
Proof. intros Hp. unfold ignore. quiet. Qed.

Lemma harmless_call (c : Call) : harmless (call_prog c).
Proof.
  destruct c; [by right|left..]; apply quiet_ignore; [apply quiet_queue_resume|apply quiet_queue_replace|].
  unfold graceful_shutdown. quiet.
Qed.

Lemma exec_closed {B : Type} (e : Env.t) (w w' : World.t) (o : op B) (b : B) :
  exec e w o = (b, w') -> World.closed w = true -> World.closed w' = true.
Proof. by destruct o; unfold exec, on_db; intros He; simplify_eq/=. Qed.

Lemma exec_quiet_dispatched {B : Type} (e : Env.t) (w w' : World.t) (o : op B) (b : B) :
  exec e w o = (b, w') -> quiet_op B o = true -> World.dispatched w' = World.dispatched w.
Proof. by destruct o; unfold exec, on_db; intros He; simplify_eq/=. Qed.

Definition closed_inv (sent : list CommandRequest.t) (cfg : Config) : Prop :=
  World.closed cfg.1 = true /\ World.dispatched cfg.1 = sent /\ Forall harmless cfg.2.

Lemma closed_step (sent : list CommandRequest.t) (cfg : Config) (c : Choice) :
  closed_inv sent cfg -> closed_inv sent (step cfg c).
Proof.
  destruct cfg as [w pool]. intros (Hc & Hs & Hp). simpl in *. destruct c as [c| |i e]; simpl.
  - split_and!; [done..|]. apply Forall_app. split; [done|]. apply Forall_singleton, harmless_call.
  - destruct (World.tasks w) as [|task tasks]; [done|]. split_and!; [done..|]. apply Forall_app. split; [done|].
    apply Forall_singleton. left. destruct task; [apply quiet_forward|apply quiet_watch].
  - destruct (pool !! i) as [[a|B o k]|] eqn:Hi; [done| |done].
    destruct (exec e w o) as [b w'] eqn:He. rewrite Forall_lookup in Hp.
    destruct (Hp _ _ Hi) as [[Ho Hk]|Hcheck].
    + split_and!; [by eapply exec_closed|by erewrite exec_quiet_dispatched by eauto|].
      apply Forall_insert; [by rewrite Forall_lookup|]. left. apply Hk.
    + destruct o; try done. simpl in He, Hcheck. simplify_eq. split_and!; [done..|].
      apply Forall_insert; [by rewrite Forall_lookup|]. left. by rewrite Hc.
Qed.

(** After a shutdown nothing more is dispatched.  Once the gateway is closed and no submission
    is half way, whatever is submitted, resumed, replaced or started afterwards, in whatever
    interleaving, the gateway stays closed and the list of commands handed to the executor does
    not grow. *)
Theorem closed_dispatches_nothing (w : World.t) (choices : list Choice) :
  World.closed w = true ->
  let w' := (steps (w, []) choices).1 in
  World.closed w' = true /\ World.dispatched w' = World.dispatched w.
Proof.
  intros Hc w'.
  assert (Hinv : closed_inv (World.dispatched w) (steps (w, []) choices)).
  { assert (H0 : closed_inv (World.dispatched w) (w, [])) by (split_and!; [done|done|by apply Forall_nil]).
    revert H0. unfold steps. generalize (w, [] : list (prog unit)).
    induction choices as [|c choices IH]; intros cfg Hcfg; simpl; [done|]. by apply IH, closed_step. }
  destruct Hinv as (? & ? & _). auto.
Qed.

(** Shutdown itself: what was in flight is given its terminal state, in any interleaving. *)
Definition shutdown_outcome (ids : list Uuid) (t : list Obs) : Prop :=
  map (fun s => (s.1, CommandReceipt.state s.2)) (sends t) = map (fun id => (id, ReceiptState.OutcomeUnknown)) ids /\
  statuses t = map (fun id => (id, "OUTCOME_UNKNOWN")) ids.

Lemma tr_finalize_drained (ids : list Uuid) :
  tr (finalize_drained ids) (fun _ t => shutdown_outcome ids t).
Proof.
  induction ids as [|id ids IH]; [done|]. cbn [finalize_drained prog_bind act tr obs]. intros now x y.
  eapply tr_mono; [|exact IH]. intros a t [Hs Hst]. unfold shutdown_outcome, sends, statuses, filter_map in *.
  split; simpl; f_equal; assumption.
Qed.

(** A graceful shutdown gives every drained command its terminal state: the returned requests
    are exactly those for which OUTCOME_UNKNOWN is written to the store and sent to the caller,
    once each and in order; run without interference, the gateway is closed afterwards, nothing
    is left in flight and the returned requests are those that were in flight. *)
Theorem shutdown_spec (h : Oracle) (n : nat) (w : World.t) :
  let '(ids, w', t) := run h n w graceful_shutdown in
  shutdown_outcome ids t /\
  ((forall i, (h i).1 = id) ->
     World.closed w' = true /\ World.inflight w' = ∅ /\ ids = elements (World.inflight w)).
Proof.
  destruct (run h n w graceful_shutdown) as [[ids w'] t] eqn:Hrun. split.
  - assert (Ht : tr graceful_shutdown shutdown_outcome).
    { unfold graceful_shutdown. cbn [prog_bind act tr obs]. intros x pending.
      eapply tr_bind; [apply tr_finalize_drained|]. intros a t1 Ht1. simpl.
      unfold shutdown_outcome in *. rewrite app_nil_r. exact Ht1. }
    pose proof (tr_sound _ _ h n w Ht) as Hs. by rewrite Hrun in Hs.
  - intros Hh.
    assert (Hkeep : forall ids i w0, let w1 := (run h i w0 (perform finalize_drained ids; Ret ids)).1.2 in
      World.closed w1 = World.closed w0 /\ World.inflight w1 = World.inflight w0 /\
      (run h i w0 (perform finalize_drained ids; Ret ids)).1.1 = ids).
    { intros l. assert (Hgen : forall (res : list Uuid) i w0,
        let w1 := (run h i w0 (perform finalize_drained l; Ret res)).1.2 in
        World.closed w1 = World.closed w0 /\ World.inflight w1 = World.inflight w0 /\
        (run h i w0 (perform finalize_drained l; Ret res)).1.1 = res); [|by intros; apply Hgen].
      induction l as [|id l IH]; intros res i w0; [done|]. cbn [finalize_drained prog_bind act run].
      rewrite !Hh. unfold exec, on_db. simpl.
      match goal with |- context [run h ?j ?w2 ?p] => specialize (IH res j w2); simpl in IH;
        destruct (run h j w2 p) as [[r w3] t3]; simpl in * end. done. }
    unfold graceful_shutdown in Hrun. cbn [prog_bind act run] in Hrun. rewrite !Hh in Hrun.
    unfold exec in Hrun. simpl in Hrun.
    match type of Hrun with context [run h ?j ?w2 (prog_bind (finalize_drained ?l) _)] =>
      pose proof (Hkeep l j w2) as Hk; simpl in Hk; destruct (run h j w2 _) as [[r w3] t3] end.
    simplify_eq/=. destruct Hk as (-> & -> & ->). done.
Qed.
End Shutdown.

(** ** Concrete schedules *)

Module CommandDemo.
#[global] Instance conversions : Conversions := {|
  canonical_payload_digest := fun p =>
    match p with CommandPayload.StartTurn t => OutputText.text t | _ => "other" end;
  operation_name := fun _ => "op";
  parse_datetime := fun _ => None;
  parse_uuid := Some;
|}.

Definition key : SessionKey.t := SessionKey.codex "dev" "s1".

Definition capabilities : CapabilitySet.t :=
  CapabilitySet.mk ControlMode.FullControl CompatibilityState.Verified None
    [Operation.StartTurn; Operation.InterruptTurn] [] TransferLimits.default.

(** An idle session at revision 7. *)
Definition idle : RuntimeSnapshot.t :=
  RuntimeSnapshot.mk key 7 None Plan.default [] [] [] [] 0 QueueStatus.default capabilities [].

Definition completed : list CommandReceipt.t :=
  [CommandReceipt.mk "u" ReceiptState.DispatchedToCodex None; CommandReceipt.mk "u" ReceiptState.Completed None].

Definition turn_completed : DomainEvent.t :=
  DomainEvent.TurnLifecycle (TurnId.native "t1") ActiveTurnPhase.Idle (Some LastTurnOutcome.Completed) None.

Definition env : Env.t :=
  Env.mk None None "now" 5 "u" capabilities (fun _ => Ok idle) (fun _ => Ok completed)
    (Some [turn_completed]).

Definition oracle : Oracle := fun _ => (id, env).

Definition start_request : CommandRequest.t :=
  CommandRequest.mk "r1" Operation.StartTurn key None (Some 7) None
    (CommandPayload.StartTurn (OutputText.mk "hello")).

(** A database with one queued turn. *)
Definition entry : NextTurnEntry.t :=
  NextTurnEntry.mk (session_ref key) "next prompt" IDLE_AFTER_TURN 7 StoreQueueStatus.Queued "c" "c".

Definition queued_db : Db.t := Db.with_next_turn_queue {[session_ref key := entry]} Db.initial.

Definition go (i n : nat) : list Choice := replicate n (Advance i env).
End CommandDemo.
Import CommandDemo.

Definition demo_trace : list Obs := (run oracle 0 (World.initial Db.initial) (submit start_request)).2.

Lemma dispatch_guarded_witness :
  exists q, SawExecute key q ∈ demo_trace /\ guarded start_request demo_trace key q.
Proof.
  eexists. split; [vm_compute; seen|].
  apply (dispatch_guarded oracle 0 (World.initial Db.initial) start_request key). vm_compute. seen.
Defined.

Lemma auto_send_guarded_witness :
  let t := (run oracle 0 (World.initial queued_db) (maybe_auto_send key)).2 in
  exists q, SawAutoExecute key q (Ok completed) ∈ t /\ auto_send_justified key t key q (Ok completed).
Proof.
  intros t. eexists. split; [vm_compute; seen|].
  apply (auto_send_guarded oracle 0 (World.initial queued_db) key key). vm_compute. seen.
Defined.

(** The command is executed and forwarded; its forwarder sends the two receipts of the executor. *)
Lemma submit_answered_witness :
  handed_on "r1" demo_trace /\
  deliveries demo_trace = [Forwarded "r1" completed] /\
  forward_outcome "r1" completed (run oracle 0 (World.initial Db.initial) (forward "r1" completed)).2 /\
  sends (run oracle 0 (World.initial Db.initial) (forward "r1" completed)).2 = map (pair "r1") completed.
Proof.
  destruct (submit_answered oracle 0 (World.initial Db.initial) start_request) as [A F].
  split; [|split; [vm_compute; reflexivity|split; [|vm_compute; reflexivity]]].
  - assert (E : (run oracle 0 (World.initial Db.initial) (submit start_request)).1.1 = Ok (Submission.Accepted 5 "r1")) by (vm_compute; reflexivity).
    rewrite E in A. destruct A as [_ [(receipt & X & _)|A]]; [vm_compute in X; discriminate X|exact A].
  - apply F. vm_compute. apply list_elem_of_here.
Defined.

(** A shutdown that runs between the submission and its forwarder sends the command a second terminal receipt. *)
Lemma shutdown_answers_again :
  let choices := [Arrive (CallSubmit start_request)] ++ go 0 20 ++ [Arrive CallShutdown] ++ go 1 20 ++ [Start] ++ go 2 20 in
  map (fun x => (x.1, is_terminal (CommandReceipt.state x.2))) (World.sent (steps (World.initial Db.initial, []) choices).1) = [("r1", true); ("r1", false); ("r1", true)].
Proof. vm_compute. reflexivity. Qed.

Lemma closed_dispatches_nothing_witness :
  let w := World.with_closed true (World.initial Db.initial) in
  let w' := (steps (w, []) (Arrive (CallSubmit start_request) :: go 0 10)).1 in
  World.closed w' = true /\ World.dispatched w' = World.dispatched w.
Proof.
  intros w w'.
  exact (closed_dispatches_nothing w (Arrive (CallSubmit start_request) :: go 0 10) eq_refl).
Defined.

(** The same request submitted twice is dispatched once. *)
Lemma resubmission_dispatches_once :
  let choices := Arrive (CallSubmit start_request) :: Arrive (CallSubmit start_request) :: go 0 20 ++ go 1 20 in
  map CommandRequest.request_id (World.dispatched (steps (World.initial Db.initial, []) choices).1) = ["r1"].
Proof. vm_compute. reflexivity. Qed.

(** [resume] and the watcher it starts both pass the check of [maybe_auto_send] before either
    clears the entry: the queued prompt is sent twice. *)
Lemma resume_overlapping_watcher_sends_twice :
  let choices :=
    (* resume: rewrites the entry and starts the watcher *)
    [Arrive (CallResume key)] ++ go 0 10 ++
    (* the watcher gets the completion of the running turn and sends *)
    [Start] ++ go 1 7 ++
    (* resume goes on: the entry is not cleared yet *)
    go 0 5 in
  map CommandRequest.payload (World.auto_dispatched (steps (World.initial queued_db, []) choices).1) =
  [CommandPayload.StartTurn (OutputText.mk "next prompt"); CommandPayload.StartTurn (OutputText.mk "next prompt")].
Proof. vm_compute. reflexivity. Qed.

Definition cancel_request : CommandRequest.t :=
  CommandRequest.mk "r2" Operation.QueueNextTurn key None None None CommandPayload.CancelQueue.

Definition pause_request : CommandRequest.t :=
  CommandRequest.mk "r3" Operation.QueueNextTurn key None None None CommandPayload.PauseQueue.

(** A pause reads the entry, a cancel removes it and is reported completed, the pause writes it
    back. *)
Lemma pause_overlapping_cancel_restores_entry :
  let choices :=
    [Arrive (CallSubmit pause_request); Arrive (CallSubmit cancel_request)] ++
    go 0 5 ++ go 1 20 ++ go 0 20 in
  let w := (steps (World.initial queued_db, []) choices).1 in
  (exists receipt, ("r2", receipt) ∈ World.sent w /\ CommandReceipt.state receipt = ReceiptState.Completed) /\
  NextTurnEntry.status <$> Db.next_turn_queue (World.db w) !! session_ref key = Some StoreQueueStatus.Paused.
Proof. vm_compute. split; [|reflexivity]. eexists. split; [seen|reflexivity]. Qed.
