(* ===== verification/Commands.v ===== *)
(** * Settings, answers, background commands and uploads ([commands/settings.rs], [attention.rs], [background.rs], [upload_lifecycle.rs])

    Methods of the gateway that check a command against the snapshot of its session and then submit it; the
    uploads that are deleted when the turn that holds them ends are at the end.
    [Debug] of a string, which only appears in texts of errors, is a parameter. *)

From S2P Require Import Prelude Prog RustStr Domain LocalStore Concurrent Queue Gateway CommandProps CommandTraces.

Module SettingEffective.
Inductive t := NextTurn | Immediate.
End SettingEffective.

Module SettingsSubmission.
Record t := mk {
  submission : Submission.t;
  effective : SettingEffective.t;
}.
End SettingsSubmission.

Module BackgroundStopOutcome.
Record t := mk {
  submission : Submission.t;
  warnings : list string;
}.
End BackgroundStopOutcome.

Definition BACKGROUND_STOP_GLOBAL_ONLY : string := "BACKGROUND_STOP_GLOBAL_ONLY".

(** [derive(Debug)]. *)
Definition setting_kind_debug (k : SettingKind.t) : string :=
  match k with
  | SettingKind.Model => "Model"
  | SettingKind.ReasoningEffort => "ReasoningEffort"
  | SettingKind.ServiceTier => "ServiceTier"
  | SettingKind.PermissionMode => "PermissionMode"
  | SettingKind.CollaborationMode => "CollaborationMode"
  end.

Definition adapter_err (err : AdapterError.t) : BridgeError.t :=
  BridgeError.mk (AdapterError.code err) (AdapterError.display err).

Definition invalid_request {A : Type} (message : string) : res BridgeError.t A := Err (BridgeError.mk StableErrorCode.InternalError message).

Section Commands.
Context `{Conversions}.
Variable debug_str : string -> string.

(** The requests these methods build expect no turn and no revision. *)
Definition unconditional (operation : Operation.t) (key : SessionKey.t) (payload : CommandPayload.t) (id : Uuid) : CommandRequest.t :=
  CommandRequest.mk id operation key None None None payload.

(** ** Settings *)

Definition unsupported_setting (message : string) : res BridgeError.t unit :=
  Err (BridgeError.mk StableErrorCode.SettingCombinationUnsupported message).

Fixpoint validate_setting_updates (options : list SettingOption.t) (updates : list SettingUpdate.t) : res BridgeError.t unit :=
  match updates with
  | [] => Ok tt
  | update :: updates =>
      let kind := setting_kind_debug (SettingUpdate.kind update) in
      if bool_decide (SettingUpdate.kind update <> SettingKind.ReasoningEffort) then
        unsupported_setting ("setting kind " +:+ kind +:+
          " is not opened for writing: only reasoning effort is verified against a real desktop")
      else
        match find (fun o => bool_decide (SettingOption.kind o = SettingUpdate.kind update)) options with
        | None => unsupported_setting ("setting kind " +:+ kind +:+ " is not offered by the current desktop")
        | Some option =>
            if bool_decide (SettingOption.available_values option = []) then
              unsupported_setting ("desktop provides no dynamic available values for " +:+ kind +:+ "; settings write is closed")
            else if negb (existsb (fun v => bool_decide (SettingValue.value v = SettingUpdate.value update)) (SettingOption.available_values option)) then
              unsupported_setting ("value " +:+ debug_str (SettingUpdate.value update) +:+ " is not an available value for " +:+ kind)
            else if negb (SettingOption.mutable option) then
              unsupported_setting ("setting " +:+ kind +:+ " is locked for the running turn")
            else validate_setting_updates options updates
        end
  end.

Definition snapshot_of (key : SessionKey.t) : prog (res BridgeError.t RuntimeSnapshot.t) :=
  do r <- act (RuntimeSnapshotOf key);
  Ret (map_err adapter_err r).

Definition submit_new (operation : Operation.t) (key : SessionKey.t) (payload : CommandPayload.t) : prog (res BridgeError.t Submission.t) :=
  do id <- act NewUuid;
  submit (unconditional operation key payload id).

Definition update_settings (key : SessionKey.t) (updates : list SettingUpdate.t) : prog (res BridgeError.t SettingsSubmission.t) :=
  try? snapshot <- snapshot_of key;
  try? _ <- lift (validate_setting_updates (CapabilitySet.settings (RuntimeSnapshot.capabilities snapshot)) updates);
  try? submission <- submit_new Operation.UpdateSettings key (CommandPayload.UpdateSettings updates);
  Ret (Ok (SettingsSubmission.mk submission SettingEffective.NextTurn)).

(** ** Questions and approvals *)

Definition check_question (snapshot : RuntimeSnapshot.t) (question_id : string) (option_ids : list string) (free_text : option OutputText.t) :
    res BridgeError.t unit :=
  match find (fun q => bool_decide (PendingQuestion.question_id q = question_id)) (RuntimeSnapshot.pending_questions snapshot) with
  | None => Err (BridgeError.mk StableErrorCode.QuestionExpired ("no pending question with native id " +:+ question_id))
  | Some question =>
      if negb (PendingQuestion.valid question) then Err (BridgeError.mk StableErrorCode.QuestionExpired "question is no longer valid")
      else if negb (PendingQuestion.allow_multiple question) && (1 <? zlen option_ids) then
        invalid_request "multiple options submitted for a single-choice question"
      else
        match find (fun option_id => negb (existsb (fun o => bool_decide (QuestionOption.option_id o = option_id)) (PendingQuestion.options question))) option_ids with
        | Some option_id => invalid_request ("option " +:+ option_id +:+ " is not a native option of question " +:+ question_id)
        | None =>
            if bool_decide (free_text <> None) && negb (PendingQuestion.allow_free_text question) then
              invalid_request "free text is not allowed for this question"
            else if bool_decide (option_ids = []) && bool_decide (free_text = None) then
              invalid_request "answer requires an option id or free text"
            else Ok tt
        end
  end.

Definition gateway_answer_question (key : SessionKey.t) (question_id : string) (option_ids : list string) (free_text : option OutputText.t) :
    prog (res BridgeError.t Submission.t) :=
  try? snapshot <- snapshot_of key;
  try? _ <- lift (check_question snapshot question_id option_ids free_text);
  submit_new Operation.AnswerQuestion key (CommandPayload.AnswerQuestion question_id option_ids free_text).

Definition check_approval (snapshot : RuntimeSnapshot.t) (approval_id decision_id : string) : res BridgeError.t unit :=
  match find (fun a => bool_decide (PendingApproval.approval_id a = approval_id)) (RuntimeSnapshot.pending_approvals snapshot) with
  | None => Err (BridgeError.mk StableErrorCode.ApprovalExpired ("no pending approval with native id " +:+ approval_id))
  | Some approval =>
      if negb (PendingApproval.valid approval) then Err (BridgeError.mk StableErrorCode.ApprovalExpired "approval is no longer valid")
      else if negb (existsb (fun d => bool_decide (ApprovalDecision.decision_id d = decision_id)) (PendingApproval.decisions approval)) then
        invalid_request ("decision " +:+ decision_id +:+ " is not a native decision of approval " +:+ approval_id)
      else Ok tt
  end.

Definition answer_approval (key : SessionKey.t) (approval_id decision_id : string) : prog (res BridgeError.t Submission.t) :=
  try? snapshot <- snapshot_of key;
  try? _ <- lift (check_approval snapshot approval_id decision_id);
  submit_new Operation.SubmitApproval key (CommandPayload.SubmitApproval approval_id decision_id).

(** ** Background commands *)

Definition background_commands (key : SessionKey.t) : prog (res BridgeError.t (list BackgroundCommand.t)) :=
  try? snapshot <- snapshot_of key;
  Ret (Ok (RuntimeSnapshot.background_commands snapshot)).

Definition stop_background_command (key : SessionKey.t) (command_id : string) : prog (res BridgeError.t BackgroundStopOutcome.t) :=
  try? submission <- submit_new Operation.StopBackgroundCommand key (CommandPayload.StopBackgroundCommand command_id);
  Ret (Ok (BackgroundStopOutcome.mk submission [])).

Definition stop_all_background_commands (key : SessionKey.t) : prog (res BridgeError.t BackgroundStopOutcome.t) :=
  do caps <- act Capabilities;
  let warnings := if CapabilitySet.supports caps Operation.StopBackgroundCommand then [] else [BACKGROUND_STOP_GLOBAL_ONLY] in
  try? submission <- submit_new Operation.StopAllBackgroundCommands key CommandPayload.StopAllBackgroundCommands;
  Ret (Ok (BackgroundStopOutcome.mk submission warnings)).

(** ** What reaches the executor *)

(** An update names the reasoning effort, an option of the snapshot that is not locked, and one of its values. *)
Definition setting_offered (s : RuntimeSnapshot.t) (update : SettingUpdate.t) : Prop :=
  SettingUpdate.kind update = SettingKind.ReasoningEffort /\
  exists option v, option ∈ CapabilitySet.settings (RuntimeSnapshot.capabilities s) /\ SettingOption.kind option = SettingUpdate.kind update /\
    SettingOption.mutable option = true /\ v ∈ SettingOption.available_values option /\ SettingValue.value v = SettingUpdate.value update.

Definition answer_offered (s : RuntimeSnapshot.t) (question_id : string) (option_ids : list string) (free_text : option OutputText.t) : Prop :=
  exists question, question ∈ RuntimeSnapshot.pending_questions s /\ PendingQuestion.question_id question = question_id /\
    PendingQuestion.valid question = true /\
    Forall (fun id => exists o, o ∈ PendingQuestion.options question /\ QuestionOption.option_id o = id) option_ids /\
    (PendingQuestion.allow_multiple question = false -> (length option_ids <= 1)%nat) /\
    (free_text <> None -> PendingQuestion.allow_free_text question = true) /\ (option_ids <> [] \/ free_text <> None).

Definition decision_offered (s : RuntimeSnapshot.t) (approval_id decision_id : string) : Prop :=
  exists approval d, approval ∈ RuntimeSnapshot.pending_approvals s /\ PendingApproval.approval_id approval = approval_id /\
    PendingApproval.valid approval = true /\ d ∈ PendingApproval.decisions approval /\ ApprovalDecision.decision_id d = decision_id.

Lemma existsb_bool_decide {A : Type} (P : A -> Prop) `{!forall x, Decision (P x)} (l : list A) :
  existsb (fun x => bool_decide (P x)) l = true <-> exists x, x ∈ l /\ P x.
Proof.
  rewrite existsb_exists. split; intros (x & I & E); exists x; rewrite ?bool_decide_eq_true in *.
  - by rewrite list_elem_of_In.
  - by rewrite <- list_elem_of_In.
Qed.

Lemma find_elem {A : Type} (P : A -> Prop) `{!forall x, Decision (P x)} (l : list A) (x : A) :
  find (fun x => bool_decide (P x)) l = Some x -> x ∈ l /\ P x.
Proof. intros [I E%bool_decide_eq_true]%find_some. by rewrite list_elem_of_In. Qed.

Lemma validate_spec (s : RuntimeSnapshot.t) (updates : list SettingUpdate.t) :
  validate_setting_updates (CapabilitySet.settings (RuntimeSnapshot.capabilities s)) updates = Ok tt -> Forall (setting_offered s) updates.
Proof.
  induction updates as [|update updates IH]; [by constructor|]. cbn [validate_setting_updates].
  case_bool_decide as K; [done|]. destruct (find _ _) as [option|] eqn:F; [|done]. apply find_elem in F as [I F].
  case_bool_decide; [done|]. destruct (existsb _ _) eqn:E; simpl; [|done]. apply existsb_bool_decide in E as (v & Iv & Ev).
  destruct (SettingOption.mutable option) eqn:M; simpl; [|done]. intros R. constructor; [|by apply IH]. split; [done|]. by exists option, v.
Qed.

Lemma check_question_spec (s : RuntimeSnapshot.t) (question_id : string) (option_ids : list string) (free_text : option OutputText.t) :
  check_question s question_id option_ids free_text = Ok tt -> answer_offered s question_id option_ids free_text.
Proof.
  unfold check_question. destruct (find _ (RuntimeSnapshot.pending_questions s)) as [q|] eqn:F; [|done]. apply find_elem in F as [I F].
  destruct (PendingQuestion.valid q) eqn:Va; simpl; [|done].
  destruct (negb (PendingQuestion.allow_multiple q) && _) eqn:M; [done|]. destruct (find _ option_ids) as [o|] eqn:O; [done|].
  destruct (bool_decide (free_text <> None) && _) eqn:T; [done|]. destruct (bool_decide (option_ids = []) && _) eqn:N; [done|]. intros _.
  exists q. split_and!; try done.
  - apply Forall_forall. intros id L%list_elem_of_In. pose proof (find_none _ _ O _ L) as E. apply negb_false_iff in E.
    by apply existsb_bool_decide in E.
  - intros A. rewrite A in M. apply Z.ltb_ge in M. unfold zlen in M. lia.
  - intros A. rewrite bool_decide_eq_true_2 in T by done. by destruct (PendingQuestion.allow_free_text q).
  - case_bool_decide as E; [|by left]. case_bool_decide as E'; [done|]. by right.
Qed.

Lemma check_approval_spec (s : RuntimeSnapshot.t) (approval_id decision_id : string) :
  check_approval s approval_id decision_id = Ok tt -> decision_offered s approval_id decision_id.
Proof.
  unfold check_approval. destruct (find _ _) as [a|] eqn:F; [|done]. apply find_elem in F as [I F].
  destruct (PendingApproval.valid a) eqn:Va; simpl; [|done]. destruct (existsb _ _) eqn:E; simpl; [|done].
  apply existsb_bool_decide in E as (d & Id & Ed). intros _. by exists a, d.
Qed.

(** A command that was checked against a snapshot seen in the same run. *)
Definition checked_execute (key : SessionKey.t) (payload : CommandPayload.t) (P : RuntimeSnapshot.t -> Prop) (t : list Obs) : Prop :=
  forall k q, SawExecute k q ∈ t ->
    k = key /\ CommandRequest.payload q = payload /\ exists s, SawSnapshot key (Ok s) ∈ t /\ P s.

(** Executes only the payload, for the session. *)
Definition executes_only (key : SessionKey.t) (payload : CommandPayload.t) (t : list Obs) : Prop :=
  forall k q, SawExecute k q ∈ t -> k = key /\ CommandRequest.payload q = payload.

Lemma tr_submit_new (operation : Operation.t) (key : SessionKey.t) (payload : CommandPayload.t) :
  tr (submit_new operation key payload) (fun _ t => executes_only key payload t).
Proof.
  unfold submit_new. cbn [prog_bind act tr obs]. intros id. eapply tr_mono; [|apply tr_submit]. intros a t G k q I. drop_seen I.
  destruct (guard_request _ _ _ _ (G _ _ I)) as [-> ->]. done.
Qed.

Lemma tr_then_ok {A C : Type} (p : prog (res BridgeError.t A)) (f : A -> C) (key : SessionKey.t) (payload : CommandPayload.t) :
  tr p (fun _ t => executes_only key payload t) -> tr (try? x <- p; Ret (Ok (f x))) (fun _ t => executes_only key payload t).
Proof. intros T. unfold try. eapply tr_bind; [exact T|]. intros [x|e] t G; cbn [tr]; by rewrite app_nil_r. Qed.

Lemma tr_checked {A : Type} (key : SessionKey.t) (check : RuntimeSnapshot.t -> res BridgeError.t unit) (p : prog (res BridgeError.t A))
    (payload : CommandPayload.t) (P : RuntimeSnapshot.t -> Prop) :
  (forall s, check s = Ok tt -> P s) -> tr p (fun _ t => executes_only key payload t) ->
  tr (try? s <- snapshot_of key; try? _ <- lift (check s); p) (fun _ t => checked_execute key payload P t).
Proof.
  intros C T. unfold snapshot_of, try, lift. cbn [prog_bind act tr obs]. intros [s|e]; cbn [map_err prog_bind tr]; [|intros k q I; drop_seen I].
  destruct (check s) as [[]|e] eqn:E; cbn [prog_bind tr]; [|intros k q I; drop_seen I].
  eapply tr_mono; [|exact T]. intros a t G k q I. drop_seen I.
  destruct (G _ _ I) as [-> ->]. split; [done|]. split; [done|]. exists s. split; [seen|by apply C].
Qed.

(** Only what the snapshot offers is forwarded by the checked methods of the gateway.  Whatever happens in
    between: an update of settings reaches the executor only with values a snapshot of the session seen in this
    run offers for the reasoning effort, unlocked; an answer only for a valid pending question, with options of
    that question, at most one unless it allows several, free text only where allowed and never empty; a
    decision only if it is one of those of a valid pending approval. *)
Theorem checked_commands_forward_offers (h : Oracle) (n : nat) (w : World.t) (key : SessionKey.t) (updates : list SettingUpdate.t)
    (question_id approval_id decision_id : string) (option_ids : list string) (free_text : option OutputText.t) :
  checked_execute key (CommandPayload.UpdateSettings updates) (fun s => Forall (setting_offered s) updates)
    (run h n w (update_settings key updates)).2 /\
  checked_execute key (CommandPayload.AnswerQuestion question_id option_ids free_text)
    (fun s => answer_offered s question_id option_ids free_text)
    (run h n w (gateway_answer_question key question_id option_ids free_text)).2 /\
  checked_execute key (CommandPayload.SubmitApproval approval_id decision_id) (fun s => decision_offered s approval_id decision_id)
    (run h n w (answer_approval key approval_id decision_id)).2.
Proof.
  split_and!.
  - refine (tr_sound _ (fun _ t => checked_execute _ _ _ t) h n w (tr_checked _ _ _ _ _ _ (tr_then_ok _ _ _ _ (tr_submit_new _ _ _)))).
    intros s. apply validate_spec.
  - refine (tr_sound _ (fun _ t => checked_execute _ _ _ t) h n w (tr_checked _ _ _ _ _ _ (tr_submit_new _ _ _))).
    intros s. apply check_question_spec.
  - refine (tr_sound _ (fun _ t => checked_execute _ _ _ t) h n w (tr_checked _ _ _ _ _ _ (tr_submit_new _ _ _))).
    intros s. apply check_approval_spec.
Qed.
End Commands.

(** ** Cleaning up uploads when a turn ends ([commands/upload_lifecycle.rs])

    The cleaner, the clock and the store answer; the programs are the methods of [UploadLifecycle]. *)

(** In seconds. *)
Definition DEFAULT_UPLOAD_TTL : Z := 3600.

Definition finished_reason (outcome : LastTurnOutcome.t) : string :=
  match outcome with
  | LastTurnOutcome.Completed => "turn_completed"
  | LastTurnOutcome.Failed => "turn_failed"
  | LastTurnOutcome.Interrupted => "turn_interrupted"
  | LastTurnOutcome.Unknown => "turn_finished"
  end.

(** [SystemTime], in seconds since the epoch of Unix, no earlier than what the clock can represent. *)
Definition checked_sub (earliest now ttl : Z) : option Z := if earliest <=? now - ttl then Some (now - ttl) else None.

(** The calls of [UploadCleaner], the clock and [record_upload_cleanup]. *)
Inductive uop : Type -> Type :=
| SystemNow : uop Z
| SweepExpired (older_than : Z) : uop (res string (list string))
| RemoveUploadDir (directory : string) : uop (res string unit)
| RecordCleanup (directory reason : string) : uop bool.

Notation uprog := (Prog.prog uop).

Section Lifecycle.
Variable ttl earliest : Z.

Fixpoint record_all (directories : list string) (reason : string) : uprog unit :=
  match directories with
  | [] => Ret tt
  | directory :: directories => perform act (RecordCleanup directory reason); record_all directories reason
  end.

Definition on_turn_finished (reason : string) : uprog (list string) :=
  do now <- act SystemNow;
  do removed <- act (SweepExpired (default 0 (checked_sub earliest now ttl)));
  match removed with
  | Ok removed => perform record_all removed reason; Ret removed
  | Err _ => Ret []
  end.

Definition remove_upload (directory reason : string) : uprog (res string unit) :=
  try? _ <- act (RemoveUploadDir directory);
  perform act (RecordCleanup directory reason);
  Ret (Ok tt).

(** The task of [watch_session]. *)
Fixpoint watch_uploads (events : list DomainEvent.t) : uprog unit :=
  match events with
  | [] => Ret tt
  | DomainEvent.TurnLifecycle _ ActiveTurnPhase.Idle (Some outcome) _ :: events =>
      perform on_turn_finished (finished_reason outcome); watch_uploads events
  | _ :: events => watch_uploads events
  end.
End Lifecycle.

(** ** What is recorded *)

(** A call and its answer. *)
Inductive UObs :=
| Swept (older_than : Z) (removed : res string (list string))
| Recorded (directory reason : string).

Definition uobs (B : Type) (o : uop B) : B -> list UObs :=
  match o in uop B return B -> list UObs with
  | SweepExpired t => fun b => [Swept t b]
  | RecordCleanup directory reason => fun _ => [Recorded directory reason]
  | _ => fun _ => []
  end.

(** The cleaner, the clock and the store may answer anything; the store records [now]. *)
Definition ustep (B : Type) (o : uop B) (s : Z) : option B -> Z -> Prop :=
  match o in uop B return option B -> Z -> Prop with
  | SystemNow => fun b s' => b = Some s /\ s' = s
  | _ => fun b s' => b <> None /\ s' = s
  end.

Notation uexec := (texec (fun s s' => s <= s') ustep uobs).

Lemma record_all_run (directories : list string) (reason : string) (s s' : Z) (t : list UObs) (r : option unit) :
  uexec (record_all directories reason) s t r s' -> r = Some tt /\ t = map (fun d => Recorded d reason) directories.
Proof.
  revert s t. induction directories as [|d directories IH]; intros s t; [by intros (-> & -> & _)|].
  intros (s1 & [b|] & s2 & _ & [N ->] & X); [|done]. destruct X as (t' & X & ->). by destruct (IH _ _ X) as [-> ->].
Qed.

(** One sweep, of what is older than the time to live, and a record of each directory it removed. *)
Lemma on_turn_finished_run (ttl earliest : Z) (reason : string) (s s' : Z) (t : list UObs) (r : option (list string)) :
  earliest <= 0 <= s - ttl -> uexec (on_turn_finished ttl earliest reason) s t r s' ->
  exists now answer, s <= now /\
    t = Swept (now - ttl) answer :: match answer with Ok removed => map (fun d => Recorded d reason) removed | Err _ => [] end /\
    r = Some match answer with Ok removed => removed | Err _ => [] end.
Proof.
  intros Hs (s1 & b & s2 & R1 & [-> ->] & t1 & X & ->). assert (L : s <= s1) by (clear -R1; induction R1; lia).
  cbn [prog_bind] in X. destruct X as (s3 & [b|] & s4 & R3 & [N ->] & X); [|done]. destruct X as (t2 & X & ->).
  unfold checked_sub in *. rewrite (proj2 (Z.leb_le _ _)) in * by lia. exists s1, b. split; [done|]. cbn [uobs app default] in *. unfold id.
  destruct b as [removed|e].
  - cbn [prog_bind] in X. apply texec_bind in X as [[X _]|(t3 & [] & s5 & t4 & X & (-> & -> & ->) & ->)]; apply record_all_run in X as [Er ->]; [done|].
    by rewrite app_nil_r.
  - destruct X as (-> & -> & ->). done.
Qed.
