(* ===== verification/Power.v ===== *)
(** * The power assertion ([power/mod.rs], [commands/power.rs])

    [WakePolicy] keeps at most one [caffeinate] process: [update] is a program over its mutex and the
    process, one supervisor per process runs among it.  [PowerCoordinator] maps the activity of the
    sessions to updates. *)

From S2P Require Import Prelude Prog Domain.

Module PowerSource.
Inductive t := Ac | Battery.
#[global] Instance eq_dec : EqDecision t.
Proof. solve_decision. Defined.
End PowerSource.

Definition CAFFEINATE_PATH : string := "/usr/bin/caffeinate".

Definition should_hold (source : PowerSource.t) (turn_active attention_pending : bool) : bool :=
  match source with
  | PowerSource.Ac => true
  | PowerSource.Battery => turn_active || attention_pending
  end.

Definition caffeinate_args (source : PowerSource.t) : list string :=
  match source with
  | PowerSource.Ac => ["-i"; "-s"]
  | PowerSource.Battery => ["-i"]
  end.

Module WakeError.
Inductive t := Spawn (program error : string).
End WakeError.

(** The handle holds the sender to the supervisor of this number. *)
Module AssertionHandle.
Record t := mk {
  mode : PowerSource.t;
  kill : Z;
}.
End AssertionHandle.

(** A supervisor: waiting for its process or a kill request; asked to kill; past its [select!]; ended. *)
Module Phase.
Inductive t := Waiting | KillRequested | Cleaning | Done.
End Phase.

Module Supervisor.
Record t := mk {
  generation : Z;
  args : list string;
  running : bool;
  phase : Phase.t;
}.
Definition with_running (x : bool) (s : t) : t := mk (generation s) (args s) x (phase s).
Definition with_phase (x : Phase.t) (s : t) : t := mk (generation s) (args s) (running s) x.
End Supervisor.

(** [assertion] and [generation] are the fields of [Inner]; [releasing], [starting]: handles in the hands of a
    task that releases or starts one. *)
Module Power.
Record t := mk {
  assertion : option AssertionHandle.t;
  generation : Z;
  releasing : gset Z;
  starting : gset Z;
  supervisors : gmap Z Supervisor.t;
}.
Definition with_assertion (x : option AssertionHandle.t) (p : t) : t := mk x (generation p) (releasing p) (starting p) (supervisors p).
Definition with_generation (x : Z) (p : t) : t := mk (assertion p) x (releasing p) (starting p) (supervisors p).
Definition with_releasing (x : gset Z) (p : t) : t := mk (assertion p) (generation p) x (starting p) (supervisors p).
Definition with_starting (x : gset Z) (p : t) : t := mk (assertion p) (generation p) (releasing p) x (supervisors p).
Definition with_supervisors (x : gmap Z Supervisor.t) (p : t) : t := mk (assertion p) (generation p) (releasing p) (starting p) x.
Definition default : t := mk None 0 ∅ ∅ ∅.
End Power.

(** ** The supervisors *)

Definition set_supervisor (id : Z) (s : Supervisor.t) (p : Power.t) : Power.t :=
  Power.with_supervisors (<[id := s]> (Power.supervisors p)) p.

(** Somebody holds a sender of the supervisor. *)
Definition has_sender (id : Z) (p : Power.t) : Prop :=
  (exists h, Power.assertion p = Some h /\ AssertionHandle.kill h = id) \/ id ∈ Power.releasing p \/ id ∈ Power.starting p.

(** The last lines of a supervisor. *)
Definition clean (generation : Z) (p : Power.t) : Power.t :=
  if Power.generation p =? generation then Power.with_assertion None p else p.

Inductive supervise : Power.t -> Power.t -> Prop :=
| ChildExits p id s : Power.supervisors p !! id = Some s -> Supervisor.running s = true ->
    supervise p (set_supervisor id (Supervisor.with_running false s) p)
| SeesExit p id s : Power.supervisors p !! id = Some s -> Supervisor.running s = false ->
    Supervisor.phase s = Phase.Waiting \/ Supervisor.phase s = Phase.KillRequested ->
    supervise p (set_supervisor id (Supervisor.with_phase Phase.Cleaning s) p)
| Kills p id s : Power.supervisors p !! id = Some s -> Supervisor.phase s = Phase.KillRequested ->
    supervise p (set_supervisor id (Supervisor.with_phase Phase.Cleaning (Supervisor.with_running false s)) p)
| SenderDropped p id s : Power.supervisors p !! id = Some s -> Supervisor.phase s = Phase.Waiting -> ~ has_sender id p ->
    supervise p (set_supervisor id (Supervisor.with_phase Phase.Cleaning s) p)
| Cleans p id s : Power.supervisors p !! id = Some s -> Supervisor.phase s = Phase.Cleaning ->
    supervise p (clean (Supervisor.generation s) (set_supervisor id (Supervisor.with_phase Phase.Done s) p)).

(** ** The policy *)

Inductive wop : Type -> Type :=
| HeldMode : wop (option PowerSource.t)
| TakeAssertion : wop (option AssertionHandle.t)
| SendKill (id : Z) : wop bool
| AwaitAck (id : Z) : wop unit
| DropHandle (id : Z) : wop unit
| BumpGeneration : wop Z
| SpawnChild (args : list string) (generation : Z) : wop (res string Z)
| SetAssertion (h : AssertionHandle.t) : wop unit.

Notation wprog := (Prog.prog wop).

Definition release : wprog unit :=
  do handle <- act TakeAssertion;
  match handle with
  | None => Ret tt
  | Some h =>
      do sent <- act (SendKill (AssertionHandle.kill h));
      perform (if sent : bool then act (AwaitAck (AssertionHandle.kill h)) else Ret tt);
      act (DropHandle (AssertionHandle.kill h))
  end.

Definition spawn (program : string) (mode : PowerSource.t) : wprog (res WakeError.t unit) :=
  do generation <- act BumpGeneration;
  do child <- act (SpawnChild (caffeinate_args mode) generation);
  match child with
  | Err e => Ret (Err (WakeError.Spawn program e))
  | Ok id => perform act (SetAssertion (AssertionHandle.mk mode id)); Ret (Ok tt)
  end.

Definition update (program : string) (source : PowerSource.t) (turn_active attention_pending : bool) : wprog (res WakeError.t unit) :=
  let desired := should_hold source turn_active attention_pending in
  do held <- act HeldMode;
  match desired, held with
  | true, Some mode =>
      if bool_decide (mode = source) then Ret (Ok tt)
      else perform release; spawn program source
  | true, None => perform release; spawn program source
  | false, Some _ => perform release; Ret (Ok tt)
  | false, None => Ret (Ok tt)
  end.

(** What the operations do; [AwaitAck] may return as soon as the supervisor has left its [select!]. *)
Definition wstep (B : Type) (o : wop B) (p : Power.t) : option B -> Power.t -> Prop :=
  match o in wop B return option B -> Power.t -> Prop with
  | HeldMode => fun b p' => b = Some (AssertionHandle.mode <$> Power.assertion p) /\ p' = p
  | TakeAssertion => fun b p' =>
      b = Some (Power.assertion p) /\
      p' = Power.with_assertion None
             (match Power.assertion p with
              | Some h => Power.with_releasing ({[AssertionHandle.kill h]} ∪ Power.releasing p) p
              | None => p
              end)
  | SendKill id => fun b p' =>
      match Power.supervisors p !! id with
      | Some s =>
          match Supervisor.phase s with
          | Phase.Waiting => b = Some true /\ p' = set_supervisor id (Supervisor.with_phase Phase.KillRequested s) p
          | Phase.Done => b = Some false /\ p' = p
          | _ => b = Some true /\ p' = p
          end
      | None => b = Some false /\ p' = p
      end
  | AwaitAck id => fun b p' => b = Some tt /\ p' = p /\
      forall s, Power.supervisors p !! id = Some s -> Supervisor.phase s = Phase.Cleaning \/ Supervisor.phase s = Phase.Done
  | DropHandle id => fun b p' => b = Some tt /\ p' = Power.with_releasing (Power.releasing p ∖ {[id]}) p
  | BumpGeneration => fun b p' => b = Some (Power.generation p + 1) /\ p' = Power.with_generation (Power.generation p + 1) p
  | SpawnChild args generation => fun b p' =>
      (exists e, b = Some (Err e) /\ p' = p) \/
      (exists id, b = Some (Ok id) /\ Power.supervisors p !! id = None /\
         p' = Power.with_starting ({[id]} ∪ Power.starting p)
                (set_supervisor id (Supervisor.mk generation args true Phase.Waiting) p))
  | SetAssertion h => fun b p' => b = Some tt /\
      p' = Power.with_assertion (Some h) (Power.with_starting (Power.starting p ∖ {[AssertionHandle.kill h]}) p)
  end.

Definition running (p : Power.t) (id : Z) (args : list string) : Prop :=
  exists s, Power.supervisors p !! id = Some s /\ Supervisor.running s = true /\ Supervisor.args s = args.

Notation wexec := (texec supervise wstep (fun _ _ _ => @nil unit)).

(** ** The coordinator ([commands/power.rs]) *)

Module ActivityState.
Record t := mk {
  source : PowerSource.t;
  turn_active : bool;
  attention_pending : bool;
}.
End ActivityState.

Definition coordinator_new (source : PowerSource.t) : ActivityState.t := ActivityState.mk source false false.

(** [LockState f]: a critical section of the activity. *)
Inductive cop : Type -> Type :=
| LockState {A : Type} (f : ActivityState.t -> A * ActivityState.t) : cop A
| OnPolicy {B : Type} (o : wop B) : cop B.

Notation cprog := (Prog.prog cop).

(** The coordinator's lock and the policy. *)
Definition cstep (B : Type) (o : cop B) (s : ActivityState.t * Power.t) : option B -> ActivityState.t * Power.t -> Prop :=
  match o in cop B return option B -> ActivityState.t * Power.t -> Prop with
  | LockState f => fun b s' => b = Some (f s.1).1 /\ s' = ((f s.1).2, s.2)
  | @OnPolicy B o => fun b s' => wstep B o s.2 b s'.2 /\ s'.1 = s.1
  end.

Notation cexec := (texec (fun s s' => s'.1 = s.1 /\ supervise s.2 s'.2) cstep (fun _ _ _ => @nil unit)).

Section Coordinator.
Variable program : string.

Definition sync (desired : ActivityState.t) : cprog (res WakeError.t unit) :=
  prog_map (fun B o => OnPolicy o)
    (update program (ActivityState.source desired) (ActivityState.turn_active desired) (ActivityState.attention_pending desired)).

(** Change the activity and go on with a copy of it. *)
Definition change_activity (f : ActivityState.t -> ActivityState.t) : cprog (res WakeError.t unit) :=
  do desired <- act (LockState (fun st => (f st, f st)));
  sync desired.

Definition set_power_source (source : PowerSource.t) : cprog (res WakeError.t unit) :=
  change_activity (fun st => ActivityState.mk source (ActivityState.turn_active st) (ActivityState.attention_pending st)).

Definition set_turn_active (active : bool) : cprog (res WakeError.t unit) :=
  change_activity (fun st => ActivityState.mk (ActivityState.source st) active (ActivityState.attention_pending st)).

Definition set_attention_pending (pending : bool) : cprog (res WakeError.t unit) :=
  change_activity (fun st => ActivityState.mk (ActivityState.source st) (ActivityState.turn_active st) pending).

Definition apply_if_changed (turn_active attention_pending : bool) : cprog unit :=
  do desired <- act (LockState (fun st =>
    if bool_decide (ActivityState.turn_active st = turn_active) && bool_decide (ActivityState.attention_pending st = attention_pending)
    then (None, st)
    else
      let st := ActivityState.mk (ActivityState.source st) turn_active attention_pending in
      (Some st, st)));
  match desired with
  | None => Ret tt
  | Some desired => perform sync desired; Ret tt
  end.

Definition power_relevant (event : DomainEvent.t) : bool :=
  match event with
  | DomainEvent.TurnLifecycle _ _ _ _ | DomainEvent.PendingAttentionAdded _ | DomainEvent.PendingAttentionRemoved _ _ _ => true
  | _ => false
  end.

Definition turn_active_of (snapshot : RuntimeSnapshot.t) : bool :=
  match RuntimeSnapshot.current_turn snapshot with
  | Some t => bool_decide (CurrentTurn.phase t <> ActiveTurnPhase.Idle)
  | None => false
  end.

Definition attention_pending_of (snapshot : RuntimeSnapshot.t) : bool :=
  bool_decide (RuntimeSnapshot.pending_questions snapshot <> []) || bool_decide (RuntimeSnapshot.pending_approvals snapshot <> []).

(** The task of [watch_session]: each event with the snapshot that is read when it is relevant. *)
Fixpoint watch_power (events : list (DomainEvent.t * option RuntimeSnapshot.t)) : cprog unit :=
  match events with
  | [] => Ret tt
  | (event, snapshot) :: events =>
      perform (match power_relevant event, snapshot with
               | true, Some snapshot => apply_if_changed (turn_active_of snapshot) (attention_pending_of snapshot)
               | _, _ => Ret tt
               end);
      watch_power events
  end.
End Coordinator.
