(* ===== verification/PowerProps.v ===== *)
(** * What the assertion holds

    Updates that do not overlap keep at most one process, the one of the handle; overlapping ones leave
    processes nobody can stop, and a process that ends early leaves a handle without one. *)

From S2P Require Import Prelude Prog Domain Power.

(** ** The invariant *)

Record power_ok (p : Power.t) : Prop := {
  ok_live (id : Z) (s : Supervisor.t) : Power.supervisors p !! id = Some s -> Supervisor.running s = true ->
    has_sender id p /\ (Supervisor.phase s = Phase.Waiting \/ Supervisor.phase s = Phase.KillRequested);
  ok_mode (h : AssertionHandle.t) (s : Supervisor.t) : Power.assertion p = Some h -> Power.supervisors p !! AssertionHandle.kill h = Some s ->
    Supervisor.args s = caffeinate_args (AssertionHandle.mode h) /\ Supervisor.generation s = Power.generation p;
  ok_generations (i j : Z) (s t : Supervisor.t) : Power.supervisors p !! i = Some s -> Power.supervisors p !! j = Some t ->
    Supervisor.generation s = Supervisor.generation t -> i = j;
  ok_bound (i : Z) (s : Supervisor.t) : Power.supervisors p !! i = Some s -> Supervisor.generation s <= Power.generation p;
  ok_known (h : AssertionHandle.t) : Power.assertion p = Some h -> is_Some (Power.supervisors p !! AssertionHandle.kill h);
}.

Definition quiet (p : Power.t) : Prop := Power.releasing p = ∅ /\ Power.starting p = ∅.
Definition dead (id : Z) (p : Power.t) : Prop := forall s, Power.supervisors p !! id = Some s -> Supervisor.running s = false.
Definition unheld (p : Power.t) : Prop := Power.assertion p = None.
Definition generation_free (p : Power.t) : Prop := forall i s, Power.supervisors p !! i = Some s -> Supervisor.generation s < Power.generation p.
Definition started_as (id : Z) (mode : PowerSource.t) (p : Power.t) : Prop :=
  exists s, Power.supervisors p !! id = Some s /\ Supervisor.args s = caffeinate_args mode /\ Supervisor.generation s = Power.generation p.

Lemma lookup_set (i id : Z) (s t : Supervisor.t) (p : Power.t) :
  Power.supervisors (set_supervisor id s p) !! i = Some t -> i = id /\ t = s \/ i <> id /\ Power.supervisors p !! i = Some t.
Proof. simpl. rewrite lookup_insert_Some. naive_solver. Qed.

(** What every step of a supervisor keeps: the parts of a supervisor but [running] and [phase], and the handles;
    a stopped process stays stopped. *)
Lemma supervise_keeps (p p' : Power.t) :
  supervise p p' ->
  Power.generation p' = Power.generation p /\ Power.releasing p' = Power.releasing p /\ Power.starting p' = Power.starting p /\
  (Power.assertion p' = Power.assertion p \/ Power.assertion p' = None) /\
  forall i t, Power.supervisors p' !! i = Some t -> exists s, Power.supervisors p !! i = Some s /\
    Supervisor.generation t = Supervisor.generation s /\ Supervisor.args t = Supervisor.args s /\
    (Supervisor.running t = true -> Supervisor.running s = true).
Proof.
  assert (S : forall p id s s', Power.supervisors p !! id = Some s -> Supervisor.generation s' = Supervisor.generation s ->
    Supervisor.args s' = Supervisor.args s -> (Supervisor.running s' = true -> Supervisor.running s = true) ->
    forall i t, Power.supervisors (set_supervisor id s' p) !! i = Some t -> exists u, Power.supervisors p !! i = Some u /\
      Supervisor.generation t = Supervisor.generation u /\ Supervisor.args t = Supervisor.args u /\
      (Supervisor.running t = true -> Supervisor.running u = true)).
  { intros q id s s' L G A R i t [[-> ->]|[N L']]%lookup_set; [by exists s|by exists t]. }
  intros X. destruct X as [p id s L R|p id s L R Ph|p id s L Ph|p id s L Ph N|p id s L Ph].
  1-4: split_and!; [done..|by left|]; eapply S; done.
  assert (K : Power.supervisors (clean (Supervisor.generation s) (set_supervisor id (Supervisor.with_phase Phase.Done s) p)) =
    Power.supervisors (set_supervisor id (Supervisor.with_phase Phase.Done s) p)) by (unfold clean; by case_match).
  rewrite K. split_and!; [unfold clean; by case_match..|unfold clean; case_match; [by right|by left]|]. by eapply S.
Qed.

Lemma supervise_dead (id : Z) (p p' : Power.t) : supervise p p' -> dead id p -> dead id p'.
Proof.
  intros (_ & _ & _ & _ & K)%supervise_keeps D t L. destruct (K _ _ L) as (s & L' & _ & _ & R).
  destruct (Supervisor.running t); [|done]. specialize (D _ L'). rewrite R in D; done.
Qed.

Lemma supervise_unheld (p p' : Power.t) : supervise p p' -> unheld p -> unheld p'.
Proof. intros (_ & _ & _ & [E|E] & _)%supervise_keeps; unfold unheld; by rewrite E. Qed.

Lemma supervise_free (p p' : Power.t) : supervise p p' -> generation_free p -> generation_free p'.
Proof. intros (G & _ & _ & _ & K)%supervise_keeps F i t L. destruct (K _ _ L) as (s & L' & -> & _). rewrite G. by eapply F. Qed.

Lemma supervise_total (p p' : Power.t) (i : Z) : supervise p p' -> is_Some (Power.supervisors p !! i) -> is_Some (Power.supervisors p' !! i).
Proof.
  intros X [u U]. destruct X as [p id s L R|p id s L R Ph|p id s L Ph|p id s L Ph N|p id s L Ph]; unfold clean; repeat case_match; simpl;
    rewrite lookup_insert; case_decide; eauto.
Qed.

Lemma supervise_started (id : Z) (mode : PowerSource.t) (p p' : Power.t) : supervise p p' -> started_as id mode p -> started_as id mode p'.
Proof.
  intros X (s & L & A & G). destruct (supervise_total _ _ id X (mk_is_Some _ _ L)) as [t L'].
  apply supervise_keeps in X as (G' & _ & _ & _ & K). destruct (K _ _ L') as (u & L2 & Gt & At & _).
  exists t. split_and!; [done|congruence|congruence].
Qed.

Lemma has_sender_set (i id : Z) (s : Supervisor.t) (p : Power.t) : has_sender i (set_supervisor id s p) <-> has_sender i p.
Proof. done. Qed.

Lemma set_ok (p : Power.t) (id : Z) (s s' : Supervisor.t) :
  Power.supervisors p !! id = Some s -> Supervisor.generation s' = Supervisor.generation s -> Supervisor.args s' = Supervisor.args s ->
  (Supervisor.running s' = true -> has_sender id p /\ (Supervisor.phase s' = Phase.Waiting \/ Supervisor.phase s' = Phase.KillRequested)) ->
  power_ok p -> power_ok (set_supervisor id s' p).
Proof.
  intros L G A R [K1 K2 K3 K4 K5]. split.
  - intros i t [[-> ->]|[N L']]%lookup_set Rt; [by apply R|]. by apply (K1 _ _ L').
  - intros h t E [[E' ->]|[N L']]%lookup_set; [|by apply K2]. rewrite A, G. apply K2; [done|]. by rewrite E'.
  - intros i j t u [[-> ->]|[N L1]]%lookup_set [[-> ->]|[N' L2]]%lookup_set E; [done| | |by eapply K3].
    + eapply (K3 id j s u); [done|done|congruence].
    + eapply (K3 i id t s); [done|done|congruence].
  - intros i t [[-> ->]|[N L']]%lookup_set; [rewrite G|]; by eapply K4.
  - intros h E. destruct (K5 h E) as [t T]. simpl. rewrite lookup_insert. case_decide; eauto.
Qed.

Lemma supervise_ok (p p' : Power.t) : supervise p p' -> power_ok p -> power_ok p'.
Proof.
  intros X K. destruct X as [p id s L R|p id s L R Ph|p id s L Ph|p id s L Ph N|p id s L Ph].
  - by eapply set_ok.
  - eapply set_ok; try done. simpl. by rewrite R.
  - by eapply set_ok.
  - eapply set_ok; try done. simpl. intros Rn. by destruct (ok_live _ K _ _ L Rn).
  - assert (D : Supervisor.running s = false).
    { destruct (Supervisor.running s) eqn:Rn; [|done]. destruct (ok_live _ K _ _ L Rn) as [_ [|]]; congruence. }
    set (q := set_supervisor id (Supervisor.with_phase Phase.Done s) p).
    assert (Kq : power_ok q) by (eapply set_ok; try done; simpl; by rewrite D). unfold clean.
    destruct (Power.generation q =? Supervisor.generation s) eqn:E; [|done]. apply Z.eqb_eq in E. destruct Kq as [K1 K2 K3 K4 K5].
    split; simpl; try done.
    intros i t Lt Rt. destruct (K1 _ _ Lt Rt) as [[(h & Eh & Ei)|Hs] Ph']; [|by split; [right|]]. exfalso.
    destruct (K2 h t Eh) as [_ Gt]; [by rewrite Ei|]. assert (Lq : Power.supervisors q !! id = Some (Supervisor.with_phase Phase.Done s)) by apply lookup_insert_eq.
    assert (Ei2 : i = id) by (eapply K3; [exact Lt|exact Lq|]; simpl; congruence). change (Power.supervisors q !! i = Some t) in Lt. rewrite Ei2, Lq in Lt. injection Lt as <-. simpl in Rt. congruence.
Qed.

Lemma rtc_stable (P : Power.t -> Prop) (p p' : Power.t) :
  (forall p p', supervise p p' -> P p -> P p') -> rtc supervise p p' -> P p -> P p'.
Proof. intros S R. induction R; eauto. Qed.

(** ** The steps of an update *)

Notation settled p := (power_ok p /\ quiet p).

Lemma supervise_quiet (p p' : Power.t) : supervise p p' -> quiet p -> quiet p'.
Proof. intros (_ & R & S & _)%supervise_keeps. unfold quiet. by rewrite R, S. Qed.

Lemma supervise_settled (p p' : Power.t) : supervise p p' -> settled p -> settled p'.
Proof. intros X [K Q]. split; [by eapply supervise_ok|by eapply supervise_quiet]. Qed.

(** Without a handle nothing runs. *)
Lemma unheld_stopped (p : Power.t) (id : Z) (args : list string) : settled p -> unheld p -> ~ running p id args.
Proof.
  intros [K [Q1 Q2]] U (s & L & R & _). destruct (ok_live _ K _ _ L R) as [[(h & E & _)|[I|I]] _]; [unfold unheld in U; congruence| |];
    [rewrite Q1 in I|rewrite Q2 in I]; by apply elem_of_empty in I.
Qed.

Definition releasing_only (id : Z) (p : Power.t) : Prop := power_ok p /\ unheld p /\ Power.releasing p = {[id]} /\ Power.starting p = ∅.

Lemma supervise_releasing (id : Z) (p p' : Power.t) : supervise p p' -> releasing_only id p -> releasing_only id p'.
Proof.
  intros X (K & U & R & S). pose proof (supervise_keeps _ _ X) as (_ & R' & S' & _).
  split; [by eapply supervise_ok|]. split; [by eapply supervise_unheld|]. by rewrite R', S'.
Qed.

Lemma drop_ok (id : Z) (p : Power.t) :
  releasing_only id p -> dead id p -> settled (Power.with_releasing (Power.releasing p ∖ {[id]}) p) /\ unheld (Power.with_releasing (Power.releasing p ∖ {[id]}) p).
Proof.
  intros ([K1 K2 K3 K4 K5] & U & R & S) D. split; [|done]. split; [split; simpl; try done|].
  - intros i s L Rn. destruct (K1 _ _ L Rn) as [[H|[H|H]] Ph]; (split; [|done]); [by left| |by right; right].
    simpl in *. rewrite R in H. apply elem_of_singleton in H as ->. rewrite (D _ L) in Rn. done.
  - split; simpl; [|done]. rewrite R. set_solver.
Qed.

Lemma release_run (p p' : Power.t) (t : list unit) (r : option unit) : settled p -> wexec release p t r p' -> settled p' /\ unheld p'.
Proof.
  intros K (p1 & b & p2 & R1 & [-> ->] & t1 & X & ->). pose proof (rtc_stable (fun p => settled p) _ _ supervise_settled R1 K) as [K1 [Q1 Q2]].
  cbn [prog_bind] in X. destruct (Power.assertion p1) as [h|] eqn:A.
  2:{ destruct X as (-> & -> & ->). assert (E : Power.with_assertion None p1 = p1) by (unfold Power.with_assertion; rewrite <- A; by destruct p1). rewrite E.
      by split. }
  set (id := AssertionHandle.kill h) in *. set (p2 := Power.with_assertion _ _) in *.
  assert (K2 : releasing_only id p2).
  { split; [|by split; [|split; [simpl; rewrite Q1; set_solver|]]]. destruct K1 as [L1 L2 L3 L4 L5]. split; simpl; try done.
    intros i s L Rn. destruct (L1 _ _ L Rn) as [[(h' & E & <-)|[I|I]] Ph]; (split; [|done]); right; left; simpl; apply elem_of_union.
    - left. apply elem_of_singleton. unfold id. congruence.
    - by right.
    - rewrite Q2 in I. by apply elem_of_empty in I. }
  destruct X as (p3 & b & p4 & R3 & S3 & X). apply (rtc_stable (releasing_only id) _ _ (supervise_releasing id) R3) in K2 as K3.
  assert (K4 : releasing_only id p4 /\ ((b = Some false /\ dead id p4) \/ b = Some true)).
  { simpl in S3. destruct (Power.supervisors p3 !! id) as [s|] eqn:L.
    - destruct (Supervisor.phase s) eqn:Ph; destruct S3 as [-> ->].
      + split; [|by right]. destruct K3 as (O3 & U3 & R3' & S3). split; [|by split]. eapply set_ok; try done. simpl.
        intros Rn. split; [by destruct (ok_live _ O3 _ _ L Rn)|by right].
      + split; [done|by right].
      + split; [done|by right].
      + split; [done|]. left. split; [done|]. intros s' L'. replace s' with s by congruence.
        destruct (Supervisor.running s) eqn:Rn; [|done]. destruct K3 as (O3 & _). destruct (ok_live _ O3 _ _ L Rn) as [_ [|]]; congruence.
    - destruct S3 as [-> ->]. split; [done|]. left. split; [done|]. intros s' L'. congruence. }
  destruct K4 as [K4 [[-> D4]| ->]]; destruct X as (t2 & X & ->); cbn [prog_bind] in X.
  - destruct X as (p5 & b & p6 & R5 & [-> ->] & t3 & (-> & -> & ->) & ->).
    pose proof (rtc_stable (releasing_only id) _ _ (supervise_releasing id) R5 K4) as K5.
    pose proof (rtc_stable (dead id) _ _ (supervise_dead id) R5 D4) as D5. by apply drop_ok.
  - destruct X as (p5 & b & p6 & R5 & (-> & -> & A5) & t3 & X & ->). cbn [prog_bind] in X.
    pose proof (rtc_stable (releasing_only id) _ _ (supervise_releasing id) R5 K4) as K5.
    assert (D5 : dead id p5).
    { intros s L. destruct (Supervisor.running s) eqn:Rn; [|done]. destruct K5 as (O5 & _).
      destruct (ok_live _ O5 _ _ L Rn) as [_ [|]], (A5 _ L); congruence. }
    destruct X as (p7 & b & p8 & R7 & [-> ->] & t4 & (-> & -> & ->) & ->).
    pose proof (rtc_stable (releasing_only id) _ _ (supervise_releasing id) R7 K5) as K7.
    pose proof (rtc_stable (dead id) _ _ (supervise_dead id) R7 D5) as D7. by apply drop_ok.
Qed.

(** A process being started: nothing else runs and its handle is still with the task. *)
Definition starting_only (id : Z) (mode : PowerSource.t) (p : Power.t) : Prop :=
  power_ok p /\ unheld p /\ Power.releasing p = ∅ /\ Power.starting p = {[id]} /\ started_as id mode p.

Lemma supervise_starting (id : Z) (mode : PowerSource.t) (p p' : Power.t) : supervise p p' -> starting_only id mode p -> starting_only id mode p'.
Proof.
  intros X (K & U & R & S & A). pose proof (supervise_keeps _ _ X) as (_ & R' & S' & _).
  split_and!; [by eapply supervise_ok|by eapply supervise_unheld|by rewrite R'|by rewrite S'|by eapply supervise_started].
Qed.

Lemma set_assertion_ok (id : Z) (mode : PowerSource.t) (p : Power.t) :
  starting_only id mode p ->
  settled (Power.with_assertion (Some (AssertionHandle.mk mode id)) (Power.with_starting (Power.starting p ∖ {[id]}) p)).
Proof.
  intros ([K1 K2 K3 K4 K5] & U & R & S & (s0 & L0 & A0 & G0)). split; [split; simpl; try done|].
  - intros i s L Rn. destruct (K1 _ _ L Rn) as [[(h & E & _)|[H|H]] Ph]; (split; [|done]).
    + unfold unheld in U. congruence.
    + rewrite R in H. by apply elem_of_empty in H.
    + rewrite S in H. apply elem_of_singleton in H as ->. left. by eexists.
  - intros h s [= <-] L. simpl in *. replace s with s0 by congruence. done.
  - intros h [= <-]. by exists s0.
  - split; simpl; [done|]. rewrite S. set_solver.
Qed.

(** At most one process runs, with the arguments of the mode held. *)
Definition holds_only (mode : PowerSource.t) (p : Power.t) : Prop :=
  (forall id args, running p id args -> args = caffeinate_args mode) /\
  (forall i j a b, running p i a -> running p j b -> i = j).

Lemma settled_running (p : Power.t) (id : Z) (args : list string) :
  settled p -> running p id args -> exists mode, Power.assertion p = Some (AssertionHandle.mk mode id) /\ args = caffeinate_args mode.
Proof.
  intros [K [Q1 Q2]] (s & L & R & <-). destruct (ok_live _ K _ _ L R) as [[([mode k] & E & Ek)|[I|I]] _].
  - simpl in Ek. subst k. exists mode. split; [done|]. by destruct (ok_mode _ K _ _ E L).
  - rewrite Q1 in I. by apply elem_of_empty in I.
  - rewrite Q2 in I. by apply elem_of_empty in I.
Qed.

Lemma settled_holds (p : Power.t) (mode : PowerSource.t) :
  settled p -> (forall m id, Power.assertion p = Some (AssertionHandle.mk m id) -> m = mode) -> holds_only mode p.
Proof.
  intros K M. split.
  - intros id args (m & E & ->)%settled_running; [|done]. by rewrite (M _ _ E).
  - intros i j a b (m & E & _)%settled_running (m' & E' & _)%settled_running; [congruence|done..].
Qed.

Definition mode_is (mode : PowerSource.t) (p : Power.t) : Prop := forall m id, Power.assertion p = Some (AssertionHandle.mk m id) -> m = mode.

Lemma supervise_mode (mode : PowerSource.t) (p p' : Power.t) : supervise p p' -> mode_is mode p -> mode_is mode p'.
Proof. intros (_ & _ & _ & [E|E] & _)%supervise_keeps; unfold mode_is; by rewrite E. Qed.

Lemma spawn_run (program : string) (mode : PowerSource.t) (p p' : Power.t) (t : list unit) (r : res WakeError.t unit) :
  settled p -> unheld p -> wexec (spawn program mode) p t (Some r) p' ->
  settled p' /\ match r with Ok _ => mode_is mode p' | Err _ => unheld p' end.
Proof.
  intros K U (p1 & b & p2 & R1 & [-> ->] & t1 & X & ->). cbn [prog_bind] in X.
  pose proof (rtc_stable (fun p => settled p) _ _ supervise_settled R1 K) as [[K1 K2 K3 K4 K5] [Q1 Q2]].
  pose proof (rtc_stable _ _ _ supervise_unheld R1 U) as U1.
  set (p2 := Power.with_generation _ p1) in *.
  assert (K2' : settled p2 /\ unheld p2 /\ generation_free p2 /\ Power.generation p2 = Power.generation p1 + 1).
  { split; [split; [split; simpl; try done|done]|split; [done|split; [|done]]].
    - intros h s E. unfold unheld in U1. simpl in U1. congruence.
    - intros i s L. specialize (K4 _ _ L). lia.
    - intros i s L. specialize (K4 _ _ L). simpl. lia. }
  destruct X as (p3 & b & p4 & R3 & S3 & X).
  assert (K3' : settled p3 /\ unheld p3 /\ generation_free p3 /\ Power.generation p3 = Power.generation p1 + 1).
  { revert K2'. apply (rtc_stable (fun p => settled p /\ unheld p /\ generation_free p /\ Power.generation p = Power.generation p1 + 1)); [|exact R3].
    intros q q' Y (A & B & C & D). pose proof (supervise_settled _ _ Y A). pose proof (supervise_unheld _ _ Y B).
    pose proof (supervise_free _ _ Y C). apply supervise_keeps in Y as (-> & _). done. }
  destruct K3' as ([[L1 L2 L3 L4 L5] [P1 P2]] & U3 & F3 & G3). destruct S3 as [(e & -> & ->)|(id & -> & N & ->)].
  - destruct X as (t2 & (-> & [= ->] & ->) & ->). split; [by split|done].
  - destruct X as (t2 & X & ->). cbn [prog_bind] in X. destruct X as (p5 & b & p6 & R5 & [-> ->] & t3 & (-> & [= ->] & ->) & ->).
    set (p4 := Power.with_starting _ _) in *.
    assert (K4' : starting_only id mode p4).
    { split_and!; [split|done|done|simpl; rewrite P2; set_solver|].
      - intros i s [[-> ->]|[Ni L]]%lookup_set Rn; [split; [|by left]; right; right; simpl; set_solver|].
        destruct (L1 _ _ L Rn) as [[H|[H|H]] Ph]; (split; [|done]); [by left|by right; left|]. rewrite P2 in H. by apply elem_of_empty in H.
      - intros h s E. unfold unheld in U3. simpl in *. congruence.
      - intros i j s u [[-> ->]|[Ni Li]]%lookup_set [[-> ->]|[Nj Lj]]%lookup_set E; [done| | |by eapply L3]; simpl in E.
        + specialize (F3 _ _ Lj). lia.
        + specialize (F3 _ _ Li). lia.
      - intros i s [[-> ->]|[Ni L]]%lookup_set; simpl; [lia|by eapply L4].
      - intros h E. unfold unheld in U3. simpl in *. congruence.
      - eexists. split; [apply lookup_insert_eq|]. simpl. split; [done|lia]. }
    pose proof (rtc_stable (starting_only id mode) _ _ (supervise_starting id mode) R5 K4') as K5'. split; [by apply set_assertion_ok|].
    by intros m i [= <- _].
Qed.

Lemma update_run (program : string) (source : PowerSource.t) (turn_active attention_pending : bool) (p p' : Power.t) (t : list unit)
    (r : res WakeError.t unit) :
  power_ok p -> quiet p -> wexec (update program source turn_active attention_pending) p t (Some r) p' ->
  (power_ok p' /\ quiet p') /\
  match r with
  | Ok _ => if should_hold source turn_active attention_pending then holds_only source p' else forall id args, ~ running p' id args
  | Err _ => forall id args, ~ running p' id args
  end.
Proof.
  intros K0 Q0 X. assert (K : settled p) by done. clear K0 Q0.
  destruct X as (p1 & b & p2 & R1 & [-> ->] & t1 & X & ->). pose proof (rtc_stable (fun p => settled p) _ _ supervise_settled R1 K) as K1.
  cbn [prog_bind] in X.
  assert (Start : forall t, wexec (perform release; spawn program source) p1 t (Some r) p' -> settled p' /\
    match r with Ok _ => holds_only source p' | Err _ => forall id args, ~ running p' id args end).
  { intros t Y. apply texec_bind in Y as [[_ E]|(t2 & u & p2 & t3 & Y1 & Y & ->)]; [done|]. apply release_run in Y1 as [K2 U2]; [|done].
    apply spawn_run in Y as [K3 M]; [|done..]. split; [done|]. destruct r; [by apply settled_holds|]. intros id args. exact (unheld_stopped _ _ _ K3 M). }
  destruct (should_hold source turn_active attention_pending).
  - destruct (Power.assertion p1) as [[mode id]|] eqn:A; cbv beta iota delta [fmap option_fmap option_map AssertionHandle.mode] in X; [case_bool_decide as E; [|by eapply Start]|by eapply Start].
    destruct X as (-> & [= ->] & ->). split; [done|]. apply settled_holds; [done|]. intros m i E'. congruence.
  - destruct (Power.assertion p1) as [[mode id]|] eqn:A; cbv beta iota delta [fmap option_fmap option_map AssertionHandle.mode] in X.
    + apply texec_bind in X as [[_ E]|(t2 & u & p2 & t3 & Y1 & (-> & [= ->] & ->) & ->)]; [done|]. apply release_run in Y1 as [K2 U2]; [|done].
      split; [done|]. intros i args. exact (unheld_stopped _ _ _ K2 U2).
    + destruct X as (-> & [= ->] & ->). split; [done|]. intros i args. exact (unheld_stopped _ _ _ K1 A).
Qed.

(** Updates that do not overlap hold exactly what is wanted.  From a state with at most the process of the
    handle, whatever the supervisors and processes do meanwhile, an update ends in such a state again: when
    nothing is to be held no process runs, when something is to be held at most one does, with the arguments
    for the power source; when the program cannot be started nothing runs. *)
Theorem update_holds (program : string) (source : PowerSource.t) (turn_active attention_pending : bool) (p p' : Power.t) (t : list unit)
    (r : res WakeError.t unit) :
  power_ok p -> quiet p -> wexec (update program source turn_active attention_pending) p t (Some r) p' ->
  (power_ok p' /\ quiet p') /\
  match r with
  | Ok _ => if should_hold source turn_active attention_pending then holds_only source p' else forall id args, ~ running p' id args
  | Err _ => forall id args, ~ running p' id args
  end.
Proof. apply update_run. Qed.

Lemma default_ok : power_ok Power.default /\ quiet Power.default.
Proof. split; [split; simpl; intros; try simplify_map_eq; done|done]. Qed.

Lemma update_holds_witness : exists p', (power_ok p' /\ quiet p') /\ holds_only PowerSource.Ac p' /\ running p' 1 ["-i"; "-s"].
Proof.
  destruct default_ok as [K Q].
  assert (X : exists t p', wexec (update CAFFEINATE_PATH PowerSource.Ac true false) Power.default t (Some (Ok tt)) p' /\ running p' 1 ["-i"; "-s"]).
  { exists [], (Power.with_assertion (Some (AssertionHandle.mk PowerSource.Ac 1)) (Power.mk None 1 ∅ ({[1]} ∖ {[1]})
      {[1 := Supervisor.mk 1 ["-i"; "-s"] true Phase.Waiting]})). split; [|by eexists].
    eexists _, _, _. split_and!; [done..|]. exists []. split; [|done].
    eexists _, _, _. split_and!; [done..|]. exists []. split; [|done].
    eexists _, _, _. split_and!; [done..|]. exists []. split; [|done].
    eexists _, (Some (Ok 1)), _. split_and!; [done|right; exists 1; done|]. exists []. split; [|done].
    eexists _, _, _. split_and!; [done..|]. exists []. split; done. }
  destruct X as (t & p' & X & R). exists p'. destruct (update_holds _ _ _ _ _ _ _ _ K Q X) as [S H]. exact (conj S (conj H R)).
Defined.

(** ** The sessions share one activity *)

Lemma env_settled (s s' : ActivityState.t * Power.t) :
  rtc (fun s s' => s'.1 = s.1 /\ supervise s.2 s'.2) s s' -> settled s.2 -> s'.1 = s.1 /\ settled s'.2.
Proof.
  induction 1 as [|s s2 s3 [E S] R IH]; intros K; [done|]. destruct IH as [E' K']; [by eapply supervise_settled|]. split; [congruence|done].
Qed.

(** Whatever the other sessions do: when the watcher of one session reads a snapshot without turn and attention, on battery,
    nothing runs afterwards. *)
Lemma idle_session_releases (program : string) (event : DomainEvent.t) (snapshot : RuntimeSnapshot.t) (st st' : ActivityState.t)
    (p p' : Power.t) (t : list unit) :
  power_ok p -> quiet p -> power_relevant event = true -> turn_active_of snapshot = false -> attention_pending_of snapshot = false ->
  ActivityState.source st = PowerSource.Battery -> ActivityState.turn_active st = true ->
  cexec (watch_power program [(event, Some snapshot)]) (st, p) t (Some tt) (st', p') ->
  ActivityState.turn_active st' = false /\ forall id args, ~ running p' id args.
Proof.
  intros K Q E1 E2 E3 E4 E5 X. cbn [watch_power] in X. rewrite E1, E2, E3 in X.
  apply texec_bind in X as [[_ ?]|(t1 & u & s1 & t2 & X & (-> & _ & Es) & _)]; [done|]. subst s1.
  destruct X as ([st1 p1] & b & [st2 p2] & R & [-> S2] & t3 & X & _). simpl in S2. injection S2 as -> ->.
  destruct (env_settled _ _ R (conj K Q)) as [E K1]. simpl in E, K1. subst st1.
  rewrite !(bool_decide_eq_false_2 (ActivityState.turn_active st = false)) in X by (by rewrite E5). cbn [andb prog_bind fst snd] in X. rewrite E4 in X.
  apply texec_bind in X as [[_ ?]|(t1' & u' & [st2 p2] & t2' & X & (-> & _ & Es) & _)]; [done|]. injection Es as -> ->. split.
  - assert (A : prog_all (fun B (o : cop B) => match o with OnPolicy _ => True | _ => False end)
      (sync program (ActivityState.mk PowerSource.Battery false false))) by (by apply prog_all_map).
    eapply (texec_stable_all _ _ _ _ (fun s => ActivityState.turn_active s.1 = false)) in X; try exact A; try done.
    + intros s s' [-> _]. done.
    + intros B [C f|C o] s b s' Ho; [done|]. intros [_ ->]. done.
  - destruct (texec_map (fun B o => OnPolicy o) (fun s : ActivityState.t * Power.t => Some s.2) (fun x : unit => x) supervise wstep (fun _ _ _ => [])
      (fun s s' => s'.1 = s.1 /\ supervise s.2 s'.2) cstep (fun _ _ _ => []) _ _ _ _ _ _
      ltac:(intros w w' s [_ S] [= <-]; eexists; split; [done|by apply rtc_once]) ltac:(intros B o w b w' s [S _] [= <-]; by eexists)
      ltac:(done) X eq_refl) as (q & tq & [= <-] & X' & _).
    destruct K1 as [K1 Q1]. destruct u' as [[]|e]; by destruct (update_run program PowerSource.Battery false false _ _ _ _ K1 Q1 X') as [_ H].
Qed.

(** ** Updates that overlap *)

(** Two programs on two tasks, among the supervisors. *)
Inductive both {A C : Type} : wprog A -> wprog C -> Power.t -> Power.t -> Prop :=
| BothDone a c p : both (Ret a) (Ret c) p p
| StepLeft B (o : wop B) k q s b s1 s2 : wstep B o s (Some b) s1 -> both (k b) q s1 s2 -> both (Act o k) q s s2
| StepRight B (o : wop B) p k s b s1 s2 : wstep B o s (Some b) s1 -> both p (k b) s1 s2 -> both p (Act o k) s s2
| StepSupervisor p q s s1 s2 : supervise s s1 -> both p q s1 s2 -> both p q s s2.

(** Two updates that both find nothing held both start a process; the handle of the first is overwritten, its
    supervisor ends without stopping the process, and nothing can stop it any more. *)
Lemma overlapping_updates_leak : exists p,
  both (update CAFFEINATE_PATH PowerSource.Ac true false) (update CAFFEINATE_PATH PowerSource.Ac false true) Power.default p /\
  running p 1 ["-i"; "-s"] /\ running p 2 ["-i"; "-s"] /\ ~ has_sender 1 p /\
  (exists s, Power.supervisors p !! 1 = Some s /\ Supervisor.phase s = Phase.Cleaning).
Proof.
  eexists. split.
  - eapply StepLeft; [split; reflexivity|]. eapply StepRight; [split; reflexivity|].
    eapply StepLeft; [split; reflexivity|]. eapply StepRight; [split; reflexivity|].
    eapply StepLeft; [split; reflexivity|]. eapply StepLeft; [right; exists 1; split_and!; reflexivity|].
    eapply StepLeft; [split; reflexivity|].
    eapply StepRight; [split; reflexivity|]. eapply StepRight; [right; exists 2; split_and!; reflexivity|].
    eapply StepRight; [split; reflexivity|].
    eapply StepSupervisor; [eapply (SenderDropped _ 1); [reflexivity|reflexivity|]|apply BothDone].
    intros [(h & [= <-] & E)|[E|E]]; [done|set_solver|]. simpl in E. set_solver.
  - split_and!.
    + eexists. split_and!; reflexivity.
    + eexists. split_and!; reflexivity.
    + intros [(h & [= <-] & E)|[E|E]]; [done|set_solver|]. simpl in E. set_solver.
    + eexists. split; reflexivity.
Qed.
