(* ===== verification/Observer.v ===== *)
(** * When a session is observed ([runtime/observe.rs])

    The policy and the scheduler of the observation task.  Durations and instants are milliseconds; the clock
    is an argument. *)

From S2P Require Import Prelude.

Definition DETAIL_RUNNING_OBSERVE_INTERVAL : Z := 500.
Definition LIGHT_STATE_CHECK_INTERVAL : Z := 2000.
Definition IDLE_SUMMARY_INTERVAL : Z := 30000.
Definition NO_SUBSCRIPTION_INTERVAL : option Z := None.
Definition BATTERY_SLOWDOWN : Z := 2.
Definition ACTIVE_TASK_PRESSURE_THRESHOLD : Z := 3.
Definition PRESSURE_SLOWDOWN : Z := 2.
Definition MAX_SLOWDOWN : Z := 4.
Definition OBSERVE_TICK : Z := 200.

Module SessionObserveState.
Record t := mk {
  has_detail_subscription : bool;
  has_list_subscription : bool;
  turn_active : bool;
}.
End SessionObserveState.

Module ObservePressure.
Record t := mk {
  battery_powered : bool;
  active_tasks : Z;
}.
End ObservePressure.

(** [u32::saturating_mul]. *)
Definition saturating_mul (a b : Z) : Z := Z.min (a * b) u32_max.

Definition slowdown (pressure : ObservePressure.t) : Z :=
  let factor := 1 in
  let factor := if ObservePressure.battery_powered pressure then saturating_mul factor BATTERY_SLOWDOWN else factor in
  let factor := if ACTIVE_TASK_PRESSURE_THRESHOLD <=? ObservePressure.active_tasks pressure then saturating_mul factor PRESSURE_SLOWDOWN else factor in
  Z.min factor MAX_SLOWDOWN.

Definition next_interval (state : SessionObserveState.t) (pressure : ObservePressure.t) : option Z :=
  let slowed base := Some (base * slowdown pressure) in
  if SessionObserveState.turn_active state then
    if SessionObserveState.has_detail_subscription state then slowed DETAIL_RUNNING_OBSERVE_INTERVAL
    else slowed LIGHT_STATE_CHECK_INTERVAL
  else if SessionObserveState.has_list_subscription state then slowed IDLE_SUMMARY_INTERVAL
  else NO_SUBSCRIPTION_INTERVAL.

(** ** The scheduler

    [None]: the policy is off, the session is kept but no longer due. *)
Module ObserveScheduler.
Record t := mk {
  due : gmap string (option Z);
}.

Definition new : t := mk ∅.

Definition register (now : Z) (native_session_id : string) (s : t) : t := mk (<[native_session_id := Some now]> (due s)).

Definition known (native_session_id : string) (s : t) : bool := bool_decide (is_Some (due s !! native_session_id)).

Definition is_due (now : Z) (deadline : option Z) : bool :=
  match deadline with Some at_ => at_ <=? now | None => false end.

Definition reschedule (state_of : string -> option SessionObserveState.t) (pressure : ObservePressure.t) (now : Z) (session : string)
    (deadline : option Z) : option Z :=
  if is_due now deadline
  then (fun interval => now + interval) <$> (state_of session ≫= fun s => next_interval s pressure)
  else deadline.

Definition take_due (state_of : string -> option SessionObserveState.t) (pressure : ObservePressure.t) (now : Z) (s : t) : list string * t :=
  (omap (fun '(session, deadline) => if is_due now deadline then Some session else None) (map_to_list (due s)),
   mk (map_imap (fun session deadline => Some (reschedule state_of pressure now session deadline)) (due s))).
End ObserveScheduler.

(** One round of the observation task: unknown sessions are registered, then the due ones are taken. *)
Definition observer_round (known_session_ids : list string) (state_of : string -> option SessionObserveState.t) (pressure : ObservePressure.t)
    (now : Z) (s : ObserveScheduler.t) : list string * ObserveScheduler.t :=
  let s := foldl (fun s session => if ObserveScheduler.known session s then s else ObserveScheduler.register now session s) s known_session_ids in
  ObserveScheduler.take_due state_of pressure now s.

(** ** What the policy promises *)

Lemma slowdown_range (pressure : ObservePressure.t) : slowdown pressure ∈ [1; 2; 4].
Proof. unfold slowdown. destruct (ObservePressure.battery_powered pressure), (_ <=? _); vm_compute; set_solver. Qed.

(** The interval of the observation.  A session with an active turn is observed after half a second when its
    details are subscribed and after two seconds otherwise, an idle one after thirty seconds when the list is
    subscribed and else not at all; battery and load make the interval at most four times as long. *)
Theorem interval_policy (state : SessionObserveState.t) (pressure : ObservePressure.t) :
  match next_interval state pressure with
  | None => SessionObserveState.turn_active state = false /\ SessionObserveState.has_list_subscription state = false
  | Some interval =>
      exists base, base <= interval <= 4 * base /\ (interval = base <-> slowdown pressure = 1) /\
        base = if SessionObserveState.turn_active state
               then if SessionObserveState.has_detail_subscription state then 500 else 2000
               else 30000
  end.
Proof.
  assert (K : 1 <= slowdown pressure <= 4).
  { pose proof (slowdown_range pressure) as K. rewrite !elem_of_cons in K. destruct K as [->|[->|[->|K]]]; [lia..|by apply elem_of_nil in K]. }
  unfold next_interval. destruct (SessionObserveState.turn_active state); [destruct (SessionObserveState.has_detail_subscription state)|
    destruct (SessionObserveState.has_list_subscription state)]; [..|done]; eexists; (split; [|split; [|reflexivity]]);
    unfold DETAIL_RUNNING_OBSERVE_INTERVAL, LIGHT_STATE_CHECK_INTERVAL, IDLE_SUMMARY_INTERVAL; lia.
Qed.

Section Scheduler.
Import ObserveScheduler.

(** Exactly the sessions whose time has come are taken, and each is planned anew. *)
Lemma take_due_spec (state_of : string -> option SessionObserveState.t) (pressure : ObservePressure.t) (now : Z) (s : ObserveScheduler.t)
    (session : string) :
  (session ∈ (take_due state_of pressure now s).1 <-> exists at_, due s !! session = Some (Some at_) /\ at_ <= now) /\
  due (take_due state_of pressure now s).2 !! session = reschedule state_of pressure now session <$> due s !! session.
Proof.
  unfold take_due. simpl. split.
  - rewrite list_elem_of_omap. split.
    + intros ([k d] & I%elem_of_map_to_list & E). destruct d as [at_|]; [|done]. simpl in E. destruct (Z.leb_spec at_ now); [|done].
      injection E as <-. eauto.
    + intros (at_ & L & Hn). exists (session, Some at_). split; [by apply elem_of_map_to_list|]. simpl. by rewrite (proj2 (Z.leb_le _ _) Hn).
  - rewrite map_lookup_imap. by destruct (due s !! session).
Qed.

Lemma register_known (now : Z) (ids : list string) (s : ObserveScheduler.t) (session : string) (d : option Z) :
  due s !! session = Some d ->
  due (foldl (fun s session => if known session s then s else register now session s) s ids) !! session = Some d.
Proof.
  revert s. induction ids as [|id ids IH]; intros s L; [done|]. simpl. apply IH. unfold known. case_bool_decide as K; [done|].
  simpl. rewrite lookup_insert_ne; [done|]. intros ->. apply K. by eexists.
Qed.

(** A session that was due once while its policy was off is never taken again, whatever it does. *)
Lemma parked_forever (rounds : list (list string * (string -> option SessionObserveState.t) * ObservePressure.t * Z)) (s : ObserveScheduler.t)
    (session : string) :
  due s !! session = Some None ->
  foldl (fun '(taken, s) '(ids, state_of, pressure, now) =>
    let '(t, s) := observer_round ids state_of pressure now s in (taken || bool_decide (session ∈ t), s)) (false, s) rounds =
  (false, (foldl (fun '(taken, s) '(ids, state_of, pressure, now) =>
    let '(t, s) := observer_round ids state_of pressure now s in (taken || bool_decide (session ∈ t), s)) (false, s) rounds).2).
Proof.
  revert s. induction rounds as [|[[[ids state_of] pressure] now] rounds IH]; intros s L; [done|]. cbn [foldl]. unfold observer_round.
  set (s1 := foldl _ s ids). assert (L1 : due s1 !! session = Some None) by (by apply register_known).
  destruct (take_due_spec state_of pressure now s1 session) as [I D]. destruct (take_due state_of pressure now s1) as [t s2] eqn:T. cbn [fst snd orb] in *.
  rewrite bool_decide_eq_false_2; [|intros (at_ & E & _)%I; congruence]. apply IH. by rewrite D, L1.
Qed.

(** This happens to a session that is idle without list subscription when it is first observed. *)
Lemma idle_session_parked (pressure : ObservePressure.t) (now : Z) (session : string) (state : SessionObserveState.t) :
  SessionObserveState.turn_active state = false -> SessionObserveState.has_list_subscription state = false ->
  due (observer_round [session] (fun _ => Some state) pressure now new).2 !! session = Some None.
Proof.
  intros E1 E2. unfold observer_round. cbn [foldl]. unfold known. rewrite bool_decide_eq_false_2; [|intros [? [=]]]. destruct (take_due_spec (fun _ => Some state) pressure now (register now session new) session) as [_ D].
  rewrite D. cbn [due register]. rewrite lookup_insert_eq. simpl. unfold reschedule, is_due. rewrite Z.leb_refl. cbn [fmap option_fmap option_map mbind option_bind]. unfold next_interval. by rewrite E1, E2.
Qed.
End Scheduler.
