(* ===== verification/Runtime.v ===== *)
(** * The runtime of the Bridge: outgoing streams ([runtime/mod.rs])

    The streams, the caches of sessions and outputs, and the handlers that subscribe, resynchronise, pump
    events and observe.  A handler is a program: one operation per lock, per envelope that is handed to the
    sink outside a lock, and per call of another component, whose answer is arbitrary.  Instants are
    milliseconds; the message id, the time and the device of an envelope are left out. *)

From S2P Require Import Prelude Prog RustStr Domain Proto Concurrent ProtoMapping Adapter Observer.

Definition OUTPUT_PAGE_MAX : Z := 256 * 1024.
Definition OUTPUT_BUFFER_MAX : Z := 8 * 1024 * 1024.

(** ** Messages *)

Module ProtocolError.
Record t := mk {
  error_code : Z;
  message : string;
}.
End ProtocolError.

Inductive Target :=
| ListTarget
| SessionTarget (key : pb.SessionKey.t).

(** [envelope::Payload]; what the Bridge neither reads nor writes is [Other]. *)
Module Payload.
Inductive t :=
| CapabilitySnapshot (caps : pb.CapabilitySnapshot.t)
| Subscribe (target : option Target)
| Subscribed (stream_id : string) (stream_epoch base_sequence : Z)
| Unsubscribe (stream_id : string)
| SessionSummaryBatch (batch : pb.SessionSummaryBatch.t)
| RuntimeSnapshot (snapshot : pb.RuntimeSnapshot.t)
| EventBatch (batch : pb.EventBatch.t)
| ResyncRequired (stream_id : string)
| ResyncRequest (stream_id : string)
| QueryRequest (query : pb.QueryRequest.t)
| QueryResponse (response : pb.QueryResponse.t)
| CommandRequest (request : pb.CommandRequest.t)
| CommandAccepted (accepted : pb.CommandAccepted.t)
| CommandResult (result : pb.CommandResult.t)
| TransferOffer (offer : pb.TransferOffer.t)
| TransferResult (result : pb.TransferResult.t)
| Heartbeat
| HeartbeatAck
| ProtocolErrorPayload (error : ProtocolError.t)
| Other.
End Payload.

Module Envelope.
Record t := mk {
  message_id : string;
  correlation_id : string;
  stream_id : string;
  stream_epoch : Z;
  sequence : Z;
  payload : option Payload.t;
}.
End Envelope.

(** ** State *)

#[global] Instance AgentKind_countable : Countable AgentKind.t.
Proof.
  refine (inj_countable' (fun k => match k with AgentKind.CodexDesktop => true | AgentKind.ZcodeDesktop => false end)
    (fun b => if b : bool then AgentKind.CodexDesktop else AgentKind.ZcodeDesktop) _). by intros [].
Defined.

(** [SessionSlot]. *)
Notation SessionSlot := (AgentKind.t * string)%type.
Definition slot_of (key : SessionKey.t) : SessionSlot := (SessionKey.agent_kind key, SessionKey.native_session_id key).
Definition slot_key (device_id : string) (slot : SessionSlot) : SessionKey.t := SessionKey.mk device_id slot.1 slot.2 None.

Module StreamState.
Record t := mk {
  stream_id : string;
  slot : option SessionSlot;
  epoch : Z;
  next_sequence : Z;
  buffering : bool;
  buffer : list pb.DomainEvent.t;
}.
Definition with_stream_id (x : string) (s : t) : t := mk x (slot s) (epoch s) (next_sequence s) (buffering s) (buffer s).
Definition with_next_sequence (x : Z) (s : t) : t := mk (stream_id s) (slot s) (epoch s) x (buffering s) (buffer s).
Definition with_buffering (x : bool) (s : t) : t := mk (stream_id s) (slot s) (epoch s) (next_sequence s) x (buffer s).
Definition with_buffer (x : list pb.DomainEvent.t) (s : t) : t := mk (stream_id s) (slot s) (epoch s) (next_sequence s) (buffering s) x.

Definition assign_sequence (s : t) : Z * t := (next_sequence s, with_next_sequence (next_sequence s + 1) s).
End StreamState.

Module RuntimeState.
Record t := mk {
  epoch_counter : Z;
  list_stream : option StreamState.t;
  session_streams : gmap SessionSlot StreamState.t;
}.
Definition default : t := mk 0 None ∅.
Definition with_list_stream (x : option StreamState.t) (s : t) : t := mk (epoch_counter s) x (session_streams s).
Definition with_session_streams (x : gmap SessionSlot StreamState.t) (s : t) : t := mk (epoch_counter s) (list_stream s) x.
End RuntimeState.

Module SessionCache.
Record t := mk {
  turn_active : bool;
  attention_count : Z;
  runtime_revision : Z;
  has_snapshot : bool;
}.
Definition default : t := mk false 0 0 false.
Definition with_turn_active (x : bool) (c : t) : t := mk x (attention_count c) (runtime_revision c) (has_snapshot c).
Definition with_attention_count (x : Z) (c : t) : t := mk (turn_active c) x (runtime_revision c) (has_snapshot c).
End SessionCache.

Module OutputBuffer.
Record t := mk {
  data : list byte;
  is_final : bool;
}.
Definition default : t := mk [] false.
End OutputBuffer.

Notation Sessions := (gmap SessionSlot SessionCache.t).
Notation Outputs := (gmap SessionSlot (gmap string OutputBuffer.t)).

(** ** Sending *)

Definition stream_envelope (correlation : string) (s : StreamState.t) (sequence : Z) (payload : Payload.t) : Envelope.t :=
  Envelope.mk "" correlation (StreamState.stream_id s) (StreamState.epoch s) sequence (Some payload).

Definition connection_envelope (correlation : string) (payload : Payload.t) : Envelope.t :=
  Envelope.mk "" correlation "" 0 0 (Some payload).

Definition subscribed_envelope (correlation stream_id : string) (epoch : Z) : Envelope.t :=
  Envelope.mk "" correlation stream_id epoch 0 (Some (Payload.Subscribed stream_id epoch 1)).

(** [assign_sequence] and [send_stream_locked]. *)
Definition send_next (correlation : string) (payload : Payload.t) (s : StreamState.t) : StreamState.t * list Envelope.t :=
  let '(sequence, s) := StreamState.assign_sequence s in (s, [stream_envelope correlation s sequence payload]).

Fixpoint send_each {A : Type} (send : A -> StreamState.t -> StreamState.t * list Envelope.t) (events : list A) (s : StreamState.t) :
    StreamState.t * list Envelope.t :=
  match events with
  | [] => (s, [])
  | event :: events =>
      let '(s, sent) := send event s in
      let '(s, rest) := send_each send events s in (s, sent ++ rest)
  end.

Definition send_event (event : pb.DomainEvent.t) (s : StreamState.t) : StreamState.t * list Envelope.t :=
  send_next "" (Payload.EventBatch (pb.EventBatch.mk (StreamState.stream_id s) [event])) s.

Definition flush_list_event_locked (correlation : string) (event : pb.DomainEvent.t) (s : StreamState.t) : StreamState.t * list Envelope.t :=
  match pb.DomainEvent.event event with
  | Some (pb.DomainEvent.SessionSummaryChanged summary) =>
      send_next correlation (Payload.SessionSummaryBatch (pb.SessionSummaryBatch.mk [summary] false)) s
  | _ => (s, [])
  end.

(** ** The sections under the lock of the streams

    Each returns the new state and the envelopes it hands to the sink. *)

Definition Section_ : Type := RuntimeState.t -> RuntimeState.t * list Envelope.t.

(** The stream of a new epoch: its id, and the events of the old one forgotten. *)
Definition open_stream (fallback : string) (slot : option SessionSlot) (upstream_id : option string) (epoch : Z) (old : option StreamState.t) :
    StreamState.t :=
  let s := default (StreamState.mk fallback slot epoch 1 false []) old in
  let id := match upstream_id with
            | Some id => id
            | None => if bool_decide (StreamState.stream_id s = "") then fallback else StreamState.stream_id s
            end in
  StreamState.mk id (StreamState.slot s) epoch 1 true [].

Definition open_list (upstream_id : option string) (st : RuntimeState.t) : (string * Z) * RuntimeState.t :=
  let epoch := RuntimeState.epoch_counter st + 1 in
  let s := open_stream "list" None upstream_id epoch (RuntimeState.list_stream st) in
  ((StreamState.stream_id s, epoch), RuntimeState.mk epoch (Some s) (RuntimeState.session_streams st)).

Definition open_session (slot : SessionSlot) (upstream_id : option string) (st : RuntimeState.t) : (string * Z) * RuntimeState.t :=
  let epoch := RuntimeState.epoch_counter st + 1 in
  let s := open_stream ("session:" +:+ AgentKind.kind_name slot.1 +:+ ":" +:+ slot.2) (Some slot) upstream_id epoch
             (RuntimeState.session_streams st !! slot) in
  ((StreamState.stream_id s, epoch), RuntimeState.mk epoch (RuntimeState.list_stream st) (<[slot := s]> (RuntimeState.session_streams st))).

Definition on_list (f : StreamState.t -> StreamState.t * list Envelope.t) : Section_ := fun st =>
  match RuntimeState.list_stream st with
  | None => (st, [])
  | Some s => let '(s, sent) := f s in (RuntimeState.with_list_stream (Some s) st, sent)
  end.

Definition on_session (slot : SessionSlot) (f : StreamState.t -> StreamState.t * list Envelope.t) : Section_ := fun st =>
  match RuntimeState.session_streams st !! slot with
  | None => (st, [])
  | Some s => let '(s, sent) := f s in (RuntimeState.with_session_streams (<[slot := s]> (RuntimeState.session_streams st)) st, sent)
  end.

Definition close_with (correlation : string) (snapshot : Payload.t) (send : pb.DomainEvent.t -> StreamState.t -> StreamState.t * list Envelope.t)
    (s : StreamState.t) : StreamState.t * list Envelope.t :=
  let '(s, sent) := send_next correlation snapshot (StreamState.with_buffering false s) in
  let '(s, rest) := send_each send (StreamState.buffer s) (StreamState.with_buffer [] s) in
  (s, sent ++ rest).

Definition close_list (correlation : string) (batch : pb.SessionSummaryBatch.t) : Section_ :=
  on_list (close_with correlation (Payload.SessionSummaryBatch batch) (flush_list_event_locked correlation)).

Definition close_session (slot : SessionSlot) (correlation : string) (snapshot : pb.RuntimeSnapshot.t) : Section_ :=
  on_session slot (close_with correlation (Payload.RuntimeSnapshot snapshot) send_event).

Definition fail_session (slot : SessionSlot) : Section_ := on_session slot (fun s => (StreamState.with_buffering false s, [])).

Definition dispatch_session (slot : SessionSlot) (event : pb.DomainEvent.t) : Section_ :=
  on_session slot (fun s =>
    if StreamState.buffering s then (StreamState.with_buffer (StreamState.buffer s ++ [event]) s, []) else send_event event s).

Definition dispatch_list (event : pb.DomainEvent.t) : Section_ :=
  on_list (fun s =>
    if StreamState.buffering s then (StreamState.with_buffer (StreamState.buffer s ++ [event]) s, []) else flush_list_event_locked "" event s).

Definition then_section (f g : Section_) : Section_ := fun st =>
  let '(st, sent) := f st in let '(st, rest) := g st in (st, sent ++ rest).

Definition dispatch_locked (slot : SessionSlot) (event : pb.DomainEvent.t) (is_summary : bool) : Section_ :=
  if is_summary then then_section (dispatch_session slot event) (dispatch_list event) else dispatch_session slot event.

Definition confirm_session (slot : SessionSlot) (changed : bool) (snapshot : pb.RuntimeSnapshot.t) : Section_ :=
  on_session slot (fun s =>
    if negb (StreamState.buffering s) && changed then send_next "" (Payload.RuntimeSnapshot snapshot) s else (s, [])).

Definition refresh_list (stream_id : string) (epoch : Z) (batch : pb.SessionSummaryBatch.t) : Section_ :=
  on_list (fun s =>
    if bool_decide (StreamState.stream_id s = stream_id) && (StreamState.epoch s =? epoch) && negb (StreamState.buffering s)
    then send_next "" (Payload.SessionSummaryBatch batch) s else (s, [])).

Definition list_is (stream_id : string) (st : RuntimeState.t) : bool :=
  match RuntimeState.list_stream st with Some s => bool_decide (StreamState.stream_id s = stream_id) | None => false end.

Definition handle_unsubscribe (stream_id : string) : Section_ := fun st =>
  (if list_is stream_id st then RuntimeState.with_list_stream None st
   else RuntimeState.with_session_streams
          (filter (fun '(_, s) => StreamState.stream_id s <> stream_id) (RuntimeState.session_streams st)) st, []).

(** The stream to resynchronise: the list, or a session. *)
Definition resync_target (stream_id : string) (st : RuntimeState.t) : option (option SessionSlot) :=
  if list_is stream_id st then Some None
  else StreamState.slot <$> find (fun s => bool_decide (StreamState.stream_id s = stream_id)) (map snd (map_to_list (RuntimeState.session_streams st))).

(** ** The caches *)

Definition cache_event (event : DomainEvent.t) (c : SessionCache.t) : SessionCache.t :=
  match event with
  | DomainEvent.TurnLifecycle _ phase _ _ =>
      SessionCache.with_turn_active (bool_decide (phase = ActiveTurnPhase.Running) || bool_decide (phase = ActiveTurnPhase.Finishing)) c
  | DomainEvent.PendingAttentionAdded _ => SessionCache.with_attention_count (SessionCache.attention_count c + 1) c
  | DomainEvent.PendingAttentionRemoved _ _ _ => SessionCache.with_attention_count (sat_sub (SessionCache.attention_count c) 1) c
  | _ => c
  end.

Definition note_cache (slot : SessionSlot) (event : DomainEvent.t) (sessions : Sessions) : Sessions :=
  <[slot := cache_event event (default SessionCache.default (sessions !! slot))]> sessions.

(** [slice[..take]]. *)
Definition prefix_of (n : Z) (bytes : list byte) : list byte := take (Z.to_nat n) bytes.

Definition append_output (expected_offset : Z) (bytes : list byte) (b : OutputBuffer.t) : OutputBuffer.t :=
  let data := OutputBuffer.data b in
  if (expected_offset =? zlen data) && (zlen data <? OUTPUT_BUFFER_MAX)
  then OutputBuffer.mk (data ++ prefix_of (Z.min (OUTPUT_BUFFER_MAX - zlen data) (zlen bytes)) bytes) (OutputBuffer.is_final b)
  else b.

Definition replace_output (bytes : list byte) (b : OutputBuffer.t) : OutputBuffer.t :=
  OutputBuffer.mk (prefix_of (Z.min (zlen bytes) OUTPUT_BUFFER_MAX) bytes) (OutputBuffer.is_final b).

(** [entry(slot).or_default().entry(item).or_default()], changed by [f]. *)
Definition change_output (slot : SessionSlot) (item : string) (f : OutputBuffer.t -> OutputBuffer.t) (outputs : Outputs) : Outputs :=
  let items := default ∅ (outputs !! slot) in
  <[slot := <[item := f (default OutputBuffer.default (items !! item))]> items]> outputs.

Definition note_output (slot : SessionSlot) (event : DomainEvent.t) (outputs : Outputs) : Outputs :=
  match event with
  | DomainEvent.OutputAppend item_id expected_offset bytes _ =>
      change_output slot (ItemId.id item_id) (append_output expected_offset (OutputBytes.bytes bytes)) outputs
  | DomainEvent.OutputReplace item_id _ bytes _ => change_output slot (ItemId.id item_id) (replace_output (OutputBytes.bytes bytes)) outputs
  | DomainEvent.OutputFinal item_id _ _ _ _ =>
      match outputs !! slot with
      | Some items =>
          match items !! ItemId.id item_id with
          | Some b => <[slot := <[ItemId.id item_id := OutputBuffer.mk (OutputBuffer.data b) true]> items]> outputs
          | None => outputs
          end
      | None => outputs
      end
  | _ => outputs
  end.

Definition snapshot_cache (snapshot : RuntimeSnapshot.t) : SessionCache.t :=
  SessionCache.mk
    (match RuntimeSnapshot.current_turn snapshot with
     | Some t => bool_decide (CurrentTurn.phase t <> ActiveTurnPhase.Idle)
     | None => false
     end)
    (zlen (RuntimeSnapshot.pending_questions snapshot) + zlen (RuntimeSnapshot.pending_approvals snapshot))
    (RuntimeSnapshot.runtime_revision snapshot) true.

(** ** The operations of a handler *)

Inductive rtop : Type -> Type :=
| OnState {A : Type} (f : RuntimeState.t -> A * (RuntimeState.t * list Envelope.t)) : rtop A
| OnSessions {A : Type} (f : Sessions -> A * Sessions) : rtop A
| OnOutputs {A : Type} (f : Outputs -> A * Outputs) : rtop A
| OnWatchers {A : Type} (f : gset SessionSlot -> A * gset SessionSlot) : rtop A
| OnWired {A : Type} (f : gset SessionSlot -> A * gset SessionSlot) : rtop A
| OnRefreshAt {A : Type} (f : option Z -> A * option Z) : rtop A
| SendOut (envelope : Envelope.t) : rtop unit
| BatteryPowered : rtop bool
| Instant_now : rtop Z
| Utc_time : rtop DateTime
(* calls of other components *)
| AdapterCapabilities : rtop CapabilitySet.t
| AdapterListSessions : rtop (option SessionPage.t)
| AdapterRefreshSnapshot (key : SessionKey.t) : rtop (res AdapterError.t RuntimeSnapshot.t)
| AdapterRuntimeSnapshot (key : SessionKey.t) : rtop (res AdapterError.t RuntimeSnapshot.t)
| AdapterSubscribe (key : SessionKey.t) : rtop bool
| QueueStatusOf (key : SessionKey.t) : rtop (option QueueStatus.t)
| ZcodeAttached : rtop bool
| ZcodeListSummaries : rtop (list SessionSummary.t)
| ZcodeRuntimeSnapshot (key : SessionKey.t) : rtop RuntimeSnapshot.t
| WatchUploads (key : SessionKey.t) : rtop unit
| WatchPower (key : SessionKey.t) : rtop unit
| SetTurnActive (active : bool) : rtop unit
| SetAttentionPending (pending : bool) : rtop unit
| SpawnPump (key : SessionKey.t) : rtop unit.

Notation rtprog := (Prog.prog rtop).

Definition section (f : Section_) : rtprog unit := act (OnState (fun st => (tt, f st))).
Definition read_state {A : Type} (f : RuntimeState.t -> A) : rtprog A := act (OnState (fun st => (f st, (st, [])))).

Section Runtime.
Context `{ProtoCrates}.
Variable device_id : string.

(** ** Outgoing messages without stream *)

Definition send_connection (correlation : string) (payload : Payload.t) : rtprog unit := act (SendOut (connection_envelope correlation payload)).

Definition send_subscribed (correlation stream_id : string) (epoch : Z) : rtprog unit :=
  act (SendOut (subscribed_envelope correlation stream_id epoch)).

Definition send_protocol_error (correlation : string) (code : StableErrorCode.t) (message : string) : rtprog unit :=
  send_connection correlation (Payload.ProtocolErrorPayload (ProtocolError.mk (pb.StableErrorCode.as_i32 (stable_error_to_proto code)) message)).

(** ** Events *)

Definition note_event (key : SessionKey.t) (event : DomainEvent.t) : rtprog unit :=
  perform act (OnSessions (fun s => (tt, note_cache (slot_of key) event s)));
  match event with
  | DomainEvent.OutputAppend _ _ _ _ | DomainEvent.OutputReplace _ _ _ _ | DomainEvent.OutputFinal _ _ _ _ _ =>
      act (OnOutputs (fun o => (tt, note_output (slot_of key) event o)))
  | _ => Ret tt
  end.

(** The cache before. *)
Definition note_snapshot (slot : SessionSlot) (snapshot : RuntimeSnapshot.t) : rtprog SessionCache.t :=
  act (OnSessions (A := SessionCache.t) (fun s => (default SessionCache.default (s !! slot), <[slot := snapshot_cache snapshot]> s))).

Definition with_queue_state (queue : QueueState.t) (s : pb.SessionSummary.t) : pb.SessionSummary.t :=
  let 'pb.SessionSummary.mk k t a p b u c d g m y f n q _ l i x e := s in
  pb.SessionSummary.mk k t a p b u c d g m y f n q (pb.QueueState.as_i32 (queue_state_to_proto queue)) l i x e.

(** [summary.queue_state = queue.state], [snapshot.queue = queue]. *)
Definition set_queue_state (queue : QueueState.t) (s : SessionSummary.t) : SessionSummary.t :=
  let 'SessionSummary.mk k t a p b u c d g m y f n q _ l i x e := s in SessionSummary.mk k t a p b u c d g m y f n q queue l i x e.

Definition set_queue (queue : QueueStatus.t) (s : RuntimeSnapshot.t) : RuntimeSnapshot.t :=
  let 'RuntimeSnapshot.mk k r t p q a c b n _ y o := s in RuntimeSnapshot.mk k r t p q a c b n queue y o.

Definition is_summary (event : DomainEvent.t) : bool := match event with DomainEvent.SessionSummaryChanged _ => true | _ => false end.

Definition dispatch_domain_event (key : SessionKey.t) (event : DomainEvent.t) : rtprog unit :=
  do now <- act Utc_time;
  match domain_event_to_proto now event with
  | None => Ret tt
  | Some proto_event =>
      do proto_event <-
        (match pb.DomainEvent.event proto_event with
         | Some (pb.DomainEvent.SessionSummaryChanged summary) =>
             do queue <- act (QueueStatusOf key);
             Ret match queue with
                 | Some queue => pb.DomainEvent.mk (pb.DomainEvent.emitted_at proto_event)
                     (Some (pb.DomainEvent.SessionSummaryChanged (with_queue_state (QueueStatus.state queue) summary)))
                 | None => proto_event
                 end
         | _ => Ret proto_event
         end);
      section (dispatch_locked (slot_of key) proto_event (is_summary event))
  end.

Definition publish_external_event (key : SessionKey.t) (event : DomainEvent.t) : rtprog unit :=
  perform note_event key event; dispatch_domain_event key event.

(** The task that pumps the events of a session; [events] until the channel closes. *)
Fixpoint pump_session (key : SessionKey.t) (events : list DomainEvent.t) : rtprog unit :=
  match events with
  | [] => act (OnWatchers (fun w => (tt, w ∖ {[(AgentKind.CodexDesktop, SessionKey.native_session_id key)]})))
  | event :: events => perform note_event key event; perform dispatch_domain_event key event; pump_session key events
  end.

Definition attach_session (key : SessionKey.t) : rtprog unit :=
  let slot := slot_of key in
  perform act (OnSessions (fun s => (tt, <[slot := default SessionCache.default (s !! slot)]> s)));
  if bool_decide (slot.1 <> AgentKind.CodexDesktop) then Ret tt
  else
    do watched <- act (OnWatchers (fun w => (bool_decide (slot ∈ w), w)));
    if watched : bool then Ret tt
    else
      do subscribed <- act (AdapterSubscribe key);
      if negb subscribed then Ret tt
      else
        perform act (OnWatchers (fun w => (tt, {[slot]} ∪ w)));
        do first <- act (OnWired (fun w => (bool_decide (slot ∉ w), {[slot]} ∪ w)));
        perform (if first : bool then perform act (WatchUploads key); act (WatchPower key) else Ret tt);
        act (SpawnPump key).

(** ** Streams *)

Definition with_queue (key : SessionKey.t) (snapshot : RuntimeSnapshot.t) : rtprog RuntimeSnapshot.t :=
  do queue <- act (QueueStatusOf key);
  Ret match queue with Some queue => set_queue queue snapshot | None => snapshot end.

Fixpoint codex_summaries (sessions : list SessionSummary.t) : rtprog (list pb.SessionSummary.t) :=
  match sessions with
  | [] => Ret []
  | summary :: sessions =>
      do queue <- act (QueueStatusOf (SessionSummary.session_key summary));
      let summary := match queue with
                     | Some queue => set_queue_state (QueueStatus.state queue) summary
                     | None => summary
                     end in
      do rest <- codex_summaries sessions;
      Ret (session_summary_to_proto summary :: rest)
  end.

Fixpoint zcode_summaries (sessions : list SessionSummary.t) : rtprog (list pb.SessionSummary.t) :=
  match sessions with
  | [] => Ret []
  | summary :: sessions =>
      do queue <- act (QueueStatusOf (SessionSummary.session_key summary));
      let proto := session_summary_to_proto summary in
      let proto := match queue with Some queue => with_queue_state (QueueStatus.state queue) proto | None => proto end in
      do rest <- zcode_summaries sessions;
      Ret (proto :: rest)
  end.

(** The summaries of a list snapshot. *)
Definition list_summaries_of (sessions : list SessionSummary.t) : rtprog (list pb.SessionSummary.t) :=
  do codex <- codex_summaries sessions;
  do attached <- act ZcodeAttached;
  do zcode <- (if attached : bool then do summaries <- act ZcodeListSummaries; zcode_summaries summaries else Ret []);
  Ret (codex ++ zcode).

Definition establish_list_stream (correlation : string) (upstream_id : option string) : rtprog unit :=
  do opened <- act (OnState (fun st => let '(opened, st) := open_list upstream_id st in (opened, (st, []))));
  perform send_subscribed correlation opened.1 opened.2;
  do page <- act AdapterListSessions;
  do summaries <- list_summaries_of (match page with Some page => SessionPage.sessions page | None => [] end);
  do sent <- act (OnState (fun st => (bool_decide (is_Some (RuntimeState.list_stream st)), close_list correlation (pb.SessionSummaryBatch.mk summaries true) st)));
  if negb sent then Ret tt
  else
    do now <- act Instant_now;
    act (OnRefreshAt (fun _ => (tt, Some (now + IDLE_SUMMARY_INTERVAL)))).

Definition BridgeError_display (e : BridgeError.t) : string := StableErrorCode.as_str (BridgeError.code e) +:+ ": " +:+ BridgeError.message e.
Definition not_attached : BridgeError.t := BridgeError.mk StableErrorCode.SessionNotFound "zcode hook path is not attached".
Definition adapter_err (err : AdapterError.t) : BridgeError.t := BridgeError.mk (AdapterError.code err) (AdapterError.display err).

Definition session_snapshot (key : SessionKey.t) (force_refresh : bool) : rtprog (res BridgeError.t RuntimeSnapshot.t) :=
  match SessionKey.agent_kind key with
  | AgentKind.CodexDesktop =>
      do snapshot <- (if force_refresh then act (AdapterRefreshSnapshot key) else act (AdapterRuntimeSnapshot key));
      match map_err adapter_err snapshot with
      | Ok snapshot => do snapshot <- with_queue key snapshot; Ret (Ok snapshot)
      | Err e => Ret (Err e)
      end
  | AgentKind.ZcodeDesktop =>
      do attached <- act ZcodeAttached;
      if attached : bool then
        do snapshot <- act (ZcodeRuntimeSnapshot key);
        do snapshot <- with_queue key snapshot;
        Ret (Ok snapshot)
      else Ret (Err not_attached)
  end.

Definition establish_session_stream (slot : SessionSlot) (correlation : string) (upstream_id : option string) (force_refresh : bool) : rtprog unit :=
  let key := slot_key device_id slot in
  perform attach_session key;
  do opened <- act (OnState (fun st => let '(opened, st) := open_session slot upstream_id st in (opened, (st, []))));
  perform send_subscribed correlation opened.1 opened.2;
  do snapshot_result <- session_snapshot key force_refresh;
  match snapshot_result with
  | Ok snapshot =>
      perform note_snapshot slot snapshot;
      section (close_session slot correlation (runtime_snapshot_to_proto snapshot))
  | Err err =>
      perform send_protocol_error correlation (BridgeError.code err) (BridgeError_display err);
      section (fail_session slot)
  end.

Definition handle_subscribe (target : option Target) (upstream_id : option string) (correlation : string) : rtprog unit :=
  match target with
  | Some ListTarget => establish_list_stream correlation upstream_id
  | Some (SessionTarget key) =>
      match session_key_from_proto key with
      | None => send_protocol_error correlation StableErrorCode.CapabilityUnsupported "subscribe target has unknown agent kind"
      | Some key => establish_session_stream (slot_of key) correlation upstream_id false
      end
  | None => send_protocol_error correlation StableErrorCode.InternalError "subscribe target missing"
  end.

Definition handle_stream_resync (stream_id correlation : string) : rtprog unit :=
  do target <- read_state (resync_target stream_id);
  match target with
  | Some None => establish_list_stream correlation None
  | Some (Some slot) => establish_session_stream slot correlation None true
  | None => Ret tt
  end.

Fixpoint for_each {A : Type} (f : A -> rtprog unit) (l : list A) : rtprog unit :=
  match l with [] => Ret tt | x :: l => perform f x; for_each f l end.

Definition resync_inner : rtprog unit :=
  do caps <- act AdapterCapabilities;
  perform send_connection "" (Payload.CapabilitySnapshot (capability_set_to_proto caps));
  do has_list <- read_state (fun st => bool_decide (is_Some (RuntimeState.list_stream st)));
  perform (if has_list : bool then establish_list_stream "" None else Ret tt);
  do stream_slots <- read_state (A := list SessionSlot) (fun st => map fst (map_to_list (RuntimeState.session_streams st)));
  perform for_each (fun slot => establish_session_stream slot "" None true) stream_slots;
  do active_slots <- act (OnSessions (A := list SessionSlot) (fun s =>
    (map fst (filter (fun '(slot, c) => SessionCache.turn_active c = true /\ slot.1 = AgentKind.CodexDesktop) (map_to_list s)), s)));
  for_each (fun slot => attach_session (slot_key device_id slot)) active_slots.

(** ** Observation *)

Definition known_session_ids : rtprog (list string) :=
  act (OnSessions (A := list string) (fun s => (merge_sort String.le (omap (fun '(slot, _) =>
    if bool_decide (slot.1 = AgentKind.CodexDesktop) then Some slot.2 else None) (map_to_list s)), s))).

Definition observe_pressure : rtprog ObservePressure.t :=
  do battery <- act BatteryPowered;
  do active <- act (OnSessions (fun s => (zlen (filter (fun '(_, c) => SessionCache.turn_active c = true) (map_to_list s)), s)));
  Ret (ObservePressure.mk battery active).

Definition observe_state_of (native : string) : rtprog (option SessionObserveState.t) :=
  let slot := (AgentKind.CodexDesktop, native) in
  do cache <- act (OnSessions (A := option SessionCache.t) (fun s => (s !! slot, s)));
  match cache with
  | None => Ret None
  | Some cache =>
      do subscribed <- read_state (fun st =>
        (bool_decide (is_Some (RuntimeState.session_streams st !! slot)), bool_decide (is_Some (RuntimeState.list_stream st))));
      Ret (Some (SessionObserveState.mk subscribed.1 subscribed.2 (SessionCache.turn_active cache)))
  end.

Definition update_power_state : rtprog unit :=
  do inputs <- act (OnSessions (fun s =>
    ((existsb (fun c => SessionCache.turn_active c) (map snd (map_to_list s)),
      existsb (fun c => 0 <? SessionCache.attention_count c) (map snd (map_to_list s))), s)));
  perform act (SetTurnActive inputs.1);
  act (SetAttentionPending inputs.2).

Definition refresh_list_summary : rtprog unit :=
  do stream <- read_state (A := option (string * Z)) (fun st => (fun s => (StreamState.stream_id s, StreamState.epoch s)) <$> RuntimeState.list_stream st);
  match stream with
  | None => Ret tt
  | Some (stream_id, epoch) =>
      do page <- act AdapterListSessions;
      match page with
      | None => Ret tt
      | Some page =>
          do summaries <- list_summaries_of (SessionPage.sessions page);
          section (refresh_list stream_id epoch (pb.SessionSummaryBatch.mk summaries true))
      end
  end.

(** The time of the next refresh is set when the last one has come. *)
Definition take_refresh (pressure : ObservePressure.t) (now : Z) (deadline : option Z) : bool * option Z :=
  match deadline with
  | Some at_ =>
      if at_ <=? now
      then (true, Some (now + default IDLE_SUMMARY_INTERVAL (next_interval (SessionObserveState.mk false true false) pressure)))
      else (false, deadline)
  | None => (false, deadline)
  end.

Definition observe_session (native : string) : rtprog unit :=
  let slot := (AgentKind.CodexDesktop, native) in
  let key := slot_key device_id slot in
  do cache <- act (OnSessions (A := SessionCache.t) (fun s => (default SessionCache.default (s !! slot), s)));
  if negb (SessionCache.has_snapshot cache) then Ret tt
  else
    do r <- act (AdapterRuntimeSnapshot key);
    match r with
    | Err _ => Ret tt
    | Ok snapshot =>
        do snapshot <- with_queue key snapshot;
        do previous <- note_snapshot slot snapshot;
        let changed := negb (SessionCache.runtime_revision previous =? RuntimeSnapshot.runtime_revision snapshot) in
        perform section (confirm_session slot changed (runtime_snapshot_to_proto snapshot));
        perform (match RuntimeSnapshot.current_turn snapshot with
                 | Some _ => Ret tt
                 | None =>
                     do now <- act Instant_now;
                     do pressure <- observe_pressure;
                     do due <- act (OnRefreshAt (take_refresh pressure now));
                     if due : bool then refresh_list_summary else Ret tt
                 end);
        update_power_state
    end.
End Runtime.
