(* ===== verification/RuntimeProps.v ===== *)
(** * What the outgoing streams promise

    The sections under the lock as data, the invariant of the numbers they assign, and what a stream
    delivers within one epoch. *)

From S2P Require Import Prelude Prog RustStr Domain Proto Concurrent ProtoMapping Adapter Observer Runtime.

(** ** The sections of all handlers *)

Inductive Sec :=
| SOpenList (upstream_id : option string)
| SOpenSession (slot : SessionSlot) (upstream_id : option string)
| SCloseList (correlation : string) (summaries : list pb.SessionSummary.t)
| SCloseSession (slot : SessionSlot) (correlation : string) (snapshot : pb.RuntimeSnapshot.t)
| SFailSession (slot : SessionSlot)
| SDispatch (slot : SessionSlot) (event : pb.DomainEvent.t) (is_summary : bool)
| SConfirm (slot : SessionSlot) (changed : bool) (snapshot : pb.RuntimeSnapshot.t)
| SRefresh (stream_id : string) (epoch : Z) (summaries : list pb.SessionSummary.t)
| SUnsubscribe (stream_id : string)
| SRead.

Definition run_sec (s : Sec) : Section_ :=
  match s with
  | SOpenList upstream_id => fun st => ((open_list upstream_id st).2, [])
  | SOpenSession slot upstream_id => fun st => ((open_session slot upstream_id st).2, [])
  | SCloseList correlation summaries => close_list correlation (pb.SessionSummaryBatch.mk summaries true)
  | SCloseSession slot correlation snapshot => close_session slot correlation snapshot
  | SFailSession slot => fail_session slot
  | SDispatch slot event is_summary => dispatch_locked slot event is_summary
  | SConfirm slot changed snapshot => confirm_session slot changed snapshot
  | SRefresh stream_id epoch summaries => refresh_list stream_id epoch (pb.SessionSummaryBatch.mk summaries true)
  | SUnsubscribe stream_id => handle_unsubscribe stream_id
  | SRead => fun st => (st, [])
  end.

(** ** Numbers *)

(** The list stream, or the stream of a session. *)
Definition stream_at (st : RuntimeState.t) (at_ : option SessionSlot) : option StreamState.t :=
  match at_ with None => RuntimeState.list_stream st | Some slot => RuntimeState.session_streams st !! slot end.

Definition set_stream (st : RuntimeState.t) (at_ : option SessionSlot) (s : StreamState.t) : RuntimeState.t :=
  match at_ with
  | None => RuntimeState.with_list_stream (Some s) st
  | Some slot => RuntimeState.with_session_streams (<[slot := s]> (RuntimeState.session_streams st)) st
  end.

(** The envelopes of an epoch that carry a number. *)
Definition in_epoch (e : Z) (env : Envelope.t) : bool := (Envelope.stream_epoch env =? e) && negb (Envelope.sequence env =? 0).
Definition of_epoch (e : Z) (sent : list Envelope.t) : list Envelope.t := filter (fun env => in_epoch e env = true) sent.

(** What the stream [s] has sent so far. *)
Record stream_ok (counter : Z) (sent : list Envelope.t) (at_ : option SessionSlot) (s : StreamState.t) : Prop := {
  so_epoch : 1 <= StreamState.epoch s <= counter;
  so_next : StreamState.next_sequence s = 1 + zlen (of_epoch (StreamState.epoch s) sent);
  so_id : Forall (fun env => Envelope.stream_id env = StreamState.stream_id s) (of_epoch (StreamState.epoch s) sent);
  so_buffering : StreamState.buffering s = true -> of_epoch (StreamState.epoch s) sent = [];
  so_list : at_ = None -> StreamState.buffering s = false -> of_epoch (StreamState.epoch s) sent <> [];
}.

(** The list stream announces a whole list first. *)
Definition list_starts_whole (env : Envelope.t) : Prop :=
  forall batch, Envelope.sequence env = 1 -> Envelope.payload env = Some (Payload.SessionSummaryBatch batch) ->
    pb.SessionSummaryBatch.snapshot batch = true.

Record numbered (st : RuntimeState.t) (sent : list Envelope.t) : Prop := {
  nb_counter : 0 <= RuntimeState.epoch_counter st;
  nb_contiguous e : map Envelope.sequence (of_epoch e sent) = seqZ 1 (zlen (of_epoch e sent));
  nb_bound : Forall (fun env => Envelope.sequence env <> 0 -> Envelope.stream_epoch env <= RuntimeState.epoch_counter st) sent;
  nb_one_stream e : exists id, Forall (fun env => Envelope.stream_id env = id) (of_epoch e sent);
  nb_whole : Forall list_starts_whole sent;
  nb_streams at_ s : stream_at st at_ = Some s -> stream_ok (RuntimeState.epoch_counter st) sent at_ s;
  nb_distinct a b s t : stream_at st a = Some s -> stream_at st b = Some t -> StreamState.epoch s = StreamState.epoch t -> a = b;
}.

Lemma of_epoch_app (e : Z) (l k : list Envelope.t) : of_epoch e (l ++ k) = of_epoch e l ++ of_epoch e k.
Proof. apply filter_app. Qed.

Lemma stream_at_set (st : RuntimeState.t) (a b : option SessionSlot) (s : StreamState.t) :
  stream_at (set_stream st a s) b = if decide (a = b) then Some s else stream_at st b.
Proof. destruct a, b; simpl; rewrite ?lookup_insert; repeat case_decide; congruence. Qed.

Lemma epoch_counter_set (st : RuntimeState.t) (a : option SessionSlot) (s : StreamState.t) :
  RuntimeState.epoch_counter (set_stream st a s) = RuntimeState.epoch_counter st.
Proof. by destruct a. Qed.

(** The part of a section that concerns one stream: it keeps id and epoch and numbers what it sends. *)
Record stream_step (at_ : option SessionSlot) (s : StreamState.t) (r : StreamState.t * list Envelope.t) : Prop := {
  ss_id : StreamState.stream_id r.1 = StreamState.stream_id s;
  ss_epoch : StreamState.epoch r.1 = StreamState.epoch s;
  ss_next : StreamState.next_sequence r.1 = StreamState.next_sequence s + zlen r.2;
  ss_sent : Forall (fun env => Envelope.stream_id env = StreamState.stream_id s /\ Envelope.stream_epoch env = StreamState.epoch s) r.2;
  ss_numbers : map Envelope.sequence r.2 = seqZ (StreamState.next_sequence s) (zlen r.2);
}.

Lemma stream_step_refl (at_ : option SessionSlot) (s s' : StreamState.t) :
  StreamState.stream_id s' = StreamState.stream_id s -> StreamState.epoch s' = StreamState.epoch s ->
  StreamState.next_sequence s' = StreamState.next_sequence s -> stream_step at_ s (s', []).
Proof. intros. split; unfold zlen; simpl; [done|done|lia|constructor|done]. Qed.

Lemma stream_step_next (at_ : option SessionSlot) (correlation : string) (payload : Payload.t) (s : StreamState.t) :
  stream_step at_ s (send_next correlation payload s).
Proof. split; simpl; [done..|by repeat constructor|done]. Qed.

Lemma stream_step_trans (at_ : option SessionSlot) (s s1 s2 : StreamState.t) (l k : list Envelope.t) :
  stream_step at_ s (s1, l) -> stream_step at_ s1 (s2, k) -> stream_step at_ s (s2, l ++ k).
Proof.
  intros [A1 A2 A3 A4 A5] [B1 B2 B3 B4 B5]. cbn [fst snd] in *. split; cbn [fst snd].
  - congruence.
  - congruence.
  - rewrite B3, A3. unfold zlen. rewrite length_app. lia.
  - apply Forall_app. split; [done|]. by rewrite A1, A2 in B4.
  - rewrite map_app, A5, B5, A3. unfold zlen. rewrite length_app, Nat2Z.inj_add, seqZ_app by lia. done.
Qed.

Lemma stream_step_each {A : Type} (at_ : option SessionSlot) (send : A -> StreamState.t -> StreamState.t * list Envelope.t) (l : list A)
    (s : StreamState.t) :
  (forall x s, stream_step at_ s (send x s)) -> stream_step at_ s (send_each send l s).
Proof.
  intros Hs. revert s. induction l as [|x l IH]; intros s; simpl; [by apply stream_step_refl|].
  pose proof (Hs x s) as X. destruct (send x s) as [s1 sent]. pose proof (IH s1) as Y. destruct (send_each send l s1) as [s2 rest].
  by eapply stream_step_trans.
Qed.

(** The sections that work on one stream, if it is there. *)
Definition on_stream (at_ : option SessionSlot) (f : StreamState.t -> StreamState.t * list Envelope.t) : Section_ := fun st =>
  match stream_at st at_ with
  | None => (st, [])
  | Some s => let '(s, sent) := f s in (set_stream st at_ s, sent)
  end.

Lemma stream_step_close (at_ : option SessionSlot) (correlation : string) (snapshot : Payload.t)
    (send : pb.DomainEvent.t -> StreamState.t -> StreamState.t * list Envelope.t) (s : StreamState.t) :
  (forall x s, stream_step at_ s (send x s)) -> stream_step at_ s (close_with correlation snapshot send s).
Proof.
  intros Hs. unfold close_with. pose proof (stream_step_next at_ correlation snapshot (StreamState.with_buffering false s)) as X.
  destruct (send_next _ _ _) as [s1 sent] eqn:E1.
  pose proof (stream_step_each at_ send (StreamState.buffer s1) (StreamState.with_buffer [] s1) Hs) as Y.
  destruct (send_each _ _ _) as [s2 rest] eqn:E2. eapply (stream_step_trans _ _ (StreamState.with_buffer [] s1)); [|exact Y]. by destruct X; split.
Qed.

Lemma stream_step_event (at_ : option SessionSlot) (event : pb.DomainEvent.t) (s : StreamState.t) : stream_step at_ s (send_event event s).
Proof. apply stream_step_next. Qed.

Lemma stream_step_list_event (at_ : option SessionSlot) (correlation : string) (event : pb.DomainEvent.t) (s : StreamState.t) :
  stream_step at_ s (flush_list_event_locked correlation event s).
Proof.
  unfold flush_list_event_locked. destruct (pb.DomainEvent.event event) as [[]|]; try (by apply stream_step_refl). apply stream_step_next.
Qed.

(** What a step on one stream must also respect: nothing is sent while buffering, a list stream that is not
    buffering has sent its whole list, and what has the first number on it is such a list. *)
Record good_step (at_ : option SessionSlot) (s : StreamState.t) (r : StreamState.t * list Envelope.t) : Prop := {
  gs_step : stream_step at_ s r;
  gs_silent : StreamState.buffering r.1 = true -> StreamState.buffering s = true /\ r.2 = [];
  gs_started : at_ = None -> StreamState.buffering r.1 = false -> StreamState.buffering s = true -> r.2 <> [];
  gs_whole : 1 <= StreamState.next_sequence s -> (at_ = None -> StreamState.buffering s = false -> StreamState.next_sequence s <> 1) ->
    Forall list_starts_whole r.2;
}.

Lemma not_first_whole (env : Envelope.t) : Envelope.sequence env <> 1 -> list_starts_whole env.
Proof. by intros N batch E. Qed.

Lemma sent_number (at_ : option SessionSlot) (s r : StreamState.t) (sent : list Envelope.t) (env : Envelope.t) :
  stream_step at_ s (r, sent) -> env ∈ sent -> StreamState.next_sequence s <= Envelope.sequence env.
Proof.
  intros [_ _ _ _ N] [i L]%list_elem_of_lookup. cbn [fst snd] in *.
  assert (S : map Envelope.sequence sent !! i = Some (Envelope.sequence env)) by (by rewrite list_lookup_fmap, L).
  rewrite N in S. apply lookup_seqZ in S as [-> _]. lia.
Qed.

Lemma sent_of_epoch (at_ : option SessionSlot) (s r : StreamState.t) (sent : list Envelope.t) :
  stream_step at_ s (r, sent) -> 1 <= StreamState.next_sequence s -> forall e, of_epoch e sent = if e =? StreamState.epoch s then sent else [].
Proof.
  intros X P e. unfold of_epoch.
  assert (K : forall env, env ∈ sent -> in_epoch e env = (e =? StreamState.epoch s)).
  { intros env I. pose proof (sent_number _ _ _ _ _ X I). destruct X as [_ _ _ F _]. rewrite Forall_forall in F.
    unfold in_epoch. destruct (F env I) as [_ ->]. rewrite (proj2 (Z.eqb_neq (Envelope.sequence env) 0)) by lia. rewrite andb_true_r. apply Z.eqb_sym. }
  clear X. induction sent as [|env sent IH]; [by destruct (_ =? _)|]. rewrite filter_cons, (K env) by left.
  destruct (e =? StreamState.epoch s) eqn:E; simpl; rewrite IH by (intros; apply K; by right); done.
Qed.

Lemma whole_snapshot (correlation : string) (s : StreamState.t) (sequence : Z) (summaries : list pb.SessionSummary.t) :
  list_starts_whole (stream_envelope correlation s sequence (Payload.SessionSummaryBatch (pb.SessionSummaryBatch.mk summaries true))).
Proof. intros batch _ [= <-]. done. Qed.

(** A step that keeps a stream that is not buffering so, and sends only parts of a list that has begun. *)
Lemma good_running (at_ : option SessionSlot) (s : StreamState.t) (r : StreamState.t * list Envelope.t) :
  StreamState.buffering s = false -> StreamState.buffering r.1 = false -> stream_step at_ s r ->
  (at_ <> None -> Forall list_starts_whole r.2) -> good_step at_ s r.
Proof.
  intros B B' X W. split; [done|congruence|congruence|]. intros P L. destruct at_ as [slot|]; [by apply W|]. specialize (L eq_refl B).
  apply Forall_forall. intros env I. apply not_first_whole. destruct r as [r sent]. pose proof (sent_number _ _ _ _ _ X I). lia.
Qed.

Lemma buffering_next (correlation : string) (payload : Payload.t) (s : StreamState.t) :
  StreamState.buffering (send_next correlation payload s).1 = StreamState.buffering s.
Proof. done. Qed.

Lemma buffering_each {A : Type} (send : A -> StreamState.t -> StreamState.t * list Envelope.t) (l : list A) (s : StreamState.t) :
  (forall x s, StreamState.buffering (send x s).1 = StreamState.buffering s) -> StreamState.buffering (send_each send l s).1 = StreamState.buffering s.
Proof.
  intros H. revert s. induction l as [|x l IH]; intros s; simpl; [done|]. pose proof (H x s) as X. destruct (send x s) as [s1 sent].
  pose proof (IH s1) as Y. destruct (send_each send l s1). simpl in *. congruence.
Qed.

Lemma buffering_list_event (correlation : string) (event : pb.DomainEvent.t) (s : StreamState.t) :
  StreamState.buffering (flush_list_event_locked correlation event s).1 = StreamState.buffering s.
Proof. unfold flush_list_event_locked. by destruct (pb.DomainEvent.event event) as [[]|]. Qed.

Lemma good_quiet (at_ : option SessionSlot) (s s' : StreamState.t) :
  StreamState.stream_id s' = StreamState.stream_id s -> StreamState.epoch s' = StreamState.epoch s ->
  StreamState.next_sequence s' = StreamState.next_sequence s ->
  (StreamState.buffering s' = StreamState.buffering s \/ at_ <> None /\ StreamState.buffering s' = false) -> good_step at_ s (s', []).
Proof. intros A B C D. split; [by apply stream_step_refl| |simpl; intros ? ? ?; destruct D as [D|[D _]]; congruence|constructor].
  simpl. intros E. destruct D as [D|[_ D]]; [split; congruence|congruence].
Qed.

Lemma good_close (at_ : option SessionSlot) (correlation : string) (snapshot : Payload.t)
    (send : pb.DomainEvent.t -> StreamState.t -> StreamState.t * list Envelope.t) (s : StreamState.t) :
  (forall x s, stream_step at_ s (send x s)) -> (forall x s, StreamState.buffering (send x s).1 = StreamState.buffering s) ->
  (at_ <> None -> forall x s, Forall list_starts_whole (send x s).2) ->
  (forall correlation s sequence, list_starts_whole (stream_envelope correlation s sequence snapshot)) ->
  good_step at_ s (close_with correlation snapshot send s).
Proof.
  intros H1 H2 H3 H4. pose proof (stream_step_close at_ correlation snapshot send s H1) as X. split; [done| | |].
  - unfold close_with. cbn [send_next StreamState.assign_sequence fst snd].
    pose proof (buffering_each send (StreamState.buffer s) (StreamState.with_buffer [] (StreamState.with_next_sequence (StreamState.next_sequence s + 1) (StreamState.with_buffering false s))) H2) as B.
    revert B. simpl. destruct (send_each _ _ _) as [s2 rest]. simpl. congruence.
  - intros _ _ _. unfold close_with. cbn [send_next StreamState.assign_sequence]. by destruct (send_each _ _ _).
  - intros P L. apply Forall_forall. intros env I. destruct (decide (Envelope.sequence env = 1)) as [E|E]; [|by apply not_first_whole].
    revert X I. unfold close_with. cbn [send_next StreamState.assign_sequence].
    destruct (send_each _ _ _) as [s2 rest] eqn:Er. intros X [->|I]%elem_of_cons; [apply H4|].
    assert (Y : stream_step at_ (StreamState.with_buffer [] (StreamState.with_next_sequence (StreamState.next_sequence s + 1) (StreamState.with_buffering false s))) (s2, rest)).
    { simpl in Er. rewrite <- Er. by apply stream_step_each. }
    pose proof (sent_number _ _ _ _ _ Y I) as S. simpl in S. lia.
Qed.

(** ** The invariant *)

Lemma ok_unchanged (counter counter' : Z) (sent rest : list Envelope.t) (at_ : option SessionSlot) (s : StreamState.t) :
  counter <= counter' -> of_epoch (StreamState.epoch s) rest = [] -> stream_ok counter sent at_ s -> stream_ok counter' (sent ++ rest) at_ s.
Proof. intros C E [S1 S2 S3 S4 S5]. split; rewrite ?of_epoch_app, ?E, ?app_nil_r; [lia|done..]. Qed.

Lemma stream_ok_next (counter : Z) (sent : list Envelope.t) (at_ : option SessionSlot) (s : StreamState.t) :
  stream_ok counter sent at_ s -> 1 <= StreamState.next_sequence s /\
  (at_ = None -> StreamState.buffering s = false -> StreamState.next_sequence s <> 1).
Proof.
  intros [S1 S2 S3 S4 S5]. unfold zlen in S2. split; [lia|]. intros A B. specialize (S5 A B).
  destruct (of_epoch _ _); [done|]. simpl in S2. lia.
Qed.

Lemma ok_stepped (counter : Z) (sent rest : list Envelope.t) (at_ : option SessionSlot) (s s' : StreamState.t) :
  stream_ok counter sent at_ s -> good_step at_ s (s', rest) -> stream_ok counter (sent ++ rest) at_ s'.
Proof.
  intros K G. destruct (stream_ok_next _ _ _ _ K) as [P L]. destruct K as [S1 S2 S3 S4 S5]. destruct G as [X Q St _].
  pose proof (sent_of_epoch _ _ _ _ X P (StreamState.epoch s)) as E. rewrite Z.eqb_refl in E. destruct X as [X1 X2 X3 X4 _]. cbn [fst snd] in *.
  split; rewrite ?X2, ?of_epoch_app, ?E, ?X1.
  - done.
  - rewrite X3, S2. unfold zlen. rewrite length_app. lia.
  - apply Forall_app. split; [done|]. eapply Forall_impl; [exact X4|]. by intros env [].
  - intros B. destruct (Q B) as [B' ->]. by rewrite S4.
  - intros A B. destruct (StreamState.buffering s) eqn:B'; [|by intros [Z _]%app_eq_nil; apply (S5 A)].
    intros [_ Z]%app_eq_nil. by apply (St A B eq_refl).
Qed.

Lemma on_stream_numbered (at_ : option SessionSlot) (f : StreamState.t -> StreamState.t * list Envelope.t) (st : RuntimeState.t)
    (sent : list Envelope.t) :
  (forall s, good_step at_ s (f s)) -> numbered st sent -> numbered (on_stream at_ f st).1 (sent ++ (on_stream at_ f st).2).
Proof.
  intros Hf N. unfold on_stream. destruct (stream_at st at_) as [s|] eqn:At; [|by rewrite app_nil_r].
  destruct (f s) as [s' rest] eqn:Fs. cbn [fst snd]. pose proof (Hf s) as G. rewrite Fs in G. destruct N as [N0 N1 N2 N3 N4 N5 N6].
  pose proof (N5 _ _ At) as K. destruct (stream_ok_next _ _ _ _ K) as [P L].
  pose proof (sent_of_epoch _ _ _ _ (gs_step _ _ _ G) P) as E. pose proof (gs_step _ _ _ G) as [X1 X2 X3 X4 X5]. cbn [fst snd] in *.
  split; rewrite ?epoch_counter_set.
  - done.
  - intros e. rewrite of_epoch_app, E. destruct (Z.eqb_spec e (StreamState.epoch s)) as [->|]; [|by rewrite app_nil_r].
    rewrite map_app, N1, X5, (so_next _ _ _ _ K). unfold zlen. rewrite length_app, Nat2Z.inj_add, seqZ_app by lia. done.
  - apply Forall_app. split; [done|]. eapply Forall_impl; [exact X4|]. intros env [_ ->] _. apply K.
  - intros e. rewrite of_epoch_app, E. destruct (Z.eqb_spec e (StreamState.epoch s)) as [->|]; [|rewrite app_nil_r; apply N3].
    exists (StreamState.stream_id s). apply Forall_app. split; [apply K|]. eapply Forall_impl; [exact X4|]. by intros env [].
  - apply Forall_app. split; [done|]. apply G; done.
  - intros b t. rewrite stream_at_set. case_decide as D.
    + intros [= <-]. subst b. by eapply ok_stepped.
    + intros Bt. apply (ok_unchanged (RuntimeState.epoch_counter st)); [lia| |by apply N5]. rewrite E.
      destruct (Z.eqb_spec (StreamState.epoch t) (StreamState.epoch s)) as [Et|]; [|done]. destruct D. symmetry. by eapply N6.
  - intros a b u t. rewrite !stream_at_set. repeat case_decide; try congruence.
    + intros [= <-] Bt. rewrite X2. by eapply N6; [subst|..].
    + intros Bu [= <-]. rewrite X2. intros Eq. by eapply N6; [|subst|].
    + intros Bu Bt. by eapply N6.
Qed.

(** A new epoch. *)
Lemma open_numbered (at_ : option SessionSlot) (s : StreamState.t) (st : RuntimeState.t) (sent : list Envelope.t) :
  StreamState.epoch s = RuntimeState.epoch_counter st + 1 -> StreamState.next_sequence s = 1 -> StreamState.buffering s = true ->
  numbered st sent ->
  numbered (set_stream (RuntimeState.mk (RuntimeState.epoch_counter st + 1) (RuntimeState.list_stream st) (RuntimeState.session_streams st)) at_ s)
    (sent ++ []).
Proof.
  intros E Nx B [N0 N1 N2 N3 N4 N5 N6]. rewrite app_nil_r.
  assert (F : of_epoch (RuntimeState.epoch_counter st + 1) sent = []).
  { unfold of_epoch. rewrite Forall_forall in N2. clear - N2. induction sent as [|env sent IH]; [done|]. rewrite filter_cons.
    rewrite decide_False; [apply IH; intros; by apply N2; [right|]|]. unfold in_epoch. intros [Eq Z]%andb_prop.
    apply Z.eqb_eq in Eq. apply negb_true_iff, Z.eqb_neq in Z. specialize (N2 env ltac:(left) Z). lia. }
  set (st1 := RuntimeState.mk _ _ _). assert (A : forall b, stream_at st1 b = stream_at st b) by (by intros []).
  split; rewrite ?epoch_counter_set; cbn [RuntimeState.epoch_counter st1].
  - lia.
  - done.
  - eapply Forall_impl; [exact N2|]. simpl. intros env H Z. specialize (H Z). lia.
  - done.
  - done.
  - intros b t. rewrite stream_at_set, A. case_decide as D.
    + intros [= <-]. split; rewrite ?E, ?F; [lia|done|constructor|done|congruence].
    + intros Bt. rewrite <- (app_nil_r sent). apply (ok_unchanged (RuntimeState.epoch_counter st)); [lia|done|by apply N5].
  - intros a b u t. rewrite !stream_at_set, !A. repeat case_decide; try congruence.
    + intros [= <-] Bt. pose proof (so_epoch _ _ _ _ (N5 _ _ Bt)). lia.
    + intros Bu [= <-]. pose proof (so_epoch _ _ _ _ (N5 _ _ Bu)). lia.
    + intros Bu Bt. by eapply N6.
Qed.

Lemma fewer_numbered (st st' : RuntimeState.t) (sent : list Envelope.t) :
  RuntimeState.epoch_counter st' = RuntimeState.epoch_counter st ->
  (forall at_ s, stream_at st' at_ = Some s -> stream_at st at_ = Some s) -> numbered st sent -> numbered st' (sent ++ []).
Proof.
  intros C S [N0 N1 N2 N3 N4 N5 N6]. rewrite app_nil_r. split; rewrite ?C; try done.
  - intros a s H. by apply N5, S.
  - intros a b s t Ha Hb. apply N6; by apply S.
Qed.

Lemma then_numbered (f g : Section_) :
  (forall st sent, numbered st sent -> numbered (f st).1 (sent ++ (f st).2)) -> (forall st sent, numbered st sent -> numbered (g st).1 (sent ++ (g st).2)) ->
  forall st sent, numbered st sent -> numbered (then_section f g st).1 (sent ++ (then_section f g st).2).
Proof.
  intros F G st sent N. unfold then_section. pose proof (F st sent N) as N1. destruct (f st) as [st1 s1]. cbn [fst snd] in N1. pose proof (G _ _ N1) as N2.
  destruct (g st1) as [st2 s2]. simpl in *. by rewrite app_assoc.
Qed.

(** The steps of the sections. *)
Lemma good_dispatch_list (event : pb.DomainEvent.t) (s : StreamState.t) :
  good_step None s (if StreamState.buffering s then (StreamState.with_buffer (StreamState.buffer s ++ [event]) s, [])
    else flush_list_event_locked "" event s).
Proof.
  destruct (StreamState.buffering s) eqn:B; [apply good_quiet; try done; by left|].
  apply good_running; [done|by rewrite buffering_list_event|apply stream_step_list_event|done].
Qed.

Lemma good_dispatch_session (slot : SessionSlot) (event : pb.DomainEvent.t) (s : StreamState.t) :
  good_step (Some slot) s (if StreamState.buffering s then (StreamState.with_buffer (StreamState.buffer s ++ [event]) s, [])
    else send_event event s).
Proof.
  destruct (StreamState.buffering s) eqn:B; [apply good_quiet; try done; by left|].
  apply good_running; [done|done|apply stream_step_event|]. intros _. repeat constructor. intros batch _ [=].
Qed.

Lemma good_close_list (correlation : string) (summaries : list pb.SessionSummary.t) (s : StreamState.t) :
  good_step None s (close_with correlation (Payload.SessionSummaryBatch (pb.SessionSummaryBatch.mk summaries true)) (flush_list_event_locked correlation) s).
Proof. apply good_close; [apply stream_step_list_event|apply buffering_list_event|done|]. intros. apply whole_snapshot. Qed.

Lemma good_close_session (slot : SessionSlot) (correlation : string) (snapshot : pb.RuntimeSnapshot.t) (s : StreamState.t) :
  good_step (Some slot) s (close_with correlation (Payload.RuntimeSnapshot snapshot) send_event s).
Proof.
  apply good_close; [apply stream_step_event|done| |intros ? ? ? batch _ [=]]. intros _ x s0. repeat constructor. intros batch _ [=].
Qed.

Lemma good_fail (slot : SessionSlot) (s : StreamState.t) : good_step (Some slot) s (StreamState.with_buffering false s, []).
Proof. apply good_quiet; try done. by right. Qed.

Lemma good_confirm (slot : SessionSlot) (changed : bool) (snapshot : pb.RuntimeSnapshot.t) (s : StreamState.t) :
  good_step (Some slot) s (if negb (StreamState.buffering s) && changed then send_next "" (Payload.RuntimeSnapshot snapshot) s else (s, [])).
Proof.
  destruct (negb _ && changed) eqn:C; [|apply good_quiet; try done; by left]. apply andb_prop in C as [B%negb_true_iff _].
  apply good_running; [done|done|apply stream_step_next|]. intros _. repeat constructor. intros batch _ [=].
Qed.

Lemma good_refresh (id : string) (e : Z) (summaries : list pb.SessionSummary.t) (s : StreamState.t) :
  good_step None s (if bool_decide (StreamState.stream_id s = id) && (StreamState.epoch s =? e) && negb (StreamState.buffering s)
    then send_next "" (Payload.SessionSummaryBatch (pb.SessionSummaryBatch.mk summaries true)) s else (s, [])).
Proof.
  destruct (_ && negb _) eqn:C; [|apply good_quiet; try done; by left]. apply andb_prop in C as [_ B%negb_true_iff].
  by apply good_running; [..|apply stream_step_next|].
Qed.

(** Every section keeps the numbers in order. *)
Lemma dispatch_numbered (slot : SessionSlot) (event : pb.DomainEvent.t) (st : RuntimeState.t) (sent : list Envelope.t) :
  numbered st sent -> numbered (dispatch_session slot event st).1 (sent ++ (dispatch_session slot event st).2).
Proof. apply (on_stream_numbered (Some slot)), good_dispatch_session. Qed.

Lemma section_numbered (s : Sec) (st : RuntimeState.t) (sent : list Envelope.t) :
  numbered st sent -> numbered (run_sec s st).1 (sent ++ (run_sec s st).2).
Proof.
  intros N. destruct s as [up|slot up|corr sums|slot corr snap|slot|slot event is_sum|slot changed snap|id e sums|id|].
  - by apply (open_numbered None).
  - by apply (open_numbered (Some slot)).
  - by apply (on_stream_numbered None); [apply good_close_list|].
  - by apply (on_stream_numbered (Some slot)); [apply good_close_session|].
  - by apply (on_stream_numbered (Some slot)); [apply good_fail|].
  - simpl. unfold dispatch_locked. destruct is_sum; [|by apply dispatch_numbered]. apply then_numbered; [apply dispatch_numbered| |done].
    intros st0 sent0. apply (on_stream_numbered None), good_dispatch_list.
  - by apply (on_stream_numbered (Some slot)); [apply good_confirm|].
  - by apply (on_stream_numbered None); [apply good_refresh|].
  - apply (fewer_numbered st); [| |done]; simpl; destruct (list_is id st); try done.
    + by intros [slot|] s.
    + intros [slot|] s; [|done]. simpl. by intros [L _]%map_lookup_filter_Some.
  - simpl. by rewrite app_nil_r.
Qed.

(** ** The handlers *)

(** The state behind the handle, and what was handed to the sink so far. *)
Module RtWorld.
Record t := mk {
  state : RuntimeState.t;
  sessions : Sessions;
  outputs : Outputs;
  watchers : gset SessionSlot;
  lifecycle_wired : gset SessionSlot;
  list_refresh_at : option Z;
  sent : list Envelope.t;
}.
Definition default : t := mk RuntimeState.default ∅ ∅ ∅ ∅ None [].
Definition with_state (x : RuntimeState.t * list Envelope.t) (w : t) : t :=
  mk x.1 (sessions w) (outputs w) (watchers w) (lifecycle_wired w) (list_refresh_at w) (sent w ++ x.2).
Definition with_sessions (x : Sessions) (w : t) : t := mk (state w) x (outputs w) (watchers w) (lifecycle_wired w) (list_refresh_at w) (sent w).
Definition with_outputs (x : Outputs) (w : t) : t := mk (state w) (sessions w) x (watchers w) (lifecycle_wired w) (list_refresh_at w) (sent w).
Definition with_watchers (x : gset SessionSlot) (w : t) : t :=
  mk (state w) (sessions w) (outputs w) x (lifecycle_wired w) (list_refresh_at w) (sent w).
Definition with_wired (x : gset SessionSlot) (w : t) : t := mk (state w) (sessions w) (outputs w) (watchers w) x (list_refresh_at w) (sent w).
Definition with_refresh_at (x : option Z) (w : t) : t := mk (state w) (sessions w) (outputs w) (watchers w) (lifecycle_wired w) x (sent w).
End RtWorld.

Definition rtstep (B : Type) (o : rtop B) (w : RtWorld.t) : option B -> RtWorld.t -> Prop :=
  match o in rtop B return option B -> RtWorld.t -> Prop with
  | OnState f => fun b w' => b = Some (f (RtWorld.state w)).1 /\ w' = RtWorld.with_state (f (RtWorld.state w)).2 w
  | OnSessions f => fun b w' => b = Some (f (RtWorld.sessions w)).1 /\ w' = RtWorld.with_sessions (f (RtWorld.sessions w)).2 w
  | OnOutputs f => fun b w' => b = Some (f (RtWorld.outputs w)).1 /\ w' = RtWorld.with_outputs (f (RtWorld.outputs w)).2 w
  | OnWatchers f => fun b w' => b = Some (f (RtWorld.watchers w)).1 /\ w' = RtWorld.with_watchers (f (RtWorld.watchers w)).2 w
  | OnWired f => fun b w' => b = Some (f (RtWorld.lifecycle_wired w)).1 /\ w' = RtWorld.with_wired (f (RtWorld.lifecycle_wired w)).2 w
  | OnRefreshAt f => fun b w' => b = Some (f (RtWorld.list_refresh_at w)).1 /\ w' = RtWorld.with_refresh_at (f (RtWorld.list_refresh_at w)).2 w
  | SendOut envelope => fun b w' => b = Some tt /\ w' = RtWorld.with_state (RtWorld.state w, [envelope]) w
  | _ => fun b w' => b <> None /\ w' = w
  end.

(** Another task: a section of a handler, an envelope without number, or a change of the caches. *)
Inductive rtothers : RtWorld.t -> RtWorld.t -> Prop :=
| OtherSection w s : rtothers w (RtWorld.with_state (run_sec s (RtWorld.state w)) w)
| OtherSend w env : Envelope.sequence env = 0 -> rtothers w (RtWorld.with_state (RtWorld.state w, [env]) w)
| OtherCaches w w' : RtWorld.state w' = RtWorld.state w -> RtWorld.sent w' = RtWorld.sent w -> rtothers w w'.

Notation rtexec := (texec rtothers rtstep (fun _ _ _ => @nil unit)).

(** The lock of the streams is only taken for the sections above, and what is sent outside has no number. *)
Definition rt_safe (B : Type) (o : rtop B) : Prop :=
  match o with
  | OnState f => exists sec : RuntimeState.t -> Sec, forall st, (f st).2 = run_sec (sec st) st
  | SendOut envelope => Envelope.sequence envelope = 0
  | _ => True
  end.

Lemma send_numbered (st : RuntimeState.t) (sent : list Envelope.t) (env : Envelope.t) :
  Envelope.sequence env = 0 -> numbered st sent -> numbered st (sent ++ [env]).
Proof.
  intros Z [N0 N1 N2 N3 N4 N5 N6]. assert (E : forall e, of_epoch e (sent ++ [env]) = of_epoch e sent).
  { intros e. rewrite of_epoch_app. unfold of_epoch at 2. rewrite filter_cons, decide_False; [by rewrite app_nil_r|]. unfold in_epoch.
    rewrite Z. by rewrite andb_false_r. }
  split; [done|intros e; rewrite E; apply N1| |intros e; rewrite E; apply N3| | |done].
  - apply Forall_app. split; [done|]. constructor; [done|constructor].
  - apply Forall_app. split; [done|]. constructor; [|constructor]. apply not_first_whole. lia.
  - intros a s A. destruct (N5 _ _ A). split; by rewrite ?E.
Qed.

Notation in_order w := (numbered (RtWorld.state w) (RtWorld.sent w)).

Lemma others_in_order (w w' : RtWorld.t) : rtothers w w' -> in_order w -> in_order w'.
Proof. intros [w0 s|w0 env Z|w0 w1 E1 E2]; [by apply section_numbered|by apply send_numbered|by rewrite E1, E2]. Qed.

Lemma step_in_order (B : Type) (o : rtop B) (w : RtWorld.t) (b : option B) (w' : RtWorld.t) :
  rt_safe B o -> rtstep B o w b w' -> in_order w -> in_order w'.
Proof.
  destruct o; simpl; intros S X N; try (by destruct X as [_ ->]).
  - destruct S as [sec S], X as [_ ->]. simpl. rewrite S. by apply section_numbered.
  - destruct X as [_ ->]. by apply send_numbered.
Qed.

Lemma rt_run_in_order {A : Type} (p : rtprog A) (w w' : RtWorld.t) (t : list unit) (r : option A) :
  prog_all rt_safe p -> rtexec p w t r w' -> in_order w -> in_order w'.
Proof. apply (texec_stable_all _ _ _ _ (fun w => in_order w)); [apply others_in_order|apply step_in_order]. Qed.

Section Handlers.
Context `{ProtoCrates}.

Lemma safe_section (s : Sec) : prog_all rt_safe (section (run_sec s)).
Proof. split; [|done]. by exists (fun _ => s). Qed.

Lemma safe_read {A : Type} (f : RuntimeState.t -> A) : prog_all rt_safe (read_state f).
Proof. split; [|done]. by exists (fun _ => SRead). Qed.

Lemma safe_send (correlation : string) (payload : Payload.t) : prog_all rt_safe (send_connection correlation payload).
Proof. done. Qed.

Variable device_id : string.

Lemma safe_note_event (key : SessionKey.t) (event : DomainEvent.t) : prog_all rt_safe (note_event key event).
Proof. unfold note_event. prog_all_tac. Qed.

Lemma safe_dispatch (key : SessionKey.t) (event : DomainEvent.t) : prog_all rt_safe (dispatch_domain_event key event).
Proof.
  unfold dispatch_domain_event. prog_all_tac; apply (safe_section (SDispatch _ _ _)).
Qed.

Lemma safe_pump (key : SessionKey.t) (events : list DomainEvent.t) : prog_all rt_safe (pump_session key events).
Proof.
  induction events as [|event events IH]; [by split|]. cbn [pump_session]. apply prog_all_bind; [apply safe_note_event|]. intros _.
  apply prog_all_bind; [apply safe_dispatch|]. by intros _.
Qed.

Lemma safe_attach (key : SessionKey.t) : prog_all rt_safe (attach_session key).
Proof. unfold attach_session. prog_all_tac. Qed.

Lemma safe_codex_summaries (l : list SessionSummary.t) : prog_all rt_safe (codex_summaries l).
Proof. induction l as [|s l IH]; [done|]. cbn [codex_summaries]. apply prog_all_bind; [done|]. intros q. by apply prog_all_bind. Qed.

Lemma safe_zcode_summaries (l : list SessionSummary.t) : prog_all rt_safe (zcode_summaries l).
Proof. induction l as [|s l IH]; [done|]. cbn [zcode_summaries]. apply prog_all_bind; [done|]. intros q. by apply prog_all_bind. Qed.

Lemma safe_summaries (l : list SessionSummary.t) : prog_all rt_safe (list_summaries_of l).
Proof.
  unfold list_summaries_of. apply prog_all_bind; [apply safe_codex_summaries|]. intros c. prog_all_tac. apply safe_zcode_summaries.
Qed.

Lemma safe_establish_list (correlation : string) (up : option string) : prog_all rt_safe (establish_list_stream correlation up).
Proof.
  unfold establish_list_stream. apply prog_all_bind; [split; [by exists (fun _ => SOpenList up)|done]|]. intros [id e].
  apply prog_all_bind; [by split|]. intros _. apply prog_all_bind; [done|]. intros page. apply prog_all_bind; [apply safe_summaries|]. intros sums.
  apply prog_all_bind; [split; [by exists (fun _ => SCloseList correlation sums)|done]|]. intros []; prog_all_tac.
Qed.

Lemma safe_with_queue (key : SessionKey.t) (snapshot : RuntimeSnapshot.t) : prog_all rt_safe (with_queue key snapshot).
Proof. done. Qed.

Lemma safe_session_snapshot (key : SessionKey.t) (force : bool) : prog_all rt_safe (session_snapshot key force).
Proof. unfold session_snapshot, with_queue. prog_all_tac. Qed.

Lemma safe_establish_session (slot : SessionSlot) (correlation : string) (up : option string) (force : bool) :
  prog_all rt_safe (establish_session_stream device_id slot correlation up force).
Proof.
  unfold establish_session_stream. apply prog_all_bind; [apply safe_attach|]. intros _.
  apply prog_all_bind; [split; [by exists (fun _ => SOpenSession slot up)|done]|]. intros [id e].
  apply prog_all_bind; [by split|]. intros _. apply prog_all_bind; [apply safe_session_snapshot|]. intros [snapshot|err].
  - apply prog_all_bind; [by split|]. intros _. apply (safe_section (SCloseSession _ _ _)).
  - apply prog_all_bind; [by split|]. intros _. apply (safe_section (SFailSession _)).
Qed.

Lemma safe_for_each {A : Type} (f : A -> rtprog unit) (l : list A) : (forall x, prog_all rt_safe (f x)) -> prog_all rt_safe (for_each f l).
Proof. intros Hf. induction l as [|x l IH]; [done|]. cbn [for_each]. by apply prog_all_bind. Qed.

Lemma safe_resync : prog_all rt_safe (resync_inner device_id).
Proof.
  unfold resync_inner. apply prog_all_bind; [done|]. intros caps. apply prog_all_bind; [by split|]. intros _.
  apply prog_all_bind; [apply safe_read|]. intros has. apply prog_all_bind; [destruct has; [apply safe_establish_list|done]|]. intros _.
  apply prog_all_bind; [apply safe_read|]. intros slots. apply prog_all_bind; [apply safe_for_each; intros; apply safe_establish_session|]. intros _.
  apply prog_all_bind; [done|]. intros active. apply safe_for_each. intros. apply safe_attach.
Qed.

Lemma safe_refresh : prog_all rt_safe refresh_list_summary.
Proof.
  unfold refresh_list_summary. apply prog_all_bind; [apply safe_read|]. intros [[id e]|]; [|done]. apply prog_all_bind; [done|]. intros [page|]; [|done].
  apply prog_all_bind; [apply safe_summaries|]. intros sums. apply (safe_section (SRefresh _ _ _)).
Qed.

Lemma safe_observe (native : string) : prog_all rt_safe (observe_session device_id native).
Proof.
  unfold observe_session, update_power_state, observe_pressure. apply prog_all_bind; [done|]. intros cache. destruct (negb _); [done|].
  apply prog_all_bind; [done|]. intros [snapshot|]; [|done]. apply prog_all_bind; [done|]. intros snapshot'. apply prog_all_bind; [done|]. intros previous.
  apply prog_all_bind; [apply (safe_section (SConfirm _ _ _))|]. intros _. apply prog_all_bind; [|intros _; prog_all_tac].
  destruct (RuntimeSnapshot.current_turn _); [done|]. prog_all_tac. apply safe_refresh.
Qed.

(** The tasks of the runtime that send on streams. *)
Inductive handler : rtprog unit -> Prop :=
| HSubscribe target up correlation : handler (handle_subscribe device_id target up correlation)
| HStreamResync stream_id correlation : handler (handle_stream_resync device_id stream_id correlation)
| HUnsubscribe stream_id : handler (section (handle_unsubscribe stream_id))
| HResync : handler (resync_inner device_id)
| HPump key events : handler (pump_session key events)
| HExternal key event : handler (publish_external_event key event)
| HObserve native : handler (observe_session device_id native).

Lemma handler_safe (p : rtprog unit) : handler p -> prog_all rt_safe p.
Proof.
  intros [[[|key]|] up corr|id corr|id| |key events|key event|native].
  - apply safe_establish_list.
  - simpl. destruct (session_key_from_proto key); [apply safe_establish_session|by split].
  - by split.
  - apply prog_all_bind; [apply safe_read|]. intros [[slot|]|]; [apply safe_establish_session|apply safe_establish_list|done].
  - apply (safe_section (SUnsubscribe _)).
  - apply safe_resync.
  - apply safe_pump.
  - apply prog_all_bind; [apply safe_note_event|]. intros _. apply safe_dispatch.
  - apply safe_observe.
Qed.

(** The numbers of the outgoing streams.  Whatever the other tasks do, a task of the runtime leaves them in
    order: the envelopes of an epoch are numbered 1, 2, 3, ... in the order in which they are handed to the
    sink and all carry the same stream id, no epoch is shared by two streams or used again, a stream that still
    collects its snapshot has sent nothing, and the first envelope of a list is the whole list. *)
Theorem streams_in_order (p : rtprog unit) (w w' : RtWorld.t) (t : list unit) (r : option unit) :
  handler p -> rtexec p w t r w' -> in_order w -> in_order w'.
Proof. intros Hp. apply rt_run_in_order. by apply handler_safe. Qed.
End Handlers.

(** ** What a stream delivers *)

Definition events_of (envs : list Envelope.t) : list pb.DomainEvent.t :=
  concat (map (fun env => match Envelope.payload env with Some (Payload.EventBatch b) => pb.EventBatch.events b | _ => [] end) envs).

(** The events a section hands to the stream of [slot]. *)
Definition dispatched_by (slot : SessionSlot) (s : Sec) : list pb.DomainEvent.t :=
  match s with SDispatch slot' event _ => if decide (slot' = slot) then [event] else [] | _ => [] end.

(** The section neither opens the stream again, nor ends it, nor gives up its snapshot. *)
Definition keeps (slot : SessionSlot) (stream_id : string) (s : Sec) : Prop :=
  match s with
  | SOpenSession slot' _ | SFailSession slot' => slot' <> slot
  | SUnsubscribe id => id <> stream_id
  | _ => True
  end.

(** Either everything waits for the snapshot, or the snapshot came first and all events after it. *)
Definition delivers (evs : list pb.DomainEvent.t) (s : StreamState.t) (old : list Envelope.t) : Prop :=
  (StreamState.buffering s = true /\ old = [] /\ StreamState.buffer s = evs) \/
  (StreamState.buffering s = false /\ StreamState.buffer s = [] /\
   exists head snapshot rest, old = head :: rest /\ Envelope.payload head = Some (Payload.RuntimeSnapshot snapshot) /\ events_of rest = evs).

Definition delivering (slot : SessionSlot) (e : Z) (id : string) (evs : list pb.DomainEvent.t) (st : RuntimeState.t) (sent : list Envelope.t) : Prop :=
  exists s, stream_at st (Some slot) = Some s /\ StreamState.epoch s = e /\ StreamState.stream_id s = id /\ delivers evs s (of_epoch e sent).

Lemma events_of_app (l k : list Envelope.t) : events_of (l ++ k) = events_of l ++ events_of k.
Proof. unfold events_of. by rewrite map_app, concat_app. Qed.

Lemma send_each_events (l : list pb.DomainEvent.t) (s : StreamState.t) :
  events_of (send_each send_event l s).2 = l /\ StreamState.buffering (send_each send_event l s).1 = StreamState.buffering s /\
  StreamState.buffer (send_each send_event l s).1 = StreamState.buffer s.
Proof.
  revert s. induction l as [|x l IH]; intros s; [done|]. cbn [send_each send_event send_next StreamState.assign_sequence].
  match goal with |- context [send_each send_event l ?s'] => destruct (IH s') as (E & B & F); destruct (send_each send_event l s') as [s2 rest] end.
  cbn [fst snd] in *. split; [|done]. rewrite events_of_app, E. done.
Qed.

Lemma delivers_close (slot : SessionSlot) (correlation : string) (snapshot : pb.RuntimeSnapshot.t) (evs : list pb.DomainEvent.t)
    (s : StreamState.t) (old : list Envelope.t) :
  delivers evs s old -> delivers evs (close_with correlation (Payload.RuntimeSnapshot snapshot) send_event s).1
    (old ++ (close_with correlation (Payload.RuntimeSnapshot snapshot) send_event s).2).
Proof.
  intros D. unfold close_with. cbn [send_next StreamState.assign_sequence].
  match goal with |- context [send_each send_event ?l ?s'] => destruct (send_each_events l s') as (E & B & F); destruct (send_each send_event l s') as [s2 rest] end.
  cbn [fst snd] in *. right. split; [done|]. split; [done|]. destruct D as [(_ & -> & <-)|(_ & Bf & head & sn & r & -> & P & Ev)].
  - eexists _, snapshot, rest. done.
  - eexists head, sn, _. split; [simpl; reflexivity|]. split; [done|]. rewrite events_of_app, Ev. simpl. unfold events_of at 1. simpl.
    fold (events_of rest). rewrite E. simpl. by rewrite Bf, app_nil_r.
Qed.

Lemma delivers_event (event : pb.DomainEvent.t) (evs : list pb.DomainEvent.t) (s : StreamState.t) (old : list Envelope.t) :
  delivers evs s old ->
  delivers (evs ++ [event])
    (if StreamState.buffering s then (StreamState.with_buffer (StreamState.buffer s ++ [event]) s, []) else send_event event s).1
    (old ++ (if StreamState.buffering s then (StreamState.with_buffer (StreamState.buffer s ++ [event]) s, []) else send_event event s).2).
Proof.
  intros [(B & -> & <-)|(B & Bf & head & sn & r & -> & P & Ev)]; rewrite B; simpl.
  - left. done.
  - right. split; [done|]. split; [done|]. eexists head, sn, _. split; [reflexivity|]. split; [done|]. by rewrite events_of_app, Ev.
Qed.

Lemma delivers_confirm (changed : bool) (snapshot : pb.RuntimeSnapshot.t) (evs : list pb.DomainEvent.t) (s : StreamState.t) (old : list Envelope.t) :
  delivers evs s old ->
  delivers evs (if negb (StreamState.buffering s) && changed then send_next "" (Payload.RuntimeSnapshot snapshot) s else (s, [])).1
    (old ++ (if negb (StreamState.buffering s) && changed then send_next "" (Payload.RuntimeSnapshot snapshot) s else (s, [])).2).
Proof.
  intros D. destruct (negb _ && changed) eqn:C; simpl; [|by rewrite app_nil_r]. apply andb_prop in C as [B%negb_true_iff _].
  destruct D as [(B' & _)|(_ & Bf & head & sn & r & -> & P & Ev)]; [congruence|].
  right. split; [done|]. split; [done|]. eexists head, sn, _. split; [reflexivity|]. split; [done|]. rewrite events_of_app, Ev. by rewrite app_nil_r.
Qed.

Lemma own_delivering (slot : SessionSlot) (e : Z) (id : string) (evs new : list pb.DomainEvent.t) (f : StreamState.t -> StreamState.t * list Envelope.t)
    (st : RuntimeState.t) (sent : list Envelope.t) :
  (forall s, good_step (Some slot) s (f s)) -> (forall s old, delivers evs s old -> delivers (evs ++ new) (f s).1 (old ++ (f s).2)) ->
  numbered st sent -> delivering slot e id evs st sent ->
  delivering slot e id (evs ++ new) (on_stream (Some slot) f st).1 (sent ++ (on_stream (Some slot) f st).2).
Proof.
  intros G F N (s & At & Es & Is & D). unfold on_stream. rewrite At. pose proof (F _ _ D) as D'. pose proof (G s) as Gs.
  destruct (f s) as [s' rest]. cbn [fst snd] in *. destruct (stream_ok_next _ _ _ _ (nb_streams _ _ N _ _ At)) as [P _].
  pose proof (sent_of_epoch _ _ _ _ (gs_step _ _ _ Gs) P e) as E. rewrite Es, Z.eqb_refl in E. destruct Gs as [[X1 X2 _ _ _] _ _ _]. cbn [fst snd] in *.
  exists s'. split; [simpl; apply lookup_insert_eq|]. split; [congruence|]. split; [congruence|]. by rewrite of_epoch_app, E.
Qed.

Lemma other_delivering (slot : SessionSlot) (at_ : option SessionSlot) (e : Z) (id : string) (evs : list pb.DomainEvent.t)
    (f : StreamState.t -> StreamState.t * list Envelope.t) (st : RuntimeState.t) (sent : list Envelope.t) :
  at_ <> Some slot -> (forall s, good_step at_ s (f s)) -> numbered st sent -> delivering slot e id evs st sent ->
  delivering slot e id evs (on_stream at_ f st).1 (sent ++ (on_stream at_ f st).2).
Proof.
  intros Ne G N (s & At & Es & Is & D). unfold on_stream. destruct (stream_at st at_) as [u|] eqn:Au; [|rewrite app_nil_r; by exists s].
  pose proof (G u) as Gu. destruct (f u) as [u' rest]. cbn [fst snd]. destruct (stream_ok_next _ _ _ _ (nb_streams _ _ N _ _ Au)) as [P _].
  pose proof (sent_of_epoch _ _ _ _ (gs_step _ _ _ Gu) P e) as E. exists s. split; [rewrite stream_at_set; by rewrite decide_False|].
  split; [done|]. split; [done|]. rewrite of_epoch_app, E. destruct (Z.eqb_spec e (StreamState.epoch u)) as [Eu|]; [|by rewrite app_nil_r].
  destruct Ne. eapply (nb_distinct _ _ N); [done..|congruence].
Qed.

Lemma open_delivering (slot : SessionSlot) (a : option SessionSlot) (e : Z) (id : string) (evs : list pb.DomainEvent.t) (s : StreamState.t)
    (st st' : RuntimeState.t) (sent : list Envelope.t) :
  a <> Some slot -> (forall b, stream_at st' b = stream_at st b) -> delivering slot e id evs st sent ->
  delivering slot e id evs (set_stream st' a s) sent.
Proof.
  intros Ne A (u & At & R). exists u. split; [|done]. rewrite stream_at_set, decide_False by done. by rewrite A.
Qed.

Lemma section_delivering (slot : SessionSlot) (e : Z) (id : string) (evs : list pb.DomainEvent.t) (s : Sec) (st : RuntimeState.t) (sent : list Envelope.t) :
  keeps slot id s -> numbered st sent -> delivering slot e id evs st sent ->
  delivering slot e id (evs ++ dispatched_by slot s) (run_sec s st).1 (sent ++ (run_sec s st).2).
Proof.
  intros K N D. destruct s as [up|slot' up|corr sums|slot' corr snap|slot'|slot' event is_sum|slot' changed snap|id' e' sums|id'|]; simpl in K;
    cbn [dispatched_by]; try rewrite (app_nil_r evs); cbn [run_sec fst snd].
  - rewrite app_nil_r. apply (open_delivering slot None e id evs _ st (RuntimeState.mk (RuntimeState.epoch_counter st + 1) (RuntimeState.list_stream st) (RuntimeState.session_streams st))); [done|by intros []|done].
  - rewrite app_nil_r. apply (open_delivering slot (Some slot') e id evs _ st (RuntimeState.mk (RuntimeState.epoch_counter st + 1) (RuntimeState.list_stream st) (RuntimeState.session_streams st))); [congruence|by intros []|done].
  - by apply (other_delivering slot None); [|apply good_close_list|..].
  - destruct (decide (slot' = slot)) as [->|Ne].
    + rewrite <- (app_nil_r evs). apply own_delivering; [apply good_close_session| |done..]. intros s old. rewrite app_nil_r. by apply delivers_close.
    + by apply (other_delivering slot (Some slot')); [congruence|apply good_close_session|..].
  - by apply (other_delivering slot (Some slot')); [congruence|apply good_fail|..].
  - assert (D1 : delivering slot e id (evs ++ if decide (slot' = slot) then [event] else []) (dispatch_session slot' event st).1
      (sent ++ (dispatch_session slot' event st).2)).
    { case_decide as Eq.
      - subst slot'. apply own_delivering; [apply good_dispatch_session| |done..]. intros s old. apply delivers_event.
      - rewrite app_nil_r. by apply (other_delivering slot (Some slot')); [congruence|apply good_dispatch_session|..]. }
    simpl. unfold dispatch_locked. destruct is_sum; [|done]. pose proof (dispatch_numbered slot' event _ _ N) as N1. unfold then_section.
    destruct (dispatch_session slot' event st) as [st1 s1]. cbn [fst snd] in *.
    pose proof (other_delivering slot None e id _ _ st1 _ ltac:(done) (good_dispatch_list event) N1 D1) as D2. unfold dispatch_list.
    change (on_list ?f) with (on_stream None f). destruct (on_stream None _ st1) as [st2 s2]. cbn [fst snd] in *. by rewrite app_assoc.
  - destruct (decide (slot' = slot)) as [->|Ne].
    + rewrite <- (app_nil_r evs). apply own_delivering; [apply good_confirm| |done..]. intros s old. rewrite app_nil_r. by apply delivers_confirm.
    + by apply (other_delivering slot (Some slot')); [congruence|apply good_confirm|..].
  - by apply (other_delivering slot None); [|apply good_refresh|..].
  - destruct D as (s & At & Es & Is & D). simpl in At. exists s. split; [|simpl; by rewrite app_nil_r]. simpl. destruct (list_is id' st); [done|].
    simpl. apply map_lookup_filter_Some. split; [done|]. congruence.
  - simpl. by rewrite app_nil_r.
Qed.

Fixpoint run_secs (secs : list Sec) : Section_ :=
  match secs with
  | [] => fun st => (st, [])
  | s :: secs => then_section (run_sec s) (run_secs secs)
  end.

Lemma sections_delivering (slot : SessionSlot) (e : Z) (id : string) (secs : list Sec) (evs : list pb.DomainEvent.t) (st : RuntimeState.t)
    (sent : list Envelope.t) :
  Forall (keeps slot id) secs -> numbered st sent -> delivering slot e id evs st sent ->
  delivering slot e id (evs ++ concat (map (dispatched_by slot) secs)) (run_secs secs st).1 (sent ++ (run_secs secs st).2).
Proof.
  revert evs st sent. induction secs as [|s secs IH]; intros evs st sent K N D; cbn [run_secs map concat].
  - by rewrite !app_nil_r.
  - apply Forall_cons in K as [K Ks]. unfold then_section. pose proof (section_numbered s _ _ N) as N1.
    pose proof (section_delivering slot e id evs s _ _ K N D) as D1. destruct (run_sec s st) as [st1 s1]. cbn [fst snd] in N1, D1.
    pose proof (IH _ _ _ Ks N1 D1) as D2. destruct (run_secs secs st1) as [st2 s2]. cbn [fst snd] in *. by rewrite <- !app_assoc in D2.
Qed.

(** C10. A subscription to a session.  From the moment its stream is opened, whatever sections of other handlers run
    in between: as long as the stream is not opened again or ended and its snapshot is not given up, it either
    still collects, nothing of the epoch is sent and all events since wait in order, or its first envelope is
    the snapshot and all events handed to it since follow, each once and in order. *)
Theorem subscription_delivers_in_order (slot : SessionSlot) (upstream_id : option string) (secs : list Sec) (st : RuntimeState.t)
    (sent : list Envelope.t) :
  let '((id, e), st1) := open_session slot upstream_id st in
  numbered st sent -> Forall (keeps slot id) secs ->
  exists s, stream_at (run_secs secs st1).1 (Some slot) = Some s /\ StreamState.epoch s = e /\ StreamState.stream_id s = id /\
    delivers (concat (map (dispatched_by slot) secs)) s (of_epoch e (sent ++ (run_secs secs st1).2)).
Proof.
  unfold open_session. cbv zeta. intros N K. set (s0 := open_stream _ _ _ _ _) in *. set (st1 := RuntimeState.mk _ _ _).
  pose proof (section_numbered (SOpenSession slot upstream_id) _ _ N) as N1.
  change ((run_sec (SOpenSession slot upstream_id) st).1) with st1 in N1. simpl in N1. rewrite app_nil_r in N1.
  apply (sections_delivering slot _ _ secs []); [done..|]. exists s0. split; [apply lookup_insert_eq|]. split; [done|]. split; [done|]. left.
  split; [done|]. split; [|done]. assert (At : stream_at st1 (Some slot) = Some s0) by apply lookup_insert_eq.
  by apply (so_buffering _ _ _ _ (nb_streams _ _ N1 _ _ At)).
Qed.

(** ** Concrete runs *)

Lemma default_in_order : in_order RtWorld.default.
Proof.
  split; simpl; try done.
  - by exists "".
  - by intros [slot|] s.
  - by intros [slot|] b s t.
Qed.

Module RuntimeDemo.
#[local] Instance demo_crates : ProtoCrates :=
  { dt_timestamp := fun _ => 0; dt_subsec_nanos := fun _ => 0; dt_from_timestamp := fun _ _ => None; uuid_parse_str := fun _ => None }.

Definition event (n : Z) : pb.DomainEvent.t :=
  pb.DomainEvent.mk None (Some (pb.DomainEvent.TurnLifecycle (pb.TurnLifecycle.mk None n 0 None))).

Definition slot : SessionSlot := (AgentKind.CodexDesktop, "s").

(** A list is subscribed: the confirmation, then the list with number 1. *)
Definition subscribed : list Envelope.t :=
  [subscribed_envelope "c" "list" 1;
   Envelope.mk "" "c" "list" 1 1 (Some (Payload.SessionSummaryBatch (pb.SessionSummaryBatch.mk [] true)))].

Lemma streams_in_order_witness : exists w',
  in_order w' /\ RtWorld.sent w' = subscribed /\ of_epoch 1 (RtWorld.sent w') = drop 1 subscribed.
Proof.
  assert (X : exists t w', rtexec (handle_subscribe "dev" (Some ListTarget) None "c") RtWorld.default t (Some tt) w' /\ RtWorld.sent w' = subscribed).
  { exists []. eexists. split.
    - eexists _, _, _. split_and!; [done..|]. exists []. split; [|done].
      eexists _, _, _. split_and!; [done..|]. exists []. split; [|done].
      eexists _, (Some None), _. split_and!; [done|done|]. exists []. split; [|done].
      eexists _, (Some false), _. split_and!; [done|done|]. exists []. split; [|done].
      eexists _, _, _. split_and!; [done..|]. exists []. split; [|done].
      eexists _, (Some 0), _. split_and!; [done|done|]. exists []. split; [|done].
      eexists _, _, _. split_and!; [done..|]. exists []. split; [|done]. done.
    - reflexivity. }
  destruct X as (t & w' & X & E). exists w'. split_and!.
  - exact (streams_in_order "dev" _ _ _ _ _ (HSubscribe "dev" (Some ListTarget) None "c") X default_in_order).
  - done.
  - rewrite E. reflexivity.
Defined.

Definition snapshot (revision : Z) : pb.RuntimeSnapshot.t :=
  pb.RuntimeSnapshot.mk revision None None [] [] [] [] 0 None None [].

(** One event before the snapshot, one after it. *)
Lemma subscription_delivers_in_order_witness : exists s,
  stream_at (run_secs [SDispatch slot (event 1) false; SCloseSession slot "c" (snapshot 7); SDispatch slot (event 2) false]
    (open_session slot (Some "up") RuntimeState.default).2).1 (Some slot) = Some s /\
  delivers [event 1; event 2] s
    (of_epoch 1 (run_secs [SDispatch slot (event 1) false; SCloseSession slot "c" (snapshot 7); SDispatch slot (event 2) false]
      (open_session slot (Some "up") RuntimeState.default).2).2).
Proof.
  destruct (subscription_delivers_in_order slot (Some "up")
    [SDispatch slot (event 1) false; SCloseSession slot "c" (snapshot 7); SDispatch slot (event 2) false] RuntimeState.default []
    default_in_order ltac:(by repeat constructor)) as (s & At & _ & _ & D). by exists s.
Defined.

(** When the snapshot cannot be read, what was collected stays behind and the epoch begins with an event. *)
Lemma failed_snapshot_strands_events :
  let '(st, sent) := run_secs [SDispatch slot (event 1) false; SFailSession slot; SDispatch slot (event 2) false]
    (open_session slot (Some "up") RuntimeState.default).2 in
  (exists s, stream_at st (Some slot) = Some s /\ StreamState.buffering s = false /\ StreamState.buffer s = [event 1]) /\
  map Envelope.sequence sent = [1] /\ events_of sent = [event 2].
Proof. split; [by eexists|done]. Qed.
End RuntimeDemo.
