(* ===== verification/Requests.v ===== *)
(** * The runtime of the Bridge: incoming messages ([runtime/mod.rs])

    Queries, commands and the dispatch of an envelope, as programs over the operations of the streams
    ([Runtime]), of the gateway ([Concurrent]) and of transfers ([Upload]). *)

From Stdlib Require Import Ascii.
From S2P Require Import Prelude Bytes Prog RustStr Domain Proto LocalStore FilePolicy Grants Upload Concurrent Queue Gateway ProtoMapping Adapter Runtime.

(** ** Git, as far as its results are read here ([git/mod.rs]) *)

Module FileEntry.
Record t := mk {
  path : string;
  orig_path : option string;
  index_status : Ascii.ascii;
  worktree_status : Ascii.ascii;
}.
End FileEntry.

(** [root_display_name]: the last part of the path of the root. *)
Module GitSummary.
Record t := mk {
  detached_head : bool;
  branch : option string;
  head_full : option string;
  head_short : option string;
  root_display_name : option string;
  staged : list FileEntry.t;
  unstaged : list FileEntry.t;
  untracked : list FileEntry.t;
  total_added_lines : Z;
  total_deleted_lines : Z;
  binary_files : list string;
}.
End GitSummary.

Module FileDiff.
Record t := mk {
  relative_path : string;
  staged : bool;
  content : list byte;
  truncated : bool;
}.
End FileDiff.

(** The error of the Git service: its stable code and its text. *)
Module GitError.
Record t := mk {
  stable_code : string;
  text : string;
}.
End GitError.

Definition stable_code_from_str (code : string) : StableErrorCode.t :=
  if bool_decide (code = "FILE_HANDLE_INVALID") then StableErrorCode.FileHandleInvalid
  else if bool_decide (code = "FILE_OUTSIDE_SCOPE") then StableErrorCode.FileOutsideScope
  else if bool_decide (code = "FILE_CHANGED") then StableErrorCode.FileChanged
  else if bool_decide (code = "FILE_TYPE_NOT_PREVIEWABLE") then StableErrorCode.FileTypeNotPreviewable
  else if bool_decide (code = "TRANSFER_EXPIRED") then StableErrorCode.TransferExpired
  else if bool_decide (code = "TRANSFER_TOO_LARGE") then StableErrorCode.TransferTooLarge
  else if bool_decide (code = "TRANSFER_RANGE_INVALID") then StableErrorCode.TransferRangeInvalid
  else if bool_decide (code = "RATE_LIMITED") then StableErrorCode.RateLimited
  else if bool_decide (code = "DIFF_TOO_LARGE") then StableErrorCode.DiffTooLarge
  else StableErrorCode.InternalError.

Definition git_err (err : GitError.t) : BridgeError.t := BridgeError.mk (stable_code_from_str (GitError.stable_code err)) (GitError.text err).
Definition FilesError_display (e : FilesError.t) : string :=
  match e with
  | FilesError.HandleInvalid reason => "file handle invalid: " +:+ reason
  | FilesError.OutsideScope => "path outside authorized scope"
  | FilesError.Changed => "file changed since handle was issued"
  | FilesError.NotPreviewable NotPreviewableReason.TypeUnsupported => "file type not previewable: type unsupported for inline preview"
  | FilesError.NotPreviewable (NotPreviewableReason.SizeLimit size limit) =>
      "file type not previewable: size " +:+ pretty size +:+ " exceeds preview limit " +:+ pretty limit
  | FilesError.TransferExpired => "transfer expired"
  | FilesError.TooLarge => "transfer too large"
  | FilesError.RangeInvalid => "transfer range invalid"
  | FilesError.Io => "io error"
  | FilesError.TooManyTransfers => "too many active transfers"
  | FilesError.Internal reason => "internal error: " +:+ reason
  end.

Definition files_err (err : FilesError.t) : BridgeError.t := BridgeError.mk (stable_code_from_str (FilesError.stable_code err)) (FilesError_display err).
Definition store_err (err : StoreError.t) : BridgeError.t := BridgeError.mk StableErrorCode.InternalError (StoreError.display err).

Definition git_entries (summary : GitSummary.t) : list pb.GitStatusEntry.t :=
  map (fun e => pb.GitStatusEntry.mk (FileEntry.path e) "untracked" false) (GitSummary.untracked summary) ++
  map (fun e => pb.GitStatusEntry.mk (FileEntry.path e)
    (match FileEntry.index_status e with
     | "A"%char => "added"
     | "M"%char => "modified"
     | "D"%char => "deleted"
     | "R"%char | "C"%char => "renamed"
     | _ => "staged"
     end) true) (GitSummary.staged summary) ++
  map (fun e => pb.GitStatusEntry.mk (FileEntry.path e)
    (match FileEntry.worktree_status e with
     | "M"%char => "modified"
     | "D"%char => "deleted"
     | _ => "unstaged"
     end) false) (GitSummary.unstaged summary).

(** ** Pages of an output *)

(** [end.to_string()], [cursor.parse().unwrap_or(0)]. *)
Definition cursor_offset (cursor : string) : Z := default 0 (parse_u64 cursor).

Definition page_limit (page_size : Z) : Z := if page_size =? 0 then OUTPUT_PAGE_MAX else Z.min page_size OUTPUT_PAGE_MAX.

(** [usize::saturating_add]. *)
Definition saturating_add (a b : Z) : Z := Z.min (a + b) u64_max.

(** The bytes of a page of the buffer, its length and whether it is final. *)
Definition buffered_page (offset limit : Z) (b : OutputBuffer.t) : list byte * Z * bool :=
  let data := OutputBuffer.data b in
  let start := Z.min offset (zlen data) in
  let end_ := Z.min (saturating_add start limit) (zlen data) in
  (take (Z.to_nat (end_ - start)) (drop (Z.to_nat start) data), zlen data, OutputBuffer.is_final b).

Definition output_page_result (item : pb.ItemId.t) (offset : Z) (found : list byte * Z * bool) : pb.CommandOutputPage.t :=
  let '(chunk, total_len, output_final) := found in
  let end_ := saturating_add (Z.min offset total_len) (zlen chunk) in
  pb.CommandOutputPage.mk (Some (pb.ItemId.mk (pb.ItemId.id item) (pb.ItemId.synthetic item)))
    (if end_ <? total_len then pretty end_ else "")
    chunk (output_final && (total_len <=? end_)) (pb.OutputChannel.as_i32 pb.OutputChannel.Combined).

(** ** The operations of a handler *)

(** A task that a handler starts. *)
Inductive Started :=
| SubscribeTask (target : option Target) (upstream_id : option string) (correlation : string)
| ResyncTask (stream_id correlation : string)
| QueryTask (query : pb.QueryRequest.t) (correlation : string)
| ReceiptsTask (receipts : Uuid) (correlation : string).

Inductive qop : Type -> Type :=
| OnRuntime {A : Type} (o : rtop A) : qop A
| OnGateway {A : Type} (o : Concurrent.op A) : qop A
| OnTransfer {A : Type} (o : rop A) : qop A
(* [handle_zcode_command] of [Zcode], which sends its own answers; whether it took the command *)
| ZcodeCommand (correlation : string) (request : pb.CommandRequest.t) : qop bool
| AdapterHistoryPage (key : SessionKey.t) (cursor : option string) (page_size : Z) : qop (res AdapterError.t HistoryPage.t)
| AdapterOutputPage (key : SessionKey.t) (item : ItemId.t) (offset limit : Z) : qop (option (list byte * Z * bool))
| AdapterSessionCwd (key : SessionKey.t) : qop (option string)
| GitAvailable : qop bool
| ListWorkspaces : qop (res StoreError.t (list string))
| GitReadSummary (roots : list string) (cwd : string) : qop (res GitError.t GitSummary.t)
| GitReadFileDiff (roots : list string) (cwd relative_path : string) (staged : bool) : qop (res GitError.t FileDiff.t)
| CancelTransfer (transfer_id : string) : qop unit
(* what the channel of receipts yields until it closes *)
| ReceiptsOf (receipts : Uuid) : qop (list CommandReceipt.t)
| SpawnTask (task : Started) : qop unit.

Notation qprog := (Prog.prog qop).

Definition on_runtime {A : Type} (p : rtprog A) : qprog A := prog_map (fun B o => OnRuntime o) p.
Definition on_gateway {A : Type} (p : Concurrent.prog A) : qprog A := prog_map (fun B o => OnGateway o) p.
Definition on_transfer {A : Type} (p : rprog A) : qprog A := prog_map (fun B o => OnTransfer o) p.

Section Requests.
Context `{ProtoCrates} `{Conversions} `{Infer}.
Variable device_id upload_root : string.

Definition bridge_err {A : Type} (code : StableErrorCode.t) (message : string) : res BridgeError.t A := Err (BridgeError.mk code message).

Definition q_send (correlation : string) (payload : Payload.t) : qprog unit := on_runtime (send_connection correlation payload).

(** ** Queries *)

Definition require_key (session_key : option SessionKey.t) : res BridgeError.t SessionKey.t :=
  ok_or (BridgeError.mk StableErrorCode.InternalError "query requires session key") session_key.

(** The session must belong to Codex. *)
Definition require_codex (code : StableErrorCode.t) (message : string) (key : SessionKey.t) : res BridgeError.t unit :=
  if bool_decide (SessionKey.agent_kind key <> AgentKind.CodexDesktop) then bridge_err code message else Ok tt.

Definition query_runtime_snapshot (session_key : option SessionKey.t) : qprog (res BridgeError.t pb.QueryResponse.Result) :=
  try? key <- lift (require_key session_key);
  try? snapshot <-
    (match SessionKey.agent_kind key with
     | AgentKind.CodexDesktop =>
         do snapshot <- act (OnRuntime (AdapterRefreshSnapshot key));
         Ret (map_err adapter_err snapshot)
     | AgentKind.ZcodeDesktop =>
         do attached <- act (OnRuntime ZcodeAttached);
         if attached : bool then do snapshot <- act (OnRuntime (ZcodeRuntimeSnapshot key)); Ret (Ok snapshot)
         else Ret (Err not_attached)
     end);
  do snapshot <- on_runtime (with_queue key snapshot);
  perform on_runtime (note_snapshot (slot_of key) snapshot);
  Ret (Ok (pb.QueryResponse.RuntimeSnapshot (runtime_snapshot_to_proto snapshot))).

Definition non_empty (value : string) : option string := if bool_decide (value = "") then None else Some value.

Definition query_history_page (session_key : option SessionKey.t) (cursor : string) (page_size : Z) :
    qprog (res BridgeError.t pb.QueryResponse.Result) :=
  try? key <- lift (require_key session_key);
  try? _ <- lift (require_codex StableErrorCode.CapabilityUnsupported "history is not available for zcode hook sessions" key);
  let page_size := if page_size =? 0 then 50 else Z.min page_size 200 in
  do page <- act (AdapterHistoryPage key (non_empty cursor) page_size);
  try? page <- lift (map_err adapter_err page);
  Ret (Ok (pb.QueryResponse.HistoryPage (history_page_to_proto page))).

Definition query_command_output_page (session_key : option SessionKey.t) (page : pb.CommandOutputPageQuery.t) :
    qprog (res BridgeError.t pb.QueryResponse.Result) :=
  try? key <- lift (require_key session_key);
  try? _ <- lift (require_codex StableErrorCode.CapabilityUnsupported "command output is not available for zcode hook sessions" key);
  try? item <- lift (ok_or (BridgeError.mk StableErrorCode.InternalError "missing item id") (pb.CommandOutputPageQuery.item_id page));
  let offset := cursor_offset (pb.CommandOutputPageQuery.cursor page) in
  let limit := page_limit (pb.CommandOutputPageQuery.page_size page) in
  do buffered <- act (OnRuntime (OnOutputs (A := option (list byte * Z * bool)) (fun o =>
    (match o !! slot_of key with
     | Some items => buffered_page offset limit <$> items !! pb.ItemId.id item
     | None => None
     end, o))));
  do found <-
    (match buffered with
     | Some found => Ret (Some found)
     | None => act (AdapterOutputPage key (ItemId.mk (pb.ItemId.id item) (pb.ItemId.synthetic item)) offset limit)
     end);
  try? found <- lift (ok_or (BridgeError.mk StableErrorCode.ResyncRequired "output unavailable in current authoritative snapshot") found);
  Ret (Ok (pb.QueryResponse.CommandOutputPage (output_page_result item offset found))).

(** The authorised roots and the directory of the session. *)
Definition git_inputs (session_key : option SessionKey.t) : qprog (res BridgeError.t (list string * string)) :=
  try? key <- lift (require_key session_key);
  try? _ <- lift (require_codex StableErrorCode.SessionNotFound "git data is not available for this agent kind" key);
  do git <- act GitAvailable;
  if negb git then Ret (bridge_err StableErrorCode.InternalError "git executable unavailable")
  else
    do cwd <- act (AdapterSessionCwd key);
    try? cwd <- lift (ok_or (BridgeError.mk StableErrorCode.SessionNotFound "session cwd unknown (no runtime snapshot)") cwd);
    do roots <- act ListWorkspaces;
    try? roots <- lift (map_err store_err roots);
    Ret (Ok (roots, cwd)).

Definition query_git_summary (session_key : option SessionKey.t) : qprog (res BridgeError.t pb.QueryResponse.Result) :=
  try? inputs <- git_inputs session_key;
  do summary <- act (GitReadSummary inputs.1 inputs.2);
  try? summary <- lift (map_err git_err summary);
  Ret (Ok (pb.QueryResponse.GitSummary (pb.GitSummaryData.mk
    (default "" (GitSummary.branch summary)) (GitSummary.detached_head summary)
    (default "" (GitSummary.head_short summary)) (default "" (GitSummary.head_full summary))
    (default "" (GitSummary.root_display_name summary)) (git_entries summary)
    (as_i64 (GitSummary.total_added_lines summary)) (as_i64 (GitSummary.total_deleted_lines summary)) (GitSummary.binary_files summary)))).

Definition query_git_file_diff (session_key : option SessionKey.t) (diff : pb.GitFileDiffQuery.t) : qprog (res BridgeError.t pb.QueryResponse.Result) :=
  try? inputs <- git_inputs session_key;
  do result <- act (GitReadFileDiff inputs.1 inputs.2 (pb.GitFileDiffQuery.relative_path diff) (pb.GitFileDiffQuery.staged diff));
  try? result <- lift (map_err git_err result);
  let binary := negb (utf8_valid (FileDiff.content result)) in
  Ret (Ok (pb.QueryResponse.GitFileDiff (pb.GitFileDiffData.mk
    (FileDiff.relative_path result) (FileDiff.staged result)
    (if binary then "" else String.string_of_list_byte (FileDiff.content result))
    (FileDiff.truncated result) (zlen (FileDiff.content result)) binary))).

Definition preview_kind_of (classification : Classification.t) (previewable : bool) : string :=
  if negb previewable then "none"
  else match classification with
       | Classification.InlineText => "text"
       | Classification.InlineImage _ => "image"
       | Classification.InlinePdf => "pdf"
       | Classification.Attachment _ => "none"
       end.

Definition query_file_metadata (session_key : option SessionKey.t) (meta : pb.FileMetadataQuery.t) : qprog (res BridgeError.t pb.QueryResponse.Result) :=
  try? key <- lift (require_key session_key);
  try? _ <- lift (require_codex StableErrorCode.FileOutsideScope "file transfers are not available for this agent kind" key);
  do verified <- on_transfer (on_files (resolve_either device_id (SessionKey.native_session_id key) (pb.FileMetadataQuery.file_handle meta)));
  try? verified <- lift (map_err files_err verified);
  let verified := verified.1 in
  do prefix <- act (OnTransfer (OnFiles (ReadExact (VerifiedFile.file verified) (Z.min SNIFF_PREFIX_BYTES (VerifiedFile.size verified)))));
  try? prefix <- lift (ok_or (BridgeError.mk StableErrorCode.InternalError "read failed") prefix);
  let classification := classify prefix in
  let previewable := match check_preview classification (VerifiedFile.size verified) with Ok _ => true | Err _ => false end in
  Ret (Ok (pb.QueryResponse.FileMetadata (pb.FileMetadataData.mk
    (rsplit_next slash (FileHandle.relative_path (VerifiedFile.handle verified)))
    (Classification.content_type classification) (VerifiedFile.size verified) (preview_kind_of classification previewable)
    (if previewable then "" else StableErrorCode.as_str StableErrorCode.FileTypeNotPreviewable)
    (FileHandle.token (VerifiedFile.handle verified))))).

Definition handle_query (request : pb.QueryRequest.t) (correlation : string) : qprog unit :=
  let session_key := pb.QueryRequest.session_key request ≫= session_key_from_proto in
  do result <-
    (match pb.QueryRequest.query request with
     | Some (pb.QueryRequest.RuntimeSnapshot _) => query_runtime_snapshot session_key
     | Some (pb.QueryRequest.HistoryPage page) =>
         query_history_page session_key (pb.HistoryPageQuery.cursor page) (pb.HistoryPageQuery.page_size page)
     | Some (pb.QueryRequest.CommandOutputPage page) => query_command_output_page session_key page
     | Some (pb.QueryRequest.GitSummary _) => query_git_summary session_key
     | Some (pb.QueryRequest.GitFileDiff diff) => query_git_file_diff session_key diff
     | Some (pb.QueryRequest.FileMetadata meta) => query_file_metadata session_key meta
     | None => Ret (bridge_err StableErrorCode.InternalError "query without target")
     end);
  q_send correlation (Payload.QueryResponse
    (match result with
     | Ok result => pb.QueryResponse.mk correlation (Some result) 0
     | Err err => pb.QueryResponse.mk correlation None (pb.StableErrorCode.as_i32 (stable_error_to_proto (BridgeError.code err)))
     end)).

(** ** Commands *)

Definition send_command_result (correlation request_id : string) (status : pb.CommandReceiptStatus.t) (error_code : option pb.StableErrorCode.t) :
    qprog unit :=
  q_send correlation (Payload.CommandResult (pb.CommandResult.mk request_id (pb.CommandReceiptStatus.as_i32 status)
    (default 0 (pb.StableErrorCode.as_i32 <$> error_code)) ∅ None)).

Definition send_accepted (correlation request_id : string) (accepted_at : DateTime) : qprog unit :=
  q_send correlation (Payload.CommandAccepted (pb.CommandAccepted.mk request_id
    (pb.CommandReceiptStatus.as_i32 pb.CommandReceiptStatus.ReceiptAcceptedByBridge) (Some (timestamp_to_proto accepted_at)))).

Definition reject (correlation request_id : string) (code : StableErrorCode.t) : qprog unit :=
  send_command_result correlation request_id pb.CommandReceiptStatus.ReceiptRejected (Some (stable_error_to_proto code)).

Definition is_answer (payload : option pb.CommandRequest.Payload) : bool :=
  match payload with
  | Some (pb.CommandRequest.AnswerApproval _) | Some (pb.CommandRequest.AnswerQuestion _) => true
  | _ => false
  end.

(** The task that turns receipts into results, up to the first terminal one. *)
Fixpoint forward_results (correlation : string) (receipts : list CommandReceipt.t) : qprog unit :=
  match receipts with
  | [] => Ret tt
  | receipt :: receipts =>
      let '(status, error_code) := receipt_state_to_status (CommandReceipt.state receipt) in
      perform send_command_result correlation (CommandReceipt.request_id receipt) status error_code;
      if is_terminal (CommandReceipt.state receipt) then Ret tt else forward_results correlation receipts
  end.

Definition handle_command (request : pb.CommandRequest.t) (correlation : string) : qprog unit :=
  do attached <- act (OnRuntime ZcodeAttached);
  do taken <- (if attached : bool then act (ZcodeCommand correlation request) else Ret false);
  if taken : bool then Ret tt
  else
    do caps <- act (OnRuntime AdapterCapabilities);
    match command_request_from_proto request caps with
    | Err err => reject correlation (pb.CommandRequest.request_id request) (BridgeError.code err)
    | Ok domain_request =>
        if bool_decide (SessionKey.agent_kind (CommandRequest.session_key domain_request) = AgentKind.ZcodeDesktop) then
          reject correlation (pb.CommandRequest.request_id request)
            (if is_answer (pb.CommandRequest.payload request) then StableErrorCode.ApprovalExpired else StableErrorCode.CapabilityUnsupported)
        else
          let request_id := CommandRequest.request_id domain_request in
          do submitted <- on_gateway (submit domain_request);
          match submitted with
          | Ok (Submission.Accepted accepted_at receipts) =>
              perform send_accepted correlation request_id accepted_at;
              act (SpawnTask (ReceiptsTask receipts correlation))
          | Ok (Submission.Replayed request_id state) =>
              do now <- act (OnRuntime Utc_time);
              perform send_accepted correlation request_id now;
              send_command_result correlation request_id (stored_state_to_status state) None
          | Err err => reject correlation request_id (BridgeError.code err)
          end
    end.

(** ** Envelopes *)

Definition handle_envelope (envelope : Envelope.t) : qprog unit :=
  let correlation :=
    if bool_decide (Envelope.correlation_id envelope = "") then Envelope.message_id envelope else Envelope.correlation_id envelope in
  match Envelope.payload envelope with
  | None => Ret tt
  | Some (Payload.Subscribe target) => act (SpawnTask (SubscribeTask target (non_empty (Envelope.stream_id envelope)) correlation))
  | Some (Payload.Unsubscribe stream_id) => on_runtime (section (handle_unsubscribe stream_id))
  | Some (Payload.ResyncRequest stream_id) | Some (Payload.ResyncRequired stream_id) => act (SpawnTask (ResyncTask stream_id correlation))
  | Some (Payload.QueryRequest query) => act (SpawnTask (QueryTask query correlation))
  | Some (Payload.CommandRequest request) => handle_command request correlation
  | Some (Payload.TransferOffer offer) => on_transfer (handle_transfer_offer device_id upload_root offer)
  | Some (Payload.TransferResult result) =>
      if negb (pb.TransferResult.outcome result =? pb.TransferOutcome.as_i32 pb.TransferOutcome.Completed)
      then act (CancelTransfer (pb.TransferResult.transfer_id result)) else Ret tt
  | Some Payload.Heartbeat => q_send correlation Payload.HeartbeatAck
  | Some _ => Ret tt
  end.

Definition run_started (task : Started) : qprog unit :=
  match task with
  | SubscribeTask target upstream_id correlation => on_runtime (handle_subscribe device_id target upstream_id correlation)
  | ResyncTask stream_id correlation => on_runtime (handle_stream_resync device_id stream_id correlation)
  | QueryTask query correlation => handle_query query correlation
  | ReceiptsTask receipts correlation => do receipts <- act (ReceiptsOf receipts); forward_results correlation receipts
  end.
End Requests.
