(* ===== verification/Git.v ===== *)
(** * Read-only Git ([git/mod.rs])

    Programs over two operations: resolving a path, and running [git] with an argument vector.  A pipe is
    the list of the chunks that are read from it, the way they come.  Sums of changed lines wrap at 64 bits, as a release
    build does.  The search for the executable and the debug output are left out. *)

From Stdlib Require Import Ascii.
From S2P Require Import Prelude Bytes Prog RustStr Text FilePolicy Grants Requests.

Definition DEFAULT_GIT_TIMEOUT : Z := 5 * 1000.
Definition MAX_DIFF_OUTPUT_BYTES : Z := 2 * 1024 * 1024.
Definition MAX_STDERR_BYTES : Z := 4 * 1024.

(** ** Standard library *)

(** The bytes of an ill-formed sequence that [String::from_utf8_lossy] replaces at once. *)
Definition ill_formed (l : list byte) : nat :=
  match l with
  | b0 :: b1 :: t =>
      match utf8_width b0 with
      | Some (S (S (S w))) =>
          if utf8_second b0 b1
          then match w, t with S _, b2 :: _ => if utf8_cont b2 then 3 else 2 | _, _ => 2 end
          else 1
      | _ => 1
      end
  | _ => 1
  end%nat.

(** U+FFFD. *)
Definition replacement : list byte := [byte_of_ascii (ascii_of_nat 239); byte_of_ascii (ascii_of_nat 191); byte_of_ascii (ascii_of_nat 189)].

Fixpoint lossy (fuel : nat) (l : list byte) : list byte :=
  match l, fuel with
  | [], _ | _, O => []
  | _, S fuel =>
      match utf8_first l with
      | Some w => take w l ++ lossy fuel (drop w l)
      | None => replacement ++ lossy fuel (drop (ill_formed l) l)
      end
  end.

(** [String::from_utf8_lossy]; every round consumes a byte. *)
Definition from_utf8_lossy (l : list byte) : string := String.string_of_list_byte (lossy (length l) l).

Definition newline : ascii := ascii_of_nat 10.
Definition tab : ascii := ascii_of_nat 9.

(** [str::lines]: the pieces that a newline ends, and what is left; a carriage return before the newline belongs to it. *)
Definition end_line (s : string) : string :=
  match strip_suffix (String (ascii_of_nat 13) "") s with Some s => s | None => s end.

Fixpoint lines_from (acc : string) (s : string) : list string :=
  match s with
  | EmptyString => if bool_decide (acc = "") then [] else [acc]
  | String c s => if Ascii.eqb c newline then end_line acc :: lines_from "" s else lines_from (acc +:+ String c "") s
  end.
Definition lines (s : string) : list string := lines_from "" s.

(** ** Data *)

Module GitError.
Inductive t :=
| OutsideScope
| InvalidPath
| GitNotFound
| Spawn
| Timeout (operation : string) (timeout_secs : Z)
| GitFailed (operation : string) (code : option Z) (stderr_brief : string)
| OutputTooLarge (operation : string) (limit : Z).

Definition stable_code (e : t) : string :=
  match e with
  | OutsideScope | InvalidPath => "FILE_OUTSIDE_SCOPE"
  | OutputTooLarge _ _ => "DIFF_TOO_LARGE"
  | GitNotFound | Spawn | Timeout _ _ | GitFailed _ _ _ => "INTERNAL_ERROR"
  end.
End GitError.

Module GitSummary.
Record t := mk {
  detached_head : bool;
  branch : option string;
  head_full : option string;
  head_short : option string;
  root : string;
  staged : list FileEntry.t;
  unstaged : list FileEntry.t;
  untracked : list FileEntry.t;
  added : list FileEntry.t;
  modified : list FileEntry.t;
  deleted : list FileEntry.t;
  renamed : list FileEntry.t;
  total_added_lines : Z;
  total_deleted_lines : Z;
  binary_files : list string;
  numstat_available : bool;
}.

(** The path of an entry, and its old path. *)
Definition relative (e : FileEntry.t) : bool :=
  negb (path_is_absolute (FileEntry.path e)) && match FileEntry.orig_path e with Some p => negb (path_is_absolute p) | None => true end.

Definition entries_all_relative (s : t) : bool :=
  forallb (forallb relative) [staged s; unstaged s; untracked s; added s; modified s; deleted s; renamed s].
End GitSummary.

Module GitFileDiff.
Record t := mk {
  relative_path : string;
  staged : bool;
  truncated : bool;
  content : list byte;
}.
End GitFileDiff.

Module GitService.
Record t := mk {
  timeout : Z;
  max_output : Z;
}.
Definition default : t := mk DEFAULT_GIT_TIMEOUT MAX_DIFF_OUTPUT_BYTES.
End GitService.

Module CmdOutput.
Record t := mk {
  code : option Z;
  stdout : list byte;
  stderr : list byte;
  stdout_truncated : bool;
}.
Definition success (o : t) : bool := bool_decide (code o = Some 0).
End CmdOutput.

(** [split(|&b| b == b'\n')]. *)
Fixpoint split_newlines (l : list byte) : list (list byte) :=
  match l with
  | [] => [[]]
  | b :: l =>
      if bz b =? 10 then [] :: split_newlines l
      else match split_newlines l with p :: ps => (b :: p) :: ps | [] => [[b]] end
  end.

(** The first line of the errors, cut at 200 bytes; [None]: [truncate] panics inside a character. *)
Definition stderr_brief (o : CmdOutput.t) : option string :=
  let line := default [] (head (filter (fun l => l <> []) (split_newlines (CmdOutput.stderr o)))) in
  let s := lossy (length line) line in
  if (200 <? length s)%nat
  then if is_char_boundary s 200 then Some (String.string_of_list_byte (take 200 s)) else None
  else Some (String.string_of_list_byte s).

(** ** Operations *)

(** How a process ends; a pipe is the chunks that are read until it is closed, [None] a read that fails. *)
Module ProcessEnd.
Inductive t :=
| NotStarted
| WaitFailed
| Late
| Exited (code : option Z) (stdout stderr : list (option (list byte))).
End ProcessEnd.

Inductive gop : Type -> Type :=
| Canonicalize (path : string) : gop (option string)
| GitProcess (argv : list string) : gop ProcessEnd.t
| Panic {A : Type} : gop A.

Notation gprog := (prog gop).

(** ** Running git *)

(** [spawn_pipe_reader]: up to [cap] bytes, and whether there were more. *)
Fixpoint pipe_read (cap : Z) (buf : list byte) (pipe : list (option (list byte))) : res GitError.t (list byte * bool) :=
  match pipe with
  | [] => Ok (buf, false)
  | None :: _ => Err GitError.Spawn
  | Some chunk :: pipe =>
      if (length chunk =? 0)%nat then Ok (buf, false)
      else if cap <? zlen buf + zlen chunk then Ok (buf ++ take (Z.to_nat (Z.max 0 (cap - zlen buf))) chunk, true)
      else pipe_read cap (buf ++ chunk) pipe
  end.

Definition base_command (dir : string) : list string := ["-C"; dir; "--no-optional-locks"; "--no-pager"; "-c"; "core.pager=cat"].

Section Service.
Variable service : GitService.t.

(** How a process that ended is read. *)
Definition cmd_result (operation : string) (cap : Z) (ended : ProcessEnd.t) : res GitError.t CmdOutput.t :=
  match ended with
  | ProcessEnd.NotStarted | ProcessEnd.WaitFailed => Err GitError.Spawn
  | ProcessEnd.Late => Err (GitError.Timeout operation (GitService.timeout service / 1000))
  | ProcessEnd.Exited code stdout stderr =>
      match pipe_read cap [] stdout with
      | Err e => Err e
      | Ok (out, truncated) =>
          match pipe_read MAX_STDERR_BYTES [] stderr with
          | Err e => Err e
          | Ok (err, _) => Ok (CmdOutput.mk code out err truncated)
          end
      end
  end.

Definition execute_capped (dir operation : string) (cap : Z) (args : list string) : gprog (res GitError.t CmdOutput.t) :=
  do ended <- act (GitProcess (base_command dir ++ args));
  Ret (cmd_result operation cap ended).

Definition execute (dir operation : string) (args : list string) : gprog (res GitError.t CmdOutput.t) :=
  execute_capped dir operation (GitService.max_output service) args.

Definition failed {A : Type} (operation : string) (o : CmdOutput.t) : gprog (res GitError.t A) :=
  match stderr_brief o with
  | Some brief => Ret (Err (GitError.GitFailed operation (CmdOutput.code o) brief))
  | None => act Panic
  end.

(** ** What may be looked at *)

(** The first authorised root around [cwd]. *)
Fixpoint containing_root (roots : list string) (cwd : string) : gprog (option string) :=
  match roots with
  | [] => Ret None
  | r :: roots =>
      do rc <- act (Canonicalize r);
      match rc with
      | Some rc => if path_starts_with cwd rc then Ret (Some rc) else containing_root roots cwd
      | None => containing_root roots cwd
      end
  end.

Definition authorize_worktree (authorized_roots : list string) (cwd : string) : gprog (res GitError.t (string * string)) :=
  do cwd_c <- act (Canonicalize cwd);
  match cwd_c with
  | None => Ret (Err GitError.OutsideScope)
  | Some cwd_c =>
      do root <- containing_root authorized_roots cwd_c;
      match root with
      | None => Ret (Err GitError.OutsideScope)
      | Some root =>
          try? probe <- execute cwd_c "rev-parse" ["rev-parse"; "--is-inside-work-tree"; "--show-toplevel"];
          if negb (CmdOutput.success probe) then Ret (Err GitError.OutsideScope)
          else
            let text := lines (from_utf8_lossy (CmdOutput.stdout probe)) in
            let inside := trim (default "" (text !! 0%nat)) in
            let top_raw := trim (default "" (text !! 1%nat)) in
            if negb (bool_decide (inside = "true")) || bool_decide (top_raw = "") then Ret (Err GitError.OutsideScope)
            else
              do top <- act (Canonicalize top_raw);
              match top with
              | None => Ret (Err GitError.OutsideScope)
              | Some top => Ret (if path_starts_with top root then Ok (root, top) else Err GitError.OutsideScope)
              end
      end
  end.

(** Only plain components, and no magic of a pathspec. *)
Definition validate_relative_path (rel : string) : res GitError.t unit :=
  if bool_decide (rel = "") || path_is_absolute rel || starts_with rel ":" then Err GitError.InvalidPath
  else if forallb (fun c => match c with Component.Normal _ => true | _ => false end) (path_components rel) then Ok tt
  else Err GitError.InvalidPath.
End Service.

(** ** The output of git *)

Definition malformed {A : Type} (brief : string) : res GitError.t A := Err (GitError.GitFailed "status" None brief).

(** The field before the next NUL, and what follows. *)
Definition read_nul_field (l : list byte) : res GitError.t (string * list byte) :=
  match list_find (fun b => bz b = 0) l with
  | Some (n, _) => Ok (from_utf8_lossy (take n l), drop (S n) l)
  | None => malformed "unterminated porcelain path"
  end.

Definition renames (x : ascii) : bool := Ascii.eqb x "R" || Ascii.eqb x "C".

(** [git status --porcelain=v1 -z]; every entry consumes bytes. *)
Fixpoint parse_status (fuel : nat) (l : list byte) : res GitError.t (list FileEntry.t) :=
  match fuel, l with
  | S fuel, x :: y :: s :: l =>
      if negb (bz s =? 32) then malformed "malformed porcelain status entry"
      else
        let x := ascii_of_byte x in
        let y := ascii_of_byte y in
        match read_nul_field l with
        | Err e => Err e
        | Ok (path, l) =>
            match (if renames x then match read_nul_field l with Err e => Err e | Ok (old, l) => Ok (Some old, l) end else Ok (None, l)) with
            | Err e => Err e
            | Ok (orig_path, l) =>
                match parse_status fuel l with
                | Err e => Err e
                | Ok entries => Ok (FileEntry.mk path orig_path x y :: entries)
                end
            end
        end
  | _, _ => Ok []
  end.
Definition parse_status_z (l : list byte) : res GitError.t (list FileEntry.t) := parse_status (length l) l.

(** [git diff --numstat]: added and removed lines, and the binary files. *)
Definition numstat_line (acc : Z * Z * list string) (line : string) : Z * Z * list string :=
  let '(added, deleted, binary) := acc in
  match ('(a, rest) ← split_once tab line; '(d, path) ← split_once tab rest; Some (a, d, path)) with
  | Some (a, d, path) =>
      if bool_decide (a = "-") || bool_decide (d = "-") then (added, deleted, binary ++ [path])
      else ((added + default 0 (parse_u64 a)) mod 2 ^ 64, (deleted + default 0 (parse_u64 d)) mod 2 ^ 64, binary)
  | None => acc
  end.
Definition parse_numstat (bytes : list byte) (acc : Z * Z * list string) : Z * Z * list string := foldl numstat_line acc (lines (from_utf8_lossy bytes)).

(** Which lists an entry goes to. *)
Definition is_char (c : ascii) (k : ascii) : bool := Ascii.eqb c k.
Definition in_staged (e : FileEntry.t) : bool := negb (is_char (FileEntry.index_status e) " ") && negb (is_char (FileEntry.index_status e) "?").
Definition in_unstaged (e : FileEntry.t) : bool := negb (is_char (FileEntry.worktree_status e) " ") && negb (is_char (FileEntry.worktree_status e) "?").
Definition either (k : ascii) (e : FileEntry.t) : bool := is_char (FileEntry.index_status e) k || is_char (FileEntry.worktree_status e) k.
Definition chosen (f : FileEntry.t -> bool) (entries : list FileEntry.t) : list FileEntry.t := filter (fun e => f e = true) entries.

Definition classify_entries (detached : bool) (branch head_full head_short : option string) (root : string) (entries : list FileEntry.t) : GitSummary.t :=
  GitSummary.mk detached branch head_full head_short root (chosen in_staged entries) (chosen in_unstaged entries)
    (chosen (fun e => is_char (FileEntry.index_status e) "?") entries) (chosen (fun e => is_char (FileEntry.index_status e) "A") entries)
    (chosen (either "M") entries) (chosen (either "D") entries) (chosen (fun e => renames (FileEntry.index_status e)) entries) 0 0 [] false.

Definition with_numstat (acc : Z * Z * list string) (s : GitSummary.t) : GitSummary.t :=
  GitSummary.mk (GitSummary.detached_head s) (GitSummary.branch s) (GitSummary.head_full s) (GitSummary.head_short s) (GitSummary.root s)
    (GitSummary.staged s) (GitSummary.unstaged s) (GitSummary.untracked s) (GitSummary.added s) (GitSummary.modified s)
    (GitSummary.deleted s) (GitSummary.renamed s) acc.1.1 acc.1.2 acc.2 true.

(** ** The two readings *)

Section Reading.
Variable service : GitService.t.

Definition trimmed (o : CmdOutput.t) : string := trim (from_utf8_lossy (CmdOutput.stdout o)).

Definition read_summary (authorized_roots : list string) (cwd : string) : gprog (res GitError.t GitSummary.t) :=
  try? where_ <- authorize_worktree service authorized_roots cwd;
  let '(root, top) := where_ in
  try? sym <- execute service top "symbolic-ref" ["symbolic-ref"; "--short"; "-q"; "HEAD"];
  let branch_name := trimmed sym in
  let detached := negb (CmdOutput.success sym) || bool_decide (branch_name = "") in
  try? head <- execute service top "rev-parse" ["rev-parse"; "HEAD"];
  let head_full := if CmdOutput.success head then Some (trimmed head) else None in
  try? head_short <- (if CmdOutput.success head
                      then try? short <- execute service top "rev-parse" ["rev-parse"; "--short"; "HEAD"]; Ret (Ok (Some (trimmed short)))
                      else Ret (Ok None));
  try? status <- execute service top "status" ["status"; "--porcelain=v1"; "-z"; "--untracked-files=normal"];
  if negb (CmdOutput.success status) then failed "status" status
  else if CmdOutput.stdout_truncated status then Ret (Err (GitError.OutputTooLarge "status" (GitService.max_output service)))
  else
    try? entries <- lift (parse_status_z (CmdOutput.stdout status));
    let summary := classify_entries detached (if detached then None else Some branch_name) head_full head_short root entries in
    if negb (bool_decide (is_Some head_full)) then Ret (Ok summary)
    else
      try? numstat <- execute service top "diff" ["diff"; "--numstat"; "--no-ext-diff"; "--no-color"; "--no-textconv"; "HEAD"];
      if negb (CmdOutput.success numstat) then failed "diff" numstat
      else if CmdOutput.stdout_truncated numstat then Ret (Err (GitError.OutputTooLarge "diff" (GitService.max_output service)))
      else Ret (Ok (with_numstat (parse_numstat (CmdOutput.stdout numstat) (0, 0, [])) summary)).

Definition read_file_diff (authorized_roots : list string) (cwd relative_path : string) (staged : bool) : gprog (res GitError.t GitFileDiff.t) :=
  try? where_ <- authorize_worktree service authorized_roots cwd;
  let top := where_.2 in
  try? checked <- lift (validate_relative_path relative_path);
  let op := if staged then "diff-cached" else "diff" in
  try? out <- execute_capped service top op (GitService.max_output service + 1)
    (["diff"] ++ (if staged then ["--cached"] else []) ++ ["--no-ext-diff"; "--no-color"; "--no-textconv"; "--"; relative_path]);
  if negb (CmdOutput.success out) && negb (CmdOutput.stdout_truncated out) then failed op out
  else
    let content := CmdOutput.stdout out in
    Ret (Ok (GitFileDiff.mk relative_path staged (CmdOutput.stdout_truncated out || (GitService.max_output service <? zlen content))
               (take (Z.to_nat (GitService.max_output service)) content))).
End Reading.

(** What [Requests] reads of a summary: [root_display_name] is the last part of the root. *)
Definition reported (s : GitSummary.t) : Requests.GitSummary.t :=
  Requests.GitSummary.mk (GitSummary.detached_head s) (GitSummary.branch s) (GitSummary.head_full s) (GitSummary.head_short s)
    (match last (path_components (GitSummary.root s)) with Some (Component.Normal n) => Some n | _ => None end)
    (GitSummary.staged s) (GitSummary.unstaged s) (GitSummary.untracked s) (GitSummary.total_added_lines s) (GitSummary.total_deleted_lines s) (GitSummary.binary_files s).

(** ** Ill-formed text is replaced *)

Lemma lossy_Utf8 (fuel : nat) (l : list byte) : Utf8 (lossy fuel l).
Proof.
  revert l. induction fuel as [|fuel IH]; intros [|b l]; try constructor. cbn [lossy].
  destruct (utf8_first (b :: l)) as [w|] eqn:F; constructor; [by apply utf8_first_char|apply IH|reflexivity|apply IH].
Qed.

Lemma lossy_id (fuel : nat) (l : list byte) : Utf8 l -> (length l <= fuel)%nat -> lossy fuel l = l.
Proof.
  intros U. revert fuel. induction U as [|c l F U IH]; intros fuel L; [by destruct fuel|]. pose proof (utf8_first_bounds _ _ F) as B.
  rewrite length_app in L. destruct fuel as [|fuel]; [lia|]. destruct c as [|b c]; [simpl in B; lia|].
  change (match utf8_first ((b :: c) ++ l) with Some w => take w ((b :: c) ++ l) ++ lossy fuel (drop w ((b :: c) ++ l))
    | None => replacement ++ lossy fuel (drop (ill_formed ((b :: c) ++ l)) ((b :: c) ++ l)) end = (b :: c) ++ l).
  rewrite (utf8_first_app _ l F), take_app_length, drop_app_length, IH; [done|simpl in *; lia].
Qed.

Lemma from_utf8_lossy_id (s : string) : Utf8 (String.list_byte_of_string s) -> from_utf8_lossy (String.list_byte_of_string s) = s.
Proof. intros U. unfold from_utf8_lossy. rewrite lossy_id by done. apply String.string_of_list_byte_of_string. Qed.

(** ** Reading what [git status -z] prints *)

Definition nul : byte := byte_of_ascii (ascii_of_nat 0).
Definition bytes_of (s : string) : list byte := String.list_byte_of_string s.

Definition render_entry (e : FileEntry.t) : list byte :=
  [byte_of_ascii (FileEntry.index_status e); byte_of_ascii (FileEntry.worktree_status e); byte_of_ascii " "] ++ bytes_of (FileEntry.path e) ++ [nul] ++
  match FileEntry.orig_path e with Some old => bytes_of old ++ [nul] | None => [] end.
Definition render_status (entries : list FileEntry.t) : list byte := concat (map render_entry entries).

(** A path is text without NUL; an old path belongs to renames and copies. *)
Definition path_ok (p : string) : Prop := Utf8 (bytes_of p) /\ Forall (fun b => bz b <> 0) (bytes_of p).
Definition entry_ok (e : FileEntry.t) : Prop :=
  path_ok (FileEntry.path e) /\
  match FileEntry.orig_path e with Some old => path_ok old /\ renames (FileEntry.index_status e) = true | None => renames (FileEntry.index_status e) = false end.

Lemma read_path (p : string) (l : list byte) : path_ok p -> read_nul_field (bytes_of p ++ nul :: l) = Ok (p, l).
Proof.
  intros [U N]. unfold read_nul_field.
  assert (list_find (fun b => bz b = 0) (bytes_of p ++ nul :: l) = Some (length (bytes_of p), nul)) as ->.
  { apply list_find_Some. split_and!; [by rewrite lookup_app_r, Nat.sub_diag|reflexivity|].
    intros j y L J. rewrite lookup_app_l in L by done. rewrite Forall_forall in N. apply N. by eapply list_elem_of_lookup_2. }
  rewrite take_app_length. replace (drop (S (length (bytes_of p))) (bytes_of p ++ nul :: l)) with l.
  - unfold bytes_of. by rewrite (from_utf8_lossy_id p U).
  - rewrite cons_middle, app_assoc. rewrite drop_app_length'; [done|]. rewrite length_app. simpl. lia.
Qed.

Lemma parse_entry (fuel : nat) (e : FileEntry.t) (l : list byte) :
  entry_ok e -> parse_status (S fuel) (render_entry e ++ l) = match parse_status fuel l with Ok es => Ok (e :: es) | Err x => Err x end.
Proof.
  intros [P O]. destruct e as [path orig x y]. unfold render_entry. cbn [FileEntry.path FileEntry.orig_path FileEntry.index_status FileEntry.worktree_status] in *.
  rewrite <- !app_assoc. cbn [app]. cbn [parse_status]. rewrite !ascii_of_byte_of_ascii. replace (bz (byte_of_ascii " ") =? 32) with true by reflexivity. cbn [negb].
  rewrite (read_path path _ P). destruct orig as [old|].
  - destruct O as [Po R]. rewrite R. rewrite <- app_assoc. cbn [app]. by rewrite (read_path old _ Po).
  - rewrite O. done.
Qed.

(** The status of a worktree is read back.  What [git status --porcelain=v1 -z] prints for a list of entries parses to those
    entries, in order, with the old path of renames and copies. *)
Theorem status_roundtrip (entries : list FileEntry.t) : Forall entry_ok entries -> parse_status_z (render_status entries) = Ok entries.
Proof.
  intros F. unfold parse_status_z. assert (L : (length entries <= length (render_status entries))%nat).
  { clear F. unfold render_status. induction entries as [|e es IH]; [done|]. cbn [map concat]. rewrite length_app.
    assert (1 <= length (render_entry e))%nat by (unfold render_entry; rewrite length_app; simpl; lia). simpl. lia. }
  revert L. generalize (length (render_status entries)) as fuel. induction F as [|e es E F IH]; intros fuel L; [by destruct fuel|].
  destruct fuel as [|fuel]; [simpl in L; lia|]. unfold render_status in *. cbn [map concat]. rewrite parse_entry by done. rewrite IH; [done|simpl in L; lia].
Qed.

(** ** How much is read of a pipe *)

Definition whole (pipe : list (option (list byte))) : list byte := concat (omap id pipe).

(** Reads give at least a byte, or fail. *)
Definition pipe_ok (pipe : list (option (list byte))) : Prop := Forall (fun c => c <> Some []) pipe.

Lemma pipe_read_spec (cap : Z) (buf : list byte) (pipe : list (option (list byte))) (out : list byte) (truncated : bool) :
  pipe_ok pipe -> zlen buf <= cap -> pipe_read cap buf pipe = Ok (out, truncated) ->
  out = take (Z.to_nat cap) (buf ++ whole pipe) /\ truncated = (cap <? zlen (buf ++ whole pipe)).
Proof.
  intros P. revert buf. induction P as [|[chunk|] pipe C P IH]; intros buf B; simpl.
  - intros E. injection E as <- <-. unfold whole. simpl. rewrite app_nil_r. rewrite take_ge by (unfold zlen in B; lia). split; [done|]. symmetry. by apply Z.ltb_ge.
  - destruct (Nat.eqb_spec (length chunk) 0) as [Z0|_]; [by destruct chunk|]. destruct (Z.ltb_spec cap (zlen buf + zlen chunk)) as [L|L].
    + intros E. injection E as <- <-. unfold whole. simpl. fold (whole pipe). unfold zlen in *. split.
      * rewrite take_app, take_app. rewrite (take_ge buf) by lia. replace (take (_ - _ - _) _) with (@nil byte); [rewrite app_nil_r; f_equal; f_equal; lia|].
        symmetry. replace (Z.to_nat cap - length buf - length chunk)%nat with 0%nat by lia. done.
      * symmetry. apply Z.ltb_lt. rewrite !length_app. lia.
    + intros E. apply IH in E; [|unfold zlen in *; rewrite length_app; lia]. unfold whole in *. simpl. by rewrite <- app_assoc in E.
  - done.
Qed.

(** ** Runs *)

Definition gstep (B : Type) (o : gop B) (s : unit) (b : option B) (s' : unit) : Prop :=
  match o in gop B return option B -> Prop with Panic => fun b => b = None | _ => fun b => b <> None end b.

Inductive GObs :=
| Resolved (path : string) (target : option string)
| Ran (argv : list string) (ended : ProcessEnd.t).

Definition gobs (B : Type) (o : gop B) : B -> list GObs :=
  match o in gop B return B -> list GObs with
  | Canonicalize p => fun r => [Resolved p r]
  | GitProcess argv => fun e => [Ran argv e]
  | Panic => fun _ => []
  end.

Notation grun := (texec (fun _ _ : unit => False) gstep gobs).

(** The directory [dir] is inside an authorised root, as the paths were resolved in [t]. *)
Definition inside (roots : list string) (t : list GObs) (dir : string) : Prop :=
  exists r root, r ∈ roots /\ Resolved r (Some root) ∈ t /\ path_starts_with dir root = true.

(** The commands of this file: none of them writes. *)
Inductive reading_command : list string -> Prop :=
| rc_probe : reading_command ["rev-parse"; "--is-inside-work-tree"; "--show-toplevel"]
| rc_branch : reading_command ["symbolic-ref"; "--short"; "-q"; "HEAD"]
| rc_head : reading_command ["rev-parse"; "HEAD"]
| rc_short : reading_command ["rev-parse"; "--short"; "HEAD"]
| rc_status : reading_command ["status"; "--porcelain=v1"; "-z"; "--untracked-files=normal"]
| rc_numstat : reading_command ["diff"; "--numstat"; "--no-ext-diff"; "--no-color"; "--no-textconv"; "HEAD"]
| rc_diff (staged : bool) (rel : string) : validate_relative_path rel = Ok tt ->
    reading_command (["diff"] ++ (if staged then ["--cached"] else []) ++ ["--no-ext-diff"; "--no-color"; "--no-textconv"; "--"; rel]).

(** A command in [dir]. *)
Definition reads_in (dir : string) (B : Type) (o : gop B) : Prop :=
  match o with
  | GitProcess argv => exists args, argv = base_command dir ++ args /\ reading_command args
  | Panic => True
  | Canonicalize _ => False
  end.

Definition confined (roots : list string) (t : list GObs) (o : GObs) : Prop :=
  match o with
  | Ran argv _ => exists dir args, argv = base_command dir ++ args /\ reading_command args /\ inside roots t dir
  | Resolved _ _ => True
  end.

Lemma inside_app (roots : list string) (t u : list GObs) (dir : string) : inside roots t dir -> inside roots (t ++ u) dir.
Proof. intros (r & root & R & T & S). exists r, root. split_and!; [done|by apply elem_of_app; left|done]. Qed.

Lemma confined_app (roots : list string) (t u : list GObs) (l : list GObs) : Forall (confined roots t) l -> Forall (confined roots (t ++ u)) l.
Proof. intros F. eapply Forall_impl; [exact F|]. intros [p r|argv e]; [done|]. intros (dir & args & E & R & I). exists dir, args. split_and!; [done..|by apply inside_app]. Qed.

Lemma reads_confined {A : Type} (roots : list string) (dir : string) (t u : list GObs) (p : gprog A) (a : option A) :
  prog_all (reads_in dir) p -> grun p tt u a tt -> inside roots t dir -> Forall (confined roots t) u.
Proof.
  intros P R I. revert R. apply (texec_all (reads_in dir)); [|done]. intros B [path|argv|C] b; simpl; [done| |by constructor].
  intros (args & -> & Rd). repeat constructor. simpl. exists dir, args. by split_and!.
Qed.

Lemma containing_root_trace (roots : list string) (cwd : string) (t : list GObs) (a : option (option string)) :
  grun (containing_root roots cwd) tt t a tt ->
  Forall (fun o => match o with Ran _ _ => False | Resolved _ _ => True end) t /\
  match a with Some (Some root) => path_starts_with cwd root = true /\ exists r, r ∈ roots /\ Resolved r (Some root) ∈ t | _ => True end.
Proof.
  revert t. induction roots as [|r roots IH]; intros t X; cbn [containing_root] in X; [by destruct X as (-> & -> & _)|].
  apply texec_bind in X as [[X ->]|(t1 & rc & [] & t2 & X1 & X2 & ->)].
  { apply texec_act in X as ([] & _ & St & _). by destruct St. }
  apply texec_act in X1 as ([] & _ & _ & ->). cbn [gobs].
  assert (Next : grun (containing_root roots cwd) tt t2 a tt ->
    Forall (fun o => match o with Ran _ _ => False | Resolved _ _ => True end) ([Resolved r rc] ++ t2) /\
    match a with Some (Some root) => path_starts_with cwd root = true /\ exists r', r' ∈ r :: roots /\ Resolved r' (Some root) ∈ [Resolved r rc] ++ t2 | _ => True end).
  { intros [F Y]%IH. split; [by constructor|]. destruct a as [[root|]|]; [|done..]. destruct Y as (S & r' & R & T). split; [done|]. exists r'. split; by right. }
  destruct rc as [rc|]; [|by apply Next]. destruct (path_starts_with cwd rc) eqn:S; [|by apply Next].
  destruct X2 as (-> & -> & _). split; [by repeat constructor|]. split; [done|]. exists r. split; by left.
Qed.

Lemma execute_trace (service : GitService.t) (dir operation : string) (cap : Z) (args : list string) (t : list GObs) (a : option (res GitError.t CmdOutput.t)) :
  grun (execute_capped service dir operation cap args) tt t a tt ->
  exists ended, t = [Ran (base_command dir ++ args) ended] /\ a = Some (cmd_result service operation cap ended).
Proof.
  unfold execute_capped. intros [[X ->]|(t1 & ended & [] & t2 & X1 & X & ->)]%texec_bind.
  { apply texec_act in X as ([] & _ & St & _). by destruct St. }
  apply texec_act in X1 as ([] & _ & _ & ->). destruct X as (-> & -> & _). by exists ended.
Qed.

(** What a program with these paths resolved before may still run. *)
Lemma confined_cons_resolved (roots : list string) (t u : list GObs) :
  Forall (fun o => match o with Ran _ _ => False | Resolved _ _ => True end) t -> Forall (confined roots (t ++ u)) u -> Forall (confined roots (t ++ u)) (t ++ u).
Proof. intros F C. apply Forall_app. split; [|done]. eapply Forall_impl; [exact F|]. by intros []. Qed.

Lemma authorize_trace (service : GitService.t) (roots : list string) (cwd : string) (t : list GObs) (a : option (res GitError.t (string * string))) :
  grun (authorize_worktree service roots cwd) tt t a tt ->
  Forall (confined roots t) t /\ match a with Some (Ok (root, top)) => inside roots t top | _ => True end.
Proof.
  unfold authorize_worktree, execute. intros X.
  apply texec_bind in X as [[X ->]|(t1 & cwd_c & [] & t2 & X1 & X & ->)].
  { apply texec_act in X as ([] & _ & St & _). by destruct St. }
  apply texec_act in X1 as ([] & _ & _ & ->). cbn [gobs]. destruct cwd_c as [cwd_c|]; [|destruct X as (-> & -> & _); by split; [repeat constructor|]].
  apply texec_bind in X as [[X ->]|(t3 & root & [] & t4 & X1 & X & ->)].
  { apply containing_root_trace in X as [F _]. split; [|done]. constructor; [done|]. eapply Forall_impl; [exact F|]. by intros []. }
  apply containing_root_trace in X1 as [F R]. rewrite app_assoc. set (before := [Resolved cwd (Some cwd_c)] ++ t3).
  assert (F' : Forall (fun o => match o with Ran _ _ => False | Resolved _ _ => True end) before) by (by constructor).
  destruct root as [root|]; [|destruct X as (-> & -> & _); split; [by apply confined_cons_resolved|done]]. destruct R as (S & r & R & T).
  assert (I : forall u dir, path_starts_with dir root = true -> inside roots (before ++ u) dir).
  { intros u dir D. exists r, root. split_and!; [done| |done]. apply elem_of_app. left. apply elem_of_app. by right. }
  assert (P : forall u e, Forall (fun o => match o with Ran _ _ => False | Resolved _ _ => True end) u ->
    Forall (confined roots (before ++ Ran (base_command cwd_c ++ ["rev-parse"; "--is-inside-work-tree"; "--show-toplevel"]) e :: u))
      (before ++ Ran (base_command cwd_c ++ ["rev-parse"; "--is-inside-work-tree"; "--show-toplevel"]) e :: u)).
  { intros u e U. apply confined_cons_resolved; [done|]. constructor; [|eapply Forall_impl; [exact U|]; by intros []].
    exists cwd_c, ["rev-parse"; "--is-inside-work-tree"; "--show-toplevel"]. split_and!; [done|constructor|by apply I]. }
  apply texec_try in X as [[X ->]|[(e & X & ->)|(t5 & probe & [] & t6 & X1 & X & ->)]].
  { by apply execute_trace in X as (? & _ & ?). }
  { apply execute_trace in X as (ended & -> & _). by split; [apply (P [])|]. }
  apply execute_trace in X1 as (ended & -> & _). cbn [app]. destruct (negb (CmdOutput.success probe)); [destruct X as (-> & -> & _); by split; [apply (P [])|]|].
  destruct (negb _ || _); [destruct X as (-> & -> & _); by split; [apply (P [])|]|].
  apply texec_bind in X as [[X ->]|(t7 & top & [] & t8 & X1 & X & ->)]; [apply texec_act in X as ([] & _ & St & _); by destruct St|].
  apply texec_act in X1 as ([] & _ & _ & ->). cbn [gobs].
  assert (E : t8 = []) by (destruct top; by destruct X as (-> & _)). subst t8. cbn [app]. split; [apply P; by repeat constructor|].
  destruct top as [top|]; destruct X as (_ & -> & _); [|done]. destruct (path_starts_with top root) eqn:D; [by apply I|done].
Qed.

(** What follows the authorisation. *)
Lemma authorized_confined {A : Type} (service : GitService.t) (roots : list string) (cwd : string) (f : string * string -> gprog (res GitError.t A))
    (t : list GObs) (a : option (res GitError.t A)) :
  (forall root top, prog_all (reads_in top) (f (root, top))) ->
  grun (try (authorize_worktree service roots cwd) f) tt t a tt -> Forall (confined roots t) t.
Proof.
  intros P [[X ->]|[(e & X & ->)|(t1 & [root top] & [] & t2 & X1 & X & ->)]]%texec_try; [by apply authorize_trace in X as [F _]..|].
  apply authorize_trace in X1 as [F I]. apply Forall_app. split; [by apply confined_app|]. eapply reads_confined; [apply P|exact X|by apply inside_app].
Qed.

Lemma execute_reads (service : GitService.t) (dir operation : string) (cap : Z) (args : list string) :
  reading_command args -> prog_all (reads_in dir) (execute_capped service dir operation cap args).
Proof. intros R. unfold execute_capped. apply prog_all_bind; [|by intros]. apply prog_all_act. by exists args. Qed.

Lemma failed_reads {A : Type} (dir operation : string) (o : CmdOutput.t) : prog_all (reads_in dir) (failed (A := A) operation o).
Proof. unfold failed. by destruct (stderr_brief o). Qed.

Hint Resolve execute_reads failed_reads : prog_all.
Hint Constructors reading_command : prog_all.

(** C23. Git is only asked to read, and only inside what is authorised.  Whatever git and the file system answer, every command that is run
    is [git -C dir] with the options that keep it from locking and paging, one of seven reading commands, and a
    directory inside one of the authorised roots as they were resolved; a path that the caller names comes after "--" and has
    only plain components. *)
Theorem git_reads_inside (service : GitService.t) (roots : list string) (cwd : string) (relative_path : string) (staged : bool) (t : list GObs)
    (a : option (res GitError.t GitSummary.t)) (b : option (res GitError.t GitFileDiff.t)) :
  (grun (read_summary service roots cwd) tt t a tt -> Forall (confined roots t) t) /\
  (grun (read_file_diff service roots cwd relative_path staged) tt t b tt -> Forall (confined roots t) t).
Proof.
  split; apply authorized_confined; intros root top.
  - unfold execute. prog_all_tac; eauto with prog_all.
  - cbn [snd]. destruct (validate_relative_path relative_path) as [[]|e] eqn:V; [|done]. unfold try at 1, lift. cbn [prog_bind].
    prog_all_tac; [apply execute_reads; by constructor|apply failed_reads].
Qed.

(** ** What a diff holds *)

(** A diff is cut at its limit and says so.  The content is what git printed, up to [max_output] bytes, and it is marked as
    truncated exactly when git printed more; without the mark git also ended well. *)
Theorem diff_content (service : GitService.t) (roots : list string) (cwd relative_path : string) (staged : bool) (t : list GObs) (d : GitFileDiff.t) :
  0 <= GitService.max_output service ->
  grun (read_file_diff service roots cwd relative_path staged) tt t (Some (Ok d)) tt ->
  exists top code stdout stderr,
    Ran (base_command top ++ ["diff"] ++ (if staged then ["--cached"] else []) ++ ["--no-ext-diff"; "--no-color"; "--no-textconv"; "--"; relative_path])
      (ProcessEnd.Exited code stdout stderr) ∈ t /\
    (pipe_ok stdout ->
     GitFileDiff.content d = take (Z.to_nat (GitService.max_output service)) (whole stdout) /\
     GitFileDiff.truncated d = (GitService.max_output service <? zlen (whole stdout)) /\
     (GitFileDiff.truncated d = false -> code = Some 0)) /\
    GitFileDiff.relative_path d = relative_path /\ GitFileDiff.staged d = staged.
Proof.
  intros M X. unfold read_file_diff in X.
  apply texec_try in X as [[_ ?]|[(e & _ & ?)|(t1 & [root top] & [] & t2 & _ & X & ->)]]; [done..|].
  apply texec_try in X as [[_ ?]|[(e & _ & ?)|(t3 & [] & [] & t4 & _ & X & ->)]]; [done..|]. cbn [snd] in X.
  apply texec_try in X as [[_ ?]|[(e & _ & ?)|(t5 & out & [] & t6 & X1 & X & ->)]]; [done..|].
  apply execute_trace in X1 as (ended & -> & E). injection E as E. destruct ended as [| | |code stdout stderr]; try done. cbn [cmd_result] in E.
  destruct (pipe_read _ [] stdout) as [[so truncated]|] eqn:R; [|done]. destruct (pipe_read MAX_STDERR_BYTES [] stderr) as [[se ?]|]; [|done]. injection E as ->.
  exists top, code, stdout, stderr. cbn [CmdOutput.stdout CmdOutput.stdout_truncated] in X.
  destruct (negb (CmdOutput.success _) && negb truncated) eqn:S; [unfold failed in X; destruct (stderr_brief _); [by destruct X as (_ & ? & _)|]; apply texec_act in X as ([] & _ & St & _); cbn [gstep] in St; discriminate St|].
  destruct X as (-> & E & _). injection E as ->. split; [apply elem_of_app; right; apply elem_of_app; right; by left|]. split; [|done].
  intros P. apply pipe_read_spec in R as [-> ->]; [|done|unfold zlen; simpl; lia]. cbn [app GitFileDiff.content GitFileDiff.truncated] in *.
  assert (Tr : (GitService.max_output service + 1 <? zlen (whole stdout)) || (GitService.max_output service <? zlen (take (Z.to_nat (GitService.max_output service + 1)) (whole stdout))) =
    (GitService.max_output service <? zlen (whole stdout))).
  { unfold zlen. rewrite length_take. destruct (Z.ltb_spec (GitService.max_output service) (Z.of_nat (length (whole stdout)))).
    - apply orb_true_iff. right. apply Z.ltb_lt. lia.
    - apply orb_false_iff. split; apply Z.ltb_ge; lia. }
  split_and!; [|exact Tr|].
  - rewrite take_take. f_equal. lia.
  - rewrite Tr. intros L. apply andb_false_iff in S as [S|S].
    + apply negb_false_iff in S. unfold CmdOutput.success in S. by apply bool_decide_eq_true in S.
    + apply negb_false_iff in S. apply Z.ltb_lt in S. apply Z.ltb_ge in L. lia.
Qed.

(** ** Concrete runs *)

Module GitDemo.
Definition service : GitService.t := GitService.mk 5000 20.

(** Run with given answers: what is resolved, and how the commands end, by their arguments after the options. *)
Definition ends (f : list string -> ProcessEnd.t) (argv : list string) : ProcessEnd.t := f (drop 6 argv).

Fixpoint eval (paths : string -> option string) (f : list string -> ProcessEnd.t) {A : Type} (p : gprog A) : option A * list GObs :=
  match p with
  | Ret a => (Some a, [])
  | Act o k =>
      match o in gop B return (B -> gprog A) -> option A * list GObs with
      | Canonicalize p => fun k => let '(a, t) := eval paths f (k (paths p)) in (a, Resolved p (paths p) :: t)
      | GitProcess argv => fun k => let '(a, t) := eval paths f (k (ends f argv)) in (a, Ran argv (ends f argv) :: t)
      | Panic => fun _ => (None, [])
      end k
  end.

Lemma eval_grun (paths : string -> option string) (f : list string -> ProcessEnd.t) {A : Type} (p : gprog A) :
  grun p tt (eval paths f p).2 (eval paths f p).1 tt.
Proof.
  induction p as [a|B o k IH]; [done|]. destruct o as [path|argv|C]; cbn [eval].
  - specialize (IH (paths path)). destruct (eval paths f (k (paths path))) as [a t]. exists tt, (Some (paths path)), tt. split_and!; [constructor|done|by exists t].
  - specialize (IH (ends f argv)). destruct (eval paths f (k (ends f argv))) as [a t]. exists tt, (Some (ends f argv)), tt. split_and!; [constructor|done|by exists t].
  - exists tt, None, tt. split_and!; [constructor|done..].
Qed.

Definition printed (s : string) : ProcessEnd.t := ProcessEnd.Exited (Some 0) [Some (bytes_of s)] [].
Definition top_of (top : string) : ProcessEnd.t := printed ("true" +:+ String newline top +:+ String newline "").

(** A worktree [/w/p], authorised as [/w]; a diff of six bytes, two more than the limit. *)
Definition answers (args : list string) : ProcessEnd.t := if bool_decide (head args = Some "rev-parse") then top_of "/w/p" else printed "abcdef".

Definition diff_run : option (res GitError.t GitFileDiff.t) * list GObs := eval Some answers (read_file_diff service ["/w"] "/w/p/src" "a.txt" true).
Definition cut_run : option (res GitError.t GitFileDiff.t) * list GObs :=
  eval Some (fun args => if bool_decide (head args = Some "rev-parse") then top_of "/w" else printed "abcdefghijklmnopqrstuvwxyz") (read_file_diff service ["/w"] "/w/p/src" "a.txt" true).

Lemma status_roundtrip_witness :
  let entries := [FileEntry.mk "b.txt" (Some "a.txt") "R" " "; FileEntry.mk "d.txt" None "?" "?"] in
  Forall entry_ok entries /\ parse_status_z (render_status entries) = Ok entries.
Proof.
  intros entries.
  assert (F : Forall entry_ok entries).
  { repeat constructor; simpl; try (apply utf8_valid_iff; reflexivity); try discriminate. }
  split; [exact F|by apply status_roundtrip].
Defined.

Lemma git_reads_inside_witness : Forall (confined ["/w"] diff_run.2) diff_run.2 /\ length diff_run.2 = 5%nat.
Proof.
  split; [|vm_compute; reflexivity].
  refine (proj2 (git_reads_inside service ["/w"] "/w/p/src" "a.txt" true diff_run.2 None diff_run.1) _). apply eval_grun.
Defined.

Lemma diff_content_witness : exists d,
  cut_run.1 = Some (Ok d) /\ GitFileDiff.truncated d = true /\ exists top code stdout stderr,
    Ran (base_command top ++ ["diff"; "--cached"; "--no-ext-diff"; "--no-color"; "--no-textconv"; "--"; "a.txt"]) (ProcessEnd.Exited code stdout stderr) ∈ cut_run.2.
Proof.
  eexists. split; [vm_compute; reflexivity|]. split; [reflexivity|].
  destruct (diff_content service ["/w"] "/w/p/src" "a.txt" true cut_run.2
    (GitFileDiff.mk "a.txt" true true (bytes_of "abcdefghijklmnopqrst"))) as (top & code & out & err & I & _); [done| |].
  - pose proof (eval_grun Some (fun args => if bool_decide (head args = Some "rev-parse") then top_of "/w" else printed "abcdefghijklmnopqrstuvwxyz")
      (read_file_diff service ["/w"] "/w/p/src" "a.txt" true)) as X.
    fold cut_run in X. replace cut_run.1 with (Some (Ok (E := GitError.t) (GitFileDiff.mk "a.txt" true true (bytes_of "abcdefghijklmnopqrst")))) in X by (vm_compute; reflexivity). exact X.
  - exists top, code, out, err. exact I.
Defined.

(** Only the first authorised root around the directory is looked at, although the worktree is inside another one. *)
Lemma first_root_decides :
  (eval Some (fun _ => top_of "/w") (authorize_worktree service ["/w/p"; "/w"] "/w/p/src")).1 = Some (Err GitError.OutsideScope) /\
  (eval Some (fun _ => top_of "/w") (authorize_worktree service ["/w"; "/w/p"] "/w/p/src")).1 = Some (Ok ("/w", "/w")).
Proof. split; vm_compute; reflexivity. Qed.

(** A component [.] in the middle passes the check. *)
Lemma inner_dot_accepted : validate_relative_path "a/./b" = Ok tt /\ validate_relative_path "./a" = Err GitError.InvalidPath.
Proof. split; vm_compute; reflexivity. Qed.

(** A status that is too long closes the pipe and ends git with a signal: the answer is the failure, not [OutputTooLarge]. *)
Lemma long_status_is_a_failure :
  (eval Some (fun args => if bool_decide (head args = Some "rev-parse") then top_of "/w"
     else if bool_decide (head args = Some "status") then ProcessEnd.Exited None [Some (bytes_of "?? a-long-name-of-a-file.txt")] [] else printed "main")
     (read_summary service ["/w"] "/w")).1 = Some (Err (GitError.GitFailed "status" None "")).
Proof. vm_compute. reflexivity. Qed.

(** An error line whose two-hundredth byte is inside a character stops the task. *)
Lemma long_error_panics :
  stderr_brief (CmdOutput.mk (Some 128) [] (replicate 199 (byte_of_ascii "x") ++ [byte_of_ascii (ascii_of_nat 195); byte_of_ascii (ascii_of_nat 169)]) false) = None.
Proof. vm_compute. reflexivity. Qed.

(** The tests of the file. *)
Lemma rename_order :
  (map FileEntry.path <$> res_ok (parse_status_z (bytes_of "R  b.txt" ++ [nul] ++ bytes_of "a.txt" ++ [nul] ++ bytes_of " M c.txt" ++ [nul] ++ bytes_of "?? d.txt" ++ [nul]))) =
    Some ["b.txt"; "c.txt"; "d.txt"].
Proof. vm_compute. reflexivity. Qed.

Lemma numstat_totals :
  parse_numstat (bytes_of ("12" +:+ String tab "3" +:+ String tab "a.txt" +:+ String newline "-" +:+ String tab "-" +:+ String tab "img.bin" +:+ String newline
    "0" +:+ String tab "7" +:+ String tab "old" +:+ String newline "")) (0, 0, []) = (12, 10, ["img.bin"]).
Proof. vm_compute. reflexivity. Qed.
End GitDemo.
