(* ===== verification/RequestProps.v ===== *)
(** * What queries and commands promise

    The pages of an output put together, which sessions reach Codex, and the answer to each command. *)

From S2P Require Import Prelude Prog RustStr Domain Proto FilePolicy Grants Upload Concurrent Queue Gateway ProtoMapping Adapter Runtime Requests.

(** ** The buffer of an output *)

(** The output itself: appended to at its end, or replaced. *)
Definition native_output (item : string) (event : DomainEvent.t) (native : list byte) : list byte :=
  match event with
  | DomainEvent.OutputAppend id offset bytes _ =>
      if bool_decide (ItemId.id id = item) && (offset =? zlen native) then native ++ OutputBytes.bytes bytes else native
  | DomainEvent.OutputReplace id _ bytes _ => if bool_decide (ItemId.id id = item) then OutputBytes.bytes bytes else native
  | _ => native
  end.

(** Appends arrive where the output ends. *)
Definition fits (item : string) (native : list byte) (event : DomainEvent.t) : Prop :=
  match event with DomainEvent.OutputAppend id offset _ _ => ItemId.id id = item -> offset = zlen native | _ => True end.

Fixpoint all_fit (item : string) (native : list byte) (events : list DomainEvent.t) : Prop :=
  match events with
  | [] => True
  | event :: events => fits item native event /\ all_fit item (native_output item event native) events
  end.

Definition data_of (slot : SessionSlot) (item : string) (outputs : Outputs) : list byte :=
  match outputs !! slot with
  | Some items => match items !! item with Some b => OutputBuffer.data b | None => [] end
  | None => []
  end.

Notation kept native := (take (Z.to_nat OUTPUT_BUFFER_MAX) native).

Lemma data_of_change (slot : SessionSlot) (item item' : string) (f : OutputBuffer.t -> OutputBuffer.t) (outputs : Outputs) :
  data_of slot item (change_output slot item' f outputs) =
  if decide (item' = item)
  then OutputBuffer.data (f (default OutputBuffer.default (default ∅ (outputs !! slot) !! item')))
  else data_of slot item outputs.
Proof.
  unfold data_of, change_output. rewrite lookup_insert_eq. case_decide as E; [subst; by rewrite lookup_insert_eq|].
  rewrite lookup_insert_ne by done. by destruct (outputs !! slot).
Qed.

Lemma data_of_lookup (slot : SessionSlot) (item : string) (outputs : Outputs) :
  data_of slot item outputs = OutputBuffer.data (default OutputBuffer.default (default ∅ (outputs !! slot) !! item)).
Proof. unfold data_of. destruct (outputs !! slot) as [items|]; simpl; [by destruct (items !! item)|done]. Qed.

Lemma take_min_len {A : Type} (n : nat) (l : list A) : take (min n (length l)) l = take n l.
Proof. rewrite <- take_take. f_equal. apply take_ge. lia. Qed.

Lemma kept_append (native bytes : list byte) (b : OutputBuffer.t) :
  OutputBuffer.data b = kept native -> OutputBuffer.data (append_output (zlen native) bytes b) = kept (native ++ bytes).
Proof.
  intros E. assert (M : 0 < OUTPUT_BUFFER_MAX) by reflexivity. unfold append_output. rewrite E. unfold prefix_of, zlen. rewrite length_take.
  destruct (Z.ltb_spec (Z.of_nat (length native)) OUTPUT_BUFFER_MAX) as [L|L].
  - replace (Z.of_nat (Z.to_nat OUTPUT_BUFFER_MAX `min` length native)) with (Z.of_nat (length native)) by lia.
    rewrite Z.eqb_refl. destruct (Z.ltb_spec (Z.of_nat (length native)) OUTPUT_BUFFER_MAX); [|lia]. simpl.
    rewrite take_app, (take_ge native) by lia. f_equal.
    replace (Z.to_nat (Z.min (OUTPUT_BUFFER_MAX - Z.of_nat (length native)) (Z.of_nat (length bytes))))
      with ((Z.to_nat OUTPUT_BUFFER_MAX - length native) `min` length bytes)%nat by lia. apply take_min_len.
  - replace (Z.of_nat (Z.to_nat OUTPUT_BUFFER_MAX `min` length native)) with OUTPUT_BUFFER_MAX by lia.
    rewrite Z.ltb_irrefl, andb_false_r, E. rewrite take_app_le by lia. done.
Qed.

Lemma note_output_kept (slot : SessionSlot) (item : string) (native : list byte) (event : DomainEvent.t) (outputs : Outputs) :
  fits item native event -> data_of slot item outputs = kept native ->
  data_of slot item (note_output slot event outputs) = kept (native_output item event native).
Proof.
  intros F D. destruct event; try done; simpl in *.
  - rewrite data_of_change. case_decide as E; [|by rewrite bool_decide_eq_false_2]. rewrite (F E), Z.eqb_refl, bool_decide_eq_true_2 by done. simpl.
    apply kept_append. by rewrite E, <- data_of_lookup.
  - rewrite data_of_change. case_decide as E; [|by rewrite bool_decide_eq_false_2]. rewrite bool_decide_eq_true_2 by done. simpl. unfold prefix_of, zlen.
    rewrite Z2Nat.inj_min, Nat2Z.id, Nat.min_comm. apply take_min_len.
  - unfold data_of in *. destruct (outputs !! slot) as [items|] eqn:L; [|by rewrite L]. destruct (items !! ItemId.id item_id) as [b|] eqn:Li; [|by rewrite L].
    rewrite lookup_insert_eq, lookup_insert. case_decide as E; [|done]. by rewrite E in Li; rewrite Li in D.
Qed.

Lemma outputs_kept (slot : SessionSlot) (item : string) (events : list DomainEvent.t) (native : list byte) (outputs : Outputs) :
  all_fit item native events -> data_of slot item outputs = kept native ->
  data_of slot item (foldl (fun o event => note_output slot event o) outputs events) =
  kept (foldl (fun n event => native_output item event n) native events).
Proof.
  revert native outputs. induction events as [|event events IH]; intros native outputs F D; [done|]. destruct F as [F Fs]. simpl.
  apply IH; [done|]. by apply note_output_kept.
Qed.

(** ** Its pages *)

(** A browser that follows [next_cursor] until it is empty. *)
Fixpoint fetch_pages (fuel : nat) (item : pb.ItemId.t) (page_size : Z) (cursor : string) (b : OutputBuffer.t) : option (list byte * bool) :=
  match fuel with
  | O => None
  | S fuel =>
      let offset := cursor_offset cursor in
      let page := output_page_result item offset (buffered_page offset (page_limit page_size) b) in
      if bool_decide (pb.CommandOutputPage.next_cursor page = "")
      then Some (pb.CommandOutputPage.bytes page, pb.CommandOutputPage.is_final page)
      else '(rest, final) ← fetch_pages fuel item page_size (pb.CommandOutputPage.next_cursor page) b;
           Some (pb.CommandOutputPage.bytes page ++ rest, final)
  end.

Lemma page_limit_range (page_size : Z) : 0 <= page_size -> 1 <= page_limit page_size <= OUTPUT_PAGE_MAX.
Proof. intros P. unfold page_limit. destruct (Z.eqb_spec page_size 0); unfold OUTPUT_PAGE_MAX; lia. Qed.

Lemma fetch_from (item : pb.ItemId.t) (page_size : Z) (b : OutputBuffer.t) (fuel : nat) (cursor : string) (offset : Z) :
  0 <= page_size -> zlen (OutputBuffer.data b) <= OUTPUT_BUFFER_MAX -> cursor_offset cursor = offset ->
  0 <= offset <= zlen (OutputBuffer.data b) -> (length (OutputBuffer.data b) < fuel + Z.to_nat offset)%nat ->
  fetch_pages fuel item page_size cursor b = Some (drop (Z.to_nat offset) (OutputBuffer.data b), OutputBuffer.is_final b).
Proof.
  intros P M. revert cursor offset. induction fuel as [|fuel IH]; intros cursor offset C O F; [unfold zlen in O; lia|].
  pose proof (page_limit_range _ P) as Lm. cbn [fetch_pages]. rewrite C. unfold output_page_result, buffered_page.
  set (data := OutputBuffer.data b) in *. unfold saturating_add. unfold OUTPUT_BUFFER_MAX, OUTPUT_PAGE_MAX in *. unfold zlen in *.
  rewrite (Z.min_l offset) by lia. assert (U : u64_max = 18446744073709551615) by reflexivity.
  set (end_ := Z.min (Z.min (offset + page_limit page_size) u64_max) (Z.of_nat (length data))).
  set (chunk := take (Z.to_nat (end_ - offset)) (drop (Z.to_nat offset) data)).
  assert (Lc : Z.of_nat (length chunk) = end_ - offset).
  { unfold chunk. rewrite length_take, length_drop. lia. }
  rewrite Lc. replace (Z.min (offset + (end_ - offset)) u64_max) with end_ by lia. cbn [pb.CommandOutputPage.next_cursor pb.CommandOutputPage.bytes pb.CommandOutputPage.is_final].
  destruct (Z.ltb_spec end_ (Z.of_nat (length data))) as [L|L].
  - assert (Ne : pretty end_ <> "") by (apply pretty_Z_nonempty; unfold is_u64; lia). rewrite bool_decide_eq_false_2 by done.
    rewrite (IH _ end_); [|unfold cursor_offset; rewrite parse_u64_pretty_Z by (unfold is_u64; lia); done|lia|lia]. simpl.
    f_equal. f_equal. unfold chunk. rewrite <- (take_drop (Z.to_nat (end_ - offset)) (drop (Z.to_nat offset) data)) at 2. f_equal.
    rewrite drop_drop. f_equal. lia.
  - rewrite bool_decide_eq_true_2 by done. rewrite (proj2 (Z.leb_le _ _)) by lia. rewrite andb_true_r. f_equal. f_equal. unfold chunk. apply take_ge. rewrite length_drop. lia.
Qed.

(** C11. The pages of an output.  A browser that asks for the output of a command with any page size and follows the
    cursor ends after finitely many pages, each of at most 256 KiB, and holds exactly the first eight MiB of
    what the command has written, provided appends arrived at the end of what was already there; the last page
    says whether the output is final. *)
Theorem output_pages_reassemble (slot : SessionSlot) (item : pb.ItemId.t) (page_size : Z) (events : list DomainEvent.t) (items : gmap string OutputBuffer.t)
    (b : OutputBuffer.t) :
  0 <= page_size -> all_fit (pb.ItemId.id item) [] events ->
  foldl (fun o event => note_output slot event o) (∅ : Outputs) events !! slot = Some items -> items !! pb.ItemId.id item = Some b ->
  (exists fuel, fetch_pages fuel item page_size "" b =
     Some (kept (foldl (fun n event => native_output (pb.ItemId.id item) event n) [] events), OutputBuffer.is_final b)) /\
  forall offset, zlen (buffered_page offset (page_limit page_size) b).1.1 <= OUTPUT_PAGE_MAX.
Proof.
  intros P F Li Lb. pose proof (outputs_kept slot (pb.ItemId.id item) events [] ∅ F) as K. unfold data_of at 1 in K. rewrite lookup_empty in K.
  specialize (K eq_refl). unfold data_of in K. rewrite Li, Lb in K. pose proof (page_limit_range _ P) as Lm.
  assert (M : zlen (OutputBuffer.data b) <= OUTPUT_BUFFER_MAX).
  { rewrite K. unfold zlen. rewrite length_take. unfold OUTPUT_BUFFER_MAX. lia. }
  split.
  - exists (S (length (OutputBuffer.data b))). rewrite <- K. change (OutputBuffer.data b) with (drop (Z.to_nat 0) (OutputBuffer.data b)) at 2.
    apply fetch_from; [done..|reflexivity|unfold zlen; lia|lia].
  - intros offset. unfold buffered_page, zlen, saturating_add. cbn [fst]. rewrite length_take. lia.
Qed.

(** ** Sessions of ZCode stay out of Codex *)

(** Operations that reach Codex, its files, its Git data or the gateway of its commands. *)
Definition not_codex (B : Type) (o : qop B) : Prop :=
  match o with
  | OnGateway _ | OnTransfer _ | AdapterHistoryPage _ _ _ | AdapterOutputPage _ _ _ _ | AdapterSessionCwd _ | GitReadSummary _ _
  | GitReadFileDiff _ _ _ _ => False
  | OnRuntime (AdapterRefreshSnapshot _) | OnRuntime (AdapterRuntimeSnapshot _) => False
  | _ => True
  end.

Definition is_zcode (key : option SessionKey.t) : Prop := exists k, key = Some k /\ SessionKey.agent_kind k = AgentKind.ZcodeDesktop.

Section Isolation.
Context `{ProtoCrates} `{Conversions} `{Infer}.
Variable device_id : string.

Lemma quiet_send (correlation : string) (payload : Payload.t) : prog_all not_codex (q_send correlation payload).
Proof. by split. Qed.

Lemma refused_zcode {A : Type} (code : StableErrorCode.t) (message : string) (key : SessionKey.t) (p : qprog (res BridgeError.t A)) :
  SessionKey.agent_kind key = AgentKind.ZcodeDesktop ->
  prog_all not_codex (try? _ <- lift (require_codex code message key); p).
Proof. intros E. unfold require_codex. rewrite bool_decide_eq_true_2 by (by rewrite E). done. Qed.

Lemma zcode_query (key : SessionKey.t) (query : pb.QueryRequest.Query) :
  SessionKey.agent_kind key = AgentKind.ZcodeDesktop ->
  prog_all not_codex
    (match query with
     | pb.QueryRequest.RuntimeSnapshot _ => query_runtime_snapshot (Some key)
     | pb.QueryRequest.HistoryPage page => query_history_page (Some key) (pb.HistoryPageQuery.cursor page) (pb.HistoryPageQuery.page_size page)
     | pb.QueryRequest.CommandOutputPage page => query_command_output_page (Some key) page
     | pb.QueryRequest.GitSummary _ => query_git_summary (Some key)
     | pb.QueryRequest.GitFileDiff diff => query_git_file_diff (Some key) diff
     | pb.QueryRequest.FileMetadata meta => query_file_metadata device_id (Some key) meta
     end).
Proof.
  intros E.
  assert (Gi : git_inputs (Some key) = Ret (bridge_err StableErrorCode.SessionNotFound "git data is not available for this agent kind")).
  { unfold git_inputs, require_codex, require_key, try, lift. cbn [prog_bind ok_or]. rewrite bool_decide_eq_true_2 by (by rewrite E). done. }
  destruct query; try (by apply refused_zcode).
  - unfold query_runtime_snapshot, require_key, try, lift. cbn [prog_bind ok_or]. rewrite E. cbn [prog_bind act]. split; [done|]. intros [|]; [|done]. split; [done|]. intros snapshot. split; [done|]. intros queue.
    by split.
  - unfold query_git_summary. by rewrite Gi.
  - unfold query_git_file_diff. by rewrite Gi.
Qed.

Lemma zcode_domain_request (request : pb.CommandRequest.t) (caps : CapabilitySet.t) (domain : CommandRequest.t) :
  is_zcode (pb.CommandRequest.session_key request ≫= session_key_from_proto) -> command_request_from_proto request caps = Ok domain ->
  SessionKey.agent_kind (CommandRequest.session_key domain) = AgentKind.ZcodeDesktop.
Proof.
  intros (k & E & Z). unfold command_request_from_proto. rewrite E.
  destruct (uuid_parse_str _) as [id|]; simpl; [|done]. destruct (pb.Operation.try_from _) as [op|]; simpl; [|done].
  destruct (command_payload_from_proto _ _) as [payload|]; simpl; [|done]. destruct (command_operation_from_proto op) as [o|]; simpl; [|done].
  by intros [= <-].
Qed.

(** The sessions of ZCode.  A query or command for a session of ZCode never reaches Codex, not even when a Codex
    session has the same native id: none of its handlers asks the adapter for a snapshot, history, output or
    directory, reads Git data or files, or submits to the gateway of Codex commands. *)
Theorem zcode_stays_out_of_codex (query : pb.QueryRequest.t) (request : pb.CommandRequest.t) (correlation : string) :
  is_zcode (pb.QueryRequest.session_key query ≫= session_key_from_proto) ->
  is_zcode (pb.CommandRequest.session_key request ≫= session_key_from_proto) ->
  prog_all not_codex (handle_query device_id query correlation) /\ prog_all not_codex (handle_command request correlation).
Proof.
  intros (k & E & Z) R. split.
  - unfold handle_query. rewrite E. apply prog_all_bind; [|intros r; apply quiet_send].
    destruct (pb.QueryRequest.query query) as [q|]; [|done]. pose proof (zcode_query k q Z) as X. by destruct q.
  - unfold handle_command. apply prog_all_bind; [done|]. intros attached. apply prog_all_bind; [by destruct attached|]. intros [|]; [done|].
    apply prog_all_bind; [done|]. intros caps. destruct (command_request_from_proto request caps) as [d|err] eqn:D; [|apply quiet_send].
    rewrite bool_decide_eq_true_2 by (by eapply zcode_domain_request). apply quiet_send.
Qed.
End Isolation.

(** ** Every command is answered *)

(** What a handler shows: an envelope, a command the ZCode path has taken, a task it starts. *)
Inductive QObs :=
| Sent (envelope : Envelope.t)
| TakenByZcode
| StartedTask (task : Started).

Definition qobs (B : Type) (o : qop B) : B -> list QObs :=
  match o in qop B return B -> list QObs with
  | OnRuntime o =>
      match o in rtop B return B -> list QObs with
      | SendOut envelope => fun _ => [Sent envelope]
      | _ => fun _ => []
      end
  | ZcodeCommand _ _ => fun taken => if taken : bool then [TakenByZcode] else []
  | SpawnTask task => fun _ => [StartedTask task]
  | _ => fun _ => []
  end.

(** The other components may answer anything. *)
Notation qexec := (texec (fun _ _ => True) (fun _ _ _ _ _ => True) qobs).

Definition result_envelope (correlation request_id : string) (status : pb.CommandReceiptStatus.t) (error_code : option pb.StableErrorCode.t) : Envelope.t :=
  connection_envelope correlation (Payload.CommandResult (pb.CommandResult.mk request_id (pb.CommandReceiptStatus.as_i32 status)
    (default 0 (pb.StableErrorCode.as_i32 <$> error_code)) ∅ None)).

Lemma send_run (correlation : string) (payload : Payload.t) (t : list QObs) (r : option unit) :
  qexec (q_send correlation payload) tt t r tt -> r = Some tt -> t = [Sent (connection_envelope correlation payload)].
Proof. intros (s1 & [b|] & s2 & _ & _ & X) E; [|by destruct X as (_ & -> & _)]. by destruct X as (t' & (-> & _ & _) & ->). Qed.

(** What the gateway does is not shown here. *)
Lemma gateway_run {A : Type} (p : Concurrent.prog A) (t : list QObs) (r : option A) : qexec (on_gateway p) tt t r tt -> t = [].
Proof.
  intros X. eapply (texec_all (fun B (o : qop B) => match o with OnGateway _ => True | _ => False end) _ _ _ (fun _ => False)) in X.
  - destruct t; [done|]. by apply Forall_inv in X.
  - intros B o b Ho. by destruct o.
  - by apply prog_all_map.
Qed.

Section Answers.
Context `{ProtoCrates} `{Conversions}.

Definition accepted_envelope (correlation request_id : string) (accepted_at : DateTime) : Envelope.t :=
  connection_envelope correlation (Payload.CommandAccepted (pb.CommandAccepted.mk request_id
    (pb.CommandReceiptStatus.as_i32 pb.CommandReceiptStatus.ReceiptAcceptedByBridge) (Some (timestamp_to_proto accepted_at)))).

(** The answers a command may get. *)
Inductive answered (correlation : string) : list QObs -> Prop :=
| ByZcode : answered correlation [TakenByZcode]
| Refused id code : answered correlation [Sent (result_envelope correlation id pb.CommandReceiptStatus.ReceiptRejected (Some code))]
| Accepted id at_ receipts : answered correlation [Sent (accepted_envelope correlation id at_); StartedTask (ReceiptsTask receipts correlation)]
| ReplayedAs id at_ state : answered correlation
    [Sent (accepted_envelope correlation id at_); Sent (result_envelope correlation id (stored_state_to_status state) None)].

Lemma reject_run (correlation id : string) (code : StableErrorCode.t) (t : list QObs) :
  qexec (reject correlation id code) tt t (Some tt) tt -> answered correlation t.
Proof. intros ->%send_run; [|done]. apply Refused. Qed.

(** Each command is answered exactly once at the connection it came from.  Whatever the other components answer: a
    command that the ZCode path does not take is either refused with a code; or accepted, and the task that
    forwards its receipts is started; or accepted and answered with the stored state of the first attempt. *)
Theorem command_answered (request : pb.CommandRequest.t) (correlation : string) (t : list QObs) :
  qexec (handle_command request correlation) tt t (Some tt) tt -> answered correlation t.
Proof.
  unfold handle_command. intros X. apply texec_bind in X as [[_ ?]|(t1 & attached & [] & t2 & X1 & X & ->)]; [done|].
  apply texec_act in X1 as (s1 & _ & _ & ->). cbn [qobs app].
  apply texec_bind in X as [[_ ?]|(t3 & taken & [] & t4 & X1 & X & ->)]; [done|].
  assert (T : t3 = if taken then [TakenByZcode] else []).
  { destruct attached; [by apply texec_act in X1 as (s2 & _ & _ & ->)|]. destruct X1 as (-> & [= ->] & _). done. }
  subst t3. clear X1. destruct taken; [destruct X as (-> & _ & _); apply ByZcode|]. simpl.
  apply texec_bind in X as [[_ ?]|(t5 & caps & [] & t6 & X1 & X & ->)]; [done|]. apply texec_act in X1 as (s3 & _ & _ & ->). cbn [qobs app].
  destruct (command_request_from_proto request caps) as [d|err]; [|by eapply reject_run].
  destruct (bool_decide _); [by eapply reject_run|].
  apply texec_bind in X as [[_ ?]|(t7 & submitted & [] & t8 & X1 & X & ->)]; [done|]. apply gateway_run in X1 as ->. cbn [app].
  destruct submitted as [[at_ receipts|id state]|err]; [| |by eapply reject_run].
  - apply texec_bind in X as [[_ ?]|(t9 & [] & [] & t10 & X1 & X & ->)]; [done|]. apply send_run in X1 as ->; [|done].
    apply texec_act in X as (s4 & _ & _ & ->). apply Accepted.
  - apply texec_bind in X as [[_ ?]|(t9 & now & [] & t10 & X1 & X & ->)]; [done|]. apply texec_act in X1 as (s4 & _ & _ & ->). cbn [qobs app].
    apply texec_bind in X as [[_ ?]|(t11 & [] & [] & t12 & X1 & X & ->)]; [done|]. apply send_run in X1 as ->; [|done].
    apply send_run in X as ->; [|done]. apply ReplayedAs.
Qed.

(** The receipts of an accepted command become results in their order, up to the first terminal one. *)
Fixpoint up_to_terminal (receipts : list CommandReceipt.t) : list CommandReceipt.t :=
  match receipts with
  | [] => []
  | r :: receipts => r :: if is_terminal (CommandReceipt.state r) then [] else up_to_terminal receipts
  end.

Lemma receipts_forwarded (correlation : string) (receipts : list CommandReceipt.t) (t : list QObs) :
  qexec (forward_results correlation receipts) tt t (Some tt) tt ->
  t = map (fun r => Sent (result_envelope correlation (CommandReceipt.request_id r) (receipt_state_to_status (CommandReceipt.state r)).1
    (receipt_state_to_status (CommandReceipt.state r)).2)) (up_to_terminal receipts).
Proof.
  revert t. induction receipts as [|r receipts IH]; intros t; [by intros (-> & _)|]. cbn [forward_results up_to_terminal map].
  destruct (receipt_state_to_status (CommandReceipt.state r)) as [status code]. intros X.
  apply texec_bind in X as [[_ ?]|(t1 & [] & [] & t2 & X1 & X & ->)]; [done|]. apply send_run in X1 as ->; [|done]. simpl. f_equal.
  destruct (is_terminal _); [by destruct X as (-> & _)|by apply IH].
Qed.
End Answers.

(** ** Concrete runs *)

Module RequestDemo.
#[local] Instance demo_crates : ProtoCrates :=
  { dt_timestamp := fun _ => 0; dt_subsec_nanos := fun _ => 0; dt_from_timestamp := fun _ _ => None; uuid_parse_str := fun s => Some s }.

Definition item : pb.ItemId.t := pb.ItemId.mk "i" false.
Definition slot : SessionSlot := (AgentKind.CodexDesktop, "s").
Definition append (offset : Z) (text : string) : DomainEvent.t :=
  DomainEvent.OutputAppend (ItemId.mk "i" false) offset (OutputBytes.from_text text) OutputChannel.Combined.
Definition written : list DomainEvent.t := [append 0 "ab"; append 2 "cde"].

Lemma output_pages_reassemble_witness : exists items b,
  foldl (fun o event => note_output slot event o) (∅ : Outputs) written !! slot = Some items /\ items !! "i" = Some b /\
  exists fuel, fetch_pages fuel item 2 "" b = Some (String.list_byte_of_string "abcde", false).
Proof.
  eexists _, _. split; [reflexivity|]. split; [reflexivity|].
  destruct (output_pages_reassemble slot item 2 written _ _ ltac:(lia) ltac:(by repeat split; vm_compute) eq_refl eq_refl) as [[fuel E] _].
  exists fuel. exact E.
Defined.

#[local] Instance demo_conversions : Conversions :=
  { canonical_payload_digest := fun _ => ""; operation_name := fun _ => ""; parse_datetime := fun _ => None; parse_uuid := fun _ => None }.
#[local] Instance demo_infer : Infer := fun _ => None.

Definition zcode_key : option pb.SessionKey.t := Some (pb.SessionKey.mk "dev" 2 "s" "").
Definition git_query : pb.QueryRequest.t := pb.QueryRequest.mk zcode_key (Some (pb.QueryRequest.GitSummary pb.GitSummaryQuery.mk)).
Definition steer : pb.CommandRequest.t := pb.CommandRequest.mk "r" 6 zcode_key None None "" None.

Lemma zcode_stays_out_of_codex_witness :
  prog_all not_codex (handle_query "dev" git_query "c") /\ prog_all not_codex (handle_command steer "c").
Proof.
  apply (zcode_stays_out_of_codex "dev" git_query steer "c").
  - by eexists.
  - by eexists.
Defined.

Lemma command_answered_witness : exists t, t <> [] /\ answered "c" t.
Proof.
  assert (X : exists t, t <> [] /\ qexec (handle_command (pb.CommandRequest.mk "r" 6 None None None "" None) "c") tt t (Some tt) tt).
  { eexists. split; [|eexists _, (Some false), tt; split_and!; [done|done|]; eexists; split; [|reflexivity];
      eexists _, (Some (CapabilitySet.unavailable)), tt; split_and!; [done|done|]; eexists; split; [|reflexivity];
      eexists _, (Some tt), tt; split_and!; [done|done|]; eexists; split; [|reflexivity]; done]. done. }
  destruct X as (t & N & X). exists t. split; [done|]. exact (command_answered _ _ _ X).
Defined.

(** An append that was not seen from its start leaves an empty buffer, which then hides the output the adapter knows. *)
Lemma unseen_output_shadows :
  exists items b, note_output slot (append 3 "de") ∅ !! slot = Some items /\ items !! "i" = Some b /\
    output_page_result item 0 (buffered_page 0 10 b) = pb.CommandOutputPage.mk (Some item) "" [] false 3.
Proof. eexists _, _. done. Qed.

(** The handlers of an offer ask for the native id of the session only: an offer for a session of ZCode is
    served with the handles of the Codex session of the same id. *)
Lemma offers_ignore_the_agent (device : string) (infer : Infer) (id token native : string) (relay : string) (size : Z) (start : Z) (end_ : option Z) :
  let offer kind := pb.TransferOffer.mk id 1 (Some (pb.SessionKey.mk device kind native relay)) "" "" size token start end_ None in
  handle_download device (offer 2) = handle_download device (offer 1).
Proof. done. Qed.
End RequestDemo.
