(* ===== verification/Messages.v ===== *)
(** * The protocol messages the Relay routes ([proto/agent_console/v1])

    The Rust types are generated from these files.  A message is modelled by the fields the Relay
    reads or writes; what it only passes on is an opaque body.  The random message id, the
    timestamps, the protocol version and the agent kind of an envelope are written once and never
    read, and are left out.  At the end: which messages ask for a notification ([push/mod.rs]). *)

From S2P Require Import Prelude RustStr.

Definition Uuid : Type := string.

(** The wire format belongs to the protobuf library. *)
Definition Body : Type := list byte.

Module SessionKey.
Record t := mk {
  device_id : string;
  agent_kind : Z;
  native_session_id : string;
}.
End SessionKey.

#[global] Instance SessionKey_eq_dec : EqDecision SessionKey.t.
Proof. solve_decision. Defined.

(** The fields of a summary that decide notifications; the others are its body. *)
Module SessionSummary.
Record t := mk {
  session_key : option SessionKey.t;
  last_turn_outcome : Z;
  pending_attention_count : Z;
  pending_attention_kinds : list Z;
  body : Body;
}.
End SessionSummary.

#[global] Instance SessionSummary_eq_dec : EqDecision SessionSummary.t.
Proof. solve_decision. Defined.

Inductive AttentionContent := QuestionAttention | ApprovalAttention.

Inductive ItemContentKind := TokenUsageContent | QuestionContent | ApprovalContent | OtherContent.

(** [domain_event::Event]; the identifiers inside are optional messages. *)
Inductive Event :=
| TurnLifecycle (outcome : Z)
| SessionSummaryChanged (summary : SessionSummary.t)
| PendingAttentionAdded (attention : option AttentionContent)
| PendingAttentionRemoved
| QueueStateChanged
| DevicePresenceChanged (device_id : option string) (connection : Z)
| CapabilityChanged
| BackgroundCommandChanged (command_id : option string)
| ItemUpsert (item_id : option string) (content : option ItemContentKind)
| OutputAppend (item_id : option string) (expected_offset : Z) (bytes : list byte) (channel : Z)
| OutputReplace
| OutputFinal.

#[global] Instance AttentionContent_eq_dec : EqDecision AttentionContent.
Proof. solve_decision. Defined.
#[global] Instance ItemContentKind_eq_dec : EqDecision ItemContentKind.
Proof. solve_decision. Defined.
#[global] Instance Event_eq_dec : EqDecision Event.
Proof. solve_decision. Defined.

Inductive Target :=
| ListTarget
| SessionTarget (key : SessionKey.t).

#[global] Instance Target_eq_dec : EqDecision Target.
Proof. solve_decision. Defined.

(** [CommandReceiptStatus], [StableErrorCode], [LastTurnOutcome] and the other enums travel as
    numbers; unknown numbers stay what they are. *)
Definition ReceiptAcceptedByBridge : Z := 2.
Definition ReceiptCompleted : Z := 4.
Definition ReceiptRejected : Z := 5.
Definition ReceiptOutcomeUnknown : Z := 6.
Definition OutcomeUnknown : Z := 16.
Definition ResyncRequiredCode : Z := 17.
Definition ConnectionOnline : Z := 2.
Definition ConnectionOffline : Z := 4.
Definition AttentionUserQuestion : Z := 1.
Definition AttentionRiskApproval : Z := 2.

Module CommandAccepted.
Record t := mk { request_id : string; status : Z }.
End CommandAccepted.

Module CommandResult.
Record t := mk { request_id : string; status : Z; error_code : Z; details : list (string * string) }.
End CommandResult.

#[global] Instance CommandAccepted_eq_dec : EqDecision CommandAccepted.t.
Proof. solve_decision. Defined.
#[global] Instance CommandResult_eq_dec : EqDecision CommandResult.t.
Proof. solve_decision. Defined.

(** [envelope::Payload]. *)
Inductive Payload :=
| ClientHello (body : Body)
| ServerHello (body : Body)
| CapabilitySnapshot (body : Body)
| DevicePresence (body : Body)
| Subscribe (target : option Target)
| Subscribed (stream_id : string) (stream_epoch base_sequence : Z)
| Unsubscribe (stream_id : string)
| Ack (stream_id : string) (sequence : Z)
| SessionSummaryBatch (snapshot : bool) (summaries : list SessionSummary.t)
| RuntimeSnapshot (body : Body)
| EventBatch (stream_id : string) (events : list (option Event))
| ResyncRequired (stream_id : string) (reason_code : Z)
| ResyncRequest (stream_id : string)
| QueryRequest (body : Body)
| QueryResponse (request_id : string) (body : Body)
| CommandRequest (request_id : string) (body : Body)
| CommandAcceptedPayload (accepted : CommandAccepted.t)
| CommandResultPayload (result : CommandResult.t)
| TransferOffer (body : Body)
| TransferReady (body : Body)
| TransferResult (body : Body)
| Heartbeat
| HeartbeatAck
| ProtocolError (error_code : Z) (message request_id stream_id : string).

#[global] Instance Payload_eq_dec : EqDecision Payload.
Proof. solve_decision. Defined.

Module Envelope.
Record t := mk {
  correlation_id : string;
  device_id : string;
  stream_id : string;
  stream_epoch : Z;
  sequence : Z;
  payload : option Payload;
}.

Definition with_payload (payload : option Payload) (e : t) : t :=
  mk (correlation_id e) (device_id e) (stream_id e) (stream_epoch e) (sequence e) payload.

(** [frame_env.stream_id = ..; frame_env.stream_epoch = ..; frame_env.sequence = ..]. *)
Definition on_stream (stream_id : string) (stream_epoch sequence : Z) (e : t) : t :=
  mk (correlation_id e) (device_id e) stream_id stream_epoch sequence (payload e).
End Envelope.

#[global] Instance Envelope_eq_dec : EqDecision Envelope.t.
Proof. solve_decision. Defined.

(** [prost::Message]: the encoding of an envelope, its length, and the length of an event. *)
Class Prost := {
  encoded_len : Envelope.t -> Z;
  encode_to_vec : Envelope.t -> list byte;
  event_len : Event -> Z;
}.

(** ** [crates/protocol/src/codec.rs] *)

Definition MAX_FRAME_BYTES : Z := 1024 * 1024.

Inductive CodecError :=
| FrameTooLarge (size max : Z).

(** [prost] fails to encode only into a buffer too small, and this one grows. *)
Definition encode_envelope `{Prost} (envelope : Envelope.t) : res CodecError (list byte) :=
  let size := encoded_len envelope in
  if MAX_FRAME_BYTES <? size then Err (FrameTooLarge size MAX_FRAME_BYTES)
  else Ok (encode_to_vec envelope).

(** ** Which events ask for a notification ([apps/relay/src/push/mod.rs]) *)

Module PushEventKind.
Inductive t := TurnCompleted | TurnFailed | TurnInterrupted | WaitingQuestion | WaitingApproval.

Definition key (k : t) : Z :=
  match k with
  | TurnCompleted => 1
  | TurnFailed => 2
  | TurnInterrupted => 3
  | WaitingQuestion => 4
  | WaitingApproval => 5
  end.

Definition name (k : t) : string :=
  match k with
  | TurnCompleted => "turnCompleted"
  | TurnFailed => "turnFailed"
  | TurnInterrupted => "turnInterrupted"
  | WaitingQuestion => "waitingQuestion"
  | WaitingApproval => "waitingApproval"
  end.

(** [LastTurnOutcome] on the wire: completed 1, failed 2, interrupted 3. *)
Definition from_turn_outcome (outcome : Z) : option t :=
  if outcome =? 1 then Some TurnCompleted
  else if outcome =? 2 then Some TurnFailed
  else if outcome =? 3 then Some TurnInterrupted
  else None.
End PushEventKind.

Module PushTrigger.
Record t := mk {
  owner : Uuid;
  device : Uuid;
  agent_kind : string;
  native_session_id : string;
  kind : PushEventKind.t;
}.
End PushTrigger.

Definition trigger_kinds (event : Event) : list PushEventKind.t :=
  match event with
  | TurnLifecycle outcome => option_list (PushEventKind.from_turn_outcome outcome)
  | PendingAttentionAdded (Some QuestionAttention) => [PushEventKind.WaitingQuestion]
  | PendingAttentionAdded (Some ApprovalAttention) => [PushEventKind.WaitingApproval]
  | SessionSummaryChanged s =>
      let has_kind k := existsb (Z.eqb k) (SessionSummary.pending_attention_kinds s) in
      option_list (PushEventKind.from_turn_outcome (SessionSummary.last_turn_outcome s)) ++
      (if 0 <? SessionSummary.pending_attention_count s then
         (if has_kind AttentionUserQuestion then [PushEventKind.WaitingQuestion] else []) ++
         (if has_kind AttentionRiskApproval then [PushEventKind.WaitingApproval] else [])
       else [])
  | _ => []
  end.

Definition triggers_from_event (owner device : Uuid) (agent_kind native_session_id : string) (event : Event)
    : list PushTrigger.t :=
  map (PushTrigger.mk owner device agent_kind native_session_id) (trigger_kinds event).
