(* ===== verification/Buffer.v ===== *)
(** * The Relay's bounded buffers ([apps/relay/src/realtime/buffer.rs])

    The replay window of a stream ([StreamBuffer]) with its three classes of frames, the lossless
    merging of output deltas and the eviction under pressure, and the bounded send queue of a
    browser ([Outbox]). *)

From S2P Require Import Prelude RustStr Messages.

Definition BROWSER_QUEUE_MAX_BYTES : Z := 16 * 1024 * 1024.
Definition DIRECT_RESERVE_BYTES : Z := 1024 * 1024.

(** ** Frames *)

Inductive FrameKind := Critical | Recoverable | Mergeable.

#[global] Instance FrameKind_eq_dec : EqDecision FrameKind.
Proof. solve_decision. Defined.

Inductive MergeInfo :=
| AppendInfo (key : string) (offset len : Z)
| ReplaceLatest (key : string).

#[global] Instance MergeInfo_eq_dec : EqDecision MergeInfo.
Proof. solve_decision. Defined.

Definition scoped (m : MergeInfo) (prefix : string) : MergeInfo :=
  match m with
  | AppendInfo key offset len => AppendInfo (prefix +:+ "/" +:+ key) offset len
  | ReplaceLatest key => ReplaceLatest (prefix +:+ "/" +:+ key)
  end.

Module Frame.
Record t := mk {
  env : Envelope.t;
  kind : FrameKind;
  merge : option MergeInfo;
  upstream_seq : option Z;
  ts : Z;
  bytes_len : Z;
}.
End Frame.

#[global] Instance Frame_eq_dec : EqDecision Frame.t.
Proof. solve_decision. Defined.

Definition classify (event : Event) : FrameKind * option MergeInfo :=
  match event with
  | TurnLifecycle _ | SessionSummaryChanged _ | PendingAttentionAdded _ | PendingAttentionRemoved
  | QueueStateChanged => (Critical, None)
  | DevicePresenceChanged device_id _ =>
      (Mergeable, Some (ReplaceLatest ("presence:" +:+ default "" device_id)))
  | CapabilityChanged => (Recoverable, Some (ReplaceLatest "capability"))
  | BackgroundCommandChanged command_id =>
      (Recoverable, Some (ReplaceLatest ("bg:" +:+ default "" command_id)))
  | ItemUpsert item_id content =>
      match content with
      | Some TokenUsageContent => (Mergeable, Some (ReplaceLatest ("token:" +:+ default "" item_id)))
      | Some QuestionContent | Some ApprovalContent => (Critical, None)
      | _ => (Recoverable, None)
      end
  | OutputAppend item_id expected_offset bytes channel =>
      (Mergeable,
       Some (AppendInfo ("out:" +:+ default "" item_id +:+ ":" +:+ pretty channel) expected_offset (zlen bytes)))
  | OutputReplace | OutputFinal => (Recoverable, None)
  end.

Section Buffer.
Context `{Prost}.

Definition with_upstream_seq (now : Z) (env : Envelope.t) (kind : FrameKind) (merge : option MergeInfo)
    (upstream_seq : option Z) : Frame.t :=
  Frame.mk env kind merge upstream_seq now (encoded_len env).

Definition frame_new (now : Z) (env : Envelope.t) (kind : FrameKind) (merge : option MergeInfo) : Frame.t :=
  with_upstream_seq now env kind merge None.

(** The frame as sent; encoding fails for a frame over the limit. *)
Definition encoded (f : Frame.t) : option (list byte) := res_ok (encode_envelope (Frame.env f)).

(** The bytes of the output delta a frame ends with. *)
Definition last_append (env : Envelope.t) : option (list byte) :=
  match Envelope.payload env with
  | Some (EventBatch _ events) =>
      match last events with
      | Some (Some (OutputAppend _ _ bytes _)) => Some bytes
      | _ => None
      end
  | _ => None
  end.

(** [app_a.bytes.extend_from_slice(bytes_b)] on the last event of the batch. *)
Definition extend_append (env : Envelope.t) (extra : list byte) : option Envelope.t :=
  match Envelope.payload env with
  | Some (EventBatch stream_id events) =>
      match last events with
      | Some (Some (OutputAppend item offset bytes channel)) =>
          Some (Envelope.with_payload
                  (Some (EventBatch stream_id
                     (removelast events ++ [Some (OutputAppend item offset (bytes ++ extra) channel)]))) env)
      | _ => None
      end
  | _ => None
  end.

Definition merge_pair (now : Z) (a b : Frame.t) : option Frame.t :=
  match Frame.merge a, Frame.merge b with
  | Some (AppendInfo ka oa la), Some (AppendInfo kb ob lb) =>
      if negb (bool_decide (ka = kb)) || negb (as_u64 (oa + la) =? ob) then None
      else
        bytes_b ← last_append (Frame.env b);
        env ← extend_append (Frame.env a) bytes_b;
        if MAX_FRAME_BYTES <? encoded_len env then None
        else
          let upstream_seq :=
            match Frame.upstream_seq a, Frame.upstream_seq b with
            | Some sa, Some sb => Some (Z.min sa sb)
            | _, _ => None
            end in
          Some (with_upstream_seq now env (Frame.kind a) (Some (AppendInfo ka oa (la + lb))) upstream_seq)
  | _, _ => None
  end.

Definition REPLACE_WINDOW : nat := 64.

Definition replaces (f g : Frame.t) : bool :=
  match Frame.merge f, Frame.merge g with
  | Some (ReplaceLatest ki), Some (ReplaceLatest kj) => bool_decide (ki = kj)
  | _, _ => false
  end.

(** A frame goes when one of the next [REPLACE_WINDOW] frames replaces it. *)
Fixpoint drop_superseded (items : list Frame.t) : list Frame.t :=
  match items with
  | [] => []
  | f :: rest =>
      if existsb (replaces f) (take REPLACE_WINDOW rest) then drop_superseded rest
      else f :: drop_superseded rest
  end.

Definition total_len (items : list Frame.t) : Z := sum_by Frame.bytes_len items.

(** The second pass; [result] is kept with its last frame first. *)
Definition merge_step (now : Z) (acc : list Frame.t * Z) (f : Frame.t) : list Frame.t * Z :=
  let '(result, total) := acc in
  match result with
  | prev :: others =>
      match merge_pair now prev f with
      | Some merged => (merged :: others, total - Frame.bytes_len prev + Frame.bytes_len merged)
      | None => (f :: result, total + Frame.bytes_len f)
      end
  | [] => ([f], total + Frame.bytes_len f)
  end.

Definition coalesce (now : Z) (items : list Frame.t) : list Frame.t * Z :=
  let items := if (1 <? length items)%nat then drop_superseded items else items in
  let '(result, total) := foldl (merge_step now) ([], 0) items in
  (rev result, total).

End Buffer.

(** ** The replay window *)

Module StreamBuffer.
Record t := mk {
  items : list Frame.t;
  bytes : Z;
  max_events : nat;
  max_bytes : Z;
  retention : Z;
}.

Definition new (max_events : nat) (max_bytes retention : Z) : t := mk [] 0 max_events max_bytes retention.

Definition set (items : list Frame.t) (bytes : Z) (b : t) : t :=
  mk items bytes (max_events b) (max_bytes b) (retention b).

Definition fits (b : t) : bool :=
  (length (items b) <=? max_events b)%nat && (bytes b <=? max_bytes b).
End StreamBuffer.

Inductive InsertOutcome := Buffered | OverflowReset.

Section Window.
Context `{Prost}.

(** Frames older than the retention leave from the front. *)
Fixpoint drop_expired (now retention : Z) (items : list Frame.t) (bytes : Z) : list Frame.t * Z :=
  match items with
  | [] => ([], bytes)
  | f :: rest =>
      if retention <? Z.max 0 (now - Frame.ts f)
      then drop_expired now retention rest (sat_sub bytes (Frame.bytes_len f))
      else (items, bytes)
  end.

(** Remove the first frame a test accepts. *)
Fixpoint remove_first (test : Frame.t -> bool) (items : list Frame.t) : option (Frame.t * list Frame.t) :=
  match items with
  | [] => None
  | f :: rest =>
      if test f then Some (f, rest)
      else match remove_first test rest with
           | Some (g, rest) => Some (g, f :: rest)
           | None => None
           end
  end.

(** The newest of the last 32 frames that the new one replaces is removed. *)
Definition remove_replaced (frame : Frame.t) (items : list Frame.t) (bytes : Z) : list Frame.t * Z :=
  match Frame.merge frame with
  | Some (ReplaceLatest _) =>
      match remove_first (replaces frame) (take 32 (rev items)) with
      | Some (old, recent) =>
          (rev (recent ++ drop 32 (rev items)), sat_sub bytes (Frame.bytes_len old))
      | None => (items, bytes)
      end
  | _ => (items, bytes)
  end.

Definition append_frame (now : Z) (frame : Frame.t) (items : list Frame.t) (bytes : Z) : list Frame.t * Z :=
  match last items ≫= (fun prev => merge_pair now prev frame) with
  | Some merged =>
      let bytes := match last items with Some prev => sat_sub bytes (Frame.bytes_len prev) | None => bytes end in
      (removelast items ++ [merged], bytes + Frame.bytes_len merged)
  | None =>
      let '(items, bytes) := remove_replaced frame items bytes in
      (items ++ [frame], bytes + Frame.bytes_len frame)
  end.

(** The [while] loop over one class: every round removes a frame. *)
Fixpoint evict (fuel : nat) (allowed : FrameKind) (b : StreamBuffer.t) : StreamBuffer.t :=
  if StreamBuffer.fits b then b
  else match fuel with
       | O => b
       | S fuel =>
           match remove_first (fun f => bool_decide (Frame.kind f = allowed)) (StreamBuffer.items b) with
           | Some (f, items) =>
               evict fuel allowed
                 (StreamBuffer.set items (sat_sub (StreamBuffer.bytes b) (Frame.bytes_len f)) b)
           | None => b
           end
       end.

Definition insert (now : Z) (b : StreamBuffer.t) (frame : Frame.t) : StreamBuffer.t * InsertOutcome :=
  let '(items, bytes) :=
    drop_expired now (StreamBuffer.retention b) (StreamBuffer.items b) (StreamBuffer.bytes b) in
  let '(items, bytes) := append_frame now frame items bytes in
  let b := StreamBuffer.set items bytes b in
  if StreamBuffer.fits b then (b, Buffered)
  else
    let '(items, bytes) := coalesce now items in
    let b := StreamBuffer.set items bytes b in
    if StreamBuffer.fits b then (b, Buffered)
    else
      let b := evict (length (StreamBuffer.items b)) Mergeable b in
      if StreamBuffer.fits b then (b, Buffered)
      else
        let b := evict (length (StreamBuffer.items b)) Recoverable b in
        if StreamBuffer.fits b then (b, Buffered)
        else (StreamBuffer.set [] 0 b, OverflowReset).

Definition frames_from (b : StreamBuffer.t) (from_sequence : Z) : list Frame.t :=
  filter (fun f => from_sequence <= Envelope.sequence (Frame.env f)) (StreamBuffer.items b).

(** Is the frame an event of [device] that the snapshot already covers? *)
Definition covered (device : string) (covered_upstream_seq : Z) (f : Frame.t) : bool :=
  bool_decide (Envelope.device_id (Frame.env f) = device) &&
  match Frame.upstream_seq f with Some s => s <=? covered_upstream_seq | None => false end.

Definition retain_uncovered (b : StreamBuffer.t) (device : string) (covered_upstream_seq : Z)
    : StreamBuffer.t * nat :=
  let before := length (StreamBuffer.items b) in
  let items := filter (fun f => covered device covered_upstream_seq f = false) (StreamBuffer.items b) in
  let removed := (before - length items)%nat in
  (StreamBuffer.set items
     (if (0 <? removed)%nat then total_len items else StreamBuffer.bytes b) b, removed).

Definition clear (b : StreamBuffer.t) : StreamBuffer.t := StreamBuffer.set [] 0 b.

End Window.

(** ** The send queue of a browser *)

Inductive OutItem :=
| OutFrame (frame : Frame.t)
| OutDirect (bytes : list byte)
| OutClose (reason : string).

Inductive PushError := SlowConsumer | Closed.

Module Outbox.
Record t := mk {
  capacity : Z;
  max_bytes : Z;
  items : list OutItem;
  frames : Z;
  bytes : Z;
  closed : bool;
}.

Definition new (capacity max_bytes : Z) : t := mk capacity max_bytes [] 0 0 false.

Definition set (items : list OutItem) (frames bytes : Z) (closed : bool) (o : t) : t :=
  mk (capacity o) (max_bytes o) items frames bytes closed.
End Outbox.

Definition push_frame (o : Outbox.t) (frame : Frame.t) : Outbox.t * res PushError unit :=
  if Outbox.closed o then (o, Err Closed)
  else if (Outbox.capacity o <? Outbox.frames o + 1) ||
          (Outbox.max_bytes o <? Outbox.bytes o + Frame.bytes_len frame)
  then (o, Err SlowConsumer)
  else (Outbox.set (Outbox.items o ++ [OutFrame frame]) (Outbox.frames o + 1)
          (Outbox.bytes o + Frame.bytes_len frame) false o, Ok tt).

Definition is_frame (item : OutItem) : bool :=
  match item with OutFrame _ => true | _ => false end.

Definition direct_len (item : OutItem) : Z :=
  match item with OutDirect bytes => zlen bytes | _ => 0 end.

Definition close (o : Outbox.t) (reason : string) : Outbox.t :=
  if Outbox.closed o then o
  else
    let kept := filter (fun item => is_frame item = false) (Outbox.items o) in
    Outbox.set (kept ++ [OutClose reason]) 0 (sum_by direct_len kept) true o.

(** The code gives the lock back between the test of the sizes and [close]; another sender may come in between.  The model takes
    both at once. *)
Definition push_direct (o : Outbox.t) (bytes : list byte) : Outbox.t * bool :=
  if Outbox.closed o then (o, false)
  else if bool_decide (bytes = []) then (o, false)
  else if Outbox.max_bytes o + DIRECT_RESERVE_BYTES <? Outbox.bytes o + zlen bytes
  then (close o "OUTBOX_OVERLOAD", false)
  else (Outbox.set (Outbox.items o ++ [OutDirect bytes]) (Outbox.frames o)
          (Outbox.bytes o + zlen bytes) false o, true).

(** One poll of [recv]: an item, the end, or nothing yet. *)
Inductive Received := Item (item : OutItem) | Ended | NotYet.

Definition recv (o : Outbox.t) : Outbox.t * Received :=
  match Outbox.items o with
  | item :: items =>
      (match item with
       | OutFrame f => Outbox.set items (Outbox.frames o - 1) (sat_sub (Outbox.bytes o) (Frame.bytes_len f)) (Outbox.closed o) o
       | OutDirect bytes => Outbox.set items (Outbox.frames o) (sat_sub (Outbox.bytes o) (zlen bytes)) (Outbox.closed o) o
       | OutClose _ => Outbox.set items (Outbox.frames o) (Outbox.bytes o) (Outbox.closed o) o
       end, Item item)
  | [] => (o, if Outbox.closed o then Ended else NotYet)
  end.
