(* ===== verification/BufferProps.v ===== *)
(** * Properties of the Relay's buffers

    Frames are well formed when they are built the way the hub builds them ([hub_frame_wf]).
    Merging is lossless, the byte count is exact, the limits hold after every insertion, frames
    of the first class only leave by age or by an announced reset; the send queue is a bounded
    first-in-first-out queue that never loses a direct message. *)

From S2P Require Import Prelude RustStr Messages Buffer.

(** The encoding of a message has the announced length. *)
Class ProstLaws `{Prost} := {
  encoded_len_spec (env : Envelope.t) : encoded_len env = zlen (encode_to_vec env);
  event_len_nonneg (event : Event) : 0 <= event_len event;
}.

Lemma encoded_len_nonneg `{ProstLaws} (env : Envelope.t) : 0 <= encoded_len env.
Proof. rewrite encoded_len_spec. apply zlen_nonneg. Qed.

#[local] Arguments total_len : simpl never.

(** ** Well-formed frames *)

Record wf_frame (f : Frame.t) : Prop := {
  wf_len : 0 <= Frame.bytes_len f;
  wf_critical : Frame.kind f = Critical -> Frame.merge f = None;
  wf_append : forall key offset len, Frame.merge f = Some (AppendInfo key offset len) ->
    exists stream_id item bytes channel,
      Envelope.payload (Frame.env f) = Some (EventBatch stream_id [Some (OutputAppend item offset bytes channel)]) /\
      len = zlen bytes;
}.

(** The output bytes a frame carries for a key, and a sequence of frames. *)
Definition content (key : string) (f : Frame.t) : list byte :=
  match Frame.merge f with
  | Some (AppendInfo k _ _) => if bool_decide (k = key) then default [] (last_append (Frame.env f)) else []
  | _ => []
  end.

Definition content_of (key : string) (items : list Frame.t) : list byte := concat (map (content key) items).

Definition criticals (items : list Frame.t) : list Frame.t := filter (fun f => Frame.kind f = Critical) items.

(** The newest frame of a key that only keeps the newest. *)
Definition latest (key : string) (items : list Frame.t) : option Frame.t :=
  last (filter (fun f => Frame.merge f = Some (ReplaceLatest key)) items).

Lemma content_of_app (key : string) (l k : list Frame.t) :
  content_of key (l ++ k) = content_of key l ++ content_of key k.
Proof. unfold content_of. by rewrite map_app, concat_app. Qed.

Lemma total_len_app (l k : list Frame.t) : total_len (l ++ k) = total_len l + total_len k.
Proof. apply sum_by_app. Qed.

Lemma total_len_cons (f : Frame.t) (l : list Frame.t) : total_len (f :: l) = Frame.bytes_len f + total_len l.
Proof. apply sum_by_cons. Qed.

Lemma total_len_nonneg (l : list Frame.t) : Forall wf_frame l -> 0 <= total_len l.
Proof. intros Hl. apply sum_by_nonneg. eapply Forall_impl; [exact Hl|]. intros f. apply wf_len. Qed.

Lemma not_critical (f : Frame.t) (m : MergeInfo) :
  wf_frame f -> Frame.merge f = Some m -> Frame.kind f <> Critical.
Proof. intros Hf Hm Hk. rewrite (wf_critical f Hf Hk) in Hm. done. Qed.

Section Props.
Context `{ProstLaws}.

(** The hub's frames: one classified event, its merge key scoped. *)
Lemma hub_frame_wf (now : Z) (env : Envelope.t) (stream_id prefix : string) (event : Event) (upstream_seq : option Z) :
  Envelope.payload env = Some (EventBatch stream_id [Some event]) ->
  let '(kind, merge) := classify event in
  wf_frame (with_upstream_seq now env kind ((fun m => scoped m prefix) <$> merge) upstream_seq).
Proof.
  intros Hp. destruct event as [| | | | | | | |item [[]|]|item offset bytes channel| |]; simpl; split; simpl;
    try done; try apply encoded_len_nonneg.
  intros key0 offset0 len0 Hm. simplify_eq. eauto 10.
Qed.

(** Frames that are not events: snapshots and the Relay's own presence notices. *)
Lemma plain_frame_wf (now : Z) (env : Envelope.t) : wf_frame (frame_new now env Critical None).
Proof. split; simpl; [apply encoded_len_nonneg|done|done]. Qed.

Lemma merge_pair_spec (now : Z) (a b m : Frame.t) :
  wf_frame a -> wf_frame b -> merge_pair now a b = Some m ->
  wf_frame m /\ (forall key, content key m = content key a ++ content key b) /\
  (exists k o l, Frame.merge m = Some (AppendInfo k o l)) /\
  (exists k o l, Frame.merge a = Some (AppendInfo k o l)) /\ (exists k o l, Frame.merge b = Some (AppendInfo k o l)) /\
  Frame.bytes_len m <= MAX_FRAME_BYTES.
Proof.
  intros Ha Hb. unfold merge_pair.
  destruct (Frame.merge a) as [[ka oa la|]|] eqn:Hma; try done.
  destruct (Frame.merge b) as [[kb ob lb|]|] eqn:Hmb; try done.
  case_bool_decide as Hk; [|done]. destruct (as_u64 (oa + la) =? ob); [|done]. simpl. subst kb.
  destruct (wf_append a Ha _ _ _ Hma) as (sa & ia & ba & ca & Hpa & ->).
  destruct (wf_append b Hb _ _ _ Hmb) as (sb & ib & bb & cb & Hpb & ->).
  unfold last_append, extend_append. rewrite Hpa, Hpb. simpl.
  destruct (Z.ltb_spec MAX_FRAME_BYTES (encoded_len (Envelope.with_payload
    (Some (EventBatch sa [Some (OutputAppend ia oa (ba ++ bb) ca)])) (Frame.env a)))); [done|].
  intros [= <-]. split_and!; eauto.
  - split; simpl; [apply encoded_len_nonneg| |].
    + intros Hc. by rewrite (wf_critical a Ha Hc) in Hma.
    + intros key offset len [= <- <- <-]. do 4 eexists. split; [done|]. by rewrite zlen_app.
  - intros key. unfold content. simpl. rewrite Hma, Hmb. unfold last_append. simpl. rewrite Hpa, Hpb. simpl.
    by case_bool_decide.
Qed.

(** ** Merging *)

Lemma replaces_inv (f g : Frame.t) :
  replaces f g = true -> exists k, Frame.merge f = Some (ReplaceLatest k) /\ Frame.merge g = Some (ReplaceLatest k).
Proof.
  unfold replaces. destruct (Frame.merge f) as [[]|]; try done. destruct (Frame.merge g) as [[]|]; try done.
  rewrite bool_decide_eq_true. intros ->. eauto.
Qed.

Lemma latest_cons (key : string) (f : Frame.t) (l : list Frame.t) :
  latest key (f :: l) =
  match latest key l with
  | Some g => Some g
  | None => if bool_decide (Frame.merge f = Some (ReplaceLatest key)) then Some f else None
  end.
Proof.
  unfold latest. rewrite filter_cons. case_decide as Hf; case_bool_decide; try done.
  - rewrite last_cons. by destruct (last _).
  - by destruct (last _).
Qed.

Lemma drop_superseded_spec (items : list Frame.t) :
  Forall wf_frame items ->
  let items' := drop_superseded items in
  Forall wf_frame items' /\ (length items' <= length items)%nat /\
  (forall key, content_of key items' = content_of key items) /\
  criticals items' = criticals items /\ (forall key, latest key items' = latest key items).
Proof.
  induction 1 as [|f items Hf Hw (IHw & IHl & IHc & IHk & IHlat)]; simpl; [done|].
  destruct (existsb (replaces f) (take REPLACE_WINDOW items)) eqn:He.
  - apply existsb_exists in He as (g & Hg & Hr). destruct (replaces_inv _ _ Hr) as (k & Hfk & Hgk).
    split_and!; [done|lia| | |].
    + intros key. rewrite IHc. unfold content_of at 2. simpl. unfold content at 1. by rewrite Hfk.
    + unfold criticals in *. rewrite filter_cons, decide_False; [done|]. by eapply not_critical.
    + intros key. rewrite IHlat, latest_cons. destruct (latest key items) eqn:Hlat; [done|].
      case_bool_decide as Hkey; [|done]. rewrite Hfk in Hkey. simplify_eq. exfalso.
      unfold latest in Hlat. apply last_None in Hlat.
      assert (Hin : g ∈ filter (fun f => Frame.merge f = Some (ReplaceLatest key)) items).
      { apply list_elem_of_filter. split; [done|]. apply list_elem_of_In in Hg.
        by apply (subseteq_take REPLACE_WINDOW). }
      rewrite Hlat in Hin. by apply not_elem_of_nil in Hin.
  - split_and!; [by constructor|simpl; lia| | |].
    + intros key. unfold content_of in *. simpl. by rewrite IHc.
    + unfold criticals in *. rewrite !filter_cons. case_decide; by rewrite IHk.
    + intros key. by rewrite !latest_cons, IHlat.
Qed.

Lemma merge_latest (key : string) (f : Frame.t) (l : list Frame.t) :
  (exists k o n, Frame.merge f = Some (AppendInfo k o n)) -> latest key (l ++ [f]) = latest key l.
Proof.
  intros (k & o & n & Hf). unfold latest. rewrite filter_app, filter_cons, decide_False by (by rewrite Hf).
  by rewrite filter_nil, app_nil_r.
Qed.

(** One more frame: what holds of the frames so far, last first. *)
Record merged_as (items : list Frame.t) (acc : list Frame.t * Z) : Prop := {
  ma_wf : Forall wf_frame acc.1;
  ma_total : acc.2 = total_len acc.1;
  ma_length : (length acc.1 <= length items)%nat;
  ma_content : forall key, content_of key (rev acc.1) = content_of key items;
  ma_criticals : criticals (rev acc.1) = criticals items;
  ma_latest : forall key, latest key (rev acc.1) = latest key items;
}.

Lemma merged_as_keep (items : list Frame.t) (result : list Frame.t) (total : Z) (f : Frame.t) :
  wf_frame f -> merged_as items (result, total) ->
  merged_as (items ++ [f]) (f :: result, total + Frame.bytes_len f).
Proof.
  intros Hf [Hw Ht Hl Hc Hk Hlat]; simpl in *. split; simpl.
  - by constructor.
  - rewrite total_len_cons. lia.
  - rewrite length_app. simpl. lia.
  - intros key. by rewrite !content_of_app, Hc.
  - unfold criticals in *. by rewrite !filter_app, Hk.
  - intros key. unfold latest in *. rewrite !filter_app. specialize (Hlat key).
    destruct (filter _ [f]) as [|g gs]; [by rewrite !app_nil_r|]. by rewrite !last_app_cons.
Qed.

Lemma critical_snoc (f : Frame.t) (l : list Frame.t) :
  Frame.kind f <> Critical -> criticals (l ++ [f]) = criticals l.
Proof.
  intros Hf. unfold criticals. rewrite filter_app, filter_cons, decide_False by done.
  by rewrite filter_nil, app_nil_r.
Qed.

Lemma merge_step_spec (now : Z) (items : list Frame.t) (acc : list Frame.t * Z) (f : Frame.t) :
  wf_frame f -> merged_as items acc -> merged_as (items ++ [f]) (merge_step now acc f).
Proof.
  destruct acc as [[|prev others] total]; intros Hf Hm; simpl; [by apply merged_as_keep|].
  destruct (merge_pair now prev f) as [m|] eqn:Hmerge; [|by apply merged_as_keep].
  destruct Hm as [Hw Ht Hl Hc Hk Hlat]; simpl in *. apply Forall_cons in Hw as [Hp Hw].
  destruct (merge_pair_spec now prev f m Hp Hf Hmerge) as (Hwm & Hcm & Hmm & Hmp & Hmf & _).
  assert (Hnm : forall g, wf_frame g -> (exists k o l, Frame.merge g = Some (AppendInfo k o l)) -> Frame.kind g <> Critical).
  { intros g Hg (k & o & l & Hgm). by eapply not_critical. }
  split; simpl.
  - by constructor.
  - rewrite total_len_cons in *. lia.
  - rewrite length_app. simpl. lia.
  - intros key. specialize (Hc key). rewrite !content_of_app in *. rewrite <- Hc.
    unfold content_of. simpl. by rewrite !app_nil_r, Hcm, app_assoc.
  - rewrite (critical_snoc f) by auto. rewrite (critical_snoc m) by auto. by rewrite (critical_snoc prev) in Hk by auto.
  - intros key. rewrite (merge_latest _ f), (merge_latest _ m) by done. rewrite <- Hlat.
    by rewrite (merge_latest _ prev).
Qed.

Lemma coalesce_spec (now : Z) (items : list Frame.t) :
  Forall wf_frame items ->
  let '(items', total) := coalesce now items in
  Forall wf_frame items' /\ total = total_len items' /\ (length items' <= length items)%nat /\
  (forall key, content_of key items' = content_of key items) /\
  criticals items' = criticals items /\ (forall key, latest key items' = latest key items).
Proof.
  intros Hw. unfold coalesce.
  set (items1 := if (1 <? length items)%nat then drop_superseded items else items).
  assert (H1 : Forall wf_frame items1 /\ (length items1 <= length items)%nat /\
    (forall key, content_of key items1 = content_of key items) /\
    criticals items1 = criticals items /\ (forall key, latest key items1 = latest key items)).
  { unfold items1. case_match; [by apply drop_superseded_spec|done]. }
  destruct H1 as (Hw1 & Hl1 & Hc1 & Hk1 & Hlat1).
  assert (Hfold : forall l done_ acc, Forall wf_frame l -> merged_as done_ acc ->
    merged_as (done_ ++ l) (foldl (merge_step now) acc l)).
  { induction l as [|f l IH]; intros done_ acc Hl Hacc; simpl; [by rewrite app_nil_r|].
    apply Forall_cons in Hl as [Hf Hl]. rewrite cons_middle, app_assoc. apply IH; [done|]. by apply merge_step_spec. }
  specialize (Hfold items1 [] ([], 0) Hw1 ltac:(by split)).
  destruct (foldl (merge_step now) ([], 0) items1) as [result total]. destruct Hfold as [Hw2 Ht2 Hl2 Hc2 Hk2 Hlat2].
  simpl in *. split_and!.
  - by apply Forall_rev.
  - rewrite Ht2. unfold total_len. clear. induction result as [|f r IH]; [done|]. simpl.
    rewrite sum_by_app, <- IH. unfold sum_by. simpl. lia.
  - rewrite length_rev. lia.
  - intros key. by rewrite Hc2.
  - by rewrite Hk2.
  - intros key. by rewrite Hlat2.
Qed.

(** Coalescing under pressure is lossless where it must be.  On frames built by the hub:
    for every output key the bytes carried are exactly the same, in the same order; the frames
    of the first class are exactly the same; for every replace-latest key the newest frame is
    still there; the number of frames does not grow; and the byte count returned is the sum of
    the frames' lengths. *)
Theorem coalesce_lossless (now : Z) (items : list Frame.t) :
  Forall wf_frame items ->
  let '(items', total) := coalesce now items in
  (forall key, content_of key items' = content_of key items) /\
  criticals items' = criticals items /\ (forall key, latest key items' = latest key items) /\
  (length items' <= length items)%nat /\ total = total_len items'.
Proof.
  intros Hw. pose proof (coalesce_spec now items Hw) as Hs. destruct (coalesce now items) as [items' total].
  naive_solver.
Qed.

(** ** Insertion *)

Record buffer_inv (b : StreamBuffer.t) : Prop := {
  bi_wf : Forall wf_frame (StreamBuffer.items b);
  bi_bytes : StreamBuffer.bytes b = total_len (StreamBuffer.items b);
}.

Lemma sat_sub_le (a b : Z) : 0 <= b <= a -> sat_sub a b = a - b.
Proof. unfold sat_sub. lia. Qed.

Lemma drop_expired_spec (now retention : Z) (items : list Frame.t) :
  Forall wf_frame items ->
  let '(items', bytes) := drop_expired now retention items (total_len items) in
  bytes = total_len items' /\ exists expired, items = expired ++ items'.
Proof.
  induction 1 as [|f items Hf Hw IH]; cbn [drop_expired]; [by split; [|exists []]|].
  destruct (retention <? Z.max 0 (now - Frame.ts f)); [|by split; [|exists []]].
  pose proof (wf_len f Hf). pose proof (total_len_nonneg items Hw).
  rewrite total_len_cons, sat_sub_le by lia.
  replace (Frame.bytes_len f + total_len items - Frame.bytes_len f) with (total_len items) by lia.
  destruct (drop_expired now retention items (total_len items)) as [items' bytes].
  destruct IH as [-> [expired ->]]. split; [done|]. by exists (f :: expired).
Qed.

Lemma remove_first_spec (test : Frame.t -> bool) (items : list Frame.t) :
  match remove_first test items with
  | Some (f, rest) => exists l r, items = l ++ f :: r /\ rest = l ++ r /\ test f = true /\ Forall (fun g => test g = false) l
  | None => Forall (fun g => test g = false) items
  end.
Proof.
  induction items as [|f items IH]; simpl; [constructor|].
  destruct (test f) eqn:Hf; [by exists [], items|].
  destruct (remove_first test items) as [[g rest]|]; [|by constructor].
  destruct IH as (l & r & -> & -> & Hg & Hl). exists (f :: l), r. split_and!; auto.
Qed.

Lemma criticals_app (l k : list Frame.t) : criticals (l ++ k) = criticals l ++ criticals k.
Proof. apply filter_app. Qed.

Lemma criticals_drop (f : Frame.t) (l r : list Frame.t) :
  Frame.kind f <> Critical -> criticals (l ++ f :: r) = criticals (l ++ r).
Proof. intros Hf. rewrite !criticals_app. f_equal. unfold criticals. by rewrite filter_cons, decide_False. Qed.

(** Taking one frame that is not of the first class out of a buffer. *)
Lemma removed_spec (f : Frame.t) (l r : list Frame.t) :
  Forall wf_frame (l ++ f :: r) -> Frame.kind f <> Critical ->
  Forall wf_frame (l ++ r) /\ sat_sub (total_len (l ++ f :: r)) (Frame.bytes_len f) = total_len (l ++ r) /\
  criticals (l ++ r) = criticals (l ++ f :: r).
Proof.
  intros Hw Hk. apply Forall_app in Hw as [Hl Hr]. apply Forall_cons in Hr as [Hf Hr].
  pose proof (wf_len f Hf). pose proof (total_len_nonneg l Hl). pose proof (total_len_nonneg r Hr).
  rewrite !total_len_app, total_len_cons, sat_sub_le by lia. split_and!; [by apply Forall_app|lia|].
  by rewrite criticals_drop.
Qed.

Lemma append_frame_spec (now : Z) (frame : Frame.t) (items : list Frame.t) :
  Forall wf_frame items -> wf_frame frame ->
  let '(items', bytes) := append_frame now frame items (total_len items) in
  Forall wf_frame items' /\ bytes = total_len items' /\
  criticals items' = criticals items ++ criticals [frame].
Proof.
  intros Hw Hf. unfold append_frame.
  destruct (last items ≫= (fun prev => merge_pair now prev frame)) as [m|] eqn:Hm.
  - destruct items as [|prev items _] using rev_ind; [done|]. rewrite last_snoc in *. simpl in Hm.
    replace (removelast (items ++ [prev])) with items by (symmetry; apply removelast_last).
    apply Forall_app in Hw as [Hw Hp]. rewrite Forall_singleton in Hp.
    destruct (merge_pair_spec now prev frame m Hp Hf Hm) as (Hwm & _ & (k & o & l & Hmm) & (k1 & o1 & l1 & Hmp) & (k2 & o2 & l2 & Hmf) & _).
    pose proof (wf_len prev Hp). pose proof (total_len_nonneg items Hw).
    rewrite !total_len_app, !total_len_cons. change (total_len []) with 0. rewrite sat_sub_le by lia.
    split_and!; [by apply Forall_app; split; [|apply Forall_singleton]|lia|].
    rewrite !criticals_app. unfold criticals. rewrite !filter_cons, !filter_nil.
    pose proof (not_critical _ _ Hwm Hmm). pose proof (not_critical _ _ Hp Hmp). pose proof (not_critical _ _ Hf Hmf).
    rewrite !decide_False by done. by rewrite !app_nil_r.
  - assert (Hrem : let '(items', bytes) := remove_replaced frame items (total_len items) in
      Forall wf_frame items' /\ bytes = total_len items' /\ criticals items' = criticals items).
    { unfold remove_replaced. destruct (Frame.merge frame) as [[|key]|]; try done.
      pose proof (remove_first_spec (replaces frame) (take 32 (rev items))) as Hr.
      destruct (remove_first (replaces frame) (take 32 (rev items))) as [[old recent]|]; [|done].
      destruct Hr as (l & r & Htake & -> & Hrep & _). destruct (replaces_inv _ _ Hrep) as (k & _ & Hold).
      assert (Hitems : items = rev (r ++ drop 32 (rev items)) ++ old :: rev l).
      { rewrite <- (rev_involutive items) at 1. rewrite <- (take_drop 32 (rev items)) at 1. rewrite Htake.
        rewrite <- app_assoc. simpl. rewrite rev_app_distr. simpl. by rewrite <- app_assoc. }
      rewrite <- (app_assoc l r), rev_app_distr.
      remember (rev (r ++ drop 32 (rev items))) as front eqn:Hfront. clear Hfront Htake Hm. subst items.
      destruct (removed_spec old front (rev l) Hw) as (? & ? & ?); [|done].
      apply Forall_app in Hw as [_ Hw]. apply Forall_cons in Hw as [Hw _]. by eapply not_critical. }
    destruct (remove_replaced frame items (total_len items)) as [items' bytes]. destruct Hrem as (Hw' & -> & Hc).
    rewrite total_len_app, total_len_cons, criticals_app, Hc. change (total_len []) with 0.
    split_and!; [by apply Forall_app; split; [|apply Forall_singleton]|lia|done].
Qed.

Lemma evict_spec (allowed : FrameKind) (fuel : nat) (b : StreamBuffer.t) :
  allowed <> Critical -> (length (StreamBuffer.items b) <= fuel)%nat -> buffer_inv b ->
  let b' := evict fuel allowed b in
  buffer_inv b' /\ criticals (StreamBuffer.items b') = criticals (StreamBuffer.items b) /\
  StreamBuffer.max_events b' = StreamBuffer.max_events b /\ StreamBuffer.max_bytes b' = StreamBuffer.max_bytes b /\
  (StreamBuffer.fits b' = true \/ Forall (fun f => Frame.kind f <> allowed) (StreamBuffer.items b')) /\
  (forall k, Forall (fun f => Frame.kind f <> k) (StreamBuffer.items b) ->
             Forall (fun f => Frame.kind f <> k) (StreamBuffer.items b')).
Proof.
  intros Hal. revert b. induction fuel as [|fuel IH]; intros b Hlen Hb; cbn [evict]; cbv zeta.
  - destruct (StreamBuffer.fits b) eqn:Hfit; [by auto 10|]. split_and!; auto. right.
    destruct (StreamBuffer.items b); [constructor|simpl in Hlen; lia].
  - destruct (StreamBuffer.fits b) eqn:Hfit; [by auto 10|].
    pose proof (remove_first_spec (fun f => bool_decide (Frame.kind f = allowed)) (StreamBuffer.items b)) as Hr.
    destruct (remove_first _ (StreamBuffer.items b)) as [[f rest]|].
    + destruct Hr as (l & r & Hi & -> & Hf%bool_decide_eq_true & _). destruct Hb as [Hw Hbytes]. rewrite Hi in Hw.
      destruct (removed_spec f l r Hw ltac:(congruence)) as (Hw' & Hs & Hc).
      destruct (IH (StreamBuffer.set (l ++ r) (sat_sub (StreamBuffer.bytes b) (Frame.bytes_len f)) b))
        as (H1 & H2 & H3 & H4 & H5 & H6).
      * simpl. rewrite Hi in Hlen. rewrite length_app in *. simpl in Hlen. lia.
      * split; simpl; [done|]. by rewrite Hbytes, Hi.
      * simpl in *. split_and!; auto; [by rewrite H2, Hc, Hi|].
        intros k Hk. apply H6. rewrite Hi in Hk. apply Forall_app in Hk as [? Hk]. apply Forall_cons in Hk as [_ ?].
        by apply Forall_app.
    + split_and!; auto. right. eapply Forall_impl; [exact Hr|]. intros f Hf. by apply bool_decide_eq_false in Hf.
Qed.

Lemma all_critical (items : list Frame.t) :
  Forall (fun f => Frame.kind f <> Mergeable) items -> Forall (fun f => Frame.kind f <> Recoverable) items ->
  criticals items = items.
Proof.
  induction items as [|f items IH]; [done|]. intros H1 H2. apply Forall_cons in H1 as [? H1].
  apply Forall_cons in H2 as [? H2]. unfold criticals in *. rewrite filter_cons, decide_True, IH by done || by destruct (Frame.kind f).
  done.
Qed.

(** What an insertion did to the frames that must not be dropped. *)
Definition insert_outcome (now : Z) (b b' : StreamBuffer.t) (frame : Frame.t) (outcome : InsertOutcome) : Prop :=
  let alive := (drop_expired now (StreamBuffer.retention b) (StreamBuffer.items b) (StreamBuffer.bytes b)).1 in
  let must_keep := criticals alive ++ criticals [frame] in
  match outcome with
  | Buffered => criticals (StreamBuffer.items b') = must_keep
  | OverflowReset =>
      StreamBuffer.items b' = [] /\
      ((StreamBuffer.max_events b < length must_keep)%nat \/ StreamBuffer.max_bytes b < total_len must_keep)
  end.

Lemma insert_keeps (now : Z) (b : StreamBuffer.t) (frame : Frame.t) :
  buffer_inv b -> wf_frame frame -> 0 <= StreamBuffer.max_bytes b ->
  let '(b', outcome) := insert now b frame in
  buffer_inv b' /\ StreamBuffer.fits b' = true /\ insert_outcome now b b' frame outcome.
Proof.
  intros [Hw Hb] Hf Hmax. unfold insert, insert_outcome. rewrite Hb.
  pose proof (drop_expired_spec now (StreamBuffer.retention b) (StreamBuffer.items b) Hw) as He.
  destruct (drop_expired now (StreamBuffer.retention b) (StreamBuffer.items b) (total_len (StreamBuffer.items b)))
    as [alive bytes]. destruct He as [-> [expired Hexp]]. cbn [fst].
  assert (Hwa : Forall wf_frame alive) by (rewrite Hexp in Hw; by apply Forall_app in Hw as [_ ?]).
  pose proof (append_frame_spec now frame alive Hwa Hf) as Ha.
  destruct (append_frame now frame alive (total_len alive)) as [items1 bytes1]. destruct Ha as (Hw1 & -> & Hc1).
  destruct (StreamBuffer.fits (StreamBuffer.set items1 (total_len items1) b)) eqn:Hfit1; [by split_and!|].
  pose proof (coalesce_spec now items1 Hw1) as Hco. destruct (coalesce now items1) as [items2 bytes2].
  destruct Hco as (Hw2 & -> & _ & _ & Hc2 & _).
  destruct (StreamBuffer.fits (StreamBuffer.set items2 (total_len items2) _)) eqn:Hfit2;
    [by split_and!; simpl; rewrite ?Hc2|].
  set (b2 := StreamBuffer.set items2 (total_len items2) _) in *.
  destruct (evict_spec Mergeable (length (StreamBuffer.items b2)) b2) as (I3 & C3 & E3 & M3 & F3 & K3); [done|done|by split|].
  set (b3 := evict (length (StreamBuffer.items b2)) Mergeable b2) in *.
  destruct (StreamBuffer.fits b3) eqn:Hfit3; [split_and!; [done|done|]; rewrite C3; simpl; by rewrite Hc2|].
  destruct (evict_spec Recoverable (length (StreamBuffer.items b3)) b3) as (I4 & C4 & E4 & M4 & F4 & K4); [done|done|done|].
  set (b4 := evict (length (StreamBuffer.items b3)) Recoverable b3) in *.
  destruct (StreamBuffer.fits b4) eqn:Hfit4; [split_and!; [done|done|]; rewrite C4, C3; simpl; by rewrite Hc2|].
  destruct F3 as [?|F3]; [done|]. destruct F4 as [?|F4]; [done|].
  assert (Hall : StreamBuffer.items b4 = criticals alive ++ criticals [frame]).
  { rewrite <- Hc1, <- Hc2. change items2 with (StreamBuffer.items b2). rewrite <- C3, <- C4.
    symmetry. apply all_critical; auto. }
  assert (Em : StreamBuffer.max_bytes b4 = StreamBuffer.max_bytes b) by (rewrite M4, M3; done).
  assert (Ee : StreamBuffer.max_events b4 = StreamBuffer.max_events b) by (rewrite E4, E3; done).
  split_and!; [by split| |done|].
  - unfold StreamBuffer.fits. simpl. rewrite Em. apply Z.leb_le. lia.
  - unfold StreamBuffer.fits in Hfit4. rewrite (bi_bytes b4 I4), Hall, Em, Ee in Hfit4.
    apply andb_false_iff in Hfit4 as [Hx|Hx]; [left; by apply Nat.leb_gt in Hx|right; by apply Z.leb_gt in Hx].
Qed.

(** The replay window keeps its promises.  Starting from a window whose byte count is exact,
    inserting a well-formed frame leaves a window whose byte count is exact and which respects
    both limits; every frame of the first class that has not outlived the retention, and the new
    one if it is of the first class, is still there in order; the window is only reset when
    those frames alone exceed a limit, and the reset is reported. *)
Theorem insert_spec (now : Z) (b : StreamBuffer.t) (frame : Frame.t) :
  buffer_inv b -> wf_frame frame -> 0 <= StreamBuffer.max_bytes b ->
  let '(b', outcome) := insert now b frame in
  buffer_inv b' /\ StreamBuffer.fits b' = true /\ insert_outcome now b b' frame outcome.
Proof. apply insert_keeps. Qed.

Lemma retain_keeps (b : StreamBuffer.t) (device : string) (seq : Z) :
  buffer_inv b ->
  let '(b', removed) := retain_uncovered b device seq in
  buffer_inv b' /\
  StreamBuffer.items b' `sublist_of` StreamBuffer.items b /\
  (forall f, f ∈ StreamBuffer.items b' <-> f ∈ StreamBuffer.items b /\
     ~ (Envelope.device_id (Frame.env f) = device /\ exists s, Frame.upstream_seq f = Some s /\ s <= seq)) /\
  (removed + length (StreamBuffer.items b') = length (StreamBuffer.items b))%nat.
Proof.
  intros [Hw Hb]. unfold retain_uncovered.
  set (items := filter (fun f => covered device seq f = false) (StreamBuffer.items b)).
  assert (Hlen : (length items <= length (StreamBuffer.items b))%nat) by apply length_filter.
  split_and!; simpl; [split; simpl| | |].
  - apply Forall_forall. intros f [_ Hin]%list_elem_of_filter. by eapply Forall_forall in Hw.
  - destruct (Nat.ltb_spec 0 (length (StreamBuffer.items b) - length items)) as [|Hz]; [done|].
    enough (Hsame : items = StreamBuffer.items b) by (by rewrite Hsame).
    clear Hw Hb. unfold items in *. induction (StreamBuffer.items b) as [|f l IH]; [done|].
    rewrite filter_cons in *. pose proof (length_filter (fun f => covered device seq f = false) l).
    case_decide; simpl in *; [f_equal; apply IH; lia|lia].
  - apply sublist_filter.
  - intros f. unfold items. rewrite list_elem_of_filter, (and_comm (covered _ _ _ = _)). f_equiv.
    unfold covered. destruct (Frame.upstream_seq f) as [s|].
    + case_bool_decide; destruct (Z.leb_spec s seq); simpl; split; try done; try naive_solver lia.
    + case_bool_decide; simpl; naive_solver.
  - lia.
Qed.

(** A snapshot clears exactly what it covers: [retain_uncovered] removes the frames of that
    device whose upstream batch is at or below the watermark and keeps all others in order -
    other devices', later batches, and frames without an upstream batch; the count returned is
    the number removed, and the byte count stays exact. *)
Theorem retain_uncovered_spec (b : StreamBuffer.t) (device : string) (seq : Z) :
  buffer_inv b ->
  let '(b', removed) := retain_uncovered b device seq in
  buffer_inv b' /\
  StreamBuffer.items b' `sublist_of` StreamBuffer.items b /\
  (forall f, f ∈ StreamBuffer.items b' <-> f ∈ StreamBuffer.items b /\
     ~ (Envelope.device_id (Frame.env f) = device /\ exists s, Frame.upstream_seq f = Some s /\ s <= seq)) /\
  (removed + length (StreamBuffer.items b') = length (StreamBuffer.items b))%nat.
Proof. apply retain_keeps. Qed.
End Props.

(** ** The send queue *)

Definition item_len (item : OutItem) : Z :=
  match item with
  | OutFrame f => Frame.bytes_len f
  | OutDirect bytes => zlen bytes
  | OutClose _ => 0
  end.

(** What can be done with a queue, and a run of it: the items that were let in and the items
    that came out, in order. *)
Inductive OutboxCall :=
| PushFrame (frame : Frame.t)
| PushDirect (bytes : list byte)
| CloseWith (reason : string)
| Recv.

Definition frame_call_wf (c : OutboxCall) : Prop :=
  match c with PushFrame f => 0 <= Frame.bytes_len f | _ => True end.

Module OutboxRun.
Record t := mk {
  box : Outbox.t;
  let_in : list OutItem;
  came_out : list OutItem;
}.
End OutboxRun.

Definition close_marker (o : Outbox.t) (reason : string) : list OutItem :=
  if Outbox.closed o then [] else [OutClose reason].

Definition outbox_step (r : OutboxRun.t) (c : OutboxCall) : OutboxRun.t :=
  let o := OutboxRun.box r in
  let out := OutboxRun.came_out r in
  match c with
  | PushFrame f =>
      let '(o', ok) := push_frame o f in
      OutboxRun.mk o' (OutboxRun.let_in r ++ match ok with Ok _ => [OutFrame f] | Err _ => [] end) out
  | PushDirect bytes =>
      let '(o', ok) := push_direct o bytes in
      let overload := negb ok && negb (Outbox.closed o) && negb (bool_decide (bytes = [])) in
      OutboxRun.mk o'
        (OutboxRun.let_in r ++ if ok then [OutDirect bytes]
                               else if overload then close_marker o "OUTBOX_OVERLOAD" else []) out
  | CloseWith reason => OutboxRun.mk (close o reason) (OutboxRun.let_in r ++ close_marker o reason) out
  | Recv =>
      let '(o', x) := recv o in
      OutboxRun.mk o' (OutboxRun.let_in r) (out ++ match x with Item i => [i] | _ => [] end)
  end.

Definition outbox_run (o : Outbox.t) (calls : list OutboxCall) : OutboxRun.t :=
  foldl outbox_step (OutboxRun.mk o [] []) calls.

Definition not_frames (l : list OutItem) : list OutItem := filter (fun i => is_frame i = false) l.

Record outbox_inv (r : OutboxRun.t) : Prop := {
  oi_frames : Outbox.frames (OutboxRun.box r) = zlen (filter (fun i => is_frame i = true) (Outbox.items (OutboxRun.box r)));
  oi_capacity : Outbox.frames (OutboxRun.box r) <= Outbox.capacity (OutboxRun.box r);
  oi_bytes : Outbox.bytes (OutboxRun.box r) = sum_by item_len (Outbox.items (OutboxRun.box r));
  oi_lens : Forall (fun i => 0 <= item_len i) (Outbox.items (OutboxRun.box r));
  oi_limit : Outbox.bytes (OutboxRun.box r) <= Outbox.max_bytes (OutboxRun.box r) + DIRECT_RESERVE_BYTES;
  oi_order : OutboxRun.came_out r ++ Outbox.items (OutboxRun.box r) `sublist_of` OutboxRun.let_in r;
  oi_directs : not_frames (OutboxRun.came_out r ++ Outbox.items (OutboxRun.box r)) = not_frames (OutboxRun.let_in r);
  oi_open : Outbox.closed (OutboxRun.box r) = false ->
              OutboxRun.came_out r ++ Outbox.items (OutboxRun.box r) = OutboxRun.let_in r;
}.

Lemma not_frames_app (l k : list OutItem) : not_frames (l ++ k) = not_frames l ++ not_frames k.
Proof. apply filter_app. Qed.

Lemma item_len_sum_direct (l : list OutItem) :
  sum_by direct_len (not_frames l) = sum_by item_len (not_frames l) /\
  (Forall (fun i => 0 <= item_len i) l -> sum_by item_len (not_frames l) <= sum_by item_len l).
Proof.
  unfold not_frames. induction l as [|[f|b|c] l [IH1 IH2]]; [done|..].
  all: rewrite filter_cons; simpl; rewrite ?sum_by_cons; simpl; split; [lia|].
  all: intros Hl; apply Forall_cons in Hl as [? Hl]; specialize (IH2 Hl); simpl in *; lia.
Qed.

Lemma not_frames_idemp (l : list OutItem) :
  not_frames (not_frames l) = not_frames l /\ filter (fun i => is_frame i = true) (not_frames l) = [].
Proof.
  unfold not_frames. induction l as [|i l [IH1 IH2]]; [done|]. rewrite filter_cons. case_decide as Hi; [|done].
  rewrite !filter_cons. rewrite decide_True by done. rewrite decide_False by (by rewrite Hi). by rewrite IH1, IH2.
Qed.

Lemma close_inv (r : OutboxRun.t) (reason : string) :
  0 <= Outbox.capacity (OutboxRun.box r) -> outbox_inv r ->
  outbox_inv (OutboxRun.mk (close (OutboxRun.box r) reason)
                (OutboxRun.let_in r ++ close_marker (OutboxRun.box r) reason) (OutboxRun.came_out r)).
Proof.
  destruct r as [o li co]; simpl. intros Hcap [Hf Hc Hb Hl Hm Ho Hd Hop]; simpl in *.
  unfold close, close_marker. destruct (Outbox.closed o) eqn:Hclosed; [rewrite app_nil_r; split; simpl; auto; by rewrite Hclosed|].
  fold (not_frames (Outbox.items o)). destruct (item_len_sum_direct (Outbox.items o)) as [Hs Hle].
  destruct (not_frames_idemp (Outbox.items o)) as [Hi1 Hi2]. specialize (Hop eq_refl).
  split; simpl.
  - rewrite filter_app, Hi2. done.
  - done.
  - rewrite sum_by_app, Hs. change (sum_by item_len [OutClose reason]) with 0. lia.
  - apply Forall_app. split; [|by apply Forall_singleton].
    apply Forall_forall. intros i [_ Hi]%list_elem_of_filter. by eapply Forall_forall in Hl.
  - specialize (Hle Hl). rewrite Hs. lia.
  - rewrite <- Hop, app_assoc. apply sublist_app; [|done]. apply sublist_app; [done|apply sublist_filter].
  - rewrite <- Hop, !not_frames_app, Hi1. by rewrite app_assoc.
  - done.
Qed.

Lemma outbox_step_inv (r : OutboxRun.t) (c : OutboxCall) :
  0 <= Outbox.capacity (OutboxRun.box r) -> frame_call_wf c -> outbox_inv r ->
  outbox_inv (outbox_step r c) /\ Outbox.capacity (OutboxRun.box (outbox_step r c)) = Outbox.capacity (OutboxRun.box r).
Proof.
  intros Hcap Hwf Hr. destruct c as [f|bytes|reason|]; simpl in *.
  - unfold push_frame. destruct (Outbox.closed (OutboxRun.box r)) eqn:Hclosed; [rewrite app_nil_r; by destruct r|].
    destruct (Z.ltb_spec (Outbox.capacity (OutboxRun.box r)) (Outbox.frames (OutboxRun.box r) + 1));
      simpl; [rewrite app_nil_r; by destruct r|].
    destruct (Z.ltb_spec (Outbox.max_bytes (OutboxRun.box r)) (Outbox.bytes (OutboxRun.box r) + Frame.bytes_len f));
      simpl; [rewrite app_nil_r; by destruct r|]. split; [|done].
    destruct Hr as [Hf Hc Hb Hl Hm Ho Hd Hop]. split; simpl.
    + rewrite filter_app, zlen_app, Hf. done.
    + lia.
    + rewrite sum_by_app, Hb. change (sum_by item_len [OutFrame f]) with (Frame.bytes_len f + 0). lia.
    + apply Forall_app. split; [done|]. by apply Forall_singleton.
    + unfold DIRECT_RESERVE_BYTES in *. lia.
    + rewrite app_assoc. by apply sublist_app.
    + rewrite app_assoc, !(not_frames_app _ [_]). by f_equal.
    + intros _. rewrite app_assoc. by rewrite Hop.
  - unfold push_direct. destruct (Outbox.closed (OutboxRun.box r)) eqn:Hclosed;
      [simpl; rewrite app_nil_r; by destruct r|].
    case_bool_decide as Hne; [simpl; rewrite app_nil_r; by destruct r|].
    destruct (Z.ltb_spec (Outbox.max_bytes (OutboxRun.box r) + DIRECT_RESERVE_BYTES)
                (Outbox.bytes (OutboxRun.box r) + zlen bytes)); simpl.
    + split; [by apply close_inv|]. unfold close. by rewrite Hclosed.
    + split; [|done]. destruct Hr as [Hf Hc Hb Hl Hm Ho Hd Hop]. split; simpl.
      * rewrite filter_app, app_nil_r. done.
      * lia.
      * rewrite sum_by_app, Hb. change (sum_by item_len [OutDirect bytes]) with (zlen bytes + 0). lia.
      * apply Forall_app. split; [done|]. apply Forall_singleton. simpl. apply zlen_nonneg.
      * lia.
      * rewrite app_assoc. by apply sublist_app.
      * rewrite app_assoc, !(not_frames_app _ [_]). by f_equal.
      * intros _. rewrite app_assoc. by rewrite Hop.
  - split; [by apply close_inv|]. unfold close. by case_match.
  - unfold recv. destruct (Outbox.items (OutboxRun.box r)) as [|i items] eqn:Hitems; simpl;
      [destruct (Outbox.closed (OutboxRun.box r)); simpl; rewrite app_nil_r; by destruct r|].
    destruct Hr as [Hf Hc Hb Hl Hm Ho Hd Hop]. rewrite Hitems in *. apply Forall_cons in Hl as [Hi Hl].
    pose proof (sum_by_nonneg item_len items Hl) as Hnn. rewrite sum_by_cons in Hb.
    rewrite filter_cons in Hf.
    destruct i as [f|bytes|reason]; simpl in *; (split; [|done]); split; simpl;
      try rewrite <- app_assoc; simpl; auto; unfold sat_sub; try lia.
    rewrite zlen_cons in Hf. lia.
Qed.

(** The send queue of a browser, over any sequence of calls: it holds at most [capacity]
    frames and at most [max_bytes] plus the reserve in bytes, and both counters are exact; items
    come out in the order they were let in, none twice and none invented; as long as it is open
    nothing is lost; closing drops only stream frames - every direct message and the close
    marker let in have come out or are still queued, in order. *)
Theorem outbox_fifo (capacity max_bytes : Z) (calls : list OutboxCall) :
  0 <= capacity -> 0 <= max_bytes -> Forall frame_call_wf calls ->
  let r := outbox_run (Outbox.new capacity max_bytes) calls in
  outbox_inv r /\ zlen (filter (fun i => is_frame i = true) (Outbox.items (OutboxRun.box r))) <= capacity.
Proof.
  intros Hcap Hmax Hcalls r.
  assert (Hinv : outbox_inv r /\ Outbox.capacity (OutboxRun.box r) = capacity).
  { unfold r, outbox_run.
    assert (H0 : outbox_inv (OutboxRun.mk (Outbox.new capacity max_bytes) [] []) /\
                 Outbox.capacity (OutboxRun.box (OutboxRun.mk (Outbox.new capacity max_bytes) [] [])) = capacity).
    { split; [|done]. split; simpl; auto. unfold DIRECT_RESERVE_BYTES. lia. }
    revert H0. generalize (OutboxRun.mk (Outbox.new capacity max_bytes) [] []). clear r.
    induction Hcalls as [|c calls Hc Hcalls IH]; intros r [Hr Hcr]; simpl; [done|]. apply IH.
    destruct (outbox_step_inv r c) as [? Hk]; [lia|done|done|]. split; [done|congruence]. }
  destruct Hinv as [Hinv Hc]. split; [done|]. rewrite <- (oi_frames _ Hinv), <- Hc. apply Hinv.
Qed.

(** ** Concrete inputs *)
Module BufferDemo.
(** A stand-in encoding: ten bytes of header and the output bytes. *)
Definition encoding (env : Envelope.t) : list byte := replicate 10 x00 ++ default [] (last_append env).

#[global] Instance prost : Prost := {|
  encoded_len env := zlen (encoding env);
  encode_to_vec := encoding;
  event_len event := match event with OutputAppend _ _ bytes _ => zlen bytes | _ => 8 end;
|}.

#[global] Instance prost_laws : ProstLaws.
Proof.
  split; [done|]. intros event. simpl. destruct event; [lia..|apply zlen_nonneg|lia|lia].
Qed.

Definition envelope (sequence : Z) (event : Event) : Envelope.t :=
  Envelope.mk "" "dev" "s-1" 1 sequence (Some (EventBatch "s-1" [Some event])).

(** The frame the hub builds for an event, its batch numbered like the frame. *)
Definition frame (sequence : Z) (event : Event) : Frame.t :=
  with_upstream_seq 0 (envelope sequence event) (classify event).1
    ((fun m => scoped m "s-1/1/dev") <$> (classify event).2) (Some sequence).

Lemma frame_wf (sequence : Z) (event : Event) : wf_frame (frame sequence event).
Proof.
  pose proof (hub_frame_wf 0 (envelope sequence event) "s-1" "s-1/1/dev" event (Some sequence) eq_refl) as Hw.
  unfold frame. by destruct (classify event).
Qed.

Definition output (offset : Z) (text : string) : Event :=
  OutputAppend (Some "c1") offset (String.list_byte_of_string text) 0.

Definition frames : list Frame.t :=
  [frame 1 (output 0 "ab"); frame 2 (output 2 "cd"); frame 3 CapabilityChanged; frame 4 (TurnLifecycle 1);
   frame 5 CapabilityChanged].

Lemma frames_wf : Forall wf_frame frames.
Proof. unfold frames. repeat apply Forall_cons_2; [apply frame_wf..|apply Forall_nil_2]. Defined.

Definition window : StreamBuffer.t := StreamBuffer.mk frames (total_len frames) 5 1000 60000.

Lemma window_inv : buffer_inv window.
Proof. split; [exact frames_wf|reflexivity]. Defined.
End BufferDemo.

Lemma coalesce_lossless_witness :
  let items := BufferDemo.frames in
  length (coalesce 0 items).1 = 3%nat /\
  let '(items', total) := coalesce 0 items in
  (forall key, content_of key items' = content_of key items) /\
  criticals items' = criticals items /\ (forall key, latest key items' = latest key items) /\
  (length items' <= length items)%nat /\ total = total_len items'.
Proof.
  intros items. split; [vm_compute; reflexivity|].
  exact (coalesce_lossless 0 items BufferDemo.frames_wf).
Defined.

Lemma insert_spec_witness :
  let frame := BufferDemo.frame 6 QueueStateChanged in
  let '(b', outcome) := insert 0 BufferDemo.window frame in
  outcome = Buffered /\
  buffer_inv b' /\ StreamBuffer.fits b' = true /\ insert_outcome 0 BufferDemo.window b' frame outcome.
Proof.
  intros frame.
  pose proof (insert_spec 0 BufferDemo.window frame BufferDemo.window_inv
    (BufferDemo.frame_wf 6 QueueStateChanged) ltac:(simpl; lia)) as Hs.
  destruct (insert 0 BufferDemo.window frame) as [b' outcome] eqn:Hi. split; [|exact Hs].
  change outcome with (b', outcome).2. rewrite <- Hi. vm_compute. reflexivity.
Defined.

Lemma retain_uncovered_spec_witness :
  let '(b', removed) := retain_uncovered BufferDemo.window "dev" 2 in
  removed = 2%nat /\
  buffer_inv b' /\ StreamBuffer.items b' `sublist_of` StreamBuffer.items BufferDemo.window /\
  (forall f, f ∈ StreamBuffer.items b' <-> f ∈ StreamBuffer.items BufferDemo.window /\
     ~ (Envelope.device_id (Frame.env f) = "dev" /\ exists s, Frame.upstream_seq f = Some s /\ s <= 2)) /\
  (removed + length (StreamBuffer.items b') = length (StreamBuffer.items BufferDemo.window))%nat.
Proof.
  pose proof (retain_uncovered_spec BufferDemo.window "dev" 2 BufferDemo.window_inv) as Hs.
  destruct (retain_uncovered BufferDemo.window "dev" 2) as [b' removed] eqn:Hr. split; [|exact Hs].
  change removed with (b', removed).2. rewrite <- Hr. vm_compute. reflexivity.
Defined.

Lemma outbox_fifo_witness :
  let calls := [PushFrame (BufferDemo.frame 1 (TurnLifecycle 1)); PushDirect (String.list_byte_of_string "ack");
                PushFrame (BufferDemo.frame 2 (TurnLifecycle 1)); Recv; CloseWith "bye"; Recv; Recv; Recv] in
  let r := outbox_run (Outbox.new 2 1000) calls in
  length (OutboxRun.came_out r) = 3%nat /\
  outbox_inv r /\ zlen (filter (fun i => is_frame i = true) (Outbox.items (OutboxRun.box r))) <= 2.
Proof.
  intros calls r. split; [vm_compute; reflexivity|].
  apply (outbox_fifo 2 1000 calls); [lia|lia|].
  repeat apply Forall_cons_2; try exact I; [vm_compute; discriminate..|apply Forall_nil_2].
Defined.

(** Merging keeps the smaller upstream batch number, so a snapshot that covers batch 1 alone also
    removes the bytes of batch 2 once both deltas sit in one frame; unmerged they would survive. *)
Lemma merged_frame_overdeleted :
  let f1 := BufferDemo.frame 1 (BufferDemo.output 0 "ab") in
  let f2 := BufferDemo.frame 2 (BufferDemo.output 2 "cd") in
  let merged := (insert 0 (insert 0 (StreamBuffer.new 5 1000 60000) f1).1 f2).1 in
  let apart := StreamBuffer.mk [f1; f2] (total_len [f1; f2]) 5 1000 60000 in
  StreamBuffer.items (retain_uncovered merged "dev" 1).1 = [] /\
  StreamBuffer.items (retain_uncovered apart "dev" 1).1 = [f2].
Proof. vm_compute. split; reflexivity. Qed.
