(* ===== verification/Stream.v ===== *)
(** * One downstream stream of the Relay ([DStream] of [apps/relay/src/realtime/mod.rs])

    A stream numbers the snapshots and events its subscribers see, caches the latest snapshot of
    each device, keeps the replay window, and holds back the events that arrive before the first
    snapshot.  The counters are [u64] in the code and start at 1; they grow by one per frame and
    are modelled without their wrap-around. *)

From S2P Require Import Prelude RustStr Messages Buffer.

(** ** [state::limits] *)
Definition BUFFER_RETENTION : Z := 15 * 60 * 1000.
Definition BUFFER_MAX_EVENTS : nat := 10000.
Definition BUFFER_MAX_BYTES : Z := 16 * 1024 * 1024.
Definition GLOBAL_BUFFER_MAX_BYTES : Z := 256 * 1024 * 1024.
Definition SNAPSHOT_PENDING_MAX_EVENTS : Z := 1024.
Definition SNAPSHOT_CACHE_MAX : nat := 16.

Module TargetTag.
Inductive t :=
| List
| Session (device : Uuid) (agent_kind : Z) (native_session_id : string).

Definition is_session (tag : t) : bool :=
  match tag with List => false | Session _ _ _ => true end.
End TargetTag.

#[global] Instance TargetTag_eq_dec : EqDecision TargetTag.t.
Proof. solve_decision. Defined.

#[global] Instance TargetTag_countable : Countable TargetTag.t.
Proof.
  refine (inj_countable'
    (fun tag => match tag with
                | TargetTag.List => inl tt
                | TargetTag.Session d k n => inr (d, k, n)
                end)
    (fun s => match s with
              | inl _ => TargetTag.List
              | inr (d, k, n) => TargetTag.Session d k n
              end) _).
  by intros [].
Defined.

(** The owner and what is watched. *)
Definition DKey : Type := Uuid * TargetTag.t.

Module SubscriberState.
Record t := mk {
  awaiting_snapshot : bool;
  acked : Z;
  subscribe_correlation : string;
}.

Definition set_awaiting (b : bool) (s : t) : t := mk b (acked s) (subscribe_correlation s).
End SubscriberState.

Module UpstreamBinding.
Record t := mk {
  device : Uuid;
  epoch : Z;
  last_seq : Z;
  snapshot_covers : Z;
  snapshot_received : bool;
}.

(** A binding whose snapshot has been asked for. *)
Definition fresh (device : Uuid) : t := mk device 0 0 0 false.

Definition with_last_seq (last_seq : Z) (b : t) : t :=
  mk (device b) (epoch b) last_seq (snapshot_covers b) (snapshot_received b).

Definition with_received (received : bool) (b : t) : t :=
  mk (device b) (epoch b) (last_seq b) (snapshot_covers b) received.
End UpstreamBinding.

Module PendingUpstreamBatch.
Record t := mk {
  upstream_id : string;
  upstream_seq : Z;
  device_id : string;
  events : list Event;
}.

Definition with_events (events : list Event) (b : t) : t :=
  mk (upstream_id b) (upstream_seq b) (device_id b) events.
End PendingUpstreamBatch.

Module DStream.
Record t := mk {
  stream_id : string;
  epoch : Z;
  next_seq : Z;
  snapshots : list Frame.t;
  pending_batches : list PendingUpstreamBatch.t;
  pending_bytes : Z;
  pending_events : Z;
  buffer : StreamBuffer.t;
  subscribers : gmap Uuid SubscriberState.t;
  upstreams : gmap string UpstreamBinding.t;
}.

Definition with_epoch (x : Z) (m : t) : t :=
  mk (stream_id m) x (next_seq m) (snapshots m) (pending_batches m) (pending_bytes m) (pending_events m) (buffer m) (subscribers m) (upstreams m).

Definition with_next_seq (x : Z) (m : t) : t :=
  mk (stream_id m) (epoch m) x (snapshots m) (pending_batches m) (pending_bytes m) (pending_events m) (buffer m) (subscribers m) (upstreams m).

Definition with_snapshots (x : list Frame.t) (m : t) : t :=
  mk (stream_id m) (epoch m) (next_seq m) x (pending_batches m) (pending_bytes m) (pending_events m) (buffer m) (subscribers m) (upstreams m).

Definition with_pending_batches (x : list PendingUpstreamBatch.t) (m : t) : t :=
  mk (stream_id m) (epoch m) (next_seq m) (snapshots m) x (pending_bytes m) (pending_events m) (buffer m) (subscribers m) (upstreams m).

Definition with_pending_bytes (x : Z) (m : t) : t :=
  mk (stream_id m) (epoch m) (next_seq m) (snapshots m) (pending_batches m) x (pending_events m) (buffer m) (subscribers m) (upstreams m).

Definition with_pending_events (x : Z) (m : t) : t :=
  mk (stream_id m) (epoch m) (next_seq m) (snapshots m) (pending_batches m) (pending_bytes m) x (buffer m) (subscribers m) (upstreams m).

Definition with_buffer (x : StreamBuffer.t) (m : t) : t :=
  mk (stream_id m) (epoch m) (next_seq m) (snapshots m) (pending_batches m) (pending_bytes m) (pending_events m) x (subscribers m) (upstreams m).

Definition with_subscribers (x : gmap Uuid SubscriberState.t) (m : t) : t :=
  mk (stream_id m) (epoch m) (next_seq m) (snapshots m) (pending_batches m) (pending_bytes m) (pending_events m) (buffer m) x (upstreams m).

Definition with_upstreams (x : gmap string UpstreamBinding.t) (m : t) : t :=
  mk (stream_id m) (epoch m) (next_seq m) (snapshots m) (pending_batches m) (pending_bytes m) (pending_events m) (buffer m) (subscribers m) x.

(** [id] is the random part of the stream's name. *)
Definition new (id : string) : t :=
  mk ("s-" +:+ id) 1 1 [] [] 0 0
    (StreamBuffer.new BUFFER_MAX_EVENTS BUFFER_MAX_BYTES BUFFER_RETENTION) ∅ ∅.
End DStream.

(** ** Envelopes *)

Definition base_envelope (device_id : string) (payload : Payload) : Envelope.t :=
  Envelope.mk "" device_id "" 0 0 (Some payload).

Definition upstream_stream_id (device : Uuid) (tag : TargetTag.t) : string :=
  match tag with
  | TargetTag.List => "u-" +:+ device +:+ "-list"
  | TargetTag.Session device agent_kind native_session_id =>
      "u-" +:+ device +:+ "-sess-" +:+ pretty agent_kind +:+ "-" +:+ native_session_id
  end.

Definition subscribe_target (tag : TargetTag.t) : Target :=
  match tag with
  | TargetTag.List => ListTarget
  | TargetTag.Session device agent_kind native_session_id =>
      SessionTarget (SessionKey.mk device agent_kind native_session_id)
  end.

(** Its random correlation id is never looked up and is left out. *)
Definition upstream_subscribe_env (device : Uuid) (tag : TargetTag.t) : Envelope.t :=
  Envelope.on_stream (upstream_stream_id device tag) 0 0
    (base_envelope device (Subscribe (Some (subscribe_target tag)))).

Definition resync_required_env (stream_id : string) : Envelope.t :=
  base_envelope "" (ResyncRequired stream_id ResyncRequiredCode).

Definition subscribed_env (stream_id : string) (epoch base_sequence : Z) (correlation : string) : Envelope.t :=
  Envelope.mk correlation "" "" 0 0 (Some (Subscribed stream_id epoch base_sequence)).

(** [encode_direct]: an envelope over the limit becomes the empty byte string. *)
Definition encode_direct `{Prost} (env : Envelope.t) : list byte := default [] (res_ok (encode_envelope env)).

Section Stream.
Context `{Prost}.

(** ** Events held back before the first snapshot *)

Definition events_len (events : list Event) : Z := sum_by event_len events.

Definition is_mergeable (event : Event) : bool := bool_decide ((classify event).1 = Mergeable).

(** The first mergeable event of a batch, and the others. *)
Fixpoint remove_mergeable_event (events : list Event) : option (Event * list Event) :=
  match events with
  | [] => None
  | e :: rest =>
      if is_mergeable e then Some (e, rest)
      else match remove_mergeable_event rest with
           | Some (found, rest) => Some (found, e :: rest)
           | None => None
           end
  end.

(** The first mergeable event of all batches; a batch left empty goes with it. *)
Fixpoint remove_mergeable (batches : list PendingUpstreamBatch.t)
    : option (Event * list PendingUpstreamBatch.t) :=
  match batches with
  | [] => None
  | b :: rest =>
      match remove_mergeable_event (PendingUpstreamBatch.events b) with
      | Some (event, []) => Some (event, rest)
      | Some (event, events) => Some (event, PendingUpstreamBatch.with_events events b :: rest)
      | None =>
          match remove_mergeable rest with
          | Some (event, rest) => Some (event, b :: rest)
          | None => None
          end
      end
  end.

Definition pending_over (ds : DStream.t) : bool :=
  (SNAPSHOT_PENDING_MAX_EVENTS <? DStream.pending_events ds) || (BUFFER_MAX_BYTES <? DStream.pending_bytes ds).

(** The [while] loop: every round removes one event, so the number of events held back is enough
    fuel. *)
Fixpoint evict_pending (fuel : nat) (ds : DStream.t) : DStream.t * bool :=
  if pending_over ds then
    match fuel, remove_mergeable (DStream.pending_batches ds) with
    | S fuel, Some (event, batches) =>
        evict_pending fuel
          (DStream.with_pending_batches batches
             (DStream.with_pending_bytes (sat_sub (DStream.pending_bytes ds) (event_len event))
                (DStream.with_pending_events (DStream.pending_events ds - 1) ds)))
    | _, _ => (ds, true)
    end
  else (ds, false).

Definition held_events (batches : list PendingUpstreamBatch.t) : list Event :=
  mjoin (map PendingUpstreamBatch.events batches).

Definition push_pending (ds : DStream.t) (batch : PendingUpstreamBatch.t) : DStream.t * bool :=
  let events := PendingUpstreamBatch.events batch in
  let ds := DStream.with_pending_events (DStream.pending_events ds + zlen events) ds in
  let ds := DStream.with_pending_bytes (DStream.pending_bytes ds + events_len events) ds in
  let ds := DStream.with_pending_batches (DStream.pending_batches ds ++ [batch]) ds in
  evict_pending (length (held_events (DStream.pending_batches ds))) ds.

Definition clear_pending (ds : DStream.t) : DStream.t :=
  DStream.with_pending_batches [] (DStream.with_pending_bytes 0 (DStream.with_pending_events 0 ds)).

(** ** Snapshots and replay *)

Definition seq_of (f : Frame.t) : Z := Envelope.sequence (Frame.env f).

Definition device_of (f : Frame.t) : string := Envelope.device_id (Frame.env f).

(** Replace the snapshot of the same device; the oldest leave beyond the limit. *)
Definition cache_snapshot (ds : DStream.t) (frame : Frame.t) : DStream.t :=
  let snapshots := filter (fun s => device_of s <> device_of frame) (DStream.snapshots ds) ++ [frame] in
  DStream.with_snapshots (drop (length snapshots - SNAPSHOT_CACHE_MAX) snapshots) ds.

Definition latest_snapshot_seq (ds : DStream.t) : option Z := seq_of <$> last (DStream.snapshots ds).

Definition surviving_frames (ds : DStream.t) : list Frame.t :=
  sort_by_key seq_of (DStream.snapshots ds ++ StreamBuffer.items (DStream.buffer ds)).

(** [Arc::ptr_eq]: the numbers of a stream are distinct, so equal frames are the same frame. *)
Definition replay_base (ds : DStream.t) (first : Frame.t) : Z :=
  if existsb (fun s => bool_decide (s = first)) (DStream.snapshots ds) then seq_of first
  else sat_sub (seq_of first) 1.

(** Are the frames numbered [from], [from + 1], ..? *)
Fixpoint numbered_from (from : Z) (frames : list Frame.t) : bool :=
  match frames with
  | [] => true
  | f :: frames => (seq_of f =? from) && numbered_from (from + 1) frames
  end.

Definition full_replay (ds : DStream.t) : option (Z * list Frame.t) :=
  let frames := surviving_frames ds in
  match frames with
  | [] => None
  | first :: _ =>
      let lo := seq_of first in
      if DStream.next_seq ds <? lo then None
      else if negb (zlen frames =? DStream.next_seq ds - lo) then None
      else if numbered_from lo frames then Some (replay_base ds first, frames)
      else None
  end.

Definition anchored_replay (ds : DStream.t) : Z * list Frame.t :=
  let anchor := default 0 (latest_snapshot_seq ds) in
  let tail := filter (fun f => anchor < seq_of f) (StreamBuffer.items (DStream.buffer ds)) in
  let expected_tail_len := Z.max 0 (DStream.next_seq ds - (anchor + 1)) in
  let contiguous := (zlen tail =? expected_tail_len) && numbered_from (anchor + 1) tail in
  let frames := sort_by_key seq_of (DStream.snapshots ds ++ (if contiguous then tail else [])) in
  (match frames with first :: _ => replay_base ds first | [] => 0 end, frames).

(** What a subscriber that joins or recovers is sent. *)
Definition replay (ds : DStream.t) : Z * list Frame.t :=
  match full_replay ds with
  | Some r => r
  | None => anchored_replay ds
  end.

(** Forget everything and ask for new snapshots; returns the subscriptions to send upstream. *)
Definition await_all (ds : DStream.t) : DStream.t :=
  DStream.with_subscribers (SubscriberState.set_awaiting true <$> DStream.subscribers ds) ds.

Definition reset_frames (ds : DStream.t) : DStream.t :=
  DStream.with_buffer (clear (DStream.buffer ds)) (clear_pending (DStream.with_snapshots [] ds)).

Definition refreshed (force : bool) (b : UpstreamBinding.t) : bool := force || UpstreamBinding.snapshot_received b.

Definition refresh_snapshot_envs (tag : TargetTag.t) (force : bool) (ds : DStream.t)
    : DStream.t * list (Uuid * Envelope.t) :=
  let ds := await_all (reset_frames ds) in
  let asked := filter (fun '(_, b) => refreshed force b = true) (map_to_list (DStream.upstreams ds)) in
  let refresh b :=
    if refreshed force b then UpstreamBinding.fresh (UpstreamBinding.device b) else b in
  (DStream.with_upstreams (refresh <$> DStream.upstreams ds) ds,
   map (fun '(_, b) => (UpstreamBinding.device b, upstream_subscribe_env (UpstreamBinding.device b) tag)) asked).

End Stream.
