(* ===== verification/StreamProps.v ===== *)
(** * Properties of a downstream stream

    The numbers of the frames a stream keeps are strictly increasing and below the next number;
    its counters are exact and within their limits; what a joining subscriber is sent follows
    from that. *)

From S2P Require Import Prelude RustStr Messages Buffer BufferProps Stream.

Definition seqs (frames : list Frame.t) : list Z := map seq_of frames.

Lemma seqs_app (l k : list Frame.t) : seqs (l ++ k) = seqs l ++ seqs k.
Proof. apply map_app. Qed.

(** What merging keeps of a frame: where it comes from, its stream and its number. *)
Definition header (f : Frame.t) : string * string * Z * Z :=
  (device_of f, Envelope.stream_id (Frame.env f), Envelope.stream_epoch (Frame.env f), seq_of f).

Definition headers (frames : list Frame.t) : list (string * string * Z * Z) := map header frames.

Lemma headers_app (l k : list Frame.t) : headers (l ++ k) = headers l ++ headers k.
Proof. apply map_app. Qed.

(** ** Numbers survive merging and eviction *)

Lemma sublist_map {A B} (f : A -> B) (l k : list A) : l `sublist_of` k -> map f l `sublist_of` map f k.
Proof. induction 1; simpl; by constructor. Qed.

Lemma sublist_rev {A} (l k : list A) : l `sublist_of` k -> rev l `sublist_of` rev k.
Proof.
  induction 1; simpl; [done|by apply sublist_app|]. by apply sublist_inserts_r.
Qed.

Lemma sublist_strongly_sorted {A} (R : A -> A -> Prop) (l k : list A) :
  l `sublist_of` k -> StronglySorted R k -> StronglySorted R l.
Proof.
  induction 1 as [|x l k Hs IH|x l k Hs IH]; intros Hk; [done|..]; apply StronglySorted_inv in Hk as [Hk Hx];
    [|by apply IH]. constructor; [by apply IH|]. apply Forall_forall. intros y Hy. rewrite Forall_forall in Hx. apply Hx.
  by eapply sublist_subseteq.
Qed.

Section Numbers.
Context `{Prost}.

Lemma merge_pair_header (now : Z) (a b m : Frame.t) : merge_pair now a b = Some m -> header m = header a.
Proof.
  unfold merge_pair, extend_append, header. intros Hm.
  repeat (case_match; simplify_eq/=; try done).
  all: destruct (last_append (Frame.env b)); simplify_eq/=; repeat (case_match; simplify_eq/=; try done).
Qed.

Lemma drop_superseded_sublist (items : list Frame.t) : drop_superseded items `sublist_of` items.
Proof. induction items as [|f items IH]; simpl; [done|]. case_match; by constructor. Qed.

Lemma merge_steps_headers (now : Z) (items result : list Frame.t) (total : Z) :
  headers (rev (foldl (merge_step now) (result, total) items).1) `sublist_of` headers (rev result) ++ headers items.
Proof.
  revert result total. induction items as [|f items IH]; intros result total; simpl; [by rewrite app_nil_r|].
  destruct result as [|prev others]; [apply (IH [f])|]. 
  destruct (merge_pair now prev f) as [m|] eqn:Hm; etrans; try apply IH; simpl; rewrite !headers_app; simpl.
  - rewrite (merge_pair_header _ _ _ _ Hm), <- !app_assoc. simpl.
    apply sublist_app; [done|]. apply sublist_skip. by apply sublist_cons.
  - by rewrite <- !app_assoc.
Qed.

Lemma coalesce_headers (now : Z) (items : list Frame.t) : headers (coalesce now items).1 `sublist_of` headers items.
Proof.
  unfold coalesce. set (items1 := if (1 <? length items)%nat then drop_superseded items else items).
  destruct (foldl (merge_step now) ([], 0) items1) as [result total] eqn:Hf. simpl.
  pose proof (merge_steps_headers now items1 [] 0) as Hs. rewrite Hf in Hs. simpl in Hs. etrans; [exact Hs|].
  apply sublist_map. unfold items1. case_match; [apply drop_superseded_sublist|done].
Qed.

Lemma drop_expired_sublist (now retention bytes : Z) (items : list Frame.t) :
  (drop_expired now retention items bytes).1 `sublist_of` items.
Proof.
  revert bytes. induction items as [|f items IH]; intros bytes; simpl; [done|].
  case_match; [apply sublist_cons, IH|done].
Qed.

Lemma remove_first_sublist (test : Frame.t -> bool) (items : list Frame.t) (f : Frame.t) (rest : list Frame.t) :
  remove_first test items = Some (f, rest) -> rest `sublist_of` items.
Proof.
  intros Hr. pose proof (remove_first_spec test items) as Hs. rewrite Hr in Hs.
  destruct Hs as (l & r & -> & -> & _). apply sublist_app; [done|]. by apply sublist_cons.
Qed.

Lemma remove_replaced_sublist (frame : Frame.t) (items : list Frame.t) (bytes : Z) :
  (remove_replaced frame items bytes).1 `sublist_of` items.
Proof.
  unfold remove_replaced. destruct (Frame.merge frame) as [[]|]; try done.
  destruct (remove_first _ (take 32 (rev items))) as [[old recent]|] eqn:Hr; [|done]. simpl.
  apply remove_first_sublist in Hr. rewrite <- (rev_involutive items) at 2.
  apply sublist_rev. rewrite <- (take_drop 32 (rev items)) at 2. by apply sublist_app.
Qed.

Lemma append_frame_headers (now : Z) (frame : Frame.t) (items : list Frame.t) (bytes : Z) :
  headers (append_frame now frame items bytes).1 `sublist_of` headers items ++ [header frame].
Proof.
  unfold append_frame. destruct (last items ≫= _) as [m|] eqn:Hm; simpl.
  - destruct items as [|prev items _] using rev_ind; [done|]. rewrite last_snoc in *. simpl in Hm.
    replace (removelast (items ++ [prev])) with items by (symmetry; apply removelast_last).
    rewrite !headers_app. simpl. rewrite (merge_pair_header _ _ _ _ Hm). by apply sublist_inserts_r.
  - pose proof (remove_replaced_sublist frame items bytes) as Hs.
    destruct (remove_replaced frame items bytes) as [items' bytes']. simpl in *. rewrite headers_app.
    apply sublist_app; [by apply sublist_map|done].
Qed.

Lemma evict_sublist (fuel : nat) (allowed : FrameKind) (b : StreamBuffer.t) :
  StreamBuffer.items (evict fuel allowed b) `sublist_of` StreamBuffer.items b.
Proof.
  revert b. induction fuel as [|fuel IH]; intros b; cbn [evict]; case_match; try done.
  destruct (remove_first _ (StreamBuffer.items b)) as [[f items]|] eqn:Hr; [|done].
  etrans; [apply IH|]. simpl. by eapply remove_first_sublist.
Qed.

Lemma insert_headers (now : Z) (b : StreamBuffer.t) (frame : Frame.t) :
  headers (StreamBuffer.items (insert now b frame).1) `sublist_of` headers (StreamBuffer.items b) ++ [header frame].
Proof.
  unfold insert.
  pose proof (drop_expired_sublist now (StreamBuffer.retention b) (StreamBuffer.bytes b) (StreamBuffer.items b)) as K1.
  destruct (drop_expired _ _ _ _) as [items1 bytes1]. simpl in K1.
  pose proof (append_frame_headers now frame items1 bytes1) as K2.
  destruct (append_frame now frame items1 bytes1) as [items2 bytes2]. simpl in K2.
  assert (K12 : headers items2 `sublist_of` headers (StreamBuffer.items b) ++ [header frame]).
  { etrans; [exact K2|]. apply sublist_app; [by apply sublist_map|done]. }
  case_match; [done|].
  pose proof (coalesce_headers now items2) as K3. destruct (coalesce now items2) as [items3 bytes3]. simpl in K3.
  assert (K13 : headers items3 `sublist_of` headers (StreamBuffer.items b) ++ [header frame]) by (by etrans).
  case_match; [done|]. cbv zeta.
  set (b3 := StreamBuffer.set items3 bytes3 _).
  pose proof (sublist_map header _ _ (evict_sublist (length (StreamBuffer.items b3)) Mergeable b3)) as K4.
  set (b4 := evict (length (StreamBuffer.items b3)) Mergeable b3) in *.
  pose proof (sublist_map header _ _ (evict_sublist (length (StreamBuffer.items b4)) Recoverable b4)) as K5.
  set (b5 := evict (length (StreamBuffer.items b4)) Recoverable b4) in *.
  change (headers (StreamBuffer.items b4) `sublist_of` headers items3) in K4.
  case_match; [by etrans; [exact K4|]|]. case_match; [by etrans; [exact K5|]; etrans; [exact K4|]|].
  apply sublist_nil_l.
Qed.

Lemma insert_seqs (now : Z) (b : StreamBuffer.t) (frame : Frame.t) :
  seqs (StreamBuffer.items (insert now b frame).1) `sublist_of` seqs (StreamBuffer.items b) ++ [seq_of frame].
Proof.
  pose proof (sublist_map snd _ _ (insert_headers now b frame)) as Hs.
  rewrite map_app in Hs. unfold headers in Hs. by rewrite !map_map in Hs.
Qed.

(** The limits of a window never change. *)
Lemma insert_limits (now : Z) (b : StreamBuffer.t) (frame : Frame.t) :
  let b' := (insert now b frame).1 in
  StreamBuffer.max_events b' = StreamBuffer.max_events b /\ StreamBuffer.max_bytes b' = StreamBuffer.max_bytes b.
Proof.
  assert (Hev : forall fuel k b, StreamBuffer.max_events (evict fuel k b) = StreamBuffer.max_events b /\
                                 StreamBuffer.max_bytes (evict fuel k b) = StreamBuffer.max_bytes b).
  { induction fuel as [|fuel IH]; intros k b0; cbn [evict]; case_match; try done.
    case_match; [|done]. case_match. by destruct (IH k (StreamBuffer.set l (sat_sub (StreamBuffer.bytes b0) (Frame.bytes_len t)) b0)). }
  unfold insert. repeat case_match; simpl; rewrite ?(proj1 (Hev _ _ _)), ?(proj2 (Hev _ _ _)); done.
Qed.

End Numbers.

(** ** Events held back *)

Section Pending.
Context `{ProstLaws}.

Definition plain (events : list Event) : list Event := filter (fun e => is_mergeable e = false) events.

Lemma plain_app (l k : list Event) : plain (l ++ k) = plain l ++ plain k.
Proof. apply filter_app. Qed.

Lemma held_events_cons (b : PendingUpstreamBatch.t) (batches : list PendingUpstreamBatch.t) :
  held_events (b :: batches) = PendingUpstreamBatch.events b ++ held_events batches.
Proof. done. Qed.

Lemma held_events_app (l k : list PendingUpstreamBatch.t) : held_events (l ++ k) = held_events l ++ held_events k.
Proof. unfold held_events. by rewrite map_app, join_app. Qed.

Lemma events_len_app (l k : list Event) : events_len (l ++ k) = events_len l + events_len k.
Proof. apply sum_by_app. Qed.

Lemma events_len_nonneg (l : list Event) : 0 <= events_len l.
Proof. apply sum_by_nonneg, Forall_forall. intros e _. apply event_len_nonneg. Qed.

Lemma remove_mergeable_event_spec (events : list Event) :
  match remove_mergeable_event events with
  | Some (e, rest) => is_mergeable e = true /\ exists l r, events = l ++ e :: r /\ rest = l ++ r
  | None => Forall (fun e => is_mergeable e = false) events
  end.
Proof.
  induction events as [|e events IH]; simpl; [constructor|].
  destruct (is_mergeable e) eqn:He; [split; [done|]; by exists [], events|].
  destruct (remove_mergeable_event events) as [[found rest]|]; [|by constructor].
  destruct IH as (Hf & l & r & -> & ->). split; [done|]. by exists (e :: l), r.
Qed.

Definition nonempty_batch (b : PendingUpstreamBatch.t) : Prop := PendingUpstreamBatch.events b <> [].

Lemma remove_mergeable_spec (batches : list PendingUpstreamBatch.t) :
  Forall nonempty_batch batches ->
  match remove_mergeable batches with
  | Some (e, rest) =>
      is_mergeable e = true /\ Forall nonempty_batch rest /\
      exists l r, held_events batches = l ++ e :: r /\ held_events rest = l ++ r
  | None => Forall (fun e => is_mergeable e = false) (held_events batches)
  end.
Proof.
  induction 1 as [|b batches Hb Hbs IH]; simpl; [constructor|].
  pose proof (remove_mergeable_event_spec (PendingUpstreamBatch.events b)) as Hs.
  destruct (remove_mergeable_event (PendingUpstreamBatch.events b)) as [[e rest]|].
  - destruct Hs as (He & l & r & Hev & ->). rewrite !held_events_cons, Hev.
    destruct (l ++ r) as [|e' es] eqn:Hlr.
    + apply app_nil in Hlr as [-> ->]. split_and!; [done|done|]. by exists [], (held_events batches).
    + rewrite <- Hlr. split_and!; [done| |].
      * constructor; [|done]. unfold nonempty_batch. simpl. by rewrite Hlr.
      * exists l, (r ++ held_events batches). rewrite held_events_cons. simpl. by rewrite <- !app_assoc.
  - destruct (remove_mergeable batches) as [[e rest]|].
    + destruct IH as (He & Hr & l & r & Hl & Hr'). split_and!; [done|by constructor|].
      exists (PendingUpstreamBatch.events b ++ l), r. rewrite !held_events_cons, Hl, Hr'. by rewrite <- !app_assoc.
    + rewrite held_events_cons. by apply Forall_app.
Qed.

(** The counters of the events held back are exact. *)
Record pending_exact (ds : DStream.t) : Prop := {
  pe_events : DStream.pending_events ds = zlen (held_events (DStream.pending_batches ds));
  pe_bytes : DStream.pending_bytes ds = events_len (held_events (DStream.pending_batches ds));
  pe_nonempty : Forall nonempty_batch (DStream.pending_batches ds);
}.

(** Everything but the events held back is the same. *)
Record same_but_pending (ds ds' : DStream.t) : Prop := {
  sp_stream_id : DStream.stream_id ds' = DStream.stream_id ds;
  sp_epoch : DStream.epoch ds' = DStream.epoch ds;
  sp_next_seq : DStream.next_seq ds' = DStream.next_seq ds;
  sp_snapshots : DStream.snapshots ds' = DStream.snapshots ds;
  sp_buffer : DStream.buffer ds' = DStream.buffer ds;
  sp_subscribers : DStream.subscribers ds' = DStream.subscribers ds;
  sp_upstreams : DStream.upstreams ds' = DStream.upstreams ds;
}.

Lemma same_but_pending_refl (ds : DStream.t) : same_but_pending ds ds.
Proof. by split. Qed.

Lemma evict_pending_spec (fuel : nat) (ds : DStream.t) :
  pending_exact ds -> (length (held_events (DStream.pending_batches ds)) <= fuel)%nat ->
  let '(ds', over) := evict_pending fuel ds in
  same_but_pending ds ds' /\ pending_exact ds' /\
  held_events (DStream.pending_batches ds') `sublist_of` held_events (DStream.pending_batches ds) /\
  plain (held_events (DStream.pending_batches ds')) = plain (held_events (DStream.pending_batches ds)) /\
  pending_over ds' = over /\
  (over = true -> plain (held_events (DStream.pending_batches ds')) = held_events (DStream.pending_batches ds')).
Proof.
  revert ds. induction fuel as [|fuel IH]; intros ds Hp Hlen; cbn [evict_pending];
    (destruct (pending_over ds) eqn:Hover; [|by split_and!; [apply same_but_pending_refl|..]]).
  - split_and!; try done. intros _.
    destruct (held_events (DStream.pending_batches ds)); [done|simpl in Hlen; lia].
  - pose proof (remove_mergeable_spec (DStream.pending_batches ds) (pe_nonempty ds Hp)) as Hs.
    destruct (remove_mergeable (DStream.pending_batches ds)) as [[e rest]|].
    + destruct Hs as (He & Hne & l & r & Hl & Hr). destruct Hp as [Hev Hby _].
      rewrite Hl in *. set (ds1 := DStream.with_pending_batches rest _).
      assert (Hp1 : pending_exact ds1).
      { split; unfold ds1; simpl; [..|done]; rewrite Hr.
        - rewrite Hev. autorewrite with rust. lia.
        - rewrite Hby. rewrite !events_len_app. unfold events_len at 2. rewrite sum_by_cons.
          fold (events_len r). pose proof (events_len_nonneg l). pose proof (events_len_nonneg r).
          pose proof (event_len_nonneg e). rewrite sat_sub_le; lia. }
      specialize (IH ds1 Hp1). unfold ds1 in IH at 1. simpl in IH. rewrite Hr in IH.
      rewrite length_app in *. simpl in Hlen. specialize (IH ltac:(lia)).
      destruct (evict_pending fuel ds1) as [ds2 over]. destruct IH as (Hsame & Hp2 & Hsub & Hpl & Ho & Hall).
      split_and!; try done; [destruct Hsame; by split|etrans; [exact Hsub|]; apply sublist_app; [done|by apply sublist_cons]|].
      rewrite Hpl, !plain_app. f_equal. unfold plain. rewrite filter_cons, decide_False by congruence. done.
    + split_and!; try done. intros _. unfold plain. clear Hp Hlen Hover.
      induction Hs as [|e l He Hl IHl]; [done|]. by rewrite filter_cons, decide_True, IHl.
Qed.

Lemma pending_over_false (ds : DStream.t) :
  pending_over ds = false <->
  DStream.pending_events ds <= SNAPSHOT_PENDING_MAX_EVENTS /\ DStream.pending_bytes ds <= BUFFER_MAX_BYTES.
Proof. unfold pending_over. rewrite orb_false_iff, !Z.ltb_ge. done. Qed.

Lemma push_pending_keeps (ds : DStream.t) (batch : PendingUpstreamBatch.t) :
  pending_exact ds -> PendingUpstreamBatch.events batch <> [] ->
  let '(ds', over) := push_pending ds batch in
  let before := held_events (DStream.pending_batches ds) ++ PendingUpstreamBatch.events batch in
  let held := held_events (DStream.pending_batches ds') in
  same_but_pending ds ds' /\ pending_exact ds' /\
  held `sublist_of` before /\ plain held = plain before /\
  (over = false <->
     DStream.pending_events ds' <= SNAPSHOT_PENDING_MAX_EVENTS /\ DStream.pending_bytes ds' <= BUFFER_MAX_BYTES) /\
  (over = true -> held = plain before).
Proof.
  intros [He Hb Hne] Hbatch. unfold push_pending. set (ds1 := DStream.with_pending_batches _ _).
  assert (Hheld : held_events (DStream.pending_batches ds1) =
                  held_events (DStream.pending_batches ds) ++ PendingUpstreamBatch.events batch).
  { unfold ds1. simpl. rewrite held_events_app. unfold held_events at 2. simpl. by rewrite app_nil_r. }
  assert (Hp1 : pending_exact ds1).
  { split; [rewrite Hheld; unfold ds1; simpl..|].
    - rewrite He. autorewrite with rust. done.
    - by rewrite Hb, events_len_app.
    - unfold ds1. simpl. apply Forall_app. split; [done|]. by apply Forall_singleton. }
  pose proof (evict_pending_spec (length (held_events (DStream.pending_batches ds1))) ds1 Hp1 (le_n _)) as Hs.
  destruct (evict_pending _ ds1) as [ds2 over]. rewrite Hheld in Hs. cbv zeta.
  destruct Hs as ([] & Hp2 & Hsub & Hpl & Ho & Hall).
  split_and!; try done; [by rewrite <- Ho, pending_over_false|]. intros Hov. rewrite <- Hpl. symmetry. by apply Hall.
Qed.

End Pending.

Lemma insert_by_key_le {A} (key : A -> Z) (x : A) (l : list A) :
  Forall (fun y => key x <= key y) l -> insert_by_key key x l = x :: l.
Proof. destruct 1 as [|y l Hy _]; simpl; [done|]. by rewrite (proj2 (Z.leb_le _ _) Hy). Qed.

Lemma sort_by_key_sorted_id {A} (key : A -> Z) (l : list A) :
  StronglySorted Z.lt (map key l) -> sort_by_key key l = l.
Proof.
  induction l as [|x l IH]; [done|]. simpl. intros [Hl Hx]%StronglySorted_inv. rewrite (IH Hl).
  apply insert_by_key_le. apply Forall_forall. intros y Hy. rewrite Forall_forall in Hx. apply Z.lt_le_incl, Hx.
  by apply (list_elem_of_fmap_2 key).
Qed.

Lemma numbered_from_spec (from : Z) (frames : list Frame.t) :
  numbered_from from frames = true <-> seqs frames = seqZ from (zlen frames).
Proof.
  revert from. induction frames as [|f frames IH]; intros from; [done|].
  change (seqs (f :: frames)) with (seq_of f :: seqs frames). cbn [numbered_from].
  rewrite andb_true_iff, Z.eqb_eq, IH. autorewrite with rust.
  rewrite (seqZ_cons from (zlen frames + 1)) by (pose proof (zlen_nonneg frames); lia).
  unfold Z.succ, Z.pred. replace (zlen frames + 1 + -1) with (zlen frames) by lia.
  split; [by intros [-> ->]|]. by intros [= -> ->].
Qed.

Lemma seqZ_strongly_sorted (from len : Z) : StronglySorted Z.lt (seqZ from len).
Proof.
  destruct (Z.le_gt_cases 0 len) as [Hlen|]; [|by rewrite seqZ_nil by lia; constructor].
  revert from. pattern len. apply natlike_ind; [|intros n Hn IH|done]; intros from; [constructor|].
  rewrite seqZ_cons by lia. constructor; [rewrite Z.pred_succ; apply IH|].
  apply Forall_forall. intros x [Hx _]%elem_of_seqZ. lia.
Qed.

Section Replay.
Context `{ProstLaws}.

(** A frame of this stream, numbered before the next one. *)
Record on_this_stream (ds : DStream.t) (f : Frame.t) : Prop := {
  ot_stream : Envelope.stream_id (Frame.env f) = DStream.stream_id ds;
  ot_epoch : Envelope.stream_epoch (Frame.env f) = DStream.epoch ds;
  ot_seq : 1 <= seq_of f < DStream.next_seq ds;
}.

Record stream_inv (ds : DStream.t) : Prop := {
  si_next : 1 <= DStream.next_seq ds;
  si_buffer : buffer_inv (DStream.buffer ds);
  si_max_events : StreamBuffer.max_events (DStream.buffer ds) = BUFFER_MAX_EVENTS;
  si_max_bytes : StreamBuffer.max_bytes (DStream.buffer ds) = BUFFER_MAX_BYTES;
  si_fits : StreamBuffer.fits (DStream.buffer ds) = true;
  si_items : StronglySorted Z.lt (seqs (StreamBuffer.items (DStream.buffer ds)));
  si_snapshots : StronglySorted Z.lt (seqs (DStream.snapshots ds));
  si_distinct : forall f s, f ∈ StreamBuffer.items (DStream.buffer ds) -> s ∈ DStream.snapshots ds -> seq_of f <> seq_of s;
  si_frames : Forall (on_this_stream ds) (DStream.snapshots ds ++ StreamBuffer.items (DStream.buffer ds));
  si_cache : (length (DStream.snapshots ds) <= SNAPSHOT_CACHE_MAX)%nat;
  si_devices : NoDup (map device_of (DStream.snapshots ds));
  si_pending : pending_exact ds;
  si_within : pending_over ds = false;
  si_held : DStream.snapshots ds <> [] -> DStream.pending_batches ds = [];
}.

Lemma surviving_in (ds : DStream.t) (f : Frame.t) :
  f ∈ surviving_frames ds <-> f ∈ DStream.snapshots ds ++ StreamBuffer.items (DStream.buffer ds).
Proof. unfold surviving_frames. by rewrite sort_by_key_perm. Qed.

Lemma replay_base_spec (ds : DStream.t) (first : Frame.t) :
  stream_inv ds -> first ∈ DStream.snapshots ds ++ StreamBuffer.items (DStream.buffer ds) ->
  (first ∈ DStream.snapshots ds /\ replay_base ds first = seq_of first) \/
  (first ∉ DStream.snapshots ds /\ replay_base ds first = seq_of first - 1).
Proof.
  intros Hinv Hin. unfold replay_base.
  destruct (existsb _ (DStream.snapshots ds)) eqn:He.
  - left. apply existsb_exists in He as (s & Hs & ->%bool_decide_eq_true). by apply list_elem_of_In in Hs.
  - right. split.
    + intros Hs. apply list_elem_of_In in Hs. apply not_true_iff_false in He. apply He. apply existsb_exists.
      exists first. by rewrite bool_decide_true.
    + pose proof (si_frames ds Hinv) as Hf. rewrite Forall_forall in Hf. pose proof (ot_seq _ _ (Hf _ Hin)).
      rewrite sat_sub_le; lia.
Qed.

(** What a joining subscriber is sent. *)
Record replay_ok (ds : DStream.t) (base : Z) (frames : list Frame.t) : Prop := {
  ro_sorted : StronglySorted Z.lt (seqs frames);
  ro_from : frames ⊆ DStream.snapshots ds ++ StreamBuffer.items (DStream.buffer ds);
  ro_snapshots : DStream.snapshots ds ⊆ frames;
  ro_base : exists first rest, frames = first :: rest /\
    ((first ∈ DStream.snapshots ds /\ base = seq_of first) \/
     (first ∉ DStream.snapshots ds /\ base = seq_of first - 1));
}.

(** The frames run on to the next number the stream will give out. *)
Definition runs_up_to (next : Z) (from : Z) (frames : list Frame.t) : Prop :=
  seqs frames = seqZ from (next - from).

Lemma full_replay_spec (ds : DStream.t) (base : Z) (frames : list Frame.t) :
  stream_inv ds -> full_replay ds = Some (base, frames) ->
  replay_ok ds base frames /\
  frames ≡ₚ DStream.snapshots ds ++ StreamBuffer.items (DStream.buffer ds) /\
  exists lo, head (seqs frames) = Some lo /\ runs_up_to (DStream.next_seq ds) lo frames.
Proof.
  intros Hinv. unfold full_replay. destruct (surviving_frames ds) as [|first rest] eqn:Hs; [done|].
  case_match; [done|]. destruct (zlen (first :: rest) =? _) eqn:Hlen; [|done]. apply Z.eqb_eq in Hlen. cbn [negb].
  destruct (numbered_from (seq_of first) (first :: rest)) eqn:Hn; [|done]. intros [= <- <-].
  apply numbered_from_spec in Hn. rewrite Hlen in Hn.
  assert (Hperm : first :: rest ≡ₚ DStream.snapshots ds ++ StreamBuffer.items (DStream.buffer ds)).
  { rewrite <- Hs. apply sort_by_key_perm. }
  split_and!; [|done|exists (seq_of first); split; [done|exact Hn]]. split.
  - rewrite Hn. apply seqZ_strongly_sorted.
  - by rewrite Hperm.
  - rewrite Hperm. set_solver.
  - exists first, rest. split; [done|]. apply replay_base_spec; [done|]. rewrite <- Hperm. set_solver.
Qed.

Lemma anchored_tail_above (ds : DStream.t) (anchor : Frame.t) (s : Frame.t) :
  stream_inv ds -> last (DStream.snapshots ds) = Some anchor -> s ∈ DStream.snapshots ds ->
  seq_of s <= seq_of anchor.
Proof.
  intros Hinv Hlast Hs. pose proof (si_snapshots ds Hinv) as Hsort.
  apply last_Some in Hlast as [front Hf]. rewrite Hf in *.
  apply elem_of_app in Hs as [Hs|Hs]; [|by apply list_elem_of_singleton in Hs as ->; lia].
  rewrite seqs_app in Hsort. apply StronglySorted_app_1_elem_of with (x1 := seq_of s) (x2 := seq_of anchor) in Hsort;
    [lia|by apply list_elem_of_fmap_2|simpl; set_solver].
Qed.

Lemma anchored_replay_spec (ds : DStream.t) (anchor : Frame.t) :
  stream_inv ds -> last (DStream.snapshots ds) = Some anchor ->
  let '(base, frames) := anchored_replay ds in
  let after := filter (fun f => seq_of anchor < seq_of f) (StreamBuffer.items (DStream.buffer ds)) in
  replay_ok ds base frames /\
  ((runs_up_to (DStream.next_seq ds) (seq_of anchor + 1) after /\ frames = DStream.snapshots ds ++ after) \/
   (~ runs_up_to (DStream.next_seq ds) (seq_of anchor + 1) after /\ frames = DStream.snapshots ds)).
Proof.
  intros Hinv Hlast. unfold anchored_replay, latest_snapshot_seq. rewrite Hlast. simpl.
  set (after := filter _ _).
  assert (Hanchor : seq_of anchor < DStream.next_seq ds).
  { pose proof (si_frames ds Hinv) as Hf. rewrite Forall_forall in Hf. apply (ot_seq _ anchor), Hf.
    apply last_Some_elem_of in Hlast. set_solver. }
  rewrite Z.max_r by lia.
  assert (Hcont : (zlen after =? DStream.next_seq ds - (seq_of anchor + 1)) && numbered_from (seq_of anchor + 1) after = true
                  <-> runs_up_to (DStream.next_seq ds) (seq_of anchor + 1) after).
  { rewrite andb_true_iff, Z.eqb_eq, numbered_from_spec. unfold runs_up_to. split; [by intros [<- ->]|].
    intros Hr. assert (Hl : zlen after = DStream.next_seq ds - (seq_of anchor + 1)); [|by rewrite Hl].
    apply (f_equal length) in Hr. unfold seqs in Hr. rewrite length_map, length_seqZ in Hr. unfold zlen. lia. }
  set (ok := (zlen after =? DStream.next_seq ds - (seq_of anchor + 1)) && numbered_from (seq_of anchor + 1) after) in *.
  set (tail := if ok then after else []).
  assert (Htail : forall f, f ∈ tail -> f ∈ after) by (unfold tail; case_match; set_solver).
  assert (Hsorted : StronglySorted Z.lt (seqs (DStream.snapshots ds ++ tail))).
  { rewrite seqs_app. apply StronglySorted_app_2.
    - intros x y (s & -> & Hs)%list_elem_of_fmap (f & -> & Hf)%list_elem_of_fmap.
      apply Htail, list_elem_of_filter in Hf as [Hf _]. pose proof (anchored_tail_above ds anchor s Hinv Hlast Hs). lia.
    - apply (si_snapshots ds Hinv).
    - unfold tail. case_match; [|constructor]. eapply sublist_strongly_sorted, (si_items ds Hinv).
      apply sublist_map, sublist_filter. }
  rewrite (sort_by_key_sorted_id seq_of) by exact Hsorted. split.
  - split; [done| |set_solver|].
    + intros f [Hf|Hf]%elem_of_app; apply elem_of_app; [by left|right].
      apply Htail, list_elem_of_filter in Hf. by destruct Hf.
    + destruct (DStream.snapshots ds) as [|first rest] eqn:Hs; [done|]. simpl. do 2 eexists. split; [done|].
      rewrite <- Hs. apply replay_base_spec; [done|]. rewrite Hs. set_solver.
  - unfold tail. destruct ok eqn:Hb; [left; by rewrite <- Hcont|].
    right. rewrite <- Hcont, app_nil_r. split; [by intros [=]|done].
Qed.

End Replay.

Section Theorems.
Context `{ProstLaws}.

(** Events that arrive before the first snapshot are held back without loss of what matters.
    Adding a batch keeps the counters exact and everything else of the stream unchanged; the
    events held are a subsequence of those held before and the new ones, and every event that is
    not mergeable output is among them, in order.  The call returns false exactly when both
    limits hold afterwards, and otherwise nothing mergeable is left to drop: the caller must
    start over with a new snapshot. *)
Theorem push_pending_spec (ds : DStream.t) (batch : PendingUpstreamBatch.t) :
  pending_exact ds -> PendingUpstreamBatch.events batch <> [] ->
  let '(ds', over) := push_pending ds batch in
  let before := held_events (DStream.pending_batches ds) ++ PendingUpstreamBatch.events batch in
  let held := held_events (DStream.pending_batches ds') in
  same_but_pending ds ds' /\ pending_exact ds' /\
  held `sublist_of` before /\ plain held = plain before /\
  (over = false <->
     DStream.pending_events ds' <= SNAPSHOT_PENDING_MAX_EVENTS /\ DStream.pending_bytes ds' <= BUFFER_MAX_BYTES) /\
  (over = true -> held = plain before).
Proof. apply push_pending_keeps. Qed.

Lemma replay_keeps (ds : DStream.t) (anchor : Frame.t) :
  stream_inv ds -> last (DStream.snapshots ds) = Some anchor ->
  let '(base, frames) := replay ds in
  let after := filter (fun f => seq_of anchor < seq_of f) (StreamBuffer.items (DStream.buffer ds)) in
  replay_ok ds base frames /\
  ((frames ≡ₚ DStream.snapshots ds ++ StreamBuffer.items (DStream.buffer ds) /\
    exists lo, head (seqs frames) = Some lo /\ runs_up_to (DStream.next_seq ds) lo frames) \/
   (frames = DStream.snapshots ds ++ after /\ runs_up_to (DStream.next_seq ds) (seq_of anchor + 1) after) \/
   (frames = DStream.snapshots ds /\ ~ runs_up_to (DStream.next_seq ds) (seq_of anchor + 1) after)).
Proof.
  intros Hinv Hlast. unfold replay. destruct (full_replay ds) as [[base frames]|] eqn:Hf.
  - destruct (full_replay_spec ds base frames Hinv Hf) as (? & ? & ?). auto.
  - pose proof (anchored_replay_spec ds anchor Hinv Hlast) as Ha. destruct (anchored_replay ds) as [base frames].
    naive_solver.
Qed.

(** What a joining or recovering subscriber is sent.  Once a stream has a snapshot, the replay
    is strictly increasing in its numbers, consists of frames the stream keeps and contains every
    cached snapshot; the base announced is the number of the first frame when that is a snapshot
    and one less when it is an event.  Either it is everything the stream keeps, or the snapshots
    followed by all frames after the latest one - both without a hole up to the next number the
    stream will give out, so live frames continue it - or, exactly when the frames after the
    latest snapshot have a hole, the snapshots alone. *)
Theorem replay_spec (ds : DStream.t) (anchor : Frame.t) :
  stream_inv ds -> last (DStream.snapshots ds) = Some anchor ->
  let '(base, frames) := replay ds in
  let after := filter (fun f => seq_of anchor < seq_of f) (StreamBuffer.items (DStream.buffer ds)) in
  replay_ok ds base frames /\
  ((frames ≡ₚ DStream.snapshots ds ++ StreamBuffer.items (DStream.buffer ds) /\
    exists lo, head (seqs frames) = Some lo /\ runs_up_to (DStream.next_seq ds) lo frames) \/
   (frames = DStream.snapshots ds ++ after /\ runs_up_to (DStream.next_seq ds) (seq_of anchor + 1) after) \/
   (frames = DStream.snapshots ds /\ ~ runs_up_to (DStream.next_seq ds) (seq_of anchor + 1) after)).
Proof. apply replay_keeps. Qed.

End Theorems.

(** ** The operations of a stream keep its invariant *)

Section Operations.
Context `{ProstLaws}.

#[local] Opaque BUFFER_MAX_EVENTS.

Lemma new_inv (id : string) : stream_inv (DStream.new id).
Proof.
  split; simpl; try solve [done|repeat constructor]. intros f s Hf. by apply not_elem_of_nil in Hf.
Qed.

(** Only subscribers and bindings changed. *)
Record same_frames (ds ds' : DStream.t) : Prop := {
  sf_pending : same_but_pending (DStream.with_subscribers (DStream.subscribers ds')
                 (DStream.with_upstreams (DStream.upstreams ds') ds)) ds';
  sf_batches : DStream.pending_batches ds' = DStream.pending_batches ds;
  sf_bytes : DStream.pending_bytes ds' = DStream.pending_bytes ds;
  sf_events : DStream.pending_events ds' = DStream.pending_events ds;
}.

Lemma same_frames_inv (ds ds' : DStream.t) : same_frames ds ds' -> stream_inv ds -> stream_inv ds'.
Proof.
  intros [[Hid He Hn Hs Hb _ _] Hpb Hpy Hpe] []; simpl in *.
  split; rewrite ?Hid, ?He, ?Hn, ?Hs, ?Hb, ?Hpb, ?Hpy, ?Hpe; try done.
  - eapply Forall_impl; [eassumption|]. intros f []; split; congruence.
  - destruct si_pending0. by split; rewrite ?Hpb, ?Hpy, ?Hpe.
  - unfold pending_over in *. by rewrite Hpy, Hpe.
Qed.

Lemma with_subscribers_inv (subs : gmap Uuid SubscriberState.t) (ds : DStream.t) :
  stream_inv ds -> stream_inv (DStream.with_subscribers subs ds).
Proof. apply same_frames_inv. by split; [split|..]. Qed.

Lemma with_upstreams_inv (ups : gmap string UpstreamBinding.t) (ds : DStream.t) :
  stream_inv ds -> stream_inv (DStream.with_upstreams ups ds).
Proof. apply same_frames_inv. by split; [split|..]. Qed.

Lemma clear_pending_inv (ds : DStream.t) : stream_inv ds -> stream_inv (clear_pending ds).
Proof.
  intros []. split; simpl; try done.
  eapply Forall_impl; [eassumption|]. intros f []; by split.
Qed.

Lemma empty_fits (max_events : nat) (max_bytes retention : Z) :
  0 <= max_bytes -> StreamBuffer.fits (StreamBuffer.mk [] 0 max_events max_bytes retention) = true.
Proof. intros Hm. unfold StreamBuffer.fits. simpl. by apply Z.leb_le. Qed.

Lemma reset_frames_inv (ds : DStream.t) : stream_inv ds -> stream_inv (reset_frames ds).
Proof.
  intros []. split; simpl; try solve [done|repeat constructor].
  - apply empty_fits. by rewrite si_max_bytes0.
  - intros f s Hf. by apply not_elem_of_nil in Hf.
Qed.

Lemma reset_with_epoch_inv (epoch : Z) (ds : DStream.t) :
  stream_inv ds -> stream_inv (reset_frames (DStream.with_epoch epoch ds)).
Proof.
  intros []. split; simpl; try solve [done|repeat constructor].
  - apply empty_fits. by rewrite si_max_bytes0.
  - intros f s Hf. by apply not_elem_of_nil in Hf.
Qed.

Lemma await_all_inv (ds : DStream.t) : stream_inv ds -> stream_inv (await_all ds).
Proof. apply with_subscribers_inv. Qed.

Lemma push_pending_inv (ds ds' : DStream.t) (batch : PendingUpstreamBatch.t) :
  stream_inv ds -> DStream.snapshots ds = [] -> PendingUpstreamBatch.events batch <> [] ->
  push_pending ds batch = (ds', false) -> stream_inv ds'.
Proof.
  intros [] Hsnap Hne Hp. pose proof (push_pending_keeps ds batch si_pending0 Hne) as Hs. rewrite Hp in Hs.
  destruct Hs as ([Hid He Hn Hs Hb _ _] & Hx & _ & _ & [Hover _] & _).
  split; rewrite ?Hid, ?He, ?Hn, ?Hs, ?Hb; try done.
  - eapply Forall_impl; [eassumption|]. intros f []; split; congruence.
  - by apply pending_over_false, Hover.
Qed.

(** A new frame takes the next number and goes into the window. *)
Lemma insert_frame_inv (now : Z) (ds : DStream.t) (frame : Frame.t) :
  stream_inv ds -> wf_frame frame -> seq_of frame = DStream.next_seq ds ->
  Envelope.stream_id (Frame.env frame) = DStream.stream_id ds ->
  Envelope.stream_epoch (Frame.env frame) = DStream.epoch ds ->
  stream_inv (DStream.with_buffer (insert now (DStream.buffer ds) frame).1
                (DStream.with_next_seq (DStream.next_seq ds + 1) ds)).
Proof.
  intros Hinv Hwf Hseq Hid Hep.
  pose proof (insert_keeps now (DStream.buffer ds) frame (si_buffer ds Hinv) Hwf) as Hk.
  rewrite (si_max_bytes ds Hinv) in Hk. specialize (Hk ltac:(done)).
  pose proof (insert_limits now (DStream.buffer ds) frame) as [Hme Hmb].
  pose proof (insert_headers now (DStream.buffer ds) frame) as Hh.
  pose proof (insert_seqs now (DStream.buffer ds) frame) as Hs.
  destruct (insert now (DStream.buffer ds) frame) as [b' outcome]. simpl in *. destruct Hk as (Hb & Hfit & _).
  assert (Hof : forall f, f ∈ StreamBuffer.items b' ->
    header f = header frame \/ exists f0, f0 ∈ StreamBuffer.items (DStream.buffer ds) /\ header f = header f0).
  { intros f Hf. apply (list_elem_of_fmap_2 header) in Hf.
    apply (sublist_subseteq _ _ Hh) in Hf. apply elem_of_app in Hf as [Hf|Hf].
    - apply list_elem_of_fmap in Hf as (f0 & Hf0 & ?). eauto.
    - left. by apply list_elem_of_singleton in Hf. }
  destruct Hinv. rewrite Forall_forall in si_frames0.
  assert (Hframes : forall f, f ∈ DStream.snapshots ds ++ StreamBuffer.items b' ->
    Envelope.stream_id (Frame.env f) = DStream.stream_id ds /\
    Envelope.stream_epoch (Frame.env f) = DStream.epoch ds /\ 1 <= seq_of f < DStream.next_seq ds + 1).
  { intros f [Hf|Hf]%elem_of_app.
    - destruct (si_frames0 f) as [? ? ?]; [set_solver|]. split_and!; try done; lia.
    - destruct (Hof f Hf) as [Hhf|(f0 & Hin & Hhf)]; unfold header in Hhf; simplify_eq.
      + split_and!; congruence || lia.
      + destruct (si_frames0 f0) as [? ? ?]; [set_solver|]. split_and!; congruence || lia. }
  split; simpl; try done; try lia; try congruence.
  - eapply sublist_strongly_sorted; [exact Hs|]. apply StronglySorted_app_2; [|done|repeat constructor].
    intros x y (f & -> & Hf)%list_elem_of_fmap ->%list_elem_of_singleton.
    pose proof (ot_seq _ _ (si_frames0 f ltac:(set_solver))). lia.
  - intros f s Hf Hsn. destruct (Hof f Hf) as [Hhf|(f0 & Hin & Hhf)]; apply (f_equal snd) in Hhf; simpl in Hhf; rewrite Hhf.
    + pose proof (ot_seq _ _ (si_frames0 s ltac:(set_solver))). lia.
    + by apply si_distinct0.
  - apply Forall_forall. intros f Hf. destruct (Hframes f Hf) as (? & ? & ?). by split.
  - destruct si_pending0. by split.
Qed.

Lemma total_len_sublist (l k : list Frame.t) :
  l `sublist_of` k -> Forall wf_frame k -> total_len l <= total_len k.
Proof.
  induction 1 as [|f l k Hs IH|f l k Hs IH]; intros Hw; [done|..]; apply Forall_cons in Hw as [Hf Hw];
    specialize (IH Hw); rewrite !total_len_cons; [lia|]. pose proof (wf_len f Hf). lia.
Qed.

Lemma retain_uncovered_inv (ds : DStream.t) (device : string) (seq : Z) :
  stream_inv ds -> stream_inv (DStream.with_buffer (retain_uncovered (DStream.buffer ds) device seq).1 ds).
Proof.
  intros []. pose proof (retain_keeps (DStream.buffer ds) device seq si_buffer0) as Hk.
  assert (Hlim : StreamBuffer.max_events (retain_uncovered (DStream.buffer ds) device seq).1 = BUFFER_MAX_EVENTS /\
                 StreamBuffer.max_bytes (retain_uncovered (DStream.buffer ds) device seq).1 = BUFFER_MAX_BYTES) by done.
  destruct (retain_uncovered (DStream.buffer ds) device seq) as [b' removed]. simpl in *.
  destruct Hk as (Hb & Hsub & _ & Hlen). pose proof (sublist_subseteq _ _ Hsub) as Hin.
  split; simpl; try done; try apply Hlim.
  - unfold StreamBuffer.fits in *. destruct Hlim as [-> ->]. rewrite si_max_events0, si_max_bytes0 in si_fits0.
    apply andb_true_iff in si_fits0 as [Hl%Nat.leb_le Hy%Z.leb_le]. apply andb_true_iff.
    rewrite Nat.leb_le, Z.leb_le, (bi_bytes b' Hb).
    pose proof (total_len_sublist _ _ Hsub (bi_wf _ si_buffer0)) as Ht. rewrite <- (bi_bytes _ si_buffer0) in Ht. lia.
  - eapply sublist_strongly_sorted; [apply sublist_map; exact Hsub|done].
  - intros f s Hf. apply si_distinct0. by apply Hin.
  - apply Forall_app in si_frames0 as [Hf1 Hf2]. rewrite Forall_forall in Hf2. apply Forall_app. split.
    + eapply Forall_impl; [exact Hf1|]. intros f []; by split.
    + apply Forall_forall. intros f Hf. destruct (Hf2 f (Hin f Hf)). by split.
  - destruct si_pending0. by split.
Qed.

Lemma cache_snapshot_sublist (ds : DStream.t) (frame : Frame.t) :
  exists kept, DStream.snapshots (cache_snapshot ds frame) = kept ++ [frame] /\
    kept `sublist_of` DStream.snapshots ds /\ (length kept < SNAPSHOT_CACHE_MAX)%nat /\
    Forall (fun s => device_of s <> device_of frame) kept.
Proof.
  unfold cache_snapshot. simpl. set (others := filter _ _). rewrite length_app. simpl.
  exists (drop (length others + 1 - SNAPSHOT_CACHE_MAX) others). unfold SNAPSHOT_CACHE_MAX. split_and!.
  - rewrite skipn_app. f_equal. by replace (length others + 1 - 16 - length others)%nat with O by lia.
  - etrans; [apply sublist_drop|]. apply sublist_filter.
  - rewrite length_drop. lia.
  - apply Forall_drop. apply Forall_forall. intros s Hs. by apply list_elem_of_filter in Hs as [? _].
Qed.

Lemma cache_snapshot_inv (ds : DStream.t) (frame : Frame.t) :
  stream_inv ds -> DStream.pending_batches ds = [] -> seq_of frame = DStream.next_seq ds ->
  Envelope.stream_id (Frame.env frame) = DStream.stream_id ds ->
  Envelope.stream_epoch (Frame.env frame) = DStream.epoch ds ->
  stream_inv (cache_snapshot (DStream.with_next_seq (DStream.next_seq ds + 1) ds) frame).
Proof.
  intros [] Hpend Hseq Hid Hep. rewrite Forall_forall in si_frames0.
  destruct (cache_snapshot_sublist (DStream.with_next_seq (DStream.next_seq ds + 1) ds) frame)
    as (kept & Hk & Hsub & Hlen & Hdev). simpl in Hsub.
  pose proof (sublist_subseteq _ _ Hsub) as Hin.
  assert (Hold : forall f, f ∈ DStream.snapshots ds ++ StreamBuffer.items (DStream.buffer ds) ->
    Envelope.stream_id (Frame.env f) = DStream.stream_id ds /\
    Envelope.stream_epoch (Frame.env f) = DStream.epoch ds /\ 1 <= seq_of f < DStream.next_seq ds).
  { intros f Hf. by destruct (si_frames0 f Hf). }
  split; rewrite ?Hk; simpl; try done; try lia.
  - rewrite seqs_app. apply StronglySorted_app_2; [|by eapply sublist_strongly_sorted; [apply sublist_map|]|repeat constructor].
    intros x y (s & -> & Hs)%list_elem_of_fmap ->%list_elem_of_singleton.
    destruct (Hold s) as (_ & _ & ?); [apply elem_of_app; left; by apply Hin|lia].
  - intros f s Hf [Hs|Hs]%elem_of_app; [apply si_distinct0; [done|by apply Hin]|].
    apply list_elem_of_singleton in Hs as ->. destruct (Hold f) as (_ & _ & ?); [set_solver|lia].
  - apply Forall_forall. intros f Hf.
    assert (f = frame \/ f ∈ DStream.snapshots ds ++ StreamBuffer.items (DStream.buffer ds)) as [->|Hf'] by set_solver.
    + split; simpl; congruence || lia.
    + destruct (Hold f Hf') as (? & ? & ?). split; simpl; congruence || lia.
  - rewrite length_app. simpl. lia.
  - rewrite map_app. apply NoDup_app. split_and!.
    + eapply sublist_NoDup; [exact si_devices0|by apply sublist_map].
    + intros d (s & -> & Hs)%list_elem_of_fmap Hd%list_elem_of_singleton. rewrite Forall_forall in Hdev.
      by apply (Hdev s).
    + apply NoDup_singleton.
  - destruct si_pending0. by split.
Qed.

End Operations.
