(* ===== verification/Hub.v ===== *)
(** * The Relay's hub ([Hub] of [apps/relay/src/realtime/mod.rs])

    The registries of connections, the streams and their routing.  Every method of the code that
    runs under the hub's lock is one function from state to state; a method that takes the lock
    several times is several functions.  The send queues are shared with the tasks that write to
    the browsers' sockets, so they live in a store of their own ([outboxes]) that outlives a
    connection's entry.  Loops over the subscribers of a stream touch one send queue per round
    and are written as one update of all of them; where an order is visible it is the order of
    [map_to_list] for the code's hash-map order. *)

From S2P Require Import Prelude RustStr Messages Buffer Stream.

(** [uuid::Uuid::parse_str]. *)
Class UuidParse := { parse_uuid : string -> option Uuid }.

(** A bounded channel to a Bridge connection. *)
Module Sink.
Record t := mk {
  capacity : nat;
  queued : list (list byte);
  closed : bool;
}.

Definition try_send (bytes : list byte) (s : t) : t * bool :=
  if closed s then (s, false)
  else if (capacity s <=? length (queued s))%nat then (s, false)
  else (mk (capacity s) (queued s ++ [bytes]) false, true).
End Sink.

Module BridgeConn.
Record t := mk {
  device : Uuid;
  owner : Uuid;
  sink : Sink.t;
  close : bool;
}.
End BridgeConn.

Module BrowserIdentity.
Record t := mk {
  auth_session_id : Uuid;
  owner_id : Uuid;
  expires_at : Z;
}.
End BrowserIdentity.

Module PendingCommand.
Record t := mk {
  conn_id : Uuid;
  device : Uuid;
  operation : string;
  started_at : Z;
}.
End PendingCommand.

Module HubInner.
Record t := mk {
  bridges : gmap Uuid BridgeConn.t;
  browsers : gmap Uuid BrowserIdentity.t;
  outboxes : gmap Uuid Outbox.t;
  upstream_index : gmap string DKey;
  streams : gmap DKey DStream.t;
  browser_streams : gmap Uuid (gset DKey);
  commands : gmap string PendingCommand.t;
  queries : gset string;
  degraded_until : option Z;
  shutdown : bool;
}.

Definition with_bridges (x : gmap Uuid BridgeConn.t) (m : t) : t :=
  mk x (browsers m) (outboxes m) (upstream_index m) (streams m) (browser_streams m) (commands m) (queries m) (degraded_until m) (shutdown m).

Definition with_browsers (x : gmap Uuid BrowserIdentity.t) (m : t) : t :=
  mk (bridges m) x (outboxes m) (upstream_index m) (streams m) (browser_streams m) (commands m) (queries m) (degraded_until m) (shutdown m).

Definition with_outboxes (x : gmap Uuid Outbox.t) (m : t) : t :=
  mk (bridges m) (browsers m) x (upstream_index m) (streams m) (browser_streams m) (commands m) (queries m) (degraded_until m) (shutdown m).

Definition with_upstream_index (x : gmap string DKey) (m : t) : t :=
  mk (bridges m) (browsers m) (outboxes m) x (streams m) (browser_streams m) (commands m) (queries m) (degraded_until m) (shutdown m).

Definition with_streams (x : gmap DKey DStream.t) (m : t) : t :=
  mk (bridges m) (browsers m) (outboxes m) (upstream_index m) x (browser_streams m) (commands m) (queries m) (degraded_until m) (shutdown m).

Definition with_browser_streams (x : gmap Uuid (gset DKey)) (m : t) : t :=
  mk (bridges m) (browsers m) (outboxes m) (upstream_index m) (streams m) x (commands m) (queries m) (degraded_until m) (shutdown m).

Definition with_commands (x : gmap string PendingCommand.t) (m : t) : t :=
  mk (bridges m) (browsers m) (outboxes m) (upstream_index m) (streams m) (browser_streams m) x (queries m) (degraded_until m) (shutdown m).

Definition with_queries (x : gset string) (m : t) : t :=
  mk (bridges m) (browsers m) (outboxes m) (upstream_index m) (streams m) (browser_streams m) (commands m) x (degraded_until m) (shutdown m).

Definition with_degraded_until (x : option Z) (m : t) : t :=
  mk (bridges m) (browsers m) (outboxes m) (upstream_index m) (streams m) (browser_streams m) (commands m) (queries m) x (shutdown m).

Definition with_shutdown (x : bool) (m : t) : t :=
  mk (bridges m) (browsers m) (outboxes m) (upstream_index m) (streams m) (browser_streams m) (commands m) (queries m) (degraded_until m) x.

Definition default : t := mk ∅ ∅ ∅ ∅ ∅ ∅ ∅ ∅ None false.
End HubInner.

Section Hub.
Context `{Prost} `{UuidParse}.

Notation Hub := HubInner.t.

Definition registered (g : Hub) (conn_id : Uuid) : bool :=
  bool_decide (is_Some (HubInner.browsers g !! conn_id)).

(** [bc.outbox.push_direct(encode_direct(&env))] for a registered browser. *)
Definition send_to_browser (g : Hub) (conn_id : Uuid) (env : Envelope.t) : Hub :=
  if registered g conn_id
  then HubInner.with_outboxes (alter (fun o => (push_direct o (encode_direct env)).1) conn_id (HubInner.outboxes g)) g
  else g.

Definition on_stream (key : DKey) (f : DStream.t -> DStream.t) (g : Hub) : Hub :=
  HubInner.with_streams (alter f key (HubInner.streams g)) g.

(** ** Browsers *)

Definition register_browser (conn_id : Uuid) (ident : BrowserIdentity.t) (outbox : Outbox.t) (g : Hub) : Hub :=
  HubInner.with_outboxes (<[conn_id := outbox]> (HubInner.outboxes g))
    (HubInner.with_browsers (<[conn_id := ident]> (HubInner.browsers g)) g).

Definition browser_outbox (g : Hub) (conn_id : Uuid) : option Outbox.t :=
  if registered g conn_id then HubInner.outboxes g !! conn_id else None.

Definition browser_identity (g : Hub) (conn_id : Uuid) : option BrowserIdentity.t := HubInner.browsers g !! conn_id.

Definition remove_subscriber (conn_id : Uuid) (ds : DStream.t) : DStream.t :=
  DStream.with_subscribers (delete conn_id (DStream.subscribers ds)) ds.

Definition detach_subscriber (conn_id : Uuid) (g : Hub) : Hub :=
  match HubInner.browser_streams g !! conn_id with
  | None => g
  | Some keys =>
      let g := HubInner.with_browser_streams (delete conn_id (HubInner.browser_streams g)) g in
      foldr (fun key => on_stream key (remove_subscriber conn_id)) g (elements keys)
  end.

Definition close_outbox (conn_id : Uuid) (reason : string) (g : Hub) : Hub :=
  HubInner.with_outboxes (alter (fun o => close o reason) conn_id (HubInner.outboxes g)) g.

Definition close_browser (conn_id : Uuid) (reason : string) (g : Hub) : Hub :=
  if registered g conn_id
  then close_outbox conn_id reason
         (detach_subscriber conn_id (HubInner.with_browsers (delete conn_id (HubInner.browsers g)) g))
  else g.

Definition close_all_browsers (reason : string) (g : Hub) : Hub :=
  foldr (fun conn_id g =>
    close_outbox conn_id reason
      (detach_subscriber conn_id (HubInner.with_browsers (delete conn_id (HubInner.browsers g)) g)))
    g (elements (dom (HubInner.browsers g))).

Definition remove_browser (conn_id : Uuid) (g : Hub) : Hub :=
  detach_subscriber conn_id (HubInner.with_browsers (delete conn_id (HubInner.browsers g)) g).

(** The end of a subscriber that could not take a frame. *)
Definition detach_failed_subscriber (key : DKey) (conn_id : Uuid) (g : Hub) : Hub :=
  let g :=
    match HubInner.streams g !! key with
    | Some ds =>
        let g := on_stream key (remove_subscriber conn_id) g in
        if registered g conn_id
        then close_outbox conn_id "RESYNC_REQUIRED"
               (send_to_browser g conn_id (resync_required_env (DStream.stream_id ds)))
        else g
    | None => g
    end in
  HubInner.with_browser_streams (alter (fun keys => keys ∖ {[key]}) conn_id (HubInner.browser_streams g)) g.

Definition detach_all (key : DKey) (conns : gset Uuid) (g : Hub) : Hub :=
  foldr (detach_failed_subscriber key) g (elements conns).

(** ** Bridges *)

Definition send_to_bridge_locked (g : Hub) (device : Uuid) (env : Envelope.t) : Hub * bool :=
  match HubInner.bridges g !! device with
  | Some conn =>
      let '(sink, ok) := Sink.try_send (encode_direct env) (BridgeConn.sink conn) in
      (HubInner.with_bridges
         (<[device := BridgeConn.mk (BridgeConn.device conn) (BridgeConn.owner conn) sink (BridgeConn.close conn)]>
            (HubInner.bridges g)) g, ok)
  | None => (g, false)
  end.

Definition send_all_to_bridges (envs : list (Uuid * Envelope.t)) (g : Hub) : Hub :=
  foldl (fun g '(device, env) => (send_to_bridge_locked g device env).1) g envs.

(** The entry of [register_bridge]; its second step is [ensure_bindings_for_device]. *)
Definition register_bridge (device owner : Uuid) (sink : Sink.t) (g : Hub) : Hub :=
  HubInner.with_bridges (<[device := BridgeConn.mk device owner sink false]> (HubInner.bridges g)) g.

Definition force_close_bridge (device : Uuid) (g : Hub) : Hub :=
  HubInner.with_bridges
    (alter (fun b => BridgeConn.mk (BridgeConn.device b) (BridgeConn.owner b) (BridgeConn.sink b) true) device
       (HubInner.bridges g)) g.

Definition is_online (g : Hub) (device : Uuid) : bool := bool_decide (is_Some (HubInner.bridges g !! device)).

Definition online_devices_of_owner (g : Hub) (owner : Uuid) : list Uuid :=
  map (fun '(_, b) => BridgeConn.device b)
    (filter (fun '(_, b) => BridgeConn.owner b = owner) (map_to_list (HubInner.bridges g))).

(** [OUTCOME_UNKNOWN] for a command whose end nobody will report. *)
Definition outcome_unknown_env (device : Uuid) (request_id : string) : Envelope.t :=
  base_envelope device
    (CommandResultPayload (CommandResult.mk request_id ReceiptOutcomeUnknown OutcomeUnknown [])).

Definition abandon (pending : list (string * PendingCommand.t)) (g : Hub) : Hub :=
  foldl (fun g '(request_id, p) =>
    send_to_browser g (PendingCommand.conn_id p) (outcome_unknown_env (PendingCommand.device p) request_id))
    g pending.

Definition remove_bridge (device : Uuid) (g : Hub) : Hub * list (string * string) :=
  let prefix := "u-" +:+ device +:+ "-" in
  let dead := filter (fun uid => starts_with uid prefix = true) (dom (HubInner.upstream_index g)) in
  let lost := filter (fun '(_, p) => PendingCommand.device p = device) (map_to_list (HubInner.commands g)) in
  let g := HubInner.with_bridges (delete device (HubInner.bridges g)) g in
  let g := HubInner.with_upstream_index
             (filter (fun '(uid, _) => uid ∉ dead) (HubInner.upstream_index g)) g in
  let g := HubInner.with_streams
             ((fun ds => DStream.with_upstreams (filter (fun '(uid, _) => uid ∉ dead) (DStream.upstreams ds)) ds)
              <$> HubInner.streams g) g in
  let g := HubInner.with_commands
             (filter (fun '(_, p) => PendingCommand.device p <> device) (HubInner.commands g)) g in
  (abandon lost g, map (fun '(id, p) => (id, PendingCommand.operation p)) lost).

(** The subscriptions of an owner that concern a device get a binding to it; returns the
    subscriptions to send upstream. *)
Definition concerns (device owner : Uuid) (key : DKey) : bool :=
  bool_decide (key.1 = owner) &&
  match key.2 with
  | TargetTag.List => true
  | TargetTag.Session d _ _ => bool_decide (d = device)
  end.

Definition bind_upstream (device : Uuid) (tag : TargetTag.t) (key : DKey) (g : Hub) : Hub :=
  let uid := upstream_stream_id device tag in
  HubInner.with_upstream_index (<[uid := key]> (HubInner.upstream_index g))
    (on_stream key (fun ds =>
       DStream.with_upstreams (<[uid := UpstreamBinding.fresh device]> (DStream.upstreams ds)) ds) g).

Definition bound (g : Hub) (key : DKey) (uid : string) : bool :=
  match HubInner.streams g !! key with
  | Some ds => bool_decide (is_Some (DStream.upstreams ds !! uid))
  | None => false
  end.

Definition ensure_bindings_for_device (device owner : Uuid) (g : Hub) : Hub * list Envelope.t :=
  let keys := filter (fun key => concerns device owner key = true) (elements (dom (HubInner.streams g))) in
  foldl (fun '(g, envs) key =>
    if bound g key (upstream_stream_id device key.2) then (g, envs)
    else (bind_upstream device key.2 key g, envs ++ [upstream_subscribe_env device key.2])) (g, []) keys.

(** ** Degradation and shutdown *)

Definition set_degraded (until : option Z) (g : Hub) : Hub := HubInner.with_degraded_until until g.

Definition writes_allowed (now : Z) (g : Hub) : bool :=
  match HubInner.degraded_until g with
  | Some until => now <? until
  | None => true
  end.

Definition begin_shutdown (g : Hub) : Hub * list (string * string) :=
  let pendings := map_to_list (HubInner.commands g) in
  let g := HubInner.with_commands ∅ (HubInner.with_shutdown true g) in
  (abandon pendings g, map (fun '(id, p) => (id, PendingCommand.operation p)) pendings).

(** ** Subscriptions *)

Definition ensure_stream (id : string) (key : DKey) (g : Hub) : Hub :=
  match HubInner.streams g !! key with
  | Some _ => g
  | None => HubInner.with_streams (<[key := DStream.new id]> (HubInner.streams g)) g
  end.

(** One device of [needs_binding]: a new binding, or a new snapshot for a watched session. *)
Definition bind_needed (id : string) (key : DKey) (acc : Hub * list (Uuid * Envelope.t))
    (need : Uuid * TargetTag.t) : Hub * list (Uuid * Envelope.t) :=
  let '(g, envs) := acc in
  let '(device, tag) := need in
  let uid := upstream_stream_id device tag in
  let g := ensure_stream id key g in
  match HubInner.streams g !! key ≫= (fun ds => DStream.upstreams ds !! uid) with
  | None => (bind_upstream device tag key g, envs ++ [(device, upstream_subscribe_env device tag)])
  | Some binding =>
      if TargetTag.is_session key.2 && UpstreamBinding.snapshot_received binding
      then (on_stream key (fun ds =>
              await_all (reset_frames
                (DStream.with_upstreams
                   (<[uid := UpstreamBinding.fresh (UpstreamBinding.device binding)]> (DStream.upstreams ds)) ds))) g,
            envs ++ [(device, upstream_subscribe_env device tag)])
      else (g, envs)
  end.

(** [browser_subscribe], first critical section. *)
Definition browser_subscribe_bind (id : string) (conn_id : Uuid) (key : DKey)
    (needs_binding : list (Uuid * TargetTag.t)) (g : Hub) : Hub :=
  if registered g conn_id
  then let '(g, envs) := foldl (bind_needed id key) (g, []) needs_binding in send_all_to_bridges envs g
  else g.

(** Queue [Subscribed] and the replay; false as soon as the queue refuses. *)
Fixpoint push_frames (o : Outbox.t) (frames : list Frame.t) : Outbox.t * bool :=
  match frames with
  | [] => (o, true)
  | f :: frames =>
      match push_frame o f with
      | (o, Ok _) => push_frames o frames
      | (o, Err _) => (o, false)
      end
  end.

Definition push_replay (ds : DStream.t) (correlation : string) (o : Outbox.t) : Outbox.t * bool :=
  let '(base, frames) := replay ds in
  let subscribed := subscribed_env (DStream.stream_id ds) (DStream.epoch ds) base correlation in
  match push_direct o (encode_direct subscribed) with
  | (o, true) => push_frames o frames
  | (o, false) => (o, false)
  end.

(** Send the replay of a stream to one subscriber. *)
Definition replay_to (key : DKey) (ds : DStream.t) (conn_id : Uuid) (correlation : string) (o : Outbox.t) (g : Hub)
    : Hub :=
  let '(o, ok) := push_replay ds correlation o in
  let g := HubInner.with_outboxes (<[conn_id := o]> (HubInner.outboxes g)) g in
  if ok
  then on_stream key (fun ds =>
         DStream.with_subscribers
           (alter (SubscriberState.set_awaiting false) conn_id (DStream.subscribers ds)) ds) g
  else detach_failed_subscriber key conn_id g.

(** [browser_subscribe], second critical section. *)
Definition browser_subscribe_attach (id : string) (conn_id : Uuid) (key : DKey) (correlation : string) (g : Hub)
    : Hub :=
  match browser_outbox g conn_id with
  | None => g
  | Some outbox =>
      let g := ensure_stream id key g in
      match HubInner.streams g !! key with
      | None => g
      | Some ds =>
          let has_snapshot := negb (bool_decide (DStream.snapshots ds = [])) in
          let acked := match DStream.subscribers ds !! conn_id with
                       | Some s => SubscriberState.acked s | None => 0 end in
          let sub := SubscriberState.mk (negb has_snapshot) acked correlation in
          let g := on_stream key (fun ds =>
                     DStream.with_subscribers (<[conn_id := sub]> (DStream.subscribers ds)) ds) g in
          let g := HubInner.with_browser_streams
                     (<[conn_id := default ∅ (HubInner.browser_streams g !! conn_id) ∪ {[key]}]>
                        (HubInner.browser_streams g)) g in
          if has_snapshot then replay_to key ds conn_id correlation outbox g else g
      end
  end.

Definition find_stream (g : Hub) (stream_id : string) : option (DKey * DStream.t) :=
  head (filter (fun '(_, ds) => DStream.stream_id ds = stream_id) (map_to_list (HubInner.streams g))).

Definition browser_unsubscribe (conn_id : Uuid) (stream_id : string) (g : Hub) : Hub :=
  match find_stream g stream_id with
  | None => g
  | Some (key, _) =>
      let g := on_stream key (remove_subscriber conn_id) g in
      HubInner.with_browser_streams (alter (fun keys => keys ∖ {[key]}) conn_id (HubInner.browser_streams g)) g
  end.

Definition browser_resync (conn_id : Uuid) (stream_id correlation : string) (g : Hub) : Hub :=
  match find_stream g stream_id with
  | None => g
  | Some (key, ds) =>
      match DStream.subscribers ds !! conn_id with
      | None => g
      | Some _ =>
          if TargetTag.is_session key.2 || bool_decide (DStream.snapshots ds = [])
          then let '(ds, envs) := refresh_snapshot_envs key.2 false ds in
               send_all_to_bridges envs (on_stream key (fun _ => ds) g)
          else match browser_outbox g conn_id with
               | None => g
               | Some outbox => replay_to key ds conn_id correlation outbox g
               end
      end
  end.

Definition browser_ack (conn_id : Uuid) (stream_id : string) (sequence : Z) (g : Hub) : Hub :=
  match find_stream g stream_id with
  | None => g
  | Some (key, _) =>
      on_stream key (fun ds =>
        DStream.with_subscribers
          (alter (fun s => SubscriberState.mk (SubscriberState.awaiting_snapshot s)
                             (Z.max (SubscriberState.acked s) sequence)
                             (SubscriberState.subscribe_correlation s)) conn_id (DStream.subscribers ds)) ds) g
  end.

(** ** From the Bridges to the subscribers *)

(** A direct message to every subscriber of a stream. *)
Definition notify_subscribers (g : Hub) (ds : DStream.t) (env : Envelope.t) (outboxes : gmap Uuid Outbox.t)
    : gmap Uuid Outbox.t :=
  map_imap (fun conn_id o =>
    Some (if registered g conn_id && bool_decide (is_Some (DStream.subscribers ds !! conn_id))
          then (push_direct o (encode_direct env)).1 else o)) outboxes.

(** Does the subscriber take live frames? *)
Definition active (g : Hub) (ds : DStream.t) (conn_id : Uuid) : bool :=
  registered g conn_id &&
  match DStream.subscribers ds !! conn_id with
  | Some sub => negb (SubscriberState.awaiting_snapshot sub)
  | None => false
  end.

Definition is_slow (r : res PushError unit) : bool :=
  match r with Err SlowConsumer => true | _ => false end.

(** A frame to every active subscriber, and those whose queue is full. *)
Definition push_live (g : Hub) (ds : DStream.t) (frame : Frame.t) (outboxes : gmap Uuid Outbox.t)
    : gmap Uuid Outbox.t * gset Uuid :=
  (map_imap (fun conn_id o => Some (if active g ds conn_id then (push_frame o frame).1 else o)) outboxes,
   dom (filter (fun '(conn_id, o) => active g ds conn_id && is_slow (push_frame o frame).2 = true) outboxes)).

Definition set_stream (key : DKey) (ds : DStream.t) (g : Hub) : Hub :=
  HubInner.with_streams (<[key := ds]> (HubInner.streams g)) g.

Definition handle_upstream_subscribed (upstream_id : string) (stream_epoch base_sequence : Z) (g : Hub) : Hub :=
  match HubInner.upstream_index g !! upstream_id with
  | None => g
  | Some key =>
      match HubInner.streams g !! key with
      | None => g
      | Some ds =>
          match DStream.upstreams ds !! upstream_id with
          | None => g
          | Some binding =>
              let epoch_changed := UpstreamBinding.snapshot_received binding &&
                                   negb (UpstreamBinding.epoch binding =? stream_epoch) in
              let binding := UpstreamBinding.mk (UpstreamBinding.device binding) stream_epoch
                               (sat_sub base_sequence 1) base_sequence false in
              let ds := DStream.with_upstreams (<[upstream_id := binding]> (DStream.upstreams ds)) ds in
              if negb epoch_changed then set_stream key ds g
              else
                let ds := await_all (reset_frames (DStream.with_epoch (DStream.epoch ds + 1) ds)) in
                let outboxes := notify_subscribers g ds (resync_required_env (DStream.stream_id ds))
                                  (HubInner.outboxes g) in
                let others := filter (fun '(uid, _) => uid <> upstream_id) (map_to_list (DStream.upstreams ds)) in
                let upstreams :=
                  foldr (fun '(_, b) =>
                    alter (fun b => UpstreamBinding.fresh (UpstreamBinding.device b))
                      (upstream_stream_id (UpstreamBinding.device b) key.2)) (DStream.upstreams ds) others in
                let ds := DStream.with_upstreams upstreams ds in
                send_all_to_bridges
                  (map (fun '(_, b) => (UpstreamBinding.device b,
                                        upstream_subscribe_env (UpstreamBinding.device b) key.2)) others)
                  (HubInner.with_outboxes outboxes (set_stream key ds g))
          end
      end
  end.

(** The frame of one event. *)
Definition event_frame (now : Z) (ds : DStream.t) (device : string) (upstream_seq : option Z) (event : Event)
    : Frame.t :=
  let merge_scope := DStream.stream_id ds +:+ "/" +:+ pretty (DStream.epoch ds) +:+ "/" +:+ device in
  let env := Envelope.on_stream (DStream.stream_id ds) (DStream.epoch ds) (DStream.next_seq ds)
               (base_envelope device (EventBatch (DStream.stream_id ds) [Some event])) in
  with_upstream_seq now env (classify event).1 ((fun m => scoped m merge_scope) <$> (classify event).2) upstream_seq.

(** Number, buffer and deliver one event. *)
Definition emit_event (now : Z) (g : Hub) (device : string) (upstream_seq : option Z)
    (acc : DStream.t * gmap Uuid Outbox.t * gset Uuid) (event : Event)
    : DStream.t * gmap Uuid Outbox.t * gset Uuid :=
  let '(ds, outboxes, slow) := acc in
  let frame := event_frame now ds device upstream_seq event in
  let '(buffer, outcome) := insert now (DStream.buffer ds) frame in
  let ds := DStream.with_buffer buffer (DStream.with_next_seq (DStream.next_seq ds + 1) ds) in
  match outcome with
  | OverflowReset =>
      (ds, notify_subscribers g ds (resync_required_env (DStream.stream_id ds)) outboxes, slow)
  | Buffered =>
      let '(outboxes, slow_now) := push_live g ds frame outboxes in
      (ds, outboxes, slow ∪ slow_now)
  end.

Definition agent_kind_name (kind : Z) : string :=
  if kind =? 0 then "AGENT_KIND_UNSPECIFIED"
  else if kind =? 1 then "CODEX_DESKTOP"
  else if kind =? 2 then "ZCODE_DESKTOP"
  else "AGENT_KIND_" +:+ pretty kind.

(** Whom an event concerns: summaries name their session, other events belong to the stream's. *)
Definition event_triggers (key : DKey) (event : Event) : list PushTrigger.t :=
  let target :=
    match event with
    | SessionSummaryChanged s =>
        k ← SessionSummary.session_key s;
        device ← parse_uuid (SessionKey.device_id k);
        Some (device, SessionKey.native_session_id k, agent_kind_name (SessionKey.agent_kind k))
    | _ =>
        match key.2 with
        | TargetTag.Session device agent_kind native => Some (device, native, agent_kind_name agent_kind)
        | TargetTag.List => None
        end
    end in
  match target with
  | Some (device, native, agent_kind) => triggers_from_event key.1 device agent_kind native event
  | None => []
  end.

(** Hold a batch back; when even that is too much, start over with a new snapshot. *)
Definition stash (key : DKey) (ds : DStream.t) (batch : PendingUpstreamBatch.t) (g : Hub) : Hub :=
  match push_pending ds batch with
  | (ds, false) => set_stream key ds g
  | (ds, true) =>
      let outboxes := notify_subscribers g ds (resync_required_env (DStream.stream_id ds)) (HubInner.outboxes g) in
      let '(ds, envs) := refresh_snapshot_envs key.2 true ds in
      send_all_to_bridges envs (HubInner.with_outboxes outboxes (set_stream key ds g))
  end.

Definition fan_out_events (now : Z) (upstream_id device : string) (sequence : Z) (events : list Event) (g : Hub)
    : Hub * list PushTrigger.t :=
  match HubInner.upstream_index g !! upstream_id with
  | None => (g, [])
  | Some key =>
      match HubInner.streams g !! key with
      | None => (g, [])
      | Some ds =>
          match DStream.upstreams ds !! upstream_id with
          | None => (g, [])
          | Some binding =>
              if negb (sequence =? 0) && (sequence <=? UpstreamBinding.last_seq binding) then (g, [])
              else if bool_decide (events = []) then (g, [])
              else if negb (UpstreamBinding.snapshot_received binding) && bool_decide (DStream.snapshots ds = [])
              then (stash key ds (PendingUpstreamBatch.mk upstream_id sequence device events) g, [])
              else
                let ds :=
                  if sequence =? 0 then ds
                  else DStream.with_upstreams
                         (<[upstream_id := UpstreamBinding.with_last_seq sequence binding]> (DStream.upstreams ds)) ds in
                let upstream_seq := if sequence =? 0 then None else Some sequence in
                let '(ds, outboxes, slow) :=
                  foldl (emit_event now g device upstream_seq) (ds, HubInner.outboxes g, ∅) events in
                (detach_all key slow (HubInner.with_outboxes outboxes (set_stream key ds g)),
                 flat_map (event_triggers key) events)
          end
      end
  end.

(** What a subscriber's queue receives when a snapshot arrives. *)
Definition deliver_snapshot (ds : DStream.t) (frame : Frame.t) (sub : SubscriberState.t) (o : Outbox.t)
    : Outbox.t * bool :=
  if SubscriberState.awaiting_snapshot sub
  then push_replay ds (SubscriberState.subscribe_correlation sub) o
  else match push_frame o frame with
       | (o, Ok _) => (o, true)
       | (o, Err _) => (o, false)
       end.

(** A snapshot: numbered, cached, sent; true for a subscriber that has it. *)
Definition snapshot_delivery (g : Hub) (ds : DStream.t) (frame : Frame.t) (conn_id : Uuid) : option (Outbox.t * bool) :=
  sub ← DStream.subscribers ds !! conn_id;
  o ← browser_outbox g conn_id;
  Some (deliver_snapshot ds frame sub o).

Definition apply_snapshot (now : Z) (key : DKey) (ds : DStream.t) (binding : UpstreamBinding.t) (upstream_id : string)
    (env : Envelope.t) (g : Hub) : Hub :=
  let ds := DStream.with_upstreams
              (<[upstream_id := UpstreamBinding.with_received true binding]> (DStream.upstreams ds)) ds in
  let ds := clear_pending ds in
  let ds := DStream.with_buffer
              (retain_uncovered (DStream.buffer ds) (Envelope.device_id env)
                 (UpstreamBinding.snapshot_covers binding)).1 ds in
  let frame := frame_new now
                 (Envelope.on_stream (DStream.stream_id ds) (DStream.epoch ds) (DStream.next_seq ds) env) Critical None in
  let ds := cache_snapshot (DStream.with_next_seq (DStream.next_seq ds + 1) ds) frame in
  let outboxes :=
    map_imap (fun conn_id o => Some (match snapshot_delivery g ds frame conn_id with
                                     | Some (o, _) => o | None => o end)) (HubInner.outboxes g) in
  let subscribers :=
    map_imap (fun conn_id sub => Some (match snapshot_delivery g ds frame conn_id with
                                       | Some (_, true) => SubscriberState.set_awaiting false sub
                                       | _ => sub end)) (DStream.subscribers ds) in
  let to_detach :=
    filter (fun conn_id => match snapshot_delivery g ds frame conn_id with
                           | Some (_, false) => true | _ => false end = true) (dom (DStream.subscribers ds)) in
  detach_all key to_detach
    (HubInner.with_outboxes outboxes (set_stream key (DStream.with_subscribers subscribers ds) g)).

(** The batches held back follow, each filtered by its own upstream's watermark. *)
Definition flush_batch (now : Z) (key : DKey) (acc : Hub * list PushTrigger.t) (batch : PendingUpstreamBatch.t)
    : Hub * list PushTrigger.t :=
  let '(g, triggers) := acc in
  let covered :=
    match HubInner.streams g !! key ≫= (fun ds => DStream.upstreams ds !! PendingUpstreamBatch.upstream_id batch) with
    | Some binding => UpstreamBinding.snapshot_covers binding
    | None => 0
    end in
  let seq := PendingUpstreamBatch.upstream_seq batch in
  if negb (seq =? 0) && (seq <=? covered) then (g, triggers)
  else
    let '(g, more) := fan_out_events now (PendingUpstreamBatch.upstream_id batch)
                        (PendingUpstreamBatch.device_id batch) seq (PendingUpstreamBatch.events batch) g in
    (g, triggers ++ more).

Definition handle_upstream_snapshot (now : Z) (upstream_id : string) (env : Envelope.t) (g : Hub)
    : Hub * list PushTrigger.t :=
  match HubInner.upstream_index g !! upstream_id with
  | None => (g, [])
  | Some key =>
      match HubInner.streams g !! key with
      | None => (g, [])
      | Some ds =>
          match DStream.upstreams ds !! upstream_id with
          | None => (g, [])
          | Some binding =>
              foldl (flush_batch now key) (apply_snapshot now key ds binding upstream_id env g, [])
                (DStream.pending_batches ds)
          end
      end
  end.

(** The Relay's own notice that a device came or went, to one list stream of its owner. *)
Definition presence_frame (now : Z) (ds : DStream.t) (device : Uuid) (online : bool) : Frame.t :=
  let event := DevicePresenceChanged (Some device) (if online then ConnectionOnline else ConnectionOffline) in
  frame_new now
    (Envelope.on_stream (DStream.stream_id ds) (DStream.epoch ds) (DStream.next_seq ds)
       (base_envelope device (EventBatch (DStream.stream_id ds) [Some event]))) Critical None.

Definition all_awaiting (ds : DStream.t) : bool :=
  forallb (fun '(_, s) => SubscriberState.awaiting_snapshot s) (map_to_list (DStream.subscribers ds)).

Definition presence_to (now : Z) (device : Uuid) (online : bool) (g : Hub) (key : DKey) : Hub :=
  match HubInner.streams g !! key with
  | None => g
  | Some ds =>
      if bool_decide (DStream.snapshots ds = []) && all_awaiting ds then g
      else
        let frame := presence_frame now ds device online in
        let ds := DStream.with_buffer (insert now (DStream.buffer ds) frame).1
                    (DStream.with_next_seq (DStream.next_seq ds + 1) ds) in
        let '(outboxes, slow) := push_live g ds frame (HubInner.outboxes g) in
        detach_all key slow (HubInner.with_outboxes outboxes (set_stream key ds g))
  end.

Definition fan_out_presence (now : Z) (device owner : Uuid) (online : bool) (g : Hub) : Hub :=
  foldl (presence_to now device online) g
    (filter (fun key => key.1 = owner /\ key.2 = TargetTag.List) (elements (dom (HubInner.streams g)))).

(** ** Commands and queries *)

Definition register_query (correlation : string) (g : Hub) : Hub :=
  HubInner.with_queries (HubInner.queries g ∪ {[correlation]}) g.

(** [queries.remove] of [device_query]. *)
Definition drop_query (correlation : string) (g : Hub) : Hub :=
  HubInner.with_queries (HubInner.queries g ∖ {[correlation]}) g.

Definition register_command (now : Z) (request_id : string) (conn_id device : Uuid) (operation : string) (g : Hub)
    : Hub :=
  HubInner.with_commands
    (<[request_id := PendingCommand.mk conn_id device operation now]> (HubInner.commands g)) g.

Definition take_command (request_id : string) (g : Hub) : Hub * option PendingCommand.t :=
  (HubInner.with_commands (delete request_id (HubInner.commands g)) g, HubInner.commands g !! request_id).

(** What [on_command_accepted] and [on_command_result] do under the lock; the rows they then
    write to the database are not part of the hub. *)
Definition on_command_accepted (device : Uuid) (accepted : CommandAccepted.t) (g : Hub) : Hub :=
  match HubInner.commands g !! CommandAccepted.request_id accepted with
  | Some p => send_to_browser g (PendingCommand.conn_id p) (base_envelope device (CommandAcceptedPayload accepted))
  | None => g
  end.

Definition terminal (status : Z) : bool :=
  (status =? ReceiptCompleted) || (status =? ReceiptRejected) || (status =? ReceiptOutcomeUnknown).

Definition on_command_result (device : Uuid) (result : CommandResult.t) (g : Hub) : Hub :=
  let id := CommandResult.request_id result in
  match HubInner.commands g !! id with
  | Some p =>
      let g := send_to_browser g (PendingCommand.conn_id p) (base_envelope device (CommandResultPayload result)) in
      if terminal (CommandResult.status result)
      then HubInner.with_commands (delete id (HubInner.commands g)) g
      else g
  | None => g
  end.

(** ** Memory *)

Definition charged (ds : DStream.t) : Z := StreamBuffer.bytes (DStream.buffer ds) + DStream.pending_bytes ds.

Definition drop_unwatched (g : Hub) : Hub :=
  let empty := filter (fun '(_, ds) => DStream.subscribers ds = ∅) (map_to_list (HubInner.streams g)) in
  foldl (fun g '(key, ds) =>
    HubInner.with_upstream_index
      (filter (fun '(uid, _) => DStream.upstreams ds !! uid = None) (HubInner.upstream_index g))
      (HubInner.with_streams (delete key (HubInner.streams g)) g)) g empty.

Definition worst_stream (g : Hub) : option (DKey * Z) :=
  foldl (fun worst '(key, ds) =>
    match worst with
    | Some (_, b) => if b <? charged ds then Some (key, charged ds) else worst
    | None => Some (key, charged ds)
    end) None (map_to_list (HubInner.streams g)).

Definition queued_bytes (g : Hub) : Z :=
  sum_by (fun '(conn_id, _) => match HubInner.outboxes g !! conn_id with Some o => Outbox.bytes o | None => 0 end)
    (map_to_list (HubInner.browsers g)).

Definition sweep_global_memory (g : Hub) : Hub :=
  let g := drop_unwatched g in
  let total := sum_by (fun '(_, ds) => charged ds) (map_to_list (HubInner.streams g)) + queued_bytes g in
  if total <=? GLOBAL_BUFFER_MAX_BYTES then g
  else match worst_stream g with
       | None => g
       | Some (key, _) =>
           match HubInner.streams g !! key with
           | None => g
           | Some ds =>
               HubInner.with_outboxes
                 (notify_subscribers g ds (resync_required_env (DStream.stream_id ds)) (HubInner.outboxes g))
                 (set_stream key (reset_frames ds) g)
           end
       end.

(** ** The messages of a Bridge *)

(** A Bridge asks for a new subscription. *)
Definition bridge_resync_required (device : Uuid) (upstream_id : string) (g : Hub) : Hub :=
  match HubInner.upstream_index g !! upstream_id with
  | None => g
  | Some key =>
      match HubInner.streams g !! key ≫= (fun ds => DStream.upstreams ds !! upstream_id) with
      | None => g
      | Some binding =>
          let g := on_stream key (fun ds =>
                     DStream.with_upstreams
                       (<[upstream_id := UpstreamBinding.with_received false binding]> (DStream.upstreams ds)) ds) g in
          (send_to_bridge_locked g device (upstream_subscribe_env (UpstreamBinding.device binding) key.2)).1
      end
  end.

Definition handle_bridge_envelope (now : Z) (device : Uuid) (env : Envelope.t) (g : Hub)
    : Hub * list PushTrigger.t :=
  let upstream_id := Envelope.stream_id env in
  match Envelope.payload env with
  | Some Heartbeat => ((send_to_bridge_locked g device (base_envelope device HeartbeatAck)).1, [])
  | Some (Subscribed _ stream_epoch base_sequence) =>
      (handle_upstream_subscribed upstream_id stream_epoch base_sequence g, [])
  | Some (RuntimeSnapshot _) => handle_upstream_snapshot now upstream_id env g
  | Some (SessionSummaryBatch snapshot summaries) =>
      if snapshot then handle_upstream_snapshot now upstream_id env g
      else fan_out_events now upstream_id (Envelope.device_id env) (Envelope.sequence env)
             (map SessionSummaryChanged summaries) g
  | Some (EventBatch _ events) =>
      fan_out_events now upstream_id (Envelope.device_id env) (Envelope.sequence env) (omap id events) g
  | Some (CommandAcceptedPayload accepted) => (on_command_accepted device accepted g, [])
  | Some (CommandResultPayload result) => (on_command_result device result g, [])
  | Some (QueryResponse request_id _) =>
      (HubInner.with_queries (HubInner.queries g ∖ {[request_id]}) g, [])
  | Some (ResyncRequired _ _) => (bridge_resync_required device upstream_id g, [])
  | _ => (g, [])
  end.

(** The key and the bindings a browser's [Subscribe] asks for; [owned] is the answer of the
    database, [None] a request that is ignored or refused. *)
Definition subscribe_plan (g : Hub) (ident : BrowserIdentity.t) (target : Target) (owned : bool)
    : option (DKey * list (Uuid * TargetTag.t)) :=
  let owner := BrowserIdentity.owner_id ident in
  match target with
  | ListTarget =>
      Some ((owner, TargetTag.List), map (fun d => (d, TargetTag.List)) (online_devices_of_owner g owner))
  | SessionTarget key =>
      device ← parse_uuid (SessionKey.device_id key);
      if negb owned then None
      else if negb (is_online g device) then None
      else
        let tag := TargetTag.Session device (SessionKey.agent_kind key) (SessionKey.native_session_id key) in
        Some ((owner, tag), [(device, tag)])
  end.

End Hub.
