(* ===== verification/HubProps.v ===== *)
(** * Properties of the hub

    The registries refer to each other consistently in every reachable state, every subscriber
    belongs to the owner of the stream it watches, and every stream keeps its invariant.  The
    transition system of the critical sections is at the end. *)

From S2P Require Import Prelude RustStr Messages Buffer BufferProps Stream StreamProps Hub.

Section Invariant.
Context `{ProstLaws} `{UuidParse}.

Notation Hub := HubInner.t.

Record hub_inv (g : Hub) : Prop := {
  (** every stream keeps its invariant *)
  hi_streams : forall key ds, HubInner.streams g !! key = Some ds -> stream_inv ds;
  (** a subscriber is a registered browser of the stream's owner, and knows it is subscribed *)
  hi_subscribers : forall key ds conn_id,
    HubInner.streams g !! key = Some ds -> is_Some (DStream.subscribers ds !! conn_id) ->
    exists ident keys, HubInner.browsers g !! conn_id = Some ident /\ BrowserIdentity.owner_id ident = key.1 /\
      HubInner.browser_streams g !! conn_id = Some keys /\ key ∈ keys;
  (** .. and nothing else is recorded for it *)
  hi_browser_streams : forall conn_id keys key,
    HubInner.browser_streams g !! conn_id = Some keys -> key ∈ keys ->
    exists ds, HubInner.streams g !! key = Some ds /\ is_Some (DStream.subscribers ds !! conn_id);
  hi_outboxes : forall conn_id, is_Some (HubInner.browsers g !! conn_id) -> is_Some (HubInner.outboxes g !! conn_id);
  (** the routing index leads to a binding *)
  hi_index : forall uid key, HubInner.upstream_index g !! uid = Some key ->
    exists ds, HubInner.streams g !! key = Some ds /\ is_Some (DStream.upstreams ds !! uid);
}.

Lemma default_inv : hub_inv HubInner.default.
Proof.
  split; simpl; intros *; rewrite ?lookup_empty; try done.
Qed.

(** ** Updates of one part of the state *)

Lemma with_outboxes_inv (g : Hub) (outboxes : gmap Uuid Outbox.t) :
  hub_inv g -> (forall conn_id, is_Some (HubInner.outboxes g !! conn_id) -> is_Some (outboxes !! conn_id)) ->
  hub_inv (HubInner.with_outboxes outboxes g).
Proof. intros [] Ho. split; simpl; auto. Qed.

Lemma with_bridges_inv (g : Hub) (bridges : gmap Uuid BridgeConn.t) :
  hub_inv g -> hub_inv (HubInner.with_bridges bridges g).
Proof. intros []. by split. Qed.

Lemma with_commands_inv (g : Hub) (commands : gmap string PendingCommand.t) :
  hub_inv g -> hub_inv (HubInner.with_commands commands g).
Proof. intros []. by split. Qed.

Lemma with_queries_inv (g : Hub) (queries : gset string) : hub_inv g -> hub_inv (HubInner.with_queries queries g).
Proof. intros []. by split. Qed.

Lemma set_stream_inv (g : Hub) (key : DKey) (ds ds' : DStream.t) :
  hub_inv g -> HubInner.streams g !! key = Some ds -> stream_inv ds' ->
  dom (DStream.subscribers ds') = dom (DStream.subscribers ds) ->
  dom (DStream.upstreams ds) ⊆ dom (DStream.upstreams ds') ->
  hub_inv (set_stream key ds' g).
Proof.
  intros [] Hkey Hinv Hsubs Hups.
  assert (Hsub : forall c, is_Some (DStream.subscribers ds' !! c) <-> is_Some (DStream.subscribers ds !! c)).
  { intros c. by rewrite <- !elem_of_dom, Hsubs. }
  split; simpl; try done.
  - intros k d. rewrite lookup_insert_Some. naive_solver.
  - intros k d c. rewrite lookup_insert_Some. intros [[<- <-]|[Hk Hd]] Hc; [|by eapply hi_subscribers0].
    eapply hi_subscribers0; [done|]. by apply Hsub.
  - intros c keys k Hc Hin. destruct (hi_browser_streams0 c keys k Hc Hin) as (d & Hd & Hcd).
    destruct (decide (k = key)) as [->|]; [|exists d; by rewrite lookup_insert_ne].
    exists ds'. rewrite lookup_insert_eq. split; [done|]. simplify_eq. by apply Hsub.
  - intros uid k Hu. destruct (hi_index0 uid k Hu) as (d & Hd & Hud).
    destruct (decide (k = key)) as [->|]; [|exists d; by rewrite lookup_insert_ne].
    exists ds'. rewrite lookup_insert_eq. split; [done|]. simplify_eq. apply elem_of_dom, Hups. by apply elem_of_dom.
Qed.

Lemma on_stream_set (key : DKey) (f : DStream.t -> DStream.t) (g : Hub) (ds : DStream.t) :
  HubInner.streams g !! key = Some ds -> on_stream key f g = set_stream key (f ds) g.
Proof.
  intros Hkey. unfold on_stream, set_stream. f_equal. apply map_eq. intros k.
  destruct (decide (k = key)) as [->|]; [by rewrite lookup_alter_eq, Hkey, lookup_insert_eq|].
  by rewrite lookup_alter_ne, lookup_insert_ne.
Qed.

Lemma on_stream_none (key : DKey) (f : DStream.t -> DStream.t) (g : Hub) :
  HubInner.streams g !! key = None -> on_stream key f g = g.
Proof.
  intros Hkey. unfold on_stream. replace (alter f key (HubInner.streams g)) with (HubInner.streams g); [by destruct g|].
  apply map_eq. intros k. destruct (decide (k = key)) as [->|]; [by rewrite lookup_alter_eq, Hkey|by rewrite lookup_alter_ne].
Qed.

Lemma on_stream_inv (g : Hub) (key : DKey) (f : DStream.t -> DStream.t) :
  hub_inv g ->
  (forall ds, HubInner.streams g !! key = Some ds -> stream_inv ds ->
     stream_inv (f ds) /\ dom (DStream.subscribers (f ds)) = dom (DStream.subscribers ds) /\
     dom (DStream.upstreams ds) ⊆ dom (DStream.upstreams (f ds))) ->
  hub_inv (on_stream key f g).
Proof.
  intros Hg Hf. destruct (HubInner.streams g !! key) as [ds|] eqn:Hkey; [|by rewrite on_stream_none].
  rewrite (on_stream_set key f g ds Hkey). destruct (Hf ds eq_refl) as (? & ? & ?); [by eapply hi_streams|].
  by eapply set_stream_inv.
Qed.

(** ** Sending *)

Lemma send_to_browser_inv (g : Hub) (conn_id : Uuid) (env : Envelope.t) :
  hub_inv g -> hub_inv (send_to_browser g conn_id env).
Proof.
  intros Hg. unfold send_to_browser. case_match; [|done]. apply with_outboxes_inv; [done|].
  intros c Hc. by rewrite lookup_alter_is_Some.
Qed.

Lemma send_to_bridge_inv (g : Hub) (device : Uuid) (env : Envelope.t) :
  hub_inv g -> hub_inv (send_to_bridge_locked g device env).1.
Proof.
  intros Hg. unfold send_to_bridge_locked. case_match; [|done]. case_match. by apply with_bridges_inv.
Qed.

Lemma send_all_inv (envs : list (Uuid * Envelope.t)) (g : Hub) : hub_inv g -> hub_inv (send_all_to_bridges envs g).
Proof.
  unfold send_all_to_bridges. revert g. induction envs as [|[device env] envs IH]; intros g Hg; simpl; [done|].
  by apply IH, send_to_bridge_inv.
Qed.

Lemma abandon_inv (pending : list (string * PendingCommand.t)) (g : Hub) : hub_inv g -> hub_inv (abandon pending g).
Proof.
  unfold abandon. revert g. induction pending as [|[id p] pending IH]; intros g Hg; simpl; [done|].
  by apply IH, send_to_browser_inv.
Qed.

Lemma close_outbox_inv (conn_id : Uuid) (reason : string) (g : Hub) : hub_inv g -> hub_inv (close_outbox conn_id reason g).
Proof.
  intros Hg. apply with_outboxes_inv; [done|]. intros c Hc. by rewrite lookup_alter_is_Some.
Qed.

(** ** Detaching *)

Lemma detach_failed_inv (key : DKey) (conn_id : Uuid) (g : Hub) :
  hub_inv g -> hub_inv (detach_failed_subscriber key conn_id g).
Proof.
  intros Hg. unfold detach_failed_subscriber.
  destruct (HubInner.streams g !! key) as [ds|] eqn:Hkey.
  - rewrite (on_stream_set _ _ _ ds Hkey). set (g1 := set_stream key (remove_subscriber conn_id ds) g).
    set (g2 := if registered g1 conn_id then _ else g1).
    assert (Hs : HubInner.streams g2 = HubInner.streams g1 /\ HubInner.browsers g2 = HubInner.browsers g1 /\
                 HubInner.browser_streams g2 = HubInner.browser_streams g1 /\
                 HubInner.upstream_index g2 = HubInner.upstream_index g1 /\
                 forall c, is_Some (HubInner.outboxes g1 !! c) -> is_Some (HubInner.outboxes g2 !! c)).
    { unfold g2, send_to_browser, close_outbox. case_match; [|done]. simpl. split_and!; try done.
      intros c Hc. by rewrite !lookup_alter_is_Some. }
    clearbody g2. destruct Hs as (Hs & Hb & Hbs & Hi & Ho). destruct Hg. unfold g1 in *. simpl in *.
    split; simpl; rewrite ?Hs, ?Hb, ?Hbs, ?Hi.
    + intros k d [[<- <-]|[Hne Hd]]%lookup_insert_Some; [|by eapply hi_streams0].
      apply with_subscribers_inv. by eapply hi_streams0.
    + intros k d c Hk Hc.
      assert (Hold : exists d0, HubInner.streams g !! k = Some d0 /\ is_Some (DStream.subscribers d0 !! c) /\
                                ~ (k = key /\ c = conn_id)).
      { apply lookup_insert_Some in Hk as [[<- <-]|[Hne Hk]]; [|exists d; naive_solver].
        exists ds. simpl in Hc. apply lookup_delete_is_Some in Hc as [? Hc]. naive_solver. }
      destruct Hold as (d0 & Hk0 & Hc0 & Hn). destruct (hi_subscribers0 k d0 c Hk0 Hc0) as (ident & keys & ? & ? & ? & ?).
      destruct (decide (c = conn_id)) as [->|].
      * exists ident, (keys ∖ {[key]}). rewrite lookup_alter_eq, H4. split_and!; try done. set_solver.
      * exists ident, keys. rewrite lookup_alter_ne by done. done.
    + intros c keys k Hc Hin.
      assert (Hold : exists keys0, HubInner.browser_streams g !! c = Some keys0 /\ k ∈ keys0 /\ ~ (k = key /\ c = conn_id)).
      { apply lookup_alter_Some in Hc as [[<- (keys0 & -> & ->)]|[Hne Hc]]; [exists keys0|exists keys]; set_solver. }
      destruct Hold as (keys0 & Hc0 & Hk0 & Hn). destruct (hi_browser_streams0 c keys0 k Hc0 Hk0) as (d & Hd & Hcd).
      destruct (decide (k = key)) as [->|]; [|exists d; by rewrite lookup_insert_ne].
      exists (remove_subscriber conn_id ds). rewrite lookup_insert_eq. split; [done|]. simplify_eq. simpl.
      apply lookup_delete_is_Some. naive_solver.
    + intros c Hc. by apply Ho, hi_outboxes0.
    + intros uid k Hu. destruct (hi_index0 uid k Hu) as (d & Hd & Hud).
      destruct (decide (k = key)) as [->|]; [|exists d; by rewrite lookup_insert_ne].
      exists (remove_subscriber conn_id ds). rewrite lookup_insert_eq. by simplify_eq.
  - replace (HubInner.with_browser_streams _ g) with g; [done|].
    destruct g as [? ? ? ? ? bs ? ? ? ?]. unfold HubInner.with_browser_streams. simpl in *. f_equal.
    symmetry. apply alter_id. intros keys Hk. apply set_eq. intros k.
    rewrite elem_of_difference, elem_of_singleton. split; [naive_solver|]. intros Hin. split; [done|]. intros ->.
    destruct (hi_browser_streams _ Hg conn_id keys key Hk Hin) as (d & Hd & _). simpl in Hd. congruence.
Qed.

Lemma detach_all_inv (key : DKey) (conns : gset Uuid) (g : Hub) : hub_inv g -> hub_inv (detach_all key conns g).
Proof.
  intros Hg. unfold detach_all. induction (elements conns) as [|c l IH]; simpl; [done|]. by apply detach_failed_inv.
Qed.

(** Removing a browser from the streams it watches. *)
Lemma remove_from_streams (conn_id : Uuid) (keys : list DKey) (g : Hub) :
  let g' := foldr (fun key => on_stream key (remove_subscriber conn_id)) g keys in
  g' = HubInner.with_streams (HubInner.streams g') g /\
  forall key, HubInner.streams g' !! key =
    if decide (key ∈ keys) then remove_subscriber conn_id <$> HubInner.streams g !! key else HubInner.streams g !! key.
Proof.
  simpl. induction keys as [|k keys [IHe IH]]; simpl; [split; [by destruct g|done]|]. split.
  - clear IH. set (F := foldr _ g keys) in *. clearbody F. unfold on_stream, HubInner.with_streams in *. simpl.
    destruct F; simpl in *. by inversion IHe.
  - intros key. destruct (decide (key = k)) as [->|Hne].
    + rewrite lookup_alter_eq, IH, (decide_True (P := k ∈ k :: keys)) by set_solver.
      case_decide; [|done]. destruct (HubInner.streams g !! k) as [ds|]; [|done]. simpl. f_equal.
      unfold remove_subscriber. destruct ds. unfold DStream.with_subscribers. simpl. f_equal. apply delete_delete_eq.
    + rewrite lookup_alter_ne, IH by done. do 2 case_decide; set_solver.
Qed.

Lemma remove_browser_inv (conn_id : Uuid) (g : Hub) : hub_inv g -> hub_inv (remove_browser conn_id g).
Proof.
  intros Hg. unfold remove_browser, detach_subscriber. simpl.
  destruct (HubInner.browser_streams g !! conn_id) as [keys|] eqn:Hkeys.
  - set (g0 := HubInner.with_browser_streams _ _).
    destruct (remove_from_streams conn_id (elements keys) g0) as [He Hlook]. set (g1 := foldr _ g0 (elements keys)) in *.
    clearbody g1. rewrite He. clear He. unfold g0 in *. simpl in *. destruct Hg. split; simpl.
    + intros k d. rewrite Hlook. case_decide; [|by apply hi_streams0].
      intros (d0 & Hd0 & ->)%fmap_Some. apply with_subscribers_inv. by eapply hi_streams0.
    + intros k d c Hk Hc. rewrite Hlook in Hk.
      assert (Hold : c <> conn_id /\ exists d0, HubInner.streams g !! k = Some d0 /\ is_Some (DStream.subscribers d0 !! c)).
      { case_decide as Hin.
        - apply fmap_Some in Hk as (d0 & Hd0 & ->). simpl in Hc. apply lookup_delete_is_Some in Hc as [? Hc]. eauto.
        - split; [|eauto]. intros ->. destruct (hi_subscribers0 k d conn_id Hk Hc) as (? & keys' & _ & _ & Hk' & Hin').
          rewrite Hkeys in Hk'. simplify_eq. by apply Hin, elem_of_elements. }
      destruct Hold as (Hne & d0 & Hd0 & Hc0). destruct (hi_subscribers0 k d0 c Hd0 Hc0) as (ident & keys' & ? & ? & ? & ?).
      exists ident, keys'. by rewrite !lookup_delete_ne.
    + intros c keys' k [Hne Hc]%lookup_delete_Some Hin. destruct (hi_browser_streams0 c keys' k Hc Hin) as (d & Hd & Hcd).
      rewrite Hlook. case_decide; [|eauto]. rewrite Hd. simpl. eexists. split; [done|]. simpl.
      apply lookup_delete_is_Some. naive_solver.
    + intros c [_ Hc]%lookup_delete_is_Some. by apply hi_outboxes0.
    + intros uid k Hu. destruct (hi_index0 uid k Hu) as (d & Hd & Hud). rewrite Hlook.
      case_decide; [|eauto]. rewrite Hd. simpl. eexists. split; [done|]. done.
  - destruct Hg. split; simpl; try done.
    + intros k d c Hk Hc. destruct (hi_subscribers0 k d c Hk Hc) as (ident & keys & ? & ? & ? & ?).
      exists ident, keys. split_and!; try done. rewrite lookup_delete_ne; [done|]. intros ->. congruence.
    + intros c [_ Hc]%lookup_delete_is_Some. by apply hi_outboxes0.
Qed.

Lemma close_browser_inv (conn_id : Uuid) (reason : string) (g : Hub) : hub_inv g -> hub_inv (close_browser conn_id reason g).
Proof. intros Hg. unfold close_browser. case_match; [|done]. by apply close_outbox_inv, remove_browser_inv. Qed.

Lemma close_all_browsers_inv (reason : string) (g : Hub) : hub_inv g -> hub_inv (close_all_browsers reason g).
Proof.
  intros Hg. unfold close_all_browsers. induction (elements _) as [|c l IH]; simpl; [done|].
  by apply close_outbox_inv, (remove_browser_inv c).
Qed.

(** ** Bindings and streams *)

Lemma bind_upstream_inv (device : Uuid) (tag : TargetTag.t) (key : DKey) (g : Hub) :
  hub_inv g -> is_Some (HubInner.streams g !! key) -> hub_inv (bind_upstream device tag key g).
Proof.
  intros Hg [ds Hkey]. unfold bind_upstream. rewrite (on_stream_set _ _ _ ds Hkey).
  set (uid := upstream_stream_id device tag). set (ds' := DStream.with_upstreams _ ds).
  assert (Hs : hub_inv (set_stream key ds' g)).
  { eapply set_stream_inv; [done|done|apply with_upstreams_inv; by eapply hi_streams|done|].
    unfold ds'. simpl. rewrite dom_insert. set_solver. }
  clear Hg. destruct Hs. split; simpl in *; try done.
  intros u k [[<- <-]|[_ Hu]]%lookup_insert_Some; [|by apply hi_index0].
  exists ds'. rewrite lookup_insert_eq. split; [done|]. unfold ds'. simpl. rewrite lookup_insert_eq. eauto.
Qed.

Lemma bind_upstream_streams (device : Uuid) (tag : TargetTag.t) (key k : DKey) (g : Hub) :
  is_Some (HubInner.streams g !! k) -> is_Some (HubInner.streams (bind_upstream device tag key g) !! k).
Proof. intros Hk. unfold bind_upstream, on_stream. simpl. by apply lookup_alter_is_Some. Qed.

Lemma ensure_bindings_inv (device owner : Uuid) (g : Hub) : hub_inv g -> hub_inv (ensure_bindings_for_device device owner g).1.
Proof.
  intros Hg. unfold ensure_bindings_for_device.
  assert (Hkeys : Forall (fun key => is_Some (HubInner.streams g !! key))
    (filter (fun key => concerns device owner key = true) (elements (dom (HubInner.streams g))))).
  { apply Forall_forall. intros k [_ Hk]%list_elem_of_filter. by apply elem_of_elements, elem_of_dom in Hk. }
  set (l := filter (fun key => concerns device owner key = true) (elements (dom (HubInner.streams g)))) in *.
  clearbody l. set (step := fun '(g, envs) key => _).
  assert (Hstep : forall acc k, hub_inv acc.1 -> is_Some (HubInner.streams acc.1 !! k) ->
    hub_inv (step acc k).1 /\ forall k', is_Some (HubInner.streams acc.1 !! k') -> is_Some (HubInner.streams (step acc k).1 !! k')).
  { intros [g0 envs] k Hg0 Hk. unfold step. simpl in *. case_match; [done|].
    split; [by apply bind_upstream_inv|]. intros k'. apply bind_upstream_streams. }
  clearbody step. assert (Hacc : hub_inv (g, @nil Envelope.t).1) by done. revert Hacc Hkeys.
  change (HubInner.streams g) with (HubInner.streams (g, @nil Envelope.t).1). generalize (g, @nil Envelope.t). clear g Hg.
  induction l as [|k l IH]; intros acc Hacc Hkeys; simpl; [done|]. apply Forall_cons in Hkeys as [Hk Hkeys].
  destruct (Hstep acc k Hacc Hk) as [Hinv Hmon]. apply IH; [done|].
  eapply Forall_impl; [exact Hkeys|]. intros key. simpl. apply Hmon.
Qed.

Lemma ensure_stream_inv (id : string) (key : DKey) (g : Hub) : hub_inv g -> hub_inv (ensure_stream id key g).
Proof.
  intros Hg. unfold ensure_stream. destruct (HubInner.streams g !! key) eqn:Hkey; [done|].
  assert (Hother : forall k (P : DStream.t -> Prop),
    (exists ds, HubInner.streams g !! k = Some ds /\ P ds) ->
    exists ds, <[key := DStream.new id]> (HubInner.streams g) !! k = Some ds /\ P ds).
  { intros k P (ds & Hk & HP). exists ds. rewrite lookup_insert_ne; [done|congruence]. }
  destruct Hg. split; simpl; try done.
  - intros k d [[<- <-]|[_ Hd]]%lookup_insert_Some; [apply new_inv|by eapply hi_streams0].
  - intros k d c [[<- <-]|[_ Hd]]%lookup_insert_Some; [by intros [? ?]|by apply hi_subscribers0].
  - intros c keys k Hc Hin. by eapply Hother, hi_browser_streams0.
  - intros uid k Hu. by eapply Hother, hi_index0.
Qed.

Lemma ensure_stream_some (id : string) (key : DKey) (g : Hub) : is_Some (HubInner.streams (ensure_stream id key g) !! key).
Proof.
  unfold ensure_stream. destruct (HubInner.streams g !! key) eqn:Hkey; [by rewrite Hkey|].
  simpl. by rewrite lookup_insert_eq.
Qed.

Lemma await_reset_doms (ds : DStream.t) :
  dom (DStream.subscribers (await_all (reset_frames ds))) = dom (DStream.subscribers ds) /\
  DStream.upstreams (await_all (reset_frames ds)) = DStream.upstreams ds.
Proof. split; [|done]. unfold await_all. simpl. by rewrite dom_fmap_L. Qed.

Lemma bind_needed_inv (id : string) (key : DKey) (acc : Hub * list (Uuid * Envelope.t)) (need : Uuid * TargetTag.t) :
  hub_inv acc.1 -> hub_inv (bind_needed id key acc need).1.
Proof.
  destruct acc as [g envs], need as [device tag]. simpl. intros Hg.
  pose proof (ensure_stream_inv id key g Hg) as Hg1. pose proof (ensure_stream_some id key g) as [ds Hkey].
  set (g1 := ensure_stream id key g) in *. clearbody g1. rewrite Hkey. simpl.
  destruct (DStream.upstreams ds !! upstream_stream_id device tag) as [binding|] eqn:Hb;
    [|by apply bind_upstream_inv; [|rewrite Hkey]].
  destruct (TargetTag.is_session key.2 && _); [|done]. simpl. apply on_stream_inv; [done|]. intros d Hd Hinv.
  split_and!.
  - by apply await_all_inv, reset_frames_inv, with_upstreams_inv.
  - by rewrite (proj1 (await_reset_doms _)).
  - rewrite (proj2 (await_reset_doms _)). simpl. rewrite dom_insert. set_solver.
Qed.

Lemma subscribe_bind_inv (id : string) (conn_id : Uuid) (key : DKey) (needs : list (Uuid * TargetTag.t)) (g : Hub) :
  hub_inv g -> hub_inv (browser_subscribe_bind id conn_id key needs g).
Proof.
  intros Hg. unfold browser_subscribe_bind. case_match; [|done].
  assert (Hf : forall needs acc, hub_inv acc.1 -> hub_inv (foldl (bind_needed id key) acc needs).1).
  { intros l. induction l as [|n l IH]; intros acc Ha; simpl; [done|]. by apply IH, bind_needed_inv. }
  specialize (Hf needs (g, []) Hg). destruct (foldl _ _ _) as [g1 envs]. by apply send_all_inv.
Qed.

(** ** Subscribers *)

Lemma with_awaiting_inv (key : DKey) (conn_id : Uuid) (g : Hub) :
  hub_inv g ->
  hub_inv (on_stream key (fun ds => DStream.with_subscribers
             (alter (SubscriberState.set_awaiting false) conn_id (DStream.subscribers ds)) ds) g).
Proof.
  intros Hg. apply on_stream_inv; [done|]. intros ds _ Hinv. split_and!; [by apply with_subscribers_inv| |done].
  simpl. apply dom_alter_L.
Qed.

Lemma replay_to_inv (key : DKey) (ds : DStream.t) (conn_id : Uuid) (correlation : string) (o : Outbox.t) (g : Hub) :
  hub_inv g -> hub_inv (replay_to key ds conn_id correlation o g).
Proof.
  intros Hg. unfold replay_to. destruct (push_replay ds correlation o) as [o' ok].
  assert (Hg1 : hub_inv (HubInner.with_outboxes (<[conn_id := o']> (HubInner.outboxes g)) g)).
  { apply with_outboxes_inv; [done|]. intros c Hc. rewrite lookup_insert_is_Some. destruct (decide (conn_id = c)); auto. }
  destruct ok; [by apply with_awaiting_inv|by apply detach_failed_inv].
Qed.

(** A registered browser of the owner becomes a subscriber. *)
Lemma add_subscriber_inv (key : DKey) (ds : DStream.t) (conn_id : Uuid) (ident : BrowserIdentity.t)
    (sub : SubscriberState.t) (g : Hub) :
  hub_inv g -> HubInner.streams g !! key = Some ds -> HubInner.browsers g !! conn_id = Some ident ->
  BrowserIdentity.owner_id ident = key.1 ->
  hub_inv (HubInner.with_browser_streams
    (<[conn_id := default ∅ (HubInner.browser_streams g !! conn_id) ∪ {[key]}]> (HubInner.browser_streams g))
    (set_stream key (DStream.with_subscribers (<[conn_id := sub]> (DStream.subscribers ds)) ds) g)).
Proof.
  intros Hg Hkey Hid Hown. destruct Hg. split; simpl.
  - intros k d [[<- <-]|[_ Hd]]%lookup_insert_Some; [apply with_subscribers_inv|]; by eapply hi_streams0.
  - intros k d c Hk Hc.
    destruct (decide (c = conn_id)) as [->|Hc'].
    + exists ident, (default ∅ (HubInner.browser_streams g !! conn_id) ∪ {[key]}). rewrite lookup_insert_eq. split; [done|].
      apply lookup_insert_Some in Hk as [[<- <-]|[Hne Hk]]; [split_and!; [congruence|done|set_solver]|].
      destruct (hi_subscribers0 k d conn_id Hk Hc) as (ident' & keys & Hb & Ho & Hks & Hin).
      split_and!; [congruence|done|rewrite Hks; set_solver].
    + assert (exists d0, HubInner.streams g !! k = Some d0 /\ is_Some (DStream.subscribers d0 !! c)) as (d0 & Hd0 & Hc0).
      { apply lookup_insert_Some in Hk as [[<- <-]|[Hne Hk]]; [|eauto]. simpl in Hc.
        rewrite lookup_insert_ne in Hc by done. eauto. }
      destruct (hi_subscribers0 k d0 c Hd0 Hc0) as (ident' & keys & ? & ? & ? & ?). exists ident', keys.
      by rewrite lookup_insert_ne.
  - intros c keys k Hc Hin.
    destruct (decide (k = key /\ c = conn_id)) as [[-> ->]|Hn].
    + eexists. rewrite lookup_insert_eq. split; [done|]. simpl. by rewrite lookup_insert_eq.
    + assert (exists keys0, HubInner.browser_streams g !! c = Some keys0 /\ k ∈ keys0) as (keys0 & Hc0 & Hk0).
      { apply lookup_insert_Some in Hc as [[<- <-]|[Hne Hc]]; [|eauto].
        destruct (HubInner.browser_streams g !! conn_id) as [keys0|]; simpl in Hin; [exists keys0|]; set_solver. }
      destruct (hi_browser_streams0 c keys0 k Hc0 Hk0) as (d & Hd & Hcd).
      destruct (decide (k = key)) as [->|]; [|exists d; by rewrite lookup_insert_ne].
      eexists. rewrite lookup_insert_eq. split; [done|]. simplify_eq. simpl.
      rewrite lookup_insert_ne by naive_solver. done.
  - done.
  - intros uid k Hu. destruct (hi_index0 uid k Hu) as (d & Hd & Hud).
    destruct (decide (k = key)) as [->|]; [|exists d; by rewrite lookup_insert_ne].
    eexists. rewrite lookup_insert_eq. split; [done|]. simplify_eq. done.
Qed.

Lemma ensure_stream_browsers (id : string) (key : DKey) (g : Hub) :
  HubInner.browsers (ensure_stream id key g) = HubInner.browsers g /\
  HubInner.browser_streams (ensure_stream id key g) = HubInner.browser_streams g.
Proof. unfold ensure_stream. by case_match. Qed.

Lemma subscribe_attach_inv (id : string) (conn_id : Uuid) (key : DKey) (correlation : string) (g : Hub) :
  hub_inv g ->
  (forall ident, HubInner.browsers g !! conn_id = Some ident -> BrowserIdentity.owner_id ident = key.1) ->
  hub_inv (browser_subscribe_attach id conn_id key correlation g).
Proof.
  intros Hg Hown. unfold browser_subscribe_attach. destruct (browser_outbox g conn_id) as [outbox|] eqn:Ho; [|done].
  unfold browser_outbox, registered in Ho. case_bool_decide as Hreg; [|done]. destruct Hreg as [ident Hid].
  pose proof (ensure_stream_inv id key g Hg) as Hg1. pose proof (ensure_stream_some id key g) as [ds Hkey].
  destruct (ensure_stream_browsers id key g) as [Hb _]. rewrite <- Hb in Hid.
  specialize (Hown ident). rewrite <- Hb in Hown. specialize (Hown Hid).
  set (g1 := ensure_stream id key g) in *. clearbody g1. cbv zeta. rewrite Hkey, (on_stream_set _ _ _ ds Hkey).
  set (sub := SubscriberState.mk _ _ _).
  pose proof (add_subscriber_inv key ds conn_id ident sub g1 Hg1 Hkey Hid Hown) as Hg2.
  case_match; [by apply replay_to_inv|done].
Qed.

Lemma find_stream_some (g : Hub) (stream_id : string) (key : DKey) (ds : DStream.t) :
  find_stream g stream_id = Some (key, ds) -> HubInner.streams g !! key = Some ds.
Proof.
  unfold find_stream. intros Hf. apply elem_of_map_to_list.
  assert (Hin : (key, ds) ∈ filter (fun '(_, ds) => DStream.stream_id ds = stream_id) (map_to_list (HubInner.streams g))).
  { destruct (filter _ _); simplify_eq/=. set_solver. }
  by apply list_elem_of_filter in Hin as [_ ?].
Qed.

Lemma unsubscribe_is_detach (key : DKey) (conn_id : Uuid) (g : Hub) :
  hub_inv g ->
  hub_inv (HubInner.with_browser_streams (alter (fun keys => keys ∖ {[key]}) conn_id (HubInner.browser_streams g))
             (on_stream key (remove_subscriber conn_id) g)).
Proof.
  (** the same changes as the end of a failed subscriber, without touching its queue *)
  intros Hg. pose proof (detach_failed_inv key conn_id g Hg) as Hd. unfold detach_failed_subscriber in Hd.
  destruct (HubInner.streams g !! key) as [ds|] eqn:Hkey; [|by rewrite on_stream_none].
  destruct Hg as [_ _ _ Ho _]. destruct Hd. unfold send_to_browser, close_outbox in *.
  split; simpl in *; repeat case_match; simpl in *; auto.
Qed.

Lemma unsubscribe_inv (conn_id : Uuid) (stream_id : string) (g : Hub) :
  hub_inv g -> hub_inv (browser_unsubscribe conn_id stream_id g).
Proof.
  intros Hg. unfold browser_unsubscribe. destruct (find_stream g stream_id) as [[key ds]|]; [|done].
  by apply (unsubscribe_is_detach key conn_id g).
Qed.

Lemma refresh_doms (tag : TargetTag.t) (force : bool) (ds : DStream.t) :
  let ds' := (refresh_snapshot_envs tag force ds).1 in
  dom (DStream.subscribers ds') = dom (DStream.subscribers ds) /\
  dom (DStream.upstreams ds') = dom (DStream.upstreams ds).
Proof. simpl. split; [by rewrite dom_fmap_L|by rewrite dom_fmap_L]. Qed.

Lemma refresh_inv (tag : TargetTag.t) (force : bool) (ds : DStream.t) :
  stream_inv ds -> stream_inv (refresh_snapshot_envs tag force ds).1.
Proof. intros Hinv. by apply with_upstreams_inv, await_all_inv, reset_frames_inv. Qed.

Lemma resync_inv (conn_id : Uuid) (stream_id correlation : string) (g : Hub) :
  hub_inv g -> hub_inv (browser_resync conn_id stream_id correlation g).
Proof.
  intros Hg. unfold browser_resync. destruct (find_stream g stream_id) as [[key ds]|] eqn:Hf; [|done].
  apply find_stream_some in Hf. destruct (DStream.subscribers ds !! conn_id); [|done].
  case_match; [|case_match; [by apply replay_to_inv|done]].
  destruct (refresh_doms key.2 false ds) as [Hs Hu].
  pose proof (refresh_inv key.2 false ds (hi_streams g Hg key ds Hf)) as Hinv.
  destruct (refresh_snapshot_envs key.2 false ds) as [ds' envs]. simpl in *.
  apply send_all_inv. rewrite (on_stream_set _ _ _ ds Hf). eapply set_stream_inv; [done|done|done|done|by rewrite Hu].
Qed.

Lemma ack_inv (conn_id : Uuid) (stream_id : string) (sequence : Z) (g : Hub) :
  hub_inv g -> hub_inv (browser_ack conn_id stream_id sequence g).
Proof.
  intros Hg. unfold browser_ack. destruct (find_stream g stream_id) as [[key ds]|]; [|done].
  apply on_stream_inv; [done|]. intros d _ Hinv. split_and!; [by apply with_subscribers_inv| |done].
  simpl. apply dom_alter_L.
Qed.

(** ** From the Bridges *)

Lemma notify_is_some (g : Hub) (ds : DStream.t) (env : Envelope.t) (outboxes : gmap Uuid Outbox.t) (c : Uuid) :
  is_Some (outboxes !! c) -> is_Some (notify_subscribers g ds env outboxes !! c).
Proof. intros [o Ho]. unfold notify_subscribers. rewrite map_lookup_imap, Ho. simpl. eauto. Qed.

Lemma alter_others_dom (others : list (string * UpstreamBinding.t)) (tag : TargetTag.t) (ups : gmap string UpstreamBinding.t) :
  dom (foldr (fun '(_, b) => alter (fun b => UpstreamBinding.fresh (UpstreamBinding.device b))
                               (upstream_stream_id (UpstreamBinding.device b) tag)) ups others) = dom ups.
Proof. induction others as [|[u b] others IH]; simpl; [done|]. by rewrite dom_alter_L. Qed.

Lemma upstream_subscribed_inv (uid : string) (epoch base : Z) (g : Hub) :
  hub_inv g -> hub_inv (handle_upstream_subscribed uid epoch base g).
Proof.
  intros Hg. unfold handle_upstream_subscribed. destruct (HubInner.upstream_index g !! uid) as [key|]; [|done].
  destruct (HubInner.streams g !! key) as [ds|] eqn:Hkey; [|done].
  destruct (DStream.upstreams ds !! uid) as [b|] eqn:Hb; [|done]. cbv zeta.
  pose proof (hi_streams g Hg key ds Hkey) as Hinv.
  set (ds1 := DStream.with_upstreams (<[uid := _]> _) ds).
  assert (Hdom : dom (DStream.upstreams ds) ⊆ dom (DStream.upstreams ds1)) by (simpl; rewrite dom_insert; set_solver).
  case_match; [eapply set_stream_inv; [done|done|by apply with_upstreams_inv|done|done]|].
  apply send_all_inv, with_outboxes_inv; [|intros c; simpl; apply notify_is_some].
  eapply set_stream_inv; [done|done| | |].
  - by apply with_upstreams_inv, await_all_inv, reset_with_epoch_inv, with_upstreams_inv.
  - simpl. by rewrite dom_fmap_L.
  - simpl. rewrite alter_others_dom. simpl. rewrite dom_insert. set_solver.
Qed.

Lemma event_frame_ok (now : Z) (ds : DStream.t) (device : string) (upstream_seq : option Z) (event : Event) :
  let f := event_frame now ds device upstream_seq event in
  wf_frame f /\ seq_of f = DStream.next_seq ds /\ Envelope.stream_id (Frame.env f) = DStream.stream_id ds /\
  Envelope.stream_epoch (Frame.env f) = DStream.epoch ds.
Proof.
  split_and!; try done. unfold event_frame. set (env := Envelope.on_stream _ _ _ _).
  match goal with |- context [scoped _ ?p] =>
    pose proof (hub_frame_wf now env (DStream.stream_id ds) p event upstream_seq eq_refl) as Hw end.
  by destruct (classify event).
Qed.

(** What a run of events does to a stream. *)
Record emitted (ds ds' : DStream.t) (count : Z) : Prop := {
  em_inv : stream_inv ds';
  em_next : DStream.next_seq ds' = DStream.next_seq ds + count;
  em_stream : DStream.stream_id ds' = DStream.stream_id ds;
  em_epoch : DStream.epoch ds' = DStream.epoch ds;
  em_subscribers : DStream.subscribers ds' = DStream.subscribers ds;
  em_upstreams : DStream.upstreams ds' = DStream.upstreams ds;
}.

Lemma emit_event_spec (now : Z) (g : Hub) (device : string) (useq : option Z)
    (ds ds' : DStream.t) (outboxes outboxes' : gmap Uuid Outbox.t) (slow slow' : gset Uuid) (event : Event) :
  stream_inv ds -> emit_event now g device useq (ds, outboxes, slow) event = (ds', outboxes', slow') ->
  emitted ds ds' 1 /\ forall c, is_Some (outboxes !! c) -> is_Some (outboxes' !! c).
Proof.
  intros Hinv. unfold emit_event. set (f := event_frame now ds device useq event).
  destruct (event_frame_ok now ds device useq event) as (Hwf & Hseq & Hid & Hep). fold f in Hwf, Hseq, Hid, Hep.
  pose proof (insert_frame_inv now ds f Hinv Hwf Hseq Hid Hep) as Hnew.
  destruct (insert now (DStream.buffer ds) f) as [b outcome]. simpl in Hnew.
  destruct outcome; simpl; intros [= <- <- <-]; (split; [by split|]); intros c [o Ho].
  - rewrite map_lookup_imap, Ho. simpl. eauto.
  - apply notify_is_some. eauto.
Qed.

Lemma emit_events_spec (now : Z) (g : Hub) (device : string) (useq : option Z) (events : list Event)
    (ds ds' : DStream.t) (outboxes outboxes' : gmap Uuid Outbox.t) (slow slow' : gset Uuid) :
  stream_inv ds -> foldl (emit_event now g device useq) (ds, outboxes, slow) events = (ds', outboxes', slow') ->
  emitted ds ds' (zlen events) /\ forall c, is_Some (outboxes !! c) -> is_Some (outboxes' !! c).
Proof.
  revert ds outboxes slow. induction events as [|e events IH]; intros ds outboxes slow Hinv; cbn [foldl].
  - intros [= <- <- <-]. split; [|done]. split; try done. autorewrite with rust. lia.
  - destruct (emit_event now g device useq (ds, outboxes, slow) e) as [[ds1 outboxes1] slow1] eqn:He. intros Hf.
    destruct (emit_event_spec _ _ _ _ _ _ _ _ _ _ _ Hinv He) as [[] Ho1].
    destruct (IH _ _ _ em_inv0 Hf) as [[] Ho2]. split; [|auto].
    split; try congruence. autorewrite with rust. lia.
Qed.

Lemma stash_inv (key : DKey) (ds : DStream.t) (batch : PendingUpstreamBatch.t) (g : Hub) :
  hub_inv g -> HubInner.streams g !! key = Some ds -> DStream.snapshots ds = [] ->
  PendingUpstreamBatch.events batch <> [] -> hub_inv (stash key ds batch g).
Proof.
  intros Hg Hkey Hsnap Hne. unfold stash. pose proof (hi_streams g Hg key ds Hkey) as Hinv.
  pose proof (push_pending_keeps ds batch (si_pending ds Hinv) Hne) as Hk.
  destruct (push_pending ds batch) as [ds1 over] eqn:Hp. destruct Hk as ([Hid He Hn Hs Hb Hsub Hup] & Hpe & _).
  destruct over.
  - cbv zeta. assert (Hinv1 : stream_inv (refresh_snapshot_envs key.2 true ds1).1).
    { apply with_upstreams_inv, await_all_inv. destruct Hinv.
      split; simpl; rewrite ?Hn, ?Hb; try solve [done|repeat constructor].
      - apply empty_fits. by rewrite si_max_bytes.
      - intros f s Hf. by apply not_elem_of_nil in Hf. }
    destruct (refresh_doms key.2 true ds1) as [Hd1 Hd2].
    destruct (refresh_snapshot_envs key.2 true ds1) as [ds2 envs]. simpl in *.
    apply send_all_inv, with_outboxes_inv; [|intros c; simpl; apply notify_is_some].
    eapply set_stream_inv; [done|done|done|by rewrite Hd1, Hsub|by rewrite Hd2, Hup].
  - eapply set_stream_inv; [done|done|by eapply push_pending_inv|by rewrite Hsub|by rewrite Hup].
Qed.

Lemma fan_out_inv (now : Z) (uid device : string) (sequence : Z) (events : list Event) (g : Hub) :
  hub_inv g -> hub_inv (fan_out_events now uid device sequence events g).1.
Proof.
  intros Hg. unfold fan_out_events. destruct (HubInner.upstream_index g !! uid) as [key|]; [|done].
  destruct (HubInner.streams g !! key) as [ds|] eqn:Hkey; [|done].
  destruct (DStream.upstreams ds !! uid) as [b|] eqn:Hb; [|done].
  case_match; [done|]. case_bool_decide as Hne; [done|].
  destruct (negb _ && bool_decide (DStream.snapshots ds = [])) eqn:Hst.
  { apply andb_true_iff in Hst as [_ Hsn%bool_decide_eq_true]. by apply stash_inv. }
  cbv zeta. set (ds1 := if sequence =? 0 then ds else _).
  assert (Hds1 : stream_inv ds1 /\ DStream.subscribers ds1 = DStream.subscribers ds /\
                 dom (DStream.upstreams ds) ⊆ dom (DStream.upstreams ds1)).
  { pose proof (hi_streams g Hg key ds Hkey). unfold ds1. case_match; [done|].
    split_and!; [by apply with_upstreams_inv|done|]. simpl. rewrite dom_insert. set_solver. }
  destruct Hds1 as (Hinv1 & Hsub1 & Hup1).
  destruct (foldl _ _ _) as [[ds2 outboxes] slow] eqn:Hf. simpl.
  destruct (emit_events_spec _ _ _ _ _ _ _ _ _ _ _ Hinv1 Hf) as [[] Ho].
  apply detach_all_inv, with_outboxes_inv; [|done].
  eapply set_stream_inv; [done|done|done|congruence|by rewrite em_upstreams0].
Qed.

(** The stream after a snapshot has been numbered and cached. *)
Definition snapshot_stream (ds : DStream.t) (binding : UpstreamBinding.t) (uid : string) (env : Envelope.t)
    (now : Z) : DStream.t * Frame.t :=
  let ds := clear_pending (DStream.with_upstreams
              (<[uid := UpstreamBinding.with_received true binding]> (DStream.upstreams ds)) ds) in
  let ds := DStream.with_buffer
              (retain_uncovered (DStream.buffer ds) (Envelope.device_id env) (UpstreamBinding.snapshot_covers binding)).1 ds in
  let frame := frame_new now
                 (Envelope.on_stream (DStream.stream_id ds) (DStream.epoch ds) (DStream.next_seq ds) env) Critical None in
  (cache_snapshot (DStream.with_next_seq (DStream.next_seq ds + 1) ds) frame, frame).

Lemma snapshot_stream_inv (ds : DStream.t) (binding : UpstreamBinding.t) (uid : string) (env : Envelope.t) (now : Z) :
  stream_inv ds -> stream_inv (snapshot_stream ds binding uid env now).1.
Proof.
  intros Hinv. unfold snapshot_stream. cbn [fst]. apply cache_snapshot_inv; try done.
  by apply retain_uncovered_inv, clear_pending_inv, with_upstreams_inv.
Qed.

Lemma apply_snapshot_inv (now : Z) (key : DKey) (ds : DStream.t) (binding : UpstreamBinding.t) (uid : string)
    (env : Envelope.t) (g : Hub) :
  hub_inv g -> HubInner.streams g !! key = Some ds -> hub_inv (apply_snapshot now key ds binding uid env g).
Proof.
  intros Hg Hkey. pose proof (snapshot_stream_inv ds binding uid env now (hi_streams g Hg key ds Hkey)) as Hinv.
  unfold apply_snapshot. unfold snapshot_stream in Hinv. cbv zeta in *. cbn [fst] in Hinv.
  set (ds1 := cache_snapshot _ _) in *. apply detach_all_inv, with_outboxes_inv.
  - eapply set_stream_inv; [done|done|by apply with_subscribers_inv| |].
    + simpl. apply dom_imap_L. intros c. rewrite elem_of_dom. unfold is_Some. simpl. naive_solver.
    + simpl. rewrite dom_insert. set_solver.
  - intros c [o Ho]. simpl in *. rewrite map_lookup_imap, Ho. simpl. eauto.
Qed.

Lemma upstream_snapshot_inv (now : Z) (uid : string) (env : Envelope.t) (g : Hub) :
  hub_inv g -> hub_inv (handle_upstream_snapshot now uid env g).1.
Proof.
  intros Hg. unfold handle_upstream_snapshot. destruct (HubInner.upstream_index g !! uid) as [key|]; [|done].
  destruct (HubInner.streams g !! key) as [ds|] eqn:Hkey; [|done].
  destruct (DStream.upstreams ds !! uid) as [b|]; [|done].
  assert (Hacc : hub_inv (apply_snapshot now key ds b uid env g, @nil PushTrigger.t).1) by (by apply apply_snapshot_inv).
  revert Hacc. generalize (apply_snapshot now key ds b uid env g, @nil PushTrigger.t).
  induction (DStream.pending_batches ds) as [|batch l IH]; intros acc Hacc; simpl; [done|]. apply IH.
  destruct acc as [g1 triggers]. unfold flush_batch. case_match; [done|].
  pose proof (fan_out_inv now (PendingUpstreamBatch.upstream_id batch) (PendingUpstreamBatch.device_id batch)
    (PendingUpstreamBatch.upstream_seq batch) (PendingUpstreamBatch.events batch) g1 Hacc) as Hf.
  by destruct (fan_out_events _ _ _ _ _ _).
Qed.

Lemma presence_to_inv (now : Z) (device : Uuid) (online : bool) (g : Hub) (key : DKey) :
  hub_inv g -> hub_inv (presence_to now device online g key).
Proof.
  intros Hg. unfold presence_to. destruct (HubInner.streams g !! key) as [ds|] eqn:Hkey; [|done].
  case_match; [done|]. cbv zeta. pose proof (hi_streams g Hg key ds Hkey) as Hinv.
  simpl. apply detach_all_inv, with_outboxes_inv.
  - eapply set_stream_inv; [done|done| |done|done]. apply insert_frame_inv; try done. apply plain_frame_wf.
  - intros c [o Ho]. simpl in *. rewrite map_lookup_imap, Ho. simpl. eauto.
Qed.

Lemma presence_inv (now : Z) (device owner : Uuid) (online : bool) (g : Hub) :
  hub_inv g -> hub_inv (fan_out_presence now device owner online g).
Proof.
  intros Hg. unfold fan_out_presence. set (l := filter _ _). clearbody l. revert g Hg.
  induction l as [|key l IH]; intros g Hg; simpl; [done|]. by apply IH, presence_to_inv.
Qed.

Lemma remove_bridge_inv (device : Uuid) (g : Hub) : hub_inv g -> hub_inv (remove_bridge device g).1.
Proof.
  intros Hg. unfold remove_bridge. cbn [fst]. apply abandon_inv, with_commands_inv.
  set (dead := filter _ _). clearbody dead. destruct Hg. split; simpl; try done.
  - intros k d Hd. apply lookup_fmap_Some in Hd as (d0 & <- & Hd). apply with_upstreams_inv. by eapply hi_streams0.
  - intros k d c Hd Hc. apply lookup_fmap_Some in Hd as (d0 & <- & Hd). by eapply hi_subscribers0.
  - intros c keys k Hc Hin. destruct (hi_browser_streams0 c keys k Hc Hin) as (d & Hd & Hcd).
    eexists. rewrite lookup_fmap, Hd. by split.
  - intros uid k [Hu Hdead]%map_lookup_filter_Some. destruct (hi_index0 uid k Hu) as (d & Hd & [b Hb]).
    eexists. rewrite lookup_fmap, Hd. split; [done|]. simpl. exists b. by apply map_lookup_filter_Some.
Qed.

(** ** Memory *)

Lemma drop_stream_inv (key : DKey) (ds : DStream.t) (g : Hub) :
  hub_inv g -> HubInner.streams g !! key = Some ds -> DStream.subscribers ds = ∅ ->
  hub_inv (HubInner.with_upstream_index
    (filter (fun '(uid, _) => DStream.upstreams ds !! uid = None) (HubInner.upstream_index g))
    (HubInner.with_streams (delete key (HubInner.streams g)) g)).
Proof.
  intros [] Hkey Hempty. split; simpl; try done.
  - intros k d [_ Hd]%lookup_delete_Some. by eapply hi_streams0.
  - intros k d c [_ Hd]%lookup_delete_Some. by apply hi_subscribers0.
  - intros c keys k Hc Hin. destruct (hi_browser_streams0 c keys k Hc Hin) as (d & Hd & Hcd).
    exists d. rewrite lookup_delete_ne; [done|]. intros ->. simplify_eq. rewrite Hempty in Hcd. by destruct Hcd.
  - intros uid k [Hu Hno]%map_lookup_filter_Some. destruct (hi_index0 uid k Hu) as (d & Hd & [b Hb]).
    exists d. rewrite lookup_delete_ne; [eauto|]. intros ->. simplify_eq.
Qed.

Lemma drop_unwatched_inv (g : Hub) : hub_inv g -> hub_inv (drop_unwatched g).
Proof.
  intros Hg. unfold drop_unwatched.
  assert (Hl : forall l g, hub_inv g -> NoDup (map fst l) ->
    Forall (fun '(key, ds) => HubInner.streams g !! key = Some ds /\ DStream.subscribers ds = ∅) l ->
    hub_inv (foldl (fun g '(key, ds) =>
      HubInner.with_upstream_index
        (filter (fun '(uid, _) => DStream.upstreams ds !! uid = None) (HubInner.upstream_index g))
        (HubInner.with_streams (delete key (HubInner.streams g)) g)) g l)).
  { intros l. induction l as [|[key ds] l IH]; intros g0 Hg0 Hnd Hall; simpl; [done|].
    apply NoDup_cons in Hnd as [Hnin Hnd]. apply Forall_cons in Hall as [[Hk He] Hall].
    apply IH; [by apply drop_stream_inv|done|]. simpl. rewrite Forall_forall in Hall |- *.
    intros [k d] Hin. destruct (Hall (k, d) Hin) as [Hk' He']. split; [|done].
    rewrite lookup_delete_ne; [done|]. intros ->. apply Hnin. by apply (list_elem_of_fmap_2 fst) in Hin. }
  apply Hl; [done| |].
  - eapply sublist_NoDup; [apply (NoDup_fst_map_to_list (HubInner.streams g))|]. apply sublist_map, sublist_filter.
  - apply Forall_forall. intros [k d] [He Hin]%list_elem_of_filter. split; [|done]. by apply elem_of_map_to_list.
Qed.

Lemma sweep_inv (g : Hub) : hub_inv g -> hub_inv (sweep_global_memory g).
Proof.
  intros Hg%drop_unwatched_inv. unfold sweep_global_memory. set (g1 := drop_unwatched g) in *. clearbody g1. cbv zeta.
  case_match; [done|]. destruct (worst_stream g1) as [[key n]|]; [|done].
  destruct (HubInner.streams g1 !! key) as [ds|] eqn:Hkey; [|done].
  apply with_outboxes_inv; [|intros c; simpl; apply notify_is_some].
  eapply set_stream_inv; [done|done| |done|done]. apply reset_frames_inv. by eapply hi_streams.
Qed.

(** ** Messages *)

Lemma on_command_result_inv (device : Uuid) (result : CommandResult.t) (g : Hub) :
  hub_inv g -> hub_inv (on_command_result device result g).
Proof.
  intros Hg. unfold on_command_result. case_match; [|done]. pose proof (send_to_browser_inv g (PendingCommand.conn_id t)
    (base_envelope device (CommandResultPayload result)) Hg). case_match; [by apply with_commands_inv|done].
Qed.

Lemma bridge_resync_inv (device : Uuid) (uid : string) (g : Hub) :
  hub_inv g -> hub_inv (bridge_resync_required device uid g).
Proof.
  intros Hg. unfold bridge_resync_required. case_match; [|done]. case_match; [|done].
  apply send_to_bridge_inv, on_stream_inv; [done|]. intros ds _ Hinv.
  split_and!; [by apply with_upstreams_inv|done|]. simpl. rewrite dom_insert. set_solver.
Qed.

Lemma bridge_envelope_inv (now : Z) (device : Uuid) (env : Envelope.t) (g : Hub) :
  hub_inv g -> hub_inv (handle_bridge_envelope now device env g).1.
Proof.
  intros Hg. unfold handle_bridge_envelope. destruct (Envelope.payload env) as [[]|]; simpl; try done.
  - by apply upstream_subscribed_inv.
  - case_match; [by apply upstream_snapshot_inv|by apply fan_out_inv].
  - by apply upstream_snapshot_inv.
  - by apply fan_out_inv.
  - by apply bridge_resync_inv.
  - by apply with_queries_inv.
  - unfold on_command_accepted. case_match; [by apply send_to_browser_inv|done].
  - by apply on_command_result_inv.
  - by apply send_to_bridge_inv.
Qed.

End Invariant.

(** ** The hub as a transition system *)

(** The critical sections of the code, in any order and from any task. *)
Inductive HubOp :=
| RegisterBrowser (conn_id : Uuid) (ident : BrowserIdentity.t) (outbox : Outbox.t)
| CloseBrowser (conn_id : Uuid) (reason : string)
| CloseAllBrowsers (reason : string)
| RemoveBrowser (conn_id : Uuid)
| RegisterBridge (device owner : Uuid) (sink : Sink.t)
| EnsureBindings (device owner : Uuid)
| ForceCloseBridge (device : Uuid)
| RemoveBridge (device : Uuid)
| SendToBridge (device : Uuid) (env : Envelope.t)
| SubscribeBind (id : string) (conn_id : Uuid) (key : DKey) (needs : list (Uuid * TargetTag.t))
| SubscribeAttach (id : string) (conn_id : Uuid) (key : DKey) (correlation : string)
| UnsubscribeFrom (conn_id : Uuid) (stream_id : string)
| ResyncStream (conn_id : Uuid) (stream_id correlation : string)
| AckSequence (conn_id : Uuid) (stream_id : string) (sequence : Z)
| BridgeEnvelope (device : Uuid) (env : Envelope.t)
| Presence (device owner : Uuid) (online : bool)
| RegisterQuery (correlation : string)
| DropQuery (correlation : string)
| RegisterCommand (request_id : string) (conn_id device : Uuid) (operation : string)
| TakeCommand (request_id : string)
| SetDegraded (until : option Z)
| BeginShutdown
| Sweep
| BrowserWriter (conn_id : Uuid)   (** the socket task of a browser takes an item *)
| BridgeWriter (device : Uuid).    (** the socket task of a Bridge takes a message *)

Section System.
Context `{ProstLaws} `{UuidParse}.

Notation Hub := HubInner.t.

Definition hub_step (now : Z) (op : HubOp) (g : Hub) : Hub :=
  match op with
  | RegisterBrowser conn_id ident outbox => register_browser conn_id ident outbox g
  | CloseBrowser conn_id reason => close_browser conn_id reason g
  | CloseAllBrowsers reason => close_all_browsers reason g
  | RemoveBrowser conn_id => remove_browser conn_id g
  | RegisterBridge device owner sink => register_bridge device owner sink g
  | EnsureBindings device owner => (ensure_bindings_for_device device owner g).1
  | ForceCloseBridge device => force_close_bridge device g
  | RemoveBridge device => (remove_bridge device g).1
  | SendToBridge device env => (send_to_bridge_locked g device env).1
  | SubscribeBind id conn_id key needs => browser_subscribe_bind id conn_id key needs g
  | SubscribeAttach id conn_id key correlation => browser_subscribe_attach id conn_id key correlation g
  | UnsubscribeFrom conn_id stream_id => browser_unsubscribe conn_id stream_id g
  | ResyncStream conn_id stream_id correlation => browser_resync conn_id stream_id correlation g
  | AckSequence conn_id stream_id sequence => browser_ack conn_id stream_id sequence g
  | BridgeEnvelope device env => (handle_bridge_envelope now device env g).1
  | Presence device owner online => fan_out_presence now device owner online g
  | RegisterQuery correlation => register_query correlation g
  | DropQuery correlation => drop_query correlation g
  | RegisterCommand request_id conn_id device operation => register_command now request_id conn_id device operation g
  | TakeCommand request_id => (take_command request_id g).1
  | SetDegraded until => set_degraded until g
  | BeginShutdown => (begin_shutdown g).1
  | Sweep => sweep_global_memory g
  | BrowserWriter conn_id => HubInner.with_outboxes (alter (fun o => (recv o).1) conn_id (HubInner.outboxes g)) g
  | BridgeWriter device =>
      HubInner.with_bridges
        (alter (fun b => BridgeConn.mk (BridgeConn.device b) (BridgeConn.owner b)
                           (Sink.mk (Sink.capacity (BridgeConn.sink b)) (tail (Sink.queued (BridgeConn.sink b)))
                              (Sink.closed (BridgeConn.sink b))) (BridgeConn.close b)) device (HubInner.bridges g)) g
  end.

(** Connection ids are fresh, and a browser subscribes under its own owner - the key of
    [subscribe_plan]. *)
Definition op_ok (g : Hub) (op : HubOp) : Prop :=
  match op with
  | RegisterBrowser conn_id _ _ => HubInner.browsers g !! conn_id = None
  | SubscribeAttach _ conn_id key _ =>
      forall ident, HubInner.browsers g !! conn_id = Some ident -> BrowserIdentity.owner_id ident = key.1
  | _ => True
  end.

Inductive reachable : Hub -> Prop :=
| reach_init : reachable HubInner.default
| reach_step (g : Hub) (now : Z) (op : HubOp) : reachable g -> op_ok g op -> reachable (hub_step now op g).

(** The plan made for a browser's request names the browser's owner. *)
Lemma subscribe_plan_owner (g : Hub) (ident : BrowserIdentity.t) (target : Target) (owned : bool) (key : DKey)
    (needs : list (Uuid * TargetTag.t)) :
  subscribe_plan g ident target owned = Some (key, needs) -> key.1 = BrowserIdentity.owner_id ident.
Proof.
  unfold subscribe_plan. destruct target as [|k]; [by intros [= <- _]|].
  destruct (parse_uuid _) as [device|]; simpl; [|done]. destruct owned; [|done].
  destruct (is_online g device); [|done]. by intros [= <- _].
Qed.

Lemma register_browser_inv (conn_id : Uuid) (ident : BrowserIdentity.t) (outbox : Outbox.t) (g : Hub) :
  hub_inv g -> HubInner.browsers g !! conn_id = None -> hub_inv (register_browser conn_id ident outbox g).
Proof.
  intros [] Hfresh. split; simpl; try done.
  - intros k d c Hk Hc. destruct (hi_subscribers0 k d c Hk Hc) as (i & keys & Hi & ? & ? & ?).
    exists i, keys. rewrite lookup_insert_ne; [done|congruence].
  - intros c Hc. apply lookup_insert_is_Some. apply lookup_insert_is_Some in Hc as [->|[? Hc]]; [by left|].
    right. split; [done|]. by apply hi_outboxes0.
Qed.

Lemma hub_step_inv (now : Z) (op : HubOp) (g : Hub) : hub_inv g -> op_ok g op -> hub_inv (hub_step now op g).
Proof.
  intros Hg Hop. destruct op; simpl in *.
  - by apply register_browser_inv.
  - by apply close_browser_inv.
  - by apply close_all_browsers_inv.
  - by apply remove_browser_inv.
  - by apply with_bridges_inv.
  - by apply ensure_bindings_inv.
  - by apply with_bridges_inv.
  - by apply remove_bridge_inv.
  - by apply send_to_bridge_inv.
  - by apply subscribe_bind_inv.
  - by apply subscribe_attach_inv.
  - by apply unsubscribe_inv.
  - by apply resync_inv.
  - by apply ack_inv.
  - by apply bridge_envelope_inv.
  - by apply presence_inv.
  - by apply with_queries_inv.
  - by apply with_queries_inv.
  - by apply with_commands_inv.
  - by apply with_commands_inv.
  - destruct Hg. by split.
  - apply abandon_inv, with_commands_inv. destruct Hg. by split.
  - by apply sweep_inv.
  - apply with_outboxes_inv; [done|]. intros c Hc. by apply lookup_alter_is_Some.
  - by apply with_bridges_inv.
Qed.

Lemma reachable_inv (g : Hub) : reachable g -> hub_inv g.
Proof. induction 1 as [|g now op Hr IH Hop]; [apply default_inv|by apply hub_step_inv]. Qed.

(** C34. The hub is consistent in every reachable state, whatever the tasks do and in whatever
    order their critical sections interleave: every stream keeps its invariant (strictly
    increasing numbers below the next one, frames of this stream and epoch only, exact byte and
    event counts within the limits, one cached snapshot per device); every subscriber is a
    registered browser of the owner of the stream, and the two directions of the subscription
    record agree; every registered browser has a send queue; and the routing index leads to a
    binding of an existing stream. *)
Theorem hub_invariant (g : Hub) : reachable g -> hub_inv g.
Proof. apply reachable_inv. Qed.

End System.
