(* ===== verification/HubDelivery.v ===== *)
(** * What the subscribers of a stream receive

    An open send queue either takes what is meant for it, in order, or is closed: a subscriber is
    never left with a silent hole. *)

From S2P Require Import Prelude RustStr Messages Buffer BufferProps Stream StreamProps Hub HubProps.

Section Delivery.
Context `{ProstLaws} `{UuidParse}.

Notation Hub := HubInner.t.

(** ** The send queue *)

Lemma push_direct_cases (o : Outbox.t) (bytes : list byte) :
  bytes <> [] ->
  let o' := (push_direct o bytes).1 in
  Outbox.closed o' = true \/ (Outbox.closed o' = false /\ Outbox.items o' = Outbox.items o ++ [OutDirect bytes]).
Proof.
  intros Hne. unfold push_direct, close. destruct (Outbox.closed o) eqn:Hc; [by left|].
  rewrite bool_decide_false by done. case_match; [by left|by right].
Qed.

Lemma push_direct_ok (o o' : Outbox.t) (bytes : list byte) (ok : bool) :
  push_direct o bytes = (o', ok) ->
  if ok then Outbox.closed o' = false /\ Outbox.items o' = Outbox.items o ++ [OutDirect bytes]
  else Outbox.closed o' = true \/ o' = o.
Proof.
  unfold push_direct, close. destruct (Outbox.closed o) eqn:Hc; [intros [= <- <-]; by left|].
  case_bool_decide; [intros [= <- <-]; by right|]. case_match; intros [= <- <-]; [by left|by split].
Qed.

Lemma push_direct_closed (o : Outbox.t) (bytes : list byte) :
  Outbox.closed o = true -> (push_direct o bytes).1 = o.
Proof. unfold push_direct. by intros ->. Qed.

Lemma push_frame_cases (o : Outbox.t) (f : Frame.t) :
  match push_frame o f with
  | (o', Ok _) => Outbox.closed o' = false /\ Outbox.items o' = Outbox.items o ++ [OutFrame f]
  | (o', Err SlowConsumer) => o' = o
  | (o', Err Closed) => o' = o /\ Outbox.closed o = true
  end.
Proof. unfold push_frame. destruct (Outbox.closed o) eqn:Hc; [done|]. by destruct (_ || _). Qed.

Lemma push_frame_closed (o : Outbox.t) (f : Frame.t) : Outbox.closed o = true -> push_frame o f = (o, Err Closed).
Proof. unfold push_frame. by intros ->. Qed.

Lemma close_closed (o : Outbox.t) (reason : string) : Outbox.closed (close o reason) = true.
Proof. unfold close. by destruct (Outbox.closed o) eqn:Hc. Qed.

Lemma push_frames_cases (frames : list Frame.t) (o o' : Outbox.t) (ok : bool) :
  Outbox.closed o = false -> push_frames o frames = (o', ok) ->
  Outbox.closed o' = false /\ (ok = true -> Outbox.items o' = Outbox.items o ++ map OutFrame frames).
Proof.
  revert o. induction frames as [|f frames IH]; intros o Ho; simpl.
  - intros [= <- <-]. by rewrite app_nil_r.
  - pose proof (push_frame_cases o f) as Hc. destruct (push_frame o f) as [o1 [u|[]]].
    + destruct Hc as [Ho1 Hi]. intros Hp. destruct (IH o1 Ho1 Hp) as [? Hit]. split; [done|].
      intros Hok. rewrite (Hit Hok), Hi, <- app_assoc. done.
    + subst o1. by intros [= <- <-].
    + destruct Hc as [_ Hc]. congruence.
Qed.

Lemma push_replay_cases (ds : DStream.t) (correlation : string) (o o' : Outbox.t) (ok : bool) :
  push_replay ds correlation o = (o', ok) -> ok = true ->
  let '(base, frames) := replay ds in
  Outbox.closed o' = false /\
  Outbox.items o' = Outbox.items o ++
    OutDirect (encode_direct (subscribed_env (DStream.stream_id ds) (DStream.epoch ds) base correlation))
    :: map OutFrame frames.
Proof.
  unfold push_replay. destruct (replay ds) as [base frames]. intros Hp ->.
  destruct (push_direct o _) as [o1 []] eqn:Hd; [|done].
  apply push_direct_ok in Hd as [Hc Hi]. destruct (push_frames_cases frames o1 o' true Hc Hp) as [Hc' Hit].
  rewrite (Hit eq_refl), Hi, <- app_assoc. done.
Qed.

(** ** Detaching closes the queue *)

Lemma detach_failed_outbox (key : DKey) (conn_id c : Uuid) (g : Hub) (o : Outbox.t) :
  is_Some (HubInner.streams g !! key) -> HubInner.outboxes g !! c = Some o ->
  let g' := detach_failed_subscriber key conn_id g in
  (if bool_decide (c = conn_id) && registered g c
   then exists o', HubInner.outboxes g' !! c = Some o' /\ Outbox.closed o' = true
   else HubInner.outboxes g' !! c = Some o) /\
  is_Some (HubInner.streams g' !! key) /\ HubInner.browsers g' = HubInner.browsers g.
Proof.
  intros [ds Hkey] Ho. unfold detach_failed_subscriber. rewrite Hkey, (on_stream_set _ _ _ ds Hkey). simpl.
  unfold registered, send_to_browser, close_outbox, registered. simpl.
  destruct (decide (c = conn_id)) as [->|Hne].
  - rewrite (bool_decide_true (conn_id = conn_id)) by done. simpl.
    case_bool_decide; simpl; rewrite lookup_insert_eq; [|done].
    rewrite !lookup_alter_eq, Ho. simpl. split_and!; [|done|done]. eexists. split; [done|]. apply close_closed.
  - rewrite (bool_decide_false (c = conn_id)) by done. simpl.
    case_bool_decide; simpl; rewrite lookup_insert_eq; [|done]. by rewrite !lookup_alter_ne.
Qed.

Lemma detach_list_outbox (key : DKey) (conns : list Uuid) (c : Uuid) (g : Hub) (o : Outbox.t) :
  is_Some (HubInner.streams g !! key) -> HubInner.outboxes g !! c = Some o ->
  let g' := foldr (detach_failed_subscriber key) g conns in
  (exists o', HubInner.outboxes g' !! c = Some o' /\
     (c ∈ conns -> registered g c = true -> Outbox.closed o' = true) /\
     (c ∉ conns -> o' = o) /\ (Outbox.closed o' = true \/ o' = o)) /\
  is_Some (HubInner.streams g' !! key) /\ HubInner.browsers g' = HubInner.browsers g.
Proof.
  intros Hkey Ho. simpl. induction conns as [|d conns (IHo & IHk & IHb)]; simpl.
  - split_and!; try done. exists o. set_solver.
  - destruct IHo as (o1 & Ho1 & Hin & Hout & Hor).
    destruct (detach_failed_outbox key d c _ o1 IHk Ho1) as (Hd & Hk & Hb).
    split_and!; [|done|etrans; [exact Hb|exact IHb]].
    assert (Hreg : registered (foldr (detach_failed_subscriber key) g conns) c = registered g c)
      by (unfold registered; by rewrite IHb).
    rewrite Hreg in Hd. destruct (bool_decide (c = d) && registered g c) eqn:Hdec.
    + destruct Hd as (o2 & Ho2 & Hc2). exists o2. apply andb_true_iff in Hdec as [->%bool_decide_eq_true _].
      split_and!; [done|done|set_solver|by left].
    + exists o1. split_and!; [done| |set_solver|done].
      intros [->|Hc]%elem_of_cons Hr; [|auto]. rewrite bool_decide_true in Hdec by done. simpl in Hdec. congruence.
Qed.

(** ** Events *)

(** The frames of a batch: one per event, with consecutive numbers. *)
Fixpoint event_frames (now : Z) (ds : DStream.t) (device : string) (upstream_seq : option Z) (events : list Event)
    : list Frame.t :=
  match events with
  | [] => []
  | e :: events =>
      event_frame now ds device upstream_seq e ::
      event_frames now (DStream.with_next_seq (DStream.next_seq ds + 1) ds) device upstream_seq events
  end.

Lemma event_frames_ext (now : Z) (ds ds' : DStream.t) (device : string) (useq : option Z) (events : list Event) :
  DStream.stream_id ds' = DStream.stream_id ds -> DStream.epoch ds' = DStream.epoch ds ->
  DStream.next_seq ds' = DStream.next_seq ds ->
  event_frames now ds' device useq events = event_frames now ds device useq events.
Proof.
  revert ds ds'. induction events as [|e events IH]; intros ds ds' Hid Hep Hn; simpl; [done|]. f_equal.
  - unfold event_frame. by rewrite Hid, Hep, Hn.
  - apply IH; simpl; congruence.
Qed.

Lemma event_frames_seqs (now : Z) (ds : DStream.t) (device : string) (useq : option Z) (events : list Event) :
  seqs (event_frames now ds device useq events) = seqZ (DStream.next_seq ds) (zlen events).
Proof.
  revert ds. induction events as [|e events IH]; intros ds; [done|].
  change (seqs (event_frames now ds device useq (e :: events))) with
    (DStream.next_seq ds :: seqs (event_frames now (DStream.with_next_seq (DStream.next_seq ds + 1) ds) device useq events)).
  rewrite IH. autorewrite with rust. rewrite (seqZ_cons _ (zlen events + 1)) by (pose proof (zlen_nonneg events); lia).
  unfold Z.succ, Z.pred. by replace (zlen events + 1 + -1) with (zlen events) by lia.
Qed.

Definition notice (ds : DStream.t) : OutItem := OutDirect (encode_direct (resync_required_env (DStream.stream_id ds))).

(** For every event an active subscriber's queue takes its frame, or the notice to start over. *)
Definition got (ds : DStream.t) (f : Frame.t) (item : OutItem) : Prop := item = OutFrame f \/ item = notice ds.

Definition subscribed (g : Hub) (ds : DStream.t) (c : Uuid) : bool :=
  registered g c && bool_decide (is_Some (DStream.subscribers ds !! c)).

(** How a queue [o] has grown to [o'] for the frames of a stream. *)
Definition grown (g : Hub) (ds : DStream.t) (c : Uuid) (frames : list Frame.t) (o o' : Outbox.t) : Prop :=
  if active g ds c
  then exists items, Outbox.items o' = Outbox.items o ++ items /\ Forall2 (got ds) frames items
  else if subscribed g ds c
  then exists items, Outbox.items o' = Outbox.items o ++ items /\ Forall (eq (notice ds)) items
  else o' = o.

Lemma active_subscribed (g : Hub) (ds : DStream.t) (c : Uuid) : active g ds c = true -> subscribed g ds c = true.
Proof.
  unfold active, subscribed. intros [-> Hs]%andb_true_iff. destruct (DStream.subscribers ds !! c); [|done].
  by rewrite bool_decide_true.
Qed.

Lemma grown_trans (g : Hub) (ds : DStream.t) (c : Uuid) (l k : list Frame.t) (o1 o2 o3 : Outbox.t) :
  grown g ds c l o1 o2 -> grown g ds c k o2 o3 -> grown g ds c (l ++ k) o1 o3.
Proof.
  unfold grown. destruct (active g ds c).
  - intros (i1 & Hi1 & F1) (i2 & Hi2 & F2). exists (i1 ++ i2). rewrite Hi2, Hi1, app_assoc.
    split; [done|]. by apply Forall2_app.
  - destruct (subscribed g ds c); [|congruence].
    intros (i1 & Hi1 & F1) (i2 & Hi2 & F2). exists (i1 ++ i2). rewrite Hi2, Hi1, app_assoc.
    split; [done|]. by apply Forall_app.
Qed.

Lemma emit_event_delivery (now : Z) (g : Hub) (device : string) (useq : option Z) (c : Uuid)
    (ds ds' : DStream.t) (outboxes outboxes' : gmap Uuid Outbox.t) (slow slow' : gset Uuid) (event : Event) (o : Outbox.t) :
  encode_direct (resync_required_env (DStream.stream_id ds)) <> [] -> outboxes !! c = Some o ->
  emit_event now g device useq (ds, outboxes, slow) event = (ds', outboxes', slow') ->
  slow ⊆ slow' /\ (c ∈ slow' -> c ∈ slow \/ active g ds c = true) /\
  exists o', outboxes' !! c = Some o' /\
    (c ∈ slow' \/ Outbox.closed o' = true \/
     (Outbox.closed o = false /\ grown g ds c [event_frame now ds device useq event] o o') \/
     (Outbox.closed o = true /\ o' = o)).
Proof.
  intros Hne Ho. unfold emit_event. set (f := event_frame now ds device useq event).
  destruct (insert now (DStream.buffer ds) f) as [b outcome]. destruct outcome.
  - unfold push_live. intros [= <- <- <-]. set (ds1 := DStream.with_buffer b _).
    change (active g ds1) with (active g ds). split_and!; [set_solver| |].
    + intros [Hs|Hs]%elem_of_union; [by left|right].
      apply elem_of_dom in Hs as [x [_ Hx%andb_true_iff]%map_lookup_filter_Some]. by destruct Hx.
    + rewrite map_lookup_imap, Ho. simpl. eexists. split; [done|].
      destruct (active g ds c) eqn:Hact.
      * destruct (Outbox.closed o) eqn:Hclosed; [right; right; right; by rewrite push_frame_closed|].
        pose proof (push_frame_cases o f) as Hp. destruct (push_frame o f) as [o1 [u|[]]] eqn:Hpush.
        -- right; right; left. split; [done|]. unfold grown. rewrite Hact. destruct Hp as [_ Hi].
           exists [OutFrame f]. split; [done|]. constructor; [by left|constructor].
        -- left. apply elem_of_union_r, elem_of_dom. exists o. apply map_lookup_filter_Some. split; [done|].
           by rewrite Hact, Hpush.
        -- destruct Hp. congruence.
      * right; right. destruct (Outbox.closed o); [by right|left]. split; [done|]. unfold grown. rewrite Hact.
        case_match; [|done]. exists []. by rewrite app_nil_r.
  - intros [= <- <- <-]. split_and!; [done|by left|].
    unfold notify_subscribers. rewrite map_lookup_imap, Ho. simpl. eexists. split; [done|]. right.
    change (registered g c && bool_decide (is_Some (DStream.subscribers ds !! c))) with (subscribed g ds c).
    destruct (subscribed g ds c) eqn:Hsub.
    + destruct (push_direct_cases o (encode_direct (resync_required_env (DStream.stream_id ds))) Hne) as [Hc|[Hc Hi]];
        [by left|]. right. destruct (Outbox.closed o) eqn:Hclosed; [right; by rewrite push_direct_closed|left].
      split; [done|]. unfold grown. rewrite Hsub.
      case_match; exists [notice ds]; (split; [exact Hi|]); constructor; [by right|constructor|done|constructor].
    + right. destruct (Outbox.closed o); [by right|left]. split; [done|]. unfold grown. rewrite Hsub.
      destruct (active g ds c) eqn:Hact; [|done]. apply active_subscribed in Hact. congruence.
Qed.

Lemma emit_events_closed (now : Z) (g : Hub) (device : string) (useq : option Z) (c : Uuid) (events : list Event)
    (ds ds' : DStream.t) (outboxes outboxes' : gmap Uuid Outbox.t) (slow slow' : gset Uuid) (o : Outbox.t) :
  outboxes !! c = Some o -> Outbox.closed o = true ->
  foldl (emit_event now g device useq) (ds, outboxes, slow) events = (ds', outboxes', slow') -> outboxes' !! c = Some o.
Proof.
  intros Ho Hc. revert ds outboxes slow Ho. induction events as [|e events IH]; intros ds outboxes slow Ho; cbn [foldl].
  - by intros [= <- <- <-].
  - destruct (emit_event now g device useq (ds, outboxes, slow) e) as [[ds1 outboxes1] slow1] eqn:He. apply IH.
    unfold emit_event, push_live, notify_subscribers in He.
    destruct (insert _ _ _) as [b []]; injection He as <- <- <-; rewrite map_lookup_imap, Ho; simpl; f_equal; case_match;
      [by rewrite push_frame_closed|done|by rewrite push_direct_closed|done].
Qed.

Lemma emit_events_delivery (now : Z) (g : Hub) (device : string) (useq : option Z) (c : Uuid) (events : list Event)
    (ds ds' : DStream.t) (outboxes outboxes' : gmap Uuid Outbox.t) (slow slow' : gset Uuid) (o : Outbox.t) :
  stream_inv ds -> encode_direct (resync_required_env (DStream.stream_id ds)) <> [] -> outboxes !! c = Some o ->
  foldl (emit_event now g device useq) (ds, outboxes, slow) events = (ds', outboxes', slow') ->
  slow ⊆ slow' /\ (c ∈ slow' -> c ∈ slow \/ active g ds c = true) /\
  exists o', outboxes' !! c = Some o' /\
    (c ∈ slow' \/ Outbox.closed o' = true \/ grown g ds c (event_frames now ds device useq events) o o').
Proof.
  intros Hinv. revert ds Hinv outboxes slow o. induction events as [|e events IH]; intros ds Hinv outboxes slow o Hne Ho; cbn [foldl].
  - intros [= <- <- <-]. split_and!; [done|by left|]. exists o. split; [done|]. right; right. simpl. unfold grown.
    case_match; [exists []; by rewrite app_nil_r|]. case_match; [exists []; by rewrite app_nil_r|done].
  - destruct (emit_event now g device useq (ds, outboxes, slow) e) as [[ds1 outboxes1] slow1] eqn:He. intros Hf.
    destruct (emit_event_spec _ _ _ _ _ _ _ _ _ _ _ Hinv He) as [[Hi1 Hn1 Hid1 Hep1 Hs1 _] _].
    destruct (emit_event_delivery _ _ _ _ c _ _ _ _ _ _ _ o Hne Ho He) as (Hsub1 & Hact1 & o1 & Ho1 & Hc1).
    assert (Hne1 : encode_direct (resync_required_env (DStream.stream_id ds1)) <> []) by (by rewrite Hid1).
    destruct (IH ds1 Hi1 outboxes1 slow1 o1 Hne1 Ho1 Hf) as (Hsub2 & Hact2 & o2 & Ho2 & Hc2).
    assert (Hactive : active g ds1 c = active g ds c) by (unfold active; by rewrite Hs1).
    split_and!; [set_solver|intros Hs; rewrite Hactive in Hact2; destruct (Hact2 Hs); auto|].
    exists o2. split; [done|]. destruct Hc1 as [Hc1|Hc1]; [left; set_solver|].
    destruct Hc2 as [Hc2|[Hc2|Hc2]]; [by left|by right; left|].
    right. assert (Hgrow : grown g ds c (event_frames now ds1 device useq events) o1 o2).
    { unfold grown, got, notice, subscribed in *. by rewrite Hactive, Hid1, Hs1 in Hc2. }
    rewrite (event_frames_ext now (DStream.with_next_seq (DStream.next_seq ds + 1) ds) ds1) in Hgrow by (simpl; congruence).
    destruct Hc1 as [Hc1|[[_ Hc1]|[Hc1 ->]]].
    + left. pose proof (emit_events_closed _ _ _ _ c _ _ _ _ _ _ _ o1 Ho1 Hc1 Hf). congruence.
    + right. by apply (grown_trans g ds c [event_frame now ds device useq e] _ o o1 o2).
    + left. pose proof (emit_events_closed _ _ _ _ c _ _ _ _ _ _ _ o Ho1 Hc1 Hf). congruence.
Qed.

(** The batch is taken: known upstream, not a duplicate, not empty, not held back. *)
Record accepted (g : Hub) (upstream_id : string) (sequence : Z) (events : list Event) (key : DKey) (ds : DStream.t)
    (binding : UpstreamBinding.t) : Prop := {
  ac_index : HubInner.upstream_index g !! upstream_id = Some key;
  ac_stream : HubInner.streams g !! key = Some ds;
  ac_binding : DStream.upstreams ds !! upstream_id = Some binding;
  ac_new : sequence = 0 \/ UpstreamBinding.last_seq binding < sequence;
  ac_events : events <> [];
  ac_ready : UpstreamBinding.snapshot_received binding = true \/ DStream.snapshots ds <> [];
}.

Definition batch_seq (sequence : Z) : option Z := if sequence =? 0 then None else Some sequence.

Lemma detach_failed_stream (key : DKey) (conn_id : Uuid) (g : Hub) (ds : DStream.t) :
  HubInner.streams g !! key = Some ds ->
  HubInner.streams (detach_failed_subscriber key conn_id g) !! key = Some (remove_subscriber conn_id ds).
Proof.
  intros Hkey. unfold detach_failed_subscriber. rewrite Hkey, (on_stream_set _ _ _ ds Hkey).
  unfold send_to_browser, close_outbox. by repeat case_match; simpl; rewrite lookup_insert_eq.
Qed.

Lemma detach_next_seq (key : DKey) (conns : list Uuid) (g : Hub) (ds : DStream.t) :
  HubInner.streams g !! key = Some ds ->
  exists ds', HubInner.streams (foldr (detach_failed_subscriber key) g conns) !! key = Some ds' /\
    DStream.next_seq ds' = DStream.next_seq ds /\
    forall c, c ∉ conns -> DStream.subscribers ds' !! c = DStream.subscribers ds !! c.
Proof.
  intros Hkey. induction conns as [|d conns (ds1 & Hk1 & Hn1 & Hs1)]; simpl; [by eauto|].
  exists (remove_subscriber d ds1). split_and!; [|done|].
  - by apply detach_failed_stream.
  - intros c Hc. simpl. rewrite lookup_delete_ne by set_solver. apply Hs1. set_solver.
Qed.

(** C35. Live delivery has no silent hole.  When the hub takes a batch of events, the stream numbers
    them consecutively from its next number.  The queue of every subscriber that has its snapshot
    then holds, after what it held before, exactly one item per event and in order - the frame
    with the event's number, or the notice that the stream must be read again - and the
    subscriber stays subscribed; or else the queue has been closed.  A subscriber still waiting
    for its snapshot receives no frame at all, only notices; every other queue is untouched. *)
Theorem fan_out_delivers (now : Z) (upstream_id device : string) (sequence : Z) (events : list Event) (g : Hub)
    (key : DKey) (ds : DStream.t) (binding : UpstreamBinding.t) (c : Uuid) (o : Outbox.t) :
  hub_inv g -> accepted g upstream_id sequence events key ds binding ->
  encode_direct (resync_required_env (DStream.stream_id ds)) <> [] ->
  HubInner.outboxes g !! c = Some o ->
  let g' := (fan_out_events now upstream_id device sequence events g).1 in
  let frames := event_frames now ds device (batch_seq sequence) events in
  seqs frames = seqZ (DStream.next_seq ds) (zlen events) /\
  exists ds' o', HubInner.streams g' !! key = Some ds' /\ HubInner.outboxes g' !! c = Some o' /\
    DStream.next_seq ds' = DStream.next_seq ds + zlen events /\
    (Outbox.closed o' = true \/
     (grown g ds c frames o o' /\ DStream.subscribers ds' !! c = DStream.subscribers ds !! c)).
Proof.
  intros Hg [Hix Hkey Hb Hnew Hev Hready] Hne Ho. cbv zeta. split; [apply event_frames_seqs|].
  unfold fan_out_events. rewrite Hix, Hkey, Hb.
  replace (negb (sequence =? 0) && (sequence <=? UpstreamBinding.last_seq binding)) with false
    by (symmetry; apply andb_false_iff; rewrite negb_false_iff, Z.eqb_eq, Z.leb_gt; done).
  rewrite bool_decide_false by done.
  replace (negb (UpstreamBinding.snapshot_received binding) && bool_decide (DStream.snapshots ds = [])) with false
    by (symmetry; apply andb_false_iff; rewrite negb_false_iff, bool_decide_eq_false; done).
  cbv zeta. fold (batch_seq sequence). set (ds1 := if sequence =? 0 then ds else _).
  assert (Hds1 : stream_inv ds1 /\ DStream.subscribers ds1 = DStream.subscribers ds /\
                 DStream.stream_id ds1 = DStream.stream_id ds /\ DStream.epoch ds1 = DStream.epoch ds /\
                 DStream.next_seq ds1 = DStream.next_seq ds).
  { pose proof (hi_streams g Hg key ds Hkey). unfold ds1. case_match; [done|]. by split; [apply with_upstreams_inv|]. }
  clearbody ds1. destruct Hds1 as (Hinv1 & Hsub1 & Hid1 & Hep1 & Hn1).
  destruct (foldl _ _ _) as [[ds2 outboxes] slow] eqn:Hf. cbn [fst].
  destruct (emit_events_spec _ _ _ _ _ _ _ _ _ _ _ Hinv1 Hf) as [[_ Hn2 _ _ Hs2 _] _].
  rewrite <- Hid1 in Hne.
  destruct (emit_events_delivery _ _ _ _ c _ _ _ _ _ _ _ o Hinv1 Hne Ho Hf) as (_ & Hact & o2 & Ho2 & Hc2).
  set (g1 := HubInner.with_outboxes outboxes (set_stream key ds2 g)).
  assert (Hk1 : HubInner.streams g1 !! key = Some ds2) by (unfold g1; simpl; apply lookup_insert_eq).
  destruct (detach_next_seq key (elements slow) g1 ds2 Hk1) as (ds3 & Hk3 & Hn3 & Hs3).
  destruct (detach_list_outbox key (elements slow) c g1 o2 ltac:(eauto) Ho2) as ((o3 & Ho3 & Hin & Hout & Hor) & _ & _).
  exists ds3, o3. split_and!; [done|done|congruence|].
  destruct (decide (c ∈ slow)) as [Hc|Hc].
  - left. apply Hin; [by apply elem_of_elements|]. destruct (Hact Hc) as [?|Ha]; [set_solver|].
    by apply andb_true_iff in Ha as [? _].
  - assert (Hcn : c ∉ elements slow) by (by rewrite elem_of_elements). rewrite (Hout Hcn).
    destruct Hc2 as [?|[?|Hg2]]; [done|by left|right]. split; [|rewrite (Hs3 c Hcn); congruence].
    unfold grown, got, notice, subscribed, active in *. rewrite Hsub1, Hid1 in Hg2.
    by rewrite (event_frames_ext now ds ds1) in Hg2.
Qed.

(** ** Snapshots *)

Lemma apply_snapshot_eq (now : Z) (key : DKey) (ds : DStream.t) (binding : UpstreamBinding.t) (uid : string)
    (env : Envelope.t) (g : Hub) :
  let '(ds1, frame) := snapshot_stream ds binding uid env now in
  apply_snapshot now key ds binding uid env g =
  detach_all key
    (filter (fun c => match snapshot_delivery g ds1 frame c with Some (_, false) => true | _ => false end = true)
       (dom (DStream.subscribers ds1)))
    (HubInner.with_outboxes
       (map_imap (fun c o => Some (match snapshot_delivery g ds1 frame c with Some (o, _) => o | None => o end))
          (HubInner.outboxes g))
       (set_stream key
          (DStream.with_subscribers
             (map_imap (fun c sub => Some (match snapshot_delivery g ds1 frame c with
                                           | Some (_, true) => SubscriberState.set_awaiting false sub
                                           | _ => sub end)) (DStream.subscribers ds1)) ds1) g)).
Proof. done. Qed.

Lemma snapshot_stream_facts (ds : DStream.t) (binding : UpstreamBinding.t) (uid : string) (env : Envelope.t) (now : Z) :
  let '(ds1, frame) := snapshot_stream ds binding uid env now in
  seq_of frame = DStream.next_seq ds /\ DStream.next_seq ds1 = DStream.next_seq ds + 1 /\
  last (DStream.snapshots ds1) = Some frame /\ DStream.subscribers ds1 = DStream.subscribers ds /\
  DStream.stream_id ds1 = DStream.stream_id ds /\ DStream.epoch ds1 = DStream.epoch ds.
Proof.
  unfold snapshot_stream. cbv beta iota zeta. split_and!; try done.
  match goal with |- last (DStream.snapshots (cache_snapshot ?d ?f)) = _ =>
    destruct (cache_snapshot_sublist d f) as (kept & -> & _) end.
  apply last_snoc.
Qed.

(** What a subscriber's queue holds once it has the snapshot. *)
Definition has_snapshot (ds : DStream.t) (frame : Frame.t) (sub : SubscriberState.t) (o o' : Outbox.t) : Prop :=
  if SubscriberState.awaiting_snapshot sub
  then let '(base, frames) := replay ds in
       frame ∈ frames /\
       Outbox.items o' = Outbox.items o ++
         OutDirect (encode_direct (subscribed_env (DStream.stream_id ds) (DStream.epoch ds) base
                      (SubscriberState.subscribe_correlation sub))) :: map OutFrame frames
  else Outbox.items o' = Outbox.items o ++ [OutFrame frame].

Lemma deliver_snapshot_spec (ds : DStream.t) (frame : Frame.t) (sub : SubscriberState.t) (o o' : Outbox.t) :
  stream_inv ds -> last (DStream.snapshots ds) = Some frame ->
  deliver_snapshot ds frame sub o = (o', true) -> has_snapshot ds frame sub o o'.
Proof.
  intros Hinv Hlast. unfold deliver_snapshot, has_snapshot. destruct (SubscriberState.awaiting_snapshot sub).
  - intros Hp. pose proof (push_replay_cases _ _ _ _ _ Hp eq_refl) as Hc.
    pose proof (replay_keeps ds frame Hinv Hlast) as Hr. destruct (replay ds) as [base frames].
    destruct Hr as ([_ _ Hsn _] & _). destruct Hc as [_ Hi]. split; [|done]. apply Hsn. by apply last_Some_elem_of.
  - pose proof (push_frame_cases o frame) as Hc. destruct (push_frame o frame) as [o1 [u|e]]; [|done].
    intros [= <-]. apply Hc.
Qed.

(** A snapshot reaches every subscriber before anything that follows it.  Its frame takes the
    stream's next number and becomes the latest cached snapshot.  The queue of a subscriber that
    was waiting then holds, after what it held before, the announcement of the stream with its
    base and its own correlation id, followed by the whole replay, which contains the snapshot,
    and the subscriber is no longer waiting; the queue of one that was not waiting holds the
    snapshot as its next frame; a queue that could not take them all has been closed. *)
Theorem snapshot_delivers (now : Z) (key : DKey) (ds : DStream.t) (binding : UpstreamBinding.t) (upstream_id : string)
    (env : Envelope.t) (g : Hub) (c : Uuid) (sub : SubscriberState.t) (o : Outbox.t) :
  hub_inv g -> HubInner.streams g !! key = Some ds -> DStream.subscribers ds !! c = Some sub ->
  HubInner.outboxes g !! c = Some o ->
  let g' := apply_snapshot now key ds binding upstream_id env g in
  let '(ds1, frame) := snapshot_stream ds binding upstream_id env now in
  seq_of frame = DStream.next_seq ds /\ last (DStream.snapshots ds1) = Some frame /\
  exists ds' o', HubInner.streams g' !! key = Some ds' /\ HubInner.outboxes g' !! c = Some o' /\
    DStream.next_seq ds' = DStream.next_seq ds + 1 /\
    (Outbox.closed o' = true \/
     (has_snapshot ds1 frame sub o o' /\
      exists sub', DStream.subscribers ds' !! c = Some sub' /\ SubscriberState.awaiting_snapshot sub' = false)).
Proof.
  intros Hg Hkey Hsub Ho. cbv zeta. pose proof (apply_snapshot_eq now key ds binding upstream_id env g) as Heq.
  pose proof (snapshot_stream_facts ds binding upstream_id env now) as Hfacts.
  pose proof (snapshot_stream_inv ds binding upstream_id env now (hi_streams g Hg key ds Hkey)) as Hinv.
  destruct (snapshot_stream ds binding upstream_id env now) as [ds1 frame]. simpl in Hinv. rewrite Heq. clear Heq.
  destruct Hfacts as (Hseq & Hnext & Hlast & Hsubs & Hid & Hep). split_and!; [done|done|].
  set (slow := filter _ _). set (g1 := HubInner.with_outboxes _ _). unfold detach_all.
  destruct (hi_subscribers g Hg key ds c Hkey ltac:(eauto)) as (ident & _ & Hident & _).
  assert (Hreg : registered g c = true) by (unfold registered; rewrite Hident; by apply bool_decide_true).
  assert (Hdel : snapshot_delivery g ds1 frame c = Some (deliver_snapshot ds1 frame sub o)).
  { unfold snapshot_delivery, browser_outbox. rewrite Hsubs, Hsub, Hreg, Ho. done. }
  destruct (deliver_snapshot ds1 frame sub o) as [o1 ok] eqn:Hd.
  assert (Ho1 : HubInner.outboxes g1 !! c = Some o1).
  { unfold g1. simpl. rewrite map_lookup_imap, Ho. simpl. by rewrite Hdel. }
  destruct (detach_next_seq key (elements slow) g1 _ (lookup_insert_eq _ _ _)) as (ds3 & Hk3 & Hn3 & Hs3).
  destruct (detach_list_outbox key (elements slow) c g1 o1 ltac:(by eexists; apply lookup_insert_eq) Ho1)
    as ((o3 & Ho3 & Hin & Hout & _) & _ & _).
  exists ds3, o3. split_and!; [done|done|by rewrite Hn3; simpl|]. destruct ok.
  - assert (Hc : c ∉ elements slow).
    { rewrite elem_of_elements. unfold slow. rewrite elem_of_filter, Hdel. by intros [? _]. }
    right. rewrite (Hout Hc). split; [by apply deliver_snapshot_spec|].
    exists (SubscriberState.set_awaiting false sub). split; [|done]. rewrite (Hs3 c Hc). simpl.
    rewrite map_lookup_imap, Hsubs, Hsub. simpl. by rewrite Hdel.
  - left. apply Hin; [|done]. apply elem_of_elements. unfold slow. apply elem_of_filter. rewrite Hdel. split; [done|].
    rewrite Hsubs. apply elem_of_dom. eauto.
Qed.

(** ** Commands *)

(** The answers for the commands of one browser. *)
Definition answers (c : Uuid) (lost : list (string * PendingCommand.t)) : list OutItem :=
  map (fun '(id, p) => OutDirect (encode_direct (outcome_unknown_env (PendingCommand.device p) id)))
    (filter (fun '(_, p) => PendingCommand.conn_id p = c) lost).

Lemma abandon_rest (lost : list (string * PendingCommand.t)) (g : Hub) :
  HubInner.browsers (abandon lost g) = HubInner.browsers g /\ HubInner.commands (abandon lost g) = HubInner.commands g.
Proof.
  unfold abandon. revert g. induction lost as [|[id p] lost IH]; intros g; simpl; [done|].
  rewrite (proj1 (IH _)), (proj2 (IH _)). unfold send_to_browser. by case_match.
Qed.

Lemma abandon_closed (lost : list (string * PendingCommand.t)) (g : Hub) (c : Uuid) (o : Outbox.t) :
  HubInner.outboxes g !! c = Some o -> Outbox.closed o = true -> HubInner.outboxes (abandon lost g) !! c = Some o.
Proof.
  unfold abandon. intros Ho Hc. revert g Ho. induction lost as [|[id p] lost IH]; intros g Ho; simpl; [done|].
  apply IH. unfold send_to_browser. case_match; [|done]. simpl.
  destruct (decide (PendingCommand.conn_id p = c)) as [<-|]; [|by rewrite lookup_alter_ne].
  rewrite lookup_alter_eq, Ho. simpl. by rewrite push_direct_closed.
Qed.

Lemma abandon_outbox (lost : list (string * PendingCommand.t)) (g : Hub) (c : Uuid) (o : Outbox.t) :
  (forall device id, encode_direct (outcome_unknown_env device id) <> []) ->
  HubInner.outboxes g !! c = Some o -> registered g c = true ->
  exists o', HubInner.outboxes (abandon lost g) !! c = Some o' /\
    (Outbox.closed o' = true \/ Outbox.items o' = Outbox.items o ++ answers c lost).
Proof.
  intros Hne. revert g o. induction lost as [|[id p] lost IH]; intros g o Ho Hreg.
  { exists o. split; [done|right]. unfold answers. simpl. by rewrite app_nil_r. }
  change (abandon ((id, p) :: lost) g) with
    (abandon lost (send_to_browser g (PendingCommand.conn_id p) (outcome_unknown_env (PendingCommand.device p) id))).
  set (env := outcome_unknown_env (PendingCommand.device p) id).
  assert (Hreg' : registered (send_to_browser g (PendingCommand.conn_id p) env) c = true).
  { unfold send_to_browser. by case_match. }
  unfold answers. rewrite filter_cons. case_decide as Hc.
  - subst c. unfold send_to_browser in *. rewrite Hreg in *. set (g1 := HubInner.with_outboxes _ g) in *.
    assert (Ho1 : HubInner.outboxes g1 !! PendingCommand.conn_id p = Some (push_direct o (encode_direct env)).1).
    { unfold g1. simpl. by rewrite lookup_alter_eq, Ho. }
    destruct (push_direct_cases o (encode_direct env) (Hne _ _)) as [Hcl|[Hcl Hi]].
    + eexists. split; [by apply abandon_closed|by left].
    + destruct (IH g1 _ Ho1 Hreg') as (o' & Ho' & [?|Hi']); exists o'; (split; [done|]); [by left|right].
      rewrite Hi', Hi, <- app_assoc. done.
  - destruct (IH (send_to_browser g (PendingCommand.conn_id p) env) o ltac:(unfold send_to_browser; case_match; [simpl; by rewrite lookup_alter_ne|done]) Hreg')
      as (o' & Ho' & Hor). by exists o'.
Qed.

(** The commands of a list, each with its operation. *)
Definition lists_commands (out : list (string * string)) (P : PendingCommand.t -> Prop)
    (commands : gmap string PendingCommand.t) : Prop :=
  NoDup (map fst out) /\
  forall id operation, (id, operation) ∈ out <->
    exists p, commands !! id = Some p /\ P p /\ PendingCommand.operation p = operation.

Lemma lists_commands_filter (P : PendingCommand.t -> Prop) `{forall p, Decision (P p)} (commands : gmap string PendingCommand.t) :
  lists_commands (map (fun '(id, p) => (id, PendingCommand.operation p))
                    (filter (fun '(_, p) => P p) (map_to_list commands))) P commands.
Proof.
  split.
  - rewrite map_map. replace (map _ _) with (map fst (filter (fun '(_, p) => P p) (map_to_list commands)))
      by (apply map_ext; by intros []).
    eapply sublist_NoDup; [apply (NoDup_fst_map_to_list commands)|]. apply sublist_map, sublist_filter.
  - intros id operation. split.
    + intros ([id' p] & [= -> ->] & [HP Hin]%list_elem_of_filter)%list_elem_of_fmap.
      apply elem_of_map_to_list in Hin. eauto.
    + intros (p & Hid & HP & <-). apply list_elem_of_fmap. exists (id, p). split; [done|].
      apply list_elem_of_filter. split; [done|]. by apply elem_of_map_to_list.
Qed.

(** No command is left without an answer.  When a Bridge goes away, exactly its outstanding
    commands are taken out of the table and reported to the caller, each once; at shutdown all
    of them are.  The queue of every registered browser then holds, after what it held before,
    exactly one "outcome unknown" result for each of its commands taken out, or it has been
    closed. *)
Theorem abandoned_commands_answered (device : Uuid) (g : Hub) (c : Uuid) (o : Outbox.t) :
  (forall device id, encode_direct (outcome_unknown_env device id) <> []) ->
  HubInner.outboxes g !! c = Some o -> registered g c = true ->
  (let '(g', out) := remove_bridge device g in
   lists_commands out (fun p => PendingCommand.device p = device) (HubInner.commands g) /\
   HubInner.commands g' = filter (fun '(_, p) => PendingCommand.device p <> device) (HubInner.commands g) /\
   exists o', HubInner.outboxes g' !! c = Some o' /\
     (Outbox.closed o' = true \/
      Outbox.items o' = Outbox.items o ++
        answers c (filter (fun '(_, p) => PendingCommand.device p = device) (map_to_list (HubInner.commands g))))) /\
  (let '(g', out) := begin_shutdown g in
   lists_commands out (fun _ => True) (HubInner.commands g) /\
   HubInner.commands g' = ∅ /\
   exists o', HubInner.outboxes g' !! c = Some o' /\
     (Outbox.closed o' = true \/
      Outbox.items o' = Outbox.items o ++ answers c (map_to_list (HubInner.commands g)))).
Proof.
  intros Hne Ho Hreg. split.
  - unfold remove_bridge. split_and!.
    + apply (lists_commands_filter (fun p => PendingCommand.device p = device)).
    + by rewrite (proj2 (abandon_rest _ _)).
    + by apply abandon_outbox.
  - unfold begin_shutdown. split_and!.
    + pose proof (lists_commands_filter (fun _ => True) (HubInner.commands g)) as Hl.
      assert (Hall : forall l : list (string * PendingCommand.t), filter (fun '(_, _) => True) l = l).
      { intros l. induction l as [|[] l IH]; [done|]. by rewrite filter_cons, decide_True, IH. }
      by rewrite Hall in Hl.
    + by rewrite (proj2 (abandon_rest _ _)).
    + by apply abandon_outbox.
Qed.

End Delivery.
