(* ===== verification/HubDemo.v ===== *)
(** * The hub on concrete inputs: witnesses, and behaviours worth knowing *)

From S2P Require Import Prelude RustStr Messages Buffer BufferProps Stream StreamProps Hub HubProps HubDelivery.

Module HubDemo.
#[global] Instance uuid_parse : UuidParse := {| parse_uuid := Some |}.

Definition ident : BrowserIdentity.t := BrowserIdentity.mk "auth" "owner" 1000.
Definition key : DKey := ("owner", TargetTag.List).
Definition uid : string := "u-dev-list".

Definition upstream (sequence : Z) (payload : Payload) : Envelope.t :=
  Envelope.mk "" "dev" uid 0 sequence (Some payload).

(** A browser and a Bridge connect, the browser subscribes to the list. *)
Definition subscribing : list HubOp :=
  [RegisterBridge "dev" "owner" (Sink.mk 8 [] false);
   RegisterBrowser "conn" ident (Outbox.new 16 1000);
   SubscribeBind "1" "conn" key [("dev", TargetTag.List)];
   SubscribeAttach "1" "conn" key "corr";
   BridgeEnvelope "dev" (upstream 0 (Subscribed uid 7 1));
   BridgeEnvelope "dev" (upstream 2 (EventBatch uid [Some (TurnLifecycle 1)]))].

(** .. and the snapshot arrives. *)
Definition running : list HubOp :=
  subscribing ++ [BridgeEnvelope "dev" (upstream 1 (SessionSummaryBatch true []));
                  RegisterCommand "r1" "conn" "dev" "START_TURN"].

Definition run (ops : list HubOp) : HubInner.t := foldl (fun g op => hub_step 0 op g) HubInner.default ops.

(** Every step of a run that satisfies the conditions on steps is reachable. *)
Fixpoint run_ok (g : HubInner.t) (ops : list HubOp) : Prop :=
  match ops with
  | [] => True
  | op :: ops => op_ok g op /\ run_ok (hub_step 0 op g) ops
  end.

Lemma run_reachable (ops : list HubOp) (g : HubInner.t) :
  reachable g -> run_ok g ops -> reachable (foldl (fun g op => hub_step 0 op g) g ops).
Proof.
  revert g. induction ops as [|op ops IH]; intros g Hg Hok; simpl; [done|]. destruct Hok as [Hop Hok].
  apply IH; [by apply reach_step|done].
Qed.

Lemma running_ok : run_ok HubInner.default running.
Proof.
  cbn [running subscribing app run_ok]. split_and!; try exact I; [vm_compute; reflexivity|].
  intros i Hi. vm_compute in Hi. injection Hi as <-. reflexivity.
Qed.

Lemma subscribing_ok : run_ok HubInner.default subscribing.
Proof.
  cbn [subscribing run_ok]. split_and!; try exact I; [vm_compute; reflexivity|].
  intros i Hi. vm_compute in Hi. injection Hi as <-. reflexivity.
Qed.

Lemma running_reachable : reachable (run running).
Proof. apply run_reachable; [apply reach_init|apply running_ok]. Qed.

Lemma subscribing_reachable : reachable (run subscribing).
Proof. apply run_reachable; [apply reach_init|apply subscribing_ok]. Qed.

Definition stream (g : HubInner.t) : DStream.t := default (DStream.new "") (HubInner.streams g !! key).
Definition queue (g : HubInner.t) : list OutItem :=
  default [] (Outbox.items <$> HubInner.outboxes g !! "conn").
End HubDemo.

(** The subscriber first waits with an empty queue, the event held back; then it is announced the
    stream and gets the snapshot and the event, numbered 1 and 2. *)
Lemma snapshot_comes_first :
  HubDemo.queue (HubDemo.run HubDemo.subscribing) = [] /\
  map (fun item => match item with OutFrame f => Some (seq_of f) | _ => None end)
    (HubDemo.queue (HubDemo.run HubDemo.running)) = [None; Some 1; Some 2].
Proof. vm_compute. split; reflexivity. Qed.

(** ** Witnesses *)

Lemma hub_invariant_witness :
  let g := HubDemo.run HubDemo.running in
  size (HubInner.streams g) = 1%nat /\ hub_inv g.
Proof.
  intros g. split; [vm_compute; reflexivity|]. exact (hub_invariant g HubDemo.running_reachable).
Defined.

Lemma push_pending_spec_witness :
  let ds := DStream.new "1" in
  let batch := PendingUpstreamBatch.mk "u" 3 "dev" [TurnLifecycle 1; BufferDemo.output 0 "ab"] in
  let '(ds', over) := push_pending ds batch in
  over = false /\
  let before := held_events (DStream.pending_batches ds) ++ PendingUpstreamBatch.events batch in
  let held := held_events (DStream.pending_batches ds') in
  same_but_pending ds ds' /\ pending_exact ds' /\ held `sublist_of` before /\ plain held = plain before /\
  (over = false <->
     DStream.pending_events ds' <= SNAPSHOT_PENDING_MAX_EVENTS /\ DStream.pending_bytes ds' <= BUFFER_MAX_BYTES) /\
  (over = true -> held = plain before).
Proof.
  intros ds batch.
  assert (Hp : pending_exact ds) by (split; [reflexivity|reflexivity|constructor]).
  pose proof (push_pending_spec ds batch Hp ltac:(discriminate)) as Hs.
  destruct (push_pending ds batch) as [ds' over] eqn:Hd. split; [|exact Hs].
  change over with (ds', over).2. rewrite <- Hd. vm_compute. reflexivity.
Defined.

Lemma replay_spec_witness :
  let ds := HubDemo.stream (HubDemo.run HubDemo.running) in
  exists anchor, last (DStream.snapshots ds) = Some anchor /\
  let '(base, frames) := replay ds in
  base = 1 /\ length frames = 2%nat /\
  let after := filter (fun f => seq_of anchor < seq_of f) (StreamBuffer.items (DStream.buffer ds)) in
  replay_ok ds base frames /\
  ((frames ≡ₚ DStream.snapshots ds ++ StreamBuffer.items (DStream.buffer ds) /\
    exists lo, head (seqs frames) = Some lo /\ runs_up_to (DStream.next_seq ds) lo frames) \/
   (frames = DStream.snapshots ds ++ after /\ runs_up_to (DStream.next_seq ds) (seq_of anchor + 1) after) \/
   (frames = DStream.snapshots ds /\ ~ runs_up_to (DStream.next_seq ds) (seq_of anchor + 1) after)).
Proof.
  intros ds.
  assert (Hinv : stream_inv ds).
  { eapply (hi_streams _ (reachable_inv _ HubDemo.running_reachable) HubDemo.key). vm_compute. reflexivity. }
  destruct (last (DStream.snapshots ds)) as [anchor|] eqn:Hl; [|vm_compute in Hl; discriminate Hl].
  exists anchor. split; [reflexivity|]. pose proof (replay_spec ds anchor Hinv Hl) as Hs.
  destruct (replay ds) as [base frames] eqn:Hr.
  assert (Hb : (base, length frames) = (1, 2%nat)).
  { change (base, length frames) with ((base, frames).1, length (base, frames).2). rewrite <- Hr. vm_compute. reflexivity. }
  injection Hb as -> Hlen. split; [reflexivity|]. split; [exact Hlen|exact Hs].
Defined.

Lemma fan_out_delivers_witness :
  let g := HubDemo.run HubDemo.running in
  let ds := HubDemo.stream g in
  let events := [TurnLifecycle 2; QueueStateChanged] in
  exists o, HubInner.outboxes g !! "conn" = Some o /\
  let g' := (fan_out_events 0 HubDemo.uid "dev" 3 events g).1 in
  let frames := event_frames 0 ds "dev" (batch_seq 3) events in
  length (HubDemo.queue g') = 5%nat /\
  seqs frames = seqZ (DStream.next_seq ds) (zlen events) /\
  exists ds' o', HubInner.streams g' !! HubDemo.key = Some ds' /\ HubInner.outboxes g' !! "conn" = Some o' /\
    DStream.next_seq ds' = DStream.next_seq ds + zlen events /\
    (Outbox.closed o' = true \/
     (grown g ds "conn" frames o o' /\ DStream.subscribers ds' !! "conn" = DStream.subscribers ds !! "conn")).
Proof.
  intros g ds events.
  destruct (HubInner.outboxes g !! "conn") as [o|] eqn:Ho; [|vm_compute in Ho; discriminate Ho].
  destruct (DStream.upstreams ds !! HubDemo.uid) as [binding|] eqn:Hb; [|vm_compute in Hb; discriminate Hb].
  exists o. split; [reflexivity|]. split; [vm_compute; reflexivity|].
  refine (fan_out_delivers 0 HubDemo.uid "dev" 3 events g HubDemo.key ds binding "conn" o
            (reachable_inv _ HubDemo.running_reachable) _ _ Ho).
  - split; [vm_compute; reflexivity|vm_compute; reflexivity|exact Hb| |discriminate|].
    + right. vm_compute in Hb. injection Hb as <-. reflexivity.
    + left. vm_compute in Hb. injection Hb as <-. reflexivity.
  - vm_compute. discriminate.
Defined.

Lemma snapshot_delivers_witness :
  let g := HubDemo.run HubDemo.subscribing in
  let ds := HubDemo.stream g in
  let env := HubDemo.upstream 1 (SessionSummaryBatch true []) in
  exists binding sub o,
  let g' := apply_snapshot 0 HubDemo.key ds binding HubDemo.uid env g in
  length (HubDemo.queue g') = 2%nat /\
  let '(ds1, frame) := snapshot_stream ds binding HubDemo.uid env 0 in
  seq_of frame = DStream.next_seq ds /\ last (DStream.snapshots ds1) = Some frame /\
  exists ds' o', HubInner.streams g' !! HubDemo.key = Some ds' /\ HubInner.outboxes g' !! "conn" = Some o' /\
    DStream.next_seq ds' = DStream.next_seq ds + 1 /\
    (Outbox.closed o' = true \/
     (has_snapshot ds1 frame sub o o' /\
      exists sub', DStream.subscribers ds' !! "conn" = Some sub' /\ SubscriberState.awaiting_snapshot sub' = false)).
Proof.
  intros g ds env.
  destruct (DStream.upstreams ds !! HubDemo.uid) as [binding|] eqn:Hb; [|vm_compute in Hb; discriminate Hb].
  destruct (DStream.subscribers ds !! "conn") as [sub|] eqn:Hs; [|vm_compute in Hs; discriminate Hs].
  destruct (HubInner.outboxes g !! "conn") as [o|] eqn:Ho; [|vm_compute in Ho; discriminate Ho].
  exists binding, sub, o. split; [vm_compute in Hb; injection Hb as <-; vm_compute; reflexivity|].
  refine (snapshot_delivers 0 HubDemo.key ds binding HubDemo.uid env g "conn" sub o
            (reachable_inv _ HubDemo.subscribing_reachable) _ Hs Ho).
  vm_compute. reflexivity.
Defined.

Lemma abandoned_commands_answered_witness :
  let g := HubDemo.run HubDemo.running in
  exists o, HubInner.outboxes g !! "conn" = Some o /\ length (remove_bridge "dev" g).2 = 1%nat /\
  (let '(g', out) := remove_bridge "dev" g in
   lists_commands out (fun p => PendingCommand.device p = "dev") (HubInner.commands g) /\
   HubInner.commands g' = filter (fun '(_, p) => PendingCommand.device p <> "dev") (HubInner.commands g) /\
   exists o', HubInner.outboxes g' !! "conn" = Some o' /\
     (Outbox.closed o' = true \/
      Outbox.items o' = Outbox.items o ++
        answers "conn" (filter (fun '(_, p) => PendingCommand.device p = "dev") (map_to_list (HubInner.commands g))))) /\
  (let '(g', out) := begin_shutdown g in
   lists_commands out (fun _ => True) (HubInner.commands g) /\
   HubInner.commands g' = ∅ /\
   exists o', HubInner.outboxes g' !! "conn" = Some o' /\
     (Outbox.closed o' = true \/
      Outbox.items o' = Outbox.items o ++ answers "conn" (map_to_list (HubInner.commands g)))).
Proof.
  intros g. destruct (HubInner.outboxes g !! "conn") as [o|] eqn:Ho; [|vm_compute in Ho; discriminate Ho].
  exists o. split; [reflexivity|]. split; [vm_compute; reflexivity|].
  refine (abandoned_commands_answered "dev" g "conn" o _ Ho _); [|vm_compute; reflexivity].
  intros device id. vm_compute. discriminate.
Defined.

(** ** Behaviours worth knowing *)

(** While the authentication service is unreachable and the grace period runs, writes are
    allowed; the comments of the code say they are refused then. *)
Lemma writes_allowed_during_grace (now until : Z) (g : HubInner.t) :
  now < until -> writes_allowed now (set_degraded (Some until) g) = true.
Proof. intros Hn. unfold writes_allowed. simpl. by apply Z.ltb_lt. Qed.

(** A device reconnects: the new connection replaces the entry of the old one, whose task then
    cleans up by device and removes the new connection. *)
Lemma old_connection_cleanup_removes_new_bridge :
  let reconnected := HubDemo.run (HubDemo.running ++ [ForceCloseBridge "dev";
                       RegisterBridge "dev" "owner" (Sink.mk 8 [] false); EnsureBindings "dev" "owner"]) in
  is_online reconnected "dev" = true /\
  is_online (hub_step 0 (RemoveBridge "dev") reconnected) "dev" = false /\
  HubInner.upstream_index (hub_step 0 (RemoveBridge "dev") reconnected) = ∅.
Proof. vm_compute. split_and!; reflexivity. Qed.

(** The memory sweep between the two critical sections of a subscription removes the stream that
    has no subscriber yet; the subscriber then waits on a stream without any binding. *)
Lemma sweep_between_sections_strands_subscriber :
  let g := HubDemo.run
    [RegisterBridge "dev" "owner" (Sink.mk 8 [] false);
     RegisterBrowser "conn" HubDemo.ident (Outbox.new 16 1000);
     SubscribeBind "1" "conn" HubDemo.key [("dev", TargetTag.List)];
     Sweep;
     SubscribeAttach "2" "conn" HubDemo.key "corr"] in
  active g (HubDemo.stream g) "conn" = false /\
  is_Some (DStream.subscribers (HubDemo.stream g) !! "conn") /\
  DStream.upstreams (HubDemo.stream g) = ∅ /\ HubInner.upstream_index g = ∅.
Proof. vm_compute. split_and!; [reflexivity|eauto|reflexivity|reflexivity]. Qed.

(** Messages are routed by the stream id they carry alone: a Bridge connected as another device
    of another owner can put events into this owner's stream. *)
Lemma events_are_not_checked_against_the_device :
  let forged := HubDemo.upstream 9 (EventBatch HubDemo.uid [Some (TurnLifecycle 2)]) in
  let g := HubDemo.run (HubDemo.running ++
    [RegisterBridge "stranger" "somebody else" (Sink.mk 8 [] false); BridgeEnvelope "stranger" forged]) in
  length (HubDemo.queue g) = S (length (HubDemo.queue (HubDemo.run HubDemo.running))).
Proof. vm_compute. reflexivity. Qed.

(** Two output deltas merged after the snapshot leave a hole in the numbers, and the replay then
    drops every event after the snapshot, those of the first class too. *)
Lemma hole_drops_critical_events :
  let g := HubDemo.run (HubDemo.running ++
    [BridgeEnvelope "dev" (HubDemo.upstream 3 (EventBatch HubDemo.uid
       [Some (BufferDemo.output 0 "ab"); Some (BufferDemo.output 2 "cd")]))]) in
  let ds := HubDemo.stream g in
  map (fun f => (seq_of f, Frame.kind f)) (StreamBuffer.items (DStream.buffer ds)) = [(2, Critical); (3, Mergeable)] /\
  (replay ds).2 = DStream.snapshots ds.
Proof. vm_compute. split; reflexivity. Qed.
