(* ===== verification/Transfers.v ===== *)
(** * The transfers of the Relay ([relay/src/transfers/mod.rs])

    A transfer joins a browser's request and a Bridge's request.  Both run as tasks that share it
    through the registry ([Arc<Transfer>] in a [HashMap]) and its own mutex.  [Relay] is that shared
    state: the transfers ever created, by reference, and the map of the registered ones.  Every
    critical section is a function on it; [None] as its answer means that the task panicked.  The
    mutexes are those of [std]: a panic while one is held poisons it, and every later
    [lock().unwrap()] panics.  The handlers are programs over the critical sections, the queries of
    the database, the hub and the waits.

    The texts of error responses are left out. *)

From S2P Require Import Prelude RustStr Prog Domain Proto FilePolicy.

Notation Code := pb.StableErrorCode.t.

Definition RENDEZVOUS_TIMEOUT : Z := 10 * 1000.
Definition FIRST_BYTE_TIMEOUT : Z := 30 * 1000.
Definition IDLE_READ_TIMEOUT : Z := 30 * 1000.
Definition TRANSFER_TTL : Z := 10 * 60 * 1000.
Definition MAX_CONCURRENT_PER_BROWSER : Z := 2.
Definition MAX_CONCURRENT_PER_DEVICE : Z := 2.
Definition RELAY_MAX_UPLOAD_BYTES : Z := 20 * 1024 * 1024.
Definition RESULT_WAIT_TIMEOUT : Z := 30 * 1000.

(** ** Data *)

Module RangeSpec.
Record t := mk {
  start : Z;
  end_inclusive : option Z;
}.
#[global] Instance eq_dec : EqDecision t.
Proof. solve_decision. Defined.
End RangeSpec.

Module TransferInfo.
Record t := mk {
  direction : pb.TransferDirection.t;
  owner : Uuid;
  device : Uuid;
  session : Uuid;
  file_name : string;
  mime : string;
  length : option Z;
  range : option RangeSpec.t;
  disposition : string;
  file_handle : string;
}.
End TransferInfo.

(** The metadata of [ProducerHandoff]; its body is the channel of the transfer. *)
Module ProducerHandoff.
Record t := mk {
  content_type : option string;
  content_disposition : option string;
  content_range : option string;
  total_length : option Z;
}.
End ProducerHandoff.

(** The fields [x_tx], [x_rx] tell whether the end of the one-shot channel is still here; [handoff]
    and [result] are what was sent through it, [consumer] that the writing end was handed over;
    [cancelled] is the value of the watch channel and [receivers] the number of its receivers: to
    send a value when there is none fails and leaves the value as it was. *)
Module Shared.
Record t := mk {
  producer_tx : bool;
  producer_rx : bool;
  handoff : option ProducerHandoff.t;
  consumer_tx : bool;
  consumer_rx : bool;
  consumer : bool;
  producer_ack : bool;
  result_tx : bool;
  result_rx : bool;
  result : option pb.TransferResult.t;
  cancelled : bool;
  terminal : bool;
  terminal_code : option Code;
  poisoned : bool;
  receivers : Z;
}.

Definition fresh : t := mk true true None true true false false true true None false false None false 0.
Definition set_handoff (h : ProducerHandoff.t) (s : t) : t :=
  mk false (producer_rx s) (Some h) (consumer_tx s) (consumer_rx s) (consumer s) (producer_ack s) (result_tx s)
    (result_rx s) (result s) (cancelled s) (terminal s) (terminal_code s) (poisoned s) (receivers s).
Definition set_consumer (s : t) : t :=
  mk (producer_tx s) (producer_rx s) (handoff s) false (consumer_rx s) true (producer_ack s) (result_tx s)
    (result_rx s) (result s) (cancelled s) (terminal s) (terminal_code s) (poisoned s) (receivers s).
Definition set_producer_ack (x : bool) (s : t) : t :=
  mk (producer_tx s) (producer_rx s) (handoff s) (consumer_tx s) (consumer_rx s) (consumer s) x (result_tx s)
    (result_rx s) (result s) (cancelled s) (terminal s) (terminal_code s) (poisoned s) (receivers s).
Definition take_producer_rx (s : t) : t :=
  mk (producer_tx s) false (handoff s) (consumer_tx s) (consumer_rx s) (consumer s) (producer_ack s) (result_tx s)
    (result_rx s) (result s) (cancelled s) (terminal s) (terminal_code s) (poisoned s) (receivers s).
Definition take_consumer_rx (s : t) : t :=
  mk (producer_tx s) (producer_rx s) (handoff s) (consumer_tx s) false (consumer s) (producer_ack s) (result_tx s)
    (result_rx s) (result s) (cancelled s) (terminal s) (terminal_code s) (poisoned s) (receivers s).
Definition take_result_rx (s : t) : t :=
  mk (producer_tx s) (producer_rx s) (handoff s) (consumer_tx s) (consumer_rx s) (consumer s) (producer_ack s)
    (result_tx s) false (result s) (cancelled s) (terminal s) (terminal_code s) (poisoned s) (receivers s).
Definition send_result (r : pb.TransferResult.t) (s : t) : t :=
  mk (producer_tx s) (producer_rx s) (handoff s) (consumer_tx s) (consumer_rx s) (consumer s) (producer_ack s)
    false (result_rx s) (Some r) (cancelled s) (terminal s) (terminal_code s) (poisoned s) (receivers s).
Definition finish (s : t) : t :=
  mk (producer_tx s) (producer_rx s) (handoff s) (consumer_tx s) (consumer_rx s) (consumer s) false (result_tx s)
    (result_rx s) (result s) (cancelled s) true (terminal_code s) (poisoned s) (receivers s).
Definition cancel (code : Code) (s : t) : t :=
  mk (producer_tx s) (producer_rx s) (handoff s) (consumer_tx s) (consumer_rx s) (consumer s) false (result_tx s)
    (result_rx s) (result s) (cancelled s || (0 <? receivers s)) true (Some code) (poisoned s) (receivers s).
Definition poison (s : t) : t :=
  mk (producer_tx s) (producer_rx s) (handoff s) (consumer_tx s) (consumer_rx s) (consumer s) (producer_ack s) (result_tx s)
    (result_rx s) (result s) (cancelled s) (terminal s) (terminal_code s) true (receivers s).
Definition add_receivers (n : Z) (s : t) : t :=
  mk (producer_tx s) (producer_rx s) (handoff s) (consumer_tx s) (consumer_rx s) (consumer s) (producer_ack s) (result_tx s)
    (result_rx s) (result s) (cancelled s) (terminal s) (terminal_code s) (poisoned s) (receivers s + n).
End Shared.

Module Transfer.
Record t := mk {
  id : string;
  token : string;
  info : TransferInfo.t;
  created_at : Z;
  expires_at : Z;
  shared : Shared.t;
}.
Definition with_shared (x : Shared.t) (r : t) : t := mk (id r) (token r) (info r) (created_at r) (expires_at r) x.
End Transfer.

(** A reference to a transfer ([Arc<Transfer>]). *)
Definition Ref : Type := nat.

Module Relay.
Record t := mk {
  heap : gmap Ref Transfer.t;
  registry : gmap string Ref;
  poisoned : bool;
  clock : Z;
}.
Definition with_heap (x : gmap Ref Transfer.t) (w : t) : t := mk x (registry w) (poisoned w) (clock w).
Definition with_registry (x : gmap string Ref) (w : t) : t := mk (heap w) x (poisoned w) (clock w).
Definition poison (w : t) : t := mk (heap w) (registry w) true (clock w).
Definition init : t := mk ∅ ∅ false 0.
End Relay.

Import Relay (heap, registry, clock).

Notation registry_poisoned := Relay.poisoned.

(** ** Critical sections of a transfer *)

(** Lock [shared] of [r] and run [f]; [f] answers [None] when it panics. *)
Definition locked {A} (r : Ref) (f : Transfer.t -> option A * Shared.t) (w : Relay.t) : option A * Relay.t :=
  match heap w !! r with
  | None => (None, w)
  | Some x =>
      if Shared.poisoned (Transfer.shared x) then (None, w)
      else
        let (a, s) := f x in
        let s := match a with None => Shared.poison s | Some _ => s end in
        (a, Relay.with_heap (<[r := Transfer.with_shared s x]> (heap w)) w)
  end.

Definition expired (x : Transfer.t) (w : Relay.t) : bool := Transfer.expires_at x <? clock w.

Definition set_producer (h : ProducerHandoff.t) (x : Transfer.t) : option bool * Shared.t :=
  let s := Transfer.shared x in
  if Shared.terminal s then (Some false, s)
  else if Shared.producer_tx s then (Some true, Shared.set_handoff h s) else (Some false, s).

Definition set_consumer (x : Transfer.t) : option bool * Shared.t :=
  let s := Transfer.shared x in
  if Shared.terminal s then (Some false, s)
  else if Shared.consumer_tx s then (Some true, Shared.set_consumer s) else (Some false, s).

(** [g.producer_rx.take().expect(...)]. *)
Definition take_producer_rx (x : Transfer.t) : option unit * Shared.t :=
  let s := Transfer.shared x in
  if Shared.producer_rx s then (Some tt, Shared.take_producer_rx s) else (None, s).

Definition take_consumer_rx (x : Transfer.t) : option unit * Shared.t :=
  let s := Transfer.shared x in
  if Shared.consumer_rx s then (Some tt, Shared.take_consumer_rx s) else (None, s).

Definition take_result_rx (x : Transfer.t) : option bool * Shared.t :=
  let s := Transfer.shared x in (Some (Shared.result_rx s), Shared.take_result_rx s).

(** [take_result_tx], and the [send] on what it returned. *)
Definition deliver_result (result : pb.TransferResult.t) (x : Transfer.t) : option unit * Shared.t :=
  let s := Transfer.shared x in
  (Some tt, if Shared.result_tx s then Shared.send_result result s else s).

Definition complete (x : Transfer.t) : option unit * Shared.t := (Some tt, Shared.finish (Transfer.shared x)).

Definition cancelled_result (id : string) (code : Code) : pb.TransferResult.t :=
  pb.TransferResult.mk id (pb.TransferOutcome.as_i32 pb.TransferOutcome.Cancelled) (pb.StableErrorCode.as_i32 code) "".

(** [cancel]; the result is sent right after the lock is released. *)
Definition cancel (code : Code) (x : Transfer.t) : option unit * Shared.t :=
  let s := Transfer.shared x in
  if Shared.terminal s then (Some tt, s)
  else
    let s := Shared.cancel code s in
    (Some tt, if Shared.result_tx s then Shared.send_result (cancelled_result (Transfer.id x) code) s else s).

Definition terminal_code (x : Transfer.t) : option (option Code) * Shared.t :=
  (Some (Shared.terminal_code (Transfer.shared x)), Transfer.shared x).

Definition is_terminal (x : Transfer.t) : option bool * Shared.t :=
  (Some (Shared.terminal (Transfer.shared x)), Transfer.shared x).

(** [g.producer_ack = Some(ack_tx)]. *)
Definition put_producer_ack (x : Transfer.t) : option unit * Shared.t :=
  (Some tt, Shared.set_producer_ack true (Transfer.shared x)).

(** [cancel_rx]: a receiver of the watch channel. *)
Definition cancel_rx (x : Transfer.t) : option unit * Shared.t := (Some tt, Shared.add_receivers 1 (Transfer.shared x)).

(** The end of a receiver takes no lock. *)
Definition drop_cancel_rx (r : Ref) (w : Relay.t) : option unit * Relay.t :=
  match heap w !! r with
  | None => (None, w)
  | Some x =>
      (Some tt, Relay.with_heap (<[r := Transfer.with_shared (Shared.add_receivers (-1) (Transfer.shared x)) x]> (heap w)) w)
  end.

(** ** Critical sections of the registry *)

Definition registry_get (id : string) (w : Relay.t) : option (option Ref) * Relay.t :=
  if registry_poisoned w then (None, w) else (Some (registry w !! id), w).

Definition registry_remove (id : string) (w : Relay.t) : option unit * Relay.t :=
  if registry_poisoned w then (None, w)
  else (Some tt, Relay.with_registry (delete id (registry w)) w).

(** The registered transfers. *)
Definition registered (w : Relay.t) : list Transfer.t :=
  omap (fun p => heap w !! p.2) (map_to_list (registry w)).

Definition running (x : Transfer.t) : bool := negb (Shared.terminal (Transfer.shared x)).

Definition count_running (p : Transfer.t -> bool) (w : Relay.t) : Z :=
  zlen (filter (fun x => running x && p x = true) (registered w)).

Definition owned_by (owner : Uuid) (x : Transfer.t) : bool := bool_decide (TransferInfo.owner (Transfer.info x) = owner).
Definition on_device (device : Uuid) (x : Transfer.t) : bool := bool_decide (TransferInfo.device (Transfer.info x) = device).

(** Holding the registry, [create] locks every registered transfer in turn; [id] is random and
    [r] the new reference. *)
Definition create (info : TransferInfo.t) (id : string) (r : Ref) (w : Relay.t) : option (res Code Ref) * Relay.t :=
  if registry_poisoned w then (None, w)
  else if existsb (fun x => Shared.poisoned (Transfer.shared x)) (registered w) then (None, Relay.poison w)
  else if MAX_CONCURRENT_PER_BROWSER <=? count_running (owned_by (TransferInfo.owner info)) w then
    (Some (Err pb.StableErrorCode.RateLimited), w)
  else if MAX_CONCURRENT_PER_DEVICE <=? count_running (on_device (TransferInfo.device info)) w then
    (Some (Err pb.StableErrorCode.RateLimited), w)
  else
    let x := Transfer.mk id id info (clock w) (clock w + TRANSFER_TTL) Shared.fresh in
    (Some (Ok r),
     Relay.mk (<[r := x]> (heap w)) (<[id := r]> (registry w)) false (clock w)).

(** The first half of [sweep]: what has expired leaves the registry. *)
Definition sweep_take (w : Relay.t) : option (list Ref) * Relay.t :=
  if registry_poisoned w then (None, w)
  else
    let gone := fun p : string * Ref => match heap w !! p.2 with Some x => expired x w | None => false end in
    (Some (map snd (filter (fun p => gone p = true) (map_to_list (registry w)))),
     Relay.with_registry (filter (fun p => gone p = false) (registry w)) w).

(** ** Operations *)

Inductive Wait (A : Type) :=
| WaitCancelled
| WaitGot (a : A)
| WaitClosed
| WaitTimeout.
Arguments WaitCancelled {A}.
Arguments WaitGot {A} _.
Arguments WaitClosed {A}.
Arguments WaitTimeout {A}.

(** How a request body ends, after its chunks. *)
Inductive BodyEnd := BodyEof | BodyTimeout | BodyError | BodyCancelled.

Module SessionRow.
Record t := mk {
  id : Uuid;
  device_id : Uuid;
  native_session_id : string;
}.
End SessionRow.

(** What the JSON bodies carry. *)
Module FileRequest.
Record t := mk {
  file_handle : string;
  file_name : option string;
  range : option RangeSpec.t;
}.
End FileRequest.

Module UploadDeclare.
Record t := mk {
  file_name : string;
  mime : option string;
  length : Z;
}.
End UploadDeclare.

(** What the Relay tells a Bridge. *)
Inductive ToBridge :=
| ToOffer (offer : pb.TransferOffer.t)
| ToResult (result : pb.TransferResult.t).

(** [DownloadStarted]: the body that follows is the channel of the transfer. *)
Inductive Response :=
| Failed (status : Z) (code : Code)
| DownloadStarted (status : Z) (content_type content_disposition content_range : option string) (content_length : option Z)
| UploadDeclared (transfer_id upload_url : string)
| UploadDone (transfer_id outcome : string) (error_code upload_file_handle : option string)
| ProducerAccepted
| ConsumerStream.

Inductive top : Type -> Type :=
| RequireIdentity : top (res Response Uuid)
| GetSession (id : Uuid) : top (option (option SessionRow.t))
| DeviceOwner (device : Uuid) : top (option Uuid)
| DeviceByDigest (digest : string) : top (option (Uuid * bool))
| IsOnline (device : Uuid) : top bool
| SendToBridge (device : Uuid) (message : ToBridge) : top bool
| ReadFileRequest : top (option FileRequest.t)
| SystemNow : top Z
| RegistryGet (id : string) : top (option Ref)
| RegistryRemove (id : string) : top unit
| Create (info : TransferInfo.t) : top (res Code (Ref * string))
| SweepTake : top (list Ref)
| ReadTransfer (r : Ref) : top Transfer.t
| Expired (r : Ref) : top bool
| SetProducer (r : Ref) (h : ProducerHandoff.t) : top bool
| SetConsumer (r : Ref) : top bool
| PutProducerAck (r : Ref) : top unit
| TakeProducerRx (r : Ref) : top unit
| TakeConsumerRx (r : Ref) : top unit
| TakeResultRx (r : Ref) : top bool
| DeliverResult (r : Ref) (result : pb.TransferResult.t) : top unit
| Complete (r : Ref) : top unit
| Cancel (r : Ref) (code : Code) : top unit
| TerminalCode (r : Ref) : top (option Code)
| IsTerminal (r : Ref) : top bool
| CancelRx (r : Ref) : top unit
| DropCancelRx (r : Ref) : top unit
| AwaitHandoff (r : Ref) (ms : Z) : top (Wait ProducerHandoff.t)
| AwaitConsumer (r : Ref) (ms : Z) : top (Wait unit)
| AwaitResult (r : Ref) (ms : Z) : top (Wait pb.TransferResult.t)
| ReadBody (r : Ref) : top (list (list byte) * BodyEnd)
| PushChunk (r : Ref) (chunk : list byte) : top bool
| PushError (r : Ref) : top unit
| CloseBody (r : Ref) : top unit.

Notation tprog := (prog top).

(** ** Ranges of requests *)

Definition parse_range (body : option RangeSpec.t) (range_header : option string) : res Code (option RangeSpec.t) :=
  let invalid := Err pb.StableErrorCode.TransferRangeInvalid in
  match body with
  | Some r =>
      match RangeSpec.end_inclusive r with
      | Some e => if e <? RangeSpec.start r then invalid else Ok (Some r)
      | None => Ok (Some r)
      end
  | None =>
      match range_header with
      | None => Ok None
      | Some raw =>
          match strip_prefix "bytes=" (trim raw) with
          | None => invalid
          | Some spec =>
              if contains_char comma spec then invalid
              else match split_once dash spec with
              | None => invalid
              | Some (start, e) =>
                  match parse_u64 (trim start) with
                  | None => invalid
                  | Some start =>
                      if bool_decide (trim e = "") then Ok (Some (RangeSpec.mk start None))
                      else match parse_u64 (trim e) with
                      | Some e => if start <=? e then Ok (Some (RangeSpec.mk start (Some e))) else invalid
                      | None => invalid
                      end
                  end
              end
          end
      end
  end.

(** [sanitize_name]: the printable ASCII characters but quotes and backslashes, at most 128. *)
Definition dquote : Ascii.ascii := byte_char 34.
Definition bslash : Ascii.ascii := byte_char 92.
Definition safe_char (c : Ascii.ascii) : bool := ascii_graphic c && negb (Ascii.eqb c dquote) && negb (Ascii.eqb c bslash).

Fixpoint keep_safe (n : nat) (s : string) : string :=
  match n, s with
  | O, _ => ""
  | _, EmptyString => ""
  | S n', String c s => if safe_char c then String c (keep_safe n' s) else keep_safe n s
  end.

Definition sanitize_name (name : string) : string :=
  let safe := keep_safe 128 (trim name) in
  if bool_decide (safe = "") then "file" else safe.

(** ** Responses *)

(** [status_for_code] of [state.rs]. *)
Definition status_for_code (code : Code) : Z :=
  match code with
  | pb.StableErrorCode.AuthRequired | pb.StableErrorCode.AuthExpired | pb.StableErrorCode.WsTicketInvalid
  | pb.StableErrorCode.WsTicketExpired | pb.StableErrorCode.WsTicketConsumed => 401
  | pb.StableErrorCode.SessionNotFound => 404
  | pb.StableErrorCode.RateLimited => 429
  | pb.StableErrorCode.DeviceOffline | pb.StableErrorCode.CodexUnavailable | pb.StableErrorCode.DeviceRevoked => 503
  | pb.StableErrorCode.StaleTurn | pb.StableErrorCode.DuplicateRequestMismatch
  | pb.StableErrorCode.QueueAlreadyExists => 409
  | _ => 500
  end.

Definition failed (code : Code) : Response := Failed (status_for_code code) code.
Definition gone : Response := Failed 404 pb.StableErrorCode.TransferExpired.

Definition transfer_error (code : Code) : Response :=
  Failed (if bool_decide (code = pb.StableErrorCode.TransferExpired) then 504 else status_for_code code) code.

(** [HeaderValue::from_str] succeeds (the crate [http]); the digest of a credential (the crate
    [sha2]); what [stable_code_name] and [as_str_name] print. *)
Class RelayHttp := {
  header_value_ok : string -> bool;
  sha256_hex : string -> string;
  stable_code_name : Z -> string;
  outcome_name : Z -> string;
}.

(** ** Cancelling *)

Definition cancel_and_remove (id : string) (code : Code) : tprog unit :=
  do found <- act (RegistryGet id);
  match found with
  | None => Ret tt
  | Some r =>
      do already <- act (IsTerminal r);
      perform act (Cancel r code);
      perform
        (if already : bool then Ret tt
         else
           do x <- act (ReadTransfer r);
           do _ <- act (SendToBridge (TransferInfo.device (Transfer.info x)) (ToResult (cancelled_result (Transfer.id x) code)));
           Ret tt);
      act (RegistryRemove id)
  end.

Fixpoint sweep_each (gone : list Ref) : tprog unit :=
  match gone with
  | [] => Ret tt
  | r :: gone =>
      do already <- act (IsTerminal r);
      perform act (Cancel r pb.StableErrorCode.TransferExpired);
      perform
        (if already : bool then Ret tt
         else
           do x <- act (ReadTransfer r);
           do _ <- act (SendToBridge (TransferInfo.device (Transfer.info x))
                          (ToResult (cancelled_result (Transfer.id x) pb.StableErrorCode.TransferExpired)));
           Ret tt);
      sweep_each gone
  end.

Definition sweep : tprog unit :=
  do gone <- act SweepTake;
  sweep_each gone.

(** A receiver that lives as long as [p] runs. *)
Definition with_cancel_rx {A} (r : Ref) (p : tprog A) : tprog A :=
  perform act (CancelRx r);
  do a <- p;
  perform act (DropCancelRx r);
  Ret a.

(** ** Browsers *)

Definition owned_session (owner id : Uuid) : tprog (res Response SessionRow.t) :=
  do found <- act (GetSession id);
  match found with
  | None => Ret (Err (Failed 500 pb.StableErrorCode.InternalError))
  | Some None => Ret (Err (Failed 404 pb.StableErrorCode.SessionNotFound))
  | Some (Some row) =>
      do o <- act (DeviceOwner (SessionRow.device_id row));
      Ret (if bool_decide (o = Some owner) then Ok row else Err (Failed 404 pb.StableErrorCode.SessionNotFound))
  end.

Definition offer_file_handle (x : Transfer.t) : string :=
  if bool_decide (TransferInfo.direction (Transfer.info x) = pb.TransferDirection.Download)
  then TransferInfo.file_handle (Transfer.info x) else "".

Definition send_offer (row : SessionRow.t) (r : Ref) : tprog bool :=
  do x <- act (ReadTransfer r);
  do now <- act SystemNow;
  let info := Transfer.info x in
  let offer :=
    pb.TransferOffer.mk (Transfer.id x) (pb.TransferDirection.as_i32 (TransferInfo.direction info))
      (Some (pb.SessionKey.mk (SessionRow.device_id row) (pb.AgentKind.as_i32 pb.AgentKind.CodexDesktop)
               (SessionRow.native_session_id row) (SessionRow.id row)))
      (TransferInfo.file_name info) (TransferInfo.mime info) (default 0 (TransferInfo.length info))
      (offer_file_handle x)
      (match TransferInfo.range info with Some r => RangeSpec.start r | None => 0 end)
      (TransferInfo.range info ≫= RangeSpec.end_inclusive)
      (Some (pb.Timestamp.mk ((now + TRANSFER_TTL) / 1000) ((now + TRANSFER_TTL) mod 1000 * 1000000))) in
  act (SendToBridge (SessionRow.device_id row) (ToOffer offer)).

(** The branches of a wait for the other end: cancelled, closed, timed out. *)
Definition wait_failed {A} (r : Ref) (id : string) (w : Wait A) : tprog (res Response A) :=
  match w with
  | WaitGot a => Ret (Ok a)
  | WaitCancelled =>
      do code <- act (TerminalCode r);
      perform act (RegistryRemove id);
      Ret (Err (transfer_error (default pb.StableErrorCode.TransferExpired code)))
  | WaitClosed =>
      perform act (RegistryRemove id);
      Ret (Err (transfer_error pb.StableErrorCode.TransferExpired))
  | WaitTimeout =>
      perform cancel_and_remove id pb.StableErrorCode.TransferExpired;
      Ret (Err (transfer_error pb.StableErrorCode.TransferExpired))
  end.

(** The headers of a producer; [header_str] has already dropped empty ones. *)
Module ProducerHeaders.
Record t := mk {
  x_content_type : option string;
  content_type : option string;
  x_disposition : option string;
  x_content_range : option string;
  content_range : option string;
  x_total_length : option string;
  x_length : option string;
}.
End ProducerHeaders.

Section Handlers.
Context `{RelayHttp}.

(** [inline] or [attachment], with a file name. *)
Definition default_disposition (info : TransferInfo.t) : string :=
  TransferInfo.disposition info +:+ "; filename=" +:+ String dquote (TransferInfo.file_name info +:+ String dquote "").

Definition nonempty (s : option string) : option string :=
  s ≫= (fun s => if bool_decide (s = "") then None else Some s).

Definition header (v : string) : option string := if header_value_ok v then Some v else None.

Definition download_response (info : TransferInfo.t) (h : ProducerHandoff.t) : Response :=
  DownloadStarted
    (if bool_decide (is_Some (ProducerHandoff.content_range h)) then 206 else 200)
    (header (default "application/octet-stream" (nonempty (ProducerHandoff.content_type h))))
    (header (default (default_disposition info) (nonempty (ProducerHandoff.content_disposition h))))
    (ProducerHandoff.content_range h ≫= header)
    (match ProducerHandoff.content_range h with Some _ => None | None => ProducerHandoff.total_length h end).

(** Run a handler that answers a response or an early one. *)
Definition respond (p : tprog (res Response Response)) : tprog Response :=
  do r <- p;
  Ret match r with Ok resp => resp | Err resp => resp end.

(** [range_header]: the [Range] header of the request; [disposition]: of the endpoint. *)
Definition start_download (session_id : Uuid) (range_header : option string) (disposition : string) : tprog Response :=
  respond (
    try? owner <- act RequireIdentity;
    try? row <- owned_session owner session_id;
    do online <- act (IsOnline (SessionRow.device_id row));
    if negb (online : bool) then Ret (Err (failed pb.StableErrorCode.DeviceOffline))
    else
      do parsed <- act ReadFileRequest;
      match parsed with
      | None => Ret (Err (Failed 400 pb.StableErrorCode.InternalError))
      | Some parsed =>
          if bool_decide (FileRequest.file_handle parsed = "")
          then Ret (Err (Failed 400 pb.StableErrorCode.FileHandleInvalid))
          else match parse_range (FileRequest.range parsed) range_header with
          | Err code => Ret (Err (Failed 400 code))
          | Ok range =>
              let info :=
                TransferInfo.mk pb.TransferDirection.Download owner (SessionRow.device_id row) (SessionRow.id row)
                  (sanitize_name (default "file" (FileRequest.file_name parsed))) "" None range disposition
                  (FileRequest.file_handle parsed) in
              do created <- act (Create info);
              match created with
              | Err code => Ret (Err (failed code))
              | Ok (r, id) =>
                  do offered <- send_offer row r;
                  if negb (offered : bool) then
                    perform cancel_and_remove id pb.StableErrorCode.DeviceOffline;
                    Ret (Err (failed pb.StableErrorCode.DeviceOffline))
                  else
                    perform act (TakeProducerRx r);
                    with_cancel_rx r (
                      do w <- act (AwaitHandoff r RENDEZVOUS_TIMEOUT);
                      try? h <- wait_failed r id w;
                      Ret (Ok (download_response info h)))
              end
          end
      end).

Definition upload_declare (session_id : Uuid) (body : UploadDeclare.t) : tprog Response :=
  respond (
    try? owner <- act RequireIdentity;
    try? row <- owned_session owner session_id;
    do online <- act (IsOnline (SessionRow.device_id row));
    if negb (online : bool) then Ret (Err (failed pb.StableErrorCode.DeviceOffline))
    else if RELAY_MAX_UPLOAD_BYTES <? UploadDeclare.length body then
      Ret (Err (Failed 413 pb.StableErrorCode.TransferTooLarge))
    else
      let info :=
        TransferInfo.mk pb.TransferDirection.Upload owner (SessionRow.device_id row) (SessionRow.id row)
          (sanitize_name (UploadDeclare.file_name body))
          (default "application/octet-stream" (UploadDeclare.mime body)) (Some (UploadDeclare.length body)) None
          "attachment" "" in
      do created <- act (Create info);
      match created with
      | Err code => Ret (Err (failed code))
      | Ok (r, id) =>
          do offered <- send_offer row r;
          if negb (offered : bool) then
            perform cancel_and_remove id pb.StableErrorCode.DeviceOffline;
            Ret (Err (failed pb.StableErrorCode.DeviceOffline))
          else
            Ret (Ok (UploadDeclared id ("/agent-console/api/sessions/" +:+ session_id +:+ "/files/upload/" +:+ id)))
      end).

(** The loop of [upload_stream] over the chunks of the request body; [transferred] so far. *)
Fixpoint pump_upload (r : Ref) (id : string) (chunks : list (list byte)) (stop : BodyEnd) (transferred : Z) :
    tprog (res Response Z) :=
  match chunks with
  | [] =>
      match stop with
      | BodyEof => Ret (Ok transferred)
      | BodyTimeout =>
          perform cancel_and_remove id pb.StableErrorCode.TransferExpired;
          Ret (Err (transfer_error pb.StableErrorCode.TransferExpired))
      | BodyError =>
          perform cancel_and_remove id pb.StableErrorCode.InternalError;
          Ret (Err (Failed 400 pb.StableErrorCode.InternalError))
      | BodyCancelled =>
          do code <- act (TerminalCode r);
          perform act (RegistryRemove id);
          Ret (Err (transfer_error (default pb.StableErrorCode.TransferExpired code)))
      end
  | chunk :: chunks =>
      let transferred := transferred + zlen chunk in
      if RELAY_MAX_UPLOAD_BYTES <? transferred then
        perform cancel_and_remove id pb.StableErrorCode.TransferTooLarge;
        Ret (Err (Failed 413 pb.StableErrorCode.TransferTooLarge))
      else
        do sent <- act (PushChunk r chunk);
        if negb (sent : bool) then
          perform cancel_and_remove id pb.StableErrorCode.InternalError;
          Ret (Err (transfer_error pb.StableErrorCode.TransferExpired))
        else pump_upload r id chunks stop transferred
  end.

Definition upload_result (id : string) (result : option pb.TransferResult.t) : Response :=
  match result with
  | None => Failed 504 pb.StableErrorCode.TransferExpired
  | Some result =>
      UploadDone id (outcome_name (pb.TransferResult.outcome result))
        (if pb.TransferResult.error_code result =? 0 then None
         else Some (stable_code_name (pb.TransferResult.error_code result)))
        (if bool_decide (pb.TransferResult.upload_file_handle result = "") then None
         else Some (pb.TransferResult.upload_file_handle result))
  end.

(** [upload_stream] once the consumer is there: the body, then the answer of the Bridge. *)
Definition send_body (r : Ref) (id : string) : tprog (res Response Response) :=
  do body <- act (ReadBody r);
  let (chunks, stop) := (body : list (list byte) * BodyEnd) in
  do pumped <- pump_upload r id chunks stop 0;
  perform act (CloseBody r);
  match pumped with
  | Err resp => Ret (Err resp)
  | Ok _ =>
      do waiting <- act (TakeResultRx r);
      with_cancel_rx r (
        do result <-
          (if (waiting : bool) then
             do w <- act (AwaitResult r RESULT_WAIT_TIMEOUT);
             Ret match w with WaitGot result => Some result | _ => None end
           else Ret None);
        perform act (RegistryRemove id);
        Ret (Ok (upload_result id result)))
  end.

Definition upload_stream (session_id : Uuid) (transfer_id : string) : tprog Response :=
  respond (
    try? owner <- act RequireIdentity;
    try? row <- owned_session owner session_id;
    do found <- act (RegistryGet transfer_id);
    match found with
    | None => Ret (Err gone)
    | Some r =>
        do x <- act (ReadTransfer r);
        let info := Transfer.info x in
        if negb (bool_decide (TransferInfo.owner info = owner))
           || negb (bool_decide (TransferInfo.session info = SessionRow.id row))
           || negb (bool_decide (TransferInfo.direction info = pb.TransferDirection.Upload))
        then Ret (Err gone)
        else
          do late <- act (Expired r);
          if late : bool then
            perform cancel_and_remove (Transfer.id x) pb.StableErrorCode.TransferExpired;
            Ret (Err gone)
          else
            perform act (TakeConsumerRx r);
            with_cancel_rx r (
              do w <- act (AwaitConsumer r RENDEZVOUS_TIMEOUT);
              try? _ <- wait_failed r (Transfer.id x) w;
              with_cancel_rx r (send_body r (Transfer.id x)))
    end).

(** ** Bridges *)

(** What follows [Bearer] in the header, trimmed; empty without it. *)
Definition bearer_of (authorization : option string) : string :=
  match authorization ≫= strip_prefix "Bearer " with Some b => trim b | None => "" end.

Definition authenticate_device (authorization : option string) : tprog (res Response Uuid) :=
  let bearer := bearer_of authorization in
  if bool_decide (bearer = "") then Ret (Err (Failed 401 pb.StableErrorCode.AuthRequired))
  else
    do row <- act (DeviceByDigest (sha256_hex bearer));
    Ret match row with
        | Some (device, false) => Ok device
        | Some (_, true) => Err (Failed 401 pb.StableErrorCode.DeviceRevoked)
        | None => Err (Failed 401 pb.StableErrorCode.AuthRequired)
        end.

(** [provided]: the header [X-Transfer-Token], empty without it. *)
Definition authorize_transfer (x : Transfer.t) (provided : string) (device : Uuid) (direction : pb.TransferDirection.t) :
    res Response unit :=
  let ok := negb (bool_decide (provided = "")) && bool_decide (sha256_hex provided = sha256_hex (Transfer.token x)) in
  if negb ok || negb (bool_decide (TransferInfo.device (Transfer.info x) = device))
     || negb (bool_decide (TransferInfo.direction (Transfer.info x) = direction))
  then Err (Failed 401 pb.StableErrorCode.AuthRequired)
  else Ok tt.

(** From the request of a Bridge to its transfer, for both endpoints. *)
Definition admission (transfer_id : string) (authorization : option string) (provided : string)
    (direction : pb.TransferDirection.t) : tprog (res Response (Ref * Transfer.t)) :=
  try? device <- authenticate_device authorization;
  do found <- act (RegistryGet transfer_id);
  match found with
  | None => Ret (Err gone)
  | Some r =>
      do x <- act (ReadTransfer r);
      try? _ <- lift (authorize_transfer x provided device direction);
      do late <- act (Expired r);
      if late : bool then
        perform cancel_and_remove (Transfer.id x) pb.StableErrorCode.TransferExpired;
        Ret (Err gone)
      else Ret (Ok (r, x))
  end.

Definition or_else {A} (o o' : option A) : option A := match o with Some _ => o | None => o' end.

Definition handoff_of (h : ProducerHeaders.t) : ProducerHandoff.t :=
  ProducerHandoff.mk
    (or_else (ProducerHeaders.x_content_type h) (ProducerHeaders.content_type h))
    (ProducerHeaders.x_disposition h)
    (or_else (ProducerHeaders.x_content_range h) (ProducerHeaders.content_range h))
    (or_else (ProducerHeaders.x_total_length h) (ProducerHeaders.x_length h) ≫= parse_u64).

Inductive PumpExit := PumpEof | PumpTimeout | PumpStreamError | PumpCancelled | PumpSinkClosed.

Fixpoint pump_body (r : Ref) (chunks : list (list byte)) (stop : BodyEnd) : tprog PumpExit :=
  match chunks with
  | [] =>
      match stop with
      | BodyEof => Ret PumpEof
      | BodyTimeout => perform act (PushError r); Ret PumpTimeout
      | BodyError => perform act (PushError r); Ret PumpStreamError
      | BodyCancelled => perform act (PushError r); Ret PumpCancelled
      end
  | chunk :: chunks =>
      do sent <- act (PushChunk r chunk);
      if (sent : bool) then pump_body r chunks stop else Ret PumpSinkClosed
  end.

(** The task [producer] spawns; here it runs before the response is returned, which nothing but the
    connection waits for. *)
Definition producer_task (r : Ref) (id : string) : tprog unit :=
  do body <- act (ReadBody r);
  let (chunks, stop) := (body : list (list byte) * BodyEnd) in
  do exit <- pump_body r chunks stop;
  perform
    match exit with
    | PumpEof => perform act (Complete r); act (RegistryRemove id)
    | PumpTimeout => cancel_and_remove id pb.StableErrorCode.TransferExpired
    | PumpStreamError | PumpSinkClosed => cancel_and_remove id pb.StableErrorCode.InternalError
    | PumpCancelled => cancel_and_remove id pb.StableErrorCode.TransferExpired
    end;
  act (CloseBody r).

Definition producer (transfer_id : string) (authorization : option string) (provided : string)
    (headers : ProducerHeaders.t) : tprog Response :=
  respond (
    try? (r, x) <- admission transfer_id authorization provided pb.TransferDirection.Download;
    do placed <- act (SetProducer r (handoff_of headers));
    if negb (placed : bool) then Ret (Err gone)
    else
      perform act (PutProducerAck r);
      perform with_cancel_rx r (producer_task r (Transfer.id x));
      Ret (Ok ProducerAccepted)).

Definition consumer (transfer_id : string) (authorization : option string) (provided : string) : tprog Response :=
  respond (
    try? (r, _) <- admission transfer_id authorization provided pb.TransferDirection.Upload;
    do placed <- act (SetConsumer r);
    if negb (placed : bool) then Ret (Err gone) else Ret (Ok ConsumerStream)).

(** ** Messages of a Bridge *)

Definition on_bridge_ready (device : Uuid) (ready : pb.TransferReady.t) : tprog unit :=
  do found <- act (RegistryGet (pb.TransferReady.transfer_id ready));
  match found with
  | None => Ret tt
  | Some r =>
      do x <- act (ReadTransfer r);
      if negb (bool_decide (TransferInfo.device (Transfer.info x) = device)) then Ret tt
      else if pb.TransferReady.ready ready then Ret tt
      else
        act (Cancel r (default pb.StableErrorCode.InternalError
                         (pb.StableErrorCode.try_from (pb.TransferReady.rejection_code ready))))
  end.

Definition on_bridge_result (device : Uuid) (result : pb.TransferResult.t) : tprog unit :=
  do found <- act (RegistryGet (pb.TransferResult.transfer_id result));
  match found with
  | None => Ret tt
  | Some r =>
      do x <- act (ReadTransfer r);
      if negb (bool_decide (TransferInfo.device (Transfer.info x) = device)) then Ret tt
      else
        perform act (DeliverResult r result);
        act (Complete r)
  end.
End Handlers.

(** ** Steps *)

(** The critical section an operation runs, if it runs one; [Create] draws its identifier and
    reference among those not used yet. *)
Definition critical {B : Type} (o : top B) (w : Relay.t) (b : option B) (w' : Relay.t) : Prop :=
  match o in top B return option B -> Prop with
  | RegistryGet id => fun b => (b, w') = registry_get id w
  | RegistryRemove id => fun b => (b, w') = registry_remove id w
  | Create info => fun b =>
      exists id r, heap w !! r = None /\ registry w !! id = None /\
        (b, w') = let (c, w1) := create info id r w in
                  (match c with Some (Ok r) => Some (Ok (r, id)) | Some (Err e) => Some (Err e) | None => None end, w1)
  | SweepTake => fun b => (b, w') = sweep_take w
  | SetProducer r h => fun b => (b, w') = locked r (set_producer h) w
  | SetConsumer r => fun b => (b, w') = locked r set_consumer w
  | PutProducerAck r => fun b => (b, w') = locked r put_producer_ack w
  | TakeProducerRx r => fun b => (b, w') = locked r take_producer_rx w
  | TakeConsumerRx r => fun b => (b, w') = locked r take_consumer_rx w
  | TakeResultRx r => fun b => (b, w') = locked r take_result_rx w
  | DeliverResult r result => fun b => (b, w') = locked r (deliver_result result) w
  | Complete r => fun b => (b, w') = locked r complete w
  | Cancel r code => fun b => (b, w') = locked r (cancel code) w
  | TerminalCode r => fun b => (b, w') = locked r terminal_code w
  | IsTerminal r => fun b => (b, w') = locked r is_terminal w
  | CancelRx r => fun b => (b, w') = locked r cancel_rx w
  | DropCancelRx r => fun b => (b, w') = drop_cancel_rx r w
  | _ => fun _ => False
  end b.

(** What a wait may find. *)
Definition wait_sound {A} (x : Transfer.t) (value : Shared.t -> option A) (b : option (Wait A)) : Prop :=
  match b with
  | Some WaitCancelled => Shared.cancelled (Transfer.shared x) = true
  | Some (WaitGot a) => value (Transfer.shared x) = Some a
  | Some WaitClosed => False
  | Some WaitTimeout => True
  | None => False
  end.

Definition tstep (B : Type) (o : top B) (w : Relay.t) (b : option B) (w' : Relay.t) : Prop :=
  critical o w b w' \/
  w' = w /\
  match o in top B return option B -> Prop with
  | ReadTransfer r => fun b => b = heap w !! r /\ is_Some b
  | Expired r => fun b => exists x, heap w !! r = Some x /\ b = Some (expired x w)
  | AwaitHandoff r _ => fun b => exists x, heap w !! r = Some x /\ wait_sound x Shared.handoff b
  | AwaitConsumer r _ => fun b =>
      exists x, heap w !! r = Some x /\ wait_sound x (fun s => if Shared.consumer s then Some tt else None) b
  | AwaitResult r _ => fun b => exists x, heap w !! r = Some x /\ wait_sound x Shared.result b
  | ReadBody r => fun b =>
      match b with
      | Some (_, BodyCancelled) => exists x, heap w !! r = Some x /\ Shared.cancelled (Transfer.shared x) = true
      | Some _ => True
      | None => False
      end
  | RequireIdentity => fun b =>
      match b with
      | Some (Ok _) | Some (Err (Failed _ _)) => True
      | _ => False
      end
  | GetSession _ | DeviceOwner _ | DeviceByDigest _ | IsOnline _ | SendToBridge _ _
  | ReadFileRequest | SystemNow | PushChunk _ _ | PushError _ | CloseBody _ => fun b => is_Some b
  | _ => fun _ => False
  end b.

(** What the other tasks do: time passes, and they run critical sections. *)
Inductive tenv : Relay.t -> Relay.t -> Prop :=
| tenv_time (w : Relay.t) (now : Z) : clock w <= now -> tenv w (Relay.mk (heap w) (registry w) (registry_poisoned w) now)
| tenv_critical {B : Type} (o : top B) (w w' : Relay.t) (b : option B) : critical o w b w' -> tenv w w'.

Inductive TObs :=
| DidT {B : Type} (o : top B) (b : B).

Definition tobs (B : Type) (o : top B) (b : B) : list TObs := [DidT o b].

Notation relay_exec := (texec tenv tstep tobs).
