(* ===== verification/RangeProps.v ===== *)
(** * A range on its way from the browser to the file

    The Relay parses the [Range] header of the browser and sends the Bridge two numbers; the Bridge
    makes a header of them and parses that.  Here the two parsers are compared: what reaches the file
    is what the Bridge would have read in the browser's own header. *)

From S2P Require Import Prelude RustStr Proto FilePolicy Grants FilesProps Transfers.

(** ** White space in a header *)

(** What [HeaderValue::to_str] lets through: visible characters, spaces and tabs. *)
Definition header_char (c : Ascii.ascii) : bool :=
  let n := Z.of_N (Ascii.N_of_ascii c) in ((32 <=? n) && (n <=? 126)) || (n =? 9).

Definition blank (c : Ascii.ascii) : bool :=
  let n := Z.of_N (Ascii.N_of_ascii c) in (n =? 32) || (n =? 9).

Fixpoint drop_blank (s : string) : string :=
  match s with
  | EmptyString => ""
  | String c s' => if blank c then drop_blank s' else s
  end.

(** From the other end. *)
Fixpoint drop_blank_end (s : string) : string :=
  match s with
  | EmptyString => ""
  | String c s =>
      match drop_blank_end s with
      | EmptyString => if blank c then "" else String c ""
      | t => String c t
      end
  end.

Lemma strip_one_header (c : Ascii.ascii) (s : string) :
  header_char c = true ->
  strip_one white_space (String c s) = (if blank c then Some s else None) /\
  strip_one (map str_rev white_space) (String c s) = (if blank c then Some s else None).
Proof. destruct c as [[] [] [] [] [] [] [] []]; intros Hc; try discriminate Hc; split; reflexivity. Qed.

Lemma strip_all_header (ps : list string) (n : nat) (s : string) :
  (forall c s, header_char c = true -> strip_one ps (String c s) = if blank c then Some s else None) ->
  strip_one ps "" = None -> str_all header_char s = true -> (String.length s <= n)%nat ->
  strip_all n ps s = drop_blank s.
Proof.
  intros Hps Hnil. revert s. induction n as [|n IH]; intros [|c s] Hs Hn; simpl in *; try done; try lia; [by rewrite Hnil|].
  apply andb_true_iff in Hs as [Hc Hs]. rewrite Hps by done. destruct (blank c); [|done]. apply IH; [done|lia].
Qed.

Lemma trim_start_header (s : string) : str_all header_char s = true -> trim_start s = drop_blank s.
Proof. intros Hs. apply strip_all_header; [intros c t Hc; exact (proj1 (strip_one_header c t Hc))|reflexivity|exact Hs|lia]. Qed.

Lemma length_str_rev (s : string) : String.length (str_rev s) = String.length s.
Proof.
  unfold str_rev, String.rev. assert (H : forall a b, String.length (String.rev_app a b) = (String.length a + String.length b)%nat).
  { induction a as [|c a IH]; intros b; [done|]. simpl. rewrite IH. simpl. lia. }
  rewrite H. simpl. lia.
Qed.

(** [drop_blank] stops at the first other character. *)
Lemma drop_blank_app (a x : string) (c : Ascii.ascii) :
  blank c = false -> drop_blank (a +:+ String c x) = drop_blank a +:+ String c x.
Proof. intros Hc. induction a as [|b a IH]; simpl; [by rewrite Hc|]. by destruct (blank b). Qed.

Lemma drop_blank_snoc (a : string) (c : Ascii.ascii) :
  drop_blank (a +:+ String c "") =
  match drop_blank a with EmptyString => if blank c then "" else String c "" | t => t +:+ String c "" end.
Proof.
  destruct (blank c) eqn:Hc.
  - induction a as [|b a IH]; simpl; [by rewrite Hc|]. by destruct (blank b).
  - rewrite drop_blank_app by done. by destruct (drop_blank a).
Qed.

Lemma str_rev_cons (c : Ascii.ascii) (s : string) : str_rev (String c s) = str_rev s +:+ String c "".
Proof. change (String c s) with (str_rev (String c "") +:+ s). by rewrite str_rev_app_rev. Qed.

Lemma drop_blank_end_rev (s : string) : drop_blank_end s = str_rev (drop_blank (str_rev s)).
Proof.
  induction s as [|c s IH]; [done|]. rewrite str_rev_cons, drop_blank_snoc. cbn [drop_blank_end]. rewrite IH.
  destruct (drop_blank (str_rev s)) as [|d t] eqn:Hd; [by destruct (blank c)|].
  rewrite <- (str_rev_involutive (String d t)), str_rev_app_rev, (str_rev_involutive (String d t)).
  destruct (str_rev (String d t)) as [|e u] eqn:He; [|done].
  apply (f_equal String.length) in He. by rewrite length_str_rev in He.
Qed.

Lemma trim_header (s : string) : str_all header_char s = true -> trim s = drop_blank_end (drop_blank s).
Proof.
  intros Hs. unfold trim, trim_end. rewrite trim_start_header by done.
  assert (Hd : str_all header_char (drop_blank s) = true).
  { clear -Hs. induction s as [|c s IH]; simpl in *; [done|]. apply andb_true_iff in Hs as [? ?].
    destruct (blank c); [by apply IH|]. simpl. by apply andb_true_iff. }
  rewrite strip_all_header; [by rewrite drop_blank_end_rev|intros c t Hc; exact (proj2 (strip_one_header c t Hc))|reflexivity|by rewrite str_all_rev|by rewrite length_str_rev].
Qed.

(** The two ends do not interfere. *)
Lemma drop_both_comm (s : string) : drop_blank (drop_blank_end s) = drop_blank_end (drop_blank s).
Proof.
  induction s as [|c s IH]; [done|]. cbn [drop_blank drop_blank_end]. destruct (blank c) eqn:Hc.
  - rewrite <- IH. destruct (drop_blank_end s); [done|]. cbn [drop_blank]. by rewrite Hc.
  - cbn [drop_blank_end]. destruct (drop_blank_end s); cbn [drop_blank]; by rewrite Hc.
Qed.

Lemma drop_blank_idem (s : string) : drop_blank (drop_blank s) = drop_blank s.
Proof. induction s as [|c s IH]; [done|]. simpl. destruct (blank c) eqn:Hc; [done|]. simpl. by rewrite Hc. Qed.

Lemma drop_blank_end_idem (s : string) : drop_blank_end (drop_blank_end s) = drop_blank_end s.
Proof. by rewrite !drop_blank_end_rev, str_rev_involutive, drop_blank_idem. Qed.

Lemma drop_blank_end_app (a x : string) (c : Ascii.ascii) :
  blank c = false -> drop_blank_end (a +:+ String c x) = a +:+ String c (drop_blank_end x).
Proof.
  intros Hc. induction a as [|b a IH].
  - change ("" +:+ String c x) with (String c x). change ("" +:+ String c (drop_blank_end x)) with (String c (drop_blank_end x)).
    cbn [drop_blank_end]. destruct (drop_blank_end x); [by rewrite Hc|done].
  - change (String b a +:+ String c x) with (String b (a +:+ String c x)). cbn [drop_blank_end]. rewrite IH.
    by destruct a.
Qed.

Lemma drop_both_empty (s : string) : drop_blank (drop_blank_end s) = "" -> drop_blank_end s = "".
Proof.
  induction s as [|c s IH]; [done|]. cbn [drop_blank_end]. destruct (drop_blank_end s) as [|d t] eqn:Hd.
  - destruct (blank c) eqn:Hc; [done|]. simpl. by rewrite Hc.
  - cbn [drop_blank]. destruct (blank c); [|done]. intros H. by specialize (IH H).
Qed.

Lemma drop_blank_contains (c : Ascii.ascii) (s : string) : contains_char c s = false -> contains_char c (drop_blank s) = false.
Proof.
  induction s as [|b s IH]; [done|]. simpl. intros [? ?]%orb_false_iff. destruct (blank b); [by apply IH|].
  simpl. by apply orb_false_iff.
Qed.

(** ** The two parsers *)

Lemma str_all_split (f : Ascii.ascii -> bool) (a b : string) (c : Ascii.ascii) :
  str_all f (a +:+ String c b) = true -> str_all f a = true /\ str_all f b = true.
Proof. rewrite str_all_app. simpl. intros [? [? ?]%andb_true_iff]%andb_true_iff. done. Qed.

Lemma str_all_strip (f : Ascii.ascii -> bool) (p s r : string) :
  str_all f s = true -> strip_prefix p s = Some r -> str_all f r = true.
Proof. intros Hs ->%strip_prefix_Some. rewrite str_all_app in Hs. by apply andb_true_iff in Hs as [_ ?]. Qed.

Lemma str_all_drop (f : Ascii.ascii -> bool) (s : string) : str_all f s = true -> str_all f (drop_blank s) = true.
Proof.
  induction s as [|c s IH]; [done|]. simpl. intros [? ?]%andb_true_iff. destruct (blank c); [by apply IH|]. simpl. by apply andb_true_iff.
Qed.

Lemma str_all_drop_end (f : Ascii.ascii -> bool) (s : string) : str_all f s = true -> str_all f (drop_blank_end s) = true.
Proof. intros Hs. rewrite drop_blank_end_rev, str_all_rev. apply str_all_drop. by rewrite str_all_rev. Qed.

(** What the Relay accepts, the Bridge reads alike. *)
Lemma parse_agree (h : string) (r : RangeSpec.t) (total : Z) :
  str_all header_char h = true -> parse_range None (Some h) = Ok (Some r) ->
  is_u64 (RangeSpec.start r) /\ (forall e, RangeSpec.end_inclusive r = Some e -> is_u64 e /\ RangeSpec.start r <= e) /\
  parse_single_range h total =
    (if total <=? RangeSpec.start r then Err FilesError.RangeInvalid
     else Ok (HttpRange.mk (RangeSpec.start r) (Z.min (default (total - 1) (RangeSpec.end_inclusive r)) (total - 1)))).
Proof.
  intros Hh Hp. unfold parse_range in Hp. unfold parse_single_range.
  assert (Ht : str_all header_char (trim h) = true) by (rewrite trim_header by done; by apply str_all_drop_end, str_all_drop).
  destruct (strip_prefix "bytes=" (trim h)) as [spec|] eqn:Hspec; [|done]. cbn [ok_or res_bind].
  destruct (contains_char comma spec); [done|].
  destruct (split_once dash spec) as [[a b]|] eqn:Hsplit; [|done]. apply split_once_Some in Hsplit as [-> Hdash].
  apply (str_all_strip _ _ _ _ Ht) in Hspec as Hs. destruct (str_all_split _ _ _ _ Hs) as [Ha Hb].
  assert (Htrim : trim (a +:+ String dash b) = drop_blank a +:+ String dash (drop_blank_end b)).
  { rewrite trim_header, drop_blank_app, drop_blank_end_app by done. done. }
  rewrite Htrim, split_once_here by by apply drop_blank_contains. cbn [ok_or res_bind].
  assert (Hta : trim (drop_blank a) = trim a) by (rewrite !trim_header by (done || by apply str_all_drop); by rewrite drop_blank_idem).
  assert (Htb : trim (drop_blank_end b) = trim b).
  { rewrite !trim_header by (done || by apply str_all_drop_end). by rewrite drop_both_comm, <- !drop_both_comm, drop_blank_end_idem. }
  destruct (parse_u64 (trim a)) as [start|] eqn:Hstart; [|done]. apply parse_u64_range in Hstart as Hstart64.
  rewrite bool_decide_eq_false_2 by (intros He; rewrite He in Hta; rewrite <- Hta in Hstart; done).
  rewrite Hta, Hstart, Htb. cbn [ok_or res_bind].
  assert (Hend : bool_decide (drop_blank_end b = "") = bool_decide (trim b = "")).
  { apply bool_decide_ext. rewrite trim_header, <- drop_both_comm by done. split; [by intros ->|apply drop_both_empty]. }
  rewrite Hend. revert Hp. destruct (bool_decide (trim b = "")); intros Hp.
  - simplify_eq. split_and!; [done|done|]. cbn. by rewrite Z.min_id.
  - destruct (parse_u64 (trim b)) as [e|] eqn:He; [|done]. apply parse_u64_range in He. case_match; [|done]. simplify_eq.
    bool_to_prop. split_and!; [done|naive_solver|]. cbn. by rewrite (proj2 (Z.ltb_ge e start)).
Qed.

(** C38. A range the Relay coordinates reaches the file as the browser wrote it.  For every [Range]
    header the Relay accepts and every file that is not empty, the header that the Bridge makes of
    the two numbers of the offer selects the bytes that the Bridge's own parser selects for the
    browser's header, and is refused when that is refused. *)
Theorem relay_range_agrees (h : string) (r : RangeSpec.t) (total : Z) :
  str_all header_char h = true -> is_u64 total -> 0 < total -> parse_range None (Some h) = Ok (Some r) ->
  res_bind (slice_of (range_header_of (RangeSpec.start r) (RangeSpec.end_inclusive r) total) total) (fun x => Ok x.1) =
  res_bind (slice_of (Some h) total) (fun x => Ok x.1).
Proof.
  intros Hh Ht Hpos Hp. destruct (parse_agree h r total Hh Hp) as (Hs & He & Hparse).
  rewrite range_header_selects by done. cbn [slice_of]. rewrite Hparse. unfold is_u64 in Hs.
  destruct (Z.leb_spec total (RangeSpec.start r)); cbn [andb].
  - rewrite (proj2 (Z.eqb_neq _ 0)) by lia. done.
  - rewrite (proj2 (Z.eqb_neq total 0)) by lia. unfold HttpRange.len. cbn. done.
Qed.

Lemma relay_range_agrees_witness :
  parse_range None (Some " bytes= 7 - 40 ") = Ok (Some (RangeSpec.mk 7 (Some 40))) /\
  res_bind (slice_of (range_header_of 7 (Some 40) 10) 10) (fun x => Ok x.1) =
  res_bind (slice_of (Some " bytes= 7 - 40 ") 10) (fun x => Ok x.1) /\
  res_bind (slice_of (Some " bytes= 7 - 40 ") 10) (fun x => Ok x.1) = Ok (7, 3).
Proof.
  split; [vm_compute; reflexivity|]. split; [|vm_compute; reflexivity].
  apply (relay_range_agrees " bytes= 7 - 40 " (RangeSpec.mk 7 (Some 40)) 10); [vm_compute; reflexivity|vm_compute; split; discriminate|reflexivity|vm_compute; reflexivity].
Defined.

(** The last bytes of a file can be asked of the Bridge, but not through the Relay. *)
Theorem suffix_range_stops_at_relay :
  parse_single_range "bytes=-5" 20 = Ok (HttpRange.mk 15 19) /\
  parse_range None (Some "bytes=-5") = Err pb.StableErrorCode.TransferRangeInvalid.
Proof. split; vm_compute; reflexivity. Qed.
