(* ===== verification/TransfersProps.v ===== *)
(** * Properties of the transfers of the Relay *)

From S2P Require Import Prelude RustStr Prog Domain Proto FilePolicy Transfers.

Import Relay (heap, registry, clock).

(** ** Counting *)

Definition weight (p : Transfer.t -> bool) (h : gmap Ref Transfer.t) (e : string * Ref) : Z :=
  match h !! e.2 with
  | Some x => if running x && p x then 1 else 0
  | None => 0
  end.

Lemma count_running_sum (p : Transfer.t -> bool) (w : Relay.t) :
  count_running p w = sum_by (weight p (heap w)) (map_to_list (registry w)).
Proof.
  unfold count_running, registered. induction (map_to_list (registry w)) as [|[id r] l IH]; [done|].
  rewrite sum_by_cons. unfold weight at 1. cbn [omap list_omap snd]. destruct (heap w !! r) as [x|]; [|rewrite Z.add_0_l; exact IH].
  rewrite filter_cons. destruct (running x && p x); cbn; [rewrite decide_True, zlen_cons by done|rewrite decide_False by done];
    unfold count_running, registered in IH; cbn in IH; lia.
Qed.

Lemma weight_nonneg (p : Transfer.t -> bool) (h : gmap Ref Transfer.t) (e : string * Ref) : 0 <= weight p h e.
Proof. unfold weight. repeat case_match; lia. Qed.

Lemma sum_by_le {A} (f g : A -> Z) (l : list A) : (forall x, x ∈ l -> f x <= g x) -> sum_by f l <= sum_by g l.
Proof.
  induction l as [|x l IH]; intros Hle; [done|]. rewrite !sum_by_cons.
  pose proof (Hle x ltac:(left)). assert (sum_by f l <= sum_by g l) by (apply IH; intros y Hy; apply Hle; by right). lia.
Qed.

Lemma sum_by_perm {A} (f : A -> Z) (l k : list A) : l ≡ₚ k -> sum_by f l = sum_by f k.
Proof. induction 1; rewrite ?sum_by_cons in *; lia. Qed.

Lemma sum_by_submseteq {A} (f : A -> Z) (l k : list A) :
  (forall x, 0 <= f x) -> l ⊆+ k -> sum_by f l <= sum_by f k.
Proof. intros Hf. induction 1; rewrite ?sum_by_cons; try lia. pose proof (Hf x). lia. Qed.

Lemma count_registry_mono (p : Transfer.t -> bool) (w : Relay.t) (m : gmap string Ref) :
  m ⊆ registry w -> count_running p (Relay.with_registry m w) <= count_running p w.
Proof.
  intros Hm. rewrite !count_running_sum. simpl. apply sum_by_submseteq; [apply weight_nonneg|].
  by apply map_to_list_submseteq.
Qed.

(** ** How a transfer changes *)

(** One change of [shared], or many: what was decided stays decided. *)
Record evolves (s s' : Shared.t) : Prop := {
  ev_terminal : Shared.terminal s = true ->
    Shared.terminal s' = true /\ Shared.terminal_code s' = Shared.terminal_code s /\
    Shared.cancelled s' = Shared.cancelled s /\ Shared.handoff s' = Shared.handoff s /\
    Shared.consumer s' = Shared.consumer s;
  ev_handoff : forall h, Shared.handoff s = Some h -> Shared.handoff s' = Some h;
  ev_producer_tx : Shared.producer_tx s = false -> Shared.producer_tx s' = false;
  ev_result : forall r, Shared.result_tx s = false -> Shared.result s = Some r -> Shared.result_tx s' = false /\ Shared.result s' = Some r;
  ev_producer_rx : Shared.producer_rx s = false -> Shared.producer_rx s' = false;
  ev_consumer_rx : Shared.consumer_rx s = false -> Shared.consumer_rx s' = false;
  ev_poisoned : Shared.poisoned s = true -> Shared.poisoned s' = true;
}.

(** The channels agree with what was sent through them, a code is that of a cancellation. *)
Record shared_ok (s : Shared.t) : Prop := {
  ok_handoff : Shared.handoff s = None <-> Shared.producer_tx s = true;
  ok_consumer : Shared.consumer s = false <-> Shared.consumer_tx s = true;
  ok_result : Shared.result s = None <-> Shared.result_tx s = true;
  ok_cancelled : Shared.cancelled s = true -> is_Some (Shared.terminal_code s);
  ok_terminal : is_Some (Shared.terminal_code s) -> Shared.terminal s = true;
}.

Lemma evolves_refl (s : Shared.t) : evolves s s.
Proof. constructor; naive_solver. Qed.

Lemma evolves_trans (s1 s2 s3 : Shared.t) : evolves s1 s2 -> evolves s2 s3 -> evolves s1 s3.
Proof. intros [] []. constructor; naive_solver congruence. Qed.

Lemma fresh_ok : shared_ok Shared.fresh.
Proof.
  constructor; simpl; [done|done|done|done|]. intros [c Hc]. discriminate Hc.
Qed.

Definition section_ok {A} (f : Transfer.t -> option A * Shared.t) : Prop :=
  forall x, shared_ok (Transfer.shared x) ->
    shared_ok (f x).2 /\ evolves (Transfer.shared x) (f x).2.

Ltac shared_solver :=
  intros [? ? ? ? ? [tx rx ho ctx crx co ack rtx rrx res ca te tc po re]] [K1 K2 K3 K4 K5]; cbn in *;
  repeat case_match; cbn; split; constructor; cbn; naive_solver.

Lemma set_producer_ok (h : ProducerHandoff.t) : section_ok (set_producer h).
Proof. unfold section_ok, set_producer. shared_solver. Qed.

Lemma set_consumer_ok : section_ok set_consumer.
Proof. unfold section_ok, set_consumer. shared_solver. Qed.

Lemma take_producer_rx_ok : section_ok take_producer_rx.
Proof. unfold section_ok, take_producer_rx. shared_solver. Qed.

Lemma take_consumer_rx_ok : section_ok take_consumer_rx.
Proof. unfold section_ok, take_consumer_rx. shared_solver. Qed.

Lemma take_result_rx_ok : section_ok take_result_rx.
Proof. unfold section_ok, take_result_rx. shared_solver. Qed.

Lemma deliver_result_ok (r : pb.TransferResult.t) : section_ok (deliver_result r).
Proof. unfold section_ok, deliver_result. shared_solver. Qed.

Lemma complete_ok : section_ok complete.
Proof. unfold section_ok, complete. shared_solver. Qed.

Lemma cancel_ok (code : Code) : section_ok (cancel code).
Proof.
  unfold section_ok, cancel. intros x Hok. destruct (Shared.terminal (Transfer.shared x)) eqn:Ht; [split; [done|apply evolves_refl]|].
  assert (Hs : shared_ok (Shared.cancel code (Transfer.shared x)) /\ evolves (Transfer.shared x) (Shared.cancel code (Transfer.shared x))).
  { split; [|constructor; simpl; intros; try congruence; auto]. constructor; simpl; [apply Hok..| |]; eauto. }
  destruct (Shared.result_tx _) eqn:Hr; [|done]. destruct Hs as [Hs1 Hs2]. split.
  - constructor; simpl; try apply Hs1; done.
  - eapply evolves_trans; [exact Hs2|]. constructor; simpl; intros; simpl in Hr; try congruence; auto.
Qed.

Lemma put_producer_ack_ok : section_ok put_producer_ack.
Proof. unfold section_ok, put_producer_ack. shared_solver. Qed.

Lemma terminal_code_ok : section_ok terminal_code.
Proof. unfold section_ok, terminal_code. shared_solver. Qed.

Lemma is_terminal_ok : section_ok is_terminal.
Proof. unfold section_ok, is_terminal. shared_solver. Qed.

Lemma cancel_rx_ok : section_ok cancel_rx.
Proof. unfold section_ok, cancel_rx. shared_solver. Qed.

(** ** How the Relay changes *)

(** The kinds of change a critical section makes. *)
Inductive change : Relay.t -> Relay.t -> Prop :=
| change_time (w : Relay.t) (now : Z) : clock w <= now -> change w (Relay.mk (heap w) (registry w) (registry_poisoned w) now)
| change_none (w : Relay.t) : change w w
| change_shared (w : Relay.t) (r : Ref) (x : Transfer.t) (s : Shared.t) :
    heap w !! r = Some x -> (shared_ok (Transfer.shared x) -> shared_ok s /\ evolves (Transfer.shared x) s) ->
    change w (Relay.with_heap (<[r := Transfer.with_shared s x]> (heap w)) w)
| change_remove (w : Relay.t) (m : gmap string Ref) : m ⊆ registry w -> change w (Relay.with_registry m w)
| change_poison (w : Relay.t) : change w (Relay.poison w)
| change_create (w : Relay.t) (info : TransferInfo.t) (id : string) (r : Ref) :
    heap w !! r = None -> registry w !! id = None -> registry_poisoned w = false ->
    count_running (owned_by (TransferInfo.owner info)) w < MAX_CONCURRENT_PER_BROWSER ->
    count_running (on_device (TransferInfo.device info)) w < MAX_CONCURRENT_PER_DEVICE ->
    change w (Relay.mk (<[r := Transfer.mk id id info (clock w) (clock w + TRANSFER_TTL) Shared.fresh]> (heap w))
                (<[id := r]> (registry w)) false (clock w)).

Lemma poison_ok (s : Shared.t) : shared_ok s -> shared_ok (Shared.poison s) /\ evolves s (Shared.poison s).
Proof. destruct s. intros []. split; constructor; cbn in *; naive_solver. Qed.

Lemma receivers_ok (n : Z) (s : Shared.t) : shared_ok s -> shared_ok (Shared.add_receivers n s) /\ evolves s (Shared.add_receivers n s).
Proof. destruct s. intros []. split; constructor; cbn in *; naive_solver. Qed.

Lemma locked_change {A} (r : Ref) (f : Transfer.t -> option A * Shared.t) (w w' : Relay.t) (b : option A) :
  section_ok f -> (b, w') = locked r f w -> change w w'.
Proof.
  unfold locked. intros Hf. destruct (heap w !! r) as [x|] eqn:Hx; [|intros; simplify_eq; constructor].
  case_match; [intros; simplify_eq; constructor|]. destruct (f x) as [a s] eqn:Hfx. intros [= -> ->].
  apply change_shared; [done|]. intros Hs. destruct (Hf x Hs) as [Ho He]. rewrite Hfx in Ho, He. simpl in Ho, He.
  destruct a; [done|]. destruct (poison_ok s Ho). split; [done|]. by eapply evolves_trans.
Qed.

Lemma sweep_subset (w : Relay.t) (P : string * Ref -> Prop) `{forall x, Decision (P x)} : filter P (registry w) ⊆ registry w.
Proof. apply map_filter_subseteq. Qed.

Create HintDb sections.
#[export] Hint Resolve set_producer_ok set_consumer_ok take_producer_rx_ok take_consumer_rx_ok take_result_rx_ok
  deliver_result_ok complete_ok cancel_ok put_producer_ack_ok terminal_code_ok is_terminal_ok cancel_rx_ok : sections.

Lemma critical_change {B} (o : top B) (w w' : Relay.t) (b : option B) : critical o w b w' -> change w w'.
Proof.
  destruct o; simpl; intros Hc; try done;
    try (eapply locked_change; [|exact Hc]; auto with sections; fail).
  - unfold registry_get in Hc. case_match; simplify_eq; constructor.
  - unfold registry_remove in Hc. case_match; simplify_eq; [constructor|]. apply change_remove, delete_subseteq.
  - destruct Hc as (id & r & Hr & Hid & Hc). unfold create in Hc. repeat case_match; simplify_eq; bool_to_prop; try constructor; done.
  - unfold sweep_take in Hc. case_match; simplify_eq; [constructor|]. apply change_remove, map_filter_subseteq.
  - unfold drop_cancel_rx in Hc. case_match; simplify_eq; [|constructor]. apply change_shared; [done|]. apply receivers_ok.
Qed.

Lemma tenv_change (w w' : Relay.t) : tenv w w' -> change w w'.
Proof. destruct 1; [by constructor|by eapply critical_change]. Qed.

Lemma tstep_change {B} (o : top B) (w w' : Relay.t) (b : option B) : tstep B o w b w' -> change w w'.
Proof. intros [Hc|[-> _]]; [by eapply critical_change|constructor]. Qed.

(** ** The invariant *)

Definition same_transfer (x x' : Transfer.t) : Prop :=
  Transfer.id x' = Transfer.id x /\ Transfer.token x' = Transfer.token x /\ Transfer.info x' = Transfer.info x /\
  Transfer.expires_at x' = Transfer.expires_at x.

Record relay_ok (w : Relay.t) : Prop := {
  ok_registry : forall id r, registry w !! id = Some r -> exists x, heap w !! r = Some x /\ Transfer.id x = id;
  ok_shared : forall r x, heap w !! r = Some x -> shared_ok (Transfer.shared x) /\ Transfer.token x = Transfer.id x;
  ok_browser : forall owner, count_running (owned_by owner) w <= MAX_CONCURRENT_PER_BROWSER;
  ok_device : forall device, count_running (on_device device) w <= MAX_CONCURRENT_PER_DEVICE;
}.

(** Everything known about a transfer stays known. *)
Definition later (w w' : Relay.t) : Prop :=
  clock w <= clock w' /\ (registry_poisoned w = true -> registry_poisoned w' = true) /\
  forall r x, heap w !! r = Some x -> shared_ok (Transfer.shared x) ->
    exists x', heap w' !! r = Some x' /\ same_transfer x x' /\ evolves (Transfer.shared x) (Transfer.shared x').

Lemma change_later (w w' : Relay.t) : change w w' -> later w w'.
Proof.
  unfold later. intros Hc.
  assert (Hkeep : forall r x, heap w' !! r = Some x ->
            exists x', heap w' !! r = Some x' /\ same_transfer x x' /\ evolves (Transfer.shared x) (Transfer.shared x'))
    by (intros r x Hx; exists x; split_and!; [done|done|apply evolves_refl]).
  destruct Hc as [w now Hle|w|w r x s Hx Hs|w m Hm|w|w info id r Hr Hid Hp _ _]; simpl in *; (split; [lia|]);
    (split; [by try congruence|]); intros r' x' Hx' Hok; try (by apply Hkeep).
  - destruct (decide (r' = r)) as [->|Hne]; [|apply Hkeep; by rewrite lookup_insert_ne].
    rewrite lookup_insert_eq. simplify_eq. eexists. split; [done|]. destruct (Hs Hok). done.
  - apply Hkeep. rewrite lookup_insert_ne by naive_solver. done.
Qed.

Lemma shared_count (p : Transfer.t -> bool) (w : Relay.t) (r : Ref) (x : Transfer.t) (s : Shared.t) :
  heap w !! r = Some x -> evolves (Transfer.shared x) s -> (forall s, p (Transfer.with_shared s x) = p x) ->
  count_running p (Relay.with_heap (<[r := Transfer.with_shared s x]> (heap w)) w) <= count_running p w.
Proof.
  intros Hx He Hp. rewrite !count_running_sum. simpl. apply sum_by_le. intros [id r'] _. unfold weight. simpl.
  destruct (decide (r' = r)) as [->|Hne]; [|by rewrite lookup_insert_ne].
  rewrite lookup_insert_eq, Hx, Hp. unfold running. simpl. destruct (Shared.terminal (Transfer.shared x)) eqn:Ht.
  - destruct (ev_terminal _ _ He Ht) as [-> _]. done.
  - repeat case_match; simpl in *; lia || (bool_to_prop; congruence).
Qed.

Lemma create_count (p : Transfer.t -> bool) (w : Relay.t) (x : Transfer.t) (id : string) (r : Ref) :
  relay_ok w -> heap w !! r = None -> registry w !! id = None ->
  count_running p (Relay.mk (<[r := x]> (heap w)) (<[id := r]> (registry w)) false (clock w)) =
  count_running p w + (if running x && p x then 1 else 0).
Proof.
  intros Hok Hr Hid. rewrite !count_running_sum. simpl.
  rewrite (sum_by_perm _ _ _ (map_to_list_insert _ id r Hid)), sum_by_cons. unfold weight at 1. simpl.
  rewrite lookup_insert_eq. rewrite Z.add_comm. f_equal.
  assert (Hin : forall e, e ∈ map_to_list (registry w) -> weight p (<[r:=x]> (heap w)) e = weight p (heap w) e).
  { intros [id' r'] He. apply elem_of_map_to_list in He. unfold weight. simpl. rewrite lookup_insert_ne; [done|].
    intros <-. destruct (ok_registry _ Hok _ _ He) as (y & Hy & _). congruence. }
  apply Z.le_antisymm; apply sum_by_le; intros e He; rewrite Hin; done.
Qed.

Lemma relay_ok_change (w w' : Relay.t) : change w w' -> relay_ok w -> relay_ok w'.
Proof.
  intros Hc Hok. pose proof (change_later _ _ Hc) as Hl. pose proof Hok as [Hreg Hsh Hb Hd].
  destruct Hc as [w now Hle|w|w r x s Hx Hs|w m Hm|w|w info id r Hr Hid Hp Hlb Hld].
  - by constructor.
  - done.
  - destruct (Hsh _ _ Hx) as [Hsx Htok]. destruct (Hs Hsx) as [Hs' He]. constructor; simpl.
    + intros id r' Hr'. destruct (Hreg _ _ Hr') as (y & Hy & <-). destruct (decide (r' = r)) as [->|Hne].
      * rewrite lookup_insert_eq. simplify_eq. eauto.
      * rewrite lookup_insert_ne by done. eauto.
    + intros r' y. destruct (decide (r' = r)) as [->|Hne]; [rewrite lookup_insert_eq|rewrite lookup_insert_ne by done; apply Hsh].
      intros [= <-]. done.
    + intros owner. etrans; [by apply shared_count|apply Hb].
    + intros device. etrans; [by apply shared_count|apply Hd].
  - constructor; simpl; [|exact Hsh| |].
    + intros id r Hr. apply Hreg. by eapply lookup_weaken.
    + intros owner. etrans; [by apply count_registry_mono|apply Hb].
    + intros device. etrans; [by apply count_registry_mono|apply Hd].
  - by constructor.
  - constructor; simpl.
    + intros id' r' [[<- <-]|[Hne Hr']]%lookup_insert_Some; [rewrite lookup_insert_eq; eauto|].
      destruct (Hreg _ _ Hr') as (y & Hy & <-). rewrite lookup_insert_ne by congruence. eauto.
    + intros r' y [[<- <-]|[Hne Hy]]%lookup_insert_Some; [|by eapply Hsh].
      split; [apply fresh_ok|done].
    + intros owner. rewrite create_count by done. unfold owned_by in *. simpl. case_bool_decide; [subst|pose proof (Hb owner); unfold owned_by in *; lia].
      unfold MAX_CONCURRENT_PER_BROWSER in *. lia.
    + intros device. rewrite create_count by done. unfold on_device in *. simpl. case_bool_decide; [subst|pose proof (Hd device); unfold on_device in *; lia].
      unfold MAX_CONCURRENT_PER_DEVICE in *. lia.
Qed.

Lemma relay_ok_init : relay_ok Relay.init.
Proof. constructor; simpl; done. Qed.

Lemma relay_ok_rtc (w w' : Relay.t) : rtc tenv w w' -> relay_ok w -> relay_ok w'.
Proof. induction 1; eauto using relay_ok_change, tenv_change. Qed.

Lemma same_transfer_trans (x y z : Transfer.t) : same_transfer x y -> same_transfer y z -> same_transfer x z.
Proof. unfold same_transfer. naive_solver congruence. Qed.

Lemma later_rtc (w w' : Relay.t) : rtc tenv w w' -> relay_ok w -> later w w'.
Proof.
  induction 1 as [w|w1 w2 w3 H12 H23 IH]; intros Hok.
  - split; [lia|]. split; [done|]. intros r x Hx _. exists x. split_and!; done.
  - pose proof (tenv_change _ _ H12) as Hc. pose proof (relay_ok_change _ _ Hc Hok) as Hok2.
    destruct (change_later _ _ Hc) as (? & ? & H1), (IH Hok2) as (? & ? & H2). split; [lia|]. split; [auto|].
    intros r x Hx Hs. destruct (H1 _ _ Hx Hs) as (y & Hy & ? & ?).
    destruct (H2 _ _ Hy (proj1 (ok_shared _ Hok2 _ _ Hy))) as (z & Hz & ? & ?).
    exists z. split_and!; [done|by eapply same_transfer_trans|by eapply evolves_trans].
Qed.

(** ** Runs *)

Definition sound (w : Relay.t) : Prop := rtc tenv Relay.init w.

Lemma sound_ok (w : Relay.t) : sound w -> relay_ok w.
Proof. intros Hs. eapply relay_ok_rtc; [exact Hs|apply relay_ok_init]. Qed.

Lemma tstep_env {B} (o : top B) (w w' : Relay.t) (b : option B) : tstep B o w b w' -> rtc tenv w w'.
Proof. intros [Hc|[-> _]]; [by eapply rtc_once, tenv_critical|done]. Qed.

(** A run is, for everybody else, part of the environment. *)
Lemma relay_exec_env {A} (p : tprog A) (w w' : Relay.t) (t : list TObs) (a : option A) :
  relay_exec p w t a w' -> rtc tenv w w'.
Proof.
  intros He. assert (Hall : prog_all (fun _ _ => True) p) by (clear He; induction p; simpl; eauto).
  eapply (texec_stable_all _ _ _ _ (fun w' => rtc tenv w w') p w w' t a); [..|exact He|done].
  - intros w1 w2 Hs Hr. etrans; [exact Hr|by apply rtc_once].
  - intros B o w1 b w2 _ Hs%tstep_env Hr. by etrans.
  - exact Hall.
Qed.

(** ** Limits *)

(** At every moment at most two registered transfers of an owner, and at most two to a device,
    are running, whatever the requests, the Bridges and the sweeper do and in whatever order. *)
Theorem limits_hold (w : Relay.t) :
  rtc tenv Relay.init w ->
  (forall owner, count_running (owned_by owner) w <= MAX_CONCURRENT_PER_BROWSER) /\
  (forall device, count_running (on_device device) w <= MAX_CONCURRENT_PER_DEVICE).
Proof. intros Hok%sound_ok. split; [apply ok_browser|apply ok_device]; done. Qed.

(** ** One outcome *)

(** C37. A transfer is decided once.  Whatever happens after it became terminal, its code, whether it
    was cancelled, and what was handed over stay as they are; a producer that was accepted stays the
    only one, a result that was delivered the only one. *)
Theorem decided_once (w w' : Relay.t) (r : Ref) (x : Transfer.t) :
  rtc tenv Relay.init w -> rtc tenv w w' -> heap w !! r = Some x ->
  exists x', heap w' !! r = Some x' /\ same_transfer x x' /\
    (Shared.terminal (Transfer.shared x) = true ->
       Shared.terminal (Transfer.shared x') = true /\
       Shared.terminal_code (Transfer.shared x') = Shared.terminal_code (Transfer.shared x) /\
       Shared.cancelled (Transfer.shared x') = Shared.cancelled (Transfer.shared x) /\
       Shared.handoff (Transfer.shared x') = Shared.handoff (Transfer.shared x) /\
       Shared.consumer (Transfer.shared x') = Shared.consumer (Transfer.shared x)) /\
    (forall h, Shared.handoff (Transfer.shared x) = Some h -> Shared.handoff (Transfer.shared x') = Some h) /\
    (forall res, Shared.result (Transfer.shared x) = Some res -> Shared.result (Transfer.shared x') = Some res).
Proof.
  intros Hs%sound_ok Hr Hx. destruct (later_rtc _ _ Hr Hs) as (_ & _ & Hl).
  destruct (ok_shared _ Hs _ _ Hx) as [Hok _]. destruct (Hl _ _ Hx Hok) as (x' & Hx' & Hsame & He).
  exists x'. split_and!; [done|done|apply (ev_terminal _ _ He)|apply (ev_handoff _ _ He)|].
  intros res Hres. apply (ev_result _ _ He); [|done].
  destruct (Shared.result_tx (Transfer.shared x)) eqn:Htx; [|done].
  apply (ok_result _ Hok) in Htx. congruence.
Qed.

(** ** Poison *)

(** Nothing but the answer [None] comes of a section on a poisoned lock. *)
Lemma locked_poisoned {A} (r : Ref) (f : Transfer.t -> option A * Shared.t) (w w' : Relay.t) (b : option A) (x : Transfer.t) :
  heap w !! r = Some x -> Shared.poisoned (Transfer.shared x) = true -> (b, w') = locked r f w -> b = None /\ w' = w.
Proof. unfold locked. intros -> ->. by intros [= -> ->]. Qed.

Lemma registered_intro (w : Relay.t) (id : string) (r : Ref) (x : Transfer.t) :
  registry w !! id = Some r -> heap w !! r = Some x -> x ∈ registered w.
Proof.
  intros Hid Hx. unfold registered. apply list_elem_of_omap. exists (id, r). split; [by apply elem_of_map_to_list|done].
Qed.

(** A second request for the same upload, [expect] finding the receiver gone, is not the only one to
    fail. Its panic poisons the transfer; with it registered, the next transfer anybody creates
    panics and poisons the registry; from then on every look-up, removal, creation and sweep panics:
    the Relay transfers nothing until it is restarted. *)
Theorem second_put_stops_relay (w w1 w2 w3 w4 : Relay.t) (id : string) (r : Ref) (x : Transfer.t)
    (b : option unit) (info : TransferInfo.t) (b' : option (res Code (Ref * string))) :
  rtc tenv Relay.init w -> heap w !! r = Some x -> Shared.consumer_rx (Transfer.shared x) = false ->
  critical (TakeConsumerRx r) w b w1 ->
  rtc tenv w1 w2 -> registry w2 !! id = Some r ->
  critical (Create info) w2 b' w3 -> rtc tenv w3 w4 ->
  b = None /\ b' = None /\
  (forall id, (registry_get id w4).1 = None) /\ (forall id, (registry_remove id w4).1 = None) /\
  (sweep_take w4).1 = None /\ (forall info id r, (create info id r w4).1 = None).
Proof.
  intros Hs Hx Hrx Htake H12 Hid Hcreate H34. pose proof (sound_ok _ Hs) as Hok.
  assert (Hs1 : rtc tenv Relay.init w1) by (eapply rtc_r; [exact Hs|by eapply tenv_critical]).
  pose proof (sound_ok _ Hs1) as Hok1.
  assert (Hp : b = None /\ exists x1, heap w1 !! r = Some x1 /\ Shared.poisoned (Transfer.shared x1) = true).
  { cbn in Htake. unfold locked in Htake. rewrite Hx in Htake. unfold take_consumer_rx in Htake. rewrite Hrx in Htake.
    case_match; simplify_eq; [eauto|]. split; [done|]. simpl. rewrite lookup_insert_eq. eauto. }
  destruct Hp as (-> & x1 & Hx1 & Hp1). destruct (later_rtc _ _ H12 Hok1) as (_ & _ & Hl).
  destruct (Hl _ _ Hx1 (proj1 (ok_shared _ Hok1 _ _ Hx1))) as (x2 & Hx2 & _ & He).
  pose proof (ev_poisoned _ _ He Hp1) as Hp2.
  assert (Hdead : b' = None /\ registry_poisoned w3 = true).
  { destruct Hcreate as (id' & r' & _ & _ & Hc). unfold create in Hc.
    destruct (registry_poisoned w2) eqn:Hpw; [simplify_eq; done|].
    rewrite (proj2 (existsb_exists _ _)) in Hc; [by simplify_eq|]. exists x2. split; [|done].
    apply list_elem_of_In. by eapply registered_intro. }
  destruct Hdead as [-> Hp3].
  assert (Hs3 : rtc tenv Relay.init w3).
  { eapply rtc_r; [etrans; [exact Hs1|exact H12]|]. by eapply tenv_critical. }
  destruct (later_rtc _ _ H34 (sound_ok _ Hs3)) as (_ & Hp4 & _). specialize (Hp4 Hp3).
  unfold registry_get, registry_remove, sweep_take, create. rewrite Hp4. done.
Qed.

(** ** The end that is not heard *)

Section Props.
Context `{RelayHttp}.

Lemma silent_wait {A} (value : Shared.t -> option A) (w w1 : Relay.t) (r : Ref) (x : Transfer.t) (b : Wait A) :
  rtc tenv Relay.init w -> rtc tenv w w1 -> heap w !! r = Some x ->
  Shared.terminal (Transfer.shared x) = true -> Shared.cancelled (Transfer.shared x) = false ->
  value (Transfer.shared x) = None -> (forall y, evolves (Transfer.shared x) y -> value y = value (Transfer.shared x)) ->
  (exists y, heap w1 !! r = Some y /\ wait_sound y value (Some b)) -> b = WaitTimeout.
Proof.
  intros Hs Hr Hx Ht Hc Hv Hkeep (y & Hy & Hwait). pose proof (sound_ok _ Hs) as Hok.
  destruct (later_rtc _ _ Hr Hok) as (_ & _ & Hl). destruct (Hl _ _ Hx (proj1 (ok_shared _ Hok _ _ Hx))) as (y' & Hy' & _ & He).
  simplify_eq. destruct (ev_terminal _ _ He Ht) as (_ & _ & Hc' & _). destruct b; simpl in Hwait; try done; [congruence|].
  rewrite Hkeep in Hwait by done. congruence.
Qed.

(** An end that is not heard.  A transfer can be over while nobody was told: the Bridge reports
    the result of a download before anything was handed over, or it refuses a transfer while no
    request waits for it, so that the cancellation is sent to no receiver and not stored.  From then
    on the browser's wait, for the Bridge's bytes or for its readiness, ends in one way only: after
    ten seconds, with 504 and [TRANSFER_EXPIRED] whatever the Bridge said. *)
Theorem unheard_end_times_out (w w' : Relay.t) (t : list TObs) (r : Ref) (id : string) (x : Transfer.t) :
  rtc tenv Relay.init w -> heap w !! r = Some x ->
  Shared.terminal (Transfer.shared x) = true -> Shared.cancelled (Transfer.shared x) = false ->
  (forall answer, Shared.handoff (Transfer.shared x) = None ->
     relay_exec (prog_bind (act (AwaitHandoff r RENDEZVOUS_TIMEOUT)) (wait_failed r id)) w t (Some answer) w' ->
     answer = Err (Failed 504 pb.StableErrorCode.TransferExpired)) /\
  (forall answer, Shared.consumer (Transfer.shared x) = false ->
     relay_exec (prog_bind (act (AwaitConsumer r RENDEZVOUS_TIMEOUT)) (wait_failed r id)) w t (Some answer) w' ->
     answer = Err (Failed 504 pb.StableErrorCode.TransferExpired)).
Proof.
  intros Hs Hx Ht Hc. split; intros answer Hnone He;
    (apply texec_bind in He as [[He ?]|(t1 & b & w1 & t2 & H1 & He & ->)]; [done|]);
    apply texec_act in H1 as (w0 & Hr & [[]|[-> Hst]] & _).
  - assert (b = WaitTimeout) as ->; [|unfold wait_failed in He; texec_inv; done].
    apply (silent_wait Shared.handoff w w0 r x); try done. intros y He'. by destruct (ev_terminal _ _ He' Ht) as (_ & _ & _ & -> & _).
  - assert (b = WaitTimeout) as ->; [|unfold wait_failed in He; texec_inv; done].
    apply (silent_wait (fun s => if Shared.consumer s then Some tt else None) w w0 r x); try done; [by rewrite Hnone|].
    intros y He'. by destruct (ev_terminal _ _ He' Ht) as (_ & _ & _ & _ & ->).
Qed.

(** ** An upload on its way *)

(** The bytes handed to the consumer. *)
Definition pushed_by (x : TObs) : list byte :=
  match x with
  | @DidT _ (PushChunk _ chunk) b => if b then chunk else []
  | _ => []
  end.

Definition pushed (t : list TObs) : list byte := concat (map pushed_by t).

Definition quiet (B : Type) (o : top B) : Prop :=
  match o with
  | PushChunk _ _ | ReadBody _ => False
  | _ => True
  end.

Lemma pushed_app (t k : list TObs) : pushed (t ++ k) = pushed t ++ pushed k.
Proof. unfold pushed. by rewrite map_app, concat_app. Qed.

Lemma quiet_pushed {A} (p : tprog A) (w w' : Relay.t) (t : list TObs) (a : option A) :
  prog_all quiet p -> relay_exec p w t a w' -> pushed t = [].
Proof.
  intros Hq He. assert (Hf : Forall (fun x => pushed_by x = []) t).
  { eapply (texec_all quiet _ _ tobs); [|exact Hq|exact He]. intros B o b Ho. repeat constructor. by destruct o. }
  clear He. induction Hf as [|x l Hx _ IH]; [done|]. unfold pushed in *. simpl. by rewrite Hx, IH.
Qed.

Lemma cancel_quiet (id : string) (code : Code) : prog_all quiet (cancel_and_remove id code).
Proof. unfold cancel_and_remove. prog_all_tac. Qed.

Lemma wait_failed_quiet {A} (r : Ref) (id : string) (x : Wait A) : prog_all quiet (wait_failed r id x).
Proof. unfold wait_failed. prog_all_tac; apply cancel_quiet. Qed.

Lemma with_cancel_quiet {A} (r : Ref) (p : tprog A) : prog_all quiet p -> prog_all quiet (with_cancel_rx r p).
Proof. intros Hp. unfold with_cancel_rx. prog_all_tac. Qed.

Lemma with_cancel_exec {A} (r : Ref) (p : tprog A) (w w' : Relay.t) (t : list TObs) (a : option A) :
  relay_exec (with_cancel_rx r p) w t a w' ->
  (t = [] /\ a = None) \/
  exists w1 w2 t1 t2 c, relay_exec p w1 t1 c w2 /\ t = DidT (CancelRx r) tt :: t1 ++ t2 /\ pushed t2 = [] /\
    rtc tenv w w1 /\ (a = c \/ a = None).
Proof.
  unfold with_cancel_rx. intros He.
  apply texec_bind in He as [[(? & _ & _ & ->)%texec_act ->]|(t1 & [] & w1 & t2 & H1 & He & ->)]; [by left|]. right.
  apply relay_exec_env in H1 as Henv. apply texec_act in H1 as (_ & _ & _ & ->).
  apply texec_bind in He as [[He ->]|(t3 & c & w3 & t4 & H3 & He & ->)].
  - exists w1, w', t2, [], None. rewrite app_nil_r. split_and!; auto.
  - exists w1, w3, t3, t4, (Some c). split_and!; auto.
    + eapply quiet_pushed; [|exact He]. prog_all_tac.
    + texec_inv; auto.
Qed.

Lemma owned_session_quiet (owner id : Uuid) : prog_all quiet (owned_session owner id).
Proof. unfold owned_session. prog_all_tac. Qed.

Lemma RELAY_MAX_UPLOAD_BYTES_pos : 0 < RELAY_MAX_UPLOAD_BYTES.
Proof. done. Qed.

Ltac lim := rewrite ?zlen_app, ?zlen_nil; lia.

(** The chunks of the body reach the consumer in order, up to the limit; all of them when the pump
    ends well. *)
Lemma pump_upload_spec (r : Ref) (id : string) (chunks : list (list byte)) (stop : BodyEnd) (n : Z)
    (w w' : Relay.t) (t : list TObs) (a : option (res Response Z)) :
  0 <= n <= RELAY_MAX_UPLOAD_BYTES -> relay_exec (pump_upload r id chunks stop n) w t a w' ->
  pushed t `prefix_of` concat chunks /\ n + zlen (pushed t) <= RELAY_MAX_UPLOAD_BYTES /\
  forall m, a = Some (Ok m) -> stop = BodyEof /\ pushed t = concat chunks /\ m = n + zlen (concat chunks).
Proof.
  assert (Hstop : forall chunks (p : tprog (res Response Z)) n w t a, prog_all quiet p -> relay_exec p w t a w' ->
            0 <= n <= RELAY_MAX_UPLOAD_BYTES -> (forall m, a <> Some (Ok m)) ->
            pushed t `prefix_of` concat chunks /\ n + zlen (pushed t) <= RELAY_MAX_UPLOAD_BYTES /\
            forall m, a = Some (Ok m) -> stop = BodyEof /\ pushed t = concat chunks /\ m = n + zlen (concat chunks)).
  { intros chunks' p m v s b Hq He Hm Hb. rewrite (quiet_pushed _ _ _ _ _ Hq He).
    split_and!; [apply prefix_nil|lim|]. intros k Hk. by destruct (Hb k). }
  revert n w t. induction chunks as [|chunk chunks IH]; intros n w t Hn He; cbn [pump_upload] in He.
  - destruct stop; [texec_inv; change (pushed []) with (@nil byte); split_and!; [done|lim|intros ? [= <-]; simpl; split_and!; [done..|lim]]|..];
      (eapply Hstop; [|exact He|done|]; [prog_all_tac; apply cancel_quiet|]; intros m ->; texec_inv).
  - pose proof (zlen_nonneg chunk). destruct (Z.ltb_spec RELAY_MAX_UPLOAD_BYTES (n + zlen chunk)).
    + eapply Hstop; [|exact He|done|]; [prog_all_tac; apply cancel_quiet|]. intros m ->. texec_inv.
    + texec_inv; [change (pushed []) with (@nil byte); split_and!; [apply prefix_nil|lim|done]|].
      match goal with b : bool |- _ => destruct b end; simpl negb in *; cbv iota in *; rewrite pushed_app; cbn [tobs pushed map pushed_by concat app].
      * match goal with He : texec _ _ _ (pump_upload _ _ _ _ _) _ _ _ _ |- _ => apply IH in He as (Hpre & Hle & Hm); [|lim] end.
        simpl concat. rewrite app_nil_r, zlen_app.
        split_and!; [by apply prefix_app|lim|]. intros m ->. destruct (Hm m eq_refl) as (-> & -> & ->).
        rewrite !zlen_app. split_and!; [done..|lia].
      * eapply (Hstop (chunk :: chunks)); [|eassumption|done|]; [prog_all_tac; apply cancel_quiet|]. intros m ->. texec_inv.
Qed.

Lemma respond_ok {w w' : Relay.t} {p : tprog (res Response Response)} {t : list TObs} {a : option Response} :
  relay_exec (respond p) w t a w' ->
  exists c, relay_exec p w t c w' /\ a = (c ≫= fun r => Some match r with Ok x => x | Err x => x end).
Proof. unfold respond. intros He. texec_inv; [by exists None|]. eexists. rewrite app_nil_r. split; [eassumption|done]. Qed.

(** The owner of a session, as the handler established it. *)
Definition proved_owner (t : list TObs) (session : Uuid) (owner : Uuid) (row : SessionRow.t) : Prop :=
  DidT RequireIdentity (Ok owner) ∈ t /\ DidT (GetSession session) (Some (Some row)) ∈ t /\
  DidT (DeviceOwner (SessionRow.device_id row)) (Some owner) ∈ t.

Lemma owned_session_spec (owner id : Uuid) (row : SessionRow.t) (w w' : Relay.t) (t : list TObs) :
  relay_exec (owned_session owner id) w t (Some (Ok row)) w' ->
  DidT (GetSession id) (Some (Some row)) ∈ t /\ DidT (DeviceOwner (SessionRow.device_id row)) (Some owner) ∈ t.
Proof.
  unfold owned_session. intros He. texec_inv.
  match goal with H : texec _ _ _ (match ?o with _ => _ end) _ _ _ _ |- _ => destruct o as [[row'|]|] end; texec_inv.
  case_bool_decide; simplify_eq. simpl. set_solver.
Qed.

(** How a part of a handler may fail: with an error response, having moved no bytes. *)
Definition is_failure (a : Response) : Prop := match a with Failed _ _ => True | _ => False end.

Lemma owned_session_fails (owner id : Uuid) (w w' : Relay.t) (t : list TObs) (a : Response) :
  relay_exec (owned_session owner id) w t (Some (Err a)) w' -> is_failure a.
Proof.
  unfold owned_session. intros He. texec_inv.
  match goal with H : texec _ _ _ (match ?o with _ => _ end) _ _ _ _ |- _ => destruct o as [[row'|]|] end; texec_inv; [|done..].
  case_bool_decide; simplify_eq. done.
Qed.

Lemma wait_failed_fails {A} (r : Ref) (id : string) (x : Wait A) (w w' : Relay.t) (t : list TObs) (a : Response) :
  relay_exec (wait_failed r id x) w t (Some (Err a)) w' -> is_failure a.
Proof. unfold wait_failed. intros He. destruct x; texec_inv; done. Qed.

Lemma pump_fails (r : Ref) (id : string) (chunks : list (list byte)) (stop : BodyEnd) (n : Z) (w w' : Relay.t)
    (t : list TObs) (a : Response) :
  relay_exec (pump_upload r id chunks stop n) w t (Some (Err a)) w' -> is_failure a.
Proof.
  revert n w t. induction chunks as [|chunk chunks IH]; intros n w t He; cbn [pump_upload] in He.
  - destruct stop; texec_inv; done.
  - case_match; texec_inv; [done|].
    match goal with b : bool |- _ => destruct b end; simpl negb in *; cbv iota in *; [by eapply IH|]. texec_inv. done.
Qed.

Lemma identity_fails (w w' : Relay.t) (a : Response) : tstep _ RequireIdentity w (Some (Err a)) w' -> is_failure a.
Proof. intros [[]|[_ Ha]]. by destruct a. Qed.

(** What a part of an upload may do to the body of [r]. *)
Definition body_claim (r : Ref) (t : list TObs) (a : option (res Response Response)) : Prop :=
  zlen (pushed t) <= RELAY_MAX_UPLOAD_BYTES /\
  (pushed t <> [] -> exists chunks stop, DidT (ReadBody r) (chunks, stop) ∈ t /\ pushed t `prefix_of` concat chunks) /\
  (forall b, a = Some (Err b) -> is_failure b) /\
  (forall b, a = Some (Ok b) -> exists chunks, DidT (ReadBody r) (chunks, BodyEof) ∈ t /\ pushed t = concat chunks).

Lemma body_claim_nothing (r : Ref) (t : list TObs) (a : option (res Response Response)) :
  pushed t = [] -> (forall b, a = Some (Err b) -> is_failure b) -> (forall b, a <> Some (Ok b)) -> body_claim r t a.
Proof.
  intros Hp Hf Ho. unfold body_claim. rewrite Hp. split_and!; [by apply Z.lt_le_incl, RELAY_MAX_UPLOAD_BYTES_pos|done|done|].
  intros b Hb. by destruct (Ho b).
Qed.

Lemma body_claim_app (r : Ref) (t1 t2 t3 : list TObs) (a : option (res Response Response)) :
  pushed t1 = [] -> pushed t3 = [] -> body_claim r t2 a -> body_claim r (t1 ++ t2 ++ t3) a.
Proof.
  intros H1 H3 (Ha & Hb & Hc & Hd). unfold body_claim. rewrite !pushed_app, H1, H3, app_nil_r. simpl. split_and!; [done| |done|].
  - intros (chunks & stop & Hin & Hp)%Hb. exists chunks, stop. split; [set_solver|done].
  - intros b (chunks & Hin & Hp)%Hd. exists chunks. split; [set_solver|done].
Qed.

Lemma body_claim_panic (r : Ref) (t : list TObs) (a : option (res Response Response)) : body_claim r t a -> body_claim r t None.
Proof. intros (Ha & Hb & _). unfold body_claim. done. Qed.

Lemma with_cancel_claim (r : Ref) (p : tprog (res Response Response)) (w w' : Relay.t) (t : list TObs) (a : option (res Response Response)) :
  (forall w w' t a, relay_exec p w t a w' -> body_claim r t a) -> relay_exec (with_cancel_rx r p) w t a w' -> body_claim r t a.
Proof.
  intros Hp [[-> ->]|(w1 & w2 & t1 & t2 & c & He & -> & Ht2 & _ & Ha)]%with_cancel_exec; [by apply body_claim_nothing|].
  apply (body_claim_app r [DidT (CancelRx r) tt] t1 t2); [done|done|]. apply Hp in He.
  destruct Ha as [->| ->]; [done|by eapply body_claim_panic].
Qed.

Lemma send_body_claim (r : Ref) (id : string) (w w' : Relay.t) (t : list TObs) (a : option (res Response Response)) :
  relay_exec (send_body r id) w t a w' -> body_claim r t a.
Proof.
  pose proof RELAY_MAX_UPLOAD_BYTES_pos as Hmax. unfold send_body. intros He.
  apply texec_bind in He as [[(? & _ & _ & ->)%texec_act ->]|(t1 & [chunks stop] & w1 & t2 & (? & _ & _ & ->)%texec_act & He & ->)];
    [by apply body_claim_nothing|].
  apply texec_bind in He as [[He ->]|(t1 & pumped & w2 & t3 & He & Hq & ->)].
  - apply pump_upload_spec in He as (Hpre & Hle & _); [|lia]. unfold body_claim. rewrite pushed_app.
    change (pushed (tobs _ _ _)) with (@nil byte). split_and!; [done| |done..]. intros _. exists chunks, stop. set_solver.
  - assert (Hnil : pushed t3 = []).
    { eapply quiet_pushed; [|exact Hq]. prog_all_tac. apply with_cancel_quiet. prog_all_tac. }
    pose proof He as (Hpre & Hle & Hm)%pump_upload_spec; [|lia].
    unfold body_claim. rewrite !pushed_app, Hnil, app_nil_r. change (pushed (tobs _ _ _)) with (@nil byte). split_and!; [done| | |].
    + intros _. exists chunks, stop. set_solver.
    + intros b ->. destruct pumped as [n|resp]; texec_inv; [|by eapply pump_fails].
      match goal with H : texec _ _ _ (with_cancel_rx _ _) _ _ _ _ |- _ => apply with_cancel_exec in H as [[_ ?]|(? & ? & ? & ? & c & Hc & _ & _ & _ & [?|?])] end;
        [done| |done]. subst c. texec_inv.
    + intros b ->. destruct pumped as [n|resp]; [|texec_inv]. destruct (Hm n eq_refl) as (-> & -> & _).
      exists chunks. set_solver.
Qed.

Lemma upload_wait_claim (r : Ref) (id : string) (w w' : Relay.t) (t : list TObs) (a : option (res Response Response)) :
  relay_exec (prog_bind (act (AwaitConsumer r RENDEZVOUS_TIMEOUT)) (fun w =>
                try (wait_failed r id w) (fun _ => with_cancel_rx r (send_body r id)))) w t a w' -> body_claim r t a.
Proof.
  intros He. apply texec_bind in He as [[He ->]|(t1 & b & w1 & t2 & H1 & He & ->)].
  { apply body_claim_nothing; [eapply quiet_pushed; [|exact He]; done|done..]. }
  apply texec_act in H1 as (_ & _ & _ & ->).
  apply texec_try in He as [[He ->]|[(e & He & ->)|(t3 & ? & w3 & t4 & H3 & He & ->)]].
  1, 2: apply body_claim_nothing; [rewrite pushed_app, (quiet_pushed _ _ _ _ _ (wait_failed_quiet _ _ _) He); done| |done].
  - done.
  - intros ? [= <-]. by eapply wait_failed_fails.
  - rewrite <- (app_nil_r t4), app_assoc. apply body_claim_app; [|done|].
    + rewrite pushed_app, (quiet_pushed _ _ _ _ _ (wait_failed_quiet _ _ _) H3). done.
    + eapply with_cancel_claim; [|exact He]. intros. by eapply send_body_claim.
Qed.

Definition upload_claim (session : Uuid) (transfer_id : string) (t : list TObs) (c : option (res Response Response)) : Prop :=
  zlen (pushed t) <= RELAY_MAX_UPLOAD_BYTES /\
  (pushed t <> [] -> exists owner row r x chunks stop,
     proved_owner t session owner row /\ DidT (RegistryGet transfer_id) (Some r) ∈ t /\ DidT (ReadTransfer r) x ∈ t /\
     TransferInfo.owner (Transfer.info x) = owner /\ TransferInfo.session (Transfer.info x) = SessionRow.id row /\
     TransferInfo.direction (Transfer.info x) = pb.TransferDirection.Upload /\
     DidT (ReadBody r) (chunks, stop) ∈ t /\ pushed t `prefix_of` concat chunks) /\
  (forall id outcome error handle, c = Some (Ok (UploadDone id outcome error handle)) \/ c = Some (Err (UploadDone id outcome error handle)) ->
     exists r chunks, DidT (ReadBody r) (chunks, BodyEof) ∈ t /\ pushed t = concat chunks).

Lemma upload_early (session : Uuid) (transfer_id : string) (t : list TObs) (c : option (res Response Response)) :
  pushed t = [] -> (forall b, c = Some (Ok b) \/ c = Some (Err b) -> is_failure b) -> upload_claim session transfer_id t c.
Proof.
  intros Hp Hb. unfold upload_claim. rewrite Hp. split_and!; [by apply Z.lt_le_incl, RELAY_MAX_UPLOAD_BYTES_pos|done|].
  intros id o e h Hc. by destruct (Hb (UploadDone id o e h) Hc).
Qed.

Ltac failure :=
  intros; repeat match goal with H : _ \/ _ |- _ => destruct H end; simplify_eq; try done;
  match goal with
  | H : texec _ _ _ (act RequireIdentity) _ _ (Some (Err _)) _ |- _ => apply texec_act in H as (? & _ & H & _); by eapply identity_fails
  | H : texec _ _ _ (owned_session _ _) _ _ (Some (Err _)) _ |- _ => by eapply owned_session_fails
  | H : texec _ _ _ (wait_failed _ _ _) _ _ (Some (Err _)) _ |- _ => by eapply wait_failed_fails
  | _ => texec_inv; done
  end.

Ltac quiet_trace :=
  rewrite ?pushed_app;
  repeat match goal with
  | H : texec _ _ _ ?p _ ?t _ _ |- context [pushed ?t] =>
      rewrite (quiet_pushed p _ _ t _ ltac:(clear; prog_all_tac; auto using cancel_quiet, wait_failed_quiet, owned_session_quiet) H)
  end; try done.

Ltac early := apply upload_early; [quiet_trace|failure].

(** The body of an upload reaches the Bridge only of the browser the transfer belongs to, for
    the session it was declared for; never more than 20 MiB of it, in the order it was sent; and
    when the browser is told an outcome of the Bridge, the Bridge was sent the whole body. *)
Theorem upload_stream_bounded (session : Uuid) (transfer_id : string) (w w' : Relay.t) (t : list TObs) (a : option Response) :
  relay_exec (upload_stream session transfer_id) w t a w' ->
  zlen (pushed t) <= RELAY_MAX_UPLOAD_BYTES /\
  (pushed t <> [] -> exists owner row r x chunks stop,
     proved_owner t session owner row /\ DidT (RegistryGet transfer_id) (Some r) ∈ t /\ DidT (ReadTransfer r) x ∈ t /\
     TransferInfo.owner (Transfer.info x) = owner /\ TransferInfo.session (Transfer.info x) = SessionRow.id row /\
     TransferInfo.direction (Transfer.info x) = pb.TransferDirection.Upload /\
     DidT (ReadBody r) (chunks, stop) ∈ t /\ pushed t `prefix_of` concat chunks) /\
  (forall id outcome error handle, a = Some (UploadDone id outcome error handle) ->
     exists r chunks, DidT (ReadBody r) (chunks, BodyEof) ∈ t /\ pushed t = concat chunks).
Proof.
  unfold upload_stream. intros (c & He & ->)%respond_ok.
  cut (upload_claim session transfer_id t c).
  { intros (H1 & H2 & H3). split_and!; [done..|]. intros id o e h Hc. apply (H3 id o e h). destruct c as [[b|b]|]; simplify_eq/=; auto. }
  apply texec_try in He as [[He ->]|[(e & He & ->)|(t1 & owner & w1 & t2 & H1 & He & ->)]]; [early..|].
  apply texec_try in He as [[He ->]|[(e & He & ->)|(t3 & row & w3 & t4 & H2 & He & ->)]]; [early..|].
  apply texec_bind in He as [[He ->]|(t5 & found & w5 & t6 & H3 & He & ->)]; [early|].
  destruct found as [r|]; [|early].
  apply texec_bind in He as [[He ->]|(t7 & x & w7 & t8 & H4 & He & ->)]; [early|].
  destruct (negb _ || negb _ || negb _) eqn:Hmine; [early|]. bool_to_prop.
  apply texec_bind in He as [[He ->]|(t9 & late & w9 & t10 & H9 & He & ->)]; [early|].
  destruct late; [early|].
  apply texec_bind in He as [[He ->]|(t11 & ? & w11 & t12 & H11 & He & ->)]; [early|].
  apply (with_cancel_claim _ _ _ _ _ _ (upload_wait_claim _ _)) in He as (Hlen & Hbody & Hfail & Hdone).
  assert (Hall : pushed (t1 ++ t3 ++ t5 ++ t7 ++ t9 ++ t11 ++ t12) = pushed t12) by quiet_trace.
  apply owned_session_spec in H2 as [Hrow Hown].
  apply texec_act in H1 as (_ & _ & _ & ->), H3 as (_ & _ & _ & ->), H4 as (_ & _ & _ & ->).
  unfold upload_claim. rewrite Hall. split_and!; [done| |].
  - intros (chunks & stop & Hin & Hpre)%Hbody. exists owner, row, r, x, chunks, stop.
    unfold proved_owner. split_and!; try done; set_solver.
  - intros id o e h [Hc|Hc]; [|by destruct (Hfail _ Hc)]. destruct (Hdone _ Hc) as (chunks & Hin & ->). exists r, chunks.
    split; [set_solver|done].
Qed.

(** ** Requests of Bridges *)

(** A registered device whose credential is not revoked, the token of the transfer, its direction. *)
Definition authorized (t : list TObs) (transfer_id : string) (authorization : option string) (provided : string)
    (direction : pb.TransferDirection.t) (r : Ref) : Prop :=
  exists bearer device x,
    authorization = Some ("Bearer " +:+ bearer) /\ DidT (DeviceByDigest (sha256_hex (trim bearer))) (Some (device, false)) ∈ t /\
    DidT (RegistryGet transfer_id) (Some r) ∈ t /\ DidT (ReadTransfer r) x ∈ t /\ DidT (Expired r) false ∈ t /\
    TransferInfo.device (Transfer.info x) = device /\ TransferInfo.direction (Transfer.info x) = direction /\
    provided <> "" /\ sha256_hex provided = sha256_hex (Transfer.token x).

Lemma bearer_of_spec (authorization : option string) :
  bearer_of authorization <> "" ->
  exists bearer, authorization = Some ("Bearer " +:+ bearer) /\ bearer_of authorization = trim bearer.
Proof.
  unfold bearer_of. destruct authorization as [header|]; [|done]. cbn [mbind option_bind].
  destruct (strip_prefix "Bearer " header) as [bearer|] eqn:Hs; [|done]. intros _. exists bearer.
  by apply strip_prefix_Some in Hs as ->.
Qed.

Lemma authenticate_device_spec (authorization : option string) (device : Uuid) (w w' : Relay.t) (t : list TObs) :
  relay_exec (authenticate_device authorization) w t (Some (Ok device)) w' ->
  exists bearer, authorization = Some ("Bearer " +:+ bearer) /\
    t = [DidT (DeviceByDigest (sha256_hex (trim bearer))) (Some (device, false))].
Proof.
  unfold authenticate_device. case_bool_decide as Hb; intros He; texec_inv.
  apply bearer_of_spec in Hb as (bearer & -> & ->). exists bearer. split; [done|].
  match goal with o : option (Uuid * bool) |- _ => destruct o as [[? []]|] end; by simplify_eq.
Qed.

Lemma authorize_transfer_spec (x : Transfer.t) (provided : string) (device : Uuid) (direction : pb.TransferDirection.t) (u : unit) :
  authorize_transfer x provided device direction = Ok u ->
  TransferInfo.device (Transfer.info x) = device /\ TransferInfo.direction (Transfer.info x) = direction /\
  provided <> "" /\ sha256_hex provided = sha256_hex (Transfer.token x).
Proof.
  unfold authorize_transfer. destruct (bool_decide (provided = "")) eqn:H1, (bool_decide (sha256_hex provided = _)) eqn:H2; simpl; try done.
  case_match eqn:H3; [done|]. intros _. bool_to_prop. done.
Qed.

Lemma authorize_transfer_fails (x : Transfer.t) (provided : string) (device : Uuid) (direction : pb.TransferDirection.t) (a : Response) :
  Err a = authorize_transfer x provided device direction -> is_failure a.
Proof. unfold authorize_transfer. case_match; [by intros [= ->]|done]. Qed.

Lemma admission_spec (transfer_id : string) (authorization : option string) (provided : string)
    (direction : pb.TransferDirection.t) (r : Ref) (x : Transfer.t) (w w' : Relay.t) (t : list TObs) :
  relay_exec (admission transfer_id authorization provided direction) w t (Some (Ok (r, x))) w' ->
  authorized t transfer_id authorization provided direction r.
Proof.
  unfold admission. intros He. texec_inv.
  match goal with o : option Ref |- _ => destruct o as [r'|] end; texec_inv.
  match goal with b : bool |- _ => destruct b end; texec_inv.
  match goal with H : Ok _ = _ |- _ => symmetry in H; apply authorize_transfer_spec in H as (? & ? & ? & ?) end.
  match goal with H : texec _ _ _ (authenticate_device _) _ _ _ _ |- _ => apply authenticate_device_spec in H as (bearer & -> & ->) end.
  exists bearer. do 2 eexists. split_and!; try done; set_solver.
Qed.

Lemma authorized_app (t k : list TObs) (transfer_id : string) (authorization : option string) (provided : string)
    (direction : pb.TransferDirection.t) (r : Ref) :
  authorized t transfer_id authorization provided direction r ->
  authorized (t ++ k) transfer_id authorization provided direction r.
Proof. intros (b & d & x & ?). exists b, d, x. set_solver. Qed.

Lemma admission_quiet (transfer_id : string) (authorization : option string) (provided : string) (direction : pb.TransferDirection.t) :
  prog_all quiet (admission transfer_id authorization provided direction).
Proof. unfold admission, authenticate_device. prog_all_tac; apply cancel_quiet. Qed.

Lemma admission_fails (transfer_id : string) (authorization : option string) (provided : string)
    (direction : pb.TransferDirection.t) (w w' : Relay.t) (t : list TObs) (a : Response) :
  relay_exec (admission transfer_id authorization provided direction) w t (Some (Err a)) w' -> is_failure a.
Proof.
  unfold admission, authenticate_device. intros He. case_bool_decide; texec_inv; try done.
  - repeat match goal with o : option (Uuid * bool) |- _ => destruct o as [[? []]|] end; by simplify_eq.
  - match goal with o : option Ref |- _ => destruct o end; texec_inv; [by eapply authorize_transfer_fails| |done].
    match goal with b : bool |- _ => destruct b end; texec_inv; done.
Qed.

(** Only the Bridge a transfer was offered to takes part in it.  Whoever is accepted as the
    producer of a download or the consumer of an upload, or gets a byte through, has the credential
    of a device that is not revoked, is the device of the transfer, knows its token, and comes for its
    direction before it expired. *)
Theorem bridges_authorized (transfer_id : string) (authorization : option string) (provided : string)
    (headers : ProducerHeaders.t) (w w' : Relay.t) (t : list TObs) (a : option Response) :
  (relay_exec (producer transfer_id authorization provided headers) w t a w' ->
   a = Some ProducerAccepted \/ pushed t <> [] ->
   exists r, authorized t transfer_id authorization provided pb.TransferDirection.Download r) /\
  (relay_exec (consumer transfer_id authorization provided) w t a w' ->
   a = Some ConsumerStream ->
   exists r, authorized t transfer_id authorization provided pb.TransferDirection.Upload r).
Proof.
  split; intros (c & He & ->)%respond_ok Ha.
  - apply texec_try in He as [[He ->]|[(e & He & ->)|(t1 & [r x] & w1 & t2 & H1 & He & ->)]].
    1, 2: rewrite (quiet_pushed _ _ _ _ _ (admission_quiet _ _ _ _) He) in Ha; destruct Ha as [Ha|?]; [|done].
    + done.
    + apply admission_fails in He. by simplify_eq/=.
    + exists r. by eapply authorized_app, admission_spec.
  - apply texec_try in He as [[He ->]|[(e & He & ->)|(t1 & [r x] & w1 & t2 & H1 & He & ->)]].
    + done.
    + apply admission_fails in He. by simplify_eq/=.
    + exists r. by eapply authorized_app, admission_spec.
Qed.

(** ** Downloads *)

Lemma create_result (info : TransferInfo.t) (w w' : Relay.t) (r : Ref) (id : string) :
  tstep _ (Create info) w (Some (Ok (r, id))) w' ->
  exists x, heap w' !! r = Some x /\ Transfer.id x = id /\ Transfer.info x = info.
Proof.
  intros [Hc|[_ []]]. destruct Hc as (id' & r' & _ & _ & Hc). unfold create in Hc.
  repeat case_match; simplify_eq; simpl. rewrite lookup_insert_eq. eauto.
Qed.

Lemma wait_got {A} (r : Ref) (id : string) (x : Wait A) (h : A) (w w' : Relay.t) (t : list TObs) :
  relay_exec (wait_failed r id x) w t (Some (Ok h)) w' -> x = WaitGot h.
Proof. unfold wait_failed. intros He. destruct x; texec_inv; done. Qed.

(** The offer says what the transfer says. *)
Lemma send_offer_spec (row : SessionRow.t) (r : Ref) (w w' : Relay.t) (t : list TObs) (b : bool) (id : string) (info : TransferInfo.t) :
  relay_ok w -> (exists x, heap w !! r = Some x /\ Transfer.id x = id /\ Transfer.info x = info) ->
  relay_exec (send_offer row r) w t (Some b) w' ->
  exists offer, DidT (SendToBridge (SessionRow.device_id row) (ToOffer offer)) b ∈ t /\
    pb.TransferOffer.transfer_id offer = id /\
    pb.TransferOffer.direction offer = pb.TransferDirection.as_i32 (TransferInfo.direction info) /\
    pb.TransferOffer.file_handle offer =
      (if bool_decide (TransferInfo.direction info = pb.TransferDirection.Download) then TransferInfo.file_handle info else "") /\
    pb.TransferOffer.range_start offer = match TransferInfo.range info with Some r => RangeSpec.start r | None => 0 end /\
    pb.TransferOffer.range_end_inclusive offer = TransferInfo.range info ≫= RangeSpec.end_inclusive.
Proof.
  intros Hok (x & Hx & <- & <-) He. unfold send_offer in He. texec_inv.
  match goal with Hr : rtc tenv w ?w0, Hst : tstep _ (ReadTransfer r) ?w0 (Some ?y) _ |- _ =>
    destruct (later_rtc _ _ Hr Hok) as (_ & _ & Hl);
    destruct (Hl r x Hx (proj1 (ok_shared _ Hok _ _ Hx))) as (x' & Hx' & (Hid & _ & Hinfo & _) & _);
    destruct Hst as [[]|(-> & Hst & _)]; assert (y = x') as -> by congruence
  end.
  eexists. split; [unfold tobs; simpl; do 2 right; left|]. simpl. unfold offer_file_handle. rewrite Hid, Hinfo. done.
Qed.

Ltac refused :=
  repeat match goal with He : context [negb false] |- _ => change (negb false) with true in He; cbv iota in He end;
  repeat match goal with He : context [negb true] |- _ => change (negb true) with false in He; cbv iota in He end;
  texec_inv; try done;
  match goal with Hfail : forall b, _ -> is_failure b -> False |- _ => by destruct (Hfail _ eq_refl) end.

(** A download starts only for the owner of the session, with a file handle and a range that
    make sense; its device was sent an offer of exactly that handle and that range; and the response
    is what the device's request said of its body. *)
Theorem download_started (session : Uuid) (range_header : option string) (disposition : string)
    (w w' : Relay.t) (t : list TObs) (status : Z) (ct cd cr : option string) (cl : option Z) :
  rtc tenv Relay.init w ->
  relay_exec (start_download session range_header disposition) w t (Some (DownloadStarted status ct cd cr cl)) w' ->
  exists owner row parsed range r id info offer h,
    proved_owner t session owner row /\ DidT (IsOnline (SessionRow.device_id row)) true ∈ t /\
    DidT ReadFileRequest (Some parsed) ∈ t /\ FileRequest.file_handle parsed <> "" /\
    parse_range (FileRequest.range parsed) range_header = Ok range /\
    DidT (Create info) (Ok (r, id)) ∈ t /\ TransferInfo.owner info = owner /\
    TransferInfo.device info = SessionRow.device_id row /\ TransferInfo.session info = SessionRow.id row /\
    DidT (SendToBridge (SessionRow.device_id row) (ToOffer offer)) true ∈ t /\
    pb.TransferOffer.transfer_id offer = id /\
    pb.TransferOffer.direction offer = pb.TransferDirection.as_i32 pb.TransferDirection.Download /\
    pb.TransferOffer.file_handle offer = FileRequest.file_handle parsed /\
    pb.TransferOffer.range_start offer = match range with Some r => RangeSpec.start r | None => 0 end /\
    pb.TransferOffer.range_end_inclusive offer = range ≫= RangeSpec.end_inclusive /\
    DidT (AwaitHandoff r RENDEZVOUS_TIMEOUT) (WaitGot h) ∈ t /\
    DownloadStarted status ct cd cr cl = download_response info h.
Proof.
  intros Hs He. apply respond_ok in He as (c & He & Hc).
  assert (Hfail : forall b, c = Some (Err b) -> is_failure b -> False) by (intros b -> Hb; simpl in Hc; injection Hc as <-; exact Hb).
  apply texec_try in He as [[He ->]|[(e & He & ->)|(t1 & owner & w1 & t2 & H1 & He & ->)]];
    [done|exfalso; eapply Hfail; [done|clear Hfail Hc; failure]|].
  apply texec_try in He as [[He ->]|[(e & He & ->)|(t3 & row & w3 & t4 & H2 & He & ->)]];
    [done|exfalso; eapply Hfail; [done|clear Hfail Hc; failure]|].
  apply texec_bind in He as [[He ->]|(t5 & online & w5 & t6 & H3 & He & ->)]; [done|].
  destruct online; [|refused].
  apply texec_bind in He as [[He ->]|(t7 & parsed & w7 & t8 & H4 & He & ->)]; [done|].
  destruct parsed as [parsed|]; [|refused]. case_bool_decide as Hh; [refused|].
  destruct (parse_range _ _) as [range|] eqn:Hrange; [|refused]. cbv zeta in He.
  apply texec_bind in He as [[He ->]|(t9 & created & w9 & t10 & H5 & He & ->)]; [done|].
  destruct created as [[r id]|]; [|refused].
  match type of H5 with context [Create ?i] => remember i as info eqn:Hinfo end.
  apply texec_bind in He as [[He ->]|(t11 & offered & w11 & t12 & H6 & He & ->)]; [done|].
  destruct offered; [|refused]. change (negb true) with false in He. cbv iota in He.
  apply texec_bind in He as [[He ->]|(t13 & ? & w13 & t14 & H7 & He & ->)]; [done|].
  apply with_cancel_exec in He as [[-> ->]|(w15 & w16 & t15 & t16 & c' & He & -> & _ & _ & [<- | ->])]; [done| |done].
  apply texec_bind in He as [[He ->]|(t17 & wait & w17 & t18 & H9 & He & ->)]; [done|].
  apply texec_try in He as [[He ->]|[(e & He & ->)|(t19 & h & w19 & t20 & H10 & He & ->)]];
    [done|exfalso; eapply Hfail; [done|clear Hfail Hc; failure]|].
  apply wait_got in H10 as ->. destruct He as (-> & -> & ->). cbn [mbind option_bind] in Hc.
  apply owned_session_spec in H2 as H2'. destruct H2' as [Hrow Hown].
  assert (Henv : rtc tenv Relay.init w9).
  { etrans; [exact Hs|]. apply relay_exec_env in H1, H2, H3, H4, H5. do 4 (etrans; [eassumption|]). done. }
  apply texec_act in H1 as (_ & _ & _ & ->), H3 as (_ & _ & _ & ->), H4 as (_ & _ & _ & ->), H9 as (_ & _ & _ & ->).
  apply texec_act in H5 as (w8 & _ & Hcreate & ->). apply create_result in Hcreate.
  apply (send_offer_spec _ _ _ _ _ _ _ _ (sound_ok _ Henv) Hcreate) in H6 as (offer & Hoffer & Hid & Hdir & Hfh & Hstart & Hend).
  exists owner, row, parsed, range, r, id, info, offer, h. clear Hcreate Henv Hfail H2.
  split; [split_and!; set_solver|]. split; [set_solver|]. split; [set_solver|]. split; [done|]. split; [done|].
  split; [set_solver|]. split_and!; try (by subst info). 1-2: set_solver. congruence.
Qed.
End Props.
