(* ===== verification/TransfersDemo.v ===== *)
(** * The transfers of the Relay at work

    A deterministic world around the handlers: what the database, the hub and the two ends answer
    is fixed, and the other end acts just before it is waited for.  [relay_run] runs a program in it;
    what it finds is a run of [relay_exec].  The witnesses of [TransfersProps] evaluate it. *)

From S2P Require Import Prelude RustStr Prog Domain Proto FilePolicy Transfers TransfersProps.

Import Relay (heap, registry, clock).

Module Net.
Record t := mk {
  identity : res Response Uuid;
  session : option (option SessionRow.t);
  owner : option Uuid;
  by_digest : string -> option (Uuid * bool);
  online : bool;
  request : option FileRequest.t;
  handoff : option ProducerHandoff.t;
  consumer : bool;
  result : option pb.TransferResult.t;
  body : list (list byte) * BodyEnd;
  next_id : string;
}.
End Net.

(** What the other end does just before it is waited for. *)
Definition interfere (net : Net.t) {B : Type} (o : top B) (w : Relay.t) : Relay.t :=
  match o with
  | AwaitHandoff r _ => match Net.handoff net with Some h => (locked r (set_producer h) w).2 | None => w end
  | AwaitConsumer r _ => if Net.consumer net then (locked r set_consumer w).2 else w
  | AwaitResult r _ =>
      match Net.result net with Some x => (locked r complete (locked r (deliver_result x) w).2).2 | None => w end
  | _ => w
  end.

Lemma interfere_env (net : Net.t) {B : Type} (o : top B) (w : Relay.t) : rtc tenv w (interfere net o w).
Proof.
  destruct o; try reflexivity; simpl.
  - destruct (Net.handoff net) as [h|]; [|reflexivity]. eapply rtc_once, (tenv_critical (SetProducer r h)). cbn. symmetry. apply surjective_pairing.
  - destruct (Net.consumer net); [|reflexivity]. eapply rtc_once, (tenv_critical (SetConsumer r)). cbn. symmetry. apply surjective_pairing.
  - destruct (Net.result net) as [x|]; [|reflexivity].
    apply (rtc_l _ _ (locked r (deliver_result x) w).2); [eapply (tenv_critical (DeliverResult r x) _ _ (locked r (deliver_result x) w).1); cbn; symmetry; apply surjective_pairing|].
    eapply rtc_once, (tenv_critical (Complete r)). cbn. symmetry. apply surjective_pairing.
Qed.

Definition wait_of {A} (r : Ref) (value : Shared.t -> option A) (w : Relay.t) : option (option (Wait A) * Relay.t) :=
  match heap w !! r with
  | None => None
  | Some x =>
      let s := Transfer.shared x in
      Some (Some (if Shared.cancelled s then WaitCancelled
                  else match value s with Some a => WaitGot a | None => WaitTimeout end), w)
  end.

Definition answer (net : Net.t) {B : Type} (o : top B) (w : Relay.t) : option (option B * Relay.t) :=
  match o in top B return option (option B * Relay.t) with
  | RequireIdentity =>
      match Net.identity net with
      | Ok u => Some (Some (Ok u), w)
      | Err (Failed s c) => Some (Some (Err (Failed s c)), w)
      | Err _ => None
      end
  | GetSession _ => Some (Some (Net.session net), w)
  | DeviceOwner _ => Some (Some (Net.owner net), w)
  | DeviceByDigest d => Some (Some (Net.by_digest net d), w)
  | IsOnline _ | SendToBridge _ _ => Some (Some (Net.online net), w)
  | ReadFileRequest => Some (Some (Net.request net), w)
  | SystemNow => Some (Some (clock w), w)
  | RegistryGet id => Some (registry_get id w)
  | RegistryRemove id => Some (registry_remove id w)
  | Create info =>
      let id := Net.next_id net in
      let r := length (map_to_list (heap w)) in
      match heap w !! r, registry w !! id with
      | None, None =>
          Some (let (c, w1) := create info id r w in
                (match c with Some (Ok r) => Some (Ok (r, id)) | Some (Err e) => Some (Err e) | None => None end, w1))
      | _, _ => None
      end
  | SweepTake => Some (sweep_take w)
  | ReadTransfer r => match heap w !! r with Some x => Some (Some x, w) | None => None end
  | Expired r => match heap w !! r with Some x => Some (Some (expired x w), w) | None => None end
  | SetProducer r h => Some (locked r (set_producer h) w)
  | SetConsumer r => Some (locked r set_consumer w)
  | PutProducerAck r => Some (locked r put_producer_ack w)
  | TakeProducerRx r => Some (locked r take_producer_rx w)
  | TakeConsumerRx r => Some (locked r take_consumer_rx w)
  | TakeResultRx r => Some (locked r take_result_rx w)
  | DeliverResult r result => Some (locked r (deliver_result result) w)
  | Complete r => Some (locked r complete w)
  | Cancel r code => Some (locked r (cancel code) w)
  | TerminalCode r => Some (locked r terminal_code w)
  | IsTerminal r => Some (locked r is_terminal w)
  | CancelRx r => Some (locked r cancel_rx w)
  | DropCancelRx r => Some (drop_cancel_rx r w)
  | AwaitHandoff r _ => wait_of r Shared.handoff w
  | AwaitConsumer r _ => wait_of r (fun s => if Shared.consumer s then Some tt else None) w
  | AwaitResult r _ => wait_of r Shared.result w
  | ReadBody r => match Net.body net with (_, BodyCancelled) => None | b => Some (Some b, w) end
  | PushChunk _ _ => Some (Some true, w)
  | PushError _ | CloseBody _ => Some (Some tt, w)
  end.

Lemma wait_of_sound {A} (r : Ref) (value : Shared.t -> option A) (w w' : Relay.t) (b : option (Wait A)) :
  wait_of r value w = Some (b, w') -> w' = w /\ exists x, heap w !! r = Some x /\ wait_sound x value b.
Proof.
  unfold wait_of. destruct (heap w !! r) as [x|]; [|done]. intros [= <- <-]. split; [done|]. exists x. split; [done|].
  destruct (Shared.cancelled _) eqn:?; [done|]. by destruct (value _) eqn:?.
Qed.

Lemma answer_sound (net : Net.t) {B : Type} (o : top B) (w w' : Relay.t) (b : option B) :
  answer net o w = Some (b, w') -> tstep B o w b w'.
Proof.
  unfold tstep. destruct o; simpl; intros Ha;
    try (injection Ha as Ha; left; by symmetry); try (apply wait_of_sound in Ha; by right);
    try (injection Ha as <- <-; right; by split).
  - right. repeat case_match; by simplify_eq.
  - left. destruct (heap w !! length _) eqn:Hr; [done|]. destruct (registry w !! Net.next_id net) eqn:Hid; [done|].
    injection Ha as Ha. do 2 eexists. split_and!; [exact Hr|exact Hid|by symmetry].
  - right. case_match; simplify_eq. eauto.
  - right. case_match; simplify_eq. eauto.
  - right. repeat case_match; by simplify_eq.
Qed.

Fixpoint relay_run (net : Net.t) {A : Type} (p : tprog A) (w : Relay.t) : option (list TObs * option A * Relay.t) :=
  match p with
  | Ret a => Some ([], Some a, w)
  | @Act _ _ B o k =>
      match answer net o (interfere net o w) with
      | None => None
      | Some (None, w') => Some ([], None, w')
      | Some (Some b, w') =>
          match relay_run net (k b) w' with
          | Some (t, a, w'') => Some (DidT o b :: t, a, w'')
          | None => None
          end
      end
  end.

Lemma relay_run_exec (net : Net.t) {A : Type} (p : tprog A) (w w' : Relay.t) (t : list TObs) (a : option A) :
  relay_run net p w = Some (t, a, w') -> relay_exec p w t a w'.
Proof.
  revert w t. induction p as [x|B o k IH]; simpl; intros w t Hr; [by simplify_eq|].
  destruct (answer net o (interfere net o w)) as [[[b|] w1]|] eqn:Ha; [| |done].
  - destruct (relay_run net (k b) w1) as [[[t1 a1] w2]|] eqn:Hk; [|done]. simplify_eq.
    exists (interfere net o w), (Some b), w1. split_and!; [apply interfere_env|by eapply answer_sound|].
    exists t1. split; [by apply IH|done].
  - simplify_eq. exists (interfere net o w), None, w'. split_and!; [apply interfere_env|by eapply answer_sound|done..].
Qed.

Lemma relay_run_reach (net : Net.t) {A : Type} (p : tprog A) (w w' : Relay.t) (t : list TObs) (a : option A) :
  rtc tenv Relay.init w -> relay_run net p w = Some (t, a, w') -> rtc tenv Relay.init w'.
Proof. intros Hw Hr%relay_run_exec%relay_exec_env. by etrans. Qed.

(** ** A world *)

#[local] Instance demo_http : RelayHttp := {
  header_value_ok := fun _ => true;
  sha256_hex := fun s => "sha256:" +:+ s;
  stable_code_name := fun z => pretty z;
  outcome_name := fun z => pretty z;
}.

Definition demo_net (next_id : string) : Net.t :=
  Net.mk (Ok "owner") (Some (Some (SessionRow.mk "s1" "dev" "native"))) (Some "owner")
    (fun d => if bool_decide (d = "sha256:secret") then Some ("dev", false) else None) true
    (Some (FileRequest.mk "handle" (Some "a.txt") None))
    (Some (ProducerHandoff.mk (Some "text/plain") None (Some "bytes 0-1/9") (Some 2))) true
    (Some (pb.TransferResult.mk "t1" 1 0 "uploaded"))
    ([[x61; x62]; [x63]], BodyEof) next_id.

(** The transfers the Relay knows after a run from [w]. *)
Definition after {A : Type} (net : Net.t) (p : tprog A) (w : Relay.t) : Relay.t :=
  match relay_run net p w with Some (_, _, w') => w' | None => w end.

Definition trace {A : Type} (net : Net.t) (p : tprog A) (w : Relay.t) : list TObs :=
  match relay_run net p w with Some (t, _, _) => t | None => [] end.

Definition outcome {A : Type} (net : Net.t) (p : tprog A) (w : Relay.t) : option (option A) :=
  match relay_run net p w with Some (_, a, _) => Some a | None => None end.

Lemma run_eq {A : Type} (net : Net.t) (p : tprog A) (w : Relay.t) (a : option A) :
  outcome net p w = Some a -> relay_run net p w = Some (trace net p w, a, after net p w).
Proof. unfold outcome, trace, after. destruct (relay_run net p w) as [[[t a'] w']|]; [|done]. by intros [= ->]. Qed.

Lemma after_reach {A : Type} (net : Net.t) (p : tprog A) (w : Relay.t) :
  rtc tenv Relay.init w -> rtc tenv Relay.init (after net p w).
Proof.
  intros Hw. unfold after. destruct (relay_run net p w) as [[[t a] w']|] eqn:Hr; [|done]. by eapply relay_run_reach.
Qed.

Definition declare (id : string) : tprog Response := upload_declare "s1" (UploadDeclare.mk "a.txt" None 3).
Definition declared : Relay.t := after (demo_net "t1") (declare "t1") Relay.init.

Lemma declared_reach : rtc tenv Relay.init declared.
Proof. by apply after_reach. Qed.

(** ** Witnesses *)

Lemma limits_hold_witness :
  count_running (owned_by "owner") declared = 1 /\ count_running (on_device "dev") declared <= MAX_CONCURRENT_PER_DEVICE.
Proof.
  destruct (limits_hold declared declared_reach) as [_ Hd]. split; [vm_compute; reflexivity|apply Hd].
Defined.

Lemma upload_stream_bounded_witness :
  exists r chunks,
    outcome (demo_net "t1") (upload_stream "s1" "t1") declared = Some (Some (UploadDone "t1" "1" None (Some "uploaded"))) /\
    DidT (ReadBody r) (chunks, BodyEof) ∈ trace (demo_net "t1") (upload_stream "s1" "t1") declared /\
    pushed (trace (demo_net "t1") (upload_stream "s1" "t1") declared) = concat chunks.
Proof.
  set (p := upload_stream "s1" "t1").
  assert (Ho : outcome (demo_net "t1") p declared = Some (Some (UploadDone "t1" "1" None (Some "uploaded")))) by (vm_compute; reflexivity).
  destruct (upload_stream_bounded "s1" "t1" declared (after (demo_net "t1") p declared) (trace (demo_net "t1") p declared)
              (Some (UploadDone "t1" "1" None (Some "uploaded")))) as (_ & _ & Hdone).
  { apply (relay_run_exec (demo_net "t1")), run_eq, Ho. }
  destruct (Hdone _ _ _ _ eq_refl) as (r & chunks & Hin & Hp). exists r, chunks. split; [exact Ho|]. split; [exact Hin|exact Hp].
Defined.

Lemma download_started_witness :
  exists t w', relay_exec (start_download "s1" (Some "bytes=0-1") "inline") Relay.init t
      (Some (DownloadStarted 206 (Some "text/plain") (Some ("inline; filename=" +:+ String dquote ("a.txt" +:+ String dquote ""))) (Some "bytes 0-1/9") None)) w' /\
    exists row offer, DidT (SendToBridge (SessionRow.device_id row) (ToOffer offer)) true ∈ t /\
      pb.TransferOffer.direction offer = 2.
Proof.
  set (p := start_download "s1" (Some "bytes=0-1") "inline"). set (net := demo_net "t1").
  exists (trace net p Relay.init), (after net p Relay.init).
  assert (He : relay_exec p Relay.init (trace net p Relay.init)
      (Some (DownloadStarted 206 (Some "text/plain") (Some ("inline; filename=" +:+ String dquote ("a.txt" +:+ String dquote ""))) (Some "bytes 0-1/9") None)) (after net p Relay.init)).
  { apply (relay_run_exec net), run_eq. vm_compute. reflexivity. }
  split; [exact He|].
  destruct (download_started "s1" (Some "bytes=0-1") "inline" Relay.init _ _ _ _ _ _ _ (rtc_refl _ _) He)
    as (_ & row & _ & _ & _ & _ & _ & offer & _ & _ & _ & _ & _ & _ & _ & _ & _ & _ & Hoffer & _ & Hdir & _).
  exists row, offer. split; [exact Hoffer|exact Hdir].
Defined.

Lemma bridges_authorized_witness :
  outcome (demo_net "t1") (consumer "t1" (Some "Bearer  secret ") "t1") declared = Some (Some ConsumerStream) /\
  outcome (demo_net "t1") (consumer "t1" (Some "Bearer other") "t1") declared =
    Some (Some (Failed 401 pb.StableErrorCode.AuthRequired)) /\
  exists r, authorized (trace (demo_net "t1") (consumer "t1" (Some "Bearer  secret ") "t1") declared) "t1"
    (Some "Bearer  secret ") "t1" pb.TransferDirection.Upload r.
Proof.
  set (p := consumer "t1" (Some "Bearer  secret ") "t1").
  assert (Ho : outcome (demo_net "t1") p declared = Some (Some ConsumerStream)) by (vm_compute; reflexivity).
  split; [exact Ho|]. split; [vm_compute; reflexivity|].
  destruct (bridges_authorized "t1" (Some "Bearer  secret ") "t1" (ProducerHeaders.mk None None None None None None None)
              declared (after (demo_net "t1") p declared) (trace (demo_net "t1") p declared) (Some ConsumerStream)) as [_ Hc].
  apply Hc; [apply (relay_run_exec (demo_net "t1")), run_eq, Ho|reflexivity].
Defined.

(** The download [t1] is offered, and the Bridge reports that it failed. *)
Definition demo_info : TransferInfo.t :=
  TransferInfo.mk pb.TransferDirection.Download "owner" "dev" "s1" "a.txt" "" None None "inline" "handle".

Definition offered : Relay.t := after (demo_net "t1") (act (Create demo_info)) Relay.init.
Definition reported : Relay.t :=
  after (demo_net "t1") (on_bridge_result "dev" (pb.TransferResult.mk "t1" 2 42 "")) offered.

Lemma reported_reach : rtc tenv Relay.init reported.
Proof. by do 2 apply after_reach. Qed.

(** The upload [t1] is declared, and the Bridge refuses it, with [RATE_LIMITED], before the browser
    sends the body. *)
Definition refused : Relay.t :=
  after (demo_net "t1")
    (on_bridge_ready "dev" (pb.TransferReady.mk "t1" false (pb.StableErrorCode.as_i32 pb.StableErrorCode.RateLimited))) declared.

Lemma refused_reach : rtc tenv Relay.init refused.
Proof. apply after_reach, declared_reach. Qed.

Definition wait_only (r : Ref) (id : string) : tprog (res Response unit) :=
  do w <- act (AwaitConsumer r RENDEZVOUS_TIMEOUT); wait_failed r id w.

Lemma unheard_end_times_out_witness :
  outcome (demo_net "t1") (upload_stream "s1" "t1") refused =
    Some (Some (Failed 504 pb.StableErrorCode.TransferExpired)) /\
  (exists x, heap refused !! 0%nat = Some x /\ Shared.terminal_code (Transfer.shared x) = Some pb.StableErrorCode.RateLimited /\
     exists t w' answer, relay_exec (wait_only 0%nat "t1") refused t (Some answer) w' /\
       answer = Err (Failed 504 pb.StableErrorCode.TransferExpired)) /\
  (exists x, heap reported !! 0%nat = Some x /\ Shared.result (Transfer.shared x) = Some (pb.TransferResult.mk "t1" 2 42 "") /\
     Shared.terminal (Transfer.shared x) = true /\ Shared.cancelled (Transfer.shared x) = false).
Proof.
  split; [vm_compute; reflexivity|]. split.
  - destruct (heap refused !! 0%nat) as [x|] eqn:Hx; [|vm_compute in Hx; discriminate]. exists x.
    assert (Hf : Shared.terminal_code (Transfer.shared x) = Some pb.StableErrorCode.RateLimited /\
                 Shared.terminal (Transfer.shared x) = true /\ Shared.cancelled (Transfer.shared x) = false /\
                 Shared.consumer (Transfer.shared x) = false).
    { vm_compute in Hx. injection Hx as <-. repeat split. }
    destruct Hf as (Hcode & Ht & Hc & Hn). split; [reflexivity|]. split; [exact Hcode|].
    set (p := wait_only 0%nat "t1"). set (net := Net.mk (Ok "owner") None None (fun _ => None) true None None false None ([], BodyEof) "t2").
    exists (trace net p refused), (after net p refused), (Err (Failed 504 pb.StableErrorCode.TransferExpired)).
    assert (He : relay_exec p refused (trace net p refused) (Some (Err (Failed 504 pb.StableErrorCode.TransferExpired))) (after net p refused)).
    { apply (relay_run_exec net), run_eq. vm_compute. reflexivity. }
    split; [exact He|].
    exact (proj2 (unheard_end_times_out refused _ _ 0%nat "t1" x refused_reach Hx Ht Hc) _ Hn He).
  - destruct (heap reported !! 0%nat) as [x|] eqn:Hx; [|vm_compute in Hx; discriminate]. exists x.
    vm_compute in Hx. injection Hx as <-. repeat split.
Defined.

Lemma decided_once_witness :
  exists x x', heap offered !! 0%nat = Some x /\ heap reported !! 0%nat = Some x' /\
    same_transfer x x' /\ Shared.terminal (Transfer.shared x') = true.
Proof.
  destruct (heap offered !! 0%nat) as [x|] eqn:Hx; [|vm_compute in Hx; discriminate].
  assert (Hr : rtc tenv offered reported).
  { apply (relay_exec_env (on_bridge_result "dev" (pb.TransferResult.mk "t1" 2 42 "")) offered reported
             (trace (demo_net "t1") (on_bridge_result "dev" (pb.TransferResult.mk "t1" 2 42 "")) offered) (Some tt)).
    apply (relay_run_exec (demo_net "t1")), run_eq. vm_compute. reflexivity. }
  destruct (decided_once offered reported 0%nat x) as (x' & Hx' & Hsame & _); [by apply after_reach|exact Hr|exact Hx|].
  exists x, x'. split; [reflexivity|]. split; [exact Hx'|]. split; [exact Hsame|].
  vm_compute in Hx'. injection Hx' as <-. reflexivity.
Defined.

(** A browser declares an upload, asks to send it and goes away while the Bridge is awaited: its
    request ends with the receiver taken.  It tries again. *)
Definition gone_away : Relay.t := (locked 0%nat take_consumer_rx declared).2.
Definition retried : Relay.t := after (demo_net "t1") (upload_stream "s1" "t1") gone_away.
Definition stopped : Relay.t := after (demo_net "t2") (declare "t2") retried.

Lemma second_put_stops_relay_witness :
  outcome (demo_net "t1") (upload_stream "s1" "t1") gone_away = Some None /\
  outcome (demo_net "t2") (declare "t2") retried = Some None /\
  outcome (demo_net "t3") (start_download "s1" None "inline") stopped = Some None /\
  outcome (demo_net "t3") sweep stopped = Some None /\
  (sweep_take stopped).1 = None.
Proof.
  split; [vm_compute; reflexivity|]. split; [vm_compute; reflexivity|]. split; [vm_compute; reflexivity|].
  split; [vm_compute; reflexivity|].
  assert (Hg : rtc tenv Relay.init gone_away).
  { eapply rtc_r; [exact declared_reach|]. apply (tenv_critical (TakeConsumerRx 0%nat) _ _ (Some tt)). vm_compute. reflexivity. }
  destruct (heap gone_away !! 0%nat) as [x|] eqn:Hx; [|vm_compute in Hx; discriminate].
  destruct (second_put_stops_relay gone_away retried retried stopped stopped "t1" 0%nat x None demo_info None) as (_ & _ & _ & _ & Hs & _);
    [exact Hg|exact Hx| | |apply rtc_refl|vm_compute; reflexivity| |apply rtc_refl|exact Hs].
  - vm_compute in Hx. injection Hx as <-. reflexivity.
  - vm_compute. reflexivity.
  - exists "t2", 1%nat. split; [vm_compute; reflexivity|]. split; [vm_compute; reflexivity|]. vm_compute. reflexivity.
Defined.
