(* ===== verification/Pending.v ===== *)
(** * The registry of ZCode decisions ([apps/bridge/src/zcode/pending.rs], [zcode/contract.rs])

    A hook helper of ZCode registers a request and waits; a browser command decides it; the
    socket task reports whether the decision reached the helper.  [contract.rs] gives the data
    exchanged with the helper, [pending.rs] the registry: a map behind one mutex, each method one
    critical section.  An [Instant] is a [Z], read inside the critical section. *)

From S2P Require Import Prelude RustStr Domain.

(** ** [tokio::sync::oneshot]

    One value at most; [sender] and [receiver] tell which half still exists. *)
Module Oneshot.
Section Oneshot.
Context {A : Type}.

Record t := mk {
  value : option A;
  sender : bool;
  receiver : bool;
}.

Definition channel : t := mk None true true.

(** [Sender::send] consumes the sender; it fails when the receiver is gone. *)
Definition send (v : A) (c : t) : t * bool :=
  if receiver c then (mk (Some v) false true, true) else (mk None false false, false).

Definition drop_sender (c : t) : t := mk (value c) false (receiver c).
Definition drop_receiver (c : t) : t := mk None (sender c) false.
End Oneshot.
Arguments t : clear implicits.
End Oneshot.

(** ** The contract *)

Definition CONTRACT_VERSION : Z := 1.
Definition DEFAULT_REMOTE_WAIT_MS : Z := 45000.
Definition MIN_REMOTE_WAIT_MS : Z := 500.
Definition MAX_REMOTE_WAIT_MS : Z := DEFAULT_REMOTE_WAIT_MS.
Definition MAX_FRAME_BYTES : Z := 256 * 1024.
Definition DELIVERY_ACK_WAIT_MS : Z := 3000.

Definition EVENT_PERMISSION_REQUEST : string := "permission_request".
Definition EVENT_ASK_USER : string := "ask_user".
Definition EVENT_STATUS : string := "status".
Definition EVENT_CANCEL : string := "cancel".

Definition STATUS_ALLOWED : string := "allowed".
Definition STATUS_DENIED : string := "denied".
Definition STATUS_ANSWERED : string := "answered".
Definition STATUS_EXPIRED : string := "expired".
Definition STATUS_CANCELLED : string := "cancelled".
Definition STATUS_REJECTED : string := "rejected".
Definition STATUS_ACCEPTED : string := "accepted".

(** [s.chars().count()]: every byte of a [str] that does not continue a character starts one. *)
Fixpoint chars_count (s : string) : Z :=
  match s with
  | EmptyString => 0
  | String a s =>
      (if Z.land (Z.of_N (Ascii.N_of_ascii a)) 0xC0 =? 0x80 then 0 else 1) + chars_count s
  end.

Module AskRequest.
Record t := mk {
  question : string;
  options : list string;
  allow_free_text : bool;
  call_id : option string;
}.

Definition MAX_QUESTION_CHARS : Z := 2000.
Definition MAX_OPTION_CHARS : Z := 200.
Definition MAX_OPTIONS : Z := 8.

Definition validate (ask : t) : res string unit :=
  if bool_decide (trim (question ask) = "") then Err "question is empty"
  else if MAX_QUESTION_CHARS <? chars_count (question ask) then
    Err ("question exceeds " +:+ pretty MAX_QUESTION_CHARS +:+ " chars")
  else if MAX_OPTIONS <? zlen (options ask) then
    Err ("more than " +:+ pretty MAX_OPTIONS +:+ " options")
  else if existsb (fun option => MAX_OPTION_CHARS <? chars_count option) (options ask) then
    Err ("option exceeds " +:+ pretty MAX_OPTION_CHARS +:+ " chars")
  else Ok tt.
End AskRequest.

Module HookReply.
Record t := mk {
  status : string;
  message : option string;
  option_ : option string;
  text : option string;
}.
#[global] Instance eq_dec : EqDecision t.
Proof. solve_decision. Defined.

Definition allowed : t := mk STATUS_ALLOWED None None None.
Definition denied (message : string) : t := mk STATUS_DENIED (Some message) None None.
Definition answered (option_ text : option string) : t := mk STATUS_ANSWERED None option_ text.
Definition expired : t := mk STATUS_EXPIRED None None None.
Definition cancelled : t := mk STATUS_CANCELLED None None None.
Definition rejected (message : string) : t := mk STATUS_REJECTED (Some message) None None.
Definition accepted : t := mk STATUS_ACCEPTED None None None.
End HookReply.

Definition clamp_wait_ms (requested : Z) : Z :=
  Z.min (Z.max requested MIN_REMOTE_WAIT_MS) MAX_REMOTE_WAIT_MS.

(** ** The registry's data *)

Module InvokeKind.
Inductive t := PermissionRequest | AskUser.
#[global] Instance eq_dec : EqDecision t.
Proof. solve_decision. Defined.
End InvokeKind.

Module PendingState.
Inductive t :=
| Waiting
| Decided
| ReturnedToRuntime
| RuntimeProcessed
| Expired
| HandledLocally.
#[global] Instance eq_dec : EqDecision t.
Proof. solve_decision. Defined.

Definition is_terminal (state : t) : bool :=
  match state with
  | ReturnedToRuntime | RuntimeProcessed | Expired | HandledLocally => true
  | Waiting | Decided => false
  end.
End PendingState.

Module PendingError.
Inductive t :=
| Unknown
| AlreadyDecided
| Expired
| Cancelled
| Duplicate
| Rejected (message : string).

Definition display (e : t) : string :=
  match e with
  | Unknown => "unknown or stale invoke (bridge may have restarted)"
  | AlreadyDecided => "invoke already decided"
  | Expired => "invoke expired"
  | Cancelled => "invoke was cancelled or its helper is gone"
  | Duplicate => "duplicate invoke id"
  | Rejected message => "invoke payload rejected: " +:+ message
  end.
End PendingError.

Module DeliveryOutcome.
Inductive t := Delivered | Unconfirmed.
#[global] Instance eq_dec : EqDecision t.
Proof. solve_decision. Defined.
End DeliveryOutcome.

(** The halves of channels a record holds are the keys of the channels in the store below. *)
Module PendingRecord.
Record t := mk {
  invoke_id : string;
  kind : InvokeKind.t;
  native_session_id : option string;
  tool_name : option string;
  tool_use_id : option string;
  ask_question : option string;
  ask_options : list string;
  ask_allow_free_text : bool;
  action_summary : option string;
  state : PendingState.t;
  created_at : Z;
  deadline : Z;
  responder : option nat;
  delivery_tx : option nat;
  delivery_rx : option nat;
}.

Definition with_state (x : PendingState.t) (r : t) : t :=
  mk (invoke_id r) (kind r) (native_session_id r) (tool_name r) (tool_use_id r) (ask_question r)
    (ask_options r) (ask_allow_free_text r) (action_summary r) x (created_at r) (deadline r)
    (responder r) (delivery_tx r) (delivery_rx r).
Definition take_responder (r : t) : t :=
  mk (invoke_id r) (kind r) (native_session_id r) (tool_name r) (tool_use_id r) (ask_question r)
    (ask_options r) (ask_allow_free_text r) (action_summary r) (state r) (created_at r)
    (deadline r) None (delivery_tx r) (delivery_rx r).
Definition take_delivery_tx (r : t) : t :=
  mk (invoke_id r) (kind r) (native_session_id r) (tool_name r) (tool_use_id r) (ask_question r)
    (ask_options r) (ask_allow_free_text r) (action_summary r) (state r) (created_at r)
    (deadline r) (responder r) None (delivery_rx r).
Definition take_delivery_rx (r : t) : t :=
  mk (invoke_id r) (kind r) (native_session_id r) (tool_name r) (tool_use_id r) (ask_question r)
    (ask_options r) (ask_allow_free_text r) (action_summary r) (state r) (created_at r)
    (deadline r) (responder r) (delivery_tx r) None.
End PendingRecord.

Module PendingSnapshot.
Record t := mk {
  invoke_id : string;
  kind : InvokeKind.t;
  state : PendingState.t;
  native_session_id : option string;
}.
End PendingSnapshot.

Module WaitingCard.
Record t := mk {
  invoke_id : string;
  kind : InvokeKind.t;
  native_session_id : option string;
  tool_name : option string;
  question : option string;
  options : list string;
  allow_free_text : bool;
  action_summary : option string;
}.
End WaitingCard.

(** The map behind the mutex, and the channels made so far.  The two channels of one
    registration have the same key, below [fresh]. *)
Module PendingRegistry.
Record t := mk {
  inner : gmap string PendingRecord.t;
  replies : gmap nat (Oneshot.t HookReply.t);
  deliveries : gmap nat (Oneshot.t DeliveryOutcome.t);
  fresh : nat;
}.

Definition new : t := mk ∅ ∅ ∅ 0.

Definition with_inner (x : gmap string PendingRecord.t) (g : t) : t :=
  mk x (replies g) (deliveries g) (fresh g).
Definition with_replies (x : gmap nat (Oneshot.t HookReply.t)) (g : t) : t :=
  mk (inner g) x (deliveries g) (fresh g).
Definition with_deliveries (x : gmap nat (Oneshot.t DeliveryOutcome.t)) (g : t) : t :=
  mk (inner g) (replies g) x (fresh g).
End PendingRegistry.

Import PendingRegistry (inner, replies, deliveries, fresh, with_inner, with_replies, with_deliveries).
Import PendingRecord (with_state, take_responder, take_delivery_tx, take_delivery_rx).

Definition set_record (invoke_id : string) (record : PendingRecord.t) (g : PendingRegistry.t) :
    PendingRegistry.t :=
  with_inner (<[invoke_id := record]> (inner g)) g.

(** Sending through a key, and dropping halves of the channels with some keys. *)
Definition send_to {A} (c : nat) (v : A) (m : gmap nat (Oneshot.t A)) : gmap nat (Oneshot.t A) * bool :=
  match m !! c with
  | Some ch => let '(ch, sent) := Oneshot.send v ch in (<[c := ch]> m, sent)
  | None => (m, false)
  end.

Definition drop_senders {A} (cs : list nat) (m : gmap nat (Oneshot.t A)) : gmap nat (Oneshot.t A) :=
  map_imap (fun c ch => Some (if bool_decide (c ∈ cs) then Oneshot.drop_sender ch else ch)) m.

Definition drop_receivers {A} (cs : list nat) (m : gmap nat (Oneshot.t A)) : gmap nat (Oneshot.t A) :=
  map_imap (fun c ch => Some (if bool_decide (c ∈ cs) then Oneshot.drop_receiver ch else ch)) m.

(** ** The registry's methods: one critical section each *)

(** [retain] of [register]: what it drops takes its channel halves with it. *)
Definition retained (now : Z) (record : PendingRecord.t) : bool :=
  (now <? PendingRecord.deadline record) || negb (PendingState.is_terminal (PendingRecord.state record)).

Definition retain_live (now : Z) (g : PendingRegistry.t) : PendingRegistry.t :=
  let gone := map snd (map_to_list (filter (fun e => retained now e.2 = false) (inner g))) in
  PendingRegistry.mk
    (filter (fun e => retained now e.2 = true) (inner g))
    (drop_senders (omap PendingRecord.responder gone) (replies g))
    (drop_receivers (omap PendingRecord.delivery_rx gone)
       (drop_senders (omap PendingRecord.delivery_tx gone) (deliveries g)))
    (fresh g).

(** The code reads the clock just before it takes the lock; the model takes [now] at the lock, so the deadline it
    stores is later by the wait for the lock. *)
Definition register (now : Z) (invoke_id : string) (kind : InvokeKind.t)
    (native_session_id tool_name tool_use_id : option string) (ask : option AskRequest.t)
    (action_summary : option string) (wait : Z) (g : PendingRegistry.t) :
    res PendingError.t nat * PendingRegistry.t :=
  match inner g !! invoke_id with
  | Some _ => (Err PendingError.Duplicate, g)
  | None =>
      let g := retain_live now g in
      let c := fresh g in
      let record :=
        PendingRecord.mk invoke_id kind native_session_id tool_name tool_use_id
          (AskRequest.question <$> ask) (default [] (AskRequest.options <$> ask))
          (default false (AskRequest.allow_free_text <$> ask)) action_summary
          PendingState.Waiting now (now + wait) (Some c) (Some c) (Some c) in
      (Ok c,
       PendingRegistry.mk (<[invoke_id := record]> (inner g))
         (<[c := Oneshot.channel]> (replies g)) (<[c := Oneshot.channel]> (deliveries g)) (S c))
  end.

Definition resolve (now : Z) (invoke_id : string) (reply : HookReply.t) (g : PendingRegistry.t) :
    res PendingError.t PendingState.t * PendingRegistry.t :=
  match inner g !! invoke_id with
  | None => (Err PendingError.Unknown, g)
  | Some record =>
      match PendingRecord.state record with
      | PendingState.Decided => (Err PendingError.AlreadyDecided, g)
      | PendingState.Expired => (Err PendingError.Expired, g)
      | PendingState.HandledLocally => (Err PendingError.Cancelled, g)
      | PendingState.ReturnedToRuntime | PendingState.RuntimeProcessed =>
          (Err PendingError.AlreadyDecided, g)
      | PendingState.Waiting =>
          if PendingRecord.deadline record <=? now then
            (Err PendingError.Expired, set_record invoke_id (with_state PendingState.Expired record) g)
          else match PendingRecord.responder record with
          | None =>
              (Err PendingError.Cancelled,
               set_record invoke_id (with_state PendingState.HandledLocally record) g)
          | Some responder =>
              let record := take_responder record in
              let '(chans, sent) := send_to responder reply (replies g) in
              if sent then
                (Ok PendingState.Decided,
                 set_record invoke_id (with_state PendingState.Decided record) (with_replies chans g))
              else
                (Err PendingError.Cancelled,
                 set_record invoke_id (with_state PendingState.HandledLocally record)
                   (with_replies chans g))
          end
      end
  end.

Definition take_delivery (invoke_id : string) (g : PendingRegistry.t) :
    option nat * PendingRegistry.t :=
  match inner g !! invoke_id with
  | None => (None, g)
  | Some record => (PendingRecord.delivery_rx record, set_record invoke_id (take_delivery_rx record) g)
  end.

Definition complete_delivery (invoke_id : string) (outcome : DeliveryOutcome.t)
    (g : PendingRegistry.t) : res PendingError.t PendingState.t * PendingRegistry.t :=
  match inner g !! invoke_id with
  | None => (Err PendingError.Unknown, g)
  | Some record =>
      if negb (bool_decide (PendingRecord.state record = PendingState.Decided)) then
        (Err PendingError.AlreadyDecided, g)
      else
        let state :=
          match outcome with
          | DeliveryOutcome.Delivered => PendingState.ReturnedToRuntime
          | DeliveryOutcome.Unconfirmed => PendingState.HandledLocally
          end in
        let chans :=
          match PendingRecord.delivery_tx record with
          | Some tx => (send_to tx outcome (deliveries g)).1
          | None => deliveries g
          end in
        (Ok state,
         set_record invoke_id (take_delivery_tx (with_state state record)) (with_deliveries chans g))
  end.

Definition transition (invoke_id : string) (from to : PendingState.t) (g : PendingRegistry.t) :
    res PendingError.t unit * PendingRegistry.t :=
  match inner g !! invoke_id with
  | None => (Err PendingError.Unknown, g)
  | Some record =>
      if negb (bool_decide (PendingRecord.state record = from)) then (Err PendingError.AlreadyDecided, g)
      else (Ok tt, set_record invoke_id (with_state to record) g)
  end.

Definition mark_runtime_processed (invoke_id : string) (g : PendingRegistry.t) :
    res PendingError.t unit * PendingRegistry.t :=
  transition invoke_id PendingState.ReturnedToRuntime PendingState.RuntimeProcessed g.

Definition expire (invoke_id : string) (g : PendingRegistry.t) :
    res PendingError.t PendingState.t * PendingRegistry.t :=
  match inner g !! invoke_id with
  | None => (Err PendingError.Unknown, g)
  | Some record =>
      if negb (bool_decide (PendingRecord.state record = PendingState.Waiting)) then
        (Err PendingError.AlreadyDecided, g)
      else (Ok PendingState.Expired, set_record invoke_id (with_state PendingState.Expired record) g)
  end.

Definition expire_or_already_expired (invoke_id : string) (g : PendingRegistry.t) :
    bool * PendingRegistry.t :=
  match inner g !! invoke_id with
  | Some record =>
      match PendingRecord.state record with
      | PendingState.Waiting | PendingState.Expired =>
          (true, set_record invoke_id (with_state PendingState.Expired record) g)
      | _ => (false, g)
      end
  | None => (false, g)
  end.

Definition finalize_decided_after_race (invoke_id : string) (g : PendingRegistry.t) :
    bool * PendingRegistry.t :=
  match inner g !! invoke_id with
  | Some record =>
      if bool_decide (PendingRecord.state record = PendingState.Decided) then
        (true, set_record invoke_id (with_state PendingState.Expired record) g)
      else (false, g)
  | None => (false, g)
  end.

Definition cancel (invoke_id : string) (g : PendingRegistry.t) :
    res PendingError.t PendingState.t * PendingRegistry.t :=
  match inner g !! invoke_id with
  | None => (Err PendingError.Unknown, g)
  | Some record =>
      if negb (bool_decide (PendingRecord.state record = PendingState.Waiting)) then
        (Err PendingError.AlreadyDecided, g)
      else
        let chans :=
          match PendingRecord.responder record with
          | Some c => drop_senders [c] (replies g)
          | None => replies g
          end in
        (Ok PendingState.HandledLocally,
         set_record invoke_id (take_responder (with_state PendingState.HandledLocally record))
           (with_replies chans g))
  end.

Definition get (invoke_id : string) (g : PendingRegistry.t) : option PendingSnapshot.t :=
  (fun record =>
     PendingSnapshot.mk (PendingRecord.invoke_id record) (PendingRecord.kind record)
       (PendingRecord.state record) (PendingRecord.native_session_id record)) <$>
  inner g !! invoke_id.

Definition card_of (record : PendingRecord.t) : WaitingCard.t :=
  WaitingCard.mk (PendingRecord.invoke_id record) (PendingRecord.kind record)
    (PendingRecord.native_session_id record) (PendingRecord.tool_name record)
    (PendingRecord.ask_question record) (PendingRecord.ask_options record)
    (PendingRecord.ask_allow_free_text record) (PendingRecord.action_summary record).

(** Sorted by the invoke id, which is the key of the map. *)
Definition waiting_cards (g : PendingRegistry.t) : list WaitingCard.t :=
  map card_of
    (List.filter (fun record => bool_decide (PendingRecord.state record = PendingState.Waiting))
       (bt_values (inner g))).

Definition ask_allows_free_text (invoke_id : string) (g : PendingRegistry.t) : option bool :=
  record ← inner g !! invoke_id;
  if bool_decide (PendingRecord.kind record = InvokeKind.AskUser)
  then Some (PendingRecord.ask_allow_free_text record) else None.

(** In the order of [map_to_list] for the code's hash-map order. *)
Definition find_returned_by_tool_use (tool_use_id : string) (g : PendingRegistry.t) : option string :=
  PendingRecord.invoke_id <$>
  List.find (fun record =>
    bool_decide (PendingRecord.tool_use_id record = Some tool_use_id) &&
    bool_decide (PendingRecord.state record = PendingState.ReturnedToRuntime))
    (map snd (map_to_list (inner g))).

Definition ask_option_label (invoke_id option_id : string) (g : PendingRegistry.t) : option string :=
  record ← inner g !! invoke_id;
  if negb (bool_decide (PendingRecord.kind record = InvokeKind.AskUser)) then None
  else
    digits ← strip_prefix "option-" option_id;
    index ← parse_usize digits;
    if index =? 0 then None
    else PendingRecord.ask_options record !! Z.to_nat (index - 1).

Definition len (g : PendingRegistry.t) : nat := size (inner g).
Definition is_empty (g : PendingRegistry.t) : bool := bool_decide (inner g = ∅).

(** What the tasks that hold the receivers do when they let go of them. *)
Definition drop_reply_rx (c : nat) (g : PendingRegistry.t) : PendingRegistry.t :=
  with_replies (drop_receivers [c] (replies g)) g.
Definition drop_delivery_rx (c : nat) (g : PendingRegistry.t) : PendingRegistry.t :=
  with_deliveries (drop_receivers [c] (deliveries g)) g.

(** ** The methods as operations, and what a sequence of them leaves behind *)

Inductive reg : Type -> Type :=
| Register (invoke_id : string) (kind : InvokeKind.t)
    (native_session_id tool_name tool_use_id : option string) (ask : option AskRequest.t)
    (action_summary : option string) (wait : Z) : reg (res PendingError.t nat)
| Resolve (invoke_id : string) (reply : HookReply.t) : reg (res PendingError.t PendingState.t)
| TakeDelivery (invoke_id : string) : reg (option nat)
| CompleteDelivery (invoke_id : string) (outcome : DeliveryOutcome.t)
    : reg (res PendingError.t PendingState.t)
| MarkRuntimeProcessed (invoke_id : string) : reg (res PendingError.t unit)
| Expire (invoke_id : string) : reg (res PendingError.t PendingState.t)
| ExpireOrAlreadyExpired (invoke_id : string) : reg bool
| FinalizeDecidedAfterRace (invoke_id : string) : reg bool
| Cancel (invoke_id : string) : reg (res PendingError.t PendingState.t)
| Get (invoke_id : string) : reg (option PendingSnapshot.t)
| WaitingCards : reg (list WaitingCard.t)
| AskAllowsFreeText (invoke_id : string) : reg (option bool)
| AskOptionLabel (invoke_id option_id : string) : reg (option string)
| DropReplyRx (c : nat) : reg unit
| DropDeliveryRx (c : nat) : reg unit.

Definition apply_reg {A} (now : Z) (o : reg A) (g : PendingRegistry.t) : A * PendingRegistry.t :=
  match o in reg A return A * PendingRegistry.t with
  | Register i k n tn tu ask sm w => register now i k n tn tu ask sm w g
  | Resolve i r => resolve now i r g
  | TakeDelivery i => take_delivery i g
  | CompleteDelivery i o => complete_delivery i o g
  | MarkRuntimeProcessed i => mark_runtime_processed i g
  | Expire i => expire i g
  | ExpireOrAlreadyExpired i => expire_or_already_expired i g
  | FinalizeDecidedAfterRace i => finalize_decided_after_race i g
  | Cancel i => cancel i g
  | Get i => (get i g, g)
  | WaitingCards => (waiting_cards g, g)
  | AskAllowsFreeText i => (ask_allows_free_text i g, g)
  | AskOptionLabel i o => (ask_option_label i o g, g)
  | DropReplyRx c => (tt, drop_reply_rx c g)
  | DropDeliveryRx c => (tt, drop_delivery_rx c g)
  end.

(** What happened, with the channel of the registration it happened to. *)
Inductive Event :=
| Registered (invoke_id : string) (c : nat) (deadline : Z)
| Decided (c : nat) (reply : HookReply.t) (now : Z)
| Settled (c : nat) (outcome : DeliveryOutcome.t).

Definition events_of {A} (now : Z) (o : reg A) (g : PendingRegistry.t) : A -> list Event :=
  match o in reg A return A -> list Event with
  | Register i _ _ _ _ _ _ w => fun a =>
      match a with Ok c => [Registered i c (now + w)] | Err _ => [] end
  | Resolve i r => fun a =>
      match a, inner g !! i with
      | Ok _, Some record => from_option (fun c => [Decided c r now]) [] (PendingRecord.responder record)
      | _, _ => []
      end
  | CompleteDelivery i o => fun a =>
      match a, inner g !! i with
      | Ok _, Some record => from_option (fun c => [Settled c o]) [] (PendingRecord.delivery_tx record)
      | _, _ => []
      end
  | _ => fun _ => []
  end.

(** The registry, the clock, and the events so far (the latest last). *)
Module Hooks.
Record t := mk {
  registry : PendingRegistry.t;
  clock : Z;
  history : list Event;
}.

Definition initial (clock : Z) : t := mk PendingRegistry.new clock [].
End Hooks.

Definition perform_reg {A} (o : reg A) (h : Hooks.t) : A * Hooks.t :=
  let now := Hooks.clock h in
  let '(a, g) := apply_reg now o (Hooks.registry h) in
  (a, Hooks.mk g now (Hooks.history h ++ events_of now o (Hooks.registry h) a)).

Inductive hooks_step : Hooks.t -> Hooks.t -> Prop :=
| step_reg {A} (o : reg A) (h : Hooks.t) : hooks_step h (perform_reg o h).2
| step_clock (now : Z) (h : Hooks.t) :
    Hooks.clock h <= now -> hooks_step h (Hooks.mk (Hooks.registry h) now (Hooks.history h)).

Definition hooks_reachable (h : Hooks.t) : Prop :=
  exists clock, rtc hooks_step (Hooks.initial clock) h.

Definition decisions (c : nat) (events : list Event) : list (HookReply.t * Z) :=
  omap (fun e => match e with Decided c' r now => if bool_decide (c' = c) then Some (r, now) else None | _ => None end) events.

Definition outcomes (c : nat) (events : list Event) : list DeliveryOutcome.t :=
  omap (fun e => match e with Settled c' o => if bool_decide (c' = c) then Some o else None | _ => None end) events.

(** The channel of the latest registration of an invoke id. *)
Definition registration (invoke_id : string) (events : list Event) : option nat :=
  last (omap (fun e => match e with Registered i c _ => if bool_decide (i = invoke_id) then Some c else None | _ => None end) events).
