(* ===== verification/PendingProps.v ===== *)
(** * Properties of the ZCode registry

    Whatever the tasks of the process do with the registry, in any order: a registration is
    decided at most once, before its deadline, the helper's channel carries that decision and
    nothing else, and the browser's channel says delivered at most once and only after it. *)

From S2P Require Import Prelude RustStr Domain Pending.

Import PendingRegistry (inner, replies, deliveries, fresh, with_inner, with_replies, with_deliveries).

Lemma decisions_app (c : nat) (k l : list Event) : decisions c (k ++ l) = decisions c k ++ decisions c l.
Proof. apply omap_app. Qed.

Lemma outcomes_app (c : nat) (k l : list Event) : outcomes c (k ++ l) = outcomes c k ++ outcomes c l.
Proof. apply omap_app. Qed.

Lemma decisions_elem (c : nat) (r : HookReply.t) (now : Z) (l : list Event) :
  (r, now) ∈ decisions c l <-> Decided c r now ∈ l.
Proof.
  unfold decisions. rewrite list_elem_of_omap. split.
  - intros ([] & Hin & He); try done. case_bool_decide; by simplify_eq.
  - intros Hin. eexists. split; [exact Hin|]. simpl. by rewrite bool_decide_true.
Qed.

Lemma outcomes_elem (c : nat) (o : DeliveryOutcome.t) (l : list Event) :
  o ∈ outcomes c l <-> Settled c o ∈ l.
Proof.
  unfold outcomes. rewrite list_elem_of_omap. split.
  - intros ([] & Hin & He); try done. case_bool_decide; by simplify_eq.
  - intros Hin. eexists. split; [exact Hin|]. simpl. by rewrite bool_decide_true.
Qed.

Lemma drop_senders_lookup {A} (cs : list nat) (m : gmap nat (Oneshot.t A)) (c : nat) :
  drop_senders cs m !! c =
  (fun ch => if bool_decide (c ∈ cs) then Oneshot.drop_sender ch else ch) <$> m !! c.
Proof. unfold drop_senders. rewrite map_lookup_imap. by destruct (m !! c). Qed.

Lemma drop_receivers_lookup {A} (cs : list nat) (m : gmap nat (Oneshot.t A)) (c : nat) :
  drop_receivers cs m !! c =
  (fun ch => if bool_decide (c ∈ cs) then Oneshot.drop_receiver ch else ch) <$> m !! c.
Proof. unfold drop_receivers. rewrite map_lookup_imap. by destruct (m !! c). Qed.

(** ** The invariant *)

(** What the state of a record says about the registration [c] it belongs to. *)
Definition record_inv (l : list Event) (c : nat) (id : string) (r : PendingRecord.t) : Prop :=
  Registered id c (PendingRecord.deadline r) ∈ l /\
  PendingRecord.invoke_id r = id /\
  (PendingRecord.responder r = Some c \/ PendingRecord.responder r = None) /\
  (PendingRecord.delivery_tx r = Some c \/ PendingRecord.delivery_tx r = None) /\
  (PendingRecord.delivery_rx r = Some c \/ PendingRecord.delivery_rx r = None) /\
  match PendingRecord.state r with
  | PendingState.Waiting =>
      PendingRecord.responder r = Some c /\ PendingRecord.delivery_tx r = Some c /\
      decisions c l = [] /\ outcomes c l = []
  | PendingState.Decided =>
      PendingRecord.responder r = None /\ PendingRecord.delivery_tx r = Some c /\
      length (decisions c l) = 1%nat /\ outcomes c l = []
  | _ => True
  end.

(** The reply channel of a registration. *)
Definition reply_inv (l : list Event) (c : nat) (ch : Oneshot.t HookReply.t) : Prop :=
  (length (decisions c l) <= 1)%nat /\
  (Oneshot.sender ch = true -> decisions c l = []) /\
  (forall r, Oneshot.value ch = Some r -> exists now, decisions c l = [(r, now)]) /\
  (Oneshot.value ch = None -> Oneshot.receiver ch = true -> decisions c l = []).

Definition delivery_inv (l : list Event) (c : nat) (ch : Oneshot.t DeliveryOutcome.t) : Prop :=
  (length (outcomes c l) <= 1)%nat /\
  (outcomes c l = [] \/ length (decisions c l) = 1%nat) /\
  (forall o, Oneshot.value ch = Some o -> outcomes c l = [o]).

Record registry_inv (g : PendingRegistry.t) (l : list Event) : Prop := {
  inv_latest : forall id r, inner g !! id = Some r -> exists c, registration id l = Some c /\ record_inv l c id r;
  inv_waiting : forall id r c, inner g !! id = Some r ->
    PendingRecord.state r = PendingState.Waiting -> PendingRecord.responder r = Some c ->
    exists ch, replies g !! c = Some ch /\ Oneshot.sender ch = true;
  inv_replies : forall c ch, replies g !! c = Some ch -> reply_inv l c ch;
  inv_deliveries : forall c ch, deliveries g !! c = Some ch -> delivery_inv l c ch;
  inv_registered : forall id c d, Registered id c d ∈ l ->
    (c < fresh g)%nat /\ is_Some (replies g !! c) /\ is_Some (deliveries g !! c);
  inv_unique : forall c id d id' d', Registered id c d ∈ l -> Registered id' c d' ∈ l -> id = id' /\ d = d';
  inv_new : forall c, (fresh g <= c)%nat -> decisions c l = [] /\ outcomes c l = [];
  inv_deadline : forall c r now, Decided c r now ∈ l -> exists id d, Registered id c d ∈ l /\ now < d;
}.

Lemma inv_records (g : PendingRegistry.t) (l : list Event) (id : string) (r : PendingRecord.t) :
  registry_inv g l -> inner g !! id = Some r -> exists c, record_inv l c id r.
Proof. intros I Hr. destruct (inv_latest _ _ I _ _ Hr) as (c & _ & ?). by exists c. Qed.

Lemma registration_old (id : string) (l e : list Event) :
  (forall c d, Registered id c d ∉ e) -> registration id (l ++ e) = registration id l.
Proof.
  intros He. unfold registration. rewrite omap_app.
  replace (omap _ e) with (@nil nat); [by rewrite app_nil_r|].
  symmetry. apply elem_of_nil_inv. intros c ([] & Hin & Hc)%list_elem_of_omap; try done.
  case_bool_decide; simplify_eq. by apply He in Hin.
Qed.

Lemma registration_new (id : string) (l : list Event) (c : nat) (d : Z) :
  registration id (l ++ [Registered id c d]) = Some c.
Proof. unfold registration. rewrite omap_app. simpl. by rewrite bool_decide_true, last_snoc. Qed.

(** Events of other registrations change nothing for [c]. *)
Definition foreign (c : nat) (e : list Event) : Prop := decisions c e = [] /\ outcomes c e = [].

Lemma record_inv_app (l e : list Event) (c : nat) (id : string) (r : PendingRecord.t) :
  foreign c e -> record_inv l c id r -> record_inv (l ++ e) c id r.
Proof.
  intros [Hd Ho] (Hr & Hi & H1 & H2 & H3 & Hs). split_and!; try done.
  - apply elem_of_app. by left.
  - destruct (PendingRecord.state r); try done;
      rewrite decisions_app, outcomes_app, Hd, Ho, !app_nil_r; done.
Qed.

Lemma reply_inv_app (l e : list Event) (c : nat) (ch : Oneshot.t HookReply.t) :
  foreign c e -> reply_inv l c ch -> reply_inv (l ++ e) c ch.
Proof. intros [Hd _]. unfold reply_inv. by rewrite decisions_app, Hd, app_nil_r. Qed.

Lemma delivery_inv_app (l e : list Event) (c : nat) (ch : Oneshot.t DeliveryOutcome.t) :
  foreign c e -> delivery_inv l c ch -> delivery_inv (l ++ e) c ch.
Proof. intros [Hd Ho]. unfold delivery_inv. by rewrite decisions_app, outcomes_app, Hd, Ho, !app_nil_r. Qed.

(** An operation that changes one record, its channels, and adds events of its registration. *)
Lemma inv_update (g g' : PendingRegistry.t) (l e : list Event) (id : string) (r0 r : PendingRecord.t) (c : nat) :
  registry_inv g l -> inner g !! id = Some r0 -> registration id l = Some c -> record_inv l c id r0 ->
  inner g' = <[id := r]> (inner g) -> fresh g' = fresh g ->
  (forall c', c' <> c -> replies g' !! c' = replies g !! c' /\ deliveries g' !! c' = deliveries g !! c' /\
                       foreign c' e) ->
  (is_Some (replies g !! c) -> is_Some (replies g' !! c)) ->
  (is_Some (deliveries g !! c) -> is_Some (deliveries g' !! c)) ->
  (forall i c d, Registered i c d ∉ e) ->
  (forall rp now, Decided c rp now ∈ e -> now < PendingRecord.deadline r0) ->
  record_inv (l ++ e) c id r ->
  (PendingRecord.state r = PendingState.Waiting ->
   exists ch, replies g' !! c = Some ch /\ Oneshot.sender ch = true) ->
  (forall ch, replies g' !! c = Some ch -> reply_inv (l ++ e) c ch) ->
  (forall ch, deliveries g' !! c = Some ch -> delivery_inv (l ++ e) c ch) ->
  registry_inv g' (l ++ e).
Proof.
  intros I Hr0 Hlast HR0 Hin Hfr Hother Hrs Hds Hreg Hdl HR Hw Hreply Hdeliv.
  pose proof HR0 as (HR0c & _).
  destruct (inv_registered _ _ I _ _ _ HR0c) as (Hc & _ & _).
  assert (Hreg' : forall i c d, Registered i c d ∈ l ++ e -> Registered i c d ∈ l).
  { intros i c' d [?|?]%elem_of_app; [done|]. by destruct (Hreg i c' d). }
  split.
  - intros id' r'. rewrite registration_old by (intros; apply Hreg).
    rewrite Hin, lookup_insert. case_decide; [intros ?; simplify_eq; by exists c|].
    intros Hr'. destruct (inv_latest _ _ I _ _ Hr') as (c' & ? & Hc'). exists c'. split; [done|].
    apply record_inv_app; [|done]. apply Hother. intros ->.
    destruct Hc' as (Hc' & _). by destruct (inv_unique _ _ I _ _ _ _ _ HR0c Hc').
  - intros id' r' c'. rewrite Hin, lookup_insert. case_decide.
    + intros ? Hs Hresp. simplify_eq. destruct HR as (_ & _ & [?|?] & _); simplify_eq; eauto.
    + intros Hr' Hs Hresp. destruct (inv_waiting _ _ I _ _ _ Hr' Hs Hresp) as (ch & Hch & ?).
      exists ch. split; [|done]. destruct (Hother c') as [-> _]; [|done]. intros ->.
      destruct (inv_records _ _ _ _ I Hr') as (c' & Hc' & _ & Hx & _).
      destruct Hx as [?|?]; simplify_eq. by destruct (inv_unique _ _ I _ _ _ _ _ HR0c Hc').
  - intros c' ch Hch. destruct (decide (c' = c)) as [->|Hne]; [by apply Hreply|].
    destruct (Hother _ Hne) as (Heq & _ & Hf). rewrite Heq in Hch.
    apply reply_inv_app; [done|]. by apply (inv_replies _ _ I).
  - intros c' ch Hch. destruct (decide (c' = c)) as [->|Hne]; [by apply Hdeliv|].
    destruct (Hother _ Hne) as (_ & Heq & Hf). rewrite Heq in Hch.
    apply delivery_inv_app; [done|]. by apply (inv_deliveries _ _ I).
  - intros i c' d Hi%Hreg'. destruct (inv_registered _ _ I _ _ _ Hi) as (? & ? & ?).
    rewrite Hfr. destruct (decide (c' = c)) as [->|Hne]; [by auto|].
    destruct (Hother _ Hne) as (-> & -> & _). done.
  - intros c' i d i' d' H1%Hreg' H2%Hreg'. by apply (inv_unique _ _ I c').
  - intros c' Hc'. rewrite Hfr in Hc'. destruct (Hother c') as (_ & _ & Hf1 & Hf2); [lia|].
    rewrite decisions_app, outcomes_app, Hf1, Hf2, !app_nil_r. by apply (inv_new _ _ I).
  - intros c' rp now [Hd|Hd]%elem_of_app.
    + destruct (inv_deadline _ _ I _ _ _ Hd) as (i & d & ? & ?). exists i, d. split; [|done].
      apply elem_of_app. by left.
    + destruct (decide (c' = c)) as [->|Hne].
      * exists id, (PendingRecord.deadline r0). split; [apply elem_of_app; by left|by eapply Hdl].
      * destruct (Hother _ Hne) as (_ & _ & Hf & _).
        apply decisions_elem in Hd. by rewrite Hf in Hd; apply elem_of_nil in Hd.
Qed.

(** ** Every operation keeps the invariant *)

(** An operation that only changes the state of a record, to one that promises nothing. *)
Lemma inv_set_state (g : PendingRegistry.t) (l : list Event) (id : string) (r : PendingRecord.t)
    (s : PendingState.t) :
  registry_inv g l -> inner g !! id = Some r -> s <> PendingState.Waiting -> s <> PendingState.Decided ->
  registry_inv (set_record id (PendingRecord.with_state s r) g) l.
Proof.
  intros I Hr Hw Hd. destruct (inv_latest _ _ I _ _ Hr) as (c & Hl & Hc).
  rewrite <- (app_nil_r l).
  eapply (inv_update g _ l [] id r (PendingRecord.with_state s r) c); try done; simpl.
  - intros ? ? ?. apply not_elem_of_nil.
  - intros ? ? ?%elem_of_nil. done.
  - rewrite app_nil_r. destruct Hc as (? & ? & ? & ? & ? & ?). split_and!; try done. by destruct s.
  - intros ch Hch. rewrite app_nil_r. by apply (inv_replies _ _ I).
  - intros ch Hch. rewrite app_nil_r. by apply (inv_deliveries _ _ I).
Qed.

Lemma inv_drop_receivers (g : PendingRegistry.t) (l : list Event) (cs ds : list nat) :
  registry_inv g l ->
  registry_inv (PendingRegistry.mk (inner g) (drop_receivers cs (replies g)) (drop_receivers ds (deliveries g))
                  (fresh g)) l.
Proof.
  intros I. split; simpl; try apply I.
  - intros id r c Hr Hs Hc. destruct (inv_waiting _ _ I _ _ _ Hr Hs Hc) as (ch & Hch & ?).
    rewrite drop_receivers_lookup, Hch. simpl. eexists. split; [done|]. by case_bool_decide.
  - intros c ch. rewrite drop_receivers_lookup. intros (ch0 & Hch & ->)%fmap_Some.
    destruct (inv_replies _ _ I _ _ Hch) as (? & ? & ? & ?).
    unfold reply_inv. case_bool_decide; simpl; split_and!; done.
  - intros c ch. rewrite drop_receivers_lookup. intros (ch0 & Hch & ->)%fmap_Some.
    destruct (inv_deliveries _ _ I _ _ Hch) as (? & ? & ?).
    unfold delivery_inv. case_bool_decide; simpl; split_and!; done.
  - intros id c d Hreg. rewrite !drop_receivers_lookup, !fmap_is_Some. by apply (inv_registered _ _ I _ _ _ Hreg).
Qed.

Lemma inv_drop_senders (g : PendingRegistry.t) (l : list Event) (cs ds : list nat) :
  registry_inv g l ->
  (forall id r c, inner g !! id = Some r -> PendingRecord.state r = PendingState.Waiting ->
    PendingRecord.responder r = Some c -> c ∉ cs) ->
  registry_inv (PendingRegistry.mk (inner g) (drop_senders cs (replies g)) (drop_senders ds (deliveries g))
                  (fresh g)) l.
Proof.
  intros I Hcs. split; simpl; try apply I.
  - intros id r c Hr Hs Hc. destruct (inv_waiting _ _ I _ _ _ Hr Hs Hc) as (ch & Hch & ?).
    rewrite drop_senders_lookup, Hch. simpl. eexists. split; [done|].
    rewrite bool_decide_false; [done|]. by eapply Hcs.
  - intros c ch. rewrite drop_senders_lookup. intros (ch0 & Hch & ->)%fmap_Some.
    destruct (inv_replies _ _ I _ _ Hch) as (? & ? & ? & ?).
    unfold reply_inv. case_bool_decide; simpl; split_and!; done.
  - intros c ch. rewrite drop_senders_lookup. intros (ch0 & Hch & ->)%fmap_Some.
    destruct (inv_deliveries _ _ I _ _ Hch) as (? & ? & ?).
    unfold delivery_inv. case_bool_decide; simpl; split_and!; done.
  - intros id c d Hreg. rewrite !drop_senders_lookup, !fmap_is_Some. by apply (inv_registered _ _ I _ _ _ Hreg).
Qed.

Lemma inv_filter (g : PendingRegistry.t) (l : list Event) (P : string * PendingRecord.t -> Prop)
    `{forall e, Decision (P e)} :
  registry_inv g l -> registry_inv (with_inner (filter P (inner g)) g) l.
Proof.
  intros I. split; simpl; try apply I.
  - intros id r [Hr _]%map_lookup_filter_Some. apply (inv_latest _ _ I _ _ Hr).
  - intros id r c [Hr _]%map_lookup_filter_Some. apply (inv_waiting _ _ I _ _ _ Hr).
Qed.

Lemma retain_live_inv (g : PendingRegistry.t) (l : list Event) (now : Z) :
  registry_inv g l -> registry_inv (retain_live now g) l.
Proof.
  intros I. unfold retain_live.
  set (gone := map snd _). set (kept := filter (fun e => retained now e.2 = true) (inner g)).
  pose proof (inv_filter g l (fun e => retained now e.2 = true) I) as I1.
  assert (I2 : registry_inv (PendingRegistry.mk kept (drop_senders (omap PendingRecord.responder gone) (replies g))
                 (drop_senders (omap PendingRecord.delivery_tx gone) (deliveries g)) (fresh g)) l).
  { apply (inv_drop_senders _ l _ _ I1).
    intros id r c [Hr Hk]%map_lookup_filter_Some Hs Hc (r' & Hr' & Hc')%list_elem_of_omap.
    apply list_elem_of_fmap in Hr' as ((id' & r'') & -> & Hin%elem_of_map_to_list). simpl in *.
    apply map_lookup_filter_Some in Hin as [Hr' Hg]. simpl in *.
    destruct (inv_records _ _ _ _ I Hr) as (c1 & H1 & _ & H2 & _).
    destruct (inv_records _ _ _ _ I Hr') as (c2 & H3 & _ & H4 & _).
    destruct H2, H4; simplify_eq. destruct (inv_unique _ _ I _ _ _ _ _ H1 H3). simplify_eq. congruence. }
  apply (inv_drop_receivers _ _ [] (omap PendingRecord.delivery_rx gone)) in I2; simpl in I2.
  replace (drop_receivers [] _) with (drop_senders (omap PendingRecord.responder gone) (replies g)) in I2; [exact I2|].
  apply map_eq. intros c. rewrite drop_receivers_lookup. by destruct (_ !! c).
Qed.

Lemma insert_new_inv (g : PendingRegistry.t) (l : list Event) (id : string) (r : PendingRecord.t) :
  registry_inv g l -> inner g !! id = None -> PendingRecord.invoke_id r = id ->
  PendingRecord.state r = PendingState.Waiting -> PendingRecord.responder r = Some (fresh g) ->
  PendingRecord.delivery_tx r = Some (fresh g) -> PendingRecord.delivery_rx r = Some (fresh g) ->
  registry_inv (PendingRegistry.mk (<[id := r]> (inner g)) (<[fresh g := Oneshot.channel]> (replies g))
                  (<[fresh g := Oneshot.channel]> (deliveries g)) (S (fresh g)))
    (l ++ [Registered id (fresh g) (PendingRecord.deadline r)]).
Proof.
  intros I Hnew Hid Hs H1 H2 H3. set (c := fresh g) in *. set (e := [_]).
  assert (Hf : forall c, foreign c e) by done.
  assert (Hold : forall i c d, Registered i c d ∈ l -> (c < fresh g)%nat) by (intros; by eapply (inv_registered _ _ I)).
  assert (Hin : forall i c' d, Registered i c' d ∈ l ++ e ->
            Registered i c' d ∈ l /\ (c' < c)%nat \/ i = id /\ c' = c /\ d = PendingRecord.deadline r).
  { intros i c' d [Hi|Hi%list_elem_of_singleton]%elem_of_app; [left; eauto|right; by simplify_eq]. }
  destruct (inv_new _ _ I c) as [Hnd Hno]; [unfold c; lia|].
  split; simpl.
  - intros id' r'. rewrite lookup_insert. case_decide; intros Hr; simplify_eq.
    + exists c. split; [apply registration_new|].
      split_and!; rewrite ?Hs, ?decisions_app, ?outcomes_app, ?Hnd, ?Hno; auto.
      apply elem_of_app. right. by apply list_elem_of_singleton.
    + destruct (inv_latest _ _ I _ _ Hr) as (c' & ? & Hc'). exists c'. split; [|by apply record_inv_app].
      rewrite registration_old; [done|]. intros ? ? ?%list_elem_of_singleton. by simplify_eq.
  - intros id' r' c'. rewrite lookup_insert. case_decide; intros Hr Hsr Hc'; simplify_eq.
    + exists Oneshot.channel. by rewrite lookup_insert_eq.
    + destruct (inv_waiting _ _ I _ _ _ Hr Hsr Hc') as (ch & Hch & ?). exists ch.
      rewrite lookup_insert_ne; [done|]. intros <-.
      destruct (inv_records _ _ _ _ I Hr) as (c' & Hl & _ & [Hx|Hx] & _); simplify_eq.
      apply Hold in Hl. lia.
  - intros c' ch. rewrite lookup_insert. case_decide; intros Hch; simplify_eq.
    + unfold reply_inv. rewrite decisions_app, Hnd. simpl. split_and!; auto; done.
    + apply reply_inv_app; [done|]. by apply (inv_replies _ _ I).
  - intros c' ch. rewrite lookup_insert. case_decide; intros Hch; simplify_eq.
    + unfold delivery_inv. rewrite outcomes_app, Hno. simpl. split_and!; auto; done.
    + apply delivery_inv_app; [done|]. by apply (inv_deliveries _ _ I).
  - intros i c' d [[Hi Hc']|(-> & -> & ->)]%Hin.
    + destruct (inv_registered _ _ I _ _ _ Hi) as (_ & ? & ?).
      rewrite !lookup_insert_ne by lia. split_and!; [lia|done|done].
    + rewrite !lookup_insert_eq. split_and!; [lia|done|done].
  - intros c' i d i' d' [[H4 ?]|(-> & -> & ->)]%Hin [[H5 ?]|(-> & ? & ->)]%Hin; try lia; [|done].
    by apply (inv_unique _ _ I c').
  - intros c' Hc'. rewrite decisions_app, outcomes_app. simpl. rewrite !app_nil_r. apply (inv_new _ _ I).
    fold c. lia.
  - intros c' rp now [Hd|Hd%list_elem_of_singleton]%elem_of_app; [|done].
    destruct (inv_deadline _ _ I _ _ _ Hd) as (i & d & ? & ?). exists i, d. split; [|done].
    apply elem_of_app. by left.
Qed.

Lemma register_inv (now : Z) (id : string) (kind : InvokeKind.t) (native tool use : option string)
    (ask : option AskRequest.t) (summary : option string) (wait : Z) (g : PendingRegistry.t) (l : list Event) :
  registry_inv g l ->
  registry_inv (register now id kind native tool use ask summary wait g).2
    (l ++ events_of now (Register id kind native tool use ask summary wait) g
            (register now id kind native tool use ask summary wait g).1).
Proof.
  intros I. unfold register. destruct (inner g !! id) eqn:Hid; [simpl; by rewrite app_nil_r|].
  apply (insert_new_inv (retain_live now g) l id
           (PendingRecord.mk id kind native tool use (AskRequest.question <$> ask)
              (default [] (AskRequest.options <$> ask)) (default false (AskRequest.allow_free_text <$> ask))
              summary PendingState.Waiting now (now + wait) (Some (fresh g)) (Some (fresh g)) (Some (fresh g))));
    try done; [by apply retain_live_inv|].
  apply map_lookup_filter_None. by left.
Qed.

Lemma send_to_spec {A} (c : nat) (v : A) (m : gmap nat (Oneshot.t A)) :
  (forall c', c' <> c -> (send_to c v m).1 !! c' = m !! c') /\
  (is_Some (m !! c) -> is_Some ((send_to c v m).1 !! c)) /\
  (forall ch, (send_to c v m).1 !! c = Some ch ->
     exists ch0, m !! c = Some ch0 /\ ch = (Oneshot.send v ch0).1 /\ (send_to c v m).2 = (Oneshot.send v ch0).2).
Proof.
  unfold send_to, Oneshot.send. destruct (m !! c) as [ch0|] eqn:Hc;
    [|simpl; rewrite Hc; naive_solver].
  destruct (Oneshot.receiver ch0) eqn:Hrx; simpl; split_and!; intros;
    rewrite ?lookup_insert_ne, ?lookup_insert_eq in * by done; eauto; simplify_eq;
    exists ch0; by rewrite Hrx.
Qed.

Lemma events_decided (c : nat) (rp : HookReply.t) (now : Z) :
  decisions c [Decided c rp now] = [(rp, now)] /\ outcomes c [Decided c rp now] = [] /\
  (forall c', c' <> c -> foreign c' [Decided c rp now]).
Proof.
  split_and!; [simpl; by rewrite bool_decide_true|done|].
  intros c' Hc. split; [|done]. simpl. by rewrite bool_decide_false.
Qed.

Lemma events_settled (c : nat) (o : DeliveryOutcome.t) :
  outcomes c [Settled c o] = [o] /\ decisions c [Settled c o] = [] /\
  (forall c', c' <> c -> foreign c' [Settled c o]).
Proof.
  split_and!; [simpl; by rewrite bool_decide_true|done|].
  intros c' Hc. split; [done|]. simpl. by rewrite bool_decide_false.
Qed.

Lemma resolve_inv (now : Z) (id : string) (rp : HookReply.t) (g : PendingRegistry.t) (l : list Event) :
  registry_inv g l ->
  registry_inv (resolve now id rp g).2 (l ++ events_of now (Resolve id rp) g (resolve now id rp g).1).
Proof.
  intros I. unfold events_of, resolve. destruct (inner g !! id) as [r|] eqn:Hid; [|simpl; by rewrite app_nil_r].
  destruct (PendingRecord.state r) eqn:Hs; try (simpl; by rewrite app_nil_r).
  destruct (Z.leb_spec (PendingRecord.deadline r) now) as [|Hnow];
    [simpl; rewrite app_nil_r; by apply inv_set_state|].
  destruct (inv_latest _ _ I _ _ Hid) as (c & Hl & HR). pose proof HR as HR'.
  destruct HR' as (HRc & Hrid & _ & Htx & Hrx & Hst). rewrite Hs in Hst. destruct Hst as (Hresp & Htx' & Hd & Ho).
  rewrite Hresp. destruct (send_to_spec c rp (replies g)) as (S1 & S2 & S3).
  destruct (send_to c rp (replies g)) as [chans sent]. simpl in *.
  assert (Hch : forall ch, chans !! c = Some ch -> sent = true /\ ch = Oneshot.mk (Some rp) false true \/
                   sent = false /\ ch = Oneshot.mk None false false).
  { intros ch (ch0 & _ & -> & ->)%S3. unfold Oneshot.send. destruct (Oneshot.receiver ch0); auto. }
  destruct (events_decided c rp now) as (E1 & E2 & E3).
  destruct sent; simpl.
  - eapply (inv_update g _ l _ id r _ c I Hid Hl HR); [done|done|..]; simpl.
    + intros c' Hc. split_and!; auto.
    + done.
    + done.
    + intros ? ? ? ?%list_elem_of_singleton. done.
    + intros ? ? ?%list_elem_of_singleton. by simplify_eq.
    + split_and!; simpl; auto; [apply elem_of_app; by left|].
      rewrite decisions_app, outcomes_app, E1, E2, Hd, Ho. done.
    + done.
    + intros ch [[_ ->]|[? _]]%Hch; [|done]. unfold reply_inv. rewrite decisions_app, E1, Hd. simpl.
      split_and!; [lia|done|naive_solver|done].
    + intros ch Hc. destruct (inv_deliveries _ _ I _ _ Hc) as (? & ? & ?). unfold delivery_inv.
      rewrite decisions_app, outcomes_app, E1, E2, Hd, Ho in *. simpl. split_and!; auto.
  - rewrite app_nil_r. rewrite <- (app_nil_r l).
    eapply (inv_update g _ l [] id r _ c I Hid Hl HR); [done|done|..]; simpl.
    + intros c' Hc. split_and!; auto. done.
    + done.
    + done.
    + intros ? ? ?. apply not_elem_of_nil.
    + intros ? ? ?%elem_of_nil. done.
    + rewrite app_nil_r. split_and!; simpl; auto.
    + done.
    + intros ch [[? _]|[_ ->]]%Hch; [done|]. rewrite app_nil_r. unfold reply_inv. rewrite Hd. simpl.
      split_and!; [lia|done|done|done].
    + intros ch Hc. rewrite app_nil_r. by apply (inv_deliveries _ _ I).
Qed.

Lemma complete_delivery_inv (now : Z) (id : string) (o : DeliveryOutcome.t) (g : PendingRegistry.t) (l : list Event) :
  registry_inv g l ->
  registry_inv (complete_delivery id o g).2
    (l ++ events_of now (CompleteDelivery id o) g (complete_delivery id o g).1).
Proof.
  intros I. unfold events_of, complete_delivery.
  destruct (inner g !! id) as [r|] eqn:Hid; [|simpl; by rewrite app_nil_r].
  case_bool_decide as Hs; [|simpl; by rewrite app_nil_r].
  destruct (inv_latest _ _ I _ _ Hid) as (c & Hl & HR). pose proof HR as HR'.
  destruct HR' as (HRc & Hrid & Hresp & _ & Hrx & Hst). rewrite Hs in Hst. destruct Hst as (_ & Htx & Hd & Ho).
  rewrite Htx. simpl. destruct (send_to_spec c o (deliveries g)) as (S1 & S2 & S3).
  destruct (events_settled c o) as (E1 & E2 & E3).
  eapply (inv_update g _ l _ id r _ c I Hid Hl HR); [done|done|..]; simpl.
  - intros c' Hc. split_and!; auto.
  - done.
  - done.
  - intros ? ? ? ?%list_elem_of_singleton. done.
  - intros ? ? ?%list_elem_of_singleton. done.
  - split_and!; simpl; auto; [apply elem_of_app; by left|]. by destruct o.
  - by destruct o.
  - intros ch Hc. destruct (inv_replies _ _ I _ _ Hc) as (? & ? & ? & ?). unfold reply_inv.
    rewrite decisions_app, E2, app_nil_r. done.
  - intros ch (ch0 & Hc & -> & _)%S3. unfold delivery_inv, Oneshot.send.
    rewrite decisions_app, outcomes_app, E1, E2, Ho, app_nil_r. simpl.
    split_and!; [lia|by right|]. destruct (Oneshot.receiver ch0); simpl; naive_solver.
Qed.

Lemma take_delivery_inv (id : string) (g : PendingRegistry.t) (l : list Event) :
  registry_inv g l -> registry_inv (take_delivery id g).2 l.
Proof.
  intros I. unfold take_delivery. destruct (inner g !! id) as [r|] eqn:Hid; [|done]. simpl.
  destruct (inv_latest _ _ I _ _ Hid) as (c & Hl & HR). rewrite <- (app_nil_r l).
  eapply (inv_update g _ l [] id r _ c I Hid Hl HR); [done|done|..]; simpl; try done.
  - intros ? ? ?. apply not_elem_of_nil.
  - intros ? ? ?%elem_of_nil. done.
  - rewrite app_nil_r. destruct HR as (? & ? & ? & ? & ? & ?). split_and!; auto.
  - intros Hs. eapply inv_waiting; [done..|]. destruct HR as (_ & _ & _ & _ & _ & HR). rewrite Hs in HR. naive_solver.
  - intros ch Hch. rewrite app_nil_r. by apply (inv_replies _ _ I).
  - intros ch Hch. rewrite app_nil_r. by apply (inv_deliveries _ _ I).
Qed.

Lemma cancel_inv (id : string) (g : PendingRegistry.t) (l : list Event) :
  registry_inv g l -> registry_inv (cancel id g).2 l.
Proof.
  intros I. unfold cancel. destruct (inner g !! id) as [r|] eqn:Hid; [|done].
  case_bool_decide as Hs; [|done].
  destruct (inv_latest _ _ I _ _ Hid) as (c & Hl & HR). pose proof HR as (_ & _ & _ & _ & _ & HRs).
  rewrite Hs in HRs. destruct HRs as (Hresp & _). rewrite Hresp. simpl. rewrite <- (app_nil_r l).
  eapply (inv_update g _ l [] id r _ c I Hid Hl HR); [done|done|..]; simpl; try done.
  - intros c' Hc. split_and!; [|done|done]. rewrite drop_senders_lookup.
    rewrite bool_decide_false by set_solver. by destruct (_ !! c').
  - rewrite drop_senders_lookup, fmap_is_Some. done.
  - intros ? ? ?. apply not_elem_of_nil.
  - intros ? ? ?%elem_of_nil. done.
  - rewrite app_nil_r. destruct HR as (? & ? & ? & ? & ? & ?). split_and!; simpl; auto.
  - intros ch. rewrite drop_senders_lookup, bool_decide_true by set_solver. intros (ch0 & Hc & ->)%fmap_Some.
    rewrite app_nil_r. destruct (inv_replies _ _ I _ _ Hc) as (? & ? & ? & ?). by split_and!.
  - intros ch Hch. rewrite app_nil_r. by apply (inv_deliveries _ _ I).
Qed.

Theorem registry_step_inv {A} (now : Z) (o : reg A) (g : PendingRegistry.t) (l : list Event) :
  registry_inv g l ->
  registry_inv (apply_reg now o g).2 (l ++ events_of now o g (apply_reg now o g).1).
Proof.
  intros I. destruct o; simpl; rewrite ?app_nil_r; try done.
  - exact (register_inv now _ _ _ _ _ _ _ _ _ _ I).
  - exact (resolve_inv now _ _ _ _ I).
  - by apply take_delivery_inv.
  - exact (complete_delivery_inv now _ _ _ _ I).
  - unfold mark_runtime_processed, transition. split_matches. by apply inv_set_state.
  - unfold expire. split_matches. by apply inv_set_state.
  - unfold expire_or_already_expired. split_matches; by apply inv_set_state.
  - unfold finalize_decided_after_race. split_matches. by apply inv_set_state.
  - by apply cancel_inv.
  - unfold drop_reply_rx. apply (inv_drop_receivers _ _ [c] []) in I.
    replace (drop_receivers [] _) with (deliveries g) in I; [done|].
    apply map_eq. intros c'. rewrite drop_receivers_lookup. by destruct (_ !! c').
  - unfold drop_delivery_rx. apply (inv_drop_receivers _ _ [] [c]) in I.
    replace (drop_receivers [] _) with (replies g) in I; [done|].
    apply map_eq. intros c'. rewrite drop_receivers_lookup. by destruct (_ !! c').
Qed.

Lemma initial_inv : registry_inv PendingRegistry.new [].
Proof. split; simpl; try (intros *; rewrite lookup_empty; done); try (intros * ?%elem_of_nil; done); done. Qed.

(** ** Runs *)

Definition hooks_inv (h : Hooks.t) : Prop := registry_inv (Hooks.registry h) (Hooks.history h).

Lemma perform_reg_inv {A} (o : reg A) (h : Hooks.t) : hooks_inv h -> hooks_inv (perform_reg o h).2.
Proof.
  unfold hooks_inv, perform_reg. intros I. pose proof (registry_step_inv (Hooks.clock h) o _ _ I) as I'.
  by destruct (apply_reg _ _ _).
Qed.

Lemma perform_reg_history {A} (o : reg A) (h : Hooks.t) :
  Hooks.history (perform_reg o h).2 =
  Hooks.history h ++ events_of (Hooks.clock h) o (Hooks.registry h) (perform_reg o h).1.
Proof. unfold perform_reg. by destruct (apply_reg _ _ _). Qed.

Lemma perform_reg_registry {A} (o : reg A) (h : Hooks.t) :
  Hooks.registry (perform_reg o h).2 = (apply_reg (Hooks.clock h) o (Hooks.registry h)).2.
Proof. unfold perform_reg. by destruct (apply_reg _ _ _). Qed.

Lemma perform_reg_answer {A} (o : reg A) (h : Hooks.t) :
  (perform_reg o h).1 = (apply_reg (Hooks.clock h) o (Hooks.registry h)).1.
Proof. unfold perform_reg. by destruct (apply_reg _ _ _). Qed.

Lemma perform_reg_clock {A} (o : reg A) (h : Hooks.t) : Hooks.clock (perform_reg o h).2 = Hooks.clock h.
Proof. unfold perform_reg. by destruct (apply_reg _ _ _). Qed.

Lemma hooks_steps_inv (h h' : Hooks.t) : rtc hooks_step h h' -> hooks_inv h -> hooks_inv h'.
Proof. induction 1 as [|h1 h2 h3 [A o h|now h ?] _ IH]; [done|..]; intros I; apply IH; [by apply perform_reg_inv|done]. Qed.

Lemma hooks_reachable_inv (h : Hooks.t) : hooks_reachable h -> hooks_inv h.
Proof. intros (clock & Hs). eapply hooks_steps_inv; [exact Hs|]. apply initial_inv. Qed.

Lemma hooks_steps_history (h h' : Hooks.t) :
  rtc hooks_step h h' -> exists e, Hooks.history h' = Hooks.history h ++ e.
Proof.
  induction 1 as [h|h1 h2 h3 Hs _ [e IH]]; [exists []; by rewrite app_nil_r|].
  rewrite IH. destruct Hs as [A o h|now h ?]; simpl; [|by eexists].
  rewrite perform_reg_history, <- app_assoc. by eexists.
Qed.

Lemma hooks_steps_clock (h h' : Hooks.t) : rtc hooks_step h h' -> Hooks.clock h <= Hooks.clock h'.
Proof.
  induction 1 as [h|h1 h2 h3 [A o h|now h ?] _ IH]; [lia|..]; [by rewrite perform_reg_clock in IH|simpl in *; lia].
Qed.

(** When [resolve] succeeds. *)
Lemma resolve_ok (h : Hooks.t) (id : string) (rp : HookReply.t) (s : PendingState.t) :
  hooks_inv h -> (perform_reg (Resolve id rp) h).1 = Ok s ->
  exists c r ch, inner (Hooks.registry h) !! id = Some r /\ registration id (Hooks.history h) = Some c /\
    record_inv (Hooks.history h) c id r /\ PendingRecord.state r = PendingState.Waiting /\
    Hooks.clock h < PendingRecord.deadline r /\ replies (Hooks.registry h) !! c = Some ch /\
    Oneshot.receiver ch = true /\
    Hooks.history (perform_reg (Resolve id rp) h).2 = Hooks.history h ++ [Decided c rp (Hooks.clock h)].
Proof.
  intros I Hok. rewrite perform_reg_history, Hok. rewrite perform_reg_answer in Hok. simpl in Hok |- *.
  unfold resolve in Hok. destruct (inner _ !! id) as [r|] eqn:Hr; [|done].
  destruct (PendingRecord.state r) eqn:Hs; try done.
  destruct (Z.leb_spec (PendingRecord.deadline r) (Hooks.clock h)); [done|].
  destruct (inv_latest _ _ I _ _ Hr) as (c & Hl & HR). pose proof HR as (_ & _ & _ & _ & _ & HRs).
  rewrite Hs in HRs. destruct HRs as (Hresp & _). rewrite Hresp in Hok |- *.
  destruct (inv_waiting _ _ I _ _ _ Hr Hs Hresp) as (ch & Hch & _).
  exists c, r, ch. split_and!; try done.
  unfold send_to, Oneshot.send in Hok. rewrite Hch in Hok. by destruct (Oneshot.receiver ch).
Qed.

(** A registration is decided at most once and in time: when [resolve] succeeds, the latest
    registration of the request had no decision yet and its deadline lies ahead; and whatever all
    tasks do afterwards, this decision stays its only one, the helper's channel never yields
    another reply, and no later [resolve] succeeds for this registration. *)
Theorem resolve_decides_once (h h' : Hooks.t) (id : string) (rp : HookReply.t) (s : PendingState.t) :
  hooks_reachable h -> (perform_reg (Resolve id rp) h).1 = Ok s ->
  rtc hooks_step (perform_reg (Resolve id rp) h).2 h' ->
  exists c d, registration id (Hooks.history h) = Some c /\ Registered id c d ∈ Hooks.history h /\
    Hooks.clock h < d /\ decisions c (Hooks.history h) = [] /\
    decisions c (Hooks.history h') = [(rp, Hooks.clock h)] /\
    (forall ch r, replies (Hooks.registry h') !! c = Some ch -> Oneshot.value ch = Some r -> r = rp) /\
    (forall rp' s', (perform_reg (Resolve id rp') h').1 = Ok s' -> registration id (Hooks.history h') <> Some c).
Proof.
  intros I%hooks_reachable_inv Hok Hs.
  destruct (resolve_ok _ _ _ _ I Hok) as (c & r & ch & Hr & Hl & HR & Hw & Hd & _ & _ & Hh).
  pose proof HR as (Hreg & _ & _ & _ & _ & HRs). rewrite Hw in HRs. destruct HRs as (_ & _ & Hnone & _).
  assert (I' : hooks_inv h') by (eapply hooks_steps_inv; [exact Hs|by apply perform_reg_inv]).
  destruct (hooks_steps_history _ _ Hs) as (e & He). rewrite Hh in He.
  destruct (inv_registered _ _ I' id c (PendingRecord.deadline r)) as (_ & [ch' Hch'] & _).
  { rewrite He, !elem_of_app. auto. }
  assert (Hdec : decisions c (Hooks.history h') = [(rp, Hooks.clock h)]).
  { destruct (inv_replies _ _ I' _ _ Hch') as (Hlen & _). rewrite He, !decisions_app in Hlen |- *.
    destruct (events_decided c rp (Hooks.clock h)) as (E & _). rewrite Hnone, E in Hlen |- *. simpl in *.
    destruct (decisions c e); [done|simpl in Hlen; lia]. }
  exists c, (PendingRecord.deadline r). split_and!; try done.
  - intros ch2 rp' Hch2 Hv. destruct (inv_replies _ _ I' _ _ Hch2) as (_ & _ & Hval & _).
    destruct (Hval _ Hv) as (now & Heq). rewrite Hdec in Heq. by simplify_eq.
  - intros rp' s' Hok' Hl'.
    destruct (resolve_ok _ _ _ _ I' Hok') as (c2 & r2 & ch2 & _ & Hl2 & (_ & _ & _ & _ & _ & HR2) & Hw2 & _).
    rewrite Hl' in Hl2. simplify_eq. rewrite Hw2 in HR2. destruct HR2 as (_ & _ & HR2 & _). by rewrite HR2 in Hdec.
Qed.
