(* ===== verification/Observe.v ===== *)
(** * What the bridge observes of ZCode sessions ([zcode/observe.rs]), and their cards and
    summaries ([zcode/link.rs])

    [observe.rs] maps hook events to a few flags per session.  The second half is what
    [link.rs] builds from the flags and the registry: attention cards, session summaries, the
    runtime snapshot.  These are functions of what was read; [Zcode.v] says when it is read. *)

From S2P Require Import Prelude RustStr Domain Pending.

(** The helper's request; [tool_input] is a [serde_json::Value], [status_input] is never read. *)
Module HookInvoke.
Record t {V : Type} := mk {
  version : Z;
  agent_kind : string;
  invoke_id : string;
  event : string;
  native_session_id : option string;
  tool_name : option string;
  tool_use_id : option string;
  requested_wait_ms : Z;
  tool_input : option V;
  ask : option AskRequest.t;
  status_event : option string;
}.
Arguments t : clear implicits.
Arguments mk {V}.
End HookInvoke.

(** What the code takes from [serde_json]: the value as a string or printed, and the parsing of
    the helper's two messages. *)
Class HookJson (V : Type) := {
  value_as_string : V -> option string;
  value_to_string : V -> option string;
  parse_ack : string -> option string;
  parse_invoke : string -> option (HookInvoke.t V);
}.

(** ** [observe.rs] *)

Module ZcodeSessionMeta.
Record t := mk {
  discovered : bool;
  turn_started : bool;
  turn_running : bool;
  awaiting_approval : bool;
  last_tool_ok : option bool;
  turn_stopped : bool;
}.
#[global] Instance eq_dec : EqDecision t.
Proof. solve_decision. Defined.

Definition default : t := mk false false false false None false.

Definition activity_summary (m : t) : string :=
  match turn_running m, awaiting_approval m with
  | _, true => "等待工具审批"
  | true, false => "运行中(最后状态更新于 Hook 事件)"
  | false, false => "空闲"
  end.
End ZcodeSessionMeta.

Module HookStatusEvent.
Inductive t :=
| SessionStart
| UserPromptSubmit
| ToolEvent (tool_name tool_use_id : option string) (failed : bool)
| PermissionRequested (tool_name tool_use_id : option string)
| Stop.
End HookStatusEvent.

Section Observe.
Context {V : Type} `{HookJson V}.

Notation Invoke := (HookInvoke.t V).

Definition map_status_event (invoke : Invoke) : option HookStatusEvent.t :=
  event ← HookInvoke.status_event invoke;
  let tool := HookInvoke.tool_name invoke in
  let use := HookInvoke.tool_use_id invoke in
  if bool_decide (event = "SessionStart") then Some HookStatusEvent.SessionStart
  else if bool_decide (event = "UserPromptSubmit") then Some HookStatusEvent.UserPromptSubmit
  else if bool_decide (event = "PermissionRequest") then Some (HookStatusEvent.PermissionRequested tool use)
  else if bool_decide (event = "PreToolUse") then Some (HookStatusEvent.ToolEvent tool use false)
  else if bool_decide (event = "PostToolUse") then Some (HookStatusEvent.ToolEvent tool use false)
  else if bool_decide (event = "PostToolUseFailure") then Some (HookStatusEvent.ToolEvent tool use true)
  else if bool_decide (event = "Stop") then Some HookStatusEvent.Stop
  else None.

Definition apply_event (event : HookStatusEvent.t) (m : ZcodeSessionMeta.t) : ZcodeSessionMeta.t :=
  let '(ZcodeSessionMeta.mk discovered started running awaiting tool_ok stopped) := m in
  match event with
  | HookStatusEvent.SessionStart => ZcodeSessionMeta.mk true started running awaiting tool_ok false
  | HookStatusEvent.UserPromptSubmit => ZcodeSessionMeta.mk discovered true true awaiting tool_ok false
  | HookStatusEvent.PermissionRequested _ _ =>
      ZcodeSessionMeta.mk discovered started running true tool_ok stopped
  | HookStatusEvent.ToolEvent _ _ failed =>
      ZcodeSessionMeta.mk discovered started running false (Some (negb failed)) stopped
  | HookStatusEvent.Stop => ZcodeSessionMeta.mk discovered started false false tool_ok true
  end.

(** The store behind its mutex. *)
Definition ObservationStore : Type := gmap string ZcodeSessionMeta.t.

Definition or_default (sessions : ObservationStore) (session : string) : ZcodeSessionMeta.t :=
  default ZcodeSessionMeta.default (sessions !! session).

Definition apply (invoke : Invoke) (sessions : ObservationStore) : option string * ObservationStore :=
  match map_status_event invoke, HookInvoke.native_session_id invoke with
  | Some event, Some session =>
      (Some session, <[session := apply_event event (or_default sessions session)]> sessions)
  | _, _ => (None, sessions)
  end.

Definition set_awaiting_approval (native_session_id : string) (awaiting : bool)
    (sessions : ObservationStore) : ObservationStore :=
  match sessions !! native_session_id with
  | Some (ZcodeSessionMeta.mk discovered started running _ tool_ok stopped) =>
      <[native_session_id := ZcodeSessionMeta.mk discovered started running awaiting tool_ok stopped]> sessions
  | None => sessions
  end.

Definition ensure_session (native_session_id : string) (sessions : ObservationStore) : ObservationStore :=
  <[native_session_id := or_default sessions native_session_id]> sessions.

Definition known_sessions (sessions : ObservationStore) : list string := bt_keys sessions.

(** ** [link.rs]: constants, keys and cards *)

Definition DECISION_ALLOW : string := "allow".
Definition DECISION_DENY : string := "deny".
Definition SUMMARY_MAX_CHARS : Z := 400.
Definition ASK_SESSION_NATIVE : string := "plugin-ask".

Definition session_key_for (device_id : string) (native_session_id : option string) : SessionKey.t :=
  SessionKey.zcode device_id (default "unknown" native_session_id).

Definition ask_session_key (device_id : string) : SessionKey.t :=
  SessionKey.zcode device_id ASK_SESSION_NATIVE.

(** The session a request belongs to, for its cards. *)
Definition card_key (device_id : string) (kind : InvokeKind.t) (native_session_id : option string) :
    SessionKey.t :=
  match kind with
  | InvokeKind.AskUser => ask_session_key device_id
  | InvokeKind.PermissionRequest => session_key_for device_id native_session_id
  end.

Definition attention_kind (kind : InvokeKind.t) : PendingAttentionKind.t :=
  match kind with
  | InvokeKind.PermissionRequest => PendingAttentionKind.RiskApproval
  | InvokeKind.AskUser => PendingAttentionKind.UserQuestion
  end.

Definition publishes_remote_attention (kind : InvokeKind.t) (native_session_id : option string) : bool :=
  negb (bool_decide (kind = InvokeKind.PermissionRequest) && bool_decide (native_session_id = None)).

(** [s.chars().take(n).collect()]: up to the byte that starts character [n] + 1. *)
Fixpoint chars_take (n : Z) (s : string) : string :=
  match s with
  | EmptyString => EmptyString
  | String a s =>
      if Z.land (Z.of_N (Ascii.N_of_ascii a)) 0xC0 =? 0x80 then String a (chars_take n s)
      else if n <=? 0 then EmptyString else String a (chars_take (n - 1) s)
  end.

Definition summarize_tool_input (input : option V) : string :=
  match input with
  | None => "(无工具输入)"
  | Some input =>
      let raw :=
        match value_as_string input with
        | Some text => text
        | None => default "?" (value_to_string input)
        end in
      let truncated := chars_take SUMMARY_MAX_CHARS raw in
      if SUMMARY_MAX_CHARS <? chars_count raw
      then truncated +:+ "…(已截断展示,完整输入仅本机可见)"
      else truncated
  end.

Definition approval_decisions : list ApprovalDecision.t :=
  [ApprovalDecision.mk DECISION_ALLOW (OutputText.mk "允许");
   ApprovalDecision.mk DECISION_DENY (OutputText.mk "拒绝")].

Definition approval_of (invoke_id : string) (tool_name : option string) (summary : string)
    (created_at : option DateTime) : PendingApproval.t :=
  PendingApproval.mk invoke_id
    (OutputText.mk ("ZCode 请求执行工具 " +:+ default "unknown" tool_name))
    (OutputText.mk summary) approval_decisions None None created_at true.

(** [option-{index + 1}], with the label. *)
Definition question_options (labels : list string) : list QuestionOption.t :=
  imap (fun index label =>
    QuestionOption.mk ("option-" +:+ pretty (N.of_nat index + 1)%N) (OutputText.mk label)) labels.

Definition question_of (invoke_id question : string) (options : list string) (allow_free_text : bool)
    (created_at : option DateTime) : PendingQuestion.t :=
  PendingQuestion.mk invoke_id (OutputText.mk question) (OutputText.mk "") (question_options options)
    false allow_free_text None created_at true.

Definition approval_card (now : DateTime) (invoke : Invoke) : PendingAttention.t :=
  PendingAttention.Approval
    (approval_of (HookInvoke.invoke_id invoke) (HookInvoke.tool_name invoke)
       (summarize_tool_input (HookInvoke.tool_input invoke)) (Some now)).

Definition ask_card (now : DateTime) (invoke : Invoke) : PendingAttention.t :=
  PendingAttention.Question
    match HookInvoke.ask invoke with
    | None => question_of (HookInvoke.invoke_id invoke) "" [] true (Some now)
    | Some ask =>
        question_of (HookInvoke.invoke_id invoke) (AskRequest.question ask) (AskRequest.options ask)
          (AskRequest.allow_free_text ask) (Some now)
    end.

(** ** Summaries and snapshots *)

Definition waiting_for (key : SessionKey.t) (cards : list WaitingCard.t) : list WaitingCard.t :=
  List.filter (fun card =>
    match WaitingCard.kind card with
    | InvokeKind.AskUser => bool_decide (SessionKey.native_session_id key = ASK_SESSION_NATIVE)
    | InvokeKind.PermissionRequest =>
        bool_decide (WaitingCard.native_session_id card = Some (SessionKey.native_session_id key))
    end) cards.

Definition zcode_capability_set : CapabilitySet.t :=
  CapabilitySet.mk ControlMode.LimitedControl CompatibilityState.Degraded None
    [Operation.AnswerQuestion; Operation.SubmitApproval] [] TransferLimits.default.

Definition phase_of (meta : ZcodeSessionMeta.t) : ActiveTurnPhase.t :=
  if ZcodeSessionMeta.turn_running meta then ActiveTurnPhase.Running else ActiveTurnPhase.Idle.

Definition session_summary (key : SessionKey.t) (sessions : ObservationStore) (cards : list WaitingCard.t)
    (now : DateTime) : SessionSummary.t :=
  let meta := or_default sessions (SessionKey.native_session_id key) in
  let waiting := waiting_for key cards in
  let kinds := vec_dedup (map (fun card => attention_kind (WaitingCard.kind card)) waiting) in
  let title :=
    if bool_decide (SessionKey.native_session_id key = ASK_SESSION_NATIVE) then "ZCode 插件问答"
    else "ZCode 会话" in
  SessionSummary.mk key (Some (OutputText.mk title)) AgentKind.ZcodeDesktop None None (Some now)
    DeviceConnection.Online None None ControlMode.LimitedControl CompatibilityState.Degraded
    (phase_of meta) (as_u32 (zlen waiting)) kinds QueueState.Empty LastTurnOutcome.Unknown
    false false false.

Definition card_question (card : WaitingCard.t) : option PendingQuestion.t :=
  match WaitingCard.kind card with
  | InvokeKind.AskUser =>
      Some (question_of (WaitingCard.invoke_id card) (default "" (WaitingCard.question card))
              (WaitingCard.options card) (WaitingCard.allow_free_text card) None)
  | InvokeKind.PermissionRequest => None
  end.

Definition card_approval (card : WaitingCard.t) : option PendingApproval.t :=
  match WaitingCard.kind card with
  | InvokeKind.AskUser => None
  | InvokeKind.PermissionRequest =>
      Some (approval_of (WaitingCard.invoke_id card) (WaitingCard.tool_name card)
              (default "" (WaitingCard.action_summary card)) None)
  end.

Definition runtime_snapshot (key : SessionKey.t) (sessions : ObservationStore)
    (cards : list WaitingCard.t) (revision : Z) : RuntimeSnapshot.t :=
  let meta := or_default sessions (SessionKey.native_session_id key) in
  let waiting := waiting_for key cards in
  RuntimeSnapshot.mk key revision
    (if ZcodeSessionMeta.turn_running meta
     then Some (CurrentTurn.mk (TurnId.synthetic "zcode-hook-turn") ActiveTurnPhase.Running None)
     else None)
    Plan.default (filter_map card_question waiting) (filter_map card_approval waiting) [] [] 0
    QueueStatus.default zcode_capability_set [].

(** The keys of the sessions of the list stream. *)
Definition listed_sessions (device_id : string) (sessions : ObservationStore) (cards : list WaitingCard.t) :
    list SessionKey.t :=
  let natives := known_sessions sessions ++ filter_map WaitingCard.native_session_id cards in
  map (fun native => session_key_for device_id (Some native)) (vec_dedup (merge_sort String.le natives)).
End Observe.
