(* ===== verification/Zcode.v ===== *)
(** * The socket task and the command path of ZCode decisions
    ([zcode/server.rs], [zcode/link.rs], [BridgeRuntime::handle_command])

    The task of a helper's connection registers the request, waits for a decision, writes it back
    and waits for the helper's acknowledgement; the task of a browser command decides.  Both are
    programs over the registry's critical sections and the atomic operations below.  [exec] runs
    one of them while the other tasks of the process do anything they like with the registry and
    the observations between two operations.  Reading from and writing to the socket, timers and
    the choice of [select!] among what is ready belong to the environment. *)

From S2P Require Import Prelude Prog RustStr Domain Pending Observe.

(** What a browser asks for: the session key and the two payloads the code looks at. *)
Module CommandPayload.
Inductive t :=
| AnswerApproval (approval_id decision_id : string)
| AnswerQuestion (question_id : string) (option_ids : list string) (free_text : string)
| Other.
End CommandPayload.

(** The key of a command, [agent_kind] being the number on the wire. *)
Module ProtoSessionKey.
Record t := mk {
  device_id : string;
  agent_kind : Z;
  native_session_id : string;
}.
End ProtoSessionKey.

Definition AGENT_KIND_ZCODE_DESKTOP : Z := 2.

Inductive ReceiptStatus := ReceiptCompleted | ReceiptOutcomeUnknown | ReceiptRejected.

(** What [select!] found ready first: the reply channel ([None]: its sender is gone), the
    connection, the timer. *)
Inductive Ready :=
| DecisionReady (decision : option HookReply.t)
| EventReady
| SleepReady.

Inductive zact : Type -> Type :=
| Reg {A : Type} (o : reg A) : zact A
| ReadSessions : zact ObservationStore
| MarkAwaitingApproval (native_session_id : string) (awaiting : bool) : zact unit
| EnsureSession (native_session_id : string) : zact unit
| ApplyStatus (f : ObservationStore -> ObservationStore) : zact unit
| BumpRevision : zact unit
| InstantNow : zact Z
| UtcNow : zact DateTime
| Publish (key : SessionKey.t) (event : DomainEvent.t) : zact unit
| SelectReady (c : nat) (until : Z) : zact Ready
| WriteReply (reply : HookReply.t) : zact bool
| AwaitLine (ms : Z) : zact (option string)
| AwaitDelivery (c : nat) (ms : Z) : zact (option DeliveryOutcome.t)
| SendAccepted : zact unit
| SendResult (status : ReceiptStatus) (code : option StableErrorCode.t) : zact unit.

Notation zprog := (Prog.prog zact).

Section Zcode.
Context {V : Type} `{HookJson V}.
Variable device_id : string.

Notation Invoke := (HookInvoke.t V).

(** ** Publishing ([link.rs]) *)

Definition publish_summary (key : SessionKey.t) : zprog unit :=
  do sessions <- act ReadSessions;
  do cards <- act (Reg WaitingCards);
  do now <- act UtcNow;
  act (Publish key (DomainEvent.SessionSummaryChanged (session_summary key sessions cards now))).

Definition publish_removed (key : SessionKey.t) (kind : InvokeKind.t) (invoke_id : string) : zprog unit :=
  act (Publish key (DomainEvent.PendingAttentionRemoved (attention_kind kind) invoke_id None)).

Definition publish_attention_added (invoke : Invoke) (kind : InvokeKind.t) : zprog unit :=
  if negb (publishes_remote_attention kind (HookInvoke.native_session_id invoke)) then Ret tt
  else
    do now <- act UtcNow;
    let attention :=
      match kind with
      | InvokeKind.PermissionRequest => approval_card now invoke
      | InvokeKind.AskUser => ask_card now invoke
      end in
    let key := card_key device_id kind (HookInvoke.native_session_id invoke) in
    perform act (Publish key (DomainEvent.PendingAttentionAdded attention));
    publish_summary key.

Definition publish_attention_removed (invoke : Invoke) (kind : InvokeKind.t) : zprog unit :=
  if negb (publishes_remote_attention kind (HookInvoke.native_session_id invoke)) then Ret tt
  else
    let key := card_key device_id kind (HookInvoke.native_session_id invoke) in
    perform publish_removed key kind (HookInvoke.invoke_id invoke);
    publish_summary key.

Definition publish_attention_returned (invoke : Invoke) (kind : InvokeKind.t) : zprog unit :=
  publish_attention_removed invoke kind.

Definition publish_removal_for_cancelled (invoke_id : string) : zprog unit :=
  do snapshot <- act (Reg (Get invoke_id));
  match snapshot with
  | None => Ret tt
  | Some snapshot =>
      let key := card_key device_id (PendingSnapshot.kind snapshot) (PendingSnapshot.native_session_id snapshot) in
      perform publish_removed key (PendingSnapshot.kind snapshot) invoke_id;
      publish_summary key
  end.

Definition publish_summary_after_status (native_session_id : option string) : zprog unit :=
  match native_session_id with
  | Some session => publish_summary (session_key_for device_id (Some session))
  | None => Ret tt
  end.

Definition mark_awaiting_approval (native_session_id : option string) (awaiting : bool) : zprog unit :=
  match native_session_id with
  | Some session =>
      perform act (MarkAwaitingApproval session awaiting);
      act BumpRevision
  | None => Ret tt
  end.

Definition note_ask_session_used : zprog unit :=
  perform act (EnsureSession ASK_SESSION_NATIVE);
  act BumpRevision.

Definition note_status (invoke : Invoke) : zprog unit :=
  perform act (ApplyStatus (fun sessions => (apply invoke sessions).2));
  act BumpRevision.

(** ** The connection of a helper ([server.rs]) *)

Definition validate_invoke (invoke : Invoke) (kind : InvokeKind.t) : res string unit :=
  if negb (HookInvoke.version invoke =? CONTRACT_VERSION) then
    Err ("unsupported contract version " +:+ pretty (HookInvoke.version invoke))
  else match kind with
  | InvokeKind.PermissionRequest =>
      match HookInvoke.tool_name invoke with
      | None => Err "permission_request requires tool_name"
      | Some _ =>
          match HookInvoke.tool_input invoke with
          | None => Ok tt
          | Some input =>
              let? serialized := ok_or "tool_input not serializable" (value_to_string input) in
              if MAX_FRAME_BYTES <? Z.of_nat (String.length serialized)
              then Err "tool_input exceeds limit" else Ok tt
          end
      end
  | InvokeKind.AskUser =>
      match HookInvoke.ask invoke with
      | None => Err "ask_user requires ask payload"
      | Some ask => AskRequest.validate ask
      end
  end.

Definition is_delivery_ack (line invoke_id : string) : bool :=
  match parse_ack (trim line) with
  | Some ack => bool_decide (ack = invoke_id)
  | None => false
  end.

Definition wait_delivery_ack (invoke_id : string) : zprog bool :=
  do line <- act (AwaitLine DELIVERY_ACK_WAIT_MS);
  Ret match line with Some line => is_delivery_ack line invoke_id | None => false end.

Definition settle_without_decision (invoke : Invoke) (kind : InvokeKind.t) (timed_out : bool) : zprog unit :=
  let id := HookInvoke.invoke_id invoke in
  do settled <-
    (if timed_out then act (Reg (ExpireOrAlreadyExpired id))
     else do cancelled <- act (Reg (Cancel id)); Ret (res_is_ok cancelled));
  do raced <- (if settled then Ret false else act (Reg (FinalizeDecidedAfterRace id)));
  if settled || raced then
    perform (if bool_decide (kind = InvokeKind.PermissionRequest)
             then mark_awaiting_approval (HookInvoke.native_session_id invoke) false else Ret tt);
    publish_attention_removed invoke kind
  else Ret tt.

(** The branch of a decision: write it back, wait for the acknowledgement, report. *)
Definition deliver_decision (invoke : Invoke) (kind : InvokeKind.t) (reply : HookReply.t) : zprog unit :=
  do written <- act (WriteReply reply);
  do delivered <-
    (if (written : bool) then wait_delivery_ack (HookInvoke.invoke_id invoke) else Ret false);
  do outcome_state <-
    act (Reg (CompleteDelivery (HookInvoke.invoke_id invoke)
           (if (delivered : bool) then DeliveryOutcome.Delivered else DeliveryOutcome.Unconfirmed)));
  perform
    (if delivered && res_is_ok outcome_state then publish_attention_returned invoke kind
     else if res_is_ok outcome_state then publish_attention_removed invoke kind
     else Ret tt);
  if bool_decide (kind = InvokeKind.PermissionRequest)
  then mark_awaiting_approval (HookInvoke.native_session_id invoke) false else Ret tt.

(** The receiver given to [select!] is gone once it has chosen. *)
Definition await_decision (invoke : Invoke) (kind : InvokeKind.t) (c : nat) (wait : Z) : zprog unit :=
  do start <- act InstantNow;
  do ready <- act (SelectReady c (start + wait));
  perform act (Reg (DropReplyRx c));
  match ready with
  | DecisionReady None => deliver_decision invoke kind HookReply.cancelled
  | DecisionReady (Some reply) => deliver_decision invoke kind reply
  | EventReady =>
      perform settle_without_decision invoke kind false;
      perform act (WriteReply HookReply.expired);
      Ret tt
  | SleepReady =>
      perform settle_without_decision invoke kind true;
      perform act (WriteReply HookReply.expired);
      Ret tt
  end.

Definition refuse (reply : HookReply.t) : zprog unit :=
  perform act (WriteReply reply);
  Ret tt.

Definition register_invoke (invoke : Invoke) (kind : InvokeKind.t) : zprog (res PendingError.t nat) :=
  act (Reg (Register (HookInvoke.invoke_id invoke) kind (HookInvoke.native_session_id invoke)
              (HookInvoke.tool_name invoke) (HookInvoke.tool_use_id invoke)
              (if bool_decide (kind = InvokeKind.AskUser) then HookInvoke.ask invoke else None)
              (if bool_decide (kind = InvokeKind.PermissionRequest)
               then Some (summarize_tool_input (HookInvoke.tool_input invoke)) else None)
              (clamp_wait_ms (HookInvoke.requested_wait_ms invoke)))).

Definition handle_pending_invoke (invoke : Invoke) (kind : InvokeKind.t) : zprog unit :=
  match validate_invoke invoke kind with
  | Err message => refuse (HookReply.rejected message)
  | Ok _ =>
      do registered <- register_invoke invoke kind;
      match registered with
      | Err PendingError.Duplicate =>
          refuse (HookReply.rejected "duplicate invoke id; possible double hook registration")
      | Err _ => refuse (HookReply.rejected "invoke rejected")
      | Ok c =>
          perform (if bool_decide (kind = InvokeKind.AskUser) then note_ask_session_used else Ret tt);
          perform publish_attention_added invoke kind;
          perform (if bool_decide (kind = InvokeKind.PermissionRequest)
                   then mark_awaiting_approval (HookInvoke.native_session_id invoke) true else Ret tt);
          await_decision invoke kind c (clamp_wait_ms (HookInvoke.requested_wait_ms invoke))
      end
  end.

Inductive ReadLineError := Oversize | Io.

(** From the first line of the connection; the check of the peer's user is not modelled. *)
Definition handle_connection (first_line : res ReadLineError string) : zprog unit :=
  match first_line with
  | Err Oversize =>
      refuse (HookReply.rejected
                ("invoke exceeds " +:+ pretty MAX_FRAME_BYTES +:+ " bytes; refused without approval"))
  | Err Io => Ret tt
  | Ok line =>
      match parse_invoke (trim line) with
      | None => refuse (HookReply.rejected "invoke is not valid JSON contract")
      | Some invoke =>
          let event := HookInvoke.event invoke in
          if bool_decide (event = EVENT_PERMISSION_REQUEST) then
            handle_pending_invoke invoke InvokeKind.PermissionRequest
          else if bool_decide (event = EVENT_ASK_USER) then
            handle_pending_invoke invoke InvokeKind.AskUser
          else if bool_decide (event = EVENT_STATUS) then
            perform note_status invoke;
            perform publish_summary_after_status (HookInvoke.native_session_id invoke);
            refuse HookReply.accepted
          else if bool_decide (event = EVENT_CANCEL) then
            do cancelled <- act (Reg (Cancel (HookInvoke.invoke_id invoke)));
            perform publish_removal_for_cancelled (HookInvoke.invoke_id invoke);
            refuse (if res_is_ok cancelled then HookReply.accepted
                    else HookReply.rejected "unknown invoke")
          else refuse (HookReply.rejected ("unknown invoke event " +:+ event))
      end
  end.

(** ** The command of a browser ([link.rs], [runtime/mod.rs]) *)

Definition matches_command (session_key : option ProtoSessionKey.t) (payload : option CommandPayload.t) :
    zprog bool :=
  match session_key with
  | None => Ret false
  | Some key =>
      if negb (bool_decide (ProtoSessionKey.device_id key = device_id)) then Ret false
      else if negb (ProtoSessionKey.agent_kind key =? AGENT_KIND_ZCODE_DESKTOP) then Ret false
      else match payload with
      | Some (CommandPayload.AnswerApproval approval_id _) =>
          do snapshot <- act (Reg (Get approval_id));
          Ret match snapshot with
              | Some s =>
                  bool_decide (PendingSnapshot.kind s = InvokeKind.PermissionRequest) &&
                  bool_decide (PendingSnapshot.native_session_id s = Some (ProtoSessionKey.native_session_id key))
              | None => false
              end
      | Some (CommandPayload.AnswerQuestion question_id _ _) =>
          if bool_decide (ProtoSessionKey.native_session_id key = ASK_SESSION_NATIVE) then
            do snapshot <- act (Reg (Get question_id));
            Ret match snapshot with
                | Some s => bool_decide (PendingSnapshot.kind s = InvokeKind.AskUser)
                | None => false
                end
          else Ret false
      | _ => Ret false
      end
  end.

Definition pending_error (err : PendingError.t) : BridgeError.t :=
  BridgeError.mk StableErrorCode.ApprovalExpired (PendingError.display err).

Definition invalid_request (message : string) : BridgeError.t :=
  BridgeError.mk StableErrorCode.InternalError message.

(** The last step of [resolve_command]. *)
Definition resolve_invoke (invoke_id : string) (reply : HookReply.t) :
    zprog (option (res BridgeError.t (string * HookReply.t))) :=
  do result <- act (Reg (Resolve invoke_id reply));
  Ret (Some match result with
            | Ok _ => Ok (invoke_id, reply)
            | Err err => Err (pending_error err)
            end).

Definition answer_question (question_id : string) (label : option string) (free_text : string) :
    zprog (option (res BridgeError.t (string * HookReply.t))) :=
  let text := if bool_decide (free_text = "") then None else Some free_text in
  do allowed <-
    (match text with
     | Some _ => do allows <- act (Reg (AskAllowsFreeText question_id)); Ret (default false allows)
     | None => Ret true
     end);
  if negb allowed then Ret (Some (Err (invalid_request "free text is not allowed for this question")))
  else if bool_decide (label = None) && bool_decide (text = None) then
    Ret (Some (Err (invalid_request "answer requires an option id or free text")))
  else resolve_invoke question_id (HookReply.answered label text).

Definition resolve_command (payload : option CommandPayload.t) :
    zprog (option (res BridgeError.t (string * HookReply.t))) :=
  match payload with
  | Some (CommandPayload.AnswerApproval approval_id decision) =>
      if negb (bool_decide (decision = DECISION_ALLOW)) && negb (bool_decide (decision = DECISION_DENY)) then
        Ret (Some (Err (invalid_request
          ("decision " +:+ decision +:+ " is not a native decision of approval " +:+ approval_id))))
      else
        resolve_invoke approval_id
          (if bool_decide (decision = DECISION_ALLOW) then HookReply.allowed
           else HookReply.denied "User declined this action in Agent Console")
  | Some (CommandPayload.AnswerQuestion question_id option_ids free_text) =>
      match option_ids with
      | [] => answer_question question_id None free_text
      | option_id :: _ =>
          do label <- act (Reg (AskOptionLabel question_id option_id));
          match label with
          | None =>
              Ret (Some (Err (invalid_request
                ("option " +:+ option_id +:+ " is not a native option of question " +:+ question_id))))
          | Some label => answer_question question_id (Some label) free_text
          end
      end
  | Some CommandPayload.Other | None => Ret None
  end.

(** The first part of [handle_command]; [false]: not for this module. *)
Definition handle_zcode_command (session_key : option ProtoSessionKey.t) (payload : option CommandPayload.t) :
    zprog bool :=
  do matched <- matches_command session_key payload;
  if negb matched then Ret false
  else
    do resolved <- resolve_command payload;
    perform act SendAccepted;
    match resolved with
    | Some (Ok (invoke_id, _)) =>
        do delivery <- act (Reg (TakeDelivery invoke_id));
        do status <-
          (match delivery with
           | Some c =>
               do outcome <- act (AwaitDelivery c (DELIVERY_ACK_WAIT_MS + 2000));
               perform act (Reg (DropDeliveryRx c));
               Ret match outcome with
                   | Some DeliveryOutcome.Delivered => ReceiptCompleted
                   | _ => ReceiptOutcomeUnknown
                   end
           | None => Ret ReceiptOutcomeUnknown
           end);
        perform act (SendResult status None);
        Ret true
    | Some (Err err) =>
        perform act (SendResult ReceiptRejected (Some (BridgeError.code err)));
        Ret true
    | None =>
        perform act (SendResult ReceiptRejected (Some StableErrorCode.InternalError));
        Ret true
    end.
End Zcode.

(** ** Running a task *)

Module ZWorld.
Record t := mk {
  hooks : Hooks.t;
  sessions : ObservationStore;
  revision : Z;
}.

Definition with_hooks (x : Hooks.t) (w : t) : t := mk x (sessions w) (revision w).
Definition with_sessions (x : ObservationStore) (w : t) : t := mk (hooks w) x (revision w).
Definition with_revision (x : Z) (w : t) : t := mk (hooks w) (sessions w) x.
End ZWorld.

(** What the helper, the browsers and the registry see of a task. *)
Inductive ZObs :=
| Wrote (reply : HookReply.t) (written : bool)
| ReadLine (line : option string)
| DidComplete (invoke_id : string) (outcome : DeliveryOutcome.t) (ok : bool)
| Published (key : SessionKey.t) (event : DomainEvent.t)
| SentAccepted
| SentResult (status : ReceiptStatus) (code : option StableErrorCode.t).

Definition zobs {A} (o : zact A) : A -> list ZObs :=
  match o in zact A return A -> list ZObs with
  | WriteReply reply => fun written => [Wrote reply written]
  | AwaitLine _ => fun line => [ReadLine line]
  | Publish key event => fun _ => [Published key event]
  | SendAccepted => fun _ => [SentAccepted]
  | SendResult status code => fun _ => [SentResult status code]
  | Reg r =>
      match r in reg A return A -> list ZObs with
      | CompleteDelivery id outcome => fun a => [DidComplete id outcome (res_is_ok a)]
      | _ => fun _ => []
      end
  | _ => fun _ => []
  end.

(** Whether an operation can answer [a] and leave the world as [w']. *)
Definition zstep {A} (o : zact A) (w : ZWorld.t) : A -> ZWorld.t -> Prop :=
  match o in zact A return A -> ZWorld.t -> Prop with
  | Reg r => fun a w' =>
      a = (perform_reg r (ZWorld.hooks w)).1 /\ w' = ZWorld.with_hooks (perform_reg r (ZWorld.hooks w)).2 w
  | ReadSessions => fun a w' => a = ZWorld.sessions w /\ w' = w
  | MarkAwaitingApproval session awaiting => fun _ w' =>
      w' = ZWorld.with_sessions (set_awaiting_approval session awaiting (ZWorld.sessions w)) w
  | EnsureSession session => fun _ w' =>
      w' = ZWorld.with_sessions (ensure_session session (ZWorld.sessions w)) w
  | ApplyStatus f => fun _ w' => w' = ZWorld.with_sessions (f (ZWorld.sessions w)) w
  | BumpRevision => fun _ w' => w' = ZWorld.with_revision (as_u64 (ZWorld.revision w + 1)) w
  | InstantNow => fun a w' => a = Hooks.clock (ZWorld.hooks w) /\ w' = w
  | SelectReady c until => fun a w' =>
      w' = w /\
      match a with
      | DecisionReady decision =>
          exists ch, PendingRegistry.replies (Hooks.registry (ZWorld.hooks w)) !! c = Some ch /\
            Oneshot.value ch = decision /\ (decision = None -> Oneshot.sender ch = false)
      | EventReady => True
      | SleepReady => until <= Hooks.clock (ZWorld.hooks w)
      end
  | AwaitDelivery c _ => fun a w' =>
      w' = w /\
      forall outcome, a = Some outcome ->
        exists ch, PendingRegistry.deliveries (Hooks.registry (ZWorld.hooks w)) !! c = Some ch /\
          Oneshot.value ch = Some outcome
  | _ => fun _ w' => w' = w
  end.

(** What the other tasks do. *)
Inductive zenv : ZWorld.t -> ZWorld.t -> Prop :=
| env_hooks (h h' : Hooks.t) (sessions : ObservationStore) (revision : Z) :
    hooks_step h h' -> zenv (ZWorld.mk h sessions revision) (ZWorld.mk h' sessions revision)
| env_observe (h : Hooks.t) (sessions sessions' : ObservationStore) (revision revision' : Z) :
    zenv (ZWorld.mk h sessions revision) (ZWorld.mk h sessions' revision').

Fixpoint exec {A : Type} (p : zprog A) (w : ZWorld.t) (t : list ZObs) (a : A) (w' : ZWorld.t) : Prop :=
  match p with
  | Ret x => t = [] /\ a = x /\ w' = w
  | Act o k =>
      exists w1 b w2 t', rtc zenv w w1 /\ zstep o w1 b w2 /\ exec (k b) w2 t' a w' /\ t = zobs o b ++ t'
  end.

Definition replies_of (t : list ZObs) : list HookReply.t :=
  omap (fun o => match o with Wrote reply _ => Some reply | _ => None end) t.
