(* ===== verification/ZcodeProps.v ===== *)
(** * Properties of the ZCode tasks

    The helper of a request is answered exactly once, and with a decision only when one was taken
    for its registration before the deadline; the task of a registration always leaves it in a
    terminal state; a browser is told that its command completed only when the helper
    acknowledged a delivered decision. *)

From S2P Require Import Prelude Prog RustStr Domain Pending PendingProps Observe Zcode.

Import PendingRegistry (inner, replies, deliveries, fresh).

Notation registry w := (Hooks.registry (ZWorld.hooks w)).
Notation history w := (Hooks.history (ZWorld.hooks w)).

(** ** Running composed programs *)

Lemma exec_bind {A B : Type} (p : zprog A) (f : A -> zprog B) (w : ZWorld.t) (t : list ZObs) (b : B) (w' : ZWorld.t) :
  exec (prog_bind p f) w t b w' ->
  exists t1 a w1 t2, exec p w t1 a w1 /\ exec (f a) w1 t2 b w' /\ t = t1 ++ t2.
Proof.
  revert w t. induction p as [a|C o k IH]; intros w t; simpl.
  - intros He. exists [], a, w, t. done.
  - intros (w1 & c & w2 & t' & Henv & Hst & He & ->).
    destruct (IH _ _ _ He) as (t1 & a & w3 & t2 & H1 & H2 & ->).
    exists (zobs o c ++ t1), a, w3, t2. split_and!; [|done|by rewrite app_assoc].
    exists w1, c, w2, t1. done.
Qed.

Lemma zenv_hooks (w w' : ZWorld.t) : rtc zenv w w' -> rtc hooks_step (ZWorld.hooks w) (ZWorld.hooks w').
Proof.
  induction 1 as [|w1 w2 w3 [h h' s r Hs|h s s' r r'] _ IH]; [done|..]; simpl in *; [|done].
  eapply rtc_l; [exact Hs|done].
Qed.

Lemma zstep_hooks {A} (o : zact A) (w w' : ZWorld.t) (a : A) :
  zstep o w a w' -> rtc hooks_step (ZWorld.hooks w) (ZWorld.hooks w').
Proof.
  destruct o; simpl; intros Hs; try (by subst); try (by destruct Hs; subst).
  destruct Hs as [-> ->]. apply rtc_once, step_reg.
Qed.

Lemma exec_hooks {A} (p : zprog A) (w w' : ZWorld.t) (t : list ZObs) (a : A) :
  exec p w t a w' -> rtc hooks_step (ZWorld.hooks w) (ZWorld.hooks w').
Proof.
  revert w t. induction p as [x|C o k IH]; intros w t; simpl; [intros (_ & _ & ->); done|].
  intros (w1 & b & w2 & t' & H1 & H2 & H3 & _).
  etrans; [by apply zenv_hooks|]. etrans; [by eapply zstep_hooks|]. by eapply IH.
Qed.

(** ** The life of a registration *)

Definition rank (s : PendingState.t) : nat :=
  match s with PendingState.Waiting => 0 | PendingState.Decided => 1 | _ => 2 end.

(** The record of [id], if it still is the one of registration [c], has come at least this far. *)
Definition at_least (n : nat) (id : string) (c : nat) (h : Hooks.t) : Prop :=
  forall r, inner (Hooks.registry h) !! id = Some r -> registration id (Hooks.history h) = Some c ->
    (n <= rank (PendingRecord.state r))%nat.

Definition registered_in (id : string) (c : nat) (h : Hooks.t) : Prop :=
  exists d, Registered id c d ∈ Hooks.history h.

(** Replacing a record by one that is as far on. *)
Lemma insert_rank (m : gmap string PendingRecord.t) (i id : string) (r0 r r' : PendingRecord.t) :
  m !! i = Some r0 -> (rank (PendingRecord.state r0) <= rank (PendingRecord.state r))%nat ->
  <[i := r]> m !! id = Some r' ->
  exists r, m !! id = Some r /\ (rank (PendingRecord.state r) <= rank (PendingRecord.state r'))%nat.
Proof. intros Hi Hle. rewrite lookup_insert. case_decide; intros Hr; simplify_eq; eauto. Qed.

Ltac rank_inv Hr :=
  repeat (case_match; simplify_eq/=; bool_to_prop);
  first [ by eauto
        | eapply insert_rank in Hr;
            [exact Hr|eassumption|simpl; repeat match goal with H : PendingRecord.state _ = _ |- _ => rewrite H end; simpl; lia] ].

(** An operation only moves records forward, unless it registers them. *)
Lemma apply_reg_rank {A} (now : Z) (o : reg A) (g : PendingRegistry.t) (id : string) (r' : PendingRecord.t) :
  inner (apply_reg now o g).2 !! id = Some r' ->
  (exists c d, Registered id c d ∈ events_of now o g (apply_reg now o g).1) \/
  (exists r, inner g !! id = Some r /\ (rank (PendingRecord.state r) <= rank (PendingRecord.state r'))%nat).
Proof.
  destruct o; simpl; intros Hr; try (right; by eauto).
  - unfold register in *. destruct (inner g !! invoke_id); simpl in *; [right; by eauto|].
    revert Hr. rewrite lookup_insert. case_decide; intros Hr; simplify_eq.
    + left. do 2 eexists. by apply list_elem_of_singleton.
    + apply map_lookup_filter_Some in Hr as [Hr _]. right. by eauto.
  - right. unfold resolve, set_record in Hr. rank_inv Hr.
  - right. unfold take_delivery, set_record in Hr. rank_inv Hr.
  - right. unfold complete_delivery, set_record in Hr. rank_inv Hr.
  - right. unfold mark_runtime_processed, transition, set_record in Hr. rank_inv Hr.
  - right. unfold expire, set_record in Hr. rank_inv Hr.
  - right. unfold expire_or_already_expired, set_record in Hr. rank_inv Hr.
  - right. unfold finalize_decided_after_race, set_record in Hr. rank_inv Hr.
  - right. unfold cancel, set_record in Hr. rank_inv Hr.
Qed.

Lemma events_registered {A} (now : Z) (o : reg A) (g : PendingRegistry.t) (id : string) (c : nat) (d : Z) :
  Registered id c d ∈ events_of now o g (apply_reg now o g).1 ->
  c = fresh g /\ events_of now o g (apply_reg now o g).1 = [Registered id c d].
Proof.
  destruct o; simpl; try (intros ?%elem_of_nil; done).
  - unfold register. destruct (inner g !! invoke_id); simpl; [by intros ?%elem_of_nil|].
    intros ?%list_elem_of_singleton. by simplify_eq.
  - intros Hin. exfalso. revert Hin. repeat case_match; simpl; try (by intros ?%elem_of_nil).
    destruct (PendingRecord.responder _); simpl; [by intros ?%list_elem_of_singleton|by intros ?%elem_of_nil].
  - intros Hin. exfalso. revert Hin. repeat case_match; simpl; try (by intros ?%elem_of_nil).
    destruct (PendingRecord.delivery_tx _); simpl; [by intros ?%list_elem_of_singleton|by intros ?%elem_of_nil].
Qed.

(** Either the operation registers [id] anew, or its latest registration stays. *)
Lemma registration_step {A} (o : reg A) (h : Hooks.t) (id : string) (c : nat) :
  hooks_inv h -> registered_in id c h ->
  registration id (Hooks.history (perform_reg o h).2) = Some c ->
  registration id (Hooks.history h) = Some c /\
  (forall c' d, Registered id c' d ∉ events_of (Hooks.clock h) o (Hooks.registry h) (perform_reg o h).1).
Proof.
  intros I (d & Hd). rewrite perform_reg_history. rewrite perform_reg_answer.
  destruct (inv_registered _ _ I _ _ _ Hd) as (Hlt & _ & _).
  assert (Hno : registration id (Hooks.history h ++ events_of (Hooks.clock h) o (Hooks.registry h)
                  (apply_reg (Hooks.clock h) o (Hooks.registry h)).1) = Some c ->
    forall c' d, Registered id c' d ∉ events_of (Hooks.clock h) o (Hooks.registry h)
                   (apply_reg (Hooks.clock h) o (Hooks.registry h)).1).
  { intros Hr c' d' Hin. destruct (events_registered _ _ _ _ _ _ Hin) as [-> Heq].
    rewrite Heq, registration_new in Hr. simplify_eq. lia. }
  intros Hr. split; [|by apply Hno]. rewrite registration_old in Hr; [done|]. by apply Hno.
Qed.

Lemma at_least_step {A} (o : reg A) (h : Hooks.t) (n : nat) (id : string) (c : nat) :
  hooks_inv h -> registered_in id c h -> at_least n id c h -> at_least n id c (perform_reg o h).2.
Proof.
  intros I Hin Hle r' Hr' Hreg.
  destruct (registration_step _ _ _ _ I Hin Hreg) as [Hold Hno].
  rewrite perform_reg_registry in Hr'. rewrite perform_reg_answer in Hno.
  destruct (apply_reg_rank _ _ _ _ _ Hr') as [(c' & d & ?)|(r & Hr & ?)]; [by edestruct Hno|].
  specialize (Hle _ Hr Hold). lia.
Qed.

Lemma registered_stable (h h' : Hooks.t) (id : string) (c : nat) :
  rtc hooks_step h h' -> registered_in id c h -> registered_in id c h'.
Proof.
  intros (e & He)%hooks_steps_history (d & Hd). exists d. rewrite He. apply elem_of_app. by left.
Qed.

Lemma at_least_stable (h h' : Hooks.t) (n : nat) (id : string) (c : nat) :
  rtc hooks_step h h' -> hooks_inv h -> registered_in id c h -> at_least n id c h -> at_least n id c h'.
Proof.
  induction 1 as [|h1 h2 h3 Hs Hss IH]; [done|]. intros I Hin Hle. apply IH.
  - eapply hooks_steps_inv; [by apply rtc_once|done].
  - eapply registered_stable; [by apply rtc_once|done].
  - destruct Hs as [A o h|now h ?]; [by apply at_least_step|exact Hle].
Qed.

Lemma at_least_mono (n m : nat) (id : string) (c : nat) (h : Hooks.t) :
  (n <= m)%nat -> at_least m id c h -> at_least n id c h.
Proof. intros Hnm Hle r Hr Hreg. specialize (Hle _ Hr Hreg). lia. Qed.

Lemma registration_steps (h h' : Hooks.t) (id : string) (c : nat) :
  rtc hooks_step h h' -> hooks_inv h -> registered_in id c h ->
  registration id (Hooks.history h') = Some c -> registration id (Hooks.history h) = Some c.
Proof.
  induction 1 as [|h1 h2 h3 Hs Hss IH]; [done|]. intros I Hin Hreg.
  assert (Hreg2 : registration id (Hooks.history h2) = Some c).
  { apply IH; [|by eapply registered_stable; [apply rtc_once|]|done]. eapply hooks_steps_inv; [by apply rtc_once|done]. }
  destruct Hs as [A o h|now h ?]; [|done]. by destruct (registration_step _ _ _ _ I Hin Hreg2).
Qed.

(** What an answer of the reply channel says. *)
Lemma decided_at_least (h : Hooks.t) (id : string) (c : nat) (ch : Oneshot.t HookReply.t) :
  hooks_inv h -> replies (Hooks.registry h) !! c = Some ch ->
  (Oneshot.value ch = None -> Oneshot.sender ch = false) -> at_least 1 id c h.
Proof.
  intros I Hch Hv r Hr Hreg. destruct (PendingRecord.state r) eqn:Hs; simpl; try lia. exfalso.
  destruct (inv_latest _ _ I _ _ Hr) as (c' & Hc' & (_ & _ & _ & _ & _ & HR)). rewrite Hreg in Hc'. simplify_eq.
  rewrite Hs in HR. destruct HR as (Hresp & _ & Hd & _).
  destruct (inv_waiting _ _ I _ _ _ Hr Hs Hresp) as (ch' & Hch' & Hsend). simplify_eq.
  destruct (inv_replies _ _ I _ _ Hch) as (_ & _ & Hval & _).
  destruct (Oneshot.value ch) as [v|]; [|by rewrite Hv in Hsend].
  destruct (Hval v eq_refl) as (now & He). by rewrite He in Hd.
Qed.

Lemma decision_of_value (h : Hooks.t) (c : nat) (ch : Oneshot.t HookReply.t) (r : HookReply.t) :
  hooks_inv h -> replies (Hooks.registry h) !! c = Some ch -> Oneshot.value ch = Some r ->
  exists id d now, Registered id c d ∈ Hooks.history h /\ decisions c (Hooks.history h) = [(r, now)] /\ now < d.
Proof.
  intros I Hch Hv. destruct (inv_replies _ _ I _ _ Hch) as (_ & _ & Hval & _).
  destruct (Hval _ Hv) as (now & Hd).
  destruct (inv_deadline _ _ I c r now) as (id & d & ? & ?); [|by exists id, d, now].
  apply decisions_elem. rewrite Hd. by apply list_elem_of_singleton.
Qed.

Lemma decisions_stable (h h' : Hooks.t) (c : nat) (x : HookReply.t * Z) :
  rtc hooks_step h h' -> hooks_inv h -> decisions c (Hooks.history h) = [x] -> decisions c (Hooks.history h') = [x].
Proof.
  intros Hs I Hd. pose proof (hooks_steps_inv _ _ Hs I) as I'.
  destruct (hooks_steps_history _ _ Hs) as (e & He). destruct x as [r now].
  destruct (inv_deadline _ _ I c r now) as (id & d & Hin & _).
  { apply decisions_elem. rewrite Hd. by apply list_elem_of_singleton. }
  destruct (inv_registered _ _ I' id c d) as (_ & [ch Hch] & _).
  { rewrite He. apply elem_of_app. by left. }
  destruct (inv_replies _ _ I' _ _ Hch) as (Hlen & _).
  rewrite He, decisions_app, Hd in Hlen |- *. simpl in *. destruct (decisions c e); [done|simpl in Hlen; lia].
Qed.

Lemma outcomes_stable (h h' : Hooks.t) (c : nat) (ch : Oneshot.t DeliveryOutcome.t) (o : DeliveryOutcome.t) :
  rtc hooks_step h h' -> hooks_inv h -> deliveries (Hooks.registry h) !! c = Some ch -> Oneshot.value ch = Some o ->
  outcomes c (Hooks.history h') = [o] /\ length (decisions c (Hooks.history h')) = 1%nat.
Proof.
  intros Hs I Hch Hv. pose proof (hooks_steps_inv _ _ Hs I) as I'.
  destruct (inv_deliveries _ _ I _ _ Hch) as (_ & Hd & Ho). rewrite (Ho _ Hv) in Hd. destruct Hd as [?|Hd]; [done|].
  destruct (decisions c (Hooks.history h)) as [|[r now] [|? ?]] eqn:Hdec; try done.
  rewrite (decisions_stable _ _ _ _ Hs I Hdec). split; [|done].
  destruct (inv_deadline _ _ I c r now) as (id & d & Hin & _).
  { apply decisions_elem. rewrite Hdec. by apply list_elem_of_singleton. }
  destruct (hooks_steps_history _ _ Hs) as (e & He).
  destruct (inv_registered _ _ I' id c d) as (_ & _ & [ch' Hch']); [rewrite He; apply elem_of_app; by left|].
  destruct (inv_deliveries _ _ I' _ _ Hch') as (Hlen & _).
  rewrite He, outcomes_app, (Ho _ Hv) in Hlen |- *. simpl in *. destruct (outcomes c e); [done|simpl in Hlen; lia].
Qed.

(** ** Every registration is settled *)

Ltac record_step I Hin Hr' Hreg :=
  let Hold := fresh "Hold" in
  intros r' Hr' Hreg; destruct (registration_step _ _ _ _ I Hin Hreg) as [Hold _];
  rewrite perform_reg_registry in Hr'; simpl in Hr'.

Lemma complete_settles (h : Hooks.t) (id : string) (c : nat) (o : DeliveryOutcome.t) :
  hooks_inv h -> registered_in id c h -> at_least 1 id c h ->
  at_least 2 id c (perform_reg (CompleteDelivery id o) h).2.
Proof.
  intros I Hin Hle. record_step I Hin Hr' Hreg. unfold complete_delivery, set_record in Hr'.
  destruct (inner (Hooks.registry h) !! id) as [r|] eqn:Hr; simpl in Hr'; [|congruence].
  specialize (Hle _ Hr Hold). revert Hr'. case_bool_decide as Hs; simpl.
  - rewrite lookup_insert_eq. intros; simplify_eq/=. by destruct o.
  - rewrite Hr. intros; simplify_eq. destruct (PendingRecord.state r'); simpl in *; [lia|done|lia..].
Qed.

Lemma cancel_at_least (h : Hooks.t) (id : string) (c : nat) :
  hooks_inv h -> registered_in id c h ->
  at_least (if res_is_ok (perform_reg (Cancel id) h).1 then 2 else 1) id c (perform_reg (Cancel id) h).2.
Proof.
  intros I Hin. record_step I Hin Hr' Hreg. rewrite perform_reg_answer. simpl. unfold cancel, set_record in *.
  destruct (inner (Hooks.registry h) !! id) as [r|] eqn:Hr; simpl in *; [|congruence].
  revert Hr'. case_bool_decide as Hs; simpl.
  - rewrite lookup_insert_eq. intros; simplify_eq/=. done.
  - rewrite Hr. intros; simplify_eq. destruct (PendingRecord.state r'); simpl in *; [done|lia..].
Qed.

Lemma expire_at_least (h : Hooks.t) (id : string) (c : nat) :
  hooks_inv h -> registered_in id c h ->
  at_least (if (perform_reg (ExpireOrAlreadyExpired id) h).1 then 2 else 1) id c
    (perform_reg (ExpireOrAlreadyExpired id) h).2.
Proof.
  intros I Hin. record_step I Hin Hr' Hreg. rewrite perform_reg_answer. simpl.
  unfold expire_or_already_expired, set_record in *.
  destruct (inner (Hooks.registry h) !! id) as [r|] eqn:Hr; simpl in *; [|congruence].
  destruct (PendingRecord.state r) eqn:Hs; simpl in Hr' |- *;
    rewrite ?lookup_insert_eq in Hr'; try rewrite Hr in Hr'; simplify_eq/=; rewrite ?Hs; simpl; lia.
Qed.

Lemma finalize_settles (h : Hooks.t) (id : string) (c : nat) :
  hooks_inv h -> registered_in id c h -> at_least 1 id c h ->
  at_least 2 id c (perform_reg (FinalizeDecidedAfterRace id) h).2.
Proof.
  intros I Hin Hle. record_step I Hin Hr' Hreg. unfold finalize_decided_after_race, set_record in Hr'.
  destruct (inner (Hooks.registry h) !! id) as [r|] eqn:Hr; simpl in Hr'; [|congruence].
  specialize (Hle _ Hr Hold). revert Hr'. case_bool_decide as Hs; simpl.
  - rewrite lookup_insert_eq. intros; simplify_eq/=. done.
  - rewrite Hr. intros; simplify_eq. destruct (PendingRecord.state r'); simpl in *; [lia|done|lia..].
Qed.

(** What a task may assume after another operation of its own. *)
Definition settled_at_least (n : nat) (id : string) (c : nat) (w : ZWorld.t) : Prop :=
  hooks_inv (ZWorld.hooks w) /\ registered_in id c (ZWorld.hooks w) /\ at_least n id c (ZWorld.hooks w).

Lemma settled_stable (n : nat) (id : string) (c : nat) (w w' : ZWorld.t) :
  rtc hooks_step (ZWorld.hooks w) (ZWorld.hooks w') -> settled_at_least n id c w -> settled_at_least n id c w'.
Proof.
  intros Hs (I & Hin & Hle). split_and!; [by eapply hooks_steps_inv|by eapply registered_stable|].
  by eapply at_least_stable.
Qed.

Lemma exec_settled {A} (n : nat) (id : string) (c : nat) (p : zprog A) (w w' : ZWorld.t) (t : list ZObs) (a : A) :
  exec p w t a w' -> settled_at_least n id c w -> settled_at_least n id c w'.
Proof. intros He. apply settled_stable. by eapply exec_hooks. Qed.

(** Programs that only publish. *)
Definition is_published (o : ZObs) : Prop := exists key event, o = Published key event.

Fixpoint all_obs (P : ZObs -> Prop) {A} (p : zprog A) : Prop :=
  match p with
  | Ret _ => True
  | Act o k => forall b, Forall P (zobs o b) /\ all_obs P (k b)
  end.

Definition only_publishes {A} (p : zprog A) : Prop := all_obs is_published p.

Lemma exec_publishes {A} (P : ZObs -> Prop) (p : zprog A) (w w' : ZWorld.t) (t : list ZObs) (a : A) :
  all_obs P p -> exec p w t a w' -> Forall P t.
Proof.
  revert w t. induction p as [x|C o k IH]; intros w t Hp; simpl; [by intros (-> & _)|].
  intros (w1 & b & w2 & t' & _ & _ & He & ->). destruct (Hp b) as [H1 H2].
  apply Forall_app. split; [done|by eapply IH].
Qed.

Lemma publishes_no_replies (t : list ZObs) : Forall is_published t -> replies_of t = [].
Proof. induction 1 as [|o t (key & ev & ->) _ IH]; [done|exact IH]. Qed.

Ltac publishes := repeat (first [done | case_match | split | intros ? | constructor]; simpl); try by do 2 eexists.

Section Tasks.
Context {V : Type} `{HookJson V}.
Variable device_id : string.

Lemma publish_summary_publishes (key : SessionKey.t) : only_publishes (publish_summary key).
Proof. publishes. Qed.

Lemma attention_added_publishes (invoke : HookInvoke.t V) (kind : InvokeKind.t) :
  only_publishes (publish_attention_added device_id invoke kind).
Proof. unfold publish_attention_added. publishes. Qed.

Lemma attention_removed_publishes (invoke : HookInvoke.t V) (kind : InvokeKind.t) :
  only_publishes (publish_attention_removed device_id invoke kind).
Proof. unfold publish_attention_removed. publishes. Qed.

Lemma mark_awaiting_publishes (native : option string) (b : bool) :
  only_publishes (mark_awaiting_approval native b).
Proof. unfold mark_awaiting_approval. publishes. Qed.

(** Inverting a run of composed programs. *)
Ltac exec_inv :=
  repeat match goal with
  | H : exec (prog_bind _ _) _ _ _ _ |- _ => apply exec_bind in H as (?t & ?a & ?w & ?t & ?H & ?H & ->)
  | H : exec (Ret _) _ _ _ _ |- _ => destruct H as (-> & -> & ->)
  | H : exec (act _) _ _ _ _ |- _ =>
      destruct H as (?w & ?b & ?w & ?t & ?Henv & ?Hst & (-> & ?Ha & ?Hw) & ->); subst
  end.

Lemma reg_step {A} (o : reg A) (w w1 w2 : ZWorld.t) (a : A) :
  rtc zenv w w1 -> zstep (Reg o) w1 a w2 ->
  rtc hooks_step (ZWorld.hooks w) (ZWorld.hooks w1) /\
  a = (perform_reg o (ZWorld.hooks w1)).1 /\ ZWorld.hooks w2 = (perform_reg o (ZWorld.hooks w1)).2.
Proof. intros ?%zenv_hooks [-> ->]. done. Qed.

Lemma settle_settles (invoke : HookInvoke.t V) (kind : InvokeKind.t) (timed_out : bool) (c : nat)
    (w w' : ZWorld.t) (t : list ZObs) (u : unit) :
  settled_at_least 0 (HookInvoke.invoke_id invoke) c w ->
  exec (settle_without_decision device_id invoke kind timed_out) w t u w' ->
  settled_at_least 2 (HookInvoke.invoke_id invoke) c w'.
Proof.
  set (id := HookInvoke.invoke_id invoke). intros Hs He. unfold settle_without_decision in He. fold id in He.
  apply exec_bind in He as (t1 & settled & w1 & t2 & H1 & He & ->).
  assert (S1 : settled_at_least (if settled then 2 else 1) id c w1).
  { destruct timed_out; exec_inv.
    - destruct (reg_step _ _ _ _ _ Henv Hst) as (Hsteps & -> & Hw2).
      destruct (settled_stable _ _ _ _ _ Hsteps Hs) as (I & Hin & _).
      unfold settled_at_least. rewrite Hw2. split_and!; [by apply perform_reg_inv| |by apply expire_at_least].
      eapply registered_stable; [apply rtc_once, step_reg|done].
    - destruct (reg_step _ _ _ _ _ Henv Hst) as (Hsteps & -> & Hw2).
      destruct (settled_stable _ _ _ _ _ Hsteps Hs) as (I & Hin & _).
      unfold settled_at_least. rewrite Hw2. split_and!; [by apply perform_reg_inv| |by apply cancel_at_least].
      eapply registered_stable; [apply rtc_once, step_reg|done]. }
  apply exec_bind in He as (t3 & raced & w2 & t4 & H2 & He & ->).
  eapply exec_settled; [exact He|]. clear He.
  destruct settled; [by exec_inv|]. exec_inv.
  destruct (reg_step _ _ _ _ _ Henv Hst) as (Hsteps & -> & Hw2).
  destruct (settled_stable _ _ _ _ _ Hsteps S1) as (I & Hin & Hle).
  unfold settled_at_least. rewrite Hw2. split_and!; [by apply perform_reg_inv| |by apply finalize_settles].
  eapply registered_stable; [apply rtc_once, step_reg|done].
Qed.

Lemma deliver_settles (invoke : HookInvoke.t V) (kind : InvokeKind.t) (reply : HookReply.t) (c : nat)
    (w w' : ZWorld.t) (t : list ZObs) (u : unit) :
  settled_at_least 1 (HookInvoke.invoke_id invoke) c w ->
  exec (deliver_decision device_id invoke kind reply) w t u w' ->
  settled_at_least 2 (HookInvoke.invoke_id invoke) c w'.
Proof.
  intros Hs He. unfold deliver_decision in He.
  apply exec_bind in He as (t1 & written & w1 & t2 & H1 & He & ->). apply (exec_settled _ _ _ _ _ _ _ _ H1) in Hs.
  apply exec_bind in He as (t3 & delivered & w2 & t4 & H2 & He & ->). apply (exec_settled _ _ _ _ _ _ _ _ H2) in Hs.
  apply exec_bind in He as (t5 & state & w3 & t6 & H3 & He & ->). eapply exec_settled; [exact He|].
  exec_inv. destruct (reg_step _ _ _ _ _ Henv Hst) as (Hsteps & -> & Hw2).
  destruct (settled_stable _ _ _ _ _ Hsteps Hs) as (I & Hin & Hle).
  unfold settled_at_least. rewrite Hw2. split_and!; [by apply perform_reg_inv| |by apply complete_settles].
  eapply registered_stable; [apply rtc_once, step_reg|done].
Qed.

(** What [select!] says of the registration: a decision that was taken in time, or at least that
    nobody will take one. *)
Lemma select_spec (id : string) (c : nat) (until : Z) (w w' : ZWorld.t) (ready : Ready) :
  zstep (SelectReady c until) w ready w' -> settled_at_least 0 id c w ->
  w' = w /\
  match ready with
  | DecisionReady decision =>
      settled_at_least 1 id c w /\
      forall r, decision = Some r -> exists i d now, Registered i c d ∈ history w /\
        decisions c (history w) = [(r, now)] /\ now < d
  | _ => True
  end.
Proof.
  simpl. intros [-> Hr] (I & Hin & _). split; [done|]. destruct ready as [decision| |]; [|done..].
  destruct Hr as (ch & Hch & Hv & Hsend). split.
  - split_and!; [done..|]. eapply decided_at_least; [done..|]. rewrite Hv. done.
  - intros r ->. by eapply decision_of_value.
Qed.

(** C27. The task of a helper's connection always settles the registration it waits for: when it
    is done - decided, timed out, or the helper gone, at whatever moment the other tasks of the
    process decide, cancel or expire it - the record of that registration, if it is still there,
    is in a terminal state, so it can neither be decided any more nor stay in memory forever. *)
Theorem registration_settled (invoke : HookInvoke.t V) (kind : InvokeKind.t) (c : nat) (wait : Z)
    (w w' : ZWorld.t) (t : list ZObs) (u : unit) (r : PendingRecord.t) :
  hooks_reachable (ZWorld.hooks w) -> registered_in (HookInvoke.invoke_id invoke) c (ZWorld.hooks w) ->
  exec (await_decision device_id invoke kind c wait) w t u w' ->
  inner (registry w') !! HookInvoke.invoke_id invoke = Some r ->
  registration (HookInvoke.invoke_id invoke) (history w') = Some c ->
  PendingState.is_terminal (PendingRecord.state r) = true.
Proof.
  intros I%hooks_reachable_inv Hin He Hr Hreg. set (id := HookInvoke.invoke_id invoke) in *.
  assert (S : settled_at_least 2 id c w').
  { assert (S0 : settled_at_least 0 id c w) by (split_and!; [done..|intros ? ? ?; lia]).
    unfold await_decision in He.
    apply exec_bind in He as (t1 & start & w1 & t2 & H1 & He & ->). apply (exec_settled _ _ _ _ _ _ _ _ H1) in S0.
    apply exec_bind in He as (t3 & ready & w2 & t4 & H2 & He & ->).
    apply exec_bind in He as (t5 & u5 & w5 & t6 & H3 & He & ->).
    destruct H2 as (w3 & b & w4 & t7 & Henv & Hsel & (-> & <- & ->) & _).
    apply (settled_stable _ _ _ _ _ (zenv_hooks _ _ Henv)) in S0.
    destruct (select_spec _ _ _ _ _ _ Hsel S0) as [-> Hready].
    destruct ready as [[reply|]| |].
    - destruct Hready as [S1 _]. apply (exec_settled _ _ _ _ _ _ _ _ H3) in S1. by eapply deliver_settles.
    - destruct Hready as [S1 _]. apply (exec_settled _ _ _ _ _ _ _ _ H3) in S1. by eapply deliver_settles.
    - apply (exec_settled _ _ _ _ _ _ _ _ H3) in S0.
      apply exec_bind in He as (t8 & u8 & w8 & t9 & H4 & He & ->). eapply exec_settled; [exact He|].
      by eapply settle_settles.
    - apply (exec_settled _ _ _ _ _ _ _ _ H3) in S0.
      apply exec_bind in He as (t8 & u8 & w8 & t9 & H4 & He & ->). eapply exec_settled; [exact He|].
      by eapply settle_settles. }
  destruct S as (_ & _ & Hle). specialize (Hle _ Hr Hreg). destruct (PendingRecord.state r); simpl in *; [lia|lia|done..].
Qed.

(** ** What the helper is answered *)

(** A delivery is only reported after a written reply and its acknowledgement. *)
Definition acknowledged (invoke_id : string) (t : list ZObs) : Prop :=
  forall ok, DidComplete invoke_id DeliveryOutcome.Delivered ok ∈ t ->
    exists reply line, Wrote reply true ∈ t /\ ReadLine (Some line) ∈ t /\ is_delivery_ack line invoke_id = true.

Definition silent (t : list ZObs) : Prop :=
  replies_of t = [] /\ forall id o ok, DidComplete id o ok ∉ t.

Lemma replies_of_app (k l : list ZObs) : replies_of (k ++ l) = replies_of k ++ replies_of l.
Proof. apply omap_app. Qed.

Lemma published_silent (t : list ZObs) : Forall is_published t -> silent t.
Proof.
  intros Ht. split; [by apply publishes_no_replies|]. intros id o ok Hin.
  by destruct (proj1 (Forall_forall _ _) Ht _ Hin) as (? & ? & ?).
Qed.

Lemma silent_app (k l : list ZObs) : silent k -> silent l -> silent (k ++ l).
Proof.
  intros [H1 H2] [H3 H4]. split; [by rewrite replies_of_app, H1, H3|].
  intros id o ok [Hin|Hin]%elem_of_app; [by eapply H2|by eapply H4].
Qed.

Lemma silent_acknowledged (id : string) (k l : list ZObs) :
  silent k -> acknowledged id l -> acknowledged id (k ++ l).
Proof.
  intros [_ Hk] Hl ok [Hin|Hin]%elem_of_app; [by apply Hk in Hin|].
  destruct (Hl ok Hin) as (reply & line & ? & ? & ?). exists reply, line. rewrite !elem_of_app. auto.
Qed.

Lemma acknowledged_silent (id : string) (k l : list ZObs) :
  silent l -> acknowledged id k -> acknowledged id (k ++ l).
Proof.
  intros [_ Hl] Hk ok [Hin|Hin]%elem_of_app; [|by apply Hl in Hin].
  destruct (Hk ok Hin) as (reply & line & ? & ? & ?). exists reply, line. rewrite !elem_of_app. auto.
Qed.

Lemma nil_silent : silent [].
Proof. split; [done|]. intros ? ? ? ?%elem_of_nil. done. Qed.

Lemma refuse_spec (reply : HookReply.t) (w w' : ZWorld.t) (t : list ZObs) (u : unit) :
  exec (refuse reply) w t u w' -> replies_of t = [reply] /\ forall id o ok, DidComplete id o ok ∉ t.
Proof.
  unfold refuse. intros He. exec_inv. split; [done|].
  intros id o ok. rewrite !app_nil_r. by intros ?%list_elem_of_singleton.
Qed.

Ltac publishing H :=
  apply (exec_publishes is_published) in H;
  [apply published_silent in H
  |repeat case_match; first [apply attention_removed_publishes|apply attention_added_publishes
                            |apply mark_awaiting_publishes|done|publishes]].

Lemma settle_silent (invoke : HookInvoke.t V) (kind : InvokeKind.t) (timed_out : bool)
    (w w' : ZWorld.t) (t : list ZObs) (u : unit) :
  exec (settle_without_decision device_id invoke kind timed_out) w t u w' -> silent t.
Proof.
  unfold settle_without_decision. intros He.
  apply exec_bind in He as (t1 & settled & w1 & t2 & H1 & He & ->).
  apply exec_bind in He as (t3 & raced & w2 & t4 & H2 & He & ->).
  apply silent_app; [|apply silent_app].
  - destruct timed_out; exec_inv; apply nil_silent.
  - destruct settled; exec_inv; apply nil_silent.
  - destruct (settled || raced); [|exec_inv; apply nil_silent].
    apply exec_bind in He as (t5 & u5 & w5 & t6 & H5 & H6 & ->). apply silent_app.
    + by publishing H5.
    + by publishing H6.
Qed.

Lemma deliver_spec (invoke : HookInvoke.t V) (kind : InvokeKind.t) (reply : HookReply.t)
    (w w' : ZWorld.t) (t : list ZObs) (u : unit) :
  exec (deliver_decision device_id invoke kind reply) w t u w' ->
  replies_of t = [reply] /\ acknowledged (HookInvoke.invoke_id invoke) t.
Proof.
  unfold deliver_decision. intros He.
  apply exec_bind in He as (t1 & written & w1 & t2 & H1 & He & ->).
  apply exec_bind in He as (t3 & delivered & w2 & t4 & H2 & He & ->).
  apply exec_bind in He as (t5 & state & w3 & t6 & H3 & He & ->).
  apply exec_bind in He as (t7 & u7 & w7 & t8 & H7 & H8 & ->).
  assert (S7 : silent t7) by by publishing H7. assert (S8 : silent t8) by by publishing H8.
  pose proof (silent_app _ _ S7 S8) as S.
  assert (Ha : delivered = false /\ silent t3 \/
    (exists line, written = true /\ t3 = [ReadLine line] /\
       delivered = match line with Some line => is_delivery_ack line (HookInvoke.invoke_id invoke) | None => false end)).
  { unfold wait_delivery_ack in H2. clear - H2. destruct written; exec_inv; [right; by eexists|left].
    split; [done|apply nil_silent]. }
  exec_inv. split.
  - rewrite !replies_of_app, (proj1 S7), (proj1 S8).
    destruct Ha as [(_ & -> & _)|(line & _ & -> & _)]; done.
  - simpl. intros ok Hin. assert (delivered = true) as ->.
    { destruct delivered; [done|]. exfalso. destruct S as [_ S].
      rewrite elem_of_cons, elem_of_app, elem_of_cons in Hin.
      destruct Hin as [?|[Hin|[?|Hin]]]; [done| |done|by eapply S].
      destruct Ha as [(_ & _ & Ha)|(line & _ & -> & _)]; [by eapply Ha|by apply list_elem_of_singleton in Hin]. }
    destruct Ha as [[? _]|([line|] & -> & -> & Hack)]; [done| |done].
    exists reply, line. split_and!; [by apply elem_of_cons; left|apply elem_of_cons; right|done].
    apply elem_of_app. left. by apply list_elem_of_singleton.
Qed.

(** A reply that carries a decision of the registration [c] of [id]. *)
Definition decided_reply (id : string) (c : nat) (r : HookReply.t) (h : Hooks.t) : Prop :=
  exists d now, Registered id c d ∈ Hooks.history h /\ decisions c (Hooks.history h) = [(r, now)] /\ now < d.

Lemma decided_stable (id : string) (c : nat) (r : HookReply.t) (h h' : Hooks.t) :
  rtc hooks_step h h' -> hooks_inv h -> decided_reply id c r h -> decided_reply id c r h'.
Proof.
  intros Hs I (d & now & Hin & Hd & ?). exists d, now. split_and!; [|by eapply decisions_stable|done].
  destruct (hooks_steps_history _ _ Hs) as (e & ->). apply elem_of_app. by left.
Qed.

Lemma await_answers (invoke : HookInvoke.t V) (kind : InvokeKind.t) (c : nat) (wait : Z)
    (w w' : ZWorld.t) (t : list ZObs) (u : unit) :
  settled_at_least 0 (HookInvoke.invoke_id invoke) c w ->
  exec (await_decision device_id invoke kind c wait) w t u w' ->
  exists r, replies_of t = [r] /\
    (r = HookReply.expired \/ r = HookReply.cancelled \/
     decided_reply (HookInvoke.invoke_id invoke) c r (ZWorld.hooks w')) /\
    acknowledged (HookInvoke.invoke_id invoke) t.
Proof.
  set (id := HookInvoke.invoke_id invoke). intros S0 He. unfold await_decision in He.
  apply exec_bind in He as (t1 & start & w1 & t2 & H1 & He & ->). apply (exec_settled _ _ _ _ _ _ _ _ H1) in S0.
  apply exec_bind in He as (t3 & ready & w2 & t4 & H2 & He & ->).
  apply exec_bind in He as (t5 & u5 & w5 & t6 & H3 & He & ->).
  destruct H2 as (w3 & b & w4 & t7 & Henv & Hsel & (-> & <- & ->) & ->).
  apply (settled_stable _ _ _ _ _ (zenv_hooks _ _ Henv)) in S0.
  destruct (select_spec _ _ _ _ _ _ Hsel S0) as [-> Hready].
  assert (Hs : rtc hooks_step (ZWorld.hooks w3) (ZWorld.hooks w'))
    by (etrans; [exact (exec_hooks _ _ _ _ _ H3)|exact (exec_hooks _ _ _ _ _ He)]).
  assert (Q : silent t1 /\ silent t5).
  { exec_inv. split; apply nil_silent. }
  destruct Q as [Q1 Q5]. simpl.
  assert (Hexp : forall r, acknowledged id t6 /\ replies_of t6 = [r] ->
    acknowledged id (t1 ++ t5 ++ t6) /\ replies_of (t1 ++ t5 ++ t6) = [r]).
  { intros r [Ha Hr]. split; [by repeat apply silent_acknowledged|].
    by rewrite !replies_of_app, (proj1 Q1), (proj1 Q5). }
  assert (Hsettle : forall timed_out, exec (perform settle_without_decision device_id invoke kind timed_out;
            perform act (WriteReply HookReply.expired); Ret tt) w5 t6 u w' ->
          acknowledged id t6 /\ replies_of t6 = [HookReply.expired]).
  { intros timed_out Hx. apply exec_bind in Hx as (t8 & u8 & w8 & t9 & H4 & Hx & ->).
    apply settle_silent in H4. exec_inv. rewrite !replies_of_app, (proj1 H4). split; [|done].
    apply silent_acknowledged; [done|]. intros ok ?%list_elem_of_singleton. done. }
  destruct ready as [[reply|]| |].
  - destruct Hready as [_ Hdec]. destruct (deliver_spec _ _ _ _ _ _ _ He) as [Hr Ha].
    destruct (Hexp reply) as [? ?]; [done|]. exists reply. split_and!; [done| |done]. right. right.
    destruct (Hdec reply eq_refl) as (i & d & now & Hin & Hd & ?).
    eapply decided_stable; [exact Hs|apply S0|]. exists d, now. split_and!; [|done|done].
    destruct S0 as (I & (d' & Hin') & _). by destruct (inv_unique _ _ I _ _ _ _ _ Hin Hin') as [-> ->].
  - destruct (deliver_spec _ _ _ _ _ _ _ He) as [Hr Ha]. destruct (Hexp HookReply.cancelled) as [? ?]; [done|].
    exists HookReply.cancelled. auto.
  - destruct (Hexp HookReply.expired) as [? ?]; [by eapply Hsettle|]. exists HookReply.expired. auto.
  - destruct (Hexp HookReply.expired) as [? ?]; [by eapply Hsettle|]. exists HookReply.expired. auto.
Qed.

Lemma register_ok (h : Hooks.t) (id : string) (kind : InvokeKind.t) (native tool use : option string)
    (ask : option AskRequest.t) (summary : option string) (wait : Z) (c : nat) :
  hooks_inv h -> (perform_reg (Register id kind native tool use ask summary wait) h).1 = Ok c ->
  registered_in id c (perform_reg (Register id kind native tool use ask summary wait) h).2 /\
  forall i d, Registered i c d ∉ Hooks.history h.
Proof.
  intros I Hok. unfold registered_in. rewrite perform_reg_history, Hok. rewrite perform_reg_answer in Hok. simpl in Hok |- *.
  split; [eexists; apply elem_of_app; right; by apply list_elem_of_singleton|].
  unfold register in Hok. destruct (inner _ !! id); [done|].
  intros i d Hin. destruct (inv_registered _ _ I _ _ _ Hin) as (Hlt & _).
  injection Hok as <-. change (fresh (retain_live _ _)) with (fresh (Hooks.registry h)) in Hlt. lia.
Qed.

(** A registration made by [register_invoke], whatever happened before. *)
Lemma register_invoke_spec (invoke : HookInvoke.t V) (kind : InvokeKind.t) (w w' : ZWorld.t)
    (t : list ZObs) (a : res PendingError.t nat) :
  hooks_inv (ZWorld.hooks w) -> exec (register_invoke invoke kind) w t a w' ->
  t = [] /\ forall c, a = Ok c ->
    settled_at_least 0 (HookInvoke.invoke_id invoke) c w' /\ forall i d, Registered i c d ∉ history w.
Proof.
  intros I He. unfold register_invoke in He. exec_inv. split; [done|]. intros c Hc.
  destruct (reg_step _ _ _ _ _ Henv Hst) as (Hs & Hb & Hw2). rewrite Hb in Hc.
  assert (I0 : hooks_inv (ZWorld.hooks w0)) by (by eapply hooks_steps_inv).
  destruct (register_ok _ _ _ _ _ _ _ _ _ _ I0 Hc) as [Hreg Hnew]. split.
  - unfold settled_at_least. rewrite Hw2. split_and!; [by apply perform_reg_inv|done|intros ? ? ?; lia].
  - intros i d Hin. apply (Hnew i d). destruct (hooks_steps_history _ _ Hs) as (e & ->). apply elem_of_app. by left.
Qed.

(** C25. A helper is answered exactly once, and never allowed by accident: the one reply written to
    it is a refusal, [expired], [cancelled], or the one decision taken for a registration of this
    request that was made during the run, and taken before that registration's deadline.  The
    delivery is reported as confirmed only after that reply was written and a line acknowledging
    this very request was read. *)
Theorem helper_answered_once (invoke : HookInvoke.t V) (kind : InvokeKind.t) (w w' : ZWorld.t)
    (t : list ZObs) (u : unit) :
  hooks_reachable (ZWorld.hooks w) ->
  exec (handle_pending_invoke device_id invoke kind) w t u w' ->
  exists r, replies_of t = [r] /\
    ((exists message, r = HookReply.rejected message) \/ r = HookReply.expired \/ r = HookReply.cancelled \/
     exists c, (forall i d, Registered i c d ∉ history w) /\
       decided_reply (HookInvoke.invoke_id invoke) c r (ZWorld.hooks w')) /\
    (forall ok, DidComplete (HookInvoke.invoke_id invoke) DeliveryOutcome.Delivered ok ∈ t ->
       Wrote r true ∈ t /\
       exists line, ReadLine (Some line) ∈ t /\ is_delivery_ack line (HookInvoke.invoke_id invoke) = true).
Proof.
  intros I%hooks_reachable_inv He. set (id := HookInvoke.invoke_id invoke) in *.
  assert (Hone : forall r, replies_of t = [r] -> acknowledged id t ->
    forall ok, DidComplete id DeliveryOutcome.Delivered ok ∈ t ->
      Wrote r true ∈ t /\ exists line, ReadLine (Some line) ∈ t /\ is_delivery_ack line id = true).
  { intros r Hr Ha ok Hin. destruct (Ha ok Hin) as (reply & line & Hw & Hl & Hack).
    assert (Hin' : reply ∈ replies_of t) by (apply list_elem_of_omap; by exists (Wrote reply true)).
    rewrite Hr in Hin'. apply list_elem_of_singleton in Hin' as ->. eauto. }
  assert (Hrefuse : forall message w0, exec (refuse (HookReply.rejected message)) w0 t u w' ->
    exists r, replies_of t = [r] /\ (exists message, r = HookReply.rejected message) /\ acknowledged id t).
  { intros message w0 Hx. apply refuse_spec in Hx as [Hr Hno]. eexists. split_and!; [done|by eexists|].
    intros ok Hin. by apply Hno in Hin. }
  unfold handle_pending_invoke in He.
  destruct (validate_invoke invoke kind) as [_u|message]; [|destruct (Hrefuse _ _ He) as (r & ? & ? & ?); eauto 10].
  apply exec_bind in He as (t1 & registered & w1 & t2 & H1 & He & ->).
  destruct (register_invoke_spec _ _ _ _ _ _ I H1) as [-> Hok].
  change ([] ++ t2) with t2 in *.
  destruct registered as [c|err];
    [|destruct err; edestruct Hrefuse as (r & ? & ? & ?); [exact He|eauto 10..]].
  destruct (Hok c eq_refl) as [S Hnew].
  apply exec_bind in He as (t3 & u3 & w3 & t4 & H3 & He & ->). apply (exec_settled _ _ _ _ _ _ _ _ H3) in S.
  apply exec_bind in He as (t5 & u5 & w5 & t6 & H5 & He & ->). apply (exec_settled _ _ _ _ _ _ _ _ H5) in S.
  apply exec_bind in He as (t7 & u7 & w7 & t8 & H7 & He & ->). apply (exec_settled _ _ _ _ _ _ _ _ H7) in S.
  destruct (await_answers _ _ _ _ _ _ _ _ S He) as (r & Hr & Hcases & Hack).
  publishing H3. publishing H5. publishing H7.
  assert (Hr' : replies_of (t3 ++ t5 ++ t7 ++ t8) = [r])
    by (by rewrite !replies_of_app, (proj1 H3), (proj1 H5), (proj1 H7)).
  assert (Hack' : acknowledged id (t3 ++ t5 ++ t7 ++ t8)) by (by repeat apply silent_acknowledged).
  exists r. split_and!; [done| |by apply Hone].
  destruct Hcases as [->|[->|Hd]]; [auto..|]. right. right. right. by exists c.
Qed.

(** ** What a browser is told *)

(** The replies a command can ask for. *)
Definition native_reply (payload : option CommandPayload.t) (id : string) (reply : HookReply.t) : Prop :=
  match payload with
  | Some (CommandPayload.AnswerApproval approval_id decision) =>
      id = approval_id /\
      (decision = DECISION_ALLOW /\ reply = HookReply.allowed \/
       decision = DECISION_DENY /\ reply = HookReply.denied "User declined this action in Agent Console")
  | Some (CommandPayload.AnswerQuestion question_id option_ids free_text) =>
      id = question_id /\ exists label, (label = None <-> option_ids = []) /\
        reply = HookReply.answered label (if bool_decide (free_text = "") then None else Some free_text) /\
        (label = None -> free_text <> "")
  | _ => False
  end.

Lemma no_obs {A} (p : zprog A) (w w' : ZWorld.t) (t : list ZObs) (a : A) :
  all_obs (fun _ => False) p -> exec p w t a w' -> t = [].
Proof. intros Hp He. pose proof (exec_publishes _ _ _ _ _ _ Hp He) as Ht. by destruct Ht. Qed.

Lemma resolve_invoke_spec (id0 id : string) (reply0 reply : HookReply.t) (w w' : ZWorld.t) (t : list ZObs) :
  hooks_inv (ZWorld.hooks w) -> exec (resolve_invoke id0 reply0) w t (Some (Ok (id, reply))) w' ->
  id = id0 /\ reply = reply0 /\
  exists c, decided_reply id c reply (ZWorld.hooks w') /\ registration id (history w') = Some c.
Proof.
  intros I He. unfold resolve_invoke in He. apply exec_bind in He as (t1 & a & w1 & t2 & H1 & H2 & ->).
  destruct a as [s|e]; simpl in H2; destruct H2 as (-> & Heq & ->); [|done]. simplify_eq.
  destruct H1 as (w2 & b & w3 & t3 & Henv & Hst & (-> & <- & ->) & _).
  destruct (reg_step _ _ _ _ _ Henv Hst) as (Hs & Hok & Hw). symmetry in Hok.
  assert (I2 : hooks_inv (ZWorld.hooks w2)) by (by eapply hooks_steps_inv).
  destruct (resolve_ok _ _ _ _ I2 Hok) as (c & r & ch & _ & Hl & HR & Hs2 & Hd & _ & _ & Hh).
  split_and!; [done..|]. exists c. rewrite Hw, Hh. destruct HR as (Hreg & _ & _ & _ & _ & HR).
  rewrite Hs2 in HR. destruct HR as (_ & _ & Hnone & _). split.
  - exists (PendingRecord.deadline r), (Hooks.clock (ZWorld.hooks w2)). rewrite Hh, decisions_app, Hnone.
    split_and!; [apply elem_of_app; by left| |done]. apply events_decided.
  - rewrite registration_old; [done|]. by intros ? ? ?%list_elem_of_singleton.
Qed.

Lemma answer_question_spec (q id : string) (label : option string) (free_text : string) (reply : HookReply.t)
    (w w' : ZWorld.t) (t : list ZObs) :
  hooks_inv (ZWorld.hooks w) -> exec (answer_question q label free_text) w t (Some (Ok (id, reply))) w' ->
  id = q /\ reply = HookReply.answered label (if bool_decide (free_text = "") then None else Some free_text) /\
  (label = None -> free_text <> "") /\
  exists c, decided_reply id c reply (ZWorld.hooks w') /\ registration id (history w') = Some c.
Proof.
  intros I He. unfold answer_question in He. apply exec_bind in He as (t1 & allowed & w1 & t2 & H1 & He & ->).
  assert (I1 : hooks_inv (ZWorld.hooks w1)) by (eapply hooks_steps_inv; [by eapply exec_hooks|done]).
  destruct allowed; simpl in He; [|by destruct He as (_ & ? & _)].
  destruct (bool_decide (label = None) && _) eqn:Hb; [by destruct He as (_ & ? & _)|].
  destruct (resolve_invoke_spec _ _ _ _ _ _ _ I1 He) as (-> & -> & Hc). split_and!; [done..| |done].
  intros -> ->. by rewrite !bool_decide_true in Hb.
Qed.

Lemma resolve_command_spec (payload : option CommandPayload.t) (id : string) (reply : HookReply.t)
    (w w' : ZWorld.t) (t : list ZObs) :
  hooks_inv (ZWorld.hooks w) -> exec (resolve_command payload) w t (Some (Ok (id, reply))) w' ->
  native_reply payload id reply /\
  exists c, decided_reply id c reply (ZWorld.hooks w') /\ registration id (history w') = Some c.
Proof.
  intros I He. destruct payload as [[approval decision|q opts text|]|]; simpl in He; [| |by destruct He as (_ & ? & _)..].
  - destruct (_ && _) eqn:Hb; [by destruct He as (_ & ? & _)|].
    destruct (resolve_invoke_spec _ _ _ _ _ _ _ I He) as (-> & -> & Hc). split; [|done]. simpl. split; [done|].
    destruct (decide (decision = DECISION_ALLOW)) as [->|Ha]; [by left|right].
    destruct (decide (decision = DECISION_DENY)) as [->|Hd]; [done|].
    by rewrite !bool_decide_false in Hb.
  - destruct opts as [|o opts].
    + destruct (answer_question_spec _ _ _ _ _ _ _ _ I He) as (-> & -> & Hl & Hc). split; [|done]. simpl.
      split; [done|]. exists None. by split_and!.
    + destruct He as (w1 & label & w2 & t2 & Henv & Hst & He & ->).
      destruct label as [label|]; [|by destruct He as (_ & ? & _)].
      assert (I2 : hooks_inv (ZWorld.hooks w2)).
      { eapply hooks_steps_inv; [|exact I]. etrans; [by apply zenv_hooks|by eapply zstep_hooks]. }
      destruct (answer_question_spec _ _ _ _ _ _ _ _ I2 He) as (-> & -> & Hl & Hc). split; [|done]. simpl.
      split; [done|]. exists (Some label). split_and!; [|done|done]. split; intros; discriminate.
Qed.

Lemma take_delivery_spec (id : string) (c : nat) (h : Hooks.t) :
  hooks_inv h -> (perform_reg (TakeDelivery id) h).1 = Some c ->
  registration id (Hooks.history h) = Some c.
Proof.
  intros I. rewrite perform_reg_answer. simpl. unfold take_delivery.
  destruct (inner _ !! id) as [r|] eqn:Hr; simpl; [|done]. intros Hrx.
  destruct (inv_latest _ _ I _ _ Hr) as (c' & Hl & (_ & _ & _ & _ & [Hx|Hx] & _)); congruence.
Qed.

(** What the answer of the delivery channel says. *)
Lemma await_delivery_spec (w w' : ZWorld.t) (t : list ZObs) (status : ReceiptStatus) (d : option nat) :
  hooks_inv (ZWorld.hooks w) ->
  exec (match d with
        | Some c =>
            do outcome <- act (AwaitDelivery c (DELIVERY_ACK_WAIT_MS + 2000));
            perform act (Reg (DropDeliveryRx c));
            Ret match outcome with
                | Some DeliveryOutcome.Delivered => ReceiptCompleted
                | _ => ReceiptOutcomeUnknown
                end
        | None => Ret ReceiptOutcomeUnknown
        end) w t status w' ->
  t = [] /\ status <> ReceiptRejected /\
  (status = ReceiptCompleted -> exists c, d = Some c /\
    forall h, rtc hooks_step (ZWorld.hooks w') h -> outcomes c (Hooks.history h) = [DeliveryOutcome.Delivered]).
Proof.
  intros I He. destruct d as [c|]; [|by exec_inv].
  apply exec_bind in He as (t1 & outcome & w1 & t2 & H1 & He & ->).
  apply exec_bind in He as (t3 & u & w2 & t4 & H2 & He & ->).
  destruct H1 as (w3 & b & w4 & t5 & Henv & [-> Hout] & (-> & <- & ->) & ->).
  assert (I3 : hooks_inv (ZWorld.hooks w3)) by (eapply hooks_steps_inv; [by apply zenv_hooks|done]).
  pose proof (exec_hooks _ _ _ _ _ H2) as Hs.
  exec_inv. split; [done|]. destruct outcome as [[|]|]; (split; [done|]); try done. intros _.
  exists c. split; [done|]. destruct (Hout _ eq_refl) as (ch & Hch & Hv).
  intros h Hh. assert (Hs' : rtc hooks_step (ZWorld.hooks w3) h) by (etrans; [exact Hs|exact Hh]).
  by destruct (outcomes_stable _ _ _ _ _ Hs' I3 Hch Hv).
Qed.

(** Between two moments the latest registration of an id stays, or a new one is made. *)
Lemma same_or_newer (h h1 h2 : Hooks.t) (id : string) (c c' : nat) :
  hooks_inv h -> rtc hooks_step h h1 -> rtc hooks_step h1 h2 ->
  registration id (Hooks.history h1) = Some c -> registration id (Hooks.history h2) = Some c' ->
  c' = c \/ (forall i d, Registered i c' d ∉ Hooks.history h) /\ registered_in id c' h2.
Proof.
  intros I Hs1 Hs2 H1 H2. destruct (decide (c' = c)) as [->|Hne]; [by left|right].
  pose proof (hooks_steps_inv _ _ Hs1 I) as I1. pose proof (hooks_steps_inv _ _ Hs2 I1) as I2.
  assert (Hreg : registered_in id c' h2).
  { unfold registration in H2. apply last_Some_elem_of in H2.
    apply list_elem_of_omap in H2 as ([i c0 d| |] & Hin & Hc); try done. case_bool_decide; simplify_eq. by exists d. }
  split; [|done]. intros i d Hi. destruct Hreg as (d' & Hd').
  destruct (hooks_steps_history _ _ Hs1) as (e1 & He1). destruct (hooks_steps_history _ _ Hs2) as (e2 & He2).
  assert (Hi1 : Registered i c' d ∈ Hooks.history h1) by (rewrite He1, elem_of_app; auto).
  assert (Hi2 : Registered i c' d ∈ Hooks.history h2) by (rewrite He2, elem_of_app; auto).
  destruct (inv_unique _ _ I2 _ _ _ _ _ Hd' Hi2) as [-> ->].
  apply Hne. assert (registration i (Hooks.history h1) = Some c'); [|congruence].
  eapply registration_steps; [exact Hs2|exact I1|by exists d|exact H2].
Qed.

(** C26. A browser is told that its decision completed only when it really reached the helper: then
    the command asked for a decision of that kind, it is the one decision of a registration of
    the request, taken before its deadline, and a confirmed delivery was reported - for this
    registration, or for one of the same request id made while the command was running. *)
Theorem completed_means_delivered (session_key : option ProtoSessionKey.t) (payload : option CommandPayload.t)
    (handled : bool) (code : option StableErrorCode.t) (w w' : ZWorld.t) (t : list ZObs) :
  hooks_reachable (ZWorld.hooks w) ->
  exec (handle_zcode_command device_id session_key payload) w t handled w' ->
  SentResult ReceiptCompleted code ∈ t ->
  exists id reply c c', native_reply payload id reply /\ decided_reply id c reply (ZWorld.hooks w') /\
    outcomes c' (history w') = [DeliveryOutcome.Delivered] /\
    (c' = c \/ (forall i d, Registered i c' d ∉ history w) /\ registered_in id c' (ZWorld.hooks w')).
Proof.
  intros I%hooks_reachable_inv He Hin. unfold handle_zcode_command in He.
  apply exec_bind in He as (t1 & matched & w1 & t2 & H1 & He & ->). pose proof (exec_hooks _ _ _ _ _ H1) as Hs1.
  apply no_obs in H1; [|unfold matches_command; publishes]. subst t1.
  destruct matched; cbn [negb] in He; [|destruct He as (-> & _); by apply elem_of_nil in Hin].
  apply exec_bind in He as (t3 & resolved & w3 & t4 & H3 & He & ->).
  pose proof (hooks_steps_inv _ _ Hs1 I) as I1. pose proof (exec_hooks _ _ _ _ _ H3) as Hs3.
  assert (Hobs3 : t3 = []).
  { eapply no_obs; [|exact H3]. unfold resolve_command, answer_question, resolve_invoke. publishes. }
  subst t3. change ([] ++ [] ++ t4) with t4 in Hin.
  apply exec_bind in He as (t5 & u5 & w5 & t6 & H5 & He & ->). pose proof (exec_hooks _ _ _ _ _ H5) as Hs5.
  assert (Hin6 : SentResult ReceiptCompleted code ∈ t6).
  { apply elem_of_app in Hin as [Hin|?]; [|done]. clear - H5 Hin. exec_inv. by apply list_elem_of_singleton in Hin. }
  destruct resolved as [[[id reply]|err]|].
  2,3: clear - He Hin6; exec_inv; by apply list_elem_of_singleton in Hin6.
  destruct (resolve_command_spec _ _ _ _ _ _ I1 H3) as (Hnat & c & Hdec & Hreg).
  assert (I5 : hooks_inv (ZWorld.hooks w5)) by (eapply hooks_steps_inv; [exact Hs5|]; by eapply hooks_steps_inv).
  apply exec_bind in He as (t7 & delivery & w7 & t8 & H7 & He & ->).
  pose proof (exec_hooks _ _ _ _ _ H7) as Hs7.
  destruct H7 as (w8 & b & w9 & t9 & Henv & Hst & (-> & <- & ->) & ->).
  destruct (reg_step _ _ _ _ _ Henv Hst) as (Hs8 & Hd & Hw9). symmetry in Hd.
  pose proof (hooks_steps_inv _ _ Hs8 I5) as I8.
  assert (I9 : hooks_inv (ZWorld.hooks w9)) by (rewrite Hw9; by apply perform_reg_inv).
  apply exec_bind in He as (t10 & status & w10 & t11 & H10 & He & ->). pose proof (exec_hooks _ _ _ _ _ H10) as Hs10.
  destruct (await_delivery_spec _ _ _ _ _ I9 H10) as (-> & _ & Hcompl).
  apply exec_bind in He as (t12 & u12 & w12 & t13 & H12 & He & ->). pose proof (exec_hooks _ _ _ _ _ H12) as Hs12.
  destruct He as (-> & -> & ->).
  change (SentResult ReceiptCompleted code ∈ t12 ++ []) in Hin6.
  assert (status = ReceiptCompleted) as ->.
  { clear - H12 Hin6. exec_inv. apply list_elem_of_singleton in Hin6. by injection Hin6. }
  destruct (Hcompl eq_refl) as (c' & -> & Hout). pose proof (hooks_steps_inv _ _ Hs10 I9) as I10.
  assert (Hs : rtc hooks_step (ZWorld.hooks w3) (ZWorld.hooks w12))
    by (etrans; [exact Hs5|etrans; [exact Hs7|etrans; [exact Hs10|exact Hs12]]]).
  pose proof (take_delivery_spec _ _ _ I8 Hd) as Hlast.
  exists id, reply, c, c'. split_and!; [done|eapply decided_stable; [exact Hs|by eapply hooks_steps_inv|done]| |].
  - apply Hout. exact Hs12.
  - assert (Hs13 : rtc hooks_step (ZWorld.hooks w) (ZWorld.hooks w3)) by (etrans; [exact Hs1|exact Hs3]).
    assert (Hs38 : rtc hooks_step (ZWorld.hooks w3) (ZWorld.hooks w8)) by (etrans; [exact Hs5|exact Hs8]).
    destruct (same_or_newer _ _ _ _ _ _ I Hs13 Hs38 Hreg Hlast) as [->|[Hnew Hin8]]; [by left|right].
    split; [done|]. eapply registered_stable; [|exact Hin8].
    etrans; [|exact Hs12]. etrans; [|exact Hs10]. rewrite Hw9. apply rtc_once, step_reg.
Qed.
End Tasks.

(** ** Cards and answers *)

Lemma waiting_cards_elem (h : Hooks.t) (card : WaitingCard.t) :
  hooks_inv h -> card ∈ waiting_cards (Hooks.registry h) ->
  exists r, inner (Hooks.registry h) !! WaitingCard.invoke_id card = Some r /\
    PendingRecord.state r = PendingState.Waiting /\ card = card_of r.
Proof.
  intros I. unfold waiting_cards. intros (r & -> & Hr)%list_elem_of_fmap.
  apply list_elem_of_In, filter_In in Hr as [Hr Hs%bool_decide_eq_true]. apply list_elem_of_In in Hr.
  unfold bt_values in Hr. apply list_elem_of_fmap in Hr as ([id r'] & -> & Hin). apply bt_iter_elem in Hin.
  destruct (inv_latest _ _ I _ _ Hin) as (c & _ & (_ & Hid & _)). simpl in *.
  exists r'. rewrite Hid. done.
Qed.

(** What the browser is shown it can answer with: every option of every question of a session's
    runtime snapshot has an identifier that the registry maps back to exactly the label that was
    shown, for the request the question stands for. *)
Theorem shown_option_answers (h : Hooks.t) (key : SessionKey.t) (sessions : ObservationStore) (revision : Z)
    (q : PendingQuestion.t) (o : QuestionOption.t) :
  hooks_reachable h ->
  q ∈ RuntimeSnapshot.pending_questions
        (runtime_snapshot key sessions (waiting_cards (Hooks.registry h)) revision) ->
  o ∈ PendingQuestion.options q -> zlen (PendingQuestion.options q) <= u64_max ->
  ask_option_label (PendingQuestion.question_id q) (QuestionOption.option_id o) (Hooks.registry h) =
    Some (OutputText.text (QuestionOption.label o)).
Proof.
  intros I%hooks_reachable_inv Hq Ho Hlen. simpl in Hq. unfold filter_map in Hq.
  apply list_elem_of_omap in Hq as (card & Hcard & Hq).
  unfold waiting_for in Hcard. apply list_elem_of_In, filter_In in Hcard as [Hcard _].
  apply list_elem_of_In in Hcard. destruct (waiting_cards_elem _ _ I Hcard) as (r & Hr & _ & ->).
  unfold card_question in Hq. destruct (WaitingCard.kind (card_of r)) eqn:Hk; [done|]. simplify_eq. simpl in *.
  apply list_elem_of_lookup in Ho as (i & Ho). unfold question_options, zlen in *. rewrite length_imap in Hlen.
  rewrite list_lookup_imap in Ho. destruct (PendingRecord.ask_options r !! i) as [label|] eqn:Hi; [|done].
  simpl in Ho. simplify_eq/=. apply lookup_lt_Some in Hi as Hlt.
  unfold ask_option_label. rewrite Hr. cbn [mbind option_bind]. rewrite bool_decide_true by done. cbn [negb].
  rewrite strip_prefix_app. cbn [mbind option_bind]. unfold parse_usize. rewrite parse_u64_pretty by lia.
  cbn [mbind option_bind].
  destruct (Z.eqb_spec (Z.of_N (N.of_nat i + 1)) 0); [lia|].
  by replace (Z.to_nat (Z.of_N (N.of_nat i + 1) - 1)) with i by lia.
Qed.
