(* ===== verification/ZcodeDemo.v ===== *)
(** * The ZCode tasks on concrete inputs: witnesses, and behaviours worth knowing *)

From S2P Require Import Prelude Prog RustStr Domain Pending PendingProps Observe Zcode ZcodeProps.

#[global] Instance hook_json : HookJson string := {|
  value_as_string := Some; value_to_string := Some; parse_ack := Some; parse_invoke := fun _ => None |}.

Definition start : Hooks.t := Hooks.initial 0.
Definition waiting (session : option string) : Hooks.t :=
  (perform_reg (Register "i" InvokeKind.PermissionRequest session (Some "Bash") None None None 500) start).2.
Definition decide_allow : reg (res PendingError.t PendingState.t) := Resolve "i" HookReply.allowed.
Definition decided (session : option string) : Hooks.t := (perform_reg decide_allow (waiting session)).2.

Definition world (h : Hooks.t) : ZWorld.t := ZWorld.mk h ∅ 1.

Lemma waiting_reachable (session : option string) : hooks_reachable (waiting session).
Proof. exists 0. apply rtc_once, step_reg. Qed.

Lemma start_reachable : hooks_reachable start.
Proof. by exists 0. Qed.

Definition invoke (session : option string) : HookInvoke.t string :=
  HookInvoke.mk 1 "zcode" "i" EVENT_PERMISSION_REQUEST session (Some "Bash") None 500 None None None.

(** One operation of a task, with or without other tasks in between. *)
Ltac run_step :=
  eexists _, _, _, _; split; [apply rtc_refl|]; split; [simpl; first [by split|done]|];
  split; [|reflexivity].
Ltac run_step_with b :=
  eexists _, b, _, _; split; [apply rtc_refl|]; split; [simpl; first [by split|done]|];
  split; [|reflexivity].

(** An allowed request: decided while its task waits, written, acknowledged. *)
Lemma await_run :
  exists t w', exec (await_decision "d" (invoke None) InvokeKind.PermissionRequest 0 500) (world (waiting None)) t tt w' /\
    replies_of t = [HookReply.allowed] /\ DidComplete "i" DeliveryOutcome.Delivered true ∈ t /\
    registration "i" (Hooks.history (ZWorld.hooks w')) = Some 0%nat /\
    PendingRecord.state <$> PendingRegistry.inner (Hooks.registry (ZWorld.hooks w')) !! "i" =
      Some PendingState.ReturnedToRuntime.
Proof.
  eexists _, _. split; [|shelve]. run_step.
  eexists (world (decided None)), (DecisionReady (Some HookReply.allowed)), (world (decided None)), _.
  split; [apply rtc_once, env_hooks, (step_reg decide_allow)|].
  split; [split; [done|]; eexists; split; [reflexivity|done]|].
  split; [|reflexivity]. simpl.
  run_step. run_step_with true. run_step_with (Some "i"). run_step. done.
  Unshelve. all: try exact tt. split; [done|]. split; [|by split]. by apply elem_of_cons; right; apply elem_of_cons; right; apply list_elem_of_singleton.
Qed.

Lemma registration_settled_witness :
  exists t w' r, exec (await_decision "d" (invoke None) InvokeKind.PermissionRequest 0 500) (world (waiting None)) t tt w' /\
    PendingRegistry.inner (Hooks.registry (ZWorld.hooks w')) !! "i" = Some r /\
    PendingState.is_terminal (PendingRecord.state r) = true.
Proof.
  destruct await_run as (t & w' & He & _ & _ & Hreg & Hst).
  destruct (PendingRegistry.inner (Hooks.registry (ZWorld.hooks w')) !! "i") as [r|] eqn:Hr; [|discriminate Hst].
  exists t, w', r. split; [exact He|]. split; [exact Hr|].
  refine (registration_settled "d" (invoke None) InvokeKind.PermissionRequest 0 500 (world (waiting None)) w' t tt r
            (waiting_reachable None) _ He Hr Hreg).
  exists 500. apply list_elem_of_singleton. reflexivity.
Defined.

Lemma resolve_decides_once_witness :
  exists c d, registration "i" (Hooks.history (waiting None)) = Some c /\
    Registered "i" c d ∈ Hooks.history (waiting None) /\ Hooks.clock (waiting None) < d /\
    decisions c (Hooks.history (waiting None)) = [] /\
    decisions c (Hooks.history (decided None)) = [(HookReply.allowed, 0)] /\
    (forall ch r, PendingRegistry.replies (Hooks.registry (decided None)) !! c = Some ch ->
       Oneshot.value ch = Some r -> r = HookReply.allowed) /\
    (forall rp s, (perform_reg (Resolve "i" rp) (decided None)).1 = Ok s ->
       registration "i" (Hooks.history (decided None)) <> Some c).
Proof.
  apply (resolve_decides_once (waiting None) (decided None) "i" HookReply.allowed PendingState.Decided
           (waiting_reachable None)); [reflexivity|apply rtc_refl].
Defined.

Lemma handle_run :
  exists t w', exec (handle_pending_invoke "d" (invoke None) InvokeKind.PermissionRequest) (world start) t tt w' /\
    replies_of t = [HookReply.allowed] /\ DidComplete "i" DeliveryOutcome.Delivered true ∈ t.
Proof.
  eexists _, _. split; [|shelve]. run_step. run_step.
  eexists _, (DecisionReady (Some HookReply.allowed)), _, _.
  split; [apply rtc_once, env_hooks, (step_reg decide_allow)|].
  split; [split; [reflexivity|]; eexists; split; [reflexivity|done]|].
  split; [|reflexivity]. simpl.
  run_step. run_step_with true. run_step_with (Some "i"). run_step. done.
  Unshelve. all: try exact tt. split; [done|]. by apply elem_of_cons; right; apply elem_of_cons; right; apply list_elem_of_singleton.
Qed.

Lemma helper_answered_once_witness :
  exists (t : list ZObs) r, replies_of t = [r] /\ DidComplete "i" DeliveryOutcome.Delivered true ∈ t /\ Wrote r true ∈ t.
Proof.
  destruct handle_run as (t & w' & He & _ & Hc).
  destruct (helper_answered_once "d" (invoke None) InvokeKind.PermissionRequest (world start) w' t tt start_reachable He)
    as (r & Hr & _ & Hd).
  exists t, r. split; [exact Hr|]. split; [exact Hc|]. exact (proj1 (Hd true Hc)).
Defined.

(** A browser command that decides and is told that the decision was delivered. *)
Definition proto_key : ProtoSessionKey.t := ProtoSessionKey.mk "d" AGENT_KIND_ZCODE_DESKTOP "s".
Definition allow : CommandPayload.t := CommandPayload.AnswerApproval "i" DECISION_ALLOW.

Lemma command_run :
  exists t w', exec (handle_zcode_command "d" (Some proto_key) (Some allow)) (world (waiting (Some "s"))) t true w' /\
    SentResult ReceiptCompleted None ∈ t.
Proof.
  eexists _, _. split; [|shelve].
  run_step. simpl. run_step. simpl. run_step. run_step. simpl.
  eexists _, (Some DeliveryOutcome.Delivered), _, _.
  split; [apply rtc_once, env_hooks, (step_reg (CompleteDelivery "i" DeliveryOutcome.Delivered))|].
  split; [split; [reflexivity|]; intros o Ho; injection Ho as <-; eexists; split; reflexivity|].
  split; [|reflexivity]. simpl. run_step. run_step. done.
  Unshelve. all: try exact tt. by apply elem_of_cons; right; apply list_elem_of_singleton.
Qed.

Lemma completed_means_delivered_witness :
  exists (t : list ZObs) id reply c w', SentResult ReceiptCompleted None ∈ t /\ native_reply (Some allow) id reply /\
    decided_reply id c reply (ZWorld.hooks w').
Proof.
  destruct command_run as (t & w' & He & Hin).
  destruct (completed_means_delivered "d" (Some proto_key) (Some allow) true None (world (waiting (Some "s"))) w' t
              (waiting_reachable (Some "s")) He Hin) as (id & reply & c & c' & Hn & Hd & _).
  exists t, id, reply, c, w'. split; [exact Hin|]. split; [exact Hn|exact Hd].
Defined.

(** A question with two options, as the browser sees it. *)
Definition asking : Hooks.t :=
  (perform_reg (Register "q" InvokeKind.AskUser None None None
     (Some (AskRequest.mk "go on?" ["yes"; "no"] true None)) None 500) start).2.

Lemma asking_reachable : hooks_reachable asking.
Proof. exists 0. apply rtc_once, step_reg. Qed.

Definition shown : list PendingQuestion.t :=
  RuntimeSnapshot.pending_questions
    (runtime_snapshot (ask_session_key "d") ∅ (waiting_cards (Hooks.registry asking)) 1).

Lemma shown_option_answers_witness :
  exists q o, q ∈ shown /\ o ∈ PendingQuestion.options q /\ QuestionOption.option_id o = "option-2" /\
    ask_option_label (PendingQuestion.question_id q) "option-2" (Hooks.registry asking) = Some "no".
Proof.
  set (q := question_of "q" "go on?" ["yes"; "no"] true None).
  set (o := QuestionOption.mk "option-2" (OutputText.mk "no")).
  assert (Hq : q ∈ shown) by (replace shown with [q] by (vm_compute; reflexivity); apply list_elem_of_singleton; reflexivity).
  assert (Ho : o ∈ PendingQuestion.options q)
    by (replace (PendingQuestion.options q) with [QuestionOption.mk "option-1" (OutputText.mk "yes"); o]
          by (vm_compute; reflexivity); apply elem_of_cons; right; apply list_elem_of_singleton; reflexivity).
  exists q, o. split; [exact Hq|]. split; [exact Ho|]. split; [reflexivity|].
  apply (shown_option_answers asking (ask_session_key "d") ∅ 1 q o asking_reachable Hq Ho).
  vm_compute. discriminate.
Defined.

(** ** Behaviours worth knowing *)

(** A late decision marks the record expired; when the helper then goes away before its timer
    fires, nobody withdraws the card: the browser keeps a question nobody waits for, and the
    session stays marked as waiting for an approval. *)
Definition session_seen : ZWorld.t :=
  ZWorld.mk start {["s" := ZcodeSessionMeta.mk true true true false None false]} 1.

Lemma late_decision_leaves_card :
  exists t w', exec (handle_pending_invoke "d" (invoke (Some "s")) InvokeKind.PermissionRequest) session_seen t tt w' /\
    (exists key attention, Published key (DomainEvent.PendingAttentionAdded attention) ∈ t) /\
    (forall key kind id turn, Published key (DomainEvent.PendingAttentionRemoved kind id turn) ∉ t) /\
    ZcodeSessionMeta.awaiting_approval <$> ZWorld.sessions w' !! "s" = Some true /\
    waiting_cards (Hooks.registry (ZWorld.hooks w')) = [].
Proof.
  eexists _, _. split; [|shelve]. run_step. simpl. run_step_with 7. simpl. run_step. run_step. run_step.
  run_step_with 7. run_step. run_step. run_step. simpl. run_step.
  eexists _, EventReady, _, _.
  split.
  { eapply rtc_l; [apply env_hooks, (step_clock 500); vm_compute; discriminate|].
    apply rtc_once, env_hooks, (step_reg decide_allow). }
  split; [done|]. split; [|reflexivity]. simpl. run_step. run_step. simpl. run_step. simpl. run_step_with true. done.
  Unshelve. all: try exact tt. split; [|split; [|split]].
  - do 2 eexists. by apply list_elem_of_here.
  - intros key kind id turn. simpl. rewrite !elem_of_cons, elem_of_nil. naive_solver.
  - done.
  - by vm_compute.
Qed.

(** The start of a tool is recorded as a tool that completed. *)
Lemma pre_tool_use_counts_as_success (tool use : option string) (m : ZcodeSessionMeta.t) :
  map_status_event (V := string) (HookInvoke.mk 1 "zcode" "i" EVENT_STATUS (Some "s") tool use 0 None None (Some "PreToolUse")) =
    Some (HookStatusEvent.ToolEvent tool use false) /\
  ZcodeSessionMeta.last_tool_ok (apply_event (HookStatusEvent.ToolEvent tool use false) m) = Some true.
Proof. by destruct m. Qed.
