(* ===== verification/Helper.v ===== *)
(** * The processes of ZCode: the hook helper and the MCP server ([zcode/helper.rs], [zcode/mcp.rs], the rest of [zcode/contract.rs])

    The other end of the socket of [Zcode].  [run_hook] reads one hook input, asks the Bridge and prints a decision;
    [serve] answers JSON-RPC lines and asks the Bridge in tasks of their own.  Standard input and output, the socket and
    its timers answer from the environment.  A string is its bytes; a line that is not UTF-8 is an error of the read. *)

From S2P Require Import Prelude Prog Bytes RustStr Pending Observe Zcode Json.

(** What the code takes from [serde_json]: parsing and printing of values, integers, and the derived conversions of the two
    messages and of the arguments of a call. *)
Class HelperJson (V : Type) `{SerdeJson V} := {
  json_from_str : string -> option V;
  json_to_string : V -> string;
  json_int : Z -> V;
  reply_from_str : string -> option HookReply.t;
  ask_from_value : V -> option (string * option (list string) * option bool);
}.

(** ** The rest of the contract *)

Definition STATUS_WAIT_MS : Z := 5000.

Module NativeHookInput.
Record t {V : Type} := mk {
  hook_event_name : string;
  session_id : option string;
  tool_name : option string;
  tool_input : option V;
  tool_use_id : option string;
  cwd : option string;
}.
Arguments t : clear implicits.
Arguments mk {V}.
End NativeHookInput.

Module ParseError.
Inductive t :=
| Empty
| NotObject
| Io
| MissingEventName
| Oversize (size : Z).
End ParseError.

Module HelperConfig.
Record t := mk {
  socket_path : string;
  wait_ms : Z;
}.
End HelperConfig.

Definition slen (s : string) : Z := Z.of_nat (String.length s).

Definition line_feed : Ascii.ascii := byte_char 10.

(** A string literal of JSON. *)
Definition quoted (s : string) : string := String (byte_char 34) (s +:+ String (byte_char 34) "").

Definition allow_decision_json : string :=
  "{" +:+ quoted "hookSpecificOutput" +:+ ":{" +:+ quoted "hookEventName" +:+ ":" +:+ quoted "PermissionRequest" +:+ "," +:+ quoted "decision" +:+ ":{" +:+
  quoted "behavior" +:+ ":" +:+ quoted "allow" +:+ "}}}".

Definition helper_wait (config : HelperConfig.t) : Z := clamp_wait_ms (HelperConfig.wait_ms config).

(** One invoke, up to the answer; [None]: the socket cannot be reached, the invoke is not sent in time, or the answer
    does not arrive. *)
Inductive hop (V : Type) : Type -> Type :=
| ReadStdin : hop V (option string)
| NewInvokeId : hop V string
| Exchange (invoke : HookInvoke.t V) (wait : Z) : hop V (option string)
| PrintLine (line : string) : hop V bool
| SendAck (invoke_id line : string) : hop V bool.
Arguments ReadStdin {V}.
Arguments NewInvokeId {V}.
Arguments Exchange {V} _ _.
Arguments PrintLine {V} _.
Arguments SendAck {V} _ _.

Section Helper.
Context {V : Type} `{HelperJson V}.
Notation Invoke := (HookInvoke.t V).
Notation hprog := (prog (hop V)).

Definition is_null (v : V) : bool := match view v with JNull => true | _ => false end.

Definition field (value : V) (snake camel : string) : option V :=
  match get snake value with
  | Some v => if is_null v then (match get camel value with Some v => if is_null v then None else Some v | None => None end) else Some v
  | None => match get camel value with Some v => if is_null v then None else Some v | None => None end
  end.

Definition string_field (value : V) (snake camel : string) : option string :=
  s ← field value snake camel ≫= as_str; if bool_decide (s = "") then None else Some s.

Definition parse_native_input (line : string) : res ParseError.t (NativeHookInput.t V) :=
  if MAX_FRAME_BYTES <? slen line then Err (ParseError.Oversize (slen line))
  else
    let trimmed := trim line in
    if bool_decide (trimmed = "") then Err ParseError.Empty
    else
      let? value := ok_or ParseError.NotObject (json_from_str trimmed) in
      let? _ := ok_or ParseError.NotObject (as_object value) in
      let? hook_event_name := ok_or ParseError.MissingEventName (string_field value "hook_event_name" "hookEventName") in
      Ok (NativeHookInput.mk hook_event_name (string_field value "session_id" "sessionId") (string_field value "tool_name" "toolName")
            (field value "tool_input" "toolInput") (string_field value "tool_use_id" "toolUseId") (string_field value "cwd" "cwd")).

Definition deny_decision_json (message : string) : string :=
  json_to_string (json_object [("hookSpecificOutput", json_object [("hookEventName", json_string "PermissionRequest");
    ("decision", json_object (("behavior", json_string "deny") :: (if bool_decide (message = "") then [] else [("message", json_string message)])))])]).

Definition delivery_ack_json (invoke_id : string) : string := json_to_string (json_object [("ack", json_string invoke_id)]).

(** ** The helper *)

Definition finish_line (buf : string) : res ParseError.t string :=
  if MAX_FRAME_BYTES <? slen buf then Err (ParseError.Oversize (slen buf))
  else if utf8_valid (String.list_byte_of_string buf) then Ok buf else Err ParseError.NotObject.

(** [read_stdin_line]; an empty chunk is the end of the input.  [None]: the fuel is used up. *)
Fixpoint read_line (fuel : nat) (buf : string) : hprog (option (res ParseError.t string)) :=
  match fuel with
  | O => Ret None
  | S fuel =>
      do chunk <- act ReadStdin;
      match chunk with
      | None => Ret (Some (Err ParseError.Io))
      | Some chunk =>
          if bool_decide (chunk = "") then Ret (Some (finish_line buf))
          else match split_once line_feed chunk with
               | Some (head, _) => Ret (Some (finish_line (buf +:+ head)))
               | None =>
                   let buf := buf +:+ chunk in
                   if MAX_FRAME_BYTES <? slen buf then Ret (Some (Err (ParseError.Oversize (slen buf)))) else read_line fuel buf
               end
      end
  end.

Definition plain_invoke (invoke_id event : string) (wait : Z) : Invoke :=
  HookInvoke.mk CONTRACT_VERSION "zcode" invoke_id event None None None wait None None None.

Definition permission_invoke (native : NativeHookInput.t V) (config : HelperConfig.t) (invoke_id : string) : Invoke :=
  HookInvoke.mk CONTRACT_VERSION "zcode" invoke_id EVENT_PERMISSION_REQUEST (NativeHookInput.session_id native) (NativeHookInput.tool_name native)
    (NativeHookInput.tool_use_id native) (HelperConfig.wait_ms config) (NativeHookInput.tool_input native) None None.

(** [status_invoke_from_line]. *)
Definition status_invoke (native : NativeHookInput.t V) (invoke_id : string) : Invoke :=
  HookInvoke.mk CONTRACT_VERSION "zcode" invoke_id EVENT_STATUS (NativeHookInput.session_id native) (NativeHookInput.tool_name native)
    (NativeHookInput.tool_use_id native) STATUS_WAIT_MS (NativeHookInput.tool_input native) None (Some (NativeHookInput.hook_event_name native)).

(** The line of an answer, read. *)
Definition read_reply (line : string) : option HookReply.t := if bool_decide (trim line = "") then None else reply_from_str (trim line).

Definition invoke_once_with_ack (invoke : Invoke) (wait : Z) : hprog (option HookReply.t) :=
  do line <- act (Exchange invoke wait);
  Ret match line with Some line => read_reply line | None => None end.

Definition acknowledge (invoke_id : string) : hprog bool := act (SendAck invoke_id (delivery_ack_json invoke_id)).

Definition DEFAULT_DENIAL : string := "User declined this action in Agent Console".

(** What is printed for a reply. *)
Definition decision_line (reply : HookReply.t) : option string :=
  if bool_decide (HookReply.status reply = STATUS_ALLOWED) then Some allow_decision_json
  else if bool_decide (HookReply.status reply = STATUS_DENIED) then Some (deny_decision_json (default DEFAULT_DENIAL (HookReply.message reply)))
  else None.

Definition decide_permission (config : HelperConfig.t) (native : NativeHookInput.t V) : hprog unit :=
  do id <- act NewInvokeId;
  let invoke := permission_invoke native config id in
  do reply <- invoke_once_with_ack invoke (helper_wait config);
  match reply with
  | None => Ret tt
  | Some reply =>
      do written <- match decision_line reply with Some line => act (PrintLine line) | None => Ret true end;
      if negb written then Ret tt else perform acknowledge id; Ret tt
  end.

Definition STATUS_EVENTS : list string := ["SessionStart"; "UserPromptSubmit"; "PreToolUse"; "PostToolUse"; "PostToolUseFailure"; "Stop"].

(** The exit code. *)
Definition run_hook (fuel : nat) (config : HelperConfig.t) : hprog (option Z) :=
  do line <- read_line fuel "";
  match line with
  | None => Ret None
  | Some (Err _) => Ret (Some 0)
  | Some (Ok line) =>
      match parse_native_input line with
      | Err _ => Ret (Some 0)
      | Ok native =>
          if bool_decide (NativeHookInput.hook_event_name native = "PermissionRequest") then
            perform decide_permission config native; Ret (Some 0)
          else if bool_decide (NativeHookInput.hook_event_name native ∈ STATUS_EVENTS) then
            do id <- act NewInvokeId;
            perform invoke_once_with_ack (status_invoke native id) STATUS_WAIT_MS;
            Ret (Some 0)
          else Ret (Some 0)
      end
  end.
End Helper.

(** ** The MCP server *)

Definition MCP_PROTOCOL_VERSION : string := "2024-11-05".
Definition ASK_USER_TOOL : string := "agent_console.ask_user".
Definition MCP_MAX_LINE : Z := MAX_FRAME_BYTES.

(** What the loop finds ready: a line, the end of the input, an error of it, or a finished call with its id, its
    result and the invoke to acknowledge. *)
Inductive McpEvent (V : Type) :=
| McpLine (line : string)
| McpEof
| McpReadError
| McpDone (id value : V) (ack : option string).
Arguments McpLine {V} _.
Arguments McpEof {V}.
Arguments McpReadError {V}.
Arguments McpDone {V} _ _ _.

Inductive mop (V : Type) : Type -> Type :=
| McpNext : mop V (McpEvent V)
| McpId : mop V string
| McpWrite (message : V) : mop V bool
| McpSpawn (id : V) (invoke : HookInvoke.t V) : mop V unit
| McpCancel (cancel : HookInvoke.t V) : mop V unit
| McpAck (invoke_id line : string) : mop V bool.
Arguments McpNext {V}.
Arguments McpId {V}.
Arguments McpWrite {V} _.
Arguments McpSpawn {V} _ _.
Arguments McpCancel {V} _.
Arguments McpAck {V} _ _.

(** The calls in flight by the key of their id, and the keys that were cancelled. *)
Module McpState.
Record t := mk {
  in_flight : gmap string string;
  cancelled : gset string;
}.
End McpState.

Section Mcp.
Context {V : Type} `{HelperJson V}.
Notation Invoke := (HookInvoke.t V).
Notation mprog := (prog (mop V)).
(** [CARGO_PKG_VERSION]. *)
Variable package_version : string.
Variable config : HelperConfig.t.

Definition rpc_id_key (id : V) : string := json_to_string id.

Definition rpc_result (id result : V) : V := json_object [("jsonrpc", json_string "2.0"); ("id", id); ("result", result)].

Definition rpc_error (id : V) (code : Z) (message : string) : V :=
  json_object [("jsonrpc", json_string "2.0"); ("id", id); ("error", json_object [("code", json_int code); ("message", json_string message)])].

Definition json_bool (b : bool) : V := build (JBool b).

Definition ASK_DESCRIPTION : string := "Ask the Agent Console user a question with limited options; returns answered/cancelled/expired.".

Definition tools_listing : V :=
  json_object [("tools", json_array [json_object [("name", json_string ASK_USER_TOOL); ("description", json_string ASK_DESCRIPTION);
    ("inputSchema", json_object [("type", json_string "object");
      ("properties", json_object [
        ("question", json_object [("type", json_string "string"); ("maxLength", json_int AskRequest.MAX_QUESTION_CHARS)]);
        ("options", json_object [("type", json_string "array"); ("maxItems", json_int AskRequest.MAX_OPTIONS);
           ("items", json_object [("type", json_string "string"); ("maxLength", json_int AskRequest.MAX_OPTION_CHARS)])]);
        ("allow_free_text", json_object [("type", json_string "boolean"); ("default", json_bool true)])]);
      ("required", json_array [json_string "question"])])]])].

Definition initialize_result (message : V) : V :=
  json_object [("protocolVersion", json_string (default MCP_PROTOCOL_VERSION (pointer ["params"; "protocolVersion"] message ≫= as_str)));
    ("capabilities", json_object [("tools", json_object [("listChanged", json_bool false)])]);
    ("serverInfo", json_object [("name", json_string "agent-console-bridge"); ("version", json_string package_version)])].

Definition message_id (message : V) : V := default json_null (get "id" message).

(** The request a call makes, or the answer that refuses it. *)
Definition ask_request (message : V) : res V AskRequest.t :=
  let id := message_id message in
  match pointer ["params"; "arguments"] message with
  | None => Err (rpc_error id (-32602) "tools/call requires params.arguments")
  | Some arguments =>
      match ask_from_value arguments with
      | None => Err (rpc_error id (-32602) "invalid arguments for agent_console.ask_user")
      | Some (question, options, allow_free_text) =>
          let ask := AskRequest.mk question (default [] options) (default true allow_free_text) (Some (json_to_string id)) in
          match AskRequest.validate ask with
          | Err reason => Err (rpc_error id (-32602) ("invalid ask: " +:+ reason))
          | Ok _ => Ok ask
          end
      end
  end.

Definition ask_invoke (invoke_id : string) (ask : AskRequest.t) : Invoke :=
  HookInvoke.mk CONTRACT_VERSION "zcode" invoke_id EVENT_ASK_USER None None None (HelperConfig.wait_ms config) None (Some ask) None.

Definition build_ask_invoke (message : V) : mprog (res V Invoke) :=
  match ask_request message with
  | Err response => Ret (Err response)
  | Ok ask => do id <- act McpId; Ret (Ok (ask_invoke id ask))
  end.

Definition tool_text_with (is_error : bool) (text : string) : V :=
  json_object [("content", json_array [json_object [("type", json_string "text"); ("text", json_string text)]]); ("isError", json_bool is_error)].
Definition tool_text : string -> V := tool_text_with false.
Definition tool_error : string -> V := tool_text_with true.

Definition json_option (s : option string) : V := match s with Some s => json_string s | None => json_null end.

(** The end of [await_ask]: what the exchange with the Bridge gave. *)
Definition ask_result (invoke_id : string) (answer : res string HookReply.t) : V * option string :=
  match answer with
  | Err err => (tool_error err, None)
  | Ok reply =>
      let status := HookReply.status reply in
      (if bool_decide (status = STATUS_ANSWERED) then
         tool_text (json_to_string (json_object [("status", json_string "answered"); ("option", json_option (HookReply.option_ reply)); ("text", json_option (HookReply.text reply))]))
       else if bool_decide (status = STATUS_CANCELLED) then tool_text (json_to_string (json_object [("status", json_string "cancelled")]))
       else if bool_decide (status = STATUS_EXPIRED) then tool_text (json_to_string (json_object [("status", json_string "expired")]))
       else tool_error ("ask failed: " +:+ status), Some invoke_id)
  end.

Definition write_then (message : V) (st : McpState.t) : mprog (option McpState.t) :=
  do ok <- act (McpWrite message);
  Ret (if ok : bool then Some st else None).

Definition on_call (id message : V) (st : McpState.t) : mprog (option McpState.t) :=
  do built <- build_ask_invoke message;
  match built with
  | Ok invoke =>
      perform act (McpSpawn id invoke);
      Ret (Some (McpState.mk (<[rpc_id_key id := HookInvoke.invoke_id invoke]> (McpState.in_flight st)) (McpState.cancelled st)))
  | Err response => write_then response st
  end.

(** What [cancel_invoke] sends over a connection of its own. *)
Definition cancel_invoke (invoke_id : string) : Invoke := plain_invoke invoke_id EVENT_CANCEL MIN_REMOTE_WAIT_MS.

Definition on_cancelled (message : V) (st : McpState.t) : mprog (option McpState.t) :=
  match pointer ["params"; "requestId"] message with
  | None => Ret (Some st)
  | Some request_id =>
      if is_null request_id then Ret (Some st)
      else
        let key := rpc_id_key request_id in
        perform match McpState.in_flight st !! key with Some invoke_id => act (McpCancel (cancel_invoke invoke_id)) | None => Ret tt end;
        Ret (Some (McpState.mk (McpState.in_flight st) ({[key]} ∪ McpState.cancelled st)))
  end.

(** One message; [None]: the output failed, which ends the server. *)
Definition on_message (message : V) (st : McpState.t) : mprog (option McpState.t) :=
  let method := default "" (get "method" message ≫= as_str) in
  let id := message_id message in
  let has_id := negb (is_null id) in
  let called name := bool_decide (method = name) in
  if called "initialize" && has_id then write_then (rpc_result id (initialize_result message)) st
  else if called "ping" && has_id then write_then (rpc_result id (json_object [])) st
  else if called "tools/list" && has_id then write_then (rpc_result id tools_listing) st
  else if called "tools/call" && has_id then on_call id message st
  else if called "notifications/cancelled" && negb has_id then on_cancelled message st
  else if has_id then write_then (rpc_error id (-32601) ("method not found: " +:+ method)) st
  else Ret (Some st).

Definition on_line (line : string) (st : McpState.t) : mprog (option McpState.t) :=
  if MCP_MAX_LINE <? slen line then Ret (Some st)
  else
    let trimmed := trim line in
    if bool_decide (trimmed = "") then Ret (Some st)
    else match json_from_str trimmed with
         | None => write_then (rpc_error json_null (-32700) "parse error") st
         | Some message => on_message message st
         end.

Definition on_done (id value : V) (ack : option string) (st : McpState.t) : mprog (option McpState.t) :=
  let key := rpc_id_key id in
  let in_flight := delete key (McpState.in_flight st) in
  if bool_decide (key ∈ McpState.cancelled st) then Ret (Some (McpState.mk in_flight (McpState.cancelled st ∖ {[key]})))
  else
    do ok <- act (McpWrite (rpc_result id value));
    if negb ok then Ret None
    else
      perform match ack with Some invoke_id => act (McpAck invoke_id (delivery_ack_json invoke_id)) | None => Ret true end;
      Ret (Some (McpState.mk in_flight (McpState.cancelled st))).

(** The loop of [serve]: whether it ended without an error; [None]: the fuel is used up. *)
Fixpoint serve_loop (fuel : nat) (st : McpState.t) : mprog (option bool) :=
  match fuel with
  | O => Ret None
  | S fuel =>
      do event <- act McpNext;
      match event with
      | McpEof => Ret (Some true)
      | McpReadError => Ret (Some false)
      | McpLine line =>
          do next <- on_line line st;
          match next with Some st => serve_loop fuel st | None => Ret (Some false) end
      | McpDone id value ack =>
          do next <- on_done id value ack st;
          match next with Some st => serve_loop fuel st | None => Ret (Some false) end
      end
  end.

Definition serve (fuel : nat) : mprog (option bool) := serve_loop fuel (McpState.mk ∅ ∅).
End Mcp.

(** ** What the helper prints *)

Section HelperProps.
Context {V : Type} `{HelperJson V}.
Notation Invoke := (HookInvoke.t V).
Notation hprog := (prog (hop V)).

Inductive HObs :=
| Asked (invoke : Invoke) (reply : option HookReply.t)
| Printed (line : string) (ok : bool)
| Acked (invoke_id line : string) (ok : bool).

Definition hobs (B : Type) (o : hop V B) : B -> list HObs :=
  match o in hop _ B return B -> list HObs with
  | Exchange invoke _ => fun line => [Asked invoke (line ≫= read_reply)]
  | PrintLine line => fun ok => [Printed line ok]
  | SendAck invoke_id line => fun ok => [Acked invoke_id line ok]
  | _ => fun _ => []
  end.

(** Anything may be answered; nothing panics. *)
Definition hstep (B : Type) (o : hop V B) (w : unit) (b : option B) (w' : unit) : Prop := b <> None.

Notation hexec := (texec (fun _ _ : unit => True) hstep hobs).

(** An object as compact text, of keys and the texts of their values. *)
Definition object_text (fields : list (string * string)) : string :=
  "{" +:+ String.concat "," (map (fun '(key, value) => quoted key +:+ ":" +:+ value) fields) +:+ "}".

(** The decisions of the hook protocol: what is printed for a reply of the Bridge that allows or denies. *)
Inductive decided (reply : HookReply.t) : string -> Prop :=
| decided_allow :
    HookReply.status reply = "allowed" ->
    decided reply (object_text [("hookSpecificOutput", object_text [("hookEventName", quoted "PermissionRequest"); ("decision", object_text [("behavior", quoted "allow")])])])
| decided_deny message :
    HookReply.status reply = "denied" -> message <> "" ->
    HookReply.message reply = Some message \/ HookReply.message reply = None /\ message = "User declined this action in Agent Console" ->
    decided reply (json_to_string (json_object [("hookSpecificOutput", json_object [("hookEventName", json_string "PermissionRequest");
      ("decision", json_object [("behavior", json_string "deny"); ("message", json_string message)])])]))
| decided_deny_silent :
    HookReply.status reply = "denied" -> HookReply.message reply = Some "" ->
    decided reply (json_to_string (json_object [("hookSpecificOutput", json_object [("hookEventName", json_string "PermissionRequest");
      ("decision", json_object [("behavior", json_string "deny")])])])).

(** The line that confirms the delivery of a decision. *)
Definition ack_text (invoke_id : string) : string := json_to_string (json_object [("ack", json_string invoke_id)]).

(** The runs of a hook. *)
Inductive hook_run : list HObs -> Prop :=
| hook_silent : hook_run []
| hook_status invoke reply : HookInvoke.event invoke = "status" -> hook_run [Asked invoke reply]
| hook_unanswered invoke : HookInvoke.event invoke = "permission_request" -> hook_run [Asked invoke None]
| hook_no_decision invoke reply ok :
    HookInvoke.event invoke = "permission_request" -> HookReply.status reply <> "allowed" -> HookReply.status reply <> "denied" ->
    hook_run [Asked invoke (Some reply); Acked (HookInvoke.invoke_id invoke) (ack_text (HookInvoke.invoke_id invoke)) ok]
| hook_unprinted invoke reply line :
    HookInvoke.event invoke = "permission_request" -> decided reply line -> hook_run [Asked invoke (Some reply); Printed line false]
| hook_decided invoke reply line ok :
    HookInvoke.event invoke = "permission_request" -> decided reply line ->
    hook_run [Asked invoke (Some reply); Printed line true; Acked (HookInvoke.invoke_id invoke) (ack_text (HookInvoke.invoke_id invoke)) ok].

Lemma hstep_next {A B} (o : hop V B) (k : B -> hprog A) (t : list HObs) (a : option A) :
  hexec (Act o k) tt t a tt -> exists b t', hexec (k b) tt t' a tt /\ t = hobs B o b ++ t'.
Proof.
  intros (w & [b|] & w' & _ & St & X); [|by destruct St]. destruct w'. destruct X as (t' & X & ->). by exists b, t'.
Qed.

Ltac hook_next H := let b := fresh "b" in let t' := fresh "t" in
  cbn [prog_bind act invoke_once_with_ack acknowledge] in H; apply hstep_next in H as (b & t' & H & ->); cbn [hobs app] in *.

Lemma decision_line_decides (reply : HookReply.t) :
  match decision_line reply with
  | Some line => decided reply line
  | None => HookReply.status reply <> "allowed" /\ HookReply.status reply <> "denied"
  end.
Proof.
  unfold decision_line, deny_decision_json. repeat case_bool_decide; try done.
  - by apply decided_allow.
  - apply decided_deny_silent; [done|]. destruct (HookReply.message reply); simpl in *; [by f_equal|done].
  - apply decided_deny; [done..|]. destruct (HookReply.message reply); [by left|by right].
Qed.

Lemma decide_run (config : HelperConfig.t) (native : NativeHookInput.t V) (t : list HObs) (a : option unit) :
  hexec (decide_permission config native) tt t a tt -> a = Some tt /\ hook_run t.
Proof.
  intros X. unfold decide_permission in X. hook_next X. hook_next X. set (invoke := permission_invoke native config b) in *.
  assert (E : HookInvoke.event invoke = EVENT_PERMISSION_REQUEST) by done. change b with (HookInvoke.invoke_id invoke) in X. clearbody invoke.
  destruct b0 as [line|]; cbn [mbind option_bind]; [|destruct X as (-> & -> & _); split; [done|by constructor]].
  destruct (read_reply line) as [reply|]; [|destruct X as (-> & -> & _); split; [done|by constructor]].
  pose proof (decision_line_decides reply) as D. destruct (decision_line reply) as [printed|].
  - hook_next X. destruct b0; cbn [negb] in X; [|destruct X as (-> & -> & _); split; [done|by constructor]].
    hook_next X. destruct X as (-> & -> & _). split; [done|by constructor].
  - cbn [prog_bind negb] in X. hook_next X. destruct X as (-> & -> & _). destruct D. split; [done|by constructor].
Qed.

Lemma slen_app (a b : string) : slen (a +:+ b) = slen a + slen b.
Proof. unfold slen. induction a as [|c a IH]; [done|]. change (String c a +:+ b) with (String c (a +:+ b)). cbn [String.length]. lia. Qed.

Lemma slen_positive (a : string) : a <> "" -> 1 <= slen a.
Proof. unfold slen. destruct a; [done|]. simpl. lia. Qed.

(** Reading is silent, and with a byte of fuel for every byte of the limit (and one more) it comes to an end. *)
Lemma read_line_run {A} (fuel : nat) (buf : string) (k : option (res ParseError.t string) -> hprog A) (t : list HObs) (a : option A) :
  hexec (prog_bind (read_line fuel buf) k) tt t a tt ->
  exists r, hexec (k r) tt t a tt /\ (slen buf <= MAX_FRAME_BYTES < Z.of_nat fuel + slen buf -> is_Some r).
Proof.
  revert buf t. induction fuel as [|fuel IH]; intros buf t X; cbn [read_line] in X.
  { exists None. split; [exact X|]. lia. }
  hook_next X. destruct b as [chunk|]; [|eexists; split; [exact X|done]].
  case_bool_decide as E; [eexists; split; [exact X|done]|]. destruct (split_once line_feed chunk) as [[head rest]|]; [eexists; split; [exact X|done]|].
  destruct (Z.ltb_spec MAX_FRAME_BYTES (slen (buf +:+ chunk))) as [L|L]; [eexists; split; [exact X|done]|].
  apply IH in X as (r & X & R). exists r. split; [exact X|]. intros F. apply R. apply slen_positive in E. rewrite slen_app in *. lia.
Qed.

(** C28. The helper always ends with exit code 0 and decides nothing itself.  Whatever arrives, it prints at most one line, and only after the
    Bridge answered its own permission request: the JSON with behavior "allow" when the status is "allowed", the JSON with behavior "deny" and the message of the reply (or the standard one; none when the message is
    empty) when it is "denied", and nothing for any other status or no answer.  It acknowledges the id of its request after printing a decision (or after an answer that is none), and
    not when printing failed. *)
Theorem hook_prints_decision (fuel : nat) (config : HelperConfig.t) (t : list HObs) (a : option (option Z)) :
  MAX_FRAME_BYTES < Z.of_nat fuel -> hexec (run_hook fuel config) tt t a tt -> a = Some (Some 0) /\ hook_run t.
Proof.
  intros F X. unfold run_hook in X. apply read_line_run in X as (line & X & R). destruct line as [line|].
  2: { destruct R as [? [=]]. split; [by vm_compute|]. unfold slen. simpl. lia. }
  destruct line as [line|e]; [|destruct X as (-> & -> & _); split; [done|constructor]].
  destruct (parse_native_input line) as [native|e]; [|destruct X as (-> & -> & _); split; [done|constructor]].
  case_bool_decide.
  - apply texec_bind in X as [[X ->]|(t1 & [] & [] & t2 & X1 & X & ->)]; [by apply decide_run in X as [? _]|].
    apply decide_run in X1 as [_ X1]. destruct X as (-> & -> & _). by rewrite app_nil_r.
  - case_bool_decide; [|destruct X as (-> & -> & _); split; [done|constructor]].
    hook_next X. hook_next X. destruct X as (-> & -> & _). split; [done|by constructor].
Qed.
End HelperProps.

(** ** What the MCP server answers *)

Section McpProps.
Context {V : Type} `{HelperJson V}.
Variable package_version : string.
Variable config : HelperConfig.t.
Notation Invoke := (HookInvoke.t V).
Notation mprog := (prog (mop V)).

Inductive MObs :=
| Heard (line : string)
| Ended
| Finished (id value : V) (ack : option string)
| Replied (message : V) (ok : bool)
| Spawned (id : V) (invoke : Invoke)
| CancelSent (cancel : Invoke)
| Confirmed (invoke_id line : string) (ok : bool).

Definition mobs (B : Type) (o : mop V B) : B -> list MObs :=
  match o in mop _ B return B -> list MObs with
  | McpNext => fun event => [match event with McpLine line => Heard line | McpEof | McpReadError => Ended | McpDone id value ack => Finished id value ack end]
  | McpId => fun _ => []
  | McpWrite message => fun ok => [Replied message ok]
  | McpSpawn id invoke => fun _ => [Spawned id invoke]
  | McpCancel cancel => fun _ => [CancelSent cancel]
  | McpAck invoke_id line => fun ok => [Confirmed invoke_id line ok]
  end.

(** The state is the tasks that run: a finished call is one of them, with a result its exchange can have. *)
Definition mstep (B : Type) (o : mop V B) (w : list (V * Invoke)) : option B -> list (V * Invoke) -> Prop :=
  match o in mop _ B return option B -> list (V * Invoke) -> Prop with
  | McpNext => fun b w' =>
      match b with
      | Some (McpDone id value ack) =>
          exists l1 invoke l2 answer, w = l1 ++ (id, invoke) :: l2 /\ (value, ack) = ask_result (HookInvoke.invoke_id invoke) answer /\ w' = l1 ++ l2
      | Some _ => w' = w
      | None => False
      end
  | McpSpawn id invoke => fun b w' => b <> None /\ w' = (id, invoke) :: w
  | _ => fun b w' => b <> None /\ w' = w
  end.

Notation mexec := (texec (fun _ _ : list (V * Invoke) => False) mstep mobs).

Definition spawned : list MObs -> list (V * Invoke) := omap (fun o => match o with Spawned id invoke => Some (id, invoke) | _ => None end).
Definition finished : list MObs -> list V := omap (fun o => match o with Finished id _ _ => Some id | _ => None end).

(** The key a line cancels. *)
Definition cancel_key (line : string) : option string :=
  if MCP_MAX_LINE <? slen line then None
  else
    message ← json_from_str (trim line);
    if bool_decide (trim line = "") then None
    else if bool_decide (default "" (get "method" message ≫= as_str) = "notifications/cancelled") && is_null (message_id message) then
      request_id ← pointer ["params"; "requestId"] message; if is_null request_id then None else Some (rpc_id_key request_id)
    else None.

(** The keys that count as cancelled after these observations. *)
Definition cancel_step (c : gset string) (o : MObs) : gset string :=
  match o with
  | Heard line => match cancel_key line with Some key => {[key]} ∪ c | None => c end
  | Finished id _ _ => c ∖ {[rpc_id_key id]}
  | _ => c
  end.
Definition cancelled_after (t : list MObs) : gset string := fold_left cancel_step t ∅.

Definition is_ack (o : MObs) : bool := match o with Confirmed _ _ _ => true | _ => false end.
Definition is_event (o : MObs) : bool := match o with Heard _ | Ended | Finished _ _ _ => true | _ => false end.
Definition lost (o : MObs) : bool := match o with Replied _ ok => negb ok | _ => false end.

(** The two kinds of answer of JSON-RPC. *)
Definition response_of (id result : V) : V := json_object [("jsonrpc", json_string "2.0"); ("id", id); ("result", result)].
Definition error_of (id : V) (code : Z) (message : string) : V :=
  json_object [("jsonrpc", json_string "2.0"); ("id", id); ("error", json_object [("code", json_int code); ("message", json_string message)])].

(** A line that is a message: within the limit, not blank, JSON. *)
Definition says (line : string) (message : V) : Prop := slen line <= 262144 /\ trim line <> "" /\ json_from_str (trim line) = Some message.
Definition method_of (message : V) : string := default "" (get "method" message ≫= as_str).
Definition id_of (message : V) : V := default json_null (get "id" message).

(** A question that can be asked. *)
Definition askable (question : string) (options : list string) : Prop :=
  trim question <> "" /\ chars_count question <= 2000 /\ zlen options <= 8 /\ Forall (fun o => chars_count o <= 200) options.

(** What a line may do, while these calls are in flight (the invokes by the keys of their ids). *)
Inductive line_effect (flying : gmap string string) (line : string) : list MObs -> Prop :=
| effect_long : 262144 < slen line -> line_effect flying line []
| effect_blank : trim line = "" -> line_effect flying line []
| effect_garbled ok :
    slen line <= 262144 -> trim line <> "" -> json_from_str (trim line) = None -> line_effect flying line [Replied (error_of json_null (-32700) "parse error") ok]
| effect_notice message :
    says line message -> is_null (id_of message) = true -> method_of message <> "notifications/cancelled" -> line_effect flying line []
| effect_cancel_unknown message :
    says line message -> is_null (id_of message) = true -> method_of message = "notifications/cancelled" ->
    (forall id, pointer ["params"; "requestId"] message = Some id -> is_null id = false -> flying !! json_to_string id = None) -> line_effect flying line []
| effect_cancel message id invoke_id cancel :
    says line message -> is_null (id_of message) = true -> method_of message = "notifications/cancelled" ->
    pointer ["params"; "requestId"] message = Some id -> is_null id = false -> flying !! json_to_string id = Some invoke_id ->
    HookInvoke.event cancel = "cancel" -> HookInvoke.invoke_id cancel = invoke_id -> line_effect flying line [CancelSent cancel]
| effect_call message arguments question options free_text invoke :
    says line message -> is_null (id_of message) = false -> method_of message = "tools/call" ->
    pointer ["params"; "arguments"] message = Some arguments -> ask_from_value arguments = Some (question, options, free_text) -> askable question (default [] options) ->
    HookInvoke.event invoke = "ask_user" ->
    HookInvoke.ask invoke = Some (AskRequest.mk question (default [] options) (default true free_text) (Some (json_to_string (id_of message)))) ->
    line_effect flying line [Spawned (id_of message) invoke]
| effect_refused message reason ok :
    says line message -> is_null (id_of message) = false -> method_of message = "tools/call" ->
    (forall arguments question options free_text, pointer ["params"; "arguments"] message = Some arguments -> ask_from_value arguments = Some (question, options, free_text) ->
       ~ askable question (default [] options)) ->
    line_effect flying line [Replied (error_of (id_of message) (-32602) reason) ok]
| effect_request message response ok :
    says line message -> is_null (id_of message) = false -> method_of message <> "tools/call" ->
    (exists result, response = response_of (id_of message) result) \/ response = error_of (id_of message) (-32601) ("method not found: " +:+ method_of message) ->
    line_effect flying line [Replied response ok].

(** The calls in flight after a line. *)
Definition flying_after (flying : gmap string string) (o : list MObs) : gmap string string :=
  match o with [Spawned id invoke] => <[json_to_string id := HookInvoke.invoke_id invoke]> flying | _ => flying end.

(** What the text of a tool's result is packed in. *)
Definition tool_content (is_error : bool) (text : string) : V :=
  json_object [("content", json_array [json_object [("type", json_string "text"); ("text", json_string text)]]); ("isError", build (JBool is_error))].

Definition or_null (s : option string) : V := match s with Some s => json_string s | None => json_null end.

(** The result of a call, and the invoke to confirm, by what the Bridge answered to its request. *)
Inductive tool_says (invoke_id : string) : res string HookReply.t -> V -> option string -> Prop :=
| says_failed err : tool_says invoke_id (Err err) (tool_content true err) None
| says_answered reply :
    HookReply.status reply = "answered" ->
    tool_says invoke_id (Ok reply) (tool_content false (json_to_string (json_object
      [("status", json_string "answered"); ("option", or_null (HookReply.option_ reply)); ("text", or_null (HookReply.text reply))]))) (Some invoke_id)
| says_cancelled reply :
    HookReply.status reply = "cancelled" ->
    tool_says invoke_id (Ok reply) (tool_content false (json_to_string (json_object [("status", json_string "cancelled")]))) (Some invoke_id)
| says_expired reply :
    HookReply.status reply = "expired" ->
    tool_says invoke_id (Ok reply) (tool_content false (json_to_string (json_object [("status", json_string "expired")]))) (Some invoke_id)
| says_other reply :
    HookReply.status reply <> "answered" -> HookReply.status reply <> "cancelled" -> HookReply.status reply <> "expired" ->
    tool_says invoke_id (Ok reply) (tool_content true ("ask failed: " +:+ HookReply.status reply)) (Some invoke_id).

(** The runs of the server, from the calls in flight and the set of cancelled keys. *)
Inductive mcp_run : gmap string string -> gset string -> list MObs -> Prop :=
| mcp_open f c : mcp_run f c []
| mcp_end f c : mcp_run f c [Ended]
| mcp_line f c line o t :
    line_effect f line o -> Forall (fun x => lost x = false) o -> mcp_run (flying_after f o) (cancel_step c (Heard line)) t -> mcp_run f c (Heard line :: o ++ t)
| mcp_line_lost f c line message : line_effect f line [Replied message false] -> mcp_run f c [Heard line; Replied message false]
| mcp_silent f c id value ack t :
    json_to_string id ∈ c -> mcp_run (delete (json_to_string id) f) (c ∖ {[json_to_string id]}) t -> mcp_run f c (Finished id value ack :: t)
| mcp_unwritten f c id value ack : json_to_string id ∉ c -> mcp_run f c [Finished id value ack; Replied (response_of id value) false]
| mcp_written f c id value t :
    json_to_string id ∉ c -> mcp_run (delete (json_to_string id) f) c t -> mcp_run f c (Finished id value None :: Replied (response_of id value) true :: t)
| mcp_confirmed f c id value invoke_id ok t :
    json_to_string id ∉ c -> mcp_run (delete (json_to_string id) f) c t ->
    mcp_run f c (Finished id value (Some invoke_id) :: Replied (response_of id value) true :: Confirmed invoke_id (ack_text invoke_id) ok :: t).

Lemma mstep_next {A B} (o : mop V B) (k : B -> mprog A) (w w' : list (V * Invoke)) (t : list MObs) (a : option A) :
  mexec (Act o k) w t a w' -> exists b w1 t', mstep B o w (Some b) w1 /\ mexec (k b) w1 t' a w' /\ t = mobs B o b ++ t'.
Proof.
  intros (w0 & [b|] & w1 & R & St & X).
  - assert (w0 = w) as -> by (clear -R; by induction R). destruct X as (t' & X & ->). by exists b, w1, t'.
  - exfalso. clear -St. destruct o; simpl in St; first [done|by destruct St].
Qed.

Ltac mcp_next H := let b := fresh "b" in let w1 := fresh "w" in let t' := fresh "t" in let St := fresh "St" in
  cbn [prog_bind act] in H; apply mstep_next in H as (b & w1 & t' & St & H & ->); cbn [mobs app] in *.

(** What handling a line may leave. *)
Definition handled (line : string) (st : McpState.t) (next : option McpState.t) (o : list MObs) : Prop :=
  line_effect (McpState.in_flight st) line o /\
  match next with
  | Some st' => Forall (fun x => lost x = false) o /\ McpState.in_flight st' = flying_after (McpState.in_flight st) o /\
      McpState.cancelled st' = cancel_step (McpState.cancelled st) (Heard line)
  | None => exists message, o = [Replied message false]
  end.

Lemma effect_plain (f : gmap string string) (line : string) (o : list MObs) : line_effect f line o -> Forall (fun x => is_event x = false /\ is_ack x = false) o.
Proof. destruct 1; by repeat constructor. Qed.

Lemma handled_write {A} (line : string) (message : V) (st : McpState.t) (k : option McpState.t -> mprog A) (w w' : list (V * Invoke)) (t : list MObs) (a : option A) :
  cancel_key line = None -> (forall ok, line_effect (McpState.in_flight st) line [Replied message ok]) ->
  mexec (prog_bind (write_then message st) k) w t a w' ->
  exists next o t' w1, t = o ++ t' /\ mexec (k next) w1 t' a w' /\ handled line st next o.
Proof.
  unfold write_then. intros E L X. mcp_next X. destruct St as [_ ->]. eexists _, [Replied message b], _, _. split_and!; [done|exact X|]. split; [done|].
  destruct b; [|by eexists]. split_and!; [by repeat constructor|done|]. simpl. by rewrite E.
Qed.

Lemma handled_silent {A} (line : string) (st : McpState.t) (k : option McpState.t -> mprog A) (w w' : list (V * Invoke)) (t : list MObs) (a : option A) :
  cancel_key line = None -> line_effect (McpState.in_flight st) line [] -> mexec (k (Some st)) w t a w' ->
  exists next o t' w1, t = o ++ t' /\ mexec (k next) w1 t' a w' /\ handled line st next o.
Proof. intros E L X. exists (Some st), [], t, w. split_and!; [done|exact X|]. split; [done|]. split_and!; [done..|]. simpl. by rewrite E. Qed.

Lemma validate_askable (ask : AskRequest.t) :
  match AskRequest.validate ask with
  | Ok _ => askable (AskRequest.question ask) (AskRequest.options ask)
  | Err _ => ~ askable (AskRequest.question ask) (AskRequest.options ask)
  end.
Proof.
  unfold AskRequest.validate, askable. case_bool_decide as T; [by intros [? _]|].
  destruct (Z.ltb_spec AskRequest.MAX_QUESTION_CHARS (chars_count (AskRequest.question ask))) as [Q|Q]; unfold AskRequest.MAX_QUESTION_CHARS in Q; [intros (_ & ? & _); lia|].
  destruct (Z.ltb_spec AskRequest.MAX_OPTIONS (zlen (AskRequest.options ask))) as [O|O]; unfold AskRequest.MAX_OPTIONS in O; [intros (_ & _ & ? & _); lia|].
  destruct (existsb _ _) eqn:E.
  - apply existsb_exists in E as (o & I & L%Z.ltb_lt). intros (_ & _ & _ & F). rewrite Forall_forall in F. apply list_elem_of_In, F in I. unfold AskRequest.MAX_OPTION_CHARS in L. lia.
  - split_and!; [done|done|done|]. apply Forall_forall. intros o I%list_elem_of_In. apply Z.nlt_ge. intros L.
    assert (X : existsb (fun option => AskRequest.MAX_OPTION_CHARS <? chars_count option) (AskRequest.options ask) = true); [|congruence].
    apply existsb_exists. exists o. split; [done|]. by apply Z.ltb_lt.
Qed.

Lemma call_run {A} (line : string) (message : V) (st : McpState.t) (k : option McpState.t -> mprog A) (w w' : list (V * Invoke)) (t : list MObs) (a : option A) :
  cancel_key line = None -> says line message -> is_null (id_of message) = false -> method_of message = "tools/call" ->
  mexec (prog_bind (on_call config (id_of message) message st) k) w t a w' ->
  exists next o t' w1, t = o ++ t' /\ mexec (k next) w1 t' a w' /\ handled line st next o.
Proof.
  intros E S N M. unfold on_call, build_ask_invoke, ask_request. cbn zeta.
  destruct (pointer ["params"; "arguments"] message) as [arguments|] eqn:P; [|intros X; eapply handled_write, X; [done|]; intros ok; eapply effect_refused; try done; intros; congruence].
  destruct (ask_from_value arguments) as [[[question options] free]|] eqn:Q; [|intros X; eapply handled_write, X; [done|]; intros ok; eapply effect_refused; try done; intros; congruence].
  set (ask := AskRequest.mk _ _ _ _). pose proof (validate_askable ask) as V'. destruct (AskRequest.validate ask) as [u|reason]; intros X.
  - mcp_next X. mcp_next X. eexists _, [_], _, _. split_and!; [|exact X|]; [done|]. split; [by eapply effect_call|].
    split_and!; [by repeat constructor|done|]. simpl. by rewrite E.
  - eapply handled_write, X; [done|]. intros ok. eapply effect_refused; [done..|]. intros arguments' q o f P' Q'. by simplify_eq.
Qed.

Lemma message_run {A} (line : string) (message : V) (st : McpState.t) (k : option McpState.t -> mprog A) (w w' : list (V * Invoke)) (t : list MObs) (a : option A) :
  says line message -> mexec (prog_bind (on_message package_version config message st) k) w t a w' ->
  exists next o t' w1, t = o ++ t' /\ mexec (k next) w1 t' a w' /\ handled line st next o.
Proof.
  intros S. pose proof S as (L & T & J). unfold on_message. change (default "" (get "method" message ≫= as_str)) with (method_of message). change (message_id message) with (id_of message).
  assert (K : cancel_key line = if bool_decide (method_of message = "notifications/cancelled") && is_null (id_of message)
    then request_id ← pointer ["params"; "requestId"] message; if is_null request_id then None else Some (rpc_id_key request_id) else None).
  { unfold cancel_key. rewrite (proj2 (Z.ltb_ge MCP_MAX_LINE (slen line)) L), J. cbn [mbind option_bind]. by rewrite bool_decide_eq_false_2. }
  destruct (is_null (id_of message)) eqn:I; rewrite ?andb_true_r, ?andb_false_r in K; cbn [negb].
  - rewrite !andb_false_r, !andb_true_r. case_bool_decide as M; [|intros X; eapply handled_silent, X; [done|by eapply effect_notice]].
    unfold on_cancelled. destruct (pointer ["params"; "requestId"] message) as [request_id|] eqn:P; cbn [mbind option_bind] in K.
    2:{ intros X. eapply handled_silent, X; [done|]. eapply effect_cancel_unknown; [done..|]. intros; congruence. }
    destruct (is_null request_id) eqn:Nr; [intros X; eapply handled_silent, X; [done|]; eapply effect_cancel_unknown; [done..|]; congruence|].
    destruct (McpState.in_flight st !! _) as [i|] eqn:F; intros X.
    + mcp_next X. eexists _, [_], _, _. split_and!; [|exact X|]; [done|]. split; [by eapply effect_cancel|]. split_and!; [by repeat constructor|done|]. simpl. by rewrite K.
    + eexists _, [], _, _. split_and!; [|exact X|]; [done|]. split; [eapply effect_cancel_unknown; [done..|]; intros id' P' _; simplify_eq; exact F|]. split_and!; [done..|]. simpl. by rewrite K.
  - rewrite !andb_true_r, andb_false_r.
    assert (W : forall m, method_of message <> "tools/call" -> (exists result, m = response_of (id_of message) result) \/ m = error_of (id_of message) (-32601) ("method not found: " +:+ method_of message) ->
      mexec (prog_bind (write_then m st) k) w t a w' -> exists next o t' w1, t = o ++ t' /\ mexec (k next) w1 t' a w' /\ handled line st next o).
    { intros m N R X. eapply handled_write, X; [done|]. intros ok. by eapply effect_request. }
    case_bool_decide as M1; [apply W; [congruence|left; by eexists]|]. case_bool_decide as M2; [apply W; [congruence|left; by eexists]|].
    case_bool_decide as M3; [apply W; [congruence|left; by eexists]|]. case_bool_decide as M4; [by apply call_run|]. apply W; [done|by right].
Qed.

Lemma line_run {A} (line : string) (st : McpState.t) (k : option McpState.t -> mprog A) (w w' : list (V * Invoke)) (t : list MObs) (a : option A) :
  mexec (prog_bind (on_line package_version config line st) k) w t a w' ->
  exists next o t' w1, t = o ++ t' /\ mexec (k next) w1 t' a w' /\ handled line st next o.
Proof.
  unfold on_line. destruct (MCP_MAX_LINE <? slen line) eqn:L.
  { intros X. eapply handled_silent, X; [unfold cancel_key; by rewrite L|]. apply effect_long. by apply Z.ltb_lt in L. }
  case_bool_decide as T.
  { intros X. eapply handled_silent, X; [|by apply effect_blank]. unfold cancel_key. rewrite L, (bool_decide_eq_true_2 _ T). by destruct (json_from_str (trim line)). }
  apply Z.ltb_ge in L. destruct (json_from_str (trim line)) as [message|] eqn:J; [by apply message_run|].
  intros X. eapply handled_write, X; [|intros ok; by eapply effect_garbled]. unfold cancel_key. by rewrite (proj2 (Z.ltb_ge _ _) L), J.
Qed.

Lemma serve_run (fuel : nat) (st : McpState.t) (w w' : list (V * Invoke)) (t : list MObs) (a : option (option bool)) :
  mexec (serve_loop package_version config fuel st) w t a w' -> mcp_run (McpState.in_flight st) (McpState.cancelled st) t.
Proof.
  revert st w t. induction fuel as [|fuel IH]; intros st w t X; cbn [serve_loop] in X; [destruct X as (-> & _); constructor|].
  mcp_next X. destruct b as [line| | |id value ack].
  - apply line_run in X as (next & o & t' & w1 & -> & X & Ef & N). destruct next as [st'|].
    + destruct N as (F & N1 & N2). apply mcp_line; [done..|]. rewrite <- N1, <- N2. by eapply IH.
    + destruct N as [message ->]. destruct X as (-> & _). by apply mcp_line_lost.
  - destruct X as (-> & _). constructor.
  - destruct X as (-> & _). constructor.
  - unfold on_done in X. case_bool_decide as C.
    + apply mcp_silent; [done|]. by apply IH in X.
    + mcp_next X. destruct b; cbn [negb] in X; [|destruct X as (-> & _); by constructor]. destruct ack as [i|].
      * mcp_next X. apply IH in X. by apply mcp_confirmed.
      * apply IH in X. by apply mcp_written.
Qed.

Lemma ask_result_says (invoke_id : string) (answer : res string HookReply.t) (value : V) (ack : option string) :
  (value, ack) = ask_result invoke_id answer -> tool_says invoke_id answer value ack.
Proof. destruct answer as [reply|err]; unfold ask_result; [|intros [= -> ->]; constructor]. repeat case_bool_decide; intros [= -> ->]; by constructor. Qed.

(** Every finished call is a task that was started, once. *)
Lemma tasks_run {A} (p : mprog A) (w w' : list (V * Invoke)) (t : list MObs) (a : option A) :
  mexec p w t a w' ->
  w.*1 ++ (spawned t).*1 ≡ₚ finished t ++ w'.*1 /\
  forall id value ack, Finished id value ack ∈ t -> exists invoke answer, (id, invoke) ∈ w ++ spawned t /\ tool_says (HookInvoke.invoke_id invoke) answer value ack.
Proof.
  revert w t. induction p as [x|B o k IH]; intros w t X.
  { destruct X as (-> & _ & ->). split; [by rewrite app_nil_r|]. intros id value ack I. by apply elem_of_nil in I. }
  apply mstep_next in X as (b & w1 & t' & St & X & ->). apply IH in X as [P F]. clear IH.
  destruct o; simpl in St; try (destruct St as [_ ->]; split; [exact P|]; intros id0 value0 ack0; cbn [mobs app]; rewrite ?elem_of_cons; intros I; destruct_or?; try done; by apply F in I).
  - destruct b as [line| | |id value ack]; try (subst w1; split; [exact P|]; intros id0 value0 ack0; cbn [mobs app]; rewrite elem_of_cons; intros [?|I]; [done|by apply F in I]).
    destruct St as (l1 & invoke & l2 & answer & -> & E & ->). split.
    + simpl. rewrite <- P. rewrite !fmap_app. simpl. rewrite <- !app_assoc. cbn [app]. by rewrite <- Permutation_middle.
    + intros id0 value0 ack0. cbn [mobs app]. rewrite elem_of_cons. intros [I|I].
      * injection I as -> -> ->. exists invoke, answer. split; [|by apply ask_result_says]. rewrite !elem_of_app, elem_of_cons. auto.
      * apply F in I as (invoke0 & answer0 & I & E0). exists invoke0, answer0. split; [|done]. rewrite !elem_of_app, elem_of_cons in *. simpl. tauto.
  - destruct St as [_ ->]. split.
    + cbn [mobs app spawned omap list_omap fmap list_fmap]. rewrite <- P. simpl. by rewrite Permutation_middle.
    + intros id0 value0 ack0. cbn [mobs app]. rewrite elem_of_cons. intros [?|I]; [done|]. apply F in I as (invoke0 & answer0 & I & E0). exists invoke0, answer0. split; [|done].
      rewrite !elem_of_app, !elem_of_cons in *. simpl. rewrite elem_of_cons. tauto.
Qed.

Lemma skip_plain (f : MObs -> bool) (o t before after : list MObs) (x : MObs) :
  Forall (fun y => f y = false) o -> f x = true -> o ++ t = before ++ x :: after -> exists before', before = o ++ before' /\ t = before' ++ x :: after.
Proof.
  intros F Fx. revert before. induction F as [|y o Fy F IH]; intros before E; [by exists before|].
  destruct before as [|z before]; [injection E as -> _; congruence|]. injection E as -> E. apply IH in E as (before' & -> & ->). by exists before'.
Qed.

Lemma fold_plain (o : list MObs) (c : gset string) : Forall (fun x => is_event x = false /\ is_ack x = false) o -> fold_left cancel_step o c = c.
Proof. intros F. revert c. induction F as [|x o [Fx _] F IH]; intros c; [done|]. destruct x; try done; apply IH. Qed.

(** What follows a finished call. *)
Definition answered (id value : V) (ack : option string) (cancelled : bool) (after : list MObs) : Prop :=
  if cancelled then match after with Replied _ _ :: _ | Confirmed _ _ _ :: _ => False | _ => True end
  else exists ok after', after = Replied (response_of id value) ok :: after' /\
    if (ok : bool) then match ack with Some i => exists ok' rest, after' = Confirmed i (ack_text i) ok' :: rest | None => True end else after' = [].

Lemma run_head (f : gmap string string) (c : gset string) (t : list MObs) : mcp_run f c t -> match t with Replied _ _ :: _ | Confirmed _ _ _ :: _ => False | _ => True end.
Proof. by intros []. Qed.

Lemma run_answered (f : gmap string string) (c : gset string) (t : list MObs) :
  mcp_run f c t -> forall before id value ack after, t = before ++ Finished id value ack :: after ->
  answered id value ack (bool_decide (json_to_string id ∈ fold_left cancel_step before c)) after.
Proof.
  induction 1 as [f c|f c|f c line o t Fo _ R IH|f c line m Fo|f c id0 value0 ack0 t I R IH|f c id0 value0 ack0 N|f c id0 value0 t N R IH|f c id0 value0 i0 ok0 t N R IH];
    intros before id value ack after E.
  - by destruct before.
  - destruct before as [|? [|]]; done.
  - destruct before as [|x before]; [done|]. injection E as <- E. apply effect_plain in Fo. apply (skip_plain is_event) in E as (before' & -> & ->); [|by eapply Forall_impl; [exact Fo|intros ? [? _]]|done].
    simpl. rewrite fold_left_app, (fold_plain _ _ Fo). by apply IH.
  - by destruct before as [|? [|? [|]]].
  - destruct before as [|x before].
    + injection E as -> -> -> <-. unfold answered. simpl. rewrite bool_decide_eq_true_2 by done. by apply run_head in R.
    + injection E as <- E. by apply IH.
  - destruct before as [|x [|y [|z before]]]; simplify_eq/=. rewrite bool_decide_eq_false_2 by done. by exists false, [].
  - destruct before as [|x [|y before]]; simplify_eq/=.
    + rewrite bool_decide_eq_false_2 by done. by exists true, t.
    + unfold rpc_id_key. replace (c ∖ {[json_to_string id0]}) with c by set_solver. by apply IH.
  - destruct before as [|x [|y [|z before]]]; simplify_eq/=.
    + rewrite bool_decide_eq_false_2 by done. eexists true, _. split; [done|]. by eexists _, _.
    + unfold rpc_id_key. replace (c ∖ {[json_to_string id0]}) with c by set_solver. by apply IH.
Qed.

Lemma run_confirmed (f : gmap string string) (c : gset string) (t : list MObs) :
  mcp_run f c t -> forall before i l ok after, t = before ++ Confirmed i l ok :: after ->
  exists before' id value, before = before' ++ [Finished id value (Some i); Replied (response_of id value) true].
Proof.
  induction 1 as [f c|f c|f c line o t Fo _ R IH|f c line m Fo|f c id0 value0 ack0 t I R IH|f c id0 value0 ack0 N|f c id0 value0 t N R IH|f c id0 value0 i0 ok0 t N R IH]; intros before i l ok after E.
  - by destruct before.
  - destruct before as [|? [|]]; done.
  - destruct before as [|x before]; [done|]. injection E as <- E. apply effect_plain in Fo. apply (skip_plain is_ack) in E as (before' & -> & ->); [|by eapply Forall_impl; [exact Fo|intros ? [_ ?]]|done].
    destruct (IH _ _ _ _ _ eq_refl) as (b & id & value & ->). exists (Heard line :: o ++ b), id, value. by rewrite app_comm_cons, app_assoc.
  - by destruct before as [|? [|? [|]]].
  - destruct before as [|x before]; [done|]. injection E as <- E. destruct (IH _ _ _ _ _ E) as (b & id & value & ->). by eexists (_ :: b), id, value.
  - destruct before as [|x [|y [|z before]]]; simplify_eq/=.
  - destruct before as [|x [|y before]]; simplify_eq/=. destruct (IH _ _ _ _ _ eq_refl) as (b & id & value & ->). by eexists (_ :: _ :: b), id, value.
  - destruct before as [|x [|y [|z before]]]; simplify_eq/=.
    + by exists [], id0, value0.
    + destruct (IH _ _ _ _ _ eq_refl) as (b & id & value & ->). by eexists (_ :: _ :: _ :: b), id, value.
Qed.

(** C29. Every call of the tool is answered at most once, with its own id and what the Bridge replied to its own request.  A line that calls the tool either starts exactly one task and
    writes nothing, or is refused with one error of its id; every other line writes at most one message, with its own id (null for one that is not JSON), and cancellations write none.
    The only other writes come right after a task ended: its result, as a response with the id of the call, unless the id counts as cancelled, in which case
    nothing is written.  A task ends once, and its result says what the Bridge answered (answered with option and text, cancelled, expired, or an
    error).  The Bridge's decision is acknowledged only after the result was written, and always then; a failed write ends the server. *)
Theorem mcp_call_answered (fuel : nat) (t : list MObs) (a : option (option bool)) (w' : list (V * Invoke)) :
  mexec (serve package_version config fuel) [] t a w' ->
  mcp_run ∅ ∅ t /\
  (forall before id value ack after, t = before ++ Finished id value ack :: after ->
    (exists invoke answer, (id, invoke) ∈ spawned t /\ tool_says (HookInvoke.invoke_id invoke) answer value ack) /\
    answered id value ack (bool_decide (json_to_string id ∈ cancelled_after before)) after) /\
  (forall before i l ok after, t = before ++ Confirmed i l ok :: after ->
    exists before' id value, before = before' ++ [Finished id value (Some i); Replied (response_of id value) true]) /\
  (spawned t).*1 ≡ₚ finished t ++ w'.*1.
Proof.
  intros X. pose proof (serve_run _ _ _ _ _ _ X) as R. destruct (tasks_run _ _ _ _ _ X) as [P F]. split; [exact R|]. split_and!.
  - intros before id value ack after E. split; [|by eapply run_answered].
    apply F. rewrite E, elem_of_app, elem_of_cons. auto.
  - intros before i l ok after E. by eapply run_confirmed.
  - exact P.
Qed.
End McpProps.

(** ** Runs *)

Module HelperDemo.
Import Json.Demo.

Definition show (j : json) : string :=
  match j with
  | Num z => pretty z
  | Str s => quoted s
  | _ => ""
  end.

Definition call_line : string := "call".
Definition call_1 (tool : string) : json :=
  obj [("id", Num 1); ("method", Str "tools/call"); ("params", obj [("name", Str tool); ("arguments", obj [("question", Str "go on?")])])].
Definition cancel_1 : json := obj [("method", Str "notifications/cancelled"); ("params", obj [("requestId", Num 1)])].
Definition hook_input : json := obj [("hook_event_name", Str "PermissionRequest"); ("toolName", Str "Bash")].

(** Enough of a parser for the runs below: each line stands for one message. *)
Definition parse (s : string) : option json :=
  if bool_decide (s = "call") then Some (call_1 ASK_USER_TOOL)
  else if bool_decide (s = "other") then Some (call_1 "delete_everything")
  else if bool_decide (s = "cancel") then Some cancel_1
  else if bool_decide (s = "permission") then Some hook_input
  else None.

Definition allowed : HookReply.t := HookReply.mk STATUS_ALLOWED None None None.
Definition answered_yes : HookReply.t := HookReply.mk STATUS_ANSWERED None (Some "yes") None.

#[local] Instance json_helper : HelperJson json := {
  json_from_str := parse;
  json_to_string := show;
  json_int := Num;
  reply_from_str s := if bool_decide (s = "allowed") then Some allowed else None;
  ask_from_value j := match get "question" j ≫= as_str with Some q => Some (q, None, None) | None => None end;
}.

Definition cfg : HelperConfig.t := HelperConfig.mk "/s" 60000.

(** Standard input is one line, the Bridge answers "allowed", and every write succeeds. *)
Definition answers (B : Type) (o : hop json B) : B :=
  match o in hop _ B return B with
  | ReadStdin => Some ("permission" +:+ String line_feed "")
  | NewInvokeId => "k"
  | Exchange _ _ => Some "allowed"
  | PrintLine _ => true
  | SendAck _ _ => true
  end.

Fixpoint eval {A} (p : prog (hop json) A) : A * list (HObs (V := json)) :=
  match p with
  | Ret x => (x, [])
  | Act o k => let b := answers _ o in let r := eval (k b) in (r.1, hobs _ o b ++ r.2)
  end.

Lemma hook_eval_exec {A} (p : prog (hop json) A) : texec (fun _ _ : unit => True) hstep hobs p tt (eval p).2 (Some (eval p).1) tt.
Proof.
  induction p as [x|B o k IH]; [done|]. exists tt, (Some (answers _ o)), tt. split_and!; [constructor|done|]. eexists. split; [apply IH|done].
Qed.

Definition native : NativeHookInput.t json := NativeHookInput.mk "PermissionRequest" None (Some "Bash") None None None.

Lemma permission_eval (n : nat) :
  eval (run_hook (S n) cfg) =
    (Some 0, [Asked (permission_invoke native cfg "k") (Some allowed); Printed allow_decision_json true; Acked "k" (ack_text "k") true]).
Proof. vm_compute. reflexivity. Qed.

Lemma hook_prints_decision_witness :
  let run := eval (run_hook (S (Z.to_nat MAX_FRAME_BYTES)) cfg) in
  Some run.1 = Some (Some 0) /\ hook_run run.2 /\ length run.2 = 3%nat.
Proof.
  intros run. assert (E : length run.2 = 3%nat) by (unfold run; rewrite permission_eval; reflexivity).
  split; [|split; [|exact E]]; refine (_ (hook_prints_decision (S (Z.to_nat MAX_FRAME_BYTES)) cfg run.2 (Some run.1) _ (hook_eval_exec _))); [intros [? _]; done|lia|intros [_ ?]; done|lia].
Defined.

(** A call that the Bridge answers, written and acknowledged. *)
Definition asked_as (invoke_id : string) : HookInvoke.t json := ask_invoke cfg invoke_id (AskRequest.mk "go on?" [] true (Some "1")).
Definition yes_result : json := (ask_result "k" (Ok answered_yes)).1.
Definition answered_run : list (MObs (V := json)) :=
  [Heard "call"; Spawned (Num 1) (asked_as "k"); Finished (Num 1) yes_result (Some "k"); Replied (rpc_result (Num 1) yes_result) true;
   Confirmed "k" (delivery_ack_json "k") true; Ended].

Lemma mcp_act {A B} (o : mop json B) (k : B -> prog (mop json) A) (w w1 w' : list (json * HookInvoke.t json)) (b : B) (t : list MObs) (a : option A) :
  mstep B o w (Some b) w1 -> texec (fun _ _ => False) mstep mobs (k b) w1 t a w' -> texec (fun _ _ => False) mstep mobs (Act o k) w (mobs B o b ++ t) a w'.
Proof. intros St X. exists w, (Some b), w1. split_and!; [constructor|done|]. by exists t. Qed.

Lemma answered_exec : texec (fun _ _ => False) mstep mobs (serve "1.0" cfg 3) [] answered_run (Some (Some true)) [].
Proof.
  refine (mcp_act _ _ _ _ _ (McpLine "call") _ _ _ _); [reflexivity|].
  refine (mcp_act McpId _ _ _ _ "k" _ _ _ _); [split; done|].
  refine (mcp_act (McpSpawn _ _) _ _ _ _ tt _ _ _ _); [split; [done|reflexivity]|].
  refine (mcp_act McpNext _ _ _ _ (McpDone (Num 1) yes_result (Some "k")) _ _ _ _).
  { exists [], (asked_as "k"), [], (Ok answered_yes). split_and!; reflexivity. }
  refine (mcp_act (McpWrite _) _ _ _ _ true _ _ _ _); [split; done|].
  refine (mcp_act (McpAck _ _) _ _ _ _ true _ _ _ _); [split; done|].
  refine (mcp_act McpNext _ _ _ _ McpEof _ _ _ _); [reflexivity|]. done.
Qed.

Lemma mcp_call_answered_witness :
  mcp_run ∅ ∅ answered_run /\
  answered (Num 1) yes_result (Some "k") false [Replied (rpc_result (Num 1) yes_result) true; Confirmed "k" (delivery_ack_json "k") true; Ended] /\
  (spawned answered_run).*1 ≡ₚ finished answered_run ++ [].
Proof.
  destruct (mcp_call_answered "1.0" cfg 3 answered_run (Some (Some true)) [] answered_exec) as (R & P & _ & Q).
  split; [exact R|]. split; [|exact Q]. exact (proj2 (P [Heard "call"; Spawned (Num 1) (asked_as "k")] _ _ _ _ eq_refl)).
Defined.

(** A cancellation that comes when nothing is in flight is remembered: the next call with that id runs, its answer is
    dropped and the decision of the user is not acknowledged. *)
Definition dropped_run : list (MObs (V := json)) :=
  [Heard "cancel"; Heard "call"; Spawned (Num 1) (asked_as "k"); Finished (Num 1) yes_result (Some "k"); Ended].

Lemma stale_cancel_swallows : texec (fun _ _ => False) mstep mobs (serve "1.0" cfg 4) [] dropped_run (Some (Some true)) [].
Proof.
  refine (mcp_act _ _ _ _ _ (McpLine "cancel") _ _ _ _); [reflexivity|].
  refine (mcp_act McpNext _ _ _ _ (McpLine "call") _ _ _ _); [reflexivity|].
  refine (mcp_act McpId _ _ _ _ "k" _ _ _ _); [split; done|].
  refine (mcp_act (McpSpawn _ _) _ _ _ _ tt _ _ _ _); [split; [done|reflexivity]|].
  refine (mcp_act McpNext _ _ _ _ (McpDone (Num 1) yes_result (Some "k")) _ _ _ _).
  { exists [], (asked_as "k"), [], (Ok answered_yes). split_and!; reflexivity. }
  refine (mcp_act McpNext _ _ _ _ McpEof _ _ _ _); [reflexivity|]. done.
Qed.

(** The name of the tool is not looked at: a call of any other tool asks the user. *)
Lemma any_tool_asks (tool : string) : ask_request (call_1 tool) = Ok (AskRequest.mk "go on?" [] true (Some "1")).
Proof. reflexivity. Qed.
End HelperDemo.
