(* ===== verification/RelayBase.v ===== *)
(** * Shared parts of the Relay ([state.rs])

    Addresses and networks, the client address that limits are counted for, the limiter itself, and the
    names of the error codes.  Instants are milliseconds. *)

From Stdlib Require Import Ascii.
From S2P Require Import Prelude Bytes RustStr Proto Messages.

(** ** Limits *)

Module limits.
Definition OFFLINE_AFTER : Z := 45 * 1000.
Definition INTROSPECT_INTERVAL : Z := 60 * 1000.
Definition AUTH_GRACE : Z := 120 * 1000.
Definition PAIRING_TTL : Z := 5 * 60 * 1000.
Definition PAIRING_MAX_ATTEMPTS : Z := 5.
Definition PAIRING_RATE_WINDOW : Z := 5 * 60 * 1000.
Definition PAIRING_REGISTER_RATE_LIMIT : Z := 10.
Definition PAIRING_CLAIM_RATE_LIMIT : Z := 600.
Definition PAIRING_LOOKUP_RATE_LIMIT : Z := 30.
Definition PAIRING_APPROVE_RATE_LIMIT : Z := 30.
Definition PAGE_DEFAULT : Z := 50.
Definition PAGE_MAX : Z := 200.
Definition WS_SUBPROTOCOL : string := "agent-console.v1".
Definition WS_TICKET_PROTOCOL_PREFIX : string := "agent-console.ticket-".
Definition AUDIT_RETENTION : Z := 30 * 24 * 3600 * 1000.
Definition RECEIPT_RETENTION : Z := 30 * 24 * 3600 * 1000.
Definition PAIRING_RETENTION : Z := 24 * 3600 * 1000.
End limits.

(** ** Addresses: [std::net::IpAddr] and its [FromStr] *)

Inductive IpAddr :=
| V4 (bits : Z)
| V6 (bits : Z).

#[global] Instance IpAddr_eq_dec : EqDecision IpAddr.
Proof. solve_decision. Defined.
#[global] Instance IpAddr_countable : Countable IpAddr.
Proof.
  refine (inj_countable' (fun ip => match ip with V4 z => inl z | V6 z => inr z end)
    (fun s => match s with inl z => V4 z | inr z => V6 z end) _). by intros [].
Defined.

Definition hex_digit (c : ascii) : option Z :=
  let n := Z.of_N (N_of_ascii c) in
  if (48 <=? n) && (n <=? 57) then Some (n - 48)
  else if (97 <=? n) && (n <=? 102) then Some (n - 87)
  else if (65 <=? n) && (n <=? 70) then Some (n - 55) else None.

Definition digit_in (radix : Z) (c : ascii) : option Z := d ← hex_digit c; if d <? radix then Some d else None.

(** [read_number]: the longest run of digits, at most [max_digits] of them. *)
Fixpoint read_digits (radix limit : Z) (max_digits : nat) (s : string) (acc : Z) (count : nat) {struct s} : option (Z * nat * string) :=
  match s with
  | EmptyString => Some (acc, count, s)
  | String c rest =>
      match digit_in radix c with
      | None => Some (acc, count, s)
      | Some d =>
          match max_digits with
          | O => None
          | S max_digits =>
              let acc := acc * radix + d in
              if limit <? acc then None else read_digits radix limit max_digits rest acc (S count)
          end
      end
  end.

Definition read_number (radix limit : Z) (max_digits : nat) (allow_zero_prefix : bool) (s : string) : option (Z * string) :=
  match read_digits radix limit max_digits s 0 O with
  | None | Some (_, O, _) => None
  | Some (n, count, rest) =>
      if negb allow_zero_prefix && starts_with s "0" && (1 <? Z.of_nat count) then None else Some (n, rest)
  end.

(** [read_separator(sep, index, inner)]: the separator comes before all parts but the first. *)
Definition read_separator {A : Type} (sep : ascii) (index : nat) (inner : string -> option (A * string)) (s : string) : option (A * string) :=
  match index with
  | O => inner s
  | S _ => match s with String c rest => if Ascii.eqb c sep then inner rest else None | EmptyString => None end
  end.

Fixpoint read_octets (index missing : nat) (acc : Z) (s : string) : option (Z * string) :=
  match missing with
  | O => Some (acc, s)
  | S missing => '(n, rest) ← read_separator "." index (read_number 10 255 3 false) s; read_octets (S index) missing (acc * 256 + n) rest
  end.

Definition read_ipv4_addr (s : string) : option (Z * string) := read_octets 0 4 0 s.

(** [read_groups]: the groups read, whether the last two were an IPv4 address, and the rest. *)
Fixpoint read_groups (index limit : nat) (s : string) : list Z * bool * string :=
  match limit with
  | O => ([], false, s)
  | S limit' =>
      match (match limit' with O => None | S _ => read_separator ":" index read_ipv4_addr s end) with
      | Some (v4, rest) => ([v4 / 2 ^ 16; v4 mod 2 ^ 16], true, rest)
      | None =>
          match read_separator ":" index (read_number 16 (2 ^ 16 - 1) 4 true) s with
          | None => ([], false, s)
          | Some (group, rest) => let '(groups, v4, rest) := read_groups (S index) limit' rest in (group :: groups, v4, rest)
          end
      end
  end.

Definition of_groups (groups : list Z) : Z := foldl (fun acc g => acc * 2 ^ 16 + g) 0 groups.

Definition read_ipv6_addr (s : string) : option (Z * string) :=
  let '(head, head_ipv4, rest) := read_groups 0 8 s in
  if bool_decide (length head = 8%nat) then Some (of_groups head, rest)
  else if head_ipv4 then None
  else
    rest ← strip_prefix "::" rest;
    let '(tail, _, rest) := read_groups 0 (8 - (length head + 1)) rest in
    Some (of_groups (head ++ replicate (8 - length head - length tail) 0 ++ tail), rest).

Definition parse_ip (s : string) : option IpAddr :=
  match read_ipv4_addr s with
  | Some (n, EmptyString) => Some (V4 n)
  | Some _ => None
  | None => match read_ipv6_addr s with Some (n, EmptyString) => Some (V6 n) | _ => None end
  end.

(** [Ipv6Addr::to_ipv4_mapped]. *)
Definition to_ipv4_mapped (v6 : Z) : option Z := if v6 / 2 ^ 32 =? 65535 then Some (v6 mod 2 ^ 32) else None.

Example parse_addresses :
  map parse_ip ["127.0.0.1"; "::1"; "::ffff:127.0.0.1"; "fe80::a:b"; "1.2.3"; "01.2.3.4"; "256.0.0.1"; "1::2::3"; "::"; "1:2:3:4:5:6:7:8"; "1:2:3:4:5:6:1.2.3.4"; "1.2.3.4:80"] =
  [Some (V4 2130706433); Some (V6 1); Some (V6 (65535 * 2 ^ 32 + 2130706433)); Some (V6 (65152 * 2 ^ 112 + 10 * 2 ^ 16 + 11)); None; None; None; None;
   Some (V6 0); Some (V6 (of_groups [1; 2; 3; 4; 5; 6; 7; 8])); Some (V6 (of_groups [1; 2; 3; 4; 5; 6; 258; 772])); None].
Proof. vm_compute. reflexivity. Qed.

(** ** Networks *)

Inductive Cidr :=
| NetV4 (net prefix : Z)
| NetV6 (net prefix : Z).

(** [uN::MAX << (N - prefix)], where a prefix of zero has no mask. *)
Definition prefix_mask (width prefix : Z) : Z := if prefix =? 0 then 0 else Z.shiftl (Z.ones width) (width - prefix) mod 2 ^ width.

Definition parse_u8 (s : string) : option Z := n ← parse_u64 s; if n <=? 255 then Some n else None.

Definition cidr_from_str (s : string) : option Cidr :=
  '(addr, prefix) ←
    match split_once slash s with
    | Some (a, p) => p ← parse_u8 p; Some (a, p)
    | None => Some (s, 255)
    end;
  ip ← parse_ip addr;
  Some match ip with
       | V4 v4 => let prefix := Z.min prefix 32 in NetV4 (Z.land v4 (prefix_mask 32 prefix)) prefix
       | V6 v6 => let prefix := Z.min prefix 128 in NetV6 (Z.land v6 (prefix_mask 128 prefix)) prefix
       end.

Definition contains (c : Cidr) (ip : IpAddr) : bool :=
  match c, ip with
  | NetV4 net prefix, V4 v4 => Z.land v4 (prefix_mask 32 prefix) =? net
  | NetV6 net prefix, V6 v6 => Z.land v6 (prefix_mask 128 prefix) =? net
  | NetV4 net prefix, V6 v6 =>
      match to_ipv4_mapped v6 with Some v4 => Z.land v4 (prefix_mask 32 prefix) =? net | None => false end
  | NetV6 _ _, V4 _ => false
  end.

(** ** Where a request comes from *)

Module Config.
Record t := mk {
  trusted_proxy_cidrs : list Cidr;
  introspect_interval : Z;
  auth_grace : Z;
  offline_after : Z;
}.
End Config.

(** [str::split(c)]. *)
Fixpoint split_at_char (c : ascii) (s : string) : list string :=
  match s with
  | EmptyString => [""]
  | String a s =>
      if Ascii.eqb a c then "" :: split_at_char c s
      else match split_at_char c s with part :: parts => String a part :: parts | [] => [String a ""] end
  end.

(** What [headers.get(name)] and [to_str] give. *)
Definition HeaderMap : Type := string -> option string.

Definition is_trusted_proxy (config : Config.t) (addr : IpAddr) : bool :=
  existsb (fun c => contains c addr) (Config.trusted_proxy_cidrs config).

Definition client_ip_for_limit (config : Config.t) (peer : IpAddr) (headers : HeaderMap) : IpAddr :=
  if is_trusted_proxy config peer
  then default peer (v ← headers "x-forwarded-for"; parse_ip (trim (hd "" (split_at_char "," v))))
  else peer.

(** ** [IpRateLimiter]: per address, how many hits since the window began *)

Notation RateMap := (gmap IpAddr (Z * Z)).

Definition hit (now window limit : Z) (ip : IpAddr) (m : RateMap) : bool * RateMap :=
  let entry := default (0, now) (m !! ip) in
  let entry := if window <? sat_sub now entry.2 then (0, now) else entry in
  let count := entry.1 + 1 in
  let m := <[ip := (count, entry.2)]> m in
  let m := if 10000 <? Z.of_nat (size m) then filter (fun '(_, (_, start)) => sat_sub now start <= window) m else m in
  (limit <? count, m).

(** ** Names of error codes *)

Definition stable_code_ref_name (code : pb.StableErrorCode.t) : string :=
  match code with
  | pb.StableErrorCode.Unspecified => "INTERNAL_ERROR"
  | pb.StableErrorCode.AuthRequired => "AUTH_REQUIRED"
  | pb.StableErrorCode.AuthExpired => "AUTH_EXPIRED"
  | pb.StableErrorCode.CsrfInvalid => "CSRF_INVALID"
  | pb.StableErrorCode.WsTicketInvalid => "WS_TICKET_INVALID"
  | pb.StableErrorCode.WsTicketExpired => "WS_TICKET_EXPIRED"
  | pb.StableErrorCode.WsTicketConsumed => "WS_TICKET_CONSUMED"
  | pb.StableErrorCode.DeviceOffline => "DEVICE_OFFLINE"
  | pb.StableErrorCode.DeviceRevoked => "DEVICE_REVOKED"
  | pb.StableErrorCode.CodexUnavailable => "CODEX_UNAVAILABLE"
  | pb.StableErrorCode.CodexVersionUnverified => "CODEX_VERSION_UNVERIFIED"
  | pb.StableErrorCode.ControlReadOnly => "CONTROL_READ_ONLY"
  | pb.StableErrorCode.CapabilityUnsupported => "CAPABILITY_UNSUPPORTED"
  | pb.StableErrorCode.SessionNotFound => "SESSION_NOT_FOUND"
  | pb.StableErrorCode.StaleTurn => "STALE_TURN"
  | pb.StableErrorCode.DuplicateRequestMismatch => "DUPLICATE_REQUEST_MISMATCH"
  | pb.StableErrorCode.OutcomeUnknown => "OUTCOME_UNKNOWN"
  | pb.StableErrorCode.ResyncRequired => "RESYNC_REQUIRED"
  | pb.StableErrorCode.QueueAlreadyExists => "QUEUE_ALREADY_EXISTS"
  | pb.StableErrorCode.QueuePaused => "QUEUE_PAUSED"
  | pb.StableErrorCode.QuestionExpired => "QUESTION_EXPIRED"
  | pb.StableErrorCode.ApprovalExpired => "APPROVAL_EXPIRED"
  | pb.StableErrorCode.SettingCombinationUnsupported => "SETTING_COMBINATION_UNSUPPORTED"
  | pb.StableErrorCode.FileHandleInvalid => "FILE_HANDLE_INVALID"
  | pb.StableErrorCode.FileOutsideScope => "FILE_OUTSIDE_SCOPE"
  | pb.StableErrorCode.FileChanged => "FILE_CHANGED"
  | pb.StableErrorCode.FileTypeNotPreviewable => "FILE_TYPE_NOT_PREVIEWABLE"
  | pb.StableErrorCode.TransferExpired => "TRANSFER_EXPIRED"
  | pb.StableErrorCode.TransferTooLarge => "TRANSFER_TOO_LARGE"
  | pb.StableErrorCode.TransferRangeInvalid => "TRANSFER_RANGE_INVALID"
  | pb.StableErrorCode.DiffTooLarge => "DIFF_TOO_LARGE"
  | pb.StableErrorCode.RateLimited => "RATE_LIMITED"
  | pb.StableErrorCode.InternalError => "INTERNAL_ERROR"
  end.

Definition stable_code_name (code : Z) : string :=
  match pb.StableErrorCode.try_from code with Some c => stable_code_ref_name c | None => "INTERNAL_ERROR" end.

(** The arms of the [match], in their order; anything else is an internal error. *)
Definition code_names : list (string * pb.StableErrorCode.t) :=
  [("AUTH_REQUIRED", pb.StableErrorCode.AuthRequired); ("AUTH_EXPIRED", pb.StableErrorCode.AuthExpired);
   ("CSRF_INVALID", pb.StableErrorCode.CsrfInvalid); ("WS_TICKET_INVALID", pb.StableErrorCode.WsTicketInvalid);
   ("WS_TICKET_EXPIRED", pb.StableErrorCode.WsTicketExpired); ("WS_TICKET_CONSUMED", pb.StableErrorCode.WsTicketConsumed);
   ("DEVICE_OFFLINE", pb.StableErrorCode.DeviceOffline); ("DEVICE_REVOKED", pb.StableErrorCode.DeviceRevoked);
   ("CODEX_UNAVAILABLE", pb.StableErrorCode.CodexUnavailable); ("CODEX_VERSION_UNVERIFIED", pb.StableErrorCode.CodexVersionUnverified);
   ("CONTROL_READ_ONLY", pb.StableErrorCode.ControlReadOnly); ("CAPABILITY_UNSUPPORTED", pb.StableErrorCode.CapabilityUnsupported);
   ("SESSION_NOT_FOUND", pb.StableErrorCode.SessionNotFound); ("STALE_TURN", pb.StableErrorCode.StaleTurn);
   ("DUPLICATE_REQUEST_MISMATCH", pb.StableErrorCode.DuplicateRequestMismatch); ("OUTCOME_UNKNOWN", pb.StableErrorCode.OutcomeUnknown);
   ("RESYNC_REQUIRED", pb.StableErrorCode.ResyncRequired); ("QUEUE_ALREADY_EXISTS", pb.StableErrorCode.QueueAlreadyExists);
   ("QUEUE_PAUSED", pb.StableErrorCode.QueuePaused); ("QUESTION_EXPIRED", pb.StableErrorCode.QuestionExpired);
   ("APPROVAL_EXPIRED", pb.StableErrorCode.ApprovalExpired); ("SETTING_COMBINATION_UNSUPPORTED", pb.StableErrorCode.SettingCombinationUnsupported);
   ("FILE_HANDLE_INVALID", pb.StableErrorCode.FileHandleInvalid); ("FILE_OUTSIDE_SCOPE", pb.StableErrorCode.FileOutsideScope);
   ("FILE_CHANGED", pb.StableErrorCode.FileChanged); ("FILE_TYPE_NOT_PREVIEWABLE", pb.StableErrorCode.FileTypeNotPreviewable);
   ("TRANSFER_EXPIRED", pb.StableErrorCode.TransferExpired); ("TRANSFER_TOO_LARGE", pb.StableErrorCode.TransferTooLarge);
   ("TRANSFER_RANGE_INVALID", pb.StableErrorCode.TransferRangeInvalid); ("DIFF_TOO_LARGE", pb.StableErrorCode.DiffTooLarge);
   ("RATE_LIMITED", pb.StableErrorCode.RateLimited)].

Definition stable_code_from_name (name : string) : pb.StableErrorCode.t :=
  match find (fun '(n, _) => bool_decide (n = name)) code_names with Some (_, c) => c | None => pb.StableErrorCode.InternalError end.

(** ** Properties *)

Lemma code_name_roundtrip (code : pb.StableErrorCode.t) :
  code <> pb.StableErrorCode.Unspecified -> stable_code_from_name (stable_code_ref_name code) = code.
Proof. by destruct code. Qed.

Lemma testbit_prefix_mask (width prefix i : Z) :
  0 <= prefix <= width -> 0 <= i -> Z.testbit (prefix_mask width prefix) i = (width - prefix <=? i) && (i <? width).
Proof.
  intros P I. unfold prefix_mask. destruct (Z.eqb_spec prefix 0) as [->|N].
  - rewrite Z.bits_0. destruct (Z.leb_spec (width - 0) i), (Z.ltb_spec i width); simpl; lia.
  - destruct (Z.ltb_spec i width) as [L|L]; [|rewrite Z.mod_pow2_bits_high, andb_false_r by lia; done].
    rewrite Z.mod_pow2_bits_low, Z.shiftl_spec, andb_true_r by lia.
    destruct (Z.leb_spec (width - prefix) i); [apply Z.ones_spec_low; lia|apply Z.testbit_neg_r; lia].
Qed.

(** Two addresses are in one network when their first [prefix] bits agree. *)
Lemma same_prefix (width prefix a b : Z) :
  0 <= prefix <= width -> 0 <= a < 2 ^ width -> 0 <= b < 2 ^ width ->
  (Z.land a (prefix_mask width prefix) = Z.land b (prefix_mask width prefix) <-> a / 2 ^ (width - prefix) = b / 2 ^ (width - prefix)).
Proof.
  intros P A B. split; intros E; apply Z.bits_inj'; intros i I.
  - apply (f_equal (fun x => Z.testbit x (i + (width - prefix)))) in E. rewrite !Z.land_spec, !testbit_prefix_mask in E by lia.
    rewrite !Z.div_pow2_bits by lia. destruct (Z.ltb_spec (i + (width - prefix)) width) as [L|L].
    + by rewrite (proj2 (Z.leb_le _ _)), !andb_true_r in E by lia.
    + rewrite <- (Z.mod_small a (2 ^ width)), <- (Z.mod_small b (2 ^ width)) by lia. by rewrite !Z.mod_pow2_bits_high by lia.
  - rewrite !Z.land_spec, !testbit_prefix_mask by lia. destruct (Z.leb_spec (width - prefix) i) as [L|L]; [|by rewrite !andb_false_r].
    apply (f_equal (fun x => Z.testbit x (i - (width - prefix)))) in E. rewrite !Z.div_pow2_bits in E by lia.
    replace (i - (width - prefix) + (width - prefix)) with i in E by lia. by rewrite E.
Qed.

Lemma digit_in_range (radix : Z) (c : ascii) (d : Z) : digit_in radix c = Some d -> 0 <= d < radix.
Proof.
  unfold digit_in. destruct (hex_digit c) as [d'|] eqn:E; [|done]. cbn [mbind option_bind]. destruct (Z.ltb_spec d' radix); [|done].
  intros [= <-]. split; [|done]. unfold hex_digit in E.
  repeat match type of E with context [if ?b then _ else _] => destruct b eqn:?; simplify_eq end; lia.
Qed.

Lemma read_digits_range (radix limit : Z) (digits : nat) (s : string) (acc : Z) (count : nat) (r : Z * nat * string) :
  0 <= acc <= limit -> 0 <= radix -> read_digits radix limit digits s acc count = Some r -> 0 <= r.1.1 <= limit.
Proof.
  revert digits acc count. induction s as [|c s IH]; intros digits acc count A R; simpl; [intros; simplify_eq/=; lia|].
  destruct (digit_in radix c) as [d|] eqn:D; [|intros; simplify_eq/=; lia]. destruct digits as [|digits]; [done|].
  destruct (Z.ltb_spec limit (acc * radix + d)); [done|]. apply IH; [|done]. apply digit_in_range in D. nia.
Qed.

Lemma read_number_range (radix limit : Z) (digits : nat) (z : bool) (s rest : string) (n : Z) :
  0 <= limit -> 0 <= radix -> read_number radix limit digits z s = Some (n, rest) -> 0 <= n <= limit.
Proof.
  intros L R. unfold read_number. destruct (read_digits _ _ _ _ _ _) as [[[m [|count]] rest']|] eqn:E; [done| |done].
  apply read_digits_range in E; [|lia..]. simpl in E. destruct (_ && _); intros H; [done|]. by simplify_eq.
Qed.

Lemma read_octets_range (index missing : nat) (acc n : Z) (s rest : string) :
  0 <= acc -> read_octets index missing acc s = Some (n, rest) -> acc * 256 ^ Z.of_nat missing <= n < (acc + 1) * 256 ^ Z.of_nat missing.
Proof.
  revert index acc s. induction missing as [|missing IH]; intros index acc s A; [intros [= -> ->]; simpl; lia|].
  cbn [read_octets]. destruct (read_separator "." index _ s) as [[o r]|] eqn:E; [|done]. cbn [option_bind mbind fst snd].
  assert (0 <= o <= 255) as O.
  { unfold read_separator in E. destruct index; [|destruct s as [|c s']; [done|]; destruct (Ascii.eqb c "."); [|done]]; by apply read_number_range in E. }
  intros H. apply IH in H; [|lia]. rewrite Nat2Z.inj_succ, Z.pow_succ_r by lia. nia.
Qed.

Lemma parse_ip_v4 (s : string) (n : Z) : parse_ip s = Some (V4 n) -> 0 <= n < 2 ^ 32.
Proof.
  unfold parse_ip. destruct (read_ipv4_addr s) as [[m [|]]|] eqn:E; [|done|].
  - intros [= ->]. apply read_octets_range in E; [|lia]. exact E.
  - destruct (read_ipv6_addr s) as [[? [|]]|]; done.
Qed.

(** The textual form of a network, and what it contains: the addresses that agree on the first bits. *)
Lemma cidr_spec (s addr p : string) (prefix net v4 : Z) :
  split_once slash s = Some (addr, p) -> parse_u8 p = Some prefix -> prefix <= 32 -> parse_ip addr = Some (V4 net) -> 0 <= v4 < 2 ^ 32 ->
  exists c, cidr_from_str s = Some c /\ contains c (V4 v4) = bool_decide (v4 / 2 ^ (32 - prefix) = net / 2 ^ (32 - prefix)).
Proof.
  intros S Hp Le Ip V. pose proof (parse_ip_v4 _ _ Ip) as N. assert (0 <= prefix) as Pos.
  { unfold parse_u8 in Hp. destruct (parse_u64 p) as [n|] eqn:En; simpl in Hp; [|done]. destruct (n <=? 255); [|done]. simplify_eq.
    apply parse_u64_range in En as [? _]. lia. }
  eexists. unfold cidr_from_str. rewrite S; simpl. rewrite Hp; simpl. rewrite Ip; simpl. split; [reflexivity|]. simpl.
  rewrite (Z.min_l prefix 32) by lia. apply eq_bool_prop_intro. rewrite bool_decide_spec, Is_true_true, Z.eqb_eq. apply same_prefix; lia.
Qed.

(** *** The limiter *)

(** The answers to the hits of one address. *)
Fixpoint hits (window limit : Z) (l : list (Z * IpAddr)) (m : RateMap) : list (Z * IpAddr * bool) :=
  match l with
  | [] => []
  | (now, ip) :: l => let '(limited, m) := hit now window limit ip m in (now, ip, limited) :: hits window limit l m
  end.

(** The hits of [ip] that pass. *)
Definition passed (ip : IpAddr) (l : list (Z * IpAddr * bool)) : list Z :=
  omap (fun '(now, ip', limited) => if negb limited && bool_decide (ip' = ip) then Some now else None) l.

Lemma hit_other (now window limit : Z) (ip ip' : IpAddr) (m : RateMap) :
  ip' <> ip -> (hit now window limit ip m).2 !! ip' = m !! ip' \/
    (hit now window limit ip m).2 !! ip' = None /\ exists c start, m !! ip' = Some (c, start) /\ window < sat_sub now start.
Proof.
  intros N. unfold hit. cbn [fst snd]. destruct (10000 <? _); [|left; by rewrite lookup_insert_ne].
  destruct (m !! ip') as [[c start]|] eqn:E.
  - destruct (decide (sat_sub now start <= window)) as [L|L].
    + left. apply map_lookup_filter_Some. by rewrite lookup_insert_ne.
    + right. split; [|exists c, start; split; [done|lia]]. apply map_lookup_filter_None. right. intros x. rewrite lookup_insert_ne by done. rewrite E.
      intros [= <-]. done.
  - left. apply map_lookup_filter_None. left. by rewrite lookup_insert_ne.
Qed.

Fixpoint after_hits (window limit : Z) (l : list (Z * IpAddr)) (m : RateMap) : RateMap :=
  match l with
  | [] => m
  | (now, ip) :: l => after_hits window limit l (hit now window limit ip m).2
  end.

Lemma hit_entry (now window limit : Z) (ip : IpAddr) (m : RateMap) (c start : Z) :
  0 <= window -> m !! ip = Some (c, start) -> sat_sub now start <= window ->
  (hit now window limit ip m).1 = (limit <? c + 1) /\ (hit now window limit ip m).2 !! ip = Some (c + 1, start).
Proof.
  intros W E L. unfold hit. rewrite E. cbn [from_option id fst snd]. rewrite (proj2 (Z.ltb_ge window (sat_sub now start))) by done. cbn [fst snd]. split; [done|].
  destruct (10000 <? _); [|by rewrite lookup_insert_eq]. apply map_lookup_filter_Some. by rewrite lookup_insert_eq.
Qed.

(** An address without entry, or whose window is over, starts a new one. *)
Lemma hit_restart (now window limit : Z) (ip : IpAddr) (m : RateMap) :
  0 <= window -> (forall c start, m !! ip = Some (c, start) -> window < sat_sub now start) ->
  (hit now window limit ip m).1 = (limit <? 1) /\ (hit now window limit ip m).2 !! ip = Some (1, now).
Proof.
  intros W N. unfold hit. assert (X : (if window <? sat_sub now (default (0, now) (m !! ip)).2 then (0, now) else default (0, now) (m !! ip)) = (0, now)).
  { destruct (m !! ip) as [[c start]|]; simpl; [|by destruct (_ <? _)]. specialize (N _ _ eq_refl). by apply Z.ltb_lt in N as ->. }
  rewrite X. cbn [fst snd]. split; [done|]. destruct (10000 <? _); [|by rewrite lookup_insert_eq].
  apply map_lookup_filter_Some. rewrite lookup_insert_eq. split; [done|]. unfold sat_sub. lia.
Qed.

Lemma hit_ne (now window limit : Z) (ip ip' : IpAddr) (m : RateMap) (c start : Z) :
  ip' <> ip -> m !! ip' = Some (c, start) -> sat_sub now start <= window -> (hit now window limit ip m).2 !! ip' = Some (c, start).
Proof. intros N E L. destruct (hit_other now window limit ip ip' m N) as [->|(_ & c' & s' & E' & L')]; [done|]. rewrite E in E'. simplify_eq. lia. Qed.

Section Window.
Context (window limit : Z) (W : 0 <= window) (P : 0 <= limit) (ip : IpAddr).

Notation within l t := (Forall (fun x : Z * IpAddr => t <= x.1 <= t + window) l).
Notation passes l m := (zlen (passed ip (hits window limit l m))).

Lemma passes_cons (now : Z) (ip' : IpAddr) (l : list (Z * IpAddr)) (m : RateMap) :
  passes ((now, ip') :: l) m =
    (if negb (hit now window limit ip' m).1 && bool_decide (ip' = ip) then 1 else 0) + passes l (hit now window limit ip' m).2.
Proof.
  cbn [hits]. destruct (hit now window limit ip' m) as [b m']. cbn [fst snd passed omap list_omap].
  destruct (negb b && bool_decide (ip' = ip)); [rewrite zlen_cons|]; unfold passed; lia.
Qed.

Lemma passes_started (l : list (Z * IpAddr)) (m : RateMap) (c start : Z) :
  Forall (fun x => sat_sub x.1 start <= window) l -> m !! ip = Some (c, start) -> 0 <= c -> passes l m <= Z.max 0 (limit - c).
Proof.
  revert m c. induction l as [|[now ip'] l IH]; intros m c F E C; [unfold zlen; simpl; lia|]. apply Forall_cons in F as [L F]. simpl in L.
  rewrite passes_cons. destruct (decide (ip' = ip)) as [->|N].
  - destruct (hit_entry now window limit ip m c start W E L) as [Eh Ee]. rewrite Eh.
    specialize (IH _ (c + 1) F Ee ltac:(lia)). rewrite (bool_decide_eq_true_2 (ip = ip)) by done.
    destruct (Z.ltb_spec limit (c + 1)); cbn [negb andb]; lia.
  - rewrite (bool_decide_eq_false_2 (ip' = ip)), andb_false_r by done. cbn [negb andb]. rewrite Z.add_0_l. apply IH; [done| |done]. by apply hit_ne.
Qed.

Lemma passes_fresh (l : list (Z * IpAddr)) (m : RateMap) (t : Z) :
  within l t -> m !! ip = None -> passes l m <= limit.
Proof.
  revert m. induction l as [|[now ip'] l IH]; intros m F E; [unfold zlen; simpl; lia|]. apply Forall_cons in F as [L F]. simpl in L.
  rewrite passes_cons. destruct (decide (ip' = ip)) as [->|N].
  - destruct (hit_restart now window limit ip m W) as [Eh Ee]; [by rewrite E|]. rewrite Eh.
    pose proof (passes_started l _ 1 now ltac:(eapply Forall_impl; [exact F|]; unfold sat_sub; simpl; lia) Ee ltac:(lia)).
    rewrite (bool_decide_eq_true_2 (ip = ip)) by done. destruct (Z.ltb_spec limit 1); cbn [negb andb]; lia.
  - rewrite (bool_decide_eq_false_2 (ip' = ip)), andb_false_r by done. cbn [negb andb]. rewrite Z.add_0_l. apply IH; [done|].
    by destruct (hit_other now window limit ip' ip m ltac:(congruence)) as [->|[? _]].
Qed.

Lemma passes_any (l : list (Z * IpAddr)) (m : RateMap) (t : Z) :
  within l t -> (forall c start, m !! ip = Some (c, start) -> 0 <= c) -> passes l m <= 2 * limit.
Proof.
  destruct (m !! ip) as [[c start]|] eqn:E; [|intros F _; pose proof (passes_fresh l m t F E); lia].
  intros F C. specialize (C _ _ eq_refl). enough (passes l m <= Z.max 0 (limit - c) + limit) by lia.
  revert m c E C. induction l as [|[now ip'] l IH]; intros m c E C; [unfold zlen; simpl; lia|]. apply Forall_cons in F as [L F]. simpl in L.
  rewrite passes_cons. destruct (decide (ip' = ip)) as [->|N].
  - rewrite (bool_decide_eq_true_2 (ip = ip)) by done. destruct (decide (sat_sub now start <= window)) as [Y|Y].
    + destruct (hit_entry now window limit ip m c start W E Y) as [Eh Ee]. rewrite Eh.
      specialize (IH F _ (c + 1) Ee ltac:(lia)). destruct (Z.ltb_spec limit (c + 1)); cbn [negb andb]; lia.
    + destruct (hit_restart now window limit ip m W) as [Eh Ee]; [rewrite E; intros ? ? [= <- <-]; lia|]. rewrite Eh.
      pose proof (passes_started l _ 1 now ltac:(eapply Forall_impl; [exact F|]; unfold sat_sub; simpl; lia) Ee ltac:(lia)).
      destruct (Z.ltb_spec limit 1); cbn [negb andb]; lia.
  - rewrite (bool_decide_eq_false_2 (ip' = ip)), andb_false_r by done. cbn [negb andb]. rewrite Z.add_0_l.
    destruct (hit_other now window limit ip' ip m ltac:(congruence)) as [X|[X _]]; [by apply (IH F _ c); [rewrite X|]|].
    pose proof (passes_fresh l _ t F X). lia.
Qed.

Lemma after_hits_nonneg (l : list (Z * IpAddr)) (m : RateMap) :
  map_Forall (fun _ e => 0 <= e.1) m -> map_Forall (fun _ e => 0 <= e.1) (after_hits window limit l m).
Proof.
  revert m. induction l as [|[now ip'] l IH]; intros m M; [done|]. simpl. apply IH. unfold hit. cbn [fst snd].
  assert (X : map_Forall (fun _ e => 0 <= e.1)
    (<[ip' := ((if window <? sat_sub now (default (0, now) (m !! ip')).2 then (0, now) else default (0, now) (m !! ip')).1 + 1,
       (if window <? sat_sub now (default (0, now) (m !! ip')).2 then (0, now) else default (0, now) (m !! ip')).2)]> m)).
  { apply map_Forall_insert_2; [|done]. destruct (m !! ip') as [[c s]|] eqn:E; simpl; destruct (_ <? _); simpl; try lia. apply M in E. simpl in E. lia. }
  destruct (10000 <? _); [|done]. intros k e [? _]%map_lookup_filter_Some. by eapply X.
Qed.

(** However the hits of all addresses mix, within any stretch of time as long as the window at most
    [2 * limit] hits of one address pass, and at most [limit] when the address is new. *)
Lemma limiter_bounds (before l : list (Z * IpAddr)) (t : Z) :
  within l t -> let m := after_hits window limit before ∅ in
  passes l m <= 2 * limit /\ (m !! ip = None -> passes l m <= limit).
Proof.
  intros F. split; [|by apply passes_fresh with (t := t)]. apply passes_any with (t := t); [done|]. intros c start E.
  by apply (after_hits_nonneg before ∅ (map_Forall_empty _)) in E.
Qed.
End Window.
