(* ===== verification/Auth.v ===== *)
(** * Browser authentication of the Relay ([auth/mod.rs], [auth/browser_ws.rs])

    The identity of HTTP requests, the ticket of a WebSocket, the first message of a connection, and
    the task that looks at the sessions of the connected browsers again. *)

From Stdlib Require Import Ascii.
From S2P Require Import Prelude Prog Bytes RustStr Proto Messages Buffer Stream Hub HubProps RelayBase.

(** [uuid::Uuid::parse_str], [chrono::DateTime::parse_from_rfc3339] in UTC, and the URL-safe decoder of [base64]. *)
Class AuthCrates := {
  uuid_of : string -> option Uuid;
  rfc3339_of : string -> option Z;
  base64_decode : string -> option (list byte);
}.

Notation Code := pb.StableErrorCode.t.

(** An error response: its status, its code and the reason in its details. *)
Module ApiError.
Record t := mk {
  status : Z;
  code : Code;
  reason : string;
}.
End ApiError.

(** ** Tickets *)

Module TicketReason.
Inductive t := Consumed | Expired | NotFound | SessionInvalid.
#[global] Instance eq_dec : EqDecision t.
Proof. solve_decision. Defined.

Definition stable_code (r : t) : Code :=
  match r with
  | Consumed => pb.StableErrorCode.WsTicketConsumed
  | Expired => pb.StableErrorCode.WsTicketExpired
  | NotFound | SessionInvalid => pb.StableErrorCode.WsTicketInvalid
  end.

Definition from_str (s : string) : option t :=
  if bool_decide (s = "CONSUMED") then Some Consumed
  else if bool_decide (s = "EXPIRED") then Some Expired
  else if bool_decide (s = "NOT_FOUND") then Some NotFound
  else if bool_decide (s = "SESSION_INVALID") then Some SessionInvalid
  else None.
End TicketReason.

Module ConsumeResp.
Record t := mk {
  valid : bool;
  auth_session_id : option string;
  owner_id : option string;
  expires_at : option string;
  reason : option string;
}.
End ConsumeResp.

Module IntrospectResp.
Record t := mk {
  valid : bool;
  expires_at : option string;
}.
End IntrospectResp.

Module ConsumeOutcome.
Inductive t :=
| Valid (ok : BrowserIdentity.t)
| Rejected (reason : TicketReason.t)
| Unavailable.
End ConsumeOutcome.

Module IntrospectOutcome.
Inductive t :=
| Valid (expires_at : Z)
| Invalid
| Unavailable.
End IntrospectOutcome.

Module BrowserHttpIdentity.
Record t := mk {
  auth_session_id : Uuid;
  owner_id : Uuid;
  expires_at : option Z;
}.
End BrowserHttpIdentity.

(** ** The first message of a connection *)

Definition PROTOCOL_VERSION : Z := 1.
Definition CLIENT_BROWSER : Z := 1.
Definition CLIENT_BRIDGE : Z := 2.

Module ClientHello.
Record t := mk {
  protocol_version : Z;
  client_kind : Z;
  device_id : string;
}.
End ClientHello.

(** What arrives within [HELLO_TIMEOUT]: nothing or an error, a message that is not binary, or bytes, which
    may not be an envelope or may carry another payload. *)
Inductive FirstMessage :=
| Missing
| NotBinary
| Undecodable
| OtherPayload
| Hello (hello : ClientHello.t).

Definition browser_hello_ok (first : FirstMessage) : bool :=
  match first with
  | Hello h => (ClientHello.protocol_version h =? PROTOCOL_VERSION) && (ClientHello.client_kind h =? CLIENT_BROWSER)
  | _ => false
  end.

Definition bridge_handshake (device_id : Uuid) (first : FirstMessage) : res string unit :=
  match first with
  | Hello h =>
      if (ClientHello.protocol_version h =? PROTOCOL_VERSION) && (ClientHello.client_kind h =? CLIENT_BRIDGE)
      then if bool_decide (ClientHello.device_id h = device_id) then Ok tt else Err "DEVICE_MISMATCH"
      else Err "PROTOCOL_VERSION_MISMATCH"
  | _ => Err "PROTOCOL_VERSION_MISMATCH"
  end.

Section Auth.
Context `{AuthCrates}.

Definition parse_expires (raw : option string) : option Z := raw ≫= rfc3339_of.

(** The answer of the account service to a ticket: [None] when it cannot be reached or is not read. *)
Definition consume_outcome (resp : option ConsumeResp.t) : ConsumeOutcome.t :=
  match resp with
  | None => ConsumeOutcome.Unavailable
  | Some parsed =>
      if ConsumeResp.valid parsed then
        match ConsumeResp.auth_session_id parsed ≫= uuid_of, ConsumeResp.owner_id parsed ≫= uuid_of, parse_expires (ConsumeResp.expires_at parsed) with
        | Some a, Some o, Some e => ConsumeOutcome.Valid (BrowserIdentity.mk a o e)
        | _, _, _ => ConsumeOutcome.Unavailable
        end
      else ConsumeOutcome.Rejected (default TicketReason.NotFound (ConsumeResp.reason parsed ≫= TicketReason.from_str))
  end.

Definition introspect_outcome (resp : option IntrospectResp.t) : IntrospectOutcome.t :=
  match resp with
  | None => IntrospectOutcome.Unavailable
  | Some parsed =>
      if IntrospectResp.valid parsed then
        match parse_expires (IntrospectResp.expires_at parsed) with
        | Some e => IntrospectOutcome.Valid e
        | None => IntrospectOutcome.Unavailable
        end
      else IntrospectOutcome.Invalid
  end.

(** ** The identity of an HTTP request *)

Definition HDR_SESSION : string := "x-agent-console-session-id".
Definition HDR_OWNER : string := "x-agent-console-owner-id".
Definition HDR_EXPIRES : string := "x-agent-console-session-expires".

Definition unauthorized (code : Code) : ApiError.t := ApiError.mk 401 code "".

Definition browser_http_identity (config : Config.t) (addr : IpAddr) (headers : HeaderMap) (now : Z) : res ApiError.t BrowserHttpIdentity.t :=
  if negb (is_trusted_proxy config addr) then Err (unauthorized pb.StableErrorCode.AuthRequired)
  else
    match headers HDR_SESSION ≫= uuid_of, headers HDR_OWNER ≫= uuid_of with
    | Some auth_session_id, Some owner_id =>
        let expires := headers HDR_EXPIRES ≫= rfc3339_of in
        match expires with
        | Some expires_at =>
            if expires_at <=? now then Err (unauthorized pb.StableErrorCode.AuthExpired)
            else Ok (BrowserHttpIdentity.mk auth_session_id owner_id expires)
        | None => Ok (BrowserHttpIdentity.mk auth_session_id owner_id expires)
        end
    | _, _ => Err (unauthorized pb.StableErrorCode.AuthRequired)
    end.

(** ** The ticket of a WebSocket *)

Definition scan_protocol (found : bool * option string) (token : string) : bool * option string :=
  if bool_decide (token = limits.WS_SUBPROTOCOL) then (true, found.2)
  else match strip_prefix limits.WS_TICKET_PROTOCOL_PREFIX token with
       | Some rest => (found.1, Some rest)
       | None => found
       end.

Definition parse_ws_subprotocols (headers : HeaderMap) : res ApiError.t string :=
  let offered := default "" (headers "sec-websocket-protocol") in
  match foldl scan_protocol (false, None) (map trim (split_at_char "," offered)) with
  | (true, Some t) => Ok t
  | _ => Err (unauthorized pb.StableErrorCode.WsTicketInvalid)
  end.

Definition decode_ticket (raw : string) : option string :=
  match (bytes ← base64_decode raw; if utf8_valid bytes then Some (String.string_of_list_byte bytes) else None) with
  | Some ticket => Some ticket
  | None => Some raw
  end.

Definition ticket_reject_response (reason : TicketReason.t) : ApiError.t := unauthorized (TicketReason.stable_code reason).

(** [browser_ws_handler] up to the upgrade: [consume] is the answer of the account service to the ticket. *)
Definition authenticate_browser (headers : HeaderMap) (consume : string -> option ConsumeResp.t) : res ApiError.t BrowserIdentity.t :=
  match parse_ws_subprotocols headers with
  | Err e => Err e
  | Ok t =>
      match consume_outcome (consume (default t (decode_ticket t))) with
      | ConsumeOutcome.Valid ok => Ok ok
      | ConsumeOutcome.Rejected reason => Err (ticket_reject_response reason)
      | ConsumeOutcome.Unavailable => Err (ApiError.mk 503 pb.StableErrorCode.InternalError "")
      end
  end.
End Auth.

(** ** Looking at the sessions again ([introspection_loop]) *)

Inductive aop : Type -> Type :=
| BrowserSessions : aop (list (Uuid * Uuid * Z))
| UtcNow : aop Z
| InstantNow : aop Z
| Introspect (session : Uuid) : aop IntrospectOutcome.t
| DegradedUntil : aop (option Z)
| HubSection (op : HubOp) : aop unit.

Notation aprog := (prog aop).

(** The sessions of the connected browsers: connection, session and expiry. *)
Definition browser_sessions (g : HubInner.t) : list (Uuid * Uuid * Z) :=
  map (fun '(conn, ident) => (conn, BrowserIdentity.auth_session_id ident, BrowserIdentity.expires_at ident)) (map_to_list (HubInner.browsers g)).

Definition connections_of (session : Uuid) (sessions : list (Uuid * Uuid * Z)) : list Uuid :=
  map (fun '(conn, _, _) => conn) (filter (fun '(_, s, _) => s = session) sessions).

(** The connections to close, and whether some session could not be looked up. *)
Fixpoint inspect (sessions rest : list (Uuid * Uuid * Z)) (seen : gset Uuid) (to_close : list Uuid) (unreachable : bool) :
    aprog (list Uuid * bool) :=
  match rest with
  | [] => Ret (to_close, unreachable)
  | (conn, session, expires_at) :: rest =>
      do now <- act UtcNow;
      if expires_at <=? now then inspect sessions rest seen (to_close ++ [conn]) unreachable
      else if bool_decide (session ∈ seen) then inspect sessions rest seen to_close unreachable
      else
        do outcome <- act (Introspect session);
        match outcome with
        | IntrospectOutcome.Valid _ => inspect sessions rest ({[session]} ∪ seen) to_close unreachable
        | IntrospectOutcome.Invalid => inspect sessions rest ({[session]} ∪ seen) (to_close ++ connections_of session sessions) unreachable
        | IntrospectOutcome.Unavailable => inspect sessions rest ({[session]} ∪ seen) to_close true
        end
  end.

Fixpoint close_each (conns : list Uuid) : aprog unit :=
  match conns with
  | [] => Ret tt
  | conn :: conns => perform act (HubSection (CloseBrowser conn "AUTH_EXPIRED")); close_each conns
  end.

Definition settle_grace (auth_grace : Z) (unreachable : bool) : aprog unit :=
  do degraded <- act DegradedUntil;
  if unreachable then
    match degraded with
    | None => do now <- act InstantNow; act (HubSection (SetDegraded (Some (now + auth_grace))))
    | Some until =>
        do now <- act InstantNow;
        if until <=? now then
          perform act (HubSection (CloseAllBrowsers "AUTH_EXPIRED"));
          act (HubSection (SetDegraded None))
        else Ret tt
    end
  else match degraded with
       | Some _ => act (HubSection (SetDegraded None))
       | None => Ret tt
       end.

(** One round of the loop. *)
Definition introspection_round (auth_grace : Z) : aprog unit :=
  do sessions <- act BrowserSessions;
  do found <- inspect sessions sessions ∅ [] false;
  perform close_each found.1;
  settle_grace auth_grace found.2.
