(* ===== verification/AuthProps.v ===== *)
(** * What browser authentication promises *)

From Stdlib Require Import Ascii.
From S2P Require Import Prelude Prog Bytes RustStr Proto Messages Buffer Stream Hub HubProps RelayBase Auth.

Section Props.
Context `{AuthCrates}.

(** An identity is taken from the headers of a trusted proxy only, and not after it expired. *)
Lemma identity_spec (config : Config.t) (addr : IpAddr) (headers : HeaderMap) (now : Z) (ident : BrowserHttpIdentity.t) :
  browser_http_identity config addr headers now = Ok ident <->
  (exists net, net ∈ Config.trusted_proxy_cidrs config /\ contains net addr = true) /\
  headers HDR_SESSION ≫= uuid_of = Some (BrowserHttpIdentity.auth_session_id ident) /\
  headers HDR_OWNER ≫= uuid_of = Some (BrowserHttpIdentity.owner_id ident) /\
  headers HDR_EXPIRES ≫= rfc3339_of = BrowserHttpIdentity.expires_at ident /\
  (forall e, BrowserHttpIdentity.expires_at ident = Some e -> now < e).
Proof.
  unfold browser_http_identity. assert (T : is_trusted_proxy config addr = true <-> exists net, net ∈ Config.trusted_proxy_cidrs config /\ contains net addr = true).
  { unfold is_trusted_proxy. rewrite existsb_exists. by setoid_rewrite list_elem_of_In. }
  rewrite <- T. clear T. destruct (is_trusted_proxy config addr); simpl; [|naive_solver].
  destruct (headers HDR_SESSION ≫= uuid_of) as [s|], (headers HDR_OWNER ≫= uuid_of) as [o|]; [|naive_solver..].
  destruct (headers HDR_EXPIRES ≫= rfc3339_of) as [e|]; [destruct (Z.leb_spec e now)|]; destruct ident; simpl; split; naive_solver lia.
Qed.

(** A browser is let in only with the fixed protocol, a ticket, and a service that knows the ticket. *)
Lemma authenticate_browser_ok (headers : HeaderMap) (consume : string -> option ConsumeResp.t) (ident : BrowserIdentity.t) :
  authenticate_browser headers consume = Ok ident ->
  exists offered ticket resp, headers "sec-websocket-protocol" = Some offered /\
    limits.WS_SUBPROTOCOL ∈ map trim (split_at_char ","%char offered) /\
    limits.WS_TICKET_PROTOCOL_PREFIX +:+ ticket ∈ map trim (split_at_char ","%char offered) /\
    consume (default ticket (decode_ticket ticket)) = Some resp /\ ConsumeResp.valid resp = true /\
    ConsumeResp.auth_session_id resp ≫= uuid_of = Some (BrowserIdentity.auth_session_id ident) /\
    ConsumeResp.owner_id resp ≫= uuid_of = Some (BrowserIdentity.owner_id ident).
Proof.
  unfold authenticate_browser, parse_ws_subprotocols. intros X.
  destruct (foldl scan_protocol (false, None) (map trim (split_at_char ","%char (default "" (headers "sec-websocket-protocol"))))) as [fixed ticket] eqn:F.
  assert (S : forall tokens acc, foldl scan_protocol acc tokens = (fixed, ticket) ->
    (fixed = true -> acc.1 = true \/ limits.WS_SUBPROTOCOL ∈ tokens) /\
    (forall t, ticket = Some t -> acc.2 = Some t \/ limits.WS_TICKET_PROTOCOL_PREFIX +:+ t ∈ tokens)).
  { clear. intros tokens. induction tokens as [|token tokens IH]; intros acc E; simpl in E; [simplify_eq; naive_solver|].
    apply IH in E as [E1 E2]. unfold scan_protocol in E1, E2. destruct (bool_decide_reflect (token = limits.WS_SUBPROTOCOL)) as [->|N].
    - split; [right; left|]. intros t Ht. destruct (E2 t Ht) as [?|?]; [by left|right; by right].
    - destruct (strip_prefix limits.WS_TICKET_PROTOCOL_PREFIX token) as [rest|] eqn:P; split.
      + intros Hf. destruct (E1 Hf) as [?|?]; [by left|right; by right].
      + intros t Ht. destruct (E2 t Ht) as [[= <-]|?]; [|right; by right]. apply strip_prefix_Some in P. rewrite P. right. left.
      + intros Hf. destruct (E1 Hf) as [?|?]; [by left|right; by right].
      + intros t Ht. destruct (E2 t Ht) as [?|?]; [by left|right; by right]. }
  destruct (S _ _ F) as [S1 S2]. clear S F. destruct fixed, ticket as [t|]; try done.
  destruct (S1 eq_refl) as [?|I1]; [done|]. destruct (S2 t eq_refl) as [?|I2]; [done|].
  destruct (headers "sec-websocket-protocol") as [offered|]; [|simpl in I1; apply list_elem_of_singleton in I1; done].
  unfold consume_outcome in X. destruct (consume (default t (decode_ticket t))) as [resp|] eqn:C; [|done]. destruct (ConsumeResp.valid resp) eqn:V; [|done].
  destruct (ConsumeResp.auth_session_id resp ≫= uuid_of) as [a|] eqn:Ea; [|done].
  destruct (ConsumeResp.owner_id resp ≫= uuid_of) as [o|] eqn:Eo; [|done]. destruct (parse_expires _); [|done].
  injection X as <-. by exists offered, t, resp.
Qed.
End Props.

(** ** Looking at sessions again *)

Inductive AObs :=
| Listed (sessions : list (Uuid * Uuid * Z))
| Clock (now : Z)
| Looked (session : Uuid) (outcome : IntrospectOutcome.t)
| Grace (until : option Z)
| Instant (now : Z)
| Did (op : HubOp).

Definition aobs (B : Type) (o : aop B) : B -> list AObs :=
  match o in aop B return B -> list AObs with
  | BrowserSessions => fun sessions => [Listed sessions]
  | UtcNow => fun now => [Clock now]
  | InstantNow => fun now => [Instant now]
  | Introspect session => fun outcome => [Looked session outcome]
  | DegradedUntil => fun until => [Grace until]
  | HubSection op => fun _ => [Did op]
  end.

(** The account service, the clocks and the hub may answer anything. *)
Notation aexec := (texec (fun _ _ => True) (fun _ _ _ _ _ => True) aobs).

Definition looked (t : list AObs) : list Uuid := omap (fun o => match o with Looked session _ => Some session | _ => None end) t.
Definition clocks (t : list AObs) : list Z := omap (fun o => match o with Clock now => Some now | _ => None end) t.

(** A pass over the rows [rest] of [sessions], in which the sessions [seen] are done: one reading of the clock for each row, in their order;
    a row that has expired at its reading is closed, the session of any other row is looked up unless it was before. *)
Record inspected (sessions rest : list (Uuid * Uuid * Z)) (seen : gset Uuid) (t : list AObs) (closed : list Uuid) : Prop := {
  in_clocks : length (clocks t) = length rest;
  in_expired conn session e now : ((conn, session, e), now) ∈ zip rest (clocks t) -> e <= now -> conn ∈ closed;
  in_live conn session e now : ((conn, session, e), now) ∈ zip rest (clocks t) -> now < e -> session ∈ seen \/ session ∈ looked t;
  in_invalid session conn e : Looked session IntrospectOutcome.Invalid ∈ t -> (conn, session, e) ∈ sessions -> conn ∈ closed;
  in_why conn : conn ∈ closed ->
    (exists session e now, ((conn, session, e), now) ∈ zip rest (clocks t) /\ e <= now) \/
    (exists session e, Looked session IntrospectOutcome.Invalid ∈ t /\ (conn, session, e) ∈ sessions);
  in_looked session : session ∈ looked t -> exists conn e now, ((conn, session, e), now) ∈ zip rest (clocks t) /\ now < e;
  in_once : NoDup (looked t);
  in_fresh session : session ∈ looked t -> session ∉ seen;
  in_quiet op : Did op ∉ t;
}.

Lemma connections_of_spec (session conn : Uuid) (sessions : list (Uuid * Uuid * Z)) :
  conn ∈ connections_of session sessions <-> exists e, (conn, session, e) ∈ sessions.
Proof.
  unfold connections_of. rewrite list_elem_of_fmap. split.
  - intros (((c & s) & e) & -> & [Es Hin]%list_elem_of_filter). simpl in Es. subst s. by exists e.
  - intros [e Hin]. exists (conn, session, e). split; [done|]. by apply list_elem_of_filter.
Qed.

(** One more row: it has expired, its session is done, or it is looked up. *)
Lemma inspected_expired (sessions rest : list (Uuid * Uuid * Z)) (seen : gset Uuid) (t : list AObs) (closed : list Uuid) (conn session : Uuid) (e now : Z) :
  e <= now -> inspected sessions rest seen t closed -> inspected sessions ((conn, session, e) :: rest) seen (Clock now :: t) (conn :: closed).
Proof.
  intros L [I0 Ie Il Ii Iw Ik Io If Iq]. split; cbn [clocks looked omap list_omap length zip]; try done.
  - by f_equal.
  - intros c s e' n [[= -> -> -> ->]|Hin]%elem_of_cons Le; [left|right; by eapply Ie].
  - intros c s e' n [[= -> -> -> ->]|Hin]%elem_of_cons Lt; [lia|by eapply Il].
  - intros s c e' [?|Hin]%elem_of_cons Hc; [done|]. right. by eapply Ii.
  - intros c [->|Hc]%elem_of_cons; [left; exists session, e, now; split; [left|done]|]. destruct (Iw _ Hc) as [(s & e' & n & ? & ?)|(s & e' & ? & ?)].
    + left. exists s, e', n. split; [by right|done].
    + right. exists s, e'. split; [by right|done].
  - intros s Hs. destruct (Ik _ Hs) as (c & e' & n & ? & ?). exists c, e', n. split; [by right|done].
  - intros op [?|?]%elem_of_cons; [done|by eapply Iq].
Qed.

Lemma inspected_seen (sessions rest : list (Uuid * Uuid * Z)) (seen : gset Uuid) (t : list AObs) (closed : list Uuid) (conn session : Uuid) (e now : Z) :
  now < e -> session ∈ seen -> inspected sessions rest seen t closed -> inspected sessions ((conn, session, e) :: rest) seen (Clock now :: t) closed.
Proof.
  intros L S [I0 Ie Il Ii Iw Ik Io If Iq]. split; cbn [clocks looked omap list_omap length zip]; try done.
  - by f_equal.
  - intros c s e' n [[= -> -> -> ->]|Hin]%elem_of_cons Le; [lia|by eapply Ie].
  - intros c s e' n [[= -> -> -> ->]|Hin]%elem_of_cons Lt; [by left|by eapply Il].
  - intros s c e' [?|Hin]%elem_of_cons Hc; [done|]. by eapply Ii.
  - intros c Hc. destruct (Iw _ Hc) as [(s & e' & n & ? & ?)|(s & e' & ? & ?)].
    + left. exists s, e', n. split; [by right|done].
    + right. exists s, e'. split; [by right|done].
  - intros s Hs. destruct (Ik _ Hs) as (c & e' & n & ? & ?). exists c, e', n. split; [by right|done].
  - intros op [?|?]%elem_of_cons; [done|by eapply Iq].
Qed.

Lemma inspected_looked (sessions rest : list (Uuid * Uuid * Z)) (seen : gset Uuid) (t : list AObs) (closed : list Uuid) (conn session : Uuid) (e now : Z)
    (outcome : IntrospectOutcome.t) :
  now < e -> session ∉ seen -> inspected sessions rest ({[session]} ∪ seen) t closed ->
  inspected sessions ((conn, session, e) :: rest) seen (Clock now :: Looked session outcome :: t)
    (match outcome with IntrospectOutcome.Invalid => connections_of session sessions ++ closed | _ => closed end).
Proof.
  intros L S [I0 Ie Il Ii Iw Ik Io If Iq]. set (all := match outcome with IntrospectOutcome.Invalid => connections_of session sessions ++ closed | _ => closed end).
  assert (Sub : forall c, c ∈ closed -> c ∈ all) by (intros c Hc; unfold all; destruct outcome; set_solver).
  split; cbn [clocks looked omap list_omap length zip].
  - by f_equal.
  - intros c s e' n [[= -> -> -> ->]|Hin]%elem_of_cons Le; [lia|]. by eapply Sub, Ie.
  - intros c s e' n [[= -> -> -> ->]|Hin]%elem_of_cons Lt; [right; left|]. destruct (Il _ _ _ _ Hin Lt) as [[->%elem_of_singleton|?]%elem_of_union|?]; [right; left|by left|right; by right].
  - intros s c e' [?|[Hl|Hin]%elem_of_cons]%elem_of_cons Hc; [done| |apply Sub; by eapply Ii].
    injection Hl as -> <-. unfold all. apply elem_of_app. left. apply connections_of_spec. by exists e'.
  - intros c Hc. assert (D : c ∈ closed \/ (outcome = IntrospectOutcome.Invalid /\ c ∈ connections_of session sessions)).
    { unfold all in Hc. destruct outcome; [by left| |by left]. apply elem_of_app in Hc as [?|?]; [by right|by left]. }
    destruct D as [Hc'|[-> [e' Hc']%connections_of_spec]]; [|right; exists session, e'; split; [right; left|done]].
    destruct (Iw _ Hc') as [(s & e' & n & ? & ?)|(s & e' & ? & ?)].
    + left. exists s, e', n. split; [by right|done].
    + right. exists s, e'. split; [right; by right|done].
  - intros s [->|Hs]%elem_of_cons; [exists conn, e, now; split; [left|done]|]. destruct (Ik _ Hs) as (c & e' & n & ? & ?). exists c, e', n. split; [by right|done].
  - constructor; [|done]. intros Hs. apply If in Hs. set_solver.
  - intros s [->|Hs]%elem_of_cons; [done|]. apply If in Hs. set_solver.
  - intros op [?|[?|?]%elem_of_cons]%elem_of_cons; [done|done|]. by eapply Iq.
Qed.

Lemma inspect_run (sessions rest : list (Uuid * Uuid * Z)) (seen : gset Uuid) (to_close : list Uuid) (unreachable : bool)
    (t : list AObs) (r : list Uuid * bool) :
  aexec (inspect sessions rest seen to_close unreachable) tt t (Some r) tt ->
  exists closed, r.1 = to_close ++ closed /\ inspected sessions rest seen t closed /\
    (r.2 = true <-> unreachable = true \/ exists session, Looked session IntrospectOutcome.Unavailable ∈ t).
Proof.
  revert seen to_close unreachable t. induction rest as [|[[conn session] e] rest IH]; intros seen to_close unreachable t.
  { intros (-> & [= ->] & _). exists []. rewrite app_nil_r. split_and!; [done|split; cbn; try set_solver; constructor|]. simpl. split; [by left|].
    intros [?|[? ?]]; [done|set_solver]. }
  cbn [inspect]. intros X. apply texec_bind in X as [[_ ?]|(t1 & now & [] & t2 & X1 & X & ->)]; [done|]. apply texec_act in X1 as (? & _ & _ & ->).
  cbn [aobs app]. destruct (Z.leb_spec e now) as [L|L].
  { apply IH in X as (closed & E & I & U). exists (conn :: closed). rewrite E, <- app_assoc. split_and!; [done|by apply inspected_expired|]. rewrite U. set_solver. }
  case_bool_decide as S.
  { apply IH in X as (closed & E & I & U). exists closed. split_and!; [done|by apply inspected_seen|]. rewrite U. set_solver. }
  apply texec_bind in X as [[_ ?]|(t3 & outcome & [] & t4 & X1 & X & ->)]; [done|]. apply texec_act in X1 as (? & _ & _ & ->). cbn [aobs app].
  pose proof (fun t closed => inspected_looked sessions rest seen t closed conn session e now outcome L S) as K.
  destruct outcome; apply IH in X as (closed & E & I & U); apply K in I.
  - exists closed. split_and!; [done|exact I|]. rewrite U. set_solver.
  - exists (connections_of session sessions ++ closed). rewrite E, <- app_assoc. split_and!; [done|exact I|]. rewrite U. set_solver.
  - exists closed. split_and!; [done|exact I|]. rewrite U. split; [|by left]. intros _. right. exists session. set_solver.
Qed.

Lemma close_each_run (conns : list Uuid) (t : list AObs) :
  aexec (close_each conns) tt t (Some tt) tt -> t = map (fun conn => Did (CloseBrowser conn "AUTH_EXPIRED")) conns.
Proof.
  revert t. induction conns as [|conn conns IH]; intros t; [by intros (-> & _)|]. cbn [close_each map]. intros X.
  apply texec_bind in X as [[_ ?]|(t1 & a & [] & t2 & X1 & X & ->)]; [done|]. apply texec_act in X1 as (? & _ & _ & ->). by rewrite (IH _ X).
Qed.

(** What the end of a round does about the account service. *)
Inductive settled (auth_grace : Z) : bool -> list AObs -> Prop :=
| GraceBegins now : settled auth_grace true [Grace None; Instant now; Did (SetDegraded (Some (now + auth_grace)))]
| GraceOver until now : until <= now ->
    settled auth_grace true [Grace (Some until); Instant now; Did (CloseAllBrowsers "AUTH_EXPIRED"); Did (SetDegraded None)]
| GraceLasts until now : now < until -> settled auth_grace true [Grace (Some until); Instant now]
| Recovered until : settled auth_grace false [Grace (Some until); Did (SetDegraded None)]
| Healthy : settled auth_grace false [Grace None].

Lemma settle_run (auth_grace : Z) (unreachable : bool) (t : list AObs) :
  aexec (settle_grace auth_grace unreachable) tt t (Some tt) tt -> settled auth_grace unreachable t.
Proof.
  unfold settle_grace. intros X. apply texec_bind in X as [[_ ?]|(t1 & degraded & [] & t2 & X1 & X & ->)]; [done|].
  apply texec_act in X1 as (? & _ & _ & ->). cbn [aobs app]. destruct unreachable.
  - destruct degraded as [until|].
    + apply texec_bind in X as [[_ ?]|(t3 & now & [] & t4 & X1 & X & ->)]; [done|]. apply texec_act in X1 as (? & _ & _ & ->). cbn [aobs app].
      destruct (Z.leb_spec until now) as [L|L]; [|destruct X as (-> & _); by constructor].
      apply texec_bind in X as [[_ ?]|(t5 & a & [] & t6 & X1 & X & ->)]; [done|]. apply texec_act in X1 as (? & _ & _ & ->).
      apply texec_act in X as (? & _ & _ & ->). by constructor.
    + apply texec_bind in X as [[_ ?]|(t3 & now & [] & t4 & X1 & X & ->)]; [done|]. apply texec_act in X1 as (? & _ & _ & ->).
      apply texec_act in X as (? & _ & _ & ->). constructor.
  - destruct degraded; [apply texec_act in X as (? & _ & _ & ->)|destruct X as (-> & _)]; constructor.
Qed.

(** C8. One round over the sessions of the browsers, whatever the account service answers.  The round reads the clock once for each
    connection: a connection that has expired at this reading is closed, and the session of any other one is looked up, once for all
    its connections.  Each connection of a session the service calls invalid is closed too, and no other connection is; no session is
    looked up but that of a connection which has not expired.  A service that cannot be reached starts a period of
    grace, and only its end, with the service still unreachable, closes all connections. *)
Theorem introspection_closes (auth_grace : Z) (t : list AObs) :
  aexec (introspection_round auth_grace) tt t (Some tt) tt ->
  exists sessions lookups closed ending unreachable,
    t = Listed sessions :: lookups ++ map (fun conn => Did (CloseBrowser conn "AUTH_EXPIRED")) closed ++ ending /\
    inspected sessions sessions ∅ lookups closed /\
    (unreachable = true <-> exists session, Looked session IntrospectOutcome.Unavailable ∈ lookups) /\
    settled auth_grace unreachable ending.
Proof.
  unfold introspection_round. intros X. apply texec_bind in X as [[_ ?]|(t1 & sessions & [] & t2 & X1 & X & ->)]; [done|].
  apply texec_act in X1 as (? & _ & _ & ->). apply texec_bind in X as [[_ ?]|(t3 & found & [] & t4 & X1 & X & ->)]; [done|].
  apply inspect_run in X1 as (closed & E & I & U). apply texec_bind in X as [[_ ?]|(t5 & a & [] & t6 & X2 & X & ->)]; [done|].
  destruct a. apply close_each_run in X2 as ->. apply settle_run in X. exists sessions, t3, closed, t6, found.2. rewrite E. split_and!; [done|done| |done].
  rewrite U. split; [by intros [?|?]|by right].
Qed.

Section Closing.
Context `{ProstLaws} `{UuidParse}.

(** What closing a connection does to the hub. *)
Lemma closed_for_good (conn : Uuid) (reason : string) (g : HubInner.t) (o : Outbox.t) :
  registered g conn = true -> HubInner.outboxes g !! conn = Some o ->
  registered (hub_step 0 (CloseBrowser conn reason) g) conn = false /\
  HubInner.outboxes (hub_step 0 (CloseBrowser conn reason) g) !! conn = Some (close o reason).
Proof.
  intros R O. cbn [hub_step]. unfold close_browser. rewrite R.
  assert (D : forall g, HubInner.browsers (detach_subscriber conn g) = HubInner.browsers g /\ HubInner.outboxes (detach_subscriber conn g) = HubInner.outboxes g).
  { clear. intros g. unfold detach_subscriber. destruct (HubInner.browser_streams g !! conn) as [keys|]; [|done].
    induction (elements keys) as [|k l IH]; simpl; [done|exact IH]. }
  split.
  - unfold registered, close_outbox. simpl. rewrite (proj1 (D _)). simpl. by rewrite lookup_delete_eq.
  - unfold close_outbox. simpl. rewrite (proj2 (D _)). simpl. by rewrite lookup_alter, O, decide_True.
Qed.
End Closing.

Module AuthDemo.
Definition round : list AObs :=
  [Listed [("c1", "s1", 50); ("c2", "s2", 5)]; Clock 10; Looked "s1" IntrospectOutcome.Invalid; Clock 11;
   Did (CloseBrowser "c1" "AUTH_EXPIRED"); Did (CloseBrowser "c2" "AUTH_EXPIRED"); Grace None].

(** The next operation answers [b]. *)
#[local] Ltac answer b := exists tt, (Some b), tt; split_and!; [constructor|done|]; eexists; split; [|reflexivity].

(** A session the service calls invalid, and one that has expired. *)
Lemma introspection_closes_witness :
  exists sessions lookups closed ending unreachable,
    round = Listed sessions :: lookups ++ map (fun conn => Did (CloseBrowser conn "AUTH_EXPIRED")) closed ++ ending /\
    inspected sessions sessions ∅ lookups closed /\
    (unreachable = true <-> exists session, Looked session IntrospectOutcome.Unavailable ∈ lookups) /\
    settled 1000 unreachable ending.
Proof.
  apply (introspection_closes 1000 round).
  answer [("c1", "s1", 50); ("c2", "s2", 5)]. answer 10. answer IntrospectOutcome.Invalid. answer 11. answer tt. answer tt. by answer (@None Z).
Defined.
End AuthDemo.
