(* ===== verification/Pairing.v ===== *)
(** * Pairing and devices on the Relay ([devices/pairing.rs], [devices/mod.rs])

    The tables [pairing_challenges] and [devices], the SQL statements as functions on them, and the
    handlers as programs: one operation per statement, per reading of a clock or of randomness, per
    use of a limiter and per call of the hub.  The transaction of [claim] is one operation: its [UPDATE]
    holds the row to the end, and nothing of it is seen before the commit.  Timestamps are milliseconds;
    the texts of responses are left out, the reason in their details is kept. *)

From Stdlib Require Import Ascii.
From S2P Require Import Prelude Prog Bytes RustStr Proto Messages Buffer Stream Hub HubProps RelayBase Auth.

(** ** The tables *)

Module Challenge.
Record t := mk {
  owner_id : option Uuid;
  challenge_digest : string;
  short_code_digest : string;
  device_name : option string;
  platform : option string;
  arch : option string;
  bridge_version : option string;
  expires_at : Z;
  attempt_count : Z;
  registered_at : option Z;
  approved_at : option Z;
  credential_delivered_at : option Z;
  consumed_at : option Z;
  created_at : Z;
}.
Definition with_attempt (c : t) : t :=
  mk (owner_id c) (challenge_digest c) (short_code_digest c) (device_name c) (platform c) (arch c) (bridge_version c) (expires_at c)
    (attempt_count c + 1) (registered_at c) (approved_at c) (credential_delivered_at c) (consumed_at c) (created_at c).
Definition with_approval (now : Z) (owner : Uuid) (c : t) : t :=
  mk (Some owner) (challenge_digest c) (short_code_digest c) (device_name c) (platform c) (arch c) (bridge_version c) (expires_at c)
    (attempt_count c) (registered_at c) (Some now) (credential_delivered_at c) (consumed_at c) (created_at c).
Definition with_delivery (now : Z) (c : t) : t :=
  mk (owner_id c) (challenge_digest c) (short_code_digest c) (device_name c) (platform c) (arch c) (bridge_version c) (expires_at c)
    (attempt_count c) (registered_at c) (approved_at c) (Some now) (Some now) (created_at c).
Definition with_consumed (now : Z) (c : t) : t :=
  mk (owner_id c) (challenge_digest c) (short_code_digest c) (device_name c) (platform c) (arch c) (bridge_version c) (expires_at c)
    (attempt_count c) (registered_at c) (approved_at c) (credential_delivered_at c) (Some now) (created_at c).
End Challenge.

Module Device.
Record t := mk {
  owner_id : Uuid;
  display_name : string;
  platform : string;
  arch : string;
  bridge_version : string;
  credential_digest : string;
  paired_at : Z;
  revoked_at : option Z;
  last_seen_at : option Z;
  compatibility_summary : string;
  control_summary : string;
  privacy_hide_titles : bool;
}.
Definition with_names (name : string) (hide : bool) (d : t) : t :=
  mk (owner_id d) name (platform d) (arch d) (bridge_version d) (credential_digest d) (paired_at d) (revoked_at d) (last_seen_at d)
    (compatibility_summary d) (control_summary d) hide.
Definition with_revoked (now : Z) (d : t) : t :=
  mk (owner_id d) (display_name d) (platform d) (arch d) (bridge_version d) (credential_digest d) (paired_at d) (Some now) (last_seen_at d)
    (compatibility_summary d) (control_summary d) (privacy_hide_titles d).
Definition with_seen (now : Z) (d : t) : t :=
  mk (owner_id d) (display_name d) (platform d) (arch d) (bridge_version d) (credential_digest d) (paired_at d) (revoked_at d) (Some now)
    (compatibility_summary d) (control_summary d) (privacy_hide_titles d).
Definition with_summaries (compat control : string) (d : t) : t :=
  mk (owner_id d) (display_name d) (platform d) (arch d) (bridge_version d) (credential_digest d) (paired_at d) (revoked_at d) (last_seen_at d)
    compat control (privacy_hide_titles d).
End Device.

Module AuditEvent.
Record t := mk {
  owner_id : Uuid;
  device_id : option Uuid;
  operation : string;
  result : string;
  created_at : Z;
}.
End AuditEvent.

Module Db.
Record t := mk {
  challenges : gmap Uuid Challenge.t;
  devices : gmap Uuid Device.t;
  audit_events : list AuditEvent.t;
}.
Definition empty : t := mk ∅ ∅ [].
Definition with_challenges (x : gmap Uuid Challenge.t) (d : t) : t := mk x (devices d) (audit_events d).
Definition with_devices (x : gmap Uuid Device.t) (d : t) : t := mk (challenges d) x (audit_events d).
Definition with_audit (x : list AuditEvent.t) (d : t) : t := mk (challenges d) (devices d) x.
End Db.

(** A statement at the time [now] of the database: its result, [None] when a constraint refuses it, and the tables. *)
Definition Statement (A : Type) : Type := Z -> Db.t -> option A * Db.t.

(** ** Statements on challenges *)

Definition insert_challenge (id : Uuid) (challenge_digest short_code_digest device_name platform arch bridge_version : string) : Statement unit :=
  fun now db =>
    match Db.challenges db !! id with
    | Some _ => (None, db)
    | None =>
        (Some tt, Db.with_challenges (<[id := Challenge.mk None challenge_digest short_code_digest (Some device_name) (Some platform) (Some arch)
                    (Some bridge_version) (now + limits.PAIRING_TTL) 0 (Some now) None None None now]> (Db.challenges db)) db)
    end.

Definition select_challenge (id : Uuid) : Statement (option Challenge.t) := fun _ db => (Some (Db.challenges db !! id), db).

(** [ORDER BY created_at DESC LIMIT 1]. *)
Definition newer (a b : Uuid * Challenge.t) : Uuid * Challenge.t :=
  if Challenge.created_at a.2 <? Challenge.created_at b.2 then b else a.

Definition newest (l : list (Uuid * Challenge.t)) : option (Uuid * Challenge.t) :=
  match l with [] => None | x :: l => Some (foldl newer x l) end.

Definition challenges_where (P : Challenge.t -> bool) (db : Db.t) : list (Uuid * Challenge.t) :=
  filter (fun '(_, c) => P c = true) (map_to_list (Db.challenges db)).

Definition registered_with (code_digest : string) (c : Challenge.t) : bool :=
  bool_decide (Challenge.short_code_digest c = code_digest) && bool_decide (is_Some (Challenge.registered_at c)).

Definition newest_by_short_code (code_digest : string) : Statement (option (Uuid * Challenge.t)) :=
  fun _ db => (Some (newest (challenges_where (registered_with code_digest) db)), db).

Definition open_for_approval (now : Z) (code_digest : string) (c : Challenge.t) : bool :=
  registered_with code_digest c && bool_decide (Challenge.approved_at c = None) && bool_decide (Challenge.consumed_at c = None) &&
  (now <? Challenge.expires_at c) && (Challenge.attempt_count c <? limits.PAIRING_MAX_ATTEMPTS).

Definition approve_statement (code_digest : string) (owner : Uuid) : Statement (option (Uuid * Z)) :=
  fun now db =>
    match newest (challenges_where (open_for_approval now code_digest) db) with
    | Some (id, c) => (Some (Some (id, now)), Db.with_challenges (<[id := Challenge.with_approval now owner c]> (Db.challenges db)) db)
    | None => (Some None, db)
    end.

(** The new count; the statement fails without such a row. *)
Definition count_attempt (id : Uuid) : Statement Z :=
  fun _ db =>
    match Db.challenges db !! id with
    | Some c => (Some (Challenge.attempt_count c + 1), Db.with_challenges (<[id := Challenge.with_attempt c]> (Db.challenges db)) db)
    | None => (None, db)
    end.

Definition cancel_statement (id owner : Uuid) : Statement (option Uuid) :=
  fun now db =>
    match Db.challenges db !! id with
    | Some c =>
        if bool_decide (Challenge.owner_id c = Some owner) && bool_decide (Challenge.consumed_at c = None)
        then (Some (Some id), Db.with_challenges (<[id := Challenge.with_consumed now c]> (Db.challenges db)) db)
        else (Some None, db)
    | None => (Some None, db)
    end.

Definition pending_for (owner : Uuid) (now : Z) (c : Challenge.t) : bool :=
  bool_decide (Challenge.owner_id c = Some owner) && bool_decide (is_Some (Challenge.approved_at c)) &&
  bool_decide (Challenge.consumed_at c = None) && bool_decide (Challenge.credential_delivered_at c = None) && (now <? Challenge.expires_at c).

Definition created_after (a b : Uuid * Challenge.t) : Prop := Challenge.created_at b.2 <= Challenge.created_at a.2.
#[global] Instance created_after_dec (a b : Uuid * Challenge.t) : Decision (created_after a b).
Proof. unfold created_after. apply _. Defined.

Definition select_pending (owner : Uuid) : Statement (list (Uuid * Challenge.t)) :=
  fun now db => (Some (take 20 (merge_sort created_after (challenges_where (pending_for owner now) db))), db).

(** ** The transaction of [claim] *)

Definition deliverable (now : Z) (c : Challenge.t) : bool :=
  bool_decide (is_Some (Challenge.approved_at c)) && bool_decide (Challenge.credential_delivered_at c = None) && (now <? Challenge.expires_at c).

Definition mark_delivered (id : Uuid) : Statement (option Challenge.t) :=
  fun now db =>
    match Db.challenges db !! id with
    | Some c =>
        if deliverable now c
        then (Some (Some (Challenge.with_delivery now c)),
              Db.with_challenges (<[id := Challenge.with_delivery now c]> (Db.challenges db)) db)
        else (Some None, db)
    | None => (Some None, db)
    end.

Definition credential_known (digest : string) (db : Db.t) : bool :=
  bool_decide (Exists (fun d => Device.credential_digest d = digest) (map snd (map_to_list (Db.devices db)))).

Definition COMPATIBILITY_UNSPECIFIED : string := "COMPATIBILITY_STATE_UNSPECIFIED".
Definition CONTROL_UNSPECIFIED : string := "CONTROL_MODE_UNSPECIFIED".

(** The primary key and [credential_digest UNIQUE]; a row without owner is refused ([NOT NULL]). *)
Definition insert_device (device : Uuid) (c : Challenge.t) (credential_digest : string) : Statement Uuid :=
  fun now db =>
    match Challenge.owner_id c, Db.devices db !! device with
    | Some owner, None =>
        if credential_known credential_digest db then (None, db)
        else
          (Some owner,
           Db.with_devices (<[device := Device.mk owner (default "Mac" (Challenge.device_name c)) (default "" (Challenge.platform c))
             (default "" (Challenge.arch c)) (default "" (Challenge.bridge_version c)) credential_digest now None None
             COMPATIBILITY_UNSPECIFIED CONTROL_UNSPECIFIED false]> (Db.devices db)) db)
    | _, _ => (None, db)
    end.

(** All of it or nothing; [Some None]: no row to deliver, the transaction is dropped. *)
Definition deliver_transaction (id device : Uuid) (credential_digest : string) : Statement (option Uuid) :=
  fun now db =>
    match mark_delivered id now db with
    | (Some (Some c), db') =>
        match insert_device device c credential_digest now db' with
        | (Some owner, db'') => (Some (Some owner), db'')
        | (None, _) => (None, db)
        end
    | (Some None, _) => (Some None, db)
    | (None, _) => (None, db)
    end.

(** ** Statements on devices *)

Definition paired_before (a b : Uuid * Device.t) : Prop := Device.paired_at a.2 <= Device.paired_at b.2.
#[global] Instance paired_before_dec (a b : Uuid * Device.t) : Decision (paired_before a b).
Proof. unfold paired_before. apply _. Defined.

Definition devices_of (owner : Uuid) : Statement (list (Uuid * Device.t)) :=
  fun _ db => (Some (merge_sort paired_before (filter (fun '(_, d) => Device.owner_id d = owner) (map_to_list (Db.devices db)))), db).

Definition own_live_device (device owner : Uuid) (db : Db.t) : option Device.t :=
  d ← Db.devices db !! device; if bool_decide (Device.owner_id d = owner /\ Device.revoked_at d = None) then Some d else None.

Definition patch_statement (device owner : Uuid) (name : option string) (hide : option bool) : Statement (option (string * bool)) :=
  fun _ db =>
    match own_live_device device owner db with
    | Some d =>
        let d := Device.with_names (default (Device.display_name d) name) (default (Device.privacy_hide_titles d) hide) d in
        (Some (Some (Device.display_name d, Device.privacy_hide_titles d)), Db.with_devices (<[device := d]> (Db.devices db)) db)
    | None => (Some None, db)
    end.

Definition revoke_statement (device owner : Uuid) : Statement (option Uuid) :=
  fun now db =>
    match own_live_device device owner db with
    | Some d => (Some (Some device), Db.with_devices (<[device := Device.with_revoked now d]> (Db.devices db)) db)
    | None => (Some None, db)
    end.

(** [SELECT ... WHERE credential_digest = $1]: the device, its owner, whether it is revoked, and the stored digest. *)
Definition device_by_digest (digest : string) : Statement (option (Uuid * Device.t)) :=
  fun _ db => (Some (head (filter (fun '(_, d) => Device.credential_digest d = digest) (map_to_list (Db.devices db)))), db).

Definition touch_device (device : Uuid) : Statement unit :=
  fun now db => (Some tt, Db.with_devices (alter (Device.with_seen now) device (Db.devices db)) db).

Definition set_device_summaries (device : Uuid) (compat control : string) : Statement unit :=
  fun _ db => (Some tt, Db.with_devices (alter (Device.with_summaries compat control) device (Db.devices db)) db).

Definition insert_audit (e : Z -> AuditEvent.t) : Statement unit := fun now db => (Some tt, Db.with_audit (Db.audit_events db ++ [e now]) db).

(** ** Clean-up ([cleanup_expired] of [lib.rs]) *)

Definition delete_old_audit : Statement unit := fun now db =>
  (Some tt, Db.with_audit (filter (fun e => now - limits.AUDIT_RETENTION <= AuditEvent.created_at e) (Db.audit_events db)) db).

Definition delete_old_challenges : Statement unit := fun now db =>
  (Some tt, Db.with_challenges (filter (fun '(_, c) => now - limits.PAIRING_RETENTION <= Challenge.expires_at c) (Db.challenges db)) db).

(** ** Operations and answers *)

Inductive Limiter := RegisterLimiter | ClaimLimiter | LookupLimiter | ApproveLimiter.
#[global] Instance Limiter_eq_dec : EqDecision Limiter.
Proof. solve_decision. Defined.

Inductive pop : Type -> Type :=
| Hit (l : Limiter) (ip : IpAddr) (limit : Z) : pop bool
| Run {A : Type} (s : Statement A) : pop (option A)
| Utc : pop Z
| NewUuid : pop Uuid
| ShortCodeNumber : pop Z
| HighEntropyToken : pop string
| OnlineNow (device : Uuid) : pop bool
| CloseBridge (device : Uuid) : pop unit.

Notation pprog := (prog pop).

Definition run {A : Type} (s : Statement A) : pprog (option A) := act (Run s).

Inductive Reply :=
| Failed (e : ApiError.t)
| Registered (challenge_id : Uuid) (short_code : string) (expires_at : Z)
| ClaimPending
| ClaimReady (device_id : Uuid) (device_credential : string)
| Found (challenge_id : Uuid) (device_name platform arch bridge_version : option string) (expires_at : Z)
| ApprovedReply (challenge_id : Uuid) (approved_at : Z)
| Devices (devices : list (Uuid * Device.t * bool))
| Patched (device : Uuid) (display_name : string) (privacy_hide_titles : bool)
| Challenges (challenges : list (Uuid * Challenge.t))
| NoContent.

Definition err (status : Z) (code : Code) (reason : string) : Reply := Failed (ApiError.mk status code reason).
Definition internal : Reply := err 500 pb.StableErrorCode.InternalError "INTERNAL_ERROR".
Definition limited : Reply := err 429 pb.StableErrorCode.RateLimited "RATE_LIMITED".

(** The crate [sha2], printed by [hex]. *)
Class Sha256 := sha256_hex : string -> string.

(** [ct_eq_hex] takes the same time whatever differs; its result is that of the comparison. *)
Definition ct_eq_hex (a b : string) : bool := bool_decide (a = b).

(** [{:06}]. *)
Definition six_digit_code (n : Z) : string :=
  let digits := pretty n in String.concat "" (replicate (6 - String.length digits) "0") +:+ digits.

Definition base64url_char (c : ascii) : bool :=
  let n := Z.of_N (N_of_ascii c) in
  ((48 <=? n) && (n <=? 57)) || ((65 <=? n) && (n <=? 90)) || ((97 <=? n) && (n <=? 122)) || (n =? 45) || (n =? 95).

Definition is_valid_challenge (s : string) : bool := (String.length s =? 43)%nat && str_all base64url_char s.

(** [chars().take(n)]: a byte that continues a character goes with it. *)
Fixpoint take_chars (n : nat) (s : string) : string :=
  match s with
  | EmptyString => ""
  | String c rest =>
      let b := Z.of_N (N_of_ascii c) in
      if (128 <=? b) && (b <? 192) then String c (take_chars n rest)
      else match n with O => "" | S n => String c (take_chars n rest) end
  end.

Module RegisterBody.
Record t := mk {
  challenge : string;
  device_name : string;
  platform : string;
  arch : string;
  bridge_version : string;
}.
End RegisterBody.

Module ApproveBody.
Record t := mk {
  short_code : string;
  challenge_id : option Uuid;
}.
End ApproveBody.

Definition record_audit (owner : Uuid) (device : option Uuid) (operation : string) : pprog unit :=
  perform run (insert_audit (AuditEvent.mk owner device operation "OK")); Ret tt.

Section Handlers.
Context `{AuthCrates} `{Sha256}.
Variable config : Config.t.

(** The start of a browser's handler. *)
Definition with_identity (peer : IpAddr) (headers : HeaderMap) (handler : Uuid -> pprog Reply) : pprog Reply :=
  do now <- act Utc;
  match browser_http_identity config peer headers now with
  | Ok ident => handler (BrowserHttpIdentity.owner_id ident)
  | Err e => Ret (Failed e)
  end.

(** ** For the Bridge *)

Definition register (peer : IpAddr) (headers : HeaderMap) (body : RegisterBody.t) : pprog Reply :=
  do over <- act (Hit RegisterLimiter (client_ip_for_limit config peer headers) limits.PAIRING_REGISTER_RATE_LIMIT);
  if over : bool then Ret limited
  else if negb (is_valid_challenge (trim (RegisterBody.challenge body))) then Ret (err 401 pb.StableErrorCode.AuthRequired "INVALID_CHALLENGE")
  else
    do id <- act NewUuid;
    do number <- act ShortCodeNumber;
    let short_code := six_digit_code number in
    do result <- run (insert_challenge id (sha256_hex (trim (RegisterBody.challenge body))) (sha256_hex short_code)
                        (take_chars 128 (trim (RegisterBody.device_name body))) (take_chars 64 (trim (RegisterBody.platform body)))
                        (take_chars 32 (trim (RegisterBody.arch body))) (take_chars 64 (trim (RegisterBody.bridge_version body))));
    match result with
    | Some _ => do now <- act Utc; Ret (Registered id short_code (now + limits.PAIRING_TTL))
    | None => Ret internal
    end.

Definition claim (peer : IpAddr) (headers : HeaderMap) (challenge_id : Uuid) (challenge : string) : pprog Reply :=
  do over <- act (Hit ClaimLimiter (client_ip_for_limit config peer headers) limits.PAIRING_CLAIM_RATE_LIMIT);
  if over : bool then Ret limited
  else
    do row <- run (select_challenge challenge_id);
    match row with
    | Some (Some c) =>
        if negb (ct_eq_hex (sha256_hex (trim challenge)) (Challenge.challenge_digest c))
        then Ret (err 401 pb.StableErrorCode.AuthRequired "CHALLENGE_MISMATCH")
        else
          do now <- act Utc;
          if Challenge.expires_at c <=? now then Ret (err 410 pb.StableErrorCode.ApprovalExpired "EXPIRED")
          else if bool_decide (is_Some (Challenge.credential_delivered_at c))
          then Ret (err 409 pb.StableErrorCode.DuplicateRequestMismatch "CONSUMED")
          else if bool_decide (Challenge.approved_at c = None) then Ret ClaimPending
          else
            do credential <- act HighEntropyToken;
            do device_id <- act NewUuid;
            do delivered <- run (deliver_transaction challenge_id device_id (sha256_hex credential));
            match delivered with
            | None => Ret internal
            | Some None => Ret (err 409 pb.StableErrorCode.DuplicateRequestMismatch "CONSUMED")
            | Some (Some owner) =>
                perform record_audit owner (Some device_id) "pairing_claim";
                Ret (ClaimReady device_id credential)
            end
    | _ => Ret (err 404 pb.StableErrorCode.SessionNotFound "NOT_FOUND")
    end.

(** ** For the browser *)

Definition lookup (peer : IpAddr) (headers : HeaderMap) (short_code : string) : pprog Reply :=
  with_identity peer headers (fun _ =>
    do over <- act (Hit LookupLimiter (client_ip_for_limit config peer headers) limits.PAIRING_LOOKUP_RATE_LIMIT);
    if over : bool then Ret limited
    else
      do row <- run (newest_by_short_code (sha256_hex (trim short_code)));
      match row with
      | None => Ret internal
      | Some None => Ret (err 404 pb.StableErrorCode.SessionNotFound "NOT_FOUND")
      | Some (Some (id, c)) =>
          do now <- act Utc;
          if Challenge.expires_at c <=? now then Ret (err 404 pb.StableErrorCode.SessionNotFound "EXPIRED")
          else if bool_decide (is_Some (Challenge.consumed_at c)) then Ret (err 404 pb.StableErrorCode.SessionNotFound "CANCELLED")
          else if bool_decide (is_Some (Challenge.approved_at c)) then Ret (err 404 pb.StableErrorCode.SessionNotFound "ALREADY_APPROVED")
          else if limits.PAIRING_MAX_ATTEMPTS <=? Challenge.attempt_count c then Ret (err 429 pb.StableErrorCode.RateLimited "LOCKED")
          else
            do info <- run (select_challenge id);
            match info with
            | Some (Some i) =>
                Ret (Found id (Challenge.device_name i) (Challenge.platform i) (Challenge.arch i) (Challenge.bridge_version i) (Challenge.expires_at c))
            | _ => Ret internal
            end
      end).

(** Why nothing could be approved. *)
Definition why_not_approved (now : Z) (row : option (Uuid * Challenge.t)) : Reply :=
  match row with
  | None => err 404 pb.StableErrorCode.SessionNotFound "NOT_FOUND"
  | Some (_, c) =>
      if Challenge.expires_at c <=? now then err 410 pb.StableErrorCode.ApprovalExpired "EXPIRED"
      else if bool_decide (is_Some (Challenge.consumed_at c)) then err 404 pb.StableErrorCode.SessionNotFound "CANCELLED"
      else if bool_decide (is_Some (Challenge.approved_at c)) then err 409 pb.StableErrorCode.DuplicateRequestMismatch "ALREADY_APPROVED"
      else if limits.PAIRING_MAX_ATTEMPTS <=? Challenge.attempt_count c then err 429 pb.StableErrorCode.RateLimited "LOCKED"
      else err 404 pb.StableErrorCode.SessionNotFound "NOT_FOUND"
  end.

(** The short code against the challenge that was looked up; [Some]: the answer, nothing is approved. *)
Definition check_attempt (code_digest : string) (challenge_id : option Uuid) : pprog (option Reply) :=
  match challenge_id with
  | None => Ret None
  | Some id =>
      do stored <- run (select_challenge id);
      match stored with
      | Some (Some c) =>
          if ct_eq_hex code_digest (Challenge.short_code_digest c) then Ret None
          else
            do attempts <- run (count_attempt id);
            let attempts := default (2 ^ 31 - 1) attempts in
            if limits.PAIRING_MAX_ATTEMPTS <? attempts then Ret (Some (err 429 pb.StableErrorCode.RateLimited "LOCKED"))
            else Ret (Some (err 401 pb.StableErrorCode.AuthRequired "CODE_MISMATCH"))
      | _ => Ret None
      end
  end.

Definition approve (owner : Uuid) (body : ApproveBody.t) : pprog Reply :=
  let code_digest := sha256_hex (trim (ApproveBody.short_code body)) in
  do refused <- check_attempt code_digest (ApproveBody.challenge_id body);
  match refused with
  | Some reply => Ret reply
  | None =>
      do approved <- run (approve_statement code_digest owner);
      match approved with
      | Some (Some (id, approved_at)) =>
          perform record_audit owner None "pairing_approve";
          Ret (ApprovedReply id approved_at)
      | Some None =>
          do row <- run (newest_by_short_code code_digest);
          do now <- act Utc;
          Ret (why_not_approved now (default None row))
      | None => Ret internal
      end
  end.

Definition approve_challenge (peer : IpAddr) (headers : HeaderMap) (body : ApproveBody.t) : pprog Reply :=
  with_identity peer headers (fun owner =>
    do over <- act (Hit ApproveLimiter (client_ip_for_limit config peer headers) limits.PAIRING_APPROVE_RATE_LIMIT);
    if over : bool then Ret limited else approve owner body).

Definition list_challenges (peer : IpAddr) (headers : HeaderMap) : pprog Reply :=
  with_identity peer headers (fun owner =>
    do rows <- run (select_pending owner);
    Ret match rows with Some rows => Challenges rows | None => err 500 pb.StableErrorCode.InternalError "" end).

Definition not_found : Reply := err 404 pb.StableErrorCode.SessionNotFound "".

Definition cancel_challenge (peer : IpAddr) (headers : HeaderMap) (id : Uuid) : pprog Reply :=
  with_identity peer headers (fun owner =>
    do result <- run (cancel_statement id owner);
    Ret match result with
        | Some (Some _) => NoContent
        | Some None => not_found
        | None => err 500 pb.StableErrorCode.InternalError ""
        end).

(** ** Devices *)

Fixpoint with_online (rows : list (Uuid * Device.t)) : pprog (list (Uuid * Device.t * bool)) :=
  match rows with
  | [] => Ret []
  | (id, d) :: rows =>
      do online <- act (OnlineNow id);
      do rest <- with_online rows;
      Ret ((id, d, online) :: rest)
  end.

Definition list_devices (peer : IpAddr) (headers : HeaderMap) : pprog Reply :=
  with_identity peer headers (fun owner =>
    do rows <- run (devices_of owner);
    match rows with
    | Some rows => do devices <- with_online rows; Ret (Devices devices)
    | None => Ret (err 500 pb.StableErrorCode.InternalError "")
    end).

(** A name that is empty or too long is left as it is. *)
Definition new_display_name (name : option string) : option string :=
  name ← name; let s := trim name in
  if negb (bool_decide (s = "")) && (String.length s <=? 128)%nat then Some s else None.

Definition patch_device (peer : IpAddr) (headers : HeaderMap) (id : Uuid) (name : option string) (hide : option bool) : pprog Reply :=
  with_identity peer headers (fun owner =>
    do result <- run (patch_statement id owner (new_display_name name) hide);
    match result with
    | Some (Some (name, hide)) => perform record_audit owner (Some id) "device_rename"; Ret (Patched id name hide)
    | Some None => Ret not_found
    | None => Ret (err 500 pb.StableErrorCode.InternalError "")
    end).

Definition revoke_device (peer : IpAddr) (headers : HeaderMap) (id : Uuid) : pprog Reply :=
  with_identity peer headers (fun owner =>
    do result <- run (revoke_statement id owner);
    match result with
    | Some (Some _) =>
        perform act (CloseBridge id);
        perform record_audit owner (Some id) "device_revoke";
        Ret NoContent
    | Some None => Ret not_found
    | None => Ret (err 500 pb.StableErrorCode.InternalError "")
    end).

(** [bridge_ws_handler] up to the upgrade. *)
Definition authenticate_bridge (headers : HeaderMap) : pprog (res ApiError.t (Uuid * Uuid)) :=
  let bearer := default "" (v ← headers "authorization"; r ← strip_prefix "Bearer " v; Some (trim r)) in
  let digest := sha256_hex bearer in
  do row <- run (device_by_digest digest);
  Ret match row with
      | Some (Some (id, d)) =>
          if negb (ct_eq_hex digest (Device.credential_digest d)) then Err (unauthorized pb.StableErrorCode.AuthRequired)
          else if bool_decide (is_Some (Device.revoked_at d)) then Err (unauthorized pb.StableErrorCode.DeviceRevoked)
          else Ok (id, Device.owner_id d)
      | _ => Err (unauthorized pb.StableErrorCode.AuthRequired)
      end.

(** The statements on these tables of [cleanup_expired]. *)
Definition cleanup_expired : pprog unit := perform run delete_old_audit; perform run delete_old_challenges; Ret tt.
End Handlers.
