(* ===== verification/PairingProps.v ===== *)
(** * What pairing promises

    The statements of all handlers as data, the invariant they keep, and what the answers of [claim] and
    [approve] mean for the tables. *)

From S2P Require Import Prelude Prog Bytes RustStr Proto Messages Buffer Stream Hub HubProps RelayBase Auth Pairing.

(** ** The statements *)

Inductive Stmt :=
| SInsertChallenge (id : Uuid) (challenge_digest short_code_digest device_name platform arch bridge_version : string)
| SApprove (code_digest : string) (owner : Uuid)
| SCount (id : Uuid)
| SCancel (id owner : Uuid)
| SDeliver (id device : Uuid) (credential_digest : string)
| SPatch (device owner : Uuid) (name : option string) (hide : option bool)
| SRevoke (device owner : Uuid)
| STouch (device : Uuid)
| SSummaries (device : Uuid) (compat control : string)
| SAudit (e : Z -> AuditEvent.t)
| SDeleteAudit
| SDeleteChallenges
| SSelect.

Definition run_stmt (s : Stmt) (now : Z) (db : Db.t) : Db.t :=
  match s with
  | SInsertChallenge id a b c d e f => (insert_challenge id a b c d e f now db).2
  | SApprove code_digest owner => (approve_statement code_digest owner now db).2
  | SCount id => (count_attempt id now db).2
  | SCancel id owner => (cancel_statement id owner now db).2
  | SDeliver id device digest => (deliver_transaction id device digest now db).2
  | SPatch device owner name hide => (patch_statement device owner name hide now db).2
  | SRevoke device owner => (revoke_statement device owner now db).2
  | STouch device => (touch_device device now db).2
  | SSummaries device compat control => (set_device_summaries device compat control now db).2
  | SAudit e => (insert_audit e now db).2
  | SDeleteAudit => (delete_old_audit now db).2
  | SDeleteChallenges => (delete_old_challenges now db).2
  | SSelect => db
  end.

(** ** The invariant *)

Record challenge_ok (now : Z) (c : Challenge.t) : Prop := {
  co_created : Challenge.created_at c <= now;
  co_expires : Challenge.expires_at c = Challenge.created_at c + limits.PAIRING_TTL;
  co_owner : is_Some (Challenge.owner_id c) <-> is_Some (Challenge.approved_at c);
  co_approved a : Challenge.approved_at c = Some a -> a <= now /\ a < Challenge.expires_at c;
  co_delivered d : Challenge.credential_delivered_at c = Some d ->
    d < Challenge.expires_at c /\ exists a, Challenge.approved_at c = Some a /\ a <= d;
}.

(** [past]: the tables before each statement that has run, with its time.

    The approval of request [id], as [c] shows it, was one statement that ran while the request was registered, not yet
    approved, not used up, not expired and not locked. *)
Definition approved_in (past : list (Z * Db.t)) (id : Uuid) (c : Challenge.t) : Prop :=
  exists a db' c', Challenge.approved_at c = Some a /\ (a, db') ∈ past /\ Db.challenges db' !! id = Some c' /\
    Challenge.created_at c' = Challenge.created_at c /\ is_Some (Challenge.registered_at c') /\ Challenge.approved_at c' = None /\
    Challenge.consumed_at c' = None /\ a < Challenge.expires_at c' /\ Challenge.attempt_count c' < limits.PAIRING_MAX_ATTEMPTS.

(** Device [d] of [owner] was created by one statement, which ran when the request [id] of time [t] was approved for this owner, had not expired
    and had handed out nothing. *)
Definition delivered_in (past : list (Z * Db.t)) (d id : Uuid) (t : Z) (owner : Uuid) : Prop :=
  exists now' db' c, (now', db') ∈ past /\ Db.challenges db' !! id = Some c /\ Challenge.created_at c = t /\ approved_in past id c /\
    Challenge.owner_id c = Some owner /\ Challenge.credential_delivered_at c = None /\ now' < Challenge.expires_at c /\ Db.devices db' !! d = None.

(** [source]: the challenge each device was paired with, by its id and the time it was created. *)
Record paired (now : Z) (db : Db.t) (past : list (Z * Db.t)) (source : gmap Uuid (Uuid * Z)) : Prop := {
  pd_challenges id c : Db.challenges db !! id = Some c -> challenge_ok now c;
  pd_device d dev : Db.devices db !! d = Some dev -> is_Some (source !! d);
  pd_source d p : source !! d = Some p -> is_Some (Db.devices db !! d);
  pd_once d d' p : source !! d = Some p -> source !! d' = Some p -> d = d';
  pd_row d id t c : source !! d = Some (id, t) -> Db.challenges db !! id = Some c ->
    t <= Challenge.created_at c /\
    (t = Challenge.created_at c -> is_Some (Challenge.credential_delivered_at c) /\
       exists dev, Db.devices db !! d = Some dev /\ Challenge.owner_id c = Some (Device.owner_id dev));
  pd_gone d id t : source !! d = Some (id, t) -> Db.challenges db !! id = None -> t < now;
  pd_delivered id c : Db.challenges db !! id = Some c -> is_Some (Challenge.credential_delivered_at c) ->
    exists d, source !! d = Some (id, Challenge.created_at c);
  pd_approval id c : Db.challenges db !! id = Some c -> is_Some (Challenge.approved_at c) -> approved_in past id c;
  pd_origin d id t dev : source !! d = Some (id, t) -> Db.devices db !! d = Some dev -> delivered_in past d id t (Device.owner_id dev);
}.

Definition pairing_inv (now : Z) (db : Db.t) (past : list (Z * Db.t)) : Prop := exists source, paired now db past source.

Lemma approved_in_more (past past' : list (Z * Db.t)) (id : Uuid) (c c' : Challenge.t) :
  past ⊆ past' -> Challenge.approved_at c' = Challenge.approved_at c -> Challenge.created_at c' = Challenge.created_at c ->
  approved_in past id c -> approved_in past' id c'.
Proof. intros S Ea Ec (a & db' & c0 & A & M & R). exists a, db', c0. rewrite Ea, Ec. split; [done|]. split; [by apply S|done]. Qed.

Lemma delivered_in_more (past past' : list (Z * Db.t)) (d id : Uuid) (t : Z) (owner : Uuid) :
  past ⊆ past' -> delivered_in past d id t owner -> delivered_in past' d id t owner.
Proof. intros S (now' & db' & c & M & Hc & Et & A & R). exists now', db', c. split_and!; try apply R; auto. by eapply approved_in_more. Qed.

Lemma paired_more (now : Z) (db : Db.t) (past past' : list (Z * Db.t)) (source : gmap Uuid (Uuid * Z)) :
  past ⊆ past' -> paired now db past source -> paired now db past' source.
Proof. intros S []. split; eauto using approved_in_more, delivered_in_more. Qed.

Lemma pairing_more (now : Z) (db : Db.t) (past past' : list (Z * Db.t)) : past ⊆ past' -> pairing_inv now db past -> pairing_inv now db past'.
Proof. intros S [source P]. exists source. by eapply paired_more. Qed.

Lemma challenge_ok_later (now now' : Z) (c : Challenge.t) : now <= now' -> challenge_ok now c -> challenge_ok now' c.
Proof. intros L [A B C D E]. split; [lia|done|done| |done]. intros a Ha. apply D in Ha. lia. Qed.

Lemma pairing_later (now now' : Z) (db : Db.t) (past : list (Z * Db.t)) : now <= now' -> pairing_inv now db past -> pairing_inv now' db past.
Proof.
  intros L [source [A B C D E F G I J]]. exists source. split; try done.
  - intros id c Hc. eapply challenge_ok_later; eauto.
  - intros d id t Hs Hc. specialize (F _ _ _ Hs Hc). lia.
Qed.

(** A change of one challenge that keeps what the devices know of it. *)
Lemma paired_update (now : Z) (db : Db.t) (past : list (Z * Db.t)) (source : gmap Uuid (Uuid * Z)) (id : Uuid) (c c' : Challenge.t) :
  paired now db past source -> Db.challenges db !! id = Some c -> challenge_ok now c' ->
  Challenge.created_at c' = Challenge.created_at c ->
  Challenge.credential_delivered_at c' = Challenge.credential_delivered_at c ->
  (is_Some (Challenge.credential_delivered_at c) -> Challenge.owner_id c' = Challenge.owner_id c) ->
  (Challenge.approved_at c' = Challenge.approved_at c \/ approved_in past id c') ->
  paired now (Db.with_challenges (<[id := c']> (Db.challenges db)) db) past source.
Proof.
  intros [A B C D E F G I J] Hc Ok Ec Ed Eo Ea. split; simpl.
  - intros i x [[<- <-]|[_ Hx]]%lookup_insert_Some; [done|by eapply A].
  - done.
  - done.
  - done.
  - intros d i t x Hs [[<- <-]|[_ Hx]]%lookup_insert_Some; [|by eapply E]. destruct (E _ _ _ _ Hs Hc) as [L K]. rewrite Ec, Ed. split; [done|].
    intros Et. destruct (K Et) as (Dl & dev & Hd & Ho). split; [done|]. exists dev. split; [done|]. rewrite Eo by done. done.
  - intros d i t Hs [Hn _]%lookup_insert_None. by eapply F.
  - intros i x [[<- <-]|[_ Hx]]%lookup_insert_Some Hd; [|by eapply G]. rewrite Ec. eapply G; [done|]. by rewrite <- Ed.
  - intros i x [[<- <-]|[_ Hx]]%lookup_insert_Some Ha; [|by eapply I]. destruct Ea as [Ea|]; [|done]. rewrite Ea in Ha. by eapply approved_in_more, I.
  - done.
Qed.

(** A change of devices that keeps their owners. *)
Lemma paired_devices (now : Z) (db : Db.t) (past : list (Z * Db.t)) (source : gmap Uuid (Uuid * Z)) (devices : gmap Uuid Device.t) :
  (forall d, Device.owner_id <$> devices !! d = Device.owner_id <$> Db.devices db !! d) ->
  paired now db past source -> paired now (Db.with_devices devices db) past source.
Proof.
  intros K [A B C D E F G I J]. split; simpl; try done.
  - intros d dev Hd. specialize (K d). rewrite Hd in K. destruct (Db.devices db !! d) eqn:X; [by eapply B|done].
  - intros d p Hs. destruct (C _ _ Hs) as [dev Hd]. specialize (K d). rewrite Hd in K. by destruct (devices !! d).
  - intros d id t c Hs Hc. destruct (E _ _ _ _ Hs Hc) as [L M]. split; [done|]. intros Et. destruct (M Et) as (Dl & dev & Hd & Ho).
    split; [done|]. specialize (K d). rewrite Hd in K. simpl in K. destruct (devices !! d) as [dev'|]; simplify_eq/=. exists dev'. split; [done|]. congruence.
  - intros d id t dev Hs Hd. specialize (K d). rewrite Hd in K. destruct (Db.devices db !! d) as [dev'|] eqn:X; simplify_eq/=.
    rewrite K. by eapply J.
Qed.

Lemma foldl_newer (l : list (Uuid * Challenge.t)) (x : Uuid * Challenge.t) : foldl newer x l = x \/ foldl newer x l ∈ l.
Proof.
  revert x. induction l as [|y l IH]; intros x; simpl; [by left|]. destruct (IH (newer x y)) as [E|E]; [|by right; right].
  rewrite E. unfold newer. destruct (_ <? _); [right; left|by left].
Qed.

Lemma newest_in (l : list (Uuid * Challenge.t)) (x : Uuid * Challenge.t) : newest l = Some x -> x ∈ l.
Proof. destruct l as [|y l]; [done|]. intros [= <-]. destruct (foldl_newer l y) as [->|?]; [left|by right]. Qed.

Lemma newest_where (P : Challenge.t -> bool) (db : Db.t) (id : Uuid) (c : Challenge.t) :
  newest (challenges_where P db) = Some (id, c) -> Db.challenges db !! id = Some c /\ P c = true.
Proof. intros X%newest_in. apply list_elem_of_filter in X as [Hp Hm%elem_of_map_to_list]. done. Qed.

Lemma open_for_approval_spec (now : Z) (code_digest : string) (c : Challenge.t) :
  open_for_approval now code_digest c = true <->
  Challenge.short_code_digest c = code_digest /\ is_Some (Challenge.registered_at c) /\ Challenge.approved_at c = None /\
  Challenge.consumed_at c = None /\ now < Challenge.expires_at c /\ Challenge.attempt_count c < limits.PAIRING_MAX_ATTEMPTS.
Proof. unfold open_for_approval, registered_with. rewrite !andb_true_iff, !bool_decide_eq_true, !Z.ltb_lt. tauto. Qed.

Lemma deliverable_spec (now : Z) (c : Challenge.t) :
  deliverable now c = true <-> is_Some (Challenge.approved_at c) /\ Challenge.credential_delivered_at c = None /\ now < Challenge.expires_at c.
Proof. unfold deliverable. rewrite !andb_true_iff, !bool_decide_eq_true, Z.ltb_lt. tauto. Qed.

Lemma undelivered (now : Z) (c : Challenge.t) : challenge_ok now c -> Challenge.approved_at c = None -> Challenge.credential_delivered_at c = None.
Proof. intros Ok Ha. destruct (Challenge.credential_delivered_at c) as [d|] eqn:E; [|done]. destruct (co_delivered _ _ Ok d E) as (_ & a & ? & _). congruence. Qed.

Lemma paired_approve (now : Z) (db : Db.t) (past : list (Z * Db.t)) (code_digest : string) (owner : Uuid) :
  (now, db) ∈ past -> pairing_inv now db past -> pairing_inv now (approve_statement code_digest owner now db).2 past.
Proof.
  intros Now [source P]. exists source. unfold approve_statement. destruct (newest _) as [[id c]|] eqn:N; [|done].
  apply newest_where in N as [Hc O]. apply open_for_approval_spec in O as (_ & Hr & Ha & Hk & Hx & Hl).
  pose proof (pd_challenges _ _ _ _ P _ _ Hc) as Ok. pose proof (undelivered _ _ Ok Ha) as Hd. eapply paired_update; eauto.
  - destruct Ok as [K1 K2 K3 K4 K5]. split; simpl; [done|done|done|intros a [= <-]; lia|by rewrite Hd].
  - rewrite Hd. by intros [? ?].
  - right. by exists now, db, c.
Qed.

Lemma paired_consumed (now : Z) (db : Db.t) (past : list (Z * Db.t)) (id owner : Uuid) : pairing_inv now db past -> pairing_inv now (cancel_statement id owner now db).2 past.
Proof.
  intros [source P]. exists source. unfold cancel_statement. destruct (Db.challenges db !! id) as [c|] eqn:Hc; [|done].
  destruct (_ && _); [|done]. eapply paired_update; eauto. by destruct (pd_challenges _ _ _ _ P _ _ Hc); split.
Qed.

Lemma paired_count (now : Z) (db : Db.t) (past : list (Z * Db.t)) (id : Uuid) : pairing_inv now db past -> pairing_inv now (count_attempt id now db).2 past.
Proof.
  intros [source P]. exists source. unfold count_attempt. destruct (Db.challenges db !! id) as [c|] eqn:Hc; [|done].
  eapply paired_update; eauto. by destruct (pd_challenges _ _ _ _ P _ _ Hc); split.
Qed.

Lemma paired_insert (now : Z) (db : Db.t) (past : list (Z * Db.t)) (id : Uuid) (a b c d e f : string) :
  pairing_inv now db past -> pairing_inv now (insert_challenge id a b c d e f now db).2 past.
Proof.
  intros [source P]. exists source. unfold insert_challenge. destruct (Db.challenges db !! id) as [|] eqn:Hn; [done|].
  destruct P as [A B C D E F G I J]. split; simpl; try done.
  - intros i x [[<- <-]|[_ Hx]]%lookup_insert_Some; [|by eapply A]. split; simpl; [lia|done| |done|done]. split; intros [? ?]; done.
  - intros dv i t x Hs [[<- <-]|[_ Hx]]%lookup_insert_Some; [|by eapply E]. simpl. specialize (F _ _ _ Hs Hn). split; lia.
  - intros dv i t Hs [Hi _]%lookup_insert_None. by eapply F.
  - intros i x [[<- <-]|[_ Hx]]%lookup_insert_Some; [|by eapply G]. intros [? ?]. done.
  - intros i x [[<- <-]|[_ Hx]]%lookup_insert_Some; [|by eapply I]. intros [? ?]. done.
Qed.

Lemma paired_deliver (now : Z) (db : Db.t) (past : list (Z * Db.t)) (id device : Uuid) (digest : string) :
  (now, db) ∈ past -> pairing_inv now db past -> pairing_inv now (deliver_transaction id device digest now db).2 past.
Proof.
  intros Now [source P]. unfold deliver_transaction, mark_delivered. destruct (Db.challenges db !! id) as [c|] eqn:Hc; [|by exists source].
  destruct (deliverable now c) eqn:Dl; [|by exists source]. apply deliverable_spec in Dl as (Ha & Hd & Hx). simpl.
  unfold insert_device. simpl. destruct (Challenge.owner_id c) as [owner|] eqn:Ho; [|by exists source].
  destruct (Db.devices db !! device) eqn:Hv; [by exists source|]. destruct (credential_known _ _); [by exists source|]. simpl.
  exists (<[device := (id, Challenge.created_at c)]> source). destruct P as [A B C D E F G I J].
  assert (Ns : source !! device = None). { destruct (source !! device) as [p|] eqn:S; [|done]. destruct (C _ _ S) as [? ?]. congruence. }
  assert (Fresh : forall d, source !! d <> Some (id, Challenge.created_at c)).
  { intros d S. destruct (E _ _ _ _ S Hc) as [_ K]. destruct (K eq_refl) as [[? ?] _]. congruence. }
  pose proof (A _ _ Hc) as [K1 K2 K3 K4 K5]. split; simpl.
  - intros i x [[<- <-]|[_ Hx']]%lookup_insert_Some; [|by eapply A]. split; simpl; [done|done|done|done|]. intros d [= <-]. split; [lia|].
    destruct Ha as [a Ha]. exists a. split; [done|]. destruct (K4 _ Ha). lia.
  - intros d dev [[<- <-]|[Ne Hd']]%lookup_insert_Some; [by rewrite lookup_insert_eq|]. rewrite lookup_insert_ne by done. by eapply B.
  - intros d p [[<- <-]|[Ne S]]%lookup_insert_Some; [by rewrite lookup_insert_eq|]. rewrite lookup_insert_ne by done. by eapply C.
  - intros d d' p [[<- <-]|[Ne S]]%lookup_insert_Some [[<- S']|[Ne' S']]%lookup_insert_Some.
    + done. + by destruct (Fresh d'). + simplify_eq. by destruct (Fresh d). + by eapply D.
  - intros d i t x [[<- S]|[Ne S]]%lookup_insert_Some [[<- <-]|[Ne' Hx']]%lookup_insert_Some; simpl.
    + injection S as <-. split; [lia|]. intros _. split; [done|]. eexists. by rewrite lookup_insert_eq.
    + injection S as -> _. done.
    + destruct (E _ _ _ _ S Hc) as [L K]. split; [done|]. intros ->. by destruct (Fresh d).
    + destruct (E _ _ _ _ S Hx') as [L K]. split; [done|]. intros Et. destruct (K Et) as (? & dev & ? & ?). split; [done|]. exists dev.
      by rewrite lookup_insert_ne by done.
  - intros d i t [[<- S]|[Ne S]]%lookup_insert_Some [Hi Ni]%lookup_insert_None; [injection S as -> _; done|]. by eapply F.
  - intros i x [[<- <-]|[Ne Hx']]%lookup_insert_Some Hd'; [exists device; by rewrite lookup_insert_eq|]. destruct (G _ _ Hx' Hd') as [d S].
    exists d. rewrite lookup_insert_ne; [done|]. intros ->. congruence.
  - intros i x [[<- <-]|[_ Hx']]%lookup_insert_Some Ha'; [|by eapply I]. eapply approved_in_more; [..|by eapply I]; done.
  - intros d i t dev [[<- S]|[Ne S]]%lookup_insert_Some; [|rewrite lookup_insert_ne by done; by eapply J]. injection S as <- <-.
    rewrite lookup_insert_eq. intros [= <-]. exists now, db, c. split_and!; try done. by eapply I.
Qed.

Lemma paired_delete (now : Z) (db : Db.t) (past : list (Z * Db.t)) : pairing_inv now db past -> pairing_inv now (delete_old_challenges now db).2 past.
Proof.
  intros [source [A B C D E F G I J]]. exists source. split; simpl; try done.
  - intros i x [Hx _]%map_lookup_filter_Some. by eapply A.
  - intros d i t x S [Hx _]%map_lookup_filter_Some. by eapply E.
  - intros d i t S [Hn|Hn]%map_lookup_filter_None; [by eapply F|]. destruct (Db.challenges db !! i) as [c|] eqn:Hc; [|by eapply F].
    specialize (Hn _ eq_refl). simpl in Hn. destruct (E _ _ _ _ S Hc) as [L _]. destruct (A _ _ Hc) as [K1 K2 _ _ _]. unfold limits.PAIRING_RETENTION, limits.PAIRING_TTL in *. lia.
  - intros i x [Hx _]%map_lookup_filter_Some Hd. by eapply G.
  - intros i x [Hx _]%map_lookup_filter_Some Hd. by eapply I.
Qed.

Lemma same_owners (db : Db.t) (device : Uuid) (d d' : Device.t) (x : Uuid) :
  Db.devices db !! device = Some d -> Device.owner_id d' = Device.owner_id d ->
  Device.owner_id <$> <[device := d']> (Db.devices db) !! x = Device.owner_id <$> Db.devices db !! x.
Proof.
  intros Hd Ho. destruct (decide (x = device)) as [->|N]; [|by rewrite lookup_insert_ne].
  rewrite lookup_insert_eq, Hd. simpl. by rewrite Ho.
Qed.

Lemma altered_owners (db : Db.t) (device : Uuid) (f : Device.t -> Device.t) (x : Uuid) :
  (forall d, Device.owner_id (f d) = Device.owner_id d) ->
  Device.owner_id <$> alter f device (Db.devices db) !! x = Device.owner_id <$> Db.devices db !! x.
Proof. intros Hf. rewrite lookup_alter. case_decide as N; [subst|done]. destruct (Db.devices db !! x); simpl; by rewrite ?Hf. Qed.

Lemma own_live_device_Some (device owner : Uuid) (db : Db.t) (d : Device.t) :
  own_live_device device owner db = Some d <-> Db.devices db !! device = Some d /\ Device.owner_id d = owner /\ Device.revoked_at d = None.
Proof. unfold own_live_device. destruct (Db.devices db !! device); simpl; [|naive_solver]. case_bool_decide; naive_solver. Qed.

(** Every statement keeps the invariant. *)
Lemma stmt_inv (s : Stmt) (now : Z) (db : Db.t) (past : list (Z * Db.t)) :
  pairing_inv now db past -> pairing_inv now (run_stmt s now db) ((now, db) :: past).
Proof.
  intros P. assert (Now : (now, db) ∈ (now, db) :: past) by left. apply (pairing_more _ _ _ ((now, db) :: past)) in P; [|by right].
  revert P Now. generalize ((now, db) :: past). clear past. intros past P Now.
  destruct s as [| | | | |device owner name hide|device owner|device|device compat control|e| | |]; simpl.
  - by apply paired_insert.
  - by apply paired_approve.
  - by apply paired_count.
  - by apply paired_consumed.
  - by apply paired_deliver.
  - unfold patch_statement. destruct (own_live_device _ _ _) as [d|] eqn:O; [|done]. apply own_live_device_Some in O as (Hd & _).
    destruct P as [source P]. exists source. apply paired_devices; [|done]. intros x. by eapply same_owners.
  - unfold revoke_statement. destruct (own_live_device _ _ _) as [d|] eqn:O; [|done]. apply own_live_device_Some in O as (Hd & _).
    destruct P as [source P]. exists source. apply paired_devices; [|done]. intros x. by eapply same_owners.
  - destruct P as [source P]. exists source. apply paired_devices; [|done]. intros x. by apply altered_owners.
  - destruct P as [source P]. exists source. apply paired_devices; [|done]. intros x. by apply altered_owners.
  - destruct P as [source []]. by exists source; split.
  - destruct P as [source []]. by exists source; split.
  - by apply paired_delete.
  - done.
Qed.

(** ** The handlers among other tasks *)

Module PWorld.
Record t := mk {
  db : Db.t;
  now : Z;
  limiters : Limiter -> RateMap;
  past : list (Z * Db.t);
}.
(** [past] is no state of the code: the tables before each statement, for the statements about them. *)
Definition with_db (x : Db.t) (w : t) : t := mk x (now w) (limiters w) ((now w, db w) :: past w).
Definition with_limiter (l : Limiter) (x : RateMap) (w : t) : t :=
  mk (db w) (now w) (fun l' => if bool_decide (l' = l) then x else limiters w l') (past w).
Definition default : t := mk Db.empty 0 (fun _ => ∅) [].
End PWorld.

(** A statement that fails may nevertheless have been executed: the connection can break before its answer. *)
Definition pstep (B : Type) (o : pop B) (w : PWorld.t) : option B -> PWorld.t -> Prop :=
  match o in pop B return option B -> PWorld.t -> Prop with
  | Hit l ip limit => fun b w' => exists instant,
      b = Some (hit instant limits.PAIRING_RATE_WINDOW limit ip (PWorld.limiters w l)).1 /\
      w' = PWorld.with_limiter l (hit instant limits.PAIRING_RATE_WINDOW limit ip (PWorld.limiters w l)).2 w
  | Run s => fun b w' =>
      (b = Some (s (PWorld.now w) (PWorld.db w)).1 /\ w' = PWorld.with_db (s (PWorld.now w) (PWorld.db w)).2 w) \/
      (b = Some None /\ (w' = w \/ w' = PWorld.with_db (s (PWorld.now w) (PWorld.db w)).2 w))
  | ShortCodeNumber => fun b w' => (exists n, b = Some n /\ 0 <= n < 1000000) /\ w' = w
  | _ => fun b w' => b <> None /\ w' = w
  end.

(** Another task runs a statement or uses a limiter, or time passes. *)
Inductive pothers : PWorld.t -> PWorld.t -> Prop :=
| OtherStatement w s : pothers w (PWorld.with_db (run_stmt s (PWorld.now w) (PWorld.db w)) w)
| OtherHit w l m : pothers w (PWorld.with_limiter l m w)
| TimePasses w now' : PWorld.now w <= now' -> pothers w (PWorld.mk (PWorld.db w) now' (PWorld.limiters w) (PWorld.past w)).

Notation pexec := (texec pothers pstep (fun _ _ _ => @nil unit)).

Definition world_inv (w : PWorld.t) : Prop := pairing_inv (PWorld.now w) (PWorld.db w) (PWorld.past w).

(** A handler only runs the statements above, and approves for the owners [may_approve]. *)
Definition pairing_safe (may_approve : Uuid -> Prop) (B : Type) (o : pop B) : Prop :=
  match o with
  | Run s => exists stmt, (forall now db, (s now db).2 = run_stmt stmt now db) /\ match stmt with SApprove _ owner => may_approve owner | _ => True end
  | _ => True
  end.

Lemma others_inv (w w' : PWorld.t) : pothers w w' -> world_inv w -> world_inv w'.
Proof. intros [w0 s|w0 l m|w0 now' L]; unfold world_inv; simpl; [apply stmt_inv|done|by apply pairing_later]. Qed.

Lemma step_inv (may_approve : Uuid -> Prop) (B : Type) (o : pop B) (w : PWorld.t) (b : option B) (w' : PWorld.t) :
  pairing_safe may_approve B o -> pstep B o w b w' -> world_inv w -> world_inv w'.
Proof.
  destruct o as [l ip limit|A s| | | | |d|d]; simpl; intros Safe St I.
  - by destruct St as (instant & _ & ->).
  - destruct Safe as (stmt & E & _). destruct St as [[_ ->]|[_ [->| ->]]]; [| done|]; unfold world_inv; simpl; rewrite E; by apply stmt_inv.
  - by destruct St as [_ ->].
  - by destruct St as [_ ->].
  - by destruct St as [_ ->].
  - by destruct St as [_ ->].
  - by destruct St as [_ ->].
  - by destruct St as [_ ->].
Qed.

(** A statement that shows a request as approved either found it so, or approves it for one of the owners [may_approve]. *)
Definition approves_for (may_approve : Uuid -> Prop) (B : Type) (o : pop B) : Prop :=
  match o with
  | Run s => forall now db id c, Db.challenges (s now db).2 !! id = Some c -> is_Some (Challenge.approved_at c) ->
      (exists c', Db.challenges db !! id = Some c' /\ Challenge.approved_at c' = Challenge.approved_at c /\ Challenge.owner_id c' = Challenge.owner_id c) \/
      exists owner, Challenge.owner_id c = Some owner /\ may_approve owner
  | _ => True
  end.

Lemma stmt_approves (s : Stmt) (now : Z) (db : Db.t) (id : Uuid) (c : Challenge.t) :
  Db.challenges (run_stmt s now db) !! id = Some c -> is_Some (Challenge.approved_at c) ->
  (exists c', Db.challenges db !! id = Some c' /\ Challenge.approved_at c' = Challenge.approved_at c /\ Challenge.owner_id c' = Challenge.owner_id c) \/
  exists digest owner, s = SApprove digest owner /\ Challenge.owner_id c = Some owner.
Proof.
  assert (Same : Db.challenges db !! id = Some c -> exists c', Db.challenges db !! id = Some c' /\ Challenge.approved_at c' = Challenge.approved_at c /\ Challenge.owner_id c' = Challenge.owner_id c) by eauto.
  destruct s as [i|digest owner|i|i owner|i device credential|device owner name hide|device owner|device|device compat control|e| | |]; cbn [run_stmt]; try (intros; left; by apply Same).
  - unfold insert_challenge. destruct (Db.challenges db !! i); [by auto|]. cbn. intros [[<- <-]|[_ Hc]]%lookup_insert_Some A; [by destruct A|auto].
  - unfold approve_statement. destruct (newest _) as [[i c0]|]; [|by auto]. cbn. intros [[<- <-]|[_ Hc]]%lookup_insert_Some A; [|auto]. right. by exists digest, owner.
  - unfold count_attempt. destruct (Db.challenges db !! i) as [c0|] eqn:Hi; [|by auto]. cbn. intros [[<- <-]|[_ Hc]]%lookup_insert_Some A; [|auto]. left. by exists c0.
  - unfold cancel_statement. destruct (Db.challenges db !! i) as [c0|] eqn:Hi; [|by auto]. destruct (_ && _); [|by auto].
    cbn. intros [[<- <-]|[_ Hc]]%lookup_insert_Some A; [|auto]. left. by exists c0.
  - unfold deliver_transaction, mark_delivered. destruct (Db.challenges db !! i) as [c0|] eqn:Hi; [|by auto]. destruct (deliverable _ _); [|by auto]. simpl.
    unfold insert_device. simpl. destruct (Challenge.owner_id c0) eqn:Ho; [|by auto]. destruct (Db.devices db !! device); [by auto|]. destruct (credential_known _ _); [by auto|]. simpl.
    intros [[<- <-]|[_ Hc]]%lookup_insert_Some A; [|auto]. left. by exists c0.
  - unfold patch_statement. destruct (own_live_device _ _ _); auto.
  - unfold revoke_statement. destruct (own_live_device _ _ _); auto.
  - cbn. intros [Hc _]%map_lookup_filter_Some A. auto.
Qed.

Lemma safe_approves (may_approve : Uuid -> Prop) (B : Type) (o : pop B) : pairing_safe may_approve B o -> approves_for may_approve B o.
Proof.
  destruct o; try done. intros (stmt & E & M) now db id c. rewrite E. intros Hc Ap. destruct (stmt_approves _ _ _ _ _ Hc Ap) as [?|(digest & owner & -> & Ho)]; [by left|]. right. by exists owner.
Qed.

Lemma prog_all_weaken {op : Type -> Type} (P Q : forall B, op B -> Prop) {A : Type} (p : prog op A) :
  (forall B o, P B o -> Q B o) -> prog_all P p -> prog_all Q p.
Proof. intros W. induction p as [a|B o k IH]; [done|]. intros [Po Pk]. split; [by apply W|]. intros b. apply IH, Pk. Qed.

Lemma safe_run (may_approve : Uuid -> Prop) {A : Type} (s : Statement A) (stmt : Stmt) :
  (forall now db, (s now db).2 = run_stmt stmt now db) -> match stmt with SApprove _ owner => may_approve owner | _ => True end ->
  prog_all (pairing_safe may_approve) (run s).
Proof. intros E M. split; [by exists stmt|done]. Qed.

(** Find the statement an operation runs. *)
Ltac safe_run_tac :=
  solve [eapply (safe_run _ _ SSelect); [reflexivity|done] | eapply (safe_run _ _ (SInsertChallenge _ _ _ _ _ _ _)); [reflexivity|done]
    | eapply (safe_run _ _ (SApprove _ _)); [reflexivity|done] | eapply (safe_run _ _ (SCount _)); [reflexivity|done]
    | eapply (safe_run _ _ (SCancel _ _)); [reflexivity|done] | eapply (safe_run _ _ (SDeliver _ _ _)); [reflexivity|done]
    | eapply (safe_run _ _ (SPatch _ _ _ _)); [reflexivity|done] | eapply (safe_run _ _ (SRevoke _ _)); [reflexivity|done]].

Lemma safe_audit (may_approve : Uuid -> Prop) (owner : Uuid) (device : option Uuid) (operation : string) :
  prog_all (pairing_safe may_approve) (record_audit owner device operation).
Proof. split; [by exists (SAudit (AuditEvent.mk owner device operation "OK"))|done]. Qed.

Section Handlers.
Context `{AuthCrates} `{Sha256}.
Variable config : Config.t.

Inductive pairing_handler : pprog Reply -> Prop :=
| HRegister peer headers body : pairing_handler (register config peer headers body)
| HClaim peer headers id challenge : pairing_handler (claim config peer headers id challenge)
| HLookup peer headers code : pairing_handler (lookup config peer headers code)
| HApprove peer headers body : pairing_handler (approve_challenge config peer headers body)
| HListChallenges peer headers : pairing_handler (list_challenges config peer headers)
| HCancel peer headers id : pairing_handler (cancel_challenge config peer headers id)
| HListDevices peer headers : pairing_handler (list_devices config peer headers)
| HPatch peer headers id name hide : pairing_handler (patch_device config peer headers id name hide)
| HRevoke peer headers id : pairing_handler (revoke_device config peer headers id).

(** [p] is an approval that comes over the trusted proxy, which names [owner]. *)
Definition asked_by (p : pprog Reply) (owner : Uuid) : Prop :=
  exists peer headers body, p = approve_challenge config peer headers body /\ is_trusted_proxy config peer = true /\ headers HDR_OWNER ≫= uuid_of = Some owner.

Lemma safe_identity (may_approve : Uuid -> Prop) (peer : IpAddr) (headers : HeaderMap) (handler : Uuid -> pprog Reply) :
  (forall owner, is_trusted_proxy config peer = true -> headers HDR_OWNER ≫= uuid_of = Some owner -> prog_all (pairing_safe may_approve) (handler owner)) ->
  prog_all (pairing_safe may_approve) (with_identity config peer headers handler).
Proof.
  intros Hh. split; [done|]. intros now. simpl. destruct (browser_http_identity _ _ _ _) as [i|] eqn:E; [|done]. unfold browser_http_identity in E.
  destruct (is_trusted_proxy config peer) eqn:T; [|done]. destruct (headers HDR_SESSION ≫= uuid_of) eqn:S, (headers HDR_OWNER ≫= uuid_of) eqn:O; simplify_eq/=.
  destruct (headers HDR_EXPIRES ≫= rfc3339_of); [case_match|]; simplify_eq/=; by apply Hh.
Qed.

Lemma safe_online (may_approve : Uuid -> Prop) (rows : list (Uuid * Device.t)) : prog_all (pairing_safe may_approve) (with_online rows).
Proof. induction rows as [|[id d] rows IH]; [done|]. split; [done|]. intros b. simpl. apply prog_all_bind; [exact IH|done]. Qed.

Lemma pairing_handler_safe (p : pprog Reply) : pairing_handler p -> prog_all (pairing_safe (asked_by p)) p.
Proof.
  intros [peer headers body|peer headers id challenge|peer headers code|peer headers body|peer headers|peer headers id|peer headers|
    peer headers id name hide|peer headers id];
    try (apply safe_identity; intros owner Tr Ow); [..|assert (May : asked_by (approve_challenge config peer headers body) owner) by (by exists peer, headers, body)| | | | |];
    unfold register, claim, approve, check_attempt; cbn zeta; prog_all_tac; try apply safe_audit; try apply safe_online; safe_run_tac.
Qed.

(** C7. A credential needs an approval, and an approval gives one credential.  Whatever handlers overlap and whatever
    statements fail, after each of them every device belongs to a pairing request of its own: the device was created by
    a statement that ran when this request was approved in the name of the device's owner, was not expired and had handed out
    nothing; and the approval itself was a statement that ran when the request was registered, open, not expired and not locked.
    Two devices never come from one request, and a request is never marked without its device.  No handler but
    [approve_challenge] approves, and it does for the owner the trusted proxy names. *)
Theorem credentials_need_approval (p : pprog Reply) (w w' : PWorld.t) (t : list unit) (r : option Reply) :
  pairing_handler p -> pexec p w t r w' -> world_inv w -> world_inv w' /\ prog_all (approves_for (asked_by p)) p.
Proof.
  intros Hp%pairing_handler_safe X I. split; [|by eapply prog_all_weaken, Hp; intros; apply safe_approves]. revert X I. eapply texec_stable_all; eauto using others_inv, step_inv.
Qed.

(** ** What the answers mean *)

(** What has happened between two states of the tables. *)
Definition before (w w' : PWorld.t) : Prop := rtc (fun w w' => pothers w w' \/ exists B (o : pop B) b, pstep B o w b w') w w'.

#[local] Instance before_preorder : PreOrder before.
Proof. split; [intros w; apply rtc_refl|intros w1 w2 w3; apply rtc_trans]. Qed.

Lemma before_others (w w' : PWorld.t) : rtc pothers w w' -> before w w'.
Proof. apply rtc_subrel. by left. Qed.

Lemma before_step (B : Type) (o : pop B) (w w' : PWorld.t) (b : option B) : pstep B o w b w' -> before w w'.
Proof. intros St. apply rtc_once. right. eauto. Qed.

Lemma before_exec {A : Type} (p : pprog A) (w w' : PWorld.t) (t : list unit) (r : option A) : pexec p w t r w' -> before w w'.
Proof.
  revert w t. induction p as [a|B o k IH]; intros w t; simpl; [intros (_ & _ & ->); apply rtc_refl|]. intros (w1 & b & w2 & O & St & X).
  transitivity w1; [by apply before_others|]. transitivity w2; [eapply before_step; exact St|]. destruct b as [b|]; [|destruct X as (_ & _ & ->); apply rtc_refl].
  destruct X as (t' & X & _). by eapply IH.
Qed.

Lemma pexec_act {B C : Type} (o : pop B) (k : B -> pprog C) (w w' : PWorld.t) (t : list unit) (c : C) :
  pexec (prog_bind (act o) k) w t (Some c) w' -> exists w1 b w2 t', before w w1 /\ pstep B o w1 (Some b) w2 /\ pexec (k b) w2 t' (Some c) w'.
Proof.
  intros (w1 & [b|] & w2 & O & St & X); [|by destruct X as (_ & ? & _)]. destruct X as (t' & X & _).
  exists w1, b, w2, t'. split_and!; [by apply before_others|done|done].
Qed.

(** What the answer to a statement says about the tables it ran on. *)
Lemma run_step {A : Type} (s : Statement A) (w w' : PWorld.t) (a : A) :
  pstep _ (Run s) w (Some (Some a)) w' ->
  (s (PWorld.now w) (PWorld.db w)).1 = Some a /\ w' = PWorld.with_db (s (PWorld.now w) (PWorld.db w)).2 w.
Proof. intros [[E ->]|[E _]]; [|done]. split; [congruence|done]. Qed.

Lemma delivery_spec (id device : Uuid) (digest : string) (now : Z) (db : Db.t) (owner : Uuid) :
  (deliver_transaction id device digest now db).1 = Some (Some owner) ->
  exists c, Db.challenges db !! id = Some c /\ Challenge.owner_id c = Some owner /\ is_Some (Challenge.approved_at c) /\
    Challenge.credential_delivered_at c = None /\ now < Challenge.expires_at c /\ Db.devices db !! device = None /\
    Db.challenges (deliver_transaction id device digest now db).2 = <[id := Challenge.with_delivery now c]> (Db.challenges db) /\
    exists d, Db.devices (deliver_transaction id device digest now db).2 = <[device := d]> (Db.devices db) /\
      Device.owner_id d = owner /\ Device.credential_digest d = digest /\ Device.revoked_at d = None.
Proof.
  unfold deliver_transaction, mark_delivered. destruct (Db.challenges db !! id) as [c|] eqn:Hc; [|done].
  destruct (deliverable now c) eqn:Dl; [|done]. apply deliverable_spec in Dl as (Ha & Hd & Hx). simpl. unfold insert_device. simpl.
  destruct (Challenge.owner_id c) as [o|] eqn:Ho; [|done]. destruct (Db.devices db !! device) eqn:Hv; [done|].
  destruct (credential_known _ _); [done|]. simpl. intros [= <-]. exists c. split_and!; try done. eexists. split; [done|]. done.
Qed.

(** What a Bridge that gets a credential has proved.  When [claim] answers with a device and a credential, the
    request it named was seen with the digest of the challenge it sent; and in one step, while the request was
    approved, not expired and nothing had been delivered for it, the device was created for the owner who
    approved, with the digest of exactly this credential, and the request was marked. *)
Theorem claim_delivers (peer : IpAddr) (headers : HeaderMap) (id : Uuid) (challenge : string) (device : Uuid) (credential : string)
    (w w' : PWorld.t) (t : list unit) :
  pexec (claim config peer headers id challenge) w t (Some (ClaimReady device credential)) w' ->
  exists w1 w2 w3 c1 c owner d,
    before w w1 /\ Db.challenges (PWorld.db w1) !! id = Some c1 /\ Challenge.challenge_digest c1 = sha256_hex (trim challenge) /\
    before w1 w2 /\ Db.challenges (PWorld.db w2) !! id = Some c /\ Challenge.owner_id c = Some owner /\ is_Some (Challenge.approved_at c) /\
    Challenge.credential_delivered_at c = None /\ PWorld.now w2 < Challenge.expires_at c /\ Db.devices (PWorld.db w2) !! device = None /\
    Db.devices (PWorld.db w3) = <[device := d]> (Db.devices (PWorld.db w2)) /\ Device.owner_id d = owner /\
    Device.credential_digest d = sha256_hex credential /\
    Db.challenges (PWorld.db w3) = <[id := Challenge.with_delivery (PWorld.now w2) c]> (Db.challenges (PWorld.db w2)) /\ before w3 w'.
Proof.
  unfold claim. intros X. apply pexec_act in X as (w0 & over & w0' & t0 & B0 & S0 & X). destruct over; [by destruct X as (_ & ? & _)|].
  apply pexec_act in X as (w1 & row & w1' & t1 & B1 & S1 & X). destruct row as [[c1|]|]; [|by destruct X as (_ & ? & _)..].
  pose proof (before_step _ _ _ _ _ S1) as K1. apply run_step in S1 as [E1 ->]. injection E1 as E1. destruct (ct_eq_hex _ _) eqn:Ct; [|by destruct X as (_ & ? & _)]. cbn [negb] in X.
  apply pexec_act in X as (w2 & now & w2' & t2 & B2 & S2 & X). destruct (_ <=? _); [by destruct X as (_ & ? & _)|].
  destruct (bool_decide _); [by destruct X as (_ & ? & _)|]. destruct (bool_decide _); [by destruct X as (_ & ? & _)|].
  apply pexec_act in X as (w3 & cred & w3' & t3 & B3 & S3 & X). apply pexec_act in X as (w4 & dev & w4' & t4 & B4 & S4 & X).
  apply pexec_act in X as (w5 & delivered & w5' & t5 & B5 & S5 & X). destruct delivered as [[owner|]|]; [|by destruct X as (_ & ? & _)..].
  apply run_step in S5 as [E5 ->]. apply texec_bind in X as [[_ ?]|(t6 & [] & w6 & t7 & X6 & X & _)]; [done|].
  destruct X as (_ & [= <- <-] & ->). apply before_exec in X6.
  apply delivery_spec in E5 as (c & Hc & Ho & Ha & Hd & Hx & Hv & Ec & d & Ed & Do & Dc & _).
  exists w1, w5, (PWorld.with_db (deliver_transaction id device (sha256_hex credential) (PWorld.now w5) (PWorld.db w5)).2 w5), c1, c, owner, d.
  split_and!; try done.
  - transitivity w0; [done|]. transitivity w0'; [by eapply before_step|done].
  - unfold ct_eq_hex in Ct. by apply bool_decide_eq_true in Ct.
  - etrans; [exact K1|]. transitivity w2; [done|]. transitivity w2'; [by eapply before_step|]. transitivity w3; [done|]. transitivity w3'; [by eapply before_step|].
    transitivity w4; [done|]. transitivity w4'; [by eapply before_step|done].
Qed.

(** An approval goes to the newest open request with the short code, and to no request that is approved, cancelled, expired or locked. *)
Lemma approve_spec (code_digest : string) (owner id : Uuid) (at_ now : Z) (db : Db.t) :
  (approve_statement code_digest owner now db).1 = Some (Some (id, at_)) ->
  exists c, Db.challenges db !! id = Some c /\ open_for_approval now code_digest c = true /\ at_ = now /\
    Db.challenges (approve_statement code_digest owner now db).2 = <[id := Challenge.with_approval now owner c]> (Db.challenges db) /\
    (forall id' c', Db.challenges db !! id' = Some c' -> open_for_approval now code_digest c' = true -> Challenge.created_at c' <= Challenge.created_at c).
Proof.
  unfold approve_statement. destruct (newest _) as [[i c]|] eqn:N; [|done]. simpl. intros [= -> <-].
  pose proof (newest_where _ _ _ _ N) as [Hc O].
  exists c. split_and!; try done. intros id' c' Hc' O'.
  assert (M : forall l x y, y ∈ l \/ y = x -> Challenge.created_at y.2 <= Challenge.created_at (foldl newer x l).2).
  { clear. intros l. induction l as [|z l IH]; intros x y; simpl; [intros [N|E]; [by apply not_elem_of_nil in N|by rewrite E]|].
    intros D. assert (Challenge.created_at x.2 <= Challenge.created_at (newer x z).2 /\ Challenge.created_at z.2 <= Challenge.created_at (newer x z).2) as [Lx Lz].
    { unfold newer. destruct (Z.ltb_spec (Challenge.created_at x.2) (Challenge.created_at z.2)); lia. }
    destruct D as [[->|I]%elem_of_cons| ->]; [|by apply IH; left|]; (etrans; [|by apply (IH (newer x z) (newer x z)); right]); lia. }
  assert (I : (id', c') ∈ challenges_where (open_for_approval now code_digest) db).
  { apply list_elem_of_filter. split; [done|]. by apply elem_of_map_to_list. }
  destruct (challenges_where _ db) as [|z l]; [done|]. injection N as N. specialize (M l z (id', c')). rewrite N in M. apply M.
  apply elem_of_cons in I as [?|?]; [by right|by left].
Qed.
End Handlers.

(** ** Concrete runs: the handlers one after the other, without failures *)

Module PairingDemo.
Record Setup := setup { world : PWorld.t; ids : list Uuid; numbers : list Z; tokens : list string }.
Definition next_db (x : Db.t) (e : Setup) : Setup := setup (PWorld.with_db x (world e)) (ids e) (numbers e) (tokens e).
Definition at_time (now : Z) (e : Setup) : Setup := setup (PWorld.mk (PWorld.db (world e)) now (PWorld.limiters (world e)) (PWorld.past (world e))) (ids e) (numbers e) (tokens e).

Fixpoint eval {A : Type} (p : pprog A) (e : Setup) : A * Setup :=
  match p with
  | Ret a => (a, e)
  | Act o k =>
      match o in pop B return (B -> pprog A) -> A * Setup with
      | Hit l ip limit => fun k =>
          let '(b, m) := hit (PWorld.now (world e)) limits.PAIRING_RATE_WINDOW limit ip (PWorld.limiters (world e) l) in
          eval (k b) (setup (PWorld.with_limiter l m (world e)) (ids e) (numbers e) (tokens e))
      | Run s => fun k => let '(a, db) := s (PWorld.now (world e)) (PWorld.db (world e)) in eval (k a) (next_db db e)
      | Utc => fun k => eval (k (PWorld.now (world e))) e
      | NewUuid => fun k => eval (k (hd "" (ids e))) (setup (world e) (tl (ids e)) (numbers e) (tokens e))
      | ShortCodeNumber => fun k => eval (k (hd 0 (numbers e))) (setup (world e) (ids e) (tl (numbers e)) (tokens e))
      | HighEntropyToken => fun k => eval (k (hd "" (tokens e))) (setup (world e) (ids e) (numbers e) (tl (tokens e)))
      | OnlineNow _ => fun k => eval (k false) e
      | CloseBridge _ => fun k => eval (k tt) e
      end k
  end.

(** Such a run is one of the runs above. *)
Lemma eval_exec {A : Type} (p : pprog A) (e : Setup) :
  Forall (fun n => 0 <= n < 1000000) (numbers e) -> pexec p (world e) [] (Some (eval p e).1) (world (eval p e).2).
Proof.
  revert e. induction p as [a|B o k IH]; intros e F; [done|]. destruct o as [l ip limit|C s| | | | |d|d]; cbn [eval].
  - destruct (hit _ _ _ _ _) as [b m] eqn:Eh. exists (world e), (Some b), (PWorld.with_limiter l m (world e)).
    split_and!; [constructor| |by eexists []; split; [by apply (IH b (setup _ _ _ _))|]]. exists (PWorld.now (world e)). by rewrite Eh.
  - destruct (s _ _) as [a db] eqn:Es. exists (world e), (Some a), (PWorld.with_db db (world e)).
    split_and!; [constructor| |by eexists []; split; [by apply (IH a (next_db db e))|]]. left. by rewrite Es.
  - exists (world e), (Some (PWorld.now (world e))), (world e). split_and!; [constructor|done|by eexists []; split; [by apply IH|]].
  - exists (world e), (Some (hd "" (ids e))), (world e). split_and!; [constructor|done|by eexists []; split; [by apply (IH _ (setup _ _ _ _))|]].
  - exists (world e), (Some (hd 0 (numbers e))), (world e). split_and!; [constructor| |].
    + split; [|done]. eexists. split; [done|]. destruct (numbers e); simpl; [lia|]. by apply Forall_inv in F.
    + eexists []; split; [|done]. apply (IH _ (setup _ _ _ _)). destruct (numbers e); [done|]. by apply Forall_inv_tail in F.
  - exists (world e), (Some (hd "" (tokens e))), (world e). split_and!; [constructor|done|by eexists []; split; [by apply (IH _ (setup _ _ _ _))|]].
  - exists (world e), (Some false), (world e). split_and!; [constructor|done|by eexists []; split; [by apply IH|]].
  - exists (world e), (Some tt), (world e). split_and!; [constructor|done|by eexists []; split; [by apply IH|]].
Qed.

(** The answers of a list of handlers, each at its time. *)
Fixpoint session (l : list (Z * pprog Reply)) (e : Setup) : list Reply :=
  match l with
  | [] => []
  | (now, p) :: l => let '(r, e) := eval p (at_time now e) in r :: session l e
  end.

#[local] Instance demo_auth : AuthCrates := { uuid_of := Some; rfc3339_of := fun _ => None; base64_decode := fun _ => None }.
#[local] Instance demo_sha : Sha256 := fun s => "#" +:+ s.

Definition proxy : IpAddr := V4 2130706433.
Definition config : Config.t := Config.mk [NetV4 2130706432 8] 60000 120000 45000.
Definition no_headers : HeaderMap := fun _ => None.
Definition as_owner (owner : string) : HeaderMap := fun name =>
  if bool_decide (name = HDR_SESSION) then Some "session" else if bool_decide (name = HDR_OWNER) then Some owner else None.

Definition secret (c : string) : string := String.concat "" (replicate 43 c).
Definition body (c : string) : RegisterBody.t := RegisterBody.mk (secret c) "laptop" "macos" "aarch64" "0.1.0".
Definition start : Setup := setup PWorld.default ["c1"; "c2"; "d1"; "d2"] [42; 42] ["token-1"; "token-2"].

(** Register, look up, approve, claim: the credential is handed out once. *)
Lemma pairing_completes :
  session [(0, register config proxy no_headers (body "x")); (1, claim config proxy no_headers "c1" (secret "x"));
           (2, lookup config proxy (as_owner "alice") " 000042 "); (3, approve_challenge config proxy (as_owner "alice") (ApproveBody.mk "000042" (Some "c1")));
           (4, claim config proxy no_headers "c1" (secret "y")); (5, claim config proxy no_headers "c1" (secret "x"));
           (6, claim config proxy no_headers "c1" (secret "x"))]
    (setup PWorld.default ["c1"; "d1"] [42] ["token-1"]) =
  [Registered "c1" "000042" 300000; ClaimPending; Found "c1" (Some "laptop") (Some "macos") (Some "aarch64") (Some "0.1.0") 300000;
   ApprovedReply "c1" 3; err 401 pb.StableErrorCode.AuthRequired "CHALLENGE_MISMATCH"; ClaimReady "d1" "token-1";
   err 409 pb.StableErrorCode.DuplicateRequestMismatch "CONSUMED"].
Proof. vm_compute. reflexivity. Qed.

Lemma empty_inv : world_inv PWorld.default.
Proof. exists ∅. split; try (intros *; simpl; rewrite lookup_empty; done). Qed.

Definition after (l : list (Z * pprog Reply)) (e : Setup) : Setup := foldl (fun e '(now, p) => (eval p (at_time now e)).2) e l.
Definition until_approved : list (Z * pprog Reply) :=
  [(0, register config proxy no_headers (body "x")); (3, approve_challenge config proxy (as_owner "alice") (ApproveBody.mk "000042" (Some "c1")))].
Definition approved : Setup := at_time 5 (after until_approved (setup PWorld.default ["c1"; "d1"] [42] ["token-1"])).

Lemma at_time_inv (now : Z) (e : Setup) : PWorld.now (world e) <= now -> world_inv (world e) -> world_inv (world (at_time now e)).
Proof. intros L I. by eapply pairing_later. Qed.

(** Register, approve, claim: the three handlers in a row, up to a paired device. *)
Definition first_handler : pprog Reply := register config proxy no_headers (body "x").
Definition second_handler : pprog Reply := approve_challenge config proxy (as_owner "alice") (ApproveBody.mk "000042" (Some "c1")).
Definition third_handler : pprog Reply := claim config proxy no_headers "c1" (secret "x").
Definition fresh : Setup := setup PWorld.default ["c1"; "d1"] [42] ["token-1"].
Definition first_done : Setup := at_time 3 (eval first_handler fresh).2.
Definition second_done : Setup := at_time 5 (eval second_handler first_done).2.
Definition third_done : Setup := (eval third_handler second_done).2.

Lemma numbers_used : numbers first_done = [] /\ numbers second_done = [].
Proof. split; vm_compute; reflexivity. Qed.

Lemma times_pass : PWorld.now (world (eval first_handler fresh).2) <= 3 /\ PWorld.now (world (eval second_handler first_done).2) <= 5.
Proof. split; vm_compute; discriminate. Qed.

Lemma device_paired : Device.owner_id <$> Db.devices (PWorld.db (world third_done)) !! "d1" = Some "alice".
Proof. vm_compute. reflexivity. Qed.

Lemma no_numbers (e : Setup) : numbers e = [] -> Forall (fun n => 0 <= n < 1000000) (numbers e).
Proof. intros ->. constructor. Qed.

Lemma credentials_need_approval_witness :
  world_inv PWorld.default /\ world_inv (world first_done) /\ world_inv (world second_done) /\ world_inv (world third_done) /\
  Device.owner_id <$> Db.devices (PWorld.db (world third_done)) !! "d1" = Some "alice".
Proof.
  split; [exact empty_inv|].
  assert (I1 : world_inv (world first_done)).
  { exact (at_time_inv 3 _ (proj1 times_pass) (proj1 (credentials_need_approval config first_handler PWorld.default _ _ _ ltac:(constructor)
      (eval_exec first_handler fresh ltac:(repeat constructor; simpl; lia)) empty_inv))). }
  assert (I2 : world_inv (world second_done)).
  { exact (at_time_inv 5 _ (proj2 times_pass) (proj1 (credentials_need_approval config second_handler (world first_done) _ _ _ ltac:(constructor)
      (eval_exec second_handler first_done (no_numbers _ (proj1 numbers_used))) I1))). }
  split; [exact I1|]. split; [exact I2|]. split; [|exact device_paired].
  exact (proj1 (credentials_need_approval config third_handler (world second_done) _ _ _ ltac:(constructor)
    (eval_exec third_handler second_done (no_numbers _ (proj2 numbers_used))) I2)).
Defined.

Lemma claim_delivers_witness : exists w1 w2 c d,
  Db.challenges (PWorld.db w1) !! "c1" = Some c /\ Challenge.challenge_digest c = "#" +:+ secret "x" /\
  before w1 w2 /\ Db.devices (PWorld.db w2) !! "d1" = None /\ Device.credential_digest d = "#token-1".
Proof.
  destruct (claim_delivers config proxy no_headers "c1" (secret "x") "d1" "token-1" (world approved) _ []
    (eval_exec (claim config proxy no_headers "c1" (secret "x")) approved ltac:(constructor)))
    as (w1 & w2 & w3 & c1 & c & owner & d & _ & H1 & H2 & H3 & _ & _ & _ & _ & _ & H4 & _ & _ & H5 & _).
  exists w1, w2, c1, d. split_and!; [exact H1|exact H2|exact H3|exact H4|exact H5].
Defined.

(** A pairing the owner has cancelled still hands out its credential: the transaction of [claim] does not look at [consumed_at]. *)
Lemma cancelled_pairing_delivers :
  session [(0, register config proxy no_headers (body "x")); (3, approve_challenge config proxy (as_owner "alice") (ApproveBody.mk "000042" (Some "c1")));
           (4, cancel_challenge config proxy (as_owner "alice") "c1"); (5, claim config proxy no_headers "c1" (secret "x"))]
    (setup PWorld.default ["c1"; "d1"] [42] ["token-1"]) =
  [Registered "c1" "000042" 300000; ApprovedReply "c1" 3; NoContent; ClaimReady "d1" "token-1"].
Proof. vm_compute. reflexivity. Qed.

(** Two requests with the same short code: the browser names the one it has looked up, the other one is approved. *)
Lemma approval_of_another_request :
  session [(0, register config proxy no_headers (body "x")); (1, lookup config proxy (as_owner "alice") "000042");
           (2, register config proxy no_headers (body "y")); (3, approve_challenge config proxy (as_owner "alice") (ApproveBody.mk "000042" (Some "c1")))]
    start =
  [Registered "c1" "000042" 300000; Found "c1" (Some "laptop") (Some "macos") (Some "aarch64") (Some "0.1.0") 300000;
   Registered "c2" "000042" 300002; ApprovedReply "c2" 3].
Proof. vm_compute. reflexivity. Qed.

(** A wrong code that comes without the id of a request is not counted: the request is never locked. *)
Lemma unattributed_codes_are_not_counted `{AuthCrates} `{Sha256} (owner : Uuid) (code : string) (now : Z) (db : Db.t) (id : Uuid) :
  Challenge.attempt_count <$> Db.challenges (approve_statement (sha256_hex code) owner now db).2 !! id =
  Challenge.attempt_count <$> Db.challenges db !! id.
Proof.
  unfold approve_statement. destruct (newest _) as [[i c]|] eqn:N; [|done]. apply newest_where in N as [Hc _]. simpl.
  destruct (decide (i = id)) as [->|Ne]; [by rewrite lookup_insert_eq, Hc|by rewrite lookup_insert_ne].
Qed.
End PairingDemo.
