(* ===== verification/BridgeConfig.v ===== *)
(** * The configuration of the Bridge ([config/mod.rs])

    The base address of the Relay and the addresses derived from it, and the times and limits of the
    connection.  Parsing an address is the crate [url]. *)

From S2P Require Import Prelude RustStr.

Definition HEARTBEAT_INTERVAL : Z := 15000.
Definition HEARTBEAT_DEAD_AFTER : Z := 45000.
Definition RECONNECT_INITIAL_BACKOFF : Z := 1000.
Definition RECONNECT_MAX_BACKOFF : Z := 30000.
Definition RECONNECT_JITTER : Z := 250.
Definition CONNECT_BUDGET : Z := 10000.
Definition SEND_BUDGET : Z := 10000.
Definition OUTBOUND_QUEUE_CAPACITY : Z := 256.
Definition INBOUND_QUEUE_CAPACITY : Z := 1024.

Definition BRIDGE_WS_PATH : string := "/agent-console/bridge/ws".
Definition PAIRING_REGISTER_PATH : string := "/agent-console/bridge/pairing/register".
Definition PAIRING_CLAIM_PATH : string := "/agent-console/bridge/pairing/claim".
Definition PAIRING_DEEP_LINK_PATH : string := "/agent-console/pair".
Definition PRODUCER_PATH_PREFIX : string := "/agent-console/transfers/producer/".
Definition CONSUMER_PATH_PREFIX : string := "/agent-console/transfers/consumer/".

(** [url::Url]: parsing, [set_scheme], [origin().ascii_serialization()] and what is read of it. *)
Class UrlCrate (Url : Type) := {
  url_parse : string -> option Url;
  url_scheme : Url -> string;
  url_set_scheme : string -> Url -> option Url;
  url_host_str : Url -> option string;
  url_path : Url -> string;
  url_query : Url -> option string;
  url_fragment : Url -> option string;
  origin_ascii : Url -> string;
}.

(** What the crate documents of them. *)
Class UrlLaws (Url : Type) `{UrlCrate Url} := {
  set_scheme_scheme scheme (u u' : Url) : url_set_scheme scheme u = Some u' -> url_scheme u' = scheme;
  origin_scheme (u : Url) : url_scheme u = "http" \/ url_scheme u = "https" -> exists rest, origin_ascii u = url_scheme u +:+ "://" +:+ rest;
}.

Module RelayUrlError.
Inductive t :=
| FullWebSocketAddress
| PathNotAllowed
| UnsupportedScheme (scheme : string)
| Invalid.
End RelayUrlError.

Module RelayUrls.
Record t := mk { http_origin : string }.

Section Parse.
Context {Url : Type} `{UrlCrate Url}.

(** [ws] and [wss] become [http] and [https]. *)
Definition normalise (url : Url) : res RelayUrlError.t Url :=
  let scheme := url_scheme url in
  if bool_decide (scheme = "ws") then ok_or RelayUrlError.Invalid (url_set_scheme "http" url)
  else if bool_decide (scheme = "wss") then ok_or RelayUrlError.Invalid (url_set_scheme "https" url)
  else if bool_decide (scheme = "http" \/ scheme = "https") then Ok url
  else Err (RelayUrlError.UnsupportedScheme scheme).

Definition check (url : Url) : res RelayUrlError.t t :=
  let path := url_path url in
  if bool_decide (default "" (url_host_str url) = "") then Err RelayUrlError.Invalid
  else if negb (bool_decide (path = "" \/ path = "/")) then
    Err (if starts_with path "/agent-console" then RelayUrlError.FullWebSocketAddress else RelayUrlError.PathNotAllowed)
  else if bool_decide (is_Some (url_query url)) || bool_decide (is_Some (url_fragment url)) then Err RelayUrlError.PathNotAllowed
  else Ok (mk (origin_ascii url)).

Definition parse (input : string) : res RelayUrlError.t t :=
  let trimmed := trim input in
  if bool_decide (trimmed = "") then Err RelayUrlError.Invalid
  else
    let? url := ok_or RelayUrlError.Invalid (url_parse trimmed) in
    let? url := normalise url in
    check url.
End Parse.

Definition ws_root (u : t) : string :=
  match strip_prefix "https://" (http_origin u) with
  | Some rest => "wss://" +:+ rest
  | None =>
      match strip_prefix "http://" (http_origin u) with
      | Some rest => "ws://" +:+ rest
      | None => http_origin u
      end
  end.

Definition bridge_ws_url (u : t) : string := ws_root u +:+ BRIDGE_WS_PATH.
Definition pairing_register_url (u : t) : string := http_origin u +:+ PAIRING_REGISTER_PATH.
Definition pairing_claim_url (u : t) : string := http_origin u +:+ PAIRING_CLAIM_PATH.
Definition transfer_producer_url (u : t) (transfer_id : string) : string := http_origin u +:+ PRODUCER_PATH_PREFIX +:+ transfer_id.
Definition transfer_consumer_url (u : t) (transfer_id : string) : string := http_origin u +:+ CONSUMER_PATH_PREFIX +:+ transfer_id.
Definition pairing_deep_link (u : t) (short_code : string) : string := http_origin u +:+ PAIRING_DEEP_LINK_PATH +:+ "?code=" +:+ short_code.
End RelayUrls.

(** ** Properties *)

(** An address the user gives with TLS is only used with TLS, and one without only without: the WebSocket and all
    HTTP addresses are derived from one origin with the same host. *)
Lemma derived_addresses {Url : Type} `{UrlLaws Url} (input : string) (u : RelayUrls.t) (url : Url) :
  url_parse (trim input) = Some url -> RelayUrls.parse (Url := Url) input = Ok u ->
  exists rest, (url_scheme url = "https" \/ url_scheme url = "wss") /\ RelayUrls.http_origin u = "https://" +:+ rest /\
      RelayUrls.bridge_ws_url u = "wss://" +:+ rest +:+ BRIDGE_WS_PATH
    \/ (url_scheme url = "http" \/ url_scheme url = "ws") /\ RelayUrls.http_origin u = "http://" +:+ rest /\
      RelayUrls.bridge_ws_url u = "ws://" +:+ rest +:+ BRIDGE_WS_PATH.
Proof.
  intros E. unfold RelayUrls.parse. destruct (bool_decide _); [done|]. rewrite E. simpl. intros (url' & N & C)%res_bind_ok.
  assert (O : u = RelayUrls.mk (origin_ascii url')).
  { unfold RelayUrls.check in C. repeat case_bool_decide; simpl in C; simplify_eq; done. }
  assert (D : forall scheme, url_scheme url' = scheme -> scheme = "http" \/ scheme = "https" -> exists rest, origin_ascii url' = scheme +:+ "://" +:+ rest).
  { intros scheme <-. apply origin_scheme. }
  unfold RelayUrls.bridge_ws_url, RelayUrls.ws_root. subst u. unfold RelayUrls.normalise in N. repeat case_bool_decide.
  - apply ok_or_ok in N. destruct (D "http" (set_scheme_scheme _ _ _ N) ltac:(by left)) as [rest Er]. exists rest. right. simpl. rewrite Er. by split; [right|].
  - apply ok_or_ok in N. destruct (D "https" (set_scheme_scheme _ _ _ N) ltac:(by right)) as [rest Er]. exists rest. left. simpl. rewrite Er. by split; [right|].
  - injection N as ->. match goal with H : _ \/ _ |- _ => destruct H as [Es|Es] end; destruct (D _ Es ltac:(auto)) as [rest Er]; exists rest; [right|left]; simpl; rewrite Er; (split; [by left|done]).
  - done.
Qed.
