(* ===== verification/PairClient.v ===== *)
(** * Pairing on the Bridge ([pairing.rs])

    The client registers, shows a short code and polls until the Relay hands out a credential, which goes
    to the keychain before the binding is stored.  Times are milliseconds; the texts of errors are left
    out.  [wait_approval] takes fuel for its rounds: [wait_ends] says how much is enough. *)

From S2P Require Import Prelude Prog RustStr LocalStore Proto RelayBase Auth Pairing BridgeConfig.

Definition CLAIM_POLL_INTERVAL : Z := 2000.
Definition PAIR_DEADLINE : Z := 5 * 60 * 1000.

Module PairingOptions.
Record t := mk {
  poll_interval : Z;
  deadline : Z;
}.
Definition default : t := mk CLAIM_POLL_INTERVAL PAIR_DEADLINE.
End PairingOptions.

Module PairingRegistration.
Record t := mk {
  short_code : string;
  qr_data : string;
  challenge : string;
  challenge_id : string;
}.
End PairingRegistration.

Module RegisterResponse.
Record t := mk {
  challenge_id : string;
  short_code : string;
}.
End RegisterResponse.

Module ClaimResponse.
Record t := mk {
  status : string;
  device_id : option string;
  device_credential : option string;
}.
End ClaimResponse.

(** The answer to a request: no answer, or a status and a body that may not be what is expected. *)
Inductive Answer (A : Type) :=
| NoAnswer
| Answered (status : Z) (body : option A).
Arguments NoAnswer {A}.
Arguments Answered {A} _ _.

Definition is_success (status : Z) : bool := (200 <=? status) && (status <? 300).

Module PairError.
Inductive t :=
| Network
| Rejected (status : Z)
| TooManyRequests
| Gone
| Conflict
| NotJson
| Incomplete
| UnknownStatus (status : string)
| TimedOut
| Keychain
| Store.
End PairError.

Inductive cop : Type -> Type :=
| NewChallenge : cop string
| PostRegister (challenge device_name bridge_version : string) : cop (Answer RegisterResponse.t)
| PostClaim (challenge_id challenge : string) : cop (Answer ClaimResponse.t)
| InstantOf : cop Z
| SleepFor (ms : Z) : cop unit
| KeychainSet (account secret : string) : cop bool
| StoreBinding (origin device_id : string) (status : BindingStatus.t) : cop bool.

Notation cprog := (prog cop).

Definition register_device (urls : RelayUrls.t) (device_name bridge_version : string) : cprog (res PairError.t PairingRegistration.t) :=
  do challenge <- act NewChallenge;
  do resp <- act (PostRegister challenge device_name bridge_version);
  Ret match resp with
      | NoAnswer => Err PairError.Network
      | Answered status body =>
          if negb (is_success status) then Err (PairError.Rejected status)
          else match body with
               | None => Err PairError.NotJson
               | Some b =>
                   if bool_decide (RegisterResponse.challenge_id b = "") || bool_decide (RegisterResponse.short_code b = "")
                   then Err PairError.Incomplete
                   else Ok (PairingRegistration.mk (RegisterResponse.short_code b) (RelayUrls.pairing_deep_link urls (RegisterResponse.short_code b))
                              challenge (RegisterResponse.challenge_id b))
               end
      end.

(** [filter(|s| !s.is_empty())]. *)
Definition present (s : option string) : option string := s ← s; if bool_decide (s = "") then None else Some s.

(** What one answer to a claim means; [None]: still pending. *)
Definition claim_outcome (resp : Answer ClaimResponse.t) : option (res PairError.t (string * string)) :=
  match resp with
  | NoAnswer => Some (Err PairError.Network)
  | Answered status body =>
      if status =? 429 then Some (Err PairError.TooManyRequests)
      else if status =? 410 then Some (Err PairError.Gone)
      else if status =? 409 then Some (Err PairError.Conflict)
      else if negb (is_success status) then Some (Err (PairError.Rejected status))
      else match body with
           | None => Some (Err PairError.NotJson)
           | Some b =>
               if bool_decide (ClaimResponse.status b = "pending") then None
               else if bool_decide (ClaimResponse.status b = "ready") then
                 Some match present (ClaimResponse.device_id b), present (ClaimResponse.device_credential b) with
                      | Some device, Some credential => Ok (device, credential)
                      | _, _ => Err PairError.Incomplete
                      end
               else Some (Err (PairError.UnknownStatus (ClaimResponse.status b)))
           end
  end.

(** [None]: the fuel is used up. *)
Fixpoint poll (fuel : nat) (r : PairingRegistration.t) (interval deadline : Z) : cprog (option (res PairError.t (string * string))) :=
  match fuel with
  | O => Ret None
  | S fuel =>
      do now <- act InstantOf;
      if deadline <=? now then Ret (Some (Err PairError.TimedOut))
      else
        perform act (SleepFor interval);
        do resp <- act (PostClaim (PairingRegistration.challenge_id r) (PairingRegistration.challenge r));
        match claim_outcome resp with
        | Some outcome => Ret (Some outcome)
        | None => poll fuel r interval deadline
        end
  end.

Definition wait_approval (fuel : nat) (r : PairingRegistration.t) (options : PairingOptions.t) : cprog (option (res PairError.t (string * string))) :=
  do now <- act InstantOf;
  poll fuel r (PairingOptions.poll_interval options) (now + PairingOptions.deadline options).

Definition bind (origin device_id credential : string) : cprog (res PairError.t unit) :=
  do kept <- act (KeychainSet device_id credential);
  if negb kept then Ret (Err PairError.Keychain)
  else
    do stored <- act (StoreBinding origin device_id BindingStatus.Paired);
    Ret (if stored : bool then Ok tt else Err PairError.Store).

(** The banner of the command line; a code is ASCII. *)
Definition repeat_str (n : nat) (s : string) : string := String.concat "" (replicate n s).
Fixpoint spaced (s : string) : string := match s with EmptyString => "" | String c s => String c (String (byte_char 32) (spaced s)) end.

Definition short_code_banner (short_code : string) : string :=
  let inner := trim_end (spaced short_code) in
  let width := (String.length inner + 8)%nat in
  let border := "+" +:+ repeat_str width "=" +:+ "+" in
  let blank := "|" +:+ repeat_str width " " +:+ "|" in
  let line := "|" +:+ repeat_str 4 " " +:+ inner +:+ repeat_str 4 " " +:+ "|" in
  join (String (byte_char 10) "") [border; blank; line; blank; border].

(** ** The client waits no longer than it may *)

Inductive CObs :=
| Claimed (resp : Answer ClaimResponse.t)
| KeychainAsked (account secret : string) (kept : bool)
| BindingAsked (origin device_id : string) (stored : bool).

Definition cobs (B : Type) (o : cop B) : B -> list CObs :=
  match o in cop B return B -> list CObs with
  | PostClaim _ _ => fun resp => [Claimed resp]
  | KeychainSet account secret => fun kept => [KeychainAsked account secret kept]
  | StoreBinding origin device_id _ => fun stored => [BindingAsked origin device_id stored]
  | _ => fun _ => []
  end.

(** The state is the clock: it does not go back, and a sleep takes its time. *)
Definition cstep (B : Type) (o : cop B) (clock : Z) : option B -> Z -> Prop :=
  match o in cop B return option B -> Z -> Prop with
  | InstantOf => fun b clock' => b = Some clock' /\ clock <= clock'
  | SleepFor ms => fun b clock' => b = Some tt /\ clock + ms <= clock'
  | _ => fun b clock' => b <> None /\ clock <= clock'
  end.

Notation cexec := (texec Z.le cstep cobs).

Lemma le_rtc (a b : Z) : rtc Z.le a b -> a <= b.
Proof. induction 1; [done|lia]. Qed.

(** An answer that is "pending", and the ways the polls can end. *)
Definition pending_answer (o : CObs) : Prop := exists status body, o = Claimed (Answered status (Some body)) /\ ClaimResponse.status body = "pending".

Inductive waited : res PairError.t (string * string) -> list CObs -> Prop :=
| WaitedTooLong pendings : Forall pending_answer pendings -> waited (Err PairError.TimedOut) pendings
| WaitedFor pendings resp outcome : Forall pending_answer pendings -> claim_outcome resp = Some outcome -> waited outcome (pendings ++ [Claimed resp]).

Lemma claim_pending (resp : Answer ClaimResponse.t) : claim_outcome resp = None -> pending_answer (Claimed resp).
Proof.
  destruct resp as [|status [body|]]; simpl; [done| |]; repeat (case_match; try done); intros _.
  exists status, body. split; [done|]. by match goal with H : bool_decide (_ = "pending") = true |- _ => apply bool_decide_eq_true in H end.
Qed.

Lemma waited_more (o : CObs) (r : res PairError.t (string * string)) (t : list CObs) : pending_answer o -> waited r t -> waited r (o :: t).
Proof. intros P [pendings F|pendings resp outcome F E]; [apply WaitedTooLong|apply (WaitedFor (o :: pendings))]; by try constructor. Qed.

Lemma poll_run (n : nat) (r : PairingRegistration.t) (interval deadline clock clock' : Z) (t : list CObs)
    (result : option (option (res PairError.t (string * string)))) :
  0 < interval -> deadline - clock <= Z.of_nat n * interval ->
  cexec (poll (S n) r interval deadline) clock t result clock' ->
  exists outcome, result = Some (Some outcome) /\ waited outcome t /\ zlen t <= Z.of_nat n.
Proof.
  intros I. revert clock t. induction n as [|n IH]; intros clock t L X; cbn [poll] in X.
  all: apply texec_bind in X as [[X ->]|(t1 & now & c1 & t2 & X1 & X & ->)];
    [apply texec_act in X as (? & _ & [? _] & _); done|]; apply texec_act in X1 as (c0 & R%le_rtc & [[= ->] L1] & ->).
  - rewrite (proj2 (Z.leb_le _ _)) in X by lia. destruct X as (-> & -> & _). eexists. split_and!; [done|by apply WaitedTooLong|done].
  - destruct (Z.leb_spec deadline c1) as [D|D]; [destruct X as (-> & -> & _); eexists; split_and!; [done|by apply WaitedTooLong|unfold zlen; simpl; lia]|].
    apply texec_bind in X as [[X ->]|(t3 & [] & c2 & t4 & X1 & X & ->)]; [apply texec_act in X as (? & _ & [? _] & _); done|].
    apply texec_act in X1 as (c3 & R2%le_rtc & [_ L2] & ->).
    apply texec_bind in X as [[X ->]|(t5 & resp & c4 & t6 & X1 & X & ->)]; [apply texec_act in X as (? & _ & [? _] & _); done|].
    apply texec_act in X1 as (c5 & R3%le_rtc & [_ L3] & ->). cbn [cobs app]. destruct (claim_outcome resp) as [outcome|] eqn:E.
    + destruct X as (-> & -> & _). exists outcome. split_and!; [done|by apply (WaitedFor [])|unfold zlen; simpl; lia].
    + apply IH in X as (outcome & -> & W & Len); [|lia]. exists outcome. split_and!; [done|apply waited_more; [by apply claim_pending|done]|].
      rewrite zlen_cons. lia.
Qed.

(** C9. Waiting for an approval ends.  With as many rounds as poll intervals fit into the deadline (and one more), the client
    always comes to a result: the credential or error of the first answer that is not "pending", or the timeout
    after nothing but "pending"; and it asks at most once per interval. *)
Theorem wait_ends (n : nat) (r : PairingRegistration.t) (options : PairingOptions.t) (clock clock' : Z) (t : list CObs)
    (result : option (option (res PairError.t (string * string)))) :
  0 < PairingOptions.poll_interval options -> PairingOptions.deadline options <= Z.of_nat n * PairingOptions.poll_interval options ->
  cexec (wait_approval (S n) r options) clock t result clock' ->
  exists outcome, result = Some (Some outcome) /\ waited outcome t /\ zlen t <= Z.of_nat n.
Proof.
  intros I L X. unfold wait_approval in X. apply texec_bind in X as [[X ->]|(t1 & now & c1 & t2 & X1 & X & ->)];
    [apply texec_act in X as (? & _ & [? _] & _); done|]. apply texec_act in X1 as (c0 & _ & [[= ->] L1] & ->). cbn [cobs app].
  eapply poll_run; [done| |exact X]. lia.
Qed.

(** With the default options: at most 150 claims in the five minutes a request lives, and the Relay lets 600 through. *)
Lemma polling_within_limit (r : PairingRegistration.t) (clock clock' : Z) (t : list CObs) (result : option (option (res PairError.t (string * string)))) :
  cexec (wait_approval 151 r PairingOptions.default) clock t result clock' -> zlen t <= 150 <= limits.PAIRING_CLAIM_RATE_LIMIT.
Proof. intros (? & _ & _ & L)%(wait_ends 150); [split; [exact L|done]|done|done]. Qed.

(** The credential goes to the keychain first; the binding is only stored when it is there. *)
Lemma bind_order (origin device_id credential : string) (clock clock' : Z) (t : list CObs) (result : res PairError.t unit) :
  cexec (bind origin device_id credential) clock t (Some result) clock' ->
  t = [KeychainAsked device_id credential false] /\ result = Err PairError.Keychain \/
  exists stored, t = [KeychainAsked device_id credential true; BindingAsked origin device_id stored] /\
    result = if stored then Ok tt else Err PairError.Store.
Proof.
  unfold bind. intros X. apply texec_bind in X as [[_ ?]|(t1 & kept & c1 & t2 & X1 & X & ->)]; [done|]. apply texec_act in X1 as (c0 & _ & _ & ->).
  destruct kept; [|destruct X as (-> & [= ->] & _); by left]. right.
  apply texec_bind in X as [[_ ?]|(t3 & stored & c2 & t4 & X1 & X & ->)]; [done|]. apply texec_act in X1 as (c3 & _ & _ & ->).
  destruct X as (-> & [= ->] & _). by exists stored.
Qed.

(** ** The client and the Relay's [claim] *)

(** The response of a handler, as the client reads it. *)
Definition answer_of (reply : Reply) : Answer ClaimResponse.t :=
  match reply with
  | ClaimPending => Answered 200 (Some (ClaimResponse.mk "pending" None None))
  | ClaimReady device credential => Answered 200 (Some (ClaimResponse.mk "ready" (Some device) (Some credential)))
  | Failed e => Answered (ApiError.status e) None
  | _ => Answered 200 None
  end.

(** The client takes exactly the credential the Relay hands out, goes on polling exactly while the request is
    pending, and tells the three ends of a request apart. *)
Lemma client_reads_claim (reply : Reply) :
  (forall device credential, device <> "" -> credential <> "" ->
     (claim_outcome (answer_of reply) = Some (Ok (device, credential)) <-> reply = ClaimReady device credential)) /\
  (claim_outcome (answer_of reply) = None <-> reply = ClaimPending) /\
  (reply = limited -> claim_outcome (answer_of reply) = Some (Err PairError.TooManyRequests)) /\
  (reply = err 410 pb.StableErrorCode.ApprovalExpired "EXPIRED" -> claim_outcome (answer_of reply) = Some (Err PairError.Gone)) /\
  (reply = err 409 pb.StableErrorCode.DuplicateRequestMismatch "CONSUMED" -> claim_outcome (answer_of reply) = Some (Err PairError.Conflict)).
Proof.
  split_and!; try (by intros ->).
  - intros device credential Nd Nc. split.
    + destruct reply as [e| | |d c| | | | | |]; simpl; try done.
      * repeat case_match; done.
      * unfold present. simpl. repeat (case_bool_decide; simpl; try done). by intros [= -> ->].
    + intros ->. simpl. unfold present. simpl. by rewrite !bool_decide_eq_false_2.
  - split; [|by intros ->]. destruct reply as [e| | |d c| | | | | |]; simpl; try done. repeat case_match; done.
Qed.

Module PairClientDemo.
Definition registration : PairingRegistration.t := PairingRegistration.mk "012345" "qr" "secret" "id".
Definition pending : Answer ClaimResponse.t := answer_of ClaimPending.
Definition ready : Answer ClaimResponse.t := answer_of (ClaimReady "d" "c").

Example banner : short_code_banner "01" = "+===========+
|           |
|    0 1    |
|           |
+===========+".
Proof. vm_compute. reflexivity. Qed.

(** The next operation answers [b] and leaves the clock to be found. *)
#[local] Ltac at_clock c b := eexists c, (Some b), _; split_and!; [constructor|split; [reflexivity || done|]|eexists; split; [|reflexivity]].

Lemma wait_ends_witness : exists outcome,
  Some (Some (Ok ("d", "c"))) = Some (Some outcome) /\ waited outcome [Claimed pending; Claimed ready] /\ zlen [Claimed pending; Claimed ready] <= 2.
Proof.
  apply (wait_ends 2 registration (PairingOptions.mk 1000 2000) 0 2000).
  - simpl. lia.
  - simpl. lia.
  - at_clock 0 0; [lia|]. at_clock 0 0; [lia|]. exists 0, (Some tt), 1000. split_and!; [constructor|by split|]. eexists. split; [|reflexivity].
    exists 1000, (Some pending), 1000. split_and!; [constructor|by split|]. eexists. split; [|reflexivity].
    at_clock 1000 1000; [lia|]. exists 1000, (Some tt), 2000. split_and!; [constructor|by split|]. eexists. split; [|reflexivity].
    exists 2000, (Some ready), 2000. split_and!; [constructor|by split|]. eexists. split; [|reflexivity]. done.
Defined.
End PairClientDemo.
