(* ===== verification/Transport.v ===== *)
(** * The connection to the Relay ([transport/], [codec.rs])

    The task that keeps one WebSocket to the Relay: connect, greet, serve, lose it, wait, connect again.  The network,
    the timers, the queues and the stop signal answer from the environment; so do [prost], [url] and [http].  Times are
    milliseconds.  Both loops run for ever, so they take fuel, and what is shown holds whatever it is. *)

From S2P Require Import Prelude Prog Proto RelayBase Auth BridgeConfig.

#[local] Set Default Proof Using "Type".

(** ** Envelopes and frames *)

Module WireHello.
Record t := mk {
  protocol_version : Z;
  client_kind : Z;
  device_id : string;
  auth_subject : string;
  capabilities : list string;
}.
End WireHello.

(** Payloads the transport does not look at stay as they are. *)
Inductive WirePayload (Other : Type) :=
| WireHeartbeat
| WireClientHello (hello : WireHello.t)
| WireOther (payload : Other).
Arguments WireHeartbeat {Other}.
Arguments WireClientHello {Other} _.
Arguments WireOther {Other} _.

Module WireEnvelope.
Record t (Other : Type) := mk {
  protocol_version : Z;
  message_id : string;
  correlation_id : string;
  sent_at : option pb.Timestamp.t;
  device_id : string;
  agent_kind : Z;
  stream_id : string;
  stream_epoch : Z;
  sequence : Z;
  payload : option (WirePayload Other);
}.
Arguments mk {Other}.
Arguments protocol_version {Other}.
Arguments device_id {Other}.
Arguments payload {Other}.
End WireEnvelope.

(** [prost::Message] for envelopes; [None]: the bytes are not one. *)
Class Wire (Other : Type) := {
  wire_len : WireEnvelope.t Other -> Z;
  wire_encode : WireEnvelope.t Other -> list byte;
  wire_decode : list byte -> option (WireEnvelope.t Other);
}.

(** What [prost] promises of them. *)
Class WireLaws (Other : Type) `{Wire Other} := {
  wire_encode_len env : zlen (wire_encode env) = wire_len env;
  wire_decode_encode env : wire_decode (wire_encode env) = Some env;
}.

Definition WIRE_MAX_FRAME_BYTES : Z := 1024 * 1024.

Module WireError.
Inductive t :=
| FrameTooLarge (size max : Z)
| Decode.
End WireError.

Module TransportError.
Inductive t :=
| Connect
| QueueFull
| Stopped
| Send
| SendStalled
| Codec (e : WireError.t).
End TransportError.

Module ConnectionState.
Inductive t := Disconnected | Connecting | Connected.
End ConnectionState.

Module RelayClientOptions.
Record t := mk {
  ws_url : string;
  device_id : string;
  heartbeat_interval : Z;
  heartbeat_dead_after : Z;
  reconnect_initial_backoff : Z;
  reconnect_max_backoff : Z;
  reconnect_jitter : Z;
  connect_budget : Z;
  send_budget : Z;
  outbound_capacity : Z;
  inbound_capacity : Z;
}.

Definition new (relay : RelayUrls.t) : t :=
  mk (RelayUrls.bridge_ws_url relay) "" HEARTBEAT_INTERVAL HEARTBEAT_DEAD_AFTER RECONNECT_INITIAL_BACKOFF RECONNECT_MAX_BACKOFF RECONNECT_JITTER
    CONNECT_BUDGET SEND_BUDGET OUTBOUND_QUEUE_CAPACITY INBOUND_QUEUE_CAPACITY.

Definition with_device_id (id : string) (o : t) : t :=
  mk (ws_url o) id (heartbeat_interval o) (heartbeat_dead_after o) (reconnect_initial_backoff o) (reconnect_max_backoff o) (reconnect_jitter o)
    (connect_budget o) (send_budget o) (outbound_capacity o) (inbound_capacity o).
End RelayClientOptions.

(** ** What the task does *)

(** How the race of [connect_once] ends. *)
Inductive ConnectRace := RaceConnected | RaceRefused | RaceStopped | RaceBudget.

(** [tungstenite::Message], an error of the stream, or its end. *)
Inductive Incoming :=
| InBinary (bytes : list byte)
| InClose
| InOther
| InError
| InEnd.

Inductive SessionEvent :=
| EvStop
| EvOutbound (frame : option (list byte))
| EvTick
| EvDead
| EvIncoming (message : Incoming).

Module SessionEnd.
Inductive t :=
| Shutdown
| Lost (protocol_established : bool).
End SessionEnd.

(** The bounded queue behind a handle. *)
Module Outbound.
Record t := mk {
  frames : list (list byte);
  capacity : Z;
  receiver : bool;
}.
End Outbound.

(** [l] is made of [l1] and [l2], each in its order. *)
Inductive Merge {A : Type} : list A -> list A -> list A -> Prop :=
| merge_nil : Merge [] [] []
| merge_left x l1 l2 l : Merge l1 l2 l -> Merge (x :: l1) l2 (x :: l)
| merge_right x l1 l2 l : Merge l1 l2 l -> Merge l1 (x :: l2) (x :: l).

Section Transport.
Context {Other : Type} `{Wire Other}.
Notation Env := (WireEnvelope.t Other).

Definition encode_wire (envelope : Env) : res WireError.t (list byte) :=
  let size := wire_len envelope in
  if WIRE_MAX_FRAME_BYTES <? size then Err (WireError.FrameTooLarge size WIRE_MAX_FRAME_BYTES) else Ok (wire_encode envelope).

Definition decode_wire (bytes : list byte) : res WireError.t Env :=
  if WIRE_MAX_FRAME_BYTES <? zlen bytes then Err (WireError.FrameTooLarge (zlen bytes) WIRE_MAX_FRAME_BYTES)
  else ok_or WireError.Decode (wire_decode bytes).

Inductive wsop : Type -> Type :=
| StopRequested : wsop bool
| SetState (s : ConnectionState.t) : wsop unit
| BearerToken : wsop string
| Race (url header : string) (budget : Z) : wsop ConnectRace
| CallConnected : wsop unit
| TimeNow : wsop Z
| MessageId : wsop string
| WallClock : wsop pb.Timestamp.t
| WriteFrame (frame : list byte) (budget : Z) : wsop (res TransportError.t unit)
| NextEvent (tick dead : Z) : wsop SessionEvent
| TrySend (envelope : Env) : wsop bool
| GenRange (bound : Z) : wsop Z
| PauseOrStop (delay : Z) : wsop bool.

Notation tprog := (prog wsop).

Definition plain_envelope (device_id : string) (payload : WirePayload Other) : tprog Env :=
  do id <- act MessageId;
  do now <- act WallClock;
  Ret (WireEnvelope.mk PROTOCOL_VERSION id "" (Some now) device_id 1 "" 0 0 (Some payload)).

Definition heartbeat_envelope (device_id : string) : tprog Env := plain_envelope device_id WireHeartbeat.

Definition client_hello_envelope (device_id : string) : tprog Env :=
  plain_envelope device_id (WireClientHello (WireHello.mk PROTOCOL_VERSION CLIENT_BRIDGE device_id "" [])).

(** ** [RelayHandle::send]: the bounded queue *)

Definition send (envelope : Env) (q : Outbound.t) : res TransportError.t unit * Outbound.t :=
  match encode_wire envelope with
  | Err e => (Err (TransportError.Codec e), q)
  | Ok frame =>
      if negb (Outbound.receiver q) then (Err TransportError.Stopped, q)
      else if zlen (Outbound.frames q) <? Outbound.capacity q
      then (Ok tt, Outbound.mk (Outbound.frames q ++ [frame]) (Outbound.capacity q) true)
      else (Err TransportError.QueueFull, q)
  end.
Section Options.
Context {Url : Type} `{UrlCrate Url}.
(** [Url::as_str]; [into_client_request] and [HeaderValue::from_str] accept their argument. *)
Variable url_str : Url -> string.
Variable request_ok : string -> bool.
Variable header_ok : string -> bool.
Variable has_callback : bool.
Variable options : RelayClientOptions.t.

(** [backoff_delay] before the random part. *)
Definition backoff_base (attempt : Z) : Z :=
  Z.min (RelayClientOptions.reconnect_initial_backoff options * Z.shiftl 1 (Z.min attempt 16)) (RelayClientOptions.reconnect_max_backoff options).

Definition backoff_delay (attempt : Z) : tprog Z :=
  let base := backoff_base attempt in
  if RelayClientOptions.reconnect_jitter options =? 0 then Ret base
  else
    do extra <- act (GenRange (Z.max (RelayClientOptions.reconnect_jitter options) 1));
    Ret (base + extra).

Definition connect_once : tprog (res TransportError.t unit) :=
  match url_parse (Url := Url) (RelayClientOptions.ws_url options) with
  | None => Ret (Err TransportError.Connect)
  | Some url =>
      if negb (request_ok (url_str url)) then Ret (Err TransportError.Connect)
      else
        do token <- act BearerToken;
        let header := "Bearer " +:+ token in
        if negb (header_ok header) then Ret (Err TransportError.Connect)
        else
          do race <- act (Race (url_str url) header (RelayClientOptions.connect_budget options));
          Ret match race with
              | RaceConnected => Ok tt
              | RaceStopped => Err TransportError.Stopped
              | RaceRefused | RaceBudget => Err TransportError.Connect
              end
  end.

(** The loop of [run_session]; [None]: the fuel is used up.  The interval ticks at its own times, however late
    they are served. *)
Fixpoint session_loop (fuel : nat) (tick dead : Z) (established : bool) : tprog (option SessionEnd.t) :=
  match fuel with
  | O => Ret None
  | S fuel =>
      do event <- act (NextEvent tick dead);
      match event with
      | EvStop => Ret (Some SessionEnd.Shutdown)
      | EvOutbound None => Ret (Some SessionEnd.Shutdown)
      | EvOutbound (Some frame) =>
          do sent <- act (WriteFrame frame (RelayClientOptions.send_budget options));
          match sent with
          | Ok _ => session_loop fuel tick dead established
          | Err _ => Ret (Some (SessionEnd.Lost established))
          end
      | EvTick =>
          let tick := tick + RelayClientOptions.heartbeat_interval options in
          do envelope <- heartbeat_envelope (RelayClientOptions.device_id options);
          match encode_wire envelope with
          | Ok frame =>
              do sent <- act (WriteFrame frame (RelayClientOptions.send_budget options));
              match sent with
              | Ok _ => session_loop fuel tick dead established
              | Err _ => Ret (Some (SessionEnd.Lost established))
              end
          | Err _ => session_loop fuel tick dead established
          end
      | EvDead => Ret (Some (SessionEnd.Lost established))
      | EvIncoming (InBinary bytes) =>
          do now <- act TimeNow;
          match decode_wire bytes with
          | Ok envelope =>
              do kept <- act (TrySend envelope);
              if kept : bool then session_loop fuel tick (now + RelayClientOptions.heartbeat_dead_after options) true
              else Ret (Some (SessionEnd.Lost true))
          | Err _ => Ret (Some (SessionEnd.Lost established))
          end
      | EvIncoming InOther => session_loop fuel tick dead established
      | EvIncoming _ => Ret (Some (SessionEnd.Lost established))
      end
  end.

Definition run_session (fuel : nat) : tprog (option SessionEnd.t) :=
  do hello <- client_hello_envelope (RelayClientOptions.device_id options);
  match encode_wire hello with
  | Ok frame =>
      do sent <- act (WriteFrame frame (RelayClientOptions.send_budget options));
      match sent with
      | Err _ => Ret (Some (SessionEnd.Lost false))
      | Ok _ =>
          do start <- act TimeNow;
          do last_inbound <- act TimeNow;
          session_loop fuel (start + RelayClientOptions.heartbeat_interval options) (last_inbound + RelayClientOptions.heartbeat_dead_after options) false
      end
  | Err _ => Ret (Some (SessionEnd.Lost false))
  end.

(** [saturating_add] of a [u32]. *)
Definition next_attempt (attempt : Z) : Z := Z.min (attempt + 1) u32_max.

(** One connection and what becomes of the count: it goes on with one, or the task ends ([Some None]). *)
Definition connection (fuel : nat) (attempt : Z) : tprog (option (option Z)) :=
  perform act (SetState ConnectionState.Connecting);
  do connected <- connect_once;
  match connected with
  | Ok _ =>
      perform act (SetState ConnectionState.Connected);
      perform (if has_callback then act CallConnected else Ret tt);
      do ended <- run_session fuel;
      match ended with
      | None => Ret None
      | Some SessionEnd.Shutdown => Ret (Some None)
      | Some (SessionEnd.Lost established) =>
          perform act (SetState ConnectionState.Disconnected);
          Ret (Some (Some (if established : bool then 0 else attempt)))
      end
  | Err TransportError.Stopped => Ret (Some None)
  | Err _ =>
      perform act (SetState ConnectionState.Disconnected);
      Ret (Some (Some attempt))
  end.

(** [rounds]: how often it connects; [fuel]: the events of a connection. *)
Fixpoint connect_loop (rounds fuel : nat) (attempt : Z) : tprog (option unit) :=
  match rounds with
  | O => Ret None
  | S rounds =>
      do stop <- act StopRequested;
      if stop : bool then Ret (Some tt)
      else
        do next <- connection fuel attempt;
        match next with
        | None => Ret None
        | Some None => Ret (Some tt)
        | Some (Some attempt) =>
            do stop <- act StopRequested;
            if stop : bool then Ret (Some tt)
            else
              do delay <- backoff_delay attempt;
              do stop <- act (PauseOrStop delay);
              if stop : bool then Ret (Some tt) else connect_loop rounds fuel (next_attempt attempt)
        end
  end.

Definition run_loop (rounds fuel : nat) : tprog (option unit) :=
  do ended <- connect_loop rounds fuel 0;
  match ended with
  | None => Ret None
  | Some _ => perform act (SetState ConnectionState.Disconnected); Ret (Some tt)
  end.

(** ** Traces *)

Inductive TObs :=
| StateSet (s : ConnectionState.t)
| Attempted (url header : string) (race : ConnectRace)
| At (now : Z)
| Wrote (frame : list byte) (ok : bool)
| Event (event : SessionEvent)
| Gave (envelope : Env) (kept : bool)
| Paused (delay : Z) (stopped : bool).

Definition tobs (B : Type) (o : wsop B) : B -> list TObs :=
  match o in wsop B return B -> list TObs with
  | SetState s => fun _ => [StateSet s]
  | Race url header _ => fun race => [Attempted url header race]
  | TimeNow => fun now => [At now]
  | WriteFrame frame _ => fun r => [Wrote frame (res_is_ok r)]
  | NextEvent _ _ => fun event => [Event event]
  | TrySend envelope => fun kept => [Gave envelope kept]
  | PauseOrStop delay => fun stopped => [Paused delay stopped]
  | _ => fun _ => []
  end.

(** The state is the clock.  A timer does not fire early, and what is drawn is in its range. *)
Definition tstep (B : Type) (o : wsop B) (clock : Z) : option B -> Z -> Prop :=
  match o in wsop B return option B -> Z -> Prop with
  | TimeNow => fun b clock' => b = Some clock' /\ clock <= clock'
  | NextEvent tick dead => fun b clock' => clock <= clock' /\ exists event, b = Some event /\ (event = EvTick -> tick <= clock') /\ (event = EvDead -> dead <= clock')
  | PauseOrStop delay => fun b clock' => clock <= clock' /\ exists stopped, b = Some stopped /\ (stopped = false -> clock + delay <= clock')
  | GenRange bound => fun b clock' => clock <= clock' /\ exists n, b = Some n /\ (0 < bound -> 0 <= n < bound)
  | _ => fun b clock' => b <> None /\ clock <= clock'
  end.

#[local] Notation texec' := (texec Z.le tstep tobs).

(** What is written, with the outcome; what is taken from the queue; what arrives; what is handed on. *)
Definition writes : list TObs -> list (list byte * bool) := omap (fun o => match o with Wrote frame ok => Some (frame, ok) | _ => None end).
Definition taken : list TObs -> list (list byte) := omap (fun o => match o with Event (EvOutbound (Some frame)) => Some frame | _ => None end).
Definition heard : list TObs -> list (list byte) := omap (fun o => match o with Event (EvIncoming (InBinary bytes)) => Some bytes | _ => None end).
Definition given : list TObs -> list (Env * bool) := omap (fun o => match o with Gave envelope kept => Some (envelope, kept) | _ => None end).

(** How often the task paused since a message of the Relay was last handed on. *)
Definition pauses_step (k : Z) (o : TObs) : Z := match o with Gave _ _ => 0 | Paused _ _ => k + 1 | _ => k end.
Definition pauses_since_heard (t : list TObs) : Z := fold_left pauses_step t 0.

(** What a pause after [k] others lasts. *)
Definition long_enough (k delay : Z) : Prop :=
  backoff_base k <= delay /\ delay < backoff_base k + Z.max (RelayClientOptions.reconnect_jitter options) 1.

(** From a time with [k] pauses since the last message: [rested] tells whether it may connect. *)
Fixpoint pace_ok (k : Z) (rested : bool) (t : list TObs) : Prop :=
  match t with
  | [] => True
  | o :: t =>
      match o with
      | Attempted _ _ _ => rested = true /\ pace_ok k false t
      | Paused delay stopped => long_enough k delay /\ pace_ok (k + 1) (negb stopped) t
      | _ => pace_ok (pauses_step k o) rested t
      end
  end.

(** The frames the connection itself makes. *)
Definition is_beat (frame : list byte) : Prop :=
  exists envelope, WireEnvelope.payload envelope = Some WireHeartbeat /\ WireEnvelope.device_id envelope = RelayClientOptions.device_id options /\
    encode_wire envelope = Ok frame.

Definition is_hello (frame : list byte) : Prop :=
  exists envelope hello, WireEnvelope.payload envelope = Some (WireClientHello hello) /\ WireEnvelope.protocol_version envelope = PROTOCOL_VERSION /\
    WireHello.protocol_version hello = PROTOCOL_VERSION /\ WireHello.client_kind hello = CLIENT_BRIDGE /\
    WireHello.device_id hello = RelayClientOptions.device_id options /\ encode_wire envelope = Ok frame.

(** The connection after its greeting, event by event: from a clock, with the time of silence and whether a message was
    understood, through these observations to an end ([None]: still open) and a clock. *)
Inductive served : Z -> Z -> bool -> list TObs -> option SessionEnd.t -> Z -> Prop :=
| served_open c dead est : served c dead est [] None c
| served_stop c c' dead est event :
    event = EvStop \/ event = EvOutbound None -> c <= c' -> served c dead est [Event event] (Some SessionEnd.Shutdown) c'
| served_gone c c' dead est event :
    event = EvIncoming InClose \/ event = EvIncoming InError \/ event = EvIncoming InEnd -> c <= c' ->
    served c dead est [Event event] (Some (SessionEnd.Lost est)) c'
| served_silent c c' dead est : c <= c' -> dead <= c' -> served c dead est [Event EvDead] (Some (SessionEnd.Lost est)) c'
| served_other c c1 c' dead est t r : c <= c1 -> served c1 dead est t r c' -> served c dead est (Event (EvIncoming InOther) :: t) r c'
| served_out c c1 c' dead est frame t r :
    c <= c1 -> served c1 dead est t r c' -> served c dead est (Event (EvOutbound (Some frame)) :: Wrote frame true :: t) r c'
| served_out_failed c c' dead est frame :
    c <= c' -> served c dead est [Event (EvOutbound (Some frame)); Wrote frame false] (Some (SessionEnd.Lost est)) c'
| served_beat c c1 c' dead est frame t r :
    is_beat frame -> c <= c1 -> served c1 dead est t r c' -> served c dead est (Event EvTick :: Wrote frame true :: t) r c'
| served_beat_failed c c' dead est frame :
    is_beat frame -> c <= c' -> served c dead est [Event EvTick; Wrote frame false] (Some (SessionEnd.Lost est)) c'
| served_no_beat c c1 c' dead est t r : c <= c1 -> served c1 dead est t r c' -> served c dead est (Event EvTick :: t) r c'
| served_in c now c1 c' dead est bytes envelope t r :
    decode_wire bytes = Ok envelope -> c <= now <= c1 -> served c1 (now + RelayClientOptions.heartbeat_dead_after options) true t r c' ->
    served c dead est (Event (EvIncoming (InBinary bytes)) :: At now :: Gave envelope true :: t) r c'
| served_in_full c now c' dead est bytes envelope :
    decode_wire bytes = Ok envelope -> c <= now <= c' ->
    served c dead est [Event (EvIncoming (InBinary bytes)); At now; Gave envelope false] (Some (SessionEnd.Lost true)) c'
| served_in_bad c now dead est bytes e :
    decode_wire bytes = Err e -> c <= now -> served c dead est [Event (EvIncoming (InBinary bytes)); At now] (Some (SessionEnd.Lost est)) now.

(** The first operation of a run answers, since none panics. *)
Lemma texec_step {A B} (o : wsop B) (k : B -> prog wsop A) (c c' : Z) (t : list TObs) (a : option A) :
  texec' (Act o k) c t a c' -> exists c0 b c1 t', c <= c0 /\ tstep B o c0 (Some b) c1 /\ texec' (k b) c1 t' a c' /\ t = tobs B o b ++ t'.
Proof.
  intros (c0 & [b|] & c1 & R & St & X).
  - destruct X as (t' & X & ->). exists c0, b, c1, t'. split_and!; [|done..]. clear -R. induction R; [done|lia].
  - exfalso. clear X. destruct o; simpl in St; first [by destruct St|by destruct St as (_ & ? & ? & _)].
Qed.

(** Take the first operations of a run. *)
Ltac next_op H :=
  let c0 := fresh "c" in let c1 := fresh "c" in let b := fresh "b" in let t' := fresh "t" in let L := fresh "L" in let St := fresh "St" in
  cbn [prog_bind act] in H; apply texec_step in H as (c0 & b & c1 & t' & L & St & H & ->); cbn [tobs app] in *.

(** *** Pace *)

Definition quiet (o : TObs) : Prop := match o with Attempted _ _ _ | Paused _ _ => False | _ => True end.

Lemma pace_quiet (k : Z) (rested : bool) (t u : list TObs) :
  Forall quiet t -> pace_ok k rested (t ++ u) <-> pace_ok (fold_left pauses_step t k) rested u.
Proof. intros F. revert k. induction F as [|o t Q _ IH]; intros k; [done|]. destruct o; try done; apply IH. Qed.

Lemma envelope_run {A} (device : string) (payload : WirePayload Other) (k : Env -> tprog A) (c c' : Z) (t : list TObs) (a : option A) :
  texec' (prog_bind (plain_envelope device payload) k) c t a c' ->
  exists envelope c0, c <= c0 /\ WireEnvelope.device_id envelope = device /\ WireEnvelope.payload envelope = Some payload /\
    WireEnvelope.protocol_version envelope = PROTOCOL_VERSION /\ texec' (k envelope) c0 t a c'.
Proof.
  unfold plain_envelope. intros X. next_op X. destruct St as [_ L1]. next_op X. destruct St as [_ L2]. eexists _, _. split_and!; [| | | |exact X]; try done. lia.
Qed.

Lemma session_served (fuel : nat) (tick dead : Z) (est : bool) (c c' : Z) (t : list TObs) (r : option (option SessionEnd.t)) :
  texec' (session_loop fuel tick dead est) c t r c' -> exists r', r = Some r' /\ served c dead est t r' c'.
Proof.
  revert tick dead est c t. induction fuel as [|fuel IH]; intros tick dead est c t X; cbn [session_loop] in X.
  { destruct X as (-> & -> & ->). eexists. split; [done|constructor]. }
  next_op X. destruct St as (Lc & event & [= ->] & _ & Hdead).
  destruct event as [| [frame|] | | |[bytes| | | |]].
  - destruct X as (-> & -> & ->). eexists. split; [done|]. constructor; [by left|lia].
  - next_op X. destruct St as [_ Lw]. destruct b as [[]|].
    + apply IH in X as (r' & -> & S). eexists. split; [done|]. eapply served_out; [|exact S]. lia.
    + destruct X as (-> & -> & ->). eexists. split; [done|]. constructor. lia.
  - destruct X as (-> & -> & ->). eexists. split; [done|]. constructor; [by right|lia].
  - apply envelope_run in X as (envelope & c3 & Lc' & Ed & Ep & _ & X). destruct (encode_wire envelope) as [frame|] eqn:Ef.
    + assert (B : is_beat frame) by (by exists envelope). next_op X. destruct St as [_ Lw]. destruct b as [[]|].
      * apply IH in X as (r' & -> & S). eexists. split; [done|]. eapply served_beat; [done| |exact S]. lia.
      * destruct X as (-> & -> & ->). eexists. split; [done|]. constructor; [done|lia].
    + apply IH in X as (r' & -> & S). eexists. split; [done|]. eapply served_no_beat; [|exact S]. lia.
  - destruct X as (-> & -> & ->). eexists. split; [done|]. specialize (Hdead eq_refl). constructor; lia.
  - next_op X. destruct St as [[= ->] Ln]. destruct (decode_wire bytes) as [envelope|e] eqn:Ed.
    + next_op X. destruct St as [_ Lt]. destruct b.
      * apply IH in X as (r' & -> & S). eexists. split; [done|]. eapply served_in; [done| |exact S]. lia.
      * destruct X as (-> & -> & ->). eexists. split; [done|]. constructor; [done|lia].
    + destruct X as (-> & -> & ->). eexists. split; [done|]. econstructor; [done|lia].
  - destruct X as (-> & -> & ->). eexists. split; [done|]. constructor; [by auto|lia].
  - apply IH in X as (r' & -> & S). eexists. split; [done|]. eapply served_other; [|exact S]. lia.
  - destruct X as (-> & -> & ->). eexists. split; [done|]. constructor; [by auto|lia].
  - destruct X as (-> & -> & ->). eexists. split; [done|]. constructor; [by auto|lia].
Qed.

Lemma served_quiet c dead est t r c' : served c dead est t r c' -> Forall quiet t.
Proof. induction 1; repeat (constructor; try done). Qed.

Lemma served_established c dead t r c' e : served c dead true t r c' -> r = Some (SessionEnd.Lost e) -> e = true.
Proof. intros S. remember true as est eqn:E. induction S; intros; simplify_eq; eauto. Qed.

Lemma served_count c dead est t r c' (k : Z) :
  served c dead est t r c' -> (est = true -> k = 0) -> forall e, r = Some (SessionEnd.Lost e) -> fold_left pauses_step t k = if e then 0 else k.
Proof.
  intros S. revert k. induction S; intros k Hk e' E; simplify_eq/=; try (by apply IHS); try done; try (destruct e'; [by apply Hk|done]).
  rewrite (IHS 0 (fun _ => eq_refl) e' eq_refl). by rewrite (served_established _ _ _ _ _ _ S eq_refl).
Qed.

Lemma removelast_ok {A} (x : A) (l : list (A * bool)) : Forall (fun w => w.2 = true) (removelast l) -> Forall (fun w => w.2 = true) (removelast ((x, true) :: l)).
Proof. destruct l; [done|]. intros F. by constructor. Qed.
Hint Resolve removelast_ok : core.

(** Every frame taken from the queue is written once, in order; only the last write fails. *)
Lemma served_speaks c dead est t r c' :
  served c dead est t r c' -> exists beats, Merge (taken t) beats (map fst (writes t)) /\ Forall is_beat beats /\ Forall (fun w => w.2 = true) (removelast (writes t)).
Proof.
  induction 1; try (destruct IHserved as (beats & M & B & F)); destruct_or?; subst.
  all: try (by exists []; split_and!; repeat constructor).
  all: try (by exists beats; split_and!; [constructor| |apply removelast_ok]).
  all: try (by exists (frame :: beats); split_and!; [constructor|constructor|apply removelast_ok]).
  all: try (by exists [frame]; split_and!; repeat constructor).
  all: by exists beats.
Qed.

(** Every message that is read is handed on, but for one that cannot be decoded, after which nothing is read. *)
Lemma served_hears c dead est t r c' :
  served c dead est t r c' ->
  exists good bad, heard t = good ++ bad /\ zlen bad <= 1 /\ Forall (fun bytes => exists e, decode_wire bytes = Err e) bad /\
    Forall2 (fun bytes g => decode_wire bytes = Ok g.1) good (given t) /\ Forall (fun g => g.2 = true) (removelast (given t)).
Proof.
  induction 1; try (destruct IHserved as (good & bad & E & L & B & F & R)); destruct_or?; subst.
  all: try (exists good, bad; by split_and!).
  all: try (exists [], []; by split_and!; repeat constructor).
  - exists (bytes :: good), bad. simpl. rewrite E. split_and!; [done..|by constructor|by apply removelast_ok].
  - exists [bytes], []. split_and!; repeat constructor; done.
  - exists [], [bytes]. split_and!; try done. constructor; [by eexists|done].
Qed.

Lemma served_silence c dead est t r c' :
  served c dead est t r c' -> dead <= c + RelayClientOptions.heartbeat_dead_after options -> Event EvDead ∈ t ->
  dead <= c' /\ forall now, At now ∈ t -> now + RelayClientOptions.heartbeat_dead_after options <= c'.
Proof.
  intros S. induction S; intros D I; rewrite ?elem_of_cons in I; repeat match goal with H : _ \/ _ |- _ => destruct H as [H|H]; simplify_eq end; try (by apply elem_of_nil in I).
  all: try (destruct IHS as [L F]; [lia|done|]; split; [lia|]; intros now' I'; rewrite ?elem_of_cons in I'; destruct_or?; simplify_eq; eauto; lia).
  split; [done|]. intros now. by rewrite list_elem_of_singleton.
Qed.

Lemma served_given c dead est t r c' :
  served c dead est t r c' -> forall e, r = Some (SessionEnd.Lost e) -> e = true <-> est = true \/ given t <> [].
Proof. induction 1; intros e' E; simplify_eq/=; naive_solver. Qed.

(** *** One connection *)

Lemma session_run (fuel : nat) (c c' : Z) (t : list TObs) (r : option (option SessionEnd.t)) :
  texec' (run_session fuel) c t r c' ->
  exists r', r = Some r' /\
    (t = [] /\ r' = Some (SessionEnd.Lost false) \/
     exists hello, is_hello hello /\
       (t = [Wrote hello false] /\ r' = Some (SessionEnd.Lost false) \/
        exists start last t', t = Wrote hello true :: At start :: At last :: t' /\ start <= last /\
          served last (last + RelayClientOptions.heartbeat_dead_after options) false t' r' c')).
Proof.
  unfold run_session, client_hello_envelope. intros X. apply envelope_run in X as (envelope & c1 & _ & Ed & Ep & Ev & X).
  destruct (encode_wire envelope) as [frame|] eqn:Ef; [|destruct X as (-> & -> & ->); eexists; split; [done|by left]].
  assert (Hh : is_hello frame) by (by eexists envelope, _; split_and!).
  next_op X. destruct b as [[]|]; [|destruct X as (-> & -> & ->); eexists; split; [done|right; exists frame; split; [done|by left]]].
  next_op X. destruct St0 as [[= ->] Ha]. next_op X. destruct St0 as [[= ->] Hb].
  apply session_served in X as (r' & -> & S). exists r'. split; [done|]. right. exists frame. split; [done|]. right. eexists _, _, _. split_and!; [done|lia|exact S].
Qed.

(** C21. A connection carries the greeting, then exactly the frames taken from the queue, each once and in their order, and heartbeats between
    them; when a write fails nothing follows it.  Every message that arrives is handed on in order, but for one that is too long or not an
    envelope, after which nothing is read; and the connection counts as established exactly when a message was understood. *)
Theorem connection_carries (fuel : nat) (c c' : Z) (t : list TObs) (r : option (option SessionEnd.t)) :
  texec' (run_session fuel) c t r c' ->
  (writes t = [] \/ exists hello ok rest beats, writes t = (hello, ok) :: rest /\ is_hello hello /\ Merge (taken t) beats (map fst rest) /\ Forall is_beat beats) /\
  Forall (fun w => w.2 = true) (removelast (writes t)) /\
  (exists good bad, heard t = good ++ bad /\ zlen bad <= 1 /\ Forall (fun bytes => exists e, decode_wire bytes = Err e) bad /\
    Forall2 (fun bytes g => decode_wire bytes = Ok g.1) good (given t) /\ Forall (fun g => g.2 = true) (removelast (given t))) /\
  forall e, r = Some (Some (SessionEnd.Lost e)) -> e = true <-> given t <> [].
Proof.
  intros (r' & -> & [[-> ->]|(hello & Hh & [[-> ->]|(start & last & t' & -> & L & S)])])%session_run.
  - split_and!; [by left|done|exists [], []; by split_and!; repeat constructor|]. naive_solver.
  - split_and!; [right; exists hello, false, [], []; split_and!; repeat constructor; done|done|exists [], []; by split_and!; repeat constructor|]. naive_solver.
  - destruct (served_speaks _ _ _ _ _ _ S) as (beats & M & B & F). split_and!; [right; by exists hello, true, (writes t'), beats|by apply removelast_ok|exact (served_hears _ _ _ _ _ _ S)|].
    intros e [= E]. rewrite (served_given _ _ _ _ _ _ S e E). naive_solver.
Qed.

(** A connection is only given up for silence when nothing arrived for [heartbeat_dead_after]: every message read on it, and its start,
    is that long ago. *)
Lemma silence_is_long (fuel : nat) (c c' : Z) (t : list TObs) (r : option (option SessionEnd.t)) :
  texec' (run_session fuel) c t r c' -> Event EvDead ∈ t -> forall now, At now ∈ t -> now + RelayClientOptions.heartbeat_dead_after options <= c'.
Proof.
  intros (r' & -> & [[-> ->]|(hello & Hh & [[-> ->]|(start & last & t' & -> & L & S)])])%session_run I now In.
  - by apply elem_of_nil in I.
  - by apply list_elem_of_singleton in I.
  - rewrite !elem_of_cons in I, In. destruct I as [?|[?|[?|I]]]; try done. destruct (served_silence _ _ _ _ _ _ S ltac:(lia) I) as [D F].
    destruct In as [?|[?|[?|In]]]; simplify_eq; [lia|lia|by apply F].
Qed.

(** *** The loop *)

Lemma pace_between (k : Z) (mid after : list TObs) (url header : string) (race : ConnectRace) :
  pace_ok k false (mid ++ Attempted url header race :: after) ->
  exists m1 delay m2, mid = m1 ++ Paused delay false :: m2 /\ long_enough (fold_left pauses_step m1 k) delay.
Proof.
  revert k. induction mid as [|o mid IH]; intros k P; [by destruct P|].
  assert (D : (exists delay, o = Paused delay false) \/ pace_ok (pauses_step k o) false (mid ++ Attempted url header race :: after)).
  { destruct o as [| | | | | |delay []]; simpl in *; try (by right); [by destruct P|by right; destruct P|left; by exists delay]. }
  destruct D as [[delay ->]|Pm]; [exists [], delay, mid; by destruct P|]. destruct (IH _ Pm) as (m1 & delay & m2 & -> & G). by exists (o :: m1), delay, m2.
Qed.

Lemma pace_later (k : Z) (rested : bool) (t u : list TObs) : pace_ok k rested (t ++ u) -> exists rested', pace_ok (fold_left pauses_step t k) rested' u.
Proof. revert k rested. induction t as [|o t IH]; intros k rested P; [by exists rested|]. destruct o; simpl in *; destruct_and?; by eapply IH. Qed.

Lemma backoff_base_min (k : Z) : 0 <= k -> backoff_base (Z.min k u32_max) = backoff_base k.
Proof. intros Hk. unfold backoff_base. by replace (Z.min (Z.min k u32_max) 16) with (Z.min k 16) by (unfold u32_max; lia). Qed.

Lemma delay_run {A} (attempt : Z) (k : Z -> tprog A) (c c' : Z) (t : list TObs) (a : option A) :
  texec' (prog_bind (backoff_delay attempt) k) c t a c' ->
  exists delay c0, texec' (k delay) c0 t a c' /\ backoff_base attempt <= delay < backoff_base attempt + Z.max (RelayClientOptions.reconnect_jitter options) 1.
Proof.
  unfold backoff_delay. destruct (_ =? 0); intros X; [by exists (backoff_base attempt), c; split; [|lia]|].
  next_op X. destruct St as (_ & n & [= ->] & R). eexists _, _. split; [exact X|lia].
Qed.

Lemma pace_weaken (k : Z) (t : list TObs) : pace_ok k false t -> pace_ok k true t.
Proof. revert k. induction t as [|o t IH]; intros k P; [done|]. destruct o; simpl in *; destruct_and?; try done; by apply IH. Qed.

Lemma pace_then_quiet (k : Z) (rested : bool) (t u : list TObs) : Forall quiet u -> pace_ok k rested t -> pace_ok k rested (t ++ u).
Proof.
  intros F. revert k rested. induction t as [|o t IH]; intros k rested P; simpl.
  - rewrite <- (app_nil_r u). by apply pace_quiet.
  - destruct o; simpl in *; destruct_and?; try split; try done; by apply IH.
Qed.

Lemma connect_run {A} (k : res TransportError.t unit -> tprog A) (c c' : Z) (t : list TObs) (a : option A) :
  texec' (prog_bind connect_once k) c t a c' ->
  exists r c1 t1 t2, t = t1 ++ t2 /\ texec' (k r) c1 t2 a c' /\ (t1 = [] \/ exists url header race, t1 = [Attempted url header race]).
Proof.
  unfold connect_once. destruct (url_parse _) as [u|]; [|intros X; exists (Err TransportError.Connect), c, [], t; auto].
  destruct (negb _); [intros X; exists (Err TransportError.Connect), c, [], t; auto|]. intros X. next_op X. destruct (negb _).
  { eexists (Err TransportError.Connect), _, [], _. split_and!; [|exact X|by left]. done. }
  next_op X. eexists _, _, [_], _. split_and!; [|exact X|by right; eauto]. done.
Qed.

Lemma session_pace (fuel : nat) (c c' : Z) (t : list TObs) (r : option (option SessionEnd.t)) :
  texec' (run_session fuel) c t r c' -> Forall quiet t /\ forall e j, r = Some (Some (SessionEnd.Lost e)) -> fold_left pauses_step t j = if e then 0 else j.
Proof.
  intros (r' & -> & [[-> ->]|(hello & _ & [[-> ->]|(start & last & t' & -> & _ & S)])])%session_run.
  - split; [done|naive_solver].
  - split; [by repeat constructor|naive_solver].
  - split; [repeat constructor; exact (served_quiet _ _ _ _ _ _ S)|]. intros e j [= E]. simpl. by eapply served_count.
Qed.

(** None of the operations panics. *)
Lemma no_panic {A} (p : tprog A) (c c' : Z) (t : list TObs) (a : option A) : texec' p c t a c' -> is_Some a.
Proof.
  revert c t. induction p as [x|B o k IH]; intros c t X; [by destruct X as (_ & -> & _)|].
  apply texec_step in X as (? & ? & ? & ? & _ & _ & X & _). by eapply IH.
Qed.

(** What a connection does to the pace, and to the count of attempts. *)
Definition keeps_pace (attempt : Z) (next : option (option Z)) (t : list TObs) : Prop :=
  forall j u, 0 <= j -> attempt = Z.min j u32_max ->
    (pace_ok (fold_left pauses_step t j) false u -> pace_ok j true (t ++ u)) /\
    forall n, next = Some (Some n) -> 0 <= fold_left pauses_step t j /\ n = Z.min (fold_left pauses_step t j) u32_max.

Lemma pace_connect (t1 : list TObs) (j : Z) (u : list TObs) :
  t1 = [] \/ (exists url header race, t1 = [Attempted url header race]) -> pace_ok j false u -> pace_ok j true (t1 ++ u).
Proof. intros [->|(url & header & race & ->)] P; [by apply pace_weaken|by split]. Qed.

Lemma fold_connect (t1 : list TObs) (j : Z) : t1 = [] \/ (exists url header race, t1 = [Attempted url header race]) -> fold_left pauses_step t1 j = j.
Proof. by intros [->|(url & header & race & ->)]. Qed.

Lemma keeps_pace_of (attempt : Z) (next : option (option Z)) (t1 t2 t3 : list TObs) :
  Forall quiet t1 -> (t2 = [] \/ exists url header race, t2 = [Attempted url header race]) -> Forall quiet t3 ->
  (forall n, next = Some (Some n) -> forall j, 0 <= j -> attempt = Z.min j u32_max -> 0 <= fold_left pauses_step t3 j /\ n = Z.min (fold_left pauses_step t3 j) u32_max) ->
  fold_left pauses_step t1 = id -> keeps_pace attempt next (t1 ++ t2 ++ t3).
Proof.
  intros F1 T2 F3 N E1 j u Hj Ej. rewrite !fold_left_app, E1, (fold_connect _ _ T2). split; [|by intros n ->; apply N].
  intros P. rewrite <- !app_assoc. apply pace_quiet; [done|]. rewrite E1. apply pace_connect; [done|]. by apply pace_quiet.
Qed.

Lemma connection_run {A} (fuel : nat) (attempt : Z) (k : option (option Z) -> tprog A) (c c' : Z) (t : list TObs) (a : option A) :
  texec' (prog_bind (connection fuel attempt) k) c t a c' ->
  exists r c1 t1 t2, t = t1 ++ t2 /\ texec' (k r) c1 t2 a c' /\ keeps_pace attempt r t1.
Proof.
  intros X. apply texec_bind in X as [[X ->]|(t1 & r & c1 & t2 & X1 & X & ->)]; [by apply no_panic in X as []|]. exists r, c1, t1, t2. split_and!; [done..|]. clear X.
  unfold connection in X1. next_op X1. apply connect_run in X1 as (r0 & c3 & tc & t3 & -> & X & T). change (keeps_pace attempt r ([StateSet ConnectionState.Connecting] ++ tc ++ t3)).
  assert (G : Forall quiet t3 /\ forall n, r = Some (Some n) -> forall j, 0 <= j -> attempt = Z.min j u32_max ->
    0 <= fold_left pauses_step t3 j /\ n = Z.min (fold_left pauses_step t3 j) u32_max); [|destruct G; apply keeps_pace_of; [by repeat constructor|done..]].
  assert (Z0 : 0 = Z.min 0 u32_max) by done.
  destruct r0 as [[]|e].
  - next_op X. assert (exists cs, texec' (prog_bind (run_session fuel) (fun ended => match ended with None => Ret None | Some SessionEnd.Shutdown => Ret (Some None)
      | Some (SessionEnd.Lost established) => prog_bind (act (SetState ConnectionState.Disconnected)) (fun _ => Ret (Some (Some (if established : bool then 0 else attempt)))) end)) cs t (Some r) c1)
      as [cs Y].
    { destruct has_callback; [next_op X; by eexists|by eexists]. }
    clear X. apply texec_bind in Y as [[Y ?]|(ts & ended & c6 & t4 & Y & X & ->)]; [by apply no_panic in Y as []|]. destruct (session_pace _ _ _ _ _ Y) as [Q N].
    destruct ended as [[|e]|].
    + destruct X as (-> & [= ->] & ->). rewrite app_nil_r. split; [by constructor|done].
    + next_op X. destruct X as (-> & [= ->] & ->). split; [constructor; [done|apply Forall_app; split; [done|by repeat constructor]]|].
      intros n [= <-] j Hj Ej. cbn [fold_left pauses_step]. rewrite fold_left_app, (N e j eq_refl). simpl. by destruct e.
    + destruct X as (-> & [= ->] & ->). rewrite app_nil_r. split; [by constructor|done].
  - destruct e; try (next_op X); destruct X as (-> & [= ->] & ->); (split; [by repeat constructor|intros n [= <-] j Hj Ej; done]).
Qed.

Lemma connect_paced (rounds fuel : nat) (attempt : Z) (c c' : Z) (t : list TObs) (r : option (option unit)) (k : Z) :
  0 <= k -> attempt = Z.min k u32_max -> texec' (connect_loop rounds fuel attempt) c t r c' -> pace_ok k true t.
Proof.
  revert attempt c t k. induction rounds as [|rounds IH]; intros attempt c t k Hk Ek X; cbn [connect_loop] in X; [by destruct X as (-> & _)|].
  next_op X. destruct b; [by destruct X as (-> & _)|]. apply connection_run in X as (next & c2 & t1 & t2 & -> & X & K).
  destruct (K k t2 Hk Ek) as [P N]. apply P. clear P K. destruct next as [[n|]|]; [|by destruct X as (-> & _)..].
  destruct (N n eq_refl) as [Hf ->]. clear N. next_op X. destruct b; [by destruct X as (-> & _)|].
  apply delay_run in X as (delay & c5 & X & R). rewrite backoff_base_min in R by done. next_op X. split; [exact R|].
  destruct b; [by destruct X as (-> & _)|]. eapply IH; [| |exact X]; [lia|]. unfold next_attempt, u32_max. lia.
Qed.

(** C20. Two connections are never tried without a pause between them.  It lasts at least the backoff for the number of pauses since a message of the
    Relay was last understood, doubled each time up to the maximum, and exceeds it by less than the jitter: a peer that accepts
    connections without ever speaking the protocol does not bring the count back. *)
Theorem reconnects_paced (rounds fuel : nat) (c c' : Z) (before mid after : list TObs) (r : option (option unit))
    (url1 header1 url2 header2 : string) (race1 race2 : ConnectRace) :
  texec' (run_loop rounds fuel) c (before ++ Attempted url1 header1 race1 :: mid ++ Attempted url2 header2 race2 :: after) r c' ->
  exists m1 delay m2, mid = m1 ++ Paused delay false :: m2 /\
    backoff_base (pauses_since_heard (before ++ Attempted url1 header1 race1 :: m1)) <= delay <
      backoff_base (pauses_since_heard (before ++ Attempted url1 header1 race1 :: m1)) + Z.max (RelayClientOptions.reconnect_jitter options) 1.
Proof.
  intros X. assert (P : pace_ok 0 true (before ++ Attempted url1 header1 race1 :: mid ++ Attempted url2 header2 race2 :: after)).
  { unfold run_loop in X. apply texec_bind in X as [[X _]|(t1 & ended & c1 & t2 & X1 & X & ->)]; [by eapply connect_paced in X|].
    eapply connect_paced in X1; [|done|done]. apply pace_then_quiet; [|done].
    destruct ended; [next_op X|]; destruct X as (-> & _); by repeat constructor. }
  apply pace_later in P as [rested [_ P]]. apply pace_between in P as (m1 & delay & m2 & -> & G). exists m1, delay, m2. split; [done|].
  unfold pauses_since_heard. by rewrite fold_left_app.
Qed.

(** *** Frames *)

(** What is encoded is decoded, and the sizes both sides refuse are the same. *)
Lemma frame_decodes `{!WireLaws Other} (envelope : Env) (frame : list byte) : encode_wire envelope = Ok frame -> decode_wire frame = Ok envelope.
Proof.
  unfold encode_wire, decode_wire. destruct (Z.ltb_spec WIRE_MAX_FRAME_BYTES (wire_len envelope)) as [L|L]; [done|]. intros [= <-].
  rewrite wire_encode_len, wire_decode_encode. by rewrite (proj2 (Z.ltb_ge _ _)).
Qed.

(** What the Relay makes of the first frame of a connection. *)
Definition first_of (bytes : list byte) : FirstMessage :=
  match decode_wire bytes with
  | Ok envelope =>
      match WireEnvelope.payload envelope with
      | Some (WireClientHello h) => Hello (ClientHello.mk (WireHello.protocol_version h) (WireHello.client_kind h) (WireHello.device_id h))
      | _ => OtherPayload
      end
  | Err _ => Undecodable
  end.

(** The Relay accepts the greeting of the device the credential belongs to, and of no other. *)
Lemma greeting_accepted `{!WireLaws Other} (frame : list byte) (device : string) :
  is_hello frame -> bridge_handshake device (first_of frame) = if bool_decide (RelayClientOptions.device_id options = device) then Ok tt else Err "DEVICE_MISMATCH".
Proof.
  intros (envelope & hello & Ep & _ & Ev & Ek & <- & Ef). unfold first_of. rewrite (frame_decodes _ _ Ef), Ep. simpl. by rewrite Ev, Ek.
Qed.
End Options.

(** The queue of a handle keeps its bound, refuses instead of waiting, and keeps what it has. *)
Lemma send_bounded (envelope : Env) (q q' : Outbound.t) (r : res TransportError.t unit) :
  send envelope q = (r, q') -> zlen (Outbound.frames q) <= Outbound.capacity q ->
  zlen (Outbound.frames q') <= Outbound.capacity q' /\ (r = Ok tt \/ q' = q) /\
  (r = Ok tt -> exists frame, encode_wire envelope = Ok frame /\ Outbound.frames q' = Outbound.frames q ++ [frame]).
Proof.
  unfold send. intros E L. destruct (encode_wire envelope) as [frame|e]; [|simplify_eq; naive_solver].
  destruct (Outbound.receiver q); simpl in E; [|simplify_eq; naive_solver].
  destruct (Z.ltb_spec (zlen (Outbound.frames q)) (Outbound.capacity q)); simplify_eq; [|naive_solver].
  simpl. rewrite zlen_app. split_and!; [unfold zlen in *; simpl; lia|by left|eauto].
Qed.
End Transport.

Module TransportDemo.
(** A wire of one byte that names the payload. *)
#[local] Instance wire : Wire (list byte) := {
  wire_len e := match WireEnvelope.payload e with Some (WireOther bs) => zlen bs + 1 | _ => 1 end;
  wire_encode e := match WireEnvelope.payload e with
    | Some WireHeartbeat => ["000"%byte] | Some (WireClientHello _) => ["001"%byte] | Some (WireOther bs) => "002"%byte :: bs | None => ["003"%byte] end;
  wire_decode bs := match bs with
    | "002"%byte :: bs => Some (WireEnvelope.mk 1 "" "" None "d" 1 "" 0 0 (Some (WireOther bs))) | _ => None end;
}.
#[local] Instance url : UrlCrate string := {
  url_parse := Some; url_scheme _ := "ws"; url_set_scheme _ _ := None; url_host_str _ := None; url_path _ := ""; url_query _ := None;
  url_fragment _ := None; origin_ascii u := u;
}.

Definition options : RelayClientOptions.t := RelayClientOptions.with_device_id "d" (RelayClientOptions.new (RelayUrls.mk "http://h")).

(** What the outside answers: races, events with the time they take, and otherwise nothing special. *)
Record Script := {
  clock : Z;
  races : list ConnectRace;
  events : list (Z * SessionEvent);
}.

Definition answer {B : Type} (o : wsop (Other := list byte) B) (s : Script) : B * Script :=
  match o in wsop B return B * Script with
  | StopRequested => (false, s)
  | SetState _ | CallConnected => (tt, s)
  | BearerToken => ("token", s)
  | Race _ _ _ => (default RaceStopped (head (races s)), {| clock := clock s; races := tail (races s); events := events s |})
  | TimeNow => (clock s, s)
  | MessageId => ("m", s)
  | WallClock => (pb.Timestamp.mk 0 0, s)
  | WriteFrame _ _ => (Ok tt, s)
  | NextEvent tick dead =>
      let '(wait, event) := default (0, EvStop) (head (events s)) in
      let now := clock s + Z.max 0 wait in
      let now := match event with EvTick => Z.max now tick | EvDead => Z.max now dead | _ => now end in
      (event, {| clock := now; races := races s; events := tail (events s) |})
  | TrySend _ => (true, s)
  | GenRange bound => (0, s)
  | PauseOrStop delay => (false, {| clock := clock s + Z.max 0 delay; races := races s; events := events s |})
  end.

Fixpoint eval {A : Type} (p : prog (wsop (Other := list byte)) A) (s : Script) : A * list (TObs (Other := list byte)) * Script :=
  match p with
  | Ret a => (a, [], s)
  | @Act _ _ B o k => let '(b, s) := answer o s in let '(a, t, s) := eval (k b) s in (a, tobs B o b ++ t, s)
  end.

Lemma transport_eval {A} (p : prog (wsop (Other := list byte)) A) (s : Script) :
  texec Z.le tstep tobs p (clock s) (eval p s).1.2 (Some (eval p s).1.1) (clock (eval p s).2).
Proof.
  revert s. induction p as [x|B o k IH]; intros s; simpl; [done|]. destruct (answer o s) as [b s1] eqn:E.
  destruct (eval (k b) s1) as [[a t] s2] eqn:E2. exists (clock s), (Some b), (clock s1). split_and!; [constructor| |].
  - destruct o; simpl in E; try (by destruct s; simplify_eq/=); try (by destruct s; simplify_eq/=; split; [done|lia]).
    + destruct (default (0, EvStop) (head (events s))) as [wait event]. injection E as <- <-. simpl. split; [destruct event; lia|]. exists event. split; [done|]. split; intros ->; lia.
    + simplify_eq. split; [done|]. exists 0. split; [done|lia].
    + simplify_eq. split; [simpl; lia|]. exists false. split; [done|]. simpl. lia.
  - exists t. simpl. split; [|done]. specialize (IH b s1). by rewrite E2 in IH.
Qed.

Notation Loop := (run_loop (Url := string) id (fun _ => true) (fun _ => true) true options 3 9).

(** One connection that speaks, one that is refused, and the end. *)
Definition two_attempts : Script :=
  {| clock := 0; races := [RaceConnected; RaceRefused];
     events := [(5, EvOutbound (Some ["007"%byte])); (0, EvIncoming (InBinary ["002"%byte])); (0, EvTick); (0, EvIncoming InClose)] |}.

Definition log := Eval vm_compute in (eval Loop two_attempts).1.2.
Notation Try race := (Attempted "ws://h/agent-console/bridge/ws" "Bearer token" race).

(** The pauses of this run: the count starts again after the message, and then doubles. *)
Example paused_one_then_two : omap (fun o => match o with Paused d _ => Some d | _ => None end) log = [1000; 2000].
Proof. reflexivity. Qed.

Lemma reconnects_paced_witness :
  let before := take 1 log in let mid := take 15 (drop 2 log) in
  log = before ++ Try RaceConnected :: mid ++ Try RaceRefused :: drop 18 log /\
  exists m1 delay m2, mid = m1 ++ Paused delay false :: m2 /\
    backoff_base options (pauses_since_heard (before ++ Try RaceConnected :: m1)) <= delay <
      backoff_base options (pauses_since_heard (before ++ Try RaceConnected :: m1)) + 250.
Proof.
  intros before mid. split; [reflexivity|].
  refine (reconnects_paced (Url := string) id (fun _ => true) (fun _ => true) true options 3 9 0 (clock (eval Loop two_attempts).2) before mid (drop 18 log) (Some (Some tt)) _ _ _ _ _ _ _).
  exact (transport_eval Loop two_attempts).
Defined.

(** One connection that serves all sorts of events. *)
Notation Session := (run_session options 9).
Definition busy : Script :=
  {| clock := 0; races := [];
     events := [(5, EvOutbound (Some ["007"%byte])); (0, EvTick); (0, EvIncoming (InBinary ["002"%byte])); (9, EvOutbound (Some ["008"%byte])); (0, EvIncoming (InBinary ["009"%byte]))] |}.

Lemma connection_carries_witness :
  let t := (eval Session busy).1.2 in
  writes t = [(["001"%byte], true); (["007"%byte], true); (["000"%byte], true); (["008"%byte], true)] /\ (true = true <-> given t <> []).
Proof.
  intros t. split; [vm_compute; reflexivity|].
  refine (proj2 (proj2 (proj2 (connection_carries options 9 0 (clock (eval Session busy).2) t (Some (Some (SessionEnd.Lost true))) _))) true eq_refl).
  exact (transport_eval Session busy).
Defined.

(** Only binary messages count: a peer that answers with pings alone is given up as silent. *)
Definition pings : Script := {| clock := 0; races := []; events := [(40000, EvIncoming InOther); (4000, EvIncoming InOther); (0, EvDead)] |}.

Lemma pings_do_not_keep_alive :
  let '(r, t, s) := eval Session pings in
  r = Some (SessionEnd.Lost false) /\ clock s = 45000 /\ drop 3 t = [Event (EvIncoming InOther); Event (EvIncoming InOther); Event EvDead].
Proof. vm_compute. done. Qed.

Lemma silence_is_long_witness : 0 + 45000 <= clock (eval Session pings).2.
Proof.
  refine (silence_is_long options 9 0 _ (eval Session pings).1.2 (Some (Some (SessionEnd.Lost false))) (transport_eval Session pings) _ 0 _).
  - apply list_elem_of_In. vm_compute. tauto.
  - apply list_elem_of_In. vm_compute. tauto.
Defined.
End TransportDemo.
