(* ===== verification/RelayStore.v ===== *)
(** * Session summaries and receipts of the Relay ([sessions/store.rs])

    The tables [session_summaries] and [request_receipts] beside those of [Pairing], and the statements
    on them.  A statement runs at once at a time of the database; its answer is [None] when the database
    refuses it.  [gen_random_uuid()] is an argument.  Timestamps are integers: what the database keeps. *)

From Stdlib Require Import Ascii.
From S2P Require Import Prelude Prog Bytes RustStr Proto Messages Buffer Stream Hub RelayBase Auth Pairing.

(** ** The tables *)

Module SessionRow.
Record t := mk {
  device_id : Uuid;
  agent_kind : string;
  native_session_id : string;
  title : string;
  project_display_name : string;
  current_branch : string;
  device_connection : string;
  device_last_seen_at : option Z;
  degraded_reason : string;
  control_mode : string;
  compatibility_state : string;
  active_turn_phase : string;
  pending_attention_count : Z;
  pending_attention_kinds : list string;
  queue_state : string;
  last_turn_outcome : string;
  runtime_revision : Z;
  last_updated_at : Z;
  pinned : bool;
  muted : bool;
  archived : bool;
}.

(** The native key of a session. *)
Definition key (r : t) : Uuid * string * string := (device_id r, agent_kind r, native_session_id r).

Definition with_connection (connection : string) (seen : option Z) (r : t) : t :=
  mk (device_id r) (agent_kind r) (native_session_id r) (title r) (project_display_name r) (current_branch r) connection seen
    (degraded_reason r) (control_mode r) (compatibility_state r) (active_turn_phase r) (pending_attention_count r)
    (pending_attention_kinds r) (queue_state r) (last_turn_outcome r) (runtime_revision r) (last_updated_at r)
    (pinned r) (muted r) (archived r).

Definition with_prefs (pin mute archive : bool) (r : t) : t :=
  mk (device_id r) (agent_kind r) (native_session_id r) (title r) (project_display_name r) (current_branch r) (device_connection r)
    (device_last_seen_at r) (degraded_reason r) (control_mode r) (compatibility_state r) (active_turn_phase r)
    (pending_attention_count r) (pending_attention_kinds r) (queue_state r) (last_turn_outcome r) (runtime_revision r)
    (last_updated_at r) pin mute archive.

(** [DO UPDATE SET]: what the excluded row brings; its revision and the preferences of the Relay stay. *)
Definition with_summary (excluded r : t) : t :=
  mk (device_id r) (agent_kind r) (native_session_id r) (title excluded) (project_display_name excluded) (current_branch excluded)
    (device_connection excluded) (device_last_seen_at excluded) (degraded_reason excluded) (control_mode excluded)
    (compatibility_state excluded) (active_turn_phase excluded) (pending_attention_count excluded)
    (pending_attention_kinds excluded) (queue_state excluded) (last_turn_outcome excluded) (runtime_revision r)
    (last_updated_at excluded) (pinned r) (muted r) (archived r).
End SessionRow.

Module ReceiptRow.
Record t := mk {
  owner_id : Uuid;
  session_id : option Uuid;
  operation : string;
  payload_digest : string;
  status : string;
  error_code : string;
  created_at : Z;
  updated_at : Z;
}.
Definition with_status (status error_code : string) (now : Z) (r : t) : t :=
  mk (owner_id r) (session_id r) (operation r) (payload_digest r) status error_code (created_at r) now.
End ReceiptRow.

Module RelayDb.
Record t := mk {
  base : Db.t;
  sessions : gmap Uuid SessionRow.t;
  receipts : gmap string ReceiptRow.t;
}.
Definition empty : t := mk Db.empty ∅ ∅.
Definition with_base (x : Db.t) (d : t) : t := mk x (sessions d) (receipts d).
Definition with_sessions (x : gmap Uuid SessionRow.t) (d : t) : t := mk (base d) x (receipts d).
Definition with_receipts (x : gmap string ReceiptRow.t) (d : t) : t := mk (base d) (sessions d) x.
End RelayDb.

Definition RStatement (A : Type) : Type := Z -> RelayDb.t -> option A * RelayDb.t.

(** A statement on the tables of [Pairing]. *)
Definition on_base {A : Type} (s : Statement A) : RStatement A := fun now db =>
  let '(a, b) := s now (RelayDb.base db) in (a, RelayDb.with_base b db).

(** [T::try_from] and [as_str_name] of the enums the build generates, a timestamp as the database keeps it, and
    the printers of [chrono] and [base64] the cursors use. *)
Class StoreCrates := {
  connection_name : Z -> option string;
  control_mode_name : Z -> option string;
  compatibility_name : Z -> option string;
  turn_phase_name : Z -> option string;
  queue_state_name : Z -> option string;
  turn_outcome_name : Z -> option string;
  attention_kind_name : Z -> option string;
  operation_name_of : Z -> option string;
  timestamp_of : pb.Timestamp.t -> option Z;
  rfc3339 : Z -> string;
  base64_encode : list byte -> string;
}.

(** [as i32]. *)
Definition as_i32 (z : Z) : Z := (z + 2 ^ 31) mod 2 ^ 32 - 2 ^ 31.

(** [s.rsplit_once(c)]: around the last occurrence. *)
Definition rsplit_once (c : ascii) (s : string) : option (string * string) :=
  '(r, l) ← split_once c (str_rev s); Some (str_rev l, str_rev r).

(** ** Summaries *)

Module ListParams.
Record t := mk {
  limit : Z;
  archived : option bool;
  before : option (Z * Uuid);
}.
End ListParams.

Section Summaries.
Context `{StoreCrates} `{AuthCrates}.

Definition enum_or (name : option string) (default_ : string) : string := default default_ name.

(** The row of a summary, as [VALUES] gives it; [runtime_revision] and the preferences are those of the table. *)
Definition summary_row (device : Uuid) (now : Z) (key : pb.SessionKey.t) (s : pb.SessionSummary.t) : SessionRow.t :=
  SessionRow.mk device (agent_kind_name (pb.SessionKey.agent_kind key)) (pb.SessionKey.native_session_id key)
    (pb.SessionSummary.title s) (pb.SessionSummary.project_display_name s) (pb.SessionSummary.current_branch s)
    (enum_or (connection_name (pb.SessionSummary.device_connection s)) "CONNECTION_OFFLINE")
    (pb.SessionSummary.device_last_seen_at s ≫= timestamp_of)
    (pb.SessionSummary.degraded_reason s)
    (enum_or (control_mode_name (pb.SessionSummary.control_mode s)) "CONTROL_MODE_UNSPECIFIED")
    (enum_or (compatibility_name (pb.SessionSummary.compatibility_state s)) "COMPATIBILITY_STATE_UNSPECIFIED")
    (enum_or (turn_phase_name (pb.SessionSummary.active_turn_phase s)) "ACTIVE_TURN_PHASE_UNSPECIFIED")
    (as_i32 (pb.SessionSummary.pending_attention_count s))
    (map (fun k => default ("PENDING_ATTENTION_" +:+ pretty k) (attention_kind_name k)) (pb.SessionSummary.pending_attention_kinds s))
    (enum_or (queue_state_name (pb.SessionSummary.queue_state s)) "QUEUE_STATE_UNSPECIFIED")
    (enum_or (turn_outcome_name (pb.SessionSummary.last_turn_outcome s)) "LAST_TURN_OUTCOME_UNSPECIFIED")
    0 (default now (pb.SessionSummary.updated_at s ≫= timestamp_of)) false false false.

Definition find_key (key : Uuid * string * string) (db : RelayDb.t) : option (Uuid * SessionRow.t) :=
  head (filter (fun '(_, r) => SessionRow.key r = key) (map_to_list (RelayDb.sessions db))).

(** [INSERT .. ON CONFLICT (device_id, agent_kind, native_session_id) DO UPDATE]; the device must exist. *)
Definition upsert_summary (id : Uuid) (row : Z -> SessionRow.t) : RStatement unit := fun now db =>
  let excluded := row now in
  match find_key (SessionRow.key excluded) db with
  | Some (old, r) => (Some tt, RelayDb.with_sessions (<[old := SessionRow.with_summary excluded r]> (RelayDb.sessions db)) db)
  | None =>
      match Db.devices (RelayDb.base db) !! SessionRow.device_id excluded, RelayDb.sessions db !! id with
      | Some _, None => (Some tt, RelayDb.with_sessions (<[id := excluded]> (RelayDb.sessions db)) db)
      | _, _ => (None, db)
      end
  end.

(** The device the batch names first. *)
Definition summary_device_id (batch : pb.SessionSummaryBatch.t) (fallback : Uuid) : string :=
  match (s ← head (pb.SessionSummaryBatch.summaries batch); k ← pb.SessionSummary.session_key s;
         if bool_decide (pb.SessionKey.device_id k = "") then None else Some (pb.SessionKey.device_id k)) with
  | Some id => id
  | None => fallback
  end.

Definition batch_device (batch : pb.SessionSummaryBatch.t) (device : Uuid) : Uuid := default device (uuid_of (summary_device_id batch device)).

(** The statements of [upsert_summary_batch], each with an id for a new row; the first failure ends it. *)
Definition batch_statements (ids : list Uuid) (device : Uuid) (batch : pb.SessionSummaryBatch.t) : list (RStatement unit) :=
  omap (fun '(id, s) => k ← pb.SessionSummary.session_key s; Some (upsert_summary id (fun now => summary_row (batch_device batch device) now k s)))
    (zip ids (pb.SessionSummaryBatch.summaries batch)).

Fixpoint run_statements (l : list (RStatement unit)) (now : Z) (db : RelayDb.t) : option unit * RelayDb.t :=
  match l with
  | [] => (Some tt, db)
  | s :: l => match s now db with (Some _, db) => run_statements l now db | (None, db) => (None, db) end
  end.

Definition set_device_connection (device : Uuid) (connection : string) : RStatement unit := fun now db =>
  (Some tt, RelayDb.with_sessions
     ((fun r => if bool_decide (SessionRow.device_id r = device)
                then SessionRow.with_connection connection
                       (if bool_decide (connection = "CONNECTION_OFFLINE") then Some now else SessionRow.device_last_seen_at r) r
                else r) <$> RelayDb.sessions db) db).

Definition find_session (device : Uuid) (agent_kind native_session_id : string) (db : RelayDb.t) : option (Uuid * SessionRow.t) :=
  find_key (device, agent_kind, native_session_id) db.

Definition get_session (id : Uuid) (db : RelayDb.t) : option SessionRow.t := RelayDb.sessions db !! id.

Definition patch_prefs (session : Uuid) (pinned muted archived : option bool) : RStatement bool := fun _ db =>
  match RelayDb.sessions db !! session with
  | Some r =>
      (Some true, RelayDb.with_sessions
         (<[session := SessionRow.with_prefs (default (SessionRow.pinned r) pinned) (default (SessionRow.muted r) muted)
                         (default (SessionRow.archived r) archived) r]> (RelayDb.sessions db)) db)
  | None => (Some false, db)
  end.

(** ** Lists and their cursors *)

(** [clamp(1, PAGE_MAX)]. *)
Definition clamp_page (limit : Z) : Z := Z.max 1 (Z.min limit limits.PAGE_MAX).

(** [(last_updated_at, id)] in the order of SQL's rows. *)
Definition cursor_lt (a b : Z * Uuid) : bool := (a.1 <? b.1) || ((a.1 =? b.1) && String.ltb a.2 b.2).

Definition row_cursor (r : Uuid * SessionRow.t) : Z * Uuid := (SessionRow.last_updated_at r.2, r.1).

(** [ORDER BY last_updated_at DESC, id DESC]. *)
Definition row_before (a b : Uuid * SessionRow.t) : Prop := cursor_lt (row_cursor a) (row_cursor b) = false.
#[global] Instance row_before_dec (a b : Uuid * SessionRow.t) : Decision (row_before a b).
Proof. unfold row_before. apply _. Defined.

(** The [WHERE] clause without the cursor. *)
Definition visible (owner : Uuid) (archived : option bool) (db : RelayDb.t) (r : SessionRow.t) : bool :=
  match Db.devices (RelayDb.base db) !! SessionRow.device_id r with
  | Some d => bool_decide (Device.owner_id d = owner /\ Device.revoked_at d = None)
  | None => false
  end && match archived with None => true | Some a => Bool.eqb (SessionRow.archived r) a end.

Definition all_sessions (owner : Uuid) (archived : option bool) (db : RelayDb.t) : list (Uuid * SessionRow.t) :=
  merge_sort row_before (filter (fun '(_, r) => visible owner archived db r = true) (map_to_list (RelayDb.sessions db))).

Definition before_cursor (before : option (Z * Uuid)) (r : Uuid * SessionRow.t) : bool :=
  match before with None => true | Some c => cursor_lt (row_cursor r) c end.

(** One row more than the page, to see whether there are more. *)
Definition list_sessions_statement (owner : Uuid) (params : ListParams.t) (db : RelayDb.t) : list (Uuid * SessionRow.t) :=
  take (Z.to_nat (clamp_page (ListParams.limit params) + 1))
    (filter (fun r => before_cursor (ListParams.before params) r = true) (all_sessions owner (ListParams.archived params) db)).

Definition encode_cursor (c : Z * Uuid) : string :=
  base64_encode (String.list_byte_of_string ("v1:" +:+ rfc3339 c.1 +:+ ":" +:+ c.2)).

Definition decode_cursor (cursor : string) : option (Z * Uuid) :=
  bytes ← base64_decode cursor;
  raw ← (if utf8_valid bytes then Some (String.string_of_list_byte bytes) else None);
  rest ← strip_prefix "v1:" raw;
  '(ts, id) ← rsplit_once ":" rest;
  t ← rfc3339_of ts;
  u ← uuid_of id;
  Some (t, u).
End Summaries.

(** ** Receipts *)

(** [ON CONFLICT (request_id) DO NOTHING]; a session that is named must exist. *)
Definition insert_receipt (request_id : string) (owner : Uuid) (session_id : option Uuid) (operation payload_digest : string) : RStatement bool :=
  fun now db =>
    match RelayDb.receipts db !! request_id with
    | Some _ => (Some false, db)
    | None =>
        if match session_id with None => true | Some s => bool_decide (is_Some (RelayDb.sessions db !! s)) end
        then (Some true, RelayDb.with_receipts
               (<[request_id := ReceiptRow.mk owner session_id operation payload_digest "RECEIVED" "" now now]> (RelayDb.receipts db)) db)
        else (None, db)
    end.

Definition update_receipt (request_id status error_code : string) : RStatement unit := fun now db =>
  (Some tt, RelayDb.with_receipts (alter (ReceiptRow.with_status status error_code now) request_id (RelayDb.receipts db)) db).

Definition get_receipt (request_id : string) (db : RelayDb.t) : option ReceiptRow.t := RelayDb.receipts db !! request_id.

Definition receipt_after (a b : string * ReceiptRow.t) : Prop := ReceiptRow.created_at b.2 <= ReceiptRow.created_at a.2.
#[global] Instance receipt_after_dec (a b : string * ReceiptRow.t) : Decision (receipt_after a b).
Proof. unfold receipt_after. apply _. Defined.

Definition list_receipts_for_session (session : Uuid) (limit : Z) (db : RelayDb.t) : list (string * ReceiptRow.t) :=
  take (Z.to_nat (clamp_page limit))
    (merge_sort receipt_after (filter (fun '(_, r) => ReceiptRow.session_id r = Some session) (map_to_list (RelayDb.receipts db)))).

(** The clean-up of [lib.rs]. *)
Definition delete_old_receipts : RStatement unit := fun now db =>
  (Some tt, RelayDb.with_receipts (filter (fun '(_, r) => now - limits.RECEIPT_RETENTION <= ReceiptRow.created_at r) (RelayDb.receipts db)) db).

Definition receipt_status_code (status : string) : option pb.CommandReceiptStatus.t :=
  if bool_decide (status = "RECEIVED") then Some pb.CommandReceiptStatus.ReceiptReceived
  else if bool_decide (status = "ACCEPTED_BY_BRIDGE") then Some pb.CommandReceiptStatus.ReceiptAcceptedByBridge
  else if bool_decide (status = "DISPATCHED_TO_CODEX") then Some pb.CommandReceiptStatus.ReceiptDispatchedToCodex
  else if bool_decide (status = "COMPLETED") then Some pb.CommandReceiptStatus.ReceiptCompleted
  else if bool_decide (status = "REJECTED") then Some pb.CommandReceiptStatus.ReceiptRejected
  else if bool_decide (status = "OUTCOME_UNKNOWN") then Some pb.CommandReceiptStatus.ReceiptOutcomeUnknown
  else None.
