(* ===== verification/Notify.v ===== *)
(** * Notifications ([push/mod.rs])

    What is sent for the triggers of an envelope, the window that suppresses repetitions, and the HTTP handlers of
    subscriptions and settings, over the tables [push_subscriptions] and [notification_settings].  The Web Push
    service answers from the environment; the JSON text of a payload and the assembly from the environment are left out. *)

From S2P Require Import Prelude Prog Bytes RustStr Proto Messages Buffer Stream Hub RelayBase Auth Pairing RelayStore.

Definition DEDUP_WINDOW : Z := 60 * 1000.
Definition DEDUP_MAX_ENTRIES : nat := Z.to_nat 4096.

Definition generic_body (k : PushEventKind.t) : string :=
  match k with
  | PushEventKind.TurnCompleted => "任务已完成"
  | PushEventKind.TurnFailed => "任务未完成,已失败"
  | PushEventKind.TurnInterrupted => "任务已中断"
  | PushEventKind.WaitingQuestion => "任务在等待你的回答"
  | PushEventKind.WaitingApproval => "任务在等待风险审批"
  end.

(** ** The window *)

Notation Dedup := (gmap (Uuid * Z) Z).

Definition dedup_allow (now : Z) (session : Uuid) (kind : PushEventKind.t) (g : Dedup) : bool * Dedup :=
  let key := (session, PushEventKind.key kind) in
  let g := if (DEDUP_MAX_ENTRIES <? size g)%nat then filter (fun '(_, t) => now - t <= DEDUP_WINDOW) g else g in
  match g !! key with
  | Some t => if now - t <=? DEDUP_WINDOW then (false, g) else (true, <[key := now]> g)
  | None => (true, <[key := now]> g)
  end.

(** ** Data *)

Module PushSendError.
Inductive t := Gone | Transient.
End PushSendError.

Module Settings.
Record t := mk {
  show_title : bool;
  turn_completed : bool;
  turn_failed : bool;
  turn_interrupted : bool;
  waiting_question : bool;
  waiting_approval : bool;
}.
Definition default : t := mk false true true true true true.

Definition event_enabled (s : t) (kind : PushEventKind.t) : bool :=
  match kind with
  | PushEventKind.TurnCompleted => turn_completed s
  | PushEventKind.TurnFailed => turn_failed s
  | PushEventKind.TurnInterrupted => turn_interrupted s
  | PushEventKind.WaitingQuestion => waiting_question s
  | PushEventKind.WaitingApproval => waiting_approval s
  end.
End Settings.

Module Subscription.
Record t := mk {
  owner_id : Uuid;
  endpoint : string;
  p256dh_key : string;
  auth_key : string;
  created_at : Z;
  invalidated_at : option Z;
}.
End Subscription.

Module PushPayload.
Record t := mk {
  session_id : Uuid;
  kind : string;
  deep_link : string;
  title : option string;
  body : string;
}.
End PushPayload.

Module PushDb.
Record t := mk {
  relay : RelayDb.t;
  subscriptions : gmap Uuid Subscription.t;
  settings : gmap Uuid Settings.t;
}.
Definition with_subscriptions (x : gmap Uuid Subscription.t) (d : t) : t := mk (relay d) x (settings d).
Definition with_settings (x : gmap Uuid Settings.t) (d : t) : t := mk (relay d) (subscriptions d) x.
End PushDb.

Definition PStatement (A : Type) : Type := Z -> PushDb.t -> option A * PushDb.t.

(** ** Statements *)

Definition rows_of (owner : Uuid) (d : PushDb.t) : list (Uuid * Subscription.t) :=
  filter (fun '(_, s) => Subscription.owner_id s = owner) (map_to_list (PushDb.subscriptions d)).

(** [invalidated_at IS NULL]. *)
Definition active_subscriptions (owner : Uuid) (d : PushDb.t) : list (Uuid * Subscription.t) :=
  filter (fun '(_, s) => Subscription.invalidated_at s = None) (rows_of owner d).

Definition older (a b : Uuid * Subscription.t) : Prop := Subscription.created_at a.2 <= Subscription.created_at b.2.
#[global] Instance older_dec (a b : Uuid * Subscription.t) : Decision (older a b).
Proof. unfold older. apply _. Defined.

Definition insert_subscription (id owner : Uuid) (endpoint p256dh auth : string) : PStatement Uuid := fun now d =>
  match head (filter (fun '(_, s) => Subscription.endpoint s = endpoint) (rows_of owner d)) with
  | Some (old, s) =>
      (Some old, PushDb.with_subscriptions (<[old := Subscription.mk owner endpoint p256dh auth (Subscription.created_at s) None]> (PushDb.subscriptions d)) d)
  | None =>
      match PushDb.subscriptions d !! id with
      | Some _ => (None, d)
      | None => (Some id, PushDb.with_subscriptions (<[id := Subscription.mk owner endpoint p256dh auth now None]> (PushDb.subscriptions d)) d)
      end
  end.

(** The rows affected; [UNIQUE (owner_id, endpoint)] can refuse it. *)
Definition update_row (id owner : Uuid) (endpoint p256dh auth : string) : PStatement bool := fun _ d =>
  match PushDb.subscriptions d !! id with
  | Some s =>
      if negb (bool_decide (Subscription.owner_id s = owner)) then (Some false, d)
      else if existsb (fun '(j, r) => bool_decide (Subscription.endpoint r = endpoint) && negb (bool_decide (j = id))) (rows_of owner d) then (None, d)
      else (Some true, PushDb.with_subscriptions (<[id := Subscription.mk owner endpoint p256dh auth (Subscription.created_at s) None]> (PushDb.subscriptions d)) d)
  | None => (Some false, d)
  end.

Definition delete_row (id owner : Uuid) : PStatement bool := fun _ d =>
  match PushDb.subscriptions d !! id with
  | Some s =>
      if bool_decide (Subscription.owner_id s = owner) then (Some true, PushDb.with_subscriptions (delete id (PushDb.subscriptions d)) d) else (Some false, d)
  | None => (Some false, d)
  end.

(** [DELETE FROM push_subscriptions WHERE id = $1]. *)
Definition delete_gone (id : Uuid) : PStatement unit := fun _ d => (Some tt, PushDb.with_subscriptions (delete id (PushDb.subscriptions d)) d).

Definition upsert_settings (owner : Uuid) (s : Settings.t) : PStatement unit := fun _ d => (Some tt, PushDb.with_settings (<[owner := s]> (PushDb.settings d)) d).

(** ** Operations *)

Inductive nop : Type -> Type :=
| Utc : nop Z
| FindTarget (device : Uuid) (agent_kind native_session_id : string) : nop (option (option (Uuid * SessionRow.t)))
| SettingsRow (owner : Uuid) : nop (option (option Settings.t))
| DedupAllow (session : Uuid) (kind : PushEventKind.t) : nop bool
| Active (owner : Uuid) : nop (option (list (Uuid * Subscription.t)))
| Owned (owner : Uuid) : nop (option (list (Uuid * Subscription.t)))
| Send (endpoint p256dh auth : string) (payload : PushPayload.t) : nop (res PushSendError.t unit)
| NewUuid : nop Uuid
| Write {A : Type} (s : PStatement A) : nop (option A).

Notation nprog := (prog nop).

(** A failure reads like a missing row. *)
Definition settings_or_default (row : option (option Settings.t)) : Settings.t :=
  match row with Some (Some s) => s | _ => Settings.default end.

Definition load_settings (owner : Uuid) : nprog Settings.t :=
  do row <- act (SettingsRow owner);
  Ret (settings_or_default row).

(** ** [notify] *)

Fixpoint deliver (payload : PushPayload.t) (subs : list (Uuid * Subscription.t)) : nprog unit :=
  match subs with
  | [] => Ret tt
  | (id, s) :: subs =>
      do sent <- act (Send (Subscription.endpoint s) (Subscription.p256dh_key s) (Subscription.auth_key s) payload);
      match sent with
      | Err PushSendError.Gone => perform act (Write (delete_gone id)); deliver payload subs
      | _ => deliver payload subs
      end
  end.

Definition payload_of (settings : Settings.t) (session : Uuid) (row : SessionRow.t) (kind : PushEventKind.t) : PushPayload.t :=
  PushPayload.mk session (PushEventKind.name kind) ("/agent-console/s/" +:+ session)
    (if Settings.show_title settings then Some (SessionRow.title row) else None) (generic_body kind).

Definition notify_one (trigger : PushTrigger.t) : nprog unit :=
  do found <- act (FindTarget (PushTrigger.device trigger) (PushTrigger.agent_kind trigger) (PushTrigger.native_session_id trigger));
  match found with
  | Some (Some (session, row)) =>
      if SessionRow.muted row then Ret tt
      else
        do settings <- load_settings (PushTrigger.owner trigger);
        if negb (Settings.event_enabled settings (PushTrigger.kind trigger)) then Ret tt
        else
          do allowed <- act (DedupAllow session (PushTrigger.kind trigger));
          if negb allowed then Ret tt
          else
            do subs <- act (Active (PushTrigger.owner trigger));
            deliver (payload_of settings session row (PushTrigger.kind trigger)) (default [] subs)
  | _ => Ret tt
  end.

Fixpoint notify_all (triggers : list PushTrigger.t) : nprog unit :=
  match triggers with
  | [] => Ret tt
  | trigger :: triggers => perform notify_one trigger; notify_all triggers
  end.

Definition notify (enabled : bool) (triggers : list PushTrigger.t) : nprog unit := if negb enabled then Ret tt else notify_all triggers.

(** ** The handlers *)

Inductive NReply :=
| Refused (e : ApiError.t)
| Created (id : Uuid)
| SubscriptionList (rows : list (Uuid * Subscription.t))
| NoContent
| SettingsReply (s : Settings.t)
| VapidKey (enabled : bool) (public_key : option string).

Definition nerr (status : Z) (code : Code) : NReply := Refused (ApiError.mk status code "").
Definition ninternal : NReply := nerr 500 pb.StableErrorCode.InternalError.

Module SubscriptionBody.
Record t := mk {
  endpoint : string;
  p256dh : string;
  auth : string;
}.
End SubscriptionBody.

Module EventsBody.
Record t := mk {
  turn_completed : option bool;
  turn_failed : option bool;
  turn_interrupted : option bool;
  waiting_question : option bool;
  waiting_approval : option bool;
}.
Definition none : t := mk None None None None None.
End EventsBody.

Module SettingsBody.
Record t := mk {
  show_title : option bool;
  events : option EventsBody.t;
}.
End SettingsBody.

Definition create_subscription (owner : Uuid) (body : SubscriptionBody.t) : nprog NReply :=
  if bool_decide (SubscriptionBody.endpoint body = "") || bool_decide (SubscriptionBody.p256dh body = "") || bool_decide (SubscriptionBody.auth body = "")
  then Ret (nerr 400 pb.StableErrorCode.InternalError)
  else
    do id <- act NewUuid;
    do row <- act (Write (insert_subscription id owner (SubscriptionBody.endpoint body) (SubscriptionBody.p256dh body) (SubscriptionBody.auth body)));
    Ret match row with Some id => Created id | None => ninternal end.

Definition list_subscriptions (owner : Uuid) : nprog NReply :=
  do rows <- act (Owned owner);
  Ret match rows with Some rows => SubscriptionList (merge_sort older rows) | None => ninternal end.

Definition affected (r : option bool) : NReply :=
  match r with
  | Some true => NoContent
  | Some false => nerr 404 pb.StableErrorCode.SessionNotFound
  | None => ninternal
  end.

Definition update_subscription (owner id : Uuid) (body : SubscriptionBody.t) : nprog NReply :=
  do r <- act (Write (update_row id owner (SubscriptionBody.endpoint body) (SubscriptionBody.p256dh body) (SubscriptionBody.auth body)));
  Ret (affected r).

Definition delete_subscription (owner id : Uuid) : nprog NReply := do r <- act (Write (delete_row id owner)); Ret (affected r).

Definition get_settings (owner : Uuid) : nprog NReply := do s <- load_settings owner; Ret (SettingsReply s).

Definition get_vapid_public_key (enabled : bool) (public_key : option string) : nprog NReply := Ret (VapidKey enabled public_key).

Definition patched (current : Settings.t) (body : SettingsBody.t) : Settings.t :=
  let events := default EventsBody.none (SettingsBody.events body) in
  Settings.mk (default (Settings.show_title current) (SettingsBody.show_title body))
    (default (Settings.turn_completed current) (EventsBody.turn_completed events))
    (default (Settings.turn_failed current) (EventsBody.turn_failed events))
    (default (Settings.turn_interrupted current) (EventsBody.turn_interrupted events))
    (default (Settings.waiting_question current) (EventsBody.waiting_question events))
    (default (Settings.waiting_approval current) (EventsBody.waiting_approval events)).

Definition put_settings (owner : Uuid) (body : SettingsBody.t) : nprog NReply :=
  do current <- load_settings owner;
  let settings := patched current body in
  do r <- act (Write (upsert_settings owner settings));
  Ret match r with Some _ => SettingsReply settings | None => ninternal end.

Inductive PushRoute :=
| CreateSubscription (body : SubscriptionBody.t)
| ListSubscriptions
| UpdateSubscription (id : Uuid) (body : SubscriptionBody.t)
| DeleteSubscription (id : Uuid)
| GetSettings
| PutSettings (body : SettingsBody.t)
| GetVapidPublicKey.

Section Routes.
Variable enabled : bool.
Variable public_key : option string.

Definition push_handler (r : PushRoute) (owner : Uuid) : nprog NReply :=
  match r with
  | CreateSubscription body => create_subscription owner body
  | ListSubscriptions => list_subscriptions owner
  | UpdateSubscription id body => update_subscription owner id body
  | DeleteSubscription id => delete_subscription owner id
  | GetSettings => get_settings owner
  | PutSettings body => put_settings owner body
  | GetVapidPublicKey => get_vapid_public_key enabled public_key
  end.

Definition handle_push `{AuthCrates} (config : Config.t) (peer : IpAddr) (headers : HeaderMap) (r : PushRoute) : nprog NReply :=
  do now <- act Utc;
  match browser_http_identity config peer headers now with
  | Ok ident => push_handler r (BrowserHttpIdentity.owner_id ident)
  | Err e => Ret (Refused e)
  end.
End Routes.

(** ** The window keeps repetitions apart *)

Definition Call : Type := Z * (Uuid * PushEventKind.t).

(** The calls that are let through, of calls at these times. *)
Fixpoint let_through (calls : list Call) (g : Dedup) : list Call :=
  match calls with
  | [] => []
  | (now, (session, kind)) :: calls =>
      let '(ok, g) := dedup_allow now session kind g in
      (if ok then [(now, (session, kind))] else []) ++ let_through calls g
  end.

Definition in_time : list Call -> Prop := StronglySorted (fun a b => a.1 <= b.1).

Lemma let_through_incl (calls : list Call) (g : Dedup) : let_through calls g ⊆ calls.
Proof.
  revert g. induction calls as [|[now [s k]] calls IH]; intros g; [done|]. cbn [let_through]. destruct (dedup_allow now s k g) as [[] g'].
  - intros x [X|X]%elem_of_app; [apply list_elem_of_singleton in X as ->; by left|right; by eapply IH].
  - intros x X. right. by eapply IH.
Qed.

Lemma key_inj (a b : PushEventKind.t) : PushEventKind.key a = PushEventKind.key b -> a = b.
Proof. by destruct a, b. Qed.

(** The entry of a key after a call, at a later time: kept, unless the window has passed. *)
Lemma dedup_entry (now t : Z) (s : Uuid) (k : PushEventKind.t) (key : Uuid * Z) (g : Dedup) :
  g !! key = Some t -> now - t <= DEDUP_WINDOW ->
  (dedup_allow now s k g).2 !! key = Some t /\ (key = (s, PushEventKind.key k) -> (dedup_allow now s k g).1 = false).
Proof.
  intros L W. unfold dedup_allow. set (g' := if (_ <? _)%nat then _ else g).
  assert (L' : g' !! key = Some t) by (unfold g'; case_match; [by apply map_lookup_filter_Some|done]).
  destruct (g' !! (s, PushEventKind.key k)) as [t'|] eqn:E.
  - destruct (Z.leb_spec (now - t') DEDUP_WINDOW); [by split|]. cbn [fst snd]. rewrite lookup_insert_ne; [|intros <-; simplify_eq; lia].
    split; [done|]. intros ->. simplify_eq. lia.
  - cbn [fst snd]. rewrite lookup_insert_ne by congruence. split; [done|]. intros ->. congruence.
Qed.

Lemma let_through_later (calls : list Call) (g : Dedup) (t : Z) (s : Uuid) (k : PushEventKind.t) :
  in_time calls -> g !! (s, PushEventKind.key k) = Some t \/ Forall (fun c => DEDUP_WINDOW < c.1 - t) calls ->
  Forall (fun c => c.2 = (s, k) -> DEDUP_WINDOW < c.1 - t) (let_through calls g).
Proof.
  intros S. revert g. induction S as [|[now [s' k']] calls S IH F]; intros g [L|Late]; [constructor..| |].
  - destruct (Z.le_gt_cases (now - t) DEDUP_WINDOW) as [W|W].
    + destruct (dedup_entry now t s' k' _ g L W) as [K N]. cbn [let_through]. destruct (dedup_allow now s' k' g) as [ok g']. simpl in *.
      apply Forall_app. split; [|by apply IH; left]. destruct ok; [|constructor]. repeat constructor. simpl. intros E. injection E as -> ->. by specialize (N eq_refl).
    + apply Forall_forall. intros c C _. apply let_through_incl, elem_of_cons in C as [->|C]; [simpl; lia|]. rewrite Forall_forall in F. specialize (F c C). simpl in F. lia.
  - apply Forall_forall. intros c C _. apply let_through_incl in C. rewrite Forall_forall in Late. by apply Late.
Qed.

(** A notification is not repeated within the window.  However often, and by whatever tasks, the window is asked, at times that do not go
    back: two calls for the same session and kind that are both let through are more than a minute apart.  The clean-up of
    a full table only drops entries whose window has passed. *)
Theorem dedup_spaced (calls : list Call) (g : Dedup) :
  in_time calls -> StronglySorted (fun a b => a.2 = b.2 -> DEDUP_WINDOW < b.1 - a.1) (let_through calls g).
Proof.
  intros S. revert g. induction S as [|[now [s k]] calls S IH F]; intros g; [constructor|]. cbn [let_through].
  assert (E : forall g', dedup_allow now s k g = (true, g') -> g' !! (s, PushEventKind.key k) = Some now).
  { unfold dedup_allow. intros g'. repeat case_match; intros X; try done; injection X as <-; apply lookup_insert_eq. }
  destruct (dedup_allow now s k g) as [[] g']; [|by apply IH]. specialize (E g' eq_refl). constructor; [by apply IH|].
  eapply Forall_impl; [apply (let_through_later calls g' now s k S); by left|]. simpl. auto.
Qed.

(** ** What is sent *)

Module PushWorld.
Record t := mk { db : PushDb.t; dedup : Dedup }.
End PushWorld.

Definition nstep (B : Type) (o : nop B) (w : PushWorld.t) : option B -> PushWorld.t -> Prop :=
  match o in nop B return option B -> PushWorld.t -> Prop with
  | Utc | NewUuid | Send _ _ _ _ => fun b w' => b <> None /\ w' = w
  | FindTarget device kind native => fun b w' =>
      (b = Some (Some (find_session device kind native (PushDb.relay (PushWorld.db w)))) \/ b = Some None) /\ w' = w
  | SettingsRow owner => fun b w' => (b = Some (Some (PushDb.settings (PushWorld.db w) !! owner)) \/ b = Some None) /\ w' = w
  | DedupAllow session kind => fun b w' =>
      exists now, let '(ok, g) := dedup_allow now session kind (PushWorld.dedup w) in b = Some ok /\ w' = PushWorld.mk (PushWorld.db w) g
  | Active owner => fun b w' => (b = Some (Some (active_subscriptions owner (PushWorld.db w))) \/ b = Some None) /\ w' = w
  | Owned owner => fun b w' => (b = Some (Some (rows_of owner (PushWorld.db w))) \/ b = Some None) /\ w' = w
  | Write s => fun b w' =>
      exists now, b = Some (s now (PushWorld.db w)).1 /\ w' = PushWorld.mk (s now (PushWorld.db w)).2 (PushWorld.dedup w) \/ b = Some None /\ w' = w
  end.

Inductive NObs :=
| Found (device : Uuid) (agent_kind native_session_id : string) (r : option (option (Uuid * SessionRow.t)))
| ReadSettings (owner : Uuid) (r : option (option Settings.t))
| Allowed (session : Uuid) (kind : PushEventKind.t) (ok : bool)
| ReadActive (owner : Uuid) (subs : list (Uuid * Subscription.t))
| Sent (endpoint p256dh auth : string) (payload : PushPayload.t)
| Wrote.

Definition nobs (B : Type) (o : nop B) : B -> list NObs :=
  match o in nop B return B -> list NObs with
  | FindTarget device kind native => fun r => [Found device kind native r]
  | SettingsRow owner => fun r => [ReadSettings owner r]
  | DedupAllow session kind => fun ok => [Allowed session kind ok]
  | Active owner => fun subs => [ReadActive owner (default [] subs)]
  | Send endpoint p256dh auth payload => fun _ => [Sent endpoint p256dh auth payload]
  | Write _ => fun _ => [Wrote]
  | Utc | NewUuid | Owned _ => fun _ => []
  end.

Section Sending.
Variable env : PushWorld.t -> PushWorld.t -> Prop.
Notation run := (texec env nstep nobs).

(** The owner leaves this kind switched on: in the row that was read.  Without a row, and when the read fails, every kind counts as on. *)
Definition leaves_on (settings : option (option Settings.t)) (kind : PushEventKind.t) : Prop :=
  forall s, settings = Some (Some s) ->
  match kind with
  | PushEventKind.TurnCompleted => Settings.turn_completed s = true
  | PushEventKind.TurnFailed => Settings.turn_failed s = true
  | PushEventKind.TurnInterrupted => Settings.turn_interrupted s = true
  | PushEventKind.WaitingQuestion => Settings.waiting_question s = true
  | PushEventKind.WaitingApproval => Settings.waiting_approval s = true
  end.

(** The title is in the message just when a row was read that asks for it. *)
Definition title_shown (settings : option (option Settings.t)) (row : SessionRow.t) (title : option string) : Prop :=
  (title = Some (SessionRow.title row) /\ exists s, settings = Some (Some s) /\ Settings.show_title s = true) \/
  (title = None /\ forall s, settings = Some (Some s) -> Settings.show_title s = false).

(** A message that is sent in [t], and what came before it. *)
Definition sent_for (triggers : list PushTrigger.t) (t : list NObs) : Prop :=
  forall endpoint p256dh auth payload, Sent endpoint p256dh auth payload ∈ t ->
  exists trigger session row settings subs id s before mid after,
    trigger ∈ triggers /\
    t = before ++ [Found (PushTrigger.device trigger) (PushTrigger.agent_kind trigger) (PushTrigger.native_session_id trigger) (Some (Some (session, row)));
                   ReadSettings (PushTrigger.owner trigger) settings; Allowed session (PushTrigger.kind trigger) true; ReadActive (PushTrigger.owner trigger) subs] ++
        mid ++ Sent endpoint p256dh auth payload :: after /\
    SessionRow.muted row = false /\ leaves_on settings (PushTrigger.kind trigger) /\
    (id, s) ∈ subs /\ Subscription.owner_id s = PushTrigger.owner trigger /\ Subscription.invalidated_at s = None /\
    (endpoint, p256dh, auth) = (Subscription.endpoint s, Subscription.p256dh_key s, Subscription.auth_key s) /\
    exists title, title_shown settings row title /\
      payload = PushPayload.mk session (PushEventKind.name (PushTrigger.kind trigger)) ("/agent-console/s/" +:+ session) title (generic_body (PushTrigger.kind trigger)).

Lemma sent_for_app (l : list PushTrigger.t) (x : PushTrigger.t) (t u : list NObs) : sent_for [x] t -> sent_for l u -> sent_for (x :: l) (t ++ u).
Proof.
  intros T U e p a pl [I|I]%elem_of_app.
  - destruct (T _ _ _ _ I) as (tr & session & row & settings & subs & id & s & before & mid & after & X & -> & R). apply list_elem_of_singleton in X as ->.
    exists x, session, row, settings, subs, id, s, before, mid, (after ++ u). split; [by left|]. split; [by rewrite <- !app_assoc, <- app_comm_cons|done].
  - destruct (U _ _ _ _ I) as (tr & session & row & settings & subs & id & s & before & mid & after & X & -> & R).
    exists tr, session, row, settings, subs, id, s, (t ++ before), mid, after. split; [by right|]. split; [by rewrite <- app_assoc|done].
Qed.

Definition silent (o : NObs) : Prop := match o with Sent _ _ _ _ => False | _ => True end.

Lemma silent_sent_for (l : list PushTrigger.t) (t : list NObs) : Forall silent t -> sent_for l t.
Proof. intros F e p a pl I. rewrite Forall_forall in F. destruct (F _ I). Qed.

Lemma enabled_leaves_on (settings : option (option Settings.t)) (kind : PushEventKind.t) :
  Settings.event_enabled (settings_or_default settings) kind = true -> leaves_on settings kind.
Proof. by intros E s ->; destruct kind. Qed.

Lemma payload_title (settings : option (option Settings.t)) (session : Uuid) (row : SessionRow.t) (kind : PushEventKind.t) :
  exists title, title_shown settings row title /\
    payload_of (settings_or_default settings) session row kind = PushPayload.mk session (PushEventKind.name kind) ("/agent-console/s/" +:+ session) title (generic_body kind).
Proof.
  eexists. split; [|reflexivity]. destruct settings as [[s|]|]; cbn [settings_or_default]; [|by right..].
  destruct (Settings.show_title s) eqn:E; [left; split; [done|by exists s]|right; split; [done|]]. intros s' [= <-]. done.
Qed.

Lemma deliver_trace (payload : PushPayload.t) (subs : list (Uuid * Subscription.t)) (w w' : PushWorld.t) (t : list NObs) (a : option unit) :
  run (deliver payload subs) w t a w' ->
  Forall (fun o => match o with
    | Sent e p au pl => pl = payload /\ exists id s, (id, s) ∈ subs /\ (e, p, au) = (Subscription.endpoint s, Subscription.p256dh_key s, Subscription.auth_key s)
    | Wrote => True | _ => False end) t.
Proof.
  revert w t. induction subs as [|[id s] subs IH]; intros w t; cbn [deliver]; [by intros (-> & _)|].
  assert (Next : forall w t, run (deliver payload subs) w t a w' -> Forall (fun o => match o with
    | Sent e p au pl => pl = payload /\ exists id' s', (id', s') ∈ (id, s) :: subs /\ (e, p, au) = (Subscription.endpoint s', Subscription.p256dh_key s', Subscription.auth_key s')
    | Wrote => True | _ => False end) t).
  { intros w0 t0 X. eapply Forall_impl; [by eapply IH|]. intros []; try done. intros (-> & id' & s' & I & E). split; [done|]. exists id', s'. split; [by right|done]. }
  intros [[X _]|(t1 & r & w1 & t2 & X1 & X & ->)]%texec_bind; [by apply texec_act in X as (? & _ & _ & ->)|].
  apply texec_act in X1 as (? & _ & _ & ->). cbn [nobs app]. constructor; [split; [done|]; exists id, s; split; [by left|done]|].
  destruct r as [|[|]]; [by eapply Next| |by eapply Next].
  apply texec_bind in X as [[X _]|(t3 & u & w2 & t4 & X1 & X & ->)]; [by apply texec_act in X as (? & _ & _ & ->)|].
  apply texec_act in X1 as (? & _ & _ & ->). cbn [nobs app]. constructor; [done|by eapply Next].
Qed.

Lemma notify_one_trace (trigger : PushTrigger.t) (w w' : PushWorld.t) (t : list NObs) (a : option unit) :
  run (notify_one trigger) w t a w' -> sent_for [trigger] t.
Proof.
  unfold notify_one, load_settings.
  intros [[X _]|(t1 & found & w1 & t2 & X1 & X & ->)]%texec_bind; [apply texec_act in X as (? & _ & _ & ->); by apply silent_sent_for|].
  apply texec_act in X1 as (? & _ & _ & ->). cbn [nobs app].
  destruct found as [[[session row]|]|]; [|destruct X as (-> & _); apply silent_sent_for; by repeat constructor..].
  destruct (SessionRow.muted row) eqn:M; [destruct X as (-> & _); apply silent_sent_for; by repeat constructor|].
  apply texec_bind in X as [[X _]|(t3 & st & w2 & t4 & X1 & X & ->)].
  { apply texec_bind in X as [[X _]|(? & ? & ? & ? & X1 & X & ->)].
    - apply texec_act in X as (? & _ & _ & ->). apply silent_sent_for. by repeat constructor.
    - apply texec_act in X1 as (? & _ & _ & ->). destruct X as (-> & _). apply silent_sent_for. by repeat constructor. }
  apply texec_bind in X1 as [[_ ?]|(? & settings & ? & ? & X1 & X2 & ->)]; [done|]. apply texec_act in X1 as (? & _ & _ & ->). destruct X2 as (-> & E & ->). injection E as ->. cbn [nobs app].
  destruct (Settings.event_enabled _ _) eqn:En; cbn [negb] in X; [|destruct X as (-> & _); apply silent_sent_for; by repeat constructor].
  apply texec_bind in X as [[X _]|(? & ok & w3 & t5 & X1 & X & ->)]; [apply texec_act in X as (? & _ & _ & ->); apply silent_sent_for; by repeat constructor|].
  apply texec_act in X1 as (? & _ & _ & ->). cbn [nobs app]. destruct ok; cbn [negb] in X; [|destruct X as (-> & _); apply silent_sent_for; by repeat constructor].
  apply texec_bind in X as [[X _]|(? & subs & w4 & t6 & X1 & X & ->)]; [apply texec_act in X as (? & _ & _ & ->); apply silent_sent_for; by repeat constructor|].
  apply texec_act in X1 as (w5 & _ & St & ->). cbn [nobs app]. apply deliver_trace in X.
  intros e p au pl I. rewrite !elem_of_cons in I. destruct I as [?|[?|[?|[?|I]]]]; try done.
  apply list_elem_of_split in I as (mid & after & ->). apply Forall_app in X as [_ X]. apply Forall_cons in X as [(-> & id & s & I & Es) _].
  assert (A : subs = Some (active_subscriptions (PushTrigger.owner trigger) (PushWorld.db w5))).
  { destruct St as [[Y|Y] _]; injection Y as ->; [done|]. by apply not_elem_of_nil in I. }
  subst subs. cbn [default from_option] in I. pose proof I as I'. unfold active_subscriptions, rows_of in I'.
  apply list_elem_of_filter in I' as [Iv I']. apply list_elem_of_filter in I' as [Ow _].
  exists trigger, session, row, settings, (active_subscriptions (PushTrigger.owner trigger) (PushWorld.db w5)), id, s, [], mid, after. split_and!; try done; [by left|by apply enabled_leaves_on|].
  apply payload_title.
Qed.

Lemma notify_all_trace (triggers : list PushTrigger.t) (w w' : PushWorld.t) (t : list NObs) (a : option unit) :
  run (notify_all triggers) w t a w' -> sent_for triggers t.
Proof.
  revert w t. induction triggers as [|x l IH]; intros w t; cbn [notify_all]; [intros (-> & _); by apply silent_sent_for|].
  intros [[X _]|(t1 & u & w1 & t2 & X1 & X & ->)]%texec_bind.
  - apply notify_one_trace in X. rewrite <- (app_nil_r t). apply sent_for_app; [done|]. by apply silent_sent_for.
  - apply sent_for_app; [by eapply notify_one_trace|by eapply IH].
Qed.

(** C5. A notification respects what the user has chosen.  Every message the Relay sends belongs to a trigger of the envelope: before it, the
    session of the trigger was found and is not muted, the settings of the owner were asked for and, if a row was read, it has the
    kind switched on, the window let it through, and the addressed subscription was one of the owner, not invalidated.  The message names
    the session, the kind and a generic text, and the title only if a row was read that switches titles on.  When the owner has no row
    of settings, or it cannot be read, every kind counts as switched on.  Nothing is sent when sending is disabled. *)
Theorem notify_respects_settings (enabled : bool) (triggers : list PushTrigger.t) (w w' : PushWorld.t) (t : list NObs) (a : option unit) :
  run (notify enabled triggers) w t a w' -> sent_for triggers t /\ (enabled = false -> t = []).
Proof.
  unfold notify. destruct enabled; cbn [negb]; intros X; [split; [by eapply notify_all_trace|done]|]. destruct X as (-> & _). split; [by apply silent_sent_for|done].
Qed.
End Sending.

(** ** Rows of other users *)

Definition keeps_others {A : Type} (owner : Uuid) (s : PStatement A) : Prop :=
  forall now d, let d' := (s now d).2 in
    PushDb.relay d' = PushDb.relay d /\
    (forall o, o <> owner -> PushDb.settings d' !! o = PushDb.settings d !! o) /\
    (forall id x, Subscription.owner_id x <> owner -> (PushDb.subscriptions d' !! id = Some x <-> PushDb.subscriptions d !! id = Some x)).

Definition of_owner (owner : Uuid) (B : Type) (o : nop B) : Prop :=
  match o with
  | Write s => keeps_others owner s
  | SettingsRow o | Owned o => o = owner
  | NewUuid => True
  | _ => False
  end.

Lemma keeps_subscription (owner id : Uuid) (x : Subscription.t) (d : PushDb.t) :
  Subscription.owner_id x = owner -> (forall y, PushDb.subscriptions d !! id = Some y -> Subscription.owner_id y = owner) ->
  forall j y, Subscription.owner_id y <> owner -> (<[id := x]> (PushDb.subscriptions d) !! j = Some y <-> PushDb.subscriptions d !! j = Some y).
Proof.
  intros X Y j y N. destruct (decide (j = id)) as [->|Ne]; [|by rewrite lookup_insert_ne]. rewrite lookup_insert_eq. split.
  - intros E. injection E as <-. congruence.
  - intros E. apply Y in E. congruence.
Qed.

Lemma rows_of_elem (owner id : Uuid) (x : Subscription.t) (d : PushDb.t) :
  (id, x) ∈ rows_of owner d <-> PushDb.subscriptions d !! id = Some x /\ Subscription.owner_id x = owner.
Proof. unfold rows_of. rewrite list_elem_of_filter, elem_of_map_to_list. tauto. Qed.

Lemma insert_row_keeps (id owner : Uuid) (endpoint p256dh auth : string) : keeps_others owner (insert_subscription id owner endpoint p256dh auth).
Proof.
  intros now d. unfold insert_subscription. destruct (head _) as [[old x]|] eqn:H.
  - apply head_Some_elem_of, list_elem_of_filter in H as [_ H]. apply rows_of_elem in H as [L O]. split_and!; [done..|]. simpl. apply keeps_subscription; [done|]. intros y E. congruence.
  - destruct (PushDb.subscriptions d !! id) eqn:L; [by split_and!|]. split_and!; [done..|]. simpl. apply keeps_subscription; [done|]. intros y E. congruence.
Qed.

Lemma update_keeps (id owner : Uuid) (endpoint p256dh auth : string) : keeps_others owner (update_row id owner endpoint p256dh auth).
Proof.
  intros now d. unfold update_row. destruct (PushDb.subscriptions d !! id) as [x|] eqn:L; [|by split_and!]. case_bool_decide as O; cbn [negb]; [|by split_and!].
  destruct (existsb _ _); [by split_and!|]. split_and!; [done..|]. simpl. apply keeps_subscription; [done|]. intros y E. congruence.
Qed.

Lemma delete_keeps (id owner : Uuid) : keeps_others owner (delete_row id owner).
Proof.
  intros now d. unfold delete_row. destruct (PushDb.subscriptions d !! id) as [x|] eqn:L; [|by split_and!]. case_bool_decide as O; [|by split_and!].
  split_and!; [done..|]. intros j y N. simpl. destruct (decide (j = id)) as [->|Ne]; [|by rewrite lookup_delete_ne]. rewrite lookup_delete_eq. split; [done|]. congruence.
Qed.

Lemma settings_keeps (owner : Uuid) (s : Settings.t) : keeps_others owner (upsert_settings owner s).
Proof. intros now d. split_and!; [done| |done]. intros o N. simpl. by rewrite lookup_insert_ne. Qed.

Hint Resolve insert_row_keeps update_keeps delete_keeps settings_keeps : push.

(** A handler reads the settings and subscriptions of its caller only, and whatever it writes leaves the rows of everybody else as they
    are. *)
Theorem push_api_isolated (enabled : bool) (public_key : option string) (route : PushRoute) (owner : Uuid) :
  prog_all (of_owner owner) (push_handler enabled public_key route owner).
Proof.
  destruct route; cbn [push_handler]; unfold create_subscription, list_subscriptions, update_subscription, delete_subscription, get_settings, put_settings, load_settings, get_vapid_public_key;
    prog_all_tac; simpl; auto with push.
Qed.

(** ** Concrete runs *)

Module NotifyDemo.
(** At one instant; [fail]: the settings cannot be read. *)
Definition notify_op (fail : bool) (now : Z) {B : Type} (o : nop B) (w : PushWorld.t) : B * PushWorld.t :=
  match o in nop B return B * PushWorld.t with
  | Utc => (now, w)
  | FindTarget device kind native => (Some (find_session device kind native (PushDb.relay (PushWorld.db w))), w)
  | SettingsRow owner => (if fail then None else Some (PushDb.settings (PushWorld.db w) !! owner), w)
  | DedupAllow session kind => let '(ok, g) := dedup_allow now session kind (PushWorld.dedup w) in (ok, PushWorld.mk (PushWorld.db w) g)
  | Active owner => (Some (active_subscriptions owner (PushWorld.db w)), w)
  | Owned owner => (Some (rows_of owner (PushWorld.db w)), w)
  | Send _ _ _ _ => (Ok tt, w)
  | NewUuid => ("new", w)
  | Write s => ((s now (PushWorld.db w)).1, PushWorld.mk (s now (PushWorld.db w)).2 (PushWorld.dedup w))
  end.

Lemma notify_op_nstep (fail : bool) (now : Z) (B : Type) (o : nop B) (w : PushWorld.t) : nstep B o w (Some (notify_op fail now o w).1) (notify_op fail now o w).2.
Proof.
  destruct o; cbn [nstep notify_op fst snd]; try (by split; [|done]); try (by split; [left|]).
  - split; [|done]. destruct fail; [by right|by left].
  - exists now. by destruct (dedup_allow _ _ _ _).
  - exists now. by left.
Qed.

Fixpoint eval (fail : bool) (now : Z) {A : Type} (p : nprog A) (w : PushWorld.t) : A * list NObs * PushWorld.t :=
  match p with
  | Ret a => (a, [], w)
  | @Act _ _ B o k => let '(a, t, w') := eval fail now (k (notify_op fail now o w).1) (notify_op fail now o w).2 in (a, nobs B o (notify_op fail now o w).1 ++ t, w')
  end.

Lemma eval_notify (fail : bool) (now : Z) (env : PushWorld.t -> PushWorld.t -> Prop) {A : Type} (p : nprog A) (w : PushWorld.t) :
  texec env nstep nobs p w (eval fail now p w).1.2 (Some (eval fail now p w).1.1) (eval fail now p w).2.
Proof.
  revert w. induction p as [a|B o k IH]; intros w; [done|]. cbn [eval texec].
  exists w, (Some (notify_op fail now o w).1), (notify_op fail now o w).2. split_and!; [constructor|apply notify_op_nstep|].
  specialize (IH (notify_op fail now o w).1 (notify_op fail now o w).2). destruct (eval fail now (k _) _) as [[a t] w']. by exists t.
Qed.

Definition row : SessionRow.t :=
  SessionRow.mk "d" "CODEX_DESKTOP" "n" "secret title" "" "" "" None "" "" "" "" 0 [] "" "" 0 0 false false false.
Definition quiet : Settings.t := Settings.mk false false true true true true.
Definition world (settings : gmap Uuid Settings.t) : PushWorld.t :=
  PushWorld.mk (PushDb.mk (RelayDb.mk Db.empty {["s" := row]} ∅) {["1" := Subscription.mk "a" "https://push/1" "k" "x" 0 None; "2" := Subscription.mk "b" "https://push/2" "k" "x" 0 None]} settings) ∅.

Definition failed_turn : list PushTrigger.t := [PushTrigger.mk "a" "d" "CODEX_DESKTOP" "n" PushEventKind.TurnFailed].
Definition run : unit * list NObs * PushWorld.t := eval false 5 (notify true failed_turn) (world {["a" := quiet]}).

Lemma notify_respects_settings_witness :
  sent_for failed_turn run.1.2 /\
  Sent "https://push/1" "k" "x" (PushPayload.mk "s" "turnFailed" "/agent-console/s/s" None (generic_body PushEventKind.TurnFailed)) ∈ run.1.2 /\ length run.1.2 = 5%nat.
Proof.
  split; [|split; [vm_compute; do 4 apply list_elem_of_further; apply list_elem_of_here|vm_compute; reflexivity]].
  refine (proj1 (notify_respects_settings (fun _ _ => False) true failed_turn (world {["a" := quiet]}) run.2 run.1.2 (Some run.1.1) _)). apply eval_notify.
Defined.

Definition calls : list Call := [(0, ("s", PushEventKind.TurnFailed)); (60000, ("s", PushEventKind.TurnFailed)); (60001, ("s", PushEventKind.TurnFailed)); (60002, ("s", PushEventKind.WaitingApproval))].

Lemma dedup_spaced_witness :
  in_time calls /\ StronglySorted (fun a b => a.2 = b.2 -> DEDUP_WINDOW < b.1 - a.1) (let_through calls ∅) /\ map fst (let_through calls ∅) = [0; 60001; 60002].
Proof.
  assert (T : in_time calls) by (repeat constructor; simpl; lia).
  split; [exact T|]. split; [by apply dedup_spaced|vm_compute; reflexivity].
Defined.

(** A summary that still reports the last outcome asks for a notification again: after the window it is sent again, although no turn has ended. *)
Lemma old_outcome_notified_again :
  let summary := SessionSummaryChanged (SessionSummary.mk None 2 0 [] []) in
  triggers_from_event "a" "d" "CODEX_DESKTOP" "n" summary = failed_turn /\
  let_through [(0, ("s", PushEventKind.TurnFailed)); (60001, ("s", PushEventKind.TurnFailed))] ∅ = [(0, ("s", PushEventKind.TurnFailed)); (60001, ("s", PushEventKind.TurnFailed))].
Proof. split; vm_compute; reflexivity. Qed.

(** When the settings cannot be read, a change of one of them sets the others back to their defaults. *)
Lemma unread_settings_are_reset :
  let w := (eval true 5 (put_settings "a" (SettingsBody.mk (Some true) None)) (world {["a" := quiet]})).2 in
  Settings.turn_completed quiet = false /\ (Settings.turn_completed <$> PushDb.settings (PushWorld.db w) !! "a") = Some true.
Proof. split; vm_compute; reflexivity. Qed.

(** .. and a kind that is switched off is sent. *)
Lemma unread_settings_allow_everything :
  let triggers := [PushTrigger.mk "a" "d" "CODEX_DESKTOP" "n" PushEventKind.TurnCompleted] in
  length (eval false 5 (notify true triggers) (world {["a" := quiet]})).1.2 = 2%nat /\ length (eval true 5 (notify true triggers) (world {["a" := quiet]})).1.2 = 5%nat.
Proof. split; vm_compute; reflexivity. Qed.
End NotifyDemo.
