(* ===== verification/RelayOps.v ===== *)
(** * The operations of the Relay's handlers

    A handler reads clocks, takes the lock of the hub, runs statements and pushes to the queue of a
    browser; between two of these any other task runs.  The world they share is the hub and the
    database; [forwarded] and [removed] record the commands handed to Bridges and the receipts cleaned up. *)

From S2P Require Import Prelude Prog Bytes RustStr Proto Messages Buffer Stream Hub HubProps RelayBase Auth Pairing RelayStore.

(** Encoding of the messages the Relay passes on, by the protobuf library. *)
Class RequestWire := {
  encode_command : pb.CommandRequest.t -> list byte;
  encode_query : pb.QueryRequest.t -> list byte;
}.

(** What is read under the lock of the hub, at an instant. *)
Inductive Question : Type -> Type :=
| IdentityOf (conn_id : Uuid) : Question (option BrowserIdentity.t)
| HasOutbox (conn_id : Uuid) : Question bool
| IsShutdown : Question bool
| WritesAllowed : Question bool
| IsOnline (device : Uuid) : Question bool
| OnlineDevices (owner : Uuid) : Question (list Uuid).

Definition answer {A : Type} (q : Question A) (now : Z) (g : HubInner.t) : A :=
  match q in Question A return A with
  | IdentityOf conn => browser_identity g conn
  | HasOutbox conn => bool_decide (is_Some (browser_outbox g conn))
  | IsShutdown => HubInner.shutdown g
  | WritesAllowed => writes_allowed now g
  | IsOnline device => is_online g device
  | OnlineDevices owner => online_devices_of_owner g owner
  end.

(** What is read from the database. *)
Inductive Select : Type -> Type :=
| OwnedDevice (device owner : Uuid) : Select bool
| DeviceOwner (device : Uuid) : Select (option Uuid)
| FindSession (device : Uuid) (agent_kind native_session_id : string) : Select (option (Uuid * SessionRow.t))
| GetSession (id : Uuid) : Select (option SessionRow.t)
| ListSessions (owner : Uuid) (params : ListParams.t) : Select (list (Uuid * SessionRow.t))
| GetReceipt (request_id : string) : Select (option ReceiptRow.t)
| ListReceipts (session : Uuid) (limit : Z) : Select (list (string * ReceiptRow.t)).

Definition select {A : Type} (q : Select A) (db : RelayDb.t) : A :=
  match q in Select A return A with
  | OwnedDevice device owner => bool_decide (is_Some (own_live_device device owner (RelayDb.base db)))
  | DeviceOwner device =>
      d ← Db.devices (RelayDb.base db) !! device; if bool_decide (Device.revoked_at d = None) then Some (Device.owner_id d) else None
  | FindSession device kind native => find_session device kind native db
  | GetSession id => get_session id db
  | ListSessions owner params => list_sessions_statement owner params db
  | GetReceipt id => get_receipt id db
  | ListReceipts session limit => list_receipts_for_session session limit db
  end.

Inductive rop : Type -> Type :=
| Utc : rop Z
| NewRequestId : rop string
| HubAsk {A : Type} (q : Question A) : rop A
| Fetch {A : Type} (q : Select A) : rop (option A)
| HubTake {A : Type} (o : HubOp) (f : Z -> HubInner.t -> A) : rop A
| ForwardCommand (device : Uuid) (request_id : string) (body : Body) : rop bool
| SendBridge (device : Uuid) (env : Envelope.t) : rop bool
| PushTo (conn_id : Uuid) (env : Envelope.t) : rop unit
| InsertReceipt (request_id : string) (owner : Uuid) (session_id : option Uuid) (operation payload_digest : string) : rop (option bool)
| Store {A : Type} (s : RStatement A) : rop (option A)
| CleanReceipts : rop (option unit)
| AwaitResponse (correlation : string) : rop (option pb.QueryResponse.t).

Notation rprog := (prog rop).

(** A critical section without an answer. *)
Definition section (o : HubOp) : rprog unit := act (HubTake o (fun _ _ => tt)).
Definition ask {A : Type} (q : Question A) : rprog A := act (HubAsk q).
Definition fetch {A : Type} (q : Select A) : rprog (option A) := act (Fetch q).
Definition store {A : Type} (s : RStatement A) : rprog (option A) := act (Store s).

(** [record_audit]: a failure is logged and nothing else. *)
Definition audit (e : Z -> AuditEvent.t) : rprog unit := perform store (on_base (insert_audit e)); Ret tt.

Module RelayWorld.
Record t := mk {
  hub : HubInner.t;
  db : RelayDb.t;
  forwarded : list string;
  removed : list string;
}.
Definition with_hub (x : HubInner.t) (w : t) : t := mk x (db w) (forwarded w) (removed w).
Definition with_db (x : RelayDb.t) (w : t) : t := mk (hub w) x (forwarded w) (removed w).
Definition with_forwarded (x : list string) (w : t) : t := mk (hub w) (db w) x (removed w).
Definition with_removed (x : list string) (w : t) : t := mk (hub w) (db w) (forwarded w) x.
End RelayWorld.

Section Steps.
Context `{Prost} `{UuidParse}.

(** The command as it is forwarded: its correlation id is its request id. *)
Definition command_env (device : Uuid) (request_id : string) (body : Body) : Envelope.t :=
  let env := base_envelope device (CommandRequest request_id body) in
  Envelope.mk request_id (Envelope.device_id env) (Envelope.stream_id env) (Envelope.stream_epoch env) (Envelope.sequence env) (Envelope.payload env).

(** The receipts a clean-up deletes. *)
Definition cleaned (db db' : RelayDb.t) : list string :=
  filter (fun id => RelayDb.receipts db' !! id = None) (map fst (map_to_list (RelayDb.receipts db))).

(** A statement of another kind: it answers as it says or fails and changes nothing. *)
Definition statement_step {A : Type} (s : RStatement A) (w : RelayWorld.t) : option (option A) -> RelayWorld.t -> Prop := fun b w' =>
  exists now, b = Some (s now (RelayWorld.db w)).1 /\ w' = RelayWorld.with_db (s now (RelayWorld.db w)).2 w \/ b = Some None /\ w' = w.

Definition rstep (B : Type) (o : rop B) (w : RelayWorld.t) : option B -> RelayWorld.t -> Prop :=
  match o in rop B return option B -> RelayWorld.t -> Prop with
  | Utc | NewRequestId | AwaitResponse _ => fun b w' => b <> None /\ w' = w
  | HubAsk q => fun b w' => exists now, b = Some (answer q now (RelayWorld.hub w)) /\ w' = w
  | Fetch q => fun b w' => (b = Some (Some (select q (RelayWorld.db w))) \/ b = Some None) /\ w' = w
  | HubTake o f => fun b w' => exists now, b = Some (f now (RelayWorld.hub w)) /\ w' = RelayWorld.with_hub (hub_step now o (RelayWorld.hub w)) w
  | ForwardCommand device id body => fun b w' =>
      let '(g, sent) := send_to_bridge_locked (RelayWorld.hub w) device (command_env device id body) in
      b = Some sent /\ w' = RelayWorld.with_hub g (RelayWorld.with_forwarded (RelayWorld.forwarded w ++ if sent then [id] else []) w)
  | SendBridge device env => fun b w' =>
      let '(g, sent) := send_to_bridge_locked (RelayWorld.hub w) device env in b = Some sent /\ w' = RelayWorld.with_hub g w
  | PushTo conn env => fun b w' =>
      b = Some tt /\ w' = RelayWorld.with_hub (HubInner.with_outboxes
        (alter (fun o => (push_direct o (encode_direct env)).1) conn (HubInner.outboxes (RelayWorld.hub w))) (RelayWorld.hub w)) w
  | InsertReceipt id owner session operation digest => statement_step (insert_receipt id owner session operation digest) w
  | Store s => statement_step s w
  | CleanReceipts => fun b w' =>
      exists now, let db' := (delete_old_receipts now (RelayWorld.db w)).2 in
        b = Some (Some tt) /\ w' = RelayWorld.with_removed (RelayWorld.removed w ++ cleaned (RelayWorld.db w) db') (RelayWorld.with_db db' w) \/
        b = Some None /\ w' = w
  end.
End Steps.

(** What one task does and is told, in order. *)
Inductive RObs :=
| Asked {A : Type} (q : Question A) (b : A)
| Fetched {A : Type} (q : Select A) (b : option A)
| Clock (now : Z)
| Inserted (request_id : string) (owner : Uuid) (session_id : option Uuid) (operation payload_digest : string) (b : option bool)
| Section_ (o : HubOp)
| Handed (device : Uuid) (request_id : string) (sent : bool)
| Told (conn_id : Uuid) (env : Envelope.t)
| Queried (device : Uuid) (env : Envelope.t) (sent : bool)
| Wrote.

Definition robs (B : Type) (o : rop B) : B -> list RObs :=
  match o in rop B return B -> list RObs with
  | Utc => fun now => [Clock now]
  | HubAsk q => fun b => [Asked q b]
  | Fetch q => fun b => [Fetched q b]
  | InsertReceipt id owner session operation digest => fun b => [Inserted id owner session operation digest b]
  | HubTake o _ => fun _ => [Section_ o]
  | ForwardCommand device id _ => fun sent => [Handed device id sent]
  | SendBridge device env => fun sent => [Queried device env sent]
  | PushTo conn env => fun _ => [Told conn env]
  | Store _ | CleanReceipts => fun _ => [Wrote]
  | NewRequestId | AwaitResponse _ => fun _ => []
  end.

(** ** The identity of an HTTP request *)

Definition rwith_identity `{AuthCrates} (config : Config.t) (peer : IpAddr) (headers : HeaderMap) {A : Type} (refuse : ApiError.t -> A)
    (handler : Uuid -> rprog A) : rprog A :=
  do now <- act Utc;
  match browser_http_identity config peer headers now with
  | Ok ident => handler (BrowserHttpIdentity.owner_id ident)
  | Err e => Ret (refuse e)
  end.
