(* ===== verification/RelayCommands.v ===== *)
(** * Commands on the Relay ([realtime/mod.rs])

    [on_browser_command] from the browser to the Bridge, what the answers of the Bridge write, and the ends
    of a connection and of the Relay.  The envelope that carries an answer is kept whole for the critical section. *)

From S2P Require Import Prelude Prog Bytes RustStr Proto Messages Buffer Stream Hub HubProps RelayBase Auth Pairing RelayStore RelayOps.

Definition command_rejected (request_id : string) (code : pb.StableErrorCode.t) : CommandResult.t :=
  CommandResult.mk request_id ReceiptRejected (pb.StableErrorCode.as_i32 code) [].

Definition with_reason (reason : string) (r : CommandResult.t) : CommandResult.t :=
  CommandResult.mk (CommandResult.request_id r) (CommandResult.status r) (CommandResult.error_code r) (("reason", reason) :: CommandResult.details r).

(** The queue of the browser is looked up, then pushed to. *)
Definition reply (conn_id : Uuid) (result : CommandResult.t) : rprog unit :=
  do present <- ask (HasOutbox conn_id);
  if present : bool then act (PushTo conn_id (base_envelope "" (CommandResultPayload result))) else Ret tt.

Section Commands.
Context `{StoreCrates} `{AuthCrates} `{Sha256} `{RequestWire} `{UuidParse}.

(** The digest of a command without its request id and the digest the browser claims. *)
Definition canonical_browser_command_digest (request : pb.CommandRequest.t) : string :=
  sha256_hex (String.string_of_list_byte (encode_command
    (pb.CommandRequest.mk "" (pb.CommandRequest.operation request) (pb.CommandRequest.session_key request)
       (pb.CommandRequest.expected_turn_id request) (pb.CommandRequest.expected_runtime_revision request) ""
       (pb.CommandRequest.payload request)))).

(** Where the command goes: the device and session of its key, or the only device of the owner that is online. *)
Definition command_target (owner : Uuid) (request : pb.CommandRequest.t) : rprog (res pb.StableErrorCode.t (Uuid * option Uuid)) :=
  match pb.CommandRequest.session_key request with
  | Some key =>
      match uuid_of (pb.SessionKey.device_id key) with
      | None => Ret (Err pb.StableErrorCode.SessionNotFound)
      | Some device =>
          do owned <- fetch (OwnedDevice device owner);
          if negb (default false owned) then Ret (Err pb.StableErrorCode.SessionNotFound)
          else
            do online <- ask (IsOnline device);
            if negb online then Ret (Err pb.StableErrorCode.DeviceOffline)
            else
              do session <- fetch (FindSession device (agent_kind_name (pb.SessionKey.agent_kind key)) (pb.SessionKey.native_session_id key));
              Ret match session with
                  | Some (Some (id, _)) => Ok (device, Some id)
                  | _ => Err pb.StableErrorCode.SessionNotFound
                  end
      end
  | None =>
      do devices <- ask (OnlineDevices owner);
      Ret match devices with
          | [device] => Ok (device, None)
          | [] => Err pb.StableErrorCode.DeviceOffline
          | _ => Err pb.StableErrorCode.CapabilityUnsupported
          end
  end.

(** The answer to a request id that is known. *)
Definition replay_receipt (conn_id : Uuid) (request_id : string) (owner : Uuid) (session_id : option Uuid) (operation payload_digest : string) : rprog unit :=
  do existing <- fetch (GetReceipt request_id);
  match existing with
  | Some (Some r) =>
      if negb (bool_decide (ReceiptRow.owner_id r = owner)) || negb (bool_decide (ReceiptRow.session_id r = session_id)) ||
         negb (bool_decide (ReceiptRow.operation r = operation)) || negb (bool_decide (ReceiptRow.payload_digest r = payload_digest))
      then reply conn_id (command_rejected request_id pb.StableErrorCode.DuplicateRequestMismatch)
      else
        let stored_error := if bool_decide (ReceiptRow.error_code r = "") then pb.StableErrorCode.Unspecified
                            else stable_code_from_name (ReceiptRow.error_code r) in
        reply conn_id (CommandResult.mk request_id (default 0 (pb.CommandReceiptStatus.as_i32 <$> receipt_status_code (ReceiptRow.status r)))
                         (pb.StableErrorCode.as_i32 stored_error) [])
  | _ => Ret tt
  end.

(** From the registration of a command that has its receipt. *)
Definition forward_command (conn_id device : Uuid) (owner : Uuid) (operation : string) (request : pb.CommandRequest.t) : rprog unit :=
  let request_id := pb.CommandRequest.request_id request in
  perform section (RegisterCommand request_id conn_id device operation);
  do sent <- act (ForwardCommand device request_id (encode_command request));
  if sent : bool then audit (AuditEvent.mk owner (Some device) "command_request" "RECEIVED")
  else
    perform section (TakeCommand request_id);
    perform store (update_receipt request_id "REJECTED" "DEVICE_OFFLINE");
    reply conn_id (command_rejected request_id pb.StableErrorCode.DeviceOffline).

(** A command whose target is known. *)
Definition submit_command (conn_id device : Uuid) (session_id : option Uuid) (owner : Uuid) (request : pb.CommandRequest.t) : rprog unit :=
  let request_id := pb.CommandRequest.request_id request in
  let operation := default "OPERATION_UNSPECIFIED" (operation_name_of (pb.CommandRequest.operation request)) in
  let payload_digest := canonical_browser_command_digest request in
  do inserted <- act (InsertReceipt request_id owner session_id operation payload_digest);
  match inserted with
  | Some false => replay_receipt conn_id request_id owner session_id operation payload_digest
  | None => reply conn_id (command_rejected request_id pb.StableErrorCode.InternalError)
  | Some true => forward_command conn_id device owner operation request
  end.

Definition on_browser_command (conn_id : Uuid) (request : pb.CommandRequest.t) : rprog unit :=
  let request_id := pb.CommandRequest.request_id request in
  do ident <- ask (IdentityOf conn_id);
  match ident with
  | None => Ret tt
  | Some ident =>
      do down <- ask IsShutdown;
      if down : bool then reply conn_id (command_rejected request_id pb.StableErrorCode.InternalError)
      else
        do allowed <- ask WritesAllowed;
        if negb allowed then
          reply conn_id (with_reason "AUTH_BACKEND_UNAVAILABLE" (command_rejected request_id pb.StableErrorCode.InternalError))
        else
          do now <- act Utc;
          if BrowserIdentity.expires_at ident <=? now then section (CloseBrowser conn_id "AUTH_EXPIRED")
          else
            do target <- command_target (BrowserIdentity.owner_id ident) request;
            match target with
            | Err code => reply conn_id (command_rejected request_id code)
            | Ok (device, session_id) => submit_command conn_id device session_id (BrowserIdentity.owner_id ident) request
            end
  end.

(** ** What a Bridge answers *)

Definition on_command_accepted_task (device : Uuid) (env : Envelope.t) (accepted : CommandAccepted.t) : rprog unit :=
  perform section (BridgeEnvelope device env);
  if CommandAccepted.status accepted =? ReceiptAcceptedByBridge
  then perform store (update_receipt (CommandAccepted.request_id accepted) "ACCEPTED_BY_BRIDGE" ""); Ret tt
  else Ret tt.

Definition result_status_name (status : Z) : string :=
  match pb.CommandReceiptStatus.try_from status with
  | Some pb.CommandReceiptStatus.ReceiptCompleted => "COMPLETED"
  | Some pb.CommandReceiptStatus.ReceiptRejected => "REJECTED"
  | Some pb.CommandReceiptStatus.ReceiptOutcomeUnknown => "OUTCOME_UNKNOWN"
  | Some pb.CommandReceiptStatus.ReceiptDispatchedToCodex => "DISPATCHED_TO_CODEX"
  | Some pb.CommandReceiptStatus.ReceiptAcceptedByBridge => "ACCEPTED_BY_BRIDGE"
  | _ => "RECEIVED"
  end.

Definition result_error_name (error_code : Z) : string :=
  if error_code =? pb.StableErrorCode.as_i32 pb.StableErrorCode.Unspecified then "" else stable_code_name error_code.

Definition on_command_result_task (device : Uuid) (env : Envelope.t) (result : CommandResult.t) : rprog unit :=
  let request_id := CommandResult.request_id result in
  do pending <- act (HubTake (BridgeEnvelope device env) (fun _ g => HubInner.commands g !! request_id));
  let status_name := result_status_name (CommandResult.status result) in
  let error := result_error_name (CommandResult.error_code result) in
  perform store (update_receipt request_id status_name error);
  match pending with
  | None => Ret tt
  | Some p =>
      do ident <- ask (IdentityOf (PendingCommand.conn_id p));
      match ident with
      | None => Ret tt
      | Some i =>
          audit (AuditEvent.mk (BrowserIdentity.owner_id i) (Some device) "command_result"
                   (if bool_decide (error = "") then status_name else status_name +:+ ":" +:+ error))
      end
  end.

(** The parts of [handle_bridge_envelope] that touch the database; [notify] of [push] is not part of it. *)
Definition handle_bridge_envelope_task (ids : list Uuid) (device : Uuid) (env : Envelope.t) (batch : pb.SessionSummaryBatch.t) : rprog unit :=
  match Envelope.payload env with
  | Some (SessionSummaryBatch _ _) => perform store (run_statements (batch_statements ids device batch)); section (BridgeEnvelope device env)
  | Some (CommandAcceptedPayload accepted) => on_command_accepted_task device env accepted
  | Some (CommandResultPayload result) => on_command_result_task device env result
  | _ => section (BridgeEnvelope device env)
  end.

(** ** The start and the end of a Bridge's connection, and of the Relay *)

Fixpoint outcome_unknown_rows (pendings : list (string * string)) : rprog unit :=
  match pendings with
  | [] => Ret tt
  | (request_id, _) :: pendings => perform store (update_receipt request_id "OUTCOME_UNKNOWN" "OUTCOME_UNKNOWN"); outcome_unknown_rows pendings
  end.

Definition bridge_connected (device owner : Uuid) (sink : Sink.t) : rprog unit :=
  perform section (ForceCloseBridge device);
  perform section (RegisterBridge device owner sink);
  perform section (EnsureBindings device owner);
  perform store (on_base (touch_device device));
  perform store (set_device_connection device "CONNECTION_ONLINE");
  section (Presence device owner true).

Definition bridge_disconnected (device owner : Uuid) : rprog unit :=
  do pendings <- act (HubTake (RemoveBridge device) (fun _ g => (remove_bridge device g).2));
  perform store (on_base (touch_device device));
  perform store (set_device_connection device "CONNECTION_OFFLINE");
  perform section (Presence device owner false);
  outcome_unknown_rows pendings.

Definition shutdown : rprog unit :=
  do pendings <- act (HubTake BeginShutdown (fun _ g => (begin_shutdown g).2));
  perform outcome_unknown_rows pendings;
  section (CloseAllBrowsers "INTERNAL_ERROR").

(** [cleanup_expired] with the receipts. *)
Definition maintenance : rprog unit :=
  perform store (on_base delete_old_audit);
  perform act CleanReceipts;
  perform store (on_base delete_old_challenges);
  Ret tt.
End Commands.
