(* ===== verification/RelayCommandProps.v ===== *)
(** * What holds of commands on the Relay *)

From S2P Require Import Prelude Prog Bytes RustStr Proto Messages Buffer Stream Hub HubProps RelayBase Auth Pairing RelayStore RelayOps RelayCommands.

(** ** A command is forwarded once *)

Definition count (r : string) (l : list string) : Z := sum_by (fun x => if bool_decide (x = r) then 1 else 0) l.

Lemma count_app (r : string) (l k : list string) : count r (l ++ k) = count r l + count r k.
Proof. apply sum_by_app. Qed.

Lemma count_nonneg (r : string) (l : list string) : 0 <= count r l.
Proof. apply sum_by_nonneg, Forall_forall. intros x _. case_bool_decide; lia. Qed.

Lemma count_elem (r : string) (l : list string) : r ∈ l -> 1 <= count r l.
Proof.
  induction l as [|x l IH]; [by intros ?%not_elem_of_nil|]. intros [<-|E]%elem_of_cons; unfold count; rewrite sum_by_cons; fold (count r l).
  - rewrite bool_decide_eq_true_2 by done. pose proof (count_nonneg r l). unfold count in *. lia.
  - apply IH in E. unfold count in *. case_bool_decide; lia.
Qed.

(** A statement that neither adds nor deletes receipts. *)
Definition keeps_receipts {A : Type} (s : RStatement A) : Prop :=
  forall now db, dom (RelayDb.receipts (s now db).2) = dom (RelayDb.receipts db).

Section Once.
Context `{Prost} `{UuidParse} `{StoreCrates} `{AuthCrates} `{Sha256} `{RequestWire}.

Definition receipts_allowed (B : Type) (o : rop B) : Prop :=
  match o with Store s => keeps_receipts s | _ => True end.

Definition forward_cost (r : string) (B : Type) (o : rop B) : Z :=
  match o with ForwardCommand _ id _ => if bool_decide (id = r) then 1 else 0 | _ => 0 end.

Definition insert_gain (r : string) (B : Type) (o : rop B) : B -> Z :=
  match o in rop B return B -> Z with
  | InsertReceipt id _ _ _ _ => fun b => match b with Some true => if bool_decide (id = r) then 1 else 0 | _ => 0 end
  | _ => fun _ => 0
  end.

(** The rights to forward [r] that the world gives: its receipt and its receipts that were cleaned up, less the commands forwarded. *)
Definition rights (r : string) (w : RelayWorld.t) : Z :=
  count r (RelayWorld.removed w) + (if bool_decide (r ∈ dom (RelayDb.receipts (RelayWorld.db w))) then 1 else 0) - count r (RelayWorld.forwarded w).

(** Anything else that happens: to the hub, the other tables, and the contents of receipts. *)
Definition relay_env (w w' : RelayWorld.t) : Prop :=
  dom (RelayDb.receipts (RelayWorld.db w')) = dom (RelayDb.receipts (RelayWorld.db w)) /\
  RelayWorld.forwarded w' = RelayWorld.forwarded w /\ RelayWorld.removed w' = RelayWorld.removed w.

(** The tasks of the Relay that touch receipts or commands. *)
Inductive relay_task : rprog unit -> Prop :=
| CommandTask conn request : relay_task (on_browser_command conn request)
| BridgeTask ids device env batch : relay_task (handle_bridge_envelope_task ids device env batch)
| ConnectedTask device owner sink : relay_task (bridge_connected device owner sink)
| DisconnectedTask device owner : relay_task (bridge_disconnected device owner)
| ShutdownTask : relay_task shutdown
| MaintenanceTask : relay_task maintenance.

Lemma rights_kept (r : string) (w w' : RelayWorld.t) (g c : Z) :
  dom (RelayDb.receipts (RelayWorld.db w')) = dom (RelayDb.receipts (RelayWorld.db w)) ->
  RelayWorld.forwarded w' = RelayWorld.forwarded w -> RelayWorld.removed w' = RelayWorld.removed w -> g <= c ->
  rights r w + g <= rights r w' + c.
Proof. unfold rights. intros -> -> ->. lia. Qed.

Lemma cleaned_count (r : string) (db db' : RelayDb.t) :
  r ∈ dom (RelayDb.receipts db) -> r ∉ dom (RelayDb.receipts db') -> 1 <= count r (cleaned db db').
Proof.
  intros I N. apply count_elem, list_elem_of_filter. split; [by apply not_elem_of_dom|]. apply elem_of_dom in I as [x E].
  apply list_elem_of_fmap. exists (r, x). split; [done|]. by apply elem_of_map_to_list.
Qed.

Lemma cleanup_rights (r : string) (now : Z) (w : RelayWorld.t) :
  let db' := (delete_old_receipts now (RelayWorld.db w)).2 in
  rights r w <= rights r (RelayWorld.with_removed (RelayWorld.removed w ++ cleaned (RelayWorld.db w) db') (RelayWorld.with_db db' w)).
Proof.
  intros db'. unfold rights. cbn [RelayWorld.removed RelayWorld.db RelayWorld.forwarded RelayWorld.with_removed RelayWorld.with_db].
  rewrite count_app. pose proof (count_nonneg r (cleaned (RelayWorld.db w) db')).
  destruct (bool_decide_reflect (r ∈ dom (RelayDb.receipts (RelayWorld.db w)))) as [I|_]; [|case_bool_decide; lia].
  destruct (bool_decide_reflect (r ∈ dom (RelayDb.receipts db'))) as [_|N]; [lia|]. pose proof (cleaned_count r _ _ I N). lia.
Qed.

Lemma insert_rights (r id : string) (owner : Uuid) (session : option Uuid) (operation digest : string) (w w' : RelayWorld.t) (b : option bool) :
  statement_step (insert_receipt id owner session operation digest) w (Some b) w' ->
  rights r w + insert_gain r _ (InsertReceipt id owner session operation digest) b <= rights r w' + 0.
Proof.
  intros (now & [[E ->]|[E ->]]); [|injection E as ->; simpl; lia]. injection E as ->. unfold insert_receipt.
  destruct (RelayDb.receipts (RelayWorld.db w) !! id) as [x|] eqn:X; [by apply rights_kept|].
  destruct (match session with None => true | _ => _ end); [|by apply rights_kept].
  cbn [fst snd insert_gain]. unfold rights. simpl. rewrite dom_insert_L. apply not_elem_of_dom in X.
  repeat case_bool_decide; subst; try lia; set_solver.
Qed.

Lemma rights_step (r : string) (B : Type) (o : rop B) (w : RelayWorld.t) (b : B) (w' : RelayWorld.t) :
  receipts_allowed B o -> rstep B o w (Some b) w' -> rights r w + insert_gain r B o b <= rights r w' + forward_cost r B o.
Proof.
  destruct o; cbn [rstep receipts_allowed insert_gain forward_cost]; intros Al X.
  - destruct X as [_ ->]. lia.
  - destruct X as [_ ->]. lia.
  - destruct X as (now & _ & ->). lia.
  - destruct X as [_ ->]. lia.
  - destruct X as (now & _ & ->). by apply rights_kept.
  - destruct (send_to_bridge_locked _ _ _) as [g sent]. destruct X as [_ ->]. 
    assert (count r (if sent then [request_id] else []) <= if bool_decide (request_id = r) then 1 else 0).
    { destruct sent; unfold count, sum_by; simpl; case_bool_decide; lia. }
    unfold rights. cbn [RelayWorld.removed RelayWorld.db RelayWorld.forwarded RelayWorld.with_hub RelayWorld.with_forwarded]. rewrite count_app. lia.
  - destruct (send_to_bridge_locked _ _ _) as [g sent]. destruct X as [_ ->]. by apply rights_kept.
  - destruct X as [_ ->]. by apply rights_kept.
  - pose proof (insert_rights r _ _ _ _ _ _ _ _ X). simpl in *. lia.
  - destruct X as (now & [[_ ->]|[_ ->]]); [|lia]. apply rights_kept; [by apply Al|done..].
  - destruct X as (now & [[_ ->]|[_ ->]]); [|lia]. pose proof (cleanup_rights r now w). simpl in *. lia.
  - destruct X as [_ ->]. lia.
Qed.

Lemma rstep_no_panic (B : Type) (o : rop B) (w w' : RelayWorld.t) : ~ rstep B o w None w'.
Proof.
  destruct o; cbn [rstep]; try (by intros [? _]); try (by intros [[?|?] _]); try (by intros (? & ? & _)); try (by intros (? & [[? _]|[? _]])).
  all: destruct (send_to_bridge_locked _ _ _); by intros [? _].
Qed.
(** Statements on the receipts of a known id, and on other tables. *)
Lemma keeps_update (id status error : string) : keeps_receipts (update_receipt id status error).
Proof. intros now db. simpl. apply dom_alter_L. Qed.

Lemma keeps_base {A : Type} (s : Statement A) : keeps_receipts (on_base s).
Proof. intros now db. unfold on_base. by destruct (s now (RelayDb.base db)). Qed.

Lemma keeps_upsert (id : Uuid) (row : Z -> SessionRow.t) : keeps_receipts (upsert_summary id row).
Proof. intros now db. unfold upsert_summary. by repeat case_match. Qed.

Lemma keeps_statements (l : list (RStatement unit)) : Forall keeps_receipts l -> keeps_receipts (run_statements l).
Proof.
  intros F now db. revert db. induction F as [|s l K _ IH]; intros db; [done|]. simpl. specialize (K now db). destruct (s now db) as [[u|] db']; simpl in *; [by rewrite IH|done].
Qed.

Lemma keeps_batch (ids : list Uuid) (device : Uuid) (batch : pb.SessionSummaryBatch.t) : keeps_receipts (run_statements (batch_statements ids device batch)).
Proof.
  apply keeps_statements, Forall_forall. intros s ([id x] & _ & E)%list_elem_of_omap.
  destruct (pb.SessionSummary.session_key x); [|done]. injection E as <-. apply keeps_upsert.
Qed.

Lemma keeps_connection (device : Uuid) (connection : string) : keeps_receipts (set_device_connection device connection).
Proof. done. Qed.

Hint Resolve keeps_update keeps_base keeps_batch keeps_connection : keeps.

(** Tasks that neither insert receipts nor forward commands. *)
Notation quiet r := (prog_all (free receipts_allowed (forward_cost r) (insert_gain r))).

Ltac quiet_tac := prog_all_tac; try (unfold free; cbn [receipts_allowed]; split_and!; [by auto with keeps|done|done]).

Lemma quiet_section (r : string) (o : HubOp) : quiet r (section o).
Proof. done. Qed.

Lemma quiet_audit (r : string) (e : Z -> AuditEvent.t) : quiet r (audit e).
Proof. unfold audit, store. quiet_tac. Qed.

Lemma quiet_reply (r : string) (conn : Uuid) (result : CommandResult.t) : quiet r (reply conn result).
Proof. unfold reply, ask. quiet_tac. Qed.

Lemma quiet_rows (r : string) (pendings : list (string * string)) : quiet r (outcome_unknown_rows pendings).
Proof. induction pendings as [|[id x] pendings IH]; cbn [outcome_unknown_rows]; [done|]. unfold store. quiet_tac; apply IH. Qed.

Hint Resolve quiet_section quiet_audit quiet_reply quiet_rows : prog_all.

Lemma quiet_target (r : string) (owner : Uuid) (request : pb.CommandRequest.t) : quiet r (command_target owner request).
Proof. unfold command_target, ask, fetch. quiet_tac. Qed.

Lemma quiet_replay (r : string) (conn : Uuid) (id : string) (owner : Uuid) (session : option Uuid) (operation digest : string) :
  quiet r (replay_receipt conn id owner session operation digest).
Proof. unfold replay_receipt, fetch. quiet_tac; auto with prog_all. Qed.

Lemma quiet_bridge (r : string) (ids : list Uuid) (device : Uuid) (env : Envelope.t) (batch : pb.SessionSummaryBatch.t) :
  quiet r (handle_bridge_envelope_task ids device env batch).
Proof. unfold handle_bridge_envelope_task, on_command_accepted_task, on_command_result_task, store, ask. quiet_tac; auto with prog_all. Qed.

Lemma forward_budget (r : string) (conn device owner : Uuid) (operation : string) (request : pb.CommandRequest.t) :
  budget receipts_allowed (forward_cost r) (insert_gain r) (if bool_decide (pb.CommandRequest.request_id request = r) then 1 else 0)
    (forward_command conn device owner operation request) (fun _ m => 0 <= m).
Proof.
  unfold forward_command. apply budget_bind. eapply budget_mono; [|apply budget_free; [case_bool_decide; lia|done]]. intros [] m ->.
  apply budget_act; [done|simpl; lia|]. intros sent. cbn [forward_cost insert_gain]. apply budget_quiet; [case_bool_decide; lia|]. destruct sent; unfold store; quiet_tac; auto with prog_all.
Qed.

Lemma submit_budget (r : string) (conn device : Uuid) (session : option Uuid) (owner : Uuid) (request : pb.CommandRequest.t) :
  budget receipts_allowed (forward_cost r) (insert_gain r) 0 (submit_command conn device session owner request) (fun _ m => 0 <= m).
Proof.
  unfold submit_command. apply budget_act; [done..|]. intros [[|]|]; cbn [forward_cost insert_gain].
  - apply forward_budget.
  - apply budget_quiet; [done|apply quiet_replay].
  - apply budget_quiet; [done|apply quiet_reply].
Qed.

Lemma command_budget (r : string) (conn : Uuid) (request : pb.CommandRequest.t) :
  budget receipts_allowed (forward_cost r) (insert_gain r) 0 (on_browser_command conn request) (fun _ m => 0 <= m).
Proof.
  unfold on_browser_command, ask. apply budget_act; [done..|]. intros [ident|]; [|simpl; lia]. apply budget_act; [done..|]. intros [].
  { apply budget_quiet; [done|apply quiet_reply]. } apply budget_act; [done..|]. intros []; simpl negb; cbv iota; [|apply budget_quiet; [done|apply quiet_reply]].
  apply budget_act; [done..|]. intros now. destruct (_ <=? _); [by apply budget_quiet|]. apply budget_bind.
  eapply budget_mono; [|apply budget_free; [done|apply quiet_target]]. intros [[device session]|code] m ->; [apply submit_budget|].
  apply budget_quiet; [done|apply quiet_reply].
Qed.

Lemma task_quiet (r : string) (p : rprog unit) : relay_task p -> budget receipts_allowed (forward_cost r) (insert_gain r) 0 p (fun _ m => 0 <= m).
Proof.
  intros []; [apply command_budget|..]; (apply budget_quiet; [done|]).
  - apply quiet_bridge.
  - unfold bridge_connected, store. quiet_tac; auto with prog_all.
  - unfold bridge_disconnected, store. quiet_tac; auto with prog_all.
  - unfold shutdown. quiet_tac; auto with prog_all.
  - unfold maintenance, store. quiet_tac; auto with prog_all.
Qed.

(** C1. A command reaches a Bridge at most once.  Let any number of the handlers of the Relay run, started at any time and interleaved
    operation by operation, with anything else happening to the hub, the other tables and the contents of receipts: a
    request id is handed to a Bridge at most once more than its receipt was deleted by the clean-up (which takes receipts older than
    thirty days), whatever browsers send and send again. *)
Theorem forwarded_once (w : RelayWorld.t) (tasks : list (rprog unit)) (w' : RelayWorld.t) (request_id : string) :
  RelayWorld.forwarded w = [] -> rtc (pool_step relay_env rstep relay_task) ([], w) (tasks, w') ->
  count request_id (RelayWorld.forwarded w') <= count request_id (RelayWorld.removed w') + 1.
Proof.
  intros F R. assert (0 <= rights request_id w') as P; [|unfold rights in P; case_bool_decide; lia].
  refine (pool_within relay_env rstep relay_task receipts_allowed (forward_cost request_id) (insert_gain request_id) (rights request_id) _ _ _ _ ([], w) (tasks, w') _ R _).
  - intros s s' (D & E1 & E2). by pose proof (rights_kept request_id s s' 0 0 D E1 E2 ltac:(lia)) as K; rewrite !Z.add_0_r in K.
  - intros B o s b s'. apply rights_step.
  - intros B o s s' _ X. by apply rstep_no_panic in X.
  - apply task_quiet.
  - intros B o b. destruct o; simpl; try lia. destruct b as [[|]|]; try case_bool_decide; lia.
  - exists []. split; [constructor|]. unfold sum_by. simpl. unfold rights. rewrite F. pose proof (count_nonneg request_id (RelayWorld.removed w)).
    change (count request_id []) with 0. case_bool_decide; lia.
Qed.
End Once.

(** ** What a command task does before it hands a command over, and how it answers *)

(** The answer of the first operation of a run that ends. *)
Ltac first_op X b :=
  apply texec_bind in X as [[_ ?]|(? & b & ? & ? & ?First & X & ->)]; [done|];
  match goal with F : texec _ _ _ (act _) _ _ _ _ |- _ => apply texec_act in F as (? & ? & F & ->) end;
  cbn [robs app].

Ltac inert := cbn [app]; repeat first [apply Forall_nil_2 | apply Forall_cons_2; [by intros []|]].

Section Traces.
Context `{Prost} `{UuidParse} `{StoreCrates} `{AuthCrates} `{Sha256} `{RequestWire}.
Variable env : RelayWorld.t -> RelayWorld.t -> Prop.

Notation run := (texec env rstep robs).

(** The operation and the digest a receipt is kept with. *)
Definition receipt_operation (request : pb.CommandRequest.t) : string :=
  default "OPERATION_UNSPECIFIED" (operation_name_of (pb.CommandRequest.operation request)).

(** The checks that lead to a device and a session. *)
Inductive targeted (owner : Uuid) (request : pb.CommandRequest.t) : Uuid -> option Uuid -> list RObs -> Prop :=
| named_session (key : pb.SessionKey.t) (device id : Uuid) (row : SessionRow.t) :
    pb.CommandRequest.session_key request = Some key -> uuid_of (pb.SessionKey.device_id key) = Some device ->
    targeted owner request device (Some id)
      [Fetched (OwnedDevice device owner) (Some true); Asked (IsOnline device) true;
       Fetched (FindSession device (agent_kind_name (pb.SessionKey.agent_kind key)) (pb.SessionKey.native_session_id key)) (Some (Some (id, row)))]
| only_device (device : Uuid) :
    pb.CommandRequest.session_key request = None -> targeted owner request device None [Asked (OnlineDevices owner) [device]].

(** What says something to the outside or writes. *)
Definition outward (o : RObs) : Prop :=
  match o with
  | Handed _ _ _ | Told _ _ | Inserted _ _ _ _ _ _ | Section_ _ | Wrote | Queried _ _ _ => True
  | _ => False
  end.

(** An answer about [request_id] to [conn], if it still has a queue. *)
Inductive replied (conn : Uuid) (request_id : string) : list RObs -> Prop :=
| reply_told (r : CommandResult.t) : CommandResult.request_id r = request_id ->
    replied conn request_id [Asked (HasOutbox conn) true; Told conn (base_envelope "" (CommandResultPayload r))]
| reply_gone : replied conn request_id [Asked (HasOutbox conn) false].

Lemma reply_trace (conn : Uuid) (r : CommandResult.t) (w w' : RelayWorld.t) (t : list RObs) :
  run (reply conn r) w t (Some tt) w' -> replied conn (CommandResult.request_id r) t.
Proof.
  unfold reply, ask. intros X. first_op X present. destruct present; texec_inv; cbn [robs app]; by constructor.
Qed.

Lemma target_trace (owner : Uuid) (request : pb.CommandRequest.t) (w w' : RelayWorld.t) (t : list RObs) (r : res pb.StableErrorCode.t (Uuid * option Uuid)) :
  run (command_target owner request) w t (Some r) w' ->
  Forall (fun o => ~ outward o) t /\ forall device session, r = Ok (device, session) -> targeted owner request device session t.
Proof.
  unfold command_target, ask, fetch. intros X. destruct (pb.CommandRequest.session_key request) as [key|] eqn:K.
  - destruct (uuid_of _) as [device|] eqn:D; [|texec_inv; by split; [constructor|]].
    first_op X owned. destruct owned as [[|]|]; cbn [default from_option negb id] in X; [|texec_inv; split; [inert|done]..].
    first_op X online. destruct online; cbn [negb] in X; [|texec_inv; split; [inert|done]].
    first_op X session. texec_inv. split; [inert|].
    intros d s E. destruct session as [[[id row]|]|]; try done. injection E as <- <-. by eapply named_session.
  - first_op X devices. texec_inv. split; [inert|].
    intros d s E. destruct devices as [|d0 [|]]; try done. injection E as <- <-. by apply only_device.
Qed.

Lemma replay_trace (conn : Uuid) (id : string) (owner : Uuid) (session : option Uuid) (operation digest : string) (w w' : RelayWorld.t) (t : list RObs) :
  run (replay_receipt conn id owner session operation digest) w t (Some tt) w' ->
  (exists b, t = [Fetched (GetReceipt id) b] /\ (b = None \/ b = Some None)) \/
  (exists r t', t = Fetched (GetReceipt id) (Some (Some r)) :: t' /\ replied conn id t').
Proof.
  unfold replay_receipt, fetch. intros X. first_op X existing. destruct existing as [[r|]|]; [|texec_inv; left; eexists; split; [done|auto]..].
  right. destruct (_ || _) in X; apply reply_trace in X; cbn [command_rejected CommandResult.request_id] in X; by eauto.
Qed.

(** What follows the registration of a command. *)
Lemma forward_trace (conn device owner : Uuid) (operation : string) (request : pb.CommandRequest.t) (w w' : RelayWorld.t) (t : list RObs) :
  run (forward_command conn device owner operation request) w t (Some tt) w' ->
  exists sent t', t = [Section_ (RegisterCommand (pb.CommandRequest.request_id request) conn device operation); Handed device (pb.CommandRequest.request_id request) sent] ++ t' /\
    if sent : bool then t' = [Wrote]
    else exists t'', t' = [Section_ (TakeCommand (pb.CommandRequest.request_id request)); Wrote] ++ t'' /\ replied conn (pb.CommandRequest.request_id request) t''.
Proof.
  unfold forward_command, audit, section, store. intros X. first_op X r. first_op X sent. exists sent. eexists. split; [done|]. destruct sent.
  - first_op X wrote. by texec_inv.
  - first_op X taken. first_op X wrote. apply reply_trace in X. by eauto.
Qed.

(** The checks on the connection, in their order. *)
Definition admitted (conn : Uuid) (ident : BrowserIdentity.t) (now : Z) : list RObs :=
  [Asked (IdentityOf conn) (Some ident); Asked IsShutdown false; Asked WritesAllowed true; Clock now].

(** The runs of [on_browser_command], by how they end. *)
Inductive command_run (conn : Uuid) (request : pb.CommandRequest.t) : list RObs -> Prop :=
| run_unknown : command_run conn request [Asked (IdentityOf conn) None]
| run_refused (before t : list RObs) :
    Forall (fun o => ~ outward o) before -> replied conn (pb.CommandRequest.request_id request) t -> command_run conn request (before ++ t)
| run_expired (before : list RObs) :
    Forall (fun o => ~ outward o) before -> command_run conn request (before ++ [Section_ (CloseBrowser conn "AUTH_EXPIRED")])
| run_submitted (ident : BrowserIdentity.t) (now : Z) (device : Uuid) (session : option Uuid) (target t : list RObs) (inserted : option bool) :
    now < BrowserIdentity.expires_at ident -> targeted (BrowserIdentity.owner_id ident) request device session target ->
    match inserted with
    | Some true => exists sent t',
        t = [Section_ (RegisterCommand (pb.CommandRequest.request_id request) conn device (receipt_operation request));
             Handed device (pb.CommandRequest.request_id request) sent] ++ t' /\
        if sent : bool then t' = [Wrote]
        else exists t'', t' = [Section_ (TakeCommand (pb.CommandRequest.request_id request)); Wrote] ++ t'' /\ replied conn (pb.CommandRequest.request_id request) t''
    | Some false =>
        (exists b, t = [Fetched (GetReceipt (pb.CommandRequest.request_id request)) b] /\ (b = None \/ b = Some None)) \/
        (exists r t', t = Fetched (GetReceipt (pb.CommandRequest.request_id request)) (Some (Some r)) :: t' /\
           replied conn (pb.CommandRequest.request_id request) t')
    | None => replied conn (pb.CommandRequest.request_id request) t
    end ->
    command_run conn request (admitted conn ident now ++ target ++
      Inserted (pb.CommandRequest.request_id request) (BrowserIdentity.owner_id ident) session (receipt_operation request)
        (canonical_browser_command_digest request) inserted :: t).

Lemma command_traces (conn : Uuid) (request : pb.CommandRequest.t) (w w' : RelayWorld.t) (t : list RObs) :
  run (on_browser_command conn request) w t (Some tt) w' -> command_run conn request t.
Proof.
  unfold on_browser_command, ask. intros X. first_op X ident. destruct ident as [ident|]; [|texec_inv; apply run_unknown].
  first_op X down. destruct down.
  { apply reply_trace in X. apply (run_refused _ _ [_; _]); [inert|done]. }
  first_op X allowed. destruct allowed; cbn [negb] in X.
  2:{ apply reply_trace in X. apply (run_refused _ _ [_; _; _]); [inert|done]. }
  first_op X now. destruct (Z.leb_spec (BrowserIdentity.expires_at ident) now) as [L|L].
  { unfold section in X. texec_inv. apply (run_expired _ _ [_; _; _; _]). inert. }
  apply texec_bind in X as [[_ ?]|(t1 & target & w1 & t2 & T & X & ->)]; [done|]. apply target_trace in T as [O T].
  destruct target as [[device session]|code].
  2:{ apply reply_trace in X. rewrite !app_comm_cons. apply run_refused; [|done]. inert. done. }
  unfold submit_command in X. first_op X inserted. apply (run_submitted _ _ ident _ device session); [done|by apply T|].
  destruct inserted as [[|]|]; [by eapply forward_trace|by eapply replay_trace|by apply reply_trace in X].
Qed.

Definition not_handed (o : RObs) : Prop := match o with Handed _ _ _ => False | _ => True end.
Definition not_told (o : RObs) : Prop := match o with Told _ _ => False | _ => True end.

Lemma inward_not (o : RObs) : ~ outward o -> not_handed o /\ not_told o.
Proof. destruct o; simpl; tauto. Qed.

Lemma inward_all (t : list RObs) : Forall (fun o => ~ outward o) t -> Forall not_handed t /\ Forall not_told t.
Proof. intros F. split; (eapply Forall_impl; [exact F|]); intros o I; by apply inward_not. Qed.

Lemma targeted_inward (owner : Uuid) (request : pb.CommandRequest.t) (device : Uuid) (session : option Uuid) (t : list RObs) :
  targeted owner request device session t -> Forall (fun o => ~ outward o) t.
Proof. intros []; inert. Qed.

Lemma admitted_inward (conn : Uuid) (ident : BrowserIdentity.t) (now : Z) : Forall (fun o => ~ outward o) (admitted conn ident now).
Proof. unfold admitted. inert. Qed.

Lemma replied_not_handed (conn : Uuid) (id : string) (t : list RObs) : replied conn id t -> Forall not_handed t.
Proof. intros []; repeat constructor. Qed.

Lemma not_handed_elem (device : Uuid) (id : string) (sent : bool) (t : list RObs) : Forall not_handed t -> Handed device id sent ∉ t.
Proof. rewrite Forall_forall. intros F I. apply (F _ I). Qed.

(** C2. No command reaches a Bridge unchecked.  When the task of a browser's command, run among any other tasks, hands
    a command to a device, then in this order: the connection has an identity, the Relay is not shutting down, the authentication
    backend permits writes, the identity is not expired; the device of the session key belongs to the
    identity's user, is online, and has the session (or, without a key, it is the only device of the user that is online);
    the receipt of the request was inserted, so no other task has it; the command was registered.
    It is handed over once, to that device, under the request id of the browser. *)
Theorem command_guarded (conn : Uuid) (request : pb.CommandRequest.t) (w w' : RelayWorld.t) (t : list RObs) (device : Uuid) (id : string) (sent : bool) :
  run (on_browser_command conn request) w t (Some tt) w' -> Handed device id sent ∈ t ->
  exists ident now session target rest,
    id = pb.CommandRequest.request_id request /\ now < BrowserIdentity.expires_at ident /\
    targeted (BrowserIdentity.owner_id ident) request device session target /\
    t = admitted conn ident now ++ target ++
        [Inserted id (BrowserIdentity.owner_id ident) session (receipt_operation request) (canonical_browser_command_digest request) (Some true);
         Section_ (RegisterCommand id conn device (receipt_operation request)); Handed device id sent] ++ rest /\
    Forall not_handed rest.
Proof.
  intros R%command_traces I. destruct R as [|before t B Rp|before B|ident now dev session target t inserted L T Out].
  - by apply list_elem_of_singleton in I.
  - apply elem_of_app in I as [I|I]; [by apply inward_all in B as [B _]; apply (not_handed_elem _ _ _ _ B) in I|].
    by apply (not_handed_elem _ _ _ _ (replied_not_handed _ _ _ Rp)) in I.
  - apply elem_of_app in I as [I|I]; [by apply inward_all in B as [B _]; apply (not_handed_elem _ _ _ _ B) in I|]. by apply list_elem_of_singleton in I.
  - assert (Handed device id sent ∈ t) as I'.
    { apply elem_of_app in I as [I|I]; [by apply (not_handed_elem _ _ _ _ (proj1 (inward_all _ (admitted_inward _ _ _)))) in I|].
      apply elem_of_app in I as [I|I]; [by apply (not_handed_elem _ _ _ _ (proj1 (inward_all _ (targeted_inward _ _ _ _ _ T)))) in I|].
      apply elem_of_cons in I as [I|I]; done. }
    destruct inserted as [[|]|].
    + destruct Out as (sent' & rest & -> & Rest). assert (Forall not_handed rest) as N.
      { destruct sent'; [subst; repeat constructor|]. destruct Rest as (t'' & -> & Rp). repeat constructor. by eapply replied_not_handed. }
      cbn [app] in I'. apply elem_of_cons in I' as [?|I']; [done|]. apply elem_of_cons in I' as [E|I']; [|by apply (not_handed_elem _ _ _ _ N) in I'].
      injection E as -> -> ->. exists ident, now, session, target, rest. by split_and!.
    + exfalso. destruct Out as [(b & -> & _)|(r & t' & -> & Rp)]; [by apply list_elem_of_singleton in I'|].
      apply elem_of_cons in I' as [?|I']; [done|]. by apply (not_handed_elem _ _ _ _ (replied_not_handed _ _ _ Rp)) in I'.
    + exfalso. by apply (not_handed_elem _ _ _ _ (replied_not_handed _ _ _ Out)) in I'.
Qed.

Definition answer_of (o : RObs) : option (Uuid * Envelope.t) := match o with Told conn e => Some (conn, e) | _ => None end.
Definition answers (t : list RObs) : list (Uuid * Envelope.t) := omap answer_of t.

Lemma inward_answers (t : list RObs) : Forall (fun o => ~ outward o) t -> answers t = [].
Proof. unfold answers. induction 1 as [|o t O _ IH]; [done|]. destruct o; [exact IH..|by destruct O|by destruct O|by destruct O|by destruct O|by destruct O|by destruct O]. Qed.

Lemma told_app (t u : list RObs) : answers (t ++ u) = answers t ++ answers u.
Proof. apply omap_app. Qed.

(** Why a task says nothing. *)
Inductive unanswered (conn : Uuid) (request_id : string) : list RObs -> Prop :=
| no_identity : unanswered conn request_id [Asked (IdentityOf conn) None]
| login_expired (before : list RObs) : unanswered conn request_id (before ++ [Section_ (CloseBrowser conn "AUTH_EXPIRED")])
| connection_gone (before : list RObs) : unanswered conn request_id (before ++ [Asked (HasOutbox conn) false])
| receipt_unreadable (before : list RObs) (b : option (option ReceiptRow.t)) : b = None \/ b = Some None ->
    unanswered conn request_id (before ++ [Fetched (GetReceipt request_id) b])
| handed_over (before : list RObs) (device : Uuid) : unanswered conn request_id (before ++ [Handed device request_id true; Wrote]).

Definition answered (conn : Uuid) (request_id : string) (t : list RObs) : Prop :=
  answers t = [] /\ unanswered conn request_id t \/
  exists before r, CommandResult.request_id r = request_id /\ answers before = [] /\ (forall device, Handed device request_id true ∉ before) /\
    t = before ++ [Told conn (base_envelope "" (CommandResultPayload r))].

Lemma answered_after (conn : Uuid) (request_id : string) (before t : list RObs) :
  answers before = [] -> (forall device, Handed device request_id true ∉ before) -> answered conn request_id t ->
  t <> [Asked (IdentityOf conn) None] -> answered conn request_id (before ++ t).
Proof.
  intros B N [[E U]|(b & r & E & Eb & Nb & ->)] Ne.
  - left. rewrite told_app, B. split; [done|]. destruct U; rewrite ?app_assoc; [done|by constructor..].
  - right. exists (before ++ b), r. rewrite told_app, B, app_assoc. split_and!; try done. intros d I. apply elem_of_app in I as [I|I]; [by apply N in I|by apply Nb in I].
Qed.

Lemma replied_answered (conn : Uuid) (request_id : string) (t : list RObs) : replied conn request_id t -> answered conn request_id t /\ t <> [Asked (IdentityOf conn) None].
Proof.
  intros [r E|].
  - split; [|done]. right. exists [Asked (HasOutbox conn) true], r. split_and!; try done. intros d I. by apply list_elem_of_singleton in I.
  - split; [|discriminate]. left. split; [done|]. apply (connection_gone _ _ []).
Qed.

Lemma inward_before (request_id : string) (t : list RObs) : Forall (fun o => ~ outward o) t -> answers t = [] /\ forall device, Handed device request_id true ∉ t.
Proof. intros F. split; [by apply inward_answers|]. intros d. by apply not_handed_elem, inward_all. Qed.

(** C3. Every command is answered at most once.  The task of a command tells its browser one result under the request's id, as
    its last operation and never after a successful hand-over (the Bridge answers then); or it says
    nothing, and then the connection has no identity, its login has expired (and the connection is closed), its queue is gone, the receipt of
    the repeated request cannot be read, or the command was handed over. *)
Theorem relay_command_answered (conn : Uuid) (request : pb.CommandRequest.t) (w w' : RelayWorld.t) (t : list RObs) :
  run (on_browser_command conn request) w t (Some tt) w' -> answered conn (pb.CommandRequest.request_id request) t.
Proof.
  set (id := pb.CommandRequest.request_id request).
  assert (Known : forall before t, answers before = [] -> (forall device, Handed device id true ∉ before) -> replied conn id t -> answered conn id (before ++ t)).
  { intros before u B N [A Ne]%replied_answered. by apply answered_after. }
  intros R%command_traces. destruct R as [|before t B Rp|before B|ident now dev session target t inserted L T Out].
  - left. split; [done|constructor].
  - apply (inward_before id) in B as [B N]. by apply Known.
  - left. rewrite told_app, inward_answers by done. split; [done|constructor].
  - rewrite app_assoc, cons_middle, app_assoc. set (before := (admitted conn ident now ++ target) ++ [_]).
    assert (B : answers before = [] /\ forall device, Handed device id true ∉ before).
    { destruct (inward_before id (admitted conn ident now ++ target)) as [B N]; [apply Forall_app; split; [apply admitted_inward|by eapply targeted_inward]|].
      unfold before. rewrite told_app, B. split; [done|]. intros d [I|I]%elem_of_app; [by apply N in I|]. by apply list_elem_of_singleton in I. }
    destruct B as [B N]. destruct inserted as [[|]|]; [| |by apply Known].
    + destruct Out as (sent & rest & -> & Rest). destruct sent.
      * subst rest. left. rewrite told_app, B. split; [done|].
        pose proof (handed_over conn id (before ++ [Section_ (RegisterCommand id conn dev (receipt_operation request))]) dev) as X. by rewrite <- app_assoc in X.
      * destruct Rest as (t'' & -> & Rp). rewrite !app_assoc. apply Known; [by rewrite !told_app, B| |done].
        intros d I. rewrite <- app_assoc in I. apply elem_of_app in I as [I|I]; [by apply N in I|]. clear -I. cbn in I. repeat (apply elem_of_cons in I as [E|I]; [try discriminate E|]); try done. all: by apply not_elem_of_nil in I.
    + destruct Out as [(b & -> & E)|(r & t' & -> & Rp)].
      * left. rewrite told_app, B. split; [done|]. by constructor.
      * rewrite cons_middle, app_assoc. apply Known; [by rewrite told_app, B| |done].
        intros d [I|I]%elem_of_app; [by apply N in I|]. by apply list_elem_of_singleton in I.
Qed.
End Traces.
