(* ===== verification/RelaySessions.v ===== *)
(** * The sessions over HTTP ([sessions/mod.rs], [Hub::device_query])

    Every handler is a program of [RelayOps].  The JSON of a response is left out: an answer holds the rows or the
    result of the Bridge it prints.  The body of the request [device_query] sends is [encode_query] of the message. *)

From S2P Require Import Prelude Transfers.
From S2P Require Import Prog Bytes RustStr Proto Messages Buffer Stream Hub HubProps RelayBase Auth Pairing RelayStore RelayOps.

Inductive SReply :=
| Refused (e : ApiError.t)
| Sessions (sessions : list (Uuid * SessionRow.t)) (next_cursor : option string)
| PrefsPatched
| QueryResult (result : pb.QueryResponse.Result)
| Receipt (request_id : string) (receipt : ReceiptRow.t)
| Receipts (receipts : list (string * ReceiptRow.t)).

(** [err]: the status follows from the code. *)
Definition refused (code : Code) : SReply := Refused (ApiError.mk (status_for_code code) code "").

Module ListQuery.
Record t := mk {
  cursor : option string;
  limit : option Z;
  archived : option bool;
}.
End ListQuery.

Module PatchSessionBody.
Record t := mk {
  pinned : option bool;
  muted : option bool;
  archived : option bool;
}.
End PatchSessionBody.

Section Sessions.
Context `{Prost} `{UuidParse} `{StoreCrates} `{AuthCrates} `{RequestWire}.

(** ** Queries to a Bridge *)

Definition query_env (device : Uuid) (correlation : string) (request : pb.QueryRequest.t) : Envelope.t :=
  let env := base_envelope device (QueryRequest (encode_query request)) in
  Envelope.mk correlation (Envelope.device_id env) (Envelope.stream_id env) (Envelope.stream_epoch env) (Envelope.sequence env) (Envelope.payload env).

Definition device_query (device : Uuid) (request : pb.QueryRequest.t) : rprog (res Code pb.QueryResponse.t) :=
  do online <- ask (IsOnline device);
  if negb online then Ret (Err pb.StableErrorCode.DeviceOffline)
  else
    do correlation <- act NewRequestId;
    perform section (RegisterQuery correlation);
    do sent <- act (SendBridge device (query_env device correlation request));
    if negb sent then perform section (DropQuery correlation); Ret (Err pb.StableErrorCode.DeviceOffline)
    else
      do resp <- act (AwaitResponse correlation);
      match resp with
      | Some resp => Ret (Ok resp)
      | None => perform section (DropQuery correlation); Ret (Err pb.StableErrorCode.CodexUnavailable)
      end.

(** ** The session of a path *)

Definition owned_session (owner id : Uuid) : rprog (res SReply SessionRow.t) :=
  do row <- fetch (GetSession id);
  match row with
  | None => Ret (Err (refused pb.StableErrorCode.InternalError))
  | Some None => Ret (Err (refused pb.StableErrorCode.SessionNotFound))
  | Some (Some row) =>
      do owned <- fetch (DeviceOwner (SessionRow.device_id row));
      Ret match owned with
          | Some (Some o) => if bool_decide (o = owner) then Ok row else Err (refused pb.StableErrorCode.SessionNotFound)
          | _ => Err (refused pb.StableErrorCode.SessionNotFound)
          end
  end.

(** ** The list *)

Definition list_params (q : ListQuery.t) : ListParams.t :=
  ListParams.mk (default limits.PAGE_DEFAULT (ListQuery.limit q)) (ListQuery.archived q) (ListQuery.cursor q ≫= decode_cursor).

(** The page and the cursor of its last row, when there are more rows. *)
Definition session_page (params : ListParams.t) (rows : list (Uuid * SessionRow.t)) : list (Uuid * SessionRow.t) * option string :=
  let '(page, more) := cut_page (Z.to_nat (clamp_page (ListParams.limit params))) rows in
  (page, (fun r => encode_cursor (row_cursor r)) <$> more).

Definition list_sessions (owner : Uuid) (q : ListQuery.t) : rprog SReply :=
  let params := list_params q in
  if bool_decide (is_Some (ListQuery.cursor q)) && bool_decide (ListParams.before params = None) then Ret (refused pb.StableErrorCode.InternalError)
  else
    do rows <- fetch (ListSessions owner params);
    Ret match rows with
        | None => refused pb.StableErrorCode.InternalError
        | Some rows => let '(sessions, next_cursor) := session_page params rows in Sessions sessions next_cursor
        end.

(** ** Preferences *)

Definition patch_session (owner id : Uuid) (body : PatchSessionBody.t) : rprog SReply :=
  do row <- owned_session owner id;
  match row with
  | Err resp => Ret resp
  | Ok row =>
      do patched <- store (patch_prefs id (PatchSessionBody.pinned body) (PatchSessionBody.muted body) (PatchSessionBody.archived body));
      match patched with
      | Some true => perform audit (AuditEvent.mk owner (Some (SessionRow.device_id row)) "session_prefs" "OK"); Ret PrefsPatched
      | Some false => Ret (refused pb.StableErrorCode.SessionNotFound)
      | None => Ret (refused pb.StableErrorCode.InternalError)
      end
  end.

(** ** Questions about one session *)

(** The kind is always that of Codex. *)
Definition query_session_key (id : Uuid) (row : SessionRow.t) : pb.SessionKey.t :=
  pb.SessionKey.mk (SessionRow.device_id row) (pb.AgentKind.as_i32 pb.AgentKind.CodexDesktop) (SessionRow.native_session_id row) id.

Definition query_response (resp : pb.QueryResponse.t) : SReply :=
  if negb (pb.QueryResponse.error_code resp =? 0)
  then refused (default pb.StableErrorCode.InternalError (pb.StableErrorCode.try_from (pb.QueryResponse.error_code resp)))
  else match pb.QueryResponse.result resp with Some r => QueryResult r | None => refused pb.StableErrorCode.CodexUnavailable end.

Definition query_session (owner id : Uuid) (query : pb.QueryRequest.Query) : rprog SReply :=
  do row <- owned_session owner id;
  match row with
  | Err resp => Ret resp
  | Ok row =>
      do resp <- device_query (SessionRow.device_id row) (pb.QueryRequest.mk (Some (query_session_key id row)) (Some query));
      Ret match resp with Ok resp => query_response resp | Err code => refused code end
  end.

Definition session_runtime (owner id : Uuid) : rprog SReply := query_session owner id (pb.QueryRequest.RuntimeSnapshot pb.RuntimeSnapshotQuery.mk).

Definition session_history (owner id : Uuid) (cursor : option string) (page_size : option Z) : rprog SReply :=
  query_session owner id (pb.QueryRequest.HistoryPage (pb.HistoryPageQuery.mk (default "" cursor) (Z.min (default 0 page_size) limits.PAGE_MAX))).

Definition session_output (owner id : Uuid) (item_id : string) (cursor : option string) (page_size : option Z) : rprog SReply :=
  query_session owner id
    (pb.QueryRequest.CommandOutputPage (pb.CommandOutputPageQuery.mk (Some (pb.ItemId.mk item_id false)) (default "" cursor) (default 0 page_size))).

Definition session_git (owner id : Uuid) : rprog SReply := query_session owner id (pb.QueryRequest.GitSummary pb.GitSummaryQuery.mk).

Definition session_git_diff (owner id : Uuid) (path : string) (staged : option bool) : rprog SReply :=
  query_session owner id (pb.QueryRequest.GitFileDiff (pb.GitFileDiffQuery.mk path (default false staged))).

Definition session_file_metadata (owner id : Uuid) (handle : string) : rprog SReply :=
  query_session owner id (pb.QueryRequest.FileMetadata (pb.FileMetadataQuery.mk handle)).

(** ** Receipts *)

(** [get_request]: a receipt of the caller. *)
Definition get_request (owner : Uuid) (request_id : string) : rprog SReply :=
  do receipt <- fetch (GetReceipt request_id);
  Ret match receipt with
      | Some (Some r) => if bool_decide (ReceiptRow.owner_id r = owner) then Receipt request_id r else refused pb.StableErrorCode.SessionNotFound
      | Some None => refused pb.StableErrorCode.SessionNotFound
      | None => refused pb.StableErrorCode.InternalError
      end.

Definition session_requests (owner id : Uuid) (request_id : option string) (limit : option Z) : rprog SReply :=
  do row <- owned_session owner id;
  match row with
  | Err resp => Ret resp
  | Ok row =>
      match request_id with
      | Some request_id => get_request owner request_id
      | None =>
          do rows <- fetch (ListReceipts id (default 50 limit));
          Ret match rows with
              | Some rows => Receipts (filter (fun r => ReceiptRow.owner_id r.2 = owner) rows)
              | None => refused pb.StableErrorCode.InternalError
              end
      end
  end.
End Sessions.

(** ** The routes *)

Inductive SessionRoute :=
| ListRoute (q : ListQuery.t)
| PatchRoute (id : Uuid) (body : PatchSessionBody.t)
| RuntimeRoute (id : Uuid)
| HistoryRoute (id : Uuid) (cursor : option string) (page_size : option Z)
| OutputRoute (id : Uuid) (item_id : string) (cursor : option string) (page_size : option Z)
| GitRoute (id : Uuid)
| GitDiffRoute (id : Uuid) (path : string) (staged : option bool)
| FileMetadataRoute (id : Uuid) (handle : string)
| RequestsRoute (id : Uuid) (request_id : option string) (limit : option Z)
| RequestRoute (request_id : string).

Section Routes.
Context `{Prost} `{UuidParse} `{StoreCrates} `{AuthCrates} `{RequestWire}.

Definition session_handler (r : SessionRoute) (owner : Uuid) : rprog SReply :=
  match r with
  | ListRoute q => list_sessions owner q
  | PatchRoute id body => patch_session owner id body
  | RuntimeRoute id => session_runtime owner id
  | HistoryRoute id cursor page_size => session_history owner id cursor page_size
  | OutputRoute id item_id cursor page_size => session_output owner id item_id cursor page_size
  | GitRoute id => session_git owner id
  | GitDiffRoute id path staged => session_git_diff owner id path staged
  | FileMetadataRoute id handle => session_file_metadata owner id handle
  | RequestsRoute id request_id limit => session_requests owner id request_id limit
  | RequestRoute request_id => get_request owner request_id
  end.

(** Every handler starts with [require_identity]. *)
Definition handle_session (config : Config.t) (peer : IpAddr) (headers : HeaderMap) (r : SessionRoute) : rprog SReply :=
  rwith_identity config peer headers Refused (session_handler r).
End Routes.
