(* ===== verification/RelayStoreProps.v ===== *)
(** * What holds of the session store of the Relay, and what the session handlers give to whom *)

From Stdlib Require Import Ascii.
From S2P Require Import Prelude Transfers.
From S2P Require Import Prog Bytes RustStr Proto Messages Buffer Stream Hub HubProps RelayBase Auth Pairing RelayStore RelayOps RelayCommands RelayCommandProps RelaySessions.

(** ** The order of the rows *)

Notation cursor_le := (@pair_le).

Lemma cursor_lt_false (a b : Z * Uuid) : cursor_lt a b = false <-> cursor_le b a.
Proof. exact (pair_lt_false a b). Qed.

Lemma cursor_lt_irrefl (a : Z * Uuid) : cursor_lt a a = false.
Proof. exact (pair_lt_irrefl a). Qed.

Lemma cursor_lt_asym (a b : Z * Uuid) : cursor_lt a b = true -> cursor_lt b a = false.
Proof. exact (pair_lt_asym a b). Qed.

#[global] Instance row_before_trans : Transitive row_before.
Proof. intros a b c. unfold row_before. rewrite !cursor_lt_false. intros X Y. by etrans. Qed.

#[global] Instance row_before_total : Total row_before.
Proof. intros a b. unfold row_before. rewrite !cursor_lt_false. apply total, _. Qed.

Section Paging.
Context `{StoreCrates} `{AuthCrates}.

Lemma elem_of_all_sessions (owner : Uuid) (archived : option bool) (db : RelayDb.t) (id : Uuid) (r : SessionRow.t) :
  (id, r) ∈ all_sessions owner archived db <-> RelayDb.sessions db !! id = Some r /\ visible owner archived db r = true.
Proof. unfold all_sessions. rewrite merge_sort_Permutation, list_elem_of_filter, elem_of_map_to_list. tauto. Qed.

Lemma NoDup_all_sessions (owner : Uuid) (archived : option bool) (db : RelayDb.t) : NoDup (all_sessions owner archived db).*1.
Proof.
  unfold all_sessions. rewrite merge_sort_Permutation. eapply sublist_NoDup; [apply (NoDup_fst_map_to_list (RelayDb.sessions db))|]. apply fmap_sublist, sublist_filter.
Qed.

Lemma descending_all_sessions (owner : Uuid) (archived : option bool) (db : RelayDb.t) :
  descending cursor_lt row_cursor (all_sessions owner archived db).
Proof.
  pose proof (NoDup_all_sessions owner archived db) as N.
  assert (S : StronglySorted row_before (all_sessions owner archived db)) by (apply StronglySorted_merge_sort; apply _).
  induction S as [|a l S IH F]; [constructor|]. cbn in N. apply NoDup_cons in N as [Na N]. constructor; [by apply IH|].
  apply Forall_forall. intros b B. rewrite Forall_forall in F. specialize (F b B). unfold row_before in F. apply cursor_lt_false in F.
  destruct (cursor_lt (row_cursor b) (row_cursor a)) eqn:L; [done|]. apply cursor_lt_false in L. exfalso. apply Na.
  assert (row_cursor a = row_cursor b) as E by (by apply (anti_symm cursor_le)). injection E as _ E. apply list_elem_of_fmap. by exists b.
Qed.
End Paging.

(** ** Cursors *)

(** The last year of RFC 3339. *)
Definition YEAR_10000 : Z := 253402300800000.

Definition uuid_char (c : ascii) : bool := match digit_in 16 c with Some _ => true | None => bool_decide (c = "-"%char) end.

(** What the crates document: [base64] decodes what it encodes, [chrono] parses what it prints, in graphic characters,
    and a [Uuid] prints as hyphenated hexadecimal digits that parse to it. *)
Class CursorLaws `{StoreCrates} `{AuthCrates} : Prop := {
  base64_decode_encode (b : list byte) : base64_decode (base64_encode b) = Some b;
  rfc3339_roundtrip (t : Z) : 0 <= t < YEAR_10000 -> rfc3339_of (rfc3339 t) = Some t;
  rfc3339_graphic (t : Z) : 0 <= t < YEAR_10000 -> str_all ascii_graphic (rfc3339 t) = true;
  uuid_canonical (s u : string) : uuid_of s = Some u -> uuid_of u = Some u /\ str_all uuid_char u = true;
}.

Lemma uuid_char_spec (c : ascii) : uuid_char c = true -> ascii_graphic c = true /\ Ascii.eqb c ":" = false.
Proof. destruct c as [[] [] [] [] [] [] [] []]; vm_compute; intros H; (discriminate H || split; reflexivity). Qed.

Lemma graphic_Utf8 (s : string) : str_all ascii_graphic s = true -> Utf8 (String.list_byte_of_string s).
Proof.
  induction s as [|c s IH]; [constructor|]. simpl. intros [G S]%andb_true_iff. apply (Utf8_char [byte_of_ascii c]); [|by apply IH].
  clear -G. destruct c as [[] [] [] [] [] [] [] []]; vm_compute in *; (discriminate G || reflexivity).
Qed.

Lemma rsplit_once_last (c : ascii) (l r : string) : contains_char c r = false -> rsplit_once c (l +:+ String c r) = Some (l, r).
Proof.
  intros N. unfold rsplit_once. assert (str_rev (l +:+ String c r) = str_rev r +:+ String c (str_rev l)) as ->.
  { rewrite <- (str_rev_involutive l) at 1. rewrite str_rev_app_rev. change (String c r) with (str_rev (String c "") +:+ r).
    by rewrite str_rev_app_rev, <- str_app_assoc. }
  rewrite split_once_here; [by simpl; rewrite !str_rev_involutive|]. clear -N. 
  apply (contains_char_all (fun a => negb (Ascii.eqb a c))); [|by rewrite Ascii.eqb_refl]. rewrite str_all_rev.
  induction r as [|a r IH]; simpl in *; [done|]. destruct (Ascii.eqb a c); [done|]. by apply IH.
Qed.

Section Cursors.
Context `{CursorLaws}.

(** A cursor decodes to what it was made of. *)
Lemma decode_encode (t : Z) (id : Uuid) : 0 <= t < YEAR_10000 -> uuid_of id = Some id -> decode_cursor (encode_cursor (t, id)) = Some (t, id).
Proof.
  intros T U. destruct (uuid_canonical _ _ U) as [_ C]. unfold decode_cursor, encode_cursor. rewrite base64_decode_encode. cbn [mbind option_bind fst snd].
  assert (G : str_all ascii_graphic ("v1:" +:+ rfc3339 t +:+ ":" +:+ id) = true).
  { rewrite !str_all_app, rfc3339_graphic by done. simpl. eapply str_all_impl; [|exact C]. by intros c [? _]%uuid_char_spec. }
  apply graphic_Utf8, utf8_valid_iff in G. rewrite G. cbn [mbind option_bind]. rewrite String.string_of_list_byte_of_string, strip_prefix_app. cbn [mbind option_bind].
  change (":" +:+ id) with (String ":" id). rewrite rsplit_once_last.
  - cbn [mbind option_bind]. rewrite rfc3339_roundtrip by done. simpl. by rewrite U.
  - eapply contains_char_all; [exact C|reflexivity].
Qed.
End Cursors.

(** ** Reading the list page by page *)

(** What [list_sessions] replies on a database that answers. *)
Definition session_reply `{StoreCrates} `{AuthCrates} (owner : Uuid) (q : ListQuery.t) (db : RelayDb.t) : SReply :=
  let params := list_params q in
  if bool_decide (is_Some (ListQuery.cursor q)) && bool_decide (ListParams.before params = None) then refused pb.StableErrorCode.InternalError
  else let '(sessions, next_cursor) := session_page params (list_sessions_statement owner params db) in Sessions sessions next_cursor.

(** A client that asks for the next page as long as there is one. *)
Fixpoint read_list `{StoreCrates} `{AuthCrates} (fuel : nat) (owner : Uuid) (limit : option Z) (archived : option bool) (cursor : option string) (db : RelayDb.t) :
    option (list (Uuid * SessionRow.t)) :=
  match fuel with
  | O => None
  | S fuel =>
      match session_reply owner (ListQuery.mk cursor limit archived) db with
      | Sessions page None => Some page
      | Sessions page (Some next) => rest ← read_list fuel owner limit archived (Some next) db; Some (page ++ rest)
      | _ => None
      end
  end.

(** Ids and times as the database keeps them. *)
Definition rows_ok `{AuthCrates} (db : RelayDb.t) : Prop :=
  map_Forall (fun id r => uuid_of id = Some id /\ 0 <= SessionRow.last_updated_at r < YEAR_10000) (RelayDb.sessions db).

Section ListAll.
Context `{CursorLaws}.

Lemma read_follow (fuel : nat) (owner : Uuid) (limit : option Z) (archived : option bool) (before : option (Uuid * SessionRow.t)) (db : RelayDb.t) :
  rows_ok db -> (forall r, before = Some r -> r ∈ all_sessions owner archived db) ->
  read_list fuel owner limit archived ((fun r => encode_cursor (row_cursor r)) <$> before) db =
    follow cursor_lt row_cursor fuel (Z.to_nat (clamp_page (default limits.PAGE_DEFAULT limit))) (row_cursor <$> before) (all_sessions owner archived db).
Proof.
  intros Ok. revert before. induction fuel as [|fuel IH]; intros before B; [done|]. cbn [read_list follow]. unfold session_reply, session_page.
  assert (P : ListParams.before (list_params (ListQuery.mk ((fun r => encode_cursor (row_cursor r)) <$> before) limit archived)) = row_cursor <$> before).
  { destruct before as [[id r]|]; [|done]. specialize (B _ eq_refl). apply elem_of_all_sessions in B as [B _]. destruct (Ok _ _ B) as [U T].
    cbn [list_params ListParams.before ListQuery.cursor fmap option_fmap option_map mbind option_bind]. by apply decode_encode. }
  assert (L : list_sessions_statement owner (list_params (ListQuery.mk ((fun r => encode_cursor (row_cursor r)) <$> before) limit archived)) db =
    rows_after cursor_lt row_cursor (Z.to_nat (clamp_page (default limits.PAGE_DEFAULT limit))) (row_cursor <$> before) (all_sessions owner archived db)).
  { unfold list_sessions_statement, rows_after. rewrite P. cbn [list_params ListParams.limit ListParams.archived ListQuery.limit ListQuery.archived].
    f_equal. unfold clamp_page. lia. }
  rewrite L, P.
  replace (_ && _) with false by (by destruct before).
  cbn [list_params ListParams.limit ListQuery.limit].
  destruct (cut_page _ _) as [page more] eqn:C. destruct more as [r|]; [|done]. specialize (IH (Some r)).
  cbn [fmap option_fmap option_map] in *. rewrite IH; [done|]. intros r' [= <-].
  by eapply rows_after_elem, cut_page_elem.
Qed.

(** C6. The list of sessions is complete.  While the tables do not change, a client that asks [list_sessions] for pages of any size
    (clamped to 1..200) and follows the cursors gets, after finitely many pages, every session of the owner's live devices
    with the archive state asked for: each once, none else, the latest first.  This is for tables whose session ids are UUIDs in
    canonical form and whose last updates lie between 1970 and the end of the year 9999 (the times a cursor can carry). *)
Theorem list_sessions_complete (owner : Uuid) (limit : option Z) (archived : option bool) (db : RelayDb.t) :
  rows_ok db ->
  exists rows, read_list (S (length (map_to_list (RelayDb.sessions db)))) owner limit archived None db = Some rows /\
    NoDup rows.*1 /\ descending cursor_lt row_cursor rows /\
    forall id r, (id, r) ∈ rows <-> RelayDb.sessions db !! id = Some r /\ visible owner archived db r = true.
Proof.
  intros Ok. exists (all_sessions owner archived db). split_and!.
  - rewrite (read_follow _ owner limit archived None db Ok) by done. apply follow_all.
    + apply cursor_lt_irrefl.
    + apply cursor_lt_asym.
    + unfold clamp_page, limits.PAGE_MAX. lia.
    + unfold all_sessions. rewrite merge_sort_Permutation. apply Nat.lt_succ_r, length_filter.
    + apply descending_all_sessions.
  - apply NoDup_all_sessions.
  - apply descending_all_sessions.
  - apply elem_of_all_sessions.
Qed.
End ListAll.

(** ** Rows and their native keys *)

(** [UNIQUE (device_id, agent_kind, native_session_id)]. *)
Definition unique_keys (db : RelayDb.t) : Prop :=
  forall i j a b, RelayDb.sessions db !! i = Some a -> RelayDb.sessions db !! j = Some b -> SessionRow.key a = SessionRow.key b -> i = j.

Lemma find_key_Some (key : Uuid * string * string) (db : RelayDb.t) (id : Uuid) (r : SessionRow.t) :
  find_key key db = Some (id, r) -> RelayDb.sessions db !! id = Some r /\ SessionRow.key r = key.
Proof.
  unfold find_key. intros E. apply head_Some_elem_of in E. apply list_elem_of_filter in E as [K E]. by apply elem_of_map_to_list in E.
Qed.

Lemma find_key_None (key : Uuid * string * string) (db : RelayDb.t) (id : Uuid) (r : SessionRow.t) :
  find_key key db = None -> RelayDb.sessions db !! id = Some r -> SessionRow.key r <> key.
Proof.
  unfold find_key. intros E%head_None L K. apply elem_of_map_to_list in L. assert ((id, r) ∈ filter (fun '(_, r) => SessionRow.key r = key) (map_to_list (RelayDb.sessions db))) as M by (by apply list_elem_of_filter).
  rewrite E in M. by apply not_elem_of_nil in M.
Qed.

Lemma unique_keys_insert (id : Uuid) (r : SessionRow.t) (db : RelayDb.t) :
  unique_keys db -> (forall j b, j <> id -> RelayDb.sessions db !! j = Some b -> SessionRow.key b <> SessionRow.key r) ->
  unique_keys (RelayDb.with_sessions (<[id := r]> (RelayDb.sessions db)) db).
Proof.
  intros U N i j a b. simpl. rewrite !lookup_insert. repeat case_decide; subst; intros A B K; try done.
  - injection A as <-. by destruct (N j b ltac:(done) B).
  - injection B as <-. by destruct (N i a ltac:(done) A).
  - by eapply U.
Qed.

(** A summary from a Bridge updates the one row of its session.  Rows keep distinct native keys; the row of the key is replaced
    under its old id, with the preferences (pinned, muted, archived) and the revision it had, or inserted under the new
    id with none; no other row changes. *)
Theorem upsert_one_row (id : Uuid) (row : Z -> SessionRow.t) (now : Z) (db db' : RelayDb.t) :
  unique_keys db -> upsert_summary id row now db = (Some tt, db') ->
  unique_keys db' /\ exists id' r',
    RelayDb.sessions db' !! id' = Some r' /\ SessionRow.key r' = SessionRow.key (row now) /\
    SessionRow.title r' = SessionRow.title (row now) /\ SessionRow.last_updated_at r' = SessionRow.last_updated_at (row now) /\
    (forall j, j <> id' -> RelayDb.sessions db' !! j = RelayDb.sessions db !! j) /\
    match RelayDb.sessions db !! id' with
    | Some r => SessionRow.key r = SessionRow.key (row now) /\ SessionRow.pinned r' = SessionRow.pinned r /\ SessionRow.muted r' = SessionRow.muted r /\
        SessionRow.archived r' = SessionRow.archived r /\ SessionRow.runtime_revision r' = SessionRow.runtime_revision r
    | None => r' = row now /\ id' = id /\ forall j r, RelayDb.sessions db !! j = Some r -> SessionRow.key r <> SessionRow.key (row now)
    end.
Proof.
  intros U. unfold upsert_summary. destruct (find_key _ db) as [[old r]|] eqn:F.
  - apply find_key_Some in F as [L K]. intros E. injection E as <-. split.
    + apply unique_keys_insert; [done|]. intros j b Ne B E. apply Ne. eapply U; [exact B|exact L|exact E].
    + exists old, (SessionRow.with_summary (row now) r). simpl. rewrite lookup_insert_eq, L. split_and!; try done. intros j Ne. by rewrite lookup_insert_ne.
  - destruct (Db.devices _ !! _); [|done]. destruct (RelayDb.sessions db !! id) eqn:L; [done|]. intros E. injection E as <-. split.
    + apply unique_keys_insert; [done|]. intros j b _ B. by eapply find_key_None.
    + exists id, (row now). simpl. rewrite lookup_insert_eq, L. split_and!; try done; [intros j Ne; by rewrite lookup_insert_ne|]. intros j r B. by eapply find_key_None.
Qed.

(** ** Whose data a handler serves *)

Section SessionTraces.
Context `{Prost} `{UuidParse} `{StoreCrates} `{AuthCrates} `{RequestWire}.
Variable env : RelayWorld.t -> RelayWorld.t -> Prop.

Notation run := (texec env rstep robs).

(** The session a route names in its path. *)
Definition route_session (route : SessionRoute) : option Uuid :=
  match route with
  | PatchRoute id _ | RuntimeRoute id | HistoryRoute id _ _ | OutputRoute id _ _ _ | GitRoute id | GitDiffRoute id _ _ | FileMetadataRoute id _
  | RequestsRoute id _ _ => Some id
  | ListRoute _ | RequestRoute _ => None
  end.

Definition owns_device (owner device : Uuid) (db : RelayDb.t) : Prop :=
  exists d, Db.devices (RelayDb.base db) !! device = Some d /\ Device.owner_id d = owner /\ Device.revoked_at d = None.

(** The rows [owner] may be told on a route, in a state of the database. *)
Definition may_see (owner : Uuid) (route : SessionRoute) (r : SReply) (db : RelayDb.t) : Prop :=
  match r with
  | Sessions rows _ => exists q, route = ListRoute q /\
      Forall (fun x => RelayDb.sessions db !! x.1 = Some x.2 /\ owns_device owner (SessionRow.device_id x.2) db /\
                       forall archived, ListQuery.archived q = Some archived -> SessionRow.archived x.2 = archived) rows
  | Receipt id x => (route = RequestRoute id \/ exists session limit, route = RequestsRoute session (Some id) limit) /\
      RelayDb.receipts db !! id = Some x /\ ReceiptRow.owner_id x = owner
  | Receipts rows => exists session limit, route = RequestsRoute session None limit /\
      Forall (fun x => RelayDb.receipts db !! x.1 = Some x.2 /\ ReceiptRow.owner_id x.2 = owner /\ ReceiptRow.session_id x.2 = Some session) rows
  | Refused _ | PrefsPatched | QueryResult _ => True
  end.

(** The two reads that admit a user to the session of the path. *)
Definition admitted_to (owner id : Uuid) (row : SessionRow.t) : list RObs :=
  [Fetched (GetSession id) (Some (Some row)); Fetched (DeviceOwner (SessionRow.device_id row)) (Some (Some owner))].

(** A query leaves once, for the device of the session of the path and about this session, after the user was admitted and the device was online. *)
Definition query_guarded (owner : Uuid) (route : SessionRoute) (t : list RObs) : Prop :=
  forall device e sent, Queried device e sent ∈ t -> exists id row correlation kind query rest,
    route_session route = Some id /\ device = SessionRow.device_id row /\
    e = query_env device correlation (pb.QueryRequest.mk (Some (pb.SessionKey.mk device kind (SessionRow.native_session_id row) id)) (Some query)) /\
    t = admitted_to owner id row ++ [Asked (IsOnline device) true; Section_ (RegisterQuery correlation); Queried device e sent] ++ rest /\
    forall device e sent, Queried device e sent ∉ rest.

(** Only a patch writes, after the user was admitted. *)
Definition write_guarded (owner : Uuid) (route : SessionRoute) (t : list RObs) : Prop :=
  Wrote ∈ t -> exists id body row rest, route = PatchRoute id body /\ t = admitted_to owner id row ++ Wrote :: rest.

(** The result of a Bridge is the answer to such a query. *)
Definition result_asked (r : SReply) (t : list RObs) : Prop :=
  forall x, r = QueryResult x -> exists device e, Queried device e true ∈ t.

Definition quiet (o : RObs) : Prop := match o with Queried _ _ _ | Wrote => False | _ => True end.

Lemma quiet_guarded (owner : Uuid) (route : SessionRoute) (t : list RObs) : Forall quiet t -> query_guarded owner route t /\ write_guarded owner route t.
Proof. rewrite Forall_forall. intros F. split; [intros device e sent I|intros I]; destruct (F _ I). Qed.

Lemma quiet_not_queried (t : list RObs) : Forall quiet t -> forall device e sent, Queried device e sent ∉ t.
Proof. rewrite Forall_forall. intros F device e sent I. destruct (F _ I). Qed.

Lemma fetch_reads {A C : Type} (q : Select A) (k : option A -> C) :
  prog_all (fun B o => forall s b s', rstep B o s b s' -> s' = s) (do x <- fetch q; Ret (k x)).
Proof. split; [|done]. by intros s b s' [_ ->]. Qed.

Lemma owned_session_trace (owner id : Uuid) (w w' : RelayWorld.t) (t : list RObs) (r : res SReply SessionRow.t) :
  run (owned_session owner id) w t (Some r) w' ->
  rtc env w w' /\ Forall quiet t /\
  match r with
  | Ok row => t = admitted_to owner id row
  | Err e => exists code, e = refused code
  end.
Proof.
  intros X. split.
  { eapply texec_reads, X. unfold owned_session, fetch. split; [by intros s b s' [_ ->]|]. intros [[row|]|]; [apply fetch_reads|done..]. }
  unfold owned_session, fetch in X. first_op X row. destruct row as [[row|]|]; [|texec_inv; split; [by repeat constructor|eauto]..].
  first_op X owned. texec_inv. split; [by repeat constructor|]. destruct owned as [[o|]|]; [|by eauto..]. case_bool_decide; [by subst|by eauto].
Qed.

Lemma device_query_trace (device : Uuid) (request : pb.QueryRequest.t) (w w' : RelayWorld.t) (t : list RObs) (r : res Code pb.QueryResponse.t) :
  run (device_query device request) w t (Some r) w' ->
  (Forall quiet t /\ exists code, r = Err code) \/
  exists correlation sent rest, Forall quiet rest /\ (sent = false -> exists code, r = Err code) /\
    t = [Asked (IsOnline device) true; Section_ (RegisterQuery correlation); Queried device (query_env device correlation request) sent] ++ rest.
Proof.
  unfold device_query, ask, section. intros X. first_op X online. destruct online; cbn [negb] in X; [|texec_inv; left; split; [by repeat constructor|eauto]].
  first_op X correlation. first_op X u1. first_op X sent. right. exists correlation, sent. destruct sent; cbn [negb] in X.
  - first_op X resp. destruct resp as [resp|]; [texec_inv; by exists []|]. first_op X u2. texec_inv. exists [Section_ (DropQuery correlation)]. split; [by repeat constructor|done].
  - first_op X u2. texec_inv. exists [Section_ (DropQuery correlation)]. split; [by repeat constructor|]. split; [eauto|done].
Qed.

(** The rows of an answer were in the tables at an instant of the request, which only other tasks led to. *)
Definition rows_served (owner : Uuid) (route : SessionRoute) (w : RelayWorld.t) (r : SReply) (w' : RelayWorld.t) : Prop :=
  match r with
  | Refused _ | PrefsPatched | QueryResult _ => True
  | _ => exists w1, rtc env w w1 /\ rtc env w1 w' /\ may_see owner route r (RelayWorld.db w1)
  end.

(** What a handler may do and say on a route. *)
Definition isolated (owner : Uuid) (route : SessionRoute) (w : RelayWorld.t) (t : list RObs) (r : SReply) (w' : RelayWorld.t) : Prop :=
  query_guarded owner route t /\ write_guarded owner route t /\ result_asked r t /\ rows_served owner route w r w'.

Lemma isolated_earlier (owner : Uuid) (route : SessionRoute) (w w1 w' : RelayWorld.t) (t : list RObs) (r : SReply) :
  rtc env w w1 -> isolated owner route w1 t r w' -> isolated owner route w t r w'.
Proof.
  intros L (Q & W & A & S). split_and!; [done..|]. destruct r; try done; destruct S as (w2 & L2 & S); exists w2; (split; [by etrans|done]).
Qed.

Lemma rowless_isolated (owner : Uuid) (route : SessionRoute) (w w' : RelayWorld.t) (t : list RObs) (r : SReply) :
  Forall quiet t -> r = PrefsPatched \/ (exists e, r = Refused e) -> isolated owner route w t r w'.
Proof. intros F R. destruct (quiet_guarded owner route t F). split_and!; [done..| |]; by destruct R as [->|[e ->]]. Qed.

Lemma rows_isolated (owner : Uuid) (route : SessionRoute) (w w1 w' : RelayWorld.t) (t : list RObs) (r : SReply) :
  Forall quiet t -> rtc env w w1 -> rtc env w1 w' -> may_see owner route r (RelayWorld.db w1) -> (forall x, r <> QueryResult x) -> isolated owner route w t r w'.
Proof.
  intros F L1 L2 S N. destruct (quiet_guarded owner route t F). split_and!; [done..| |].
  - intros x E. by destruct (N x).
  - destruct r; try done; by exists w1.
Qed.

Lemma query_response_kind (resp : pb.QueryResponse.t) : (exists e, query_response resp = Refused e) \/ exists x, query_response resp = QueryResult x.
Proof. unfold query_response. repeat case_match; eauto; left; eexists; reflexivity. Qed.

Lemma query_session_trace (owner id : Uuid) (route : SessionRoute) (query : pb.QueryRequest.Query) (w w' : RelayWorld.t) (t : list RObs) (r : SReply) :
  route_session route = Some id -> run (query_session owner id query) w t (Some r) w' -> isolated owner route w t r w'.
Proof.
  unfold query_session. intros P X. apply texec_bind in X as [[_ ?]|(t1 & row & w1 & t2 & T & X & ->)]; [done|].
  apply owned_session_trace in T as (_ & N & T). destruct row as [row|e].
  2:{ destruct T as [code ->]. texec_inv. rewrite app_nil_r. apply rowless_isolated; [done|]. right. by eexists. }
  apply texec_bind in X as [[_ ?]|(t3 & resp & w2 & t4 & Q & X & ->)]; [done|]. texec_inv. rewrite app_nil_r.
  apply device_query_trace in Q as [(F & code & ->)|(correlation & sent & rest & F & D & ->)].
  { apply rowless_isolated; [by apply Forall_app|]. right. by eexists. }
  unfold query_session_key in *. rewrite Forall_forall in F. split_and!.
  - intros device e s I. unfold admitted_to in I. cbn [app] in I. rewrite !elem_of_cons in I. destruct I as [?|[?|[?|[?|[E|I]]]]]; try done; [|by destruct (F _ I)].
    injection E as -> -> ->. exists id, row, correlation, (pb.AgentKind.as_i32 pb.AgentKind.CodexDesktop), query, rest. split_and!; try done.
    intros d e s' I. by destruct (F _ I).
  - intros I. unfold admitted_to in I. cbn [app] in I. rewrite !elem_of_cons in I. destruct I as [?|[?|[?|[?|[?|I]]]]]; try done. by destruct (F _ I).
  - intros x E. destruct sent; [|by destruct (D eq_refl) as [code ->]]. eexists _, _. unfold admitted_to. cbn [app]. do 4 apply list_elem_of_further. apply list_elem_of_here.
  - destruct resp as [resp|code]; [|done]. by destruct (query_response_kind resp) as [[e ->]|[x ->]].
Qed.

Lemma get_request_trace (owner : Uuid) (route : SessionRoute) (request_id : string) (w w' : RelayWorld.t) (t t0 : list RObs) (w0 : RelayWorld.t) (r : SReply) :
  (route = RequestRoute request_id \/ exists session limit, route = RequestsRoute session (Some request_id) limit) -> Forall quiet t0 -> rtc env w0 w ->
  run (get_request owner request_id) w t (Some r) w' -> isolated owner route w0 (t0 ++ t) r w'.
Proof.
  unfold get_request, fetch. intros P F L X. apply texec_first in X as (w1 & b & w2 & t' & L1 & St & X & ->). texec_inv.
  destruct St as [[E|E] ->]; injection E as ->; cbn [select]; [|apply rowless_isolated; [apply Forall_app; split; [done|by repeat constructor]|right; by eexists]].
  unfold get_receipt. apply rows_isolated with w1; [apply Forall_app; split; [done|by repeat constructor]|by etrans|done| |].
  - destruct (RelayDb.receipts _ !! _) eqn:R; [|done]. by case_bool_decide.
  - intros x. destruct (RelayDb.receipts _ !! _) eqn:R; [|done]. by case_bool_decide.
Qed.

Lemma visible_owned (owner : Uuid) (archived : option bool) (db : RelayDb.t) (x : SessionRow.t) :
  visible owner archived db x = true -> owns_device owner (SessionRow.device_id x) db /\ forall a, archived = Some a -> SessionRow.archived x = a.
Proof.
  unfold visible. intros [D A]%andb_true_iff. destruct (Db.devices _ !! _) as [d|] eqn:E; [|done]. apply bool_decide_eq_true in D as [? ?]. split; [by exists d|].
  intros a ->. by apply eqb_prop in A.
Qed.

Lemma session_reply_seen (owner : Uuid) (q : ListQuery.t) (db : RelayDb.t) :
  may_see owner (ListRoute q) (session_reply owner q db) db /\ forall x, session_reply owner q db <> QueryResult x.
Proof.
  unfold session_reply. destruct (_ && _); [done|]. destruct (session_page _ _) as [page next] eqn:P. split; [|done]. exists q. split; [done|]. apply Forall_forall. intros [id r] I.
  assert ((id, r) ∈ list_sessions_statement owner (list_params q) db) as M.
  { unfold session_page in P. destruct (cut_page _ _) as [page' more] eqn:C. injection P as <- _. by apply (cut_page_incl _ _ _ _ C). }
  unfold list_sessions_statement in M. apply subseteq_take, list_elem_of_filter in M as [_ M]. apply elem_of_all_sessions in M as [? ?%visible_owned]. done.
Qed.

Lemma list_sessions_trace (owner : Uuid) (q : ListQuery.t) (w w' : RelayWorld.t) (t : list RObs) (r : SReply) :
  run (list_sessions owner q) w t (Some r) w' -> isolated owner (ListRoute q) w t r w'.
Proof.
  unfold list_sessions, fetch. intros X. destruct (_ && _) eqn:B; [texec_inv; apply rowless_isolated; [done|right; by eexists]|].
  apply texec_first in X as (w1 & b & w2 & t' & L1 & St & X & ->). texec_inv. 
  destruct St as [[E|E] ->]; injection E as ->; [|apply rowless_isolated; [by repeat constructor|right; by eexists]].
  destruct (session_reply_seen owner q (RelayWorld.db w1)) as [S N]. unfold session_reply in S, N. rewrite B in S, N. cbn [select]. destruct (session_page _ _).
  apply rows_isolated with w1; [by repeat constructor|done..].
Qed.

Lemma session_requests_trace (owner id : Uuid) (request_id : option string) (limit : option Z) (w w' : RelayWorld.t) (t : list RObs) (r : SReply) :
  run (session_requests owner id request_id limit) w t (Some r) w' -> isolated owner (RequestsRoute id request_id limit) w t r w'.
Proof.
  unfold session_requests. intros X. apply texec_bind in X as [[_ ?]|(t1 & row & w1 & t2 & T & X & ->)]; [done|].
  apply owned_session_trace in T as (L & N & T). destruct row as [row|e].
  2:{ destruct T as [code ->]. texec_inv. rewrite app_nil_r. apply rowless_isolated; [done|right; by eexists]. }
  destruct request_id as [request_id|]; [eapply get_request_trace, X; eauto|].
  unfold fetch in X. apply texec_first in X as (w2 & b & w3 & t' & L1 & St & X & ->). texec_inv.
  assert (F : Forall quiet (admitted_to owner id row ++ robs _ (Fetch (ListReceipts id (default 50 limit))) b ++ [])) by (apply Forall_app; split; [done|by repeat constructor]).
  destruct St as [[E|E] ->]; injection E as ->; [|apply rowless_isolated; [done|right; by eexists]].
  apply rows_isolated with w2; [done|by etrans|done| |done]. exists id, limit. split; [done|]. apply Forall_forall. intros [x rc] [O I]%list_elem_of_filter.
  cbn [select] in I. unfold list_receipts_for_session in I. apply subseteq_take in I. rewrite merge_sort_Permutation in I.
  apply list_elem_of_filter in I as [S I]. by apply elem_of_map_to_list in I.
Qed.

Lemma patch_session_trace (owner id : Uuid) (body : PatchSessionBody.t) (w w' : RelayWorld.t) (t : list RObs) (r : SReply) :
  run (patch_session owner id body) w t (Some r) w' -> isolated owner (PatchRoute id body) w t r w'.
Proof.
  unfold patch_session, audit, store. intros X. apply texec_bind in X as [[_ ?]|(t1 & row & w1 & t2 & T & X & ->)]; [done|].
  apply owned_session_trace in T as (_ & N & T). destruct row as [row|e].
  2:{ destruct T as [code ->]. texec_inv. rewrite app_nil_r. apply rowless_isolated; [done|right; by eexists]. }
  first_op X patched.
  assert (G : forall rest, Forall (fun o => match o with Queried _ _ _ => False | _ => True end) rest ->
    r = PrefsPatched \/ (exists e, r = Refused e) -> isolated owner (PatchRoute id body) w (t1 ++ [Wrote] ++ rest) r w').
  { intros rest F R. rewrite T. split_and!.
    - intros device e s I. unfold admitted_to in I. cbn [app] in I. rewrite !elem_of_cons in I. destruct I as [?|[?|[?|I]]]; try done. rewrite Forall_forall in F. by destruct (F _ I).
    - intros _. by exists id, body, row, rest.
    - destruct R as [->|[e ->]]; by intros x.
    - by destruct R as [->|[e ->]]. }
  destruct patched as [[|]|]; [|texec_inv; apply G; [constructor|right; by eexists]..].
  apply texec_bind in X as [[_ ?]|(t3 & u & w2 & t4 & A & X & ->)]; [done|]. first_op A wrote. texec_inv. apply G; [by repeat constructor|by left].
Qed.

Lemma session_handler_trace (route : SessionRoute) (owner : Uuid) (w w' : RelayWorld.t) (t : list RObs) (r : SReply) :
  run (session_handler route owner) w t (Some r) w' -> isolated owner route w t r w'.
Proof.
  intros X. destruct route; cbn [session_handler] in X; try (by eapply query_session_trace; [done|exact X]).
  - by apply list_sessions_trace.
  - by apply patch_session_trace.
  - by apply session_requests_trace.
  - eapply (get_request_trace owner _ _ w _ _ [] w), X; [by left|done|done].
Qed.

(** ** The rows of others are left alone *)

(** An operation that does not change this part of the tables. *)
Definition leaves {X : Type} (part : RelayDb.t -> X) (B : Type) (o : rop B) : Prop :=
  forall w b w', rstep B o w b w' -> part (RelayWorld.db w') = part (RelayWorld.db w).

Lemma store_leaves {X : Type} (part : RelayDb.t -> X) {A : Type} (s : RStatement A) :
  (forall now db, part (s now db).2 = part db) -> leaves part _ (Store s).
Proof. intros K w b w' [now [(_ & ->)|(_ & ->)]]; [apply K|done]. Qed.

Lemma quiet_leaves {X : Type} (part : RelayDb.t -> X) {B : Type} (o : rop B) :
  match o with InsertReceipt _ _ _ _ _ | Store _ | CleanReceipts => False | _ => True end -> leaves part B o.
Proof.
  intros Q w b w' St. destruct o; try done; cbn [rstep] in St.
  all: try (by destruct St as [_ ->]); try (by destruct St as (? & _ & ->)).
  all: destruct (send_to_bridge_locked _ _ _); by destruct St as [_ ->].
Qed.

Ltac leaves_tac := prog_all_tac; by apply quiet_leaves.

Lemma handler_leaves {X : Type} (part : RelayDb.t -> X) (route : SessionRoute) (owner : Uuid) :
  (forall e now db, part (on_base (insert_audit e) now db).2 = part db) ->
  (forall id body, route = PatchRoute id body -> forall pinned muted archived now db, part (patch_prefs id pinned muted archived now db).2 = part db) ->
  prog_all (leaves part) (session_handler route owner).
Proof.
  intros Pa Pp. assert (O : forall i, prog_all (leaves part) (owned_session owner i)) by (intros i; unfold owned_session, fetch; leaves_tac).
  assert (G : forall i, prog_all (leaves part) (get_request owner i)) by (intros i; unfold get_request, fetch; leaves_tac).
  assert (Q : forall i q, prog_all (leaves part) (query_session owner i q)).
  { intros i q. unfold query_session, device_query, ask, section. apply prog_all_bind; [apply O|]. intros [row|e]; [|done]. leaves_tac. }
  destruct route; cbn [session_handler]; try apply Q; try apply G.
  - unfold list_sessions, fetch. leaves_tac.
  - unfold patch_session, audit, store. apply prog_all_bind; [apply O|]. intros [row|e]; [|done]. prog_all_tac; apply store_leaves; [by eapply Pp|apply Pa].
  - unfold session_requests, fetch. apply prog_all_bind; [apply O|]. intros [row|e]; [|done]. destruct request_id; [apply G|]. leaves_tac.
Qed.

Lemma handle_session_leaves {X : Type} (part : RelayDb.t -> X) (x : X) (config : Config.t) (peer : IpAddr) (headers : HeaderMap) (route : SessionRoute)
    (w w' : RelayWorld.t) (t : list RObs) (r : option SReply) :
  (forall e now db, part (on_base (insert_audit e) now db).2 = part db) ->
  (forall id body, route = PatchRoute id body -> forall pinned muted archived now db, part (patch_prefs id pinned muted archived now db).2 = part db) ->
  (forall s s', env s s' -> part (RelayWorld.db s) = x -> part (RelayWorld.db s') = x) ->
  run (handle_session config peer headers route) w t r w' -> part (RelayWorld.db w) = x -> part (RelayWorld.db w') = x.
Proof.
  intros Pa Pp E Y. refine (texec_stable_all (leaves part) env rstep robs (fun s => part (RelayWorld.db s) = x) _ w w' t r E _ _ Y); [intros B o s b s' K St <-; exact (K _ _ _ St)|].
  unfold handle_session, rwith_identity. apply prog_all_bind; [by apply prog_all_act, quiet_leaves|]. intros n. destruct (browser_http_identity _ _ _ _); [by apply handler_leaves|done].
Qed.

(** C4. The session API serves the caller's own data.  Every route first establishes the identity from the headers of the trusted
    proxy, and otherwise answers with that error and does nothing else.  The rows in an answer were in the tables at one instant, to which only the steps
    of other tasks led from the start of the request: the list shows only sessions of live devices of the user, with the archive state asked for; a
    receipt is the one the path names, and a list of receipts those of the session of the path, all of the user.  A query leaves at most once, about the session of the path
    and for its device, after that session was read, the database named the user as the owner of the live device, and the device
    was online; the result of a Bridge is answered only after such a query.  Only a patch of a session writes, after the same two reads, and no
    other session and no receipt is touched by it: what the other tasks leave alone is the same afterwards. *)
Theorem session_api_isolated (config : Config.t) (peer : IpAddr) (headers : HeaderMap) (route : SessionRoute) (w w' : RelayWorld.t) (t : list RObs) (r : SReply) :
  run (handle_session config peer headers route) w t (Some r) w' ->
  exists now t', t = Clock now :: t' /\
    match browser_http_identity config peer headers now with
    | Err e => r = Refused e /\ t' = []
    | Ok ident => isolated (BrowserHttpIdentity.owner_id ident) route w t' r w'
    end /\
    (forall id row, (forall body, route <> PatchRoute id body) ->
       (forall s s', env s s' -> RelayDb.sessions (RelayWorld.db s) !! id = row -> RelayDb.sessions (RelayWorld.db s') !! id = row) ->
       RelayDb.sessions (RelayWorld.db w) !! id = row -> RelayDb.sessions (RelayWorld.db w') !! id = row) /\
    (forall id receipt,
       (forall s s', env s s' -> RelayDb.receipts (RelayWorld.db s) !! id = receipt -> RelayDb.receipts (RelayWorld.db s') !! id = receipt) ->
       RelayDb.receipts (RelayWorld.db w) !! id = receipt -> RelayDb.receipts (RelayWorld.db w') !! id = receipt).
Proof.
  unfold handle_session, rwith_identity. intros X. pose proof X as Y. apply texec_first in X as (w1 & now & w2 & t' & L1 & [_ ->] & X & ->). exists now, t'. split; [done|]. split_and!.
  - destruct (browser_http_identity _ _ _ _) as [ident|e]; [|by texec_inv]. apply session_handler_trace in X. by eapply isolated_earlier.
  - intros id row N E. refine (handle_session_leaves (fun db => RelayDb.sessions db !! id) row _ _ _ _ _ _ _ _ _ _ E Y); [done|].
    intros i body -> p m a n db. unfold patch_prefs. destruct (RelayDb.sessions db !! i); [|done]. apply lookup_insert_ne. intros ->. by destruct (N body).
  - intros id receipt E. refine (handle_session_leaves (fun db => RelayDb.receipts db !! id) receipt _ _ _ _ _ _ _ _ _ _ E Y); [done|].
    intros i body _ p m a n db. unfold patch_prefs. by destruct (RelayDb.sessions db !! i).
Qed.
End SessionTraces.
