(* ===== verification/RelayDemo.v ===== *)
(** * The Relay's handlers on concrete inputs: witnesses, and behaviours worth knowing *)

From Stdlib Require Import Ascii.
From S2P Require Import Prelude Transfers.
From S2P Require Import Prog Bytes RustStr Proto Messages Buffer BufferProps Stream StreamProps Hub HubProps HubDelivery HubDemo RelayBase Auth Pairing RelayStore RelayOps RelayCommands RelayCommandProps RelaySessions RelayStoreProps.

Module RelayDemo.
Export HubDemo.

#[global] Instance crates : AuthCrates :=
  {| uuid_of := fun s => if str_all uuid_char s then Some s else None; rfc3339_of := parse_u64; base64_decode := fun s => Some (String.list_byte_of_string s) |}.
#[global] Instance store_crates : StoreCrates := {|
  connection_name := fun _ => None; control_mode_name := fun _ => None; compatibility_name := fun _ => None; turn_phase_name := fun _ => None;
  queue_state_name := fun _ => None; turn_outcome_name := fun _ => None; attention_kind_name := fun _ => None; operation_name_of := fun _ => None;
  timestamp_of := fun _ => None; rfc3339 := pretty; base64_encode := String.string_of_list_byte |}.
#[global] Instance sha : Sha256 := fun s => "#" +:+ s.
#[global] Instance wire : RequestWire := {| encode_command := fun r => String.list_byte_of_string (pb.CommandRequest.request_id r +:+ pretty (pb.CommandRequest.operation r)); encode_query := fun _ => [] |}.

#[global] Instance cursor_laws : CursorLaws.
Proof.
  split.
  - intros b. simpl. by rewrite String.list_byte_of_string_of_list_byte.
  - intros t T. apply parse_u64_pretty_Z. unfold is_u64, u64_max, YEAR_10000 in *. lia.
  - intros t T. eapply str_all_impl; [exact digit_graphic|]. apply pretty_Z_digits. lia.
  - intros s u. simpl. destruct (str_all uuid_char s) eqn:E; [|done]. intros X. injection X as <-. by rewrite E.
Defined.

(** ** Running one task alone, at one instant, with a database that answers *)

Definition eval_op (now : Z) {B : Type} (o : rop B) (w : RelayWorld.t) : B * RelayWorld.t :=
  match o in rop B return B * RelayWorld.t with
  | Utc => (now, w)
  | NewRequestId => ("q", w)
  | HubAsk q => (answer q now (RelayWorld.hub w), w)
  | Fetch q => (Some (select q (RelayWorld.db w)), w)
  | HubTake o f => (f now (RelayWorld.hub w), RelayWorld.with_hub (hub_step now o (RelayWorld.hub w)) w)
  | ForwardCommand device id body =>
      let '(g, sent) := send_to_bridge_locked (RelayWorld.hub w) device (command_env device id body) in
      (sent, RelayWorld.with_hub g (RelayWorld.with_forwarded (RelayWorld.forwarded w ++ if sent then [id] else []) w))
  | SendBridge device env => let '(g, sent) := send_to_bridge_locked (RelayWorld.hub w) device env in (sent, RelayWorld.with_hub g w)
  | PushTo conn env =>
      (tt, RelayWorld.with_hub (HubInner.with_outboxes
        (alter (fun o => (push_direct o (encode_direct env)).1) conn (HubInner.outboxes (RelayWorld.hub w))) (RelayWorld.hub w)) w)
  | InsertReceipt id owner session operation digest =>
      let '(a, db) := insert_receipt id owner session operation digest now (RelayWorld.db w) in (a, RelayWorld.with_db db w)
  | Store s => let '(a, db) := s now (RelayWorld.db w) in (a, RelayWorld.with_db db w)
  | CleanReceipts =>
      let db' := (delete_old_receipts now (RelayWorld.db w)).2 in
      (Some tt, RelayWorld.with_removed (RelayWorld.removed w ++ cleaned (RelayWorld.db w) db') (RelayWorld.with_db db' w))
  | AwaitResponse _ => (None, w)
  end.

Lemma eval_op_step (now : Z) (B : Type) (o : rop B) (w : RelayWorld.t) : rstep B o w (Some (eval_op now o w).1) (eval_op now o w).2.
Proof.
  destruct o; cbn [rstep eval_op]; try done; try (by eexists).
  - split; [by left|done].
  - by destruct (send_to_bridge_locked _ _ _).
  - by destruct (send_to_bridge_locked _ _ _).
  - exists now. left. by destruct (insert_receipt _ _ _ _ _ _ _).
  - exists now. left. by destruct (s _ _).
  - exists now. by left.
Qed.

Fixpoint eval (now : Z) {A : Type} (p : rprog A) (w : RelayWorld.t) : A * list RObs * RelayWorld.t :=
  match p with
  | Ret a => (a, [], w)
  | @Act _ _ B o k => let '(a, t, w') := eval now (k (eval_op now o w).1) (eval_op now o w).2 in (a, robs B o (eval_op now o w).1 ++ t, w')
  end.

Lemma eval_run (now : Z) (env : RelayWorld.t -> RelayWorld.t -> Prop) {A : Type} (p : rprog A) (w : RelayWorld.t) :
  texec env rstep robs p w (eval now p w).1.2 (Some (eval now p w).1.1) (eval now p w).2.
Proof.
  revert w. induction p as [a|B o k IH]; intros w; [done|]. cbn [eval texec].
  exists w, (Some (eval_op now o w).1), (eval_op now o w).2. split_and!; [constructor|apply eval_op_step|].
  specialize (IH (eval_op now o w).1 (eval_op now o w).2). destruct (eval now (k _) _) as [[a t] w']. by exists t.
Qed.

Lemma eval_pool (now : Z) (p : rprog unit) (l1 l2 : list (rprog unit)) (w : RelayWorld.t) :
  rtc (pool_step relay_env rstep relay_task) (l1 ++ p :: l2, w) (l1 ++ Ret tt :: l2, (eval now p w).2).
Proof.
  revert w. induction p as [[]|B o k IH]; intros w; [constructor|]. cbn [eval].
  eapply rtc_l; [apply (pool_act _ _ _ l1 l2 B o k w (eval_op now o w).2 (eval_op now o w).1), eval_op_step|].
  specialize (IH (eval_op now o w).1 (eval_op now o w).2). by destruct (eval now (k _) _) as [[a t] w'].
Qed.

(** ** A browser [c] of the user [a], and a device [d] of theirs with one session [5] *)

Definition device : Device.t := Device.mk "a" "mac" "macos" "arm64" "1" "#t" 0 None None "" "" false.
Definition row (title : string) (updated : Z) : SessionRow.t :=
  SessionRow.mk "d" "ZCODE_DESKTOP" "n" title "" "" "" None "" "" "" "" 0 [] "" "" 0 updated true false false.
Definition tables : RelayDb.t := RelayDb.mk (Db.mk ∅ {["d" := device]} []) {["5" := row "t" 7]} ∅.

Definition hub : HubInner.t :=
  foldl (fun g op => hub_step 0 op g) HubInner.default
    [RegisterBridge "d" "a" (Sink.mk 8 [] false); RegisterBrowser "c" (BrowserIdentity.mk "s" "a" 1000) (Outbox.new 16 1000)].
Definition start : RelayWorld.t := RelayWorld.mk hub tables [] [].

Definition key (native : string) : pb.SessionKey.t := pb.SessionKey.mk "d" 2 native "5".
Definition command (id : string) : pb.CommandRequest.t := pb.CommandRequest.mk id 1 (Some (key "n")) None None "" None.
Definition submit_again (id : string) : rprog unit := on_browser_command "c" (command id).
Definition sent : unit * list RObs * RelayWorld.t := eval 10 (submit_again "r") start.

(** The command is handed to the Bridge once; sending it again, now or by another task, repeats the state of its receipt. *)
Definition twice : RelayWorld.t := (eval 11 (submit_again "r") sent.2).2.

Lemma forwarded_once_witness :
  rtc (pool_step relay_env rstep relay_task) ([], start) ([Ret tt; Ret tt], twice) /\ RelayWorld.forwarded twice = ["r"] /\
  count "r" (RelayWorld.forwarded twice) <= count "r" (RelayWorld.removed twice) + 1.
Proof.
  assert (R : rtc (pool_step relay_env rstep relay_task) ([], start) ([Ret tt; Ret tt], twice)).
  { eapply rtc_l; [apply (pool_spawn _ _ _ [] (submit_again "r")), CommandTask|].
    etrans; [apply (eval_pool 10 _ [] [])|].
    eapply rtc_l; [apply (pool_spawn _ _ _ _ (submit_again "r")), CommandTask|]. apply (eval_pool 11 _ [] [Ret tt]). }
  split; [exact R|]. split; [vm_compute; reflexivity|]. by apply (forwarded_once start [Ret tt; Ret tt] twice "r").
Defined.

Lemma command_guarded_witness : Handed "d" "r" true ∈ sent.1.2 /\ exists ident now session target rest,
  now < BrowserIdentity.expires_at ident /\ targeted (BrowserIdentity.owner_id ident) (command "r") "d" session target /\
  sent.1.2 = admitted "c" ident now ++ target ++
     [Inserted "r" (BrowserIdentity.owner_id ident) session (receipt_operation (command "r")) (canonical_browser_command_digest (command "r")) (Some true);
      Section_ (RegisterCommand "r" "c" "d" (receipt_operation (command "r"))); Handed "d" "r" true] ++ rest.
Proof.
  assert (I : Handed "d" "r" true ∈ sent.1.2) by (vm_compute; do 9 apply list_elem_of_further; apply list_elem_of_here).
  split; [exact I|]. destruct (command_guarded (fun _ _ => False) "c" (command "r") start sent.2 sent.1.2 "d" "r" true) as (ident & now & session & target & rest & _ & L & T & E & _).
  - exact (eval_run 10 _ (submit_again "r") start).
  - exact I.
  - exists ident, now, session, target, rest. by split_and!.
Defined.

Lemma relay_command_answered_witness : answered "c" "r" sent.1.2 /\ answers sent.1.2 = [].
Proof.
  split; [|vm_compute; reflexivity]. apply (relay_command_answered (fun _ _ => False) "c" (command "r") start sent.2). exact (eval_run 10 _ (submit_again "r") start).
Defined.

(** ** The list, page by page *)

Definition many : RelayDb.t := RelayDb.with_sessions {["5" := row "t" 7; "6" := row "u" 9; "7" := row "v" 7]} tables.

Lemma many_ok : rows_ok many.
Proof.
  unfold rows_ok, many. cbn [RelayDb.sessions RelayDb.with_sessions].
  repeat (apply map_Forall_insert_2; [split; [reflexivity|by vm_compute]|]). apply map_Forall_empty.
Qed.

Lemma list_sessions_complete_witness : exists rows,
  read_list 4 "a" (Some 1) None None many = Some rows /\ map fst rows = ["6"; "7"; "5"] /\
  forall id r, (id, r) ∈ rows <-> RelayDb.sessions many !! id = Some r /\ visible "a" None many r = true.
Proof.
  destruct (list_sessions_complete "a" (Some 1) None many many_ok) as (rows & R & _ & _ & E). exists rows.
  split_and!; [exact R| |exact E]. vm_compute in R. by injection R as <-.
Defined.

(** ** Summaries *)

Lemma upsert_one_row_witness : exists db',
  upsert_summary "6" (fun now => SessionRow.with_prefs false false false (row "new" now)) 9 tables = (Some tt, db') /\ unique_keys db' /\
  (SessionRow.title <$> RelayDb.sessions db' !! "5") = Some "new" /\ (SessionRow.pinned <$> RelayDb.sessions db' !! "5") = Some true.
Proof.
  eexists. split; [vm_compute; reflexivity|]. split; [|split; vm_compute; reflexivity].
  refine (proj1 (upsert_one_row "6" (fun now => SessionRow.with_prefs false false false (row "new" now)) 9 tables _ _ _)); [|vm_compute; reflexivity].
  intros i j a b. simpl. rewrite !lookup_singleton_Some. by intros [<- _] [<- _].
Defined.

(** ** A query *)

Definition config : Config.t := Config.mk [NetV4 2130706432 8] 60000 120000 45000.
Definition headers : HeaderMap := fun name => if bool_decide (name = HDR_SESSION) then Some "5" else if bool_decide (name = HDR_OWNER) then Some "a" else None.
Definition asked : SReply * list RObs * RelayWorld.t := eval 10 (handle_session config (V4 2130706433) headers (GitRoute "5")) start.

Definition rows_listed : SReply * list RObs * RelayWorld.t := eval 10 (handle_session config (V4 2130706433) headers (ListRoute (ListQuery.mk None None None))) start.

Lemma session_api_isolated_witness :
  (exists t', asked.1.2 = Clock 10 :: t' /\ query_guarded "a" (GitRoute "5") t' /\
    Queried "d" (query_env "d" "q" (pb.QueryRequest.mk (Some (pb.SessionKey.mk "d" 1 "n" "5")) (Some (pb.QueryRequest.GitSummary pb.GitSummaryQuery.mk)))) true ∈ t') /\
  exists rows, rows_listed.1.1 = Sessions rows None /\ map fst rows = ["5"] /\
    rows_served (fun _ _ => False) "a" (ListRoute (ListQuery.mk None None None)) start (Sessions rows None) rows_listed.2.
Proof.
  split.
  - destruct (session_api_isolated (fun _ _ => False) config (V4 2130706433) headers (GitRoute "5") start asked.2 asked.1.2 asked.1.1)
      as (now & t' & E & I & _); [exact (eval_run 10 _ _ start)|].
    assert (now = 10) as -> by (vm_compute in E; by injection E). exists t'. split; [exact E|]. split.
    + vm_compute (browser_http_identity _ _ _ _) in I. exact (proj1 I).
    + vm_compute in E. injection E as <-. vm_compute. do 4 apply list_elem_of_further. apply list_elem_of_here.
  - destruct (session_api_isolated (fun _ _ => False) config (V4 2130706433) headers (ListRoute (ListQuery.mk None None None)) start rows_listed.2 rows_listed.1.2 rows_listed.1.1)
      as (now & t' & E & I & _); [exact (eval_run 10 _ _ start)|].
    assert (now = 10) as -> by (vm_compute in E; by injection E). vm_compute (browser_http_identity _ _ _ _) in I.
    destruct I as (_ & _ & _ & S). assert (L : exists rows, rows_listed.1.1 = Sessions rows None /\ map fst rows = ["5"]) by (eexists; split; vm_compute; reflexivity).
    destruct L as (rows & L & F). exists rows. split; [exact L|]. split; [exact F|]. rewrite L in S. exact S.
Defined.

(** ** Behaviours worth knowing *)

(** A query over HTTP names the session of Codex with the native id, whatever program the session is of. *)
Lemma zcode_session_asked_as_codex :
  SessionRow.agent_kind (row "t" 7) = agent_kind_name 2 /\
  Queried "d" (query_env "d" "q" (pb.QueryRequest.mk (Some (pb.SessionKey.mk "d" 1 "n" "5")) (Some (pb.QueryRequest.GitSummary pb.GitSummaryQuery.mk)))) true ∈ asked.1.2.
Proof. split; [reflexivity|]. vm_compute. do 5 apply list_elem_of_further. apply list_elem_of_here. Qed.

Definition other_device : RelayDb.t :=
  RelayDb.with_base (Db.with_devices {["d" := device; "e" := Device.mk "b" "pc" "macos" "arm64" "1" "#u" 0 None None "" "" false]} (RelayDb.base tables)) tables.
Definition foreign_key : pb.SessionKey.t := pb.SessionKey.mk "e" 1 "n" "".
Definition foreign_summary : pb.SessionSummary.t :=
  pb.SessionSummary.mk (Some foreign_key) "mine" 1 "" "" None 0 None "" 0 0 0 0 [] 0 0 false false false.

(** A batch from the Bridge of [d] that names the device [e] of another user writes a session of [e]. *)
Lemma summaries_of_another_device :
  match run_statements (batch_statements ["8"] "d" (pb.SessionSummaryBatch.mk [foreign_summary] true)) 9 other_device with
  | (Some _, db) => visible "b" None db <$> RelayDb.sessions db !! "8"
  | (None, _) => None
  end = Some true.
Proof. vm_compute. reflexivity. Qed.

(** The same request id with another payload is refused; nothing is forwarded. *)
Lemma other_payload_refused :
  let w := (eval 11 (on_browser_command "c" (pb.CommandRequest.mk "r" 2 (Some (key "n")) None None "" None)) sent.2) in
  RelayWorld.forwarded w.2 = ["r"] /\
  omap (fun x => match Envelope.payload x.2 with Some (CommandResultPayload r) => Some (CommandResult.error_code r) | _ => None end) (answers w.1.2) =
    [pb.StableErrorCode.as_i32 pb.StableErrorCode.DuplicateRequestMismatch].
Proof. vm_compute. split; reflexivity. Qed.
End RelayDemo.
