(* ===== verification/Sockets.v ===== *)
(** * The WebSockets of the Relay ([auth/browser_ws.rs], [devices/bridge_ws.rs])

    A connection from its first message to the removal of its entry in the hub: the handshake, the task that writes, the
    loop that reads, and the end of both.  The handlers the loops call are the programs of [RelayCommands], embedded as
    they are.  The network, the timers and the ends of the other task answer from the environment.  Times are milliseconds;
    the loops run for any number of rounds. *)

From S2P Require Import Prelude Prog Bytes RustStr Proto Messages Buffer Stream Hub HubProps RelayBase Auth Pairing RelayStore RelayOps RelayCommands RelayCommandProps RelayDemo.

Definition BROWSER_QUEUE_MAX_FRAMES : Z := 2048.
Definition BRIDGE_QUEUE_MAX_FRAMES : nat := 1024.
Definition WRITER_CLOSE_BUDGET : Z := 500.

(** What is sent: the envelopes of a handshake, encoded bytes, or a control frame. *)
Inductive WsOut :=
| WsHello (accepted_protocol_version : Z) (capabilities : list string)
| WsError (code : pb.StableErrorCode.t) (message : string)
| WsBytes (bytes : list byte)
| WsPong (payload : list byte)
| WsClose (code : Z) (reason : string).

#[global] Instance WsOut_eq_dec : EqDecision WsOut.
Proof. solve_decision. Defined.

(** ** The task that writes to a browser *)

(** What its [select!] finds ready: an item or the end of the queue, a control frame or the end of their channel, or the
    signal to stop. *)
Inductive WriterEvent :=
| TookItem (item : option OutItem)
| TookControl (message : option WsOut)
| Cancelled.

Inductive WriteOutcome := Written | WriteFailed | WriteTimedOut.

#[global] Instance WriteOutcome_eq_dec : EqDecision WriteOutcome.
Proof. solve_decision. Defined.

Inductive writer_op : Type -> Type :=
| WriterNext : writer_op WriterEvent
| BoundedSend (message : WsOut) : writer_op WriteOutcome
| CountTimeout : writer_op unit
| FinalSend (budget : Z) (message : WsOut) : writer_op unit.

Notation wprog := (prog writer_op).

Section Writer.
Context `{Prost}.

Definition write_bounded (message : WsOut) : wprog bool :=
  do outcome <- act (BoundedSend message);
  match outcome with
  | Written => Ret true
  | WriteFailed => Ret false
  | WriteTimedOut => perform act CountTimeout; Ret false
  end.

(** [None]: the fuel is used up. *)
Fixpoint browser_writer (fuel : nat) : wprog (option unit) :=
  match fuel with
  | O => Ret None
  | S fuel =>
      let write message := (do ok <- write_bounded message; if ok : bool then browser_writer fuel else Ret (Some tt)) in
      do event <- act WriterNext;
      match event with
      | TookItem (Some (OutFrame frame)) => match encoded frame with None => Ret (Some tt) | Some bytes => write (WsBytes bytes) end
      | TookItem (Some (OutDirect bytes)) => write (WsBytes bytes)
      | TookItem (Some (OutClose reason)) => perform write_bounded (WsClose 1008 reason); Ret (Some tt)
      | TookItem None => Ret (Some tt)
      | TookControl None => browser_writer fuel
      | TookControl (Some message) => write message
      | Cancelled => perform act (FinalSend WRITER_CLOSE_BUDGET (WsClose 1001 "SERVER_CLOSED")); Ret (Some tt)
      end
  end.
End Writer.

(** ** What the handlers of a browser's messages do *)

Definition protocol_error_env (code : pb.StableErrorCode.t) (message : string) : Envelope.t :=
  base_envelope "" (ProtocolError (pb.StableErrorCode.as_i32 code) message "" "").

Definition send_protocol_error (conn_id : Uuid) (code : pb.StableErrorCode.t) (message : string) : rprog unit :=
  do present <- ask (HasOutbox conn_id);
  if present : bool then act (PushTo conn_id (protocol_error_env code message)) else Ret tt.

(** [browser_subscribe]: it holds the lock twice.  [ids]: what a stream is called that is new in either of them. *)
Definition browser_subscribe (ids : string * string) (conn_id : Uuid) (key : DKey) (needs : list (Uuid * TargetTag.t)) (correlation : string) : rprog unit :=
  perform section (SubscribeBind ids.1 conn_id key needs);
  section (SubscribeAttach ids.2 conn_id key correlation).

(** ** The connections *)

(** What the reading loop of a browser finds ready. *)
Inductive BrowserEvent :=
| BrowserBinary (decoded : option (string * string * pb.CommandRequest.t * Envelope.t))
| BrowserPing (payload : list byte)
| BrowserOther
| BrowserEnd
| WriterEnded.

(** What the loop of a Bridge finds ready; a message and a check of the silence with the time. *)
Inductive BridgeEvent :=
| BridgeBinary (now : Z) (decoded : option (list Uuid * Envelope.t * pb.SessionSummaryBatch.t))
| BridgePing (now : Z) (payload : list byte)
| BridgeOther (now : Z)
| BridgeEnd
| HeartbeatTick
| CheckTick (now : Z)
| CloseChanged (closed : bool).

(** [SJoinWriter]: wait for the writing task, up to a budget.  [SControl] waits for a place in the channel,
    [STryControl] gives up when there is none. *)
Inductive sop : Type -> Type :=
| SRelay {B : Type} (o : rop B) : sop B
| SFirst : sop FirstMessage
| SSend (message : WsOut) : sop bool
| SNow : sop Z
| SSpawnWriter : sop unit
| SBrowserNext : sop BrowserEvent
| SBridgeNext : sop BridgeEvent
| SControl (message : WsOut) : sop unit
| STryControl (message : WsOut) : sop unit
| SCancelWriter : sop unit
| SJoinWriter (budget : Z) : sop unit
| SSleep (duration : Z) : sop unit.

Notation sprog := (prog sop).

Section BrowserHandlers.
Context `{StoreCrates} `{AuthCrates} `{Sha256} `{RequestWire} `{UuidParse} `{Prost}.

Definition on_browser_subscribe (ids : string * string) (conn_id : Uuid) (target : option Target) (correlation : string) : rprog unit :=
  do ident <- ask (IdentityOf conn_id);
  match ident, target with
  | None, _ | _, None => Ret tt
  | Some ident, Some ListTarget =>
      let owner := BrowserIdentity.owner_id ident in
      do devices <- ask (OnlineDevices owner);
      browser_subscribe ids conn_id (owner, TargetTag.List) (map (fun d => (d, TargetTag.List)) devices) correlation
  | Some ident, Some (SessionTarget key) =>
      let owner := BrowserIdentity.owner_id ident in
      match parse_uuid (SessionKey.device_id key) with
      | None => send_protocol_error conn_id pb.StableErrorCode.SessionNotFound "会话不存在"
      | Some device =>
          do owned <- fetch (OwnedDevice device owner);
          if negb (default false owned) then send_protocol_error conn_id pb.StableErrorCode.SessionNotFound "会话不存在"
          else
            do online <- ask (IsOnline device);
            if negb online then send_protocol_error conn_id pb.StableErrorCode.DeviceOffline "设备离线"
            else
              let tag := TargetTag.Session device (SessionKey.agent_kind key) (SessionKey.native_session_id key) in
              browser_subscribe ids conn_id (owner, tag) [(device, tag)] correlation
      end
  end.

(** [request]: what the body of a command is read as. *)
Definition handle_browser_envelope (ids : string * string) (request : pb.CommandRequest.t) (conn_id : Uuid) (env : Envelope.t) : rprog unit :=
  match Envelope.payload env with
  | Some (Subscribe target) => on_browser_subscribe ids conn_id target (Envelope.correlation_id env)
  | Some (Unsubscribe stream_id) => section (UnsubscribeFrom conn_id stream_id)
  | Some (Ack stream_id sequence) => section (AckSequence conn_id stream_id sequence)
  | Some (ResyncRequest stream_id) => section (ResyncStream conn_id stream_id (Envelope.correlation_id env))
  | Some (CommandRequest _ _) => on_browser_command conn_id request
  | Some Heartbeat =>
      do present <- ask (HasOutbox conn_id);
      if present : bool then act (PushTo conn_id (base_envelope "" HeartbeatAck)) else Ret tt
  | Some (ClientHello _) | Some (ServerHello _) => Ret tt
  | _ => send_protocol_error conn_id pb.StableErrorCode.InternalError "不支持的消息类型"
  end.

(** A handler, called from a connection. *)
Definition relay {A : Type} (p : rprog A) : sprog A := prog_map (fun B o => SRelay o) p.

Definition HELLO_REFUSED : WsOut := WsError pb.StableErrorCode.InternalError "协议版本或握手不匹配".
Definition BROWSER_HELLO : WsOut := WsHello PROTOCOL_VERSION ["list"; "session"; "query"; "command"].
Definition BRIDGE_HELLO : WsOut := WsHello PROTOCOL_VERSION [].

(** Whether the writing task ended first. *)
Fixpoint browser_loop (fuel : nat) (conn_id : Uuid) : sprog (option bool) :=
  match fuel with
  | O => Ret None
  | S fuel =>
      do event <- act SBrowserNext;
      match event with
      | BrowserBinary (Some (ids, request, env)) => perform relay (handle_browser_envelope ids request conn_id env); browser_loop fuel conn_id
      | BrowserBinary None => perform relay (send_protocol_error conn_id pb.StableErrorCode.InternalError "无法解码消息"); browser_loop fuel conn_id
      | BrowserPing payload => perform act (STryControl (WsPong payload)); browser_loop fuel conn_id
      | BrowserOther => browser_loop fuel conn_id
      | BrowserEnd => Ret (Some false)
      | WriterEnded => Ret (Some true)
      end
  end.

Definition browser_connection (fuel : nat) (ident : BrowserIdentity.t) (conn_id : Uuid) : sprog (option unit) :=
  do first <- act SFirst;
  if negb (browser_hello_ok first) then
    perform act (SSend HELLO_REFUSED);
    perform act (SSend (WsClose 1002 "PROTOCOL_VERSION_MISMATCH"));
    Ret (Some tt)
  else
    do greeted <- act (SSend BROWSER_HELLO);
    if negb greeted then Ret (Some tt)
    else
      perform relay (section (RegisterBrowser conn_id ident (Outbox.new BROWSER_QUEUE_MAX_FRAMES BROWSER_QUEUE_MAX_BYTES)));
      perform act SSpawnWriter;
      do ended <- browser_loop fuel conn_id;
      match ended with
      | None => Ret None
      | Some writer_done =>
          perform act SCancelWriter;
          perform (if writer_done : bool then Ret tt else act (SJoinWriter (WRITER_CLOSE_BUDGET * 3)));
          perform relay (section (RemoveBrowser conn_id));
          Ret (Some tt)
      end.

(** [bridge_session]: why its loop ends. *)
Inductive SessionEnded := Revoked | Offline | Broken.

Definition close_reason (e : SessionEnded) : string :=
  match e with Revoked => "DEVICE_REVOKED" | Offline => "DEVICE_OFFLINE" | Broken => "INTERNAL_ERROR" end.

Fixpoint bridge_loop (config : Config.t) (fuel : nat) (device : Uuid) (last_rx : Z) : sprog (option SessionEnded) :=
  match fuel with
  | O => Ret None
  | S fuel =>
      do event <- act SBridgeNext;
      match event with
      | BridgeBinary now (Some (ids, env, batch)) => perform relay (handle_bridge_envelope_task ids device env batch); bridge_loop config fuel device now
      | BridgeBinary now None => bridge_loop config fuel device now
      | BridgePing now payload => perform act (SControl (WsPong payload)); bridge_loop config fuel device now
      | BridgeOther now => bridge_loop config fuel device now
      | BridgeEnd => Ret (Some Broken)
      | HeartbeatTick =>
          do sent <- relay (act (SendBridge device (base_envelope device Heartbeat)));
          if negb sent then Ret (Some Broken) else bridge_loop config fuel device last_rx
      | CheckTick now => if Config.offline_after config <? now - last_rx then Ret (Some Offline) else bridge_loop config fuel device last_rx
      | CloseChanged closed => if closed : bool then Ret (Some Revoked) else bridge_loop config fuel device last_rx
      end
  end.

Definition bridge_session (config : Config.t) (fuel : nat) (device owner : Uuid) : sprog (option unit) :=
  perform relay (bridge_connected device owner (Sink.mk BRIDGE_QUEUE_MAX_FRAMES [] false));
  do start <- act SNow;
  do ended <- bridge_loop config fuel device start;
  match ended with
  | None => Ret None
  | Some e =>
      perform act (SControl (WsClose 1008 (close_reason e)));
      perform act (SSleep 100);
      perform relay (bridge_disconnected device owner);
      Ret (Some tt)
  end.

Definition bridge_connection (config : Config.t) (fuel : nat) (device owner : Uuid) : sprog (option unit) :=
  do first <- act SFirst;
  match bridge_handshake device first with
  | Err reason =>
      perform act (SSend HELLO_REFUSED);
      perform act (SSend (WsClose 1002 reason));
      Ret (Some tt)
  | Ok _ =>
      perform act (SSend BRIDGE_HELLO);
      perform act SSpawnWriter;
      bridge_session config fuel device owner
  end.
End BrowserHandlers.

(** ** The task that writes to a Bridge *)

Inductive BridgeWriterEvent :=
| TookBytes (bytes : option (list byte))
| TookBridgeControl (message : option WsOut).

Inductive bwop : Type -> Type :=
| BridgeWriterNext : bwop BridgeWriterEvent
| PlainSend (message : WsOut) : bwop bool
| BridgeWriterSleep (duration : Z) : bwop unit.

Fixpoint bridge_writer (fuel : nat) : prog bwop (option unit) :=
  match fuel with
  | O => Ret None
  | S fuel =>
      let write message := (do ok <- act (PlainSend message); if ok : bool then bridge_writer fuel else Ret (Some tt)) in
      do event <- act BridgeWriterNext;
      match event with
      | TookBytes (Some bytes) => write (WsBytes bytes)
      | TookBytes None => Ret (Some tt)
      | TookBridgeControl (Some message) => write message
      | TookBridgeControl None => perform act (BridgeWriterSleep 200); bridge_writer fuel
      end
  end.

(** ** What a browser is written *)

Module WriterWorld.
Record t := mk {
  outbox : Outbox.t;
  cancelled : bool;
}.
End WriterWorld.

Section WriterProps.
Context `{Prost}.

(** What the other tasks do to the queue. *)
Definition outbox_change (o o' : Outbox.t) : Prop :=
  (exists frame, o' = (push_frame o frame).1) \/ (exists bytes, o' = (push_direct o bytes).1) \/ exists reason, o' = close o reason.

Definition wenv (w w' : WriterWorld.t) : Prop :=
  (exists o, outbox_change (WriterWorld.outbox w) o /\ w' = WriterWorld.mk o (WriterWorld.cancelled w)) \/
  w' = WriterWorld.mk (WriterWorld.outbox w) true.

Definition writing_step (B : Type) (o : writer_op B) (w : WriterWorld.t) : option B -> WriterWorld.t -> Prop :=
  match o in writer_op B return option B -> WriterWorld.t -> Prop with
  | WriterNext => fun b w' =>
      match b with
      | Some (TookItem (Some item)) => exists o, recv (WriterWorld.outbox w) = (o, Item item) /\ w' = WriterWorld.mk o (WriterWorld.cancelled w)
      | Some (TookItem None) => recv (WriterWorld.outbox w) = (WriterWorld.outbox w, Ended) /\ w' = w
      | Some (TookControl message) => (message = None \/ exists payload, message = Some (WsPong payload)) /\ w' = w
      | Some Cancelled => WriterWorld.cancelled w = true /\ w' = w
      | None => False
      end
  | _ => fun b w' => b <> None /\ w' = w
  end.

Inductive WObs :=
| Took (event : WriterEvent)
| Put (message : WsOut) (outcome : WriteOutcome)
| PutLast (message : WsOut).

Definition wobs (B : Type) (o : writer_op B) : B -> list WObs :=
  match o in writer_op B return B -> list WObs with
  | WriterNext => fun event => [Took event]
  | BoundedSend message => fun outcome => [Put message outcome]
  | CountTimeout => fun _ => []
  | FinalSend _ message => fun _ => [PutLast message]
  end.

Notation wexec := (texec wenv writing_step wobs).

(** What an item is written as. *)
Definition image (item : OutItem) : option WsOut :=
  match item with
  | OutFrame frame => WsBytes <$> encoded frame
  | OutDirect bytes => Some (WsBytes bytes)
  | OutClose reason => Some (WsClose 1008 reason)
  end.

Definition taken : list WObs -> list OutItem := omap (fun x => match x with Took (TookItem item) => item | _ => None end).

(** The messages that are written, without the answers to pings. *)
Definition data : list WObs -> list WsOut :=
  omap (fun x => match x with Put (WsPong _) _ => None | Put message _ => Some message | _ => None end).

Definition is_close (m : WsOut) : bool := match m with WsClose _ _ => true | _ => false end.

(** The runs of the writer: an item at a time, up to a failure, a close or the end. *)
Inductive writes : list WObs -> Prop :=
| writes_open : writes []
| writes_end : writes [Took (TookItem None)]
| writes_cancelled : writes [Took Cancelled; PutLast (WsClose 1001 "SERVER_CLOSED")]
| writes_unencoded frame : encoded frame = None -> writes [Took (TookItem (Some (OutFrame frame)))]
| writes_lost item message outcome : image item = Some message -> outcome <> Written -> writes [Took (TookItem (Some item)); Put message outcome]
| writes_closed reason outcome : writes [Took (TookItem (Some (OutClose reason))); Put (WsClose 1008 reason) outcome]
| writes_item item message t :
    image item = Some message -> is_close message = false -> writes t -> writes (Took (TookItem (Some item)) :: Put message Written :: t)
| writes_silent t : writes t -> writes (Took (TookControl None) :: t)
| writes_pong payload t : writes t -> writes (Took (TookControl (Some (WsPong payload))) :: Put (WsPong payload) Written :: t)
| writes_pong_lost payload outcome : outcome <> Written -> writes [Took (TookControl (Some (WsPong payload))); Put (WsPong payload) outcome].

Lemma wstep_next {A B} (o : writer_op B) (k : B -> wprog A) (w w' : WriterWorld.t) (t : list WObs) (a : option A) :
  wexec (Act o k) w t a w' -> exists w1 b w2 t', rtc wenv w w1 /\ writing_step B o w1 (Some b) w2 /\ wexec (k b) w2 t' a w' /\ t = wobs B o b ++ t'.
Proof.
  intros (w1 & [b|] & w2 & R & St & X); [destruct X as (t' & X & ->); by exists w1, b, w2, t'|].
  exfalso. destruct o; simpl in St; first [done|by destruct St].
Qed.

Ltac writer_next H := let w1 := fresh "w" in let b := fresh "b" in let w2 := fresh "w" in let t' := fresh "t" in let R := fresh "R" in let St := fresh "St" in
  cbn [prog_bind act write_bounded] in H; apply wstep_next in H as (w1 & b & w2 & t' & R & St & H & ->); cbn [wobs app] in *.

(** One bounded write: the message and how it went; only after a success the loop goes on. *)
Lemma bounded_run {A} (message : WsOut) (k : bool -> wprog A) (w w' : WriterWorld.t) (t : list WObs) (a : option A) :
  wexec (prog_bind (write_bounded message) k) w t a w' ->
  exists outcome w1 t', t = Put message outcome :: t' /\ wexec (k (bool_decide (outcome = Written))) w1 t' a w' /\ (rtc wenv w w1).
Proof.
  intros X. writer_next X. destruct St as [_ ->]. destruct b.
  - eexists Written, _, _. split_and!; [done|exact X|done].
  - eexists WriteFailed, _, _. split_and!; [done|exact X|done].
  - writer_next X. destruct St as [_ ->]. eexists WriteTimedOut, _, _. split_and!; [done|exact X|by etrans].
Qed.

Lemma writer_run (fuel : nat) (w w' : WriterWorld.t) (t : list WObs) (a : option (option unit)) : wexec (browser_writer fuel) w t a w' -> writes t.
Proof.
  revert w t. induction fuel as [|fuel IH]; intros w t X; cbn [browser_writer] in X; [destruct X as (-> & _); constructor|].
  assert (W : forall w1 t1 message, wexec (prog_bind (write_bounded message) (fun ok => if ok : bool then browser_writer fuel else Ret (Some tt))) w1 t1 a w' ->
    exists outcome t2, t1 = Put message outcome :: t2 /\ if bool_decide (outcome = Written) then writes t2 else t2 = []).
  { intros w1 t1 message (outcome & w2 & t2 & -> & Y & _)%bounded_run. exists outcome, t2. split; [done|]. case_bool_decide; [by eapply IH|by destruct Y as (-> & _)]. }
  writer_next X. destruct b as [[[frame|bytes|reason]|]|[message|]|]; cbn [writing_step] in St.
  - destruct (encoded frame) as [bytes|] eqn:E; [|destruct X as (-> & _); by constructor].
    apply W in X as (outcome & t2 & -> & Y). assert (I : image (OutFrame frame) = Some (WsBytes bytes)) by (simpl; by rewrite E).
    case_bool_decide as O; subst; [by apply writes_item|by apply writes_lost].
  - apply W in X as (outcome & t2 & -> & Y). case_bool_decide as O; subst; [by apply writes_item|by apply writes_lost].
  - apply bounded_run in X as (outcome & w3 & t2 & -> & (-> & _) & _). apply writes_closed.
  - destruct X as (-> & _). constructor.
  - destruct St as [[|[payload E]] ->]; [done|]. injection E as ->. apply W in X as (outcome & t2 & -> & Y).
    case_bool_decide as O; subst; [by apply writes_pong|by apply writes_pong_lost].
  - apply writes_silent. by eapply IH.
  - writer_next X. destruct X as (-> & _). constructor.
Qed.

Lemma image_not_pong (item : OutItem) (message : WsOut) : image item = Some message -> forall payload, message <> WsPong payload.
Proof. destruct item; simpl; [|congruence..]. destruct (encoded frame); simpl; congruence. Qed.

Lemma data_put (message : WsOut) (outcome : WriteOutcome) (t : list WObs) (item : OutItem) :
  image item = Some message -> data (Put message outcome :: t) = message :: data t.
Proof. intros I. pose proof (image_not_pong _ _ I). unfold data. simpl. destruct message; naive_solver. Qed.

Lemma data_taken (t : list WObs) : writes t -> data t = omap image (taken t).
Proof.
  induction 1 as [| | |frame E|item message outcome I N|reason outcome|item message t I N W IH|t W IH|payload t W IH|payload outcome N]; try done.
  - simpl. by rewrite E.
  - change (data (Put message outcome :: []) = omap image [item]). rewrite (data_put _ _ _ _ I). simpl. by rewrite I.
  - change (data (Put message Written :: t) = omap image (item :: taken t)). rewrite (data_put _ _ _ _ I). simpl. by rewrite I, IH.
Qed.

Lemma writes_stop (t : list WObs) : writes t -> forall before message outcome after,
  t = before ++ Put message outcome :: after -> outcome <> Written \/ is_close message = true -> after = [].
Proof.
  induction 1 as [| | |frame E|item message outcome I N|reason outcome|item message t I N W IH|t W IH|payload t W IH|payload outcome N];
    intros before m o after Eq C; destruct before as [|x [|y before]]; simplify_eq/=; try (by destruct before); try done.
  all: first [by destruct C; congruence|by destruct C|by eapply IH|by eapply (IH [])|by eapply (IH (_ :: _))].
Qed.

(** What follows a taken item: its write, or nothing when it cannot be encoded. *)
Lemma writes_taken (t : list WObs) : writes t -> forall before item after, t = before ++ Took (TookItem (Some item)) :: after ->
  match image item with Some message => exists outcome rest, after = Put message outcome :: rest | None => after = [] end.
Proof.
  induction 1 as [| | |frame E|item message outcome I N|reason outcome|item message t I N W IH|t W IH|payload t W IH|payload outcome N];
    intros before item' after Eq; destruct before as [|x [|y before]]; simplify_eq/=; try (by destruct before); try done.
  all: first [by rewrite E|rewrite I; by eauto|by eauto|by eapply (IH [])|by eapply IH|by eapply (IH (_ :: _))|by destruct before].
Qed.

(** ** A closed queue *)

Lemma closed_kept (o o' : Outbox.t) : Outbox.closed o = true -> outbox_change o o' -> o' = o.
Proof.
  intros C [[frame ->]|[[bytes ->]|[reason ->]]]; unfold push_frame, push_direct, close; by rewrite C.
Qed.

Lemma closed_env (w w' : WriterWorld.t) : rtc wenv w w' -> Outbox.closed (WriterWorld.outbox w) = true -> WriterWorld.outbox w' = WriterWorld.outbox w.
Proof.
  induction 1 as [w|w w1 w' E R IH]; intros C; [done|]. destruct E as [(o & Ch & ->)| ->]; simpl in *; [|by apply IH].
  apply closed_kept in Ch as ->; [by apply IH|done].
Qed.

(** What a closed queue still holds: direct messages and the marker. *)
Definition parting (items : list OutItem) : Prop := exists l, Forall (fun i => exists bytes, i = OutDirect bytes) l /\ (items = l \/ exists reason, items = l ++ [OutClose reason]).

Definition went_well (x : WObs) : Prop := match x with Put _ outcome => outcome = Written | Took Cancelled => False | _ => True end.

Lemma parting_cons (item : OutItem) (items : list OutItem) :
  parting (item :: items) -> (exists bytes, item = OutDirect bytes) /\ parting items \/ (exists reason, item = OutClose reason) /\ items = [].
Proof.
  intros (l & F & [E|(reason & E)]); destruct l as [|i l]; simplify_eq/=; try (apply Forall_cons in F as [B F]).
  - left. split; [done|]. exists l. auto.
  - right. eauto.
  - left. split; [done|]. exists l. eauto.
Qed.

Lemma parting_images (items : list OutItem) : parting items -> Forall (fun i => is_Some (image i)) items.
Proof.
  intros (l & F & E). assert (Fl : Forall (fun i => is_Some (image i)) l) by (eapply Forall_impl; [exact F|intros i (bytes & ->); by eexists]).
  destruct E as [->|(reason & ->)]; [done|]. apply Forall_app. split; [done|]. constructor; [by eexists|constructor].
Qed.

Lemma closed_run (fuel : nat) (w w' : WriterWorld.t) (t : list WObs) (a : option (option unit)) :
  wexec (browser_writer fuel) w t a w' -> Outbox.closed (WriterWorld.outbox w) = true -> parting (Outbox.items (WriterWorld.outbox w)) ->
  taken t `prefix_of` Outbox.items (WriterWorld.outbox w) /\
  (a = Some (Some tt) -> Forall went_well t -> taken t = Outbox.items (WriterWorld.outbox w)).
Proof.
  revert w t. induction fuel as [|fuel IH]; intros w t X C P; cbn [browser_writer] in X; [destruct X as (-> & -> & _); split; [apply prefix_nil|done]|].
  assert (W : forall w1 t1 message, wexec (prog_bind (write_bounded message) (fun ok => if ok : bool then browser_writer fuel else Ret (Some tt))) w1 t1 a w' ->
    Outbox.closed (WriterWorld.outbox w1) = true -> parting (Outbox.items (WriterWorld.outbox w1)) ->
    taken t1 `prefix_of` Outbox.items (WriterWorld.outbox w1) /\ (a = Some (Some tt) -> Forall went_well t1 -> taken t1 = Outbox.items (WriterWorld.outbox w1))).
  { intros w1 t1 message (outcome & w2 & t2 & -> & Y & R)%bounded_run C1 P1. apply closed_env in R; [|done]. change (taken (Put message outcome :: t2)) with (taken t2).
    case_bool_decide as O; [|destruct Y as (-> & _); split; [apply prefix_nil|]; intros _ F; by apply Forall_cons in F as [? _]].
    rewrite <- R in *. destruct (IH _ _ Y C1 P1) as [Pr Fu]. split; [done|]. intros A F. apply Forall_cons in F as [_ F]. auto. }
  writer_next X. apply closed_env in R; [|done]. rewrite <- R in *. clear R w.
  destruct b as [[item|]|[message|]|]; cbn [writing_step] in St.
  - destruct St as (o & Rc & ->). unfold recv in Rc. destruct (Outbox.items (WriterWorld.outbox w0)) as [|i items] eqn:I; [by destruct (Outbox.closed _)|].
    injection Rc as <- ->. apply parting_cons in P as [[(bytes & ->) P]|[(reason & ->) ->]].
    + apply W in X as [Pr Fu]; [|done..]. cbn [taken omap list_omap Outbox.items Outbox.set WriterWorld.outbox] in *. split; [by apply prefix_cons|].
      intros A F. apply Forall_cons in F as [_ F]. f_equal. auto.
    + apply bounded_run in X as (outcome & w3 & t2 & -> & (-> & _) & _). done.
  - destruct St as [Rc ->]. destruct X as (-> & _). unfold recv in Rc. by destruct (Outbox.items _).
  - destruct St as [_ ->]. apply W in X as [Pr Fu]; [|done..]. split; [done|]. intros A F. apply Forall_cons in F as [_ F]. auto.
  - destruct St as [_ ->]. destruct (IH _ _ X C P) as [Pr Fu]. split; [done|]. intros A F. apply Forall_cons in F as [_ F]. auto.
  - split; [|intros _ F; by apply Forall_cons in F as [? _]]. writer_next X. destruct X as (-> & _). apply prefix_nil.
Qed.

(** C33. What a browser is written is its queue, in order and without a hole.  Every item that is taken is either written at once, as it is (the bytes of a frame or of a
    direct message, a close with code 1008 and its reason), or it is a frame that cannot be encoded, and then the task ends there and nothing is taken or written after it.
    Nothing follows a write that failed or a close either.  Once the queue was closed nothing of a stream is written any more, only the messages that were sent to the
    browser directly and then the close with its reason; all of them are, unless a write fails or the reader
    stops the task. *)
Theorem writer_closes_cleanly (fuel : nat) (w w' : WriterWorld.t) (t : list WObs) (a : option (option unit)) :
  wexec (browser_writer fuel) w t a w' ->
  data t = omap image (taken t) /\
  (forall before item after, t = before ++ Took (TookItem (Some item)) :: after ->
    match item with
    | OutFrame frame =>
        match encoded frame with
        | Some bytes => exists outcome rest, after = Put (WsBytes bytes) outcome :: rest
        | None => after = []
        end
    | OutDirect bytes => exists outcome rest, after = Put (WsBytes bytes) outcome :: rest
    | OutClose reason => exists outcome rest, after = Put (WsClose 1008 reason) outcome :: rest
    end) /\
  (forall before message outcome after, t = before ++ Put message outcome :: after -> outcome <> Written \/ is_close message = true -> after = []) /\
  (forall o reason, WriterWorld.outbox w = close o reason -> Outbox.closed o = false -> Forall (fun i => forall r, i <> OutClose r) (Outbox.items o) ->
    let promised := omap image (filter (fun i => is_frame i = false) (Outbox.items o)) ++ [WsClose 1008 reason] in
    data t `prefix_of` promised /\ (a = Some (Some tt) -> Forall went_well t -> data t = promised)).
Proof.
  intros X. pose proof (writer_run _ _ _ _ _ X) as W. rewrite (data_taken _ W). split_and!; [done| |by apply writes_stop|].
  { intros before item after E. pose proof (writes_taken _ W _ _ _ E) as Q. destruct item as [frame| |]; [|exact Q..]. simpl in Q. by destruct (encoded frame). }
  intros o reason E C F. set (kept := filter (fun i => is_frame i = false) (Outbox.items o)).
  assert (K : Outbox.items (WriterWorld.outbox w) = kept ++ [OutClose reason]) by (rewrite E; unfold close; by rewrite C).
  assert (Cl : Outbox.closed (WriterWorld.outbox w) = true) by (rewrite E; unfold close; by rewrite C).
  assert (P : parting (kept ++ [OutClose reason])).
  { exists kept. split; [|by right; exists reason]. apply Forall_forall. intros i [Fr I]%list_elem_of_filter. rewrite Forall_forall in F.
    destruct i as [frame|bytes|r]; [done|by eexists|]. exfalso. by eapply F. }
  rewrite <- K in P. destruct (closed_run _ _ _ _ _ X Cl P) as [Pr Fu]. rewrite K in *. cbn zeta.
  replace (omap image kept ++ [WsClose 1008 reason]) with (omap image (kept ++ [OutClose reason])) by (by rewrite omap_app). split.
  - destruct Pr as [rest ->]. rewrite omap_app. by apply prefix_app_r.
  - intros A G. by rewrite (Fu A G).
Qed.
End WriterProps.

(** ** Whom a browser may watch *)

Section Subscriptions.
Context `{StoreCrates} `{AuthCrates} `{Sha256} `{RequestWire} `{UuidParse} `{Prost}.
Variable env : RelayWorld.t -> RelayWorld.t -> Prop.

Notation run := (texec env rstep robs).

(** No subscription. *)
Definition attaches (o : RObs) : bool := match o with Section_ (SubscribeAttach _ _ _ _) => true | _ => false end.
Definition quiet_op (B : Type) (o : rop B) : Prop := match o with HubTake (SubscribeAttach _ _ _ _) _ => False | _ => True end.

Lemma quiet_trace {A : Type} (p : rprog A) (w w' : RelayWorld.t) (t : list RObs) (a : option A) : prog_all quiet_op p -> run p w t a w' -> Forall (fun o => attaches o = false) t.
Proof.
  intros Q X. eapply (texec_all quiet_op); [|exact Q|exact X]. intros B o b Qo. destruct o as [| | | |C o f| | | | | | |]; repeat constructor.
  by destruct o.
Qed.

Lemma quiet_error (conn_id : Uuid) (code : pb.StableErrorCode.t) (message : string) : prog_all quiet_op (send_protocol_error conn_id code message).
Proof. unfold send_protocol_error, ask. by prog_all_tac. Qed.

Lemma quiet_command (conn_id : Uuid) (request : pb.CommandRequest.t) : prog_all quiet_op (on_browser_command conn_id request).
Proof.
  unfold on_browser_command, command_target, submit_command, forward_command, replay_receipt, reply, audit, section, ask, fetch, store. by prog_all_tac.
Qed.

(** What is seen before a connection of the user of [ident] is attached to a stream. *)
Definition permitted (conn_id : Uuid) (ident : BrowserIdentity.t) (key : DKey) (before : list RObs) : Prop :=
  Asked (IdentityOf conn_id) (Some ident) ∈ before /\ key.1 = BrowserIdentity.owner_id ident /\
  match key.2 with
  | TargetTag.List => True
  | TargetTag.Session device _ _ => Fetched (OwnedDevice device (BrowserIdentity.owner_id ident)) (Some true) ∈ before /\ Asked (IsOnline device) true ∈ before
  end.

Definition attached_permitted (conn_id : Uuid) (t : list RObs) : Prop :=
  forall before id conn key correlation after, t = before ++ Section_ (SubscribeAttach id conn key correlation) :: after ->
    conn = conn_id /\ exists ident, permitted conn_id ident key before.

Lemma quiet_permitted (conn_id : Uuid) (t : list RObs) : Forall (fun o => attaches o = false) t -> attached_permitted conn_id t.
Proof. intros F before id conn key correlation after ->. apply Forall_app in F as [_ F]. by apply Forall_cons in F as [? _]. Qed.

Lemma relay_next {A B : Type} (o : rop B) (k : B -> rprog A) (w w' : RelayWorld.t) (t : list RObs) (a : option A) :
  run (Act o k) w t a w' -> exists b w1 t', run (k b) w1 t' a w' /\ t = robs B o b ++ t'.
Proof.
  intros (w1 & [b|] & w2 & _ & St & X); [|exfalso; by eapply rstep_no_panic]. destruct X as (t' & X & ->). by exists b, w2, t'.
Qed.

Ltac relay_step H b t := let w1 := fresh "w" in cbn [prog_bind act ask fetch] in H; apply relay_next in H as (b & w1 & t & H & ->); cbn [robs app].

Lemma attach_last (ids : string * string) (conn_id : Uuid) (ident : BrowserIdentity.t) (key : DKey) (needs : list (Uuid * TargetTag.t)) (correlation : string)
    (before : list RObs) (w w' : RelayWorld.t) (t : list RObs) (a : option unit) :
  Forall (fun o => attaches o = false) before -> permitted conn_id ident key before -> run (browser_subscribe ids conn_id key needs correlation) w t a w' ->
  attached_permitted conn_id (before ++ t).
Proof.
  intros F P X. unfold browser_subscribe, section in X. relay_step X b t1. relay_step X b2 t2. destruct X as (-> & _).
  intros front id conn key0 correlation0 after E. assert (Eb : front = before ++ [Section_ (SubscribeBind ids.1 conn_id key needs)] /\ conn = conn_id /\ key0 = key).
  { clear P. revert front E. induction F as [|o before Fo F IH]; intros front E; simpl in E.
    - destruct front as [|x [|y front]]; [done| |by destruct front]. by injection E as <- _ <- <- _ _.
    - destruct front as [|x front]; [injection E as -> _; done|]. injection E as <- E. destruct (IH _ E) as (-> & -> & ->). done. }
  destruct Eb as (-> & -> & ->). split; [done|]. exists ident. destruct P as (I & O & D). split_and!; [rewrite elem_of_app; by left|done|].
  destruct key.2 as [|device kind native]; [done|]. destruct D as [D1 D2]. split; rewrite elem_of_app; by left.
Qed.

(** C31. A browser only watches what is its user's.  Whatever message it sends and whatever runs beside the handler, a connection is attached to a stream
    only on its own behalf, only to streams of the user it belongs to, and to the stream of a session only after the
    database has said that the device is that user's and not revoked, and the hub that it is online. *)
Theorem subscription_guarded (ids : string * string) (request : pb.CommandRequest.t) (conn_id : Uuid) (msg : Envelope.t)
    (w w' : RelayWorld.t) (t : list RObs) (a : option unit) :
  run (handle_browser_envelope ids request conn_id msg) w t a w' -> attached_permitted conn_id t.
Proof.
  intros X. assert (Quiet : forall p : rprog unit, prog_all quiet_op p -> run p w t a w' -> attached_permitted conn_id t) by (intros p Q Y; by eapply quiet_permitted, quiet_trace).
  pose proof (quiet_error conn_id) as Qe. pose proof (quiet_command conn_id request) as Qc.
  unfold handle_browser_envelope in X. destruct (Envelope.payload msg) as [[]|]; try (by eapply (Quiet _ (Qe _ _)), X); try (by eapply (Quiet _ Qc), X);
    try (by eapply Quiet, X; unfold section, ask; prog_all_tac). clear Quiet Qc.
  assert (Tail : forall before code text w1 t1, run (send_protocol_error conn_id code text) w1 t1 a w' -> Forall (fun o => attaches o = false) before -> attached_permitted conn_id (before ++ t1)).
  { intros before code text w1 t1 Y F. apply quiet_permitted, Forall_app. split; [done|]. by eapply quiet_trace. }
  unfold on_browser_subscribe in X. relay_step X ident t1. destruct ident as [ident|]; [|destruct X as (-> & _); by apply quiet_permitted; repeat constructor].
  destruct target as [[|key]|]; [| |destruct X as (-> & _); by apply quiet_permitted; repeat constructor].
  - relay_step X devices t2. eapply (attach_last ids conn_id ident _ _ _ [_; _]); [by repeat constructor| |exact X]. split_and!; [set_solver|done|done].
  - destruct (parse_uuid _) as [device|]; [|by eapply (Tail [_]); [exact X|repeat constructor]].
    relay_step X owned t2. destruct owned as [[]|]; cbn [default from_option id negb] in X; [|by eapply (Tail [_; _]); [exact X|repeat constructor]..].
    relay_step X online t3. destruct online; cbn [negb] in X; [|by eapply (Tail [_; _; _]); [exact X|repeat constructor]].
    eapply (attach_last ids conn_id ident _ _ _ [_; _; _]); [by repeat constructor| |exact X]. split_and!; set_solver.
Qed.
End Subscriptions.

(** ** Runs that other tasks surround *)

Section Runs.
Context {op : Type -> Type} {S O : Type}.
Variable env : S -> S -> Prop.
Variable step : forall B, op B -> S -> option B -> S -> Prop.
Variable obs : forall B, op B -> B -> list O.

Definition runs {A : Type} (p : prog op A) (s : S) (t : list O) (a : option A) (s' : S) : Prop :=
  exists s1 s2, rtc env s s1 /\ texec env step obs p s1 t a s2 /\ rtc env s2 s'.

Lemma runs_before {A : Type} (p : prog op A) (s0 s s' : S) (t : list O) (a : option A) : rtc env s0 s -> runs p s t a s' -> runs p s0 t a s'.
Proof. intros R (s1 & s2 & R1 & X & R2). exists s1, s2. split_and!; [by etrans|done..]. Qed.

Lemma runs_after {A : Type} (p : prog op A) (s s' s2 : S) (t : list O) (a : option A) : runs p s t a s' -> rtc env s' s2 -> runs p s t a s2.
Proof. intros (s1 & s3 & R1 & X & R3) R. exists s1, s3. split_and!; [done..|by etrans]. Qed.

Lemma runs_ret {A : Type} (x : A) (s s' : S) : rtc env s s' -> runs (Ret x) s [] (Some x) s'.
Proof. intros R. by exists s', s'. Qed.

Lemma runs_bind {A C : Type} (p : prog op A) (f : A -> prog op C) (s s1 s' : S) (t1 t2 : list O) (x : A) (c : option C) :
  runs p s t1 (Some x) s1 -> runs (f x) s1 t2 c s' -> runs (prog_bind p f) s (t1 ++ t2) c s'.
Proof.
  intros (s2 & s3 & R2 & X & R3) (s4 & s5 & R4 & Y & R5). assert (R : rtc env s3 s4) by (by etrans). clear R3 R4.
  destruct (f x) as [y|B o k] eqn:E.
  - destruct Y as (-> & -> & ->). exists s2, s3. split_and!; [done| |by etrans]. eapply texec_bind_intro; [done|]. by rewrite E.
  - exists s2, s5. split_and!; [done| |done]. eapply texec_bind_intro; [done|]. rewrite E.
    destruct Y as (s6 & b & s7 & R6 & Y). exists s6, b, s7. split; [by etrans|done].
Qed.
End Runs.

(** ** A connection among the tasks of the Relay *)

Inductive WriterState := WriterAbsent | WriterRunning | WriterFinished | WriterJoined.

Module SocketWorld.
Record t := mk {
  world : RelayWorld.t;
  writer : WriterState;
}.
End SocketWorld.

Section Connections.
Context `{StoreCrates} `{AuthCrates} `{Sha256} `{RequestWire} `{UuidParse} `{Prost}.
(** What the other tasks do to the hub and the database. *)
Variable others : RelayWorld.t -> RelayWorld.t -> Prop.

Notation world := SocketWorld.world.
Notation writer := SocketWorld.writer.

(** The writing task may end at any time. *)
Definition senv (w w' : SocketWorld.t) : Prop :=
  (others (world w) (world w') /\ writer w' = writer w) \/ (writer w = WriterRunning /\ w' = SocketWorld.mk (world w) WriterFinished).

(** A handle that was polled to its end must not be polled again: the reading loop and the wait after it panic then. *)
Definition sstep (B : Type) (o : sop B) (w : SocketWorld.t) : option B -> SocketWorld.t -> Prop :=
  match o in sop B return option B -> SocketWorld.t -> Prop with
  | SRelay o => fun b w' => rstep _ o (world w) b (world w') /\ writer w' = writer w
  | SSpawnWriter => fun b w' => b <> None /\ w' = SocketWorld.mk (world w) WriterRunning
  | SBrowserNext => fun b w' =>
      match b with
      | None => writer w = WriterJoined
      | Some WriterEnded => writer w = WriterFinished /\ w' = SocketWorld.mk (world w) WriterJoined
      | Some _ => w' = w
      end
  | SJoinWriter _ => fun b w' =>
      match writer w with
      | WriterJoined => b = None
      | WriterFinished => b <> None /\ w' = SocketWorld.mk (world w) WriterJoined
      | _ => b <> None /\ w' = w
      end
  | _ => fun b w' => b <> None /\ w' = w
  end.

Inductive SObs :=
| Did (o : RObs)
| First (message : FirstMessage)
| HeardBrowser (event : BrowserEvent)
| HeardBridge (event : BridgeEvent)
| SentWs (message : WsOut) (ok : bool)
| Controlled (message : WsOut)
| Started (now : Z).

Definition sobs (B : Type) (o : sop B) : B -> list SObs :=
  match o in sop B return B -> list SObs with
  | SRelay o => fun b => map Did (robs _ o b)
  | SBrowserNext => fun event => [HeardBrowser event]
  | SBridgeNext => fun event => [HeardBridge event]
  | SFirst => fun message => [First message]
  | SSend message => fun ok => [SentWs message ok]
  | SControl message | STryControl message => fun _ => [Controlled message]
  | SNow => fun now => [Started now]
  | _ => fun _ => []
  end.

Notation sexec := (texec senv sstep sobs).
Notation rruns := (runs others rstep robs).

(** What a connection does to the hub and the database. *)
Definition relay_part : list SObs -> list RObs := omap (fun x => match x with Did o => Some o | _ => None end).

Lemma relay_part_app (t1 t2 : list SObs) : relay_part (t1 ++ t2) = relay_part t1 ++ relay_part t2.
Proof. apply omap_app. Qed.

Lemma relay_part_did (t : list RObs) : relay_part (map Did t) = t.
Proof. induction t as [|x t IH]; [done|]. cbn. f_equal. exact IH. Qed.

Lemma senv_world (w w' : SocketWorld.t) : rtc senv w w' -> rtc others (world w) (world w').
Proof. induction 1 as [|w w1 w' [[E _]|[_ ->]] R IH]; [done|by eapply rtc_l|done]. Qed.

Lemma senv_writer (w w' : SocketWorld.t) : rtc senv w w' -> writer w <> WriterJoined -> writer w' <> WriterJoined.
Proof. induction 1 as [|w w1 w' [[_ E]|[_ ->]] R IH]; [done|rewrite <- E; done|]. intros _. by apply IH. Qed.

Lemma relay_run {A C : Type} (p : rprog A) (k : A -> sprog C) (w w' : SocketWorld.t) (t : list SObs) (c : option C) :
  sexec (prog_bind (relay p) k) w t c w' ->
  exists t1 x w1 t2, rruns p (world w) t1 (Some x) (world w1) /\ sexec (k x) w1 t2 c w' /\ t = map Did t1 ++ t2 /\ (writer w <> WriterJoined -> writer w1 <> WriterJoined).
Proof.
  revert w t. induction p as [x|B o q IH]; intros w t X.
  - exists [], x, w, t. split_and!; [by apply runs_ret|done..].
  - destruct X as (w1 & b & w2 & R & [St Wr] & X). destruct b as [b|]; [|exfalso; by eapply rstep_no_panic]. destruct X as (t' & X & ->).
    apply IH in X as (t1 & x & w3 & t2 & (r1 & r2 & R1 & Y & R2) & X & -> & W). exists (robs B o b ++ t1), x, w3, t2. split_and!.
    + apply (runs_bind _ _ _ (act o) q _ (world w2) _ _ _ b); [|by exists r1, r2].
      exists (world w), (world w2). split_and!; [done| |done]. exists (world w1), (Some b), (world w2). split_and!; [by apply senv_world|done|].
      exists []. split; [done|]. by rewrite app_nil_r.
    + done.
    + cbn [sobs]. by rewrite map_app, <- app_assoc.
    + intros N. apply W. rewrite Wr. by eapply senv_writer.
Qed.

(** One operation of the connection itself; it panics only where [sstep] says. *)
Lemma socket_next {A B : Type} (o : sop B) (k : B -> sprog A) (w w' : SocketWorld.t) (t : list SObs) (a : option A) :
  sexec (Act o k) w t a w' -> writer w <> WriterJoined ->
  exists w1 b w2 t', writer w1 <> WriterJoined /\ rtc others (world w) (world w1) /\ sstep B o w1 (Some b) w2 /\ sexec (k b) w2 t' a w' /\ t = sobs B o b ++ t'.
Proof.
  intros (w1 & b & w2 & R & St & X) N. pose proof (senv_writer _ _ R N) as N1. destruct b as [b|].
  - destruct X as (t' & X & ->). exists w1, b, w2, t'. split_and!; [done|by apply senv_world|done..].
  - exfalso. destruct o; simpl in St; try done; try (by destruct St). 
    + destruct St as [St _]. by eapply rstep_no_panic.
    + destruct (writer w1); naive_solver.
Qed.

(** ** A browser's connection *)

Notation Message := (option (string * string * pb.CommandRequest.t * Envelope.t)).

(** The messages of a browser, handled one after the other. *)
Fixpoint browser_handled (conn_id : Uuid) (l : list Message) : rprog unit :=
  match l with
  | [] => Ret tt
  | Some (ids, request, env) :: l => perform handle_browser_envelope ids request conn_id env; browser_handled conn_id l
  | None :: l => perform send_protocol_error conn_id pb.StableErrorCode.InternalError "无法解码消息"; browser_handled conn_id l
  end.

Definition heard_browser : list SObs -> list Message := omap (fun x => match x with HeardBrowser (BrowserBinary decoded) => Some decoded | _ => None end).

Lemma heard_browser_did (t : list RObs) (k : list SObs) : heard_browser (map Did t ++ k) = heard_browser k.
Proof. induction t as [|x t IH]; [done|]. exact IH. Qed.

Ltac socket_step H := cbn [prog_bind act] in H; apply socket_next in H; [|assumption].

Lemma browser_loop_run (fuel : nat) (conn_id : Uuid) (w w' : SocketWorld.t) (t : list SObs) (a : option (option bool)) :
  sexec (browser_loop fuel conn_id) w t a w' -> writer w <> WriterJoined ->
  exists r, a = Some r /\ rruns (browser_handled conn_id (heard_browser t)) (world w) (relay_part t) (Some tt) (world w') /\
    (r <> Some true -> writer w' <> WriterJoined).
Proof.
  revert w t. induction fuel as [|fuel IH]; intros w t X N; cbn [browser_loop] in X.
  { destruct X as (-> & -> & ->). exists None. split_and!; [done|by apply runs_ret|done]. }
  assert (Handled : forall (p : rprog unit) w1 t1 (m : Message), sexec (perform relay p; browser_loop fuel conn_id) w1 t1 a w' -> writer w1 <> WriterJoined ->
    (forall l, browser_handled conn_id (m :: l) = perform p; browser_handled conn_id l) -> rtc others (world w) (world w1) ->
    exists r, a = Some r /\ rruns (browser_handled conn_id (m :: heard_browser t1)) (world w) (relay_part t1) (Some tt) (world w') /\ (r <> Some true -> writer w' <> WriterJoined)).
  { intros p w1 t1 m Y N1 E R. apply relay_run in Y as (t2 & x & w2 & t3 & Rp & Y & -> & W). apply IH in Y as (r & -> & Rl & Z); [|by apply W].
    exists r. split_and!; [done| |done]. rewrite E, heard_browser_did, relay_part_app, relay_part_did. eapply runs_before; [done|]. by eapply runs_bind. }
  socket_step X. destruct X as (w1 & b & w2 & t1 & N1 & R & St & X & ->). cbn [sobs app].
  destruct b as [[[[ids request] env]|]|payload| | |]; cbn [sstep] in St.
  - subst w2. by apply (Handled _ _ _ (Some (ids, request, env))) in X.
  - subst w2. by apply (Handled _ _ _ None) in X.
  - subst w2. socket_step X. destruct X as (w3 & b & w4 & t3 & N3 & R3 & St & X & ->). destruct St as [_ ->].
    apply IH in X as (r & -> & Rl & Z); [|done]. exists r. split_and!; [done| |done]. eapply runs_before; [|exact Rl]. by etrans.
  - subst w2. apply IH in X as (r & -> & Rl & Z); [|done]. exists r. split_and!; [done| |done]. by eapply runs_before.
  - subst w2. destruct X as (-> & -> & ->). exists (Some false). split_and!; [done|by apply runs_ret|done].
  - destruct St as [_ ->]. destruct X as (-> & -> & ->). exists (Some true). split_and!; [done|by apply runs_ret|done].
Qed.

(** What a connection is, seen from the hub and the database. *)
Definition browser_life (ident : BrowserIdentity.t) (conn_id : Uuid) (l : list Message) (ended : bool) : rprog unit :=
  perform section (RegisterBrowser conn_id ident (Outbox.new BROWSER_QUEUE_MAX_FRAMES BROWSER_QUEUE_MAX_BYTES));
  perform browser_handled conn_id l;
  if ended then section (RemoveBrowser conn_id) else Ret tt.

Lemma cancel_next {A : Type} (k : unit -> sprog A) (w w' : SocketWorld.t) (t : list SObs) (a : option A) :
  sexec (Act SCancelWriter k) w t a w' -> exists w1, rtc senv w w1 /\ sexec (k tt) w1 t a w'.
Proof. intros (w1 & [[]|] & w2 & R & [? ->] & X); [|done]. destruct X as (t' & X & ->). by exists w1. Qed.

Lemma remove_browser_gone (conn_id : Uuid) (g : HubInner.t) : HubInner.browsers (remove_browser conn_id g) !! conn_id = None.
Proof.
  assert (E : forall g, HubInner.browsers (detach_subscriber conn_id g) = HubInner.browsers g).
  { intros h. unfold detach_subscriber. case_match; [|done]. induction (elements _) as [|key l IH]; [done|]. exact IH. }
  unfold remove_browser. rewrite E. apply lookup_delete_eq.
Qed.

Lemma remove_last (conn_id : Uuid) (w w' : SocketWorld.t) (t : list SObs) (a : option (option unit)) :
  sexec (perform relay (section (RemoveBrowser conn_id)); Ret (Some tt)) w t a w' ->
  a = Some (Some tt) /\ rruns (section (RemoveBrowser conn_id)) (world w) (relay_part t) (Some tt) (world w') /\ heard_browser t = [] /\ HubInner.browsers (RelayWorld.hub (world w')) !! conn_id = None.
Proof.
  intros X. assert (Y := X). apply relay_run in Y as (t1 & [] & w1 & t2 & Y & (-> & -> & ->) & -> & _). split_and!; [done|by rewrite app_nil_r, relay_part_did|by rewrite heard_browser_did|].
  destruct X as (w2 & [b|] & w3 & _ & [St _] & X); [|by destruct X as (_ & [=] & _)]. destruct X as (t' & (_ & _ & ->) & _).
  destruct St as (now & _ & ->). apply remove_browser_gone.
Qed.

(** C32. A connection of a browser is registered once, its messages are handled one after the other as they arrived, and it is removed at the end,
    whichever of its two tasks ends first: the writing task is never waited for twice, so nothing panics on the way.  A
    browser whose first message is not the hello of a browser is told so, closed, and never registered. *)
Theorem browser_released (fuel : nat) (ident : BrowserIdentity.t) (conn_id : Uuid) (w w' : SocketWorld.t) (t : list SObs) (a : option (option unit)) :
  sexec (browser_connection fuel ident conn_id) w t a w' -> writer w = WriterAbsent ->
  exists ended, a = Some ended /\
    ((exists first ok1 ok2, browser_hello_ok first = false /\ ended = Some tt /\ t = [First first; SentWs HELLO_REFUSED ok1; SentWs (WsClose 1002 "PROTOCOL_VERSION_MISMATCH") ok2]) \/
     (exists first, browser_hello_ok first = true /\ ended = Some tt /\ t = [First first; SentWs BROWSER_HELLO false]) \/
     (exists first rest, browser_hello_ok first = true /\ t = First first :: SentWs BROWSER_HELLO true :: rest) /\
     rruns (browser_life ident conn_id (heard_browser t) (bool_decide (ended = Some tt))) (world w) (relay_part t) (Some tt) (world w') /\
     (ended = Some tt -> HubInner.browsers (RelayWorld.hub (world w')) !! conn_id = None)).
Proof.
  intros X A. assert (N : writer w <> WriterJoined) by (by rewrite A). clear A. unfold browser_connection in X.
  socket_step X. destruct X as (w1 & first & w2 & t1 & N1 & R1 & [_ ->] & X & ->). cbn [sobs app].
  destruct (browser_hello_ok first) eqn:Hello; cbn [negb] in X.
  2: { socket_step X. destruct X as (w3 & ok1 & w4 & t3 & N3 & R3 & [_ ->] & X & ->). socket_step X. destruct X as (w5 & ok2 & w6 & t5 & N5 & R5 & [_ ->] & X & ->).
       destruct X as (-> & -> & ->). exists (Some tt). split; [done|]. left. by exists first, ok1, ok2. }
  socket_step X. destruct X as (w3 & ok & w4 & t3 & N3 & R3 & [_ ->] & X & ->). cbn [sobs app].
  destruct ok; cbn [negb] in X; [|destruct X as (-> & -> & ->); exists (Some tt); split; [done|]; right; left; by exists first].
  apply relay_run in X as (t4 & u & w4 & t5 & Rg & X & -> & W). specialize (W N3).
  socket_step X. destruct X as (w5 & b & w6 & t6 & N5 & R5 & [_ ->] & X & ->). cbn [sobs app].
  apply texec_bind in X as [[X ->]|(t7 & r & w7 & t8 & Lp & X & ->)].
  { apply browser_loop_run in X as (r & [=] & _). done. }
  apply browser_loop_run in Lp as (r' & [= <-] & Rl & Z); [|done].
  assert (Life : forall ended t9, heard_browser t9 = [] -> rruns (if ended : bool then section (RemoveBrowser conn_id) else Ret tt) (world w7) (relay_part t9) (Some tt) (world w') ->
    rruns (browser_life ident conn_id (heard_browser (map Did t4 ++ t7 ++ t9)) ended) (world w) (relay_part (map Did t4 ++ t7 ++ t9)) (Some tt) (world w')).
  { intros ended t9 E Y. rewrite heard_browser_did. unfold heard_browser. rewrite omap_app. fold (heard_browser t7) (heard_browser t9). rewrite E, app_nil_r, !relay_part_app, relay_part_did.
    eapply runs_before; [by etrans|]. eapply runs_bind; [exact Rg|]. eapply runs_bind; [|exact Y]. by eapply runs_before. }
  destruct r as [writer_done|].
  2: { destruct X as (-> & -> & ->). exists None. split; [done|]. right. right. split_and!; [by eexists first, _|apply (Life false []); [done|]; by apply runs_ret|done]. }
  apply cancel_next in X as (w8 & R8 & X). assert (exists w9, rtc others (world w7) (world w9) /\ sexec (perform relay (section (RemoveBrowser conn_id)); Ret (Some tt)) w9 t8 a w') as (w9 & R9 & Y).
  { destruct writer_done; [exists w8; split; [by apply senv_world|exact X]|]. assert (N8 : writer w8 <> WriterJoined) by (eapply senv_writer; [done|by apply Z]).
    socket_step X. destruct X as (w10 & b' & w11 & t9 & N10 & R10 & St & X & ->). exists w11. split; [|exact X]. etrans; [by apply senv_world|].
    cbn [sstep] in St. by destruct (writer w10); destruct St as [_ ->]. }
  apply remove_last in Y as (-> & Y & Silent & Gone). exists (Some tt). split; [done|]. right. right. split_and!; [by eexists first, _| |done].
  apply (Life true); [exact Silent|by eapply runs_before].
Qed.

(** ** A Bridge's connection *)

Inductive BridgeStep :=
| Served (ids : list Uuid) (env : Envelope.t) (batch : pb.SessionSummaryBatch.t)
| Beat.

Fixpoint bridge_handled (device : Uuid) (l : list BridgeStep) : rprog unit :=
  match l with
  | [] => Ret tt
  | Served ids env batch :: l => perform handle_bridge_envelope_task ids device env batch; bridge_handled device l
  | Beat :: l => perform act (SendBridge device (base_envelope device Heartbeat)); bridge_handled device l
  end.

Definition bridge_life (device owner : Uuid) (l : list BridgeStep) (ended : bool) : rprog unit :=
  perform bridge_connected device owner (Sink.mk BRIDGE_QUEUE_MAX_FRAMES [] false);
  perform bridge_handled device l;
  if ended then bridge_disconnected device owner else Ret tt.

Definition bridge_steps : list SObs -> list BridgeStep := omap (fun x =>
  match x with
  | HeardBridge (BridgeBinary _ (Some (ids, env, batch))) => Some (Served ids env batch)
  | HeardBridge HeartbeatTick => Some Beat
  | _ => None
  end).

Lemma bridge_steps_did (t : list RObs) (k : list SObs) : bridge_steps (map Did t ++ k) = bridge_steps k.
Proof. induction t as [|x t IH]; [done|]. exact IH. Qed.

Lemma bridge_steps_app (t1 t2 : list SObs) : bridge_steps (t1 ++ t2) = bridge_steps t1 ++ bridge_steps t2.
Proof. apply omap_app. Qed.

(** When the connection was last heard of. *)
Definition heard_at (last : Z) (x : SObs) : Z :=
  match x with
  | Started now | HeardBridge (BridgeBinary now _) | HeardBridge (BridgePing now _) | HeardBridge (BridgeOther now) => now
  | _ => last
  end.
Definition last_heard (last : Z) (t : list SObs) : Z := fold_left heard_at t last.

Lemma last_heard_did (last : Z) (t : list RObs) (k : list SObs) : last_heard last (map Did t ++ k) = last_heard last k.
Proof. unfold last_heard. revert last. induction t as [|x t IH]; intros last; [done|]. apply IH. Qed.

Definition OFFLINE_CLOSE : SObs := Controlled (WsClose 1008 "DEVICE_OFFLINE").

(** A check that finds silence is the last thing the loop does, and nothing else makes the Bridge offline. *)
Definition silence_ends (offline_after last : Z) (t : list SObs) (r : option SessionEnded) : Prop :=
  (forall before now after, t = before ++ HeardBridge (CheckTick now) :: after -> offline_after < now - last_heard last before -> after = [] /\ r = Some Offline) /\
  (r = Some Offline -> exists before now, t = before ++ [HeardBridge (CheckTick now)] /\ offline_after < now - last_heard last before).

Lemma silence_cons (offline_after last : Z) (x : SObs) (t : list SObs) (r : option SessionEnded) :
  (forall now, x = HeardBridge (CheckTick now) -> now - last <= offline_after) ->
  silence_ends offline_after (heard_at last x) t r -> silence_ends offline_after last (x :: t) r.
Proof.
  intros N [S1 S2]. split.
  - intros before now after E L. destruct before as [|y before]; injection E as -> E; [specialize (N now eq_refl); simpl in L; lia|]. by eapply S1.
  - intros (before & now & -> & L)%S2. by exists (x :: before), now.
Qed.

Lemma silence_did (offline_after last : Z) (t1 : list RObs) (t : list SObs) (r : option SessionEnded) :
  silence_ends offline_after last t r -> silence_ends offline_after last (map Did t1 ++ t) r.
Proof. intros S. induction t1 as [|x t1 IH]; [done|]. by apply silence_cons. Qed.

Lemma silence_stop (offline_after last : Z) (r : option SessionEnded) : r <> Some Offline -> silence_ends offline_after last [] r.
Proof. intros N. split; [|done]. by intros []. Qed.

(** How the loop ends, and what it did until then. *)
Definition looped (config : Config.t) (device : Uuid) (last : Z) (w : SocketWorld.t) (t : list SObs) (a : option (option SessionEnded)) (w' : SocketWorld.t) : Prop :=
  exists r, a = Some r /\ rruns (bridge_handled device (bridge_steps t)) (world w) (relay_part t) (Some tt) (world w') /\
    silence_ends (Config.offline_after config) last t r /\ OFFLINE_CLOSE ∉ t /\ writer w' <> WriterJoined.

Lemma looped_end (config : Config.t) (device : Uuid) (last : Z) (w : SocketWorld.t) (r : option SessionEnded) :
  writer w <> WriterJoined -> r <> Some Offline -> looped config device last w [] (Some r) w.
Proof. intros N R. exists r. split_and!; [done|by apply runs_ret|by apply silence_stop|by apply not_elem_of_nil|done]. Qed.

Lemma looped_plain (config : Config.t) (device : Uuid) (last : Z) (x : SObs) (w w2 w' : SocketWorld.t) (t : list SObs) (a : option (option SessionEnded)) :
  looped config device (heard_at last x) w2 t a w' -> rtc others (world w) (world w2) -> relay_part [x] = [] -> bridge_steps [x] = [] ->
  (forall now, x = HeardBridge (CheckTick now) -> now - last <= Config.offline_after config) -> x <> OFFLINE_CLOSE -> looped config device last w (x :: t) a w'.
Proof.
  intros (r & -> & Rl & Si & Cl & N) R Pa St Ch Ne. exists r. split_and!; [done| |by apply silence_cons| |done].
  - change (x :: t) with ([x] ++ t). rewrite relay_part_app, bridge_steps_app, Pa, St. by eapply runs_before.
  - rewrite not_elem_of_cons. by split.
Qed.

Lemma looped_handled {B : Type} (config : Config.t) (device : Uuid) (last : Z) (step : BridgeStep) (p : rprog B) (e : BridgeEvent) (b : B)
    (w w1 w2 w' : SocketWorld.t) (t1 : list RObs) (t : list SObs) (a : option (option SessionEnded)) :
  rtc others (world w) (world w1) -> rruns p (world w1) t1 (Some b) (world w2) -> looped config device (heard_at last (HeardBridge e)) w2 t a w' ->
  bridge_steps [HeardBridge e] = [step] -> (forall l, bridge_handled device (step :: l) = perform p; bridge_handled device l) -> (forall now, e <> CheckTick now) ->
  looped config device last w (HeardBridge e :: map Did t1 ++ t) a w'.
Proof.
  intros R Rp (r & -> & Rl & Si & Cl & N) St Ha Ch. exists r. split_and!; [done| | | |done].
  - change (HeardBridge e :: map Did t1 ++ t) with ([HeardBridge e] ++ map Did t1 ++ t). rewrite bridge_steps_app, bridge_steps_did, St, !relay_part_app, relay_part_did.
    change (relay_part [HeardBridge e]) with (@nil RObs). cbn [app]. rewrite Ha. eapply runs_before; [done|]. by eapply runs_bind.
  - apply silence_cons; [intros now E; injection E as E; by destruct (Ch now)|]. by apply silence_did.
  - rewrite not_elem_of_cons, elem_of_app, list_elem_of_fmap. split; [done|]. intros [(x & [=] & _)|I]; done.
Qed.

Lemma bridge_loop_run (config : Config.t) (fuel : nat) (device : Uuid) (last : Z) (w w' : SocketWorld.t) (t : list SObs) (a : option (option SessionEnded)) :
  sexec (bridge_loop config fuel device last) w t a w' -> writer w <> WriterJoined -> looped config device last w t a w'.
Proof.
  revert last w t. induction fuel as [|fuel IH]; intros last w t X N; cbn [bridge_loop] in X.
  { destruct X as (-> & -> & ->). by apply looped_end. }
  socket_step X. destruct X as (w1 & b & w2 & t1 & N1 & R & [_ ->] & X & ->). cbn [sobs app].
  destruct b as [now [[[ids env] batch]|]|now payload|now| | |now|closed].
  - apply relay_run in X as (t2 & u & w3 & t3 & Rp & X & -> & W). apply (looped_handled _ _ _ (Served ids env batch) _ _ u _ w1 w3 w' t2 t3 a R Rp); try done.
    apply IH; [done|by apply W].
  - by apply (looped_plain _ _ _ _ _ w1); [apply IH|..].
  - socket_step X. destruct X as (w3 & b & w4 & t3 & N3 & R3 & [_ ->] & X & ->). cbn [sobs app]. apply (looped_plain _ _ _ _ _ w1); try done.
    by apply (looped_plain _ _ _ _ _ w3); [apply IH|..].
  - by apply (looped_plain _ _ _ _ _ w1); [apply IH|..].
  - destruct X as (-> & -> & ->). by apply (looped_plain _ _ _ _ _ w1); [apply looped_end|..].
  - apply relay_run in X as (t2 & sent & w3 & t3 & Rp & X & -> & W). specialize (W N1). apply (looped_handled _ _ _ Beat _ _ sent _ w1 w3 w' t2 t3 a R Rp); try done.
    destruct sent; cbn [negb] in X; [by apply IH|]. destruct X as (-> & -> & ->). by apply looped_end.
  - destruct (Z.ltb_spec (Config.offline_after config) (now - last)) as [L|L].
    + destruct X as (-> & -> & ->). exists (Some Offline). split_and!; [done|by apply runs_ret| |set_solver|done]. split.
      * intros before n after E _. destruct before as [|y [|z before]]; [|done..]. by injection E as _ ->.
      * intros _. by exists [], now.
    + apply (looped_plain _ _ _ _ _ w1); try done; [by apply IH|]. intros n [= ->]. lia.
  - destruct closed; [|by apply (looped_plain _ _ _ _ _ w1); [apply IH|..]].
    destruct X as (-> & -> & ->). by apply (looped_plain _ _ _ _ _ w1); [apply looped_end|..].
Qed.

Lemma relay_only {A : Type} (p : rprog A) (x : option unit) (w w' : SocketWorld.t) (t : list SObs) (a : option (option unit)) :
  sexec (perform relay p; Ret x) w t a w' ->
  exists t1 u, t = map Did t1 /\ a = Some x /\ rruns p (world w) t1 (Some u) (world w').
Proof. intros (t1 & u & w1 & t2 & Y & (-> & -> & ->) & -> & _)%relay_run. exists t1, u. by rewrite app_nil_r. Qed.

Lemma last_heard_app (last : Z) (t1 t2 : list SObs) : last_heard last (t1 ++ t2) = last_heard (last_heard last t1) t2.
Proof. apply fold_left_app. Qed.

Lemma did_no_check (t : list RObs) (k before after : list SObs) (x : SObs) :
  (forall o, x <> Did o) -> map Did t ++ k = before ++ x :: after -> exists before', before = map Did t ++ before' /\ k = before' ++ x :: after.
Proof.
  intros N. revert before. induction t as [|o t IH]; intros before E; [by exists before|].
  destruct before as [|y before]; [injection E as E _; by destruct (N o)|]. injection E as <- E. apply IH in E as (before' & -> & ->). by exists before'.
Qed.

(** A session of a Bridge, and how its loop found silence. *)
Lemma session_parts (config : Config.t) (fuel : nat) (device owner : Uuid) (w w' : SocketWorld.t) (t : list SObs) (a : option (option unit)) :
  sexec (bridge_session config fuel device owner) w t a w' -> writer w <> WriterJoined ->
  exists t1 start t2 r t3, t = map Did t1 ++ Started start :: t2 ++ t3 /\ a = Some (if r is Some _ then Some tt else None) /\
    rruns (bridge_life device owner (bridge_steps t) (bool_decide (r <> None))) (world w) (relay_part t) (Some tt) (world w') /\
    silence_ends (Config.offline_after config) start t2 r /\ OFFLINE_CLOSE ∉ t2 /\
    match r with None => t3 = [] | Some e => exists t4, t3 = Controlled (WsClose 1008 (close_reason e)) :: map Did t4 end.
Proof.
  intros X N. unfold bridge_session in X. apply relay_run in X as (t1 & [] & w1 & k & Rc & X & -> & W). specialize (W N).
  socket_step X. destruct X as (w2 & start & w3 & t2 & N2 & R2 & [_ ->] & X & ->). cbn [sobs app].
  apply texec_bind in X as [[X ->]|(tl & r & w4 & t3 & Lp & X & ->)].
  { apply bridge_loop_run in X as (r & [=] & _). done. }
  apply bridge_loop_run in Lp as (r' & [= <-] & Rl & Si & Cl & N4); [|done]. exists t1, start, tl, r, t3.
  assert (St : bridge_steps (map Did t1 ++ Started start :: tl ++ t3) = bridge_steps tl ++ bridge_steps t3).
  { rewrite bridge_steps_did. change (Started start :: tl ++ t3) with ([Started start] ++ tl ++ t3). by rewrite !bridge_steps_app. }
  assert (Pa : relay_part (map Did t1 ++ Started start :: tl ++ t3) = t1 ++ relay_part tl ++ relay_part t3).
  { change (Started start :: tl ++ t3) with ([Started start] ++ tl ++ t3). by rewrite !relay_part_app, relay_part_did. }
  assert (Rl' : rruns (bridge_handled device (bridge_steps tl)) (world w1) (relay_part tl) (Some tt) (world w4)) by (by eapply runs_before).
  destruct r as [e|].
  - socket_step X. destruct X as (w5 & b & w6 & t5 & N5 & R5 & [_ ->] & X & ->). cbn [sobs app].
    socket_step X. destruct X as (w7 & b' & w8 & t7 & N7 & R7 & [_ ->] & X & ->). cbn [sobs app] in *.
    apply relay_only in X as (t4 & [] & -> & -> & Rd). split_and!; [done|done| |done|done|by exists t4].
    rewrite Pa, St. replace (bridge_steps (Controlled (WsClose 1008 (close_reason e)) :: map Did t4)) with (@nil BridgeStep) by (rewrite <- (app_nil_r (map Did t4)); symmetry; exact (bridge_steps_did t4 [])).
    change (relay_part (Controlled (WsClose 1008 (close_reason e)) :: map Did t4)) with (relay_part (map Did t4)). rewrite app_nil_r, relay_part_did.
    rewrite bool_decide_eq_true_2 by done. eapply runs_bind; [exact Rc|]. eapply runs_bind; [exact Rl'|]. eapply runs_before; [|exact Rd]. by etrans.
  - destruct X as (-> & -> & ->). split_and!; [done|done| |done|done|done]. rewrite Pa, St, !app_nil_r.
    eapply runs_bind; [exact Rc|]. rewrite <- (app_nil_r (relay_part tl)). eapply runs_bind; [exact Rl'|]. by apply runs_ret.
Qed.

(** What holds of a session that ran from [w] to [w'], seen from the hub and the database. *)
Definition session_of_handlers (config : Config.t) (device owner : Uuid) (w w' : SocketWorld.t) (t : list SObs) (ended : option unit) : Prop :=
  rruns (bridge_life device owner (bridge_steps t) (bool_decide (ended = Some tt))) (world w) (relay_part t) (Some tt) (world w') /\
  (forall before now after, t = before ++ HeardBridge (CheckTick now) :: after -> Config.offline_after config < now - last_heard 0 before ->
    ended = Some tt /\ exists rest, after = OFFLINE_CLOSE :: map Did rest) /\
  (forall before after, t = before ++ OFFLINE_CLOSE :: after ->
    exists before' now, before = before' ++ [HeardBridge (CheckTick now)] /\ Config.offline_after config < now - last_heard 0 before').

Lemma session_handlers (config : Config.t) (fuel : nat) (device owner : Uuid) (w w' : SocketWorld.t) (t : list SObs) (a : option (option unit)) :
  sexec (bridge_session config fuel device owner) w t a w' -> writer w <> WriterJoined ->
  exists ended, a = Some ended /\ session_of_handlers config device owner w w' t ended.
Proof.
  intros X N. destruct (session_parts _ _ _ _ _ _ _ _ X N) as (t1 & start & t2 & r & t3 & -> & -> & Rl & [S1 S2] & Cl & E3).
  assert (Ls : forall k, last_heard 0 (map Did t1 ++ Started start :: k) = last_heard start k) by (intros k; by rewrite last_heard_did).
  eexists. split; [done|]. split_and!.
  - replace (bool_decide (_ = Some tt)) with (bool_decide (r <> None)); [done|]. by destruct r.
  - intros before now after E L. apply did_no_check in E as (b1 & -> & E); [|done]. destruct b1 as [|x b1]; [done|]. injection E as <- E. rewrite Ls in L.
    apply app_eq_inv in E as [(k & -> & E)|(k & -> & E)].
    + destruct k as [|y k]; [|injection E as <- ->; destruct (S1 _ _ _ eq_refl L) as [-> ->]; destruct E3 as (t4 & ->); split; [done|by exists t4]].
      exfalso. destruct r; [destruct E3 as (t4 & ->)|by subst t3]. done.
    + exfalso. destruct r; [destruct E3 as (t4 & ->)|by subst t3; destruct k]. destruct k as [|y k]; [done|]. injection E as <- E.
      assert (I : HeardBridge (CheckTick now) ∈ map Did t4) by (rewrite E; set_solver). by apply list_elem_of_fmap in I as (? & ? & _).
  - intros before after E. apply did_no_check in E as (b1 & -> & E); [|done]. destruct b1 as [|x b1]; [done|]. injection E as <- E.
    apply app_eq_inv in E as [(k & -> & E)|(k & -> & E)].
    + destruct k as [|y k]; [|injection E as <- ->; set_solver]. rewrite app_nil_r in *. destruct r as [e|]; [|by subst t3]. destruct E3 as (t4 & ->). injection E as E ->.
      destruct e; try done. destruct (S2 eq_refl) as (b2 & now & -> & L). exists (map Did t1 ++ Started start :: b2), now.
      rewrite Ls. split; [|done]. by rewrite <- app_assoc.
    + destruct r as [e|]; [|subst t3; by destruct k]. destruct E3 as (t4 & ->). destruct k as [|y k].
      * injection E as E <-. rewrite app_nil_r in *. destruct e; try done. destruct (S2 eq_refl) as (b2 & now & -> & L). exists (map Did t1 ++ Started start :: b2), now.
        rewrite Ls. split; [|done]. by rewrite <- app_assoc.
      * exfalso. injection E as _ E. assert (I : OFFLINE_CLOSE ∈ map Did t4) by (rewrite E; set_solver). by apply list_elem_of_fmap in I as (? & ? & _).
Qed.

(** C30. A connection of a Bridge is the handlers it calls.  After a hello of this very device, seen from the hub and the database it registers the Bridge,
    handles its messages and sends it heartbeats in the order they came, one after the other, and, whatever ended it,
    takes the Bridge off again and settles what was left; nothing panics.  The first check that comes longer than the limit
    after the last message ends it and closes it as offline, and only such a check does.  Any other first message is
    answered with an error and a close, and nothing is registered. *)
Theorem bridge_connection_is_its_handlers (config : Config.t) (fuel : nat) (device owner : Uuid) (w w' : SocketWorld.t) (t : list SObs) (a : option (option unit)) :
  sexec (bridge_connection config fuel device owner) w t a w' -> writer w = WriterAbsent ->
  exists first ended rest, a = Some ended /\ t = First first :: rest /\
    match bridge_handshake device first with
    | Err reason => ended = Some tt /\ exists ok1 ok2, rest = [SentWs HELLO_REFUSED ok1; SentWs (WsClose 1002 reason) ok2]
    | Ok _ => exists ok session, rest = SentWs BRIDGE_HELLO ok :: session /\ session_of_handlers config device owner w w' session ended
    end.
Proof.
  intros X A. assert (N : writer w <> WriterJoined) by (by rewrite A). clear A. unfold bridge_connection in X.
  socket_step X. destruct X as (w1 & first & w2 & t1 & N1 & R1 & [_ ->] & X & ->). cbn [sobs app]. exists first.
  destruct (bridge_handshake device first) as [u|reason] eqn:Hello.
  - socket_step X. destruct X as (w3 & ok & w4 & t3 & N3 & R3 & [_ ->] & X & ->). socket_step X. destruct X as (w5 & b & w6 & t5 & N5 & R5 & [_ ->] & X & ->). cbn [sobs app].
    apply session_handlers in X as (ended & -> & Rl & S); [|done]. eexists ended, _. split_and!; [done|done|]. exists ok, t5. split_and!; [done|].
    split; [|exact S]. eapply runs_before; [|exact Rl]. by do 2 (etrans; [done|]).
  - socket_step X. destruct X as (w3 & ok1 & w4 & t3 & N3 & R3 & [_ ->] & X & ->). socket_step X. destruct X as (w5 & ok2 & w6 & t5 & N5 & R5 & [_ ->] & X & ->).
    destruct X as (-> & -> & ->). eexists _, _. split_and!; [done|done|done|by exists ok1, ok2].
Qed.
End Connections.

(** ** Runs *)

Module SocketsDemo.
Import RelayDemo.

Notation none := (fun _ _ : RelayWorld.t => False).

(** *** A subscription *)

Definition ask_session (id : string) : Envelope.t :=
  Envelope.mk "q" "" "" 0 0 (Some (Subscribe (Some (SessionTarget (SessionKey.mk id 1 "n"))))).
Definition subscribing (id : string) : unit * list RObs * RelayWorld.t := eval 10 (handle_browser_envelope ("s1", "s2") (command "r") "c" (ask_session id)) start.

Lemma subscription_guarded_witness :
  attached_permitted "c" (subscribing "d").1.2 /\ existsb attaches (subscribing "d").1.2 = true /\ existsb attaches (subscribing "e").1.2 = false.
Proof.
  split; [|split; vm_compute; reflexivity].
  exact (subscription_guarded none ("s1", "s2") (command "r") "c" (ask_session "d") start _ _ _ (eval_run 10 _ _ start)).
Defined.

(** *** The end of a browser's queue *)

Definition some_frame : Frame.t := Frame.mk (base_envelope "d" Heartbeat) Recoverable None None 0 5.
Definition open_box : Outbox.t := Outbox.set [OutFrame some_frame; OutDirect [Byte.x41]] 1 6 false (Outbox.new 16 1000).
Definition closing : WriterWorld.t := WriterWorld.mk (close open_box "AUTH_EXPIRED") false.

Lemma writer_act {A B} (o : writer_op B) (k : B -> wprog A) (w w1 w' : WriterWorld.t) (b : B) (t : list WObs) (a : option A) :
  writing_step B o w (Some b) w1 -> texec wenv writing_step wobs (k b) w1 t a w' -> texec wenv writing_step wobs (Act o k) w (wobs B o b ++ t) a w'.
Proof. intros St X. exists w, (Some b), w1. split_and!; [constructor|done|]. by exists t. Qed.

Definition closing_run : list WObs :=
  [Took (TookItem (Some (OutDirect [Byte.x41]))); Put (WsBytes [Byte.x41]) Written; Took (TookItem (Some (OutClose "AUTH_EXPIRED"))); Put (WsClose 1008 "AUTH_EXPIRED") Written].

Lemma closing_exec : exists w', texec wenv writing_step wobs (browser_writer 5) closing closing_run (Some (Some tt)) w'.
Proof.
  eexists. refine (writer_act WriterNext _ _ _ _ (TookItem (Some (OutDirect [Byte.x41]))) _ _ _ _); [eexists; split; vm_compute; reflexivity|].
  refine (writer_act (BoundedSend _) _ _ _ _ Written _ _ _ _); [done|].
  refine (writer_act WriterNext _ _ _ _ (TookItem (Some (OutClose "AUTH_EXPIRED"))) _ _ _ _); [eexists; split; vm_compute; reflexivity|].
  refine (writer_act (BoundedSend _) _ _ _ _ Written _ _ _ _); [done|]. done.
Qed.

Lemma writer_closes_cleanly_witness : data closing_run = [WsBytes [Byte.x41]; WsClose 1008 "AUTH_EXPIRED"].
Proof.
  destruct closing_exec as [w' X]. destruct (writer_closes_cleanly 5 closing w' closing_run _ X) as (_ & _ & _ & C).
  destruct (C open_box "AUTH_EXPIRED" eq_refl eq_refl) as [_ D]; [repeat constructor; done|]. apply D; [done|by repeat constructor].
Defined.

(** *** The connections, with handlers that no other task disturbs *)

Notation sexec := (texec (senv none) sstep sobs).

Lemma socket_act {A B} (o : sop B) (k : B -> sprog A) (w w0 w1 w' : SocketWorld.t) (b : B) (t : list SObs) (a : option A) :
  rtc (senv none) w w0 -> sstep B o w0 (Some b) w1 -> sexec (k b) w1 t a w' -> sexec (Act o k) w (sobs B o b ++ t) a w'.
Proof. intros R St X. exists w0, (Some b), w1. split_and!; [done|done|]. by exists t. Qed.

Lemma relay_act {A B} (now : Z) (p : rprog A) (k : A -> sprog B) (r : RelayWorld.t) (s : WriterState) (w' : SocketWorld.t) (t : list SObs) (a : option B) :
  sexec (k (eval now p r).1.1) (SocketWorld.mk (eval now p r).2 s) t a w' ->
  sexec (prog_bind (relay p) k) (SocketWorld.mk r s) (map Did (eval now p r).1.2 ++ t) a w'.
Proof.
  revert r. induction p as [x|B' o q IH]; intros r X; [done|]. cbn [eval] in *.
  destruct (eval now (q (eval_op now o r).1) (eval_op now o r).2) as [[y t1] r1] eqn:E. specialize (IH (eval_op now o r).1 (eval_op now o r).2). rewrite E in IH.
  cbn [fst snd] in *. rewrite map_app, <- app_assoc. apply (socket_act (SRelay o) _ _ (SocketWorld.mk r s) (SocketWorld.mk (eval_op now o r).2 s) _ (eval_op now o r).1); [constructor| |by apply IH].
  split; [apply eval_op_step|done].
Qed.

Definition ident : BrowserIdentity.t := BrowserIdentity.mk "s" "a" 1000.
Definition browser_first : FirstMessage := Hello (ClientHello.mk PROTOCOL_VERSION CLIENT_BROWSER "").
Definition beat : Envelope.t := base_envelope "" Heartbeat.

(** The writing task ends first: the connection is removed, and the task is not waited for again. *)
Definition registering : unit * list RObs * RelayWorld.t := eval 10 (section (RegisterBrowser "b" ident (Outbox.new BROWSER_QUEUE_MAX_FRAMES BROWSER_QUEUE_MAX_BYTES))) start.
Definition beating : unit * list RObs * RelayWorld.t := eval 10 (handle_browser_envelope ("s1", "s2") (command "r") "b" beat) registering.2.
Definition removing : unit * list RObs * RelayWorld.t := eval 10 (section (RemoveBrowser "b")) beating.2.
Definition browser_rounds : list SObs :=
  [HeardBrowser (BrowserBinary (Some (("s1", "s2"), command "r", beat)))] ++ map Did beating.1.2 ++ [HeardBrowser WriterEnded] ++ [].
Definition browser_run : list SObs :=
  [First browser_first; SentWs BROWSER_HELLO true] ++ map Did registering.1.2 ++ browser_rounds ++ map Did removing.1.2 ++ [].

Lemma rounds_exec :
  sexec (browser_loop 5 "b") (SocketWorld.mk registering.2 WriterRunning) browser_rounds (Some (Some true)) (SocketWorld.mk beating.2 WriterJoined).
Proof.
  refine (socket_act SBrowserNext _ _ _ _ _ (BrowserBinary (Some (("s1", "s2"), command "r", beat))) _ _ _ _ _); [constructor|reflexivity|].
  refine (relay_act 10 _ _ registering.2 _ _ _ _ _).
  refine (socket_act SBrowserNext _ _ (SocketWorld.mk beating.2 WriterFinished) _ _ WriterEnded _ _ _ _ _); [|split; reflexivity|done].
  apply rtc_once. by right.
Qed.

Lemma browser_exec : sexec (browser_connection 5 ident "b") (SocketWorld.mk start WriterAbsent) browser_run (Some (Some tt)) (SocketWorld.mk removing.2 WriterJoined).
Proof.
  refine (socket_act SFirst _ _ _ _ _ browser_first _ _ _ _ _); [constructor|split; done|].
  refine (socket_act (SSend BROWSER_HELLO) _ _ _ _ _ true _ _ _ _ _); [constructor|split; done|].
  refine (relay_act 10 _ _ start _ _ _ _ _).
  refine (socket_act SSpawnWriter _ _ _ _ _ tt _ _ _ _ _); [constructor|split; done|].
  refine (texec_bind_intro _ _ _ _ _ _ _ _ browser_rounds (map Did removing.1.2 ++ []) (Some true) _ rounds_exec _).
  refine (socket_act SCancelWriter _ _ _ _ _ tt _ _ _ _ _); [constructor|split; done|].
  refine (relay_act 10 _ _ beating.2 _ _ _ _ _). done.
Qed.

Lemma browser_released_witness : HubInner.browsers (RelayWorld.hub removing.2) !! "b" = None /\ relay_part browser_run <> [].
Proof.
  split; [|vm_compute; done].
  destruct (browser_released none 5 ident "b" _ _ _ _ browser_exec eq_refl) as (ended & A & [(first & ok1 & ok2 & _ & _ & E)|[(first & _ & _ & E)|(_ & _ & G)]]).
  - exfalso. vm_compute in E. by injection E.
  - exfalso. vm_compute in E. by injection E.
  - apply G. by injection A as <-.
Defined.

(** A Bridge that sends its hello and then nothing is taken off at the first check that comes too late. *)
Definition bridge_first : FirstMessage := Hello (ClientHello.mk PROTOCOL_VERSION CLIENT_BRIDGE "d").
Definition connecting : unit * list RObs * RelayWorld.t := eval 10 (bridge_connected "d" "a" (Sink.mk BRIDGE_QUEUE_MAX_FRAMES [] false)) start.
Definition leaving : unit * list RObs * RelayWorld.t := eval 10 (bridge_disconnected "d" "a") connecting.2.
Definition bridge_rounds : list SObs := [HeardBridge (CheckTick 45000)] ++ [HeardBridge (CloseChanged false)] ++ [HeardBridge (CheckTick 45001)] ++ [].
Definition session_run : list SObs := map Did connecting.1.2 ++ [Started 0] ++ bridge_rounds ++ [OFFLINE_CLOSE] ++ map Did leaving.1.2 ++ [].
Definition bridge_run : list SObs := First bridge_first :: SentWs BRIDGE_HELLO true :: session_run.

Lemma bridge_rounds_exec :
  sexec (bridge_loop config 5 "d" 0) (SocketWorld.mk connecting.2 WriterRunning) bridge_rounds (Some (Some Offline)) (SocketWorld.mk connecting.2 WriterRunning).
Proof.
  refine (socket_act SBridgeNext _ _ _ _ _ (CheckTick 45000) _ _ _ _ _); [constructor|split; done|].
  refine (socket_act SBridgeNext _ _ _ _ _ (CloseChanged false) _ _ _ _ _); [constructor|split; done|].
  refine (socket_act SBridgeNext _ _ _ _ _ (CheckTick 45001) _ _ _ _ _); [constructor|split; done|]. done.
Qed.

Lemma session_exec (c : Config.t) (fuel : nat) (device owner : Uuid) (now t0 : Z) (r r2 : RelayWorld.t) (s : WriterState) (rounds : list SObs) (e : SessionEnded) :
  let connected := eval now (bridge_connected device owner (Sink.mk BRIDGE_QUEUE_MAX_FRAMES [] false)) r in
  let left := eval now (bridge_disconnected device owner) r2 in
  sexec (bridge_loop c fuel device t0) (SocketWorld.mk connected.2 s) rounds (Some (Some e)) (SocketWorld.mk r2 s) ->
  sexec (bridge_session c fuel device owner) (SocketWorld.mk r s)
    (map Did connected.1.2 ++ [Started t0] ++ rounds ++ [Controlled (WsClose 1008 (close_reason e))] ++ map Did left.1.2 ++ []) (Some (Some tt)) (SocketWorld.mk left.2 s).
Proof.
  intros connected left X. unfold bridge_session. apply relay_act.
  apply (socket_act SNow _ _ (SocketWorld.mk connected.2 s) (SocketWorld.mk connected.2 s) _ t0); [constructor|split; done|].
  eapply texec_bind_intro; [exact X|].
  apply (socket_act (SControl _) _ _ (SocketWorld.mk r2 s) (SocketWorld.mk r2 s) _ tt); [constructor|split; done|].
  apply (socket_act (SSleep 100) _ _ (SocketWorld.mk r2 s) (SocketWorld.mk r2 s) _ tt _ _); [constructor|split; done|].
  by apply relay_act.
Qed.

Lemma bridge_exec : sexec (bridge_connection config 5 "d" "a") (SocketWorld.mk start WriterAbsent) bridge_run (Some (Some tt)) (SocketWorld.mk leaving.2 WriterRunning).
Proof.
  refine (socket_act SFirst _ _ _ _ _ bridge_first _ _ _ _ _); [constructor|split; done|].
  refine (socket_act (SSend BRIDGE_HELLO) _ _ _ _ _ true _ _ _ _ _); [constructor|split; done|].
  refine (socket_act SSpawnWriter _ _ _ _ _ tt _ _ _ _ _); [constructor|split; done|].
  exact (session_exec config 5 "d" "a" 10 0 start connecting.2 WriterRunning bridge_rounds Offline bridge_rounds_exec).
Qed.

Lemma first_inj (a b : SObs) (l k : list SObs) : a :: l = b :: k -> a = b /\ l = k.
Proof. by intros [= -> ->]. Qed.

Lemma bridge_connection_is_its_handlers_witness :
  session_of_handlers none config "d" "a" (SocketWorld.mk start WriterAbsent) (SocketWorld.mk leaving.2 WriterRunning) session_run (Some tt).
Proof.
  destruct (bridge_connection_is_its_handlers none config 5 "d" "a" _ _ _ _ bridge_exec eq_refl) as (first & ended & rest & A & E & M).
  apply first_inj in E as [F E]. assert (first = bridge_first) as -> by (by injection F). assert (ended = Some tt) as -> by congruence. subst rest.
  vm_compute (bridge_handshake _ _) in M. destruct M as (ok & session & E & S). apply first_inj in E as [_ <-]. exact S.
Defined.

(** A Bridge that connects again closes its first connection with the reason of a revoked device. *)
Lemma replaced_as_revoked :
  BridgeConn.close <$> HubInner.bridges (hub_step 0 (ForceCloseBridge "d") (RelayWorld.hub start)) !! "d" = Some true /\ close_reason Revoked = "DEVICE_REVOKED".
Proof. split; vm_compute; reflexivity. Qed.
End SocketsDemo.
